(* ===== verification/_CoqProject ===== *)
-Q . S2P
Prelude.v
CLib.v
CNum.v
Json.v
FuncPerm.v
ApiPerm.v
LocPerm.v
LbacPerm.v
AbacPerm.v
Types.v
DataPerm.v
Storage.v
StorageMemory.v
PermCache.v
Context.v
RoleMgr.v
GroupMgr.v
UserMgr.v
PolicyMgr.v
RbacPerm.v
PermEngine.v
Decision.v
RateLimit.v
Bits.v
Mfa.v
Base64.v
TokenState.v
Token.v
TokenScan.v
TokenJwt.v
Printf.v
AuditLog.v
Intern.v
Arena.v
Dpop.v
Risk.v
Http.v
AuthHandlers.v
Oauth.v
Config.v
Boot.v
Tenant.v
Bootstrap.v
Webauthn.v
Raft.v
Redis.v
RedisServer.v
RedisSafety.v
RedisRows.v
RedisConn.v
Sql.v
SqlSafety.v
Sqlite.v
SqliteSafety.v
SqliteRows.v
SqliteOpen.v
Postgres.v
PostgresSafety.v
PostgresConn.v
HttpParse.v
Pool.v
AdminHandlers.v
CheckHandlers.v
Pages.v
Samples.v
PagesSafety.v
AuthSafety.v
OauthSafety.v
AdminSafety.v
CheckSafety.v
Routes.v
WebauthnSafety.v
RaftSafety.v
Server.v
Mhd.v
MhdSafety.v
Logger.v
Otlp.v
