(* ===== verification/Prelude.v ===== *)
(** * The SSO server: a verification development

    The program (src/) is a single sign-on server in C: users, roles and
    groups with permission policies, seven permission strategies, signed
    tokens, an OAuth 2.0 / OpenID Connect provider and an HTTP interface,
    over a choice of storage backends.  This file holds what all others
    share and this overview.

    ** How the program is put together

    The program reads its settings (config.c, main.c), brings a context up
    (sso.c, [sso_init]) and makes an administrator (main.c).  A connection
    is queued for the workers of the server (src/server.c); the request on
    it is parsed, the tenant of its host is brought up or looked up, and
    the request is matched against the
    route table (src/main.c), authenticated by the middleware
    (handlers_common.c, [authenticate_request]) and given to a handler
    (handlers_auth.c, handlers_admin.c, handlers_check.c, oauth.c, ...).
    Handlers call the managers (user.c,
    role.c, group.c, policy.c), the token manager (token.c), the permission
    engine (permission.c), the rate limiter (ratelimit.c) and the risk
    tables (risk.c).  Managers reach the storage backend through the table
    of operations of include/storage.h and invalidate the caches of the
    engine after a change.  The engine resolves the policies of a user
    through the policy manager, compiles their JSON rules with the
    strategies (strategies/*.c) and combines the verdicts.

    ** Files and sources

    - [CLib], [CNum]: the C library functions used, at C semantics
      (strings, strtod and %g on binary64).  [Json]: the values of yyjson.
    - [FuncPerm], [ApiPerm], [LocPerm], [LbacPerm], [AbacPerm],
      [DataPerm], [RbacPerm]: strategies/<name>_perm.c, each with compile,
      evaluate and validate.
    - [Types]: records and enums of include/*.h and the evaluation context
      of sso.c, whose [params] union is kept as bytes with a heap.
    - [Storage]: include/storage.h as a record of optional operations, and
      [StorageReads], what clients rely on.  [StorageMemory]:
      storage_memory.c, which discharges it.
    - [Redis], [RedisConn]: storage_redis.c; the operations as commands to
      the server, and DSNs, opening and the pool of connections.
      [RedisServer]: the documented behaviour of the server and a small
      one that has it.  [RedisSafety], [RedisRows]: what the backend
      guarantees, [StorageReads] included, and where it does not.
    - [Sql]: the part of SQL the SQL backends use, from text to meaning;
      [SqlSafety]: tables stay well formed, the recursive query ends.
      [Sqlite], [SqliteOpen]: storage_sqlite.c; the operations with their
      texts, and opening, migrations and connections of threads.
      [SqliteSafety], [SqliteRows]: the tables of sql/sqlite/schema.sql,
      what the library documents and what the backend guarantees.
    - [Postgres], [PostgresConn]: storage_postgres.c; the operations with
      their texts and parameters, and the pool of connections and the one
      a thread keeps.  [PostgresSafety]: the tables of
      sql/postgres/schema.sql, what libpq and the server document, and
      what the backend guarantees.
    - [PermCache], [PermEngine], [Decision]: permission.c; the caches, the
      engine, and what it decides.
    - [Context], [RoleMgr], [GroupMgr], [UserMgr], [PolicyMgr]: the shared
      context and role.c, group.c, user.c, policy.c.
    - [RateLimit]: ratelimit.c.  [Risk]: risk.c.  [Mfa]: mfa.c.
    - [Bits], [Base64]: the bit regrouping of the codecs, and base64url of
      token.c.  [TokenState], [Token], [TokenScan], [TokenJwt]: token.c;
      the revocation, session and nonce tables; keys, issuing and
      verifying; the JWT scanners; the theorems about whole tokens.
    - [Intern]: intern.c, with the interleavings of its critical sections.
      [Arena]: arena.c, on bytes.  [Dpop]: dpop.c.
    - [Config]: config.c, the start of main.c and the reload of server.c.
      [Boot]: sso_init of sso.c.  [Bootstrap]: the first start of main.c.
    - [HttpParse], [Tenant], [Pool], [Server]: server.c; the request
      parser on the reads of a connection, the registry of tenants, the
      queue of the workers, and a connection from the bytes in to the
      bytes out.
    - [Http]: handlers_common.c and the dispatch of server.c.
      [AuthHandlers]: handlers_auth.c.  [Oauth]: oauth.c.
      [AdminHandlers]: handlers_admin.c.  [CheckHandlers]:
      handlers_check.c.  [Webauthn]: webauthn.c and handlers_webauthn.c.
      [Pages]: handlers_pages.c.
    - [AuthSafety], [OauthSafety], [AdminSafety], [CheckSafety],
      [WebauthnSafety], [PagesSafety]: what those endpoints guarantee.
    - [Mhd]: server_mhd.c, the same server on libmicrohttpd; the calls of
      the connections of a thread on the arenas they share, the request
      and the answer.  [MhdSafety]: what it guarantees and does not.
    - [Raft]: raft_generated.inc, raft_cluster.c and raft_rpc.c.
      [RaftSafety]: what replication guarantees and loses.
    - [Printf]: the snprintf formats of the handlers.  [AuditLog]: the audit
      log of permission.c, its HMAC chain and the rotation of its file.
    - [Logger]: logger.c; the settings and the text of an entry.
      [Otlp]: otlp.c; spans, the ring and the worker of the exporter, the
      payload of a batch and the context of a thread.
    - [Samples]: concrete instances of the classes and a small server.
      [Routes]: the route table of main.c and runs of whole requests.

    ** Conventions

    A C string is the list of its characters before the NUL; buffers cut
    what does not fit, as the source does.  Integers are [Z] with
    wrap-around ([u64], [u32]) or overflow as undefined behaviour
    ([Crash]) where the source computes on them.  [outcome] is the result
    of code that may reach undefined behaviour, [result] the error code or
    value of a call.  An enum that the source fills by a cast has a
    constructor for the numbers it does not name.  Clocks, random bytes and the answers of allocators
    are arguments.  A handler is a function of the state monad of [Http].

    Code outside the program is a class: [JsonReader], [InsituReader] and
    [JsonWriter] (yyjson, vendored), [Pwhash] (libsodium), [Hmac],
    [Sha256], [Crypto], [RsaKeys], [RsaParams] and [EcKeys] (OpenSSL),
    [Curl], [Redis] and [Hiredis] (the Redis server and its client library),
    [Sqlite] and [SqliteFiles] (the SQLite library), [Libpq] and [PqConn]
    (libpq and the PostgreSQL server) and [RaftLib] (the vendored Raft
    library); libmicrohttpd is the record [mhd_lib] of its answers.  The
    [...Laws] classes state the documented behaviour relied on; [Samples]
    and the witnesses instantiate them.  [Interner] is what the token
    manager asks of the string pool; [Intern.pool_interner_laws]
    discharges it.

    ** What the theorems show

    - Decisions: the strategies decide what their rules say
      ([FuncPerm.wildcard_match_correct], [LocPerm.loc_cidr_rule_correct],
      ...), policy resolution is the sorted list of what the hierarchy
      grants, and a check allows exactly when a policy allows and none
      denies, over any backend; updates leave no stale cache entry.
    - Backends: the in-memory store, the Redis, the SQLite and the
      PostgreSQL backend keep what the managers rely on; every change of the SQLite backend keeps
      its tables well formed, rows are read back as they were created, the
      hierarchy query is exact and ends ([SqliteSafety], [SqliteRows]); on
      Redis rows stay hashes and relations sets
      through every operation, a role is read back as it was created,
      revoked ids are seen, and no two threads hold one connection of the
      pool ([RedisSafety], [RedisRows], [RedisConn]); a user comes back
      from PostgreSQL unchanged ([PostgresSafety]).
    - Tables: the rule cache, the rate limiter, the risk table and the
      string pool refine maps; the arena refines independent buffers; ids
      of the in-memory store identify rows.
    - Tokens: issued tokens verify and only they do, key rotation,
      revocation and the bound on concurrent sessions.
    - Requests: which requests the middleware accepts, what a login, a
      code exchange and a refresh imply, single use of codes and the death
      of replayed families, and that nothing but the public paths runs
      without a token.
    - WebAuthn: registration reads back what an authenticator made, and a
      login by credential implies a signature by the stored key over the
      challenge and the host ([Webauthn], [WebauthnSafety]).
    - Replication: an entry of the log makes every node run the operation
      that was asked for, cut to what the entry carries, and nodes that
      have applied equally many entries agree ([RaftSafety]).
    - Connections: what a client renders is parsed back, however it is
      split over reads, every field fits its array, responses are framed,
      and without a token the bytes that come back are a 401
      ([HttpParse], [Server]); the queue of connections is a bounded FIFO
      that a shutdown drains ([Pool]).  On libmicrohttpd a connection that
      has its thread to itself collects its body, and without a token the
      answer is a 401 too ([MhdSafety]).
    - Pages: the audit log that is served is the part of the file that was
      asked for, up to one block of memory ([PagesSafety]).
    - Logging and telemetry: an entry in JSON is one line that reads back
      as the bytes of its message, spans are exported in the order they
      ended and a shutdown exports all that were accepted, payloads fit
      their buffer and spans of a thread nest ([Logger], [Otlp]).
    - Start-up: the settings fit their types whatever the file and the
      environment say, the environment wins over the file ([Config]); the
      first start makes an administrator who can log in ([Bootstrap]);
      hosts reach contexts by their first label ([Tenant]).
    - Audit and administration: the log verifies, and another that
      verifies between the same first and last macs would break the HMAC
      ([AuditLog.audit_tamper_evident]); every administrative change
      but a key rotation is logged ([AdminSafety.changes_audited]).
    - Where the code does not do what it means to (stale compiled rules,
      decisions reused across records, cut tokens, the second factor that
      can be replaced, checks that crash on a confused union, numbers of a
      body that are never read, users that promote themselves, tenants that
      share their signing key, challenges signed with an empty key, a reload
      that overruns an array, replicated commands taken from anyone, rows
      of the Redis backend whose fields shift, a pool without an address,
      columns of the SQLite backend read in another order than they are
      stored, threads that read another tenant's database, bodies that
      connections of a thread write over each other, a public page that
      crashes the server, pools that are never given connections back,
      batches of spans that wait for the shutdown),
      a theorem exhibits the run.

    ** Fuel and bounds

    Loops over a string or table recurse on it.  Where the C loop has no
    structural measure the fuel is the length of the text or the capacity
    of the table plus one, and a lemma shows it is never used up (probing
    loops, the scanners of [TokenScan], [match_route]); the one loop that
    really may not end, the ancestor walk of the in-memory store, is
    shown to diverge for every fuel; the same walk of the Redis backend
    takes its fuel as an argument.

    ** Not modelled

    The accept loop, sockets and TLS of server.c, and the signals of both
    servers; threads, except as sequences of critical
    sections and of the calls of libmicrohttpd; the Raft library itself and the
    set-up of a cluster; the lines the modelled functions log and the spans
    they open on the way; the command line programs and the WASM stub; the vendored
    yyjson and toml parsers, which are parameters; the buffering of stdio
    under the audit log.  The handlers of pages, WebAuthn and Raft are
    parameters of the route table outside the runs of [MhdSafety],
    [WebauthnSafety] and [RaftSafety]. *)

From Stdlib Require Export ZArith Lia.
From Stdlib Require Export Ascii String.
From stdpp Require Export base list option strings gmap.

#[global] Open Scope Z_scope.
#[global] Set Default Goal Selector "!".

(* ------------------------------------------------------------------ *)
(** ** Error codes (include/sso.h)                                     *)

Inductive sso_error_t :=
| SSO_OK | SSO_ERR_GENERAL | SSO_ERR_NOT_FOUND | SSO_ERR_ALREADY_EXISTS
| SSO_ERR_INVALID_PARAM | SSO_ERR_NO_PERMISSION | SSO_ERR_AUTH_FAILED
| SSO_ERR_TOKEN_EXPIRED | SSO_ERR_TOKEN_INVALID | SSO_ERR_STORAGE
| SSO_ERR_STRATEGY_CONFLICT | SSO_ERR_STRATEGY_NOT_FOUND
| SSO_ERR_RULE_INVALID | SSO_ERR_OUT_OF_MEMORY | SSO_ERR_NOT_IMPLEMENTED
| SSO_ERR_RATE_LIMIT | SSO_ERR_SOCKET | SSO_ERR_BIND | SSO_ERR_LISTEN
| SSO_ERR_INIT | SSO_ERR_CURL | SSO_ERR_OAUTH_INVALID_CLIENT
| SSO_ERR_OAUTH_INVALID_GRANT | SSO_ERR_OAUTH_INVALID_SCOPE
| SSO_ERR_OAUTH_UNSUPPORTED_GRANT_TYPE | SSO_ERR_PASSWORD_EXPIRED.

#[global] Instance sso_error_eq_dec : EqDecision sso_error_t.
Proof. solve_decision. Defined.

(** [err == SSO_OK], the test almost every caller makes. *)
Definition is_ok (e : sso_error_t) : bool := bool_decide (e = SSO_OK).

Lemma is_ok_true e : is_ok e = true ↔ e = SSO_OK.
Proof. apply bool_decide_eq_true. Qed.

(* ------------------------------------------------------------------ *)
(** ** Outcomes

    [Ret a] is a normal return; [Crash] is undefined behaviour reached by
    the C code (a dereference of an invalid pointer, a confused type);
    [Diverge] is a loop that has used up its fuel.  A theorem that the
    code returns is always stated as an equation with [Ret]. *)

Inductive outcome (A : Type) := Ret (a : A) | Crash | Diverge.
Arguments Ret {A} a.
Arguments Crash {A}.
Arguments Diverge {A}.

#[global] Instance outcome_ret : MRet outcome := fun A a => Ret a.
#[global] Instance outcome_bind : MBind outcome := fun A B f m =>
  match m with Ret a => f a | Crash => Crash | Diverge => Diverge end.

Lemma outcome_bind_Ret {A B} (f : A → outcome B) (a : A) :
  mbind f (Ret a) = f a.
Proof. reflexivity. Qed.

Lemma outcome_bind_inv {A B} (f : A → outcome B) (m : outcome A) (b : B) :
  mbind f m = Ret b → ∃ a, m = Ret a ∧ f a = Ret b.
Proof. destruct m; simpl; [eauto | done | done]. Qed.

Lemma Ret_inj {A} (a b : A) : Ret a = Ret b → a = b.
Proof. congruence. Qed.

(** The value of an outcome, for executable witnesses. *)
Definition returned {A} (m : outcome A) : option A :=
  match m with Ret a => Some a | _ => None end.

Lemma returned_Ret {A} (m : outcome A) a : returned m = Some a → m = Ret a.
Proof. destruct m; [by intros [= ->]|done|done]. Qed.
Lemma returned_bind {A B} (m : outcome A) (f : A → outcome B) b :
  returned (a ← m; f a) = Some b → ∃ a, m = Ret a ∧ f a = Ret b.
Proof. intros E%returned_Ret. by apply outcome_bind_inv in E. Qed.

(* ------------------------------------------------------------------ *)
(** ** Machine integers *)

Definition u8 (z : Z) : Z := z mod 2 ^ 8.
Definition u32 (z : Z) : Z := z mod 2 ^ 32.
Definition u64 (z : Z) : Z := z mod 2 ^ 64.
Definition s32 (z : Z) : Z := (z + 2 ^ 31) mod 2 ^ 32 - 2 ^ 31.
Definition s64 (z : Z) : Z := (z + 2 ^ 63) mod 2 ^ 64 - 2 ^ 63.

Lemma u32_range z : 0 ≤ u32 z < 2 ^ 32.
Proof. apply Z.mod_pos_bound; lia. Qed.
Lemma u64_range z : 0 ≤ u64 z < 2 ^ 64.
Proof. apply Z.mod_pos_bound; lia. Qed.
Lemma u32_small z : 0 ≤ z < 2 ^ 32 → u32 z = z.
Proof. apply Z.mod_small. Qed.
Lemma u64_small z : 0 ≤ z < 2 ^ 64 → u64 z = z.
Proof. apply Z.mod_small. Qed.
Lemma s32_small z : - 2 ^ 31 ≤ z < 2 ^ 31 → s32 z = z.
Proof. intros H. unfold s32. rewrite Z.mod_small; lia. Qed.

(** Unsigned subtraction of a later from an earlier clock reading. *)
Lemma u64_sub_small a b : 0 ≤ b ≤ a → a < 2 ^ 64 → u64 (a - b) = a - b.
Proof. intros ??. apply u64_small; lia. Qed.

(** Disjoint bit ranges: or is addition. *)
Lemma lor_shift_add x y k :
  0 ≤ k → 0 ≤ y < 2 ^ k → Z.lor (Z.shiftl x k) y = x * 2 ^ k + y.
Proof.
  intros Hk Hy.
  assert (Hand : Z.land (Z.shiftl x k) y = 0).
  { apply Z.bits_inj'. intros n Hn. rewrite Z.land_spec, Z.bits_0, Z.shiftl_spec by done.
    rewrite <- (Z.mod_small y (2 ^ k)) by done. destruct (Z.lt_ge_cases n k).
    - by rewrite Z.testbit_neg_r by lia.
    - rewrite Z.mod_pow2_bits_high by lia. apply andb_false_r. }
  rewrite <- Z.lxor_lor, <- Z.add_nocarry_lxor by done.
  by rewrite Z.shiftl_mul_pow2 by done.
Qed.

(** Keeping the bits from [k] up. *)
Lemma land_high_bits x k n :
  0 ≤ k ≤ n → 0 ≤ x < 2 ^ n →
  Z.land x (2 ^ n - 2 ^ k) = Z.shiftl (Z.shiftr x k) k.
Proof.
  intros Hk Hx.
  replace (2 ^ n - 2 ^ k) with (Z.shiftl (Z.ones (n - k)) k).
  2: { rewrite Z.shiftl_mul_pow2, Z.ones_equiv by lia.
       replace n with ((n - k) + k) at 2 by lia. rewrite Z.pow_add_r by lia. lia. }
  apply Z.bits_inj'. intros i Hi. rewrite Z.land_spec, !Z.shiftl_spec by done.
  destruct (Z.lt_ge_cases i k).
  - rewrite !(Z.testbit_neg_r _ (i - k)) by lia. apply andb_false_r.
  - rewrite Z.shiftr_spec by lia. replace (i - k + k) with i by lia.
    destruct (Z.lt_ge_cases i n).
    + rewrite Z.ones_spec_low by lia. apply andb_true_r.
    + rewrite <- (Z.mod_small x (2 ^ n)) by done.
      by rewrite Z.mod_pow2_bits_high by lia.
Qed.

(* ------------------------------------------------------------------ *)
(** ** Lists *)

(** First element satisfying a test, with its index: the shape of every
    [for (i = 0; i < n; i++) if (test(a[i])) return i;] loop. *)
Fixpoint find_index {A} (f : A → bool) (l : list A) : option nat :=
  match l with
  | [] => None
  | x :: l' => if f x then Some O else S <$> find_index f l'
  end.

Lemma find_index_Some {A} (f : A → bool) (l : list A) i :
  find_index f l = Some i →
  ∃ x, l !! i = Some x ∧ f x = true ∧
       ∀ j y, (j < i)%nat → l !! j = Some y → f y = false.
Proof.
  revert i; induction l as [|x l IH]; intros i; simpl; [done|].
  destruct (f x) eqn:Hx.
  - intros [= <-]. exists x. repeat split; auto. intros; lia.
  - destruct (find_index f l) as [k|] eqn:Hk; simpl; [|done].
    intros [= <-]. destruct (IH k eq_refl) as (y & Hy & Hf & Hlt).
    exists y. repeat split; auto.
    intros [|j] z Hj Hz; simpl in Hz; [congruence|].
    apply (Hlt j); [lia|done].
Qed.

Lemma find_index_None {A} (f : A → bool) (l : list A) :
  find_index f l = None ↔ Forall (λ x, f x = false) l.
Proof.
  induction l as [|x l IH]; simpl; [by split|].
  destruct (f x) eqn:Hx.
  - split; [done|]. intros H; inversion H; congruence.
  - rewrite Forall_cons, <- IH.
    destruct (find_index f l); simpl; naive_solver.
Qed.

Lemma find_index_lt {A} (f : A → bool) (l : list A) i :
  find_index f l = Some i → (i < length l)%nat.
Proof.
  intros (x & Hx & _)%find_index_Some. by eapply lookup_lt_Some.
Qed.

(** [for (i = 0; i < n; i++) if (test(a[i])) return value(a[i]);] *)
Fixpoint first_match {A B} (test : A → bool) (value : A → B) (l : list A) : option B :=
  match l with
  | [] => None
  | x :: l' => if test x then Some (value x) else first_match test value l'
  end.

Lemma first_match_Some {A B} (test : A → bool) (value : A → B) (l : list A) b :
  first_match test value l = Some b ↔
  ∃ i x, l !! i = Some x ∧ test x = true ∧ value x = b ∧
    ∀ j y, (j < i)%nat → l !! j = Some y → test y = false.
Proof.
  induction l as [|x l IH]; cbn [first_match].
  - split; [done|]. by intros (i & y & H & _).
  - destruct (test x) eqn:E.
    + split.
      * intros [= <-]. exists O, x. split_and!; try done. intros; lia.
      * intros ([|i] & y & H & Ht & <- & Hj); simpl in H; [congruence|].
        specialize (Hj O x ltac:(lia) eq_refl). congruence.
    + rewrite IH. split.
      * intros (i & y & H & Ht & Hb & Hj). exists (S i), y. split_and!; try done.
        intros [|j] z Hlt Hl; simpl in Hl; [congruence|]. apply (Hj j); [lia|done].
      * intros ([|i] & y & H & Ht & Hb & Hj); simpl in H; [congruence|].
        exists i, y. split_and!; try done.
        intros j z Hlt Hl. apply (Hj (S j)); [lia|done].
Qed.

Lemma first_match_None {A B} (test : A → bool) (value : A → B) (l : list A) :
  first_match test value l = None ↔ Forall (λ x, test x = false) l.
Proof.
  induction l as [|x l IH]; cbn [first_match]; [by split|].
  rewrite Forall_cons, <- IH. destruct (test x); naive_solver.
Qed.

(* ------------------------------------------------------------------ *)
(** ** Automation *)

Create HintDb sso.
#[export] Hint Resolve u32_range u64_range find_index_lt : sso.
#[export] Hint Rewrite @outcome_bind_Ret : sso.

(** Case analysis on the scrutinee of a match or an if of the goal. *)
Ltac case_goal :=
  match goal with
  | |- context [match ?x with _ => _ end] => destruct x eqn:?
  end.

(** Turn boolean tests of hypotheses into propositions. *)
Ltac reflect_bools :=
  repeat match goal with
  | H : bool_decide _ = true |- _ => apply bool_decide_eq_true in H
  | H : bool_decide _ = false |- _ => apply bool_decide_eq_false in H
  | H : (_ && _)%bool = true |- _ => apply andb_true_iff in H as [??]
  | H : (_ || _)%bool = false |- _ => apply orb_false_iff in H as [??]
  | H : negb _ = true |- _ => apply negb_true_iff in H
  | H : negb _ = false |- _ => apply negb_false_iff in H
  | H : is_ok _ = true |- _ => apply is_ok_true in H
  | H : (_ =? _)%Z = true |- _ => apply Z.eqb_eq in H
  | H : (_ =? _)%Z = false |- _ => apply Z.eqb_neq in H
  | H : (_ <? _)%Z = true |- _ => apply Z.ltb_lt in H
  | H : (_ <? _)%Z = false |- _ => apply Z.ltb_ge in H
  | H : (_ <=? _)%Z = true |- _ => apply Z.leb_le in H
  | H : (_ <=? _)%Z = false |- _ => apply Z.leb_gt in H
  | H : (_ =? _)%nat = true |- _ => apply Nat.eqb_eq in H
  | H : (_ =? _)%nat = false |- _ => apply Nat.eqb_neq in H
  | H : (_ <? _)%nat = true |- _ => apply Nat.ltb_lt in H
  | H : (_ <? _)%nat = false |- _ => apply Nat.ltb_ge in H
  | H : (_ <=? _)%nat = true |- _ => apply Nat.leb_le in H
  | H : (_ <=? _)%nat = false |- _ => apply Nat.leb_gt in H
  | H : Ascii.eqb _ _ = true |- _ => apply Ascii.eqb_eq in H
  | H : Ascii.eqb _ _ = false |- _ => apply Ascii.eqb_neq in H
  end.
