(* ===== verification/CLib.v ===== *)
(** * The C library functions the server calls

    A C string is the list of its characters before the terminating NUL.
    The functions of [<string.h>], [<ctype.h>] and [<stdlib.h>] below are
    the ones the modelled sources use, together with [sso_strlcpy] of
    [include/sso.h]. *)

From S2P Require Import Prelude.

Notation cstr := (list ascii).
Coercion list_ascii_of_string : string >-> list.

Definition NUL : ascii := ascii_of_nat 0.

(** The C string stored at the start of a buffer. *)
Fixpoint c_str (buf : list ascii) : cstr :=
  match buf with
  | [] => []
  | c :: buf' => if Ascii.eqb c NUL then [] else c :: c_str buf'
  end.

Definition ord (c : ascii) : Z := Z.of_N (N_of_ascii c).
Definition chr (z : Z) : ascii := ascii_of_N (Z.to_N z).

(** [char] is signed on the supported targets. *)
Definition schar (c : ascii) : Z := if ord c <? 128 then ord c else ord c - 256.

Definition char_in (l : list ascii) (c : ascii) : bool := existsb (Ascii.eqb c) l.

(** Loops of the form [while (p( *s)) s++]. *)
Fixpoint skip_while (f : ascii → bool) (s : cstr) : cstr :=
  match s with [] => [] | c :: s' => if f c then skip_while f s' else s end.
Fixpoint take_while (f : ascii → bool) (s : cstr) : cstr :=
  match s with [] => [] | c :: s' => if f c then c :: take_while f s' else [] end.

(* ------------------------------------------------------------------ *)
(** ** Copies and comparisons *)

(** include/sso.h [sso_strlcpy]: [strncpy(dst, src ? src : "", size-1)]
    followed by [dst[size-1] = 0]; the resulting string. *)
Definition sso_strlcpy (src : option cstr) (size : nat) : cstr :=
  take (size - 1) (default [] src).

(** [strcmp(a, b) == 0] *)
Definition strcmp_eq (a b : cstr) : bool := bool_decide (a = b).

(** [strcmp(a, b)]: lexicographic on unsigned characters. *)
Fixpoint strcmp (a b : cstr) : comparison :=
  match a, b with
  | [], [] => Eq
  | [], _ :: _ => Lt
  | _ :: _, [] => Gt
  | x :: a', y :: b' =>
      match (ord x ?= ord y)%Z with Eq => strcmp a' b' | c => c end
  end.

Definition tolower (c : ascii) : ascii :=
  if (65 <=? ord c) && (ord c <=? 90) then chr (ord c + 32) else c.
(** [strcasecmp(a, b) == 0] *)
Definition strcasecmp_eq (a b : cstr) : bool :=
  bool_decide (map tolower a = map tolower b).

(** [strncmp(a, b, n) == 0] *)
Definition strncmp_eq (a b : cstr) (n : nat) : bool :=
  bool_decide (take n a = take n b).

(* ------------------------------------------------------------------ *)
(** ** Searches *)

Fixpoint starts_with (p s : cstr) : bool :=
  match p, s with
  | [], _ => true
  | x :: p', y :: s' => Ascii.eqb x y && starts_with p' s'
  | _ :: _, [] => false
  end.

(** [strstr(s, p)] as the offset of the first occurrence. *)
Fixpoint strstr (s p : cstr) : option nat :=
  if starts_with p s then Some O
  else match s with [] => None | _ :: s' => S <$> strstr s' p end.

(** [strchr(s, c)] for [c] other than NUL. *)
Definition strchr (s : cstr) (c : ascii) : option nat := find_index (Ascii.eqb c) s.

(** The pieces of [s] between separators, empty ones included. *)
Fixpoint split_on (sep : ascii) (s : cstr) : list cstr :=
  match s with
  | [] => [[]]
  | c :: s' =>
      if Ascii.eqb c sep then [] :: split_on sep s'
      else match split_on sep s' with
           | p :: ps => (c :: p) :: ps
           | [] => [[c]]
           end
  end.

(** The tokens [strtok(s, sep)], [strtok(NULL, sep)], ... return: the
    non-empty pieces. *)
Definition strtok_all (sep : ascii) (s : cstr) : list cstr :=
  filter (λ p, p ≠ []) (split_on sep s).

(* ------------------------------------------------------------------ *)
(** ** Numbers *)

Definition is_space (c : ascii) : bool :=
  (ord c =? 32) || ((9 <=? ord c) && (ord c <=? 13)).
Definition is_digit (c : ascii) : bool := (48 <=? ord c) && (ord c <=? 57).

Definition digits_val (s : cstr) : Z :=
  fold_left (λ v c, 10 * v + (ord c - 48)) s 0.

(** Optional sign: (is negative, rest). *)
Definition scan_sign (s : cstr) : bool * cstr :=
  match s with
  | c :: s' => if Ascii.eqb c "-" then (true, s')
               else if Ascii.eqb c "+" then (false, s') else (false, s)
  | [] => (false, [])
  end.

(** [strtoull]/[strtoul] after the digits are found: saturation at the
    largest value, negation modulo [2^64]. *)
Definition strtoull_val (neg : bool) (v : Z) : Z :=
  if 2 ^ 64 <=? v then 2 ^ 64 - 1 else if neg then u64 (- v) else v.

(** The [%u] conversion of [sscanf]: value stored in an [unsigned int]
    and the rest of the input; [None] is a matching failure. *)
Definition scan_u (s : cstr) : option (Z * cstr) :=
  let '(neg, s1) := scan_sign (skip_while is_space s) in
  match take_while is_digit s1 with
  | [] => None
  | ds => Some (u32 (strtoull_val neg (digits_val ds)), skip_while is_digit s1)
  end.

(** A literal character of a [sscanf] format. *)
Definition scan_lit (c : ascii) (s : cstr) : option cstr :=
  match s with
  | x :: s' => if Ascii.eqb x c then Some s' else None
  | [] => None
  end.

(** [strtoull(s, &end, 10)] *)
Definition strtoull (s : cstr) : Z * cstr :=
  let '(neg, s1) := scan_sign (skip_while is_space s) in
  match take_while is_digit s1 with
  | [] => (0, s)
  | ds => (strtoull_val neg (digits_val ds), skip_while is_digit s1)
  end.

(** [atoi]: [strtol] (saturating at 64 bits) truncated to [int]. *)
Definition atoi (s : cstr) : Z :=
  let '(neg, s1) := scan_sign (skip_while is_space s) in
  let v := digits_val (take_while is_digit s1) in
  let v := if neg then Z.max (- 2 ^ 63) (- v) else Z.min (2 ^ 63 - 1) v in
  s32 v.

(* ================================================================== *)
(** ** Lemmas *)

Lemma c_str_no_nul s : NUL ∉ c_str s.
Proof.
  induction s as [|c s IH]; simpl; [set_solver|].
  destruct (Ascii.eqb_spec c NUL); set_solver.
Qed.

Lemma c_str_id s : NUL ∉ s → c_str s = s.
Proof.
  induction s as [|c s IH]; simpl; [done|]. intros H.
  apply not_elem_of_cons in H as [??].
  destruct (Ascii.eqb_spec c NUL); [congruence|]. by rewrite IH.
Qed.

Lemma c_str_app_nul s t : NUL ∉ s → c_str (s ++ NUL :: t) = s.
Proof.
  induction s as [|c s IH]; simpl; [done|]. intros H.
  apply not_elem_of_cons in H as [??].
  destruct (Ascii.eqb_spec c NUL); [congruence|]. by rewrite IH.
Qed.

Lemma ord_range c : 0 ≤ ord c < 256.
Proof.
  unfold ord. pose proof (N_ascii_bounded c). lia.
Qed.

Lemma chr_ord c : chr (ord c) = c.
Proof. unfold chr, ord. rewrite N2Z.id. apply ascii_N_embedding. Qed.

Lemma ord_chr z : 0 ≤ z < 256 → ord (chr z) = z.
Proof.
  intros H. unfold ord, chr. rewrite N_ascii_embedding; [|lia]. lia.
Qed.

Lemma ord_inj a b : ord a = ord b → a = b.
Proof. intros H. by rewrite <- (chr_ord a), <- (chr_ord b), H. Qed.

Lemma strcmp_eq_iff a b : strcmp_eq a b = true ↔ a = b.
Proof. apply bool_decide_eq_true. Qed.

Lemma strcmp_Eq a b : strcmp a b = Eq ↔ a = b.
Proof.
  revert b; induction a as [|x a IH]; intros [|y b]; simpl; [done..|].
  destruct (Z.compare_spec (ord x) (ord y)) as [E|E|E].
  - rewrite IH. apply ord_inj in E. naive_solver.
  - split; [done|]. intros [= -> ->]. lia.
  - split; [done|]. intros [= -> ->]. lia.
Qed.

Lemma strcmp_antisym a b : strcmp b a = CompOpp (strcmp a b).
Proof.
  revert b; induction a as [|x a IH]; intros [|y b]; simpl; [done..|].
  rewrite (Z.compare_antisym (ord x)). destruct (ord x ?= ord y)%Z; simpl; auto.
Qed.

Lemma strcmp_Lt_trans a b c : strcmp a b = Lt → strcmp b c = Lt → strcmp a c = Lt.
Proof.
  revert b c; induction a as [|x a IH]; intros [|y b] [|z c]; simpl; try done.
  destruct (Z.compare_spec (ord x) (ord y)), (Z.compare_spec (ord y) (ord z));
    intros; try done;
    destruct (Z.compare_spec (ord x) (ord z)); try done; try lia; eauto.
Qed.

Lemma starts_with_iff p s : starts_with p s = true ↔ p `prefix_of` s.
Proof.
  revert s; induction p as [|x p IH]; intros s; simpl.
  - split; [intros _; apply prefix_nil|done].
  - destruct s as [|y s].
    + split; [done|]. intros H. by apply prefix_nil_not in H.
    + rewrite andb_true_iff, IH, Ascii.eqb_eq. split.
      * intros [-> ?]. by apply prefix_cons.
      * intros H. split; [by eapply prefix_cons_inv_1|by eapply prefix_cons_inv_2].
Qed.

(** [strstr] finds the first occurrence. *)
Lemma strstr_Some s p i :
  strstr s p = Some i →
  p `prefix_of` drop i s ∧ (i ≤ length s)%nat ∧
  ∀ j, (j < i)%nat → ¬ p `prefix_of` drop j s.
Proof.
  revert i; induction s as [|c s IH]; intros i; cbn [strstr].
  - destruct (starts_with p []) eqn:E; [|done].
    intros [= <-]. apply starts_with_iff in E. simpl. auto with lia.
  - destruct (starts_with p (c :: s)) eqn:E.
    + intros [= <-]. apply starts_with_iff in E. simpl. split_and!; [done|lia|lia].
    + destruct (strstr s p) as [k|]; simpl; [|done]. intros [= <-].
      destruct (IH k eq_refl) as (?&?&Hj). simpl. split_and!; [done|lia|].
      intros [|j] Hlt; simpl.
      * rewrite <- starts_with_iff. congruence.
      * apply Hj. lia.
Qed.

Lemma strstr_None s p : strstr s p = None → ∀ j, ¬ p `prefix_of` drop j s.
Proof.
  induction s as [|c s IH]; cbn [strstr].
  - destruct (starts_with p []) eqn:E; [done|]. intros _ j.
    rewrite drop_nil, <- starts_with_iff. congruence.
  - destruct (starts_with p (c :: s)) eqn:E; [done|].
    destruct (strstr s p); simpl; [done|]. intros _ [|j]; simpl.
    + rewrite <- starts_with_iff. congruence.
    + by apply IH.
Qed.

Lemma strchr_app s c t : c ∉ s → strchr (s ++ c :: t) c = Some (length s).
Proof.
  unfold strchr. induction s as [|x s IH]; simpl.
  - by rewrite Ascii.eqb_refl.
  - intros [Hx Hs]%not_elem_of_cons. rewrite (proj2 (Ascii.eqb_neq c x)) by done.
    by rewrite IH.
Qed.

Lemma strchr_None s c : c ∉ s → strchr s c = None.
Proof.
  intros H. apply find_index_None, Forall_forall. intros x Hx.
  apply Ascii.eqb_neq. set_solver.
Qed.

Lemma take_skip_while f s : take_while f s ++ skip_while f s = s.
Proof. induction s as [|c s IH]; simpl; [done|]. destruct (f c); simpl; congruence. Qed.

Lemma skip_while_length f s : (length (skip_while f s) ≤ length s)%nat.
Proof. induction s as [|c s IH]; simpl; [done|]. destruct (f c); simpl; lia. Qed.

Lemma skip_while_hd f c s : f c = false → skip_while f (c :: s) = c :: s.
Proof. simpl. by intros ->. Qed.

Lemma skip_while_all f s : Forall (λ c, f c = true) s → skip_while f s = [].
Proof. induction 1 as [|c s Hc _ IH]; simpl; [done|]. by rewrite Hc. Qed.

Lemma skip_while_app f s t :
  Forall (λ c, f c = true) s → skip_while f (s ++ t) = skip_while f t.
Proof. induction 1 as [|c s Hc _ IH]; simpl; [done|]. by rewrite Hc. Qed.

Lemma take_while_app f s t :
  Forall (λ c, f c = true) s → take_while f (s ++ t) = s ++ take_while f t.
Proof. induction 1 as [|c s Hc _ IH]; simpl; [done|]. by rewrite Hc, IH. Qed.

Lemma strcmp_eq_refl s : strcmp_eq s s = true.
Proof. by apply strcmp_eq_iff. Qed.

Lemma sso_strlcpy_length s n :
  (length (sso_strlcpy s n) ≤ n - 1)%nat.
Proof. unfold sso_strlcpy. rewrite length_take. lia. Qed.

Lemma sso_strlcpy_fits s n :
  (length s < n)%nat → sso_strlcpy (Some s) n = s.
Proof. intros H. unfold sso_strlcpy; simpl. apply take_ge. lia. Qed.

Lemma sso_strlcpy_no_nul s n : NUL ∉ s → NUL ∉ sso_strlcpy (Some s) n.
Proof.
  intros H Hin. apply H. unfold sso_strlcpy in Hin; simpl in Hin.
  eapply elem_of_prefix; [exact Hin|]. apply prefix_take.
Qed.

Lemma split_on_ne sep s : split_on sep s ≠ [].
Proof. destruct s as [|c s]; simpl; [done|]. repeat case_goal; done. Qed.

Lemma split_on_app sep s t :
  sep ∉ s → split_on sep (s ++ sep :: t) = s :: split_on sep t.
Proof.
  induction s as [|c s IH]; simpl.
  - by rewrite Ascii.eqb_refl.
  - intros [Hc Hs]%not_elem_of_cons. rewrite IH by done.
    by rewrite (proj2 (Ascii.eqb_neq c sep)) by congruence.
Qed.

Lemma split_on_single sep s : sep ∉ s → split_on sep s = [s].
Proof.
  induction s as [|c s IH]; simpl; [done|].
  intros [Hc Hs]%not_elem_of_cons. rewrite IH by done.
  by rewrite (proj2 (Ascii.eqb_neq c sep)) by congruence.
Qed.

Definition not_sep (sep c : ascii) : bool := negb (Ascii.eqb c sep).

Lemma not_sep_Forall sep s : sep ∉ s → Forall (λ c, not_sep sep c = true) s.
Proof.
  intros H. apply Forall_forall. intros c Hc. unfold not_sep.
  apply negb_true_iff, Ascii.eqb_neq. set_solver.
Qed.

Lemma split_on_unfold sep s :
  split_on sep s =
  take_while (not_sep sep) s ::
    match skip_while (not_sep sep) s with [] => [] | _ :: t => split_on sep t end.
Proof.
  induction s as [|c s IH]; cbn [split_on take_while skip_while]; [done|].
  replace (not_sep sep c) with (negb (Ascii.eqb c sep)) by done.
  destruct (Ascii.eqb c sep); simpl; [done|]. by rewrite IH.
Qed.

Lemma split_on_prefix sep a t :
  ∃ q qs, split_on sep (a ++ sep :: t) = q :: qs ++ split_on sep t.
Proof.
  induction a as [|c a (q & qs & IH)]; cbn [split_on app].
  - rewrite Ascii.eqb_refl. by exists [], [].
  - rewrite IH. destruct (Ascii.eqb c sep).
    + by exists [], (q :: qs).
    + by exists (c :: q), qs.
Qed.

Lemma elem_of_take_while f s c : c ∈ take_while f s → f c = true.
Proof.
  induction s as [|x s IH]; simpl; [set_solver|].
  destruct (f x) eqn:E; [|set_solver].
  intros [->|?]%elem_of_cons; auto.
Qed.

Lemma skip_while_cons_inv f s c t : skip_while f s = c :: t → f c = false.
Proof.
  induction s as [|x s IH]; simpl; [done|].
  destruct (f x) eqn:E; [auto|]. congruence.
Qed.

(** A piece occupies a stretch of the text delimited by separators or by
    the ends of the text. *)
Lemma elem_of_split_on sep s p :
  p ∈ split_on sep s ↔
  sep ∉ p ∧ ∃ a b, s = a ++ p ++ b ∧
    (a = [] ∨ last a = Some sep) ∧ (b = [] ∨ head b = Some sep).
Proof.
  split.
  - remember (length s) as n eqn:Hn. revert s Hn.
    induction (lt_wf n) as [n _ IH]. intros s ->. rewrite split_on_unfold.
    pose proof (take_skip_while (not_sep sep) s) as Hs.
    intros [->|Hp]%elem_of_cons.
    + split.
      * intros H%elem_of_take_while. unfold not_sep in H.
        by rewrite Ascii.eqb_refl in H.
      * exists [], (skip_while (not_sep sep) s). split_and!; [done|auto|].
        destruct (skip_while (not_sep sep) s) as [|c t] eqn:E; [auto|right].
        apply skip_while_cons_inv in E. unfold not_sep in E. reflect_bools.
        by subst.
    + destruct (skip_while (not_sep sep) s) as [|c t] eqn:E; [set_solver|].
      pose proof (skip_while_cons_inv _ _ _ _ E) as Hc. unfold not_sep in Hc.
      reflect_bools; subst c.
      destruct (IH (length t)) with (s := t) as (Hp' & a & b & -> & Ha & Hb);
        [|done|done|].
      { rewrite <- Hs, length_app. simpl. lia. }
      split; [done|]. exists (take_while (not_sep sep) s ++ sep :: a), b.
      split_and!; [by rewrite <- app_assoc|right|done].
      rewrite last_app_cons. destruct Ha as [->|Ha]; [done|].
      by rewrite last_cons, Ha.
  - intros (Hp & a & b & -> & Ha & Hb).
    assert (Hin : p ∈ split_on sep (p ++ b)).
    { destruct Hb as [->|Hb].
      - rewrite app_nil_r, split_on_single by done. set_solver.
      - destruct b as [|c b]; [done|]. injection Hb as ->.
        rewrite split_on_app by done. set_solver. }
    destruct Ha as [->|(a0 & ->)%last_Some]; [done|].
    rewrite <- app_assoc. destruct (split_on_prefix sep a0 (p ++ b)) as (q & qs & E).
    simpl in *. rewrite E. set_solver.
Qed.

#[export] Hint Resolve c_str_no_nul ord_range sso_strlcpy_no_nul : sso.
