(* ===== verification/CNum.v ===== *)
(** * Doubles: [strtod] and the [%g] conversion

    The attribute-based and data-scope strategies compare numbers through
    their text: a JSON number is printed with [snprintf("%g")] and read
    back with [strtod].  Doubles are the IEEE-754 binary64 values of
    [SpecFloat]; both directions are correctly rounded, as glibc does. *)

From Stdlib Require Import SpecFloat.
From S2P Require Import Prelude CLib.

Notation double := spec_float.
Definition prec : Z := 53.
Definition emax : Z := 1024.

(** Round [m * 2^e] to the nearest double, ties to even. *)
Definition round_double (m e : Z) : double := binary_normalize prec emax m e false.

(** Conversion of an integer to [double]. *)
Definition double_of_Z (z : Z) : double := round_double z 0.

Definition neg_double (neg : bool) (d : double) : double :=
  if neg then SFopp d else d.

(** Round [m * 10^e], for [m >= 0].  Exponents outside the range of
    doubles are recognised first; a negative power of ten is divided out
    keeping 66 bits and a sticky bit. *)
Definition round_decimal (m e : Z) (ndigits : nat) : double :=
  if m =? 0 then S754_zero false
  else if 400 <? e then S754_infinity false
  else if Z.of_nat ndigits + e <? -400 then S754_zero false
  else if 0 <=? e then round_double (m * 10 ^ e) 0
  else
    let d := 10 ^ (- e) in
    let k := Z.max 0 (66 + Z.log2 d - Z.log2 m) in
    let n := m * 2 ^ k in
    let sticky := if n mod d =? 0 then 0 else 1 in
    round_double (2 * (n / d) + sticky) (- k - 1).

(* ------------------------------------------------------------------ *)
(** ** [strtod] *)

Definition hex_val (c : ascii) : option Z :=
  let o := ord c in
  if (48 <=? o) && (o <=? 57) then Some (o - 48)
  else if (97 <=? o) && (o <=? 102) then Some (o - 87)
  else if (65 <=? o) && (o <=? 70) then Some (o - 55)
  else None.
Definition is_xdigit (c : ascii) : bool := bool_decide (is_Some (hex_val c)).
Definition hex_digits_val (s : cstr) : Z :=
  fold_left (λ v c, 16 * v + default 0 (hex_val c)) s 0.

(** Fraction digits after an optional point: (digits, rest). *)
Definition scan_fraction (isd : ascii → bool) (s : cstr) : cstr * cstr :=
  match s with
  | c :: s' => if Ascii.eqb c "." then (take_while isd s', skip_while isd s') else ([], s)
  | [] => ([], [])
  end.

(** Optional exponent introduced by [mark] (lower case). *)
Definition scan_exponent (mark : ascii) (s : cstr) : Z :=
  match s with
  | c :: s' =>
      if Ascii.eqb (tolower c) mark then
        let '(neg, s1) := scan_sign s' in
        let v := digits_val (take_while is_digit s1) in
        if neg then - v else v
      else 0
  | [] => 0
  end.

Definition strtod_hex (s : cstr) : double :=
  let ip := take_while is_xdigit s in
  let '(fp, rest) := scan_fraction is_xdigit (skip_while is_xdigit s) in
  let e := scan_exponent "p" rest - 4 * Z.of_nat (length fp) in
  let m := hex_digits_val (ip ++ fp) in
  if m =? 0 then S754_zero false
  else if 2000 <? e then S754_infinity false
  else if e + 4 * Z.of_nat (length (ip ++ fp)) <? -2000 then S754_zero false
  else round_double m e.

Definition strtod_dec (s : cstr) : double :=
  let ip := take_while is_digit s in
  let '(fp, rest) := scan_fraction is_digit (skip_while is_digit s) in
  match ip ++ fp with
  | [] => S754_zero false
  | ds => round_decimal (digits_val ds)
            (scan_exponent "e" rest - Z.of_nat (length fp)) (length ds)
  end.

Definition lower_prefix (p s : cstr) : bool := starts_with p (map tolower s).

(** A hexadecimal constant needs a digit after [0x] or after [0x.]. *)
Definition is_hex_start (s : cstr) : bool :=
  match s with
  | z :: x :: d :: s' =>
      Ascii.eqb z "0" && Ascii.eqb (tolower x) "x" &&
      (is_xdigit d || (Ascii.eqb d "." && match s' with d' :: _ => is_xdigit d' | [] => false end))
  | _ => false
  end.

(** [strtod(s, NULL)]; the sign of a zero result is kept, as in C. *)
Definition strtod (s : cstr) : double :=
  let '(neg, s1) := scan_sign (skip_while is_space s) in
  let v :=
    if lower_prefix "inf" s1 then S754_infinity false
    else if lower_prefix "nan" s1 then S754_nan
    else if is_hex_start s1 then strtod_hex (drop 2 s1)
    else strtod_dec s1 in
  neg_double neg v.

Definition double_lt (a b : double) : bool := SFltb a b.
Definition double_le (a b : double) : bool := SFleb a b.

(* ------------------------------------------------------------------ *)
(** ** Decimal text of an integer *)

Fixpoint print_base_loop (fuel : nat) (b n : Z) (acc : cstr) : cstr :=
  match fuel with
  | O => acc
  | S fuel' =>
      let d := n mod b in
      let c := chr (if d <? 10 then 48 + d else 87 + d) in
      if n <? b then c :: acc else print_base_loop fuel' b (n / b) (c :: acc)
  end.

(** [%u]/[%llu] ([b = 10]) and [%x]/[%llx] ([b = 16]) of [n >= 0].  A
    number of [k] bits has at most [k] digits. *)
Definition print_base (b n : Z) : cstr :=
  print_base_loop (S (Z.to_nat (Z.log2 n))) b n [].
Definition print_dec (n : Z) : cstr := print_base 10 n.
Definition print_hex (n : Z) : cstr := print_base 16 n.

(** Zero padding on the left to [w] characters ([%0wu], [%0wx]). *)
Definition zero_pad (w : nat) (s : cstr) : cstr := replicate (w - length s) "0"%char ++ s.

(* ------------------------------------------------------------------ *)
(** ** [%g] *)

(** [num/den] rounded to an integer, ties to even. *)
Definition round_div (num den : Z) : Z :=
  let q := num / den in
  let r := num mod den in
  if 2 * r <? den then q
  else if den <? 2 * r then q + 1
  else if Z.even q then q else q + 1.

Definition strip_zeros (s : cstr) : cstr := rev (skip_while (Ascii.eqb "0") (rev s)).

Definition with_fraction (ip fp : cstr) : cstr :=
  match strip_zeros fp with [] => ip | fp' => ip ++ "."%char :: fp' end.

(** Text of six significant digits [d] (a number of six digits) with
    decimal exponent [x]. *)
Definition g_text (d x : Z) : cstr :=
  let ds := print_dec d in
  if (-4 <=? x) && (x <? 6) then
    if 0 <=? x then with_fraction (take (Z.to_nat (x + 1)) ds) (drop (Z.to_nat (x + 1)) ds)
    else with_fraction "0" (replicate (Z.to_nat (- x - 1)) "0"%char ++ ds)
  else
    with_fraction (take 1 ds) (drop 1 ds) ++ "e"%char ::
      (if x <? 0 then "-"%char else "+"%char) :: zero_pad 2 (print_dec (Z.abs x)).

Definition g_positive (m e : Z) : cstr :=
  let num := if 0 <=? e then m * 2 ^ e else m in
  let den := if 0 <=? e then 1 else 2 ^ (- e) in
  let x := Z.of_nat (length (print_dec (num * 10 ^ 340 / den))) - 341 in
  let d := if 5 <=? x then round_div num (den * 10 ^ (x - 5))
           else round_div (num * 10 ^ (5 - x)) den in
  if d =? 10 ^ 6 then g_text (10 ^ 5) (x + 1) else g_text d x.

(** [snprintf(buf, n, "%g", d)], before truncation to the buffer. *)
Definition fmt_g (d : double) : cstr :=
  match d with
  | S754_zero s => if s then "-0" else "0"
  | S754_infinity s => if s then "-inf" else "inf"
  | S754_nan => "nan"
  | S754_finite s m e => if s then "-"%char :: g_positive (Zpos m) e else g_positive (Zpos m) e
  end.

(** Executable checks against the C library's documented results. *)
Example fmt_g_samples :
  map (λ z, string_of_list_ascii (fmt_g (double_of_Z z)))
      [0; 7; -42; 100000; 123456; 1234567; 1000000; 999999; 9999995]
  = ["0"; "7"; "-42"; "100000"; "123456"; "1.23457e+06"; "1e+06"; "999999"; "1e+07"]%string.
Proof. vm_compute. reflexivity. Qed.

Example fmt_g_fractions :
  map (λ s : string, string_of_list_ascii (fmt_g (strtod s)))
      ["0.1"; "1.5"; "-2.50"; "1e-5"; "0.0001"; "3.14159265"; "1e400"; "0x1.8p1"; "abc"]%string
  = ["0.1"; "1.5"; "-2.5"; "1e-05"; "0.0001"; "3.14159"; "inf"; "3"; "0"]%string.
Proof. vm_compute. reflexivity. Qed.

(* ================================================================== *)
(** ** Decimal text: printing and reading back *)

Lemma digits_val_snoc s c : digits_val (s ++ [c]) = 10 * digits_val s + (ord c - 48).
Proof. unfold digits_val. by rewrite fold_left_app. Qed.

Lemma is_digit_chr d : 0 ≤ d < 10 → is_digit (chr (48 + d)) = true.
Proof. intros H. unfold is_digit. rewrite ord_chr by lia. lia. Qed.

Lemma print_dec_loop fuel n acc :
  0 ≤ n < 10 ^ Z.of_nat fuel →
  (0 < fuel)%nat →
  ∃ ds, print_base_loop fuel 10 n acc = ds ++ acc ∧ ds ≠ [] ∧
        Forall (λ c, is_digit c = true) ds ∧ digits_val ds = n.
Proof.
  revert n acc. induction fuel as [|fuel IH]; intros n acc Hn Hf; [lia|].
  cbn [print_base_loop]. pose proof (Z.mod_pos_bound n 10 ltac:(lia)) as Hm.
  rewrite (proj2 (Z.ltb_lt (n mod 10) 10)) by lia.
  set (c := chr (48 + n mod 10)).
  assert (Hc : ord c = 48 + n mod 10) by (unfold c; rewrite ord_chr; lia).
  assert (Hd : is_digit c = true) by (apply is_digit_chr; lia).
  destruct (Z.ltb_spec n 10) as [Hlt|Hge].
  - exists [c]. split_and!; [done|done|auto|].
    unfold digits_val; simpl. rewrite Hc, Z.mod_small; lia.
  - assert (Hpow : 10 ^ Z.of_nat (S fuel) = 10 * 10 ^ Z.of_nat fuel).
    { rewrite Nat2Z.inj_succ, Z.pow_succ_r by lia. done. }
    assert (Hf' : (0 < fuel)%nat) by (destruct fuel; [simpl in Hn; lia|lia]).
    destruct (IH (n / 10) (c :: acc)) as (ds & -> & Hne & Hall & Hv); [|done|].
    { split; [apply Z.div_pos; lia|]. apply Z.div_lt_upper_bound; lia. }
    exists (ds ++ [c]). split_and!.
    + by rewrite <- app_assoc.
    + by destruct ds.
    + apply Forall_app. auto.
    + rewrite digits_val_snoc, Hv, Hc. pose proof (Z.div_mod n 10). lia.
Qed.

(** The decimal text of a number: digits, at least one, with its value. *)
Lemma print_dec_spec n :
  0 ≤ n → print_dec n ≠ [] ∧ Forall (λ c, is_digit c = true) (print_dec n) ∧
          digits_val (print_dec n) = n.
Proof.
  intros Hn. unfold print_dec, print_base.
  destruct (print_dec_loop (S (Z.to_nat (Z.log2 n))) n []) as (ds & E & H); [|lia|].
  - split; [done|]. destruct (Z.eq_dec n 0) as [->|]; [done|].
    pose proof (Z.log2_spec n ltac:(lia)) as [_ H2]. pose proof (Z.log2_nonneg n).
    rewrite Nat2Z.inj_succ, Z2Nat.id by done.
    eapply Z.lt_le_trans; [exact H2|]. apply Z.pow_le_mono_l. lia.
  - rewrite app_nil_r in E. by rewrite E.
Qed.

(** A number below [10^k] has at most [k] digits. *)
Lemma print_dec_loop_length fuel k n acc :
  0 ≤ n < 10 ^ Z.of_nat (S k) → (length (print_base_loop fuel 10 n acc) ≤ S k + length acc)%nat.
Proof.
  revert k n acc. induction fuel as [|fuel IH]; intros k n acc Hn; cbn [print_base_loop]; [lia|].
  destruct (Z.ltb_spec n 10); [simpl; lia|]. destruct k as [|k]; [simpl in Hn; lia|].
  etrans; [apply (IH k)|simpl; lia]. split; [apply Z.div_pos; lia|].
  apply Z.div_lt_upper_bound; [lia|]. rewrite <- Z.pow_succ_r, <- Nat2Z.inj_succ by lia. lia.
Qed.

Lemma is_digit_not_space c : is_digit c = true → is_space c = false.
Proof. unfold is_digit, is_space. lia. Qed.

Lemma is_digit_not_sign c :
  is_digit c = true → Ascii.eqb c "-" = false ∧ Ascii.eqb c "+" = false.
Proof.
  intros H. split; apply Ascii.eqb_neq; intros ->; by vm_compute in H.
Qed.

(** Reading digits: no space to skip, no sign. *)
Lemma scan_digits ds rest :
  ds ≠ [] → Forall (λ c, is_digit c = true) ds →
  match rest with c :: _ => is_digit c = false | [] => True end →
  scan_sign (skip_while is_space (ds ++ rest)) = (false, ds ++ rest) ∧
  take_while is_digit (ds ++ rest) = ds ∧ skip_while is_digit (ds ++ rest) = rest.
Proof.
  intros Hne Hd Hr. split_and!.
  - destruct ds as [|c ds]; [done|]. inversion Hd; subst. simpl.
    rewrite is_digit_not_space by done. simpl.
    destruct (is_digit_not_sign c) as [-> ->]; done.
  - rewrite take_while_app by done. destruct rest as [|c rest]; simpl; [by rewrite app_nil_r|].
    by rewrite Hr, app_nil_r.
  - rewrite skip_while_app by done. destruct rest as [|c rest]; simpl; [done|]. by rewrite Hr.
Qed.

Lemma scan_u_print n rest :
  0 ≤ n < 2 ^ 32 →
  match rest with c :: _ => is_digit c = false | [] => True end →
  scan_u (print_dec n ++ rest) = Some (n, rest).
Proof.
  intros Hn Hr. destruct (print_dec_spec n) as (Hne & Hd & Hv); [lia|].
  destruct (scan_digits _ rest Hne Hd Hr) as (E1 & E2 & E3).
  unfold scan_u. rewrite E1, E2, E3.
  destruct (print_dec n) as [|c l]; [done|]. rewrite Hv. unfold strtoull_val.
  rewrite (proj2 (Z.leb_gt (2 ^ 64) n)) by lia. by rewrite u32_small.
Qed.

Lemma strtoull_print n rest :
  0 ≤ n < 2 ^ 64 →
  match rest with c :: _ => is_digit c = false | [] => True end →
  strtoull (print_dec n ++ rest) = (n, rest).
Proof.
  intros Hn Hr. destruct (print_dec_spec n) as (Hne & Hd & Hv); [lia|].
  destruct (scan_digits _ rest Hne Hd Hr) as (E1 & E2 & E3).
  unfold strtoull. rewrite E1, E2, E3.
  destruct (print_dec n) as [|c l]; [done|]. rewrite Hv. unfold strtoull_val.
  by rewrite (proj2 (Z.leb_gt (2 ^ 64) n)) by lia.
Qed.

Lemma atoi_print n : 0 ≤ n < 2 ^ 31 → atoi (print_dec n) = n.
Proof.
  intros Hn. destruct (print_dec_spec n) as (Hne & Hd & Hv); [lia|].
  destruct (scan_digits _ [] Hne Hd I) as (E1 & E2 & E3). rewrite app_nil_r in *.
  unfold atoi. rewrite E1, E2, Hv. rewrite Z.min_r by lia. apply s32_small. lia.
Qed.
