(* ===== verification/Json.v ===== *)
(** * JSON values as the yyjson library presents them

    yyjson is a third-party parser: [yyjson_read] is the one operation of
    a class, and the accessors the strategies use are defined on the
    value type.  A [yyjson_val*] that may be NULL is an [option json]. *)

From S2P Require Import Prelude CLib CNum.

(** The value kinds of yyjson; strings are raw bytes and may hold NULs. *)
Inductive json :=
| JNull
| JBool (b : bool)
| JUint (z : Z)
| JSint (z : Z)
| JReal (d : double)
| JStr (s : list ascii)
| JArr (l : list json)
| JObj (kvs : list (list ascii * json)).

(** [yyjson_read(dat, strlen(dat), 0)] followed by [yyjson_doc_get_root]. *)
Class JsonReader := yyjson_read : cstr → option json.

(** First member with the key; NULL on a non-object and on NULL. *)
Fixpoint kv_get (kvs : list (list ascii * json)) (key : cstr) : option json :=
  match kvs with
  | [] => None
  | (k, v) :: kvs' => if bool_decide (k = key) then Some v else kv_get kvs' key
  end.

Definition yyjson_obj_get (v : option json) (key : cstr) : option json :=
  match v with Some (JObj kvs) => kv_get kvs key | _ => None end.

Definition yyjson_is_obj (v : option json) : bool :=
  match v with Some (JObj _) => true | _ => false end.

(** [yyjson_is_str(v)] with [yyjson_get_str(v)]: the C string at the start
    of the value's text. *)
Definition as_str (v : option json) : option cstr :=
  match v with Some (JStr s) => Some (c_str s) | _ => None end.

(** [yyjson_is_arr(v)] with the elements [yyjson_arr_foreach] visits. *)
Definition as_arr (v : option json) : option (list json) :=
  match v with Some (JArr l) => Some l | _ => None end.

(** [yyjson_is_num(v)] with [yyjson_get_num(v)]. *)
Definition as_num (v : option json) : option double :=
  match v with
  | Some (JUint z) | Some (JSint z) => Some (double_of_Z z)
  | Some (JReal d) => Some d
  | _ => None
  end.

(** [strcmp(yyjson_get_str(v), lit) == 0] guarded by [yyjson_is_str(v)]. *)
Definition is_str_eq (v : option json) (lit : cstr) : bool :=
  match as_str v with Some s => strcmp_eq s lit | None => false end.

(** A string member copied into a zeroed buffer with [sso_strlcpy]. *)
Definition copy_str (v : option json) (size : nat) : cstr :=
  match as_str v with Some s => sso_strlcpy (Some s) size | None => [] end.

(** Text of a string or number attribute: [sso_strlcpy(buf, str, n)] or
    [snprintf(buf, n, "%g", num)]; [None] for any other kind. *)
Definition scalar_text (v : option json) (size : nat) : option cstr :=
  match as_str v with
  | Some s => Some (sso_strlcpy (Some s) size)
  | None => match as_num v with
            | Some d => Some (take (size - 1) (fmt_g d))
            | None => None
            end
  end.

(** A reader that knows finitely many documents, for concrete runs. *)
Definition table_reader (docs : list (cstr * json)) : JsonReader :=
  λ s, snd <$> List.find (λ d, bool_decide (d.1 = s)) docs.

(* ------------------------------------------------------------------ *)
Lemma as_str_no_nul v s : as_str v = Some s → NUL ∉ s.
Proof. destruct v as [[]|]; simpl; try done. intros [= <-]. apply c_str_no_nul. Qed.

Lemma copy_str_no_nul v n : NUL ∉ copy_str v n.
Proof.
  unfold copy_str. destruct (as_str v) eqn:E; [|set_solver].
  eapply sso_strlcpy_no_nul, as_str_no_nul, E.
Qed.

Lemma copy_str_length v n : (length (copy_str v n) ≤ n - 1)%nat.
Proof.
  unfold copy_str. destruct (as_str v); [apply sso_strlcpy_length|simpl; lia].
Qed.
