(* ===== verification/FuncPerm.v ===== *)
(** * Functional permission strategy (strategies/func_perm.c)

    Feature codes such as ["user:create"] are matched against the codes
    of a policy, in which [*] stands for any text. *)

From S2P Require Import Prelude CLib CNum Json.

Definition star : ascii := "*"%char.

(** [wildcard_match]: the stars of a run are skipped one by one; after
    the run the rest of the pattern is tried at every remaining position
    of the text that is not its end. *)
Fixpoint wildcard_match (pattern str : cstr) {struct pattern} : bool :=
  match pattern with
  | [] => match str with [] => true | _ => false end
  | c :: pattern' =>
      if Ascii.eqb c star then
        match pattern' with
        | [] => true
        | c' :: _ =>
            if Ascii.eqb c' star then wildcard_match pattern' str
            else
              (fix try_from (s : cstr) : bool :=
                 match s with
                 | [] => false
                 | _ :: s' => if wildcard_match pattern' s then true else try_from s'
                 end) str
        end
      else match str with
           | [] => false
           | x :: str' => if Ascii.eqb c x then wildcard_match pattern' str' else false
           end
  end.

Record func_rule_item_t := { code : cstr; is_allow : bool }.
(** One element of the ["functions"] array. *)
Definition func_compile_item (item : json) : func_rule_item_t :=
  let effect := yyjson_obj_get (Some item) "effect" in
  {| code := copy_str (yyjson_obj_get (Some item) "code") 127;
     is_allow := match as_str effect with
                 | Some e => strcmp_eq e "allow"
                 | None => true
                 end |}.

(** [func_compile]; [alloc n] answers whether [n] bytes can be allocated. *)
Definition func_compile `{JsonReader} (alloc : Z → bool) (rules_json : option cstr)
  : sso_error_t * option (list func_rule_item_t) :=
  match rules_json with
  | None => (SSO_ERR_INVALID_PARAM, None)
  | Some text =>
      match yyjson_read text with
      | None => (SSO_ERR_RULE_INVALID, None)
      | Some root =>
          match as_arr (yyjson_obj_get (Some root) "functions") with
          | None => (SSO_ERR_RULE_INVALID, None)
          | Some funcs =>
              if negb (alloc 16) then (SSO_ERR_OUT_OF_MEMORY, None)
              else if negb (alloc (Z.of_nat (length funcs) * 129))
              then (SSO_ERR_OUT_OF_MEMORY, None)
              else (SSO_OK, Some (map func_compile_item funcs))
          end
      end
  end.

(** The loop of [func_evaluate]: the first matching item decides. *)
Definition func_first_match (items : list func_rule_item_t) (function_code : cstr)
  : option bool :=
  first_match (λ it, wildcard_match (code it) function_code) is_allow items.

(** [func_evaluate]: the error code and, on [SSO_OK], the decision. *)
Definition func_evaluate (function_code : cstr) (compiled : option (list func_rule_item_t))
  : sso_error_t * option bool :=
  match compiled with
  | None => (SSO_ERR_INVALID_PARAM, None)
  | Some items =>
      match function_code with
      | [] => (SSO_ERR_NOT_FOUND, None)
      | _ => match func_first_match items function_code with
             | Some b => (SSO_OK, Some b)
             | None => (SSO_ERR_NOT_FOUND, None)
             end
      end
  end.

(** [func_validate] *)
Definition func_validate `{JsonReader} (rules_json : option cstr) : sso_error_t :=
  match rules_json with
  | None => SSO_ERR_INVALID_PARAM
  | Some text => if yyjson_read text then SSO_OK else SSO_ERR_RULE_INVALID
  end.

(* ================================================================== *)
(** ** Specification: glob patterns *)

(** The language of a pattern: a star stands for any text, any other
    character for itself. *)
Inductive glob : cstr → cstr → Prop :=
| glob_nil : glob [] []
| glob_char c p s : c ≠ star → glob p s → glob (c :: p) (c :: s)
| glob_star_skip p s : glob p s → glob (star :: p) s
| glob_star_take p c s : glob (star :: p) s → glob (star :: p) (c :: s).

#[export] Hint Constructors glob : sso.

Lemma glob_star_any p u s : glob p s → glob (star :: p) (u ++ s).
Proof. intros H. induction u; simpl; auto with sso. Qed.

Lemma glob_star_inv p s :
  glob (star :: p) s ↔ ∃ u v, s = u ++ v ∧ glob p v.
Proof.
  split.
  - intros H. remember (star :: p) as q eqn:Hq. revert Hq.
    induction H as [|c p' s Hc _ _|p' s H _|p' c s _ IH]; intros [=]; subst.
    + done.
    + by exists [], s.
    + destruct IH as (u & v & -> & ?); [done|]. by exists (c :: u), v.
  - intros (u & v & -> & ?). by apply glob_star_any.
Qed.

Lemma glob_all_star s : glob [star] s.
Proof. rewrite <- (app_nil_r s). apply glob_star_any. constructor. Qed.

Lemma glob_char_inv c p s :
  c ≠ star → glob (c :: p) s ↔ ∃ s', s = c :: s' ∧ glob p s'.
Proof.
  intros Hc. split.
  - inversion 1; subst; try done. eauto.
  - intros (s' & -> & ?). by constructor.
Qed.

Lemma glob_star_star p s : glob (star :: star :: p) s ↔ glob (star :: p) s.
Proof.
  split.
  - intros (u & v & -> & (u' & v' & -> & ?)%glob_star_inv)%glob_star_inv.
    rewrite app_assoc. by apply glob_star_any.
  - apply glob_star_skip.
Qed.

(** The inner loop of the star case tries every non-empty suffix. *)
Definition some_suffix (f : cstr → bool) : cstr → bool :=
  fix try_from (s : cstr) : bool :=
    match s with [] => false | _ :: s' => if f s then true else try_from s' end.

Lemma some_suffix_true f s :
  some_suffix f s = true ↔ ∃ u v, s = u ++ v ∧ v ≠ [] ∧ f v = true.
Proof.
  induction s as [|c s IH]; cbn [some_suffix].
  - split; [done|]. intros (u & v & E & ? & _).
    symmetry in E. apply app_eq_nil in E as [-> ->]. done.
  - destruct (f (c :: s)) eqn:E.
    + split; [|done]. intros _. by exists [], (c :: s).
    + rewrite IH. split.
      * intros (u & v & -> & ? & ?). by exists (c :: u), v.
      * intros ([|x u] & v & Es & ? & ?); simpl in Es.
        -- subst. congruence.
        -- injection Es as -> ->. by exists u, v.
Qed.

(** ** Theorems *)

Lemma wildcard_match_star c p s :
  c ≠ star →
  wildcard_match (star :: c :: p) s = some_suffix (wildcard_match (c :: p)) s.
Proof.
  intros Hc. cbn [wildcard_match]. rewrite Ascii.eqb_refl.
  rewrite (proj2 (Ascii.eqb_neq c star) Hc). done.
Qed.

(** The wildcard matcher of functional permissions decides the
    language of the glob pattern: a star stands for any text (the empty
    text included), every other character for itself, and the whole code
    has to be covered. *)
Theorem wildcard_match_correct (p s : cstr) :
  wildcard_match p s = true ↔ glob p s.
Proof.
  revert s; induction p as [|c p IH]; intros s.
  - destruct s; simpl; split; try done; [by constructor|inversion 1].
  - destruct (decide (c = star)) as [->|Hc].
    + destruct p as [|c' p]; [split; [intros _; apply glob_all_star|done]|].
      destruct (decide (c' = star)) as [->|Hc'].
      * rewrite glob_star_star, <- IH. done.
      * rewrite wildcard_match_star, some_suffix_true, glob_star_inv by done.
        split; intros (u & v & H); exists u, v; rewrite <- IH in *; [tauto|].
        destruct H as [-> H]. split_and!; [done| |done].
        intros ->. rewrite IH, glob_char_inv in H by done. naive_solver.
    + rewrite glob_char_inv by done. simpl.
      rewrite (proj2 (Ascii.eqb_neq c star) Hc). destruct s as [|x s]; [naive_solver|].
      destruct (Ascii.eqb_spec c x) as [->|Hx]; [rewrite IH|]; naive_solver.
Qed.

Lemma wildcard_match_false p s : wildcard_match p s = false ↔ ¬ glob p s.
Proof. rewrite <- wildcard_match_correct. by destruct (wildcard_match p s). Qed.

(** A functional check is decided by the first item of the compiled
    rule, in array order, whose pattern covers the requested code; its
    effect is the decision.  No other input makes the strategy decide. *)
Theorem func_evaluate_first_match (items : list func_rule_item_t) (s : cstr) b :
  func_evaluate s (Some items) = (SSO_OK, Some b) ↔
  s ≠ [] ∧
  ∃ i it, items !! i = Some it ∧ glob (code it) s ∧ is_allow it = b ∧
    ∀ j it', (j < i)%nat → items !! j = Some it' → ¬ glob (code it') s.
Proof.
  setoid_rewrite <- wildcard_match_false. setoid_rewrite <- wildcard_match_correct.
  rewrite <- (first_match_Some (λ it, wildcard_match (code it) s) is_allow).
  fold (func_first_match items s). unfold func_evaluate.
  destruct s as [|c s]; [naive_solver|].
  destruct (func_first_match items (c :: s)); naive_solver.
Qed.

(** Whatever the rule text, compilation succeeds exactly on a JSON
    document with a ["functions"] array (given memory), the compiled rule
    has one item per element and every stored pattern fits its 128-byte
    buffer; any other document, the ["allow"]/["deny"] one of the file's
    header comment included, is rejected as invalid. *)
Theorem func_compile_shape `{JsonReader} alloc text :
  (∀ n, alloc n = true) →
  match func_compile alloc (Some text) with
  | (SSO_OK, Some items) =>
      ∃ root funcs, yyjson_read text = Some root ∧
        yyjson_obj_get (Some root) "functions" = Some (JArr funcs) ∧
        items = map func_compile_item funcs ∧
        Forall (λ it, (length (code it) < 127)%nat ∧ NUL ∉ code it) items
  | (e, r) =>
      e = SSO_ERR_RULE_INVALID ∧ r = None ∧
      ∀ root, yyjson_read text = Some root →
        as_arr (yyjson_obj_get (Some root) "functions") = None
  end.
Proof.
  intros Ha. unfold func_compile. destruct (yyjson_read text) as [root|]; [|done].
  destruct (as_arr _) as [funcs|] eqn:E.
  - rewrite !Ha. cbn [negb]. exists root, funcs.
    destruct (yyjson_obj_get (Some root) "functions") as [[]|]; simpl in E; try done.
    injection E as ->. split_and!; try done.
    apply List.Forall_map, Forall_forall. intros it _. split; [|apply copy_str_no_nul].
    pose proof (copy_str_length (yyjson_obj_get (Some it) "code") 127) as Hl.
    cbn [code func_compile_item]. lia.
  - split_and!; try done. by intros ? [= <-].
Qed.

(** The document of the header comment of func_perm.c. *)
Definition doc_example : json :=
  JObj [(list_ascii_of_string "allow", JArr [JStr "user:create"; JStr "user:*"]);
        (list_ascii_of_string "deny", JArr [JStr "user:delete"])].

Lemma func_compile_shape_witness :
  let r : JsonReader := table_reader [(list_ascii_of_string "doc", doc_example)] in
  func_compile (λ _, true) (Some ("doc" : cstr)) = (SSO_ERR_RULE_INVALID, None) ∧
  ∀ root, yyjson_read "doc" = Some root →
        as_arr (yyjson_obj_get (Some root) "functions") = None.
Proof.
  intros r. split; [by vm_compute|].
  exact (proj2 (proj2 (func_compile_shape (H := r) (λ _, true) "doc" (λ _, eq_refl)))).
Defined.
