(* ===== verification/ApiPerm.v ===== *)
(** * API endpoint permission strategy (strategies/api_perm.c)

    A request (method, path) is matched against the endpoint patterns of
    a policy.  [*] skips one segment, [**] accepts the rest of the path,
    [:name] skips one segment. *)

From S2P Require Import Prelude CLib CNum Json.

Definition star : ascii := "*"%char.
Definition colon : ascii := ":"%char.
Definition slash : ascii := "/"%char.
Definition in_segment (c : ascii) : bool := negb (Ascii.eqb c slash).

(** After the loop: [while ( *pattern == '*') pattern++] and the final
    test. *)
Definition path_match_end (pattern path : cstr) : bool :=
  match skip_while (Ascii.eqb star) pattern, path with
  | [], [] => true
  | _, _ => false
  end.

(** One iteration of the loop of [path_match] consumes at least one
    character of the pattern, so the pattern's length is enough fuel. *)
Fixpoint path_match_loop (fuel : nat) (pattern path : cstr) : bool :=
  match fuel with
  | O => path_match_end pattern path
  | S fuel' =>
      match pattern, path with
      | c :: pattern', x :: path' =>
          if Ascii.eqb c star then
            if starts_with [star] pattern' then true
            else
              let path1 := skip_while in_segment path in
              let pattern1 := match pattern' with
                              | d :: p => if Ascii.eqb d slash then p else pattern'
                              | [] => []
                              end in
              path_match_loop fuel' pattern1 path1
          else if Ascii.eqb c colon then
            path_match_loop fuel' (skip_while in_segment pattern) (skip_while in_segment path)
          else if Ascii.eqb c x then path_match_loop fuel' pattern' path'
          else false
      | _, _ => path_match_end pattern path
      end
  end.

Definition path_match (pattern path : cstr) : bool :=
  path_match_loop (length pattern) pattern path.

Record api_rule_item_t := { method : cstr; path : cstr; is_allow : bool }.
(** One element of the ["endpoints"] array. *)
Definition api_compile_item (item : json) : api_rule_item_t :=
  {| method := copy_str (yyjson_obj_get (Some item) "method") 15;
     path := copy_str (yyjson_obj_get (Some item) "path") 255;
     is_allow := negb (is_str_eq (yyjson_obj_get (Some item) "effect") "deny") |}.

(** [api_compile] *)
Definition api_compile `{JsonReader} (alloc : Z → bool) (rules_json : option cstr)
  : sso_error_t * option (list api_rule_item_t) :=
  match rules_json with
  | None => (SSO_ERR_INVALID_PARAM, None)
  | Some text =>
      match yyjson_read text with
      | None => (SSO_ERR_RULE_INVALID, None)
      | Some root =>
          match as_arr (yyjson_obj_get (Some root) "endpoints") with
          | None => (SSO_ERR_RULE_INVALID, None)
          | Some endpoints =>
              if negb (alloc 16) then (SSO_ERR_OUT_OF_MEMORY, None)
              else if negb (alloc (Z.of_nat (length endpoints) * 273))
              then (SSO_ERR_OUT_OF_MEMORY, None)
              else (SSO_OK, Some (map api_compile_item endpoints))
          end
      end
  end.

Definition method_matches (rule request : cstr) : bool :=
  strcmp_eq rule "*" || strcasecmp_eq rule request.

(** The loop of [api_evaluate]. *)
Definition api_first_match (items : list api_rule_item_t) (m p : cstr) : option bool :=
  first_match (λ it, method_matches (method it) m && path_match (path it) p)
    is_allow items.

(** [api_evaluate] *)
Definition api_evaluate (http_method request_path : cstr)
    (compiled : option (list api_rule_item_t)) : sso_error_t * option bool :=
  match compiled with
  | None => (SSO_ERR_INVALID_PARAM, None)
  | Some items =>
      match http_method, request_path with
      | [], _ | _, [] => (SSO_ERR_NOT_FOUND, None)
      | _, _ => match api_first_match items http_method request_path with
                | Some b => (SSO_OK, Some b)
                | None => (SSO_ERR_NOT_FOUND, None)
                end
      end
  end.

(** [api_validate] *)
Definition api_validate `{JsonReader} (rules_json : option cstr) : sso_error_t :=
  match rules_json with
  | None => SSO_ERR_INVALID_PARAM
  | Some text => if yyjson_read text then SSO_OK else SSO_ERR_RULE_INVALID
  end.

(* ================================================================== *)
(** ** Lemmas *)

Definition plain (c : ascii) : Prop := c ≠ star ∧ c ≠ colon.

Lemma path_match_end_nil path : path_match_end [] path = true ↔ path = [].
Proof. destruct path; done. Qed.

(** More fuel than pattern characters changes nothing. *)
Lemma path_match_loop_fuel f pat p :
  (length pat ≤ f)%nat → path_match_loop f pat p = path_match pat p.
Proof.
  unfold path_match. remember (length pat) as n eqn:Hn.
  revert f pat p Hn. induction (lt_wf n) as [n _ IH]. intros f pat p -> Hf.
  destruct pat as [|c pat]; [by destruct f|].
  destruct f as [|f]; [simpl in Hf; lia|]. simpl in Hf.
  destruct p as [|x p]; [done|]. cbn [path_match_loop length].
  assert (Hgo : ∀ pat' p', (length pat' ≤ length pat)%nat →
    path_match_loop f pat' p' = path_match_loop (length pat) pat' p').
  { intros pat' p' Hl.
    rewrite (IH (length pat')) by (simpl; lia). symmetry. apply IH; simpl; lia. }
  destruct (Ascii.eqb_spec c star) as [->|].
  - destruct (starts_with [star] pat); [done|]. apply Hgo.
    destruct pat as [|d pat]; [done|]. destruct (Ascii.eqb d slash); simpl; lia.
  - destruct (Ascii.eqb_spec c colon) as [->|].
    + apply Hgo. simpl. apply skip_while_length.
    + destruct (Ascii.eqb c x); [|done]. by apply Hgo.
Qed.

(** The equations of one loop iteration. *)
Lemma path_match_plain c pat x p :
  plain c → path_match (c :: pat) (x :: p) = if Ascii.eqb c x then path_match pat p else false.
Proof.
  intros [H1 H2]. unfold path_match at 1. cbn [length path_match_loop].
  rewrite (proj2 (Ascii.eqb_neq c star) H1), (proj2 (Ascii.eqb_neq c colon) H2).
  done.
Qed.

Lemma path_match_param name pat x p :
  path_match (colon :: name ++ pat) (x :: p) =
  path_match (skip_while in_segment (name ++ pat)) (skip_while in_segment (x :: p)).
Proof.
  unfold path_match at 1. cbn [length path_match_loop].
  change (skip_while in_segment (colon :: name ++ pat))
    with (skip_while in_segment (name ++ pat)).
  apply path_match_loop_fuel, skip_while_length.
Qed.

Lemma path_match_star_slash pat x p :
  path_match (star :: slash :: pat) (x :: p) =
  path_match pat (skip_while in_segment (x :: p)).
Proof.
  change (path_match_loop (S (length pat)) pat (skip_while in_segment (x :: p)) =
          path_match pat (skip_while in_segment (x :: p))).
  apply path_match_loop_fuel. lia.
Qed.

Lemma path_match_nil pat : path_match pat [] = path_match_end pat [].
Proof. by destruct pat. Qed.

Lemma path_match_nil_l p : path_match [] p = true ↔ p = [].
Proof. by destruct p. Qed.

Lemma path_match_end_plain c pat p : plain c → path_match_end (c :: pat) p = false.
Proof.
  intros [H _]. unfold path_match_end. cbn [skip_while].
  rewrite (proj2 (Ascii.eqb_neq star c)) by congruence. done.
Qed.

(** A plain prefix of the pattern has to be a prefix of the path. *)
Lemma path_match_plain_prefix u pat p :
  Forall plain u →
  path_match (u ++ pat) p = true ↔ ∃ p', p = u ++ p' ∧ path_match pat p' = true.
Proof.
  intros Hu. revert p. induction Hu as [|c u Hc Hu IH]; intros p; simpl.
  - split; [eauto|]. by intros (p' & -> & ?).
  - destruct p as [|x p].
    + rewrite path_match_nil, path_match_end_plain by done.
      split; [done|]. by intros (? & ? & ?).
    + rewrite path_match_plain by done. destruct (Ascii.eqb_spec c x) as [->|Hne].
      * rewrite IH. split; intros (p' & E & ?); exists p'; [by rewrite E|].
        by injection E as ->.
      * split; [done|]. intros (p' & E & ?). congruence.
Qed.

Lemma in_segment_Forall s : slash ∉ s → Forall (λ c, in_segment c = true) s.
Proof. apply not_sep_Forall. Qed.

Lemma skip_segment s t : slash ∉ s → skip_while in_segment (s ++ slash :: t) = slash :: t.
Proof. intros Hs. by rewrite skip_while_app by by apply in_segment_Forall. Qed.

Lemma skip_segment_end s : slash ∉ s → skip_while in_segment s = [].
Proof. intros Hs. by apply skip_while_all, in_segment_Forall. Qed.

Lemma plain_slash : plain slash.
Proof. split; done. Qed.

(** ** Segment patterns: literal segments and [:name] parameters *)

Inductive seg := Lit (s : cstr) | Param (name : cstr).

Definition seg_ok (g : seg) : Prop :=
  match g with
  | Lit s => Forall plain s ∧ slash ∉ s
  | Param name => slash ∉ name
  end.

Definition seg_text (g : seg) : cstr :=
  match g with Lit s => s | Param name => colon :: name end.

(** A pattern such as ["/users/:id/keys"]. *)
Definition render (gs : list seg) : cstr := gs ≫= (λ g, slash :: seg_text g).
Definition join (ss : list cstr) : cstr := ss ≫= (λ s, slash :: s).

(** A request segment fits a pattern segment; a parameter at the end of
    the path is not empty. *)
Definition seg_fits (last_one : bool) (g : seg) (s : cstr) : Prop :=
  slash ∉ s ∧
  match g with
  | Lit t => s = t
  | Param _ => last_one = true → s ≠ []
  end.

Inductive segs_fit : list seg → list cstr → Prop :=
| segs_nil : segs_fit [] []
| segs_cons g gs s ss :
    seg_fits (bool_decide (gs = [] )) g s → segs_fit gs ss →
    segs_fit (g :: gs) (s :: ss).

Lemma render_cons g gs : render (g :: gs) = slash :: seg_text g ++ render gs.
Proof. done. Qed.

Lemma render_hd gs : render gs = [] ∨ ∃ t, render gs = slash :: t.
Proof. destruct gs as [|g gs]; [by left|]. right. rewrite render_cons. eauto. Qed.

Lemma render_skip_param name gs :
  slash ∉ name → skip_while in_segment (name ++ render gs) = render gs.
Proof.
  intros Hn. destruct (render_hd gs) as [->|(t & ->)].
  - rewrite app_nil_r. by apply skip_segment_end.
  - by apply skip_segment.
Qed.

Lemma join_hd ss : join ss = [] ∨ ∃ t, join ss = slash :: t.
Proof. destruct ss as [|s ss]; [by left|]. right. unfold join. simpl. eauto. Qed.

Lemma skip_join s ss : slash ∉ s → skip_while in_segment (s ++ join ss) = join ss.
Proof.
  intros Hs. destruct (join_hd ss) as [->|(t & ->)].
  - rewrite app_nil_r. by apply skip_segment_end.
  - by apply skip_segment.
Qed.

Lemma param_segment p :
  slash ∉ take_while in_segment p.
Proof.
  intros H%elem_of_take_while. unfold in_segment in H.
  by rewrite Ascii.eqb_refl in H.
Qed.

(** One parameter segment: the path continues after the next slash. *)
Lemma path_match_param_seg name gs p :
  slash ∉ name →
  path_match (colon :: name ++ render gs) p = true ↔
  p ≠ [] ∧ path_match (render gs) (skip_while in_segment p) = true.
Proof.
  intros Hn. destruct p as [|x p].
  - rewrite path_match_nil. unfold path_match_end. simpl. naive_solver.
  - rewrite path_match_param, render_skip_param by done. naive_solver.
Qed.

Lemma segs_fit_nil_l ss : segs_fit [] ss → ss = [].
Proof. by inversion 1. Qed.

(** A pattern made of literal segments and [:name] parameters
    accepts exactly the paths with the same number of segments in which
    every literal segment is repeated and every parameter is any segment
    (not an empty one at the end of the path). *)
Theorem path_match_segments (gs : list seg) (p : cstr) :
  Forall seg_ok gs →
  path_match (render gs) p = true ↔ ∃ ss, p = join ss ∧ segs_fit gs ss.
Proof.
  intros Hok. revert p. induction Hok as [|g gs Hg Hgs IH]; intros p.
  - rewrite path_match_nil_l. split.
    + intros ->. exists []. split; [done|constructor].
    + by intros (ss & -> & ->%segs_fit_nil_l).
  - rewrite render_cons. destruct g as [t|name]; simpl in Hg; cbn [seg_text].
    + destruct Hg as [Hpl Hsl].
      change (slash :: t ++ render gs) with ((slash :: t) ++ render gs).
      rewrite path_match_plain_prefix by (constructor; [apply plain_slash|done]).
      split.
      * intros (p' & -> & (ss & -> & Hf)%IH). exists (t :: ss). split; [done|].
        constructor; [|done]. split; done.
      * intros (ss & -> & Hf). inversion Hf as [|? ? s ss' [Hs Hfit] Hf']; subst.
        exists (join ss'). split; [done|]. apply IH. eauto.
    + change (slash :: (colon :: name) ++ render gs)
        with ([slash] ++ colon :: name ++ render gs).
      rewrite path_match_plain_prefix by (constructor; [apply plain_slash|done]).
      setoid_rewrite (path_match_param_seg name gs); [|done..]. split.
      * intros (p' & -> & Hne & (ss & Hj & Hf)%IH).
        exists (take_while in_segment p' :: ss).
        pose proof (take_skip_while in_segment p') as E. rewrite Hj in E. split.
        -- change (join (take_while in_segment p' :: ss))
             with (slash :: take_while in_segment p' ++ join ss). by rewrite E.
        -- constructor; [|done]. split; [apply param_segment|].
           intros ->%bool_decide_eq_true Hnil. apply segs_fit_nil_l in Hf as ->.
           rewrite Hnil in E. by simpl in E; subst.
      * intros (ss & -> & Hf). inversion Hf as [|? ? s ss' [Hs Hfit] Hf']; subst.
        exists (s ++ join ss'). split_and!; [done| |].
        -- intros [-> Hj]%app_eq_nil. destruct ss'; [|done].
           destruct gs; [|by inversion Hf']. by apply Hfit.
        -- rewrite skip_join by done. apply IH. eauto.
Qed.

(** [GET /users/:id/keys] on [/users/42/keys]. *)
Lemma path_match_segments_witness :
  Forall seg_ok [Lit "users"; Param "id"; Lit "keys"] ∧
  ∃ ss, list_ascii_of_string "/users/42/keys" = join ss ∧
        segs_fit [Lit "users"; Param "id"; Lit "keys"] ss.
Proof.
  assert (H : Forall seg_ok [Lit "users"; Param "id"; Lit "keys"]).
  { repeat constructor; try (by vm_compute); set_solver. }
  split; [exact H|].
  exact (proj1 (path_match_segments [Lit "users"; Param "id"; Lit "keys"]
                  "/users/42/keys" H) eq_refl).
Defined.

(** A pattern of the form [prefix**] accepts exactly the paths that
    start with the literal prefix, at any depth below it. *)
Theorem path_match_double_star (u p : cstr) :
  Forall plain u →
  path_match (u ++ [star; star]) p = true ↔ u `prefix_of` p.
Proof.
  intros Hu. rewrite path_match_plain_prefix by done. split.
  - intros (p' & -> & _). by apply prefix_app_r.
  - intros (p' & ->). exists p'. split; [done|]. by destruct p'.
Qed.

Lemma path_match_double_star_witness :
  Forall plain "/api/v1/" ∧
  list_ascii_of_string "/api/v1/" `prefix_of` list_ascii_of_string "/api/v1/users/7".
Proof.
  assert (H : Forall plain "/api/v1/") by (repeat constructor; by vm_compute).
  split; [exact H|].
  exact (proj1 (path_match_double_star "/api/v1/" "/api/v1/users/7" H) eq_refl).
Defined.

(** A single star in the middle of a pattern does not skip one
    segment as the file's header says: after the star the loop drops the
    slash of the pattern but not the slash of the path, so that a pattern
    [prefix*/c...] whose next character is not a slash rejects every path
    with a segment at the star. *)
Theorem path_match_inner_star_rejects (u seg rest tail : cstr) (c : ascii) :
  Forall plain u → slash ∉ seg → plain c → c ≠ slash →
  path_match (u ++ star :: slash :: c :: rest) (u ++ seg ++ slash :: tail) = false.
Proof.
  intros Hu Hseg Hc Hsl. apply not_true_is_false.
  rewrite path_match_plain_prefix by done. intros (p' & E & Hm).
  apply app_inv_head in E as <-.
  destruct (seg ++ slash :: tail) as [|x p] eqn:E; [by destruct seg|].
  rewrite path_match_star_slash, <- E, skip_segment in Hm by done.
  rewrite path_match_plain in Hm by done.
  by rewrite (proj2 (Ascii.eqb_neq c slash)) in Hm.
Qed.

Lemma path_match_inner_star_rejects_witness :
  path_match "/users/*/keys" "/users/42/keys" = false.
Proof.
  refine (path_match_inner_star_rejects "/users/" "42" "eys" "keys" "k" _ _ _ _).
  - repeat constructor; by vm_compute.
  - set_solver.
  - split; by vm_compute.
  - by vm_compute.
Defined.

(** An API check is decided by the first endpoint, in array order,
    whose method is [*] or equal up to case and whose pattern accepts the
    path. *)
Theorem api_evaluate_first_match (items : list api_rule_item_t) (m p : cstr) b :
  api_evaluate m p (Some items) = (SSO_OK, Some b) ↔
  m ≠ [] ∧ p ≠ [] ∧
  ∃ i it, items !! i = Some it ∧
    (method_matches (method it) m && path_match (path it) p)%bool = true ∧
    is_allow it = b ∧
    ∀ j it', (j < i)%nat → items !! j = Some it' →
      (method_matches (method it') m && path_match (path it') p)%bool = false.
Proof.
  rewrite <- (first_match_Some (λ it, method_matches (method it) m && path_match (path it) p)).
  fold (api_first_match items m p). unfold api_evaluate.
  destruct m as [|? m]; [naive_solver|]. destruct p as [|? p]; [naive_solver|].
  destruct (api_first_match items _ _); naive_solver.
Qed.
