(* ===== verification/LocPerm.v ===== *)
(** * Location permission strategy (strategies/loc_perm.c)

    Client addresses are matched against CIDR blocks, exact addresses or
    country codes. *)

From S2P Require Import Prelude CLib CNum Json.

Inductive loc_rule_type_t := LOC_TYPE_IP_CIDR | LOC_TYPE_GEO | LOC_TYPE_EXACT.

Record loc_rule_item_t := {
  type : loc_rule_type_t;
  value : cstr;
  cidr_network : Z;
  cidr_prefix : Z;
  is_allow : bool
}.

(** The zeroed element [calloc] provides. *)
Definition loc_zero_item : loc_rule_item_t :=
  {| type := LOC_TYPE_IP_CIDR; value := []; cidr_network := 0; cidr_prefix := 0;
     is_allow := false |}.

(** [sscanf(s, "%u.%u.%u.%u", ...)] with all four fields assigned. *)
Definition scan_quad (s : cstr) : option (Z * Z * Z * Z) :=
  '(a, s) ← scan_u s; s ← scan_lit "." s;
  '(b, s) ← scan_u s; s ← scan_lit "." s;
  '(c, s) ← scan_u s; s ← scan_lit "." s;
  '(d, _) ← scan_u s; Some (a, b, c, d).

(** [ip_to_uint]: the four numbers are not checked to be octets. *)
Definition ip_to_uint (s : cstr) : Z :=
  match scan_quad s with
  | Some (a, b, c, d) =>
      Z.lor (Z.lor (Z.lor (u32 (Z.shiftl a 24)) (u32 (Z.shiftl b 16)))
                   (u32 (Z.shiftl c 8))) d
  | None => 0
  end.

(** [parse_cidr]: network and prefix, or [None] when there is no slash. *)
Definition parse_cidr (str : cstr) : option (Z * Z) :=
  let buf := sso_strlcpy (Some str) 255 in
  match strchr buf "/" with
  | None => None
  | Some k => Some (ip_to_uint (take k buf), u32 (atoi (drop (S k) buf)))
  end.

(** [0xFFFFFFFF << (32 - prefix)] for [0 < prefix < 32], all ones from 32. *)
Definition cidr_mask (prefix : Z) : Z :=
  if 32 <=? prefix then 0xFFFFFFFF else u32 (Z.shiftl 0xFFFFFFFF (32 - prefix)).

(** [ip_matches_cidr] *)
Definition ip_matches_cidr (ip_str cidr_str : cstr) (network prefix : Z) : bool :=
  let ip := ip_to_uint ip_str in
  if ip =? 0 then false
  else if 0 <? prefix then
    let mask := cidr_mask prefix in
    Z.land ip mask =? Z.land network mask
  else
    match parse_cidr cidr_str with
    | None => strcmp_eq ip_str cidr_str
    | Some (net, pre) =>
        let mask := if 32 <=? pre then 0xFFFFFFFF else if pre =? 0 then 0 else cidr_mask pre in
        Z.land ip mask =? Z.land net mask
    end.

(** One element of the location array, compiled into a zeroed item. *)
Definition loc_compile_item (item : json) : loc_rule_item_t :=
  match as_str (Some item) with
  | Some s =>
      {| type := LOC_TYPE_EXACT; value := sso_strlcpy (Some s) 255;
         cidr_network := 0; cidr_prefix := 0; is_allow := true |}
  | None =>
      if yyjson_is_obj (Some item) then
        let v := copy_str (yyjson_obj_get (Some item) "value") 255 in
        let allow := negb (is_str_eq (yyjson_obj_get (Some item) "effect") "deny") in
        if is_str_eq (yyjson_obj_get (Some item) "type") "geo" then
          {| type := LOC_TYPE_GEO; value := v; cidr_network := 0; cidr_prefix := 0;
             is_allow := allow |}
        else
          match parse_cidr v with
          | Some (net, pre) =>
              {| type := LOC_TYPE_IP_CIDR; value := v; cidr_network := net;
                 cidr_prefix := pre; is_allow := allow |}
          | None =>
              {| type := LOC_TYPE_EXACT; value := v; cidr_network := 0;
                 cidr_prefix := 0; is_allow := allow |}
          end
      else loc_zero_item
  end.

(** The array the rule names: ["locations"], else ["allowed_ips"]. *)
Definition loc_list (root : json) : option (list json) :=
  match as_arr (yyjson_obj_get (Some root) "locations") with
  | Some l => Some l
  | None => as_arr (yyjson_obj_get (Some root) "allowed_ips")
  end.

(** [loc_compile] *)
Definition loc_compile `{JsonReader} (alloc : Z → bool) (rules_json : option cstr)
  : sso_error_t * option (list loc_rule_item_t) :=
  match rules_json with
  | None => (SSO_ERR_INVALID_PARAM, None)
  | Some text =>
      match yyjson_read text with
      | None => (SSO_ERR_RULE_INVALID, None)
      | Some root =>
          match loc_list root with
          | None => (SSO_ERR_RULE_INVALID, None)
          | Some l =>
              if negb (alloc 16) then (SSO_ERR_OUT_OF_MEMORY, None)
              else if negb (alloc (Z.of_nat (length l) * 272)) then (SSO_ERR_OUT_OF_MEMORY, None)
              else (SSO_OK, Some (map loc_compile_item l))
          end
      end
  end.

(** The switch of [loc_evaluate]. *)
Definition loc_item_matches (ip country : cstr) (it : loc_rule_item_t) : bool :=
  match type it with
  | LOC_TYPE_IP_CIDR => ip_matches_cidr ip (value it) (cidr_network it) (cidr_prefix it)
  | LOC_TYPE_EXACT => strcmp_eq ip (value it)
  | LOC_TYPE_GEO => match country with [] => false | _ => strcmp_eq country (value it) end
  end.

(** [loc_evaluate] *)
Definition loc_evaluate (source_ip geo_country : cstr)
    (compiled : option (list loc_rule_item_t)) : sso_error_t * option bool :=
  match compiled with
  | None => (SSO_ERR_INVALID_PARAM, None)
  | Some items =>
      match source_ip with
      | [] => (SSO_ERR_NOT_FOUND, None)
      | _ => match first_match (loc_item_matches source_ip geo_country) is_allow items with
             | Some b => (SSO_OK, Some b)
             | None => (SSO_ERR_NOT_FOUND, None)
             end
      end
  end.

(** [loc_validate] *)
Definition loc_validate `{JsonReader} (rules_json : option cstr) : sso_error_t :=
  match rules_json with
  | None => SSO_ERR_INVALID_PARAM
  | Some text => if yyjson_read text then SSO_OK else SSO_ERR_RULE_INVALID
  end.

(* ================================================================== *)
(** ** Lemmas: addresses *)

(** Dotted text of an address given by its four octets. *)
Definition quad_text (a b c d : Z) : cstr :=
  print_dec a ++ "."%char :: print_dec b ++ "."%char :: print_dec c ++ "."%char :: print_dec d.

Definition octet (z : Z) : Prop := 0 ≤ z < 256.
Definition quad_val (a b c d : Z) : Z := ((a * 256 + b) * 256 + c) * 256 + d.

Lemma scan_quad_text a b c d rest :
  0 ≤ a < 2 ^ 32 → 0 ≤ b < 2 ^ 32 → 0 ≤ c < 2 ^ 32 → 0 ≤ d < 2 ^ 32 →
  match rest with x :: _ => is_digit x = false | [] => True end →
  scan_quad (quad_text a b c d ++ rest) = Some (a, b, c, d).
Proof.
  unfold scan_quad, quad_text. intros Ha Hb Hc Hd Hr.
  rewrite <- app_assoc; cbn [app]. rewrite scan_u_print by (done || lia).
  cbn [mbind option_bind scan_lit]; rewrite Ascii.eqb_refl.
  cbn [mbind option_bind]. rewrite <- app_assoc; cbn [app].
  rewrite scan_u_print by (done || lia).
  cbn [mbind option_bind scan_lit]; rewrite Ascii.eqb_refl.
  cbn [mbind option_bind]. rewrite <- app_assoc; cbn [app].
  rewrite scan_u_print by (done || lia).
  cbn [mbind option_bind scan_lit]; rewrite Ascii.eqb_refl.
  cbn [mbind option_bind]. by rewrite scan_u_print by (done || lia).
Qed.

Lemma ip_to_uint_quad a b c d rest :
  octet a → octet b → octet c → octet d →
  match rest with x :: _ => is_digit x = false | [] => True end →
  ip_to_uint (quad_text a b c d ++ rest) = quad_val a b c d.
Proof.
  intros Ha Hb Hc Hd Hr. unfold ip_to_uint.
  unfold octet in *. rewrite scan_quad_text by (done || lia). rewrite !u32_small by (rewrite Z.shiftl_mul_pow2; lia).
  replace (Z.shiftl a 24) with (Z.shiftl (Z.shiftl (Z.shiftl a 8) 8) 8)
    by (rewrite !Z.shiftl_shiftl by lia; done).
  replace (Z.shiftl b 16) with (Z.shiftl (Z.shiftl b 8) 8)
    by (rewrite !Z.shiftl_shiftl by lia; done).
  rewrite <- !Z.shiftl_lor, !lor_shift_add by lia. done.
Qed.

Lemma quad_val_range a b c d :
  octet a → octet b → octet c → octet d → 0 ≤ quad_val a b c d < 2 ^ 32.
Proof. unfold octet, quad_val. lia. Qed.

(** The mask of a prefix between 1 and 32 keeps the high bits. *)
Lemma cidr_mask_land p x :
  0 < p ≤ 32 → 0 ≤ x < 2 ^ 32 →
  Z.land x (cidr_mask p) = Z.shiftl (Z.shiftr x (32 - p)) (32 - p).
Proof.
  intros Hp Hx. rewrite <- (land_high_bits x (32 - p) 32) by lia. f_equal.
  unfold cidr_mask. destruct (Z.leb_spec 32 p).
  - replace (32 - p) with 0 by lia. done.
  - unfold u32. rewrite Z.shiftl_mul_pow2 by lia.
    replace (0xFFFFFFFF * 2 ^ (32 - p))
      with (2 ^ 32 - 2 ^ (32 - p) + (2 ^ (32 - p) - 1) * 2 ^ 32) by lia.
    rewrite Z.mod_add by lia. apply Z.mod_small.
    assert (0 < 2 ^ (32 - p) ≤ 2 ^ 32); [|lia].
    split; [apply Z.pow_pos_nonneg; lia|apply Z.pow_le_mono_r; lia].
Qed.

(** Agreement on the top [p] bits. *)
Definition same_block (p x y : Z) : Prop := Z.shiftr x (32 - p) = Z.shiftr y (32 - p).

Lemma cidr_mask_eqb p x y :
  0 < p ≤ 32 → 0 ≤ x < 2 ^ 32 → 0 ≤ y < 2 ^ 32 →
  (Z.land x (cidr_mask p) =? Z.land y (cidr_mask p)) = true ↔ same_block p x y.
Proof.
  intros Hp Hx Hy. rewrite Z.eqb_eq, !cidr_mask_land by done. unfold same_block.
  split; [|by intros ->]. intros E. apply (f_equal (λ z, Z.shiftr z (32 - p))) in E.
  by rewrite !Z.shiftr_shiftl_l, Z.sub_diag, !Z.shiftl_0_r in E by lia.
Qed.

Lemma same_block_0 x y : 0 ≤ x < 2 ^ 32 → 0 ≤ y < 2 ^ 32 → same_block 0 x y.
Proof.
  intros Hx Hy. unfold same_block. change (32 - 0) with 32.
  by rewrite !Z.shiftr_div_pow2, !Z.div_small by lia.
Qed.

Definition addr_char (c : ascii) : Prop := is_digit c = true ∨ c = "."%char.

Lemma quad_text_chars a b c d :
  octet a → octet b → octet c → octet d → Forall addr_char (quad_text a b c d).
Proof.
  unfold octet, quad_text. intros ????.
  assert (Hp : ∀ n, 0 ≤ n → Forall addr_char (print_dec n)).
  { intros n (_ & Hd & _)%print_dec_spec. eapply Forall_impl; [exact Hd|]. by left. }
  repeat (apply Forall_app; split; [apply Hp; lia|]; constructor; [by right|]).
  apply Hp. lia.
Qed.

Lemma addr_char_neq s c : Forall addr_char s → is_digit c = false → c ≠ "."%char → c ∉ s.
Proof. rewrite Forall_forall. intros H Hd Hc Hin. destruct (H c Hin); congruence. Qed.

Lemma octet_text_length n : octet n → (length (print_dec n) ≤ 3)%nat.
Proof.
  intros Hn. assert (Hall : forallb (λ k, Nat.leb (length (print_dec (Z.of_nat k))) 3) (seq 0 256) = true)
    by by vm_compute.
  rewrite forallb_forall in Hall. specialize (Hall (Z.to_nat n)).
  rewrite Z2Nat.id in Hall by (unfold octet in Hn; lia).
  apply Nat.leb_le, Hall, in_seq. unfold octet in Hn. lia.
Qed.

(** The text ["a.b.c.d/p"] of a block. *)
Definition block_text (a b c d p : Z) : cstr := quad_text a b c d ++ "/"%char :: print_dec p.

Lemma block_text_length a b c d p :
  octet a → octet b → octet c → octet d → octet p → (length (block_text a b c d p) < 254)%nat.
Proof.
  intros. unfold block_text, quad_text.
  repeat (rewrite length_app; simpl length).
  pose proof (octet_text_length a). pose proof (octet_text_length b).
  pose proof (octet_text_length c). pose proof (octet_text_length d).
  pose proof (octet_text_length p). intuition lia.
Qed.

Lemma block_text_no_nul a b c d p :
  octet a → octet b → octet c → octet d → octet p → NUL ∉ block_text a b c d p.
Proof.
  intros Ha Hb Hc Hd Hp. unfold block_text.
  rewrite elem_of_app, elem_of_cons. intros [H|[H|H]]; [|done|].
  - by eapply (addr_char_neq _ NUL); [apply (quad_text_chars a b c d)|..].
  - destruct (print_dec_spec p) as (_ & Hd' & _); [unfold octet in Hp; lia|].
    rewrite Forall_forall in Hd'. by specialize (Hd' _ H).
Qed.

Lemma parse_cidr_block a b c d p :
  octet a → octet b → octet c → octet d → octet p →
  parse_cidr (block_text a b c d p) = Some (quad_val a b c d, p).
Proof.
  intros Ha Hb Hc Hd Hp. unfold parse_cidr.
  rewrite sso_strlcpy_fits by (pose proof (block_text_length a b c d p); intuition lia).
  unfold block_text. rewrite strchr_app
    by (by eapply addr_char_neq; [apply quad_text_chars|..]).
  rewrite take_app_length, drop_app_ge, Nat.sub_succ_l, Nat.sub_diag by lia.
  f_equal. f_equal.
  - rewrite <- (app_nil_r (quad_text a b c d)). by apply ip_to_uint_quad.
  - change (drop 1 ("/"%char :: print_dec p)) with (print_dec p).
    unfold octet in Hp. rewrite atoi_print by lia. apply u32_small. lia.
Qed.

(** The client address as the location check receives it. *)
Lemma ip_to_uint_addr a b c d :
  octet a → octet b → octet c → octet d → ip_to_uint (quad_text a b c d) = quad_val a b c d.
Proof. intros. rewrite <- (app_nil_r (quad_text a b c d)). by apply ip_to_uint_quad. Qed.

Lemma ip_matches_block a b c d p x y z w :
  octet a → octet b → octet c → octet d → 0 ≤ p ≤ 32 →
  octet x → octet y → octet z → octet w →
  ip_matches_cidr (quad_text x y z w) (block_text a b c d p) (quad_val a b c d) p = true ↔
  quad_val x y z w ≠ 0 ∧ same_block p (quad_val x y z w) (quad_val a b c d).
Proof.
  intros Ha Hb Hc Hd Hp Hx Hy Hz Hw. unfold ip_matches_cidr.
  rewrite ip_to_uint_addr by done.
  pose proof (quad_val_range a b c d) as Hn. pose proof (quad_val_range x y z w) as Hi.
  destruct (Z.eqb_spec (quad_val x y z w) 0) as [->|Hne]; [naive_solver|].
  destruct (Z.ltb_spec 0 p).
  - rewrite cidr_mask_eqb by (intuition lia). naive_solver.
  - rewrite parse_cidr_block by (done || unfold octet; lia).
    assert (p = 0) as -> by lia. simpl. rewrite !Z.land_0_r. split; [|done].
    intros _. split; [done|]. apply same_block_0; intuition.
Qed.

(** An element of ["locations"] for a CIDR block. *)
Definition cidr_rule (text effect : cstr) : json :=
  JObj [(list_ascii_of_string "type", JStr "ip"); (list_ascii_of_string "value", JStr text);
        (list_ascii_of_string "effect", JStr effect)].

(** End to end for a CIDR rule: the rule ["a.b.c.d/p"] compiled from
    JSON matches the client ["x.y.z.w"] exactly when the two addresses
    agree on their first [p] bits (any [p] from 0 to 32), except that the
    client address 0.0.0.0 never matches; the effect is the decision. *)
Theorem loc_cidr_rule_correct a b c d p x y z w country effect :
  octet a → octet b → octet c → octet d → 0 ≤ p ≤ 32 →
  octet x → octet y → octet z → octet w →
  let item := loc_compile_item (cidr_rule (block_text a b c d p) effect) in
  (loc_item_matches (quad_text x y z w) country item = true ↔
     quad_val x y z w ≠ 0 ∧ same_block p (quad_val x y z w) (quad_val a b c d)) ∧
  is_allow item = negb (strcmp_eq (c_str effect) "deny").
Proof.
  intros Ha Hb Hc Hd Hp Hx Hy Hz Hw item.
  assert (Hp' : octet p) by (unfold octet; lia).
  assert (Hlen := block_text_length a b c d p Ha Hb Hc Hd Hp').
  assert (E : item = {| type := LOC_TYPE_IP_CIDR; value := block_text a b c d p;
                        cidr_network := quad_val a b c d; cidr_prefix := p;
                        is_allow := negb (strcmp_eq (c_str effect) "deny") |}).
  { unfold item, loc_compile_item, cidr_rule, copy_str, is_str_eq. simpl.
    rewrite c_str_id by by apply block_text_no_nul.
    rewrite sso_strlcpy_fits by lia. by rewrite parse_cidr_block. }
  rewrite E. split; [|done]. by apply ip_matches_block.
Qed.

(** The rule [10.0.0.0/8] and the client [10.1.2.3]. *)
Lemma loc_cidr_rule_correct_witness :
  let item := loc_compile_item (cidr_rule "10.0.0.0/8" "allow") in
  loc_item_matches "10.1.2.3" "US" item = true ∧ is_allow item = true.
Proof.
  destruct (loc_cidr_rule_correct 10 0 0 0 8 10 1 2 3 "US" "allow") as [H1 H2];
    try (unfold octet; lia).
  split; [|exact H2]. refine (proj2 H1 (conj _ _)); [by vm_compute|reflexivity].
Defined.

(** A plain string in the location array is compared as text: it
    matches only the client whose address text is the (truncated) string
    itself.  The CIDR strings of the file's header comment, such as
    ["10.0.0.0/8"] under ["allowed_ips"], therefore match no address of
    the block. *)
Theorem loc_string_rule_exact s ip country :
  loc_item_matches ip country (loc_compile_item (JStr s)) = true ↔
  ip = take 254 (c_str s).
Proof. apply strcmp_eq_iff. Qed.

(** The numbers of a dotted address are not checked to be octets:
    every client address text whose first number is a valid octet plus a
    multiple of 256 is taken for the valid address, so it passes the same
    CIDR rules. *)
Theorem ip_to_uint_first_number_wraps a b c d k :
  octet a → octet b → octet c → octet d → 0 ≤ k < 2 ^ 24 →
  ip_to_uint (quad_text (a + 256 * k) b c d) = ip_to_uint (quad_text a b c d).
Proof.
  unfold octet. intros Ha Hb Hc Hd Hk. unfold ip_to_uint.
  rewrite <- (app_nil_r (quad_text (a + 256 * k) b c d)), <- (app_nil_r (quad_text a b c d)).
  rewrite !scan_quad_text by (done || lia). do 3 f_equal.
  unfold u32. rewrite !Z.shiftl_mul_pow2 by lia.
  replace ((a + 256 * k) * 2 ^ 24) with (a * 2 ^ 24 + k * 2 ^ 32) by lia.
  by rewrite Z.mod_add by lia.
Qed.

Lemma ip_to_uint_first_number_wraps_witness :
  ip_to_uint "266.0.0.1" = ip_to_uint "10.0.0.1".
Proof.
  refine (ip_to_uint_first_number_wraps 10 0 0 1 1 _ _ _ _ _); unfold octet; lia.
Defined.
