(* ===== verification/LbacPerm.v ===== *)
(** * Label-based permission strategy (strategies/lbac_perm.c)

    A resource label has to be listed by the policy and to be one of the
    user's comma-separated labels. *)

From S2P Require Import Prelude CLib CNum Json.

Record lbac_rule_item_t := { label_name : cstr; is_allow : bool }.

Definition comma : ascii := ","%char.

(** One element of the label array: a string, an object, or (any other
    kind) the zeroed item. *)
Definition lbac_compile_item (item : json) : lbac_rule_item_t :=
  match as_str (Some item) with
  | Some s => {| label_name := sso_strlcpy (Some s) 63; is_allow := true |}
  | None =>
      if yyjson_is_obj (Some item) then
        {| label_name := copy_str (yyjson_obj_get (Some item) "name") 63;
           is_allow := negb (is_str_eq (yyjson_obj_get (Some item) "effect") "deny") |}
      else {| label_name := []; is_allow := false |}
  end.

(** ["labels"], else ["clearance_levels"]. *)
Definition lbac_levels (root : json) : option (list json) :=
  match as_arr (yyjson_obj_get (Some root) "labels") with
  | Some l => Some l
  | None => as_arr (yyjson_obj_get (Some root) "clearance_levels")
  end.

(** [lbac_compile] *)
Definition lbac_compile `{JsonReader} (alloc : Z → bool) (rules_json : option cstr)
  : sso_error_t * option (list lbac_rule_item_t) :=
  match rules_json with
  | None => (SSO_ERR_INVALID_PARAM, None)
  | Some text =>
      match yyjson_read text with
      | None => (SSO_ERR_RULE_INVALID, None)
      | Some root =>
          match lbac_levels root with
          | None => (SSO_ERR_RULE_INVALID, None)
          | Some l =>
              if negb (alloc 16) then (SSO_ERR_OUT_OF_MEMORY, None)
              else if negb (alloc (Z.of_nat (length l) * 65)) then (SSO_ERR_OUT_OF_MEMORY, None)
              else (SSO_OK, Some (map lbac_compile_item l))
          end
      end
  end.

(** [start_ok && end_ok] for an occurrence at offset [p]. *)
Definition label_bounded (label list : cstr) (p : nat) : bool :=
  let start_ok := bool_decide (p = O) || bool_decide (list !! (p - 1)%nat = Some comma) in
  let at_end := list !! (p + length label)%nat in
  let end_ok := bool_decide (at_end = None) || bool_decide (at_end = Some comma) in
  start_ok && end_ok.

(** The loop of [label_in_list] from offset [p]; each turn advances by
    the label's length. *)
Fixpoint label_loop (fuel : nat) (label list : cstr) (p : nat) : outcome bool :=
  match fuel with
  | O => Diverge
  | S fuel' =>
      match strstr (drop p list) label with
      | None => Ret false
      | Some k =>
          let p := (p + k)%nat in
          if label_bounded label list p then Ret true
          else label_loop fuel' label list (p + length label)
      end
  end.

(** [label_in_list] *)
Definition label_in_list (label list : cstr) : outcome bool :=
  label_loop (S (length list)) label list O.

(** The loop of [lbac_evaluate]: the first item with the resource's label
    ends it, whether or not the user holds the label. *)
Fixpoint lbac_loop (items : list lbac_rule_item_t) (user_labels resource_label : cstr)
  : outcome (sso_error_t * option bool) :=
  match items with
  | [] => Ret (SSO_ERR_NOT_FOUND, None)
  | it :: items' =>
      if negb (strcmp_eq (label_name it) resource_label)
      then lbac_loop items' user_labels resource_label
      else
        held ← label_in_list resource_label user_labels;
        if negb held then Ret (SSO_ERR_NOT_FOUND, None)
        else Ret (SSO_OK, Some (is_allow it))
  end.

(** [lbac_evaluate] *)
Definition lbac_evaluate (user_labels resource_label : cstr)
    (compiled : option (list lbac_rule_item_t)) : outcome (sso_error_t * option bool) :=
  match compiled with
  | None => Ret (SSO_ERR_INVALID_PARAM, None)
  | Some items =>
      match user_labels, resource_label with
      | [], _ | _, [] => Ret (SSO_ERR_NOT_FOUND, None)
      | _, _ => lbac_loop items user_labels resource_label
      end
  end.

(** [lbac_validate] *)
Definition lbac_validate `{JsonReader} (rules_json : option cstr) : sso_error_t :=
  match rules_json with
  | None => SSO_ERR_INVALID_PARAM
  | Some text => if yyjson_read text then SSO_OK else SSO_ERR_RULE_INVALID
  end.

(* ================================================================== *)
(** ** Lemmas *)

(** An occurrence of the label delimited by commas or the ends. *)
Definition occurs_at (label list : cstr) (q : nat) : Prop :=
  label `prefix_of` drop q list ∧ (q ≤ length list)%nat ∧
  label_bounded label list q = true.

Lemma label_bounded_true label list q :
  label_bounded label list q = true ↔
  (q = O ∨ list !! (q - 1)%nat = Some comma) ∧
  (list !! (q + length label)%nat = None ∨ list !! (q + length label)%nat = Some comma).
Proof.
  unfold label_bounded.
  by rewrite andb_true_iff, !orb_true_iff, !bool_decide_eq_true.
Qed.

Lemma occurs_iff_elem label list :
  comma ∉ label →
  label ∈ split_on comma list ↔ ∃ q, occurs_at label list q.
Proof.
  intros Hc. rewrite elem_of_split_on. unfold occurs_at.
  setoid_rewrite label_bounded_true. split.
  - intros (_ & a & b & -> & Ha & Hb). exists (length a).
    rewrite drop_app_length, length_app. split_and!; [by apply prefix_app_r|lia| |].
    + destruct Ha as [->|(a' & ->)%last_Some]; [by left|right].
      rewrite length_app; simpl. rewrite lookup_app_l by (rewrite length_app; simpl; lia).
      rewrite Nat.add_sub, lookup_app_r, Nat.sub_diag by lia. done.
    + rewrite lookup_app_r, Nat.add_comm, Nat.add_sub, lookup_app_r, Nat.sub_diag by lia.
      destruct Hb as [->|Hb]; [by left|right]. destruct b; naive_solver.
  - intros (q & (b & Hb) & Hq & Hs & He). split; [done|].
    exists (take q list), b. rewrite <- Hb, take_drop. split_and!; [done| |].
    + destruct q as [|q]; [by left|right]. destruct Hs as [|Hs]; [done|].
      rewrite Nat.sub_1_r in Hs. simpl in Hs.
      by rewrite (take_S_r _ _ _ Hs), last_snoc.
    + rewrite <- (take_drop q list), Hb in He.
      rewrite lookup_app_r, length_take_le in He by (rewrite ?length_take_le by lia; lia).
      rewrite (Nat.add_comm q), Nat.add_sub, lookup_app_r, Nat.sub_diag in He by lia.
      destruct b as [|x b]; [by left|right]. simpl in He. naive_solver.
Qed.

(** An occurrence found by [strstr] that is not delimited can be skipped
    over whole, because the label has no comma inside. *)
Lemma skip_occurrence label list p k q :
  comma ∉ label →
  strstr (drop p list) label = Some k →
  label_bounded label list (p + k) = false →
  occurs_at label list q → (p ≤ q)%nat → (p + k + length label ≤ q)%nat.
Proof.
  intros Hc (Hpre & Hk & Hfirst)%strstr_Some Hnb (Hq & Hlen & Hb) Hpq.
  rewrite drop_drop in Hpre.
  destruct (decide (q < p + k)%nat) as [Hlt|Hge].
  { exfalso. apply (Hfirst (q - p)%nat); [lia|].
    rewrite drop_drop. by replace (p + (q - p))%nat with q by lia. }
  destruct (decide (q = p + k)%nat) as [->|Hne]; [congruence|].
  destruct (decide (p + k + length label ≤ q)%nat) as [|Hin]; [done|]. exfalso.
  apply label_bounded_true in Hb as [[->|Hs] _]; [lia|].
  destruct Hpre as (b & Hpre). apply Hc, list_elem_of_lookup.
  exists (q - 1 - (p + k))%nat.
  rewrite <- Hs. replace (q - 1)%nat with (p + k + (q - 1 - (p + k)))%nat at 2 by lia.
  rewrite <- lookup_drop, Hpre, lookup_app_l by lia. done.
Qed.

Lemma label_loop_correct fuel label list p :
  label ≠ [] → comma ∉ label → (p ≤ length list)%nat → (length list < p + fuel)%nat →
  (∀ q, occurs_at label list q → (p ≤ q)%nat) →
  ∃ b, label_loop fuel label list p = Ret b ∧
       (b = true ↔ ∃ q, occurs_at label list q).
Proof.
  intros Hne Hc. revert p. induction fuel as [|fuel IH]; intros p Hp Hf Hinv; [lia|].
  cbn [label_loop]. destruct (strstr (drop p list) label) as [k|] eqn:E.
  - pose proof (strstr_Some _ _ _ E) as (Hpre & Hk & _).
    rewrite drop_drop in Hpre. rewrite length_drop in Hk.
    assert (Hend : (p + k + length label ≤ length list)%nat).
    { apply prefix_length in Hpre. rewrite length_drop in Hpre. lia. }
    destruct (label_bounded label list (p + k)) eqn:Hb.
    + exists true. split; [done|]. split; [|done]. intros _. exists (p + k)%nat.
      split_and!; [done|lia|done].
    + apply IH; [done| |].
      * destruct label; [done|]. simpl in *. lia.
      * intros q Hq. eapply skip_occurrence; eauto.
  - exists false. split; [done|]. split; [done|]. intros (q & Hq).
    exfalso. pose proof (Hinv q Hq). destruct Hq as (Hq & _ & _).
    apply (strstr_None _ _ E (q - p)). rewrite drop_drop.
    by replace (p + (q - p))%nat with q by lia.
Qed.

(** Label lookup terminates and is membership: for a non-empty label
    without commas, [label_in_list] returns, and returns true exactly
    when the label is one of the comma-separated pieces of the list.
    (Skipping a whole occurrence with [p += len] loses nothing.) *)
Theorem label_in_list_correct (label list : cstr) :
  label ≠ [] → comma ∉ label →
  label_in_list label list = Ret (bool_decide (label ∈ split_on comma list)).
Proof.
  intros Hne Hc.
  destruct (label_loop_correct (S (length list)) label list 0) as (b & E & Hb);
    [done|done|lia|lia|lia|].
  unfold label_in_list. rewrite E. f_equal. symmetry.
  rewrite <- occurs_iff_elem in Hb by done.
  destruct b; [by apply bool_decide_eq_true, Hb|].
  apply bool_decide_eq_false. rewrite <- Hb. done.
Qed.

Lemma label_in_list_correct_witness :
  label_in_list "secret" "secretary,public,secret" = Ret true ∧
  label_in_list "secret" "secretary,topsecret" = Ret false.
Proof.
  split; (refine (label_in_list_correct "secret" _ _ _); [done|set_solver]).
Defined.

(** The guard of [lbac_evaluate] is needed: an empty label would make
    the loop turn forever on a list that does not start with a comma. *)
Lemma label_loop_empty_diverges fuel c list :
  c ≠ comma → label_loop fuel [] (c :: list) 0 = Diverge.
Proof.
  intros Hc. induction fuel as [|fuel IH]; [done|]. cbn [label_loop].
  replace (strstr (drop 0 (c :: list)) []) with (Some O) by done.
  replace (label_bounded [] (c :: list) (0 + 0)) with false; [done|].
  symmetry. apply not_true_is_false. rewrite label_bounded_true. naive_solver.
Qed.

(** A label check returns for every input and grants or denies only
    when both texts are present, the first policy item with the
    resource's label has that effect and the user holds the label. *)
Theorem lbac_evaluate_correct (items : list lbac_rule_item_t) (ul rl : cstr) :
  comma ∉ rl →
  ∃ e r, lbac_evaluate ul rl (Some items) = Ret (e, r) ∧
  ∀ b, (e = SSO_OK ∧ r = Some b) ↔
    ul ≠ [] ∧ rl ≠ [] ∧ rl ∈ split_on comma ul ∧
    first_match (λ it, strcmp_eq (label_name it) rl) is_allow items = Some b.
Proof.
  intros Hc. unfold lbac_evaluate.
  destruct ul as [|x ul]; [by eexists _, _; split; [done|naive_solver]|].
  destruct rl as [|y rl]; [by eexists _, _; split; [done|naive_solver]|].
  remember (x :: ul) as ul' eqn:Hul. remember (y :: rl) as rl' eqn:Hrl.
  induction items as [|it items IH]; cbn [lbac_loop first_match].
  - by eexists _, _; split; [done|naive_solver].
  - destruct (strcmp_eq (label_name it) rl'); simpl; [|done].
    rewrite label_in_list_correct by (by subst). rewrite outcome_bind_Ret.
    case_bool_decide; simpl; eexists _, _; (split; [done|]); naive_solver.
Qed.

Lemma lbac_evaluate_correct_witness :
  lbac_evaluate "public,secret" "secret"
    (Some [{| label_name := "secret"; is_allow := true |}]) = Ret (SSO_OK, Some true).
Proof.
  destruct (lbac_evaluate_correct [{| label_name := "secret"; is_allow := true |}]
              "public,secret" "secret") as (e & r & E & H); [set_solver|].
  rewrite E. destruct (H true) as [_ H2].
  destruct H2 as [-> ->]; [|done]. split_and!; [done|done| |done].
  by apply (bool_decide_unpack _).
Defined.
