(* ===== verification/AbacPerm.v ===== *)
(** * Attribute-based permission strategy (strategies/abac_perm.c)

    Conditions over the JSON attributes of the subject, the resource and
    the environment, combined with AND or OR. *)

From S2P Require Import Prelude CLib CNum Json.

Inductive abac_source_t := ABAC_SRC_SUBJECT | ABAC_SRC_RESOURCE | ABAC_SRC_ENVIRONMENT.

Record abac_condition_t := {
  attr_name : cstr;
  source : abac_source_t;
  op : cstr;
  expected_value : cstr
}.

Record abac_compiled_rule_t := {
  conditions : list abac_condition_t;
  is_or_logic : bool;
  is_allow_effect : bool
}.

(** [parse_number] *)
Definition parse_number (s : cstr) : double :=
  match s with [] => double_of_Z 0 | _ => strtod s end.

(** Removal of the blanks around a token. *)
Definition trim (s : cstr) : cstr :=
  reverse (skip_while (Ascii.eqb " ") (reverse (skip_while (Ascii.eqb " ") s))).

(** The ["in"] operator: the non-empty pieces of the comma-separated
    expected value, blanks removed. *)
Definition op_in (actual expected : cstr) : bool :=
  existsb (λ item, strcmp_eq actual (trim item))
    (strtok_all "," (sso_strlcpy (Some expected) 1024)).

(** [apply_operator] *)
Definition apply_operator (op actual expected : cstr) : bool :=
  if strcmp_eq op "eq" then strcmp_eq actual expected
  else if strcmp_eq op "neq" then negb (strcmp_eq actual expected)
  else if strcmp_eq op "contains" then bool_decide (is_Some (strstr actual expected))
  else if strcmp_eq op "in" then op_in actual expected
  else
    let av := parse_number actual in
    let ev := parse_number expected in
    if strcmp_eq op "gt" then double_lt ev av
    else if strcmp_eq op "gte" then double_le ev av
    else if strcmp_eq op "lt" then double_lt av ev
    else if strcmp_eq op "lte" then double_le av ev
    else false.

(** One element of the ["conditions"] array. *)
Definition abac_compile_condition (item : json) : abac_condition_t :=
  let src := yyjson_obj_get (Some item) "source" in
  {| attr_name := copy_str (yyjson_obj_get (Some item) "attr") 63;
     source := if is_str_eq src "resource" then ABAC_SRC_RESOURCE
               else if is_str_eq src "environment" then ABAC_SRC_ENVIRONMENT
               else ABAC_SRC_SUBJECT;
     op := match as_str (yyjson_obj_get (Some item) "op") with
           | Some o => sso_strlcpy (Some o) 15
           | None => "eq"
           end;
     expected_value := default [] (scalar_text (yyjson_obj_get (Some item) "value") 255) |}.

(** [abac_compile] *)
Definition abac_compile `{JsonReader} (alloc : Z → bool) (rules_json : option cstr)
  : sso_error_t * option abac_compiled_rule_t :=
  match rules_json with
  | None => (SSO_ERR_INVALID_PARAM, None)
  | Some text =>
      match yyjson_read text with
      | None => (SSO_ERR_RULE_INVALID, None)
      | Some root =>
          match as_arr (yyjson_obj_get (Some root) "conditions") with
          | None => (SSO_ERR_RULE_INVALID, None)
          | Some conds =>
              if negb (alloc 24) then (SSO_ERR_OUT_OF_MEMORY, None)
              else if negb (alloc (Z.of_nat (length conds) * 340))
              then (SSO_ERR_OUT_OF_MEMORY, None)
              else (SSO_OK, Some
                {| conditions := map abac_compile_condition conds;
                   is_or_logic := is_str_eq (yyjson_obj_get (Some root) "logic") "or";
                   is_allow_effect :=
                     negb (is_str_eq (yyjson_obj_get (Some root) "effect") "deny") |})
          end
      end
  end.

(** [get_attr_from_yyjson] with a buffer of [buf_size] bytes. *)
Definition get_attr_from_yyjson (root : option json) (name : cstr) (buf_size : nat)
  : option cstr :=
  match yyjson_obj_get root name with
  | None => None
  | Some item => scalar_text (Some item) buf_size
  end.

(** A document that is parsed only when its text is not empty. *)
Definition read_attrs `{JsonReader} (text : cstr) : option json :=
  match text with [] => None | _ => yyjson_read text end.

(** The body of the loop of [abac_evaluate]. *)
Definition condition_matched (subject_root resource_root env_root : option json)
    (cond : abac_condition_t) : bool :=
  let source_root := match source cond with
                     | ABAC_SRC_RESOURCE => resource_root
                     | ABAC_SRC_ENVIRONMENT => env_root
                     | ABAC_SRC_SUBJECT => subject_root
                     end in
  match get_attr_from_yyjson source_root (attr_name cond) 512 with
  | Some actual => apply_operator (op cond) actual (expected_value cond)
  | None => false
  end.

(** The loop: the flags [any_matched] and [all_matched] at its exit. *)
Fixpoint abac_loop (matched : abac_condition_t → bool) (or_logic : bool)
    (conds : list abac_condition_t) : bool * bool :=
  match conds with
  | [] => (false, true)
  | c :: conds' =>
      if or_logic then
        if matched c then (true, true) else abac_loop matched or_logic conds'
      else
        if negb (matched c) then (false, false) else abac_loop matched or_logic conds'
  end.

(** [abac_evaluate] *)
Definition abac_evaluate `{JsonReader} (subject_attrs resource_attrs environment : cstr)
    (compiled : option abac_compiled_rule_t) : sso_error_t * option bool :=
  match compiled with
  | None => (SSO_ERR_INVALID_PARAM, None)
  | Some r =>
      let matched := condition_matched (read_attrs subject_attrs)
                       (read_attrs resource_attrs) (read_attrs environment) in
      let '(any_matched, all_matched) := abac_loop matched (is_or_logic r) (conditions r) in
      let conditions_met := if is_or_logic r then any_matched else all_matched in
      if conditions_met then (SSO_OK, Some (is_allow_effect r))
      else (SSO_ERR_NOT_FOUND, None)
  end.

(** [abac_validate] *)
Definition abac_validate `{JsonReader} (rules_json : option cstr) : sso_error_t :=
  match rules_json with
  | None => SSO_ERR_INVALID_PARAM
  | Some text => if yyjson_read text then SSO_OK else SSO_ERR_RULE_INVALID
  end.

(* ================================================================== *)
(** ** Lemmas *)

Lemma abac_loop_or matched conds :
  (abac_loop matched true conds).1 = existsb matched conds.
Proof.
  induction conds as [|c conds IH]; [done|]. cbn [abac_loop existsb].
  destruct (matched c); [done|]. by rewrite IH.
Qed.

Lemma abac_loop_and matched conds :
  (abac_loop matched false conds).2 = forallb matched conds.
Proof.
  induction conds as [|c conds IH]; [done|]. cbn [abac_loop forallb].
  destruct (matched c); simpl; [done|]. done.
Qed.

(** The early-exit loop over conditions computes the connective: an
    AND rule applies exactly when every condition holds (so a rule without
    conditions always applies), an OR rule exactly when some condition
    holds; the decision is the rule's effect. *)
Theorem abac_evaluate_connective `{JsonReader} sub res env r b :
  abac_evaluate sub res env (Some r) = (SSO_OK, Some b) ↔
  b = is_allow_effect r ∧
  let holds c := condition_matched (read_attrs sub) (read_attrs res) (read_attrs env) c = true in
  if is_or_logic r then Exists holds (conditions r) else Forall holds (conditions r).
Proof.
  unfold abac_evaluate. set (m := condition_matched _ _ _).
  destruct (abac_loop m (is_or_logic r) (conditions r)) as [a1 a2] eqn:E.
  destruct (is_or_logic r).
  - replace a1 with (existsb m (conditions r)) by (by rewrite <- abac_loop_or, E).
    rewrite Exists_exists. destruct (existsb m (conditions r)) eqn:Hx.
    + apply existsb_exists in Hx as (c & Hc & Hm). split; [|naive_solver].
      intros [= <-]. split; [done|]. exists c. by rewrite list_elem_of_In.
    + split; [done|]. intros [_ (c & Hc & Hm)]. exfalso.
      apply not_true_iff_false in Hx. apply Hx, existsb_exists.
      exists c. by rewrite <- list_elem_of_In.
  - replace a2 with (forallb m (conditions r)) by (by rewrite <- abac_loop_and, E).
    rewrite Forall_forall. destruct (forallb m (conditions r)) eqn:Hx.
    + rewrite forallb_forall in Hx. split; [|naive_solver].
      intros [= <-]. split; [done|]. intros c Hc. by apply Hx, list_elem_of_In.
    + split; [done|]. intros [_ Hall]. exfalso.
      apply not_true_iff_false in Hx. apply Hx, forallb_forall.
      intros c Hc. by apply Hall, list_elem_of_In.
Qed.

(** ** The ["in"] operator *)

(** A clean item: no comma, neither empty nor with blanks at its ends. *)
Definition clean_item (s : cstr) : Prop :=
  ","%char ∉ s ∧ s ≠ [] ∧ head s ≠ Some " "%char ∧ last s ≠ Some " "%char.

Lemma skip_blanks s : head s ≠ Some " "%char → skip_while (Ascii.eqb " ") s = s.
Proof.
  destruct s as [|c s]; [done|]. intros Hc. apply skip_while_hd.
  apply Ascii.eqb_neq. simpl in Hc. congruence.
Qed.

Lemma trim_clean s : head s ≠ Some " "%char → last s ≠ Some " "%char → trim s = s.
Proof.
  intros Hh Hl. unfold trim. rewrite (skip_blanks s) by done.
  rewrite skip_blanks; [apply reverse_involutive|]. by rewrite head_reverse.
Qed.

Lemma trim_blank s : trim (" "%char :: s) = trim s.
Proof. done. Qed.

(** ["a, b, c"] *)
Fixpoint list_text (items : list cstr) : cstr :=
  match items with
  | [] => []
  | [x] => x
  | x :: items' => x ++ ","%char :: " "%char :: list_text items'
  end.

Lemma split_list_text x items :
  Forall clean_item (x :: items) →
  split_on "," (list_text (x :: items)) = x :: map (cons " "%char) items.
Proof.
  revert x. induction items as [|y items IH]; intros x Hx.
  - inversion Hx as [|? ? (Hc & _) _]; subst. by apply split_on_single.
  - inversion Hx as [|? ? (Hc & _) Hy]; subst.
    change (list_text (x :: y :: items))
      with (x ++ ","%char :: " "%char :: list_text (y :: items)).
    rewrite split_on_app by done. f_equal.
    remember (list_text (y :: items)) as t eqn:Ht. cbn [split_on].
    replace (Ascii.eqb " " ",") with false by done. subst t. by rewrite IH.
Qed.

Lemma existsb_app_true {A} (f : A → bool) l :
  existsb f l = true ↔ ∃ x, x ∈ l ∧ f x = true.
Proof. rewrite existsb_exists. by setoid_rewrite list_elem_of_In. Qed.

(** On a list written with comma and blank between clean items, the
    ["in"] operator is membership. *)
Theorem op_in_list (items : list cstr) (actual : cstr) :
  Forall clean_item items → (length (list_text items) < 1024)%nat →
  apply_operator "in" actual (list_text items) = bool_decide (actual ∈ items).
Proof.
  intros Hcl Hlen. change (apply_operator "in" actual (list_text items))
    with (op_in actual (list_text items)).
  unfold op_in, strtok_all. rewrite sso_strlcpy_fits by done.
  apply eq_bool_prop_intro. rewrite !Is_true_true, bool_decide_eq_true, existsb_app_true.
  destruct items as [|x items]; [simpl; set_solver|].
  rewrite split_list_text by done. setoid_rewrite list_elem_of_filter.
  setoid_rewrite strcmp_eq_iff. rewrite Forall_forall in Hcl. split.
  - intros (p & [_ [->|(y & -> & Hy)%list_elem_of_fmap]%elem_of_cons] & ->).
    + destruct (Hcl x) as (_ & _ & ? & ?); [set_solver|]. rewrite trim_clean by done. set_solver.
    + destruct (Hcl y) as (_ & _ & ? & ?); [set_solver|].
      rewrite trim_blank, trim_clean by done. set_solver.
  - intros Hin. destruct (Hcl actual Hin) as (_ & ? & ? & ?).
    apply elem_of_cons in Hin as [->|Hin].
    + exists x. split_and!; [done|set_solver|by rewrite trim_clean].
    + exists (" "%char :: actual). split_and!; [done| |by rewrite trim_blank, trim_clean].
      right. by apply list_elem_of_fmap_2.
Qed.

Lemma op_in_list_witness :
  apply_operator "in" "ops" "eng, ops, sales" = true.
Proof.
  refine (op_in_list [list_ascii_of_string "eng"; list_ascii_of_string "ops";
                      list_ascii_of_string "sales"] "ops" _ _).
  - repeat constructor; try done; set_solver.
  - by apply Nat.ltb_lt.
Defined.

(** A numeric subject attribute [n] compared with a numeric rule value. *)
Definition number_rule (o : cstr) (v : Z) : json :=
  JObj [(list_ascii_of_string "conditions",
         JArr [JObj [(list_ascii_of_string "attr", JStr "n"); (list_ascii_of_string "op", JStr o);
                     (list_ascii_of_string "value", JUint v)]])].
Definition number_attrs (n : Z) : json := JObj [(list_ascii_of_string "n", JUint n)].
Definition number_reader (o : cstr) (n v : Z) : JsonReader :=
  table_reader [(list_ascii_of_string "rule", number_rule o v);
                (list_ascii_of_string "attrs", number_attrs n)].
Definition number_check (o : cstr) (n v : Z) : sso_error_t * option bool :=
  let r := number_reader o n v in
  abac_evaluate "attrs" [] [] (abac_compile (λ _, true) (Some ("rule" : cstr))).2.

(** Numbers are compared through a text of six significant digits:
    a subject with the attribute 1234568 satisfies neither [gt 1234567]
    nor [neq 1234567], and satisfies [eq 1234567]. *)
Theorem abac_numbers_lose_digits :
  number_check "eq" 1234568 1234567 = (SSO_OK, Some true) ∧
  number_check "gt" 1234568 1234567 = (SSO_ERR_NOT_FOUND, None) ∧
  number_check "neq" 1234568 1234567 = (SSO_ERR_NOT_FOUND, None) ∧
  number_check "gt" 123457 123456 = (SSO_OK, Some true).
Proof. by vm_compute. Qed.
