(* ===== verification/Types.v ===== *)
(** * Entities and evaluation contexts (include/sso.h, user.h, role.h,
      group.h, policy.h; the eval_context functions of src/sso.c)

    The [params] member of an evaluation context is a C union: every
    permission check writes its own view, and every strategy and the
    destructor read theirs, whatever the check was.  It is modelled as
    the bytes of the union, together with the heap blocks the context
    owns. *)

From S2P Require Import Prelude CLib.

Notation sso_id_t := Z (only parsing).
Definition SSO_ID_NONE : Z := 0.

(** The values with a name, and the ints a cast may put there. *)
Inductive user_status_t := USER_STATUS_INACTIVE | USER_STATUS_ACTIVE | USER_STATUS_LOCKED | USER_STATUS_INT (z : Z).
Inductive role_status_t := ROLE_STATUS_INACTIVE | ROLE_STATUS_ACTIVE | ROLE_STATUS_INT (z : Z).
Inductive group_status_t := GROUP_STATUS_INACTIVE | GROUP_STATUS_ACTIVE | GROUP_STATUS_INT (z : Z).
Inductive policy_target_type_t :=
| POLICY_TARGET_USER | POLICY_TARGET_ROLE | POLICY_TARGET_GROUP | POLICY_TARGET_INT (z : Z).
Inductive policy_effect_t := POLICY_EFFECT_DENY | POLICY_EFFECT_ALLOW | POLICY_EFFECT_INT (z : Z).
Inductive policy_status_t := POLICY_STATUS_DISABLED | POLICY_STATUS_ENABLED | POLICY_STATUS_INT (z : Z).
Inductive perm_strategy_type_t :=
| PERM_STRATEGY_FUNCTIONAL | PERM_STRATEGY_API | PERM_STRATEGY_DATA | PERM_STRATEGY_RBAC
| PERM_STRATEGY_LOCATION | PERM_STRATEGY_ABAC | PERM_STRATEGY_LBAC | PERM_STRATEGY_INT (z : Z).

#[global] Instance user_status_eq_dec : EqDecision user_status_t.
Proof. solve_decision. Defined.
#[global] Instance role_status_eq_dec : EqDecision role_status_t.
Proof. solve_decision. Defined.
#[global] Instance group_status_eq_dec : EqDecision group_status_t.
Proof. solve_decision. Defined.
#[global] Instance policy_target_eq_dec : EqDecision policy_target_type_t.
Proof. solve_decision. Defined.
#[global] Instance policy_status_eq_dec : EqDecision policy_status_t.
Proof. solve_decision. Defined.
#[global] Instance perm_strategy_type_eq_dec : EqDecision perm_strategy_type_t.
Proof. solve_decision. Defined.

(** Enums as ints, and ints cast to enums. *)
Definition user_status_int (s : user_status_t) : Z :=
  match s with USER_STATUS_INACTIVE => 0 | USER_STATUS_ACTIVE => 1 | USER_STATUS_LOCKED => 2 | USER_STATUS_INT z => z end.
Definition user_status_of (z : Z) : user_status_t :=
  match z with 0 => USER_STATUS_INACTIVE | 1 => USER_STATUS_ACTIVE | 2 => USER_STATUS_LOCKED | _ => USER_STATUS_INT z end.
Definition role_status_int (s : role_status_t) : Z :=
  match s with ROLE_STATUS_INACTIVE => 0 | ROLE_STATUS_ACTIVE => 1 | ROLE_STATUS_INT z => z end.
Definition role_status_of (z : Z) : role_status_t :=
  match z with 0 => ROLE_STATUS_INACTIVE | 1 => ROLE_STATUS_ACTIVE | _ => ROLE_STATUS_INT z end.
Definition group_status_int (s : group_status_t) : Z :=
  match s with GROUP_STATUS_INACTIVE => 0 | GROUP_STATUS_ACTIVE => 1 | GROUP_STATUS_INT z => z end.
Definition group_status_of (z : Z) : group_status_t :=
  match z with 0 => GROUP_STATUS_INACTIVE | 1 => GROUP_STATUS_ACTIVE | _ => GROUP_STATUS_INT z end.
Definition policy_status_int (s : policy_status_t) : Z :=
  match s with POLICY_STATUS_DISABLED => 0 | POLICY_STATUS_ENABLED => 1 | POLICY_STATUS_INT z => z end.
Definition policy_status_of (z : Z) : policy_status_t :=
  match z with 0 => POLICY_STATUS_DISABLED | 1 => POLICY_STATUS_ENABLED | _ => POLICY_STATUS_INT z end.
Definition policy_effect_int (e : policy_effect_t) : Z :=
  match e with POLICY_EFFECT_DENY => 0 | POLICY_EFFECT_ALLOW => 1 | POLICY_EFFECT_INT z => z end.
Definition policy_effect_of (z : Z) : policy_effect_t :=
  match z with 0 => POLICY_EFFECT_DENY | 1 => POLICY_EFFECT_ALLOW | _ => POLICY_EFFECT_INT z end.
Definition policy_target_int (t : policy_target_type_t) : Z :=
  match t with POLICY_TARGET_USER => 0 | POLICY_TARGET_ROLE => 1 | POLICY_TARGET_GROUP => 2 | POLICY_TARGET_INT z => z end.
Definition policy_target_of (z : Z) : policy_target_type_t :=
  match z with 0 => POLICY_TARGET_USER | 1 => POLICY_TARGET_ROLE | 2 => POLICY_TARGET_GROUP | _ => POLICY_TARGET_INT z end.
Definition perm_strategy_int (t : perm_strategy_type_t) : Z :=
  match t with
  | PERM_STRATEGY_FUNCTIONAL => 1 | PERM_STRATEGY_API => 2 | PERM_STRATEGY_DATA => 3 | PERM_STRATEGY_RBAC => 4
  | PERM_STRATEGY_LOCATION => 5 | PERM_STRATEGY_ABAC => 6 | PERM_STRATEGY_LBAC => 7 | PERM_STRATEGY_INT z => z
  end.
Definition perm_strategy_of (z : Z) : perm_strategy_type_t :=
  match z with
  | 1 => PERM_STRATEGY_FUNCTIONAL | 2 => PERM_STRATEGY_API | 3 => PERM_STRATEGY_DATA | 4 => PERM_STRATEGY_RBAC
  | 5 => PERM_STRATEGY_LOCATION | 6 => PERM_STRATEGY_ABAC | 7 => PERM_STRATEGY_LBAC | _ => PERM_STRATEGY_INT z
  end.

Record user_t := {
  u_id : Z; u_username : cstr; u_phone : cstr; u_password_hash : cstr; u_email : cstr;
  u_display_name : cstr; u_status : user_status_t; u_created_at : Z; u_updated_at : Z;
  u_attributes : cstr; u_mfa_enabled : Z; u_mfa_secret : cstr; u_password_set_at : Z
}.

Record role_t := {
  r_id : Z; r_name : cstr; r_description : cstr; r_parent_role_id : Z;
  r_status : role_status_t; r_created_at : Z; r_updated_at : Z
}.

Record group_t := {
  g_id : Z; g_name : cstr; g_description : cstr; g_parent_group_id : Z;
  g_status : group_status_t; g_created_at : Z; g_updated_at : Z
}.

(** [compiled_rules] is never read or written besides being zeroed. *)
Record policy_t := {
  p_id : Z; p_name : cstr; p_strategy_type : perm_strategy_type_t; p_effect : policy_effect_t;
  p_priority : Z; p_rules : cstr; p_status : policy_status_t; p_created_at : Z; p_updated_at : Z
}.

(* ------------------------------------------------------------------ *)
(** ** The params union *)

(** [sizeof(ctx->params)]: the ABAC member, 2048 + 2048 + 64 bytes. *)
Definition params_size : nat := 4160.

(** Member offsets and sizes. *)
Definition off_function_code : nat := 0.     (* functional.function_code[128] *)
Definition off_http_method : nat := 0.       (* api.http_method[8]            *)
Definition off_request_path : nat := 8.      (* api.request_path[1024]        *)
Definition off_resource_type : nat := 0.     (* data.resource_type[64]        *)
Definition off_record : nat := 64.           (* data.record (pointer)         *)
Definition off_record_len : nat := 72.       (* data.record_len               *)
Definition off_field_filter : nat := 80.     (* data.field_filter (pointer)   *)
Definition off_field_filter_count : nat := 88. (* data.field_filter_count     *)
Definition off_role_name : nat := 0.         (* rbac.role_name[64]            *)
Definition off_source_ip : nat := 0.         (* location.source_ip[64]        *)
Definition off_geo_country : nat := 64.      (* location.geo_country[8]       *)
Definition off_subject_attrs : nat := 0.     (* abac.subject_attrs[2048]      *)
Definition off_resource_attrs : nat := 2048. (* abac.resource_attrs[2048]     *)
Definition off_action : nat := 4096.         (* abac.action[64]               *)
Definition off_user_labels : nat := 0.       (* lbac.user_labels[256]         *)
Definition off_resource_label : nat := 256.  (* lbac.resource_label[64]       *)

(** Overwrite [length bs] bytes from [off]. *)
Definition put_bytes (off : nat) (bs params : list ascii) : list ascii :=
  take off params ++ bs ++ drop (off + length bs) params.

(** [sso_strlcpy(field, s, size)]: [strncpy] pads with NULs. *)
Definition put_str (off size : nat) (s : cstr) (params : list ascii) : list ascii :=
  let t := sso_strlcpy (Some s) size in
  put_bytes off (t ++ replicate (size - length t) NUL) params.

Definition get_str (off : nat) (params : list ascii) : cstr := c_str (drop off params).

(** Little-endian 64-bit words: pointers and sizes. *)
Fixpoint le_combine (bs : list ascii) : Z :=
  match bs with [] => 0 | b :: bs' => ord b + 256 * le_combine bs' end.
Fixpoint le_split (n : nat) (z : Z) : list ascii :=
  match n with O => [] | S n' => chr (z mod 256) :: le_split n' (z / 256) end.

Definition get_word (off : nat) (params : list ascii) : Z := le_combine (take 8 (drop off params)).
Definition put_word (off : nat) (z : Z) (params : list ascii) : list ascii :=
  put_bytes off (le_split 8 z) params.

(** Heap blocks an evaluation context can own: a string, or the array of
    a field filter with the strings it points to (NULL when a copy could
    not be allocated). *)
Inductive hobj := HStr (s : cstr) | HStrs (l : list (option cstr)).

(** The caller's user is present whenever [user_id] is set from it. *)
Record eval_context := {
  ec_has_user : bool;
  ec_user_id : Z;
  ec_params : list ascii;
  ec_environment : cstr;
  ec_heap : gmap Z hobj;
  ec_brk : Z                    (* next address the allocator hands out *)
}.

Definition with_params (f : list ascii → list ascii) (c : eval_context) : eval_context :=
  {| ec_has_user := ec_has_user c; ec_user_id := ec_user_id c; ec_params := f (ec_params c);
     ec_environment := ec_environment c; ec_heap := ec_heap c; ec_brk := ec_brk c |}.
Definition with_heap (h : gmap Z hobj) (c : eval_context) : eval_context :=
  {| ec_has_user := ec_has_user c; ec_user_id := ec_user_id c; ec_params := ec_params c;
     ec_environment := ec_environment c; ec_heap := h; ec_brk := ec_brk c |}.

(** Allocation: a fresh non-null address. *)
Definition heap_alloc (o : hobj) (c : eval_context) : Z * eval_context :=
  (ec_brk c,
   {| ec_has_user := ec_has_user c; ec_user_id := ec_user_id c; ec_params := ec_params c;
      ec_environment := ec_environment c; ec_heap := <[ec_brk c := o]> (ec_heap c);
      ec_brk := ec_brk c + 16 |}).

(** [free(p)]: nothing for NULL, undefined for an address that is not a
    live block. *)
Definition heap_free (p : Z) (c : eval_context) : outcome eval_context :=
  if p =? 0 then Ret c
  else match ec_heap c !! p with
       | Some _ => Ret (with_heap (delete p (ec_heap c)) c)
       | None => Crash
       end.

(** [eval_context_init]; [brk] is the address the allocator hands out
    next. *)
Definition eval_context_init (brk : Z) (user : user_t) : eval_context :=
  {| ec_has_user := true; ec_user_id := u_id user; ec_params := replicate params_size NUL;
     ec_environment := []; ec_heap := ∅; ec_brk := brk |}.

(** [eval_context_destroy] *)
Definition eval_context_destroy (c : eval_context) : outcome eval_context :=
  c ← heap_free (get_word off_record (ec_params c)) c;
  let c := with_params (put_word off_record 0) c in
  let ff := get_word off_field_filter (ec_params c) in
  if ff =? 0 then Ret c
  else
    match ec_heap c !! ff with
    | Some (HStrs l) =>
        if Z.of_nat (length l) <? get_word off_field_filter_count (ec_params c) then Crash
        else
          c ← heap_free ff c;
          Ret (with_params (put_word off_field_filter 0) c)
    | _ => Crash
    end.

(* ================================================================== *)
(** ** Lemmas: reading back what was written *)

Lemma put_bytes_length off bs p :
  (off + length bs ≤ length p)%nat → length (put_bytes off bs p) = length p.
Proof.
  intros H. unfold put_bytes. rewrite !length_app, length_take, length_drop. lia.
Qed.

Lemma drop_put_bytes off bs p :
  (off ≤ length p)%nat →
  drop off (put_bytes off bs p) = bs ++ drop (off + length bs) p.
Proof.
  intros H. unfold put_bytes. rewrite drop_app_ge by (rewrite length_take; lia).
  rewrite length_take, Nat.min_l, Nat.sub_diag by lia. done.
Qed.

Lemma drop_put_bytes_after off off' bs p :
  (off + length bs ≤ length p)%nat → (off + length bs ≤ off')%nat →
  drop off' (put_bytes off bs p) = drop off' p.
Proof.
  intros H1 H2. unfold put_bytes. rewrite app_assoc.
  assert (E : length (take off p ++ bs) = (off + length bs)%nat)
    by (rewrite length_app, length_take; lia).
  rewrite drop_app_ge, E, drop_drop by lia. f_equal. lia.
Qed.

Lemma take_put_bytes_before off n off' bs p :
  (off' + n ≤ off)%nat → (off ≤ length p)%nat →
  take n (drop off' (put_bytes off bs p)) = take n (drop off' p).
Proof.
  intros H1 H2. unfold put_bytes. rewrite drop_app_le by (rewrite length_take; lia).
  rewrite take_app_le by (rewrite length_drop, length_take; lia).
  rewrite !take_drop_commute, take_take. do 2 f_equal. lia.
Qed.

Lemma put_str_bytes_length size (s : cstr) :
  (0 < size)%nat →
  length (sso_strlcpy (Some s) size ++ replicate (size - length (sso_strlcpy (Some s) size)) NUL) = size.
Proof.
  intros H. pose proof (sso_strlcpy_length (Some s) size).
  rewrite length_app, length_replicate. lia.
Qed.

Lemma put_str_length off size s p :
  (0 < size)%nat → (off + size ≤ length p)%nat → length (put_str off size s p) = length p.
Proof.
  intros ??. unfold put_str. apply put_bytes_length. by rewrite put_str_bytes_length.
Qed.

(** A field reads back the truncated copy. *)
Lemma get_put_str off size s p :
  (0 < size)%nat → (off ≤ length p)%nat → NUL ∉ s →
  get_str off (put_str off size s p) = sso_strlcpy (Some s) size.
Proof.
  intros Hs Ho Hn. unfold get_str, put_str. rewrite drop_put_bytes by done.
  pose proof (sso_strlcpy_length (Some s) size).
  set (t := sso_strlcpy (Some s) size) in *.
  replace (size - length t)%nat with (S (size - length t - 1)) by lia.
  rewrite <- app_assoc. cbn [replicate app]. apply c_str_app_nul.
  by apply sso_strlcpy_no_nul.
Qed.

Lemma c_str_replicate_nul n t : c_str (replicate (S n) NUL ++ t) = [].
Proof. done. Qed.

Lemma get_str_zeros off n : get_str off (replicate n NUL) = [].
Proof. unfold get_str. rewrite drop_replicate. by destruct (n - off)%nat. Qed.

Lemma get_put_str_after off off' size s p :
  (0 < size)%nat → (off + size ≤ length p)%nat → (off + size ≤ off')%nat →
  get_str off' (put_str off size s p) = get_str off' p.
Proof.
  intros. unfold get_str, put_str.
  rewrite drop_put_bytes_after; [done|rewrite put_str_bytes_length by done; lia..].
Qed.

Lemma le_combine_nonneg bs : 0 ≤ le_combine bs.
Proof.
  induction bs as [|b bs IH]; simpl; [lia|]. pose proof (ord_range b). lia.
Qed.

Lemma le_combine_zero bs : le_combine bs = 0 ↔ Forall (λ b, b = NUL) bs.
Proof.
  induction bs as [|b bs IH]; cbn [le_combine]; [by split; [constructor|]|].
  rewrite Forall_cons, <- IH. pose proof (ord_range b). pose proof (le_combine_nonneg bs).
  assert (ord b = 0 ↔ b = NUL).
  { split; [|by intros ->]. intros E. apply ord_inj. by rewrite E. }
  split; [|intuition lia]. intros ?. assert (ord b = 0) by lia. intuition lia.
Qed.

Lemma length_le_split n z : length (le_split n z) = n.
Proof. revert z; induction n; intros; simpl; auto. Qed.

Lemma le_combine_split n z : 0 ≤ z → le_combine (le_split n z) = z mod 256 ^ Z.of_nat n.
Proof.
  revert z. induction n as [|n IH]; intros z Hz; cbn [le_split le_combine].
  - by rewrite Z.mod_1_r.
  - rewrite ord_chr by (apply Z.mod_pos_bound; lia).
    rewrite IH by (apply Z.div_pos; lia).
    rewrite Nat2Z.inj_succ, Z.pow_succ_r by lia.
    symmetry. apply Z.rem_mul_r; [lia|]. apply Z.pow_pos_nonneg; lia.
Qed.

Lemma get_put_word off z p :
  0 ≤ z < 2 ^ 64 → (off ≤ length p)%nat → get_word off (put_word off z p) = z.
Proof.
  intros Hz Ho. unfold get_word, put_word. rewrite drop_put_bytes by done.
  rewrite take_app_le by (rewrite length_le_split; lia).
  rewrite take_ge by (rewrite length_le_split; lia).
  rewrite le_combine_split by lia. apply Z.mod_small. change (256 ^ Z.of_nat 8) with (2 ^ 64). lia.
Qed.

Lemma get_put_word_after off off' z p :
  (off + 8 ≤ length p)%nat → (off + 8 ≤ off')%nat →
  get_word off' (put_word off z p) = get_word off' p.
Proof.
  intros. unfold get_word, put_word.
  rewrite drop_put_bytes_after; rewrite ?length_le_split; done.
Qed.

(** A word that overlaps the text of a string field is not zero. *)
Lemma get_word_in_string off size s p k :
  (k < length s)%nat → (k < size - 1)%nat → NUL ∉ s → (off + size ≤ length p)%nat →
  get_word (off + k) (put_str off size s p) ≠ 0.
Proof.
  intros Hk Hsz Hn Hp Hz. apply le_combine_zero in Hz. unfold put_str in Hz.
  rewrite <- drop_drop, drop_put_bytes in Hz by lia.
  set (t := sso_strlcpy (Some s) size) in *.
  assert (Hlen : (k < length t)%nat)
    by (unfold t, sso_strlcpy; simpl; rewrite length_take; lia).
  destruct (lookup_lt_is_Some_2 t k Hlen) as (c & Hc).
  rewrite <- !app_assoc, drop_app_le, (drop_S t c k Hc) in Hz by lia.
  cbn [take app] in Hz. apply Forall_cons in Hz as [-> _].
  apply (sso_strlcpy_no_nul s size Hn). eapply list_elem_of_lookup_2, Hc.
Qed.

(** ** Destruction *)

Lemma destroy_clean c :
  get_word off_record (ec_params c) = 0 →
  get_word off_field_filter (ec_params c) = 0 →
  (96 ≤ length (ec_params c))%nat →
  eval_context_destroy c = Ret (with_params (put_word off_record 0) c).
Proof.
  intros H1 H2 Hl. unfold eval_context_destroy, heap_free. rewrite H1. simpl.
  change (mbind ?f (Ret ?x)) with (f x). cbv beta zeta. cbn [ec_params with_params].
  rewrite get_put_word_after, H2; [done|unfold off_record in *; lia|].
  unfold off_record, off_field_filter. lia.
Qed.

(** The destructor of an evaluation context frees whatever bytes lie
    where the data check keeps its record pointer.  After an API check of
    a path longer than 56 characters those bytes are path text, so the
    server frees an address it never allocated. *)
Theorem api_context_destroy_crashes user m path h brk :
  NUL ∉ path → (56 < length path)%nat →
  let params := put_str off_request_path 1024 path
                  (put_str off_http_method 8 m (replicate params_size NUL)) in
  h !! get_word off_record params = None →
  eval_context_destroy {| ec_has_user := true; ec_user_id := u_id user; ec_params := params;
                          ec_environment := []; ec_heap := h; ec_brk := brk |} = Crash.
Proof.
  intros Hn Hlen params Hh.
  assert (Hw : get_word off_record params ≠ 0).
  { apply (get_word_in_string 8 1024 path _ 56); [lia|lia|done|].
    rewrite put_str_length; rewrite ?length_replicate; unfold params_size, off_http_method; lia. }
  unfold eval_context_destroy, heap_free. cbn [ec_params ec_heap].
  rewrite (proj2 (Z.eqb_neq _ _) Hw), Hh. done.
Qed.

Definition long_path : cstr := "/api/v1/tenants/0123456789/projects/0123456789/members/42".

Definition sample_user : user_t :=
  {| u_id := 7; u_username := "alice"; u_phone := []; u_password_hash := []; u_email := [];
     u_display_name := []; u_status := USER_STATUS_ACTIVE; u_created_at := 0; u_updated_at := 0;
     u_attributes := []; u_mfa_enabled := 0; u_mfa_secret := []; u_password_set_at := 0 |}.

Lemma api_context_destroy_crashes_witness :
  eval_context_destroy
    (with_params (λ p, put_str off_request_path 1024 long_path (put_str off_http_method 8 "GET" p))
       (eval_context_init 0x10000 sample_user)) = Crash.
Proof.
  refine (api_context_destroy_crashes sample_user "GET" long_path ∅ 0x10000 _ _ _).
  - by apply (bool_decide_unpack _).
  - apply Nat.ltb_lt. reflexivity.
  - apply lookup_empty.
Defined.
