(* ===== verification/DataPerm.v ===== *)
(** * Data-scope permission strategy (strategies/data_perm.c)

    Row conditions on a JSON record and a whitelist of visible fields.
    This strategy reads a pointer out of the params union and writes the
    field filter back into it. *)

From S2P Require Import Prelude CLib CNum Json Types.

Record data_condition_t := { field : cstr; op : cstr; expected : cstr }.

(** An element of [allowed_fields] is NULL when the rule's element is not
    a string. *)
Record data_compiled_rule_t := {
  resource_type : cstr;
  conditions : list data_condition_t;
  allowed_fields : list (option cstr);
  is_allow : bool
}.

Definition data_compile_condition (item : json) : data_condition_t :=
  {| field := copy_str (yyjson_obj_get (Some item) "field") 63;
     op := copy_str (yyjson_obj_get (Some item) "op") 15;
     expected := default [] (scalar_text (yyjson_obj_get (Some item) "value") 255) |}.

(** [data_compile]: a missing array of conditions or fields is an empty
    one.  The two array allocations are not checked: a failed one is
    written through as soon as there is an element. *)
Definition data_compile `{JsonReader} (alloc : Z → bool) (rules_json : option cstr)
  : outcome (sso_error_t * option data_compiled_rule_t) :=
  match rules_json with
  | None => Ret (SSO_ERR_INVALID_PARAM, None)
  | Some text =>
      match yyjson_read text with
      | None => Ret (SSO_ERR_RULE_INVALID, None)
      | Some root =>
          if negb (alloc 104) then Ret (SSO_ERR_OUT_OF_MEMORY, None)
          else
            let conds := default [] (as_arr (yyjson_obj_get (Some root) "conditions")) in
            let fields := default [] (as_arr (yyjson_obj_get (Some root) "allowed_fields")) in
            if (negb (alloc (Z.of_nat (length conds) * 336)) && negb (bool_decide (conds = [])))
               || (negb (alloc (Z.of_nat (length fields) * 8)) && negb (bool_decide (fields = [])))
            then Crash
            else Ret (SSO_OK, Some
              {| resource_type := copy_str (yyjson_obj_get (Some root) "resource_type") 63;
                 conditions := map data_compile_condition conds;
                 allowed_fields := map (λ f, as_str (Some f)) fields;
                 is_allow := negb (is_str_eq (yyjson_obj_get (Some root) "effect") "deny") |})
      end
  end.

(** [apply_data_op] *)
Definition apply_data_op (op actual expected : cstr) : bool :=
  if strcmp_eq op "eq" then strcmp_eq actual expected
  else if strcmp_eq op "neq" then negb (strcmp_eq actual expected)
  else
    let av := strtod actual in
    let ev := strtod expected in
    if strcmp_eq op "gt" then double_lt ev av
    else if strcmp_eq op "lt" then double_lt av ev
    else false.

(** One turn of the condition loop. *)
Definition data_condition_holds (record_root : json) (c : data_condition_t) : bool :=
  match yyjson_obj_get (Some record_root) (field c) with
  | None => false
  | Some v => match scalar_text (Some v) 255 with
              | Some actual => apply_data_op (op c) actual (expected c)
              | None => false
              end
  end.

(** Step 2 of [data_evaluate]: [None] lets the evaluation continue. *)
Definition data_check_record `{JsonReader} (r : data_compiled_rule_t) (ctx : eval_context)
  : outcome (option sso_error_t) :=
  let ptr := get_word off_record (ec_params ctx) in
  if ptr =? 0 then Ret None
  else match ec_heap ctx !! ptr with
       | Some (HStr text) =>
           match yyjson_read text with
           | None => Ret (Some SSO_ERR_RULE_INVALID)
           | Some root => if forallb (data_condition_holds root) (conditions r) then Ret None
                          else Ret (Some SSO_ERR_NOT_FOUND)
           end
       | _ => Crash
       end.

(** Release of a previous field filter. *)
Definition data_free_filter (ctx : eval_context) : outcome eval_context :=
  let ff := get_word off_field_filter (ec_params ctx) in
  if ff =? 0 then Ret ctx
  else
    match ec_heap ctx !! ff with
    | Some (HStrs l) =>
        if Z.of_nat (length l) <? get_word off_field_filter_count (ec_params ctx) then Crash
        else
          ctx ← heap_free ff ctx;
          Ret (with_params (λ p, put_word off_field_filter_count 0 (put_word off_field_filter 0 p)) ctx)
    | _ => Crash
    end.

(** [strdup]: NULL when memory is short. *)
Definition strdup (alloc : Z → bool) (s : cstr) : option cstr :=
  if alloc (Z.of_nat (length s) + 1) then Some s else None.

(** Step 3: the new filter; [strdup(NULL)] is undefined. *)
Definition data_fill_filter (alloc : Z → bool) (r : data_compiled_rule_t) (ctx : eval_context)
  : outcome eval_context :=
  match allowed_fields r with
  | [] => Ret ctx
  | fields =>
      ctx ← data_free_filter ctx;
      if negb (alloc (Z.of_nat (length fields) * 8))
      then Ret (with_params (put_word off_field_filter 0) ctx)
      else
        match mapM id fields with
        | None => Crash
        | Some strs =>
            let '(a, ctx) := heap_alloc (HStrs (map (strdup alloc) strs)) ctx in
            Ret (with_params
                   (λ p, put_word off_field_filter_count (Z.of_nat (length fields))
                           (put_word off_field_filter a p)) ctx)
        end
  end.

(** [data_evaluate]: error, decision on success, updated context. *)
Definition data_evaluate `{JsonReader} (alloc : Z → bool) (ctx : eval_context)
    (compiled : option data_compiled_rule_t)
  : outcome (sso_error_t * option bool * eval_context) :=
  match compiled with
  | None => Ret (SSO_ERR_INVALID_PARAM, None, ctx)
  | Some r =>
      if negb (strcmp_eq (get_str off_resource_type (ec_params ctx)) (resource_type r))
      then Ret (SSO_ERR_NOT_FOUND, None, ctx)
      else
        stop ← data_check_record r ctx;
        match stop with
        | Some e => Ret (e, None, ctx)
        | None =>
            ctx ← data_fill_filter alloc r ctx;
            Ret (SSO_OK, Some (is_allow r), ctx)
        end
  end.

(** [data_validate] *)
Definition data_validate `{JsonReader} (rules_json : option cstr) : sso_error_t :=
  match rules_json with
  | None => SSO_ERR_INVALID_PARAM
  | Some text => if yyjson_read text then SSO_OK else SSO_ERR_RULE_INVALID
  end.

(* ================================================================== *)
(** ** Memory safety of the context *)

Definition record_ptr (ctx : eval_context) : Z := get_word off_record (ec_params ctx).
Definition filter_ptr (ctx : eval_context) : Z := get_word off_field_filter (ec_params ctx).

(** A data-check context owns exactly its record and its field filter. *)
Record owns (ctx : eval_context) : Prop := {
  own_size : length (ec_params ctx) = params_size;
  own_brk : 0 < ec_brk ctx;
  own_fresh : ∀ a o, ec_heap ctx !! a = Some o → 0 < a < ec_brk ctx;
  own_record : record_ptr ctx = 0 ∨ ∃ s, ec_heap ctx !! record_ptr ctx = Some (HStr s);
  own_filter : filter_ptr ctx = 0 ∨
    ∃ l, ec_heap ctx !! filter_ptr ctx = Some (HStrs l) ∧
         get_word off_field_filter_count (ec_params ctx) = Z.of_nat (length l);
  own_all : ∀ a o, ec_heap ctx !! a = Some o → a = record_ptr ctx ∨ a = filter_ptr ctx
}.

Lemma size_params ctx : owns ctx → (length (ec_params ctx) = 4160)%nat.
Proof. intros []. done. Qed.

Ltac words :=
  unfold record_ptr, filter_ptr, off_record, off_field_filter, off_field_filter_count in *;
  cbn [ec_params ec_heap ec_brk with_params with_heap] in *.

(** Writing the filter words leaves the record word alone. *)
Lemma filter_words_record p a n :
  (96 ≤ length p)%nat →
  get_word 64 (put_word 88 n (put_word 80 a p)) = get_word 64 p.
Proof.
  intros H. unfold get_word, put_word.
  rewrite take_put_bytes_before by (rewrite ?put_bytes_length; rewrite ?length_le_split; lia).
  by rewrite take_put_bytes_before by lia.
Qed.

Lemma filter_words_filter p a n :
  0 ≤ a < 2 ^ 64 → (96 ≤ length p)%nat →
  get_word 80 (put_word 88 n (put_word 80 a p)) = a.
Proof.
  intros Ha H. rewrite <- (get_put_word 80 a p) at 2 by lia. unfold get_word, put_word.
  by rewrite take_put_bytes_before by (rewrite ?put_bytes_length; rewrite ?length_le_split; lia).
Qed.

Lemma put_word_length off z p : (off + 8 ≤ length p)%nat → length (put_word off z p) = length p.
Proof. intros. apply put_bytes_length. rewrite length_le_split. lia. Qed.

Lemma filter_words_count p a n :
  0 ≤ n < 2 ^ 64 → (96 ≤ length p)%nat →
  get_word 88 (put_word 88 n (put_word 80 a p)) = n.
Proof. intros. apply get_put_word; [done|]. rewrite put_word_length; lia. Qed.

Lemma owns_distinct ctx : owns ctx → filter_ptr ctx ≠ 0 → filter_ptr ctx ≠ record_ptr ctx.
Proof.
  intros [_ _ _ Hr Hf _] Hne E. destruct Hf as [|(l & Hl & _)]; [done|].
  rewrite E in *. destruct Hr as [|(s & Hs)]; congruence.
Qed.

(** Releasing the old filter keeps ownership and leaves no filter. *)
Lemma data_free_filter_owns ctx :
  owns ctx →
  ∃ ctx', data_free_filter ctx = Ret ctx' ∧ owns ctx' ∧ filter_ptr ctx' = 0 ∧
          record_ptr ctx' = record_ptr ctx ∧ ec_brk ctx' = ec_brk ctx ∧
          (∀ s, ec_heap ctx !! record_ptr ctx = Some (HStr s) →
                ec_heap ctx' !! record_ptr ctx = Some (HStr s)).
Proof.
  intros Ho. pose proof (size_params _ Ho) as Hsz. unfold data_free_filter.
  fold (filter_ptr ctx). destruct (Z.eqb_spec (filter_ptr ctx) 0) as [E|E].
  { by exists ctx. }
  pose proof (owns_distinct _ Ho E) as Hd.
  destruct Ho as [Hs Hb Hf Hr Hff Ha].
  destruct Hff as [|(l & Hl & Hc)]; [done|]. rewrite Hl, Hc, Z.ltb_irrefl.
  unfold heap_free. rewrite (proj2 (Z.eqb_neq _ _) E), Hl.
  change (mbind ?f (Ret ?x)) with (f x). cbv beta.
  set (ctx' := with_params _ _).
  assert (Hr' : record_ptr ctx' = record_ptr ctx) by (words; apply filter_words_record; lia).
  assert (Hf' : filter_ptr ctx' = 0) by (unfold ctx'; words; apply filter_words_filter; lia).
  exists ctx'. split_and!; try done.
  - split; try (rewrite ?Hr', ?Hf'; unfold ctx'; words).
    + rewrite !put_word_length; rewrite ?put_word_length; lia.
    + done.
    + intros a o [_ H]%lookup_delete_Some. eauto.
    + destruct Hr as [|(s & Hr)]; [by left|right]. exists s. by rewrite lookup_delete_ne.
    + by left.
    + intros a o [Hne H]%lookup_delete_Some. left. destruct (Ha a o H); congruence.
  - intros s Hrec. unfold ctx'; words. by rewrite lookup_delete_ne.
Qed.

Lemma mapM_is_Some {A} (l : list (option A)) : Forall is_Some l → is_Some (mapM id l).
Proof. intros H. by apply mapM_is_Some_2. Qed.

Lemma mapM_id_length {A} (l : list (option A)) k : mapM id l = Some k → length k = length l.
Proof. intros H%mapM_Some_1. by rewrite (Forall2_length _ _ _ H). Qed.

Lemma mapM_id_map {A} (l : list (option A)) k : mapM id l = Some k → l = map Some k.
Proof.
  intros H%mapM_Some_1. induction H as [|x y l k Hxy _ IH]; [done|]. simpl.
  unfold id in Hxy. by rewrite Hxy, IH.
Qed.

(** A failed allocation leaves the context without a filter. *)
Lemma no_filter_owns c :
  owns c → filter_ptr c = 0 →
  let c' := with_params (put_word off_field_filter 0) c in
  owns c' ∧ record_ptr c' = record_ptr c.
Proof.
  intros Hc Hf0 c'. pose proof (size_params _ Hc) as Hsz. destruct Hc as [Hs Hb0 Hfr Hr Hff Ha].
  assert (Hr' : record_ptr c' = record_ptr c).
  { unfold c'. words. unfold get_word, put_word. by rewrite take_put_bytes_before by lia. }
  assert (Hf' : filter_ptr c' = 0) by (unfold c'; words; apply get_put_word; lia).
  split; [|done]. split; rewrite ?Hr', ?Hf'; [|done|done|done|by left|].
  - unfold c'; words. rewrite put_word_length; lia.
  - intros a o H. rewrite Hf0 in Ha. eauto.
Qed.

(** The context with a freshly allocated filter. *)
Definition new_filter (l : list (option cstr)) (n : Z) (c : eval_context) : eval_context :=
  let '(a, c) := heap_alloc (HStrs l) c in
  with_params (λ p, put_word off_field_filter_count n (put_word off_field_filter a p)) c.

Lemma new_filter_owns l c :
  owns c → filter_ptr c = 0 → Z.of_nat (length l) < 2 ^ 64 → ec_brk c < 2 ^ 63 →
  let c' := new_filter l (Z.of_nat (length l)) c in
  owns c' ∧ record_ptr c' = record_ptr c ∧ ec_brk c' = ec_brk c + 16 ∧
  ec_heap c' !! filter_ptr c' = Some (HStrs l).
Proof.
  intros Hc Hf0 Hlen Hbrk c'. pose proof (size_params _ Hc) as Hsz.
  destruct Hc as [Hs Hb0 Hfr Hr Hff Ha].
  assert (Hr' : record_ptr c' = record_ptr c)
    by (unfold c', new_filter, heap_alloc; words; apply filter_words_record; lia).
  assert (Hf' : filter_ptr c' = ec_brk c)
    by (unfold c', new_filter, heap_alloc; words; apply filter_words_filter; lia).
  assert (Hnew : ec_heap c !! ec_brk c = None).
  { destruct (ec_heap c !! ec_brk c) eqn:E; [|done]. apply Hfr in E. lia. }
  split_and!; [|done|done|].
  - split; rewrite ?Hr', ?Hf'; unfold c', new_filter, heap_alloc; words.
    + rewrite !put_word_length; rewrite ?put_word_length; lia.
    + lia.
    + intros a o. rewrite lookup_insert. case_decide; [intros; lia|].
      intros Hin%Hfr. lia.
    + destruct Hr as [|(s & Hr)]; [by left|right]. exists s.
      rewrite lookup_insert_ne; [done|]. intros E. rewrite E in Hnew. congruence.
    + right. eexists. rewrite lookup_insert_eq. split; [done|].
      by rewrite filter_words_count by lia.
    + intros a o. rewrite lookup_insert. case_decide; [by right|].
      intros Hin. pose proof (Hfr _ _ Hin). left.
      destruct (Ha _ _ Hin) as [|E]; [done|]. rewrite Hf0 in E. lia.
  - rewrite Hf'. unfold c', new_filter, heap_alloc; words. apply lookup_insert_eq.
Qed.

(** Populating the filter. *)
Lemma data_fill_filter_owns alloc r ctx :
  owns ctx → Forall is_Some (allowed_fields r) →
  Z.of_nat (length (allowed_fields r)) < 2 ^ 64 → ec_brk ctx < 2 ^ 63 →
  ∃ ctx', data_fill_filter alloc r ctx = Ret ctx' ∧ owns ctx' ∧
          record_ptr ctx' = record_ptr ctx ∧ ec_brk ctx' ≤ ec_brk ctx + 16 ∧
          ((∀ n, alloc n = true) → allowed_fields r ≠ [] →
           ec_heap ctx' !! filter_ptr ctx' = Some (HStrs (allowed_fields r))).
Proof.
  intros Ho Hall Hlen Hbrk. unfold data_fill_filter.
  destruct (allowed_fields r) as [|f fs] eqn:Ef; [exists ctx; split_and!; done || lia|].
  rewrite <- Ef in *.
  destruct (data_free_filter_owns ctx Ho) as (c & -> & Hc & Hf0 & Hrec & Hb & _).
  change (mbind ?f (Ret ?x)) with (f x). cbv beta.
  destruct (alloc (Z.of_nat (length (allowed_fields r)) * 8)) eqn:Eal; cbn [negb].
  - destruct (mapM_is_Some _ Hall) as (strs & Em). rewrite Em.
    pose proof (mapM_id_length _ _ Em) as El. set (l := map (strdup alloc) strs).
    destruct (new_filter_owns l c) as (H1 & H2 & H3 & H4);
      [done|done|unfold l; rewrite length_map; lia|lia|].
    eexists. split; [unfold new_filter; done|].
    unfold l in *; rewrite length_map, El in *.
    split_and!; [exact H1|etransitivity; [exact H2|exact Hrec]|cbv zeta in H3; simpl in *; lia|]. intros Hal _. etransitivity; [exact H4|]. do 2 f_equal.
    rewrite (mapM_id_map _ _ Em). apply map_ext. intros s. unfold strdup. by rewrite Hal.
  - destruct (no_filter_owns c) as [H1 H2]; [done|done|].
    eexists. split_and!; [done|exact H1|etransitivity; [exact H2|exact Hrec]|words; lia|].
    intros Hal. by rewrite Hal in Eal.
Qed.

(** What a data rule asks of the record a context points to. *)
Definition row_allowed `{JsonReader} (r : data_compiled_rule_t) (ctx : eval_context) : Prop :=
  record_ptr ctx = 0 ∨
  ∃ text root, ec_heap ctx !! record_ptr ctx = Some (HStr text) ∧ yyjson_read text = Some root ∧
    Forall (λ c, ∃ v actual,
      yyjson_obj_get (Some root) (field c) = Some v ∧ scalar_text (Some v) 255 = Some actual ∧
      apply_data_op (op c) actual (expected c) = true) (conditions r).

Lemma data_condition_holds_spec root c :
  data_condition_holds root c = true ↔
  ∃ v actual, yyjson_obj_get (Some root) (field c) = Some v ∧
    scalar_text (Some v) 255 = Some actual ∧ apply_data_op (op c) actual (expected c) = true.
Proof.
  unfold data_condition_holds.
  destruct (yyjson_obj_get (Some root) (field c)) as [v|]; [|naive_solver].
  destruct (scalar_text (Some v) 255) as [a|] eqn:E; naive_solver.
Qed.

Lemma forallb_Forall {A} (f : A → bool) (l : list A) :
  forallb f l = true ↔ Forall (λ x, f x = true) l.
Proof. by rewrite forallb_forall, List.Forall_forall. Qed.

(** The record check returns on an owned context and decides [row_allowed]. *)
Lemma data_check_record_spec `{JsonReader} r ctx :
  owns ctx → ∃ st, data_check_record r ctx = Ret st ∧ st ≠ Some SSO_OK ∧
                   (st = None ↔ row_allowed r ctx).
Proof.
  intros Ho. unfold data_check_record, row_allowed. fold (record_ptr ctx).
  destruct (Z.eqb_spec (record_ptr ctx) 0) as [E|E].
  { exists None. split_and!; [done..|]. split; [by left|done]. }
  destruct (own_record _ Ho) as [?|(s & Hs)]; [done|]. rewrite Hs.
  setoid_rewrite <- data_condition_holds_spec.
  setoid_rewrite <- forallb_Forall.
  destruct (yyjson_read s) as [root|] eqn:Er.
  - destruct (forallb (data_condition_holds root) (conditions r)) eqn:Ef; eexists;
      (split_and!; [done..|]); split; try done.
    + intros _. right. eauto.
    + intros [?|(t & rt & Ht & Hrt & Hf)]; [done|]. congruence.
  - eexists; (split_and!; [done..|]); split; [done|].
    intros [?|(t & rt & Ht & Hrt & Hf)]; [done|]. congruence.
Qed.

(** Evaluation of one rule on an owned context: it returns, and says what
    it decides and what it leaves in the context. *)
Lemma data_evaluate_full `{JsonReader} alloc ctx r :
  owns ctx → ec_brk ctx < 2 ^ 63 →
  Forall is_Some (allowed_fields r) → Z.of_nat (length (allowed_fields r)) < 2 ^ 64 →
  ∃ e res ctx', data_evaluate alloc ctx (Some r) = Ret (e, res, ctx') ∧
    owns ctx' ∧ record_ptr ctx' = record_ptr ctx ∧ ec_brk ctx' ≤ ec_brk ctx + 16 ∧
    (e = SSO_OK ↔ get_str off_resource_type (ec_params ctx) = resource_type r ∧ row_allowed r ctx) ∧
    (e = SSO_OK → res = Some (is_allow r)) ∧ (e ≠ SSO_OK → res = None ∧ ctx' = ctx) ∧
    (e = SSO_OK → (∀ n, alloc n = true) → allowed_fields r ≠ [] →
     ec_heap ctx' !! filter_ptr ctx' = Some (HStrs (allowed_fields r))).
Proof.
  intros Ho Hbrk Hall Hlen. unfold data_evaluate.
  destruct (strcmp_eq _ _) eqn:Et; cbn [negb].
  2: { exists SSO_ERR_NOT_FOUND, None, ctx. split_and!; try done; [lia|].
       split; [done|]. intros [Heq _]. apply strcmp_eq_iff in Heq. congruence. }
  apply strcmp_eq_iff in Et.
  destruct (data_check_record_spec r ctx Ho) as (st & -> & Hst & Hrow).
  change (mbind ?f (Ret ?x)) with (f x). cbv beta. destruct st as [e|].
  { exists e, None, ctx. split_and!; try done; try congruence; [lia|].
    split; [congruence|]. intros [_ Ha%Hrow]. done. }
  destruct (data_fill_filter_owns alloc r ctx) as (c & -> & Hc & Hr & Hbk & Hf); [done..|].
  exists SSO_OK, (Some (is_allow r)), c. split_and!; try done. split; [|done]. naive_solver.
Qed.

(** A data rule decides exactly the records of its resource type that
    meet every row condition, with the rule's effect, and leaves the
    allowed fields as the field filter; on any other record it does not
    apply and the context is unchanged. *)
Theorem data_evaluate_spec `{JsonReader} alloc ctx r :
  owns ctx → ec_brk ctx < 2 ^ 63 → (∀ n, alloc n = true) →
  Forall is_Some (allowed_fields r) → Z.of_nat (length (allowed_fields r)) < 2 ^ 64 →
  ∃ e res ctx', data_evaluate alloc ctx (Some r) = Ret (e, res, ctx') ∧
    (res = Some (is_allow r) ↔ get_str off_resource_type (ec_params ctx) = resource_type r ∧ row_allowed r ctx) ∧
    (res = None → ctx' = ctx) ∧ (is_Some res ↔ e = SSO_OK) ∧
    (is_Some res → allowed_fields r ≠ [] →
     ec_heap ctx' !! filter_ptr ctx' = Some (HStrs (allowed_fields r))).
Proof.
  intros Ho Hbrk Hal Hall Hlen.
  destruct (data_evaluate_full alloc ctx r Ho Hbrk Hall Hlen)
    as (e & res & c & He & _ & _ & _ & Hok & Hres & Herr & Hfil).
  exists e, res, c. split; [done|].
  destruct (decide (e = SSO_OK)) as [Heq|Hne].
  - rewrite (Hres Heq) in *. split_and!; [rewrite <- Hok; done|done|done|auto].
  - destruct (Herr Hne) as [-> ->]. split_and!; [|done|split; [by intros []|done]|by intros []].
    split; [done|]. intros Hs%Hok. done.
Qed.

(** An engineering-only rule on employee records, and a record. *)
Definition sample_rule : data_compiled_rule_t :=
  {| resource_type := "employee";
     conditions := [{| field := "dept"; op := "eq"; expected := "eng" |}];
     allowed_fields := [Some ("name" : cstr); Some ("email" : cstr)]; is_allow := true |}.
Definition sample_docs : JsonReader :=
  table_reader [(("row" : cstr), JObj [(("dept" : cstr), JStr "eng")])].
Definition sample_ctx : eval_context :=
  let c := with_params (put_str off_resource_type 64 "employee") (eval_context_init 0x10000 sample_user) in
  let '(a, c) := heap_alloc (HStr "row") c in
  with_params (put_word off_record a) c.

Lemma sample_ctx_owns : owns sample_ctx.
Proof.
  split.
  - by vm_compute.
  - by vm_compute.
  - intros a o. change (ec_heap sample_ctx) with ({[0x10000 := HStr "row"]} : gmap Z hobj).
    intros [<- _]%lookup_singleton_Some. by vm_compute.
  - right. exists "row". by vm_compute.
  - left. by vm_compute.
  - intros a o. change (ec_heap sample_ctx) with ({[0x10000 := HStr "row"]} : gmap Z hobj).
    intros [<- _]%lookup_singleton_Some. left. by vm_compute.
Qed.

Lemma data_evaluate_spec_witness :
  (let r := sample_docs in
   ∃ e res ctx', data_evaluate (λ _, true) sample_ctx (Some sample_rule) = Ret (e, res, ctx') ∧
     res = Some true ∧
     ec_heap ctx' !! filter_ptr ctx' = Some (HStrs [Some ("name" : cstr); Some ("email" : cstr)])).
Proof.
  set (r := sample_docs).
  destruct (data_evaluate_spec (λ _, true) sample_ctx sample_rule)
    as (e & res & c & He & Hres & _ & _ & Hf).
  - apply sample_ctx_owns.
  - by vm_compute.
  - done.
  - by repeat constructor.
  - by vm_compute.
  - assert (Hr : res = Some true).
    { apply Hres. split; [by vm_compute|].
      right. exists "row", (JObj [(("dept" : cstr), JStr "eng")]). split_and!; [by vm_compute..|].
      constructor; [|constructor]. exists (JStr "eng"), "eng". by vm_compute. }
    exists e, res, c. split_and!; [exact He|exact Hr|]. apply Hf; [by rewrite Hr|done].
Defined.

(** An owned context is destroyed without undefined behaviour or leak. *)
Lemma owns_destroy ctx :
  owns ctx → ∃ ctx', eval_context_destroy ctx = Ret ctx' ∧ ec_heap ctx' = ∅.
Proof.
  intros Ho. pose proof (size_params _ Ho) as Hsz. pose proof (owns_distinct _ Ho) as Hd.
  destruct Ho as [_ _ Hfr Hr Hf Ha]. unfold eval_context_destroy. fold (record_ptr ctx).
  assert (Hnull : ec_heap ctx !! 0 = None).
  { destruct (ec_heap ctx !! 0) eqn:E; [|done]. apply Hfr in E. lia. }
  assert (Hrec : heap_free (record_ptr ctx) ctx =
                 Ret (with_heap (delete (record_ptr ctx) (ec_heap ctx)) ctx)).
  { unfold heap_free. destruct (Z.eqb_spec (record_ptr ctx) 0) as [E|E].
    - rewrite E, delete_id by done. by destruct ctx.
    - destruct Hr as [|(s & ->)]; [done|]. done. }
  rewrite Hrec. change (mbind ?f (Ret ?x)) with (f x). cbv beta zeta. words.
  rewrite !get_put_word_after by lia.
  destruct (Z.eqb_spec (get_word 80 (ec_params ctx)) 0) as [E|E].
  - eexists. split; [done|]. words. apply map_eq. intros a. rewrite lookup_empty.
    destruct (delete _ _ !! a) eqn:Ea; [|done].
    apply lookup_delete_Some in Ea as [Hne Ea].
    destruct (Ha _ _ Ea); [congruence|]. apply Hfr in Ea. lia.
  - destruct Hf as [|(l & Hl & Hc)]; [done|].
    rewrite lookup_delete_ne, Hl, Hc, Z.ltb_irrefl by (apply not_eq_sym; auto).
    unfold heap_free. rewrite (proj2 (Z.eqb_neq _ _) E). words.
    rewrite lookup_delete_ne, Hl by (apply not_eq_sym; auto).
    eexists. split; [done|]. words. apply map_eq. intros a. rewrite lookup_empty.
    destruct (delete _ _ !! a) eqn:Ea; [|done].
    apply lookup_delete_Some in Ea as [Hne [Hne' Ea]%lookup_delete_Some].
    destruct (Ha _ _ Ea); congruence.
Qed.

(** Rules evaluated one after the other on the same context, as the policy
    loop of the engine does. *)
Fixpoint data_evaluate_all `{JsonReader} (alloc : Z → bool) (rules : list data_compiled_rule_t)
    (ctx : eval_context) : outcome eval_context :=
  match rules with
  | [] => Ret ctx
  | r :: rest => rc ← data_evaluate alloc ctx (Some r); data_evaluate_all alloc rest rc.2
  end.

(** However many data rules are evaluated on the context of a data
    check, each replacing the field filter of the one before, and
    whichever of them match or run out of memory, the context can be
    destroyed afterwards: nothing is freed twice and nothing leaks. *)
Theorem data_rules_no_leak `{JsonReader} alloc rules ctx :
  owns ctx → ec_brk ctx + 16 * Z.of_nat (length rules) < 2 ^ 63 →
  Forall (λ r, Forall is_Some (allowed_fields r) ∧ Z.of_nat (length (allowed_fields r)) < 2 ^ 64) rules →
  ∃ ctx' ctx'', data_evaluate_all alloc rules ctx = Ret ctx' ∧
    eval_context_destroy ctx' = Ret ctx'' ∧ ec_heap ctx'' = ∅.
Proof.
  intros Ho Hb Hr. revert ctx Ho Hb. induction Hr as [|r rest [Hf Hl] _ IH]; intros ctx Ho Hb;
    cbn [data_evaluate_all].
  - destruct (owns_destroy ctx Ho) as (c & Hd & Hh). by exists ctx, c.
  - cbn [length] in Hb.
    destruct (data_evaluate_full alloc ctx r Ho ltac:(lia) Hf Hl) as (e & res & c & -> & Hc & _ & Hbk & _).
    change (mbind ?f (Ret ?x)) with (f x). cbn [snd]. apply IH; [done|lia].
Qed.

Lemma data_rules_no_leak_witness :
  let reader := sample_docs in
  ∃ ctx' ctx'', data_evaluate_all (λ _, true) [sample_rule; sample_rule] sample_ctx = Ret ctx' ∧
    eval_context_destroy ctx' = Ret ctx'' ∧ ec_heap ctx'' = ∅.
Proof.
  intros reader. apply (data_rules_no_leak (λ _, true) [sample_rule; sample_rule] sample_ctx).
  - apply sample_ctx_owns.
  - by vm_compute.
  - assert (Hr : Forall is_Some (allowed_fields sample_rule) ∧
                 Z.of_nat (length (allowed_fields sample_rule)) < 2 ^ 64)
      by (split; [by repeat constructor|by vm_compute]).
    by repeat constructor.
Defined.

(** An element of "allowed_fields" that is not a string is compiled
    to a NULL entry, and the first evaluation that reaches the filter
    copies it with [strdup]: undefined behaviour, on a rule that
    [data_validate] accepts. *)
Theorem data_null_field_crashes `{JsonReader} alloc text root fields ctx r :
  yyjson_read text = Some root →
  yyjson_obj_get (Some root) "allowed_fields" = Some (JArr fields) →
  Exists (λ f, as_str (Some f) = None) fields →
  data_compile alloc (Some text) = Ret (SSO_OK, Some r) →
  owns ctx → (∀ n, alloc n = true) →
  get_str off_resource_type (ec_params ctx) = resource_type r → row_allowed r ctx →
  data_validate (Some text) = SSO_OK ∧ data_evaluate alloc ctx (Some r) = Crash.
Proof.
  intros Hread Hf Hex Hc Ho Hal Hty Hrow. split; [unfold data_validate; by rewrite Hread|].
  assert (Hfields : allowed_fields r = map (λ f, as_str (Some f)) fields).
  { unfold data_compile in Hc. rewrite Hread, Hf, !Hal in Hc. simpl in Hc. by simplify_eq/=. }
  unfold data_evaluate. rewrite (proj2 (strcmp_eq_iff _ _) Hty). cbn [negb].
  destruct (data_check_record_spec r ctx Ho) as (st & -> & _ & [_ Hn]).
  rewrite (Hn Hrow). change (mbind ?f (Ret ?x)) with (f x). cbv beta.
  unfold data_fill_filter.
  destruct (data_free_filter_owns ctx Ho) as (c & -> & _).
  rewrite Hfields. assert (Hm : mapM id (map (λ f, as_str (Some f)) fields) = None).
  { apply eq_None_not_Some. intros (k & Hk%mapM_id_map). apply Exists_exists in Hex as (f & Hin & Hf0).
    apply (list_elem_of_fmap_2 (λ f, as_str (Some f))) in Hin. 
    change (fmap ?g ?l) with (map g l) in Hin. rewrite Hk, Hf0 in Hin.
    by apply list_elem_of_fmap in Hin as (? & ? & _). }
  destruct fields as [|f fs]; [by apply Exists_nil in Hex|].
  cbn [map] in *. cbn [mbind outcome_bind]. rewrite Hal. cbn [negb]. by rewrite Hm.
Qed.

Lemma data_null_field_crashes_witness :
  let reader := table_reader [(("rule" : cstr), JObj [(("allowed_fields" : cstr), JArr [JUint 1])])] in
  data_validate (Some ("rule" : cstr)) = SSO_OK ∧
  data_evaluate (λ _, true) (eval_context_init 0x10000 sample_user)
    (Some {| resource_type := []; conditions := []; allowed_fields := [None]; is_allow := true |}) = Crash.
Proof.
  intros reader.
  refine (data_null_field_crashes (λ _, true) "rule"
            (JObj [(("allowed_fields" : cstr), JArr [JUint 1])]) [JUint 1] _ _ _ _ _ _ _ _ _ _).
  - by vm_compute.
  - by vm_compute.
  - by constructor.
  - by vm_compute.
  - split; [by vm_compute|done|done|left; by vm_compute|left; by vm_compute|done].
  - done.
  - by vm_compute.
  - left. by vm_compute.
Defined.
