(* ===== verification/Storage.v ===== *)
(** * The storage interface (include/storage.h)

    [storage_backend_t] is a table of function pointers over an opaque
    handle.  Here it is a record of optional operations over an abstract
    handle type: a NULL pointer is [None].  The managers are written
    against this record, and their theorems against [StorageReads], what
    a backend promises about the reads they make. *)

From S2P Require Import Prelude CLib Types.

(** An [sso_error_t] with the out-parameters written on success: [Err] is
    returned with codes other than [SSO_OK]. *)
Inductive result (A : Type) := Ok (a : A) | Err (e : sso_error_t).
Arguments Ok {A} a.
Arguments Err {A} e.

Definition err_of {A} (r : result A) : sso_error_t :=
  match r with Ok _ => SSO_OK | Err e => e end.
Definition result_map {A B} (f : A → B) (r : result A) : result B :=
  match r with Ok a => Ok (f a) | Err e => Err e end.

(** Operations on a handle: they may fail, run into undefined behaviour,
    or not return; a failed operation keeps its effects. *)
Definition storage_op (S A : Type) : Type := S → outcome (result A * S).

Record refresh_token_t := {
  rt_token_hash : cstr; rt_user_id : Z; rt_client_id : cstr; rt_expires_at : Z;
  rt_issued_at : Z; rt_revoked : Z
}.

Record oauth_auth_code_t := {
  oc_code : cstr; oc_client_id : cstr; oc_user_id : Z; oc_redirect_uri : cstr; oc_scope : cstr;
  oc_nonce : cstr; oc_code_challenge : cstr; oc_code_challenge_method : cstr;
  oc_expires_at : Z; oc_used : Z
}.

Record oauth_client_t := {
  cl_id : Z; cl_client_id : cstr; cl_client_secret_hash : cstr; cl_redirect_uris : cstr;
  cl_app_name : cstr; cl_app_description : cstr; cl_app_logo_url : cstr;
  cl_allowed_scopes : cstr; cl_allowed_grant_types : cstr; cl_token_ttl_ms : Z; cl_status : Z;
  cl_created_at : Z; cl_updated_at : Z
}.

(** Arguments of the list queries: filter text (NULL is [None]), status
    (-1 for any), offset, limit; they return the page and the total. *)
Definition list_op (S : Type) : Type := option cstr → Z → Z → Z → storage_op S (list Z * Z).
(** Id queries take a key and the capacity of the caller's buffer. *)
Definition ids_op (S : Type) : Type := Z → nat → storage_op S (list Z).

(** An entry of the audit log; NULL members are [None]. *)
Record audit_log_entry_t := {
  al_action : cstr; al_timestamp_ms : Z; al_user_id : Z; al_username : option cstr; al_ip_address : option cstr;
  al_operation : option cstr; al_resource : option cstr; al_resource_id : Z; al_status : cstr;
  al_details : option cstr; al_duration_ms : Z; al_cache_hit : bool; al_trace : option cstr
}.

Record storage_backend (S : Type) := {
  sb_user_create : option (user_t → storage_op S user_t);
  sb_user_get_by_id : option (Z → storage_op S user_t);
  sb_user_get_by_name : option (cstr → storage_op S user_t);
  sb_user_get_by_phone : option (cstr → storage_op S user_t);
  sb_user_update : option (user_t → storage_op S unit);
  sb_user_delete : option (Z → storage_op S unit);
  sb_user_list : option (list_op S);

  sb_save_sms_code : option (cstr → cstr → Z → storage_op S unit);
  sb_get_sms_code : option (cstr → storage_op S cstr);
  sb_delete_sms_code : option (cstr → storage_op S unit);

  sb_role_create : option (role_t → storage_op S role_t);
  sb_role_get_by_id : option (Z → storage_op S role_t);
  sb_role_get_by_name : option (cstr → storage_op S role_t);
  sb_role_update : option (role_t → storage_op S unit);
  sb_role_delete : option (Z → storage_op S unit);
  sb_role_list : option (list_op S);

  sb_group_create : option (group_t → storage_op S group_t);
  sb_group_get_by_id : option (Z → storage_op S group_t);
  sb_group_get_by_name : option (cstr → storage_op S group_t);
  sb_group_update : option (group_t → storage_op S unit);
  sb_group_delete : option (Z → storage_op S unit);
  sb_group_list : option (list_op S);

  sb_policy_create : option (policy_t → storage_op S policy_t);
  sb_policy_get_by_id : option (Z → storage_op S policy_t);
  sb_policy_get_by_name : option (cstr → storage_op S policy_t);
  sb_policy_update : option (policy_t → storage_op S unit);
  sb_policy_delete : option (Z → storage_op S unit);
  sb_policy_list : option (list_op S);

  sb_assign_role_to_user : option (Z → Z → storage_op S unit);
  sb_unassign_role_from_user : option (Z → Z → storage_op S unit);
  sb_get_user_roles : option (ids_op S);
  sb_get_role_users : option (ids_op S);
  sb_assign_role_to_group : option (Z → Z → storage_op S unit);
  sb_unassign_role_from_group : option (Z → Z → storage_op S unit);
  sb_add_user_to_group : option (Z → Z → storage_op S unit);
  sb_remove_user_from_group : option (Z → Z → storage_op S unit);
  sb_get_user_groups : option (ids_op S);
  sb_get_group_users : option (ids_op S);
  sb_assign_policy : option (Z → policy_target_type_t → Z → storage_op S unit);
  sb_unassign_policy : option (Z → policy_target_type_t → Z → storage_op S unit);
  sb_get_policy_targets : option (Z → policy_target_type_t → nat → storage_op S (list Z));
  sb_get_target_policies : option (policy_target_type_t → Z → nat → storage_op S (list Z));

  sb_role_get_parent : option (Z → storage_op S Z);
  sb_group_get_parent : option (Z → storage_op S Z);
  sb_get_user_roles_with_ancestors : option (ids_op S);

  sb_oauth_code_create : option (oauth_auth_code_t → storage_op S unit);
  sb_oauth_code_get : option (cstr → storage_op S oauth_auth_code_t);
  sb_oauth_code_mark_used : option (cstr → storage_op S unit);
  sb_oauth_code_cleanup : option (storage_op S unit);

  sb_oauth_client_create : option (oauth_client_t → storage_op S oauth_client_t);
  sb_oauth_client_get : option (cstr → storage_op S oauth_client_t);
  sb_oauth_client_update : option (oauth_client_t → storage_op S unit);
  sb_oauth_client_delete : option (cstr → storage_op S unit);
  sb_oauth_client_list : option (Z → Z → nat → storage_op S (list oauth_client_t));

  sb_refresh_token_create : option (refresh_token_t → storage_op S unit);
  sb_refresh_token_get : option (cstr → storage_op S refresh_token_t);
  sb_refresh_token_revoke : option (cstr → storage_op S unit);
  sb_refresh_token_revoke_family : option (Z → cstr → storage_op S unit);

  sb_jti_revoke : option (cstr → Z → storage_op S unit);
  sb_jti_is_revoked : option (cstr → S → outcome (bool * S));

  sb_audit_log_write : option (audit_log_entry_t → storage_op S unit);
  sb_audit_log_list : option (Z → Z → Z → storage_op S (option cstr * Z))
}.
Arguments sb_user_create {S} _.
Arguments sb_user_get_by_id {S} _.
Arguments sb_user_get_by_name {S} _.
Arguments sb_user_get_by_phone {S} _.
Arguments sb_user_update {S} _.
Arguments sb_user_delete {S} _.
Arguments sb_user_list {S} _.
Arguments sb_save_sms_code {S} _.
Arguments sb_get_sms_code {S} _.
Arguments sb_delete_sms_code {S} _.
Arguments sb_role_create {S} _.
Arguments sb_role_get_by_id {S} _.
Arguments sb_role_get_by_name {S} _.
Arguments sb_role_update {S} _.
Arguments sb_role_delete {S} _.
Arguments sb_role_list {S} _.
Arguments sb_group_create {S} _.
Arguments sb_group_get_by_id {S} _.
Arguments sb_group_get_by_name {S} _.
Arguments sb_group_update {S} _.
Arguments sb_group_delete {S} _.
Arguments sb_group_list {S} _.
Arguments sb_policy_create {S} _.
Arguments sb_policy_get_by_id {S} _.
Arguments sb_policy_get_by_name {S} _.
Arguments sb_policy_update {S} _.
Arguments sb_policy_delete {S} _.
Arguments sb_policy_list {S} _.
Arguments sb_assign_role_to_user {S} _.
Arguments sb_unassign_role_from_user {S} _.
Arguments sb_get_user_roles {S} _.
Arguments sb_get_role_users {S} _.
Arguments sb_assign_role_to_group {S} _.
Arguments sb_unassign_role_from_group {S} _.
Arguments sb_add_user_to_group {S} _.
Arguments sb_remove_user_from_group {S} _.
Arguments sb_get_user_groups {S} _.
Arguments sb_get_group_users {S} _.
Arguments sb_assign_policy {S} _.
Arguments sb_unassign_policy {S} _.
Arguments sb_get_policy_targets {S} _.
Arguments sb_get_target_policies {S} _.
Arguments sb_role_get_parent {S} _.
Arguments sb_group_get_parent {S} _.
Arguments sb_get_user_roles_with_ancestors {S} _.
Arguments sb_oauth_code_create {S} _.
Arguments sb_oauth_code_get {S} _.
Arguments sb_oauth_code_mark_used {S} _.
Arguments sb_oauth_code_cleanup {S} _.
Arguments sb_oauth_client_create {S} _.
Arguments sb_oauth_client_get {S} _.
Arguments sb_oauth_client_update {S} _.
Arguments sb_oauth_client_delete {S} _.
Arguments sb_oauth_client_list {S} _.
Arguments sb_refresh_token_create {S} _.
Arguments sb_refresh_token_get {S} _.
Arguments sb_refresh_token_revoke {S} _.
Arguments sb_refresh_token_revoke_family {S} _.
Arguments sb_jti_revoke {S} _.
Arguments sb_jti_is_revoked {S} _.
Arguments sb_audit_log_write {S} _.
Arguments sb_audit_log_list {S} _.

(* ------------------------------------------------------------------ *)
(** ** What a backend promises about reads *)

(** The relations a backend holds, seen from outside. *)
Record store_view := {
  v_policy : Z → option policy_t;
  v_assigned : policy_target_type_t → Z → list Z;   (* policies of a target *)
  v_user_roles : Z → list Z;
  v_user_groups : Z → list Z;
  v_role_parent : Z → option Z;
  v_group_parent : Z → option Z
}.

(** An id query answers with as many ids as fit, and reports an empty
    answer as [SSO_ERR_NOT_FOUND]. *)
Definition ids_answer (l : list Z) (max : nat) : result (list Z) :=
  match take max l with [] => Err SSO_ERR_NOT_FOUND | l' => Ok l' end.

Definition found {A} (o : option A) : result A :=
  match o with Some a => Ok a | None => Err SSO_ERR_NOT_FOUND end.

(** In the states of the backend's invariant, the reads policy resolution
    makes answer from the view and change nothing. *)
Class StorageReads {S} (sb : storage_backend S) (view : S → store_view) (inv : S → Prop) := {
  reads_policy : ∃ f, sb_policy_get_by_id sb = Some f ∧
    ∀ s i, inv s → f i s = Ret (found (v_policy (view s) i), s);
  reads_assigned : ∃ f, sb_get_target_policies sb = Some f ∧
    ∀ s t i m, inv s → f t i m s = Ret (ids_answer (v_assigned (view s) t i) m, s);
  reads_user_roles : ∃ f, sb_get_user_roles sb = Some f ∧
    ∀ s i m, inv s → f i m s = Ret (ids_answer (v_user_roles (view s) i) m, s);
  reads_user_groups : ∃ f, sb_get_user_groups sb = Some f ∧
    ∀ s i m, inv s → f i m s = Ret (ids_answer (v_user_groups (view s) i) m, s);
  reads_role_parent : ∃ f, sb_role_get_parent sb = Some f ∧
    ∀ s i, inv s → f i s = Ret (found (v_role_parent (view s) i), s);
  reads_group_parent : ∃ f, sb_group_get_parent sb = Some f ∧
    ∀ s i, inv s → f i s = Ret (found (v_group_parent (view s) i), s)
}.

Lemma ids_answer_nil m : ids_answer [] m = Err SSO_ERR_NOT_FOUND.
Proof. unfold ids_answer. by rewrite take_nil. Qed.

Lemma ids_answer_Ok l m l' : ids_answer l m = Ok l' ↔ l' = take m l ∧ l' ≠ [].
Proof. unfold ids_answer. destruct (take m l); naive_solver. Qed.
