(* ===== verification/StorageMemory.v ===== *)
(** * The in-memory storage backend (src/storage_memory.c)

    Entity tables are growing arrays of structs, assignments growing
    arrays of id pairs and triples.  An operation takes what it reads of
    the outside, the clock [now] and the allocator [alloc] (does a
    [realloc] of that many bytes succeed), as arguments. *)

From S2P Require Import Prelude CLib Types Storage.

(* ------------------------------------------------------------------ *)
(** ** Growing arrays: da_t, pl_t, al_t and the inline ones *)

Record da_t (A : Type) := { items : list A; cap : Z }.
Arguments items {A} _.
Arguments cap {A} _.

Definition da_init {A} : da_t A := {| items := []; cap := 0 |}.

Definition INITIAL_CAP : Z := 64.

(** Append, doubling the capacity when full: [da_add], [pl_add], [al_add]
    and the inline growths, which differ in the first capacity. *)
Definition grow_add {A} (alloc : Z → bool) (first_cap esz : Z) (d : da_t A) (x : A)
  : result unit * da_t A :=
  if cap d <=? Z.of_nat (length (items d)) then
    let nc := if cap d =? 0 then first_cap else cap d * 2 in
    if alloc (nc * esz) then (Ok (), {| items := items d ++ [x]; cap := nc |})
    else (Err SSO_ERR_OUT_OF_MEMORY, d)
  else (Ok (), {| items := items d ++ [x]; cap := cap d |}).

Definition da_add {A} (alloc : Z → bool) (esz : Z) := @grow_add A alloc INITIAL_CAP esz.

Definition da_find_id {A} (idf : A → Z) (d : da_t A) (i : Z) : option nat :=
  find_index (λ x, idf x =? i) (items d).
Definition da_find_str {A} (fld : A → cstr) (d : da_t A) (s : cstr) : option nat :=
  find_index (λ x, strcmp_eq (fld x) s) (items d).
Definition da_rm {A} (i : nat) (d : da_t A) : da_t A :=
  {| items := delete i (items d); cap := cap d |}.
Definition da_set {A} (i : nat) (x : A) (d : da_t A) : da_t A :=
  {| items := <[i := x]> (items d); cap := cap d |}.

Record pair_t := { pa : Z; pb : Z }.
Record a3_t := { a3_pid : Z; a3_tt : policy_target_type_t; a3_tid : Z }.

Definition pl_add (alloc : Z → bool) (l : da_t pair_t) (a b : Z) : result unit * da_t pair_t :=
  grow_add alloc INITIAL_CAP 16 l {| pa := a; pb := b |}.
Definition al_add (alloc : Z → bool) (l : da_t a3_t) (p : Z) (t : policy_target_type_t) (i : Z)
  : result unit * da_t a3_t :=
  grow_add alloc INITIAL_CAP 24 l {| a3_pid := p; a3_tt := t; a3_tid := i |}.

(** Remove the first pair equal to [(a, b)]. *)
Definition pl_rm (l : da_t pair_t) (a b : Z) : da_t pair_t :=
  match find_index (λ p, (pa p =? a) && (pb p =? b)) (items l) with
  | Some i => da_rm i l
  | None => l
  end.

(** The scan of [pl_get], with [room] places left in the output. *)
Fixpoint pl_scan (by_ : Z) (col : Z) (room : nat) (ps : list pair_t) : list Z :=
  match room, ps with
  | O, _ | _, [] => []
  | S room', p :: ps' =>
      if (col =? 1) && (pa p =? by_) then pb p :: pl_scan by_ col room' ps'
      else if (col =? 2) && (pb p =? by_) then pa p :: pl_scan by_ col room' ps'
      else pl_scan by_ col room ps'
  end.
Definition pl_get (l : da_t pair_t) (by_ col : Z) (max : nat) : list Z :=
  pl_scan by_ col max (items l).

(** [for (i = n; i > 0; i--) if (test(p[i-1])) remove p[i-1];] *)
Fixpoint rm_down {A} (test : A → bool) (i : nat) (l : list A) : list A :=
  match i with
  | O => l
  | S k =>
      rm_down test k
        (match l !! k with
         | Some x => if test x then delete k l else l
         | None => l
         end)
  end.
Definition da_rm_all {A} (test : A → bool) (d : da_t A) : da_t A :=
  {| items := rm_down test (length (items d)) (items d); cap := cap d |}.

Definition pl_rm_by_b (l : da_t pair_t) (bval : Z) : da_t pair_t := da_rm_all (λ p, pb p =? bval) l.
Definition pl_rm_by_a (l : da_t pair_t) (aval : Z) : da_t pair_t := da_rm_all (λ p, pa p =? aval) l.
Definition al_rm_by_target (l : da_t a3_t) (tt : policy_target_type_t) (tid : Z) : da_t a3_t :=
  da_rm_all (λ a, bool_decide (a3_tt a = tt) && (a3_tid a =? tid)) l.

(* ------------------------------------------------------------------ *)
(** ** The handle *)

Record sms_t := { sms_p : cstr; sms_c : cstr; sms_ex : Z }.
Record revoked_jti_t := { rj_jti : cstr; rj_expires_at : Z }.

Record mem_priv_t := {
  users : da_t user_t; roles : da_t role_t; groups : da_t group_t; policies : da_t policy_t;
  oauth_clients : da_t oauth_client_t;
  user_roles : da_t pair_t;     (* (role, user)  *)
  user_groups : da_t pair_t;    (* (group, user) *)
  role_groups : da_t pair_t;    (* (role, group) *)
  policy_assignments : da_t a3_t;
  sms : da_t sms_t;
  oauth_codes : da_t oauth_auth_code_t;
  refresh_tokens : da_t refresh_token_t;
  revoked_jtis : da_t revoked_jti_t;
  next_uid : Z; next_rid : Z; next_gid : Z; next_pid : Z; next_ocid : Z
}.

Definition mem_open : mem_priv_t :=
  {| users := da_init; roles := da_init; groups := da_init; policies := da_init;
     oauth_clients := da_init; user_roles := da_init; user_groups := da_init;
     role_groups := da_init; policy_assignments := da_init; sms := da_init;
     oauth_codes := da_init; refresh_tokens := da_init; revoked_jtis := da_init;
     next_uid := 1; next_rid := 1; next_gid := 1; next_pid := 1; next_ocid := 1 |}.

(** Field assignment. *)
Definition set_users (x : da_t user_t) (p : mem_priv_t) : mem_priv_t :=
  {| users := x; roles := roles p; groups := groups p; policies := policies p; oauth_clients :=
     oauth_clients p; user_roles := user_roles p; user_groups := user_groups p; role_groups :=
     role_groups p; policy_assignments := policy_assignments p; sms := sms p; oauth_codes :=
     oauth_codes p; refresh_tokens := refresh_tokens p; revoked_jtis := revoked_jtis p;
     next_uid := next_uid p; next_rid := next_rid p; next_gid := next_gid p; next_pid :=
     next_pid p; next_ocid := next_ocid p |}.
Definition set_roles (x : da_t role_t) (p : mem_priv_t) : mem_priv_t :=
  {| users := users p; roles := x; groups := groups p; policies := policies p; oauth_clients :=
     oauth_clients p; user_roles := user_roles p; user_groups := user_groups p; role_groups :=
     role_groups p; policy_assignments := policy_assignments p; sms := sms p; oauth_codes :=
     oauth_codes p; refresh_tokens := refresh_tokens p; revoked_jtis := revoked_jtis p;
     next_uid := next_uid p; next_rid := next_rid p; next_gid := next_gid p; next_pid :=
     next_pid p; next_ocid := next_ocid p |}.
Definition set_groups (x : da_t group_t) (p : mem_priv_t) : mem_priv_t :=
  {| users := users p; roles := roles p; groups := x; policies := policies p; oauth_clients :=
     oauth_clients p; user_roles := user_roles p; user_groups := user_groups p; role_groups :=
     role_groups p; policy_assignments := policy_assignments p; sms := sms p; oauth_codes :=
     oauth_codes p; refresh_tokens := refresh_tokens p; revoked_jtis := revoked_jtis p;
     next_uid := next_uid p; next_rid := next_rid p; next_gid := next_gid p; next_pid :=
     next_pid p; next_ocid := next_ocid p |}.
Definition set_policies (x : da_t policy_t) (p : mem_priv_t) : mem_priv_t :=
  {| users := users p; roles := roles p; groups := groups p; policies := x; oauth_clients :=
     oauth_clients p; user_roles := user_roles p; user_groups := user_groups p; role_groups :=
     role_groups p; policy_assignments := policy_assignments p; sms := sms p; oauth_codes :=
     oauth_codes p; refresh_tokens := refresh_tokens p; revoked_jtis := revoked_jtis p;
     next_uid := next_uid p; next_rid := next_rid p; next_gid := next_gid p; next_pid :=
     next_pid p; next_ocid := next_ocid p |}.
Definition set_oauth_clients (x : da_t oauth_client_t) (p : mem_priv_t) : mem_priv_t :=
  {| users := users p; roles := roles p; groups := groups p; policies := policies p;
     oauth_clients := x; user_roles := user_roles p; user_groups := user_groups p; role_groups
     := role_groups p; policy_assignments := policy_assignments p; sms := sms p; oauth_codes :=
     oauth_codes p; refresh_tokens := refresh_tokens p; revoked_jtis := revoked_jtis p;
     next_uid := next_uid p; next_rid := next_rid p; next_gid := next_gid p; next_pid :=
     next_pid p; next_ocid := next_ocid p |}.
Definition set_user_roles (x : da_t pair_t) (p : mem_priv_t) : mem_priv_t :=
  {| users := users p; roles := roles p; groups := groups p; policies := policies p;
     oauth_clients := oauth_clients p; user_roles := x; user_groups := user_groups p;
     role_groups := role_groups p; policy_assignments := policy_assignments p; sms := sms p;
     oauth_codes := oauth_codes p; refresh_tokens := refresh_tokens p; revoked_jtis :=
     revoked_jtis p; next_uid := next_uid p; next_rid := next_rid p; next_gid := next_gid p;
     next_pid := next_pid p; next_ocid := next_ocid p |}.
Definition set_user_groups (x : da_t pair_t) (p : mem_priv_t) : mem_priv_t :=
  {| users := users p; roles := roles p; groups := groups p; policies := policies p;
     oauth_clients := oauth_clients p; user_roles := user_roles p; user_groups := x;
     role_groups := role_groups p; policy_assignments := policy_assignments p; sms := sms p;
     oauth_codes := oauth_codes p; refresh_tokens := refresh_tokens p; revoked_jtis :=
     revoked_jtis p; next_uid := next_uid p; next_rid := next_rid p; next_gid := next_gid p;
     next_pid := next_pid p; next_ocid := next_ocid p |}.
Definition set_role_groups (x : da_t pair_t) (p : mem_priv_t) : mem_priv_t :=
  {| users := users p; roles := roles p; groups := groups p; policies := policies p;
     oauth_clients := oauth_clients p; user_roles := user_roles p; user_groups := user_groups
     p; role_groups := x; policy_assignments := policy_assignments p; sms := sms p; oauth_codes
     := oauth_codes p; refresh_tokens := refresh_tokens p; revoked_jtis := revoked_jtis p;
     next_uid := next_uid p; next_rid := next_rid p; next_gid := next_gid p; next_pid :=
     next_pid p; next_ocid := next_ocid p |}.
Definition set_policy_assignments (x : da_t a3_t) (p : mem_priv_t) : mem_priv_t :=
  {| users := users p; roles := roles p; groups := groups p; policies := policies p;
     oauth_clients := oauth_clients p; user_roles := user_roles p; user_groups := user_groups
     p; role_groups := role_groups p; policy_assignments := x; sms := sms p; oauth_codes :=
     oauth_codes p; refresh_tokens := refresh_tokens p; revoked_jtis := revoked_jtis p;
     next_uid := next_uid p; next_rid := next_rid p; next_gid := next_gid p; next_pid :=
     next_pid p; next_ocid := next_ocid p |}.
Definition set_sms (x : da_t sms_t) (p : mem_priv_t) : mem_priv_t :=
  {| users := users p; roles := roles p; groups := groups p; policies := policies p;
     oauth_clients := oauth_clients p; user_roles := user_roles p; user_groups := user_groups
     p; role_groups := role_groups p; policy_assignments := policy_assignments p; sms := x;
     oauth_codes := oauth_codes p; refresh_tokens := refresh_tokens p; revoked_jtis :=
     revoked_jtis p; next_uid := next_uid p; next_rid := next_rid p; next_gid := next_gid p;
     next_pid := next_pid p; next_ocid := next_ocid p |}.
Definition set_oauth_codes (x : da_t oauth_auth_code_t) (p : mem_priv_t) : mem_priv_t :=
  {| users := users p; roles := roles p; groups := groups p; policies := policies p;
     oauth_clients := oauth_clients p; user_roles := user_roles p; user_groups := user_groups
     p; role_groups := role_groups p; policy_assignments := policy_assignments p; sms := sms p;
     oauth_codes := x; refresh_tokens := refresh_tokens p; revoked_jtis := revoked_jtis p;
     next_uid := next_uid p; next_rid := next_rid p; next_gid := next_gid p; next_pid :=
     next_pid p; next_ocid := next_ocid p |}.
Definition set_refresh_tokens (x : da_t refresh_token_t) (p : mem_priv_t) : mem_priv_t :=
  {| users := users p; roles := roles p; groups := groups p; policies := policies p;
     oauth_clients := oauth_clients p; user_roles := user_roles p; user_groups := user_groups
     p; role_groups := role_groups p; policy_assignments := policy_assignments p; sms := sms p;
     oauth_codes := oauth_codes p; refresh_tokens := x; revoked_jtis := revoked_jtis p;
     next_uid := next_uid p; next_rid := next_rid p; next_gid := next_gid p; next_pid :=
     next_pid p; next_ocid := next_ocid p |}.
Definition set_revoked_jtis (x : da_t revoked_jti_t) (p : mem_priv_t) : mem_priv_t :=
  {| users := users p; roles := roles p; groups := groups p; policies := policies p;
     oauth_clients := oauth_clients p; user_roles := user_roles p; user_groups := user_groups
     p; role_groups := role_groups p; policy_assignments := policy_assignments p; sms := sms p;
     oauth_codes := oauth_codes p; refresh_tokens := refresh_tokens p; revoked_jtis := x;
     next_uid := next_uid p; next_rid := next_rid p; next_gid := next_gid p; next_pid :=
     next_pid p; next_ocid := next_ocid p |}.
Definition set_next_uid (x : Z) (p : mem_priv_t) : mem_priv_t :=
  {| users := users p; roles := roles p; groups := groups p; policies := policies p;
     oauth_clients := oauth_clients p; user_roles := user_roles p; user_groups := user_groups
     p; role_groups := role_groups p; policy_assignments := policy_assignments p; sms := sms p;
     oauth_codes := oauth_codes p; refresh_tokens := refresh_tokens p; revoked_jtis :=
     revoked_jtis p; next_uid := x; next_rid := next_rid p; next_gid := next_gid p; next_pid :=
     next_pid p; next_ocid := next_ocid p |}.
Definition set_next_rid (x : Z) (p : mem_priv_t) : mem_priv_t :=
  {| users := users p; roles := roles p; groups := groups p; policies := policies p;
     oauth_clients := oauth_clients p; user_roles := user_roles p; user_groups := user_groups
     p; role_groups := role_groups p; policy_assignments := policy_assignments p; sms := sms p;
     oauth_codes := oauth_codes p; refresh_tokens := refresh_tokens p; revoked_jtis :=
     revoked_jtis p; next_uid := next_uid p; next_rid := x; next_gid := next_gid p; next_pid :=
     next_pid p; next_ocid := next_ocid p |}.
Definition set_next_gid (x : Z) (p : mem_priv_t) : mem_priv_t :=
  {| users := users p; roles := roles p; groups := groups p; policies := policies p;
     oauth_clients := oauth_clients p; user_roles := user_roles p; user_groups := user_groups
     p; role_groups := role_groups p; policy_assignments := policy_assignments p; sms := sms p;
     oauth_codes := oauth_codes p; refresh_tokens := refresh_tokens p; revoked_jtis :=
     revoked_jtis p; next_uid := next_uid p; next_rid := next_rid p; next_gid := x; next_pid :=
     next_pid p; next_ocid := next_ocid p |}.
Definition set_next_pid (x : Z) (p : mem_priv_t) : mem_priv_t :=
  {| users := users p; roles := roles p; groups := groups p; policies := policies p;
     oauth_clients := oauth_clients p; user_roles := user_roles p; user_groups := user_groups
     p; role_groups := role_groups p; policy_assignments := policy_assignments p; sms := sms p;
     oauth_codes := oauth_codes p; refresh_tokens := refresh_tokens p; revoked_jtis :=
     revoked_jtis p; next_uid := next_uid p; next_rid := next_rid p; next_gid := next_gid p;
     next_pid := x; next_ocid := next_ocid p |}.
Definition set_next_ocid (x : Z) (p : mem_priv_t) : mem_priv_t :=
  {| users := users p; roles := roles p; groups := groups p; policies := policies p;
     oauth_clients := oauth_clients p; user_roles := user_roles p; user_groups := user_groups
     p; role_groups := role_groups p; policy_assignments := policy_assignments p; sms := sms p;
     oauth_codes := oauth_codes p; refresh_tokens := refresh_tokens p; revoked_jtis :=
     revoked_jtis p; next_uid := next_uid p; next_rid := next_rid p; next_gid := next_gid p;
     next_pid := next_pid p; next_ocid := x |}.

Definition with_user_id (i : Z) (u : user_t) : user_t :=
  {| u_id := i; u_username := u_username u; u_phone := u_phone u;
     u_password_hash := u_password_hash u; u_email := u_email u;
     u_display_name := u_display_name u; u_status := u_status u; u_created_at := u_created_at u;
     u_updated_at := u_updated_at u; u_attributes := u_attributes u;
     u_mfa_enabled := u_mfa_enabled u; u_mfa_secret := u_mfa_secret u;
     u_password_set_at := u_password_set_at u |}.
Definition with_role_id (i : Z) (r : role_t) : role_t :=
  {| r_id := i; r_name := r_name r; r_description := r_description r;
     r_parent_role_id := r_parent_role_id r; r_status := r_status r;
     r_created_at := r_created_at r; r_updated_at := r_updated_at r |}.
Definition with_group_id (i : Z) (g : group_t) : group_t :=
  {| g_id := i; g_name := g_name g; g_description := g_description g;
     g_parent_group_id := g_parent_group_id g; g_status := g_status g;
     g_created_at := g_created_at g; g_updated_at := g_updated_at g |}.
Definition with_policy_id (i : Z) (p : policy_t) : policy_t :=
  {| p_id := i; p_name := p_name p; p_strategy_type := p_strategy_type p; p_effect := p_effect p;
     p_priority := p_priority p; p_rules := p_rules p; p_status := p_status p;
     p_created_at := p_created_at p; p_updated_at := p_updated_at p |}.

(* ------------------------------------------------------------------ *)
(** ** Table macros: MK_GETID, MK_GETNM, MK_UPD, MK_DEL, MK_LIST *)

Notation mem_op := (storage_op mem_priv_t).

Definition MK_GETID {A} (idf : A → Z) (arr : mem_priv_t → da_t A) (i : Z) : mem_op A := λ p,
  match da_find_id idf (arr p) i with
  | Some k => Ret (found (items (arr p) !! k), p)
  | None => Ret (Err SSO_ERR_NOT_FOUND, p)
  end.

Definition MK_GETNM {A} (fld : A → cstr) (arr : mem_priv_t → da_t A) (n : cstr) : mem_op A := λ p,
  match da_find_str fld (arr p) n with
  | Some k => Ret (found (items (arr p) !! k), p)
  | None => Ret (Err SSO_ERR_NOT_FOUND, p)
  end.

Definition MK_UPD {A} (idf : A → Z) (arr : mem_priv_t → da_t A)
    (set : da_t A → mem_priv_t → mem_priv_t) (o : A) : mem_op unit := λ p,
  match da_find_id idf (arr p) (idf o) with
  | Some k => Ret (Ok (), set (da_set k o (arr p)) p)
  | None => Ret (Err SSO_ERR_NOT_FOUND, p)
  end.

Definition MK_DEL {A} (idf : A → Z) (arr : mem_priv_t → da_t A)
    (set : da_t A → mem_priv_t → mem_priv_t) (i : Z) : mem_op unit := λ p,
  match da_find_id idf (arr p) i with
  | Some k => Ret (Ok (), set (da_rm k (arr p)) p)
  | None => Ret (Err SSO_ERR_NOT_FOUND, p)
  end.

(** The scan of the list queries: [matched] rows so far, ids written so
    far in [acc].  A row past the page is counted and not written. *)
Fixpoint list_scan {A} (idf : A → Z) (sel : A → bool) (offset limit : Z)
    (rows : list A) (matched : Z) (acc : list Z) : Z * list Z :=
  match rows with
  | [] => (matched, acc)
  | o :: rows' =>
      if negb (sel o) then list_scan idf sel offset limit rows' matched acc
      else if matched <? offset then list_scan idf sel offset limit rows' (matched + 1) acc
      else if limit <=? matched - offset
      then list_scan idf sel offset limit rows' (matched + 1) acc
      else list_scan idf sel offset limit rows' (matched + 1) (acc ++ [idf o])
  end.

(** [status != -1] and the text filter; [offset] and [limit] are ints
    converted to [size_t]. *)
Definition MK_LIST {A} (idf : A → Z) (status_int : A → Z) (texts : A → list cstr)
    (arr : mem_priv_t → da_t A) : list_op mem_priv_t := λ q status offset limit p,
  let sel o :=
    negb (negb (status =? -1) && negb (status_int o =? status)) &&
    match q with
    | Some (c :: q') => existsb (λ t, match strstr t (c :: q') with Some _ => true | None => false end)
                                (texts o)
    | _ => true
    end in
  let '(total, ids) := list_scan idf sel (u64 offset) (u64 limit) (items (arr p)) 0 [] in
  Ret (Ok (ids, total), p).

(* ------------------------------------------------------------------ *)
(** ** Entities *)

Section Operations.
Context (now : Z) (alloc : Z → bool).

Definition mem_user_create (u : user_t) : mem_op user_t := λ p,
  if (match u_username u with [] => false | _ => true end)
     && (match da_find_str u_username (users p) (u_username u) with Some _ => true | None => false end)
  then Ret (Err SSO_ERR_ALREADY_EXISTS, p)
  else
    let u := with_user_id (next_uid p) u in
    let p := set_next_uid (u64 (next_uid p + 1)) p in
    let '(r, d) := da_add alloc 2768 (users p) u in
    Ret (result_map (λ _, u) r, set_users d p).

Definition mem_role_create (o : role_t) : mem_op role_t := λ p,
  match da_find_str r_name (roles p) (r_name o) with
  | Some _ => Ret (Err SSO_ERR_ALREADY_EXISTS, p)
  | None =>
      let o := with_role_id (next_rid p) o in
      let p := set_next_rid (u64 (next_rid p + 1)) p in
      let '(r, d) := da_add alloc 616 (roles p) o in
      Ret (result_map (λ _, o) r, set_roles d p)
  end.

Definition mem_group_create (o : group_t) : mem_op group_t := λ p,
  match da_find_str g_name (groups p) (g_name o) with
  | Some _ => Ret (Err SSO_ERR_ALREADY_EXISTS, p)
  | None =>
      let o := with_group_id (next_gid p) o in
      let p := set_next_gid (u64 (next_gid p + 1)) p in
      let '(r, d) := da_add alloc 616 (groups p) o in
      Ret (result_map (λ _, o) r, set_groups d p)
  end.

Definition mem_policy_create (o : policy_t) : mem_op policy_t := λ p,
  match da_find_str p_name (policies p) (p_name o) with
  | Some _ => Ret (Err SSO_ERR_ALREADY_EXISTS, p)
  | None =>
      let o := with_policy_id (next_pid p) o in
      let p := set_next_pid (u64 (next_pid p + 1)) p in
      let '(r, d) := da_add alloc 8312 (policies p) o in
      Ret (result_map (λ _, o) r, set_policies d p)
  end.

Definition mem_user_get_by_id : Z → mem_op user_t := MK_GETID u_id users.
Definition mem_role_get_by_id : Z → mem_op role_t := MK_GETID r_id roles.
Definition mem_group_get_by_id : Z → mem_op group_t := MK_GETID g_id groups.
Definition mem_policy_get_by_id : Z → mem_op policy_t := MK_GETID p_id policies.
Definition mem_user_get_by_name : cstr → mem_op user_t := MK_GETNM u_username users.
Definition mem_user_get_by_phone : cstr → mem_op user_t := MK_GETNM u_phone users.
Definition mem_role_get_by_name : cstr → mem_op role_t := MK_GETNM r_name roles.
Definition mem_group_get_by_name : cstr → mem_op group_t := MK_GETNM g_name groups.
Definition mem_policy_get_by_name : cstr → mem_op policy_t := MK_GETNM p_name policies.
Definition mem_user_update : user_t → mem_op unit := MK_UPD u_id users set_users.
Definition mem_role_update : role_t → mem_op unit := MK_UPD r_id roles set_roles.
Definition mem_group_update : group_t → mem_op unit := MK_UPD g_id groups set_groups.
Definition mem_policy_update : policy_t → mem_op unit := MK_UPD p_id policies set_policies.
Definition mem_policy_delete : Z → mem_op unit := MK_DEL p_id policies set_policies.
Definition mem_user_list : list_op mem_priv_t :=
  MK_LIST u_id (λ u, user_status_int (u_status u))
          (λ u, [u_username u; u_display_name u; u_email u; u_phone u]) users.
Definition mem_role_list : list_op mem_priv_t :=
  MK_LIST r_id (λ r, role_status_int (r_status r)) (λ r, [r_name r]) roles.
Definition mem_group_list : list_op mem_priv_t :=
  MK_LIST g_id (λ g, group_status_int (g_status g)) (λ g, [g_name g]) groups.
Definition mem_policy_list : list_op mem_priv_t :=
  MK_LIST p_id (λ q, policy_status_int (p_status q)) (λ q, [p_name q]) policies.

Definition mem_user_delete (i : Z) : mem_op unit := λ p,
  match da_find_id u_id (users p) i with
  | None => Ret (Err SSO_ERR_NOT_FOUND, p)
  | Some k =>
      let p := set_users (da_rm k (users p)) p in
      let p := set_user_roles (pl_rm_by_b (user_roles p) i) p in
      let p := set_user_groups (pl_rm_by_b (user_groups p) i) p in
      Ret (Ok (), set_policy_assignments
                    (al_rm_by_target (policy_assignments p) POLICY_TARGET_USER i) p)
  end.

Definition mem_role_delete (i : Z) : mem_op unit := λ p,
  match da_find_id r_id (roles p) i with
  | None => Ret (Err SSO_ERR_NOT_FOUND, p)
  | Some k =>
      let p := set_roles (da_rm k (roles p)) p in
      let p := set_user_roles (pl_rm_by_a (user_roles p) i) p in
      let p := set_role_groups (pl_rm_by_a (role_groups p) i) p in
      Ret (Ok (), set_policy_assignments
                    (al_rm_by_target (policy_assignments p) POLICY_TARGET_ROLE i) p)
  end.

(** The columns are the ones of the code: [a] of [role_groups] is the
    role, and [b] of [user_groups] the user. *)
Definition mem_group_delete (i : Z) : mem_op unit := λ p,
  match da_find_id g_id (groups p) i with
  | None => Ret (Err SSO_ERR_NOT_FOUND, p)
  | Some k =>
      let p := set_groups (da_rm k (groups p)) p in
      let p := set_role_groups (pl_rm_by_a (role_groups p) i) p in
      let p := set_user_groups (pl_rm_by_b (user_groups p) i) p in
      Ret (Ok (), set_policy_assignments
                    (al_rm_by_target (policy_assignments p) POLICY_TARGET_GROUP i) p)
  end.

(* ------------------------------------------------------------------ *)
(** ** Assignments *)

(** ASN_ADD: rows are appended without looking for an equal one. *)
Definition ASN_ADD (tab : mem_priv_t → da_t pair_t) (set : da_t pair_t → mem_priv_t → mem_priv_t)
    (a b : Z) : mem_op unit := λ p,
  let '(r, d) := pl_add alloc (tab p) a b in Ret (r, set d p).
Definition mem_assign_role_to_user : Z → Z → mem_op unit := ASN_ADD user_roles set_user_roles.
Definition mem_assign_role_to_group : Z → Z → mem_op unit := ASN_ADD role_groups set_role_groups.
Definition mem_add_user_to_group : Z → Z → mem_op unit := ASN_ADD user_groups set_user_groups.

Definition mem_remove_user_from_group (g u : Z) : mem_op unit := λ p,
  Ret (Ok (), set_user_groups (pl_rm (user_groups p) g u) p).
Definition mem_unassign_role_from_user (r u : Z) : mem_op unit := λ p,
  Ret (Ok (), set_user_roles (pl_rm (user_roles p) r u) p).
Definition mem_unassign_role_from_group (r g : Z) : mem_op unit := λ p,
  Ret (Ok (), set_role_groups (pl_rm (role_groups p) r g) p).

(** [*c = n; return n ? SSO_OK : SSO_ERR_NOT_FOUND] *)
Definition some_ids (l : list Z) : result (list Z) :=
  match l with [] => Err SSO_ERR_NOT_FOUND | _ => Ok l end.

Definition mem_get_user_roles (uid : Z) (m : nat) : mem_op (list Z) := λ p,
  Ret (some_ids (pl_get (user_roles p) uid 2 m), p).
Definition mem_get_role_users (rid : Z) (m : nat) : mem_op (list Z) := λ p,
  Ret (some_ids (pl_get (user_roles p) rid 1 m), p).
Definition mem_get_user_groups (uid : Z) (m : nat) : mem_op (list Z) := λ p,
  Ret (some_ids (pl_get (user_groups p) uid 2 m), p).
Definition mem_get_group_users (gid : Z) (m : nat) : mem_op (list Z) := λ p,
  Ret (some_ids (pl_get (user_groups p) gid 1 m), p).

Definition mem_assign_policy (pid : Z) (tt : policy_target_type_t) (tid : Z) : mem_op unit := λ p,
  let '(r, d) := al_add alloc (policy_assignments p) pid tt tid in
  Ret (r, set_policy_assignments d p).

Definition mem_unassign_policy (pid : Z) (tt : policy_target_type_t) (tid : Z) : mem_op unit := λ p,
  match find_index (λ a, (a3_pid a =? pid) && bool_decide (a3_tt a = tt) && (a3_tid a =? tid))
                   (items (policy_assignments p)) with
  | Some i => Ret (Ok (), set_policy_assignments (da_rm i (policy_assignments p)) p)
  | None => Ret (Ok (), p)
  end.

Fixpoint al_scan (test : a3_t → bool) (val : a3_t → Z) (room : nat) (l : list a3_t) : list Z :=
  match room, l with
  | O, _ | _, [] => []
  | S room', a :: l' => if test a then val a :: al_scan test val room' l'
                        else al_scan test val room l'
  end.

Definition mem_get_policy_targets (pid : Z) (tt : policy_target_type_t) (m : nat)
  : mem_op (list Z) := λ p,
  Ret (some_ids (al_scan (λ a, (a3_pid a =? pid) && bool_decide (a3_tt a = tt)) a3_tid m
                         (items (policy_assignments p))), p).

Definition mem_get_target_policies (tt : policy_target_type_t) (tid : Z) (m : nat)
  : mem_op (list Z) := λ p,
  Ret (some_ids (al_scan (λ a, bool_decide (a3_tt a = tt) && (a3_tid a =? tid)) a3_pid m
                         (items (policy_assignments p))), p).

(* ------------------------------------------------------------------ *)
(** ** Hierarchy *)

Definition mem_role_get_parent (rid : Z) : mem_op Z := λ p,
  match da_find_id r_id (roles p) rid with
  | Some k => Ret (found (r_parent_role_id <$> items (roles p) !! k), p)
  | None => Ret (Err SSO_ERR_NOT_FOUND, p)
  end.
Definition mem_group_get_parent (gid : Z) : mem_op Z := λ p,
  match da_find_id g_id (groups p) gid with
  | Some k => Ret (found (g_parent_group_id <$> items (groups p) !! k), p)
  | None => Ret (Err SSO_ERR_NOT_FOUND, p)
  end.

(** The role with an id, when it exists and is active. *)
Definition active_role (p : mem_priv_t) (i : Z) : option role_t :=
  r ← find_index (λ r, r_id r =? i) (items (roles p)) ≫= (items (roles p) !!.);
  if bool_decide (r_status r = ROLE_STATUS_ACTIVE) then Some r else None.

(** [if (!dup) ids[n++] = cur;] *)
Definition add_new (i : Z) (ids : list Z) : list Z :=
  if existsb (Z.eqb i) ids then ids else ids ++ [i].

(** The inner [while (n < m)] of [mem_get_user_roles_with_ancestors]. *)
Fixpoint climb (fuel : nat) (p : mem_priv_t) (m : nat) (cur : Z) (ids : list Z)
  : outcome (list Z) :=
  match fuel with
  | O => Diverge
  | S fuel' =>
      if (length ids <? m)%nat then
        match find_index (λ r, r_id r =? cur) (items (roles p)) ≫= (items (roles p) !!.) with
        | None => Ret ids
        | Some r =>
            if r_parent_role_id r =? SSO_ID_NONE then Ret ids
            else match active_role p (r_parent_role_id r) with
                 | None => Ret ids
                 | Some _ => climb fuel' p m (r_parent_role_id r)
                                   (add_new (r_parent_role_id r) ids)
                 end
        end
      else Ret ids
  end.

Fixpoint climb_all (fuel : nat) (p : mem_priv_t) (m : nat) (dir : list Z) (ids : list Z)
  : outcome (list Z) :=
  match dir with
  | [] => Ret ids
  | cur :: dir' =>
      if (length ids <? m)%nat then
        match active_role p cur with
        | None => climb_all fuel p m dir' ids
        | Some _ => ids' ← climb fuel p m cur (add_new cur ids); climb_all fuel p m dir' ids'
        end
      else Ret ids
  end.

Definition mem_get_user_roles_with_ancestors (fuel : nat) (uid : Z) (m : nat)
  : mem_op (list Z) := λ p,
  match pl_get (user_roles p) uid 2 64 with
  | [] => Ret (Err SSO_ERR_NOT_FOUND, p)
  | dir => ids ← climb_all fuel p m dir []; Ret (some_ids ids, p)
  end.

(* ------------------------------------------------------------------ *)
(** ** SMS codes *)

Definition mem_save_sms_code (ph c : cstr) (ex : Z) : mem_op unit := λ p,
  match find_index (λ e, strcmp_eq (sms_p e) ph) (items (sms p)) with
  | Some i =>
      match items (sms p) !! i with
      | Some e => Ret (Ok (), set_sms (da_set i {| sms_p := sms_p e;
                                 sms_c := sso_strlcpy (Some c) 15; sms_ex := ex |} (sms p)) p)
      | None => Crash
      end
  | None =>
      let '(r, d) := grow_add alloc 16 56 (sms p)
                       {| sms_p := sso_strlcpy (Some ph) 31; sms_c := sso_strlcpy (Some c) 15;
                          sms_ex := ex |} in
      Ret (r, set_sms d p)
  end.

Definition mem_get_sms_code (ph : cstr) : mem_op cstr := λ p,
  match List.find (λ e, strcmp_eq (sms_p e) ph) (items (sms p)) with
  | Some e => if sms_ex e <? now then Ret (Err SSO_ERR_TOKEN_EXPIRED, p)
              else Ret (Ok (sso_strlcpy (Some (sms_c e)) 15), p)
  | None => Ret (Err SSO_ERR_NOT_FOUND, p)
  end.

Definition mem_delete_sms_code (ph : cstr) : mem_op unit := λ p,
  match find_index (λ e, strcmp_eq (sms_p e) ph) (items (sms p)) with
  | Some i => Ret (Ok (), set_sms (da_rm i (sms p)) p)
  | None => Ret (Ok (), p)
  end.

(* ------------------------------------------------------------------ *)
(** ** OAuth codes and clients, refresh tokens, revoked token ids *)

Definition mem_oauth_code_create (code : oauth_auth_code_t) : mem_op unit := λ p,
  let '(r, d) := grow_add alloc 16 1384 (oauth_codes p) code in Ret (r, set_oauth_codes d p).

Definition mem_oauth_code_get (code : cstr) : mem_op oauth_auth_code_t := λ p,
  Ret (found (List.find (λ c, strcmp_eq (oc_code c) code) (items (oauth_codes p))), p).

Definition mark_used (c : oauth_auth_code_t) : oauth_auth_code_t :=
  {| oc_code := oc_code c; oc_client_id := oc_client_id c; oc_user_id := oc_user_id c;
     oc_redirect_uri := oc_redirect_uri c; oc_scope := oc_scope c; oc_nonce := oc_nonce c;
     oc_code_challenge := oc_code_challenge c;
     oc_code_challenge_method := oc_code_challenge_method c;
     oc_expires_at := oc_expires_at c; oc_used := 1 |}.

(** Change the first element that satisfies a test. *)
Fixpoint alter_first {A} (test : A → bool) (f : A → A) (l : list A) : option (list A) :=
  match l with
  | [] => None
  | x :: l' => if test x then Some (f x :: l') else (x ::.) <$> alter_first test f l'
  end.

Definition mem_oauth_code_mark_used (code : cstr) : mem_op unit := λ p,
  match alter_first (λ c, strcmp_eq (oc_code c) code) mark_used (items (oauth_codes p)) with
  | Some l => Ret (Ok (), set_oauth_codes {| items := l; cap := cap (oauth_codes p) |} p)
  | None => Ret (Err SSO_ERR_NOT_FOUND, p)
  end.

(** Compaction in place: rows to keep move down to the write index. *)
Definition mem_oauth_code_cleanup : mem_op unit := λ p,
  Ret (Ok (), set_oauth_codes
    {| items := List.filter (λ c, (oc_used c =? 0) && (now <? oc_expires_at c))
                            (items (oauth_codes p));
       cap := cap (oauth_codes p) |} p).

Definition mem_oauth_client_create (c : oauth_client_t) : mem_op oauth_client_t := λ p,
  match da_find_str cl_client_id (oauth_clients p) (cl_client_id c) with
  | Some _ => Ret (Err SSO_ERR_ALREADY_EXISTS, p)
  | None =>
      let created := if cl_created_at c =? 0 then now else cl_created_at c in
      let updated := if cl_updated_at c =? 0 then created else cl_updated_at c in
      let c := {| cl_id := next_ocid p; cl_client_id := cl_client_id c;
                  cl_client_secret_hash := cl_client_secret_hash c;
                  cl_redirect_uris := cl_redirect_uris c; cl_app_name := cl_app_name c;
                  cl_app_description := cl_app_description c; cl_app_logo_url := cl_app_logo_url c;
                  cl_allowed_scopes := cl_allowed_scopes c;
                  cl_allowed_grant_types := cl_allowed_grant_types c;
                  cl_token_ttl_ms := cl_token_ttl_ms c; cl_status := cl_status c;
                  cl_created_at := created; cl_updated_at := updated |} in
      let p := set_next_ocid (u64 (next_ocid p + 1)) p in
      let '(r, d) := da_add alloc 1768 (oauth_clients p) c in
      Ret (result_map (λ _, c) r, set_oauth_clients d p)
  end.

Definition mem_oauth_client_get : cstr → mem_op oauth_client_t := MK_GETNM cl_client_id oauth_clients.
Definition mem_oauth_client_update : oauth_client_t → mem_op unit :=
  MK_UPD cl_id oauth_clients set_oauth_clients.
Definition mem_oauth_client_delete (client_id : cstr) : mem_op unit := λ p,
  match da_find_str cl_client_id (oauth_clients p) client_id with
  | Some k => Ret (Ok (), set_oauth_clients (da_rm k (oauth_clients p)) p)
  | None => Ret (Err SSO_ERR_NOT_FOUND, p)
  end.
Definition mem_oauth_client_list (offset limit : Z) (max : nat) : mem_op (list oauth_client_t) := λ p,
  let rows := items (oauth_clients p) in
  let page := drop (Z.to_nat (Z.min (u64 offset) (Z.of_nat (length rows)))) rows in
  Ret (Ok (take (Nat.min (Z.to_nat (Z.min (u64 limit) (Z.of_nat (length rows)))) max) page), p).

Definition mem_rt_create (rt : refresh_token_t) : mem_op unit := λ p,
  let '(r, d) := grow_add alloc 16 224 (refresh_tokens p) rt in Ret (r, set_refresh_tokens d p).

Definition mem_rt_get (h : cstr) : mem_op refresh_token_t := λ p,
  Ret (found (List.find (λ t, strcmp_eq (rt_token_hash t) h) (items (refresh_tokens p))), p).

Definition revoke_rt (t : refresh_token_t) : refresh_token_t :=
  {| rt_token_hash := rt_token_hash t; rt_user_id := rt_user_id t; rt_client_id := rt_client_id t;
     rt_expires_at := rt_expires_at t; rt_issued_at := rt_issued_at t; rt_revoked := 1 |}.

Definition mem_rt_revoke (h : cstr) : mem_op unit := λ p,
  match alter_first (λ t, strcmp_eq (rt_token_hash t) h) revoke_rt (items (refresh_tokens p)) with
  | Some l => Ret (Ok (), set_refresh_tokens {| items := l; cap := cap (refresh_tokens p) |} p)
  | None => Ret (Err SSO_ERR_NOT_FOUND, p)
  end.

Definition mem_rt_revoke_family (user_id : Z) (client_id : cstr) : mem_op unit := λ p,
  Ret (Ok (), set_refresh_tokens
    {| items := map (λ t, if (rt_user_id t =? user_id) && strcmp_eq (rt_client_id t) client_id
                          then revoke_rt t else t) (items (refresh_tokens p));
       cap := cap (refresh_tokens p) |} p).

Definition TOKEN_REVOCATION_STR_LEN : nat := 64.

Definition mem_jti_revoke (jti : cstr) (expires_at : Z) : mem_op unit := λ p,
  match alter_first (λ e, strcmp_eq (rj_jti e) jti)
          (λ e, {| rj_jti := rj_jti e; rj_expires_at := expires_at |}) (items (revoked_jtis p)) with
  | Some l => Ret (Ok (), set_revoked_jtis {| items := l; cap := cap (revoked_jtis p) |} p)
  | None =>
      let '(r, d) := grow_add alloc 16 72 (revoked_jtis p)
                       {| rj_jti := sso_strlcpy (Some jti) TOKEN_REVOCATION_STR_LEN;
                          rj_expires_at := expires_at |} in
      Ret (r, set_revoked_jtis d p)
  end.

Definition mem_jti_is_revoked (jti : cstr) (p : mem_priv_t) : outcome (bool * mem_priv_t) :=
  Ret (existsb (λ e, strcmp_eq (rj_jti e) jti && (now <? rj_expires_at e)) (items (revoked_jtis p)), p).

(** The constructor's table. *)
Definition storage_memory_create (fuel : nat) : storage_backend mem_priv_t :=
  {| sb_user_create := Some mem_user_create; sb_user_get_by_id := Some mem_user_get_by_id;
     sb_user_get_by_name := Some mem_user_get_by_name;
     sb_user_get_by_phone := Some mem_user_get_by_phone;
     sb_user_update := Some mem_user_update; sb_user_delete := Some mem_user_delete;
     sb_user_list := Some mem_user_list;
     sb_save_sms_code := Some mem_save_sms_code; sb_get_sms_code := Some mem_get_sms_code;
     sb_delete_sms_code := Some mem_delete_sms_code;
     sb_role_create := Some mem_role_create; sb_role_get_by_id := Some mem_role_get_by_id;
     sb_role_get_by_name := Some mem_role_get_by_name; sb_role_update := Some mem_role_update;
     sb_role_delete := Some mem_role_delete; sb_role_list := Some mem_role_list;
     sb_group_create := Some mem_group_create; sb_group_get_by_id := Some mem_group_get_by_id;
     sb_group_get_by_name := Some mem_group_get_by_name; sb_group_update := Some mem_group_update;
     sb_group_delete := Some mem_group_delete; sb_group_list := Some mem_group_list;
     sb_policy_create := Some mem_policy_create; sb_policy_get_by_id := Some mem_policy_get_by_id;
     sb_policy_get_by_name := Some mem_policy_get_by_name;
     sb_policy_update := Some mem_policy_update;
     sb_policy_delete := Some mem_policy_delete; sb_policy_list := Some mem_policy_list;
     sb_assign_role_to_user := Some mem_assign_role_to_user;
     sb_unassign_role_from_user := Some mem_unassign_role_from_user;
     sb_get_user_roles := Some mem_get_user_roles; sb_get_role_users := Some mem_get_role_users;
     sb_assign_role_to_group := Some mem_assign_role_to_group;
     sb_unassign_role_from_group := Some mem_unassign_role_from_group;
     sb_add_user_to_group := Some mem_add_user_to_group;
     sb_remove_user_from_group := Some mem_remove_user_from_group;
     sb_get_user_groups := Some mem_get_user_groups;
     sb_get_group_users := Some mem_get_group_users;
     sb_assign_policy := Some mem_assign_policy; sb_unassign_policy := Some mem_unassign_policy;
     sb_get_policy_targets := Some mem_get_policy_targets;
     sb_get_target_policies := Some mem_get_target_policies;
     sb_role_get_parent := Some mem_role_get_parent;
     sb_group_get_parent := Some mem_group_get_parent;
     sb_get_user_roles_with_ancestors := Some (mem_get_user_roles_with_ancestors fuel);
     sb_oauth_code_create := Some mem_oauth_code_create;
     sb_oauth_code_get := Some mem_oauth_code_get;
     sb_oauth_code_mark_used := Some mem_oauth_code_mark_used;
     sb_oauth_code_cleanup := Some mem_oauth_code_cleanup;
     sb_oauth_client_create := Some mem_oauth_client_create;
     sb_oauth_client_get := Some mem_oauth_client_get;
     sb_oauth_client_update := Some mem_oauth_client_update;
     sb_oauth_client_delete := Some mem_oauth_client_delete;
     sb_oauth_client_list := Some mem_oauth_client_list;
     sb_refresh_token_create := Some mem_rt_create; sb_refresh_token_get := Some mem_rt_get;
     sb_refresh_token_revoke := Some mem_rt_revoke;
     sb_refresh_token_revoke_family := Some mem_rt_revoke_family;
     sb_jti_revoke := Some mem_jti_revoke; sb_jti_is_revoked := Some mem_jti_is_revoked;
     sb_audit_log_write := None; sb_audit_log_list := None |}.

End Operations.

(* ================================================================== *)
(** ** Scans and removals against their reference definitions *)

Lemma al_scan_spec test val room l :
  al_scan test val room l = take room (map val (List.filter test l)).
Proof.
  revert room. induction l as [|a l IH]; intros [|room]; simpl; try done.
  destruct (test a); simpl; by rewrite IH.
Qed.

Lemma pl_scan_users by_ room l :
  pl_scan by_ 2 room l = take room (map pa (List.filter (λ p, pb p =? by_) l)).
Proof.
  revert room. induction l as [|a l IH]; intros [|room]; simpl; try done.
  destruct (pb a =? by_); simpl; by rewrite IH.
Qed.

Lemma pl_scan_members by_ room l :
  pl_scan by_ 1 room l = take room (map pb (List.filter (λ p, pa p =? by_) l)).
Proof.
  revert room. induction l as [|a l IH]; intros [|room]; simpl; try done.
  destruct (pa a =? by_); simpl; by rewrite IH.
Qed.

Lemma rm_down_app {A} (test : A → bool) l1 l2 :
  rm_down test (length l1) (l1 ++ l2) = List.filter (λ x, negb (test x)) l1 ++ l2.
Proof.
  revert l2. induction l1 as [|x l1 IH] using rev_ind; intros l2; [done|].
  rewrite length_app, Nat.add_comm. cbn [length Nat.add rm_down].
  rewrite <- app_assoc. cbn [app]. rewrite list_lookup_middle by done.
  rewrite List.filter_app. cbn [List.filter]. destruct (test x); cbn [negb].
  - rewrite delete_middle, IH, app_nil_r. done.
  - rewrite (IH (x :: l2)), <- app_assoc. done.
Qed.

Lemma rm_down_filter {A} (test : A → bool) l :
  rm_down test (length l) l = List.filter (λ x, negb (test x)) l.
Proof. by rewrite <- (app_nil_r l) at 2; rewrite rm_down_app, app_nil_r. Qed.

Lemma filter_filter {A} (f g : A → bool) l :
  List.filter f (List.filter g l) = List.filter (λ x, f x && g x) l.
Proof.
  induction l as [|x l IH]; simpl; [done|]. destruct (g x); simpl; rewrite ?andb_true_r, ?andb_false_r;
    [destruct (f x)|]; by rewrite ?IH.
Qed.

Lemma filter_none {A} (f : A → bool) l : (∀ x, f x = false) → List.filter f l = [].
Proof. intros H. induction l as [|x l IH]; simpl; [done|]. by rewrite H. Qed.

Lemma some_ids_answer l m : some_ids (take m l) = ids_answer l m.
Proof. unfold ids_answer. by destruct (take m l). Qed.

(** Deleting rows by one test makes the rows of any test it covers
    disappear, and keeps those it is disjoint from. *)
Lemma filter_rm_down_gone {A} (f test : A → bool) l :
  (∀ x, f x = true → test x = true) → List.filter f (rm_down test (length l) l) = [].
Proof.
  intros H. rewrite rm_down_filter, filter_filter. apply filter_none. intros x.
  destruct (f x) eqn:E; [|done]. by rewrite (H _ E).
Qed.

Lemma filter_rm_down_kept {A} (f test : A → bool) l :
  (∀ x, f x = true → test x = false) → List.filter f (rm_down test (length l) l) = List.filter f l.
Proof.
  intros H. rewrite rm_down_filter, filter_filter. apply List.filter_ext. intros x.
  destruct (f x) eqn:E; [|done]. by rewrite (H _ E).
Qed.

(* ------------------------------------------------------------------ *)
(** ** The view, and the promise of the interface *)

Definition lookup_by {A} (idf : A → Z) (d : da_t A) (i : Z) : option A :=
  da_find_id idf d i ≫= (items d !!.).

Definition mem_view (p : mem_priv_t) : store_view :=
  {| v_policy := lookup_by p_id (policies p);
     v_assigned := λ tt tid, map a3_pid (List.filter (λ a, bool_decide (a3_tt a = tt) && (a3_tid a =? tid))
                                          (items (policy_assignments p)));
     v_user_roles := λ u, map pa (List.filter (λ r, pb r =? u) (items (user_roles p)));
     v_user_groups := λ u, map pa (List.filter (λ r, pb r =? u) (items (user_groups p)));
     v_role_parent := λ r, r_parent_role_id <$> lookup_by r_id (roles p) r;
     v_group_parent := λ g, g_parent_group_id <$> lookup_by g_id (groups p) g |}.

Lemma MK_GETID_lookup {A} (idf : A → Z) arr i p :
  MK_GETID idf arr i p = Ret (found (lookup_by idf (arr p) i), p).
Proof. unfold MK_GETID, lookup_by. by destruct (da_find_id idf (arr p) i). Qed.

#[global] Instance mem_reads now alloc fuel :
  StorageReads (storage_memory_create now alloc fuel) mem_view (λ _, True).
Proof.
  split; eexists; (split; [reflexivity|]).
  - intros. apply MK_GETID_lookup.
  - intros. unfold mem_get_target_policies. by rewrite al_scan_spec, some_ids_answer.
  - intros. unfold mem_get_user_roles, pl_get. by rewrite pl_scan_users, some_ids_answer.
  - intros. unfold mem_get_user_groups, pl_get. by rewrite pl_scan_users, some_ids_answer.
  - intros. unfold mem_role_get_parent. simpl. unfold lookup_by.
    by destruct (da_find_id r_id (roles s) i).
  - intros. unfold mem_group_get_parent. simpl. unfold lookup_by.
    by destruct (da_find_id g_id (groups s) i).
Qed.

(* ------------------------------------------------------------------ *)
(** ** Deletions *)

(** Deleting a user erases every trace of it: no role, group or
    policy assignment of that user is left for a later query to find,
    and the assignments of every other user and of every role and group
    are as before. *)
Theorem mem_user_delete_clean i p p' :
  mem_user_delete i p = Ret (Ok (), p') →
  v_user_roles (mem_view p') i = [] ∧ v_user_groups (mem_view p') i = [] ∧
  v_assigned (mem_view p') POLICY_TARGET_USER i = [] ∧
  (∀ u, u ≠ i → v_user_roles (mem_view p') u = v_user_roles (mem_view p) u ∧
                v_user_groups (mem_view p') u = v_user_groups (mem_view p) u) ∧
  (∀ t u, t ≠ POLICY_TARGET_USER ∨ u ≠ i →
          v_assigned (mem_view p') t u = v_assigned (mem_view p) t u).
Proof.
  unfold mem_user_delete. destruct (da_find_id u_id (users p) i) as [k|]; [|done].
  intros [= <-].
  split_and!; simpl; [by rewrite filter_rm_down_gone..| |].
  - intros u Hu. split; f_equal; apply filter_rm_down_kept; intros x; rewrite !Z.eqb_eq, Z.eqb_neq; lia.
  - intros t u Htu. f_equal. apply filter_rm_down_kept. intros x [Ht Hx]%andb_true_iff.
    reflect_bools. apply andb_false_iff. rewrite bool_decide_eq_false, Z.eqb_neq.
    subst. destruct Htu; [by left|by right].
Qed.

Lemma mem_user_delete_clean_witness :
  let u := sample_user in
  let p := set_users {| items := [u]; cap := 64 |}
             (set_user_roles {| items := [{| pa := 3; pb := 7 |}]; cap := 64 |} mem_open) in
  ∃ p', mem_user_delete 7 p = Ret (Ok (), p') ∧ v_user_roles (mem_view p') 7 = [].
Proof.
  intros u p. eexists. split; [reflexivity|].
  apply (mem_user_delete_clean 7 p). reflexivity.
Defined.

(** Deleting group [g] cleans the wrong column of the membership
    table: every member other than the user whose id happens to be [g]
    still belongs to the deleted group, and the user with id [g] loses
    all of its memberships. *)
Theorem mem_group_delete_wrong_column g p p' :
  mem_group_delete g p = Ret (Ok (), p') →
  (∀ u, u ≠ g → v_user_groups (mem_view p') u = v_user_groups (mem_view p) u) ∧
  v_user_groups (mem_view p') g = [].
Proof.
  unfold mem_group_delete. destruct (da_find_id g_id (groups p) g) as [k|]; [|done].
  intros [= <-]. simpl. split; [|by rewrite filter_rm_down_gone].
  intros u Hu. f_equal. apply filter_rm_down_kept. intros x. rewrite Z.eqb_eq, Z.eqb_neq. lia.
Qed.

Definition sample_group (i : Z) (n : cstr) : group_t :=
  {| g_id := i; g_name := n; g_description := []; g_parent_group_id := 0;
     g_status := GROUP_STATUS_ACTIVE; g_created_at := 0; g_updated_at := 0 |}.

(** Group 5 with member 7, and user 5 in group 9. *)
Lemma mem_group_delete_wrong_column_witness :
  let p := set_groups {| items := [sample_group 5 "eng"; sample_group 9 "ops"]; cap := 64 |}
             (set_user_groups {| items := [{| pa := 5; pb := 7 |}; {| pa := 9; pb := 5 |}];
                                 cap := 64 |} mem_open) in
  ∃ p', mem_group_delete 5 p = Ret (Ok (), p') ∧
        v_user_groups (mem_view p') 7 = [5] ∧ v_user_groups (mem_view p') 5 = [].
Proof.
  intros p. eexists. split; [reflexivity|].
  destruct (mem_group_delete_wrong_column 5 p _ eq_refl) as [H1 H2].
  split; [rewrite H1 by done; reflexivity|exact H2].
Defined.

(* ------------------------------------------------------------------ *)
(** ** Identifiers *)

(** Ids of a table are distinct, positive and below the next one. *)
Definition table_wf {A} (idf : A → Z) (d : da_t A) (next : Z) : Prop :=
  NoDup (map idf (items d)) ∧ Forall (λ x, 0 < idf x < next) (items d).

Record mem_wf (bound : Z) (p : mem_priv_t) : Prop := {
  wf_users : table_wf u_id (users p) (next_uid p);
  wf_roles : table_wf r_id (roles p) (next_rid p);
  wf_groups : table_wf g_id (groups p) (next_gid p);
  wf_policies : table_wf p_id (policies p) (next_pid p);
  wf_clients : table_wf cl_id (oauth_clients p) (next_ocid p);
  wf_bound : Forall (λ n, 0 < n ≤ bound) [next_uid p; next_rid p; next_gid p; next_pid p; next_ocid p]
}.

Lemma table_wf_lookup {A} (idf : A → Z) d next x :
  table_wf idf d next → x ∈ items d → lookup_by idf d (idf x) = Some x.
Proof.
  intros [Hnd _] Hin. unfold lookup_by, da_find_id.
  destruct (find_index (λ y, idf y =? idf x) (items d)) as [k|] eqn:E.
  - apply find_index_Some in E as (y & Hk & Hy & _). reflect_bools. simpl. rewrite Hk. f_equal.
    apply list_elem_of_lookup in Hin as (j & Hj).
    assert (k = j) as ->; [|congruence].
    eapply (NoDup_lookup _ _ _ (idf x) Hnd); change (map ?f ?l) with (f <$> l);
      rewrite list_lookup_fmap; [rewrite Hk|rewrite Hj]; simpl; congruence.
  - apply find_index_None in E. rewrite Forall_forall in E. apply E in Hin.
    apply Z.eqb_neq in Hin. done.
Qed.

Lemma lookup_by_elem {A} (idf : A → Z) d i x :
  lookup_by idf d i = Some x → x ∈ items d ∧ idf x = i.
Proof.
  unfold lookup_by, da_find_id. destruct (find_index _ _) as [k|] eqn:E; [|done].
  apply find_index_Some in E as (y & Hk & Hy & _). reflect_bools. simpl. intros Hx.
  simplify_eq. split; [|congruence]. by eapply list_elem_of_lookup_2.
Qed.

Lemma table_wf_next {A} (idf : A → Z) d n n' : n ≤ n' → table_wf idf d n → table_wf idf d n'.
Proof. intros Hn [H1 H2]. split; [done|]. eapply Forall_impl; [done|]. simpl. lia. Qed.

Lemma grow_add_items {A} alloc fc esz (d : da_t A) x r d' :
  grow_add alloc fc esz d x = (r, d') →
  (r = Ok () ∧ items d' = items d ++ [x]) ∨ (r = Err SSO_ERR_OUT_OF_MEMORY ∧ d' = d).
Proof. unfold grow_add. repeat case_match; intros; simplify_eq; eauto. Qed.

Lemma table_wf_add {A} (idf : A → Z) alloc fc esz d x r d' next :
  grow_add alloc fc esz d x = (r, d') → idf x = next → 0 < next →
  table_wf idf d next → table_wf idf d' (next + 1).
Proof.
  intros [[_ Hi]| [_ ->]]%grow_add_items Hx Hpos Hwf.
  2: { eapply table_wf_next; [|done]. lia. }
  destruct Hwf as [Hnd Hall]. split; rewrite Hi.
  - rewrite map_app. apply NoDup_app. split_and!; [done| |apply NoDup_singleton].
    intros y Hy Hy'. apply list_elem_of_singleton in Hy'. subst y.
    apply list_elem_of_fmap in Hy as (z & Hz & Hin). rewrite Forall_forall in Hall.
    apply Hall in Hin. lia.
  - apply Forall_app. split; [|constructor; [lia|constructor]].
    eapply Forall_impl; [done|]. simpl. lia.
Qed.

Lemma table_wf_set {A} (idf : A → Z) d k o next :
  da_find_id idf d (idf o) = Some k → table_wf idf d next → table_wf idf (da_set k o d) next.
Proof.
  intros (y & Hk & Hy & _)%find_index_Some [Hnd Hall]. reflect_bools. split; cbn [items da_set].
  - change (map idf ?l) with (idf <$> l) in *. rewrite list_fmap_insert, list_insert_id; [done|].
    rewrite list_lookup_fmap, Hk. simpl. by f_equal.
  - apply Forall_insert; [done|]. rewrite Forall_forall in Hall.
    rewrite <- Hy. apply Hall. by eapply list_elem_of_lookup_2.
Qed.

Lemma table_wf_rm {A} (idf : A → Z) d k next : table_wf idf d next → table_wf idf (da_rm k d) next.
Proof.
  intros [Hnd Hall]. split; cbn [items da_rm].
  - eapply sublist_NoDup; [done|]. apply (fmap_sublist idf), sublist_delete.
  - by apply Forall_delete.
Qed.

Create HintDb memops.
#[export] Hint Unfold MK_UPD MK_DEL ASN_ADD pl_add al_add da_add
  mem_user_create mem_user_update mem_user_delete mem_role_create mem_role_update mem_role_delete
  mem_group_create mem_group_update mem_group_delete mem_policy_create mem_policy_update
  mem_policy_delete mem_assign_role_to_user mem_unassign_role_from_user mem_assign_role_to_group
  mem_unassign_role_from_group mem_add_user_to_group mem_remove_user_from_group
  mem_assign_policy mem_unassign_policy mem_save_sms_code mem_delete_sms_code
  mem_oauth_code_create mem_oauth_code_mark_used mem_oauth_code_cleanup
  mem_oauth_client_create mem_oauth_client_update mem_oauth_client_delete
  mem_rt_create mem_rt_revoke mem_rt_revoke_family mem_jti_revoke : memops.

(** One call of an operation that writes, whatever it returns. *)
Inductive mem_step : mem_priv_t → mem_priv_t → Prop :=
| step_user_create alloc u p r p' : mem_user_create alloc u p = Ret (r, p') → mem_step p p'
| step_user_update u p r p' : mem_user_update u p = Ret (r, p') → mem_step p p'
| step_user_delete i p r p' : mem_user_delete i p = Ret (r, p') → mem_step p p'
| step_role_create alloc o p r p' : mem_role_create alloc o p = Ret (r, p') → mem_step p p'
| step_role_update o p r p' : mem_role_update o p = Ret (r, p') → mem_step p p'
| step_role_delete i p r p' : mem_role_delete i p = Ret (r, p') → mem_step p p'
| step_group_create alloc o p r p' : mem_group_create alloc o p = Ret (r, p') → mem_step p p'
| step_group_update o p r p' : mem_group_update o p = Ret (r, p') → mem_step p p'
| step_group_delete i p r p' : mem_group_delete i p = Ret (r, p') → mem_step p p'
| step_policy_create alloc o p r p' : mem_policy_create alloc o p = Ret (r, p') → mem_step p p'
| step_policy_update o p r p' : mem_policy_update o p = Ret (r, p') → mem_step p p'
| step_policy_delete i p r p' : mem_policy_delete i p = Ret (r, p') → mem_step p p'
| step_assign_role_to_user alloc a b p r p' : mem_assign_role_to_user alloc a b p = Ret (r, p') → mem_step p p'
| step_unassign_role_from_user a b p r p' : mem_unassign_role_from_user a b p = Ret (r, p') → mem_step p p'
| step_assign_role_to_group alloc a b p r p' : mem_assign_role_to_group alloc a b p = Ret (r, p') → mem_step p p'
| step_unassign_role_from_group a b p r p' : mem_unassign_role_from_group a b p = Ret (r, p') → mem_step p p'
| step_add_user_to_group alloc a b p r p' : mem_add_user_to_group alloc a b p = Ret (r, p') → mem_step p p'
| step_remove_user_from_group a b p r p' : mem_remove_user_from_group a b p = Ret (r, p') → mem_step p p'
| step_assign_policy alloc a t b p r p' : mem_assign_policy alloc a t b p = Ret (r, p') → mem_step p p'
| step_unassign_policy a t b p r p' : mem_unassign_policy a t b p = Ret (r, p') → mem_step p p'
| step_save_sms_code alloc ph c ex p r p' : mem_save_sms_code alloc ph c ex p = Ret (r, p') → mem_step p p'
| step_delete_sms_code ph p r p' : mem_delete_sms_code ph p = Ret (r, p') → mem_step p p'
| step_oauth_code_create alloc c p r p' : mem_oauth_code_create alloc c p = Ret (r, p') → mem_step p p'
| step_oauth_code_mark_used c p r p' : mem_oauth_code_mark_used c p = Ret (r, p') → mem_step p p'
| step_oauth_code_cleanup now p r p' : mem_oauth_code_cleanup now p = Ret (r, p') → mem_step p p'
| step_oauth_client_create now alloc c p r p' : mem_oauth_client_create now alloc c p = Ret (r, p') → mem_step p p'
| step_oauth_client_update c p r p' : mem_oauth_client_update c p = Ret (r, p') → mem_step p p'
| step_oauth_client_delete c p r p' : mem_oauth_client_delete c p = Ret (r, p') → mem_step p p'
| step_rt_create alloc t p r p' : mem_rt_create alloc t p = Ret (r, p') → mem_step p p'
| step_rt_revoke h p r p' : mem_rt_revoke h p = Ret (r, p') → mem_step p p'
| step_rt_revoke_family u c p r p' : mem_rt_revoke_family u c p = Ret (r, p') → mem_step p p'
| step_jti_revoke alloc j e p r p' : mem_jti_revoke alloc j e p = Ret (r, p') → mem_step p p'.

(** States after [n] writes on a freshly opened store. *)
Inductive mem_reach : nat → mem_priv_t → Prop :=
| reach_open : mem_reach 0 mem_open
| reach_step n p p' : mem_reach n p → mem_step p p' → mem_reach (S n) p'.

Lemma mem_wf_open : mem_wf 1 mem_open.
Proof.
  split; repeat (constructor || split); simpl; lia.
Qed.

Ltac step_cases :=
  repeat match goal with
  | H : context [match ?x with _ => _ end] |- _ => destruct x eqn:?
  | H : Ret _ = Ret _ |- _ => injection H as ? ?; subst
  | H : _ = Ret _ |- _ => discriminate H
  end.

(** The next id, one further. *)
Lemma next_id_bound n b : 0 < n ≤ b → b < 2 ^ 64 - 1 → u64 (n + 1) = n + 1.
Proof. intros. apply u64_small. lia. Qed.

(** Every write leaves a table as it was, or changes it by one of the
    three primitives. *)
Ltac table_cases :=
  first
    [ done
    | by eapply table_wf_set
    | by apply table_wf_rm
    | by eapply table_wf_add; [eassumption|simpl; lia|lia|] ].

Lemma mem_step_wf b p p' :
  mem_step p p' → mem_wf b p → b < 2 ^ 64 - 1 → mem_wf (b + 1) p'.
Proof.
  intros Hstep [Hu Hr Hg Hp Hc Hb] Hlt.
  rewrite !Forall_cons in Hb. destruct Hb as (B1 & B2 & B3 & B4 & B5 & _).
  destruct Hstep as [];
    match goal with H : _ = Ret _ |- _ =>
      autounfold with memops in H; step_cases
    end; (split; simpl; rewrite ?(next_id_bound _ b) by done; [table_cases..|]);
    repeat (constructor; [lia|]); constructor.
Qed.

Lemma mem_reach_wf n p : mem_reach n p → Z.of_nat n < 2 ^ 64 - 1 → mem_wf (Z.of_nat n + 1) p.
Proof.
  induction 1 as [|n p p' _ IH Hs]; intros Hn; [apply mem_wf_open|].
  replace (Z.of_nat (S n) + 1) with ((Z.of_nat n + 1) + 1) by lia.
  eapply mem_step_wf; [done|apply IH; lia|lia].
Qed.

(** In every state reachable from a freshly opened store, whatever
    the operations and their failures, the id of a row identifies it:
    fetching a user, role, group or policy of a table by its id returns
    that row, and fetching any other id is reported as not found. *)
Theorem mem_ids_identify n p :
  mem_reach n p → Z.of_nat n < 2 ^ 64 - 1 →
  (∀ i u, mem_user_get_by_id i p = Ret (Ok u, p) ↔ u ∈ items (users p) ∧ u_id u = i) ∧
  (∀ i r, mem_role_get_by_id i p = Ret (Ok r, p) ↔ r ∈ items (roles p) ∧ r_id r = i) ∧
  (∀ i g, mem_group_get_by_id i p = Ret (Ok g, p) ↔ g ∈ items (groups p) ∧ g_id g = i) ∧
  (∀ i q, mem_policy_get_by_id i p = Ret (Ok q, p) ↔ q ∈ items (policies p) ∧ p_id q = i).
Proof.
  intros Hreach Hn. destruct (mem_reach_wf n p Hreach Hn) as [Hu Hr Hg Hp _ _].
  assert (Hget : ∀ A (idf : A → Z) arr next i x, table_wf idf (arr p) next →
    MK_GETID idf arr i p = Ret (Ok x, p) ↔ x ∈ items (arr p) ∧ idf x = i).
  { intros A idf arr next i x Hwf. rewrite MK_GETID_lookup. split.
    - destruct (lookup_by idf (arr p) i) eqn:E; simpl; [|done]. intros [= <-].
      by apply lookup_by_elem.
    - intros [Hin <-]. by erewrite table_wf_lookup. }
  split_and!; intros; by eapply Hget.
Qed.

Lemma mem_ids_identify_witness :
  ∃ n p, mem_reach n p ∧ mem_user_get_by_id 1 p = Ret (Ok (with_user_id 1 sample_user), p).
Proof.
  set (s1 := set_users {| items := [with_user_id 1 sample_user]; cap := 64 |}
              (set_next_uid 2 mem_open)).
  assert (H : mem_reach 1 s1).
  { eapply reach_step; [constructor|].
    apply (step_user_create (λ _, true) sample_user mem_open (Ok (with_user_id 1 sample_user))).
    reflexivity. }
  exists 1%nat, s1. split; [exact H|].
  apply (mem_ids_identify 1 s1 H); [lia|]. split; [by left|reflexivity].
Defined.

(* ------------------------------------------------------------------ *)
(** ** List queries *)

Lemma list_scan_spec {A} (idf : A → Z) sel offset limit rows matched acc :
  0 ≤ offset → 0 ≤ limit → 0 ≤ matched →
  Z.of_nat (length acc) = Z.max 0 (Z.min (matched - offset) limit) →
  list_scan idf sel offset limit rows matched acc =
  (matched + Z.of_nat (length (List.filter sel rows)),
   acc ++ take (Z.to_nat (limit - Z.of_nat (length acc)))
            (drop (Z.to_nat (offset - matched)) (map idf (List.filter sel rows)))).
Proof.
  intros Ho Hl. revert matched acc. induction rows as [|o rows IH]; intros m acc Hm Hacc;
    cbn [list_scan].
  { simpl. rewrite drop_nil, take_nil, app_nil_r. f_equal. lia. }
  destruct (sel o) eqn:Es; cbn [negb List.filter]; rewrite Es; [|by apply IH].
  cbn [map length]. destruct (Z.ltb_spec m offset) as [Hmo|Hmo].
  - rewrite IH by lia. f_equal; [lia|]. f_equal. f_equal.
    replace (Z.to_nat (offset - m)) with (S (Z.to_nat (offset - (m + 1)))) by lia. done.
  - destruct (Z.leb_spec limit (m - offset)) as [Hlm|Hlm].
    + rewrite IH by lia. f_equal; [lia|].
      replace (Z.to_nat (limit - Z.of_nat (length acc))) with O by lia. done.
    + assert (Hlen : length (acc ++ [idf o]) = S (length acc)) by (rewrite length_app; simpl; lia).
      rewrite IH by (rewrite ?Hlen; lia). rewrite Hlen. f_equal; [lia|].
      replace (Z.to_nat (offset - m)) with O by lia.
      replace (Z.to_nat (offset - (m + 1))) with O by lia.
      replace (Z.to_nat (limit - Z.of_nat (length acc)))
        with (S (Z.to_nat (limit - Z.of_nat (S (length acc))))) by lia.
      rewrite <- app_assoc. done.
Qed.

(** The user list query returns the requested page: skip [offset]
    matching users, then at most [limit] ids in insertion order, with the
    total number of matches; a row matches when its status is the one
    asked for and the text occurs in one of its four fields.  It never
    writes more than [limit] ids. *)
Theorem mem_user_list_page q status offset limit p :
  0 ≤ offset < 2 ^ 31 → 0 ≤ limit < 2 ^ 31 →
  let sel u :=
    ((status =? -1) || (user_status_int (u_status u) =? status)) &&
    (match q with
     | None | Some [] => true
     | Some t => existsb (λ f, if strstr f t then true else false)
                   [u_username u; u_display_name u; u_email u; u_phone u]
     end) in
  let hits := map u_id (List.filter sel (items (users p))) in
  mem_user_list q status offset limit p =
  Ret (Ok (take (Z.to_nat limit) (drop (Z.to_nat offset) hits), Z.of_nat (length hits)), p).
Proof.
  intros Ho Hl sel hits. unfold mem_user_list, MK_LIST.
  rewrite list_scan_spec by (rewrite ?u64_small by lia; simpl; lia).
  rewrite !u64_small by lia. simpl. rewrite !Z.sub_0_r.
  assert (Hsel : ∀ f, (∀ u, f u = sel u) → List.filter f (items (users p)) = List.filter sel (items (users p)))
    by (intros f Hf; by apply List.filter_ext).
  rewrite Hsel; [unfold hits; by rewrite length_map|].
  intros u. unfold sel. by destruct (status =? -1), (user_status_int (u_status u) =? status), q as [[]|].
Qed.

Lemma mem_user_list_page_witness :
  mem_user_list None (-1) 0 10 (set_users {| items := [sample_user]; cap := 64 |} mem_open) =
  Ret (Ok ([7], 1), set_users {| items := [sample_user]; cap := 64 |} mem_open).
Proof. apply (mem_user_list_page None (-1) 0 10); lia. Defined.

(* ------------------------------------------------------------------ *)
(** ** Role inheritance *)

Section Climb.
Context (p : mem_priv_t) (rank : Z → nat).

(** Parents have a smaller rank: the hierarchy has no cycle. *)
Definition acyclic : Prop :=
  ∀ r, r ∈ items (roles p) → r_parent_role_id r ≠ SSO_ID_NONE →
       (rank (r_parent_role_id r) < rank (r_id r))%nat.

(** Reachable through active roles by the parent links. *)
Inductive inherits : Z → Z → Prop :=
| inherits_self i r : active_role p i = Some r → inherits i i
| inherits_up i r j : active_role p i = Some r → r_parent_role_id r ≠ SSO_ID_NONE →
    inherits (r_parent_role_id r) j → inherits i j.

Lemma active_role_elem i r :
  active_role p i = Some r →
  find_index (λ r, r_id r =? i) (items (roles p)) ≫= (items (roles p) !!.) = Some r ∧
  r ∈ items (roles p) ∧ r_id r = i ∧ r_status r = ROLE_STATUS_ACTIVE.
Proof.
  unfold active_role. destruct (find_index _ _ ≫= _) as [r'|] eqn:E; [|done]. cbn [mbind option_bind].
  destruct (bool_decide _) eqn:Es; [|done]. intros [= <-]. split; [done|]. reflect_bools.
  destruct (find_index _ _) as [k|] eqn:Ek; [|done]. simpl in E.
  apply find_index_Some in Ek as (y & Hy & Hid & _). reflect_bools. simplify_eq.
  split_and!; [by eapply list_elem_of_lookup_2|done|done].
Qed.

Lemma add_new_elem i ids j : j ∈ add_new i ids ↔ j = i ∨ j ∈ ids.
Proof.
  unfold add_new. destruct (existsb _ _) eqn:E.
  - apply existsb_exists in E as (y & Hy & Hi). reflect_bools. subst y.
    rewrite <- list_elem_of_In in Hy. set_solver.
  - set_solver.
Qed.

Lemma add_new_NoDup i ids : NoDup ids → NoDup (add_new i ids).
Proof.
  intros Hnd. unfold add_new. destruct (existsb _ _) eqn:E; [done|].
  apply NoDup_app. split_and!; [done| |apply NoDup_singleton].
  intros x Hx ->%list_elem_of_singleton. apply not_true_iff_false in E. apply E.
  apply existsb_exists. exists i. rewrite <- list_elem_of_In, Z.eqb_refl. done.
Qed.

Lemma add_new_length i ids m : (length ids < m)%nat → (length (add_new i ids) ≤ m)%nat.
Proof. intros H. unfold add_new. destruct (existsb _ _); rewrite ?length_app; simpl; lia. Qed.

(** What one climb does: it returns, adds only inherited roles, and all
    of them when the buffer has room. *)
Lemma climb_spec fuel m cur ids r :
  acyclic → active_role p cur = Some r → (rank cur < fuel)%nat →
  NoDup ids → (length ids ≤ m)%nat → cur ∈ ids →
  ∃ ids', climb fuel p m cur ids = Ret ids' ∧ NoDup ids' ∧ (length ids' ≤ m)%nat ∧
    (∀ j, j ∈ ids' → j ∈ ids ∨ inherits cur j) ∧ (∀ j, j ∈ ids → j ∈ ids') ∧
    ((length ids' < m)%nat → ∀ j, inherits cur j → j ∈ ids').
Proof.
  intros Hac. revert cur ids r. induction fuel as [|fuel IH]; intros cur ids r Hact Hf Hnd Hlen Hin;
    [lia|]. cbn [climb].
  destruct (Nat.ltb_spec (length ids) m) as [Hlt|Hge].
  2: { exists ids. split_and!; try done; auto. intros; lia. }
  pose proof (active_role_elem _ _ Hact) as (-> & Hel & Hid & _).
  (* nothing above [cur] *)
  assert (Hstop : (∀ j, inherits cur j → j = cur) →
    ∃ ids', Ret ids = Ret ids' ∧ NoDup ids' ∧ (length ids' ≤ m)%nat ∧
    (∀ j, j ∈ ids' → j ∈ ids ∨ inherits cur j) ∧ (∀ j, j ∈ ids → j ∈ ids') ∧
    ((length ids' < m)%nat → ∀ j, inherits cur j → j ∈ ids')).
  { intros Honly. exists ids. split_and!; try done; auto. intros _ j Hj%Honly. by subst. }
  destruct (Z.eqb_spec (r_parent_role_id r) SSO_ID_NONE) as [Hp0|Hp0].
  { apply Hstop. intros j Hj. inversion Hj; subst; [done|]. congruence. }
  destruct (active_role p (r_parent_role_id r)) as [r'|] eqn:Epar.
  2: { apply Hstop. intros j Hj. inversion Hj as [|? ? ? Ha _ Hup]; subst; [done|].
       rewrite Hact in Ha. simplify_eq. inversion Hup; congruence. }
  destruct (IH (r_parent_role_id r) (add_new (r_parent_role_id r) ids) r') as
    (ids' & -> & Hnd' & Hlen' & Hsub & Hkeep & Hall); [done| | | | |].
  { pose proof (Hac r Hel Hp0). rewrite Hid in *. lia. }
  { by apply add_new_NoDup. }
  { by apply add_new_length. }
  { apply add_new_elem. by left. }
  exists ids'. split_and!; try done.
  - intros j [Hj|Hj]%Hsub; [|right; by eapply inherits_up].
    apply add_new_elem in Hj as [->|]; [|by left]. right. eapply inherits_up; [done..|].
    by eapply inherits_self.
  - intros j Hj. apply Hkeep, add_new_elem. by right.
  - intros Hroom j Hj. inversion Hj as [|? ? ? Ha _ Hup]; subst; [by apply Hkeep, add_new_elem; right|].
    rewrite Hact in Ha. simplify_eq. by apply Hall.
Qed.

Lemma climb_all_spec fuel m dir ids :
  acyclic → (∀ r, r ∈ items (roles p) → (rank (r_id r) < fuel)%nat) →
  NoDup ids → (length ids ≤ m)%nat →
  ∃ ids', climb_all fuel p m dir ids = Ret ids' ∧ NoDup ids' ∧ (length ids' ≤ m)%nat ∧
    (∀ j, j ∈ ids' → j ∈ ids ∨ ∃ i, i ∈ dir ∧ inherits i j) ∧ (∀ j, j ∈ ids → j ∈ ids') ∧
    ((length ids' < m)%nat → ∀ i j, i ∈ dir → inherits i j → j ∈ ids').
Proof.
  intros Hac Hfuel. revert ids. induction dir as [|cur dir IH]; intros ids Hnd Hlen; cbn [climb_all].
  { exists ids. split_and!; try done; auto. intros _ i j Hi. set_solver. }
  destruct (Nat.ltb_spec (length ids) m) as [Hlt|Hge].
  2: { exists ids. split_and!; try done; auto. intros; lia. }
  destruct (active_role p cur) as [r|] eqn:Eact.
  - pose proof (active_role_elem _ _ Eact) as (_ & Hel & Hid & _).
    destruct (climb_spec fuel m cur (add_new cur ids) r) as (ids1 & -> & Hnd1 & Hlen1 & Hs1 & Hk1 & Ha1);
      [done|done|rewrite <- Hid; auto|by apply add_new_NoDup|by apply add_new_length|
       apply add_new_elem; by left|].
    change (mbind ?f (Ret ?x)) with (f x). cbv beta.
    destruct (IH ids1 Hnd1 Hlen1) as (ids2 & -> & Hnd2 & Hlen2 & Hs2 & Hk2 & Ha2).
    exists ids2. split_and!; try done.
    + intros j [Hj|(i & Hi & Hij)]%Hs2; [|right; exists i; set_solver].
      apply Hs1 in Hj as [Hj|Hj]; [|right; exists cur; set_solver].
      apply add_new_elem in Hj as [->|Hj]; [|by left].
      right. exists cur. split; [set_solver|]. by eapply inherits_self.
    + intros j Hj. apply Hk2, Hk1, add_new_elem. by right.
    + intros Hroom i j [->|Hi]%elem_of_cons Hij; [|by eapply Ha2].
      destruct (Nat.lt_ge_cases (length ids1) m) as [Hr1|Hr1]; [by apply Hk2, Ha1|].
      exfalso. assert (length ids1 ≤ length ids2)%nat; [|lia].
      by apply submseteq_length, NoDup_submseteq.
  - destruct (IH ids Hnd Hlen) as (ids2 & -> & Hnd2 & Hlen2 & Hs2 & Hk2 & Ha2).
    exists ids2. split_and!; try done.
    + intros j [Hj|(i & Hi & Hij)]%Hs2; [by left|right; exists i; set_solver].
    + intros Hroom i j [->|Hi]%elem_of_cons Hij; [|by eapply Ha2].
      inversion Hij; congruence.
Qed.
End Climb.

(** When the role hierarchy has no cycle, collecting the roles of a
    user with their ancestors returns, for every fuel above the longest
    chain: no id is repeated, the buffer is not overrun, only active roles
    inherited through active roles from one of the user's first 64 roles
    are listed, and every such role is listed unless the buffer is full. *)
Lemma mem_roles_with_ancestors_correct fuel uid m p rank :
  acyclic p rank → (∀ r, r ∈ items (roles p) → (rank (r_id r) < fuel)%nat) →
  ∃ ids, mem_get_user_roles_with_ancestors fuel uid m p = Ret (some_ids ids, p) ∧
    NoDup ids ∧ (length ids ≤ m)%nat ∧
    (∀ j, j ∈ ids → ∃ i, i ∈ take 64 (v_user_roles (mem_view p) uid) ∧ inherits p i j) ∧
    ((length ids < m)%nat → ∀ i j, i ∈ take 64 (v_user_roles (mem_view p) uid) →
                                   inherits p i j → j ∈ ids).
Proof.
  intros Hac Hfuel. unfold mem_get_user_roles_with_ancestors, pl_get. rewrite pl_scan_users.
  change (map pa _) with (v_user_roles (mem_view p) uid).
  set (dir := take 64 _).
  destruct (climb_all_spec p rank fuel m dir []) as (ids & Hc & Hnd & Hlen & Hs & _ & Ha);
    [done|done|constructor|simpl; lia|].
  assert (Hdir : (dir = [] ∧ ids = []) ∨ dir ≠ []).
  { destruct dir; [left|by right]. split; [done|]. simpl in Hc. by simplify_eq. }
  exists ids. split_and!; [|done|done|intros j [Hj|]%Hs; [set_solver|done]|done].
  destruct Hdir as [[Ed Ei]|Hne]; [by rewrite Ed, Ei|].
  destruct dir; [done|]. by rewrite Hc.
Qed.

Definition sample_role (i : Z) (n : cstr) (par : Z) : role_t :=
  {| r_id := i; r_name := n; r_description := []; r_parent_role_id := par;
     r_status := ROLE_STATUS_ACTIVE; r_created_at := 0; r_updated_at := 0 |}.

(** Role 2 inherits from role 1; user 7 holds role 2. *)
Definition sample_roles (par1 : Z) : mem_priv_t :=
  set_roles {| items := [sample_role 1 "base" par1; sample_role 2 "lead" 1]; cap := 64 |}
    (set_user_roles {| items := [{| pa := 2; pb := 7 |}]; cap := 64 |} mem_open).

(** Nothing stops a role from being its own parent, and then the
    query does not return: the climb from such an active role finds its
    parent again and again without filling the buffer, for every fuel. *)
Theorem mem_roles_with_ancestors_diverges fuel uid m p i r rest :
  v_user_roles (mem_view p) uid = i :: rest → active_role p i = Some r →
  r_parent_role_id r = i → i ≠ SSO_ID_NONE → (2 ≤ m)%nat →
  mem_get_user_roles_with_ancestors fuel uid m p = Diverge.
Proof.
  intros Hv Hact Hpar Hne Hm. unfold mem_get_user_roles_with_ancestors, pl_get.
  rewrite pl_scan_users. change (map pa _) with (v_user_roles (mem_view p) uid). rewrite Hv.
  change (take 64 (i :: rest)) with (i :: take 63 rest). cbn [climb_all length].
  rewrite (proj2 (Nat.ltb_lt 0 m)) by lia. rewrite Hact. change (add_new i []) with [i].
  assert (Hloop : climb fuel p m i [i] = Diverge); [|by rewrite Hloop].
  pose proof (active_role_elem _ _ _ Hact) as (Hfind & _).
  induction fuel as [|fuel IH]; [done|]. cbn [climb length].
  rewrite (proj2 (Nat.ltb_lt 1 m)) by lia. rewrite Hfind, Hpar, (proj2 (Z.eqb_neq _ _) Hne), Hact.
  unfold add_new. simpl. by rewrite Z.eqb_refl.
Qed.

Lemma mem_roles_with_ancestors_diverges_witness :
  mem_get_user_roles_with_ancestors 1000 8 16
    (set_roles {| items := [sample_role 1 "loop" 1]; cap := 64 |}
       (set_user_roles {| items := [{| pa := 1; pb := 8 |}]; cap := 64 |} mem_open)) = Diverge.
Proof.
  apply (mem_roles_with_ancestors_diverges 1000 8 16 _ 1 (sample_role 1 "loop" 1) []);
    [reflexivity|reflexivity|reflexivity|done|lia].
Defined.

(* ------------------------------------------------------------------ *)
(** ** Codes and tokens *)

Lemma alter_first_find {A} (test : A → bool) f l l' :
  alter_first test f l = Some l' → (∀ x, test x = true → test (f x) = true) →
  ∃ x, List.find test l = Some x ∧ List.find test l' = Some (f x).
Proof.
  intros H Hf. revert l' H. induction l as [|x l IH]; intros l'; simpl; [done|].
  destruct (test x) eqn:E.
  - intros [= <-]. exists x. simpl. by rewrite (Hf _ E).
  - destruct (alter_first test f l) as [k|]; [|done]. intros [= <-]. simpl. rewrite E. eauto.
Qed.

Lemma alter_first_None {A} (test : A → bool) f l :
  alter_first test f l = None → List.find test l = None.
Proof.
  induction l as [|x l IH]; simpl; [done|]. destruct (test x); [done|].
  destruct (alter_first test f l); [done|]. auto.
Qed.

Lemma existsb_find {A} (test : A → bool) l x :
  List.find test l = Some x → existsb test l = true.
Proof. intros [Hin Hx]%List.find_some. apply existsb_exists. eauto. Qed.

(** A revoked token id is found revoked until it expires, as long as
    it fits the table's 64-byte field: revoking it stores or refreshes its
    expiry, and the check that follows says so.  A longer id is stored
    truncated, and the check never finds it. *)
Theorem mem_jti_revoke_visible alloc now jti ex p p' :
  now < ex → mem_jti_revoke alloc jti ex p = Ret (Ok (), p') →
  ((length jti < 64)%nat → mem_jti_is_revoked now jti p' = Ret (true, p')) ∧
  ((64 ≤ length jti)%nat → Forall (λ e, (length (rj_jti e) < 64)%nat) (items (revoked_jtis p)) →
   mem_jti_is_revoked now jti p' = Ret (false, p')).
Proof.
  intros Hex. unfold mem_jti_revoke.
  set (test := λ e, strcmp_eq (rj_jti e) jti).
  destruct (alter_first test _ _) as [l|] eqn:E.
  - intros [= <-]. apply alter_first_find in E as (x & Hx & Hx'); [|done].
    split; unfold mem_jti_is_revoked; simpl.
    + intros _. do 2 f_equal. apply List.find_some in Hx' as [Hin Ht].
      apply existsb_exists. eexists. split; [exact Hin|]. apply andb_true_iff. split; [exact Ht|].
      by apply Z.ltb_lt.
    + intros Hlong Hshort. exfalso. apply List.find_some in Hx as [Hin Ht].
      apply strcmp_eq_iff in Ht. rewrite List.Forall_forall in Hshort. apply Hshort in Hin.
      rewrite Ht in Hin. lia.
  - destruct (grow_add _ _ _ _ _) as [r d] eqn:Eg. intros [= -> <-].
    apply grow_add_items in Eg as [[_ Hi]|[? _]]; [|done].
    apply alter_first_None in E.
    split; unfold mem_jti_is_revoked; simpl; rewrite Hi, existsb_app; intros Hlen.
    + rewrite sso_strlcpy_fits by (unfold TOKEN_REVOCATION_STR_LEN; lia). simpl.
      rewrite strcmp_eq_refl, (proj2 (Z.ltb_lt now ex)) by done. by rewrite orb_true_r.
    + intros Hshort. do 2 f_equal. apply orb_false_iff. split.
      * apply not_true_iff_false. intros (e & Hin & Ht)%existsb_exists. reflect_bools.
        apply (List.find_none _ _ E e) in Hin. unfold test in Hin. congruence.
      * simpl. rewrite orb_false_r. apply andb_false_iff. left.
        apply not_true_iff_false. rewrite strcmp_eq_iff. intros Heq.
        pose proof (sso_strlcpy_length (Some jti) TOKEN_REVOCATION_STR_LEN) as Hb.
        rewrite Heq in Hb. unfold TOKEN_REVOCATION_STR_LEN in Hb. lia.
Qed.

Lemma mem_jti_revoke_visible_witness :
  ∃ p', mem_jti_revoke (λ _, true) "tok-1" 100 mem_open = Ret (Ok (), p') ∧
        mem_jti_is_revoked 50 "tok-1" p' = Ret (true, p').
Proof.
  eexists. split; [reflexivity|].
  apply (mem_jti_revoke_visible (λ _, true) 50 "tok-1" 100 mem_open).
  - lia.
  - reflexivity.
  - simpl. lia.
Defined.

(** An authorization code is single-use at the storage level: after
    it is marked used every lookup returns the code with [used = 1], and
    the next cleanup removes it for good, together with the expired codes
    and nothing else. *)
Theorem mem_oauth_code_single_use now code p p' :
  mem_oauth_code_mark_used code p = Ret (Ok (), p') →
  (∃ c, mem_oauth_code_get code p' = Ret (Ok c, p') ∧ oc_code c = code ∧ oc_used c = 1) ∧
  (∃ p'', mem_oauth_code_cleanup now p' = Ret (Ok (), p'') ∧
    ∀ c, c ∈ items (oauth_codes p'') ↔
         c ∈ items (oauth_codes p') ∧ oc_used c = 0 ∧ now < oc_expires_at c).
Proof.
  unfold mem_oauth_code_mark_used. destruct (alter_first _ _ _) as [l|] eqn:E; [|done].
  intros [= <-]. split.
  - apply alter_first_find in E as (x & Hx & Hx'); [|done].
    exists (mark_used x). unfold mem_oauth_code_get. simpl. rewrite Hx'. split_and!; try done.
    apply List.find_some in Hx as [_ Ht]. by apply strcmp_eq_iff in Ht.
  - eexists. split; [reflexivity|]. intros c. simpl.
    rewrite !list_elem_of_In, List.filter_In, andb_true_iff, Z.eqb_eq, Z.ltb_lt. done.
Qed.

Definition sample_code : oauth_auth_code_t :=
  {| oc_code := "abc"; oc_client_id := "app"; oc_user_id := 7; oc_redirect_uri := []; oc_scope := [];
     oc_nonce := []; oc_code_challenge := []; oc_code_challenge_method := []; oc_expires_at := 100;
     oc_used := 0 |}.

Lemma mem_oauth_code_single_use_witness :
  let p := set_oauth_codes {| items := [sample_code]; cap := 16 |} mem_open in
  ∃ p' c, mem_oauth_code_mark_used "abc" p = Ret (Ok (), p') ∧
          mem_oauth_code_get "abc" p' = Ret (Ok c, p') ∧ oc_used c = 1.
Proof.
  intros p. destruct (mem_oauth_code_single_use 50 "abc" p
    (set_oauth_codes {| items := [mark_used sample_code]; cap := 16 |} mem_open) eq_refl)
    as [(c & H1 & _ & H2) _].
  eexists _, c. split; [reflexivity|]. split; [exact H1|exact H2].
Defined.

(** Revoking a family revokes exactly the refresh tokens of that user
    and client: each of them is returned as revoked from then on, and no
    other token changes. *)
Theorem mem_rt_revoke_family_exact uid cid p p' :
  mem_rt_revoke_family uid cid p = Ret (Ok (), p') →
  length (items (refresh_tokens p')) = length (items (refresh_tokens p)) ∧
  ∀ k t, items (refresh_tokens p) !! k = Some t →
    ∃ t', items (refresh_tokens p') !! k = Some t' ∧
      rt_token_hash t' = rt_token_hash t ∧
      (rt_user_id t = uid ∧ rt_client_id t = cid → rt_revoked t' = 1) ∧
      (rt_user_id t ≠ uid ∨ rt_client_id t ≠ cid → t' = t).
Proof.
  intros [= <-]. simpl. split; [by rewrite length_map|].
  intros k t Hk. change (map ?f ?l) with (f <$> l). rewrite list_lookup_fmap, Hk. simpl.
  eexists. split; [done|].
  destruct ((rt_user_id t =? uid) && strcmp_eq (rt_client_id t) cid) eqn:E; split_and!; try done.
  - apply andb_true_iff in E as [E1%Z.eqb_eq E2%strcmp_eq_iff]. naive_solver.
  - intros [<- <-]. by rewrite Z.eqb_refl, strcmp_eq_refl in E.
Qed.

Lemma mem_rt_revoke_family_exact_witness :
  let t := {| rt_token_hash := "h"; rt_user_id := 7; rt_client_id := "app"; rt_expires_at := 100;
              rt_issued_at := 0; rt_revoked := 0 |} in
  let p := set_refresh_tokens {| items := [t]; cap := 16 |} mem_open in
  ∃ p' t', mem_rt_revoke_family 7 "app" p = Ret (Ok (), p') ∧
           items (refresh_tokens p') !! O = Some t' ∧ rt_revoked t' = 1.
Proof.
  intros t p. destruct (mem_rt_revoke_family_exact 7 "app" p _ eq_refl) as [_ H].
  destruct (H O t eq_refl) as (t' & H1 & _ & H2 & _).
  eexists _, t'. split; [reflexivity|]. split; [exact H1|]. apply H2. split; reflexivity.
Defined.
