(* ===== verification/PermCache.v ===== *)
(** * Caches of the permission engine (src/permission.c)

    Three caches live in [struct permission_engine]: the compiled rules,
    an open-addressing table indexed by policy id; L1, the policies
    resolved for a user; L2, the decision for a user and a hash of the
    parameters.  Compiled rules are of an abstract type [C] here; the
    engine instantiates it. *)

From S2P Require Import Prelude CLib Types.

Definition MAX_POLICY_CACHE : nat := 256.
Definition RESULT_CACHE_SIZE : nat := 1024.
Definition POLICY_RES_CACHE_SIZE : nat := 128.

(** An empty slot has [policy_id] 0. *)
Record policy_cache_entry_t (C : Type) := {
  pc_policy_id : Z; pc_compiled : option C; pc_strategy_type : perm_strategy_type_t
}.
Arguments Build_policy_cache_entry_t {C} _ _ _.
Arguments pc_policy_id {C} _.
Arguments pc_compiled {C} _.
Arguments pc_strategy_type {C} _.

Record policy_res_cache_entry_t := {
  l1_user_id : Z; l1_policies : list policy_t; l1_timestamp : Z; l1_valid : bool
}.
Record result_cache_entry_t := {
  l2_user_id : Z; l2_params_hash : Z; l2_allowed : bool; l2_timestamp : Z; l2_valid : bool
}.

Record perm_caches (C : Type) := {
  cache : list (policy_cache_entry_t C); cache_count : Z;
  res_cache : list policy_res_cache_entry_t; result_cache : list result_cache_entry_t
}.
Arguments Build_perm_caches {C} _ _ _ _.
Arguments cache {C} _.
Arguments cache_count {C} _.
Arguments res_cache {C} _.
Arguments result_cache {C} _.

(** [calloc]: every byte zero. *)
Definition empty_slot {C} : policy_cache_entry_t C :=
  {| pc_policy_id := 0; pc_compiled := None; pc_strategy_type := PERM_STRATEGY_FUNCTIONAL |}.
Definition empty_caches {C} : perm_caches C :=
  {| cache := replicate MAX_POLICY_CACHE empty_slot; cache_count := 0;
     res_cache := replicate POLICY_RES_CACHE_SIZE
       {| l1_user_id := 0; l1_policies := []; l1_timestamp := 0; l1_valid := false |};
     result_cache := replicate RESULT_CACHE_SIZE
       {| l2_user_id := 0; l2_params_hash := 0; l2_allowed := false; l2_timestamp := 0;
          l2_valid := false |} |}.

(** [hash_params]: DJB2 over the bytes of the params union. *)
Definition hash_params (ctx : eval_context) : Z :=
  fold_left (λ h b, u32 (u32 (u32 (Z.shiftl h 5) + h) + ord b)) (ec_params ctx) 5381.

Section RuleCache.
Context {C : Type}.

(** [policy_id % MAX_POLICY_CACHE] and [(idx + 1) % MAX_POLICY_CACHE]. *)
Definition home (policy_id : Z) : nat := Z.to_nat (policy_id mod 256).
Definition next_slot (idx : nat) : nat := (idx + 1) mod MAX_POLICY_CACHE.

Definition slot (l : list (policy_cache_entry_t C)) (i : nat) : policy_cache_entry_t C :=
  default empty_slot (l !! i).

(** The probe loop of [perm_engine_get_cached_rule]; [n] slots remain
    before the index is back at its start. *)
Fixpoint probe_get (n : nat) (l : list (policy_cache_entry_t C)) (policy_id : Z) (idx : nat)
  : option C :=
  match n with
  | O => None
  | S n' =>
      if pc_policy_id (slot l idx) =? policy_id then pc_compiled (slot l idx)
      else if pc_policy_id (slot l idx) =? 0 then None
      else probe_get n' l policy_id (next_slot idx)
  end.

Definition perm_engine_get_cached_rule (e : perm_caches C) (policy_id : Z) : option C :=
  if cache_count e =? 0 then None
  else probe_get MAX_POLICY_CACHE (cache e) policy_id (home policy_id).

(** The slot [perm_engine_cache_rule] writes. *)
Fixpoint probe_put (n : nat) (l : list (policy_cache_entry_t C)) (policy_id : Z) (idx : nat)
  : option nat :=
  match n with
  | O => None
  | S n' =>
      if (pc_policy_id (slot l idx) =? 0) || (pc_policy_id (slot l idx) =? policy_id)
      then Some idx
      else probe_put n' l policy_id (next_slot idx)
  end.

Definition perm_engine_cache_rule (e : perm_caches C) (policy_id : Z) (type : perm_strategy_type_t)
    (compiled : option C) : perm_caches C :=
  if Z.of_nat MAX_POLICY_CACHE <=? cache_count e then e
  else
    match probe_put MAX_POLICY_CACHE (cache e) policy_id (home policy_id) with
    | None => e
    | Some idx =>
        let is_new := pc_policy_id (slot (cache e) idx) =? 0 in
        {| cache := <[idx := {| pc_policy_id := policy_id; pc_compiled := compiled;
                                pc_strategy_type := type |}]> (cache e);
           cache_count := if is_new then cache_count e + 1 else cache_count e;
           res_cache := res_cache e; result_cache := result_cache e |}
    end.

(** The slot [perm_engine_cache_invalidate_policy] empties. *)
Fixpoint probe_find (n : nat) (l : list (policy_cache_entry_t C)) (policy_id : Z) (idx : nat)
  : option nat :=
  match n with
  | O => None
  | S n' =>
      if pc_policy_id (slot l idx) =? policy_id then Some idx
      else if pc_policy_id (slot l idx) =? 0 then None
      else probe_find n' l policy_id (next_slot idx)
  end.

(** Only [policy_id] is reset; the other members keep their value. *)
Definition clear_slot (s : policy_cache_entry_t C) : policy_cache_entry_t C :=
  {| pc_policy_id := 0; pc_compiled := pc_compiled s; pc_strategy_type := pc_strategy_type s |}.

Definition l1_clear (r : policy_res_cache_entry_t) : policy_res_cache_entry_t :=
  {| l1_user_id := l1_user_id r; l1_policies := l1_policies r; l1_timestamp := l1_timestamp r;
     l1_valid := false |}.
Definition l2_clear (r : result_cache_entry_t) : result_cache_entry_t :=
  {| l2_user_id := l2_user_id r; l2_params_hash := l2_params_hash r; l2_allowed := l2_allowed r;
     l2_timestamp := l2_timestamp r; l2_valid := false |}.

Definition perm_engine_cache_invalidate_user (e : perm_caches C) (user_id : Z) : perm_caches C :=
  {| cache := cache e; cache_count := cache_count e;
     res_cache := map (λ r, if l1_valid r && (l1_user_id r =? user_id) then l1_clear r else r)
                      (res_cache e);
     result_cache := map (λ r, if l2_valid r && (l2_user_id r =? user_id) then l2_clear r else r)
                         (result_cache e) |}.

Definition perm_engine_cache_invalidate_policy (e : perm_caches C) (policy_id : Z) : perm_caches C :=
  let '(l, n) :=
    match probe_find MAX_POLICY_CACHE (cache e) policy_id (home policy_id) with
    | Some idx => (<[idx := clear_slot (slot (cache e) idx)]> (cache e), u64 (cache_count e - 1))
    | None => (cache e, cache_count e)
    end in
  {| cache := l; cache_count := n;
     res_cache := map l1_clear (res_cache e); result_cache := map l2_clear (result_cache e) |}.

Definition perm_engine_cache_invalidate_all (e : perm_caches C) : perm_caches C :=
  {| cache := map (λ s, if pc_policy_id s =? 0 then s else clear_slot s) (cache e); cache_count := 0;
     res_cache := map l1_clear (res_cache e); result_cache := map l2_clear (result_cache e) |}.

End RuleCache.

(* ================================================================== *)
(** ** The compiled-rule table *)

Section RuleCacheFacts.
Context {C : Type}.
Implicit Types (l : list (policy_cache_entry_t C)) (e : perm_caches C).

(** The slot [d] steps after the home slot of an id. *)
Definition nth_slot (id : Z) (d : nat) : nat := (home id + d) mod MAX_POLICY_CACHE.
Definition occupied (s : policy_cache_entry_t C) : bool := negb (pc_policy_id s =? 0).

(** Probing for [id] passes the first [d] slots: they hold other ids. *)
Definition passes l (id : Z) (d : nat) : Prop :=
  ∀ k, (k < d)%nat → pc_policy_id (slot l (nth_slot id k)) ≠ 0 ∧
                     pc_policy_id (slot l (nth_slot id k)) ≠ id.

(** Every stored id is reachable from its home slot, and the counter is
    right. *)
Record cache_inv e : Prop := {
  inv_length : length (cache e) = MAX_POLICY_CACHE;
  inv_reach : ∀ i s, cache e !! i = Some s → pc_policy_id s ≠ 0 →
    ∃ d, (d < MAX_POLICY_CACHE)%nat ∧ i = nth_slot (pc_policy_id s) d ∧
         passes (cache e) (pc_policy_id s) d;
  inv_count : cache_count e = Z.of_nat (length (List.filter occupied (cache e)))
}.

(** The rule stored under an id. *)
Definition stored e (id : Z) : option C :=
  List.find (λ s, pc_policy_id s =? id) (cache e) ≫= pc_compiled.

Lemma nth_slot_lt id d : (nth_slot id d < MAX_POLICY_CACHE)%nat.
Proof. apply Nat.mod_upper_bound. done. Qed.

Lemma nth_slot_0 id : nth_slot id 0 = home id.
Proof.
  unfold nth_slot, home, MAX_POLICY_CACHE. rewrite Nat.add_0_r. apply Nat.mod_small.
  pose proof (Z.mod_pos_bound id 256). lia.
Qed.

Lemma nth_slot_S id d : next_slot (nth_slot id d) = nth_slot id (S d).
Proof.
  unfold next_slot, nth_slot. rewrite Nat.Div0.add_mod_idemp_l. f_equal. lia.
Qed.

Lemma nth_slot_inj id d1 d2 :
  (d1 < MAX_POLICY_CACHE)%nat → (d2 < MAX_POLICY_CACHE)%nat →
  nth_slot id d1 = nth_slot id d2 → d1 = d2.
Proof.
  unfold nth_slot, MAX_POLICY_CACHE. intros H1 H2 H.
  pose proof (Nat.div_mod_eq (home id + d1) 256). pose proof (Nat.div_mod_eq (home id + d2) 256). lia.
Qed.

Lemma nth_slot_onto id i :
  (i < MAX_POLICY_CACHE)%nat → ∃ d, (d < MAX_POLICY_CACHE)%nat ∧ i = nth_slot id d.
Proof.
  intros Hi. pose proof (Z.mod_pos_bound id 256 ltac:(lia)) as Hb.
  assert (Hh : (home id < 256)%nat) by (unfold home; lia).
  unfold MAX_POLICY_CACHE in *. exists ((i + 256 - home id) mod 256)%nat.
  split; [by apply Nat.mod_upper_bound|]. unfold nth_slot, MAX_POLICY_CACHE.
  rewrite Nat.Div0.add_mod_idemp_r. replace (home id + (i + 256 - home id))%nat with (i + 1 * 256)%nat by lia.
  rewrite Nat.Div0.mod_add. by rewrite Nat.mod_small.
Qed.

Lemma slot_Some l i s : l !! i = Some s → slot l i = s.
Proof. intros H. unfold slot. by rewrite H. Qed.

Lemma slot_lookup l i : (i < length l)%nat → l !! i = Some (slot l i).
Proof. intros [s Hs]%lookup_lt_is_Some. by rewrite Hs, (slot_Some _ _ _ Hs). Qed.

Lemma probe_get_hit l id n k d :
  (k ≤ d < k + n)%nat → (∀ j, (k ≤ j < d)%nat → pc_policy_id (slot l (nth_slot id j)) ≠ 0 ∧
    pc_policy_id (slot l (nth_slot id j)) ≠ id) →
  pc_policy_id (slot l (nth_slot id d)) = id →
  probe_get n l id (nth_slot id k) = pc_compiled (slot l (nth_slot id d)).
Proof.
  revert k. induction n as [|n IH]; intros k Hk Hpass Hid; [lia|]. cbn [probe_get].
  destruct (decide (k = d)) as [->|Hne]; [by rewrite Hid, Z.eqb_refl|].
  destruct (Hpass k) as [H0 H1]; [lia|].
  rewrite (proj2 (Z.eqb_neq _ _) H0), (proj2 (Z.eqb_neq _ _) H1), nth_slot_S.
  apply IH; [lia| |done]. intros. apply Hpass. lia.
Qed.

Lemma probe_get_miss l id n k :
  (∀ i, pc_policy_id (slot l i) ≠ id) → probe_get n l id k = None.
Proof.
  intros H. revert k. induction n as [|n IH]; intros k; [done|]. cbn [probe_get].
  rewrite (proj2 (Z.eqb_neq _ _) (H k)). by destruct (_ =? 0).
Qed.

(** An id sits in one slot only. *)
Lemma inv_unique e i j s t :
  cache_inv e → cache e !! i = Some s → cache e !! j = Some t →
  pc_policy_id s = pc_policy_id t → pc_policy_id s ≠ 0 → i = j.
Proof.
  intros He Hi Hj Heq Hne.
  destruct (inv_reach e He i s Hi Hne) as (d & Hd & Ei & Hp).
  destruct (inv_reach e He j t Hj ltac:(congruence)) as (d' & Hd' & Ej & Hp').
  rewrite <- Heq in *. destruct (Nat.lt_trichotomy d d') as [Hlt|[->|Hlt]]; [|congruence|].
  - destruct (Hp' d Hlt) as [_ Hc]. rewrite <- Ei, (slot_Some _ _ _ Hi) in Hc. done.
  - destruct (Hp d' Hlt) as [_ Hc]. rewrite <- Ej, (slot_Some _ _ _ Hj) in Hc. congruence.
Qed.

Lemma find_stored e id i s :
  cache_inv e → cache e !! i = Some s → pc_policy_id s = id → id ≠ 0 → stored e id = pc_compiled s.
Proof.
  intros He Hi Hid Hne. unfold stored.
  destruct (List.find (λ s, pc_policy_id s =? id) (cache e)) as [t|] eqn:E.
  - apply List.find_some in E as [Hin Ht]. reflect_bools.
    rewrite <- list_elem_of_In in Hin. apply list_elem_of_lookup in Hin as (j & Hj).
    assert (j = i) as ->; [|simpl; congruence].
    eapply inv_unique; [done|exact Hj|exact Hi|congruence|congruence].
  - apply list_elem_of_lookup_2, list_elem_of_In, (List.find_none _ _ E) in Hi.
    apply Z.eqb_neq in Hi. done.
Qed.

Lemma stored_None e id :
  (∀ i s, cache e !! i = Some s → pc_policy_id s ≠ id) → stored e id = None.
Proof.
  intros H. unfold stored. destruct (List.find _ _) as [t|] eqn:E; [|done].
  apply List.find_some in E as [Hin Ht]. reflect_bools.
  rewrite <- list_elem_of_In in Hin. apply list_elem_of_lookup in Hin as (j & Hj).
  by apply H in Hj.
Qed.

(** Under the invariant, the probe finds exactly what is stored. *)
Lemma get_cached_rule_stored e id :
  cache_inv e → id ≠ 0 → perm_engine_get_cached_rule e id = stored e id.
Proof.
  intros He Hne. unfold perm_engine_get_cached_rule.
  destruct (List.find (λ s, pc_policy_id s =? id) (cache e)) as [s|] eqn:E.
  - apply List.find_some in E as [Hin Hs]. reflect_bools.
    assert (Hc : cache_count e ≠ 0).
    { rewrite (inv_count e He). intros Hz. assert (Hin' : List.In s (List.filter occupied (cache e))).
      { apply List.filter_In. split; [done|]. unfold occupied. rewrite Hs.
        by rewrite (proj2 (Z.eqb_neq _ _) Hne). }
      destruct (List.filter occupied (cache e)); [done|]. simpl in Hz. lia. }
    rewrite (proj2 (Z.eqb_neq _ _) Hc).
    rewrite <- list_elem_of_In in Hin. apply list_elem_of_lookup in Hin as (i & Hi).
    destruct (inv_reach e He i s Hi ltac:(congruence)) as (d & Hd & Ei & Hp). rewrite Hs in *.
    rewrite (find_stored e id i s He Hi Hs Hne), <- nth_slot_0.
    rewrite (probe_get_hit _ _ _ _ d); [|lia| |].
    + by rewrite <- Ei, (slot_Some _ _ _ Hi).
    + intros j Hj. apply Hp. lia.
    + by rewrite <- Ei, (slot_Some _ _ _ Hi).
  - assert (Hall : ∀ i s, cache e !! i = Some s → pc_policy_id s ≠ id).
    { intros i s Hi. apply list_elem_of_lookup_2, list_elem_of_In, (List.find_none _ _ E) in Hi.
      by apply Z.eqb_neq in Hi. }
    rewrite stored_None by done. destruct (cache_count e =? 0); [done|].
    apply probe_get_miss. intros i. unfold slot. destruct (cache e !! i) eqn:Ei; [by eapply Hall|].
    simpl. congruence.
Qed.

Lemma probe_put_spec l id n k :
  passes l id k → (k + n ≤ MAX_POLICY_CACHE)%nat →
  match probe_put n l id (nth_slot id k) with
  | Some i => ∃ d, (k ≤ d < k + n)%nat ∧ i = nth_slot id d ∧ passes l id d ∧
      (pc_policy_id (slot l i) = 0 ∨ pc_policy_id (slot l i) = id)
  | None => passes l id (k + n)
  end.
Proof.
  revert k. induction n as [|n IH]; intros k Hp Hn; cbn [probe_put].
  { by rewrite Nat.add_0_r. }
  destruct (Z.eqb_spec (pc_policy_id (slot l (nth_slot id k))) 0) as [H0|H0]; cbn [orb].
  { exists k. split_and!; auto; lia. }
  destruct (Z.eqb_spec (pc_policy_id (slot l (nth_slot id k))) id) as [H1|H1].
  { exists k. split_and!; auto; lia. }
  rewrite nth_slot_S. assert (Hp' : passes l id (S k)).
  { intros j Hj. destruct (decide (j = k)) as [->|]; [done|]. apply Hp. lia. }
  specialize (IH (S k) Hp' ltac:(lia)). destruct (probe_put n l id (nth_slot id (S k))).
  - destruct IH as (d & Hd & Hrest). exists d. split; [lia|done].
  - by replace (k + S n)%nat with (S k + n)%nat by lia.
Qed.

Lemma filter_insert_length (f : policy_cache_entry_t C → bool) l i s t :
  l !! i = Some s →
  Z.of_nat (length (List.filter f (<[i := t]> l))) =
  Z.of_nat (length (List.filter f l)) + (if f t then 1 else 0) - (if f s then 1 else 0).
Proof.
  intros Hi. rewrite (insert_take_drop l i t) by (by eapply lookup_lt_Some).
  rewrite <- (take_drop_middle l i s Hi) at 3. rewrite !List.filter_app. cbn [List.filter].
  destruct (f s), (f t); rewrite !length_app; cbn [length]; lia.
Qed.

Lemma occupied_all l : (∀ i s, l !! i = Some s → pc_policy_id s ≠ 0) →
  length (List.filter occupied l) = length l.
Proof.
  induction l as [|s l IH]; intros H; [done|]. cbn [List.filter].
  unfold occupied at 1. rewrite (proj2 (Z.eqb_neq _ _) (H O s eq_refl)). cbn. f_equal. apply IH.
  intros i t Hi. by apply (H (S i) t).
Qed.

Lemma slot_insert l i j t :
  (i < length l)%nat → slot (<[i := t]> l) j = if decide (i = j) then t else slot l j.
Proof.
  intros Hi. unfold slot. destruct (decide (i = j)) as [->|Hne].
  - by rewrite list_lookup_insert_eq.
  - by rewrite list_lookup_insert_ne.
Qed.

(** Storing a rule while the table has room puts it in one slot, which was
    free or held the same id. *)
Lemma cache_rule_slot e id type c :
  cache_inv e → id ≠ 0 → cache_count e < Z.of_nat MAX_POLICY_CACHE →
  ∃ d s, (d < MAX_POLICY_CACHE)%nat ∧ passes (cache e) id d ∧
    cache e !! nth_slot id d = Some s ∧ (pc_policy_id s = 0 ∨ pc_policy_id s = id) ∧
    cache (perm_engine_cache_rule e id type c) =
      <[nth_slot id d := {| pc_policy_id := id; pc_compiled := c; pc_strategy_type := type |}]> (cache e) ∧
    cache_count (perm_engine_cache_rule e id type c) =
      cache_count e + (if pc_policy_id s =? 0 then 1 else 0).
Proof.
  intros He Hne Hroom. unfold perm_engine_cache_rule.
  rewrite (proj2 (Z.leb_gt _ _) Hroom), <- nth_slot_0.
  pose proof (probe_put_spec (cache e) id MAX_POLICY_CACHE 0) as Hput.
  destruct (probe_put _ _ _ _) as [i|].
  - destruct Hput as (d & Hd & -> & Hp & Hid); [intros ? ?; lia|lia|].
    exists d, (slot (cache e) (nth_slot id d)). split_and!; [lia|done| |done|done|].
    + apply slot_lookup. rewrite (inv_length e He). apply nth_slot_lt.
    + simpl. destruct (_ =? 0); lia.
  - exfalso. assert (Hfull : passes (cache e) id MAX_POLICY_CACHE).
    { apply Hput; [intros ? ?; lia|lia]. }
    rewrite (inv_count e He), occupied_all, (inv_length e He) in Hroom; [lia|].
    intros i s Hi. destruct (nth_slot_onto id i) as (d & Hd & ->).
    { rewrite <- (inv_length e He). by eapply lookup_lt_Some. }
    rewrite <- (slot_Some _ _ _ Hi). by apply Hfull.
Qed.

Lemma cache_rule_inv e id type c :
  cache_inv e → id ≠ 0 → cache_count e < Z.of_nat MAX_POLICY_CACHE →
  cache_inv (perm_engine_cache_rule e id type c).
Proof.
  intros He Hne Hroom.
  destruct (cache_rule_slot e id type c He Hne Hroom)
    as (d & s & Hd & Hp & Hs & Hfree & Hcache & Hcount).
  set (new := {| pc_policy_id := id; pc_compiled := c; pc_strategy_type := type |}) in *.
  assert (Hlen : (nth_slot id d < length (cache e))%nat)
    by (rewrite (inv_length e He); apply nth_slot_lt).
  split; rewrite Hcache.
  - by rewrite length_insert, (inv_length e He).
  - intros i t Hi Ht. rewrite list_lookup_insert in Hi. case_decide as Hdec.
    + destruct Hdec as [<- _]. simplify_eq. exists d. split_and!; [done..|].
      intros k Hk. rewrite slot_insert by done. case_decide as Hk'; [|by apply Hp].
      apply nth_slot_inj in Hk'; [lia|lia|lia].
    + destruct (inv_reach e He i t Hi Ht) as (dt & Hdt & Ei & Hpt).
      exists dt. split_and!; [done..|]. intros k Hk. rewrite slot_insert by done.
      case_decide as Hk'; [|by apply Hpt]. simpl. split; [done|]. intros Heq.
      (* the slot just written is on the path of the same id *)
      rewrite <- Heq in *. destruct (Hpt k Hk) as [H0 H1]. rewrite <- Hk', (slot_Some _ _ _ Hs) in H0, H1.
      destruct Hfree; congruence.
  - assert (Hn : occupied new = true) by (unfold occupied; simpl; by rewrite (proj2 (Z.eqb_neq _ _) Hne)).
    rewrite Hcount, (inv_count e He), (filter_insert_length _ _ _ _ _ Hs), Hn.
    unfold occupied at 3. destruct (pc_policy_id s =? 0); simpl; lia.
Qed.

Lemma cache_rule_map e id type c :
  cache_inv e → id ≠ 0 → cache_count e < Z.of_nat MAX_POLICY_CACHE →
  let e' := perm_engine_cache_rule e id type (Some c) in
  cache_inv e' ∧ perm_engine_get_cached_rule e' id = Some c ∧
  ∀ id', id' ≠ 0 → id' ≠ id →
    perm_engine_get_cached_rule e' id' = perm_engine_get_cached_rule e id'.
Proof.
  intros He Hne Hroom e'.
  assert (Hinv : cache_inv e') by by apply cache_rule_inv.
  destruct (cache_rule_slot e id type (Some c) He Hne Hroom)
    as (d & s & Hd & Hp & Hs & Hfree & Hcache & _). fold e' in Hcache.
  set (new := {| pc_policy_id := id; pc_compiled := Some c; pc_strategy_type := type |}) in *.
  assert (Hnew : cache e' !! nth_slot id d = Some new)
    by (rewrite Hcache; apply list_lookup_insert_eq; by eapply lookup_lt_Some).
  split_and!; [done| |].
  - rewrite get_cached_rule_stored by done. by rewrite (find_stored e' id _ new Hinv Hnew).
  - intros id' Hne' Hdiff. rewrite !get_cached_rule_stored by done.
    destruct (List.find (λ s, pc_policy_id s =? id') (cache e)) as [t|] eqn:E.
    + apply List.find_some in E as [Hin Ht]. reflect_bools.
      rewrite <- list_elem_of_In in Hin. apply list_elem_of_lookup in Hin as (i & Hi).
      rewrite (find_stored e id' i t), (find_stored e' id' i t); try done.
      rewrite Hcache, list_lookup_insert_ne; [done|]. intros <-. rewrite Hs in Hi. simplify_eq.
      destruct Hfree; congruence.
    + assert (Hno : ∀ i t, cache e !! i = Some t → pc_policy_id t ≠ id').
      { intros i t Hi. apply list_elem_of_lookup_2, list_elem_of_In, (List.find_none _ _ E) in Hi.
        by apply Z.eqb_neq in Hi. }
      rewrite !stored_None; [done|exact Hno|].
      intros i t Hi. rewrite Hcache, list_lookup_insert in Hi. case_decide; [|by eapply Hno].
      simplify_eq. simpl. congruence.
Qed.

(** As long as rules are only added, the open-addressing table is a
    map: after caching any rules with distinct ids that fit, whatever
    slots they collide on, each is found under its id, and the rules of
    all other ids are found as before. *)
Theorem cache_rule_correct e (rules : list (Z * perm_strategy_type_t * C)) :
  cache_inv e → NoDup (map (λ r, r.1.1) rules) → Forall (λ r, r.1.1 ≠ 0) rules →
  cache_count e + Z.of_nat (length rules) ≤ Z.of_nat MAX_POLICY_CACHE →
  let e' := fold_left (λ e r, perm_engine_cache_rule e r.1.1 r.1.2 (Some r.2)) rules e in
  cache_inv e' ∧ (∀ r, r ∈ rules → perm_engine_get_cached_rule e' r.1.1 = Some r.2) ∧
  ∀ id', id' ≠ 0 → id' ∉ map (λ r, r.1.1) rules →
    perm_engine_get_cached_rule e' id' = perm_engine_get_cached_rule e id'.
Proof.
  revert e. induction rules as [|[[i t] c] rules IH]; intros e He Hnd Hnz Hroom e'.
  { split_and!; [done| |done]. set_solver. }
  cbn [map fst snd length] in *. apply NoDup_cons in Hnd as [Hni Hnd].
  apply Forall_cons in Hnz as [Hi Hnz]. cbn [fst] in Hi.
  destruct (cache_rule_map e i t c He Hi ltac:(lia)) as (He1 & Hget1 & Hoth1).
  set (e1 := perm_engine_cache_rule e i t (Some c)) in *.
  assert (Hc1 : cache_count e1 ≤ cache_count e + 1).
  { destruct (cache_rule_slot e i t (Some c) He Hi ltac:(lia)) as (? & s & _ & _ & _ & _ & _ & Hn).
    fold e1 in Hn. rewrite Hn. destruct (_ =? 0); lia. }
  destruct (IH e1 He1 Hnd Hnz ltac:(lia)) as (He2 & Hget2 & Hoth2).
  split_and!; [exact He2| |].
  - intros r [->|Hr]%elem_of_cons; [|by apply Hget2]. cbn [fst snd].
    etransitivity; [by apply Hoth2|]. exact Hget1.
  - intros id' Hne Hnin. apply not_elem_of_cons in Hnin as [Hd Hnin].
    etransitivity; [by apply Hoth2|]. by apply Hoth1.
Qed.

Lemma empty_caches_inv : cache_inv (empty_caches (C := C)).
Proof.
  split; [done| |by vm_compute].
  intros i s Hi%list_elem_of_lookup_2. cbn [cache empty_caches] in Hi. apply elem_of_replicate in Hi as [-> _]. done.
Qed.

Lemma filter_free l :
  (∀ i s, l !! i = Some s → pc_policy_id s = 0) → List.filter occupied l = [].
Proof.
  induction l as [|s l IH]; intros H; [done|]. cbn [List.filter]. unfold occupied at 1.
  rewrite (H O s eq_refl). cbn. apply IH. intros i t Hi. by apply (H (S i) t).
Qed.

(** Dropping every rule leaves a consistent, empty table. *)
Lemma invalidate_all_inv e :
  cache_inv e → cache_inv (perm_engine_cache_invalidate_all e) ∧
  ∀ id, id ≠ 0 → perm_engine_get_cached_rule (perm_engine_cache_invalidate_all e) id = None.
Proof.
  intros He. split; [|done].
  assert (Hz : ∀ i s, cache (perm_engine_cache_invalidate_all e) !! i = Some s → pc_policy_id s = 0).
  { intros i s Hi. simpl in Hi. change (map ?f ?l) with (f <$> l) in Hi.
    rewrite list_lookup_fmap in Hi. destruct (cache e !! i) as [t|]; [|done]. simpl in Hi.
    destruct (Z.eqb_spec (pc_policy_id t) 0); by simplify_eq. }
  split.
  - simpl. rewrite length_map. apply (inv_length e He).
  - intros i s Hi Hne. by apply Hz in Hi.
  - by rewrite (filter_free _ Hz).
Qed.
End RuleCacheFacts.

Lemma cache_rule_correct_witness :
  let rules := [(1, PERM_STRATEGY_RBAC, true); (257, PERM_STRATEGY_API, false)] in
  let e := fold_left (λ e r, perm_engine_cache_rule e r.1.1 r.1.2 (Some r.2)) rules empty_caches in
  perm_engine_get_cached_rule e 257 = Some false ∧ perm_engine_get_cached_rule e 513 = None.
Proof.
  intros rules e. destruct (cache_rule_correct (C := bool) empty_caches rules) as (_ & H1 & H2).
  - apply empty_caches_inv.
  - apply (bool_decide_unpack _). reflexivity.
  - by repeat constructor.
  - done.
  - split; [apply (H1 (257, PERM_STRATEGY_API, false)); by right; left|].
    etransitivity; [apply H2; [done|]|reflexivity]. apply (bool_decide_unpack _). reflexivity.
Defined.

(** Invalidation does not keep that up.  Policies 1 and 257 share a
    home slot; caching both, updating 1, re-evaluating 257, updating 257
    and re-evaluating 1 leaves the rule compiled from the first version
    of policy 257 in the table: the lookup for 257 returns it although
    the policy was invalidated since. *)
Theorem invalidate_policy_stale {C} (a b b' a' : C) t :
  let e1 := perm_engine_cache_rule empty_caches 1 t (Some a) in
  let e2 := perm_engine_cache_rule e1 257 t (Some b) in
  let e3 := perm_engine_cache_invalidate_policy e2 1 in
  let e4 := perm_engine_cache_rule e3 257 t (Some b') in
  let e5 := perm_engine_cache_invalidate_policy e4 257 in
  let e6 := perm_engine_cache_rule e5 1 t (Some a') in
  perm_engine_get_cached_rule e3 257 = None ∧
  perm_engine_get_cached_rule e5 257 = None ∧
  perm_engine_get_cached_rule e6 257 = Some b.
Proof. by vm_compute. Qed.

(* ------------------------------------------------------------------ *)
(** ** Invalidation of the decision caches *)

(** No cached decision or resolution of the user is left. *)
Definition forgets_user {C} (e : perm_caches C) (user_id : Z) : Prop :=
  Forall (λ r, l1_valid r = true → l1_user_id r ≠ user_id) (res_cache e) ∧
  Forall (λ r, l2_valid r = true → l2_user_id r ≠ user_id) (result_cache e).

Lemma map_clear_l1 (l : list policy_res_cache_entry_t) u :
  Forall (λ r, l1_valid r = true → l1_user_id r ≠ u) (map l1_clear l).
Proof. induction l; constructor; simpl; [done|auto]. Qed.
Lemma map_clear_l2 (l : list result_cache_entry_t) u :
  Forall (λ r, l2_valid r = true → l2_user_id r ≠ u) (map l2_clear l).
Proof. induction l; constructor; simpl; [done|auto]. Qed.

Lemma invalidate_user_forgets {C} (e : perm_caches C) u :
  forgets_user (perm_engine_cache_invalidate_user e u) u.
Proof.
  split; simpl; apply Forall_map, Forall_true; intros r; cbv beta.
  - destruct (l1_valid r && (l1_user_id r =? u)) eqn:E; simpl; [done|].
    intros Hv Hu. by rewrite Hv, Hu, Z.eqb_refl in E.
  - destruct (l2_valid r && (l2_user_id r =? u)) eqn:E; simpl; [done|].
    intros Hv Hu. by rewrite Hv, Hu, Z.eqb_refl in E.
Qed.

Lemma invalidate_all_forgets {C} (e : perm_caches C) u :
  forgets_user (perm_engine_cache_invalidate_all e) u.
Proof. split; [apply map_clear_l1|apply map_clear_l2]. Qed.

Lemma invalidate_policy_forgets {C} (e : perm_caches C) i u :
  forgets_user (perm_engine_cache_invalidate_policy e i) u.
Proof.
  unfold perm_engine_cache_invalidate_policy. destruct (probe_find _ _ _ _);
    split; simpl; [apply map_clear_l1|apply map_clear_l2|apply map_clear_l1|apply map_clear_l2].
Qed.

(** The other users keep theirs. *)
Lemma invalidate_user_keeps {C} (e : perm_caches C) u :
  Forall2 (λ r r', l2_user_id r ≠ u → r' = r) (result_cache e)
          (result_cache (perm_engine_cache_invalidate_user e u)).
Proof.
  simpl. induction (result_cache e) as [|r l IH]; constructor; [|done].
  intros Hr. by rewrite (proj2 (Z.eqb_neq _ _) Hr), andb_false_r.
Qed.
