(* ===== verification/Context.v ===== *)
(** * The shared context of the managers (sso_context_t)

    The managers hold a pointer to the context and reach through it the
    storage backend and the permission engine.  Handles and out-pointers
    the callers pass are never NULL here; a manager slot of the context
    may be. *)

From S2P Require Import Prelude CLib Types Storage StorageMemory PermCache.

Record sso_context (S : Type) := {
  cx_backend : option (storage_backend S);
  cx_user_mgr : bool; cx_role_mgr : bool; cx_group_mgr : bool; cx_policy_mgr : bool
}.
Arguments Build_sso_context {S} _ _ _ _ _.
Arguments cx_backend {S} _.
Arguments cx_user_mgr {S} _.
Arguments cx_role_mgr {S} _.
Arguments cx_group_mgr {S} _.
Arguments cx_policy_mgr {S} _.

(** What the managers change: the store and the engine's caches. *)
Record world (S C : Type) := { w_store : S; w_engine : option (perm_caches C) }.
Arguments Build_world {S C} _ _.
Arguments w_store {S C} _.
Arguments w_engine {S C} _.

Definition mgr_op (S C A : Type) : Type := world S C → outcome (result A * world S C).

Section Calls.
Context {S C : Type} (cx : sso_context S).

(** [if (!sb || !sb->f) return SSO_ERR_NOT_IMPLEMENTED; ... sb->f(sb, ...)] *)
Definition call {F A} (sel : storage_backend S → option F) (k : F → storage_op S A)
  : mgr_op S C A := λ w,
  match cx_backend cx ≫= sel with
  | None => Ret (Err SSO_ERR_NOT_IMPLEMENTED, w)
  | Some f =>
      rs ← k f (w_store w);
      Ret (rs.1, {| w_store := rs.2; w_engine := w_engine w |})
  end.

(** [if (err == SSO_OK) perm_engine_cache_invalidate_...(engine, ...)];
    the invalidation functions ignore a NULL engine. *)
Definition then_cache {A} (f : perm_caches C → perm_caches C) (m : mgr_op S C A) : mgr_op S C A := λ w,
  rw ← m w;
  match rw.1 with
  | Ok a => Ret (Ok a, {| w_store := w_store rw.2; w_engine := f <$> w_engine rw.2 |})
  | Err e => Ret (Err e, rw.2)
  end.

(** [err = f(...); if (err != SSO_OK) return err; ...] *)
Definition and_then {A B} (m : mgr_op S C A) (k : A → mgr_op S C B) : mgr_op S C B := λ w,
  rw ← m w;
  match rw.1 with
  | Ok a => k a rw.2
  | Err e => Ret (Err e, rw.2)
  end.

Definition fail_with {A} (e : sso_error_t) : mgr_op S C A := λ w, Ret (Err e, w).
Definition answer {A} (a : A) : mgr_op S C A := λ w, Ret (Ok a, w).

(** A NULL string argument is an invalid parameter. *)
Definition need {A} (s : option cstr) (k : cstr → mgr_op S C A) : mgr_op S C A :=
  match s with None => fail_with SSO_ERR_INVALID_PARAM | Some s => k s end.

End Calls.

(** A context over the in-memory backend with every manager present. *)
Definition mem_context (now : Z) (alloc : Z → bool) (fuel : nat) : sso_context mem_priv_t :=
  {| cx_backend := Some (storage_memory_create now alloc fuel);
     cx_user_mgr := true; cx_role_mgr := true; cx_group_mgr := true; cx_policy_mgr := true |}.

(* ------------------------------------------------------------------ *)
Section CallFacts.
Context {S C : Type} (cx : sso_context S).
Implicit Types w : world S C.

Lemma call_Ret {F A} (sel : storage_backend S → option F) (k : F → storage_op S A) sb f w r s :
  cx_backend cx = Some sb → sel sb = Some f → k f (w_store w) = Ret (r, s) →
  call cx sel k w = Ret (r, {| w_store := s; w_engine := w_engine w |}).
Proof. intros H1 H2 H3. unfold call. by rewrite H1; simpl; rewrite H2, H3. Qed.

(** A pure read through the table leaves the world alone. *)
Lemma call_read {F A} (sel : storage_backend S → option F) (k : F → storage_op S A) sb f w r :
  cx_backend cx = Some sb → sel sb = Some f → k f (w_store w) = Ret (r, w_store w) →
  call cx sel k w = Ret (r, w).
Proof. intros. erewrite call_Ret by done. by destruct w. Qed.

Lemma then_cache_Ok {A} (f : perm_caches C → perm_caches C) (m : mgr_op S C A) w a w' :
  then_cache f m w = Ret (Ok a, w') →
  ∃ w1, m w = Ret (Ok a, w1) ∧ w_store w' = w_store w1 ∧ w_engine w' = f <$> w_engine w1.
Proof.
  unfold then_cache. intros (rw & Hm & H)%outcome_bind_inv. destruct rw as [[a'|e] w1]; simpl in H;
    [|done]. injection H as <- <-. eauto.
Qed.

Lemma call_engine {F A} (sel : storage_backend S → option F) (k : F → storage_op S A) w r w' :
  call cx sel k w = Ret (r, w') → w_engine w' = w_engine w.
Proof.
  unfold call. destruct (cx_backend cx ≫= sel); [|by intros [= _ <-]].
  intros (rs & _ & H)%outcome_bind_inv. by injection H as _ <-.
Qed.

Lemma and_then_Ok {A B} (m : mgr_op S C A) (k : A → mgr_op S C B) w b w' :
  and_then m k w = Ret (Ok b, w') → ∃ a w1, m w = Ret (Ok a, w1) ∧ k a w1 = Ret (Ok b, w').
Proof.
  unfold and_then. intros (rw & Hm & H)%outcome_bind_inv. destruct rw as [[a|e] w1]; simpl in H; [|done].
  eauto.
Qed.
End CallFacts.
