(* ===== verification/RoleMgr.v ===== *)
(** * The role manager (src/role.c) *)

From S2P Require Import Prelude CLib Types Storage PermCache Context.

Definition SSO_MAX_ROLE_NAME : nat := 64.
Definition SSO_MAX_DESCRIPTION : nat := 512.

Section RoleManager.
Context {S C : Type} (cx : sso_context S) (now : Z).
Notation mgr_op A := (mgr_op S C A).

Definition role_create (name description : option cstr) (parent_role_id : Z) : mgr_op role_t :=
  need name (λ name,
    call cx sb_role_create (λ f, f
      {| r_id := 0; r_name := sso_strlcpy (Some name) SSO_MAX_ROLE_NAME;
         r_description := match description with
                          | Some d => sso_strlcpy (Some d) SSO_MAX_DESCRIPTION | None => [] end;
         r_parent_role_id := parent_role_id; r_status := ROLE_STATUS_ACTIVE;
         r_created_at := now; r_updated_at := now |})).

Definition role_get_by_id (i : Z) : mgr_op role_t := call cx sb_role_get_by_id (λ f, f i).

Definition role_get_by_name (name : option cstr) : mgr_op role_t :=
  need name (λ name, call cx sb_role_get_by_name (λ f, f name)).

Definition role_update (role : role_t) : mgr_op unit :=
  then_cache perm_engine_cache_invalidate_all
    (call cx sb_role_update (λ f, f
      {| r_id := r_id role; r_name := r_name role; r_description := r_description role;
         r_parent_role_id := r_parent_role_id role; r_status := r_status role;
         r_created_at := r_created_at role; r_updated_at := now |})).

Definition role_delete (i : Z) : mgr_op unit :=
  then_cache perm_engine_cache_invalidate_all (call cx sb_role_delete (λ f, f i)).

Definition role_list (q : option cstr) (status offset limit : Z) : mgr_op (list Z * Z) :=
  call cx sb_role_list (λ f, f q status offset limit).

(** The [while (d < max)] of [role_get_ancestors]: [max] counts down. *)
Fixpoint ancestors_loop (get_parent : Z → storage_op S Z) (max : nat) (current : Z) (w : world S C)
  : outcome (list Z * world S C) :=
  match max with
  | O => Ret ([], w)
  | Datatypes.S max' =>
      rs ← get_parent current (w_store w);
      let w := {| w_store := rs.2; w_engine := w_engine w |} in
      match rs.1 with
      | Ok parent =>
          if parent =? SSO_ID_NONE then Ret ([], w)
          else
            lw ← ancestors_loop get_parent max' parent w;
            Ret (parent :: lw.1, lw.2)
      | Err _ => Ret ([], w)
      end
  end.

Definition role_get_ancestors (role_id : Z) (max : nat) : mgr_op (list Z) := λ w,
  match cx_backend cx ≫= sb_role_get_parent with
  | None => Ret (Err SSO_ERR_NOT_IMPLEMENTED, w)
  | Some f => lw ← ancestors_loop f max role_id w; Ret (Ok lw.1, lw.2)
  end.

(** The scan of [role_get_children], with [room] places left. *)
Fixpoint children_loop (role_id : Z) (room : nat) (all : list Z) (w : world S C)
  : outcome (list Z * world S C) :=
  match room, all with
  | O, _ | _, [] => Ret ([], w)
  | Datatypes.S room', i :: all' =>
      rw ← role_get_by_id i w;
      match rw.1 with
      | Ok r =>
          if r_parent_role_id r =? role_id then
            lw ← children_loop role_id room' all' rw.2; Ret (i :: lw.1, lw.2)
          else children_loop role_id room all' rw.2
      | Err _ => children_loop role_id room all' rw.2
      end
  end.

Definition role_get_children (role_id : Z) (max : nat) : mgr_op (list Z) :=
  and_then (role_list None (-1) 0 256) (λ page w,
    lw ← children_loop role_id max page.1 w; Ret (Ok lw.1, lw.2)).

Definition role_assign_to_user (role_id user_id : Z) : mgr_op unit :=
  then_cache (λ e, perm_engine_cache_invalidate_user e user_id)
    (call cx sb_assign_role_to_user (λ f, f role_id user_id)).

Definition role_unassign_from_user (role_id user_id : Z) : mgr_op unit :=
  then_cache (λ e, perm_engine_cache_invalidate_user e user_id)
    (call cx sb_unassign_role_from_user (λ f, f role_id user_id)).

Definition role_assign_to_group (role_id group_id : Z) : mgr_op unit :=
  then_cache perm_engine_cache_invalidate_all
    (call cx sb_assign_role_to_group (λ f, f role_id group_id)).

Definition role_unassign_from_group (role_id group_id : Z) : mgr_op unit :=
  then_cache perm_engine_cache_invalidate_all
    (call cx sb_unassign_role_from_group (λ f, f role_id group_id)).

Definition role_get_users (role_id : Z) (max : nat) : mgr_op (list Z) :=
  call cx sb_get_role_users (λ f, f role_id max).

Definition role_get_policies (role_id : Z) (max : nat) : mgr_op (list Z) :=
  call cx sb_get_target_policies (λ f, f POLICY_TARGET_ROLE role_id max).

End RoleManager.

(* ================================================================== *)
(** ** Ancestors *)

(** Follow the parent links, at most [n] steps. *)
Fixpoint chain (parent : Z → option Z) (n : nat) (i : Z) : list Z :=
  match n with
  | O => []
  | S n' => match parent i with
            | Some j => if j =? SSO_ID_NONE then [] else j :: chain parent n' j
            | None => []
            end
  end.

Lemma ancestors_loop_chain {S C} (f : Z → storage_op S Z) parent max i (w : world S C) :
  (∀ j, f j (w_store w) = Ret (found (parent j), w_store w)) →
  ancestors_loop f max i w = Ret (chain parent max i, w).
Proof.
  intros Hf. revert i. induction max as [|max IH]; intros i; [done|]. cbn [ancestors_loop chain].
  rewrite Hf. change (mbind ?f (Ret ?x)) with (f x). cbv beta. cbn [fst snd].
  replace {| w_store := w_store w; w_engine := w_engine w |} with w by by destruct w.
  destruct (parent i) as [j|]; [|done]. cbn [found]. destruct (j =? SSO_ID_NONE); [done|].
  by rewrite IH.
Qed.

Lemma chain_length parent n i : (length (chain parent n i) ≤ n)%nat.
Proof.
  revert i. induction n as [|n IH]; intros i; simpl; [lia|].
  destruct (parent i) as [j|]; [|simpl; lia]. destruct (j =? SSO_ID_NONE); simpl; [lia|].
  specialize (IH j). lia.
Qed.

Section RoleFacts.
Context {S C : Type} (cx : sso_context S) (sb : storage_backend S) (view : S → store_view) (inv : S → Prop).
Context `{!StorageReads sb view inv} (Hsb : cx_backend cx = Some sb).

Lemma role_get_ancestors_chain i max (w : world S C) :
  inv (w_store w) →
  role_get_ancestors cx i max w =
  Ret (Ok (chain (v_role_parent (view (w_store w))) max i), w).
Proof.
  intros Hi. destruct reads_role_parent as (f & Hf & Hspec). unfold role_get_ancestors. rewrite Hsb. simpl.
  rewrite Hf. by rewrite (ancestors_loop_chain _ (v_role_parent (view (w_store w)))) by auto.
Qed.
End RoleFacts.
