(* ===== verification/GroupMgr.v ===== *)
(** * The group manager (src/group.c) *)

From S2P Require Import Prelude CLib Types Storage PermCache Context RoleMgr.

Definition SSO_MAX_GROUP_NAME : nat := 64.

Section GroupManager.
Context {S C : Type} (cx : sso_context S) (now : Z).
Notation mgr_op A := (mgr_op S C A).

Definition group_create (name description : option cstr) (parent_group_id : Z) : mgr_op group_t :=
  need name (λ name,
    call cx sb_group_create (λ f, f
      {| g_id := 0; g_name := sso_strlcpy (Some name) SSO_MAX_GROUP_NAME;
         g_description := match description with
                          | Some d => sso_strlcpy (Some d) SSO_MAX_DESCRIPTION | None => [] end;
         g_parent_group_id := parent_group_id; g_status := GROUP_STATUS_ACTIVE;
         g_created_at := now; g_updated_at := now |})).

Definition group_get_by_id (i : Z) : mgr_op group_t := call cx sb_group_get_by_id (λ f, f i).

Definition group_get_by_name (name : option cstr) : mgr_op group_t :=
  need name (λ name, call cx sb_group_get_by_name (λ f, f name)).

Definition group_update (group : group_t) : mgr_op unit :=
  then_cache perm_engine_cache_invalidate_all
    (call cx sb_group_update (λ f, f
      {| g_id := g_id group; g_name := g_name group; g_description := g_description group;
         g_parent_group_id := g_parent_group_id group; g_status := g_status group;
         g_created_at := g_created_at group; g_updated_at := now |})).

Definition group_delete (i : Z) : mgr_op unit :=
  then_cache perm_engine_cache_invalidate_all (call cx sb_group_delete (λ f, f i)).

Definition group_list (q : option cstr) (status offset limit : Z) : mgr_op (list Z * Z) :=
  call cx sb_group_list (λ f, f q status offset limit).

(** The same loop as for roles, over the group parent links. *)
Definition group_get_ancestors (group_id : Z) (max : nat) : mgr_op (list Z) := λ w,
  match cx_backend cx ≫= sb_group_get_parent with
  | None => Ret (Err SSO_ERR_NOT_IMPLEMENTED, w)
  | Some f => lw ← ancestors_loop f max group_id w; Ret (Ok lw.1, lw.2)
  end.

Fixpoint group_children_loop (group_id : Z) (room : nat) (all : list Z) (w : world S C)
  : outcome (list Z * world S C) :=
  match room, all with
  | O, _ | _, [] => Ret ([], w)
  | Datatypes.S room', i :: all' =>
      rw ← group_get_by_id i w;
      match rw.1 with
      | Ok g =>
          if g_parent_group_id g =? group_id then
            lw ← group_children_loop group_id room' all' rw.2; Ret (i :: lw.1, lw.2)
          else group_children_loop group_id room all' rw.2
      | Err _ => group_children_loop group_id room all' rw.2
      end
  end.

Definition group_get_children (group_id : Z) (max : nat) : mgr_op (list Z) :=
  and_then (group_list None (-1) 0 256) (λ page w,
    lw ← group_children_loop group_id max page.1 w; Ret (Ok lw.1, lw.2)).

Definition group_add_user (group_id user_id : Z) : mgr_op unit :=
  then_cache (λ e, perm_engine_cache_invalidate_user e user_id)
    (call cx sb_add_user_to_group (λ f, f group_id user_id)).

Definition group_remove_user (group_id user_id : Z) : mgr_op unit :=
  then_cache (λ e, perm_engine_cache_invalidate_user e user_id)
    (call cx sb_remove_user_from_group (λ f, f group_id user_id)).

Definition group_get_members (group_id : Z) (max : nat) : mgr_op (list Z) :=
  call cx sb_get_group_users (λ f, f group_id max).

Definition group_get_policies (group_id : Z) (max : nat) : mgr_op (list Z) :=
  call cx sb_get_target_policies (λ f, f POLICY_TARGET_GROUP group_id max).

End GroupManager.

Section GroupFacts.
Context {S C : Type} (cx : sso_context S) (sb : storage_backend S) (view : S → store_view) (inv : S → Prop).
Context `{!StorageReads sb view inv} (Hsb : cx_backend cx = Some sb).

Lemma group_get_ancestors_chain i max (w : world S C) :
  inv (w_store w) →
  group_get_ancestors cx i max w =
  Ret (Ok (chain (v_group_parent (view (w_store w))) max i), w).
Proof.
  intros Hi. destruct reads_group_parent as (f & Hf & Hspec). unfold group_get_ancestors. rewrite Hsb. simpl.
  rewrite Hf. by rewrite (ancestors_loop_chain _ (v_group_parent (view (w_store w)))) by auto.
Qed.
End GroupFacts.
