(* ===== verification/UserMgr.v ===== *)
(** * The user manager (src/user.c)

    Password hashing is libsodium's: [crypto_pwhash_str] draws a salt, so
    it is an operation of the class, as is the verification. *)

From S2P Require Import Prelude CLib Types Storage StorageMemory PermCache Context.

(** libsodium: the encoded hash ([None] when it runs out of memory), and
    whether an encoded hash was made from a password. *)
Class Pwhash := {
  crypto_pwhash_str : cstr → Z → Z → option cstr;
  crypto_pwhash_str_verify : cstr → cstr → bool
}.

(** The documented promise of the pair: a hash that was produced fits its
    buffer and verifies against its password. *)
Class PwhashLaws `{Pwhash} := {
  pwhash_verifies : ∀ pw o m h, crypto_pwhash_str pw o m = Some h →
    crypto_pwhash_str_verify h pw = true
}.

Definition SSO_MAX_USERNAME : nat := 64.
Definition SSO_MAX_PHONE : nat := 32.
Definition SSO_MAX_EMAIL : nat := 128.
Definition SSO_MAX_DISPLAY_NAME : nat := 128.
Definition SSO_MAX_PASSWORD_HASH : Z := 256.
Definition crypto_pwhash_STRBYTES : Z := 128.

(** What the manager reads of the configuration: the days until a
    password expires ([None] when there is no configuration). *)
Record user_manager := {
  um_hash_opslimit : Z; um_hash_memlimit : Z; um_expiry_days : option Z
}.

(** [hash_password] into a buffer of [out_len] bytes. *)
Definition hash_password `{Pwhash} (password : cstr) (out_len : Z) (opslimit memlimit : Z) : cstr :=
  if out_len <? crypto_pwhash_STRBYTES then []
  else default [] (crypto_pwhash_str password opslimit memlimit).

Section UserManager.
Context {S C : Type} `{Pwhash} (cx : sso_context S) (mgr : user_manager) (now : Z).
Notation mgr_op A := (mgr_op S C A).

Definition copy_opt (s : option cstr) (n : nat) : cstr :=
  match s with Some s => sso_strlcpy (Some s) n | None => [] end.

Definition user_create (username password email display_name : option cstr) : mgr_op user_t :=
  need username (λ username, need password (λ password,
    call cx sb_user_create (λ f, f
      {| u_id := 0; u_username := sso_strlcpy (Some username) SSO_MAX_USERNAME; u_phone := [];
         u_password_hash := hash_password password SSO_MAX_PASSWORD_HASH
                              (um_hash_opslimit mgr) (um_hash_memlimit mgr);
         u_email := copy_opt email SSO_MAX_EMAIL;
         u_display_name := copy_opt display_name SSO_MAX_DISPLAY_NAME;
         u_status := USER_STATUS_ACTIVE; u_created_at := now; u_updated_at := now;
         u_attributes := []; u_mfa_enabled := 0; u_mfa_secret := []; u_password_set_at := now |}))).

Definition user_create_by_phone (phone : option cstr) : mgr_op user_t :=
  need phone (λ phone,
    call cx sb_user_create (λ f, f
      {| u_id := 0; u_username := sso_strlcpy (Some phone) SSO_MAX_USERNAME;
         u_phone := sso_strlcpy (Some phone) SSO_MAX_PHONE; u_password_hash := [];
         u_email := []; u_display_name := []; u_status := USER_STATUS_ACTIVE;
         u_created_at := now; u_updated_at := now; u_attributes := []; u_mfa_enabled := 0;
         u_mfa_secret := []; u_password_set_at := now |})).

Definition user_get_by_id (i : Z) : mgr_op user_t := call cx sb_user_get_by_id (λ f, f i).

Definition user_get_by_username (username : option cstr) : mgr_op user_t :=
  need username (λ n, call cx sb_user_get_by_name (λ f, f n)).

Definition user_get_by_phone (phone : option cstr) : mgr_op user_t :=
  need phone (λ p, call cx sb_user_get_by_phone (λ f, f p)).

Definition with_user_fields (u : user_t) (hash : cstr) (status : user_status_t)
    (updated set_at : Z) : user_t :=
  {| u_id := u_id u; u_username := u_username u; u_phone := u_phone u; u_password_hash := hash;
     u_email := u_email u; u_display_name := u_display_name u; u_status := status;
     u_created_at := u_created_at u; u_updated_at := updated; u_attributes := u_attributes u;
     u_mfa_enabled := u_mfa_enabled u; u_mfa_secret := u_mfa_secret u;
     u_password_set_at := set_at |}.

Definition user_update (user : user_t) : mgr_op unit :=
  then_cache (λ e, perm_engine_cache_invalidate_user e (u_id user))
    (call cx sb_user_update (λ f, f
      (with_user_fields user (u_password_hash user) (u_status user) now (u_password_set_at user)))).

Definition user_delete (i : Z) : mgr_op unit :=
  then_cache (λ e, perm_engine_cache_invalidate_user e i) (call cx sb_user_delete (λ f, f i)).

Definition user_list (q : option cstr) (status offset limit : Z) : mgr_op (list Z * Z) :=
  call cx sb_user_list (λ f, f q status offset limit).

(** Has the password of a user expired? *)
Definition password_expired (u : user_t) : bool :=
  match um_expiry_days mgr with
  | Some days => (0 <? days) && (0 <? u_password_set_at u) &&
                 (s64 (u_password_set_at u + days * 86400000) <? now)
  | None => false
  end.

Definition user_authenticate (username password : option cstr) : mgr_op user_t :=
  need username (λ username, need password (λ password w,
    rw ← user_get_by_username (Some username) w;
    match rw.1 with
    | Err _ => Ret (Err SSO_ERR_AUTH_FAILED, rw.2)
    | Ok stored =>
        if negb (bool_decide (u_status stored = USER_STATUS_ACTIVE))
        then Ret (Err SSO_ERR_AUTH_FAILED, rw.2)
        else if negb (crypto_pwhash_str_verify (u_password_hash stored) password)
        then Ret (Err SSO_ERR_AUTH_FAILED, rw.2)
        else if password_expired stored then Ret (Err SSO_ERR_PASSWORD_EXPIRED, rw.2)
        else Ret (Ok stored, rw.2)
    end)).

Definition user_set_password (user_id : Z) (new_password : option cstr) : mgr_op unit :=
  need new_password (λ pw,
    and_then (user_get_by_id user_id) (λ user,
      user_update (with_user_fields user
        (hash_password pw SSO_MAX_PASSWORD_HASH (um_hash_opslimit mgr) (um_hash_memlimit mgr))
        (u_status user) (u_updated_at user) now))).

Definition user_set_status (user_id : Z) (status : user_status_t) : mgr_op unit :=
  and_then (user_get_by_id user_id) (λ user,
    user_update (with_user_fields user (u_password_hash user) status (u_updated_at user)
                   (u_password_set_at user))).

Definition user_get_roles (user_id : Z) (max : nat) : mgr_op (list Z) :=
  call cx sb_get_user_roles (λ f, f user_id max).

Definition user_get_groups (user_id : Z) (max : nat) : mgr_op (list Z) :=
  call cx sb_get_user_groups (λ f, f user_id max).

End UserManager.

(* ================================================================== *)
(** ** Authentication *)

Section UserFacts.
Context {S C : Type} `{Pwhash} (cx : sso_context S) (mgr : user_manager) (now : Z).
Implicit Types w : world S C.

(** Authentication fails closed.  Whatever the storage backend
    answers, a user is returned only when it is the stored user of that
    name, active, with a hash that verifies against the password, and a
    password that has not expired; and no attempt changes the caches. *)
Theorem user_authenticate_sound username password w r w' :
  user_authenticate cx mgr now (Some username) (Some password) w = Ret (r, w') →
  w_engine w' = w_engine w ∧
  ∀ u, r = Ok u →
    user_get_by_username cx (Some username) w = Ret (Ok u, w') ∧
    u_status u = USER_STATUS_ACTIVE ∧
    crypto_pwhash_str_verify (u_password_hash u) password = true ∧
    (∀ days, um_expiry_days mgr = Some days → 0 < days → 0 < u_password_set_at u →
             now ≤ s64 (u_password_set_at u + days * 86400000)).
Proof.
  intros (rw & Hget & Hr)%outcome_bind_inv. destruct rw as [r0 w1].
  assert (Hw : w_engine w1 = w_engine w) by (by eapply call_engine in Hget).
  cbn [fst snd] in Hr. destruct r0 as [u|e]; [|by simplify_eq].
  destruct (bool_decide (u_status u = USER_STATUS_ACTIVE)) eqn:Ha; cbn [negb] in Hr; [|by simplify_eq].
  destruct (crypto_pwhash_str_verify (u_password_hash u) password) eqn:Hv; cbn [negb] in Hr; [|by simplify_eq].
  destruct (password_expired mgr now u) eqn:He; [by simplify_eq|]. simplify_eq.
  split; [done|]. intros u' [= <-]. reflect_bools. split_and!; try done.
  intros days Hd Hpos Hset. unfold password_expired in He. rewrite Hd in He.
  rewrite (proj2 (Z.ltb_lt 0 days)), (proj2 (Z.ltb_lt 0 _)) in He by done. simpl in He. lia.
Qed.
End UserFacts.

(** A toy hash, to run the manager: the password behind a tag. *)
Definition tag_pwhash : Pwhash :=
  {| crypto_pwhash_str := λ pw _ _, Some (("$" : cstr) ++ pw);
     crypto_pwhash_str_verify := λ h pw, bool_decide (h = ("$" : cstr) ++ pw) |}.

#[local] Instance tag_pwhash_laws : @PwhashLaws tag_pwhash.
Proof. split. intros pw o m h. simpl. intros [= <-]. by apply bool_decide_eq_true. Qed.

Definition alice : user_t := with_user_fields sample_user "$pw" USER_STATUS_ACTIVE 0 0.
Definition alice_world : world mem_priv_t unit :=
  {| w_store := set_users {| items := [alice]; cap := 64 |} mem_open; w_engine := None |}.
Definition no_expiry : user_manager :=
  {| um_hash_opslimit := 3; um_hash_memlimit := 0; um_expiry_days := None |}.

Lemma user_authenticate_sound_witness :
  let H := tag_pwhash in
  user_authenticate (mem_context 0 (λ _, true) 0) no_expiry 0 (Some ("alice" : cstr))
    (Some ("pw" : cstr)) alice_world = Ret (Ok alice, alice_world) ∧
  crypto_pwhash_str_verify (u_password_hash alice) "pw" = true.
Proof.
  intros H. assert (E : user_authenticate (mem_context 0 (λ _, true) 0) no_expiry 0
    (Some ("alice" : cstr)) (Some ("pw" : cstr)) alice_world = Ret (Ok alice, alice_world)) by reflexivity.
  split; [exact E|].
  destruct (user_authenticate_sound _ _ _ _ _ _ _ _ E) as [_ Hs].
  destruct (Hs alice eq_refl) as (_ & _ & Hv & _). exact Hv.
Defined.

(** ** Create, then authenticate *)

Section RoundTrip.
Context {C : Type} `{PwhashLaws} (mgr : user_manager).

Lemma find_index_last {A} (test : A → bool) l x :
  find_index test l = None → test x = true → find_index test (l ++ [x]) = Some (length l).
Proof.
  intros Hn Hx. induction l as [|y l IH]; simpl in *; [by rewrite Hx|].
  destruct (test y); [done|]. destruct (find_index test l); [done|]. by rewrite (IH eq_refl).
Qed.

(** A user created over the in-memory backend with a non-empty name
    that fits the field can log in at once with its password, whatever
    else the store holds, as long as the hash could be computed; the
    account that logs in is the one that was created. *)
Theorem user_create_then_authenticate alloc now now' fuel fuel' username password email display
    (w w1 : world mem_priv_t C) u h :
  username ≠ [] → (length username < 64)%nat →
  crypto_pwhash_str password (um_hash_opslimit mgr) (um_hash_memlimit mgr) = Some h →
  password_expired mgr now' u = false →
  user_create (mem_context now alloc fuel) mgr now (Some username) (Some password) email display w
    = Ret (Ok u, w1) →
  user_authenticate (mem_context now' alloc fuel') mgr now' (Some username) (Some password) w1
    = Ret (Ok u, w1).
Proof.
  intros Hne Hlen Hh Hexp Hc. unfold user_create, need, call in Hc. simpl in Hc.
  rewrite sso_strlcpy_fits in Hc by done.
  set (u0 := {| u_id := 0 |}) in Hc. unfold mem_user_create in Hc. simpl in Hc.
  replace (match username with [] => false | _ => true end) with true in Hc by by destruct username.
  destruct (da_find_str u_username (users (w_store w)) username) as [k|] eqn:Ef; [done|].
  destruct (da_add _ _ _ _) as [r d] eqn:Ea. simpl in Hc. injection Hc as Hr <-.
  apply grow_add_items in Ea as [[-> Hi]|[-> _]]; [|done]. simpl in Hr. injection Hr as <-.
  unfold user_authenticate, need, user_get_by_username, need, call. simpl.
  unfold mem_user_get_by_name, MK_GETNM, da_find_str. simpl. rewrite Hi. 
  rewrite (find_index_last _ _ _ Ef) by apply strcmp_eq_refl.
  rewrite list_lookup_middle by done. simpl. unfold hash_password. simpl. rewrite Hh. simpl.
  rewrite (pwhash_verifies _ _ _ _ Hh). simpl.
  unfold password_expired in *. simpl in *. by rewrite Hexp.
Qed.
End RoundTrip.

Lemma user_create_then_authenticate_witness :
  let H := tag_pwhash in
  let w0 : world mem_priv_t unit := {| w_store := mem_open; w_engine := None |} in
  ∃ u w1, user_create (mem_context 0 (λ _, true) 0) no_expiry 0 (Some ("bob" : cstr))
            (Some ("pw" : cstr)) None None w0 = Ret (Ok u, w1) ∧
          user_authenticate (mem_context 1 (λ _, true) 0) no_expiry 1 (Some ("bob" : cstr))
            (Some ("pw" : cstr)) w1 = Ret (Ok u, w1).
Proof.
  intros H w0. do 2 eexists. split; [reflexivity|].
  apply (user_create_then_authenticate no_expiry (λ _, true) 0 1 0 0 "bob" "pw" None None w0 _ _ "$pw").
  - done.
  - simpl. lia.
  - reflexivity.
  - done.
  - reflexivity.
Defined.
