(* ===== verification/PolicyMgr.v ===== *)
(** * The policy manager (src/policy.c)

    Policy resolution collects the policies of a user, of its roles and
    groups and of their ancestors, and sorts them by priority. *)

From stdpp Require Import sorting.
From S2P Require Import Prelude CLib Types Storage StorageMemory PermCache Context RoleMgr.
From S2P Require Import GroupMgr UserMgr.

Definition SSO_MAX_POLICY_NAME : nat := 64.
Definition SSO_MAX_RULES_JSON : nat := 8192.

Section PolicyManager.
Context {S C : Type} (cx : sso_context S) (now : Z).
Notation mgr_op A := (mgr_op S C A).

Definition policy_create (name : option cstr) (strategy : perm_strategy_type_t)
    (effect : policy_effect_t) (priority : Z) (rules_json : option cstr) : mgr_op policy_t :=
  need name (λ name, need rules_json (λ rules,
    call cx sb_policy_create (λ f, f
      {| p_id := 0; p_name := sso_strlcpy (Some name) SSO_MAX_POLICY_NAME;
         p_strategy_type := strategy; p_effect := effect; p_priority := priority;
         p_rules := sso_strlcpy (Some rules) SSO_MAX_RULES_JSON;
         p_status := POLICY_STATUS_ENABLED; p_created_at := now; p_updated_at := now |}))).

Definition policy_get_by_id (i : Z) : mgr_op policy_t := call cx sb_policy_get_by_id (λ f, f i).

Definition policy_get_by_name (name : option cstr) : mgr_op policy_t :=
  need name (λ n, call cx sb_policy_get_by_name (λ f, f n)).

Definition with_policy_status (p : policy_t) (st : policy_status_t) (updated : Z) : policy_t :=
  {| p_id := p_id p; p_name := p_name p; p_strategy_type := p_strategy_type p;
     p_effect := p_effect p; p_priority := p_priority p; p_rules := p_rules p; p_status := st;
     p_created_at := p_created_at p; p_updated_at := updated |}.

Definition policy_update (policy : policy_t) : mgr_op unit :=
  then_cache (λ e, perm_engine_cache_invalidate_policy e (p_id policy))
    (call cx sb_policy_update (λ f, f (with_policy_status policy (p_status policy) now))).

Definition policy_delete (i : Z) : mgr_op unit :=
  then_cache (λ e, perm_engine_cache_invalidate_policy e i) (call cx sb_policy_delete (λ f, f i)).

Definition policy_list (q : option cstr) (status offset limit : Z) : mgr_op (list Z * Z) :=
  call cx sb_policy_list (λ f, f q status offset limit).

(** The loop of [collect_policies_for_target] and
    [policy_get_direct_policies]: load each policy until [max] are held;
    ids that do not resolve are skipped. *)
Fixpoint load_policies (ids : list Z) (max : nat) (acc : list policy_t) (w : world S C)
  : outcome (list policy_t * world S C) :=
  match ids with
  | [] => Ret (acc, w)
  | i :: ids' =>
      if (length acc <? max)%nat then
        rw ← policy_get_by_id i w;
        match rw.1 with
        | Ok p => load_policies ids' max (acc ++ [p]) rw.2
        | Err _ => load_policies ids' max acc rw.2
        end
      else Ret (acc, w)
  end.

Definition collect_policies_for_target (tt : policy_target_type_t) (tid : Z) (max : nat)
    (acc : list policy_t) (w : world S C) : outcome (sso_error_t * list policy_t * world S C) :=
  match cx_backend cx ≫= sb_get_target_policies with
  | None => Ret (SSO_ERR_NOT_IMPLEMENTED, acc, w)
  | Some f =>
      rs ← f tt tid 64%nat (w_store w);
      let w := {| w_store := rs.2; w_engine := w_engine w |} in
      match rs.1 with
      | Err e => Ret (e, acc, w)
      | Ok ids => lw ← load_policies ids max acc w; Ret (SSO_OK, lw.1, lw.2)
      end
  end.

Definition policy_get_direct_policies (tt : policy_target_type_t) (tid : Z) (max : nat)
  : mgr_op (list policy_t) := λ w,
  r ← collect_policies_for_target tt tid max [] w;
  let '(e, l, w) := r in
  if is_ok e then match l with [] => Ret (Err SSO_ERR_NOT_FOUND, w) | _ => Ret (Ok l, w) end
  else Ret (Err e, w).

Definition policy_assign_to (policy_id : Z) (tt : policy_target_type_t) (tid : Z) : mgr_op unit :=
  then_cache (λ e, if bool_decide (tt = POLICY_TARGET_USER)
                   then perm_engine_cache_invalidate_user e tid
                   else perm_engine_cache_invalidate_all e)
    (call cx sb_assign_policy (λ f, f policy_id tt tid)).

Definition policy_unassign_from (policy_id : Z) (tt : policy_target_type_t) (tid : Z) : mgr_op unit :=
  then_cache (λ e, if bool_decide (tt = POLICY_TARGET_USER)
                   then perm_engine_cache_invalidate_user e tid
                   else perm_engine_cache_invalidate_all e)
    (call cx sb_unassign_policy (λ f, f policy_id tt tid)).

Definition policy_get_targets (policy_id : Z) (tt : policy_target_type_t) (max : nat)
  : mgr_op (list Z) :=
  call cx sb_get_policy_targets (λ f, f policy_id tt max).

(** The [for (...; i < n && *count < max; ...)] loops around it, whose
    errors are ignored. *)
Fixpoint collect_all (tt : policy_target_type_t) (tids : list Z) (max : nat) (acc : list policy_t)
    (w : world S C) : outcome (list policy_t * world S C) :=
  match tids with
  | [] => Ret (acc, w)
  | tid :: tids' =>
      if (length acc <? max)%nat then
        r ← collect_policies_for_target tt tid max acc w;
        collect_all tt tids' max r.1.2 r.2
      else Ret (acc, w)
  end.

(** Steps 2 and 3: a target, then its ancestors when the manager exists. *)
Fixpoint collect_tree (tt : policy_target_type_t) (mgr : bool) (ancestors : Z → nat → mgr_op (list Z))
    (tids : list Z) (max : nat) (acc : list policy_t) (w : world S C)
  : outcome (list policy_t * world S C) :=
  match tids with
  | [] => Ret (acc, w)
  | tid :: tids' =>
      if (length acc <? max)%nat then
        r ← collect_policies_for_target tt tid max acc w;
        lw ← (if mgr then
                rw ← ancestors tid 16%nat r.2;
                match rw.1 with
                | Ok anc => collect_all tt anc max r.1.2 rw.2
                | Err _ => Ret (r.1.2, rw.2)
                end
              else Ret (r.1.2, r.2));
        collect_tree tt mgr ancestors tids' max lw.1 lw.2
      else Ret (acc, w)
  end.

(** One insertion of the in-place sort: scan [policies[0..i)] from the
    right past the entries of smaller priority.  [rev_sorted] is the
    sorted prefix, last element first. *)
Fixpoint insert_rev (key : policy_t) (rev_sorted : list policy_t) : list policy_t :=
  match rev_sorted with
  | [] => [key]
  | q :: rest => if p_priority q <? p_priority key then q :: insert_rev key rest
                 else key :: q :: rest
  end.

Definition sort_policies (l : list policy_t) : list policy_t :=
  rev (fold_left (λ acc key, insert_rev key acc) l []).

Definition policy_resolve_for_user (user_id : Z) (max : nat) : mgr_op (list policy_t) := λ w,
  if negb (cx_user_mgr cx) then Ret (Err SSO_ERR_NOT_FOUND, w)
  else
    r ← collect_policies_for_target POLICY_TARGET_USER user_id max [] w;
    rw ← user_get_roles cx user_id 64 r.2;
    lw ← match rw.1 with
         | Ok roles => collect_tree POLICY_TARGET_ROLE (cx_role_mgr cx) (role_get_ancestors cx)
                         roles max r.1.2 rw.2
         | Err _ => Ret (r.1.2, rw.2)
         end;
    gw ← user_get_groups cx user_id 64 lw.2;
    fw ← match gw.1 with
         | Ok groups => collect_tree POLICY_TARGET_GROUP (cx_group_mgr cx) (group_get_ancestors cx)
                          groups max lw.1 gw.2
         | Err _ => Ret (lw.1, gw.2)
         end;
    match fw.1 with
    | [] => Ret (Err SSO_ERR_NOT_FOUND, fw.2)
    | l => Ret (Ok (sort_policies l), fw.2)
    end.

Definition policy_validate_rules (policy : policy_t) : mgr_op unit := answer ().

Definition policy_set_status (policy_id : Z) (status : policy_status_t) : mgr_op unit :=
  and_then (policy_get_by_id policy_id) (λ p,
    policy_update (with_policy_status p status (p_updated_at p))).

End PolicyManager.

(* ================================================================== *)
(** ** The sort *)

Definition by_priority (p q : policy_t) : Prop := p_priority q ≤ p_priority p.

Lemma insert_rev_perm key l : insert_rev key l ≡ₚ key :: l.
Proof.
  induction l as [|q l IH]; simpl; [done|]. destruct (_ <? _); [|done].
  rewrite IH. by constructor.
Qed.

Lemma insert_rev_sorted key l :
  StronglySorted (flip by_priority) l → StronglySorted (flip by_priority) (insert_rev key l).
Proof.
  induction 1 as [|q l Hs IH Hall]; simpl; [by repeat constructor|].
  destruct (Z.ltb_spec (p_priority q) (p_priority key)) as [Hlt|Hge].
  - constructor; [done|]. apply Forall_forall. intros x. rewrite insert_rev_perm, elem_of_cons.
    intros [->|Hx]; [unfold flip, by_priority; lia|]. by rewrite Forall_forall in Hall; apply Hall.
  - constructor; [by constructor|]. constructor; [unfold flip, by_priority; lia|].
    eapply Forall_impl; [done|]. unfold flip, by_priority. simpl. lia.
Qed.

Lemma insert_rev_filter k key l :
  List.filter (λ p, p_priority p =? k) (insert_rev key l) =
  List.filter (λ p, p_priority p =? k) [key] ++ List.filter (λ p, p_priority p =? k) l.
Proof.
  induction l as [|q l IH]; [by simpl; destruct (p_priority key =? k)|]. cbn [insert_rev].
  destruct (Z.ltb_spec (p_priority q) (p_priority key)) as [Hlt|Hge]; cbn [List.filter] in *.
  - rewrite IH. destruct (Z.eqb_spec (p_priority key) k), (Z.eqb_spec (p_priority q) k); try done. lia.
  - by destruct (p_priority key =? k), (p_priority q =? k).
Qed.

Lemma StronglySorted_reverse {A} (R : A → A → Prop) l :
  StronglySorted (flip R) l → StronglySorted R (rev l).
Proof.
  induction 1 as [|x l Hs IH Hall]; simpl; [constructor|]. apply StronglySorted_app. split_and!.
  - intros x1 x2 Hx1 ->%list_elem_of_singleton. rewrite Forall_forall in Hall. apply Hall.
    by apply list_elem_of_In, in_rev, list_elem_of_In.
  - done.
  - by repeat constructor.
Qed.

(** The sort is a stable sort by descending priority. *)
Lemma sort_policies_spec l :
  sort_policies l ≡ₚ l ∧ StronglySorted by_priority (sort_policies l) ∧
  ∀ k, List.filter (λ p, p_priority p =? k) (sort_policies l) =
       List.filter (λ p, p_priority p =? k) l.
Proof.
  unfold sort_policies.
  assert (H : ∀ acc, StronglySorted (flip by_priority) acc →
    let s := fold_left (λ acc key, insert_rev key acc) l acc in
    s ≡ₚ l ++ acc ∧ StronglySorted (flip by_priority) s ∧
    ∀ k, List.filter (λ p, p_priority p =? k) s =
         rev (List.filter (λ p, p_priority p =? k) l) ++ List.filter (λ p, p_priority p =? k) acc).
  { induction l as [|x l IH]; intros acc Hacc; [done|]. cbn [fold_left].
    destruct (IH (insert_rev x acc) (insert_rev_sorted _ _ Hacc)) as (Hp & Hs & Hf).
    split_and!; [|done|].
    - rewrite Hp, insert_rev_perm. simpl. by rewrite Permutation_middle.
    - intros k. rewrite Hf, insert_rev_filter. cbn [List.filter].
      destruct (p_priority x =? k); simpl; [|done]. by rewrite <- app_assoc. }
  destruct (H []) as (Hp & Hs & Hf); [constructor|]. rewrite app_nil_r in Hp. split_and!.
  - rewrite <- Hp at 2. symmetry. apply Permutation_rev.
  - by apply StronglySorted_reverse.
  - intros k. assert (Hr : ∀ s, List.filter (λ p, p_priority p =? k) (rev s) =
      rev (List.filter (λ p, p_priority p =? k) s)) by (intros; apply List.filter_rev).
    rewrite Hr, Hf. simpl. by rewrite app_nil_r, rev_involutive.
Qed.

(* ------------------------------------------------------------------ *)
(** ** Resolution against the view of the store *)

Section Resolution.
Context {S C : Type} (cx : sso_context S) (sb : storage_backend S) (view : S → store_view) (inv : S → Prop).
Context `{!StorageReads sb view inv} (Hsb : cx_backend cx = Some sb).
Implicit Types (w : world S C) (v : store_view).

(** The policies of one target, at most 64 assignments of it. *)
Definition policies_of v (tt : policy_target_type_t) (tid : Z) : list policy_t :=
  omap (v_policy v) (take 64 (v_assigned v tt tid)).

(** The policies of targets and of their ancestors, 16 levels up. *)
Definition tree_policies v tt (parent : Z → option Z) (tids : list Z) : list policy_t :=
  flat_map (λ tid, policies_of v tt tid ++ flat_map (policies_of v tt) (chain parent 16 tid)) tids.

Definition applicable v (user_id : Z) : list policy_t :=
  policies_of v POLICY_TARGET_USER user_id ++
  tree_policies v POLICY_TARGET_ROLE (v_role_parent v) (take 64 (v_user_roles v user_id)) ++
  tree_policies v POLICY_TARGET_GROUP (v_group_parent v) (take 64 (v_user_groups v user_id)).

Lemma take_take_app {A} n (a b : list A) : take n (take n a ++ b) = take n (a ++ b).
Proof.
  destruct (Nat.le_gt_cases n (length a)).
  - rewrite !take_app_le by (rewrite ?length_take; lia). by rewrite take_take, Nat.min_id.
  - by rewrite (take_ge a n) by lia.
Qed.

Lemma same_world w : {| w_store := w_store w; w_engine := w_engine w |} = w.
Proof. by destruct w. Qed.

Lemma load_policies_take ids max acc w :
  inv (w_store w) → (length acc ≤ max)%nat →
  load_policies cx ids max acc w =
  Ret (take max (acc ++ omap (v_policy (view (w_store w))) ids), w).
Proof.
  intros Hi Hlen. destruct reads_policy as (f & Hf & Hspec). revert acc Hlen.
  induction ids as [|i ids IH]; intros acc Hlen; cbn [load_policies].
  { by rewrite app_nil_r, take_ge by lia. }
  destruct (Nat.ltb_spec (length acc) max) as [Hlt|Hge].
  2: { rewrite take_app_le, take_ge by lia. done. }
  unfold policy_get_by_id. rewrite (call_read cx _ _ sb f w _ Hsb Hf (Hspec _ i Hi)).
  change (mbind ?f (Ret ?x)) with (f x). cbn [fst snd omap list_omap].
  destruct (v_policy (view (w_store w)) i) as [p|]; cbn [found].
  - rewrite IH by (rewrite length_app; simpl; lia). by rewrite <- app_assoc.
  - by rewrite IH.
Qed.

Lemma collect_take tt tid max acc w :
  inv (w_store w) → (length acc ≤ max)%nat →
  ∃ e, collect_policies_for_target cx tt tid max acc w =
       Ret (e, take max (acc ++ policies_of (view (w_store w)) tt tid), w).
Proof.
  intros Hi Hlen. destruct reads_assigned as (f & Hf & Hspec). unfold collect_policies_for_target.
  rewrite Hsb. simpl. rewrite Hf, Hspec by done. change (mbind ?f (Ret ?x)) with (f x). cbn [fst snd].
  rewrite same_world. unfold ids_answer, policies_of.
  destruct (take 64 (v_assigned (view (w_store w)) tt tid)) as [|i ids].
  - eexists. by rewrite app_nil_r, take_ge by lia.
  - rewrite load_policies_take by done. by eexists.
Qed.

Lemma length_take_le {A} n (l : list A) : (length (take n l) ≤ n)%nat.
Proof. rewrite length_take. lia. Qed.

Lemma collect_all_take tt tids max acc w :
  inv (w_store w) → (length acc ≤ max)%nat →
  collect_all cx tt tids max acc w =
  Ret (take max (acc ++ flat_map (policies_of (view (w_store w)) tt) tids), w).
Proof.
  intros Hi. revert acc. induction tids as [|tid tids IH]; intros acc Hlen; cbn [collect_all flat_map].
  { by rewrite app_nil_r, take_ge by lia. }
  destruct (Nat.ltb_spec (length acc) max) as [Hlt|Hge].
  2: { rewrite take_app_le, take_ge by lia. done. }
  destruct (collect_take tt tid max acc w Hi Hlen) as (e & ->).
  change (mbind ?f (Ret ?x)) with (f x). cbn [fst snd].
  rewrite IH by apply length_take_le. by rewrite take_take_app, <- app_assoc.
Qed.

Lemma collect_tree_take tt ancestors parent tids max acc w :
  inv (w_store w) → (∀ i n, ancestors i n w = Ret (Ok (chain parent n i), w)) → (length acc ≤ max)%nat →
  collect_tree cx tt true ancestors tids max acc w =
  Ret (take max (acc ++ tree_policies (view (w_store w)) tt parent tids), w).
Proof.
  intros Hi Hanc. revert acc. induction tids as [|tid tids IH]; intros acc Hlen;
    cbn [collect_tree tree_policies flat_map].
  { by rewrite app_nil_r, take_ge by lia. }
  destruct (Nat.ltb_spec (length acc) max) as [Hlt|Hge].
  2: { rewrite take_app_le, take_ge by lia. done. }
  destruct (collect_take tt tid max acc w Hi Hlen) as (e & ->).
  change (mbind ?f (Ret ?x)) with (f x). cbn [fst snd].
  rewrite Hanc. change (mbind ?f (Ret ?x)) with (f x). cbn [fst snd].
  rewrite collect_all_take by (done || apply length_take_le).
  change (mbind ?f (Ret ?x)) with (f x). cbn [fst snd].
  rewrite IH by apply length_take_le. unfold tree_policies.
  by rewrite take_take_app, <- !app_assoc, take_take_app, <- !app_assoc.
Qed.

(** The answer as a function of the view. *)
Lemma policy_resolve_eq user_id max w :
  inv (w_store w) → cx_user_mgr cx = true → cx_role_mgr cx = true → cx_group_mgr cx = true →
  policy_resolve_for_user cx user_id max w =
  Ret (match take max (applicable (view (w_store w)) user_id) with
       | [] => Err SSO_ERR_NOT_FOUND
       | l => Ok (sort_policies l)
       end, w).
Proof.
  intros Hi Hu Hr Hg. unfold policy_resolve_for_user. rewrite Hu, Hr, Hg. cbn [negb].
  destruct (collect_take POLICY_TARGET_USER user_id max [] w) as (e & ->); [done|simpl; lia|].
  change (mbind ?f (Ret ?x)) with (f x). cbn [fst snd app].
  destruct reads_user_roles as (fr & Hfr & Hrs). destruct reads_user_groups as (fg & Hfg & Hgs).
  unfold user_get_roles, user_get_groups.
  rewrite (call_read cx _ _ sb fr w _ Hsb Hfr (Hrs _ _ _ Hi)).
  change (mbind ?f (Ret ?x)) with (f x). cbn [fst snd]. unfold applicable.
  set (v := view (w_store w)). set (own := policies_of v POLICY_TARGET_USER user_id).
  assert (Hroles : match ids_answer (v_user_roles v user_id) 64 with
    | Ok roles => collect_tree cx POLICY_TARGET_ROLE true (role_get_ancestors cx) roles max (take max own) w
    | Err _ => Ret (take max own, w) end =
    Ret (take max (own ++ tree_policies v POLICY_TARGET_ROLE (v_role_parent v)
                            (take 64 (v_user_roles v user_id))), w)).
  { unfold ids_answer. destruct (take 64 (v_user_roles v user_id)) eqn:E; [by rewrite app_nil_r|].
    rewrite (collect_tree_take _ _ (v_role_parent v)) by
      (done || (intros; by apply (role_get_ancestors_chain cx sb view inv Hsb)) || apply length_take_le).
    by rewrite take_take_app. }
  rewrite Hroles. change (mbind ?f (Ret ?x)) with (f x). cbn [fst snd].
  rewrite (call_read cx _ _ sb fg w _ Hsb Hfg (Hgs _ _ _ Hi)).
  change (mbind ?f (Ret ?x)) with (f x). cbn [fst snd]. fold v.
  unfold ids_answer. destruct (take 64 (v_user_groups v user_id)) eqn:E.
  - change (mbind ?f (Ret ?x)) with (f x). cbn [fst snd]. simpl. rewrite app_nil_r.
    match goal with |- match ?x with _ => _ end = _ => by destruct x end.
  - rewrite (collect_tree_take _ _ (v_group_parent v)) by
      (done || (intros; by apply (group_get_ancestors_chain cx sb view inv Hsb)) || apply length_take_le).
    change (mbind ?f (Ret ?x)) with (f x). cbn [fst snd].
    rewrite take_take_app, <- app_assoc. fold v.
    match goal with |- match ?x with _ => _ end = _ => by destruct x end.
Qed.

(** C2. Policy resolution refines its specification for every storage
    backend that keeps the read interface, in the states of its
    invariant.  The applicable policies are those of the user, then of
    each role with its ancestors, then of each group with its ancestors;
    the answer holds the first [max] of them, in descending priority,
    equal priorities in the order they were found, and
    [SSO_ERR_NOT_FOUND] means there is none.  Nothing is written. *)
Theorem policy_resolve_refines user_id max w :
  inv (w_store w) → cx_user_mgr cx = true → cx_role_mgr cx = true → cx_group_mgr cx = true →
  ∃ r, policy_resolve_for_user cx user_id max w = Ret (r, w) ∧
    let found := take max (applicable (view (w_store w)) user_id) in
    match r with
    | Err e => e = SSO_ERR_NOT_FOUND ∧ found = []
    | Ok l => l ≡ₚ found ∧ l ≠ [] ∧ StronglySorted by_priority l ∧
        ∀ k, List.filter (λ p, p_priority p =? k) l = List.filter (λ p, p_priority p =? k) found
    end.
Proof.
  intros Hi Hu Hr Hg. eexists. split; [by apply policy_resolve_eq|]. cbv zeta.
  destruct (take max _) as [|p l]; [done|].
  destruct (sort_policies_spec (p :: l)) as (Hp & Hs & Hf). split_and!; try done.
  intros E. rewrite E in Hp. by apply Permutation_nil_cons in Hp.
Qed.
End Resolution.

Definition sample_policy (i prio : Z) : policy_t :=
  {| p_id := i; p_name := "p"; p_strategy_type := PERM_STRATEGY_FUNCTIONAL;
     p_effect := POLICY_EFFECT_ALLOW; p_priority := prio; p_rules := "{}";
     p_status := POLICY_STATUS_ENABLED; p_created_at := 0; p_updated_at := 0 |}.

(** User 7 holds role 2, which inherits from role 1; policies 1 and 2 are
    assigned to the user and to role 1. *)
Definition sample_store : mem_priv_t :=
  set_policies {| items := [sample_policy 1 5; sample_policy 2 9]; cap := 64 |}
    (set_policy_assignments
       {| items := [{| a3_pid := 1; a3_tt := POLICY_TARGET_USER; a3_tid := 7 |};
                    {| a3_pid := 2; a3_tt := POLICY_TARGET_ROLE; a3_tid := 1 |}]; cap := 64 |}
       (sample_roles 0)).

Lemma policy_resolve_refines_witness :
  ∃ l, policy_resolve_for_user (C := unit) (mem_context 0 (λ _, true) 0) 7 64
         {| w_store := sample_store; w_engine := None |} =
       Ret (Ok l, {| w_store := sample_store; w_engine := None |}) ∧
       map p_id l = [2; 1] ∧ StronglySorted by_priority l.
Proof.
  destruct (policy_resolve_refines (C := unit) (mem_context 0 (λ _, true) 0)
    (storage_memory_create 0 (λ _, true) 0) mem_view (λ _, True) eq_refl 7 64
    {| w_store := sample_store; w_engine := None |} I eq_refl eq_refl eq_refl) as (r & Hr & Hspec).
  eexists. split; [vm_compute; reflexivity|]. split; [reflexivity|].
  vm_compute in Hr. injection Hr as <-. cbv zeta in Hspec. destruct Hspec as (_ & _ & Hs & _). exact Hs.
Defined.

(* ------------------------------------------------------------------ *)
(** ** Roles of groups *)

(** Assigning a role to a group grants nothing: over the in-memory
    backend, after any successful [role_assign_to_group] the policies
    resolved for every user are what they were before. *)
Theorem role_assign_to_group_grants_nothing {C} now alloc fuel role_id group_id
    (w w' : world mem_priv_t C) :
  role_assign_to_group (mem_context now alloc fuel) role_id group_id w = Ret (Ok (), w') →
  ∀ user_id max r,
    policy_resolve_for_user (mem_context now alloc fuel) user_id max w = Ret (r, w) →
    policy_resolve_for_user (mem_context now alloc fuel) user_id max w' = Ret (r, w').
Proof.
  intros (w1 & Hc & Hs & _)%then_cache_Ok user_id max r.
  rewrite !(policy_resolve_eq (mem_context now alloc fuel) _ mem_view (λ _, True) eq_refl) by done.
  unfold call in Hc. simpl in Hc. unfold mem_assign_role_to_group, ASN_ADD in Hc.
  destruct (pl_add _ _ _ _) as [r' d]. simpl in Hc. injection Hc as _ <-. simpl in Hs.
  rewrite Hs. by intros [= <-].
Qed.

Definition sample_world (e : option (perm_caches unit)) : world mem_priv_t unit :=
  {| w_store := sample_store; w_engine := e |}.

Lemma role_assign_to_group_grants_nothing_witness :
  let w' := {| w_store := set_role_groups {| items := [{| pa := 2; pb := 5 |}]; cap := 64 |}
                            sample_store; w_engine := None |} in
  role_assign_to_group (mem_context 0 (λ _, true) 0) 2 5 (sample_world None) = Ret (Ok (), w') ∧
  policy_resolve_for_user (mem_context 0 (λ _, true) 0) 7 64 w' =
    Ret (Ok [sample_policy 2 9; sample_policy 1 5], w').
Proof.
  intros w'.
  assert (E : role_assign_to_group (mem_context 0 (λ _, true) 0) 2 5 (sample_world None) = Ret (Ok (), w'))
    by reflexivity.
  split; [exact E|].
  refine (role_assign_to_group_grants_nothing 0 (λ _, true) 0 2 5 (sample_world None) w' E 7 64 _ _).
  vm_compute. reflexivity.
Defined.

(* ------------------------------------------------------------------ *)
(** ** Cache coherence of updates *)

(** The engine of a world holds nothing about a user. *)
Definition engine_forgets {S C} (w : world S C) (u : Z) : Prop :=
  ∀ e, w_engine w = Some e → forgets_user e u.

Lemma then_cache_forgets {S C A} f (m : mgr_op S C A) w a w' u :
  (∀ e, forgets_user (f e) u) → then_cache f m w = Ret (Ok a, w') → engine_forgets w' u.
Proof.
  intros Hf (w1 & _ & _ & He)%then_cache_Ok e Hw. rewrite He in Hw.
  destruct (w_engine w1); [|done]. simpl in Hw. by simplify_eq.
Qed.

#[export] Hint Resolve invalidate_user_forgets invalidate_all_forgets invalidate_policy_forgets : sso.

(** The successful calls after which user [u] may have other policies. *)
Inductive affects {S C} (cx : sso_context S) (now : Z) (u : Z) : world S C → world S C → Prop :=
| aff_role_assign r w w' : role_assign_to_user cx r u w = Ret (Ok (), w') → affects cx now u w w'
| aff_role_unassign r w w' : role_unassign_from_user cx r u w = Ret (Ok (), w') → affects cx now u w w'
| aff_group_add g w w' : group_add_user cx g u w = Ret (Ok (), w') → affects cx now u w w'
| aff_group_remove g w w' : group_remove_user cx g u w = Ret (Ok (), w') → affects cx now u w w'
| aff_assign p t i w w' : t ≠ POLICY_TARGET_USER ∨ i = u →
    policy_assign_to cx p t i w = Ret (Ok (), w') → affects cx now u w w'
| aff_unassign p t i w w' : t ≠ POLICY_TARGET_USER ∨ i = u →
    policy_unassign_from cx p t i w = Ret (Ok (), w') → affects cx now u w w'
| aff_user_update usr w w' : u_id usr = u → user_update cx now usr w = Ret (Ok (), w') →
    affects cx now u w w'
| aff_user_delete w w' : user_delete cx u w = Ret (Ok (), w') → affects cx now u w w'
| aff_role_update r w w' : role_update cx now r w = Ret (Ok (), w') → affects cx now u w w'
| aff_role_delete i w w' : role_delete cx i w = Ret (Ok (), w') → affects cx now u w w'
| aff_group_update g w w' : group_update cx now g w = Ret (Ok (), w') → affects cx now u w w'
| aff_group_delete i w w' : group_delete cx i w = Ret (Ok (), w') → affects cx now u w w'
| aff_role_group r g w w' : role_assign_to_group cx r g w = Ret (Ok (), w') → affects cx now u w w'
| aff_role_ungroup r g w w' : role_unassign_from_group cx r g w = Ret (Ok (), w') → affects cx now u w w'
| aff_policy_update p w w' : policy_update cx now p w = Ret (Ok (), w') → affects cx now u w w'
| aff_policy_delete i w w' : policy_delete cx i w = Ret (Ok (), w') → affects cx now u w w'.

(** C3. Every successful change that can alter the policies of a user
    (its roles, groups and direct policies, and any role, group or policy)
    leaves no cached decision and no cached resolution of that user,
    whatever the storage backend does. *)
Theorem updates_invalidate {S C} (cx : sso_context S) now u (w w' : world S C) :
  affects cx now u w w' → engine_forgets w' u.
Proof.
  intros Ha. destruct Ha as [];
    match goal with H : _ _ = Ret (Ok (), _) |- _ => eapply then_cache_forgets; [|exact H] end;
    intros e; cbv beta; eauto with sso.
  - case_bool_decide; [|eauto with sso]. destruct H; [done|]. subst. eauto with sso.
  - case_bool_decide; [|eauto with sso]. destruct H; [done|]. subst. eauto with sso.
  - subst. eauto with sso.
Qed.

Lemma updates_invalidate_witness :
  let w' := {| w_store := set_user_roles {| items := [{| pa := 2; pb := 7 |}; {| pa := 1; pb := 7 |}];
                                            cap := 64 |} sample_store;
               w_engine := Some (perm_engine_cache_invalidate_user empty_caches 7) |} in
  role_assign_to_user (mem_context 0 (λ _, true) 0) 1 7 (sample_world (Some empty_caches)) = Ret (Ok (), w') ∧
  engine_forgets w' 7.
Proof.
  intros w'.
  assert (E : role_assign_to_user (mem_context 0 (λ _, true) 0) 1 7 (sample_world (Some empty_caches))
              = Ret (Ok (), w')) by (vm_compute; reflexivity).
  split; [exact E|].
  exact (updates_invalidate (mem_context 0 (λ _, true) 0) 0 7 _ w' (aff_role_assign _ _ _ _ _ _ E)).
Defined.
