(* ===== verification/RbacPerm.v ===== *)
(** * Role-based permission strategy (strategies/rbac_perm.c)

    The strategy reaches the storage through the context it was
    initialised with, so its evaluation runs over the managers' world. *)

From S2P Require Import Prelude CLib CNum Json Types Storage StorageMemory PermCache Context.
From S2P Require Import RoleMgr.

Record rbac_rule_item_t := { role_name : cstr; is_allow : bool }.

(** One element of the ["roles"] array. *)
Definition rbac_compile_item (item : json) : rbac_rule_item_t :=
  let effect := yyjson_obj_get (Some item) "effect" in
  {| role_name := copy_str (yyjson_obj_get (Some item) "name") 63;
     is_allow := match as_str effect with Some s => strcmp_eq s "allow" | None => true end |}.

Definition rbac_compile `{JsonReader} (alloc : Z → bool) (rules_json : option cstr)
  : sso_error_t * option (list rbac_rule_item_t) :=
  match rules_json with
  | None => (SSO_ERR_INVALID_PARAM, None)
  | Some text =>
      match yyjson_read text with
      | None => (SSO_ERR_RULE_INVALID, None)
      | Some root =>
          match as_arr (yyjson_obj_get (Some root) "roles") with
          | None => (SSO_ERR_RULE_INVALID, None)
          | Some roles_arr =>
              if negb (alloc 16) then (SSO_ERR_OUT_OF_MEMORY, None)
              else if negb (alloc (Z.of_nat (length roles_arr) * 65)) then (SSO_ERR_OUT_OF_MEMORY, None)
              else (SSO_OK, Some (map rbac_compile_item roles_arr))
          end
      end
  end.

Section Rbac.
Context {S C : Type} (cx : sso_context S).

(** [user_has_role]: the ids come back in a buffer of 128. *)
Definition user_has_role (user_id : Z) (role_name : cstr) (w : world S C)
  : outcome (bool * world S C) :=
  match cx_backend cx with
  | None => Ret (false, w)
  | Some sb =>
      if negb (cx_role_mgr cx) then Ret (false, w)
      else
        tw ← role_get_by_name cx (Some role_name) w;
        match tw.1 with
        | Err _ => Ret (false, tw.2)
        | Ok target =>
            match sb_get_user_roles_with_ancestors sb with
            | None => Ret (false, tw.2)
            | Some f =>
                rs ← f user_id 128%nat (w_store tw.2);
                let w := {| w_store := rs.2; w_engine := w_engine tw.2 |} in
                match rs.1 with
                | Err _ => Ret (false, w)
                | Ok ids => Ret (existsb (λ i, i =? r_id target) ids, w)
                end
            end
        end
  end.

(** [rbac_evaluate]; the userdata pointer is the context given to
    [rbac_init]. *)
Definition rbac_evaluate (user_id : Z) (wanted : cstr) (compiled : option (list rbac_rule_item_t))
    (w : world S C) : outcome (sso_error_t * option bool * world S C) :=
  match compiled with
  | None => Ret (SSO_ERR_INVALID_PARAM, None, w)
  | Some items =>
      match wanted with
      | [] => Ret (SSO_ERR_NOT_FOUND, None, w)
      | _ =>
          match List.find (λ it, strcmp_eq (role_name it) wanted) items with
          | None => Ret (SSO_ERR_NOT_FOUND, None, w)
          | Some it =>
              '(has, w') ← user_has_role user_id wanted w;
              if has : bool then Ret (SSO_OK, Some (is_allow it), w')
              else Ret (SSO_ERR_NOT_FOUND, None, w')
          end
      end
  end.
End Rbac.

Definition rbac_validate `{JsonReader} (rules_json : option cstr) : sso_error_t :=
  match rules_json with
  | None => SSO_ERR_INVALID_PARAM
  | Some text =>
      match yyjson_read text with
      | None => SSO_ERR_RULE_INVALID
      | Some root => match as_arr (yyjson_obj_get (Some root) "roles") with
                     | None => SSO_ERR_RULE_INVALID
                     | Some _ => SSO_OK
                     end
      end
  end.

(* ================================================================== *)
(** ** Correctness over the in-memory backend *)

Section RbacFacts.
Context {C : Type}.
Implicit Types w : world mem_priv_t C.

(** The user holds an active role, directly or through the hierarchy. *)
Definition holds (p : mem_priv_t) (user_id role_id : Z) : Prop :=
  ∃ i, i ∈ v_user_roles (mem_view p) user_id ∧ inherits p i role_id.

Lemma found_None {A} (o : option A) e : found o = Err e → o = None.
Proof. by destruct o. Qed.

(** Role lookup by name. *)
Lemma role_get_by_name_mem now alloc fuel n w :
  role_get_by_name (mem_context now alloc fuel) (Some n) w =
  Ret (found (da_find_str r_name (roles (w_store w)) n ≫= (items (roles (w_store w)) !!.)), w).
Proof.
  unfold role_get_by_name, need, call. simpl. unfold mem_role_get_by_name, MK_GETNM.
  destruct (da_find_str r_name (roles (w_store w)) n); simpl; by destruct w.
Qed.

(** Every inherited role is a row of the role table. *)
Lemma inherits_row p i j : inherits p i j → j ∈ map r_id (items (roles p)).
Proof.
  induction 1 as [i r Ha|i r j Ha Hp _ IH]; [|done].
  apply active_role_elem in Ha as (_ & Hin & <- & _). by apply (list_elem_of_fmap_2 r_id).
Qed.

Lemma user_has_role_holds now alloc fuel rank user_id wanted w target :
  acyclic (w_store w) rank →
  (∀ r, r ∈ items (roles (w_store w)) → (rank (r_id r) < fuel)%nat) →
  (length (v_user_roles (mem_view (w_store w)) user_id) ≤ 64)%nat →
  (length (items (roles (w_store w))) < 128)%nat →
  da_find_str r_name (roles (w_store w)) wanted ≫= (items (roles (w_store w)) !!.) = Some target →
  ∃ b, user_has_role (mem_context now alloc fuel) user_id wanted w = Ret (b, w) ∧
       (b = true ↔ holds (w_store w) user_id (r_id target)).
Proof.
  intros Hac Hfuel H64 H128 Htgt. unfold user_has_role. cbn [cx_backend cx_role_mgr mem_context negb].
  rewrite role_get_by_name_mem, Htgt. change (mbind ?f (Ret ?x)) with (f x). cbn [fst snd found].
  destruct (mem_roles_with_ancestors_correct fuel user_id 128 (w_store w) rank Hac Hfuel)
    as (ids & Hids & Hnd & _ & Hsound & Hcomplete).
  rewrite (take_ge _ 64) in Hsound, Hcomplete by done.
  cbn [sb_get_user_roles_with_ancestors storage_memory_create]. rewrite Hids.
  change (mbind ?f (Ret ?x)) with (f x). cbn [fst snd].
  replace {| w_store := w_store w; w_engine := w_engine w |} with w by by destruct w.
  assert (Hroom : (length ids < 128)%nat).
  { eapply Nat.le_lt_trans; [|exact H128]. rewrite <- (length_map r_id).
    apply submseteq_length, NoDup_submseteq; [done|].
    intros j (i & _ & Hij)%Hsound. by eapply inherits_row. }
  assert (Hmem : ∀ j, j ∈ ids ↔ holds (w_store w) user_id j).
  { intros j. split; [intros (i & ? & ?)%Hsound; by exists i|]. intros (i & Hi & Hij).
    by eapply Hcomplete. }
  destruct ids as [|i ids]; cbn [some_ids].
  - exists false. split; [done|]. rewrite <- Hmem. split; [done|]. by intros ?%not_elem_of_nil.
  - eexists. split; [done|]. rewrite <- Hmem, existsb_exists. setoid_rewrite <- list_elem_of_In.
    split; [|intros; eexists; split; [done|by apply Z.eqb_eq]].
    intros (x & Hx & He). reflect_bools. by subst.
Qed.

(** Over the in-memory backend with an acyclic hierarchy, a user with
    at most 64 roles and fewer than 128 effective ones, a role rule
    decides with its effect exactly when the first rule for the requested
    name names a role that exists and that the user holds, directly or as
    an active ancestor of an active role; otherwise the policy does not
    apply, and nothing changes. *)
Theorem rbac_evaluate_correct now alloc fuel rank user_id wanted rules w target :
  acyclic (w_store w) rank →
  (∀ r, r ∈ items (roles (w_store w)) → (rank (r_id r) < fuel)%nat) →
  (length (v_user_roles (mem_view (w_store w)) user_id) ≤ 64)%nat →
  (length (items (roles (w_store w))) < 128)%nat →
  wanted ≠ [] →
  da_find_str r_name (roles (w_store w)) wanted ≫= (items (roles (w_store w)) !!.) = Some target →
  ∃ e res, rbac_evaluate (mem_context now alloc fuel) user_id wanted (Some rules) w = Ret (e, res, w) ∧
    (∀ b, res = Some b ↔
      (∃ it, List.find (λ it, strcmp_eq (role_name it) wanted) rules = Some it ∧ is_allow it = b) ∧
      holds (w_store w) user_id (r_id target)) ∧
    (e = SSO_OK ↔ is_Some res) ∧ (e ≠ SSO_OK → e = SSO_ERR_NOT_FOUND).
Proof.
  intros Hac Hfuel H64 H128 Hne Htgt. destruct w as [p eng]. cbn [w_store] in *.
  destruct (user_has_role_holds now alloc fuel rank user_id wanted {| w_store := p; w_engine := eng |} target)
    as (b & Hb & Hhold); [done..|].
  unfold rbac_evaluate. destruct wanted as [|c wanted]; [done|].
  destruct (List.find _ rules) as [it|] eqn:Ef.
  - rewrite Hb. change (mbind ?f (Ret ?x)) with (f x). cbv beta iota.
    destruct b; (eexists _, _; split; [reflexivity|]); (split; [|split; [split; [eauto|by intros []]|done]]);
      intros b'; cbn [w_store] in *; naive_solver.
  - eexists _, _. split; [reflexivity|]. split; [|split; [split; [done|by intros []]|done]]. naive_solver.
Qed.
End RbacFacts.

(** User 7 holds role 2 ("lead"), which inherits from role 1 ("base"). *)
Lemma rbac_evaluate_correct_witness :
  let w : world mem_priv_t unit := {| w_store := sample_roles 0; w_engine := None |} in
  ∃ e res, rbac_evaluate (mem_context 0 (λ _, true) 3) 7 "base"
             (Some [{| role_name := "base"; is_allow := true |}]) w = Ret (e, res, w) ∧
           res = Some true ∧ holds (sample_roles 0) 7 1.
Proof.
  intros w.
  assert (Hrows : ∀ r, r ∈ items (roles (w_store w)) → r = sample_role 1 "base" 0 ∨ r = sample_role 2 "lead" 1).
  { intros r Hr. simpl in Hr. set_solver. }
  destruct (rbac_evaluate_correct 0 (λ _, true) 3 Z.to_nat 7 "base"
    [{| role_name := "base"; is_allow := true |}] w (sample_role 1 "base" 0))
    as (e & res & He & Hres & _ & _).
  - intros r [-> | ->]%Hrows Hp; simpl in *; [by destruct Hp|lia].
  - intros r [-> | ->]%Hrows; simpl; lia.
  - simpl. lia.
  - simpl. lia.
  - done.
  - reflexivity.
  - assert (Hh : holds (sample_roles 0) 7 1).
    { exists 2. split; [by left|].
      eapply (inherits_up _ 2 (sample_role 2 "lead" 1)); [reflexivity|done|].
      eapply (inherits_self _ 1). reflexivity. }
    exists e, res. split; [exact He|]. split; [|exact Hh].
    apply Hres. split; [|exact Hh]. eexists. split; reflexivity.
Defined.
