(* ===== verification/PermEngine.v ===== *)
(** * The permission engine (src/permission.c)

    The strategy registry, the evaluation of one policy and of all the
    policies of a user with the two decision caches, and the one-shot
    checks.  Threads take the engine's lock around every access of the
    caches; the model is the sequence of critical sections of one call. *)

From stdpp Require Import sorting.
From S2P Require Import FuncPerm ApiPerm LocPerm AbacPerm LbacPerm.
From S2P Require Import Prelude CLib CNum Json Types Storage StorageMemory PermCache Context.
From S2P Require Import RoleMgr GroupMgr UserMgr PolicyMgr DataPerm RbacPerm.

(** A compiled rule behind its [void*]: which strategy made it. *)
Inductive compiled_rule :=
| CFunc (r : list FuncPerm.func_rule_item_t)
| CApi (r : list ApiPerm.api_rule_item_t)
| CData (r : DataPerm.data_compiled_rule_t)
| CRbac (r : list RbacPerm.rbac_rule_item_t)
| CLoc (r : list LocPerm.loc_rule_item_t)
| CAbac (r : AbacPerm.abac_compiled_rule_t)
| CLbac (r : list LbacPerm.lbac_rule_item_t).

Section Engine.
Context {S : Type}.
Notation world := (world S compiled_rule).

(** [permission_strategy_t]: NULL members are [None]. *)
Record permission_strategy := {
  ps_type : perm_strategy_type_t;
  ps_name : cstr;
  ps_init : option sso_error_t;
  ps_compile_rules : option (cstr → outcome (sso_error_t * option compiled_rule));
  ps_evaluate : option (eval_context → policy_t → option compiled_rule → world →
                        outcome (sso_error_t * option bool * eval_context * world))
}.

(* ------------------------------------------------------------------ *)
(** ** Strategy registry *)

Definition MAX_STRATEGIES : nat := 16.

Definition perm_engine_get_strategy (strategies : list permission_strategy)
    (type : perm_strategy_type_t) : option permission_strategy :=
  List.find (λ s, bool_decide (ps_type s = type)) strategies.

(** [strategies] holds pointers, so the order is the registration order;
    a failing [init] leaves the strategy registered. *)
Definition perm_engine_register_strategy (strategies : list permission_strategy)
    (strategy : permission_strategy) : sso_error_t * list permission_strategy :=
  if existsb (λ s, bool_decide (ps_type s = ps_type strategy)) strategies
  then (SSO_ERR_STRATEGY_CONFLICT, strategies)
  else if (MAX_STRATEGIES <=? length strategies)%nat then (SSO_ERR_OUT_OF_MEMORY, strategies)
  else (default SSO_OK (ps_init strategy), strategies ++ [strategy]).

Definition perm_engine_unregister_strategy (strategies : list permission_strategy)
    (type : perm_strategy_type_t) : sso_error_t * list permission_strategy :=
  match find_index (λ s, bool_decide (ps_type s = type)) strategies with
  | Some i => (SSO_OK, delete i strategies)
  | None => (SSO_ERR_STRATEGY_NOT_FOUND, strategies)
  end.

(* ------------------------------------------------------------------ *)
(** ** One policy *)

Definition yes_no (b : bool) (y n : cstr) : cstr := if b then y else n.

(** [snprintf(buf, 256, "Strategy %s: %s (matched: %s)", ...)] *)
Definition strategy_trace (name : cstr) (allow matched : bool) : cstr :=
  take 255 (("Strategy " : cstr) ++ name ++ (": " : cstr) ++ yes_no allow "ALLOW" "DENY" ++
            (" (matched: " : cstr) ++ yes_no matched "YES" "NO" ++ (")" : cstr)).

(** The rule to evaluate: cached, or compiled now and cached; a failed
    compilation leaves NULL. *)
Definition engine_compiled (s : permission_strategy) (policy : policy_t) (w : world)
  : outcome (option compiled_rule * world) :=
  match ps_compile_rules s, w_engine w with
  | None, _ => Ret (None, w)
  | Some _, None => Crash
  | Some compile, Some e =>
      match perm_engine_get_cached_rule e (p_id policy) with
      | Some c => Ret (Some c, w)
      | None =>
          '(cerr, compiled) ← compile (p_rules policy);
          if is_ok cerr
          then Ret (compiled, {| w_store := w_store w;
                 w_engine := Some (perm_engine_cache_rule e (p_id policy) (ps_type s) compiled) |})
          else Ret (compiled, w)
      end
  end.

(** Error, decision on success, trace. *)
Definition perm_engine_evaluate_policy (strategies : list permission_strategy) (policy : policy_t)
    (ctx : eval_context) (w : world)
  : outcome (sso_error_t * option bool * option cstr * eval_context * world) :=
  if bool_decide (p_status policy = POLICY_STATUS_DISABLED)
  then Ret (SSO_ERR_NOT_FOUND, None, Some ("Policy disabled (skipped)" : cstr), ctx, w)
  else
    match perm_engine_get_strategy strategies (p_strategy_type policy) with
    | None => Ret (SSO_ERR_STRATEGY_NOT_FOUND, None, Some ("Strategy not found" : cstr), ctx, w)
    | Some s =>
        match ps_evaluate s with
        | None => Ret (SSO_ERR_NOT_IMPLEMENTED, None, None, ctx, w)
        | Some evaluate =>
            '(compiled, w) ← engine_compiled s policy w;
            '(err, res, ctx, w) ← evaluate ctx policy compiled w;
            let trace := Some (strategy_trace (ps_name s) (default false res) (is_ok err)) in
            if is_ok err then Ret (SSO_OK, Some (default false res), trace, ctx, w)
            else Ret (err, None, trace, ctx, w)
        end
    end.

(* ------------------------------------------------------------------ *)
(** ** All policies of a user *)

Record engine_metrics_t := {
  total_evals : Z; cache_hits_l1 : Z; cache_hits_l2 : Z; allows : Z; denys : Z;
  total_duration_us : Z
}.

(** A line of the audit log: what [audit_log_decision] is called with. *)
Record audit_decision := {
  ad_user_id : Z; ad_allowed : bool; ad_trace : cstr; ad_duration_ms : Z; ad_cache_hit : bool
}.

Record engine_state := {
  es_world : world; es_metrics : engine_metrics_t; es_audit : list audit_decision
}.

Definition count_decision (allowed : bool) (m : engine_metrics_t) : engine_metrics_t :=
  {| total_evals := u64 (total_evals m + 1); cache_hits_l1 := cache_hits_l1 m;
     cache_hits_l2 := cache_hits_l2 m;
     allows := if allowed then u64 (allows m + 1) else allows m;
     denys := if allowed then denys m else u64 (denys m + 1);
     total_duration_us := total_duration_us m |}.
Definition count_l1 (m : engine_metrics_t) : engine_metrics_t :=
  {| total_evals := total_evals m; cache_hits_l1 := u64 (cache_hits_l1 m + 1);
     cache_hits_l2 := cache_hits_l2 m; allows := allows m; denys := denys m;
     total_duration_us := total_duration_us m |}.
Definition count_l2 (m : engine_metrics_t) : engine_metrics_t :=
  {| total_evals := total_evals m; cache_hits_l1 := cache_hits_l1 m;
     cache_hits_l2 := u64 (cache_hits_l2 m + 1); allows := allows m; denys := denys m;
     total_duration_us := total_duration_us m |}.
Definition count_duration (ms : Z) (m : engine_metrics_t) : engine_metrics_t :=
  {| total_evals := total_evals m; cache_hits_l1 := cache_hits_l1 m;
     cache_hits_l2 := cache_hits_l2 m; allows := allows m; denys := denys m;
     total_duration_us := u64 (total_duration_us m + u64 (ms * 1000)) |}.

(** [trace_off += snprintf(full_trace + trace_off, 4096 - trace_off, ...)],
    with the offset brought back below 4096. *)
Definition trace_append (full text : cstr) : cstr := take 4095 (full ++ text).

(** How the policy loop ends. *)
Inductive verdict := Overridden | Finished (any_allowed : bool).

Fixpoint eval_loop (strategies : list permission_strategy) (want_trace : bool)
    (policies : list policy_t) (ctx : eval_context) (w : world) (full_trace : cstr)
    (any_allowed : bool) : outcome (verdict * cstr * eval_context * world) :=
  match policies with
  | [] => Ret (Finished any_allowed, full_trace, ctx, w)
  | p :: rest =>
      '(err, res, policy_trace, ctx, w) ← perm_engine_evaluate_policy strategies p ctx w;
      let full_trace :=
        match policy_trace with
        | Some t => if want_trace
                    then trace_append full_trace (("[Policy " : cstr) ++ p_name p ++ ("] " : cstr) ++ t ++ [chr 10])
                    else full_trace
        | None => full_trace
        end in
      match res with
      | None => eval_loop strategies want_trace rest ctx w full_trace any_allowed
      | Some false =>
          let full_trace :=
            if want_trace
            then trace_append full_trace (("Result: DENIED (Override by policy)" : cstr) ++ [chr 10])
            else full_trace in
          Ret (Overridden, full_trace, ctx, w)
      | Some true => eval_loop strategies want_trace rest ctx w full_trace true
      end
  end.

(** The L2 entry of a parameter hash, and the L1 entry of a user. *)
Definition l2_index (phash : Z) : nat := Z.to_nat (phash mod 1024).
Definition l1_index (user_id : Z) : nat := Z.to_nat (user_id mod 128).

Definition l2_hit (e : perm_caches compiled_rule) (user_id phash now : Z) : option bool :=
  match result_cache e !! l2_index phash with
  | Some r => if l2_valid r && (l2_user_id r =? user_id) && (l2_params_hash r =? phash) &&
                 (u64 (now - l2_timestamp r) <? 30000)
              then Some (l2_allowed r) else None
  | None => None
  end.

Definition l1_hit (e : perm_caches compiled_rule) (user_id now : Z) : option (list policy_t) :=
  match res_cache e !! l1_index user_id with
  | Some r => if l1_valid r && (l1_user_id r =? user_id) && (u64 (now - l1_timestamp r) <? 60000)
              then Some (l1_policies r) else None
  | None => None
  end.

Definition l1_store (e : perm_caches compiled_rule) (user_id now : Z) (ps : list policy_t)
  : perm_caches compiled_rule :=
  {| cache := cache e; cache_count := cache_count e;
     res_cache := <[l1_index user_id := {| l1_user_id := user_id; l1_policies := ps;
                                           l1_timestamp := now; l1_valid := true |}]> (res_cache e);
     result_cache := result_cache e |}.

Definition l2_store (e : perm_caches compiled_rule) (user_id phash now : Z) (allowed : bool)
  : perm_caches compiled_rule :=
  {| cache := cache e; cache_count := cache_count e; res_cache := res_cache e;
     result_cache := <[l2_index phash := {| l2_user_id := user_id; l2_params_hash := phash;
                                            l2_allowed := allowed; l2_timestamp := now;
                                            l2_valid := true |}]> (result_cache e) |}.

Definition set_engine (e : perm_caches compiled_rule) (w : world) : world :=
  {| w_store := w_store w; w_engine := Some e |}.

Definition with_audit (a : audit_decision) (st : engine_state) : engine_state :=
  {| es_world := es_world st; es_metrics := es_metrics st; es_audit := es_audit st ++ [a] |}.
Definition with_world (w : world) (st : engine_state) : engine_state :=
  {| es_world := w; es_metrics := es_metrics st; es_audit := es_audit st |}.
Definition with_metrics (f : engine_metrics_t → engine_metrics_t) (st : engine_state) : engine_state :=
  {| es_world := es_world st; es_metrics := f (es_metrics st); es_audit := es_audit st |}.

(** What a call leaves in [*result] ([None] when it returns before writing
    it) and in [*decision_trace]. *)
Definition eval_answer : Type := sso_error_t * option bool * option cstr * eval_context * engine_state.

(** Phase 3: evaluate the policies and store the decision.  [later] is the
    second reading of the monotonic clock. *)
Definition evaluate_resolved (strategies : list permission_strategy) (now later : Z)
    (want_trace : bool) (ctx : eval_context) (phash : Z) (policies : list policy_t)
    (st : engine_state) : outcome eval_answer :=
  '(v, full_trace, ctx, w) ← eval_loop strategies want_trace policies ctx (es_world st) [] false;
  match w_engine w with
  | None => Crash
  | Some e =>
      let duration := u64 (later - now) in
      match v with
      | Overridden =>
          let st := with_world (set_engine (l2_store e (ec_user_id ctx) phash now false) w) st in
          let st := with_audit {| ad_user_id := ec_user_id ctx; ad_allowed := false;
                                  ad_trace := full_trace; ad_duration_ms := duration;
                                  ad_cache_hit := false |} st in
          Ret (SSO_OK, Some false, if want_trace then Some full_trace else None, ctx, st)
      | Finished any_allowed =>
          let full_trace :=
            if want_trace then
              trace_append full_trace
                (yes_no any_allowed "Result: ALLOWED" "Result: DENIED (No matching allow rule)" ++ [chr 10])
            else full_trace in
          let st := with_world (set_engine (l2_store e (ec_user_id ctx) phash now any_allowed) w) st in
          let st := with_metrics (λ m, count_duration duration (count_decision any_allowed m)) st in
          let st := with_audit {| ad_user_id := ec_user_id ctx; ad_allowed := any_allowed;
                                  ad_trace := full_trace; ad_duration_ms := duration;
                                  ad_cache_hit := false |} st in
          Ret (SSO_OK, Some any_allowed, if want_trace then Some full_trace else None, ctx, st)
      end
  end.

(** [perm_engine_evaluate_internal] *)
Definition perm_engine_evaluate_internal (cx : sso_context S) (strategies : list permission_strategy)
    (alloc : Z → bool) (now later : Z) (want_trace : bool) (ctx : eval_context) (st : engine_state)
  : outcome eval_answer :=
  match w_engine (es_world st) with
  | None => Ret (SSO_ERR_INVALID_PARAM, None, None, ctx, st)
  | Some e =>
      if negb (ec_has_user ctx) && (ec_user_id ctx =? 0)
      then Ret (SSO_ERR_INVALID_PARAM, None, None, ctx, st)
      else if negb (alloc 4096) then Ret (SSO_ERR_OUT_OF_MEMORY, None, None, ctx, st)
      else
        let uid := ec_user_id ctx in
        let phash := hash_params ctx in
        let duration := u64 (later - now) in
        let log allowed hit text st :=
          with_audit {| ad_user_id := uid; ad_allowed := allowed; ad_trace := text;
                        ad_duration_ms := duration; ad_cache_hit := hit |} st in
        let l2_text : cstr := "Decision from Result Cache (L2)" in
        match l2_hit e uid phash now with
        | Some allowed =>
            let st := with_metrics (λ m, count_decision allowed (count_l2 m)) st in
            Ret (SSO_OK, Some allowed, if want_trace then Some l2_text else None, ctx,
                 log allowed true l2_text st)
        | None =>
            let no_policies (st : engine_state) : outcome eval_answer :=
              let t : cstr := "Default DENY: No policies found" in
              Ret (SSO_OK, Some false, if want_trace then Some t else None, ctx, log false false t st) in
            match l1_hit e uid now with
            | Some policies =>
                let st := with_metrics count_l1 st in
                match policies with
                | [] => no_policies st
                | _ => evaluate_resolved strategies now later want_trace ctx phash policies st
                end
            | None =>
                if negb (alloc (8312 * 64)) then Ret (SSO_ERR_OUT_OF_MEMORY, Some false, None, ctx, st)
                else if negb (cx_policy_mgr cx)
                then Ret (SSO_ERR_INIT, Some false, None, ctx,
                          log false false "Error: policy manager not found" st)
                else
                  '(r, w) ← policy_resolve_for_user cx uid 64 (es_world st);
                  let st := with_world w st in
                  match r with
                  | Ok policies =>
                      match w_engine w with
                      | None => Crash
                      | Some e =>
                          let e := match l1_hit e uid now with
                                   | Some _ => e
                                   | None => l1_store e uid now policies
                                   end in
                          evaluate_resolved strategies now later want_trace ctx phash policies
                            (with_world (set_engine e w) st)
                      end
                  | Err err =>
                      if bool_decide (err = SSO_ERR_NOT_FOUND) then no_policies st
                      else Ret (err, Some false, None, ctx,
                                log false false "Error: policy resolution failed" st)
                  end
            end
        end
  end.

End Engine.
Arguments permission_strategy S : clear implicits.
Arguments engine_state S : clear implicits.

(* ------------------------------------------------------------------ *)
(** ** The built-in strategies as the engine sees them *)

Section Builtins.
Context {S : Type} `{JsonReader} (cx : sso_context S) (alloc : Z → bool).
Notation world := (world S compiled_rule).

(** A compiler whose result becomes a [void*]. *)
Definition boxed {A} (box : A → compiled_rule) (r : sso_error_t * option A)
  : outcome (sso_error_t * option compiled_rule) := Ret (r.1, box <$> r.2).

(** An evaluation that only reads the context. *)
Definition pure_eval (r : sso_error_t * option bool) (ctx : eval_context) (w : world)
  : outcome (sso_error_t * option bool * eval_context * world) := Ret (r, ctx, w).

Definition boxed_data (r : outcome (sso_error_t * option data_compiled_rule_t))
  : outcome (sso_error_t * option compiled_rule) :=
  r ← r; boxed CData r.
Definition data_eval (r : option data_compiled_rule_t) (ctx : eval_context) (w : world)
  : outcome (sso_error_t * option bool * eval_context * world) :=
  r ← data_evaluate alloc ctx r; Ret (r, w).
Definition rbac_eval (role : cstr) (r : option (list rbac_rule_item_t)) (ctx : eval_context) (w : world)
  : outcome (sso_error_t * option bool * eval_context * world) :=
  r ← rbac_evaluate cx (ec_user_id ctx) role r w; Ret (r.1, ctx, r.2).
Definition lbac_eval (r : outcome (sso_error_t * option bool)) (ctx : eval_context) (w : world)
  : outcome (sso_error_t * option bool * eval_context * world) :=
  r ← r; pure_eval r ctx w.

Definition func_perm_strategy : permission_strategy S :=
  {| ps_type := PERM_STRATEGY_FUNCTIONAL; ps_name := "functional"; ps_init := Some SSO_OK;
     ps_compile_rules := Some (λ rules, boxed CFunc (func_compile alloc (Some rules)));
     ps_evaluate := Some (λ ctx _ c w,
       let code := get_str off_function_code (ec_params ctx) in
       match c with
       | None => pure_eval (func_evaluate code None) ctx w
       | Some (CFunc r) => pure_eval (func_evaluate code (Some r)) ctx w
       | Some _ => Crash
       end) |}.

Definition api_perm_strategy : permission_strategy S :=
  {| ps_type := PERM_STRATEGY_API; ps_name := "api"; ps_init := Some SSO_OK;
     ps_compile_rules := Some (λ rules, boxed CApi (api_compile alloc (Some rules)));
     ps_evaluate := Some (λ ctx _ c w,
       let m := get_str off_http_method (ec_params ctx) in
       let path := get_str off_request_path (ec_params ctx) in
       match c with
       | None => pure_eval (api_evaluate m path None) ctx w
       | Some (CApi r) => pure_eval (api_evaluate m path (Some r)) ctx w
       | Some _ => Crash
       end) |}.

Definition data_perm_strategy : permission_strategy S :=
  {| ps_type := PERM_STRATEGY_DATA; ps_name := "data"; ps_init := Some SSO_OK;
     ps_compile_rules := Some (λ rules, boxed_data (data_compile alloc (Some rules)));
     ps_evaluate := Some (λ ctx _ c w,
       match c with
       | None => data_eval None ctx w
       | Some (CData r) => data_eval (Some r) ctx w
       | Some _ => Crash
       end) |}.

Definition rbac_perm_strategy : permission_strategy S :=
  {| ps_type := PERM_STRATEGY_RBAC; ps_name := "rbac"; ps_init := Some SSO_OK;
     ps_compile_rules := Some (λ rules, boxed CRbac (rbac_compile alloc (Some rules)));
     ps_evaluate := Some (λ ctx _ c w,
       let role := get_str off_role_name (ec_params ctx) in
       match c with
       | None => rbac_eval role None ctx w
       | Some (CRbac r) => rbac_eval role (Some r) ctx w
       | Some _ => Crash
       end) |}.

Definition location_perm_strategy : permission_strategy S :=
  {| ps_type := PERM_STRATEGY_LOCATION; ps_name := "location"; ps_init := Some SSO_OK;
     ps_compile_rules := Some (λ rules, boxed CLoc (loc_compile alloc (Some rules)));
     ps_evaluate := Some (λ ctx _ c w,
       let ip := get_str off_source_ip (ec_params ctx) in
       let geo := get_str off_geo_country (ec_params ctx) in
       match c with
       | None => pure_eval (loc_evaluate ip geo None) ctx w
       | Some (CLoc r) => pure_eval (loc_evaluate ip geo (Some r)) ctx w
       | Some _ => Crash
       end) |}.

Definition abac_perm_strategy : permission_strategy S :=
  {| ps_type := PERM_STRATEGY_ABAC; ps_name := "abac"; ps_init := Some SSO_OK;
     ps_compile_rules := Some (λ rules, boxed CAbac (abac_compile alloc (Some rules)));
     ps_evaluate := Some (λ ctx _ c w,
       let sa := get_str off_subject_attrs (ec_params ctx) in
       let ra := get_str off_resource_attrs (ec_params ctx) in
       match c with
       | None => pure_eval (abac_evaluate sa ra (ec_environment ctx) None) ctx w
       | Some (CAbac r) => pure_eval (abac_evaluate sa ra (ec_environment ctx) (Some r)) ctx w
       | Some _ => Crash
       end) |}.

Definition lbac_perm_strategy : permission_strategy S :=
  {| ps_type := PERM_STRATEGY_LBAC; ps_name := "lbac"; ps_init := Some SSO_OK;
     ps_compile_rules := Some (λ rules, boxed CLbac (lbac_compile alloc (Some rules)));
     ps_evaluate := Some (λ ctx _ c w,
       let ul := get_str off_user_labels (ec_params ctx) in
       let rl := get_str off_resource_label (ec_params ctx) in
       match c with
       | None => lbac_eval (lbac_evaluate ul rl None) ctx w
       | Some (CLbac r) => lbac_eval (lbac_evaluate ul rl (Some r)) ctx w
       | Some _ => Crash
       end) |}.

(** The registrations of [perm_engine_create], in order. *)
Definition builtin_strategies : list (permission_strategy S) :=
  [func_perm_strategy; api_perm_strategy; data_perm_strategy; rbac_perm_strategy;
   location_perm_strategy; abac_perm_strategy; lbac_perm_strategy].

Fixpoint register_all (todo strategies : list (permission_strategy S))
  : sso_error_t * list (permission_strategy S) :=
  match todo with
  | [] => (SSO_OK, strategies)
  | s :: rest =>
      let '(err, strategies) := perm_engine_register_strategy strategies s in
      if is_ok err then register_all rest strategies else (err, strategies)
  end.

Definition perm_engine_create : sso_error_t * option (list (permission_strategy S)) :=
  let '(err, strategies) := register_all builtin_strategies [] in
  if is_ok err then (SSO_OK, Some strategies) else (err, None).

(* ------------------------------------------------------------------ *)
(** ** One-shot checks *)

Context (strategies : list (permission_strategy S)) (now later brk : Z).

(** The common shape: fetch the user, fill a fresh context, evaluate,
    destroy the context. *)
Definition perm_check (user_id : Z) (fill : list ascii → list ascii) (st : engine_state S)
  : outcome (sso_error_t * option bool * engine_state S) :=
  '(ru, w) ← user_get_by_id cx user_id (es_world st);
  let st := with_world w st in
  match ru with
  | Err e => Ret (e, None, st)
  | Ok user =>
      let ectx := with_params fill (eval_context_init brk user) in
      '(err, res, _, ectx, st) ← perm_engine_evaluate_internal cx strategies alloc now later false ectx st;
      _ ← eval_context_destroy ectx;
      Ret (err, res, st)
  end.

Definition perm_check_function (user_id : Z) (function_code : option cstr) (st : engine_state S)
  : outcome (sso_error_t * option bool * engine_state S) :=
  match function_code with
  | None => Ret (SSO_ERR_INVALID_PARAM, None, st)
  | Some code => perm_check user_id (put_str off_function_code 128 code) st
  end.

Definition perm_check_api (user_id : Z) (method path : option cstr) (st : engine_state S)
  : outcome (sso_error_t * option bool * engine_state S) :=
  match method, path with
  | Some m, Some p =>
      perm_check user_id (λ ps, put_str off_request_path 1024 p (put_str off_http_method 8 m ps)) st
  | _, _ => Ret (SSO_ERR_INVALID_PARAM, None, st)
  end.

Definition perm_check_rbac (user_id : Z) (role_name : option cstr) (st : engine_state S)
  : outcome (sso_error_t * option bool * engine_state S) :=
  match role_name with
  | None => Ret (SSO_ERR_INVALID_PARAM, None, st)
  | Some n => perm_check user_id (put_str off_role_name 64 n) st
  end.

(** [if (s) sso_strlcpy(field, s, size)] *)
Definition put_opt (off size : nat) (s : option cstr) (ps : list ascii) : list ascii :=
  match s with Some s => put_str off size s ps | None => ps end.

Definition perm_check_location (user_id : Z) (source_ip geo_country : option cstr) (st : engine_state S)
  : outcome (sso_error_t * option bool * engine_state S) :=
  match source_ip with
  | None => Ret (SSO_ERR_INVALID_PARAM, None, st)
  | Some ip =>
      perm_check user_id (λ ps, put_opt off_geo_country 8 geo_country (put_str off_source_ip 64 ip ps)) st
  end.

Definition perm_check_lbac (user_id : Z) (user_labels resource_label : option cstr) (st : engine_state S)
  : outcome (sso_error_t * option bool * engine_state S) :=
  match user_labels, resource_label with
  | Some ul, Some rl =>
      perm_check user_id (λ ps, put_str off_resource_label 64 rl (put_str off_user_labels 256 ul ps)) st
  | _, _ => Ret (SSO_ERR_INVALID_PARAM, None, st)
  end.

Definition perm_check_abac (user_id : Z) (subject_attrs resource_attrs action : option cstr)
    (st : engine_state S) : outcome (sso_error_t * option bool * engine_state S) :=
  perm_check user_id (λ ps, put_opt off_action 64 action
    (put_opt off_resource_attrs 2048 resource_attrs (put_opt off_subject_attrs 2048 subject_attrs ps))) st.

(** The context of a data check: the record is copied to the heap. *)
Definition data_context (user : user_t) (rt : cstr) (record_json : option cstr) : eval_context :=
  let ectx := with_params (put_str off_resource_type 64 rt) (eval_context_init brk user) in
  let ectx :=
    match record_json with
    | Some rec =>
        let '(a, c) := match strdup alloc rec with
                       | Some rec => heap_alloc (HStr rec) ectx
                       | None => (0, ectx)
                       end in
        with_params (λ p, put_word off_record_len (Z.of_nat (length rec)) (put_word off_record a p)) c
    | None => ectx
    end in
  with_params (λ p, put_word off_field_filter_count 0 (put_word off_field_filter 0 p)) ectx.

(** The data check also hands the field filter to the caller: the strings
    it points to ([None] for a NULL pointer) and the count. *)
Definition perm_check_data (user_id : Z) (resource_type record_json : option cstr) (want_filter : bool)
    (st : engine_state S)
  : outcome (sso_error_t * option bool * option (option hobj * Z) * engine_state S) :=
  match resource_type with
  | None => Ret (SSO_ERR_INVALID_PARAM, None, None, st)
  | Some rt =>
      '(ru, w) ← user_get_by_id cx user_id (es_world st);
      let st := with_world w st in
      match ru with
      | Err e => Ret (e, None, None, st)
      | Ok user =>
          let ectx := data_context user rt record_json in
          '(err, res, _, ectx, st) ← perm_engine_evaluate_internal cx strategies alloc now later false ectx st;
          if is_ok err && want_filter then
            let ff := get_word off_field_filter (ec_params ectx) in
            let filter := (if ff =? 0 then None else ec_heap ectx !! ff,
                           get_word off_field_filter_count (ec_params ectx)) in
            let ectx := with_heap (delete ff (ec_heap ectx))
                          (with_params (λ p, put_word off_field_filter_count 0 (put_word off_field_filter 0 p)) ectx) in
            _ ← eval_context_destroy ectx;
            Ret (err, res, Some filter, st)
          else
            _ ← eval_context_destroy ectx;
            Ret (err, res, None, st)
      end
  end.

End Builtins.
