(* ===== verification/Decision.v ===== *)
(** * Decisions of the permission engine

    What [perm_engine_evaluate] and the checks built on it decide: deny
    overrides, end-to-end decisions over any storage backend, and the
    places where the caches or the policy fields do not mean what they
    say. *)

From stdpp Require Import sorting.
From S2P Require Import FuncPerm ApiPerm LocPerm AbacPerm LbacPerm.
From S2P Require Import Prelude CLib CNum Json Types Storage StorageMemory PermCache Context.
From S2P Require Import RoleMgr GroupMgr UserMgr PolicyMgr DataPerm RbacPerm PermEngine.

(** Deny overrides: one deny wins, otherwise one allow is needed. *)
Definition deny_overrides (vs : list (option bool)) : bool :=
  if existsb (λ v, bool_decide (v = Some false)) vs then false
  else existsb (λ v, bool_decide (v = Some true)) vs.

Definition decision (v : verdict) : bool :=
  match v with Overridden => false | Finished b => b end.

(* ------------------------------------------------------------------ *)
(** ** The policy loop *)

Section Loop.
Context {S : Type} (strategies : list (permission_strategy S)) (ctx : eval_context).
Notation world := (world S compiled_rule).

(** If each policy yields its verdict wherever an invariant holds, and
    keeps context and invariant, the loop combines the verdicts. *)
Lemma eval_loop_combines (Inv : world → Prop) (g : policy_t → option bool) want ps w t any :
  (∀ p w, p ∈ ps → Inv w → ∃ err tr w',
     perm_engine_evaluate_policy strategies p ctx w = Ret (err, g p, tr, ctx, w') ∧ Inv w') →
  Inv w →
  ∃ v t' w', eval_loop strategies want ps ctx w t any = Ret (v, t', ctx, w') ∧ Inv w' ∧
    decision v = (if existsb (λ v, bool_decide (v = Some false)) (map g ps) then false
                  else any || existsb (λ v, bool_decide (v = Some true)) (map g ps)).
Proof.
  revert w t any. induction ps as [|p ps IH]; intros w t any Hstep Hinv; cbn [eval_loop map existsb].
  { exists (Finished any), t, w. by rewrite orb_false_r. }
  destruct (Hstep p w) as (err & tr & w1 & -> & Hinv1); [by left|done|].
  change (mbind ?f (Ret ?x)) with (f x). cbv beta iota zeta.
  match goal with |- context [eval_loop _ _ ps ctx w1 ?x any] => set (t1 := x) end.
  destruct (g p) as [[|]|] eqn:Eg.
  - destruct (IH w1 t1 true) as (v & t' & w' & Hl & Hi & Hd); [|exact Hinv1|].
    { intros q w0 Hq. apply Hstep. by right. }
    eexists v, t', w'. split; [exact Hl|]. split; [done|]. rewrite Hd.
    by destruct (existsb (λ v, bool_decide (v = Some false)) (map g ps)), any.
  - eexists Overridden, _, w1. by split_and!.
  - destruct (IH w1 t1 any) as (v & t' & w' & Hl & Hi & Hd); [|exact Hinv1|].
    { intros q w0 Hq. apply Hstep. by right. }
    eexists v, t', w'. split; [exact Hl|]. split; [done|]. by rewrite Hd.
Qed.
End Loop.

(* ------------------------------------------------------------------ *)
(** ** Verdicts of the strategies that only read the context *)

Section Verdicts.
Context {S : Type} `{JsonReader} (cx : sso_context S) (alloc : Z → bool) (ctx : eval_context).
Notation world := (world S compiled_rule).
Notation strategies := (builtin_strategies cx alloc).

(** The functional, API, location and attribute strategies. *)
Definition reads_only (t : perm_strategy_type_t) : bool :=
  match t with
  | PERM_STRATEGY_FUNCTIONAL | PERM_STRATEGY_API | PERM_STRATEGY_LOCATION | PERM_STRATEGY_ABAC => true
  | _ => false
  end.

(** The rule of a policy, compiled afresh. *)
Definition fresh_rule (p : policy_t) : option compiled_rule :=
  match p_strategy_type p with
  | PERM_STRATEGY_FUNCTIONAL => CFunc <$> (func_compile alloc (Some (p_rules p))).2
  | PERM_STRATEGY_API => CApi <$> (api_compile alloc (Some (p_rules p))).2
  | PERM_STRATEGY_LOCATION => CLoc <$> (loc_compile alloc (Some (p_rules p))).2
  | PERM_STRATEGY_ABAC => CAbac <$> (abac_compile alloc (Some (p_rules p))).2
  | _ => None
  end.

(** What an enabled policy says about the context. *)
Definition rule_verdict (r : option compiled_rule) : sso_error_t * option bool :=
  match r with
  | Some (CFunc r) => func_evaluate (get_str off_function_code (ec_params ctx)) (Some r)
  | Some (CApi r) => api_evaluate (get_str off_http_method (ec_params ctx))
                       (get_str off_request_path (ec_params ctx)) (Some r)
  | Some (CLoc r) => loc_evaluate (get_str off_source_ip (ec_params ctx))
                       (get_str off_geo_country (ec_params ctx)) (Some r)
  | Some (CAbac r) => abac_evaluate (get_str off_subject_attrs (ec_params ctx))
                        (get_str off_resource_attrs (ec_params ctx)) (ec_environment ctx) (Some r)
  | _ => (SSO_ERR_INVALID_PARAM, None)
  end.

Definition policy_verdict (p : policy_t) : option bool :=
  if bool_decide (p_status p = POLICY_STATUS_DISABLED) then None
  else (rule_verdict (fresh_rule p)).2.

(** The rule table agrees with the rules of some policies. *)
Definition rules_fresh (ps : list policy_t) (w : world) : Prop :=
  ∃ e, w_engine w = Some e ∧ cache_inv e ∧
    ∀ p, p ∈ ps → ∀ c, perm_engine_get_cached_rule e (p_id p) = Some c → fresh_rule p = Some c.

(** Policies are identified by a non-zero id. *)
Definition identified (ps : list policy_t) : Prop :=
  ∀ p q, p ∈ ps → q ∈ ps → p_id p ≠ 0 ∧ (p_id p = p_id q → p = q).

Lemma func_compile_ok r : is_ok (func_compile alloc r).1 = bool_decide (is_Some (func_compile alloc r).2).
Proof. unfold func_compile. repeat case_match; done. Qed.
Lemma api_compile_ok r : is_ok (api_compile alloc r).1 = bool_decide (is_Some (api_compile alloc r).2).
Proof. unfold api_compile. repeat case_match; done. Qed.
Lemma loc_compile_ok r : is_ok (loc_compile alloc r).1 = bool_decide (is_Some (loc_compile alloc r).2).
Proof. unfold loc_compile. repeat case_match; done. Qed.
Lemma abac_compile_ok r : is_ok (abac_compile alloc r).1 = bool_decide (is_Some (abac_compile alloc r).2).
Proof. unfold abac_compile. repeat case_match; done. Qed.

Lemma rule_verdict_ok r : is_ok (rule_verdict r).1 = bool_decide (is_Some (rule_verdict r).2).
Proof.
  destruct r as [[]|]; try done; simpl; unfold func_evaluate, api_evaluate, loc_evaluate, abac_evaluate;
    repeat case_match; done.
Qed.

(** The engine's path to a rule: cached or compiled, it is the fresh one. *)
Lemma engine_compiled_fresh s compile ps p w :
  rules_fresh ps w → identified ps → p ∈ ps → ps_type s = p_strategy_type p →
  ps_compile_rules s = Some compile →
  (∃ e, compile (p_rules p) = Ret (e, fresh_rule p) ∧ is_ok e = bool_decide (is_Some (fresh_rule p))) →
  ∃ w', engine_compiled s p w = Ret (fresh_rule p, w') ∧ rules_fresh ps w' ∧
        w_store w' = w_store w.
Proof.
  intros (e & He & Hinv & Hfresh) Hid Hp Hty Hc (ce & Hce & Hok). unfold engine_compiled.
  rewrite Hc, He. destruct (perm_engine_get_cached_rule e (p_id p)) as [c|] eqn:Eg.
  { rewrite (Hfresh p Hp c Eg). exists w. split_and!; try done. by exists e. }
  rewrite Hce. change (mbind ?f (Ret ?x)) with (f x). cbv beta iota. rewrite Hok.
  destruct (fresh_rule p) as [c|] eqn:Ef.
  2: { exists w. split; [reflexivity|]. split; [by exists e|done]. }
  eexists. split; [reflexivity|]. split; [|done].
  eexists. split; [done|]. destruct (Z.lt_ge_cases (cache_count e) (Z.of_nat MAX_POLICY_CACHE)) as [Hroom|Hfull].
  2: { unfold perm_engine_cache_rule. rewrite (proj2 (Z.leb_le _ _)) by done. done. }
  destruct (Hid p p Hp Hp) as [Hne _].
  destruct (cache_rule_map e (p_id p) (ps_type s) c Hinv Hne Hroom) as (Hinv' & Hget & Hother).
  split; [done|]. intros q Hq c' Hc'. destruct (decide (p_id q = p_id p)) as [Heq|Hneq].
  - destruct (Hid q p Hq Hp) as [_ Hqp]. rewrite (Hqp Heq), Ef. rewrite Heq, Hget in Hc'. done.
  - destruct (Hid q p Hq Hp) as [Hq0 _]. rewrite Hother in Hc' by done. by apply (Hfresh q Hq).
Qed.

Lemma is_ok_None {A} (r : sso_error_t * option A) :
  is_ok r.1 = bool_decide (is_Some r.2) → r.2 = None → is_ok r.1 = false.
Proof. intros -> ->. by apply bool_decide_false. Qed.

(** One policy of a reading strategy yields its verdict. *)
Lemma evaluate_policy_verdict ps p w :
  rules_fresh ps w → identified ps → p ∈ ps → reads_only (p_strategy_type p) = true →
  ∃ err tr w', perm_engine_evaluate_policy strategies p ctx w =
               Ret (err, policy_verdict p, tr, ctx, w') ∧ rules_fresh ps w' ∧ w_store w' = w_store w.
Proof.
  intros Hf Hid Hp Hro. unfold perm_engine_evaluate_policy, policy_verdict.
  destruct (bool_decide (p_status p = POLICY_STATUS_DISABLED)); [by do 3 eexists|].
  assert (Hs : ∃ s ev compile, perm_engine_get_strategy strategies (p_strategy_type p) = Some s ∧
    ps_type s = p_strategy_type p ∧ ps_evaluate s = Some ev ∧ ps_compile_rules s = Some compile ∧
    (∃ e, compile (p_rules p) = Ret (e, fresh_rule p) ∧ is_ok e = bool_decide (is_Some (fresh_rule p))) ∧
    (∀ w, ev ctx p (fresh_rule p) w = Ret (rule_verdict (fresh_rule p), ctx, w))).
  { unfold fresh_rule. destruct (p_strategy_type p); try done;
      (do 3 eexists; split_and!; [reflexivity..| |]).
    - eexists. split; [reflexivity|]. rewrite func_compile_ok. apply bool_decide_ext. by rewrite fmap_is_Some.
    - intros w0. by destruct (snd (func_compile alloc (Some (p_rules p)))).
    - eexists. split; [reflexivity|]. rewrite api_compile_ok. apply bool_decide_ext. by rewrite fmap_is_Some.
    - intros w0. by destruct (snd (api_compile alloc (Some (p_rules p)))).
    - eexists. split; [reflexivity|]. rewrite loc_compile_ok. apply bool_decide_ext. by rewrite fmap_is_Some.
    - intros w0. by destruct (snd (loc_compile alloc (Some (p_rules p)))).
    - eexists. split; [reflexivity|]. rewrite abac_compile_ok. apply bool_decide_ext. by rewrite fmap_is_Some.
    - intros w0. by destruct (snd (abac_compile alloc (Some (p_rules p)))). }
  destruct Hs as (s & ev & compile & -> & Hty & -> & Hc & Hcomp & Hev).
  destruct (engine_compiled_fresh s compile ps p w Hf Hid Hp Hty Hc Hcomp) as (w' & -> & Hf' & Hst).
  change (mbind ?f (Ret ?x)) with (f x). cbv beta iota. rewrite Hev.
  pose proof (rule_verdict_ok (fresh_rule p)) as Hok.
  destruct (rule_verdict (fresh_rule p)) as [err res]. simpl in Hok |- *.
  change (mbind ?f (Ret ?x)) with (f x). cbv beta iota zeta. rewrite Hok.
  by destruct res as [b|]; do 3 eexists.
Qed.
End Verdicts.

(* ------------------------------------------------------------------ *)
(** ** The whole evaluation *)

Section Evaluation.
Context {S : Type} `{JsonReader} (cx : sso_context S) (alloc : Z → bool).
Context (sb : storage_backend S) (view : S → store_view) (inv : S → Prop) `{!StorageReads sb view inv}.
Context (Hsb : cx_backend cx = Some sb) (Halloc : ∀ n, alloc n = true).
Context (Humgr : cx_user_mgr cx = true) (Hrmgr : cx_role_mgr cx = true).
Context (Hgmgr : cx_group_mgr cx = true) (Hpmgr : cx_policy_mgr cx = true).
Notation strategies := (builtin_strategies cx alloc).

Lemma existsb_perm {A} (f : A → bool) l k : l ≡ₚ k → existsb f l = existsb f k.
Proof.
  induction 1 as [|x l k _ IH|x y l|l k m _ IH1 _ IH2]; simpl; [done|by rewrite IH| |congruence].
  by destruct (f x), (f y).
Qed.

Lemma deny_overrides_perm vs ws : vs ≡ₚ ws → deny_overrides vs = deny_overrides ws.
Proof. intros Hp. unfold deny_overrides. by rewrite !(existsb_perm _ _ _ Hp). Qed.

(** Neither cache answers for a user the engine has forgotten. *)
Lemma forgets_no_l2 (e : perm_caches compiled_rule) u h now : forgets_user e u → l2_hit e u h now = None.
Proof.
  intros [_ Hf]. unfold l2_hit. destruct (result_cache e !! l2_index h) as [r|] eqn:E; [|done].
  rewrite Forall_lookup in Hf. specialize (Hf _ _ E).
  destruct (l2_valid r) eqn:Ev; [|done]. rewrite (proj2 (Z.eqb_neq _ _) (Hf eq_refl)). done.
Qed.
Lemma forgets_no_l1 (e : perm_caches compiled_rule) u now : forgets_user e u → l1_hit e u now = None.
Proof.
  intros [Hf _]. unfold l1_hit. destruct (res_cache e !! l1_index u) as [r|] eqn:E; [|done].
  rewrite Forall_lookup in Hf. specialize (Hf _ _ E).
  destruct (l1_valid r) eqn:Ev; [|done]. rewrite (proj2 (Z.eqb_neq _ _) (Hf eq_refl)). done.
Qed.

Lemma evaluate_resolved_verdict now later want ctx phash ps st :
  rules_fresh alloc ps (es_world st) → identified ps →
  Forall (λ p, reads_only (p_strategy_type p) = true) ps →
  ∃ tr st', evaluate_resolved strategies now later want ctx phash ps st =
    Ret (SSO_OK, Some (deny_overrides (map (policy_verdict alloc ctx) ps)), tr, ctx, st') ∧
    w_store (es_world st') = w_store (es_world st).
Proof.
  intros Hf Hid Hro. rewrite Forall_forall in Hro. unfold evaluate_resolved.
  destruct (eval_loop_combines strategies ctx
    (λ w, rules_fresh alloc ps w ∧ w_store w = w_store (es_world st))
    (policy_verdict alloc ctx) want ps (es_world st) [] false) as (v & t & w' & -> & [Hf' Hst] & Hd).
  { intros p w Hp [Hw Hs].
    destruct (evaluate_policy_verdict cx alloc ctx ps p w Hw Hid Hp (Hro p Hp))
      as (err & tr & w1 & E & Hw1 & Hs1). exists err, tr, w1. split_and!; [exact E|exact Hw1|congruence]. }
  { done. }
  change (mbind ?f (Ret ?x)) with (f x). cbv beta iota.
  destruct Hf' as (e & -> & _). rewrite orb_false_l in Hd. unfold deny_overrides. rewrite <- Hd.
  destruct v; simpl; do 2 eexists; by split.
Qed.

(** The resolved policies of a user, as the engine sees them. *)
Definition user_policies (s : S) (u : Z) : list policy_t := take 64 (applicable (view s) u).

Lemma evaluate_decides now later want ctx st e :
  inv (w_store (es_world st)) → w_engine (es_world st) = Some e → cache_inv e → forgets_user e (ec_user_id ctx) → ec_has_user ctx = true →
  let ps := user_policies (w_store (es_world st)) (ec_user_id ctx) in
  identified ps → Forall (λ p, reads_only (p_strategy_type p) = true) ps →
  (∀ p c, p ∈ ps → perm_engine_get_cached_rule e (p_id p) = Some c → fresh_rule alloc p = Some c) →
  ∃ tr st', perm_engine_evaluate_internal cx strategies alloc now later want ctx st =
    Ret (SSO_OK, Some (deny_overrides (map (policy_verdict alloc ctx) ps)), tr, ctx, st') ∧
    w_store (es_world st') = w_store (es_world st).
Proof.
  intros Hi He Hinv Hforget Huser ps Hid Hro Hfresh. unfold perm_engine_evaluate_internal.
  rewrite He, Huser, Halloc. cbn [negb andb]. rewrite forgets_no_l2, forgets_no_l1 by done.
  rewrite Halloc, Hpmgr. cbn [negb].
  rewrite (policy_resolve_eq cx sb view inv Hsb) by done. fold (user_policies (w_store (es_world st)) (ec_user_id ctx)).
  fold ps. change (mbind ?f (Ret ?x)) with (f x). cbv beta iota.
  destruct ps as [|p0 ps0] eqn:Eps.
  { do 2 eexists. split; [reflexivity|done]. }
  rewrite <- Eps in *. clear Eps. rewrite He, forgets_no_l1 by done.
  destruct (sort_policies_spec ps) as (Hperm & _ & _).
  match goal with |- context [evaluate_resolved _ _ _ _ _ _ (sort_policies ps) ?s] => set (st1 := s) end.
  destruct (evaluate_resolved_verdict now later want ctx (hash_params ctx) (sort_policies ps) st1)
    as (tr & st' & -> & Hst).
  - eexists. split; [reflexivity|]. split; [by destruct Hinv; split|].
    intros p Hp c. rewrite Hperm in Hp. by apply Hfresh.
  - intros p q Hp Hq. rewrite Hperm in Hp, Hq. by apply Hid.
  - by rewrite Hperm.
  - exists tr, st'. split; [|exact Hst]. do 5 f_equal. f_equal. apply deny_overrides_perm.
    by apply (fmap_Permutation (policy_verdict alloc ctx)).
Qed.
End Evaluation.

(** ** End to end: function checks *)

(** What a functional policy says about a function code: the effect of its
    first matching rule. *)
Definition function_says `{JsonReader} (alloc : Z → bool) (code : cstr) (p : policy_t) : option bool :=
  if bool_decide (p_status p = POLICY_STATUS_DISABLED) then None
  else match (func_compile alloc (Some (p_rules p))).2 with
       | Some rules => func_first_match rules code
       | None => None
       end.

Lemma deny_overrides_true vs :
  deny_overrides vs = true ↔ Some true ∈ vs ∧ Some false ∉ vs.
Proof.
  unfold deny_overrides. destruct (existsb _ vs) eqn:E.
  - apply existsb_exists in E as (v & Hv & Hd). reflect_bools. subst v.
    rewrite <- list_elem_of_In in Hv. naive_solver.
  - rewrite existsb_exists. setoid_rewrite <- list_elem_of_In. setoid_rewrite bool_decide_eq_true. split.
    + intros (v & Hv & ->). split; [done|]. intros Hf. apply not_true_iff_false in E. apply E.
      apply existsb_exists. exists (Some false). rewrite <- list_elem_of_In. split; [done|].
      by apply bool_decide_eq_true.
    + naive_solver.
Qed.

Lemma put_str_word_zero off size s k p :
  (0 < size)%nat → (off + size ≤ length p)%nat → (length s ≤ k)%nat → (k + 8 ≤ size)%nat →
  get_word (off + k) (put_str off size s p) = 0.
Proof.
  intros Hs Hp Hk Hsz. apply le_combine_zero. unfold put_str.
  rewrite <- drop_drop, drop_put_bytes by lia. rewrite sso_strlcpy_fits by lia.
  rewrite <- app_assoc, drop_app_ge by lia.
  rewrite drop_app_le, drop_replicate by (rewrite length_replicate; lia).
  rewrite take_app_le, take_replicate by (rewrite length_replicate; lia).
  by apply Forall_replicate.
Qed.

Section FunctionCheck.
Context {S : Type} `{JsonReader} (cx : sso_context S) (alloc : Z → bool).
Context (sb : storage_backend S) (view : S → store_view) (inv : S → Prop) `{!StorageReads sb view inv}.

(** C1. Function checks decide deny-overrides, end to end and for every
    storage backend that keeps the read interface.  For a user whose
    policies are functional, an engine that holds nothing stale about it,
    and a function code of 1 to 64 characters, the check returns with
    [SSO_OK], the decision is allow exactly when the first matching rule
    of some enabled policy allows and of none denies, and the store is
    untouched. *)
Theorem perm_check_function_correct now later brk user code f (st : engine_state S) e :
  inv (w_store (es_world st)) →
  cx_backend cx = Some sb → cx_user_mgr cx = true → cx_role_mgr cx = true →
  cx_group_mgr cx = true → cx_policy_mgr cx = true → (∀ n, alloc n = true) →
  sb_user_get_by_id sb = Some f →
  f (u_id user) (w_store (es_world st)) = Ret (Ok user, w_store (es_world st)) →
  code ≠ [] → NUL ∉ code → (length code ≤ 64)%nat →
  w_engine (es_world st) = Some e → cache_inv e → forgets_user e (u_id user) →
  let ps := user_policies view (w_store (es_world st)) (u_id user) in
  identified ps → Forall (λ p, p_strategy_type p = PERM_STRATEGY_FUNCTIONAL) ps →
  (∀ p c, p ∈ ps → perm_engine_get_cached_rule e (p_id p) = Some c → fresh_rule alloc p = Some c) →
  ∃ allowed st',
    perm_check_function cx alloc (builtin_strategies cx alloc) now later brk (u_id user) (Some code) st =
      Ret (SSO_OK, Some allowed, st') ∧ w_store (es_world st') = w_store (es_world st) ∧
    (allowed = true ↔ (∃ p, p ∈ ps ∧ function_says alloc code p = Some true) ∧
                      ¬ (∃ p, p ∈ ps ∧ function_says alloc code p = Some false)).
Proof.
  intros Hi Hsb Hu Hr Hg Hp Hal Hf Hget Hne Hnul Hlen He Hinv Hforget ps Hid Hfun Hfresh.
  unfold perm_check_function, perm_check, user_get_by_id.
  rewrite (call_read cx _ _ sb f (es_world st) _ Hsb Hf Hget).
  change (mbind ?f (Ret ?x)) with (f x). cbv beta iota.
  set (ectx := with_params _ _).
  assert (Hst : with_world (es_world st) st = st) by by destruct st. rewrite Hst.
  destruct (evaluate_decides cx alloc sb view inv Hsb Hal Hu Hr Hg Hp now later false ectx st e)
    as (tr & st' & -> & Hsame); try done.
  { eapply Forall_impl; [exact Hfun|]. by intros p ->. }
  change (mbind ?f (Ret ?x)) with (f x). cbv beta iota.
  rewrite destroy_clean.
  - eexists _, st'. split; [reflexivity|]. split; [done|]. rewrite deny_overrides_true.
    assert (Hsays : map (policy_verdict alloc ectx) ps = map (function_says alloc code) ps).
    { apply map_ext_in. intros p Hin%list_elem_of_In. rewrite Forall_forall in Hfun.
      unfold policy_verdict, function_says, fresh_rule. rewrite (Hfun p Hin). destruct (bool_decide _); [done|].
      destruct (snd (func_compile alloc (Some (p_rules p)))) as [r|]; [|done]. cbn [fmap option_fmap option_map].
      unfold rule_verdict, ectx. cbn [ec_params with_params eval_context_init].
      rewrite get_put_str, sso_strlcpy_fits by (done || lia || (rewrite length_replicate; unfold off_function_code; lia)).
      unfold func_evaluate. destruct code; [done|]. by destruct (func_first_match r _). }
    fold ps. cbn [ec_user_id ectx with_params eval_context_init]. fold ps. rewrite Hsays.
    change (map ?g ?l) with (g <$> l). rewrite !list_elem_of_fmap. naive_solver.
  - apply (put_str_word_zero 0 128 code 64 (replicate params_size NUL));
      [lia|rewrite length_replicate; unfold params_size; lia|lia..].
  - apply (put_str_word_zero 0 128 code 80 (replicate params_size NUL));
      [lia|rewrite length_replicate; unfold params_size; lia|lia..].
  - unfold ectx. cbn [ec_params with_params eval_context_init].
    rewrite put_str_length; rewrite ?length_replicate; unfold off_function_code, params_size; lia.
Qed.
End FunctionCheck.

(** A store with one user and one functional policy. *)
Definition demo_policy : policy_t :=
  {| p_id := 1; p_name := "users"; p_strategy_type := PERM_STRATEGY_FUNCTIONAL;
     p_effect := POLICY_EFFECT_ALLOW; p_priority := 5; p_rules := "R1";
     p_status := POLICY_STATUS_ENABLED; p_created_at := 0; p_updated_at := 0 |}.
Definition demo_reader : JsonReader :=
  table_reader [(("R1" : cstr), JObj [(("functions" : cstr),
    JArr [JObj [(("code" : cstr), JStr "user:*"); (("effect" : cstr), JStr "allow")]])])].
Definition demo_store : mem_priv_t :=
  set_users {| items := [sample_user]; cap := 64 |}
    (set_policies {| items := [demo_policy]; cap := 64 |}
       (set_policy_assignments
          {| items := [{| a3_pid := 1; a3_tt := POLICY_TARGET_USER; a3_tid := 7 |}]; cap := 64 |} mem_open)).
Definition zero_metrics : engine_metrics_t :=
  {| total_evals := 0; cache_hits_l1 := 0; cache_hits_l2 := 0; allows := 0; denys := 0;
     total_duration_us := 0 |}.
Definition demo_state : engine_state mem_priv_t :=
  {| es_world := {| w_store := demo_store; w_engine := Some empty_caches |};
     es_metrics := zero_metrics; es_audit := [] |}.
Definition demo_cx : sso_context mem_priv_t := mem_context 0 (λ _, true) 10.

Lemma empty_caches_forget {C} u : forgets_user (empty_caches (C := C)) u.
Proof.
  split; apply Forall_replicate; done.
Qed.

Lemma perm_check_function_correct_witness :
  let r := demo_reader in
  ∃ st', perm_check_function demo_cx (λ _, true) (builtin_strategies demo_cx (λ _, true)) 1000 1001 0x10000
           7 (Some ("user:read" : cstr)) demo_state = Ret (SSO_OK, Some true, st').
Proof.
  intros r.
  destruct (perm_check_function_correct demo_cx (λ _, true) (storage_memory_create 0 (λ _, true) 10) mem_view (λ _, True)
    1000 1001 0x10000 sample_user "user:read" mem_user_get_by_id demo_state empty_caches)
    as (b & st' & He & _ & Hb).
  - done.
  - reflexivity.
  - reflexivity.
  - reflexivity.
  - reflexivity.
  - reflexivity.
  - done.
  - reflexivity.
  - reflexivity.
  - done.
  - apply (bool_decide_unpack _). reflexivity.
  - simpl. lia.
  - reflexivity.
  - apply empty_caches_inv.
  - apply empty_caches_forget.
  - change (user_policies mem_view (w_store (es_world demo_state)) (u_id sample_user)) with [demo_policy].
    intros p q ->%list_elem_of_singleton ->%list_elem_of_singleton. done.
  - change (user_policies mem_view (w_store (es_world demo_state)) (u_id sample_user)) with [demo_policy].
    by repeat constructor.
  - done.
  - exists st'. change (u_id sample_user) with 7 in He.
    assert (b = true) as ->; [|exact He]. apply Hb. split.
    + exists demo_policy. split; [by left|]. vm_compute. reflexivity.
    + change (user_policies mem_view (w_store (es_world demo_state)) (u_id sample_user)) with [demo_policy].
      intros (p & ->%list_elem_of_singleton & Hs). vm_compute in Hs. done.
Defined.

(* ------------------------------------------------------------------ *)
(** ** Where the engine surprises *)

Definition with_effect (eff : policy_effect_t) (p : policy_t) : policy_t :=
  {| p_id := p_id p; p_name := p_name p; p_strategy_type := p_strategy_type p; p_effect := eff;
     p_priority := p_priority p; p_rules := p_rules p; p_status := p_status p;
     p_created_at := p_created_at p; p_updated_at := p_updated_at p |}.

(** The effect of a policy is never consulted: a policy stored as
    DENY is evaluated exactly like the same policy stored as ALLOW,
    whatever its strategy, the context and the caches.  Only the effects
    written inside the rule text count. *)
Theorem policy_effect_ignored {S} `{JsonReader} (cx : sso_context S) alloc p eff ctx w :
  perm_engine_evaluate_policy (builtin_strategies cx alloc) (with_effect eff p) ctx w =
  perm_engine_evaluate_policy (builtin_strategies cx alloc) p ctx w.
Proof.
  unfold perm_engine_evaluate_policy. cbn [p_status p_strategy_type with_effect].
  destruct (bool_decide _); [done|].
  assert (Hs : ∀ s ev, perm_engine_get_strategy (builtin_strategies cx alloc) (p_strategy_type p) = Some s →
    ps_evaluate s = Some ev → ∀ c x w, ev x (with_effect eff p) c w = ev x p c w).
  { intros s ev [Hin _]%List.find_some Hev.
    repeat destruct Hin as [<-|Hin]; try done; injection Hev as <-; intros; reflexivity. }
  destruct (perm_engine_get_strategy _ _) as [s|] eqn:Es; [|done].
  destruct (ps_evaluate s) as [ev|] eqn:Ev; [|done].
  change (engine_compiled s (with_effect eff p) w) with (engine_compiled s p w).
  destruct (engine_compiled s p w) as [[c w1]| |]; [|done..].
  change (mbind ?f (Ret ?x)) with (f x). cbv beta iota. by rewrite (Hs s ev eq_refl Ev).
Qed.

(** The params of a data context: resource type, address and length of the
    copied record, no filter. *)
Lemma data_context_params alloc brk user rt rec :
  alloc (Z.of_nat (length rec) + 1) = true →
  ec_params (data_context alloc brk user rt (Some rec)) =
  put_word off_field_filter_count 0 (put_word off_field_filter 0
    (put_word off_record_len (Z.of_nat (length rec)) (put_word off_record brk
      (put_str off_resource_type 64 rt (replicate params_size NUL))))).
Proof. intros Ha. unfold data_context, strdup. by rewrite Ha. Qed.

Lemma data_context_heap alloc brk user rt rec :
  alloc (Z.of_nat (length rec) + 1) = true →
  ec_heap (data_context alloc brk user rt (Some rec)) = {[brk := HStr rec]}.
Proof. intros Ha. unfold data_context, strdup. by rewrite Ha. Qed.

Lemma data_context_words alloc brk user rt rec :
  alloc (Z.of_nat (length rec) + 1) = true → 0 < brk < 2 ^ 64 →
  let ctx := data_context alloc brk user rt (Some rec) in
  get_word off_record (ec_params ctx) = brk ∧ get_word off_field_filter (ec_params ctx) = 0 ∧
  get_word off_field_filter_count (ec_params ctx) = 0 ∧ (length (ec_params ctx) = params_size)%nat.
Proof.
  intros Ha Hb ctx. unfold ctx. rewrite data_context_params by done.
  unfold off_record, off_record_len, off_field_filter, off_field_filter_count, off_resource_type.
  assert (H0 : length (put_str 0 64 rt (replicate params_size NUL)) = params_size)
    by (rewrite put_str_length; rewrite ?length_replicate; unfold params_size; lia).
  set (p0 := put_str 0 64 rt (replicate params_size NUL)) in *.
  set (p1 := put_word 64 brk p0). set (p2 := put_word 72 _ p1).
  assert (H1 : length p1 = params_size) by (unfold p1; rewrite put_word_length; unfold params_size in *; lia).
  assert (H2 : length p2 = params_size) by (unfold p2; rewrite put_word_length; unfold params_size in *; lia).
  unfold params_size in *. split_and!.
  - rewrite filter_words_record by lia. unfold p2, get_word, put_word.
    rewrite take_put_bytes_before by lia. apply get_put_word; lia.
  - apply filter_words_filter; lia.
  - apply filter_words_count; lia.
  - rewrite !put_word_length; rewrite ?put_word_length; lia.
Qed.

(** Destroying a context whose only block is the record it points to. *)
Lemma data_context_owns alloc brk user rt rec :
  alloc (Z.of_nat (length rec) + 1) = true → 0 < brk < 2 ^ 64 →
  owns (data_context alloc brk user rt (Some rec)).
Proof.
  intros Ha Hb. destruct (data_context_words alloc brk user rt rec Ha Hb) as (H1 & H2 & H3 & H4).
  pose proof (data_context_heap alloc brk user rt rec Ha) as Hh.
  assert (Hbrk : ec_brk (data_context alloc brk user rt (Some rec)) = brk + 16)
    by (unfold data_context, strdup; by rewrite Ha).
  split; unfold record_ptr, filter_ptr; rewrite ?H1, ?H2, ?H3, ?Hh, ?Hbrk.
  - done.
  - lia.
  - intros a o [<- _]%lookup_singleton_Some. lia.
  - right. exists rec. apply lookup_singleton_eq.
  - by left.
  - intros a o [<- _]%lookup_singleton_Some. by left.
Qed.

(** Handing the (absent) filter to the caller keeps ownership. *)
Lemma hand_over_no_filter_owns c :
  owns c → get_word off_field_filter (ec_params c) = 0 →
  owns (with_heap (delete 0 (ec_heap c))
         (with_params (λ p, put_word off_field_filter_count 0 (put_word off_field_filter 0 p)) c)).
Proof.
  intros Ho Hf. pose proof (size_params _ Ho) as Hsz. destruct Ho as [Hs Hb Hfr Hr Hff Ha].
  assert (Hnull : ec_heap c !! 0 = None).
  { destruct (ec_heap c !! 0) eqn:E; [|done]. apply Hfr in E. lia. }
  set (c' := with_heap _ _).
  assert (Hr' : record_ptr c' = record_ptr c)
    by (unfold c'; words; apply filter_words_record; lia).
  assert (Hf' : filter_ptr c' = 0) by (unfold c'; words; apply filter_words_filter; lia).
  assert (Hh : ec_heap c' = ec_heap c) by (unfold c'; words; by apply delete_id).
  split; rewrite ?Hr', ?Hf', ?Hh; [|done|done|done|by left|].
  - unfold c'; words. rewrite !put_word_length; rewrite ?put_word_length; lia.
  - intros a o Hin. left. destruct (Ha a o Hin) as [|E]; [done|].
    unfold filter_ptr in E. rewrite Hf in E. apply Hfr in Hin. lia.
Qed.

Section DataCheck.
Context {S : Type} `{JsonReader} (cx : sso_context S) (alloc : Z → bool) (sb : storage_backend S).

(** C4. The result cache identifies a data check by the bytes of its
    parameters, which hold the address and the length of the record and
    not its text.  Within 30 seconds of a check on record [r1], a check on
    any record [r2] of the same length whose copy lands at the same
    address gets the decision made for [r1], without a look at [r2], and
    comes back without the field filter. *)
Theorem perm_check_data_reuses_decision now later brk user rt r1 r2 f (st : engine_state S) e b :
  cx_backend cx = Some sb → sb_user_get_by_id sb = Some f →
  f (u_id user) (w_store (es_world st)) = Ret (Ok user, w_store (es_world st)) →
  (∀ n, alloc n = true) → 0 < brk < 2 ^ 64 → length r2 = length r1 →
  w_engine (es_world st) = Some e →
  l2_hit e (u_id user) (hash_params (data_context alloc brk user rt (Some r1))) now = Some b →
  ∃ st', perm_check_data cx alloc (builtin_strategies cx alloc) now later brk (u_id user)
           (Some rt) (Some r2) true st = Ret (SSO_OK, Some b, Some (None, 0), st').
Proof.
  intros Hsb Hf Hget Hal Hbrk Hlen He Hhit. unfold perm_check_data, user_get_by_id.
  rewrite (call_read cx _ _ sb f (es_world st) _ Hsb Hf Hget).
  change (mbind ?f (Ret ?x)) with (f x). cbv beta iota.
  assert (Hst : with_world (es_world st) st = st) by by destruct st. rewrite Hst.
  set (c2 := data_context alloc brk user rt (Some r2)).
  assert (Hh : hash_params c2 = hash_params (data_context alloc brk user rt (Some r1))).
  { unfold hash_params, c2. rewrite !data_context_params by done. by rewrite Hlen. }
  assert (Huid : ec_user_id c2 = u_id user) by (unfold c2, data_context, strdup; by rewrite Hal).
  assert (Hus : ec_has_user c2 = true) by (unfold c2, data_context, strdup; by rewrite Hal).
  unfold perm_engine_evaluate_internal. rewrite He, Hus, Hal. cbn [negb andb].
  rewrite Huid, Hh, Hhit. change (mbind ?f (Ret ?x)) with (f x). cbv beta iota zeta.
  change (is_ok SSO_OK && true) with true. cbv iota.
  destruct (data_context_words alloc brk user rt r2 (Hal _) Hbrk) as (_ & Hff & Hfc & _).
  fold c2 in Hff, Hfc. rewrite Hff, Hfc. cbn [Z.eqb].
  destruct (owns_destroy _ (hand_over_no_filter_owns c2
    (data_context_owns alloc brk user rt r2 (Hal _) Hbrk) Hff)) as (c' & -> & _).
  by eexists.
Qed.
End DataCheck.

(** A data policy that lets engineering records through, and the same check
    on a record of another department right after. *)
Definition data_policy : policy_t :=
  {| p_id := 1; p_name := "rows"; p_strategy_type := PERM_STRATEGY_DATA; p_effect := POLICY_EFFECT_ALLOW;
     p_priority := 5; p_rules := "RULE"; p_status := POLICY_STATUS_ENABLED; p_created_at := 0;
     p_updated_at := 0 |}.
Definition data_reader : JsonReader :=
  table_reader
    [(("RULE" : cstr), JObj [(("resource_type" : cstr), JStr "employee");
        (("conditions" : cstr), JArr [JObj [(("field" : cstr), JStr "dept"); (("op" : cstr), JStr "eq");
                                            (("value" : cstr), JStr "eng")]]);
        (("allowed_fields" : cstr), JArr [JStr "name"])]);
     (("ENG" : cstr), JObj [(("dept" : cstr), JStr "eng")]);
     (("OPS" : cstr), JObj [(("dept" : cstr), JStr "ops")])].
Definition data_store : mem_priv_t :=
  set_policies {| items := [data_policy]; cap := 64 |} demo_store.

(** Engine state after an allowed check of the engineering record. *)
Definition data_state : engine_state mem_priv_t :=
  {| es_world := {| w_store := data_store;
       w_engine := Some (l2_store empty_caches 7
         (hash_params (data_context (λ _, true) 0x10000 sample_user "employee" (Some ("ENG" : cstr))))
         1000 true) |};
     es_metrics := zero_metrics; es_audit := [] |}.

Lemma perm_check_data_reuses_decision_witness :
  let r := data_reader in
  (* on a cold cache the other department's record is refused *)
  (∃ st', perm_check_data demo_cx (λ _, true) (builtin_strategies demo_cx (λ _, true)) 1000 1001 0x10000 7
     (Some ("employee" : cstr)) (Some ("OPS" : cstr)) true
     (with_world {| w_store := data_store; w_engine := Some empty_caches |} demo_state) = Ret (SSO_OK, Some false, Some (None, 0), st')) ∧
  ∃ st', perm_check_data demo_cx (λ _, true) (builtin_strategies demo_cx (λ _, true)) 2000 2001 0x10000 7
     (Some ("employee" : cstr)) (Some ("OPS" : cstr)) true data_state = Ret (SSO_OK, Some true, Some (None, 0), st').
Proof.
  intros r. split; [eexists; vm_compute; reflexivity|].
  eapply (perm_check_data_reuses_decision demo_cx (λ _, true) (storage_memory_create 0 (λ _, true) 10)
            2000 2001 0x10000 sample_user "employee" "ENG" "OPS" mem_user_get_by_id data_state).
  - reflexivity.
  - reflexivity.
  - reflexivity.
  - done.
  - done.
  - reflexivity.
  - reflexivity.
  - vm_compute. reflexivity.
Defined.
