(* ===== verification/RateLimit.v ===== *)
(** * The rate limiter (src/ratelimit.c)

    A fixed table of request counters, open addressing on a string hash.
    The clock is an argument.  [count] is a C int, whose overflow is
    undefined behaviour. *)

From Stdlib Require Import Sorted.
From S2P Require Import Prelude CLib.

Definition MAX_KEY_LEN : nat := 64.

Record rl_entry_t := { key : cstr; window_start_ms : Z; count : Z; last_access_ms : Z }.

(** A zeroed entry is free: its key is empty. *)
Definition free_entry : rl_entry_t :=
  {| key := []; window_start_ms := 0; count := 0; last_access_ms := 0 |}.

(** [hash_string]: DJB2 on size_t; each char is sign-extended. *)
Definition hash_string (str : cstr) : Z :=
  fold_left (λ h c, u64 (u64 (u64 (Z.shiftl h 5) + h) + schar c)) str 5381.

Definition rate_limiter_create (alloc : Z → bool) (max_entries : nat)
  : sso_error_t * option (list rl_entry_t) :=
  match max_entries with
  | O => (SSO_ERR_INVALID_PARAM, None)
  | _ => if negb (alloc 56) then (SSO_ERR_OUT_OF_MEMORY, None)
         else if negb (alloc (Z.of_nat max_entries * 88)) then (SSO_ERR_OUT_OF_MEMORY, None)
         else (SSO_OK, Some (replicate max_entries free_entry))
  end.

Definition entry (entries : list rl_entry_t) (i : nat) : rl_entry_t := default free_entry (entries !! i).

(** The slot probed at step [i]. *)
Definition probe_at (k : cstr) (max i : nat) : nat :=
  Z.to_nat ((hash_string k mod Z.of_nat max + Z.of_nat i) mod Z.of_nat max).

(** The probe loop; [expired] is the first expired slot seen, [lru] the
    least recently used one with its access time. *)
Fixpoint find_loop (entries : list rl_entry_t) (max : nat) (k : cstr) (now window_ms : Z)
    (n i : nat) (expired : option nat) (lru : nat) (min_access : Z) : nat :=
  match n with
  | O => match expired with Some c => c | None => lru end
  | S n' =>
      let probe := probe_at k max i in
      let e := entry entries probe in
      match key e with
      | [] => probe
      | _ =>
          if strcmp_eq (key e) k then probe
          else
            let expired :=
              match expired with
              | Some c => Some c
              | None => if window_ms <? u64 (now - window_start_ms e) then Some probe else None
              end in
            let '(lru, min_access) :=
              if last_access_ms e <? min_access then (probe, last_access_ms e) else (lru, min_access) in
            find_loop entries max k now window_ms n' (i + 1) expired lru min_access
      end
  end.

Definition find_or_evict (entries : list rl_entry_t) (k : cstr) (now window_ms : Z) : nat :=
  find_loop entries (length entries) k now window_ms (length entries) 0 None 0 (2 ^ 64 - 1).

(** [rate_limiter_check] *)
Definition rate_limiter_check (entries : list rl_entry_t) (k : option cstr)
    (now window_ms max_requests : Z) : outcome (sso_error_t * list rl_entry_t) :=
  match k with
  | None => Ret (SSO_ERR_INVALID_PARAM, entries)
  | Some k =>
      let idx := find_or_evict entries k now window_ms in
      let e := entry entries idx in
      if strcmp_eq (key e) k then
        if u64 (now - window_start_ms e) <=? window_ms then
          if count e =? 2 ^ 31 - 1 then Crash
          else
            Ret (if max_requests <? count e + 1 then SSO_ERR_RATE_LIMIT else SSO_OK,
                 <[idx := {| key := key e; window_start_ms := window_start_ms e; count := count e + 1;
                             last_access_ms := now |}]> entries)
        else
          Ret (SSO_OK, <[idx := {| key := key e; window_start_ms := now; count := 1;
                                   last_access_ms := now |}]> entries)
      else
        Ret (SSO_OK, <[idx := {| key := sso_strlcpy (Some k) MAX_KEY_LEN; window_start_ms := now;
                                 count := 1; last_access_ms := now |}]> entries)
  end.

(** The scan of [rate_limiter_reset]. *)
Fixpoint reset_loop (entries : list rl_entry_t) (k : cstr) (n i : nat) : list rl_entry_t :=
  match n with
  | O => entries
  | S n' =>
      let probe := probe_at k (length entries) i in
      match key (entry entries probe) with
      | [] => entries
      | kp =>
          if strcmp_eq kp k then
            <[probe := {| key := kp; window_start_ms := 0; count := 0; last_access_ms := 0 |}]> entries
          else reset_loop entries k n' (i + 1)
      end
  end.

Definition rate_limiter_reset (entries : list rl_entry_t) (k : option cstr) : list rl_entry_t :=
  match k with None => entries | Some k => reset_loop entries k (length entries) 0 end.

(* ================================================================== *)
(** ** The table as a map *)

(** What the limiter remembers of a key: its window and its count. *)
Definition counters := cstr → option (Z * Z).

Definition remembers (entries : list rl_entry_t) : counters := λ k,
  e ← List.find (λ e, strcmp_eq (key e) k) entries; Some (window_start_ms e, count e).

(** The specification of a check. *)
Definition spec_check (m : option (Z * Z)) (now window_ms max_requests : Z) : sso_error_t * (Z * Z) :=
  match m with
  | Some (start, n) =>
      if u64 (now - start) <=? window_ms
      then (if max_requests <? n + 1 then SSO_ERR_RATE_LIMIT else SSO_OK, (start, n + 1))
      else (SSO_OK, (now, 1))
  | None => (SSO_OK, (now, 1))
  end.

(** Every stored key is short, and is found by its own probe sequence
    before any free slot. *)
Record rl_inv (entries : list rl_entry_t) : Prop := {
  rl_nonempty : (0 < length entries)%nat;
  rl_short : ∀ i e, entries !! i = Some e → (length (key e) < MAX_KEY_LEN)%nat;
  rl_path : ∀ i e, entries !! i = Some e → key e ≠ [] →
    ∃ d, (d < length entries)%nat ∧ i = probe_at (key e) (length entries) d ∧
      ∀ j, (j < d)%nat → let e' := entry entries (probe_at (key e) (length entries) j) in
                          key e' ≠ [] ∧ key e' ≠ key e
}.

Lemma entry_Some es i e : es !! i = Some e → entry es i = e.
Proof. intros H. unfold entry. by rewrite H. Qed.

Lemma entry_lookup es i : (i < length es)%nat → es !! i = Some (entry es i).
Proof. intros [e He]%lookup_lt_is_Some. by rewrite He, (entry_Some _ _ _ He). Qed.

Lemma entry_insert es i j e :
  (i < length es)%nat → entry (<[i := e]> es) j = if decide (i = j) then e else entry es j.
Proof.
  intros Hi. unfold entry. destruct (decide (i = j)) as [->|].
  - by rewrite list_lookup_insert_eq.
  - by rewrite list_lookup_insert_ne.
Qed.

Lemma probe_at_lt k N i : (0 < N)%nat → (probe_at k N i < N)%nat.
Proof.
  intros HN. unfold probe_at.
  pose proof (Z.mod_pos_bound (hash_string k mod Z.of_nat N + Z.of_nat i) (Z.of_nat N)). lia.
Qed.

Lemma probe_at_inj k N i j :
  (i < N)%nat → (j < N)%nat → probe_at k N i = probe_at k N j → i = j.
Proof.
  intros Hi Hj. unfold probe_at. set (h := hash_string k mod Z.of_nat N).
  pose proof (Z.mod_pos_bound (h + Z.of_nat i) (Z.of_nat N)).
  pose proof (Z.mod_pos_bound (h + Z.of_nat j) (Z.of_nat N)). intros E.
  assert (E' : (h + Z.of_nat i) mod Z.of_nat N = (h + Z.of_nat j) mod Z.of_nat N) by lia.
  pose proof (Z.div_mod (h + Z.of_nat i) (Z.of_nat N)). pose proof (Z.div_mod (h + Z.of_nat j) (Z.of_nat N)).
  rewrite E' in *. assert (Hd : Z.of_nat i - Z.of_nat j =
    Z.of_nat N * ((h + Z.of_nat i) / Z.of_nat N - (h + Z.of_nat j) / Z.of_nat N)) by lia.
  set (q := (h + Z.of_nat i) / Z.of_nat N - (h + Z.of_nat j) / Z.of_nat N) in *.
  assert (q = 0) by nia. lia.
Qed.

Lemma probe_at_onto k N x : (x < N)%nat → ∃ d, (d < N)%nat ∧ x = probe_at k N d.
Proof.
  intros Hx. set (h := hash_string k mod Z.of_nat N).
  assert (Hh : 0 ≤ h < Z.of_nat N) by (apply Z.mod_pos_bound; lia).
  exists (Z.to_nat ((Z.of_nat x - h) mod Z.of_nat N)).
  pose proof (Z.mod_pos_bound (Z.of_nat x - h) (Z.of_nat N)). split; [lia|].
  unfold probe_at. fold h. rewrite Z2Nat.id by lia. rewrite Z.add_mod_idemp_r by lia.
  replace (h + (Z.of_nat x - h)) with (Z.of_nat x) by lia. rewrite Z.mod_small by lia. lia.
Qed.

(** The first index below a bound where a decidable predicate holds. *)
Lemma least_index (P : nat → Prop) `{∀ n, Decision (P n)} d :
  P d → ∃ m, (m ≤ d)%nat ∧ P m ∧ ∀ j, (j < m)%nat → ¬ P j.
Proof.
  induction d as [d IH] using lt_wf_ind. intros Hd.
  destruct (decide (Exists P (seq 0 d))) as [(j & [_ Hj]%elem_of_seq & Hp)%Exists_exists|Hn].
  - destruct (IH j ltac:(lia) Hp) as (m & Hm & HP & Hl). exists m. split_and!; [lia|done|done].
  - exists d. split_and!; [lia|done|]. intros j Hj Hp. apply Hn, Exists_exists. exists j.
    split; [|done]. apply elem_of_seq. lia.
Qed.

(** A slot the probe for [k] stops at. *)
Definition stops (es : list rl_entry_t) (k : cstr) (i : nat) : Prop :=
  key (entry es (probe_at k (length es) i)) = [] ∨ key (entry es (probe_at k (length es) i)) = k.
#[local] Instance stops_dec es k i : Decision (stops es k i).
Proof. unfold stops. solve_decision. Defined.

Lemma find_loop_stops es k now w n i d ex lru mn :
  (i ≤ d < i + n)%nat → stops es k d → (∀ j, (i ≤ j < d)%nat → ¬ stops es k j) →
  find_loop es (length es) k now w n i ex lru mn = probe_at k (length es) d.
Proof.
  revert i ex lru mn. induction n as [|n IH]; intros i ex lru mn Hd Hs Hn; [lia|]. cbn [find_loop].
  destruct (decide (i = d)) as [->|Hne].
  - destruct Hs as [-> | ->]; [done|]. rewrite strcmp_eq_refl. by destruct k.
  - assert (Hi : ¬ stops es k i) by (apply Hn; lia). unfold stops in Hi.
    destruct (key (entry es (probe_at k (length es) i))) as [|c kk] eqn:Ek; [tauto|].
    destruct (strcmp_eq (c :: kk) k) eqn:Ec; [apply strcmp_eq_iff in Ec; tauto|].
    destruct (last_access_ms _ <? mn); apply IH; try lia; try done; intros; apply Hn; lia.
Qed.

(** A key sits in one entry only. *)
Lemma rl_unique es i j e e' :
  rl_inv es → es !! i = Some e → es !! j = Some e' → key e = key e' → key e ≠ [] → i = j.
Proof.
  intros Hinv Hi Hj Heq Hne.
  destruct (rl_path es Hinv i e Hi Hne) as (d & Hd & Ei & Hp).
  destruct (rl_path es Hinv j e' Hj ltac:(congruence)) as (d' & Hd' & Ej & Hp').
  rewrite <- Heq in *. destruct (Nat.lt_trichotomy d d') as [Hlt|[->|Hlt]]; [|congruence|].
  - destruct (Hp' d Hlt) as [_ Hc]. rewrite <- Ei, (entry_Some _ _ _ Hi) in Hc. done.
  - destruct (Hp d' Hlt) as [_ Hc]. rewrite <- Ej, (entry_Some _ _ _ Hj) in Hc. congruence.
Qed.

Lemma remembers_at es i e :
  rl_inv es → es !! i = Some e → key e ≠ [] → remembers es (key e) = Some (window_start_ms e, count e).
Proof.
  intros Hinv Hi Hne. unfold remembers.
  destruct (List.find (λ x, strcmp_eq (key x) (key e)) es) as [x|] eqn:E.
  - apply List.find_some in E as [Hin Hx]. apply strcmp_eq_iff in Hx.
    rewrite <- list_elem_of_In in Hin. apply list_elem_of_lookup in Hin as (j & Hj).
    assert (j = i) as -> by (eapply rl_unique; [done|exact Hj|exact Hi|done|congruence]).
    simpl. by simplify_eq.
  - apply list_elem_of_lookup_2, list_elem_of_In, (List.find_none _ _ E) in Hi.
    by rewrite strcmp_eq_refl in Hi.
Qed.

Lemma remembers_None es k : (∀ i e, es !! i = Some e → key e ≠ k) → remembers es k = None.
Proof.
  intros H. unfold remembers. destruct (List.find _ es) as [x|] eqn:E; [|done].
  apply List.find_some in E as [Hin Hx]. apply strcmp_eq_iff in Hx.
  rewrite <- list_elem_of_In in Hin. apply list_elem_of_lookup in Hin as (j & Hj). by apply H in Hj.
Qed.

(** The table has room for a key. *)
Definition has_room (es : list rl_entry_t) (k : cstr) : Prop :=
  is_Some (remembers es k) ∨ ∃ i e, es !! i = Some e ∧ key e = [].

Lemma find_loop_lt es k now w n i ex lru mn :
  (0 < length es)%nat → (lru < length es)%nat → (∀ c, ex = Some c → (c < length es)%nat) →
  (find_loop es (length es) k now w n i ex lru mn < length es)%nat.
Proof.
  revert i ex lru mn. induction n as [|n IH]; intros i ex lru mn HN Hl Hex; cbn [find_loop].
  - destruct ex; auto.
  - pose proof (probe_at_lt k _ i HN) as Hp.
    destruct (key _) as [|c kk]; [done|]. destruct (strcmp_eq _ _); [done|].
    assert (Hex' : ∀ c, match ex with Some c => Some c | None =>
        if w <? u64 (now - window_start_ms (entry es (probe_at k (length es) i)))
        then Some (probe_at k (length es) i) else None end = Some c → (c < length es)%nat).
    { intros c' Hc. destruct ex; [by apply Hex|]. destruct (_ <? _); [by simplify_eq|done]. }
    destruct (last_access_ms _ <? mn); apply IH; done.
Qed.

(** A key of the table stops its own probe. *)
Lemma stored_stops es i e :
  rl_inv es → es !! i = Some e → key e ≠ [] → ∃ d, (d < length es)%nat ∧ stops es (key e) d.
Proof.
  intros Hinv Hi Hk. destruct (rl_path es Hinv i e Hi Hk) as (d & Hd & Ei & _).
  exists d. split; [done|]. right. by rewrite <- Ei, (entry_Some _ _ _ Hi).
Qed.

(** The slot found is the first one the probe stops at; when it stops
    nowhere, the table is full and does not have the key. *)
Lemma find_or_evict_spec es k now w :
  rl_inv es → k ≠ [] →
  ∃ d, (d < length es)%nat ∧ find_or_evict es k now w = probe_at k (length es) d ∧
       (∀ j, (j < d)%nat → ¬ stops es k j) ∧
       (stops es k d ∨ ∀ j, (j < length es)%nat → ¬ stops es k j).
Proof.
  intros Hinv Hne. destruct (decide (Exists (stops es k) (seq 0 (length es)))) as [Hd|Hd].
  - apply Exists_exists in Hd as (d & [_ Hd]%elem_of_seq & Hs).
    destruct (least_index (stops es k) d Hs) as (m & Hm & Hsm & Hl).
    exists m. split_and!; [lia| |done|by left]. apply find_loop_stops; [lia|done|].
    intros j Hj. apply Hl. lia.
  - assert (Hno : ∀ j, (j < length es)%nat → ¬ stops es k j).
    { intros j Hj Hs. apply Hd, Exists_exists. exists j. split; [|done]. apply elem_of_seq. lia. }
    destruct (probe_at_onto k (length es) (find_or_evict es k now w)) as (d & Hd' & E).
    { apply find_loop_lt; [apply (rl_nonempty es Hinv)..|done]. }
    exists d. split_and!; [done|done| |by right]. intros j Hj. apply Hno. lia.
Qed.

Lemma full_unknown es k :
  rl_inv es → k ≠ [] → (∀ j, (j < length es)%nat → ¬ stops es k j) →
  (∀ i e, es !! i = Some e → key e ≠ k) ∧ ¬ has_room es k.
Proof.
  intros Hinv Hne Hno.
  assert (Hk : ∀ i e, es !! i = Some e → key e ≠ k).
  { intros i e Hi <-. destruct (stored_stops es i e Hinv Hi Hne) as (d & Hd & Hs). by eapply Hno. }
  split; [done|]. intros [[c Hc]|(i & e & Hi & He)].
  - by rewrite (remembers_None es k Hk) in Hc.
  - destruct (probe_at_onto k (length es) i) as (d & Hd & ->); [by eapply lookup_lt_Some|].
    apply (Hno d Hd). left. by rewrite (entry_Some _ _ _ Hi).
Qed.

(** Writing an entry for [k] in the slot found keeps the table
    consistent. *)
Lemma rl_write_inv es k d e :
  rl_inv es → k ≠ [] → (length k < MAX_KEY_LEN)%nat → (d < length es)%nat →
  (∀ j, (j < d)%nat → ¬ stops es k j) →
  stops es k d ∨ (∀ i e, es !! i = Some e → key e ≠ k) → key e = k →
  rl_inv (<[probe_at k (length es) d := e]> es).
Proof.
  intros Hinv Hne Hlen Hd Hpath Hs He. set (x := probe_at k (length es) d).
  assert (Hx : (x < length es)%nat) by (apply probe_at_lt; lia).
  split; rewrite ?length_insert.
  - apply (rl_nonempty es Hinv).
  - intros i e0. rewrite list_lookup_insert. case_decide; [|apply (rl_short es Hinv)].
    intros [= <-]. by rewrite He.
  - intros i e0. rewrite list_lookup_insert. case_decide as Hdec.
    + intros [= <-] _. destruct Hdec as [<- _]. rewrite He. exists d. split_and!; [done..|].
      intros j Hj. cbv zeta. rewrite entry_insert by done. case_decide as Hj'.
      * apply probe_at_inj in Hj'; lia.
      * pose proof (Hpath j Hj) as Hns. unfold stops in Hns. tauto.
    + intros Hi Hk. destruct (rl_path es Hinv i e0 Hi Hk) as (dt & Hdt & Ei & Hpt).
      exists dt. split_and!; [done..|]. intros j Hj. cbv zeta. rewrite entry_insert by done.
      case_decide as Hj'; [|by apply Hpt]. rewrite He. split; [done|]. intros Heq.
      destruct Hs as [Hs|Hs]; [|by apply (Hs i e0 Hi)].
      pose proof (Hpt j Hj) as Hj0. cbv zeta in Hj0. rewrite <- Hj', <- Heq in Hj0.
      unfold stops in Hs. fold x in Hs. tauto.
Qed.

(** ... and when the slot is free or already the key's, it changes
    nothing for the other keys. *)
Lemma rl_write_others es k d e k' :
  rl_inv es → rl_inv (<[probe_at k (length es) d := e]> es) → stops es k d → key e = k →
  k' ≠ [] → k' ≠ k →
  remembers (<[probe_at k (length es) d := e]> es) k' = remembers es k'.
Proof.
  intros Hinv Hinv' Hs He Hne' Hdiff.
  destruct (List.find (λ e, strcmp_eq (key e) k') es) as [t|] eqn:E.
  - apply List.find_some in E as [Hin Ht]. apply strcmp_eq_iff in Ht.
    rewrite <- list_elem_of_In in Hin. apply list_elem_of_lookup in Hin as (i & Hi).
    assert (Hi' : <[probe_at k (length es) d := e]> es !! i = Some t).
    { rewrite list_lookup_insert_ne; [done|]. intros <-. unfold stops in Hs.
      rewrite (entry_Some _ _ _ Hi) in Hs. destruct Hs; congruence. }
    rewrite <- Ht. rewrite (remembers_at es i t), (remembers_at _ i t Hinv' Hi'); congruence.
  - assert (Hno : ∀ i e0, es !! i = Some e0 → key e0 ≠ k').
    { intros i e0 Hi Hk'. apply list_elem_of_lookup_2, list_elem_of_In, (List.find_none _ _ E) in Hi.
      by rewrite Hk', strcmp_eq_refl in Hi. }
    rewrite !remembers_None; [done|exact Hno|].
    intros i e0. rewrite list_lookup_insert. case_decide; [|apply Hno].
    intros [= <-]. congruence.
Qed.

Definition tick (e : rl_entry_t) (start n now : Z) : rl_entry_t :=
  {| key := key e; window_start_ms := start; count := n; last_access_ms := now |}.

(** A check is one write in the slot found, of the pair that the
    specification computes from what the table remembers. *)
Lemma check_writes es k now w mx :
  rl_inv es → k ≠ [] → (length k < MAX_KEY_LEN)%nat →
  (∀ s n, remembers es k = Some (s, n) → n < 2 ^ 31 - 1) →
  ∃ d e, let x := probe_at k (length es) d in
    rate_limiter_check es (Some k) now w mx =
      Ret ((spec_check (remembers es k) now w mx).1, <[x := e]> es) ∧
    key e = k ∧ (window_start_ms e, count e) = (spec_check (remembers es k) now w mx).2 ∧
    (d < length es)%nat ∧ (∀ j, (j < d)%nat → ¬ stops es k j) ∧
    (stops es k d ∨ ∀ j, (j < length es)%nat → ¬ stops es k j).
Proof.
  intros Hinv Hne Hlen Hcnt.
  destruct (find_or_evict_spec es k now w Hinv Hne) as (d & Hd & Hf & Hpath & Hs).
  exists d. set (x := probe_at k (length es) d) in *. cbv zeta.
  assert (Hx : es !! x = Some (entry es x)) by (apply entry_lookup, probe_at_lt; lia).
  unfold rate_limiter_check. rewrite Hf.
  destruct (strcmp_eq (key (entry es x)) k) eqn:Ek.
  - apply strcmp_eq_iff in Ek. pose proof (remembers_at es x _ Hinv Hx ltac:(congruence)) as Hr.
    rewrite Ek in Hr. pose proof (Hcnt _ _ Hr) as Hc. rewrite Hr. cbn [spec_check].
    destruct (u64 _ <=? w).
    + destruct (Z.eqb_spec (count (entry es x)) (2 ^ 31 - 1)); [lia|].
      eexists. split_and!; [reflexivity|done..].
    + eexists. split_and!; [reflexivity|done..].
  - assert (Hr : remembers es k = None).
    { apply remembers_None. destruct Hs as [Hs|Hs]; [|by apply full_unknown].
      intros i e Hi He. destruct (rl_path es Hinv i e Hi ltac:(congruence)) as (d' & Hd' & Ei & Hp').
      rewrite He in *. pose proof (λ H, Hp' d H) as Hp. cbv zeta in Hp. fold x in Hp.
      destruct (Nat.lt_trichotomy d d') as [Hlt|[->|Hlt]].
      - destruct Hs as [Hs|Hs]; fold x in Hs; [by apply Hp in Hlt as [? _]|].
        rewrite Hs, strcmp_eq_refl in Ek. done.
      - fold x in Ei. rewrite Ei, Hx in Hi. injection Hi as Hi. rewrite Hi, He, strcmp_eq_refl in Ek. done.
      - apply (Hpath d' Hlt). right. by rewrite <- Ei, (entry_Some _ _ _ Hi). }
    rewrite Hr. eexists. split_and!; [reflexivity| |done..]. by apply sso_strlcpy_fits.
Qed.

Lemma check_refines es k now w mx :
  rl_inv es → k ≠ [] → (length k < MAX_KEY_LEN)%nat →
  (∀ s n, remembers es k = Some (s, n) → n < 2 ^ 31 - 1) →
  ∃ es',
    rate_limiter_check es (Some k) now w mx =
      Ret ((spec_check (remembers es k) now w mx).1, es') ∧
    rl_inv es' ∧ length es' = length es ∧
    remembers es' k = Some (spec_check (remembers es k) now w mx).2 ∧
    (has_room es k → ∀ k', k' ≠ [] → k' ≠ k → remembers es' k' = remembers es k').
Proof.
  intros Hinv Hne Hlen Hcnt.
  destruct (check_writes es k now w mx Hinv Hne Hlen Hcnt) as (d & e & Hc & Hk & Hp & Hd & Hpath & Hs).
  set (x := probe_at k (length es) d) in *.
  assert (Hinv' : rl_inv (<[x := e]> es)).
  { apply rl_write_inv; [done..| |done]. destruct Hs as [Hs|Hs]; [by left|right].
    by apply full_unknown. }
  eexists. split_and!; [exact Hc|done|apply length_insert| |].
  - rewrite <- Hp, <- Hk. apply (remembers_at _ x); [done| |congruence].
    apply list_lookup_insert_eq, probe_at_lt. lia.
  - intros Hroom k' Hk' Hdiff. destruct Hs as [Hs|Hs].
    + by apply rl_write_others.
    + by apply full_unknown in Hs as [_ Hs].
Qed.

(** C40. The rate limiter implements a map from keys to counters: for a
    key that fits the table's key field and whose counter is not at the
    top of its C int, [rate_limiter_check] returns without undefined
    behaviour, answers as the specification does on what the table
    remembers of the key, remembers the specification's new window and
    count, keeps the open-addressing invariant, and as long as the table
    has the key or a free slot it leaves every other key's counter
    alone. *)
Theorem rate_limiter_check_refines es k now w mx :
  rl_inv es → k ≠ [] → (length k < MAX_KEY_LEN)%nat →
  (∀ s n, remembers es k = Some (s, n) → n < 2 ^ 31 - 1) →
  ∃ es',
    rate_limiter_check es (Some k) now w mx =
      Ret ((spec_check (remembers es k) now w mx).1, es') ∧
    rl_inv es' ∧
    remembers es' k = Some (spec_check (remembers es k) now w mx).2 ∧
    (has_room es k → ∀ k', k' ≠ [] → k' ≠ k → remembers es' k' = remembers es k').
Proof.
  intros H1 H2 H3 H4. destruct (check_refines es k now w mx H1 H2 H3 H4) as (es' & ? & ? & _ & ? & ?). eauto.
Qed.

Lemma rl_inv_fresh n : (0 < n)%nat → rl_inv (replicate n free_entry).
Proof.
  intros Hn. split; [by rewrite length_replicate|..];
    intros i e [-> _]%lookup_replicate; simpl; unfold MAX_KEY_LEN; [lia|done].
Qed.

(* ================================================================== *)
(** ** Quotas *)

(** A client's run: requests (key, time) served one after the other. *)
Fixpoint serve (es : list rl_entry_t) (reqs : list (cstr * Z)) (w mx : Z)
  : outcome (list sso_error_t * list rl_entry_t) :=
  match reqs with
  | [] => Ret ([], es)
  | (k, now) :: reqs' =>
      '(r, es) ← rate_limiter_check es (Some k) now w mx;
      '(rs, es) ← serve es reqs' w mx;
      Ret (r :: rs, es)
  end.

Definition times (k : cstr) (seen : list cstr) : Z :=
  Z.of_nat (length (filter (λ k', k' = k) seen)).

(** The answers a quota of [mx] requests per key gives. *)
Fixpoint quota (seen : list cstr) (keys : list cstr) (mx : Z) : list sso_error_t :=
  match keys with
  | [] => []
  | k :: keys' =>
      (if mx <? times k seen + 1 then SSO_ERR_RATE_LIMIT else SSO_OK) :: quota (k :: seen) keys' mx
  end.

Lemma times_cons_eq k seen : times k (k :: seen) = times k seen + 1.
Proof. unfold times. rewrite filter_cons_True by done. simpl. lia. Qed.
Lemma times_cons_ne k k' seen : k' ≠ k → times k' (k :: seen) = times k' seen.
Proof. intros H. unfold times. by rewrite filter_cons_False by congruence. Qed.
Lemma times_le k seen : times k seen ≤ Z.of_nat (length seen).
Proof. unfold times. pose proof (length_filter (λ k', k' = k) seen). lia. Qed.
Lemma times_notin k seen : k ∉ seen → times k seen = 0.
Proof.
  intros H. unfold times. induction seen as [|x seen IH]; [done|].
  rewrite filter_cons_False by (intros ->; set_solver). apply IH. set_solver.
Qed.

(** A table whose keys all belong to a set no larger than the table has
    room for every key of the set. *)
Lemma has_room_bound (es : list rl_entry_t) (k : cstr) (S : gset cstr) :
  rl_inv es → (∀ k' : cstr, k' ≠ [] → is_Some (remembers es k') → k' ∈ S) →
  k ∈ S → (size S ≤ length es)%nat → has_room es k.
Proof.
  intros Hinv Hsub Hk Hsize.
  destruct (decide (Exists (λ e, key e = []) es)) as [He|He].
  { right. apply Exists_exists in He as (e & (i & Hi)%list_elem_of_lookup & He). eauto. }
  left. destruct (remembers es k) eqn:Hr; [done|exfalso].
  assert (Hne : ∀ i e, es !! i = Some e → key e ≠ []).
  { intros i e Hi E. apply He, Exists_exists. exists e. split; [|done]. by eapply list_elem_of_lookup_2. }
  assert (Hnd : NoDup (key <$> es)).
  { apply NoDup_alt. intros i j x Hi Hj. rewrite list_lookup_fmap in Hi, Hj.
    destruct (es !! i) as [e|] eqn:Ei; [|done]. destruct (es !! j) as [e'|] eqn:Ej; [|done].
    simpl in Hi, Hj. simplify_eq. eapply rl_unique; eauto. }
  assert (Hss : list_to_set (key <$> es) ⊆ S ∖ {[k]}).
  { intros x Hx. apply elem_of_list_to_set, list_elem_of_fmap in Hx as (e & -> & (i & Hi)%list_elem_of_lookup).
    pose proof (remembers_at es i e Hinv Hi (Hne i e Hi)) as Hre. apply elem_of_difference. split.
    - apply Hsub; eauto.
    - intros Hek%elem_of_singleton. rewrite Hek in Hre. congruence. }
  apply subseteq_size in Hss. rewrite size_list_to_set, length_fmap in Hss by done.
  rewrite size_difference, size_singleton in Hss by (by intros ? ->%elem_of_singleton).
  assert (size S ≠ 0%nat) by (intros E; apply size_empty_inv in E; set_solver). lia.
Qed.

(** What the table remembers while all requests so far, [seen], came
    within one window that began at [t0]. *)
Definition counts (es : list rl_entry_t) (seen : list cstr) (t0 now : Z) : Prop :=
  rl_inv es ∧ ∀ k, k ≠ [] →
    if decide (k ∈ seen) then ∃ s, t0 ≤ s ≤ now ∧ remembers es k = Some (s, times k seen)
    else remembers es k = None.

Lemma counts_step (es : list rl_entry_t) (seen : list cstr) (t0 now w mx : Z) (k : cstr) (S : gset cstr) :
  counts es seen t0 now → k ≠ [] → (length k < MAX_KEY_LEN)%nat →
  0 ≤ t0 → now ≤ t0 + w → now < 2 ^ 64 → t0 ≤ now → 1 ≤ mx → Z.of_nat (length seen) < 2 ^ 31 - 1 →
  list_to_set (k :: seen) ⊆ S → (size S ≤ length es)%nat →
  ∃ es', rate_limiter_check es (Some k) now w mx =
           Ret (if mx <? times k seen + 1 then SSO_ERR_RATE_LIMIT else SSO_OK, es') ∧
         counts es' (k :: seen) t0 now ∧ length es' = length es.
Proof.
  intros [Hinv Hm] Hne Hlen H0 Hw H64 Ht Hmx Hs HS Hsize.
  assert (Hroom : has_room es k).
  { apply (has_room_bound es k S); [done| |set_solver|done].
    intros k' Hk' [p Hp]. specialize (Hm k' Hk'). destruct (decide (k' ∈ seen)) as [Hin|]; [|congruence].
    apply HS. set_solver. }
  assert (Hcnt : ∀ s n, remembers es k = Some (s, n) → n < 2 ^ 31 - 1).
  { intros s n Hr. specialize (Hm k Hne). pose proof (times_le k seen).
    destruct (decide (k ∈ seen)); [destruct Hm as (s' & _ & Hm); simplify_eq; lia|congruence]. }
  destruct (check_refines es k now w mx Hinv Hne Hlen Hcnt) as (es' & Hc & Hinv' & Hl & Hk & Hoth).
  assert (Hspec : ∃ s, t0 ≤ s ≤ now ∧ spec_check (remembers es k) now w mx =
     (if mx <? times k seen + 1 then SSO_ERR_RATE_LIMIT else SSO_OK, (s, times k seen + 1))).
  { specialize (Hm k Hne). destruct (decide (k ∈ seen)) as [Hin|Hin].
    - destruct Hm as (s & Hs' & ->). exists s. split; [done|]. cbn [spec_check].
      rewrite u64_sub_small by lia. by rewrite (proj2 (Z.leb_le (now - s) w)) by lia.
    - rewrite Hm, times_notin by done. exists now. split; [lia|]. cbn [spec_check].
      by rewrite (proj2 (Z.ltb_ge mx (0 + 1))) by lia. }
  destruct Hspec as (s & Hs' & Hsp). rewrite Hsp in Hc, Hk. exists es'. split_and!; [exact Hc| |done].
  split; [done|]. intros k' Hne'. destruct (decide (k' = k)) as [->|Hd].
  - rewrite decide_True by set_solver. rewrite times_cons_eq. eauto.
  - rewrite (Hoth Hroom k' Hne' Hd), times_cons_ne by done. specialize (Hm k' Hne').
    destruct (decide (k' ∈ seen)); [rewrite decide_True by set_solver|rewrite decide_False by set_solver]; eauto.
Qed.

Lemma counts_later es seen t0 now now' : now ≤ now' → counts es seen t0 now → counts es seen t0 now'.
Proof.
  intros Hle [Hinv Hm]. split; [done|]. intros k Hk. specialize (Hm k Hk).
  destruct (decide _); [|done]. destruct Hm as (s & ? & ?). exists s. split; [lia|done].
Qed.

Lemma serve_cons es k now reqs w mx r es' rs es'' :
  rate_limiter_check es (Some k) now w mx = Ret (r, es') → serve es' reqs w mx = Ret (rs, es'') →
  serve es ((k, now) :: reqs) w mx = Ret (r :: rs, es'').
Proof. intros Hc Hs. cbn [serve]. by rewrite Hc, outcome_bind_Ret, Hs, outcome_bind_Ret. Qed.

(** A run of requests inside a window. *)
Lemma serve_counts (es : list rl_entry_t) (seen : list cstr) (t0 now w mx : Z) (reqs : list (cstr * Z)) (S : gset cstr) :
  counts es seen t0 now → 0 ≤ t0 ≤ now → t0 + w < 2 ^ 64 → 1 ≤ mx →
  Forall (λ r, r.1 ≠ [] ∧ (length r.1 < MAX_KEY_LEN)%nat ∧ r.2 ≤ t0 + w) reqs →
  StronglySorted Z.le (now :: reqs.*2) →
  Z.of_nat (length seen + length reqs) < 2 ^ 31 - 1 →
  list_to_set (reqs.*1 ++ seen) ⊆ S → (size S ≤ length es)%nat →
  ∃ es', serve es reqs w mx = Ret (quota seen reqs.*1 mx, es').
Proof.
  revert es seen now. induction reqs as [|[k t] reqs IH];
    intros es seen now Hc H0 H64 Hmx Hall Hsort Hlen HS Hsz; [by eexists|].
  apply Forall_cons in Hall as [(Hne & Hk & Ht) Hall]. cbn [fst snd fmap list_fmap length] in *.
  inversion Hsort as [|? ? Hsort' Hle]; subst. apply Forall_cons in Hle as [Hle _].
  destruct (counts_step es seen t0 t w mx k S) as (es' & Hchk & Hc' & Hl); try done; try lia.
  { by eapply counts_later. } { set_solver. }
  destruct (IH es' (k :: seen) t) as (es'' & Hs); try done; try lia.
  { cbn [length]. lia. } { set_solver. }
  eexists. by apply (serve_cons _ _ _ _ _ _ _ _ _ _ Hchk Hs).
Qed.

(** On a fresh table with a slot for every client, a run of requests
    that all fall within one window is answered exactly as a quota of
    [mx] requests per client would: each client's first [mx] requests
    pass, each later one is refused, whatever the interleaving. *)
Theorem rate_limiter_quota (n : nat) (t0 w mx : Z) (reqs : list (cstr * Z)) :
  (0 < n)%nat → 0 ≤ t0 → t0 + w < 2 ^ 64 → 1 ≤ mx →
  Forall (λ r, r.1 ≠ [] ∧ (length r.1 < MAX_KEY_LEN)%nat ∧ r.2 ≤ t0 + w) reqs →
  StronglySorted Z.le (t0 :: reqs.*2) →
  Z.of_nat (length reqs) < 2 ^ 31 - 1 →
  (size (list_to_set reqs.*1 : gset cstr) ≤ n)%nat →
  ∃ es es', rate_limiter_create (λ _, true) n = (SSO_OK, Some es) ∧
    serve es reqs w mx = Ret (quota [] reqs.*1 mx, es').
Proof.
  intros Hn H0 H64 Hmx Hall Hsort Hlen Hsz. exists (replicate n free_entry).
  destruct (serve_counts (replicate n free_entry) [] t0 t0 w mx reqs (list_to_set reqs.*1)) as (es' & Hs);
    try done; try lia.
  - split; [by apply rl_inv_fresh|]. intros k Hk. rewrite decide_False by set_solver.
    apply remembers_None. intros i e [-> _]%lookup_replicate. simpl. congruence.
  - by rewrite app_nil_r.
  - by rewrite length_replicate.
  - exists es'. split; [|done]. by destruct n; [lia|].
Qed.

Lemma rate_limiter_quota_witness :
  ∃ es es', rate_limiter_create (λ _, true) 2 = (SSO_OK, Some es) ∧
    serve es [("10.0.0.1" : cstr, 5); ("10.0.0.2" : cstr, 6); ("10.0.0.1" : cstr, 7)] 1000 1 =
    Ret ([SSO_OK; SSO_OK; SSO_ERR_RATE_LIMIT], es').
Proof.
  apply (rate_limiter_quota 2 0 1000 1 [("10.0.0.1" : cstr, 5); ("10.0.0.2" : cstr, 6); ("10.0.0.1" : cstr, 7)]);
    try lia.
  - repeat constructor; simpl; try done; unfold MAX_KEY_LEN; lia.
  - repeat constructor; simpl; lia.
  - simpl. lia.
  - vm_compute. lia.
Defined.

Lemma rate_limiter_check_refines_witness :
  ∃ es', rate_limiter_check (replicate 2 free_entry) (Some ("10.0.0.1" : cstr)) 5 1000 3 = Ret (SSO_OK, es') ∧
    rl_inv es' ∧ remembers es' ("10.0.0.1" : cstr) = Some (5, 1) ∧
    (has_room (replicate 2 free_entry) ("10.0.0.1" : cstr) →
     ∀ k', k' ≠ [] → k' ≠ ("10.0.0.1" : cstr) → remembers es' k' = remembers (replicate 2 free_entry) k').
Proof.
  apply (rate_limiter_check_refines (replicate 2 free_entry) ("10.0.0.1" : cstr) 5 1000 3).
  - apply rl_inv_fresh. lia.
  - done.
  - simpl. unfold MAX_KEY_LEN. lia.
  - done.
Defined.

(* ================================================================== *)
(** ** Long keys *)

(** Keys are cut to fit the key field, whatever was checked before. *)
Definition short_keys (es : list rl_entry_t) : Prop :=
  Forall (λ e, (length (key e) < MAX_KEY_LEN)%nat) es.

Lemma short_keys_entry es i : short_keys es → (length (key (entry es i)) < MAX_KEY_LEN)%nat.
Proof.
  intros H. unfold entry. destruct (es !! i) as [e|] eqn:E; simpl; [|unfold MAX_KEY_LEN; lia].
  by eapply (proj1 (Forall_lookup _ es) H).
Qed.

Lemma check_short_keys es k now w mx r es' :
  short_keys es → rate_limiter_check es k now w mx = Ret (r, es') → short_keys es'.
Proof.
  intros Hs. unfold rate_limiter_check. destruct k as [k|]; [|by intros [= _ <-]].
  repeat case_goal; intros [= _ <-]; apply Forall_insert; try done; simpl; try by apply short_keys_entry.
  pose proof (sso_strlcpy_length (Some k) MAX_KEY_LEN). unfold MAX_KEY_LEN in *. lia.
Qed.

(** Checks of one key, one after the other. *)
Fixpoint hammer (es : list rl_entry_t) (k : cstr) (nows : list Z) (w mx : Z)
  : outcome (list sso_error_t) :=
  match nows with
  | [] => Ret []
  | now :: nows' =>
      '(r, es) ← rate_limiter_check es (Some k) now w mx;
      rs ← hammer es k nows' w mx;
      Ret (r :: rs)
  end.

(** A key of 64 characters or more is stored cut to 63, so no later
    check finds it again: from any table whose keys fit their field,
    every request of any number made with it passes, whatever the limit
    and the window. *)
Theorem long_key_never_limited es k nows w mx :
  short_keys es → (MAX_KEY_LEN ≤ length k)%nat →
  hammer es k nows w mx = Ret (replicate (length nows) SSO_OK).
Proof.
  intros Hs Hk. revert es Hs. induction nows as [|now nows IH]; intros es Hs; [done|]. cbn [hammer].
  assert (Hc : ∃ es', rate_limiter_check es (Some k) now w mx = Ret (SSO_OK, es')).
  { unfold rate_limiter_check. destruct (strcmp_eq _ k) eqn:E; [|by eexists].
    apply strcmp_eq_iff in E. pose proof (short_keys_entry es (find_or_evict es k now w) Hs).
    rewrite E in *. lia. }
  destruct Hc as (es' & Hc). rewrite Hc, outcome_bind_Ret.
  rewrite IH by (by eapply check_short_keys). done.
Qed.

Lemma long_key_never_limited_witness :
  hammer (replicate 2 free_entry) (replicate 64 "a"%char) [1; 2; 3] 1000 1 = Ret [SSO_OK; SSO_OK; SSO_OK].
Proof.
  apply (long_key_never_limited (replicate 2 free_entry) (replicate 64 "a"%char) [1; 2; 3] 1000 1).
  - apply Forall_replicate. simpl. unfold MAX_KEY_LEN. lia.
  - rewrite length_replicate. unfold MAX_KEY_LEN. lia.
Defined.
