(* ===== verification/Bits.v ===== *)
(** * Bit strings

    The codecs of the program (base32 in src/mfa.c, base64url in
    src/token.c) regroup a stream of bits.  [bits w x] is the [w]-bit big
    endian word of [x]; the lemmas say how shifting, masking and or-ing a
    buffer cuts and glues such words. *)

From S2P Require Import Prelude.

Fixpoint bits (w : nat) (x : Z) : list bool :=
  match w with
  | O => []
  | S w' => Z.testbit x (Z.of_nat w') :: bits w' x
  end.

(** The stream of a list of [w]-bit words. *)
Definition stream (w : nat) (xs : list Z) : list bool := concat (map (bits w) xs).

Definition words (w : nat) (xs : list Z) : Prop := Forall (λ x, 0 ≤ x < 2 ^ Z.of_nat w) xs.
#[global] Instance words_dec w xs : Decision (words w xs).
Proof. unfold words. apply _. Defined.

Lemma length_bits w x : length (bits w x) = w.
Proof. induction w; simpl; congruence. Qed.

Lemma bits_ext w x y :
  (∀ i, 0 ≤ i < Z.of_nat w → Z.testbit x i = Z.testbit y i) → bits w x = bits w y.
Proof.
  induction w as [|w IH]; intros H; [done|]. cbn [bits]. f_equal; [apply H; lia|].
  apply IH. intros i Hi. apply H. lia.
Qed.

Lemma bits_inj w x y :
  0 ≤ x < 2 ^ Z.of_nat w → 0 ≤ y < 2 ^ Z.of_nat w → bits w x = bits w y → x = y.
Proof.
  intros Hx Hy Heq.
  assert (Hlow : ∀ i, 0 ≤ i < Z.of_nat w → Z.testbit x i = Z.testbit y i).
  { clear Hx Hy. induction w as [|w IH]; intros i Hi; [lia|]. cbn [bits] in Heq.
    injection Heq as Hb Hr. destruct (decide (i = Z.of_nat w)) as [->|]; [done|]. apply IH; [done|lia]. }
  apply Z.bits_inj'. intros i Hi. destruct (Z.lt_ge_cases i (Z.of_nat w)); [apply Hlow; lia|].
  rewrite <- (Z.mod_small x (2 ^ Z.of_nat w)), <- (Z.mod_small y (2 ^ Z.of_nat w)) by done.
  by rewrite !Z.mod_pow2_bits_high by lia.
Qed.

(** Cutting a word: high part, low part. *)
Lemma bits_app a b x : bits (a + b) x = bits a (Z.shiftr x (Z.of_nat b)) ++ bits b x.
Proof.
  induction a as [|a IH]; [done|]. cbn [bits Nat.add app]. rewrite IH. f_equal.
  rewrite Z.shiftr_spec by lia. f_equal. lia.
Qed.

Lemma bits_mask w m x : (w ≤ m)%nat → bits w (Z.land x (Z.ones (Z.of_nat m))) = bits w x.
Proof.
  intros Hm. apply bits_ext. intros i Hi. rewrite Z.land_spec, Z.ones_spec_low by lia. apply andb_true_r.
Qed.

Lemma bits_mod w m x : (w ≤ m)%nat → bits w (x mod 2 ^ Z.of_nat m) = bits w x.
Proof. intros. rewrite <- Z.land_ones by lia. by apply bits_mask. Qed.

(** Gluing a word on the right of another. *)
Lemma bits_lor a b x y :
  0 ≤ y < 2 ^ Z.of_nat b → bits (a + b) (Z.lor (Z.shiftl x (Z.of_nat b)) y) = bits a x ++ bits b y.
Proof.
  intros Hy. rewrite bits_app. f_equal.
  - f_equal. rewrite Z.shiftr_lor, Z.shiftr_shiftl_l by lia.
    rewrite Z.sub_diag, Z.shiftl_0_r, (Z.shiftr_div_pow2 y), Z.div_small by lia. apply Z.lor_0_r.
  - apply bits_ext. intros i Hi. rewrite Z.lor_spec, Z.shiftl_spec_low by lia. done.
Qed.

(** A word followed by zeros. *)
Lemma bits_shiftl a b x : bits (a + b) (Z.shiftl x (Z.of_nat b)) = bits a x ++ replicate b false.
Proof.
  rewrite <- (Z.lor_0_r (Z.shiftl _ _)), bits_lor by (split; [lia|apply Z.pow_pos_nonneg; lia]).
  f_equal. clear. induction b as [|b IH]; [done|]. cbn [bits replicate]. by rewrite Z.bits_0, IH.
Qed.

Lemma stream_snoc w xs x : stream w (xs ++ [x]) = stream w xs ++ bits w x.
Proof. unfold stream. rewrite map_app, concat_app. simpl. by rewrite app_nil_r. Qed.

Lemma stream_cons w x xs : stream w (x :: xs) = bits w x ++ stream w xs.
Proof. done. Qed.

Lemma length_stream w xs : length (stream w xs) = (w * length xs)%nat.
Proof.
  induction xs as [|x xs IH]; [simpl; lia|]. rewrite stream_cons, length_app, length_bits, IH. simpl. lia.
Qed.

(** A stream determines its words, up to an incomplete word at the end. *)
Lemma stream_inj w xs ys r s :
  words w xs → words w ys → stream w xs ++ r = stream w ys ++ s →
  (length r < w)%nat → (length s < w)%nat → xs = ys.
Proof.
  intros Hx Hy Heq Hr Hs.
  assert (Hlen : length xs = length ys).
  { apply (f_equal length) in Heq. rewrite !length_app, !length_stream in Heq. nia. }
  revert ys Hy Heq Hlen. induction Hx as [|x xs Hx1 Hx IH]; intros [|y ys] Hy Heq Hlen;
    simpl in Hlen; try lia; [done|]. inversion Hy as [|? ? Hy1 Hy']; subst.
  rewrite !stream_cons, <- !app_assoc in Heq.
  apply app_inj_1 in Heq as [H1 H2]; [|by rewrite !length_bits].
  f_equal; [by eapply bits_inj|]. apply IH; [done|done|lia].
Qed.
