(* ===== verification/Mfa.v ===== *)
(** * Multi-factor authentication (src/mfa.c)

    Base32 secrets and time-based one-time passwords.  Bytes are integers
    from 0 to 255; the buffer of the codecs is a uint32_t.  OpenSSL's
    HMAC-SHA1 is the parameter [Hmac], random bytes and the clock are
    arguments. *)

From S2P Require Import Prelude CLib CNum Bits.

Definition base32_chars : cstr := "ABCDEFGHIJKLMNOPQRSTUVWXYZ234567".

(** The character at index [v] of a table. *)
Definition char_at (table : cstr) (v : Z) : ascii := default NUL (table !! Z.to_nat v).

(** The inner loop of [base32_encode]: the fuel bounds [bits_left]. *)
Fixpoint enc_while (fuel : nat) (buffer bits_left : Z) (out : cstr) (max_len : nat) : option (Z * cstr) :=
  match fuel with
  | O => Some (bits_left, out)
  | S fuel' =>
      if 5 <=? bits_left then
        if (max_len <=? length out + 1)%nat then None
        else enc_while fuel' buffer (bits_left - 5)
               (out ++ [char_at base32_chars (Z.land (Z.shiftr buffer (bits_left - 5)) 31)]) max_len
      else Some (bits_left, out)
  end.

Fixpoint enc_loop (data : list Z) (buffer bits_left : Z) (out : cstr) (max_len : nat)
  : option (Z * Z * cstr) :=
  match data with
  | [] => Some (buffer, bits_left, out)
  | d :: data' =>
      let buffer := Z.lor (u32 (Z.shiftl buffer 8)) d in
      match enc_while (Z.to_nat (bits_left + 8)) buffer (bits_left + 8) out max_len with
      | None => None
      | Some (bits_left, out) =>
          enc_loop data' (Z.land buffer (Z.shiftl 1 bits_left - 1)) bits_left out max_len
      end
  end.

(** [base32_encode]: the text written, or [None] for a false return. *)
Definition base32_encode (data : list Z) (max_len : nat) : option cstr :=
  match enc_loop data 0 0 [] max_len with
  | None => None
  | Some (buffer, bits_left, out) =>
      if 0 <? bits_left then
        if (max_len <=? length out + 1)%nat then None
        else Some (out ++ [char_at base32_chars (Z.land (u32 (Z.shiftl buffer (5 - bits_left))) 31)])
      else Some out
  end.

(** The value of a character, [None] for those skipped. *)
Definition base32_val (c : ascii) : option Z :=
  if ((65 <=? ord c) && (ord c <=? 90)) || ((97 <=? ord c) && (ord c <=? 122)) then
    Some (if (65 <=? ord c) && (ord c <=? 90) then ord c - 65 else ord c - 97)
  else if (50 <=? ord c) && (ord c <=? 55) then Some (ord c - 50 + 26)
  else None.

Fixpoint dec_loop (encoded : cstr) (buffer bits_left : Z) (out : list Z) (max_len : nat) : option (list Z) :=
  match encoded with
  | [] => Some out
  | c :: rest =>
      match base32_val c with
      | None => dec_loop rest buffer bits_left out max_len
      | Some val =>
          let buffer := Z.lor (u32 (Z.shiftl buffer 5)) val in
          let bits_left := bits_left + 5 in
          if 8 <=? bits_left then
            if (max_len <=? length out)%nat then None
            else
              let bits_left' := bits_left - 8 in
              dec_loop rest (Z.land buffer (Z.shiftl 1 bits_left' - 1)) bits_left'
                (out ++ [Z.land (Z.shiftr buffer (bits_left - 8)) 255]) max_len
          else dec_loop rest (Z.land buffer (Z.shiftl 1 bits_left - 1)) bits_left out max_len
      end
  end.

(** [base32_decode]: the bytes of the returned length; an overflow of the
    buffer returns the length 0. *)
Definition base32_decode (encoded : cstr) (max_len : nat) : list Z :=
  default [] (dec_loop encoded 0 0 [] max_len).

(** [mfa_generate_secret]: the text left in the buffer. *)
Definition mfa_generate_secret (raw : list Z) (out_len : nat) : cstr :=
  default [] (base32_encode raw out_len).

(** OpenSSL's HMAC with SHA-1: key, message; [None] is a NULL return. *)
Class Hmac := hmac_sha1 : list Z → list Z → option (list Z).

(** SHA-1 digests have 20 bytes. *)
Class HmacLaws `{Hmac} : Prop :=
  hmac_digest : ∀ key msg hash, hmac_sha1 key msg = Some hash → length hash = 20%nat ∧ words 8 hash.

Fixpoint msg_loop (n : nat) (time_step : Z) (acc : list Z) : list Z :=
  match n with
  | O => acc
  | S n' => msg_loop n' (Z.shiftr time_step 8) (Z.land time_step 255 :: acc)
  end.

Definition byte_at (l : list Z) (i : Z) : Z := default 0 (l !! Z.to_nat i).

Definition generate_totp `{Hmac} (key : list Z) (time_step : Z) : Z :=
  match hmac_sha1 key (msg_loop 8 time_step []) with
  | None => 0
  | Some hash =>
      let offset := Z.land (byte_at hash 19) 15 in
      let binary :=
        Z.lor (Z.lor (Z.lor (Z.shiftl (Z.land (byte_at hash offset) 127) 24)
                            (Z.shiftl (Z.land (byte_at hash (offset + 1)) 255) 16))
                     (Z.shiftl (Z.land (byte_at hash (offset + 2)) 255) 8))
              (Z.land (byte_at hash (offset + 3)) 255) in
      binary mod 1000000
  end.

(** [snprintf(expected_str, 8, "%06u", expected)] *)
Definition totp_text (expected : Z) : cstr := take 7 (zero_pad 6 (print_dec expected)).

(** [mfa_verify_totp] at [now] seconds. *)
Definition mfa_verify_totp `{Hmac} (base32_secret code : option cstr) (now : Z) : bool :=
  match base32_secret, code with
  | Some secret, Some code =>
      if negb (length code =? 6)%nat then false
      else
        match base32_decode secret 64 with
        | [] => false
        | key =>
            let current_step := u64 now / 30 in
            existsb (λ i, bool_decide (take 6 (totp_text (generate_totp key (u64 (current_step + i)))) = take 6 code))
              [-1; 0; 1]
        end
  | _, _ => false
  end.

Example rfc4648_foobar :
  base32_encode (map ord ("foobar" : cstr)) 64 = Some ("MZXW6YTBOI" : cstr).
Proof. vm_compute. reflexivity. Qed.
Example decode_lower_dashes :
  base32_decode ("mzxw-6ytb oi" : cstr) 64 = map ord ("foobar" : cstr).
Proof. vm_compute. reflexivity. Qed.

(* ================================================================== *)
(** ** Base32 *)

Definition encoded (vs : list Z) : cstr := map (char_at base32_chars) vs.
Definition values (s : cstr) : list Z := omap base32_val s.

Lemma encoded_app a b : encoded (a ++ b) = encoded a ++ encoded b.
Proof. apply map_app. Qed.

Lemma values_encoded vs : words 5 vs → values (encoded vs) = vs.
Proof.
  induction 1 as [|v vs Hv _ IH]; [done|].
  assert (Hc : base32_val (char_at base32_chars v) = Some v).
  { assert (Hall : forallb (λ n, bool_decide (base32_val (char_at base32_chars (Z.of_nat n)) = Some (Z.of_nat n)))
             (seq 0 32) = true) by (vm_compute; reflexivity).
    rewrite forallb_forall in Hall. specialize (Hall (Z.to_nat v)).
    rewrite Z2Nat.id in Hall by lia. rewrite bool_decide_eq_true in Hall. apply Hall, in_seq. lia. }
  unfold values, encoded in *. cbn [map omap list_omap]. by rewrite Hc, IH.
Qed.

Lemma mask_ones n : Z.shiftl 1 n - 1 = Z.ones n.
Proof. unfold Z.ones. lia. Qed.

Lemma land_word w x : 0 ≤ Z.land x (Z.ones (Z.of_nat w)) < 2 ^ Z.of_nat w.
Proof. rewrite Z.land_ones by lia. apply Z.mod_pos_bound. lia. Qed.

(** Shifting a word of the input into the 32-bit buffer. *)
Lemma bits_shift_in b w buffer d :
  (b + w ≤ 32)%nat → 0 ≤ d < 2 ^ Z.of_nat w →
  bits (b + w) (Z.lor (u32 (Z.shiftl buffer (Z.of_nat w))) d) = bits b buffer ++ bits w d.
Proof.
  intros Hb Hd. rewrite <- bits_lor by done. apply bits_ext. intros i Hi.
  rewrite !Z.lor_spec. f_equal. unfold u32. by rewrite Z.mod_pow2_bits_low by lia.
Qed.

Lemma enc_while_spec fuel buffer b out max_len :
  (b ≤ fuel)%nat → (5 * length out + b < 5 * max_len)%nat →
  ∃ b' vs, enc_while fuel buffer (Z.of_nat b) out max_len = Some (Z.of_nat b', out ++ encoded vs) ∧
    words 5 vs ∧ (b' < 5)%nat ∧ stream 5 vs ++ bits b' buffer = bits b buffer.
Proof.
  revert b out. induction fuel as [|fuel IH]; intros b out Hb Hlen; cbn [enc_while].
  - exists b, []. unfold encoded. rewrite app_nil_r. split_and!; [done|by constructor|lia|done].
  - destruct (Z.leb_spec 5 (Z.of_nat b)).
    + destruct (Nat.leb_spec max_len (length out + 1)); [lia|].
      replace (Z.of_nat b - 5) with (Z.of_nat (b - 5)) by lia.
      set (v := Z.land (Z.shiftr buffer (Z.of_nat (b - 5))) 31).
      destruct (IH (b - 5)%nat (out ++ [char_at base32_chars v])) as (b' & vs & E & Hw & Hb' & Hs);
        [lia|rewrite length_app; simpl; lia|].
      exists b', (v :: vs). rewrite E, <- app_assoc. split_and!; [done| |done|].
      * constructor; [apply (land_word 5)|done].
      * rewrite stream_cons, <- app_assoc, Hs. transitivity (bits (5 + (b - 5)) buffer); [|f_equal; lia].
        rewrite bits_app. f_equal. apply (bits_mask 5 5). lia.
    + exists b, []. unfold encoded. rewrite app_nil_r. split_and!; [done|by constructor|lia|done].
Qed.

Lemma enc_loop_spec data buffer b out max_len :
  words 8 data → (b < 5)%nat → (5 * length out + b + 8 * length data < 5 * max_len)%nat →
  ∃ buffer' b' vs, enc_loop data buffer (Z.of_nat b) out max_len = Some (buffer', Z.of_nat b', out ++ encoded vs) ∧
    words 5 vs ∧ (b' < 5)%nat ∧ stream 5 vs ++ bits b' buffer' = bits b buffer ++ stream 8 data.
Proof.
  intros Hd. revert buffer b out. induction Hd as [|d data Hd _ IH]; intros buffer b out Hb Hlen; cbn [enc_loop].
  - exists buffer, b, []. unfold encoded. rewrite app_nil_r. split_and!; [done|by constructor|done|].
    unfold stream. by rewrite app_nil_r.
  - simpl in Hlen. set (B := Z.lor (u32 (Z.shiftl buffer 8)) d).
    replace (Z.of_nat b + 8) with (Z.of_nat (b + 8)) by lia. rewrite Nat2Z.id.
    destruct (enc_while_spec (b + 8) B (b + 8) out max_len) as (b1 & vs1 & -> & Hw1 & Hb1 & Hs1); [lia|lia|].
    rewrite mask_ones.
    destruct (IH (Z.land B (Z.ones (Z.of_nat b1))) b1 (out ++ encoded vs1)) as (B2 & b2 & vs2 & -> & Hw2 & Hb2 & Hs2);
      [done| |].
    { apply (f_equal length) in Hs1. rewrite length_app, length_stream, !length_bits in Hs1.
      unfold encoded. rewrite length_app, length_map. lia. }
    exists B2, b2, (vs1 ++ vs2). rewrite encoded_app, app_assoc. split_and!; [done|by apply Forall_app|done|].
    unfold stream in *. rewrite map_app, concat_app, <- app_assoc. fold (stream 5 vs2). fold (stream 5 vs1).
    unfold stream. rewrite Hs2, bits_mask by lia. rewrite app_assoc, Hs1. cbn [map concat].
    rewrite app_assoc. f_equal. apply (bits_shift_in b 8); [lia|done].
Qed.

(** The text encodes the bit stream of the bytes, padded with less than
    five zero bits. *)
Lemma base32_encode_spec data max_len :
  words 8 data → (8 * length data + 4 < 5 * max_len)%nat →
  ∃ vs k, base32_encode data max_len = Some (encoded vs) ∧ words 5 vs ∧ (k < 5)%nat ∧
    stream 5 vs = stream 8 data ++ replicate k false.
Proof.
  intros Hd Hlen. unfold base32_encode.
  destruct (enc_loop_spec data 0 0 [] max_len) as (B & b & vs & E & Hw & Hb & Hs); [done|lia|simpl; lia|].
  change (Z.of_nat 0) with 0 in E. rewrite E. cbn [app].
  simpl in Hs. destruct (Z.ltb_spec 0 (Z.of_nat b)).
  - assert (Hl : (5 * length vs + b = 8 * length data)%nat).
    { apply (f_equal length) in Hs. by rewrite length_app, length_bits, !length_stream in Hs. }
    destruct (Nat.leb_spec max_len (length (encoded vs) + 1)) as [Hle|_].
    { unfold encoded in Hle. rewrite length_map in Hle. lia. }
    set (v := Z.land (u32 (Z.shiftl B (5 - Z.of_nat b))) 31).
    exists (vs ++ [v]), (5 - b)%nat. split_and!.
    + by rewrite encoded_app.
    + apply Forall_app. split; [done|]. constructor; [apply (land_word 5)|done].
    + lia.
    + rewrite stream_snoc, <- Hs, <- app_assoc. f_equal. unfold v.
      rewrite (bits_mask 5 5) by lia. unfold u32. rewrite (bits_mod 5 32) by lia.
      replace (5 - Z.of_nat b) with (Z.of_nat (5 - b)) by lia.
      transitivity (bits (b + (5 - b)) (Z.shiftl B (Z.of_nat (5 - b)))); [f_equal; lia|apply bits_shiftl].
  - exists vs, 0%nat. assert (b = 0%nat) as -> by lia. split_and!; [done|done|lia|].
    cbn [replicate bits] in *. by rewrite app_nil_r in *.
Qed.

Lemma dec_loop_spec s buffer b out max_len :
  (b < 8)%nat → (8 * length out + b + 5 * length (values s) < 8 * S max_len)%nat →
  ∃ bs r, dec_loop s buffer (Z.of_nat b) out max_len = Some (out ++ bs) ∧
    words 8 bs ∧ (length r < 8)%nat ∧ stream 8 bs ++ r = bits b buffer ++ stream 5 (values s).
Proof.
  revert buffer b out. induction s as [|c s IH]; intros buffer b out Hb Hlen; cbn [dec_loop].
  - exists [], (bits b buffer). rewrite !app_nil_r, length_bits. split_and!; [done|by constructor|done|done].
  - unfold values in *. cbn [omap list_omap] in *.
    destruct (base32_val c) as [v|] eqn:Ev; [|by apply IH]. cbn [length] in Hlen.
    assert (Hv : 0 ≤ v < 2 ^ Z.of_nat 5).
    { unfold base32_val in Ev. simpl. repeat case_match; simplify_eq; reflect_bools; lia. }
    set (B := Z.lor (u32 (Z.shiftl buffer 5)) v).
    assert (HB : bits (b + 5) B = bits b buffer ++ bits 5 v) by (apply (bits_shift_in b 5); [lia|done]).
    rewrite stream_cons, app_assoc, <- HB. destruct (Z.leb_spec 8 (Z.of_nat b + 5)).
    + destruct (Nat.leb_spec max_len (length out)); [lia|]. rewrite mask_ones.
      replace (Z.of_nat b + 5 - 8) with (Z.of_nat (b - 3)) by lia.
      set (y := Z.land (Z.shiftr B (Z.of_nat (b - 3))) 255).
      destruct (IH (Z.land B (Z.ones (Z.of_nat (b - 3)))) (b - 3)%nat (out ++ [y])) as (bs & r & -> & Hw & Hr & Hs);
        [lia|rewrite length_app; simpl; lia|].
      exists (y :: bs), r. rewrite <- app_assoc. split_and!; [done| |done|].
      * constructor; [apply (land_word 8)|done].
      * rewrite stream_cons, <- app_assoc, Hs, bits_mask by lia. rewrite app_assoc. f_equal.
        replace (b + 5)%nat with (8 + (b - 3))%nat by lia. rewrite bits_app. f_equal. by apply (bits_mask 8 8).
    + rewrite mask_ones. replace (Z.of_nat b + 5) with (Z.of_nat (b + 5)) by lia.
      destruct (IH (Z.land B (Z.ones (Z.of_nat (b + 5)))) (b + 5)%nat out) as (bs & r & -> & Hw & Hr & Hs);
        [lia|lia|].
      exists bs, r. by rewrite Hs, bits_mask by lia.
Qed.

Lemma base32_roundtrip data max_len cap s' :
  words 8 data → (8 * length data + 4 < 5 * max_len)%nat → (length data ≤ cap)%nat →
  ∃ s, base32_encode data max_len = Some s ∧ (values s' = values s → base32_decode s' cap = data).
Proof.
  intros Hd Hlen Hcap. destruct (base32_encode_spec data max_len Hd Hlen) as (vs & k & E & Hw & Hk & Hs).
  eexists. split; [exact E|]. rewrite values_encoded by done. intros Hv.
  assert (Hl : (5 * length vs = 8 * length data + k)%nat).
  { apply (f_equal length) in Hs. by rewrite length_app, length_replicate, !length_stream in Hs. }
  unfold base32_decode.
  destruct (dec_loop_spec s' 0 0 [] cap) as (bs & r & E' & Hw' & Hr & Hs'); [lia|rewrite Hv; simpl; lia|].
  change (Z.of_nat 0) with 0 in E'. rewrite E'. cbn [default app]. rewrite Hv, Hs in Hs'. simpl in Hs'.
  eapply (stream_inj 8 bs data r (replicate k false)); [done|done|done|done|]. rewrite length_replicate. lia.
Qed.

(** Base32 secrets survive the trip to the authenticator app and back:
    any bytes that fit are encoded, and decoding any text with the same
    letters and digits, in either case and with any spaces or dashes
    added, gives the same bytes. *)
Theorem base32_decode_encode data max_len cap s' :
  words 8 data → (8 * length data + 4 < 5 * max_len)%nat → (length data ≤ cap)%nat →
  ∃ s, base32_encode data max_len = Some s ∧
    (omap base32_val s' = omap base32_val s → base32_decode s' cap = data).
Proof. apply base32_roundtrip. Qed.

Lemma base32_decode_encode_witness :
  ∃ s, base32_encode [102; 111; 111] 64 = Some s ∧
    (omap base32_val ("mz-xw 6" : cstr) = omap base32_val s → base32_decode ("mz-xw 6" : cstr) 64 = [102; 111; 111]).
Proof.
  apply (base32_decode_encode [102; 111; 111] 64 64 ("mz-xw 6" : cstr)); [|simpl; lia..].
  repeat constructor; simpl; lia.
Defined.

(* ================================================================== *)
(** ** One-time passwords *)

(** RFC 6238 over RFC 4226, arithmetically: the counter as 8 big endian
    bytes, the 31-bit number at the digest's dynamic offset, 6 digits. *)
Definition be_counter (step : Z) : list Z :=
  map (λ i, step / 2 ^ (8 * i) mod 256) [7; 6; 5; 4; 3; 2; 1; 0].

Definition truncate (hash : list Z) : Z :=
  let o := byte_at hash 19 mod 16 in
  (byte_at hash o * 2 ^ 24 + byte_at hash (o + 1) * 2 ^ 16 + byte_at hash (o + 2) * 2 ^ 8
   + byte_at hash (o + 3)) mod 2 ^ 31.

Definition rfc6238 `{Hmac} (key : list Z) (step : Z) : option Z :=
  hash ← hmac_sha1 key (be_counter step); Some (truncate hash mod 10 ^ 6).

(** A six digit code and its number. *)
Definition is_code (code : cstr) (n : Z) : Prop :=
  length code = 6%nat ∧ Forall (λ c, is_digit c = true) code ∧ digits_val code = n.

Lemma msg_loop_counter step : msg_loop 8 step [] = be_counter step.
Proof.
  unfold be_counter. cbn [msg_loop map]. rewrite !Z.shiftr_shiftr by lia.
  change 255 with (Z.ones 8). rewrite !Z.land_ones, !Z.shiftr_div_pow2 by lia.
  simpl. by rewrite Z.div_1_r.
Qed.

Lemma byte_at_range hash i : words 8 hash → 0 ≤ byte_at hash i < 256.
Proof.
  intros H. unfold byte_at. destruct (hash !! Z.to_nat i) as [b|] eqn:E; simpl; [|lia].
  by apply (proj1 (Forall_lookup _ hash) H) in E.
Qed.

Lemma lor_bytes a b c d :
  0 ≤ a < 256 → 0 ≤ b < 256 → 0 ≤ c < 256 → 0 ≤ d < 256 →
  Z.lor (Z.lor (Z.lor (Z.shiftl (Z.land a 127) 24) (Z.shiftl (Z.land b 255) 16))
               (Z.shiftl (Z.land c 255) 8)) (Z.land d 255) =
  (a * 2 ^ 24 + b * 2 ^ 16 + c * 2 ^ 8 + d) mod 2 ^ 31.
Proof.
  intros Ha Hb Hc Hd. change 127 with (Z.ones 7). change 255 with (Z.ones 8).
  rewrite !Z.land_ones, !(Z.mod_small _ (2 ^ 8)) by lia. rewrite <- !Z.lor_assoc.
  rewrite (lor_shift_add c d 8) by lia.
  rewrite (lor_shift_add b (c * 2 ^ 8 + d) 16) by lia.
  rewrite (lor_shift_add (a mod 2 ^ 7)) by lia.
  pose proof (Z.div_mod a (2 ^ 7)). pose proof (Z.mod_pos_bound a (2 ^ 7)).
  apply (Z.mod_unique_pos _ _ (a / 2 ^ 7)); lia.
Qed.

Lemma generate_totp_rfc `{HmacLaws} key step :
  generate_totp key step = default 0 (rfc6238 key step).
Proof.
  unfold generate_totp, rfc6238. rewrite msg_loop_counter.
  destruct (hmac_sha1 key (be_counter step)) as [hash|] eqn:E; [|done].
  apply hmac_digest in E as [_ Hw]. cbn [mbind option_bind default]. unfold truncate.
  change 15 with (Z.ones 4). rewrite Z.land_ones by lia. change (2 ^ 4) with 16.
  rewrite lor_bytes by (by apply byte_at_range). done.
Qed.

Lemma generate_totp_range `{Hmac} key step : 0 ≤ generate_totp key step < 10 ^ 6.
Proof.
  unfold generate_totp. destruct (hmac_sha1 _ _); [|lia]. apply Z.mod_pos_bound. lia.
Qed.

Lemma digits_val_app s t :
  Forall (λ c, is_digit c = true) t →
  digits_val (s ++ t) = digits_val s * 10 ^ Z.of_nat (length t) + digits_val t ∧
  0 ≤ digits_val t < 10 ^ Z.of_nat (length t).
Proof.
  induction t as [|c t IH] using rev_ind; intros H.
  - rewrite app_nil_r. unfold digits_val. simpl. lia.
  - apply Forall_app in H as [Ht Hc]. rewrite Forall_singleton in Hc. destruct (IH Ht) as [E R].
    rewrite app_assoc, !digits_val_snoc, E, length_app, Nat2Z.inj_add, Z.pow_add_r by lia.
    unfold is_digit in Hc. reflect_bools. change (10 ^ Z.of_nat (length [c])) with 10.
    split; [ring|]. lia.
Qed.

(** Codes of six digits are determined by their number. *)
Lemma code_unique a b n : is_code a n → is_code b n → a = b.
Proof.
  intros (La & Da & Va) (Lb & Db & Vb). assert (Hv : digits_val a = digits_val b) by congruence.
  assert (Hl : length a = length b) by congruence. clear La Lb Va Vb n.
  revert b Hl Db Hv. induction a as [|x a IH] using rev_ind; intros b Hl Db Hv.
  - by destruct b.
  - destruct b as [|y b _] using rev_ind; [rewrite length_app in Hl; simpl in Hl; lia|].
    rewrite !length_app in Hl. simpl in Hl. rewrite !digits_val_snoc in Hv.
    apply Forall_app in Da as [Da Hx]. apply Forall_app in Db as [Db Hy].
    rewrite Forall_singleton in Hx, Hy. unfold is_digit in Hx, Hy. reflect_bools.
    f_equal; [apply IH; [done|lia|done|lia]|]. f_equal. apply ord_inj. lia.
Qed.

Lemma totp_text_code n : 0 ≤ n < 10 ^ 6 → is_code (totp_text n) n.
Proof.
  intros Hn. destruct (print_dec_spec n ltac:(lia)) as (_ & Hd & Hv).
  assert (Hl : (length (print_dec n) ≤ 6)%nat).
  { pose proof (print_dec_loop_length (S (Z.to_nat (Z.log2 n))) 5 n [] Hn). simpl in *. done. }
  assert (Hz : length (zero_pad 6 (print_dec n)) = 6%nat).
  { unfold zero_pad. rewrite length_app, length_replicate. lia. }
  unfold totp_text. rewrite take_ge by lia. split_and!; [done| |].
  - unfold zero_pad. apply Forall_app. split; [|done]. by apply Forall_replicate.
  - unfold zero_pad. destruct (digits_val_app (replicate (6 - length (print_dec n)) "0"%char) _ Hd) as [-> _].
    rewrite Hv. assert (H0 : ∀ m, digits_val (replicate m "0"%char) = 0).
    { induction m as [|m IHm]; [done|]. rewrite replicate_S_end, digits_val_snoc, IHm. done. }
    rewrite H0. lia.
Qed.

Lemma code_text code n : 0 ≤ n < 10 ^ 6 → length code = 6%nat →
  take 6 (totp_text n) = take 6 code ↔ is_code code n.
Proof.
  intros Hn Hl. destruct (totp_text_code n Hn) as (L & D & V).
  rewrite !take_ge by lia. split; [intros <-; done|]. intros Hc. by eapply code_unique.
Qed.

(** What a verification accepts. *)
Lemma mfa_verify_iff `{Hmac} secret code now :
  mfa_verify_totp (Some secret) (Some code) now = true ↔
  base32_decode secret 64 ≠ [] ∧
  ∃ i, i ∈ [-1; 0; 1] ∧ is_code code (generate_totp (base32_decode secret 64) (u64 (u64 now / 30 + i))).
Proof.
  unfold mfa_verify_totp. destruct (Nat.eqb_spec (length code) 6) as [Hl|Hl]; cbn [negb].
  - destruct (base32_decode secret 64) as [|k key] eqn:Ek.
    { split; [done|]. by intros [? _]. }
    rewrite existsb_exists. split.
    + intros (i & Hi & Hc). rewrite bool_decide_eq_true, code_text in Hc by (done || apply generate_totp_range).
      split; [done|]. exists i. by rewrite list_elem_of_In.
    + intros (_ & i & Hi & Hc). exists i. rewrite list_elem_of_In in Hi. split; [done|].
      by rewrite bool_decide_eq_true, code_text by (done || apply generate_totp_range).
  - split; [done|]. by intros (_ & i & _ & ? & _).
Qed.

(** Enrolment and login agree with RFC 6238: for the secret generated
    from 20 random bytes into the setup handler's buffer, a code is
    accepted at time [now] exactly when it is the six digit RFC 6238 code
    of those bytes for the current 30 second step, the one before or the
    one after. *)
Theorem mfa_accepts_rfc6238 `{HmacLaws} raw out_len code now :
  length raw = 20%nat → words 8 raw → (33 ≤ out_len)%nat → 30 ≤ now < 2 ^ 63 →
  (∀ step, is_Some (hmac_sha1 raw (be_counter step))) →
  mfa_verify_totp (Some (mfa_generate_secret raw out_len)) (Some code) now = true ↔
  ∃ i n, i ∈ [-1; 0; 1] ∧ rfc6238 raw (now / 30 + i) = Some n ∧ is_code code n.
Proof.
  intros Hl Hw Ho Hnow Hok. rewrite mfa_verify_iff. unfold mfa_generate_secret.
  destruct (base32_roundtrip raw out_len 64 (default [] (base32_encode raw out_len)) Hw) as (s & E & Hd); [lia|lia|].
  rewrite E in *. cbn [default] in *. rewrite (Hd eq_refl), (u64_small now) by lia.
  assert (Hi : ∀ i, i ∈ [-1; 0; 1] → u64 (now / 30 + i) = now / 30 + i).
  { intros i Hi. rewrite !elem_of_cons in Hi.
    assert (1 ≤ now / 30) by (apply Z.div_le_lower_bound; lia).
    assert (now / 30 < 2 ^ 63) by (apply Z.div_lt_upper_bound; lia).
    apply u64_small. destruct Hi as [->|[->|[->|[]%elem_of_nil]]]; lia. }
  split.
  - intros (_ & i & Hin & Hc). rewrite (Hi i Hin), generate_totp_rfc in Hc.
    destruct (Hok (now / 30 + i)) as (hash & Eh). unfold rfc6238 in *. rewrite Eh in *. cbn [mbind option_bind default] in Hc.
    exists i, (truncate hash mod 10 ^ 6). split_and!; [done| |done]. by rewrite Eh.
  - intros (i & n & Hin & Hn & Hc). split; [by intros ->|]. exists i. split; [done|].
    by rewrite (Hi i Hin), generate_totp_rfc, Hn.
Qed.

(** When OpenSSL's HMAC fails, the code compared with is 000000, for
    every secret: verification then accepts it. *)
Theorem mfa_hmac_failure_accepts_zero `{Hmac} secret now :
  base32_decode secret 64 ≠ [] → (∀ msg, hmac_sha1 (base32_decode secret 64) msg = None) →
  mfa_verify_totp (Some secret) (Some ("000000" : cstr)) now = true.
Proof.
  intros Hk Hf. apply mfa_verify_iff. split; [done|]. exists 0. split; [set_solver|].
  unfold generate_totp. rewrite Hf. split_and!; [done|by repeat constructor|done].
Qed.

(** A stand-in digest for the witnesses. *)
Definition sample_hmac : Hmac := λ key msg, Some (map u8 (take 20 (key ++ msg ++ replicate 20 7))).

Lemma sample_hmac_laws : HmacLaws (H := sample_hmac).
Proof.
  intros key msg hash Hs. assert (hash = map u8 (take 20 (key ++ msg ++ replicate 20 7))) as -> by (apply (inj Some); symmetry; exact Hs).
  split.
  - rewrite length_map, length_take, !length_app, length_replicate. lia.
  - apply Forall_forall. intros x Hx. apply list_elem_of_In, in_map_iff in Hx as (y & <- & _).
    apply Z.mod_pos_bound. lia.
Qed.

Lemma mfa_accepts_rfc6238_witness :
  mfa_verify_totp (H := sample_hmac) (Some (mfa_generate_secret (replicate 20 65) 64)) (Some ("795585" : cstr)) 60 = true ↔
  ∃ i n, i ∈ [-1; 0; 1] ∧ rfc6238 (H := sample_hmac) (replicate 20 65) (60 / 30 + i) = Some n ∧
         is_code ("795585" : cstr) n.
Proof.
  apply (mfa_accepts_rfc6238 (H := sample_hmac) (H0 := sample_hmac_laws) (replicate 20 65) 64 ("795585" : cstr) 60).
  - reflexivity.
  - apply Forall_replicate. simpl. lia.
  - lia.
  - lia.
  - intros step. by eexists.
Defined.

Lemma mfa_hmac_failure_accepts_zero_witness :
  mfa_verify_totp (H := λ _ _, None) (Some ("MZXW6" : cstr)) (Some ("000000" : cstr)) 60 = true.
Proof.
  apply (mfa_hmac_failure_accepts_zero (H := λ _ _, None) ("MZXW6" : cstr) 60).
  - by vm_compute.
  - done.
Defined.
