(* ===== verification/Base64.v ===== *)
(** * Base64url and hexadecimal text (src/token.c, helpers)

    The codecs of the token manager: RFC 4648 base64url without padding,
    with the capacity checks of the source, and the hexadecimal text of
    legacy signatures. *)

From S2P Require Import Prelude CLib CNum Bits.

Definition b64url_table : cstr := "ABCDEFGHIJKLMNOPQRSTUVWXYZabcdefghijklmnopqrstuvwxyz0123456789-_".

Definition b64_char (v : Z) : ascii := default NUL (b64url_table !! Z.to_nat v).

(** [base64url_encode]: the text written in a buffer of [output_len]; [o]
    characters are already there.  The loop stops early when fewer than
    five characters are free. *)
Fixpoint b64_enc_loop (input : list Z) (o output_len : nat) : cstr :=
  match input with
  | [] => []
  | a :: r1 =>
      if (o + 4 <? output_len)%nat then
        match r1 with
        | [] => [b64_char (Z.shiftr a 2); b64_char (Z.lor (Z.shiftl (Z.land a 3) 4) (Z.shiftr 0 4))]
        | [b] => [b64_char (Z.shiftr a 2); b64_char (Z.lor (Z.shiftl (Z.land a 3) 4) (Z.shiftr b 4));
                  b64_char (Z.lor (Z.shiftl (Z.land b 15) 2) (Z.shiftr 0 6))]
        | b :: c :: rest =>
            b64_char (Z.shiftr a 2) :: b64_char (Z.lor (Z.shiftl (Z.land a 3) 4) (Z.shiftr b 4)) ::
            b64_char (Z.lor (Z.shiftl (Z.land b 15) 2) (Z.shiftr c 6)) :: b64_char (Z.land c 63) ::
            b64_enc_loop rest (o + 4) output_len
        end
      else []
  end.

Definition base64url_encode (input : list Z) (output_len : nat) : cstr := b64_enc_loop input 0 output_len.

Definition b64url_rev (c : ascii) : Z :=
  let x := schar c in
  if (65 <=? x) && (x <=? 90) then x - 65
  else if (97 <=? x) && (x <=? 122) then x - 97 + 26
  else if (48 <=? x) && (x <=? 57) then x - 48 + 52
  else if (x =? 45) || (x =? 43) then 62
  else if (x =? 95) || (x =? 47) then 63
  else -1.

(** The one to three bytes of a group. *)
Definition b64_emit (a b c d : Z) (o output_len : nat) : list Z :=
  let out1 := [u8 (Z.lor (Z.shiftl a 2) (Z.shiftr b 4))] in
  let out2 := if (0 <=? c) && (o + 1 <? output_len)%nat
              then out1 ++ [u8 (Z.lor (Z.shiftl (Z.land b 15) 4) (Z.shiftr c 2))] else out1 in
  if (0 <=? d) && (o + length out2 <? output_len)%nat
  then out2 ++ [u8 (Z.lor (Z.shiftl (Z.land c 3) 6) d)] else out2.

Fixpoint b64_dec_loop (input : cstr) (o output_len : nat) : list Z :=
  match input with
  | [] => []
  | ca :: r1 =>
      if (o <? output_len)%nat then
        let a := b64url_rev ca in
        if a <? 0 then []
        else
          match r1 with
          | [] => []
          | cb :: r2 =>
              let b := b64url_rev cb in
              if b <? 0 then []
              else
                match r2 with
                | [] => b64_emit a b (-1) (-1) o output_len
                | [cc] => b64_emit a b (b64url_rev cc) (-1) o output_len
                | cc :: cd :: rest =>
                    let out := b64_emit a b (b64url_rev cc) (b64url_rev cd) o output_len in
                    out ++ b64_dec_loop rest (o + length out) output_len
                end
          end
      else []
  end.

Definition base64url_decode (input : cstr) (output_len : nat) : list Z := b64_dec_loop input 0 output_len.

(** [to_hex]: two digits per byte while three characters are free. *)
Fixpoint hex_loop (bin : list Z) (p hex_len : nat) : cstr :=
  match bin with
  | [] => []
  | b :: bin' => if (p <? hex_len - 3)%nat then zero_pad 2 (print_hex b) ++ hex_loop bin' (p + 2) hex_len else []
  end.
Definition to_hex (bin : list Z) (hex_len : nat) : cstr := hex_loop bin 0 hex_len.

Definition is_hex_str (s : cstr) : bool :=
  match s with [] => false | _ => forallb is_xdigit s end.

Example b64_foobar :
  map (λ s : string, base64url_encode (map ord (s : cstr)) 64) ["f"; "fo"; "foo"; "foob"; "fooba"; "foobar"]%string =
  map list_ascii_of_string ["Zg"; "Zm8"; "Zm9v"; "Zm9vYg"; "Zm9vYmE"; "Zm9vYmFy"]%string.
Proof. vm_compute. reflexivity. Qed.
Example hex_bytes : to_hex [0; 10; 255] 129 = ("000aff" : cstr).
Proof. vm_compute. reflexivity. Qed.

(* ================================================================== *)
(** ** Round trip *)

Lemma b64_rev_char v : 0 ≤ v < 64 → b64url_rev (b64_char v) = v.
Proof.
  intros Hv.
  assert (Hall : forallb (λ n, bool_decide (b64url_rev (b64_char (Z.of_nat n)) = Z.of_nat n)) (seq 0 64) = true)
    by (vm_compute; reflexivity).
  rewrite forallb_forall in Hall. specialize (Hall (Z.to_nat v)).
  rewrite Z2Nat.id in Hall by lia. rewrite bool_decide_eq_true in Hall. apply Hall, in_seq. lia.
Qed.

(** The characters of a group, arithmetically. *)
Lemma b64_v1 a : 0 ≤ a < 256 → Z.shiftr a 2 = a / 4.
Proof. intros. by rewrite Z.shiftr_div_pow2. Qed.
Lemma b64_v2 a b : 0 ≤ a < 256 → 0 ≤ b < 256 →
  Z.lor (Z.shiftl (Z.land a 3) 4) (Z.shiftr b 4) = a mod 4 * 16 + b / 16.
Proof.
  intros Ha Hb. change 3 with (Z.ones 2). rewrite Z.land_ones, Z.shiftr_div_pow2 by lia.
  change (2 ^ 2) with 4. change (2 ^ 4) with 16. rewrite lor_shift_add; [done|lia|].
  change (2 ^ 4) with 16. Z.div_mod_to_equations. lia.
Qed.
Lemma b64_v3 b c : 0 ≤ b < 256 → 0 ≤ c < 256 →
  Z.lor (Z.shiftl (Z.land b 15) 2) (Z.shiftr c 6) = b mod 16 * 4 + c / 64.
Proof.
  intros Hb Hc. change 15 with (Z.ones 4). rewrite Z.land_ones, Z.shiftr_div_pow2 by lia.
  change (2 ^ 4) with 16. change (2 ^ 6) with 64. rewrite lor_shift_add; [done|lia|].
  change (2 ^ 2) with 4. Z.div_mod_to_equations. lia.
Qed.
Lemma b64_v4 c : 0 ≤ c < 256 → Z.land c 63 = c mod 64.
Proof. intros. change 63 with (Z.ones 6). by rewrite Z.land_ones. Qed.

(** The bytes of a group, arithmetically. *)
Lemma b64_byte1 a b : 0 ≤ a < 256 → 0 ≤ b < 256 →
  u8 (Z.lor (Z.shiftl (a / 4) 2) (Z.shiftr (a mod 4 * 16 + b / 16) 4)) = a.
Proof.
  intros Ha Hb. rewrite Z.shiftr_div_pow2 by lia. change (2 ^ 4) with 16.
  rewrite lor_shift_add; [|lia|change (2 ^ 2) with 4; Z.div_mod_to_equations; lia].
  unfold u8. change (2 ^ 2) with 4. rewrite Z.mod_small; Z.div_mod_to_equations; lia.
Qed.
Lemma b64_byte2 a b c : 0 ≤ a < 256 → 0 ≤ b < 256 → 0 ≤ c < 256 →
  u8 (Z.lor (Z.shiftl (Z.land (a mod 4 * 16 + b / 16) 15) 4) (Z.shiftr (b mod 16 * 4 + c / 64) 2)) = b.
Proof.
  intros Ha Hb Hc. change 15 with (Z.ones 4). rewrite Z.land_ones, Z.shiftr_div_pow2 by lia.
  change (2 ^ 2) with 4. change (2 ^ 4) with 16.
  rewrite lor_shift_add; [|lia|change (2 ^ 4) with 16; Z.div_mod_to_equations; lia].
  unfold u8. change (2 ^ 4) with 16. rewrite Z.mod_small; Z.div_mod_to_equations; lia.
Qed.
Lemma b64_byte3 b c : 0 ≤ b < 256 → 0 ≤ c < 256 →
  u8 (Z.lor (Z.shiftl (Z.land (b mod 16 * 4 + c / 64) 3) 6) (c mod 64)) = c.
Proof.
  intros Hb Hc. change 3 with (Z.ones 2). rewrite Z.land_ones by lia. change (2 ^ 2) with 4.
  rewrite lor_shift_add; [|lia|change (2 ^ 6) with 64; Z.div_mod_to_equations; lia].
  unfold u8. change (2 ^ 6) with 64. rewrite Z.mod_small; Z.div_mod_to_equations; lia.
Qed.

(** Induction three bytes at a time. *)
Lemma groups_ind (P : list Z → Prop) :
  P [] → (∀ a, P [a]) → (∀ a b, P [a; b]) → (∀ a b c l, P l → P (a :: b :: c :: l)) → ∀ l, P l.
Proof.
  intros H0 H1 H2 H3 l. remember (length l) as n eqn:Hn. revert l Hn.
  induction n as [n IH] using lt_wf_ind. intros [|a [|b [|c l]]] Hn; auto.
  apply H3, (IH (length l)); [simpl in Hn; lia|done].
Qed.

Ltac bytes :=
  repeat match goal with
  | H : words 8 (_ :: _) |- _ => unfold words in H
  | H : Forall _ (_ :: _) |- _ => apply Forall_cons in H as [? H]
  end.

Ltac b64_group :=
  rewrite ?b64_v1, ?b64_v2, ?b64_v3, ?b64_v4 by lia.

Lemma ceil3 n : ((S (S (S n)) + 2) / 3 = S ((n + 2) / 3))%nat.
Proof.
  replace (S (S (S n)) + 2)%nat with (1 * 3 + (n + 2))%nat by lia. by rewrite Nat.div_add_l by lia.
Qed.

Lemma b64_roundtrip input :
  words 8 input → ∀ o output_len p cap,
  (o + 4 * ((length input + 2) / 3) < output_len)%nat → (p + length input ≤ cap)%nat →
  b64_dec_loop (b64_enc_loop input o output_len) p cap = input.
Proof.
  induction input as [|a|a b|a b c l IH] using groups_ind; intros Hw o output_len p cap Ho Hp; bytes;
    cbn [length] in Ho, Hp; [done|cbn [b64_enc_loop]..].
  - change ((1 + 2) / 3)%nat with 1%nat in Ho.
    rewrite (proj2 (Nat.ltb_lt _ _)) by lia. simpl. rewrite (proj2 (Nat.ltb_lt _ _)) by lia.
    change (Z.lor (Z.shiftl (Z.land a 3) 4) 0) with (Z.lor (Z.shiftl (Z.land a 3) 4) (Z.shiftr 0 4)).
    b64_group. rewrite !b64_rev_char by (Z.div_mod_to_equations; lia).
    rewrite !(proj2 (Z.ltb_ge _ _)) by (Z.div_mod_to_equations; lia).
    unfold b64_emit. cbn [andb Z.leb]. simpl. rewrite b64_byte1 by lia. done.
  - change ((2 + 2) / 3)%nat with 1%nat in Ho.
    rewrite (proj2 (Nat.ltb_lt _ _)) by lia. simpl. rewrite (proj2 (Nat.ltb_lt _ _)) by lia.
    change (Z.lor (Z.shiftl (Z.land b 15) 2) 0) with (Z.lor (Z.shiftl (Z.land b 15) 2) (Z.shiftr 0 6)).
    b64_group. rewrite !b64_rev_char by (Z.div_mod_to_equations; lia).
    rewrite !(proj2 (Z.ltb_ge _ _)) by (Z.div_mod_to_equations; lia).
    unfold b64_emit. rewrite (proj2 (Z.leb_le 0 (b mod 16 * 4 + 0 / 64))) by (Z.div_mod_to_equations; lia).
    rewrite (proj2 (Nat.ltb_lt (p + 1) cap)) by lia. simpl. rewrite b64_byte1, b64_byte2 by lia. done.
  - rewrite ceil3 in Ho. rewrite (proj2 (Nat.ltb_lt _ _)) by lia. simpl.
    rewrite (proj2 (Nat.ltb_lt _ _)) by lia. b64_group.
    rewrite !b64_rev_char by (Z.div_mod_to_equations; lia).
    rewrite !(proj2 (Z.ltb_ge _ _)) by (Z.div_mod_to_equations; lia).
    assert (He : b64_emit (a / 4) (a mod 4 * 16 + b / 16) (b mod 16 * 4 + c / 64) (c mod 64) p cap = [a; b; c]).
    { unfold b64_emit. rewrite !(proj2 (Z.leb_le 0 _)) by (Z.div_mod_to_equations; lia).
      rewrite (proj2 (Nat.ltb_lt (p + 1) cap)) by lia. simpl.
      rewrite (proj2 (Nat.ltb_lt (p + 2) cap)) by lia. simpl.
      by rewrite b64_byte1, b64_byte2, b64_byte3 by lia. }
    rewrite He. simpl. by rewrite IH by (done || lia).
Qed.

Lemma b64_length input o output_len :
  (o + 4 * ((length input + 2) / 3) < output_len)%nat →
  length (b64_enc_loop input o output_len) = ((4 * length input + 2) / 3)%nat.
Proof.
  revert o. induction input as [|a|a b|a b c l IH] using groups_ind; intros o Ho; cbn [length] in *; [done|cbn [b64_enc_loop]..].
  - change ((1 + 2) / 3)%nat with 1%nat in Ho. by rewrite (proj2 (Nat.ltb_lt _ _)) by lia.
  - change ((2 + 2) / 3)%nat with 1%nat in Ho. by rewrite (proj2 (Nat.ltb_lt _ _)) by lia.
  - rewrite ceil3 in Ho. rewrite (proj2 (Nat.ltb_lt _ _)) by lia. cbn [length]. rewrite IH by lia.
    replace (4 * S (S (S (length l))) + 2)%nat with (4 * 3 + (4 * length l + 2))%nat by lia.
    by rewrite Nat.div_add_l by lia.
Qed.

Lemma b64_emit_length a b c d o n :
  (length (b64_emit a b c d o n) ≤ 1 + (if (0 <=? c)%Z then 1 else 0) + (if (0 <=? d)%Z then 1 else 0))%nat.
Proof.
  unfold b64_emit. destruct (0 <=? c), (0 <=? d); cbn [andb];
    repeat destruct (_ <? _)%nat; simpl; lia.
Qed.

(** Decoding shortens: three bytes for four characters. *)
Lemma b64_dec_length input o n : (4 * length (b64_dec_loop input o n) ≤ 3 * length input)%nat.
Proof.
  revert o. remember (length input) as len eqn:Hlen. revert input Hlen. induction (lt_wf len) as [len _ IH]; intros input -> o.
  destruct input as [|ca rest0]; [simpl; lia|].
  destruct rest0 as [|cb [|cc [|cd rest]]]; cbn [b64_dec_loop]; destruct (_ <? _)%nat;
    try (simpl; lia); destruct (b64url_rev ca <? 0); try (simpl; lia); try (destruct (b64url_rev cb <? 0); [simpl; lia|]).
  - pose proof (b64_emit_length (b64url_rev ca) (b64url_rev cb) (-1) (-1) o n). simpl in *. lia.
  - pose proof (b64_emit_length (b64url_rev ca) (b64url_rev cb) (b64url_rev cc) (-1) o n).
    destruct (0 <=? b64url_rev cc); simpl in *; lia.
  - rewrite length_app. set (out := b64_emit _ _ _ _ _ _).
    pose proof (b64_emit_length (b64url_rev ca) (b64url_rev cb) (b64url_rev cc) (b64url_rev cd) o n) as He.
    fold out in He. specialize (IH (length rest) ltac:(simpl; lia) rest eq_refl (o + length out)%nat).
    destruct (0 <=? b64url_rev cc), (0 <=? b64url_rev cd); simpl in *; lia.
Qed.

Definition b64_text (s : cstr) : Prop := Forall (λ c, c ∈ b64url_table) s.

Lemma b64_char_in v : 0 ≤ v < 64 → b64_char v ∈ b64url_table.
Proof.
  intros Hv. unfold b64_char.
  destruct (lookup_lt_is_Some_2 b64url_table (Z.to_nat v)) as [c Hc]; [simpl; lia|].
  rewrite Hc. by eapply list_elem_of_lookup_2.
Qed.

Ltac b64_chars :=
  repeat first [apply Forall_nil_2
               |apply Forall_cons_2; [apply b64_char_in; Z.div_mod_to_equations; lia|]].

Lemma b64_enc_text input o output_len : words 8 input → b64_text (b64_enc_loop input o output_len).
Proof.
  intros Hw. revert o. induction input as [|a|a b|a b c l IH] using groups_ind; intros o; bytes;
    cbn [b64_enc_loop]; try destruct (_ <? _)%nat; try by constructor.
  - rewrite (b64_v2 a 0) by lia. rewrite b64_v1 by lia.
    b64_chars.
  - rewrite (b64_v3 b 0), b64_v2, b64_v1 by lia.
    b64_chars.
  - b64_group. b64_chars. by apply IH.
Qed.

(** Base64url text holds no dot and no NUL. *)
Lemma b64_text_no c s : b64_text s → c ∉ b64url_table → c ∉ s.
Proof. intros Hs Hc Hin. apply Hc. by eapply (proj1 (Forall_forall _ s) Hs). Qed.

(** Base64url round trip: bytes encoded with room for their text are
    decoded to themselves in any buffer that holds them, and the text has
    the length of the RFC and only characters of the alphabet. *)
Theorem base64url_decode_encode input output_len cap :
  words 8 input → (4 * ((length input + 2) / 3) < output_len)%nat → (length input ≤ cap)%nat →
  base64url_decode (base64url_encode input output_len) cap = input ∧
  length (base64url_encode input output_len) = ((4 * length input + 2) / 3)%nat ∧
  b64_text (base64url_encode input output_len).
Proof.
  intros Hw Ho Hc. unfold base64url_decode, base64url_encode. split_and!.
  - by apply b64_roundtrip.
  - by apply b64_length.
  - by apply b64_enc_text.
Qed.

Lemma base64url_decode_encode_witness :
  base64url_decode (base64url_encode [0; 255; 62; 63] 64) 64 = [0; 255; 62; 63] ∧
  length (base64url_encode [0; 255; 62; 63] 64) = 6%nat ∧ b64_text (base64url_encode [0; 255; 62; 63] 64).
Proof.
  apply (base64url_decode_encode [0; 255; 62; 63] 64 64); [|simpl; lia..].
  repeat constructor; simpl; lia.
Defined.
