(* ===== verification/TokenState.v ===== *)
(** * Token manager: nonces, revocation list, sessions (src/token.c)

    The three tables of [struct token_manager] that change while the
    server runs.  A jti is stored in 64 bytes and so cut to 63
    characters.  [alloc] answers realloc and calloc by requested size;
    the storage backend is optional, as in the source. *)

From stdpp Require Import sorting.
From S2P Require Import Prelude CLib Types Storage.

Definition TOKEN_REVOCATION_STR_LEN : nat := 64.
Definition SSO_MAX_CONCURRENT_SESSIONS : nat := 3.
Definition REVOCATIONS_INIT_CAP : Z := 64.

Record nonce_pair_t := { np_uid : Z; np_nonce : Z }.

Record session_track_t := { st_user_id : Z; st_jtis : list cstr; active_count : nat; oldest_idx : nat }.

(** The mutable tables of [struct token_manager]; a NULL array has
    capacity 0. *)
Record token_tables := {
  nonces : list nonce_pair_t; nonce_cap : Z;
  jtis : list cstr; rev_capacity : Z; rev_sorted : bool;
  sessions : list session_track_t; session_cap : Z
}.

Definition empty_tables : token_tables :=
  {| nonces := []; nonce_cap := 0; jtis := []; rev_capacity := 0; rev_sorted := false;
     sessions := []; session_cap := 0 |}.

Definition set_nonces (l : list nonce_pair_t) (c : Z) (t : token_tables) : token_tables :=
  {| nonces := l; nonce_cap := c; jtis := jtis t; rev_capacity := rev_capacity t;
     rev_sorted := rev_sorted t; sessions := sessions t; session_cap := session_cap t |}.
Definition set_jtis (l : list cstr) (c : Z) (b : bool) (t : token_tables) : token_tables :=
  {| nonces := nonces t; nonce_cap := nonce_cap t; jtis := l; rev_capacity := c; rev_sorted := b;
     sessions := sessions t; session_cap := session_cap t |}.
Definition set_sessions (l : list session_track_t) (c : Z) (t : token_tables) : token_tables :=
  {| nonces := nonces t; nonce_cap := nonce_cap t; jtis := jtis t; rev_capacity := rev_capacity t;
     rev_sorted := rev_sorted t; sessions := l; session_cap := c |}.

(* ------------------------------------------------------------------ *)
(** ** Nonces *)

Definition token_get_nonce (t : token_tables) (user_id : Z) : Z :=
  default 0 (first_match (λ p, np_uid p =? user_id) np_nonce (nonces t)).

(** The update loop of [token_set_nonce]: the first pair of the user. *)
Fixpoint nonce_loop (l : list nonce_pair_t) (user_id nonce : Z) : option (list nonce_pair_t) :=
  match l with
  | [] => None
  | p :: l' => if np_uid p =? user_id then Some ({| np_uid := np_uid p; np_nonce := nonce |} :: l')
               else (p ::.) <$> nonce_loop l' user_id nonce
  end.

Definition token_set_nonce (alloc : Z → bool) (t : token_tables) (user_id nonce : Z)
  : sso_error_t * token_tables :=
  match nonce_loop (nonces t) user_id nonce with
  | Some l => (SSO_OK, set_nonces l (nonce_cap t) t)
  | None =>
      let new_cap := if nonce_cap t =? 0 then 16 else u64 (nonce_cap t * 2) in
      if negb (alloc (u64 (new_cap * 16))) then (SSO_ERR_OUT_OF_MEMORY, t)
      else (SSO_OK, set_nonces (nonces t ++ [{| np_uid := user_id; np_nonce := nonce |}]) new_cap t)
  end.

Definition token_bump_nonce (alloc : Z → bool) (t : token_tables) (user_id : Z)
  : sso_error_t * token_tables :=
  token_set_nonce alloc t user_id (u64 (token_get_nonce t user_id + 1)).

(* ------------------------------------------------------------------ *)
(** ** Revocation *)

(** [compare_jtis(a, b) <= 0], the order [qsort] sorts by. *)
Definition jti_le (a b : cstr) : Prop := strcmp a b ≠ Gt.
#[global] Instance jti_le_dec : RelDecision jti_le.
Proof. intros a b. unfold jti_le. destruct (strcmp a b); [left|left|right]; congruence. Defined.

Definition qsort_jtis (l : list cstr) : list cstr := merge_sort jti_le l.

(** [bsearch]: the interval shrinks at every step. *)
Fixpoint bsearch_loop (fuel : nat) (key : cstr) (l : list cstr) (lo hi : nat) : bool :=
  match fuel with
  | O => false
  | S fuel' =>
      if (lo <? hi)%nat then
        let idx := ((lo + hi) / 2)%nat in
        match strcmp key (default [] (l !! idx)) with
        | Lt => bsearch_loop fuel' key l lo idx
        | Gt => bsearch_loop fuel' key l (idx + 1) hi
        | Eq => true
        end
      else false
  end.
Definition bsearch (key : cstr) (l : list cstr) : bool := bsearch_loop (S (length l)) key l 0 (length l).

Section Revocation.
Context {S : Type} (storage : option (storage_backend S)) (alloc : Z → bool).

(** The in-memory part of [token_revoke]: a first block of 64 entries,
    then doubling. *)
Definition rev_append (jti : cstr) (t : token_tables) : sso_error_t * token_tables :=
  let entry := sso_strlcpy (Some jti) TOKEN_REVOCATION_STR_LEN in
  let first := rev_capacity t =? 0 in
  if first && negb (alloc (REVOCATIONS_INIT_CAP * 64)) then (SSO_ERR_OUT_OF_MEMORY, t)
  else
    let cap := if first then REVOCATIONS_INIT_CAP else rev_capacity t in
    if cap <=? Z.of_nat (length (jtis t)) then
      let new_cap := u64 (cap * 2) in
      if negb (alloc (u64 (new_cap * 64))) then (SSO_ERR_OUT_OF_MEMORY, set_jtis (jtis t) cap (rev_sorted t) t)
      else (SSO_OK, set_jtis (jtis t ++ [entry]) new_cap false t)
    else (SSO_OK, set_jtis (jtis t ++ [entry]) cap false t).

Definition token_revoke (jti : option cstr) (expires_at : Z) (t : token_tables) (s : S)
  : outcome (sso_error_t * token_tables * S) :=
  match jti with
  | None => Ret (SSO_ERR_INVALID_PARAM, t, s)
  | Some jti =>
      match storage ≫= sb_jti_revoke with
      | None => let '(e, t) := rev_append jti t in Ret (e, t, s)
      | Some f =>
          rs ← f jti expires_at s;
          if negb (is_ok (err_of rs.1)) then Ret (err_of rs.1, t, rs.2)
          else let '(e, t) := rev_append jti t in Ret (e, t, rs.2)
      end
  end.

(** The array is sorted on the first query after a change. *)
Definition sorted_tables (t : token_tables) : token_tables :=
  match jtis t with
  | [] => t
  | _ => if rev_sorted t then t else set_jtis (qsort_jtis (jtis t)) (rev_capacity t) true t
  end.

Definition token_is_revoked (jti : option cstr) (t : token_tables) (s : S)
  : outcome (bool * token_tables * S) :=
  match jti with
  | None => Ret (false, t, s)
  | Some jti =>
      let t := sorted_tables t in
      if match jtis t with [] => false | l => bsearch jti l end then Ret (true, t, s)
      else
        match storage ≫= sb_jti_is_revoked with
        | Some f => bs ← f jti s; Ret (bs.1, t, bs.2)
        | None => Ret (false, t, s)
        end
  end.

(* ------------------------------------------------------------------ *)
(** ** Sessions *)

(** The change of a track that has room. *)
Definition track_add (tr : session_track_t) (jti : cstr) : session_track_t :=
  {| st_user_id := st_user_id tr;
     st_jtis := <[active_count tr := sso_strlcpy (Some jti) TOKEN_REVOCATION_STR_LEN]> (st_jtis tr);
     active_count := active_count tr + 1; oldest_idx := oldest_idx tr |}.

(** ... and of a full one, whose oldest entry is replaced. *)
Definition track_evict (tr : session_track_t) (jti : cstr) : session_track_t :=
  {| st_user_id := st_user_id tr;
     st_jtis := <[oldest_idx tr := sso_strlcpy (Some jti) TOKEN_REVOCATION_STR_LEN]> (st_jtis tr);
     active_count := active_count tr;
     oldest_idx := ((oldest_idx tr + 1) mod SSO_MAX_CONCURRENT_SESSIONS)%nat |}.

Definition new_track (user_id : Z) : session_track_t :=
  {| st_user_id := user_id; st_jtis := replicate SSO_MAX_CONCURRENT_SESSIONS [];
     active_count := 0; oldest_idx := 0 |}.

(** The index of the user's track, after appending one if there is none;
    [None] when the array cannot grow. *)
Definition find_track (user_id : Z) (t : token_tables) : option (nat * token_tables) :=
  match find_index (λ tr, st_user_id tr =? user_id) (sessions t) with
  | Some i => Some (i, t)
  | None =>
      let n := length (sessions t) in
      if session_cap t <=? Z.of_nat n then
        let new_cap := if session_cap t =? 0 then 128 else u64 (session_cap t * 2) in
        if negb (alloc (u64 (new_cap * 216))) then None
        else Some (n, set_sessions (sessions t ++ [new_track user_id]) new_cap t)
      else Some (n, set_sessions (sessions t ++ [new_track user_id]) (session_cap t) t)
  end.

Definition token_register_session (user_id : Z) (jti : option cstr) (t : token_tables) (s : S)
  : outcome (token_tables * S) :=
  match jti with
  | None => Ret (t, s)
  | Some jti =>
      match find_track user_id t with
      | None => Ret (t, s)
      | Some (i, t) =>
          match sessions t !! i with
          | None => Crash
          | Some tr =>
              if (active_count tr <? SSO_MAX_CONCURRENT_SESSIONS)%nat then
                Ret (set_sessions (<[i := track_add tr jti]> (sessions t)) (session_cap t) t, s)
              else
                let oldest_jti := sso_strlcpy (st_jtis tr !! oldest_idx tr) TOKEN_REVOCATION_STR_LEN in
                let t := set_sessions (<[i := track_evict tr jti]> (sessions t)) (session_cap t) t in
                rts ← token_revoke (Some oldest_jti) 0 t s;
                Ret (rts.1.2, rts.2)
          end
      end
  end.

End Revocation.

(* ================================================================== *)
(** ** The order of jtis, sorting and searching *)

Lemma jti_lt_le_trans a b c : strcmp a b = Lt → jti_le b c → strcmp a c = Lt.
Proof.
  intros Hab Hbc. unfold jti_le in Hbc. destruct (strcmp b c) eqn:E; [|by eapply strcmp_Lt_trans|done].
  apply strcmp_Eq in E. by subst.
Qed.

#[global] Instance jti_le_total : Total jti_le.
Proof.
  intros a b. unfold jti_le. rewrite (strcmp_antisym a b). destruct (strcmp a b); simpl; [left|left|right]; done.
Qed.

#[global] Instance jti_le_trans : Transitive jti_le.
Proof.
  intros a b c Hab Hbc. unfold jti_le in Hab. destruct (strcmp a b) eqn:E; [|..|done].
  - apply strcmp_Eq in E. by subst.
  - unfold jti_le. by rewrite (jti_lt_le_trans a b c).
Qed.

Lemma sorted_lookup (l : list cstr) i j a b :
  StronglySorted jti_le l → (i < j)%nat → l !! i = Some a → l !! j = Some b → jti_le a b.
Proof.
  intros Hs. revert i j. induction Hs as [|x l Hs IH Hx]; intros i j Hij Hi Hj; [done|].
  destruct j as [|j]; [lia|]. destruct i as [|i]; simpl in *.
  - injection Hi as <-. by eapply (proj1 (Forall_lookup _ l) Hx).
  - apply (IH i j); [lia|done|done].
Qed.

Lemma bsearch_loop_correct fuel key l lo hi :
  StronglySorted jti_le l → (hi ≤ length l)%nat → (hi - lo < fuel)%nat →
  bsearch_loop fuel key l lo hi = true ↔ ∃ i, (lo ≤ i < hi)%nat ∧ l !! i = Some key.
Proof.
  intros Hs. revert lo hi. induction fuel as [|fuel IH]; intros lo hi Hhi Hf; [lia|]. cbn [bsearch_loop].
  destruct (Nat.ltb_spec lo hi) as [Hlt|]; [|split; [done|intros (i & ? & _); lia]].
  set (idx := ((lo + hi) / 2)%nat).
  assert (Hidx : (lo ≤ idx < hi)%nat)
    by (split; [apply Nat.div_le_lower_bound; lia|apply Nat.Div0.div_lt_upper_bound; lia]).
  destruct (lookup_lt_is_Some_2 l idx ltac:(lia)) as [x Hx]. rewrite Hx. change (default [] (Some x)) with x.
  destruct (strcmp key x) eqn:E.
  - apply strcmp_Eq in E as ->. split; intros _; [eauto|reflexivity].
  - rewrite IH by lia. split; intros (i & Hi & Hk); exists i; [split; [lia|done]|].
    destruct (decide (i < idx)%nat); [split; [lia|done]|exfalso].
    destruct (decide (i = idx)) as [->|]; [rewrite Hx in Hk; simplify_eq; by rewrite (proj2 (strcmp_Eq key key)) in E|].
    pose proof (jti_lt_le_trans _ _ _ E (sorted_lookup l idx i x key Hs ltac:(lia) Hx Hk)) as H.
    by rewrite (proj2 (strcmp_Eq key key)) in H.
  - rewrite IH by lia. split; intros (i & Hi & Hk); exists i; [split; [lia|done]|].
    destruct (decide (idx < i)%nat); [split; [lia|done]|exfalso].
    assert (Hgt : strcmp x key = Lt) by (rewrite strcmp_antisym, E; done).
    destruct (decide (i = idx)) as [->|]; [rewrite Hx in Hk; simplify_eq; by rewrite (proj2 (strcmp_Eq key key)) in E|].
    pose proof (sorted_lookup l i idx key x Hs ltac:(lia) Hk Hx) as H. unfold jti_le in H. congruence.
Qed.

Lemma bsearch_correct key l : StronglySorted jti_le l → bsearch key l = bool_decide (key ∈ l).
Proof.
  intros Hs. apply eq_true_iff_eq. rewrite bool_decide_eq_true.
  unfold bsearch. rewrite bsearch_loop_correct by (done || lia). rewrite list_elem_of_lookup.
  split; [intros (i & _ & H); eauto|]. intros (i & H). exists i. split; [|done].
  apply lookup_lt_Some in H. lia.
Qed.

(* ================================================================== *)
(** ** Invariant *)

(** A track's live sessions, oldest first. *)
Definition live (tr : session_track_t) : list cstr :=
  if (active_count tr <? SSO_MAX_CONCURRENT_SESSIONS)%nat then take (active_count tr) (st_jtis tr)
  else drop (oldest_idx tr) (st_jtis tr) ++ take (oldest_idx tr) (st_jtis tr).

Definition track_wf (tr : session_track_t) : Prop :=
  length (st_jtis tr) = SSO_MAX_CONCURRENT_SESSIONS ∧ (active_count tr ≤ SSO_MAX_CONCURRENT_SESSIONS)%nat ∧
  (oldest_idx tr < SSO_MAX_CONCURRENT_SESSIONS)%nat ∧
  ((active_count tr < SSO_MAX_CONCURRENT_SESSIONS)%nat → oldest_idx tr = 0%nat) ∧
  Forall (λ j, (length j < TOKEN_REVOCATION_STR_LEN)%nat) (st_jtis tr).

Record tables_wf (t : token_tables) : Prop := {
  wf_sorted : rev_sorted t = true → StronglySorted jti_le (jtis t);
  wf_tracks : Forall track_wf (sessions t);
  wf_users : NoDup (st_user_id <$> sessions t)
}.

(** The sessions a user has open. *)
Definition live_sessions (t : token_tables) (user_id : Z) : list cstr :=
  default [] (live <$> List.find (λ tr, st_user_id tr =? user_id) (sessions t)).

Lemma empty_tables_wf : tables_wf empty_tables.
Proof. split; simpl; [done|constructor|constructor]. Qed.

Lemma qsort_perm l : qsort_jtis l ≡ₚ l.
Proof. apply merge_sort_Permutation. Qed.

Lemma sorted_tables_spec t :
  tables_wf t → tables_wf (sorted_tables t) ∧ StronglySorted jti_le (jtis (sorted_tables t)) ∧
    jtis (sorted_tables t) ≡ₚ jtis t ∧ nonces (sorted_tables t) = nonces t ∧
    sessions (sorted_tables t) = sessions t.
Proof.
  intros Hwf. unfold sorted_tables. destruct (jtis t) as [|j l] eqn:Ej.
  - rewrite Ej. by repeat constructor; try apply Hwf.
  - destruct (rev_sorted t) eqn:Es; simpl.
    + split_and!; try done; [by apply Hwf|by rewrite Ej].
    + assert (Hss : StronglySorted jti_le (qsort_jtis (j :: l))) by apply (StronglySorted_merge_sort _).
      split_and!; [|done|apply qsort_perm|done|done].
      split; simpl; [done|apply Hwf..].
Qed.

(** The binary search decides membership in the list, whatever its order. *)
Lemma search_tables t jti :
  tables_wf t →
  match jtis (sorted_tables t) with [] => false | l => bsearch jti l end = bool_decide (jti ∈ jtis t).
Proof.
  intros (_ & Hs & Hp & _)%sorted_tables_spec.
  rewrite (bool_decide_ext _ (jti ∈ jtis (sorted_tables t))) by (by rewrite Hp).
  destruct (jtis (sorted_tables t)) eqn:E; [by rewrite bool_decide_eq_false_2 by set_solver|by apply bsearch_correct].
Qed.

Lemma is_revoked_in {S} storage jti t (s : S) :
  tables_wf t → jti ∈ jtis t →
  token_is_revoked storage (Some jti) t s = Ret (true, sorted_tables t, s).
Proof. intros Hwf Hin. unfold token_is_revoked. by rewrite search_tables, bool_decide_eq_true_2. Qed.

Lemma is_revoked_state {S} storage jti t (s : S) b t' s' :
  token_is_revoked storage (Some jti) t s = Ret (b, t', s') → t' = sorted_tables t.
Proof.
  unfold token_is_revoked. repeat case_goal; try by intros [= <- <- <-].
  by intros (bs & _ & [= <- <- <-])%outcome_bind_inv.
Qed.

(* ================================================================== *)
(** ** Nonces *)

Lemma nonce_loop_Some l u n l' :
  nonce_loop l u n = Some l' →
  first_match (λ p, np_uid p =? u) np_nonce l' = Some n ∧
  (∀ v, v ≠ u → first_match (λ p, np_uid p =? v) np_nonce l' = first_match (λ p, np_uid p =? v) np_nonce l) ∧
  np_uid <$> l' = np_uid <$> l.
Proof.
  revert l'. induction l as [|p l IH]; intros l'; cbn [nonce_loop]; [done|].
  destruct (Z.eqb_spec (np_uid p) u) as [Hp|Hp].
  - intros [= <-]. cbn [first_match fmap list_fmap np_uid np_nonce]. rewrite (proj2 (Z.eqb_eq (np_uid p) u)) by done.
    split_and!; [done| |done]. intros v Hv. by rewrite (proj2 (Z.eqb_neq (np_uid p) v)) by congruence.
  - destruct (nonce_loop l u n) as [l1|]; [|done]. intros [= <-]. destruct (IH l1 eq_refl) as (H1 & H2 & H3).
    cbn [first_match fmap list_fmap]. rewrite (proj2 (Z.eqb_neq (np_uid p) u)) by done. split_and!; [done| |].
    + intros v Hv. by rewrite H2.
    + f_equal. exact H3.
Qed.

Lemma nonce_loop_None l u n :
  nonce_loop l u n = None → u ∉ np_uid <$> l.
Proof.
  induction l as [|p l IH]; cbn [nonce_loop]; [set_solver|].
  destruct (Z.eqb_spec (np_uid p) u); [done|]. destruct (nonce_loop l u n); [done|].
  intros _. cbn [fmap list_fmap]. rewrite elem_of_cons. intros [?|?]; [congruence|]. by apply IH.
Qed.

Lemma first_match_nonce_None l u :
  u ∉ np_uid <$> l → first_match (λ p, np_uid p =? u) np_nonce l = None.
Proof.
  intros H. apply first_match_None, Forall_forall. intros p Hp. apply Z.eqb_neq. intros <-.
  apply H. by apply list_elem_of_fmap_2.
Qed.

Lemma first_match_app {A B} (test : A → bool) (value : A → B) l l' :
  first_match test value (l ++ l') =
  match first_match test value l with Some b => Some b | None => first_match test value l' end.
Proof. induction l as [|x l IH]; [done|]. cbn [app first_match]. by destruct (test x). Qed.

(** What setting a nonce does: the user's nonce changes, no other one
    does; a failure changes nothing. *)
Lemma token_set_nonce_spec alloc t u n e t' :
  token_set_nonce alloc t u n = (e, t') →
  jtis t' = jtis t ∧ sessions t' = sessions t ∧
  (e = SSO_OK ∧ token_get_nonce t' u = n ∧ ∀ v, v ≠ u → token_get_nonce t' v = token_get_nonce t v) ∨
  (e = SSO_ERR_OUT_OF_MEMORY ∧ t' = t).
Proof.
  unfold token_set_nonce, token_get_nonce. destruct (nonce_loop (nonces t) u n) as [l|] eqn:E.
  - intros [= <- <-]. left. simpl. destruct (nonce_loop_Some _ _ _ _ E) as (H1 & H2 & _).
    rewrite H1. split_and!; try done. intros v Hv. by rewrite H2.
  - destruct (alloc _); simpl; intros [= <- <-]; [left|by right]. simpl.
    rewrite first_match_app, first_match_nonce_None by (by eapply nonce_loop_None).
    cbn [first_match np_uid]. rewrite Z.eqb_refl. split_and!; try done.
    intros v Hv. rewrite first_match_app. cbn [first_match np_uid].
    rewrite (proj2 (Z.eqb_neq u v)) by congruence. by destruct (first_match _ _ (nonces t)).
Qed.

(** A logout of all sessions of each user of a list, in turn. *)
Fixpoint bump_all (alloc : Z → bool) (users : list Z) (t : token_tables) : list sso_error_t * token_tables :=
  match users with
  | [] => ([], t)
  | u :: users' =>
      let '(e, t) := token_bump_nonce alloc t u in
      let '(es, t) := bump_all alloc users' t in
      (e :: es, t)
  end.

Lemma bump_new alloc t u e t' :
  u ∉ np_uid <$> nonces t → token_bump_nonce alloc t u = (e, t') →
  e = SSO_OK → alloc (u64 ((if nonce_cap t =? 0 then 16 else u64 (nonce_cap t * 2)) * 16)) = true ∧
    nonce_cap t' = (if nonce_cap t =? 0 then 16 else u64 (nonce_cap t * 2)) ∧
    np_uid <$> nonces t' = (np_uid <$> nonces t) ++ [u].
Proof.
  intros Hu. unfold token_bump_nonce, token_set_nonce.
  destruct (nonce_loop _ _ _) as [l|] eqn:E.
  - destruct (nonce_loop_Some _ _ _ _ E) as (H1 & _ & H3).
    exfalso. apply first_match_Some in H1 as (i & p & Hi & Hp & _).
    apply Z.eqb_eq in Hp. apply Hu. rewrite <- H3, <- Hp. apply list_elem_of_fmap_2.
    by eapply list_elem_of_lookup_2.
  - destruct (alloc _) eqn:Ea; simpl; intros [= <- <-] He; [|done].
    split_and!; [done|done|]. simpl. by rewrite fmap_app.
Qed.

Lemma bump_all_capacity alloc B users t k :
  (∀ n, 2 ^ B < n → alloc n = false) → 8 ≤ B ≤ 60 → NoDup users →
  (∀ u, u ∈ users → u ∉ np_uid <$> nonces t) →
  nonce_cap t = (if k =? 0 then 0 else 2 ^ (3 + k)) → 0 ≤ k ≤ B - 7 →
  Forall (λ e, e = SSO_OK) (bump_all alloc users t).1 → k + Z.of_nat (length users) ≤ B - 7.
Proof.
  intros Hal HB. revert t k. induction users as [|u users IH]; intros t k Hnd Hfresh Hcap Hk Hok; [simpl; lia|].
  cbn [bump_all] in Hok. destruct (token_bump_nonce alloc t u) as [e t1] eqn:E1.
  destruct (bump_all alloc users t1) as [es t2] eqn:E2. cbn [fst] in Hok.
  apply Forall_cons in Hok as [He Hok]. apply NoDup_cons in Hnd as [Hu Hnd].
  destruct (bump_new alloc t u e t1) as (Ha & Hc & Hn); [set_solver|done|done|].
  assert (Hnew : (if nonce_cap t =? 0 then 16 else u64 (nonce_cap t * 2)) = 2 ^ (3 + (k + 1))).
  { rewrite Hcap. destruct (Z.eqb_spec k 0) as [->|]; [done|].
    rewrite (proj2 (Z.eqb_neq _ 0)) by (pose proof (Z.pow_pos_nonneg 2 (3 + k)); lia).
    replace (3 + (k + 1)) with (Z.succ (3 + k)) by lia. rewrite Z.pow_succ_r by lia.
    rewrite u64_small; [lia|]. split; [pose proof (Z.pow_pos_nonneg 2 (3 + k)); lia|].
    pose proof (Z.pow_le_mono_r 2 (3 + k) 62). lia. }
  rewrite Hnew in Ha, Hc.
  assert (Hfit : k + 1 ≤ B - 7).
  { destruct (Z.le_gt_cases (k + 1) (B - 7)); [done|exfalso].
    assert (k = B - 7) as -> by lia. rewrite u64_small in Ha.
    - rewrite Hal in Ha; [done|]. change 16 with (2 ^ 4). rewrite <- Z.pow_add_r by lia.
      apply Z.pow_lt_mono_r; lia.
    - split; [apply Z.mul_nonneg_nonneg; [apply Z.pow_nonneg|]; lia|].
      change 16 with (2 ^ 4). rewrite <- Z.pow_add_r by lia. apply Z.pow_lt_mono_r; lia. }
  assert (IH' : k + 1 + Z.of_nat (length users) ≤ B - 7).
  { apply (IH t1 (k + 1)); [done| | |lia|by rewrite E2].
    - intros v Hv. rewrite Hn, elem_of_app, list_elem_of_singleton.
      intros [Hin| ->]; [by apply (Hfresh v); [set_solver|]|done].
    - by rewrite (proj2 (Z.eqb_neq (k + 1) 0)) by lia. }
  cbn [length]. lia.
Qed.

(** The nonce table doubles its capacity for every new user instead
    of only when it is full, so on a machine whose allocator grants no
    block above [2^B] bytes at most [B - 7] users can ever be logged out
    of all sessions: in any run over more users, some call fails. *)
Theorem token_nonce_users_bounded alloc B users :
  (∀ n, 2 ^ B < n → alloc n = false) → 8 ≤ B ≤ 60 → NoDup users →
  B - 7 < Z.of_nat (length users) →
  Exists (λ e, e ≠ SSO_OK) (bump_all alloc users empty_tables).1.
Proof.
  intros Hal HB Hnd Hlen.
  destruct (decide (Forall (λ e, e = SSO_OK) (bump_all alloc users empty_tables).1)) as [Hok|Hno].
  - pose proof (bump_all_capacity alloc B users empty_tables 0 Hal HB Hnd). simpl in *.
    specialize (H ltac:(set_solver) ltac:(done) ltac:(lia) Hok). lia.
  - by apply not_Forall_Exists in Hno; [|apply _].
Qed.

Lemma token_nonce_users_bounded_witness :
  Exists (λ e, e ≠ SSO_OK) (bump_all (λ n, n <=? 2 ^ 8) [1; 2] empty_tables).1.
Proof.
  apply (token_nonce_users_bounded (λ n, n <=? 2 ^ 8) 8 [1; 2]); [|lia| |simpl; lia].
  - intros n Hn. apply Z.leb_gt. lia.
  - apply (bool_decide_unpack _). by vm_compute.
Defined.

(* ================================================================== *)
(** ** Sessions *)

Definition last3 (l : list cstr) : list cstr := drop (length l - SSO_MAX_CONCURRENT_SESSIONS) l.
Definition evicted (l : list cstr) : list cstr := take (length l - SSO_MAX_CONCURRENT_SESSIONS) l.

Lemma live_length tr : track_wf tr → length (live tr) = active_count tr.
Proof.
  intros (Hl & Ha & Ho & _). unfold live. destruct (Nat.ltb_spec (active_count tr) SSO_MAX_CONCURRENT_SESSIONS).
  - rewrite length_take. lia.
  - rewrite length_app, length_take, length_drop. lia.
Qed.

Lemma live_add tr j :
  track_wf tr → (active_count tr < SSO_MAX_CONCURRENT_SESSIONS)%nat → (length j < TOKEN_REVOCATION_STR_LEN)%nat →
  track_wf (track_add tr j) ∧ live (track_add tr j) = live tr ++ [j].
Proof.
  destruct tr as [u l a o]. unfold track_wf, track_add, live, SSO_MAX_CONCURRENT_SESSIONS. simpl.
  intros (Hl & Ha & Ho & H0 & Hs) Hlt Hj. rewrite sso_strlcpy_fits by done. rewrite (H0 Hlt) in *.
  destruct l as [|x [|y [|z [|]]]]; simpl in Hl; try lia.
  split.
  - rewrite length_insert. split_and!; [done|lia|lia|done|]. by apply Forall_insert.
  - destruct a as [|[|[|a]]]; [done..|lia].
Qed.

Lemma live_evict tr j :
  track_wf tr → active_count tr = SSO_MAX_CONCURRENT_SESSIONS → (length j < TOKEN_REVOCATION_STR_LEN)%nat →
  track_wf (track_evict tr j) ∧ live (track_evict tr j) = drop 1 (live tr) ++ [j] ∧
  [sso_strlcpy (st_jtis tr !! oldest_idx tr) TOKEN_REVOCATION_STR_LEN] = take 1 (live tr).
Proof.
  destruct tr as [u l a o]. unfold track_wf, track_evict, live, SSO_MAX_CONCURRENT_SESSIONS. simpl.
  intros (Hl & Ha & Ho & H0 & Hs) -> Hj. rewrite sso_strlcpy_fits by done.
  destruct l as [|x [|y [|z [|]]]]; simpl in Hl; try lia.
  apply Forall_cons in Hs as [Hx Hs]. apply Forall_cons in Hs as [Hy Hs]. apply Forall_cons in Hs as [Hz _].
  destruct o as [|[|[|o]]]; [..|lia]; simpl; split_and!; try done; try lia;
    try (by rewrite sso_strlcpy_fits); repeat first [apply Forall_nil_2|apply Forall_cons_2; [done|]].
Qed.

Lemma live_at t i tr :
  tables_wf t → sessions t !! i = Some tr → live_sessions t (st_user_id tr) = live tr.
Proof.
  intros Hwf Hi. unfold live_sessions.
  destruct (List.find (λ x, st_user_id x =? st_user_id tr) (sessions t)) as [x|] eqn:E.
  - apply List.find_some in E as [Hin Hx%Z.eqb_eq]. rewrite <- list_elem_of_In in Hin.
    apply list_elem_of_lookup in Hin as (j & Hj).
    assert (i = j) as ->.
    { eapply (NoDup_lookup (st_user_id <$> sessions t) i j (st_user_id tr)); [apply Hwf|..];
        rewrite list_lookup_fmap; [by rewrite Hi|]. rewrite Hj. simpl. congruence. }
    simpl. congruence.
  - apply list_elem_of_lookup_2, list_elem_of_In, (List.find_none _ _ E), Z.eqb_neq in Hi. done.
Qed.

Lemma live_absent t u : u ∉ st_user_id <$> sessions t → live_sessions t u = [].
Proof.
  intros Hu. unfold live_sessions. destruct (List.find _ _) as [x|] eqn:E; [|done].
  apply List.find_some in E as [Hin Hx%Z.eqb_eq]. rewrite <- list_elem_of_In in Hin. exfalso. apply Hu.
  rewrite <- Hx. by apply list_elem_of_fmap_2.
Qed.

Lemma list_find_app {A} (f : A → bool) l l' :
  List.find f (l ++ l') = match List.find f l with Some x => Some x | None => List.find f l' end.
Proof. induction l as [|x l IH]; [done|]. cbn [app List.find]. by destruct (f x). Qed.

(** The track of a user, old or new. *)
Lemma find_track_spec alloc u t i t1 :
  tables_wf t → find_track alloc u t = Some (i, t1) →
  ∃ tr, sessions t1 !! i = Some tr ∧ st_user_id tr = u ∧
    tables_wf t1 ∧ live tr = live_sessions t u ∧ (∀ v, live_sessions t1 v = live_sessions t v) ∧
    jtis t1 = jtis t.
Proof.
  intros Hwf. unfold find_track.
  destruct (find_index (λ tr, st_user_id tr =? u) (sessions t)) as [i0|] eqn:E.
  - apply find_index_Some in E as (tr & Hi & Hu%Z.eqb_eq & _). intros [= <- <-]. exists tr.
    split_and!; try done. by rewrite <- Hu, (live_at t i0 tr).
  - apply find_index_None in E.
    assert (Hu : u ∉ st_user_id <$> sessions t).
    { intros (x & -> & Hx)%list_elem_of_fmap. apply (proj1 (Forall_forall _ _) E) in Hx. by apply Z.eqb_neq in Hx. }
    assert (Hnew : ∀ c, ∃ tr, sessions (set_sessions (sessions t ++ [new_track u]) c t) !! length (sessions t) = Some tr ∧
      st_user_id tr = u ∧ tables_wf (set_sessions (sessions t ++ [new_track u]) c t) ∧
      live tr = live_sessions t u ∧
      (∀ v, live_sessions (set_sessions (sessions t ++ [new_track u]) c t) v = live_sessions t v) ∧
      jtis (set_sessions (sessions t ++ [new_track u]) c t) = jtis t).
    { intros c. exists (new_track u). simpl. rewrite list_lookup_middle by done.
      rewrite (live_absent t u Hu). split_and!; [done|done| |done| |done].
      - split; simpl; [apply Hwf|..].
        + apply Forall_app. split; [apply Hwf|]. apply Forall_singleton. unfold track_wf,
            SSO_MAX_CONCURRENT_SESSIONS, TOKEN_REVOCATION_STR_LEN. simpl.
          split_and!; [done|lia|lia|done|]. repeat apply Forall_cons_2; simpl; try lia. constructor.
        + rewrite fmap_app. apply NoDup_app. split_and!; [apply Hwf| |apply NoDup_singleton].
          intros x Hx ->%list_elem_of_singleton. done.
      - intros v. unfold live_sessions. simpl. rewrite list_find_app.
        destruct (List.find _ (sessions t)); [done|]. simpl. by destruct (u =? v). }
    repeat case_goal; intros [= <- <-]; apply Hnew.
Qed.

Lemma find_track_alloc alloc u t : (∀ n, alloc n = true) → is_Some (find_track alloc u t).
Proof.
  intros Hal. unfold find_track. destruct (find_index _ _); [by eexists|].
  destruct (_ <=? _); rewrite ?Hal; by eexists.
Qed.

(** Replacing a user's track. *)
Lemma put_track t i tr tr' u :
  tables_wf t → sessions t !! i = Some tr → st_user_id tr = u → track_wf tr' → st_user_id tr' = u →
  let t2 := set_sessions (<[i := tr']> (sessions t)) (session_cap t) t in
  tables_wf t2 ∧ live_sessions t2 u = live tr' ∧ ∀ v, v ≠ u → live_sessions t2 v = live_sessions t v.
Proof.
  intros Hwf Hi Hu Htr' Hu' t2. assert (Hlt : (i < length (sessions t))%nat) by (by eapply lookup_lt_Some).
  assert (Hwf2 : tables_wf t2).
  { split; simpl; [apply Hwf|apply Forall_insert; [apply Hwf|done]|].
    rewrite list_fmap_insert, list_insert_id; [apply Hwf|]. rewrite list_lookup_fmap, Hi. simpl. congruence. }
  split_and!; [done| |].
  - rewrite <- Hu' at 1. apply (live_at t2 i); [done|]. by apply list_lookup_insert_eq.
  - intros v Hv. unfold live_sessions, t2. simpl. f_equal. f_equal.
    clear - Hi Hu Hu' Hv. revert i Hi. induction (sessions t) as [|x l IH]; intros i Hi; [done|].
    destruct i as [|i]; simpl in *.
    + injection Hi as ->. rewrite !(proj2 (Z.eqb_neq _ v)) by congruence. done.
    + by rewrite IH.
Qed.

Lemma rev_append_short alloc o t :
  (∀ n, alloc n = true) → (length o < TOKEN_REVOCATION_STR_LEN)%nat →
  ∃ c, rev_append alloc o t = (SSO_OK, set_jtis (jtis t ++ [o]) c false t).
Proof.
  intros Hal Ho. unfold rev_append. rewrite !Hal, andb_false_r. cbn [negb].
  rewrite sso_strlcpy_fits by done. destruct (_ <=? _); by eexists.
Qed.

(** One registration: the user keeps its last three sessions, a fourth
    puts the oldest on the revocation list; nobody else is concerned. *)
Lemma register_step {S} alloc u j t (s : S) :
  tables_wf t → (∀ n, alloc n = true) → (length j < TOKEN_REVOCATION_STR_LEN)%nat →
  ∃ t', token_register_session None alloc u (Some j) t s = Ret (t', s) ∧ tables_wf t' ∧
    live_sessions t' u = last3 (live_sessions t u ++ [j]) ∧
    (∀ v, v ≠ u → live_sessions t' v = live_sessions t v) ∧
    jtis t' = jtis t ++ evicted (live_sessions t u ++ [j]).
Proof.
  intros Hwf Hal Hj. unfold token_register_session.
  destruct (find_track_alloc alloc u t Hal) as ([i t1] & E). rewrite E.
  destruct (find_track_spec alloc u t i t1 Hwf E) as (tr & Hi & Hu & Hwf1 & Hlive & Hsame & Hjt).
  rewrite Hi. pose proof (proj1 (Forall_lookup _ _) (wf_tracks t1 Hwf1) i tr Hi) as Htr.
  pose proof (live_length tr Htr) as Hlen. unfold last3, evicted. rewrite length_app, <- Hlive, Hlen.
  destruct (Nat.ltb_spec (active_count tr) SSO_MAX_CONCURRENT_SESSIONS) as [Hlt|Hge].
  - destruct (live_add tr j Htr Hlt Hj) as [Htr' Hl].
    destruct (put_track t1 i tr (track_add tr j) u) as (H1 & H2 & H3); try done.
    replace (active_count tr + length [j] - SSO_MAX_CONCURRENT_SESSIONS)%nat with 0%nat by (simpl; lia).
    eexists. split_and!; [done|done|by rewrite H2| |].
    + intros v Hv. by rewrite H3, Hsame.
    + simpl. by rewrite Hjt, app_nil_r.
  - assert (Ha : active_count tr = SSO_MAX_CONCURRENT_SESSIONS) by (destruct Htr as (_ & ? & _); lia).
    destruct (live_evict tr j Htr Ha Hj) as (Htr' & Hl & Ho).
    destruct (put_track t1 i tr (track_evict tr j) u) as (H1 & H2 & H3); try done.
    cbv zeta. set (t2 := set_sessions _ _ t1) in *. set (o := sso_strlcpy _ _) in *.
    destruct (rev_append_short alloc o t2 Hal) as (c & Hap).
    { unfold o. pose proof (sso_strlcpy_length (st_jtis tr !! oldest_idx tr) TOKEN_REVOCATION_STR_LEN).
      unfold TOKEN_REVOCATION_STR_LEN in *. lia. }
    unfold token_revoke. simpl. rewrite Hap. cbn [mbind outcome_bind fst snd].
    rewrite Ha, Nat.add_comm, Nat.add_sub, drop_app_le, take_app_le
      by (rewrite Hlen, Ha; unfold SSO_MAX_CONCURRENT_SESSIONS; lia).
    eexists. split_and!; [done| | | |].
    + split; simpl; [done|apply H1|apply H1].
    + by rewrite <- Hl, <- H2.
    + intros v Hv. change (live_sessions (set_jtis _ _ _ t2) v) with (live_sessions t2 v). by rewrite H3, Hsame.
    + simpl. by rewrite <- Ho, Hjt.
Qed.

(** Logins of several users, in any order. *)
Fixpoint register_all (alloc : Z → bool) (logins : list (Z * cstr)) (t : token_tables) : outcome token_tables :=
  match logins with
  | [] => Ret t
  | (u, j) :: logins' =>
      ts ← token_register_session (S := unit) None alloc u (Some j) t tt;
      register_all alloc logins' ts.1
  end.

Definition sessions_of (u : Z) (logins : list (Z * cstr)) : list cstr :=
  (filter (λ l, l.1 = u) logins).*2.

Lemma last3_app l l' : last3 (last3 l ++ l') = last3 (l ++ l').
Proof.
  unfold last3. rewrite !length_app, length_drop. set (n := length l). set (m := length l').
  destruct (decide (n ≤ SSO_MAX_CONCURRENT_SESSIONS)%nat).
  - replace (n - SSO_MAX_CONCURRENT_SESSIONS)%nat with 0%nat by lia. rewrite Nat.sub_0_r. done.
  - replace (n - (n - SSO_MAX_CONCURRENT_SESSIONS))%nat with SSO_MAX_CONCURRENT_SESSIONS by lia.
    rewrite <- (take_drop (n - SSO_MAX_CONCURRENT_SESSIONS) l) at 2. rewrite <- app_assoc, (drop_app_ge (take _ _)).
    + f_equal. rewrite length_take. fold n. lia.
    + rewrite length_take. fold n. lia.
Qed.

Lemma evicted_app l l' : evicted (l ++ l') = evicted l ++ evicted (last3 l ++ l').
Proof.
  unfold evicted, last3. rewrite !length_app, length_drop. set (n := length l). set (m := length l').
  destruct (decide (n ≤ SSO_MAX_CONCURRENT_SESSIONS)%nat).
  - replace (n - SSO_MAX_CONCURRENT_SESSIONS)%nat with 0%nat by lia. rewrite Nat.sub_0_r. done.
  - replace (n - (n - SSO_MAX_CONCURRENT_SESSIONS))%nat with SSO_MAX_CONCURRENT_SESSIONS by lia.
    rewrite <- (take_drop (n - SSO_MAX_CONCURRENT_SESSIONS) l) at 1. rewrite <- app_assoc, (take_app_ge (take _ _)).
    + f_equal. f_equal. rewrite length_take. fold n. lia.
    + rewrite length_take. fold n. lia.
Qed.

Lemma sessions_of_app u a b : sessions_of u (a ++ b) = sessions_of u a ++ sessions_of u b.
Proof. unfold sessions_of. by rewrite filter_app, fmap_app. Qed.

Lemma sessions_of_one u v j : sessions_of u [(v, j)] = if decide (v = u) then [j] else [].
Proof.
  unfold sessions_of. destruct (decide (v = u)).
  - by rewrite filter_cons_True.
  - by rewrite filter_cons_False.
Qed.

(** The tables after the logins [seen]. *)
Definition after (t : token_tables) (seen : list (Z * cstr)) : Prop :=
  tables_wf t ∧ (∀ u, live_sessions t u = last3 (sessions_of u seen)) ∧
  ∀ j, j ∈ jtis t ↔ ∃ u, j ∈ evicted (sessions_of u seen).

Lemma after_step alloc t seen u j :
  after t seen → (∀ n, alloc n = true) → (length j < TOKEN_REVOCATION_STR_LEN)%nat →
  ∃ t', token_register_session (S := unit) None alloc u (Some j) t tt = Ret (t', tt) ∧ after t' (seen ++ [(u, j)]).
Proof.
  intros (Hwf & Hl & Hr) Hal Hj.
  destruct (register_step alloc u j t tt Hwf Hal Hj) as (t' & E & Hwf' & Hu & Ho & Hjt).
  exists t'. split; [done|]. split_and!; [done| |].
  - intros v. rewrite sessions_of_app, sessions_of_one. destruct (decide (u = v)) as [->|Hne].
    + by rewrite Hu, Hl, last3_app.
    + rewrite app_nil_r, Ho by congruence. apply Hl.
  - intros x. rewrite Hjt, elem_of_app, Hr, Hl. split.
    + intros [(v & Hv)|Hx].
      * exists v. rewrite sessions_of_app, evicted_app, elem_of_app. by left.
      * exists u. rewrite sessions_of_app, sessions_of_one, decide_True, evicted_app, elem_of_app by done. by right.
    + intros (v & Hv). rewrite sessions_of_app, sessions_of_one in Hv. destruct (decide (u = v)) as [->|Hne].
      * rewrite evicted_app, elem_of_app in Hv. destruct Hv; [left; eauto|by right].
      * rewrite app_nil_r in Hv. left. eauto.
Qed.

Lemma register_all_after alloc logins t seen :
  after t seen → (∀ n, alloc n = true) →
  Forall (λ l, (length l.2 < TOKEN_REVOCATION_STR_LEN)%nat) logins →
  ∃ t', register_all alloc logins t = Ret t' ∧ after t' (seen ++ logins).
Proof.
  intros Ha Hal Hs. revert t seen Ha. induction Hs as [|[u j] logins Hj _ IH]; intros t seen Ha.
  - exists t. by rewrite app_nil_r.
  - destruct (after_step alloc t seen u j Ha Hal Hj) as (t1 & E & Ha1).
    destruct (IH t1 (seen ++ [(u, j)]) Ha1) as (t' & E' & Ha'). exists t'. cbn [register_all].
    rewrite E, outcome_bind_Ret. by rewrite <- app_assoc in Ha'.
Qed.



(* ================================================================== *)
(** ** Revocations last *)

Section Lasting.
Context {S : Type} (storage : option (storage_backend S)).

(** Everything that happens to the tables while the server runs. *)
Inductive tables_step : token_tables * S → token_tables * S → Prop :=
| step_revoke alloc jti ex t s e t' s' :
    token_revoke storage alloc jti ex t s = Ret (e, t', s') → tables_step (t, s) (t', s')
| step_query jti t s b t' s' :
    token_is_revoked storage jti t s = Ret (b, t', s') → tables_step (t, s) (t', s')
| step_register alloc u jti t s t' s' :
    token_register_session storage alloc u jti t s = Ret (t', s') → tables_step (t, s) (t', s')
| step_set_nonce alloc u n t s e t' :
    token_set_nonce alloc t u n = (e, t') → tables_step (t, s) (t', s).

Lemma rev_append_wf alloc j t e t' :
  tables_wf t → rev_append alloc j t = (e, t') → tables_wf t' ∧ jtis t `prefix_of` jtis t'.
Proof.
  intros Hwf. unfold rev_append. repeat case_goal; intros [= <- <-]; (split; [split; simpl; try done; apply Hwf|]);
    simpl; try done; by apply prefix_app_r.
Qed.

Lemma rev_append_in alloc j t t' :
  (length j < TOKEN_REVOCATION_STR_LEN)%nat → rev_append alloc j t = (SSO_OK, t') → j ∈ jtis t'.
Proof.
  intros Hj. unfold rev_append. rewrite sso_strlcpy_fits by done.
  repeat case_goal; intros [= <-]; simpl; set_solver.
Qed.

Lemma token_revoke_wf alloc jti ex t s e t' s' :
  tables_wf t → token_revoke storage alloc jti ex t s = Ret (e, t', s') →
  tables_wf t' ∧ jtis t `prefix_of` jtis t'.
Proof.
  intros Hwf. unfold token_revoke. destruct jti as [j|]; [|by intros [= <- <- <-]].
  case_goal.
  - intros ([r s1] & _ & H)%outcome_bind_inv. destruct (negb _); [by simplify_eq|].
    destruct (rev_append alloc j t) eqn:E. simplify_eq. by eapply rev_append_wf.
  - destruct (rev_append alloc j t) eqn:E. intros [= <- <- <-]. by eapply rev_append_wf.
Qed.

Lemma cut_cut j : sso_strlcpy (Some (sso_strlcpy (Some j) TOKEN_REVOCATION_STR_LEN)) TOKEN_REVOCATION_STR_LEN
                  = sso_strlcpy (Some j) TOKEN_REVOCATION_STR_LEN.
Proof.
  apply sso_strlcpy_fits. pose proof (sso_strlcpy_length (Some j) TOKEN_REVOCATION_STR_LEN).
  unfold TOKEN_REVOCATION_STR_LEN in *. lia.
Qed.

Lemma tables_step_keeps c c' :
  tables_step c c' → tables_wf c.1 → tables_wf c'.1 ∧ jtis c.1 ⊆ jtis c'.1.
Proof.
  intros Hst Hwf. destruct Hst as [alloc jti ex t s e t' s' H|[j|] t s b t' s' H|alloc u [j|] t s t' s' H|alloc u n t s e t' H];
    simpl in *.
  - destruct (token_revoke_wf _ _ _ _ _ _ _ _ Hwf H) as [Hw Hp]. split; [done|].
    intros x Hx. by eapply elem_of_prefix.
  - apply is_revoked_state in H as ->. destruct (sorted_tables_spec t Hwf) as (Hw & _ & Hp & _).
    split; [done|]. intros x. by rewrite Hp.
  - by simplify_eq.
  - unfold token_register_session in H. destruct (find_track alloc u t) as [[i t1]|] eqn:E; [|by simplify_eq].
    destruct (find_track_spec alloc u t i t1 Hwf E) as (tr & Hi & Hu & Hwf1 & _ & _ & Hjt). rewrite Hi in H.
    pose proof (proj1 (Forall_lookup _ _) (wf_tracks t1 Hwf1) i tr Hi) as Htr.
    set (j' := sso_strlcpy (Some j) TOKEN_REVOCATION_STR_LEN) in *.
    assert (Hj' : (length j' < TOKEN_REVOCATION_STR_LEN)%nat).
    { pose proof (sso_strlcpy_length (Some j) TOKEN_REVOCATION_STR_LEN).
      unfold j', TOKEN_REVOCATION_STR_LEN in *. lia. }
    destruct (Nat.ltb_spec (active_count tr) SSO_MAX_CONCURRENT_SESSIONS) as [Hlt|Hge].
    + destruct (live_add tr j' Htr Hlt Hj') as [Htr' _]. simplify_eq. rewrite <- Hjt. simpl. split; [|done].
      apply (put_track t1 i tr _ (st_user_id tr)); try done. by unfold track_add, j' in *; rewrite cut_cut in Htr'.
    + assert (Ha : active_count tr = SSO_MAX_CONCURRENT_SESSIONS) by (destruct Htr as (_ & ? & _); lia).
      destruct (live_evict tr j' Htr Ha Hj') as (Htr' & _). rewrite <- Hjt.
      assert (Hput : tables_wf (set_sessions (<[i := track_evict tr j]> (sessions t1)) (session_cap t1) t1)).
      { apply (put_track t1 i tr _ (st_user_id tr)); try done. by unfold track_evict, j' in *; rewrite cut_cut in Htr'. }
      apply outcome_bind_inv in H as ([[e t2] s2] & H & Heq). cbn [fst snd] in Heq. injection Heq as <- <-.
      destruct (token_revoke_wf alloc (Some _) 0 _ s e t2 s2 Hput H) as [Hw Hp].
      split; [done|]. intros x Hx. by eapply elem_of_prefix.
  - by simplify_eq.
  - assert (Hn : ∀ l c, tables_wf (set_nonces l c t)) by (intros; constructor; apply Hwf).
    unfold token_set_nonce in H. destruct (nonce_loop _ _ _).
    { injection H as _ <-. split; [apply Hn|done]. }
    destruct (alloc _); simpl in H; injection H as _ <-; [split; [apply Hn|done]|done].
Qed.

(** A revocation lasts: once [token_revoke] has answered SSO_OK for a
    jti that fits its field, [token_is_revoked] answers true for it after
    any number of further revocations, queries, logins and nonce changes,
    with any storage backend. *)
Theorem token_revocation_lasts alloc jti ex t s t1 s1 t2 s2 :
  tables_wf t → (length jti < TOKEN_REVOCATION_STR_LEN)%nat →
  token_revoke storage alloc (Some jti) ex t s = Ret (SSO_OK, t1, s1) →
  rtc tables_step (t1, s1) (t2, s2) →
  ∃ t3, token_is_revoked storage (Some jti) t2 s2 = Ret (true, t3, s2).
Proof.
  intros Hwf Hj Hr Hsteps.
  assert (H1 : tables_wf t1 ∧ jti ∈ jtis t1).
  { split; [by eapply token_revoke_wf|]. unfold token_revoke in Hr. case_match.
    - apply outcome_bind_inv in Hr as ([r s9] & _ & H0). destruct (is_ok _) eqn:E; simpl in H0.
      + destruct (rev_append alloc jti t) as [e t'] eqn:Ea. simplify_eq. by eapply rev_append_in.
      + assert (e0 : err_of r = SSO_OK) by congruence. apply is_ok_true in e0. simpl in *. congruence.
    - destruct (rev_append alloc jti t) as [e t'] eqn:Ea. simplify_eq. by eapply rev_append_in. }
  assert (H2 : tables_wf t2 ∧ jti ∈ jtis t2).
  { change t2 with (t2, s2).1. change t1 with (t1, s1).1 in H1. revert H1. generalize (t2, s2), (t1, s1), Hsteps.
    clear. intros c2 c1 Hst. induction Hst as [|c1 c' c2 Hs _ IH]; [done|]. intros [Hw Hin]. apply IH.
    destruct (tables_step_keeps _ _ Hs Hw) as [Hw' Hsub]. split; [done|]. by apply Hsub. }
  destruct H2 as [Hw2 Hin2]. eexists. by apply is_revoked_in.
Qed.
End Lasting.

Lemma token_revocation_lasts_witness :
  ∃ t2 t3, rtc (tables_step (S := unit) None)
      (set_jtis [("a" : cstr)] 64 false empty_tables, tt) (t2, tt) ∧
    token_is_revoked (S := unit) None (Some ("a" : cstr)) t2 tt = Ret (true, t3, tt).
Proof.
  eexists (set_jtis [("a" : cstr); ("c" : cstr)] 64 false empty_tables).
  assert (Hst : rtc (tables_step (S := unit) None) (set_jtis [("a" : cstr)] 64 false empty_tables, tt)
                    (set_jtis [("a" : cstr); ("c" : cstr)] 64 false empty_tables, tt)).
  { eapply rtc_once, (step_revoke _ (λ _, true) (Some ("c" : cstr)) 0 _ tt SSO_OK). by vm_compute. }
  destruct (token_revocation_lasts (S := unit) None (λ _, true) ("a" : cstr) 9 empty_tables tt
    (set_jtis [("a" : cstr)] 64 false empty_tables) tt _ tt empty_tables_wf
    ltac:(unfold TOKEN_REVOCATION_STR_LEN; simpl; lia) ltac:(vm_compute; reflexivity) Hst) as (t3 & H3).
  exists t3. split; [exact Hst|exact H3].
Defined.

(** Logging a user out everywhere moves its nonce to the next value
    and leaves every other user's nonce, the revocation list and the
    sessions alone; when it fails it has changed nothing. *)
Theorem token_bump_nonce_exact alloc t u e t' :
  token_bump_nonce alloc t u = (e, t') →
  jtis t' = jtis t ∧ sessions t' = sessions t ∧
  (e = SSO_OK ∧ token_get_nonce t' u = u64 (token_get_nonce t u + 1) ∧
   ∀ v, v ≠ u → token_get_nonce t' v = token_get_nonce t v) ∨
  (e = SSO_ERR_OUT_OF_MEMORY ∧ t' = t).
Proof. apply token_set_nonce_spec. Qed.

Lemma token_bump_nonce_exact_witness :
  ∃ t', token_bump_nonce (λ _, true) empty_tables 7 = (SSO_OK, t') ∧ token_get_nonce t' 7 = 1.
Proof.
  exists (set_nonces [{| np_uid := 7; np_nonce := 1 |}] 16 empty_tables).
  destruct (token_bump_nonce_exact (λ _, true) empty_tables 7 SSO_OK
    (set_nonces [{| np_uid := 7; np_nonce := 1 |}] 16 empty_tables) ltac:(vm_compute; reflexivity))
    as [(_ & _ & _ & H & _)|[H _]]; [|discriminate H].
  split; [vm_compute; reflexivity|exact H].
Defined.
