(* ===== verification/Token.v ===== *)
(** * Token manager: keys, issuing and verifying (src/token.c)

    JWTs signed with HMAC-SHA256 or RSA-SHA256.  OpenSSL is the class
    [Crypto], the JSON writer of yyjson the class [JsonWriter], string
    interning the class [Interner]; random bytes and the clock are
    arguments.  Arrays and their counts are lists.  The payload is
    written by yyjson and read back by the hand-written scanners of this
    file. *)

From S2P Require Import Prelude CLib CNum Json Types Bits Base64 TokenState.

Definition SSO_MAX_TOKEN_STR : nat := 8 * 1024.
Definition SSO_KEY_ID_MAX : nat := 32.

Inductive sso_token_mode_t := SSO_TOKEN_MODE_HS256 | SSO_TOKEN_MODE_RS256 | SSO_TOKEN_MODE_CRYDI3.
#[global] Instance token_mode_eq_dec : EqDecision sso_token_mode_t.
Proof. solve_decision. Defined.

(** OpenSSL: HMAC-SHA256 of a key and a message; RSA keys, their reading
    from PEM text, signing and verifying ([None] is a failed call); the
    bytes of two key pointers, which HS256 code reads if it finds an RSA
    slot. *)
Class Crypto := {
  hmac_sha256 : list Z → list Z → list Z;
  pkey : Type;
  read_private : cstr → option pkey;
  read_public : cstr → option pkey;
  derive_public : pkey → option pkey;
  rsa_sign : pkey → cstr → option (list Z);
  rsa_verify : pkey → cstr → list Z → option bool;
  pointer_bytes : option pkey → option pkey → list Z
}.

(** SHA-256 digests have 32 bytes. *)
Class CryptoLaws `{Crypto} : Prop :=
  hmac_digest32 : ∀ key msg, length (hmac_sha256 key msg) = 32%nat ∧ words 8 (hmac_sha256 key msg).

(** [yyjson_mut_write]; [None] is a NULL return. *)
Class JsonWriter := yyjson_mut_write : json → option cstr.

(** [intern_string]: the interned text, [None] when out of memory. *)
Class Interner := intern_string : cstr → option cstr.

Definition bytes_of (s : cstr) : list Z := map ord s.
Definition text_of (l : list Z) : cstr := c_str (map chr l).

Section Keys.
Context `{Crypto}.

(** The key union of a slot. *)
Inductive slot_key := KSecret (secret : list Z) | KRsa (priv_key pub_key : option pkey).

Record key_slot_t := { kid : cstr; populated : bool; slot_mode : sso_token_mode_t; slot_keys : slot_key }.

Definition zero_slot : key_slot_t :=
  {| kid := []; populated := false; slot_mode := SSO_TOKEN_MODE_HS256; slot_keys := KSecret (replicate 32 0) |}.

Record token_manager := {
  tm_mode : sso_token_mode_t; slot0 : key_slot_t; slot1 : key_slot_t; active_slot : bool;
  rotation_counter : Z; default_ttl_ms : Z; tables : token_tables
}.

(** [slots[i]]: the index is 0 or 1. *)
Definition slot_at (m : token_manager) (i : bool) : key_slot_t := if i then slot1 m else slot0 m.
Definition set_slot (m : token_manager) (i : bool) (s : key_slot_t) : token_manager :=
  {| tm_mode := tm_mode m; slot0 := if i then slot0 m else s; slot1 := if i then s else slot1 m;
     active_slot := active_slot m; rotation_counter := rotation_counter m;
     default_ttl_ms := default_ttl_ms m; tables := tables m |}.
Definition set_active (m : token_manager) (i : bool) : token_manager :=
  {| tm_mode := tm_mode m; slot0 := slot0 m; slot1 := slot1 m; active_slot := i;
     rotation_counter := rotation_counter m; default_ttl_ms := default_ttl_ms m; tables := tables m |}.
Definition set_counter (m : token_manager) (c : Z) : token_manager :=
  {| tm_mode := tm_mode m; slot0 := slot0 m; slot1 := slot1 m; active_slot := active_slot m;
     rotation_counter := c; default_ttl_ms := default_ttl_ms m; tables := tables m |}.

(** [memcpy(slot->key.secret, secret, copy_len)] into a zeroed union. *)
Definition secret_bytes (secret : list Z) : list Z :=
  take 32 secret ++ replicate (32 - length secret) 0.

(** [snprintf(slot->kid, sizeof(slot->kid), "sso-key-%u", n)] *)
Definition kid_text (n : Z) : cstr := take (SSO_KEY_ID_MAX - 1) (("sso-key-" : cstr) ++ print_dec (u32 n)).

Definition hs256_slot (k : cstr) (secret : list Z) : key_slot_t :=
  {| kid := k; populated := true; slot_mode := SSO_TOKEN_MODE_HS256; slot_keys := KSecret (secret_bytes secret) |}.

Definition token_manager_init (secret : list Z) (ttl : Z) : sso_error_t * option token_manager :=
  match secret with
  | [] => (SSO_ERR_INVALID_PARAM, None)
  | _ => (SSO_OK, Some {| tm_mode := SSO_TOKEN_MODE_HS256; slot0 := hs256_slot "sso-key-1" secret;
                          slot1 := zero_slot; active_slot := false; rotation_counter := 1;
                          default_ttl_ms := ttl; tables := empty_tables |})
  end.

(** [load_rsa_slot]: the slot and the error. *)
Definition load_rsa_slot (k : cstr) (mode : sso_token_mode_t) (priv_key_pem : cstr) (pub_key_pem : option cstr)
  : sso_error_t * key_slot_t :=
  let slot p q ok := {| kid := k; populated := ok; slot_mode := mode; slot_keys := KRsa p q |} in
  match read_private priv_key_pem with
  | None => (SSO_ERR_INIT, slot None None false)
  | Some priv =>
      match match pub_key_pem with Some pem => read_public pem | None => derive_public priv end with
      | None => (SSO_ERR_INIT, slot None None false)
      | Some pub => (SSO_OK, slot (Some priv) (Some pub) true)
      end
  end.

Definition token_manager_init_rs256 (priv_key_pem pub_key_pem : option cstr) (ttl : Z)
  : sso_error_t * option token_manager :=
  match priv_key_pem with
  | None => (SSO_ERR_INVALID_PARAM, None)
  | Some priv =>
      let '(e, s) := load_rsa_slot "sso-key-1" SSO_TOKEN_MODE_RS256 priv pub_key_pem in
      (e, Some {| tm_mode := SSO_TOKEN_MODE_RS256; slot0 := s; slot1 := zero_slot; active_slot := false;
                  rotation_counter := 1; default_ttl_ms := ttl; tables := empty_tables |})
  end.

(** [populate_slot_rs256]: the kid is written only on success. *)
Definition populate_slot_rs256 (priv_key_pem : cstr) (pub_key_pem : option cstr) (kid_num : Z)
  : sso_error_t * key_slot_t :=
  let '(e, s) := load_rsa_slot [] SSO_TOKEN_MODE_RS256 priv_key_pem pub_key_pem in
  if is_ok e
  then (e, {| kid := kid_text kid_num; populated := populated s; slot_mode := slot_mode s; slot_keys := slot_keys s |})
  else (e, s).

(** [atomic_fetch_add(&rotation_counter, 1) + 1] on an unsigned counter. *)
Definition next_kid (m : token_manager) : Z := u32 (rotation_counter m + 1).

Definition token_manager_init_standby (m : token_manager) (secret : list Z) : sso_error_t * token_manager :=
  match secret with
  | [] => (SSO_ERR_INVALID_PARAM, m)
  | _ => (SSO_OK, set_slot (set_counter m (next_kid m)) true (hs256_slot (kid_text (next_kid m)) secret))
  end.

Definition token_manager_init_rs256_standby (m : token_manager) (priv_key_pem pub_key_pem : option cstr)
  : sso_error_t * token_manager :=
  match priv_key_pem with
  | None => (SSO_ERR_INVALID_PARAM, m)
  | Some priv =>
      let '(e, s) := populate_slot_rs256 priv pub_key_pem (next_kid m) in
      (e, set_slot (set_counter m (next_kid m)) true s)
  end.

Definition token_manager_rotate_key (m : token_manager) (new_secret : list Z) : sso_error_t * token_manager :=
  match new_secret with
  | [] => (SSO_ERR_INVALID_PARAM, m)
  | _ =>
      let standby := negb (active_slot m) in
      (SSO_OK, set_active (set_slot (set_counter m (next_kid m)) standby
                             (hs256_slot (kid_text (next_kid m)) new_secret)) standby)
  end.

Definition token_manager_rotate_key_rs256 (m : token_manager) (priv_key_pem pub_key_pem : option cstr)
  : sso_error_t * token_manager :=
  match priv_key_pem with
  | None => (SSO_ERR_INVALID_PARAM, m)
  | Some priv =>
      let standby := negb (active_slot m) in
      let '(e, s) := populate_slot_rs256 priv pub_key_pem (next_kid m) in
      let m := set_slot (set_counter m (next_kid m)) standby s in
      if is_ok e then (SSO_OK, set_active m standby) else (e, m)
  end.

Definition token_manager_get_active_kid (m : token_manager) : option cstr :=
  let s := slot_at m (active_slot m) in if populated s then Some (kid s) else None.

Definition token_manager_get_slot_count (m : token_manager) : nat :=
  (if populated (slot0 m) then 1 else 0) + (if populated (slot1 m) then 1 else 0).

(** [slot_index_by_kid] *)
Definition slot_index_by_kid (m : token_manager) (k : cstr) : option bool :=
  if populated (slot0 m) && strcmp_eq (kid (slot0 m)) k then Some false
  else if populated (slot1 m) && strcmp_eq (kid (slot1 m)) k then Some true
  else None.

(** The 32 bytes HS256 code reads as the secret of a slot. *)
Definition slot_secret (s : key_slot_t) : list Z :=
  match slot_keys s with KSecret b => b | KRsa p q => pointer_bytes p q end.

(** The keys RS256 code finds in a slot; those of an HS256 slot are its
    secret read as pointers, invalid unless they are zero. *)
Definition slot_private (s : key_slot_t) : outcome (option pkey) :=
  match slot_keys s with
  | KRsa p _ => Ret p
  | KSecret b => if forallb (Z.eqb 0) (take 8 b) then Ret None else Crash
  end.
Definition slot_public (s : key_slot_t) : outcome (option pkey) :=
  match slot_keys s with
  | KRsa _ q => Ret q
  | KSecret b => if forallb (Z.eqb 0) (take 8 (drop 8 b)) then Ret None else Crash
  end.

End Keys.

(* ------------------------------------------------------------------ *)
(** ** Tokens *)

Record token_t := {
  token_str : cstr; tk_jti : cstr; tk_user_id : Z; tk_issued_at : Z; tk_expires_at : Z;
  tk_role_ids : list Z; tk_group_ids : list Z; tk_nonce : Z; oauth_nonce : cstr; tk_scope : cstr;
  tk_jkt : cstr; raw_refresh_token : cstr
}.

Definition zero_token : token_t :=
  {| token_str := []; tk_jti := []; tk_user_id := 0; tk_issued_at := 0; tk_expires_at := 0;
     tk_role_ids := []; tk_group_ids := []; tk_nonce := 0; oauth_nonce := []; tk_scope := [];
     tk_jkt := []; raw_refresh_token := [] |}.

(** [token_destroy] *)
Definition token_destroy (t : token_t) : token_t :=
  {| token_str := token_str t; tk_jti := tk_jti t; tk_user_id := tk_user_id t; tk_issued_at := tk_issued_at t;
     tk_expires_at := tk_expires_at t; tk_role_ids := []; tk_group_ids := []; tk_nonce := tk_nonce t;
     oauth_nonce := oauth_nonce t; tk_scope := tk_scope t; tk_jkt := tk_jkt t;
     raw_refresh_token := raw_refresh_token t |}.

Definition with_str (s : cstr) (t : token_t) : token_t :=
  {| token_str := s; tk_jti := tk_jti t; tk_user_id := tk_user_id t; tk_issued_at := tk_issued_at t;
     tk_expires_at := tk_expires_at t; tk_role_ids := tk_role_ids t; tk_group_ids := tk_group_ids t;
     tk_nonce := tk_nonce t; oauth_nonce := oauth_nonce t; tk_scope := tk_scope t; tk_jkt := tk_jkt t;
     raw_refresh_token := raw_refresh_token t |}.
Definition with_refresh (s : cstr) (t : token_t) : token_t :=
  {| token_str := token_str t; tk_jti := tk_jti t; tk_user_id := tk_user_id t; tk_issued_at := tk_issued_at t;
     tk_expires_at := tk_expires_at t; tk_role_ids := tk_role_ids t; tk_group_ids := tk_group_ids t;
     tk_nonce := tk_nonce t; oauth_nonce := oauth_nonce t; tk_scope := tk_scope t; tk_jkt := tk_jkt t;
     raw_refresh_token := s |}.

(** [snprintf(out->jti, 64, "%llx%02x...%02x", issued_at, rand_bytes...)] *)
Definition jti_text (issued_at : Z) (rand_bytes : list Z) : cstr :=
  take 63 (print_hex (u64 issued_at) ++ concat (map (λ b, zero_pad 2 (print_hex b)) rand_bytes)).

Definition alg_str (mode : sso_token_mode_t) : cstr :=
  match mode with
  | SSO_TOKEN_MODE_HS256 => "HS256" | SSO_TOKEN_MODE_RS256 => "RS256" | SSO_TOKEN_MODE_CRYDI3 => "CRYDI3"
  end.

Definition key (s : string) : list ascii := s.

(** The JWT header. *)
Definition header_json (mode : sso_token_mode_t) (k : cstr) : json :=
  JObj [(key "alg", JStr (alg_str mode)); (key "typ", JStr ("JWT" : cstr)); (key "kid", JStr k)].

(** The optional members of the payload; a NULL interned scope is not
    added. *)
Definition scope_member `{Interner} (s : cstr) : list (list ascii * json) :=
  match s with
  | [] => []
  | _ => match intern_string s with Some i => [(key "scope", JStr i)] | None => [] end
  end.
Definition nonce_member (n : cstr) : list (list ascii * json) :=
  match n with [] => [] | _ => [(key "nonce", JStr n)] end.
Definition groups_member (g : list Z) : list (list ascii * json) :=
  match g with [] => [] | _ => [(key "groups", JArr (map JUint g))] end.
Definition cnf_member (j : cstr) : list (list ascii * json) :=
  match j with [] => [] | _ => [(key "cnf", JObj [(key "jkt", JStr j)])] end.

(** The JWT payload. *)
Definition payload_json `{Interner} (t : token_t) : json :=
  JObj ([(key "jti", JStr (tk_jti t)); (key "sub", JUint (u64 (tk_user_id t)));
         (key "iat", JUint (u64 (tk_issued_at t))); (key "exp", JUint (u64 (tk_expires_at t)));
         (key "tnc", JUint (u64 (tk_nonce t))); (key "iss", JStr ("sso-server" : cstr));
         (key "aud", JStr ("sso-api" : cstr))]
        ++ scope_member (tk_scope t) ++ nonce_member (oauth_nonce t)
        ++ [(key "roles", JArr (map JUint (tk_role_ids t)))]
        ++ groups_member (tk_group_ids t) ++ cnf_member (tk_jkt t)).

(** [(ttl_ms > 0) ? ttl_ms : (ttl_ms == 0 ? default_ttl_ms : ttl_ms)] *)
Definition actual_ttl (ttl_ms default_ttl : Z) : Z :=
  if 0 <? ttl_ms then ttl_ms else if ttl_ms =? 0 then default_ttl else ttl_ms.

Section Issue.
Context `{Crypto} `{JsonWriter} `{Interner}.
Context (alloc : Z → bool).

(** The signature appended to the signing input; [None] is a failure. *)
Definition sign (m : token_manager) (signing_input : cstr) : outcome (option cstr) :=
  let slot := slot_at m (active_slot m) in
  match tm_mode m with
  | SSO_TOKEN_MODE_HS256 =>
      Ret (Some (base64url_encode (hmac_sha256 (slot_secret slot) (bytes_of signing_input)) 129))
  | SSO_TOKEN_MODE_CRYDI3 =>
      if negb (alloc 3293) || negb (alloc 6588) then Ret None
      else Ret (Some (base64url_encode (replicate 3293 170) 6588))
  | SSO_TOKEN_MODE_RS256 =>
      priv ← slot_private slot;
      match priv ≫= λ p, rsa_sign p signing_input with
      | None => Ret None
      | Some sig =>
          let n := length sig in
          if negb (alloc (Z.of_nat n)) || negb (alloc (Z.of_nat (n * 2 + 2))) then Ret None
          else Ret (Some (base64url_encode sig (n * 2 + 2)))
      end
  end.

(** The fields [token_issue] fills in before it builds the text. *)
Definition issue_claims (m : token_manager) (user_id : Z) (role_ids group_ids : list Z) (scope : option cstr)
    (ttl_ms : Z) (dpop_jkt : option cstr) (now : Z) (rand8 : list Z) : token_t :=
  {| token_str := []; tk_jti := jti_text now rand8; tk_user_id := user_id; tk_issued_at := now;
     tk_expires_at := now + actual_ttl ttl_ms (default_ttl_ms m); tk_role_ids := role_ids;
     tk_group_ids := group_ids; tk_nonce := token_get_nonce (tables m) user_id; oauth_nonce := [];
     tk_scope := sso_strlcpy scope 256; tk_jkt := sso_strlcpy dpop_jkt 64; raw_refresh_token := [] |}.

(** [token_issue] for a user id; [now] is the clock, [rand8] and [rand32]
    the random bytes of the jti and of the refresh token. *)
Definition token_issue (m : token_manager) (user_id : Z) (role_ids group_ids : list Z) (scope : option cstr)
    (ttl_ms : Z) (dpop_jkt : option cstr) (now : Z) (rand8 rand32 : list Z) : outcome (sso_error_t * token_t) :=
  let expires_at := now + actual_ttl ttl_ms (default_ttl_ms m) in
  if negb (s64 expires_at =? expires_at) then Crash
  else
    let out := issue_claims m user_id role_ids group_ids scope ttl_ms dpop_jkt now rand8 in
    let oom := Ret (SSO_ERR_OUT_OF_MEMORY, token_destroy out) in
    if match role_ids with [] => false | _ => negb (alloc (Z.of_nat (length role_ids) * 8)) end then oom
    else if match group_ids with [] => false | _ => negb (alloc (Z.of_nat (length group_ids) * 8)) end then oom
    else
      match yyjson_mut_write (header_json (tm_mode m) (kid (slot_at m (active_slot m)))) with
      | None => Crash
      | Some header_str =>
          let b64_header := base64url_encode (bytes_of header_str) 256 in
          match yyjson_mut_write (payload_json out) with
          | None => oom
          | Some payload_str =>
              if negb (alloc 2048) || negb (alloc 2560) then oom
              else
                let b64_payload := base64url_encode (bytes_of payload_str) 2048 in
                let signing_input := take 2559 (b64_header ++ "."%char :: b64_payload) in
                let out := with_refresh (base64url_encode rand32 128) out in
                sig ← sign m signing_input;
                match sig with
                | None => Ret (SSO_ERR_INIT, token_destroy out)
                | Some sig_b64 =>
                    Ret (SSO_OK, with_str (take (SSO_MAX_TOKEN_STR - 1) (signing_input ++ "."%char :: sig_b64)) out)
                end
          end
      end.

(** [token_refresh]: the binding passed on is read from [out->jkt], which
    [token_issue] clears before it is used. *)
Definition token_refresh (m : token_manager) (old_token : token_t) (ttl_ms : Z) (now : Z) (rand8 rand32 : list Z)
  : outcome (sso_error_t * token_t) :=
  token_issue m (tk_user_id old_token) (tk_role_ids old_token) (tk_group_ids old_token) (Some (tk_scope old_token))
    (if 0 <? ttl_ms then ttl_ms else default_ttl_ms m) (Some []) now rand8 rand32.

End Issue.

(* ------------------------------------------------------------------ *)
(** ** The payload scanner *)

Definition QUOTE : ascii := chr 34.
Definition not_quote (c : ascii) : bool := negb (Ascii.eqb c QUOTE).
Definition is_ws (c : ascii) : bool := char_in [" "%char; chr 9; chr 10; chr 13] c.
Definition hd_is (c : ascii) (p : cstr) : bool := match p with x :: _ => Ascii.eqb x c | [] => false end.
Definition hd_digit (p : cstr) : bool := match p with x :: _ => is_digit x | [] => false end.

(** The head of both scanners' loops: find a quoted key and the start of
    its value. *)
Inductive key_scan := KStop | KSkip (p : cstr) | KValue (k p : cstr).

Definition scan_key (p : cstr) : key_scan :=
  match skip_while not_quote p with
  | [] => KStop
  | _ :: p =>
      let k := take_while not_quote p in
      match skip_while not_quote p with
      | [] => KStop
      | _ :: p =>
          match p with
          | [] => KStop
          | _ =>
              match skip_while is_ws p with
              | c :: p' =>
                  if Ascii.eqb c ":" then
                    match skip_while is_ws p' with [] => KStop | v => KValue k v end
                  else KSkip (c :: p')
              | [] => KSkip []
              end
          end
      end
  end.

(** A quoted value after its opening quote: text and rest. *)
Definition quoted (p : cstr) : cstr * cstr := (take_while not_quote p, tl (skip_while not_quote p)).

(** [if (vlen < sizeof(field)) { memcpy; field[vlen] = 0; }] *)
Definition copy_field (v : cstr) (size : nat) (old : cstr) : cstr :=
  if (length v <? size)%nat then v else old.

(** The id loop of the roles and groups arrays. *)
Fixpoint ids_loop (fuel : nat) (p : cstr) (ids : list Z) : list Z * cstr :=
  match fuel with
  | O => (ids, p)
  | S fuel' =>
      match p with
      | [] => (ids, p)
      | c :: _ =>
          if Ascii.eqb c "]" || (64 <=? length ids)%nat then (ids, p)
          else
            let p := skip_while (λ c, is_ws c || Ascii.eqb c ",") p in
            if hd_digit p then let '(v, p) := strtoull p in ids_loop fuel' p (ids ++ [v])
            else (ids, p)
      end
  end.

(** An id array after its opening bracket: the ids, if any, and the rest
    after the closing bracket. *)
Definition id_array (p : cstr) : list Z * cstr :=
  let '(ids, p) := ids_loop (S (length p)) p [] in
  (ids, tl (skip_while (λ c, negb (Ascii.eqb c "]")) p)).

(** The loop over the members of the confirmation object; running past
    the end of the text is undefined behaviour. *)
Fixpoint cnf_loop (fuel : nat) (p : cstr) (jkt : cstr) : outcome (cstr * cstr) :=
  match fuel with
  | O => Diverge
  | S fuel' =>
      match p with
      | [] => Ret (jkt, p)
      | c :: _ =>
          if Ascii.eqb c "}" then Ret (jkt, p)
          else
            match skip_while (λ c, not_quote c && negb (Ascii.eqb c "}")) p with
            | [] => Crash
            | c :: p =>
                if Ascii.eqb c "}" then Ret (jkt, c :: p)
                else
                  let ikey := take_while not_quote p in
                  let p := tl (skip_while not_quote p) in
                  let p := skip_while (λ c, Ascii.eqb c " " || Ascii.eqb c ":") p in
                  let '(jkt, p) :=
                    if bool_decide (ikey = ("jkt" : cstr)) && hd_is QUOTE p then
                      let '(v, p) := quoted (tl p) in (copy_field v 64 jkt, p)
                    else if hd_is QUOTE p then (jkt, (quoted (tl p)).2)
                    else (jkt, skip_while (λ c, negb (Ascii.eqb c ",") && negb (Ascii.eqb c "}")) p) in
                  cnf_loop fuel' (skip_while (λ c, Ascii.eqb c " " || Ascii.eqb c ",") p) jkt
            end
      end
  end.

(** The claims read so far, with the flags of the required ones. *)
Record claims := { cl_token : token_t; found_sub : bool; found_exp : bool }.

Definition upd (f : token_t → token_t) (c : claims) : claims :=
  {| cl_token := f (cl_token c); found_sub := found_sub c; found_exp := found_exp c |}.

Definition set_jti (v : cstr) (t : token_t) : token_t :=
  {| token_str := token_str t; tk_jti := copy_field v 64 (tk_jti t); tk_user_id := tk_user_id t;
     tk_issued_at := tk_issued_at t; tk_expires_at := tk_expires_at t; tk_role_ids := tk_role_ids t;
     tk_group_ids := tk_group_ids t; tk_nonce := tk_nonce t; oauth_nonce := oauth_nonce t;
     tk_scope := tk_scope t; tk_jkt := tk_jkt t; raw_refresh_token := raw_refresh_token t |}.
Definition set_sub (v : Z) (t : token_t) : token_t :=
  {| token_str := token_str t; tk_jti := tk_jti t; tk_user_id := v; tk_issued_at := tk_issued_at t;
     tk_expires_at := tk_expires_at t; tk_role_ids := tk_role_ids t; tk_group_ids := tk_group_ids t;
     tk_nonce := tk_nonce t; oauth_nonce := oauth_nonce t; tk_scope := tk_scope t; tk_jkt := tk_jkt t;
     raw_refresh_token := raw_refresh_token t |}.
Definition set_iat (v : Z) (t : token_t) : token_t :=
  {| token_str := token_str t; tk_jti := tk_jti t; tk_user_id := tk_user_id t; tk_issued_at := s64 v;
     tk_expires_at := tk_expires_at t; tk_role_ids := tk_role_ids t; tk_group_ids := tk_group_ids t;
     tk_nonce := tk_nonce t; oauth_nonce := oauth_nonce t; tk_scope := tk_scope t; tk_jkt := tk_jkt t;
     raw_refresh_token := raw_refresh_token t |}.
Definition set_exp (v : Z) (t : token_t) : token_t :=
  {| token_str := token_str t; tk_jti := tk_jti t; tk_user_id := tk_user_id t; tk_issued_at := tk_issued_at t;
     tk_expires_at := s64 v; tk_role_ids := tk_role_ids t; tk_group_ids := tk_group_ids t;
     tk_nonce := tk_nonce t; oauth_nonce := oauth_nonce t; tk_scope := tk_scope t; tk_jkt := tk_jkt t;
     raw_refresh_token := raw_refresh_token t |}.
Definition set_tnc (v : Z) (t : token_t) : token_t :=
  {| token_str := token_str t; tk_jti := tk_jti t; tk_user_id := tk_user_id t; tk_issued_at := tk_issued_at t;
     tk_expires_at := tk_expires_at t; tk_role_ids := tk_role_ids t; tk_group_ids := tk_group_ids t;
     tk_nonce := v; oauth_nonce := oauth_nonce t; tk_scope := tk_scope t; tk_jkt := tk_jkt t;
     raw_refresh_token := raw_refresh_token t |}.
Definition set_scope (v : cstr) (t : token_t) : token_t :=
  {| token_str := token_str t; tk_jti := tk_jti t; tk_user_id := tk_user_id t; tk_issued_at := tk_issued_at t;
     tk_expires_at := tk_expires_at t; tk_role_ids := tk_role_ids t; tk_group_ids := tk_group_ids t;
     tk_nonce := tk_nonce t; oauth_nonce := oauth_nonce t; tk_scope := copy_field v 256 (tk_scope t);
     tk_jkt := tk_jkt t; raw_refresh_token := raw_refresh_token t |}.
Definition set_oauth_nonce (v : cstr) (t : token_t) : token_t :=
  {| token_str := token_str t; tk_jti := tk_jti t; tk_user_id := tk_user_id t; tk_issued_at := tk_issued_at t;
     tk_expires_at := tk_expires_at t; tk_role_ids := tk_role_ids t; tk_group_ids := tk_group_ids t;
     tk_nonce := tk_nonce t; oauth_nonce := copy_field v 128 (oauth_nonce t); tk_scope := tk_scope t;
     tk_jkt := tk_jkt t; raw_refresh_token := raw_refresh_token t |}.
Definition set_roles (v : list Z) (t : token_t) : token_t :=
  {| token_str := token_str t; tk_jti := tk_jti t; tk_user_id := tk_user_id t; tk_issued_at := tk_issued_at t;
     tk_expires_at := tk_expires_at t; tk_role_ids := v; tk_group_ids := tk_group_ids t;
     tk_nonce := tk_nonce t; oauth_nonce := oauth_nonce t; tk_scope := tk_scope t; tk_jkt := tk_jkt t;
     raw_refresh_token := raw_refresh_token t |}.
Definition set_groups (v : list Z) (t : token_t) : token_t :=
  {| token_str := token_str t; tk_jti := tk_jti t; tk_user_id := tk_user_id t; tk_issued_at := tk_issued_at t;
     tk_expires_at := tk_expires_at t; tk_role_ids := tk_role_ids t; tk_group_ids := v; tk_nonce := tk_nonce t;
     oauth_nonce := oauth_nonce t; tk_scope := tk_scope t; tk_jkt := tk_jkt t;
     raw_refresh_token := raw_refresh_token t |}.
Definition set_jkt (v : cstr) (t : token_t) : token_t :=
  {| token_str := token_str t; tk_jti := tk_jti t; tk_user_id := tk_user_id t; tk_issued_at := tk_issued_at t;
     tk_expires_at := tk_expires_at t; tk_role_ids := tk_role_ids t; tk_group_ids := tk_group_ids t;
     tk_nonce := tk_nonce t; oauth_nonce := oauth_nonce t; tk_scope := tk_scope t; tk_jkt := v;
     raw_refresh_token := raw_refresh_token t |}.

Section Scan.
Context (alloc : Z → bool).

(** An id array is kept when it is not empty and malloc succeeds. *)
Definition store_ids (ids : list Z) (set : list Z → token_t → token_t) (c : claims) : claims :=
  match ids with
  | [] => c
  | _ => if alloc (Z.of_nat (length ids) * 8) then upd (set ids) c else c
  end.

(** The switch on the key: the claims and the rest of the text. *)
Definition scan_value (k p : cstr) (c : claims) : outcome (claims * cstr) :=
  let number (set : Z → token_t → token_t) := let '(v, p) := strtoull p in Ret (upd (set v) c, p) in
  let str (set : cstr → token_t → token_t) := let '(v, p) := quoted (tl p) in Ret (upd (set v) c, p) in
  if bool_decide (k = ("jti" : cstr)) && hd_is QUOTE p then str set_jti
  else if bool_decide (k = ("sub" : cstr)) && hd_digit p then
    let '(v, p) := strtoull p in
    Ret ({| cl_token := set_sub v (cl_token c); found_sub := true; found_exp := found_exp c |}, p)
  else if bool_decide (k = ("iat" : cstr)) && hd_digit p then number set_iat
  else if bool_decide (k = ("exp" : cstr)) && hd_digit p then
    let '(v, p) := strtoull p in
    Ret ({| cl_token := set_exp v (cl_token c); found_sub := found_sub c; found_exp := true |}, p)
  else if bool_decide (k = ("tnc" : cstr)) && hd_digit p then number set_tnc
  else if bool_decide (k = ("cnf" : cstr)) && hd_is "{" p then
    '(jkt, p) ← cnf_loop (S (length p)) (tl p) (tk_jkt (cl_token c));
    Ret (upd (set_jkt jkt) c, if hd_is "}" p then tl p else p)
  else if bool_decide (k = ("scope" : cstr)) && hd_is QUOTE p then str set_scope
  else if bool_decide (k = ("nonce" : cstr)) && hd_is QUOTE p then str set_oauth_nonce
  else if bool_decide (k = ("roles" : cstr)) && hd_is "[" p then
    let '(ids, p) := id_array (tl p) in Ret (store_ids ids set_roles c, p)
  else if bool_decide (k = ("groups" : cstr)) && hd_is "[" p then
    let '(ids, p) := id_array (tl p) in Ret (store_ids ids set_groups c, p)
  else Ret (c, p).

(** The main loop; every round consumes a quote. *)
Fixpoint scan_loop (fuel : nat) (p : cstr) (c : claims) : outcome claims :=
  match fuel with
  | O => Diverge
  | S fuel' =>
      match p with
      | [] => Ret c
      | _ =>
          match scan_key p with
          | KStop => Ret c
          | KSkip p => scan_loop fuel' p c
          | KValue k p => '(c, p) ← scan_value k p c; scan_loop fuel' p c
          end
      end
  end.

Definition scan_jwt_payload (json : cstr) (out : token_t) : outcome (sso_error_t * token_t) :=
  c ← scan_loop (S (length json)) json {| cl_token := out; found_sub := false; found_exp := false |};
  Ret (if found_sub c && found_exp c then SSO_OK else SSO_ERR_TOKEN_INVALID, cl_token c).

End Scan.

(** The nested value skip of [scan_header_kid]: the text from the bracket
    that closes depth [depth] on. *)
Fixpoint depth_loop (p : cstr) (depth : Z) : cstr :=
  match p with
  | [] => []
  | c :: p' =>
      let depth := if Ascii.eqb c "{" || Ascii.eqb c "[" then depth + 1
                   else if Ascii.eqb c "}" || Ascii.eqb c "]" then depth - 1 else depth in
      if 0 <? depth then depth_loop p' depth else p
  end.

(** Skipping a value of the header. *)
Definition skip_value (p : cstr) : cstr :=
  match p with
  | [] => []
  | c :: p' =>
      if Ascii.eqb c QUOTE then (quoted p').2
      else if Ascii.eqb c "{" || Ascii.eqb c "[" then tl (depth_loop p' 1)
      else skip_while (λ c, negb (Ascii.eqb c ",") && negb (Ascii.eqb c "}")) p
  end.

Fixpoint kid_loop (fuel : nat) (p : cstr) (kid_max : nat) : cstr :=
  match fuel with
  | O => []
  | S fuel' =>
      match scan_key p with
      | KStop => []
      | KSkip p => kid_loop fuel' p kid_max
      | KValue k p =>
          if bool_decide (k = ("kid" : cstr)) && hd_is QUOTE p
          then copy_field (quoted (tl p)).1 kid_max []
          else kid_loop fuel' (skip_while (λ c, is_ws c || Ascii.eqb c ",") (skip_value p)) kid_max
      end
  end.

Definition scan_header_kid (json : cstr) (kid_max : nat) : cstr := kid_loop (S (length json)) json kid_max.

(* ------------------------------------------------------------------ *)
(** ** Verifying *)

(** [sscanf(sig_part + i * 2, "%02x", &val)] for the pairs of a hex text. *)
Fixpoint hex_pairs (s : cstr) : list Z :=
  match s with
  | a :: b :: s' => hex_digits_val [a; b] :: hex_pairs s'
  | _ => []
  end.

Section Verify.
Context `{Crypto}.
Context (alloc : Z → bool).

(** One candidate slot of the HS256 check. *)
Definition hs256_matches (slot : key_slot_t) (legacy_hex : bool) (signing_input sig_part : cstr) : bool :=
  populated slot &&
  let mac := hmac_sha256 (slot_secret slot) (bytes_of signing_input) in
  strcmp_eq sig_part (if legacy_hex then to_hex mac 129 else base64url_encode mac 129).

(** The HS256 branch: the slot the header names, or the active slot and
    then the other one. *)
Definition verify_hs256 (m : token_manager) (header_kid signing_input sig_part : cstr) : bool :=
  let legacy_hex := is_hex_str sig_part in
  match header_kid with
  | [] =>
      hs256_matches (slot_at m (active_slot m)) legacy_hex signing_input sig_part ||
      hs256_matches (slot_at m (negb (active_slot m))) legacy_hex signing_input sig_part
  | _ =>
      match slot_index_by_kid m header_kid with
      | None => false
      | Some i => hs256_matches (slot_at m i) legacy_hex signing_input sig_part
      end
  end.

(** The RS256 branch. *)
Definition verify_rs256 (m : token_manager) (header_kid signing_input sig_part : cstr) : outcome sso_error_t :=
  match match header_kid with [] => Some (active_slot m) | _ => slot_index_by_kid m header_kid end with
  | None => Ret SSO_ERR_TOKEN_INVALID
  | Some i =>
      let slot := slot_at m i in
      if negb (populated slot) then Ret SSO_ERR_TOKEN_INVALID
      else
        pub ← slot_public slot;
        match pub with
        | None => Ret SSO_ERR_TOKEN_INVALID
        | Some pub =>
            let n := length sig_part in
            let '(room, sig) :=
              if is_hex_str sig_part then ((n / 2)%nat, hex_pairs sig_part)
              else ((n / 4 * 3 + 4)%nat, base64url_decode sig_part (n / 4 * 3 + 4)) in
            if negb (alloc (Z.of_nat room)) then Ret SSO_ERR_TOKEN_INVALID
            else
              match rsa_verify pub signing_input sig with
              | None => Ret SSO_ERR_INIT
              | Some true => Ret SSO_OK
              | Some false => Ret SSO_ERR_TOKEN_INVALID
              end
        end
  end.

(** The signature check of the manager's mode. *)
Definition verify_signature (m : token_manager) (header_kid signing_input sig_part : cstr) : outcome sso_error_t :=
  match tm_mode m with
  | SSO_TOKEN_MODE_HS256 =>
      Ret (if verify_hs256 m header_kid signing_input sig_part then SSO_OK else SSO_ERR_TOKEN_INVALID)
  | SSO_TOKEN_MODE_CRYDI3 =>
      Ret (if (length sig_part <? 100)%nat then SSO_ERR_TOKEN_INVALID else SSO_OK)
  | SSO_TOKEN_MODE_RS256 => verify_rs256 m header_kid signing_input sig_part
  end.

(** [strchr] split: the text before the first dot and after it. *)
Definition split_dot (s : cstr) : option (cstr * cstr) :=
  i ← strchr s "."; Some (take i s, drop (S i) s).

(** The kid of the decoded header; [""] when it decodes to nothing. *)
Definition header_kid_of (b64_header : cstr) : cstr :=
  match base64url_decode b64_header 511 with
  | [] => []
  | l => scan_header_kid (text_of l) SSO_KEY_ID_MAX
  end.

(** [token_verify_internal] at time [now]. *)
Definition token_verify_internal (m : token_manager) (s : cstr) (now : Z) : outcome (sso_error_t * token_t) :=
  let out := with_str (sso_strlcpy (Some s) SSO_MAX_TOKEN_STR) zero_token in
  match split_dot s with
  | None => Ret (SSO_ERR_TOKEN_INVALID, out)
  | Some (b64_header, rest) =>
      match split_dot rest with
      | None => Ret (SSO_ERR_TOKEN_INVALID, out)
      | Some (b64_payload, sig_part) =>
          if negb (alloc 2048) || negb (alloc 2560) || negb (alloc 4096) then Ret (SSO_ERR_OUT_OF_MEMORY, out)
          else if (128 <=? length b64_header)%nat || (2048 <=? length b64_payload)%nat
          then Ret (SSO_ERR_TOKEN_INVALID, out)
          else
            let signing_input := take 2559 (b64_header ++ "."%char :: b64_payload) in
            e ← verify_signature m (header_kid_of b64_header) signing_input sig_part;
            if negb (is_ok e) then Ret (e, out)
            else
              match base64url_decode b64_payload 4095 with
              | [] => Ret (SSO_ERR_TOKEN_INVALID, out)
              | decoded =>
                  '(scan_err, out) ← scan_jwt_payload alloc (text_of decoded) out;
                  if negb (is_ok scan_err) then Ret (scan_err, out)
                  else if tk_expires_at out <? now then Ret (SSO_ERR_TOKEN_EXPIRED, token_destroy out)
                  else Ret (SSO_OK, out)
              end
      end
  end.

(** [token_verify]; the NULL tests are those of the internal function. *)
Definition token_verify (m : token_manager) (s : option cstr) (now : Z) : outcome (sso_error_t * token_t) :=
  match s with
  | None => Ret (SSO_ERR_INVALID_PARAM, zero_token)
  | Some s => token_verify_internal m s now
  end.

End Verify.

(* ================================================================== *)
(** ** What the JSON writer promises *)

Definition quote (s : cstr) : cstr := QUOTE :: s ++ [QUOTE].

Fixpoint join (sep : ascii) (l : list cstr) : cstr :=
  match l with [] => [] | [x] => x | x :: l' => x ++ sep :: join sep l' end.

(** The compact text of a value of unsigned numbers, strings that need
    no escape, arrays and objects. *)
Fixpoint compact (v : json) : cstr :=
  match v with
  | JUint z => print_dec z
  | JStr s => quote s
  | JArr l => "["%char :: join "," (map compact l) ++ ["]"%char]
  | JObj kvs => "{"%char :: join "," (map (λ kv, quote kv.1 ++ ":"%char :: compact kv.2) kvs) ++ ["}"%char]
  | _ => []
  end.

(** Printable ASCII but the quote and the backslash. *)
Definition plain_char (c : ascii) : bool :=
  (32 <=? ord c) && (ord c <? 127) && negb (ord c =? 34) && negb (ord c =? 92).
Definition plain_str (s : cstr) : bool := forallb plain_char s.

Fixpoint plain (v : json) : bool :=
  match v with
  | JUint z => (0 <=? z) && (z <? 2 ^ 64)
  | JStr s => plain_str s
  | JArr l => forallb plain l
  | JObj kvs => forallb (λ kv, plain_str kv.1 && plain kv.2) kvs
  | _ => false
  end.

(** yyjson writes such values in compact form. *)
Class JsonWriterLaws `{JsonWriter} : Prop :=
  write_plain : ∀ v, plain v = true → yyjson_mut_write v = Some (compact v).

(** Interning gives back the same text. *)
Class InternerLaws `{Interner} : Prop :=
  intern_same : ∀ s r, intern_string s = Some r → r = s.

(** Stand-ins for the concrete runs. *)
Definition sample_writer : JsonWriter := λ v, Some (compact v).
Definition sample_interner : Interner := Some.
Definition sample_crypto : Crypto :=
  {| hmac_sha256 := λ key msg, map u8 (take 32 (key ++ msg ++ replicate 32 7)); pkey := unit;
     read_private := λ _, Some tt; read_public := λ _, Some tt; derive_public := Some;
     rsa_sign := λ _ _, Some [1; 2; 3]; rsa_verify := λ _ _ _, Some false;
     pointer_bytes := λ _ _, replicate 32 0 |}.
