(* ===== verification/TokenScan.v ===== *)
(** * The JWT scanners (src/token.c)

    What the hand-written payload and header scanners read from the
    compact JSON text the issuing side writes, and that they always
    terminate. *)

From S2P Require Import Prelude CLib CNum Json Types Bits Base64 TokenState Token.

(* ------------------------------------------------------------------ *)
(** ** Lengths: every round of a scanner consumes its input *)

Lemma tl_length {A} (l : list A) : (length (tl l) ≤ length l)%nat.
Proof. destruct l; simpl; lia. Qed.

Lemma quoted_length p : (length (quoted p).2 ≤ length p)%nat.
Proof.
  unfold quoted; simpl. pose proof (tl_length (skip_while not_quote p)).
  pose proof (skip_while_length not_quote p). lia.
Qed.

Lemma strtoull_length p v p' : strtoull p = (v, p') → (length p' ≤ length p)%nat.
Proof.
  unfold strtoull. destruct (scan_sign (skip_while is_space p)) as [neg s1] eqn:E.
  assert (Hs : (length s1 ≤ length p)%nat).
  { pose proof (skip_while_length is_space p). unfold scan_sign in E.
    destruct (skip_while is_space p) as [|c s]; [by simplify_eq|].
    repeat case_match; simplify_eq; simpl in *; lia. }
  pose proof (skip_while_length is_digit s1). destruct (take_while is_digit s1); intros [= <- <-]; lia.
Qed.

Lemma scan_key_length p :
  match scan_key p with
  | KStop => True
  | KSkip p' | KValue _ p' => (length p' < length p)%nat
  end.
Proof.
  unfold scan_key. pose proof (skip_while_length not_quote p) as H1.
  destruct (skip_while not_quote p) as [|q p1]; [done|]. simpl in H1.
  pose proof (skip_while_length not_quote p1) as H2.
  destruct (skip_while not_quote p1) as [|q2 p2]; [done|]. simpl in H2.
  destruct p2 as [|x p2]; [done|].
  pose proof (skip_while_length is_ws (x :: p2)) as H3.
  destruct (skip_while is_ws (x :: p2)) as [|c p3]; simpl in *; [lia|].
  destruct (Ascii.eqb c ":"); simpl; [|lia].
  pose proof (skip_while_length is_ws p3) as H4.
  destruct (skip_while is_ws p3) as [|v p4]; simpl in *; [done|lia].
Qed.

Lemma ids_loop_length fuel p ids : (length (ids_loop fuel p ids).2 ≤ length p)%nat.
Proof.
  revert p ids. induction fuel as [|fuel IH]; intros p ids; cbn [ids_loop]; [done|].
  destruct p as [|c p]; [done|]. destruct (_ || _); [done|].
  set (f := λ c, is_ws c || Ascii.eqb c ","). pose proof (skip_while_length f (c :: p)) as H.
  destruct (hd_digit (skip_while f (c :: p))); [|done].
  destruct (strtoull (skip_while f (c :: p))) as [v p'] eqn:E. apply strtoull_length in E.
  etrans; [apply IH|]. lia.
Qed.

Lemma id_array_length p : (length (id_array p).2 ≤ length p)%nat.
Proof.
  unfold id_array. pose proof (ids_loop_length (S (length p)) p []) as H.
  destruct (ids_loop _ p []) as [ids p']. simpl in *.
  etrans; [apply tl_length|]. etrans; [apply skip_while_length|done].
Qed.

(** The confirmation loop ends, and gives back a suffix. *)
Lemma cnf_loop_length fuel p jkt :
  (length p < fuel)%nat →
  cnf_loop fuel p jkt ≠ Diverge ∧
  ∀ j p', cnf_loop fuel p jkt = Ret (j, p') → (length p' ≤ length p)%nat.
Proof.
  revert p jkt. induction fuel as [|fuel IH]; intros p jkt Hf; [lia|]. cbn [cnf_loop].
  destruct p as [|c p]; [split; [done|by intros j p' [= <- <-]]|].
  destruct (Ascii.eqb c "}"); [split; [done|by intros j p' [= <- <-]]|].
  set (f := λ c, not_quote c && negb (Ascii.eqb c "}")).
  pose proof (skip_while_length f (c :: p)) as H1. destruct (skip_while f (c :: p)) as [|c1 p1]; [done|].
  destruct (Ascii.eqb c1 "}"); [split; [done|by intros j p' [= <- <-]]|].
  set (p2 := skip_while _ (tl (skip_while not_quote p1))).
  assert (H2 : (length p2 ≤ length p1)%nat).
  { etrans; [apply skip_while_length|]. etrans; [apply tl_length|apply skip_while_length]. }
  set (r := if _ && _ then _ else _). assert (Hr : (length r.2 ≤ length p2)%nat).
  { unfold r. pose proof (quoted_length (tl p2)). pose proof (tl_length p2).
    destruct (_ && _); [by destruct (quoted (tl p2)); simpl in *; lia|].
    destruct (hd_is QUOTE p2); [simpl in *; lia|apply skip_while_length]. }
  destruct r as [j1 p3]. simpl in Hr.
  set (p4 := skip_while _ p3). assert (H4 : (length p4 ≤ length p3)%nat) by apply skip_while_length.
  simpl in H1, Hf. destruct (IH p4 j1 ltac:(lia)) as [Hd Hl]. split; [done|].
  intros j p' Hret. apply Hl in Hret. simpl. lia.
Qed.

Lemma scan_value_length alloc k p c :
  scan_value alloc k p c ≠ Diverge ∧
  ∀ c' p', scan_value alloc k p c = Ret (c', p') → (length p' ≤ length p)%nat.
Proof.
  unfold scan_value. pose proof (tl_length p) as Ht. pose proof (quoted_length (tl p)) as Hq.
  pose proof (id_array_length (tl p)) as Ha.
  destruct (strtoull p) as [v pn] eqn:En. apply strtoull_length in En.
  destruct (quoted (tl p)) as [w pq]. destruct (id_array (tl p)) as [ids pa]. cbn [fst snd] in *.
  repeat (destruct (_ && _); [try by (split; [done|intros c' p' [= <- <-]; lia])|]);
    [|split; [done|by intros c' p' [= <- <-]]].
  destruct (cnf_loop_length (S (length p)) (tl p) (tk_jkt (cl_token c)) ltac:(lia)) as [Hd Hl].
  destruct (cnf_loop _ _ _) as [[j p1]| |] eqn:Ec; [|by split|done]. specialize (Hl j p1 eq_refl).
  split; [done|]. intros c' p' [= <- <-]. pose proof (tl_length p1).
  destruct (hd_is "}" p1); lia.
Qed.

(** The payload scanner terminates on every text: its fuel, one more
    than the length of the text, is never used up. *)
Theorem scan_jwt_payload_terminates alloc text out : scan_jwt_payload alloc text out ≠ Diverge.
Proof.
  unfold scan_jwt_payload.
  assert (H : ∀ fuel p c, (length p < fuel)%nat → scan_loop alloc fuel p c ≠ Diverge).
  { induction fuel as [|fuel IH]; intros p c Hf; [lia|]. cbn [scan_loop]. destruct p as [|x p]; [done|].
    pose proof (scan_key_length (x :: p)) as Hk. destruct (scan_key (x :: p)) as [|p'|k p']; [done|..].
    - apply IH. lia.
    - destruct (scan_value_length alloc k p' c) as [Hd Hl].
      destruct (scan_value alloc k p' c) as [[c1 p1]| |]; [|done..]. specialize (Hl c1 p1 eq_refl).
      apply IH. lia. }
  specialize (H (S (length text)) text {| cl_token := out; found_sub := false; found_exp := false |} ltac:(lia)).
  by destruct (scan_loop _ _ _ _).
Qed.

(* ------------------------------------------------------------------ *)
(** ** Big-step reading *)

Ltac closed_no_quote := repeat first [apply Forall_nil_2|apply Forall_cons_2; [vm_compute; reflexivity|]].

Section Reading.
Context (alloc : Z → bool).

Inductive reads : cstr → claims → claims → Prop :=
| reads_end p c : (p = [] ∨ scan_key p = KStop) → reads p c c
| reads_skip p p' c c' : scan_key p = KSkip p' → reads p' c c' → reads p c c'
| reads_value p k p' p1 c c1 c' :
    scan_key p = KValue k p' → scan_value alloc k p' c = Ret (c1, p1) → reads p1 c1 c' → reads p c c'.

Lemma reads_loop p c c' fuel : reads p c c' → (length p < fuel)%nat → scan_loop alloc fuel p c = Ret c'.
Proof.
  intros Hr. revert fuel. induction Hr as [p c Hend|p p' c c' Hk _ IH|p k p' p1 c c1 c' Hk Hv _ IH];
    intros [|fuel] Hf; try lia; cbn [scan_loop].
  - destruct Hend as [-> | ->]; [done|]. by destruct p.
  - pose proof (scan_key_length p) as Hl. rewrite Hk in Hl |- *. destruct p as [|x p]; [simpl in Hl; lia|].
    apply IH. lia.
  - pose proof (scan_key_length p) as Hl. rewrite Hk in Hl |- *. destruct p as [|x p]; [simpl in Hl; lia|].
    apply scan_value_length in Hv as Hl'. rewrite Hv, outcome_bind_Ret. apply IH. lia.
Qed.

(* ------------------------------------------------------------------ *)
(** ** Reading one member *)

Definition no_quote (s : cstr) : Prop := Forall (λ c, not_quote c = true) s.

(** The character after a member. *)
Definition ends_member (t : cstr) : Prop := ∃ c t', t = c :: t' ∧ (c = ","%char ∨ c = "}"%char).

Lemma scan_key_member pre k v :
  no_quote pre → no_quote k → v ≠ [] → (∀ c v', v = c :: v' → is_ws c = false) →
  scan_key (pre ++ quote k ++ ":"%char :: v) = KValue k v.
Proof.
  intros Hpre Hk Hv Hws. unfold scan_key, quote. rewrite skip_while_app by done. simpl.
  rewrite <- app_assoc, skip_while_app, take_while_app by done. simpl. rewrite app_nil_r.
  destruct v as [|c v]; [done|]. simpl. by rewrite (Hws c v eq_refl).
Qed.

Lemma quoted_spec s rest : no_quote s → quoted (s ++ QUOTE :: rest) = (s, rest).
Proof.
  intros Hs. unfold quoted. rewrite take_while_app, skip_while_app by done. simpl. by rewrite app_nil_r.
Qed.

Lemma strtoull_member z rest : 0 ≤ z < 2 ^ 64 → ends_member rest → strtoull (print_dec z ++ rest) = (z, rest).
Proof.
  intros Hz (c & t & -> & Hc). apply strtoull_print; [done|]. by destruct Hc as [-> | ->].
Qed.

Lemma print_dec_head z rest : 0 ≤ z → ∃ c t, print_dec z ++ rest = c :: t ∧ is_digit c = true.
Proof.
  intros Hz. destruct (print_dec_spec z Hz) as (Hne & Hd & _). destruct (print_dec z) as [|c t]; [done|].
  inversion Hd; subst. exists c, (t ++ rest). done.
Qed.

Lemma digit_not_ws c : is_digit c = true → is_ws c = false.
Proof.
  intros H. unfold is_ws, char_in. cbn [existsb].
  destruct (Ascii.eqb_spec c " "%char) as [->|]; [done|]. destruct (Ascii.eqb_spec c (chr 9)) as [->|]; [done|].
  destruct (Ascii.eqb_spec c (chr 10)) as [->|]; [done|]. by destruct (Ascii.eqb_spec c (chr 13)) as [->|].
Qed.

(** The ids of an array text; only the first 64 are kept. *)
Definition ids_text (ids : list Z) : cstr := concat (map (λ z, ","%char :: print_dec z) ids).

Lemma ids_loop_text ids acc rest pre fuel :
  Forall (λ z, 0 ≤ z < 2 ^ 64) ids → (length ids < fuel)%nat → (length acc ≤ 64)%nat →
  (pre = [] ∨ pre = [","%char]) →
  ∃ done todo, ids = done ++ todo ∧ length done = Nat.min (length ids) (64 - length acc) ∧
    ids_loop fuel (match ids with [] => [] | z :: l => pre ++ print_dec z ++ ids_text l end ++ "]"%char :: rest) acc
    = (acc ++ done, match todo with [] => [] | z :: l => (match done with [] => pre | _ => [","%char] end)
                                                          ++ print_dec z ++ ids_text l end ++ "]"%char :: rest).
Proof.
  intros Hids. revert acc pre fuel. induction Hids as [|z l Hz Hl IH]; intros acc pre fuel Hf Ha Hpre.
  - exists [], []. split_and!; [done|simpl; lia|]. destruct fuel; [simpl in Hf; lia|]. simpl. by rewrite app_nil_r.
  - destruct fuel as [|fuel]; [simpl in Hf; lia|]. simpl in Hf.
    destruct (decide (length acc = 64)%nat) as [Hfull|Hfull].
    { exists [], (z :: l). rewrite app_nil_r. split_and!; [done|cbn [length]; lia|]. cbn [ids_loop].
      destruct (pre ++ print_dec z ++ ids_text l) as [|c t] eqn:E.
      { destruct (print_dec_head z (ids_text l)) as (? & ? & E' & _); [lia|]. rewrite E' in E. by destruct pre. }
      cbn [app]. rewrite (proj2 (Nat.leb_le 64 (length acc))), orb_true_r by lia. done. }
    set (tail := ids_text l ++ "]"%char :: rest).
    assert (Htail : ∃ c t, tail = c :: t ∧ is_digit c = false).
    { unfold tail, ids_text. destruct l; simpl; eauto. }
    assert (Hstr : strtoull (print_dec z ++ tail) = (z, tail)).
    { destruct Htail as (c & t & -> & Hc). by apply strtoull_print. }
    assert (Hstep : ids_loop (S fuel) ((pre ++ print_dec z ++ ids_text l) ++ "]"%char :: rest) acc =
                    ids_loop fuel tail (acc ++ [z])).
    { rewrite <- !app_assoc. fold tail. destruct (print_dec_head z tail) as (c & t & E & Hc); [lia|].
      assert (Hsep : Ascii.eqb c "]" = false ∧ Ascii.eqb c "," = false)
        by (split; apply Ascii.eqb_neq; intros ->; by vm_compute in Hc).
      assert (Hskip : skip_while (λ c, is_ws c || Ascii.eqb c ",") (pre ++ print_dec z ++ tail) = c :: t).
      { rewrite E. destruct Hpre as [-> | ->]; simpl; rewrite digit_not_ws by done;
          by rewrite (proj2 Hsep). }
      cbn [ids_loop]. destruct (pre ++ print_dec z ++ tail) as [|c0 t0] eqn:E0; [by destruct pre; [rewrite E in E0|]|].
      assert (Hc0 : Ascii.eqb c0 "]" = false).
      { destruct Hpre as [-> | ->]; simpl in E0; [rewrite E in E0|]; simplify_eq; [apply Hsep|done]. }
      rewrite Hc0, (proj2 (Nat.leb_gt 64 (length acc))) by lia. cbn [orb]. rewrite Hskip. cbn [hd_digit].
      rewrite Hc, <- E, Hstr. done. }
    rewrite Hstep.
    destruct (IH (acc ++ [z]) [","%char] fuel) as (dn & td & -> & Hld & Heq);
      [lia|rewrite length_app; simpl; lia|by right|].
    exists (z :: dn), td. rewrite !length_app in Hld. cbn [length] in Hld.
    split_and!; [done|cbn [length]; rewrite length_app; lia|].
    assert (Ht : tail = match dn ++ td with [] => [] | z0 :: l => [","%char] ++ print_dec z0 ++ ids_text l end
                        ++ "]"%char :: rest).
    { unfold tail, ids_text. destruct (dn ++ td); [done|]. cbn [map concat app]. by rewrite <- !app_assoc. }
    rewrite Ht, Heq, <- app_assoc. f_equal. destruct td; [done|]. by destruct dn.
Qed.

Lemma join_cons sep x l : join sep (x :: l) = x ++ concat (map (λ y, sep :: y) l).
Proof.
  revert x. induction l as [|y l IH]; intros x; [simpl; by rewrite app_nil_r|].
  change (join sep (x :: y :: l)) with (x ++ sep :: join sep (y :: l)). by rewrite IH.
Qed.

Lemma ids_text_no_bracket ids : Forall (λ z, 0 ≤ z < 2 ^ 64) ids → "]"%char ∉ ids_text ids.
Proof.
  induction 1 as [|z l Hz _ IH]; [set_solver|]. unfold ids_text in *. cbn [map concat app].
  rewrite elem_of_cons, elem_of_app. intros [?|[Hin|?]]; [done| |done].
  destruct (print_dec_spec z) as (_ & Hd & _); [lia|].
  apply (proj1 (Forall_forall _ _) Hd) in Hin. by vm_compute in Hin.
Qed.

Lemma id_array_spec ids rest :
  Forall (λ z, 0 ≤ z < 2 ^ 64) ids →
  id_array (join "," (map compact (map JUint ids)) ++ "]"%char :: rest) = (take 64 ids, rest).
Proof.
  intros Hids. set (text := match ids with [] => [] | z :: l => print_dec z ++ ids_text l end).
  assert (Htext : join "," (map compact (map JUint ids)) = text).
  { unfold text, ids_text. destruct ids as [|z l]; [done|]. cbn [map compact]. rewrite join_cons. f_equal.
    f_equal. by rewrite !map_map. }
  rewrite Htext. unfold id_array.
  destruct (ids_loop_text ids [] rest [] (S (length (text ++ "]"%char :: rest)))) as (dn & td & E & Hl & Hloop);
    [done| |simpl; lia|by left|].
  { unfold text. clear Htext text. assert (H : (length ids ≤ length (ids_text ids))%nat).
    { unfold ids_text. induction ids as [|z l IH]; [done|]. inversion Hids; subst. specialize (IH H2).
      cbn [map concat]. rewrite length_app. simpl. lia. }
    destruct ids as [|z l]; [simpl; lia|]. unfold ids_text in *. cbn [map concat] in H.
    rewrite !length_app in *. cbn [length app] in *. rewrite ?length_app in *. lia. }
  change (match ids with [] => [] | z :: l => [] ++ print_dec z ++ ids_text l end) with text in Hloop.
  rewrite Hloop. f_equal.
  - cbn [app]. cbn [length] in Hl. rewrite Nat.sub_0_r in Hl. rewrite E in Hl |- *. rewrite length_app in Hl.
    destruct (decide (length dn = 64)%nat) as [H64|H64].
    + rewrite <- H64. symmetry. apply take_app_length.
    + assert (length td = 0%nat) by lia. destruct td; [|done]. rewrite app_nil_r in *. symmetry. apply take_ge. lia.
  - assert (Hno : ∀ s, "]"%char ∉ s → tl (skip_while (λ c, negb (Ascii.eqb c "]")) (s ++ "]"%char :: rest)) = rest).
    { intros s Hs. rewrite skip_while_app; [done|]. apply Forall_forall. intros c Hc.
      destruct (Ascii.eqb_spec c "]"%char) as [->|]; done. }
    apply Hno. subst ids. apply Forall_app in Hids as [_ Htd]. destruct Htd as [|z l Hz Hl']; [set_solver|].
    pose proof (ids_text_no_bracket (z :: l) ltac:(by constructor)) as Hn. unfold ids_text in *. cbn [map concat] in Hn.
    rewrite !elem_of_app in *. destruct dn; set_solver.
Qed.

Lemma cnf_loop_spec s rest jkt fuel :
  no_quote s → (2 ≤ fuel)%nat →
  cnf_loop fuel (quote (key "jkt") ++ ":"%char :: quote s ++ "}"%char :: rest) jkt =
  Ret (copy_field s 64 jkt, "}"%char :: rest).
Proof.
  intros Hs Hf. destruct fuel as [|[|fuel]]; [lia|lia|].
  change (quote (key "jkt") ++ ":"%char :: quote s ++ "}"%char :: rest)
    with (QUOTE :: "j"%char :: "k"%char :: "t"%char :: QUOTE :: ":"%char :: (QUOTE :: s ++ [QUOTE]) ++ "}"%char :: rest).
  remember (S fuel) as f1 eqn:Ef. simpl. rewrite <- app_assoc. cbn [app].
  rewrite take_while_app, skip_while_app by done. subst f1. simpl. by rewrite app_nil_r.
Qed.

Lemma reads_member pre k v rest c c1 c' :
  no_quote pre → no_quote k → (∃ x v', v = x :: v' ∧ is_ws x = false) →
  scan_value alloc k (v ++ rest) c = Ret (c1, rest) → reads rest c1 c' →
  reads (pre ++ quote k ++ ":"%char :: v ++ rest) c c'.
Proof.
  intros Hpre Hk (x & v' & -> & Hx) Hv Hr. eapply reads_value; [|exact Hv|exact Hr].
  apply scan_key_member; [done|done|done|]. by intros y w [= <- <-].
Qed.

(** The string claims. *)
Lemma reads_string k set pre s rest c c' :
  (k, set) ∈ [(key "jti", set_jti); (key "scope", set_scope); (key "nonce", set_oauth_nonce)] →
  no_quote pre → no_quote s → reads rest (upd (set s) c) c' →
  reads (pre ++ quote k ++ ":"%char :: quote s ++ rest) c c'.
Proof.
  intros Hk Hpre Hs Hr. rewrite !elem_of_cons, elem_of_nil in Hk.
  assert (Hq : ∀ r, quoted (tl (quote s ++ r)) = (s, r)).
  { intros r. unfold quote. cbn [app tl]. rewrite <- app_assoc. by apply quoted_spec. }
  destruct Hk as [[= -> ->]|[[= -> ->]|[[= -> ->]|[]]]];
    (eapply (reads_member pre _ (quote s)); [exact Hpre|closed_no_quote|by eexists _, _| |exact Hr]);
    unfold scan_value; rewrite Hq; reflexivity.
Qed.

(** The number claims. *)
Lemma reads_number k f pre z rest c c' :
  (k, f) ∈ [(key "sub", λ c, {| cl_token := set_sub z (cl_token c); found_sub := true; found_exp := found_exp c |});
            (key "iat", upd (set_iat z));
            (key "exp", λ c, {| cl_token := set_exp z (cl_token c); found_sub := found_sub c; found_exp := true |});
            (key "tnc", upd (set_tnc z))] →
  no_quote pre → 0 ≤ z < 2 ^ 64 → ends_member rest → reads rest (f c) c' →
  reads (pre ++ quote k ++ ":"%char :: print_dec z ++ rest) c c'.
Proof.
  intros Hk Hpre Hz He Hr. rewrite !elem_of_cons, elem_of_nil in Hk.
  destruct (print_dec_head z []) as (x & t & E & Hx); [lia|]. rewrite app_nil_r in E.
  assert (Hd : hd_digit (print_dec z ++ rest) = true) by (rewrite E; simpl; done).
  destruct Hk as [[= -> ->]|[[= -> ->]|[[= -> ->]|[[= -> ->]|[]]]]];
    (eapply (reads_member pre _ (print_dec z));
     [exact Hpre|closed_no_quote|exists x, t; split; [done|by apply digit_not_ws]| |exact Hr]);
    unfold scan_value; rewrite Hd, strtoull_member by done; reflexivity.
Qed.

(** The id arrays. *)
Lemma reads_ids k set pre ids rest c c' :
  (k, set) ∈ [(key "roles", set_roles); (key "groups", set_groups)] →
  no_quote pre → Forall (λ z, 0 ≤ z < 2 ^ 64) ids → reads rest (store_ids alloc (take 64 ids) set c) c' →
  reads (pre ++ quote k ++ ":"%char :: compact (JArr (map JUint ids)) ++ rest) c c'.
Proof.
  intros Hk Hpre Hids Hr. rewrite !elem_of_cons, elem_of_nil in Hk.
  assert (Ha : ∀ r, id_array (tl (compact (JArr (map JUint ids)) ++ r)) = (take 64 ids, r)).
  { intros r. cbn [compact app tl]. rewrite <- app_assoc. by apply id_array_spec. }
  destruct Hk as [[= -> ->]|[[= -> ->]|[]]];
    (eapply (reads_member pre _ (compact (JArr (map JUint ids))));
     [exact Hpre|closed_no_quote|by eexists _, _| |exact Hr]);
    unfold scan_value; rewrite Ha; reflexivity.
Qed.

(** The confirmation claim. *)
Lemma reads_cnf pre s rest c c' :
  no_quote pre → no_quote s → reads rest (upd (set_jkt (copy_field s 64 (tk_jkt (cl_token c)))) c) c' →
  reads (pre ++ quote (key "cnf") ++ ":"%char :: compact (JObj [(key "jkt", JStr s)]) ++ rest) c c'.
Proof.
  intros Hpre Hs Hr. assert (Ht : ∀ r, compact (JObj [(key "jkt", JStr s)]) ++ r =
    "{"%char :: quote (key "jkt") ++ ":"%char :: quote s ++ "}"%char :: r).
  { intros r. unfold quote. simpl. rewrite <- ?app_assoc. simpl. by rewrite <- ?app_assoc. }
  eapply (reads_member pre _ (compact (JObj [(key "jkt", JStr s)])));
    [exact Hpre|closed_no_quote|by eexists _, _| |exact Hr].
  unfold scan_value. rewrite Ht. cbn [tl]. rewrite cnf_loop_spec by (done || (simpl; lia)). reflexivity.
Qed.

(** A string claim the scanner does not know: its value is taken for a
    key, and skipped because no colon follows. *)
Lemma reads_unknown k pre s rest c c' :
  k ∈ [key "iss"; key "aud"] → no_quote pre → no_quote s → ends_member rest → reads rest c c' →
  reads (pre ++ quote k ++ ":"%char :: quote s ++ rest) c c'.
Proof.
  intros Hk Hpre Hs (x & t & -> & Hx) Hr. rewrite !elem_of_cons, elem_of_nil in Hk.
  eapply (reads_value _ k (quote s ++ x :: t) (quote s ++ x :: t) c c).
  - apply scan_key_member; [done| |done|by intros y w [= <- <-]].
    destruct Hk as [->|[->|[]]]; closed_no_quote.
  - by destruct Hk as [->|[->|[]]].
  - eapply reads_skip; [|exact Hr]. unfold scan_key, quote. cbn [app skip_while not_quote].
    simpl. rewrite <- app_assoc. rewrite skip_while_app by done. simpl.
    by destruct Hx as [-> | ->].
Qed.

End Reading.

(* ------------------------------------------------------------------ *)
(** ** The header *)

Lemma kid_loop_skip fuel pre k s rest kid_max :
  no_quote pre → no_quote k → no_quote s → k ≠ key "kid" → ends_member rest →
  kid_loop (S fuel) (pre ++ quote k ++ ":"%char :: quote s ++ rest) kid_max =
  kid_loop fuel (skip_while (λ c, is_ws c || Ascii.eqb c ",") rest) kid_max.
Proof.
  intros Hpre Hk Hs Hne He. cbn [kid_loop].
  rewrite scan_key_member by (done || by intros y w [= <- <-]).
  rewrite bool_decide_eq_false_2 by done. cbn [andb].
  assert (Hskip : skip_value (quote s ++ rest) = rest).
  { unfold quote. cbn [app skip_value]. rewrite <- app_assoc. cbn [app]. by rewrite quoted_spec. }
  by rewrite Hskip.
Qed.

Lemma kid_loop_found fuel pre s rest kid_max :
  no_quote pre → no_quote s → (length s < kid_max)%nat →
  kid_loop (S fuel) (pre ++ quote (key "kid") ++ ":"%char :: quote s ++ rest) kid_max = s.
Proof.
  intros Hpre Hs Hl. cbn [kid_loop].
  rewrite scan_key_member by (done || closed_no_quote || by intros y w [= <- <-]).
  rewrite bool_decide_eq_true_2 by done. unfold quote. cbn [app hd_is tl andb].
  rewrite <- app_assoc. cbn [app]. rewrite quoted_spec by done.
  unfold copy_field. by rewrite (proj2 (Nat.ltb_lt _ _)).
Qed.

Lemma header_text mode k :
  compact (header_json mode k) =
  ["{"%char] ++ quote (key "alg") ++ ":"%char :: quote (alg_str mode) ++
  ","%char :: quote (key "typ") ++ ":"%char :: quote (key "JWT") ++
  ","%char :: quote (key "kid") ++ ":"%char :: quote k ++ ["}"%char].
Proof. unfold quote. destruct mode; simpl; by rewrite <- ?app_assoc. Qed.

Lemma scan_header_kid_spec mode k :
  no_quote k → (length k < SSO_KEY_ID_MAX)%nat →
  scan_header_kid (compact (header_json mode k)) SSO_KEY_ID_MAX = k.
Proof.
  intros Hk Hl. unfold scan_header_kid. rewrite header_text.
  set (text := _ ++ _). assert (Hf : ∃ f, S (length text) = S (S (S f))).
  { unfold text. simpl. eauto. }
  destruct Hf as (f & ->). unfold text. clear text.
  rewrite kid_loop_skip; [|closed_no_quote..|done|by eexists _, _; split; [done|left]].
  2: { destruct mode; closed_no_quote. }
  match goal with |- kid_loop _ ?t _ = _ =>
    replace t with ([] ++ quote (key "typ") ++ ":"%char :: quote (key "JWT") ++
                    ","%char :: quote (key "kid") ++ ":"%char :: quote k ++ ["}"%char]) by reflexivity end.
  rewrite kid_loop_skip; [|closed_no_quote..|done|by eexists _, _; split; [done|left]].
  match goal with |- kid_loop _ ?t _ = _ =>
    replace t with ([] ++ quote (key "kid") ++ ":"%char :: quote k ++ ["}"%char]) by reflexivity end.
  apply kid_loop_found; [closed_no_quote|done|done].
Qed.
