(* ===== verification/TokenJwt.v ===== *)
(** * Issued tokens verify (src/token.c)

    The theorems that tie [token_issue] to [token_verify]: the round
    trip, its soundness, and key rotation. *)

From S2P Require Import Prelude CLib CNum Json Types Bits Base64 TokenState Token TokenScan.

(* ------------------------------------------------------------------ *)
(** ** The payload text *)

Definition member_tail (kvs : list (list ascii * json)) : cstr :=
  concat (map (λ kv, ","%char :: quote kv.1 ++ ":"%char :: compact kv.2) kvs) ++ ["}"%char].

Lemma member_tail_cons k v kvs :
  member_tail ((k, v) :: kvs) = [","%char] ++ quote k ++ ":"%char :: compact v ++ member_tail kvs.
Proof. unfold member_tail. cbn [map concat fst snd app]. by rewrite <- !app_assoc. Qed.

Lemma member_tail_ends kvs : ends_member (member_tail kvs).
Proof. destruct kvs as [|[k v] kvs]; eexists _, _; (split; [reflexivity|]); auto. Qed.

Lemma compact_obj k v kvs :
  compact (JObj ((k, v) :: kvs)) = ["{"%char] ++ quote k ++ ":"%char :: compact v ++ member_tail kvs.
Proof.
  cbn [compact map]. rewrite join_cons, map_map. unfold member_tail. cbn [app fst snd].
  f_equal. rewrite <- !app_assoc. f_equal.
Qed.

Lemma plain_no_quote s : plain_str s = true → no_quote s.
Proof.
  unfold plain_str. rewrite forallb_forall. intros H. apply Forall_forall. intros c Hc.
  rewrite list_elem_of_In in Hc. specialize (H c Hc). unfold plain_char in H. unfold not_quote.
  destruct (Ascii.eqb_spec c QUOTE) as [->|]; [by vm_compute in H|done].
Qed.

(** A token that the issuing side can write and the scanner read back. *)
Record issuable (t : token_t) : Prop := {
  is_jti : plain_str (tk_jti t) = true ∧ (length (tk_jti t) < 64)%nat;
  is_user : 0 ≤ tk_user_id t < 2 ^ 64;
  is_iat : - 2 ^ 63 ≤ tk_issued_at t < 2 ^ 63;
  is_exp : - 2 ^ 63 ≤ tk_expires_at t < 2 ^ 63;
  is_roles : Forall (λ z, 0 ≤ z < 2 ^ 64) (tk_role_ids t);
  is_groups : Forall (λ z, 0 ≤ z < 2 ^ 64) (tk_group_ids t);
  is_nonce : 0 ≤ tk_nonce t < 2 ^ 64;
  is_oauth : oauth_nonce t = [];
  is_scope : plain_str (tk_scope t) = true ∧ (length (tk_scope t) < 256)%nat;
  is_jkt : plain_str (tk_jkt t) = true ∧ (length (tk_jkt t) < 64)%nat
}.

(** What verification gives back: the claims, with at most 64 roles and
    groups, and the text. *)
Definition verified (t : token_t) (str : cstr) : token_t :=
  {| token_str := str; tk_jti := tk_jti t; tk_user_id := tk_user_id t; tk_issued_at := tk_issued_at t;
     tk_expires_at := tk_expires_at t; tk_role_ids := take 64 (tk_role_ids t);
     tk_group_ids := take 64 (tk_group_ids t); tk_nonce := tk_nonce t; oauth_nonce := []; tk_scope := tk_scope t;
     tk_jkt := tk_jkt t; raw_refresh_token := [] |}.

Lemma s64_u64 z : - 2 ^ 63 ≤ z < 2 ^ 63 → s64 (u64 z) = z.
Proof.
  intros Hz. unfold s64, u64. rewrite Z.add_mod_idemp_l, Z.mod_small by lia. lia.
Qed.

Lemma copy_field_fits v n old : (length v < n)%nat → copy_field v n old = v.
Proof. intros H. unfold copy_field. by rewrite (proj2 (Nat.ltb_lt _ _)). Qed.

Section Payload.
Context `{Interner, !InternerLaws}.
Context (alloc : Z → bool) (Halloc : ∀ n, alloc n = true).

Lemma payload_plain t : issuable t → plain (payload_json t) = true.
Proof.
  intros Hi. assert (Hu : ∀ z, (0 <=? u64 z) && (u64 z <? 2 ^ 64) = true).
  { intros z. pose proof (u64_range z). lia. }
  assert (Hids : ∀ l, Forall (λ z, 0 ≤ z < 2 ^ 64) l → forallb plain (map JUint l) = true).
  { induction 1 as [|z l Hz _ IH]; [done|]. cbn [map forallb plain]. rewrite IH. lia. }
  unfold payload_json. cbn [plain]. rewrite !forallb_app, !andb_true_iff. split_and!.
  - cbn [forallb fst snd plain]. rewrite !Hu. rewrite (proj1 (is_jti t Hi)). reflexivity.
  - unfold scope_member. destruct (tk_scope t) as [|c s] eqn:E; [done|]. destruct (intern_string (c :: s)) as [r|] eqn:Er; [|done].
    rewrite (intern_same _ _ Er). cbn [forallb fst snd plain]. rewrite <- E, (proj1 (is_scope t Hi)). reflexivity.
  - by rewrite (is_oauth t Hi).
  - cbn [forallb fst snd plain]. rewrite Hids by apply Hi. reflexivity.
  - unfold groups_member. destruct (tk_group_ids t) as [|g l] eqn:E; [done|]. cbn [forallb fst snd plain].
    rewrite Hids by (rewrite <- E; apply Hi). reflexivity.
  - unfold cnf_member. destruct (tk_jkt t) as [|c s] eqn:E; [done|]. cbn [forallb fst snd plain].
    rewrite <- E, (proj1 (is_jkt t Hi)). reflexivity.
Qed.

Ltac comma := apply Forall_cons_2; [vm_compute; reflexivity|apply Forall_nil_2].
Ltac the_key := first [apply list_elem_of_here|apply list_elem_of_further; the_key].

(** The optional members. *)
Definition store_scope (s : cstr) (c : claims) : claims := match s with [] => c | _ => upd (set_scope s) c end.
Definition store_groups (g : list Z) (c : claims) : claims :=
  match g with [] => c | _ => store_ids alloc (take 64 g) set_groups c end.
Definition store_jkt (s : cstr) (c : claims) : claims :=
  match s with [] => c | _ => upd (set_jkt (copy_field s 64 (tk_jkt (cl_token c)))) c end.

Lemma reads_opt_scope s kvs c c' :
  plain_str s = true ∧ (length s < 256)%nat → (s = [] ∨ is_Some (intern_string s)) →
  reads alloc (member_tail kvs) (store_scope s c) c' →
  reads alloc (member_tail (scope_member s ++ kvs)) c c'.
Proof.
  intros [Hp _] Hint Hr. destruct s as [|x s]; [done|]. destruct Hint as [?|[i Hint]]; [done|].
  unfold scope_member. rewrite Hint. apply intern_same in Hint as ->. cbn [app]. rewrite member_tail_cons.
  eapply reads_string; [the_key|comma|by apply plain_no_quote|done].
Qed.

Lemma reads_opt_groups g kvs c c' :
  Forall (λ z, 0 ≤ z < 2 ^ 64) g → reads alloc (member_tail kvs) (store_groups g c) c' →
  reads alloc (member_tail (groups_member g ++ kvs)) c c'.
Proof.
  intros Hg Hr. destruct g as [|x g]; [done|]. unfold groups_member. cbn [app]. rewrite member_tail_cons.
  eapply reads_ids; [the_key|comma|done|done].
Qed.

Lemma reads_opt_jkt s c c' :
  plain_str s = true ∧ (length s < 64)%nat → reads alloc (member_tail []) (store_jkt s c) c' →
  reads alloc (member_tail (cnf_member s)) c c'.
Proof.
  intros [Hp _] Hr. destruct s as [|x s]; [done|]. unfold cnf_member. rewrite member_tail_cons.
  eapply reads_cnf; [comma|by apply plain_no_quote|done].
Qed.

(** The claims while the optional members are read. *)
Definition read (t : token_t) (str scope : cstr) (roles groups : list Z) (jkt : cstr) : claims :=
  {| cl_token := {| token_str := str; tk_jti := tk_jti t; tk_user_id := tk_user_id t;
       tk_issued_at := tk_issued_at t; tk_expires_at := tk_expires_at t; tk_role_ids := roles;
       tk_group_ids := groups; tk_nonce := tk_nonce t; oauth_nonce := []; tk_scope := scope; tk_jkt := jkt;
       raw_refresh_token := [] |}; found_sub := true; found_exp := true |}.

Lemma store_scope_read t str s roles groups jkt :
  plain_str s = true ∧ (length s < 256)%nat →
  store_scope s (read t str [] roles groups jkt) = read t str s roles groups jkt.
Proof.
  intros [_ Hl]. destruct s as [|x s]; [done|]. unfold store_scope, upd, set_scope, read.
  cbn [cl_token found_sub found_exp tk_scope]. by rewrite copy_field_fits.
Qed.

Lemma store_roles_read t str s ids groups jkt :
  store_ids alloc (take 64 ids) set_roles (read t str s [] groups jkt) = read t str s (take 64 ids) groups jkt.
Proof. unfold store_ids. rewrite Halloc. by destruct (take 64 ids). Qed.

Lemma store_groups_read t str s roles ids jkt :
  store_groups ids (read t str s roles [] jkt) = read t str s roles (take 64 ids) jkt.
Proof. unfold store_groups, store_ids. rewrite Halloc. destruct ids as [|z l]; [done|]. by destruct (take 64 (z :: l)). Qed.

Lemma store_jkt_read t str s roles groups jkt :
  plain_str jkt = true ∧ (length jkt < 64)%nat →
  store_jkt jkt (read t str s roles groups []) = read t str s roles groups jkt.
Proof.
  intros [_ Hl]. destruct jkt as [|x l]; [done|]. unfold store_jkt, upd, set_jkt, read.
  cbn [cl_token found_sub found_exp tk_jkt]. by rewrite copy_field_fits.
Qed.

Definition lit (str jti : cstr) (sub iat exp tnc : Z) : token_t :=
  {| token_str := str; tk_jti := jti; tk_user_id := sub; tk_issued_at := iat; tk_expires_at := exp;
     tk_role_ids := []; tk_group_ids := []; tk_nonce := tnc; oauth_nonce := []; tk_scope := [];
     tk_jkt := []; raw_refresh_token := [] |}.

(** The claims after the five fixed members. *)
Lemma claims_read t str :
  issuable t →
  upd (set_tnc (u64 (tk_nonce t)))
    {| cl_token := set_exp (u64 (tk_expires_at t)) (cl_token (upd (set_iat (u64 (tk_issued_at t)))
         {| cl_token := set_sub (u64 (tk_user_id t)) (cl_token (upd (set_jti (tk_jti t))
              {| cl_token := with_str str zero_token; found_sub := false; found_exp := false |}));
            found_sub := true; found_exp := false |}));
       found_sub := true; found_exp := true |} = read t str [] [] [] [].
Proof.
  intros Hi.
  assert (H1 : set_jti (tk_jti t) (with_str str zero_token) = lit str (tk_jti t) 0 0 0 0).
  { unfold set_jti. by rewrite copy_field_fits by apply Hi. }
  assert (H2 : ∀ j v, set_sub v (lit str j 0 0 0 0) = lit str j v 0 0 0) by done.
  assert (H3 : ∀ j u v, set_iat v (lit str j u 0 0 0) = lit str j u (s64 v) 0 0) by done.
  assert (H4 : ∀ j u i v, set_exp v (lit str j u i 0 0) = lit str j u i (s64 v) 0) by done.
  assert (H5 : ∀ j u i e v, set_tnc v (lit str j u i e 0) = lit str j u i e v) by done.
  unfold upd. cbn [cl_token found_sub found_exp]. rewrite H1, H2, H3, H4, H5.
  rewrite !s64_u64, !u64_small by apply Hi. reflexivity.
Qed.

Lemma payload_reads t str :
  issuable t → (tk_scope t = [] ∨ is_Some (intern_string (tk_scope t))) →
  reads alloc (compact (payload_json t))
    {| cl_token := with_str str zero_token; found_sub := false; found_exp := false |}
    {| cl_token := verified t str; found_sub := true; found_exp := true |}.
Proof.
  intros Hi Hint. unfold payload_json. cbn [app]. rewrite compact_obj.
  pose proof (u64_range (tk_user_id t)). pose proof (u64_range (tk_issued_at t)).
  pose proof (u64_range (tk_expires_at t)). pose proof (u64_range (tk_nonce t)).
  eapply reads_string; [the_key|comma|apply plain_no_quote, (is_jti t Hi)|].
  rewrite member_tail_cons. eapply reads_number; [the_key|comma|done|apply member_tail_ends|].
  rewrite member_tail_cons. eapply reads_number; [the_key|comma|done|apply member_tail_ends|].
  rewrite member_tail_cons. eapply reads_number; [the_key|comma|done|apply member_tail_ends|].
  rewrite member_tail_cons. eapply reads_number; [the_key|comma|done|apply member_tail_ends|].
  rewrite member_tail_cons. eapply reads_unknown; [the_key|comma|closed_no_quote|apply member_tail_ends|].
  rewrite member_tail_cons. eapply reads_unknown; [the_key|comma|closed_no_quote|apply member_tail_ends|].
  match goal with |- reads _ _ ?c _ => replace c with (read t str [] [] [] []) by (symmetry; exact (claims_read t str Hi)) end.
  apply reads_opt_scope; [apply Hi|done|]. rewrite (is_oauth t Hi). cbn [nonce_member app].
  rewrite store_scope_read by apply Hi.
  rewrite member_tail_cons. eapply reads_ids; [the_key|comma|apply Hi|]. rewrite store_roles_read.
  apply reads_opt_groups; [apply Hi|]. rewrite store_groups_read.
  apply reads_opt_jkt; [apply Hi|]. rewrite store_jkt_read by apply Hi.
  apply reads_end. right. reflexivity.
Qed.
End Payload.

(* ------------------------------------------------------------------ *)
(** ** Texts *)

Lemma bytes_words s : words 8 (bytes_of s).
Proof.
  apply Forall_forall. intros x Hx. apply list_elem_of_In, in_map_iff in Hx as (c & <- & _). apply ord_range.
Qed.

Lemma text_bytes s : NUL ∉ s → text_of (bytes_of s) = s.
Proof.
  intros H. unfold text_of, bytes_of. rewrite map_map. rewrite (map_ext _ id) by apply chr_ord.
  rewrite map_id. by apply c_str_id.
Qed.

Lemma length_bytes s : length (bytes_of s) = length s.
Proof. apply length_map. Qed.

Lemma plain_no_nul s : plain_str s = true → NUL ∉ s.
Proof.
  unfold plain_str. rewrite forallb_forall. intros H Hin. rewrite list_elem_of_In in Hin. specialize (H _ Hin).
  by vm_compute in H.
Qed.

Lemma digits_no_nul s : Forall (λ c, is_digit c = true) s → NUL ∉ s.
Proof. intros H Hin. apply (proj1 (Forall_forall _ s) H) in Hin. by vm_compute in Hin. Qed.

Lemma join_no_nul sep l : sep ≠ NUL → Forall (λ s, NUL ∉ s) l → NUL ∉ join sep l.
Proof.
  intros Hsep. induction l as [|x l IH]; intros Hl; [set_solver|]. rewrite join_cons.
  apply Forall_cons in Hl as [Hx Hl]. rewrite elem_of_app. intros [?|Hin]; [done|].
  apply list_elem_of_In, in_concat in Hin as (y & Hy & Hin). apply in_map_iff in Hy as (s & <- & Hs).
  destruct Hin as [?|Hin]; [done|]. rewrite <- list_elem_of_In in Hin. rewrite <- list_elem_of_In in Hs.
  by apply (proj1 (Forall_forall _ l) Hl s Hs).
Qed.

Lemma quote_no_nul s : NUL ∉ s → NUL ∉ quote s.
Proof. intros H. unfold quote. rewrite elem_of_cons, elem_of_app, list_elem_of_singleton. by intros [?|[?|?]]. Qed.

Lemma compact_no_nul : ∀ v, plain v = true → NUL ∉ compact v.
Proof.
  fix IH 1. intros [| | z | | | s | l | kvs] Hp; cbn [compact plain] in *; try done.
  - apply digits_no_nul, print_dec_spec. lia.
  - by apply quote_no_nul, plain_no_nul.
  - rewrite elem_of_cons, elem_of_app, list_elem_of_singleton. intros [?|[Hin|?]]; [done| |done]. revert Hin.
    apply join_no_nul; [done|]. induction l as [|x l IHl]; [constructor|]. cbn [forallb] in Hp.
    apply andb_true_iff in Hp as [Hx Hl]. cbn [map]. constructor; [by apply IH|by apply IHl].
  - rewrite elem_of_cons, elem_of_app, list_elem_of_singleton. intros [?|[Hin|?]]; [done| |done]. revert Hin.
    apply join_no_nul; [done|]. induction kvs as [|[k v] l IHl]; [constructor|]. cbn [forallb fst snd] in Hp.
    apply andb_true_iff in Hp as [Hx Hl]. apply andb_true_iff in Hx as [Hk Hv]. cbn [map].
    constructor; [|by apply IHl]. rewrite elem_of_app, elem_of_cons. cbn [fst snd]. intros [Hin|[?|Hin]]; [|done|].
    + revert Hin. by apply quote_no_nul, plain_no_nul.
    + revert Hin. by apply IH.
Qed.

Lemma hex_plain fuel n acc : plain_str acc = true → plain_str (print_base_loop fuel 16 n acc) = true.
Proof.
  revert n acc. induction fuel as [|fuel IH]; intros n acc Ha; [done|]. cbn [print_base_loop].
  pose proof (Z.mod_pos_bound n 16 ltac:(lia)) as Hm.
  assert (Hc : plain_char (chr (if n mod 16 <? 10 then 48 + n mod 16 else 87 + n mod 16)) = true).
  { unfold plain_char. rewrite ord_chr by (destruct (_ <? _); lia). destruct (Z.ltb_spec (n mod 16) 10); lia. }
  assert (Ha' : plain_str (chr (if n mod 16 <? 10 then 48 + n mod 16 else 87 + n mod 16) :: acc) = true).
  { unfold plain_str in *. cbn [forallb]. by rewrite Hc. }
  destruct (n <? 16); [done|]. by apply IH.
Qed.

Lemma plain_app a b : plain_str a = true → plain_str b = true → plain_str (a ++ b) = true.
Proof. unfold plain_str. intros. by rewrite forallb_app, andb_true_iff. Qed.

Lemma plain_take n s : plain_str s = true → plain_str (take n s) = true.
Proof.
  unfold plain_str. rewrite !forallb_forall. intros H c Hc. apply H. rewrite <- list_elem_of_In in *.
  eapply elem_of_prefix; [exact Hc|apply prefix_take].
Qed.

Lemma jti_text_plain now rand : plain_str (jti_text now rand) = true ∧ (length (jti_text now rand) < 64)%nat.
Proof.
  split.
  - apply plain_take, plain_app; [by apply hex_plain|].
    induction rand as [|b l IH]; [done|]. cbn [map concat]. apply plain_app; [|done].
    unfold zero_pad. apply plain_app; [|by apply hex_plain].
    generalize (2 - length (print_hex b))%nat as n. clear. induction n as [|n IH]; [done|]. exact IH.
  - unfold jti_text. rewrite length_take. lia.
Qed.

(* ------------------------------------------------------------------ *)
(** ** Splitting a token *)

Lemma split_dot_app a b : "."%char ∉ a → split_dot (a ++ "."%char :: b) = Some (a, b).
Proof.
  intros Ha. unfold split_dot. rewrite strchr_app by done. cbn [mbind option_bind]. f_equal. f_equal.
  - apply take_app_length.
  - rewrite drop_app_ge by lia. by replace (S (length a) - length a)%nat with 1%nat by lia.
Qed.

Lemma split_dot_inv s a b : split_dot s = Some (a, b) → s = a ++ "."%char :: b ∧ "."%char ∉ a.
Proof.
  unfold split_dot, strchr. destruct (find_index (Ascii.eqb ".") s) as [i|] eqn:E; [|done]. intros [= <- <-].
  apply find_index_Some in E as (c & Hi & Hc & Hlt). apply Ascii.eqb_eq in Hc as <-. split.
  - symmetry. by apply take_drop_middle.
  - intros (j & Hj)%list_elem_of_lookup. apply lookup_take_Some in Hj as [Hj Hji].
    apply Hlt in Hj; [done|]. lia.
Qed.

(** No character of base64url text is a dot. *)
Lemma b64_no_dot l n : words 8 l → "."%char ∉ base64url_encode l n.
Proof.
  intros Hw. apply b64_text_no; [by apply b64_enc_text|]. intros H. apply (bool_decide_eq_true_2 _) in H.
  by vm_compute in H.
Qed.

Section RoundTrip.
Context `{Crypto, !CryptoLaws, JsonWriter, !JsonWriterLaws, Interner, !InternerLaws}.
Context (alloc : Z → bool) (Halloc : ∀ n, alloc n = true).

(** An HS256 manager whose signing key has a usable kid. *)
Record can_sign (m : token_manager) : Prop := {
  cs_mode : tm_mode m = SSO_TOKEN_MODE_HS256;
  cs_kid : plain_str (kid (slot_at m (active_slot m))) = true;
  cs_named : kid (slot_at m (active_slot m)) ≠ [];
  cs_short : (length (kid (slot_at m (active_slot m))) < SSO_KEY_ID_MAX)%nat
}.

(** A manager that has the signing key of another one under its kid. *)
Definition has_key (m' m : token_manager) : Prop :=
  tm_mode m' = SSO_TOKEN_MODE_HS256 ∧
  ∃ i, slot_index_by_kid m' (kid (slot_at m (active_slot m))) = Some i ∧
       slot_secret (slot_at m' i) = slot_secret (slot_at m (active_slot m)).

Lemma slot_index_found m k i :
  slot_index_by_kid m k = Some i → populated (slot_at m i) = true ∧ kid (slot_at m i) = k.
Proof.
  unfold slot_index_by_kid.
  destruct (populated (slot0 m) && strcmp_eq (kid (slot0 m)) k) eqn:E0.
  { intros [= <-]. apply andb_true_iff in E0 as [Hp Hk]. by apply strcmp_eq_iff in Hk. }
  destruct (populated (slot1 m) && strcmp_eq (kid (slot1 m)) k) eqn:E1; [|done].
  intros [= <-]. apply andb_true_iff in E1 as [Hp Hk]. by apply strcmp_eq_iff in Hk.
Qed.

Definition b64_header_of (m : token_manager) : cstr :=
  base64url_encode (bytes_of (compact (header_json (tm_mode m) (kid (slot_at m (active_slot m)))))) 256.
Definition b64_payload_of (t : token_t) : cstr := base64url_encode (bytes_of (compact (payload_json t))) 2048.
Definition signature_of (m : token_manager) (input : cstr) : cstr :=
  base64url_encode (hmac_sha256 (slot_secret (slot_at m (active_slot m))) (bytes_of input)) 129.

Lemma header_length mode k :
  length (compact (header_json mode k)) = (31 + length (alg_str mode) + length k)%nat.
Proof. rewrite header_text. unfold quote. destruct mode; simpl; rewrite ?length_app; simpl; lia. Qed.

Lemma b64_fits s n : (4 * ((length s + 2) / 3) < n)%nat →
  length (base64url_encode (bytes_of s) n) = ((4 * length s + 2) / 3)%nat.
Proof. intros Hs. rewrite <- (length_bytes s) in *. by apply b64_length. Qed.

Lemma b64_bytes s n cap : (4 * ((length s + 2) / 3) < n)%nat → (length s ≤ cap)%nat →
  base64url_decode (base64url_encode (bytes_of s) n) cap = bytes_of s.
Proof.
  intros Hs Hc. rewrite <- (length_bytes s) in *. apply b64_roundtrip; [apply bytes_words|done|done].
Qed.

Lemma header_facts m :
  can_sign m →
  (length (b64_header_of m) < 128)%nat ∧ "."%char ∉ b64_header_of m ∧
  header_kid_of (b64_header_of m) = kid (slot_at m (active_slot m)).
Proof.
  intros [Hm Hk Hn Hs]. unfold b64_header_of. set (k := kid (slot_at m (active_slot m))) in *.
  set (text := compact (header_json (tm_mode m) k)).
  assert (Hl : (length text ≤ 70)%nat).
  { unfold text. rewrite header_length, Hm. unfold SSO_KEY_ID_MAX in Hs. simpl. lia. }
  assert (Hd : ((length text + 2) / 3 ≤ 27)%nat) by (apply Nat.Div0.div_le_upper_bound; lia).
  split_and!.
  - rewrite b64_fits by lia. apply Nat.Div0.div_lt_upper_bound. lia.
  - apply b64_no_dot, bytes_words.
  - unfold header_kid_of. rewrite b64_bytes by lia.
    destruct (bytes_of text) as [|b l] eqn:E.
    { apply (f_equal length) in E. rewrite length_bytes in E. unfold text in E. rewrite header_length in E. simpl in E. lia. }
    rewrite <- E, text_bytes; [by apply scan_header_kid_spec; [apply plain_no_quote|]|].
    apply compact_no_nul. unfold header_json. cbn [plain forallb fst snd]. rewrite Hk, Hm. reflexivity.
Qed.

Lemma payload_facts t :
  issuable t → (length (compact (payload_json t)) ≤ 1533)%nat →
  (length (b64_payload_of t) < 2048)%nat ∧ "."%char ∉ b64_payload_of t ∧
  base64url_decode (b64_payload_of t) 4095 = bytes_of (compact (payload_json t)) ∧
  text_of (bytes_of (compact (payload_json t))) = compact (payload_json t).
Proof.
  intros Hi Hl. unfold b64_payload_of.
  assert (Hd : ((length (compact (payload_json t)) + 2) / 3 ≤ 511)%nat) by (apply Nat.lt_succ_r, Nat.Div0.div_lt_upper_bound; lia).
  split_and!.
  - rewrite b64_fits by lia. apply Nat.Div0.div_lt_upper_bound. lia.
  - apply b64_no_dot, bytes_words.
  - apply b64_bytes; lia.
  - by apply text_bytes, compact_no_nul, payload_plain.
Qed.

Lemma signature_length m input : length (signature_of m input) = 43%nat.
Proof.
  unfold signature_of, base64url_encode. destruct (hmac_digest32 (slot_secret (slot_at m (active_slot m))) (bytes_of input))
    as [Hl _]. rewrite b64_length; rewrite Hl; [done|]. apply Nat.ltb_lt. reflexivity.
Qed.

(** The text of an issued token. *)
Definition signing_of (m : token_manager) (t : token_t) : cstr := b64_header_of m ++ "."%char :: b64_payload_of t.

Lemma signing_short m t : can_sign m → issuable t → (length (compact (payload_json t)) ≤ 1533)%nat →
  (length (signing_of m t) < 2559)%nat.
Proof.
  intros Hm Hi Hl. destruct (header_facts m Hm) as (Hh & _). destruct (payload_facts t Hi Hl) as (Hp & _).
  unfold signing_of. rewrite length_app. cbn [length]. lia.
Qed.

Lemma token_issue_text m user roles groups scope ttl jkt now rand8 rand32 :
  let t := issue_claims m user roles groups scope ttl jkt now rand8 in
  can_sign m → issuable t → (length (compact (payload_json t)) ≤ 1533)%nat →
  token_issue alloc m user roles groups scope ttl jkt now rand8 rand32 =
    Ret (SSO_OK, with_str (signing_of m t ++ "."%char :: signature_of m (signing_of m t))
                   (with_refresh (base64url_encode rand32 128) t)).
Proof.
  intros t Hm Hi Hl. unfold token_issue. fold t. rewrite !Halloc.
  assert (Hexp : s64 (tk_expires_at t) = tk_expires_at t).
  { pose proof (is_exp t Hi). unfold s64. rewrite Z.mod_small; lia. }
  change (now + actual_ttl ttl (default_ttl_ms m)) with (tk_expires_at t). rewrite Hexp, Z.eqb_refl. cbn [negb orb].
  assert (Hal : ∀ l : list Z, (match l with [] => false | _ :: _ => false end) = false) by (by intros []).
  rewrite !Hal.
  assert (Hhp : plain (header_json (tm_mode m) (kid (slot_at m (active_slot m)))) = true).
  { unfold header_json. cbn [plain forallb fst snd]. rewrite (cs_kid m Hm), (cs_mode m Hm). reflexivity. }
  rewrite (write_plain _ Hhp), (write_plain _ (payload_plain t Hi)).
  fold (b64_header_of m). fold (b64_payload_of t). fold (signing_of m t).
  rewrite (take_ge (signing_of m t)) by (pose proof (signing_short m t Hm Hi Hl); lia).
  unfold sign. rewrite (cs_mode m Hm). rewrite outcome_bind_Ret. fold (signature_of m (signing_of m t)).
  rewrite take_ge; [done|]. rewrite length_app. cbn [length]. rewrite signature_length.
  pose proof (signing_short m t Hm Hi Hl). unfold SSO_MAX_TOKEN_STR. lia.
Qed.

Lemma token_verify_text m m' t now :
  can_sign m → issuable t → (length (compact (payload_json t)) ≤ 1533)%nat → has_key m' m →
  (∀ s, is_Some (intern_string s)) → now ≤ tk_expires_at t →
  is_hex_str (signature_of m (signing_of m t)) = false →
  let str := signing_of m t ++ "."%char :: signature_of m (signing_of m t) in
  token_verify alloc m' (Some str) now = Ret (SSO_OK, verified t str).
Proof.
  intros Hm Hi Hl [Hmode (i & Hidx & Hsec)] Hint Hnow Hhex str.
  destruct (header_facts m Hm) as (Hh & Hhd & Hkid). destruct (payload_facts t Hi Hl) as (Hp & Hpd & Hdec & Htxt).
  pose proof (signing_short m t Hm Hi Hl) as Hss.
  assert (Hsplit : split_dot str =
    Some (b64_header_of m, b64_payload_of t ++ "."%char :: signature_of m (signing_of m t))).
  { unfold str, signing_of at 1. rewrite <- app_assoc. by apply split_dot_app. }
  cbn [token_verify]. unfold token_verify_internal.
  rewrite sso_strlcpy_fits. 2: { unfold str. rewrite length_app. cbn [length]. rewrite signature_length.
    unfold SSO_MAX_TOKEN_STR. lia. }
  rewrite Hsplit. rewrite split_dot_app by done. rewrite !Halloc. cbn [negb orb].
  rewrite (proj2 (Nat.leb_gt 128 _)), (proj2 (Nat.leb_gt 2048 _)) by lia. cbn [orb].
  fold (signing_of m t). rewrite (take_ge (signing_of m t)) by lia.
  unfold verify_signature. rewrite Hmode, outcome_bind_Ret.
  assert (Hv : verify_hs256 m' (header_kid_of (b64_header_of m)) (signing_of m t) (signature_of m (signing_of m t)) = true).
  { rewrite Hkid. unfold verify_hs256. rewrite Hhex, Hidx.
    destruct (kid (slot_at m (active_slot m))) as [|kc kr] eqn:Ek; [by destruct (cs_named m Hm)|].
    unfold hs256_matches. rewrite (proj1 (slot_index_found _ _ _ Hidx)), Hsec. apply strcmp_eq_refl. }
  rewrite Hv. change (negb (is_ok SSO_OK)) with false. cbv iota.
  rewrite Hdec. destruct (bytes_of (compact (payload_json t))) as [|b l] eqn:Eb.
  { apply (f_equal length) in Eb. rewrite length_bytes in Eb. done. }
  rewrite Htxt. unfold scan_jwt_payload.
  erewrite (reads_loop alloc); [|apply payload_reads; [done|done|by right]|lia].
  rewrite outcome_bind_Ret. cbn [found_sub found_exp andb cl_token]. rewrite outcome_bind_Ret.
  change (negb (is_ok SSO_OK)) with false. cbv iota. change (tk_expires_at (verified t str)) with (tk_expires_at t).
  by rewrite (proj2 (Z.ltb_ge (tk_expires_at t) now)) by lia.
Qed.

Lemma issue_claims_issuable m user roles groups scope ttl jkt now rand8 :
  0 ≤ user < 2 ^ 64 → Forall (λ z, 0 ≤ z < 2 ^ 64) roles → Forall (λ z, 0 ≤ z < 2 ^ 64) groups →
  plain_str (default [] scope) = true → plain_str (default [] jkt) = true →
  0 ≤ token_get_nonce (tables m) user < 2 ^ 64 → - 2 ^ 63 ≤ now < 2 ^ 63 →
  - 2 ^ 63 ≤ now + actual_ttl ttl (default_ttl_ms m) < 2 ^ 63 →
  issuable (issue_claims m user roles groups scope ttl jkt now rand8).
Proof.
  intros Hu Hr Hg Hs Hj Hn Hnow He.
  assert (Hcut : ∀ s n, plain_str (default [] s) = true → (0 < n)%nat →
    plain_str (sso_strlcpy s n) = true ∧ (length (sso_strlcpy s n) < n)%nat).
  { intros s n Hp Hpos. split; [by apply plain_take|]. pose proof (sso_strlcpy_length s n). lia. }
  constructor; try done; [apply jti_text_plain|apply (Hcut scope); [done|lia]|apply (Hcut jkt); [done|lia]].
Qed.

(** C17. Issued tokens verify: a token that [token_issue] signs with the
    active HS256 key is accepted, until it expires, by every manager that
    holds this key under its kid, and verification gives back the user,
    the times, the nonce, the scope, the DPoP binding and the first 64
    roles and groups, provided the payload fits its 2048 byte buffer
    and the base64url signature does not consist of hexadecimal digits
    only. *)
Theorem token_issue_verify m m' user roles groups scope ttl jkt now rand8 rand32 later :
  let t := issue_claims m user roles groups scope ttl jkt now rand8 in
  can_sign m → has_key m' m →
  0 ≤ user < 2 ^ 64 → Forall (λ z, 0 ≤ z < 2 ^ 64) roles → Forall (λ z, 0 ≤ z < 2 ^ 64) groups →
  plain_str (default [] scope) = true → plain_str (default [] jkt) = true →
  0 ≤ token_get_nonce (tables m) user < 2 ^ 64 → - 2 ^ 63 ≤ now < 2 ^ 63 →
  - 2 ^ 63 ≤ now + actual_ttl ttl (default_ttl_ms m) < 2 ^ 63 →
  (length (compact (payload_json t)) ≤ 1533)%nat → (∀ s, is_Some (intern_string s)) →
  later ≤ now + actual_ttl ttl (default_ttl_ms m) →
  ∃ body sig out,
    token_issue alloc m user roles groups scope ttl jkt now rand8 rand32 = Ret (SSO_OK, out) ∧
    token_str out = body ++ "."%char :: sig ∧
    (is_hex_str sig = false →
     token_verify alloc m' (Some (token_str out)) later = Ret (SSO_OK, verified t (token_str out))).
Proof.
  intros t Hm Hk Hu Hr Hg Hs Hj Hn Hnow He Hl Hint Hlater.
  assert (Hi : issuable t) by (by apply issue_claims_issuable).
  eexists (signing_of m t), (signature_of m (signing_of m t)), _.
  split_and!; [by apply token_issue_text|done|]. intros Hhex. by apply token_verify_text.
Qed.
End RoundTrip.

(* ------------------------------------------------------------------ *)
(** ** Only signed tokens are accepted *)

Section Sound.
Context `{Crypto}.
Context (alloc : Z → bool).

Lemma hs256_matches_sig slot hex input sig :
  hs256_matches slot hex input sig = true →
  populated slot = true ∧
  (sig = base64url_encode (hmac_sha256 (slot_secret slot) (bytes_of input)) 129 ∨
   sig = to_hex (hmac_sha256 (slot_secret slot) (bytes_of input)) 129).
Proof.
  unfold hs256_matches. rewrite andb_true_iff, strcmp_eq_iff. intros [Hp ->]. split; [done|]. destruct hex; auto.
Qed.

Lemma verify_hs256_sig m k input sig :
  verify_hs256 m k input sig = true →
  ∃ i, populated (slot_at m i) = true ∧ (k = [] ∨ kid (slot_at m i) = k) ∧
    (sig = base64url_encode (hmac_sha256 (slot_secret (slot_at m i)) (bytes_of input)) 129 ∨
     sig = to_hex (hmac_sha256 (slot_secret (slot_at m i)) (bytes_of input)) 129).
Proof.
  unfold verify_hs256. destruct k as [|c k].
  - intros [Hs|Hs]%orb_true_iff; apply hs256_matches_sig in Hs as [Hp Hs]; eauto.
  - destruct (slot_index_by_kid m (c :: k)) as [i|] eqn:E; [|done].
    apply slot_index_found in E as [Hp Hk]. intros [_ Hs]%hs256_matches_sig. eauto.
Qed.

(** C18. An HS256 manager accepts only text signed with one of its two
    keys: when [token_verify] answers SSO_OK, the text is header, payload
    and signature, the signature is the base64url or hexadecimal text of
    the HMAC of the first two under a populated slot's key, the one the
    header names if it names one, the token has not expired, and the
    claims returned are those scanned from the signed payload. *)
Theorem token_verify_sound m s now t :
  tm_mode m = SSO_TOKEN_MODE_HS256 → token_verify alloc m (Some s) now = Ret (SSO_OK, t) →
  ∃ h p sig i,
    s = h ++ "."%char :: p ++ "."%char :: sig ∧ populated (slot_at m i) = true ∧
    (header_kid_of h = [] ∨ kid (slot_at m i) = header_kid_of h) ∧
    (let mac := hmac_sha256 (slot_secret (slot_at m i)) (bytes_of (h ++ "."%char :: p)) in
     sig = base64url_encode mac 129 ∨ sig = to_hex mac 129) ∧
    now ≤ tk_expires_at t ∧
    scan_jwt_payload alloc (text_of (base64url_decode p 4095))
      (with_str (sso_strlcpy (Some s) SSO_MAX_TOKEN_STR) zero_token) = Ret (SSO_OK, t).
Proof.
  intros Hm. cbn [token_verify]. unfold token_verify_internal.
  destruct (split_dot s) as [[h rest]|] eqn:E1; [|done]. destruct (split_dot rest) as [[p sig]|] eqn:E2; [|done].
  apply split_dot_inv in E1 as [-> Hh]. apply split_dot_inv in E2 as [-> Hp].
  destruct (_ || _ || _); [done|]. destruct (_ || _) eqn:El; [done|]. apply orb_false_iff in El as [L1 L2].
  reflect_bools. rewrite take_ge by (rewrite length_app; cbn [length]; lia).
  unfold verify_signature. rewrite Hm, outcome_bind_Ret.
  destruct (verify_hs256 m _ _ sig) eqn:Ev; [|done].
  change (negb (is_ok SSO_OK)) with false. cbv iota.
  apply verify_hs256_sig in Ev as (i & Hpop & Hk & Hsig).
  destruct (base64url_decode p 4095) as [|b l] eqn:Ed; [done|].
  intros ([e out] & Hscan & Hr)%outcome_bind_inv. destruct (is_ok e) eqn:Ee; cbn [negb] in Hr; [|by simplify_eq].
  apply is_ok_true in Ee as ->. destruct (Z.ltb_spec (tk_expires_at out) now); [done|].
  injection Hr as <-. exists h, p, sig, i. rewrite Ed. by split_and!.
Qed.
End Sound.

(* ------------------------------------------------------------------ *)
(** ** Key rotation *)

Lemma kid_text_whole n : 0 ≤ n < 2 ^ 32 → kid_text n = ("sso-key-" : cstr) ++ print_dec n.
Proof.
  intros Hn. unfold kid_text. rewrite u32_small by done. apply take_ge. rewrite length_app.
  pose proof (print_dec_loop_length (S (Z.to_nat (Z.log2 n))) 9 n [] ltac:(lia)) as Hl.
  unfold print_dec, print_base, SSO_KEY_ID_MAX in *. simpl in *. lia.
Qed.

Lemma kid_text_inj a b : 0 ≤ a < 2 ^ 32 → 0 ≤ b < 2 ^ 32 → kid_text a = kid_text b → a = b.
Proof.
  intros Ha Hb. rewrite !kid_text_whole by done. intros Heq%app_inv_head.
  destruct (print_dec_spec a) as (_ & _ & <-); [lia|]. destruct (print_dec_spec b) as (_ & _ & <-); [lia|]. congruence.
Qed.

Lemma digits_plain s : Forall (λ c, is_digit c = true) s → plain_str s = true.
Proof.
  intros Hd. apply forallb_forall. intros c Hc. rewrite <- list_elem_of_In in Hc.
  apply (proj1 (Forall_forall _ s) Hd) in Hc. unfold is_digit in Hc. unfold plain_char. lia.
Qed.

Section Rotation.
Context `{Crypto}.
Context (alloc : Z → bool) (Halloc : ∀ n, alloc n = true).

(** The kids of the slots are numbered, apart, up to the counter. *)
Record keys_wf (m : token_manager) : Prop := {
  kw_mode : tm_mode m = SSO_TOKEN_MODE_HS256;
  kw_counter : 1 ≤ rotation_counter m < 2 ^ 32;
  kw_kids : ∃ a b, kid (slot_at m (active_slot m)) = kid_text a ∧ 1 ≤ a ≤ rotation_counter m ∧
    populated (slot_at m (active_slot m)) = true ∧
    (populated (slot_at m (negb (active_slot m))) = true →
     kid (slot_at m (negb (active_slot m))) = kid_text b ∧ 1 ≤ b ≤ rotation_counter m ∧ b ≠ a)
}.

Lemma init_keys_wf secret ttl m : token_manager_init secret ttl = (SSO_OK, Some m) → keys_wf m.
Proof.
  unfold token_manager_init. destruct secret; [done|]. intros [= <-]. constructor; [done|simpl; lia|].
  exists 1, 0. simpl. split_and!; [by vm_compute|lia|lia|done|done].
Qed.

Lemma keys_wf_can_sign m : keys_wf m → can_sign m.
Proof.
  intros [Hm Hc (a & b & Hk & Ha & _)]. constructor; [done|..]; rewrite Hk, kid_text_whole by lia.
  - apply plain_app; [done|]. apply digits_plain, print_dec_spec. lia.
  - done.
  - rewrite <- kid_text_whole by lia. unfold kid_text. rewrite length_take. unfold SSO_KEY_ID_MAX. lia.
Qed.

(** A rotation keeps the old signing key in the other slot. *)
Lemma rotate_step m secret m1 :
  keys_wf m → rotation_counter m + 1 < 2 ^ 32 → token_manager_rotate_key m secret = (SSO_OK, m1) →
  keys_wf m1 ∧ active_slot m1 = negb (active_slot m) ∧ rotation_counter m1 = rotation_counter m + 1 ∧
  slot_at m1 (active_slot m) = slot_at m (active_slot m) ∧
  kid (slot_at m1 (active_slot m1)) = kid_text (rotation_counter m + 1).
Proof.
  intros [Hm Hc (a & b & Hk & Ha & Hp & _)] Hlt. unfold token_manager_rotate_key.
  destruct secret as [|x l]; [done|]. intros [= <-].
  assert (Hn : next_kid m = rotation_counter m + 1) by (unfold next_kid; apply u32_small; lia).
  rewrite Hn. destruct m as [md s0 s1 act cnt ttl tb]. simpl in *.
  split_and!; [|done|done|by destruct act|by destruct act].
  constructor; simpl; [done|lia|]. exists (cnt + 1), a.
  destruct act; simpl in *; split_and!; try done; try lia; intros _; split_and!; try done; try lia.
Qed.

Lemma slot_index_at m i k :
  populated (slot_at m i) = true → kid (slot_at m i) = k →
  (populated (slot_at m (negb i)) = true → kid (slot_at m (negb i)) ≠ k) → slot_index_by_kid m k = Some i.
Proof.
  intros Hp Hk Ho. unfold slot_index_by_kid. destruct i; simpl in *.
  - destruct (populated (slot0 m) && strcmp_eq (kid (slot0 m)) k) eqn:E.
    { apply andb_true_iff in E as [Hp0 Hk0%strcmp_eq_iff]. by destruct (Ho Hp0). }
    rewrite Hp, Hk, strcmp_eq_refl. done.
  - by rewrite Hp, Hk, strcmp_eq_refl.
Qed.

(** Key rotation has a grace period of one rotation: after one
    rotation the old key still verifies (so every token issued before it
    does, by the round trip), and after two every token whose header
    names the old key is refused as invalid. *)
Theorem key_rotation m s1 m1 s2 m2 :
  keys_wf m → rotation_counter m + 2 < 2 ^ 32 →
  token_manager_rotate_key m s1 = (SSO_OK, m1) → token_manager_rotate_key m1 s2 = (SSO_OK, m2) →
  has_key m1 m ∧ keys_wf m2 ∧
  ∀ h p sig now, "."%char ∉ h → "."%char ∉ p → header_kid_of h = kid (slot_at m (active_slot m)) →
    ∃ t, token_verify alloc m2 (Some (h ++ "."%char :: p ++ "."%char :: sig)) now = Ret (SSO_ERR_TOKEN_INVALID, t).
Proof.
  intros Hwf Hlt Hr1 Hr2.
  destruct (rotate_step m s1 m1 Hwf ltac:(lia) Hr1) as (Hwf1 & Hact1 & Hc1 & Hold1 & Hk1).
  destruct (rotate_step m1 s2 m2 Hwf1 ltac:(lia) Hr2) as (Hwf2 & Hact2 & Hc2 & Hold2 & Hk2).
  pose proof (kw_counter m Hwf) as Hc. destruct (kw_kids m Hwf) as (a & b & Hka & Ha & Hpa & _).
  pose proof (keys_wf_can_sign m Hwf) as Hcs.
  split_and!; [|done|].
  - split; [by destruct Hwf1|]. exists (active_slot m). rewrite Hold1. split; [|done].
    apply slot_index_at; rewrite ?Hold1; [done|done|]. rewrite <- Hact1. intros _.
    rewrite Hk1, Hka. intros Heq%kid_text_inj; lia.
  - intros h p sig now Hh Hp Hkid. cbn [token_verify]. unfold token_verify_internal.
    rewrite !split_dot_app by done. rewrite !Halloc. cbn [negb orb]. destruct (_ || _); [by eexists|].
    unfold verify_signature. rewrite (kw_mode m2 Hwf2), outcome_bind_Ret. rewrite Hkid.
    assert (Hnone : slot_index_by_kid m2 (kid (slot_at m (active_slot m))) = None).
    { destruct (slot_index_by_kid m2 _) as [i|] eqn:E; [exfalso|done]. apply slot_index_found in E as [_ Hk].
      destruct (decide (i = active_slot m2)) as [->|Hi].
      - rewrite Hk2, Hka in Hk. apply kid_text_inj in Hk; lia.
      - assert (i = active_slot m1) as -> by (destruct i, (active_slot m1), (active_slot m2); simpl in *; congruence).
        rewrite Hold2, Hk1, Hka in Hk. apply kid_text_inj in Hk; lia. }
    unfold verify_hs256. destruct (kid (slot_at m (active_slot m))) as [|c k] eqn:Ek; [by destruct (cs_named m Hcs)|].
    rewrite Hnone. by eexists.
Qed.
End Rotation.

(* ------------------------------------------------------------------ *)
(** ** What the issuing side loses *)

(** A refreshed token is never bound to a DPoP key: whatever binding
    the old token had, the new one has none. *)
Theorem token_refresh_unbound `{Crypto, JsonWriter, Interner} alloc m old ttl now rand8 rand32 e t :
  token_refresh alloc m old ttl now rand8 rand32 = Ret (e, t) → tk_jkt t = [].
Proof.
  unfold token_refresh, token_issue. destruct (negb _); [done|].
  set (out := issue_claims _ _ _ _ _ _ _ _ _). assert (Hj : tk_jkt out = []) by done.
  destruct (match tk_role_ids old with [] => _ | _ => _ end); [by intros [= _ <-]|].
  destruct (match tk_group_ids old with [] => _ | _ => _ end); [by intros [= _ <-]|].
  destruct (yyjson_mut_write (header_json _ _)); [|done].
  destruct (yyjson_mut_write (payload_json out)); [|by intros [= _ <-]].
  destruct (_ || _); [by intros [= _ <-]|]. intros ([sig|] & _ & [= _ <-])%outcome_bind_inv; exact Hj.
Qed.

(** Managers and tokens for the concrete runs. *)
Definition sample_manager : token_manager (H := sample_crypto) :=
  {| tm_mode := SSO_TOKEN_MODE_HS256; slot0 := hs256_slot (H := sample_crypto) "sso-key-1" [1; 2; 3];
     slot1 := zero_slot (H := sample_crypto); active_slot := false; rotation_counter := 1;
     default_ttl_ms := 3600000; tables := empty_tables |}.

Definition sample_issue (roles : list Z) (scope : cstr) : outcome (sso_error_t * token_t) :=
  token_issue (H := sample_crypto) (H0 := sample_writer) (H1 := sample_interner) (λ _, true) sample_manager
    42 roles [] (Some scope) 0 (Some ("thumb" : cstr)) 1700000000000 [1; 2; 3; 4; 5; 6; 7; 8] [9; 9; 9].

Definition sample_verify (s : cstr) : outcome (sso_error_t * token_t) :=
  token_verify (H := sample_crypto) (λ _, true) sample_manager (Some s) 1700000000000.

(** Roles of a verified token that were not issued. *)
Definition invented_roles (roles : list Z) (scope : cstr) : option (list Z) :=
  match sample_issue roles scope with
  | Ret (SSO_OK, t) =>
      match sample_verify (token_str t) with
      | Ret (SSO_OK, t') => Some (filter (λ z, z ∉ roles) (tk_role_ids t'))
      | _ => None
      end
  | _ => None
  end.

Definition long_ids : list Z := map (λ i, 2 ^ 63 + Z.of_nat i) (seq 0 64).

(** A payload longer than its buffer is cut without an error, and the
    cut can fall inside a role id: the token below is issued and verifies
    with SSO_OK, and carries a role that was never granted, a prefix of a
    granted role's digits. *)
Theorem token_cut_invents_role :
  ∃ z, invented_roles long_ids
    "openid profile email address phone offline_access users:read users:write groups:read groups:write roles:read"
    = Some [z].
Proof. eexists. vm_compute. reflexivity. Qed.

(* ------------------------------------------------------------------ *)
(** ** Witnesses *)

Lemma sample_writer_laws : JsonWriterLaws (H := sample_writer).
Proof. done. Qed.
Lemma sample_interner_laws : InternerLaws (H := sample_interner).
Proof. intros s r Hr. by injection Hr. Qed.
Lemma sample_crypto_laws : CryptoLaws (H := sample_crypto).
Proof.
  intros k msg. cbn [hmac_sha256 sample_crypto]. split.
  - rewrite length_map, length_take, !length_app, length_replicate. lia.
  - apply Forall_forall. intros x Hx. apply list_elem_of_In, in_map_iff in Hx as (y & <- & _).
    apply Z.mod_pos_bound. lia.
Qed.

Lemma sample_manager_wf : keys_wf (H := sample_crypto) sample_manager.
Proof.
  constructor; [done|simpl; lia|]. exists 1, 0. simpl. split_and!; [by vm_compute|lia|lia|done|done].
Qed.

Lemma token_issue_verify_witness :
  let t := issue_claims (H := sample_crypto) sample_manager 42 [3; 5] [9] (Some ("read" : cstr)) 0 (Some ("thumb" : cstr))
             1700000000000 [1; 2; 3; 4; 5; 6; 7; 8] in
  ∃ body sig out,
    token_issue (H := sample_crypto) (H0 := sample_writer) (H1 := sample_interner) (λ _, true) sample_manager 42 [3; 5] [9]
      (Some ("read" : cstr)) 0 (Some ("thumb" : cstr)) 1700000000000 [1; 2; 3; 4; 5; 6; 7; 8] [9; 9; 9] = Ret (SSO_OK, out) ∧
    token_str out = body ++ "."%char :: sig ∧
    (is_hex_str sig = false →
     token_verify (H := sample_crypto) (λ _, true) sample_manager (Some (token_str out)) 1700000000001 =
       Ret (SSO_OK, verified t (token_str out))).
Proof.
  refine (token_issue_verify (H := sample_crypto) (H0 := sample_crypto_laws) (H1 := sample_writer)
    (H2 := sample_writer_laws) (H3 := sample_interner) (H4 := sample_interner_laws)
    (λ _, true) _ sample_manager sample_manager 42 [3; 5] [9] (Some ("read" : cstr)) 0 (Some ("thumb" : cstr))
    1700000000000 [1; 2; 3; 4; 5; 6; 7; 8] [9; 9; 9] 1700000000001 _ _ _ _ _ _ _ _ _ _ _ _ _).
  - done.
  - apply keys_wf_can_sign, sample_manager_wf.
  - split; [done|]. exists false. by split; vm_compute.
  - lia.
  - repeat apply Forall_cons_2; try lia. constructor.
  - repeat apply Forall_cons_2; try lia. constructor.
  - by vm_compute.
  - by vm_compute.
  - vm_compute. split; [discriminate|reflexivity].
  - lia.
  - vm_compute. split; [discriminate|reflexivity].
  - apply (bool_decide_unpack _). by vm_compute.
  - intros s. by eexists.
  - vm_compute. discriminate.
Defined.

Definition sample_text : cstr :=
  match sample_issue [3] "read" with Ret (_, t) => token_str t | _ => [] end.
Definition sample_result : token_t :=
  match sample_verify sample_text with Ret (_, t) => t | _ => zero_token end.

Lemma token_verify_sound_witness :
  ∃ h p sig i,
    sample_text = h ++ "."%char :: p ++ "."%char :: sig ∧ populated (H := sample_crypto) (slot_at sample_manager i) = true ∧
    (header_kid_of h = [] ∨ kid (H := sample_crypto) (slot_at sample_manager i) = header_kid_of h) ∧
    (let mac := hmac_sha256 (Crypto := sample_crypto) (slot_secret (H := sample_crypto) (slot_at sample_manager i))
                  (bytes_of (h ++ "."%char :: p)) in
     sig = base64url_encode mac 129 ∨ sig = to_hex mac 129) ∧
    1700000000000 ≤ tk_expires_at sample_result ∧
    scan_jwt_payload (λ _, true) (text_of (base64url_decode p 4095))
      (with_str (sso_strlcpy (Some sample_text) SSO_MAX_TOKEN_STR) zero_token) = Ret (SSO_OK, sample_result).
Proof.
  refine (token_verify_sound (H := sample_crypto) (λ _, true) sample_manager sample_text 1700000000000 sample_result _ _).
  - reflexivity.
  - vm_compute. reflexivity.
Defined.

Definition rotated (m : token_manager (H := sample_crypto)) (s : list Z) : token_manager (H := sample_crypto) :=
  (token_manager_rotate_key m s).2.

Lemma key_rotation_witness :
  let m1 := rotated sample_manager [4; 5] in let m2 := rotated m1 [6; 7] in
  has_key m1 sample_manager ∧ keys_wf m2 ∧
  ∀ h p sig now, "."%char ∉ h → "."%char ∉ p → header_kid_of h = ("sso-key-1" : cstr) →
    ∃ t, token_verify (λ _, true) m2 (Some (h ++ "."%char :: p ++ "."%char :: sig)) now = Ret (SSO_ERR_TOKEN_INVALID, t).
Proof.
  intros m1 m2.
  apply (key_rotation (H := sample_crypto) (λ _, true) (λ _, eq_refl) sample_manager [4; 5] m1 [6; 7] m2).
  - apply sample_manager_wf.
  - simpl. lia.
  - reflexivity.
  - reflexivity.
Defined.

Definition refreshed : outcome (sso_error_t * token_t) :=
  token_refresh (H := sample_crypto) (H0 := sample_writer) (H1 := sample_interner) (λ _, true) sample_manager
    sample_result 0 1700000000000 [1; 2; 3; 4; 5; 6; 7; 8] [9; 9; 9].

Lemma token_refresh_unbound_witness :
  tk_jkt sample_result = ("thumb" : cstr) ∧
  tk_jkt (match refreshed with Ret (_, t) => t | _ => sample_result end) = [].
Proof.
  split; [vm_compute; reflexivity|].
  apply (token_refresh_unbound (H := sample_crypto) (H0 := sample_writer) (H1 := sample_interner) (λ _, true) sample_manager
    sample_result 0 1700000000000 [1; 2; 3; 4; 5; 6; 7; 8] [9; 9; 9] SSO_OK).
  vm_compute. reflexivity.
Defined.
