(* ===== verification/Printf.v ===== *)
(** * Text written with printf

    Numbers, the cut of [snprintf], and the JSON texts the sources build
    by hand: members are joined by commas, and string values are put
    between quotes as they are. *)

From S2P Require Import Prelude CLib CNum Bits Base64 TokenState Token.

(** [snprintf(buf, n, ...)] of a text. *)
Definition snprintf (n : nat) (text : cstr) : cstr := take (n - 1) text.

(** [%lld], [%llu] and [%d] *)
Definition print_lld (z : Z) : cstr := if z <? 0 then "-"%char :: print_dec (- z) else print_dec z.
Definition print_llu (z : Z) : cstr := print_dec (u64 z).
Definition print_d (z : Z) : cstr := print_lld z.

Definition quoted_text (s : cstr) : cstr := QUOTE :: s ++ [QUOTE].
Definition member (k : string) (v : cstr) : cstr := quoted_text (list_ascii_of_string k) ++ ":"%char :: v.
Fixpoint commas (l : list cstr) : cstr :=
  match l with
  | [] => []
  | [x] => x
  | x :: l' => x ++ ","%char :: commas l'
  end.
Definition object (l : list cstr) : cstr := "{"%char :: commas l ++ ["}"%char].
Definition bool_text (b : bool) : cstr := if b then "true" else "false".

(** [strcat] onto a buffer of [cap] bytes that holds [s]. *)
Definition strcat (cap : nat) (s t : cstr) : outcome cstr :=
  if (length s + length t <? cap)%nat then Ret (s ++ t) else Crash.

(** The escaping loops: characters of the table [esc] take two, and the
    loop ends when fewer than three places are left of [cap]. *)
Fixpoint escape_loop (esc : ascii → option cstr) (lim j : nat) (s : cstr) : cstr :=
  match s with
  | [] => []
  | c :: s' =>
      if (j <? lim)%nat then
        match esc c with
        | Some t => t ++ escape_loop esc lim (j + length t) s'
        | None => c :: escape_loop esc lim (S j) s'
        end
      else []
  end.
Definition escape (esc : ascii → option cstr) (cap : nat) (s : cstr) : cstr := escape_loop esc (cap - 3) 0 s.

Definition backslash (c : ascii) : cstr := ["\"%char; c].
Definition esc_quote (c : ascii) : option cstr := if Ascii.eqb c QUOTE then Some (backslash QUOTE) else None.
Definition esc_line (c : ascii) : option cstr :=
  if Ascii.eqb c (chr 10) then Some (backslash "n") else esc_quote c.
Definition esc_trace (c : ascii) : option cstr :=
  if Ascii.eqb c (chr 9) then Some (backslash "t") else esc_line c.
Definition esc_name (c : ascii) : option cstr := if Ascii.eqb c "\" then Some (backslash "\") else esc_quote c.

(** Members joined by commas *)
Lemma commas_cons x l : l ≠ [] → commas (x :: l) = x ++ ","%char :: commas l.
Proof. by destruct l. Qed.
Lemma commas_app l m : l ≠ [] → m ≠ [] → commas (l ++ m) = commas l ++ ","%char :: commas m.
Proof.
  intros Hl Hm. induction l as [|x l IH]; [done|]. destruct l as [|y l]; [by destruct m|].
  rewrite <- app_comm_cons, !(commas_cons x), IH by done. by rewrite <- app_assoc.
Qed.

(** Every escaped text fits its buffer. *)
Lemma escape_loop_length esc lim s j :
  (∀ c t, esc c = Some t → length t = 2%nat) →
  (length (escape_loop esc lim j s) ≤ if (j <? lim)%nat then lim - j + 1 else 0)%nat.
Proof.
  intros He. revert j. induction s as [|c s IH]; intros j; cbn [escape_loop length]; [lia|].
  destruct (Nat.ltb_spec j lim); [|simpl; lia]. destruct (esc c) as [t|] eqn:E.
  - rewrite length_app, (He _ _ E). specialize (IH (j + 2)%nat). destruct (Nat.ltb_spec (j + 2) lim); lia.
  - simpl. specialize (IH (S j)). destruct (Nat.ltb_spec (S j) lim); lia.
Qed.
Lemma escape_length esc cap s :
  (3 ≤ cap)%nat → (∀ c t, esc c = Some t → length t = 2%nat) → (length (escape esc cap s) < cap)%nat.
Proof. intros Hc He. pose proof (escape_loop_length esc (cap - 3) s 0 He). unfold escape. destruct (0 <? cap - 3)%nat eqn:E; [apply Nat.ltb_lt in E|]; lia. Qed.
