(* ===== verification/AuditLog.v ===== *)
(** * The audit log (src/permission.c)

    Decisions and administrative changes are written as JSON lines to a
    log file and, if it takes them, to the storage backend.  With a secret
    configured every line carries an HMAC over its text and the HMAC of
    the line before, so that the lines form a chain.  The log is rotated
    by day or by size.

    Files are texts by path; stdio's buffering is left out.  The calendar,
    the answers of fopen and malloc and the clock are an environment. *)

From S2P Require Import Prelude CLib CNum Types Storage StorageMemory PermCache Context Bits Base64 TokenState Token TokenScan TokenJwt Printf.

Definition AUDIT_LOG_STAT_INTERVAL : Z := 100.

(** The static settings, from the configuration. *)
Record audit_settings := {
  s_audit_log_path : cstr; s_audit_log_max_size_mb : Z; s_audit_log_max_backups : Z; s_audit_log_rotate_daily : bool;
  s_audit_log_secret : cstr
}.

(** What the functions change: the day of the last look at the calendar,
    the last HMAC, the throttle of [stat], whether the log is open, and
    the files. *)
Record audit_state := {
  au_last_yday : Z; au_hmac_prev : list Z; au_stat_count : Z; au_open : bool; au_files : gmap cstr cstr
}.

(** [localtime] now and the date of yesterday, the wall clock, fopen and
    malloc. *)
Record audit_env := {
  ae_yday : option Z; ae_yesterday : option cstr; ae_wall : Z; ae_opens : cstr → bool; ae_alloc : Z → bool
}.

Definition set_files (f : gmap cstr cstr) (a : audit_state) : audit_state :=
  {| au_last_yday := au_last_yday a; au_hmac_prev := au_hmac_prev a; au_stat_count := au_stat_count a;
     au_open := au_open a; au_files := f |}.
Definition set_open (b : bool) (a : audit_state) : audit_state :=
  {| au_last_yday := au_last_yday a; au_hmac_prev := au_hmac_prev a; au_stat_count := au_stat_count a;
     au_open := b; au_files := au_files a |}.
Definition set_prev (h : list Z) (a : audit_state) : audit_state :=
  {| au_last_yday := au_last_yday a; au_hmac_prev := h; au_stat_count := au_stat_count a;
     au_open := au_open a; au_files := au_files a |}.

(** [rename]: nothing happens when there is no such file. *)
Definition rename (old new : cstr) (fs : gmap cstr cstr) : gmap cstr cstr :=
  match fs !! old with
  | Some t => <[new := t]> (delete old fs)
  | None => fs
  end.

(** [audit.log.i] *)
Definition backup_path (path : cstr) (i : nat) : cstr := snprintf 512 (path ++ "."%char :: print_dec (Z.of_nat i)).

(** [for (i = max_backups - 1; i > 0; i--) rename(path.i, path.(i+1))] *)
Fixpoint shift_backups (path : cstr) (i : nat) (fs : gmap cstr cstr) : gmap cstr cstr :=
  match i with
  | O => fs
  | S i' => shift_backups path i' (rename (backup_path path i) (backup_path path (S i)) fs)
  end.

Section Log.
Context `{Crypto} (cfg : audit_settings).
Notation path := (s_audit_log_path cfg).

Definition audit_log_close (a : audit_state) : audit_state := set_open false a.

(** The log, opened (and so created) if it was not. *)
Definition audit_log_open (ae : audit_env) (a : audit_state) : bool * audit_state :=
  if au_open a then (true, a)
  else if ae_opens ae path then (true, set_open true (set_files (<[path := default [] (au_files a !! path)]> (au_files a)) a))
  else (false, a).

(** The renaming at the end of a rotation. *)
Definition rotate_files (date_suffix : cstr) (fs : gmap cstr cstr) : gmap cstr cstr :=
  match date_suffix with
  | [] => rename path (backup_path path 1) (shift_backups path (Z.to_nat (s_audit_log_max_backups cfg - 1)) fs)
  | _ => rename path (snprintf 512 (path ++ date_suffix)) fs
  end.

(** Is the log to be rotated: the decision, the suffix, and the day. *)
Definition rotation_due (ae : audit_env) (a : audit_state) : bool * cstr * Z :=
  let '(daily, suffix, yday) :=
    match ae_yday ae with
    | Some d =>
        if s_audit_log_rotate_daily cfg then
          if negb (au_last_yday a =? -1) && negb (d =? au_last_yday a)
          then (true, default [] (ae_yesterday ae), d) else (false, [], d)
        else (false, [], au_last_yday a)
    | None => (false, [], au_last_yday a)
    end in
  let large :=
    match au_files a !! path with
    | Some t => (0 <? s_audit_log_max_size_mb cfg) && (s_audit_log_max_size_mb cfg * 1024 * 1024 <=? Z.of_nat (length t))
    | None => false
    end in
  (daily || large, suffix, yday).

Definition rotate_audit_log (ae : audit_env) (a : audit_state) : audit_state :=
  let n := u32 (au_stat_count a + 1) in
  let a := {| au_last_yday := au_last_yday a; au_hmac_prev := au_hmac_prev a; au_stat_count := n; au_open := au_open a;
              au_files := au_files a |} in
  if negb (n mod AUDIT_LOG_STAT_INTERVAL =? 0) then a
  else
    let '(due, suffix, yday) := rotation_due ae a in
    let a := {| au_last_yday := yday; au_hmac_prev := au_hmac_prev a; au_stat_count := n; au_open := au_open a;
                au_files := au_files a |} in
    if due then set_files (rotate_files suffix (au_files a)) (audit_log_close a) else a.

(* ------------------------------------------------------------------ *)
(** ** The chain *)

(** [sprintf("%02x")] of every byte. *)
Definition hex_text (l : list Z) : cstr := concat (map (λ b, zero_pad 2 (print_hex b)) l).

Definition sign_text (mac : list Z) : cstr :=
  ","%char :: member "signature" (quoted_text (hex_text mac)) ++ ["}"%char; chr 10].

Definition chain_mac (prev : list Z) (payload : cstr) : list Z :=
  hmac_sha256 (bytes_of (s_audit_log_secret cfg)) (prev ++ bytes_of payload).

(** The new HMAC and the text written. *)
Definition write_audit_entry_with_hmac (prev : list Z) (json_payload : cstr) : list Z * cstr :=
  match s_audit_log_secret cfg with
  | [] => (prev, json_payload ++ ["}"%char; chr 10])
  | _ => let mac := chain_mac prev json_payload in (mac, json_payload ++ sign_text mac)
  end.

(** Appending to the file [p], which is open. *)
Definition write_entry (p payload : cstr) (a : audit_state) : audit_state :=
  let '(mac, text) := write_audit_entry_with_hmac (au_hmac_prev a) payload in
  set_prev mac (set_files (<[p := default [] (au_files a !! p) ++ text]> (au_files a)) a).

(* ------------------------------------------------------------------ *)
(** ** Entries *)

Definition open_object (l : list cstr) : cstr := "{"%char :: commas l.

Definition decision_payload (wall user_id : Z) (allowed : bool) (trace : cstr) (duration_ms : Z) (cache_hit : bool) : cstr :=
  snprintf (8192 + 1024) (open_object
    [member "timestamp_ms" (print_llu wall); member "user_id" (print_llu user_id);
     member "decision" (quoted_text (if allowed then "ALLOW" else "DENY"));
     member "duration_ms" (print_llu duration_ms); member "cache_hit" (bool_text cache_hit);
     member "trace" (quoted_text (escape esc_trace 8192 trace))]).

Definition admin_payload (wall user_id : Z) (username ip operation resource : cstr) (resource_id : Z)
    (status details : cstr) : cstr :=
  snprintf (4096 + 1024) (open_object
    [member "action" (quoted_text "admin"); member "timestamp_ms" (print_llu wall); member "user_id" (print_llu user_id);
     member "username" (quoted_text (escape esc_name 256 username)); member "ip_address" (quoted_text (escape esc_quote 64 ip));
     member "operation" (quoted_text (escape esc_quote 64 operation));
     member "resource" (quoted_text (escape esc_quote 64 resource)); member "resource_id" (print_llu resource_id);
     member "status" (quoted_text (escape esc_quote 16 status));
     member "details" (quoted_text (escape esc_line 1024 details))]).

Section Backend.
Context {S : Type} (cx : sso_context S) (ae : audit_env).

(** [sb->audit_log_write], if the backend has it; its answer is not
    looked at. *)
Definition backend_entry (e : audit_log_entry_t) (st : S) : outcome S :=
  match cx_backend cx ≫= sb_audit_log_write with
  | Some write => '(_, st) ← write e st; Ret st
  | None => Ret st
  end.

Definition audit_log_decision (user_id : Z) (allowed : bool) (trace : cstr) (duration_ms : Z) (cache_hit : bool)
    (a : audit_state) (st : S) : outcome (audit_state * S) :=
  st ← backend_entry {| al_action := "eval"; al_timestamp_ms := ae_wall ae; al_user_id := user_id; al_username := None;
         al_ip_address := None; al_operation := None; al_resource := None; al_resource_id := 0;
         al_status := if allowed then "ALLOW" else "DENY"; al_details := None; al_duration_ms := duration_ms;
         al_cache_hit := cache_hit; al_trace := Some trace |} st;
  let '(opened, a) := audit_log_open ae (rotate_audit_log ae a) in
  if negb opened || negb (ae_alloc ae 8192) || negb (ae_alloc ae (8192 + 1024)) then Ret (a, st)
  else Ret (write_entry path (decision_payload (ae_wall ae) user_id allowed trace duration_ms cache_hit) a, st).

(** [cfg_path] is the path of the configuration of the context, NULL
    without one; a path other than the engine's is opened for the entry. *)
Definition admin_audit_log (cfg_path : option cstr) (user_id : Z) (username ip operation resource : cstr) (resource_id : Z)
    (status details : cstr) (a : audit_state) (st : S) : outcome (audit_state * S) :=
  st ← backend_entry {| al_action := "admin"; al_timestamp_ms := ae_wall ae; al_user_id := user_id;
         al_username := Some username; al_ip_address := Some ip; al_operation := Some operation;
         al_resource := Some resource; al_resource_id := resource_id; al_status := status; al_details := Some details;
         al_duration_ms := 0; al_cache_hit := false; al_trace := None |} st;
  let log_path := match cfg_path with Some (c :: p) => c :: p | _ => path end in
  let a := rotate_audit_log ae a in
  let '(opened, a) :=
    if strcmp_eq log_path path then audit_log_open ae a
    else if ae_opens ae log_path
    then (true, set_files (<[log_path := default [] (au_files a !! log_path)]> (au_files a)) a)
    else (false, a) in
  if negb opened || negb (ae_alloc ae (4096 + 1024)) then Ret (a, st)
  else Ret (write_entry log_path
              (admin_payload (ae_wall ae) user_id username ip operation resource resource_id status details) a, st).

End Backend.
End Log.

(* ================================================================== *)
(** ** The chain as its reader sees it *)

Section Chain.
Context `{CryptoLaws} (cfg : audit_settings).

(** A reader who knows the secret recomputes every line from the text
    before its signature. *)
Definition verify_line (prev : list Z) (line : cstr) : option (list Z) :=
  let payload := take (length line - 81) line in
  if bool_decide (line = payload ++ sign_text (chain_mac cfg prev payload)) then Some (chain_mac cfg prev payload) else None.
Fixpoint verify_chain (prev : list Z) (lines : list cstr) : option (list Z) :=
  match lines with
  | [] => Some prev
  | l :: ls => verify_line prev l ≫= λ mac, verify_chain mac ls
  end.

(** The lines of a sequence of payloads. *)
Fixpoint chain_lines (prev : list Z) (payloads : list cstr) : list cstr :=
  match payloads with
  | [] => []
  | p :: ps => (p ++ sign_text (chain_mac cfg prev p)) :: chain_lines (chain_mac cfg prev p) ps
  end.
Definition chain_end (prev : list Z) (payloads : list cstr) : list Z := fold_left (chain_mac cfg) payloads prev.

Lemma hex_byte b : 0 ≤ b < 256 → length (zero_pad 2 (print_hex b)) = 2%nat ∧ hex_pairs (zero_pad 2 (print_hex b)) = [b].
Proof.
  intros Hb.
  assert (Hall : forallb (λ n, bool_decide (length (zero_pad 2 (print_hex (Z.of_nat n))) = 2%nat) &&
                            bool_decide (hex_pairs (zero_pad 2 (print_hex (Z.of_nat n))) = [Z.of_nat n])) (seq 0 256) = true)
    by (vm_compute; reflexivity).
  assert (Hin : In (Z.to_nat b) (seq 0 256)) by (apply in_seq; lia).
  pose proof (proj1 (forallb_forall _ _) Hall _ Hin) as [H1 H2]%andb_true_iff.
  rewrite Z2Nat.id in H1, H2 by lia. split; [by apply bool_decide_eq_true in H1|by apply bool_decide_eq_true in H2].
Qed.

Lemma hex_text_pairs l : words 8 l → hex_pairs (hex_text l) = l ∧ length (hex_text l) = (2 * length l)%nat.
Proof.
  unfold words, hex_text. induction 1 as [|b l Hb Hl [IH1 IH2]]; [done|]. cbn [map concat].
  destruct (hex_byte b) as [Hn Hp]; [exact Hb|]. rewrite length_app, Hn, IH2. split; [|simpl; lia].
  destruct (zero_pad 2 (print_hex b)) as [|x [|y [|]]]; [done|done| |done]. simpl in *. injection Hp as ->. by rewrite IH1.
Qed.

Lemma chain_mac_words prev p : length (chain_mac cfg prev p) = 32%nat ∧ words 8 (chain_mac cfg prev p).
Proof. apply hmac_digest32. Qed.

Lemma sign_text_length prev p : length (sign_text (chain_mac cfg prev p)) = 81%nat.
Proof.
  destruct (chain_mac_words prev p) as [Hn Hw]. apply hex_text_pairs in Hw as [_ Hw]. unfold sign_text, member, quoted_text.
  repeat (cbn [length app]; rewrite ?length_app). rewrite Hw, Hn. reflexivity.
Qed.

Lemma verify_line_iff prev line mac :
  verify_line prev line = Some mac ↔ ∃ p, line = p ++ sign_text (chain_mac cfg prev p) ∧ mac = chain_mac cfg prev p.
Proof.
  unfold verify_line. split.
  - destruct (bool_decide _) eqn:E; [|done]. apply bool_decide_eq_true in E. intros [= <-]. eauto.
  - intros (p & -> & ->). rewrite length_app, sign_text_length, Nat.add_sub, take_app_length.
    by rewrite bool_decide_eq_true_2.
Qed.

(** What verifies is exactly what the writer writes. *)
Lemma verify_chain_iff prev lines mac :
  verify_chain prev lines = Some mac ↔ ∃ ps, lines = chain_lines prev ps ∧ mac = chain_end prev ps.
Proof.
  revert prev. induction lines as [|l ls IH]; intros prev; cbn [verify_chain].
  - split; [intros [= <-]; by exists []|]. intros ([|p ps] & Hl & ->); done.
  - rewrite bind_Some. split.
    + intros (m & (p & -> & ->)%verify_line_iff & (ps & -> & ->)%IH). by exists (p :: ps).
    + intros ([|p ps] & Hl & ->); [done|]. injection Hl as -> ->. exists (chain_mac cfg prev p).
      split; [apply verify_line_iff; eauto|]. apply IH. eauto.
Qed.

(** A way around the chain: two messages with the same HMAC, or one whose
    HMAC is the value the chain starts from. *)
Definition hmac_broken (start : list Z) : Prop :=
  (∃ key m m', m ≠ m' ∧ hmac_sha256 key m = hmac_sha256 key m') ∨ (∃ key m, hmac_sha256 key m = start).

Lemma bytes_of_inj p q : bytes_of p = bytes_of q → p = q.
Proof.
  revert q. induction p as [|c p IH]; intros [|d q]; [done|done|done|]. cbn. intros [= Hc Hp].
  apply IH in Hp as ->. f_equal. by apply ord_inj.
Qed.

Lemma chain_mac_inj prev prev' p p' start :
  length prev = 32%nat → length prev' = 32%nat → chain_mac cfg prev p = chain_mac cfg prev' p' →
  hmac_broken start ∨ (prev = prev' ∧ p = p').
Proof.
  intros Hp Hp' He. destruct (decide (prev ++ bytes_of p = prev' ++ bytes_of p')) as [E|E].
  - right. apply app_inj_1 in E as [-> E]; [|by rewrite Hp, Hp']. split; [done|]. by apply bytes_of_inj.
  - left. left. by eexists _, _, _.
Qed.

Lemma chain_end_snoc prev ps p : chain_end prev (ps ++ [p]) = chain_mac cfg (chain_end prev ps) p.
Proof. unfold chain_end. by rewrite fold_left_app. Qed.
Lemma chain_end_length prev ps : length prev = 32%nat → length (chain_end prev ps) = 32%nat.
Proof.
  intros Hp. destruct ps as [|p ps _] using rev_ind; [done|]. rewrite chain_end_snoc. apply chain_mac_words.
Qed.

Lemma chain_end_inj prev ps ps' :
  length prev = 32%nat → chain_end prev ps = chain_end prev ps' → hmac_broken prev ∨ ps = ps'.
Proof.
  intros Hp. revert ps'. induction ps as [|p ps IH] using rev_ind; intros ps';
    (destruct ps' as [|p' ps' _] using rev_ind; [|rewrite chain_end_snoc]).
  - by right.
  - intros He. left. right. by eexists _, _.
  - rewrite chain_end_snoc. intros He. left. right. by eexists _, _.
  - rewrite chain_end_snoc. intros He.
    apply (chain_mac_inj _ _ _ _ prev) in He as [He|[He ->]]; [by left| |by apply chain_end_length..].
    apply IH in He as [He| ->]; [by left|by right].
Qed.

Lemma chain_lines_length prev ps : length (chain_lines prev ps) = length ps.
Proof. revert prev. induction ps as [|p ps IH]; intros prev; [done|]. cbn. by rewrite IH. Qed.

(** A line determines its payload and its HMAC. *)
Lemma line_inj prev prev' p p' :
  p ++ sign_text (chain_mac cfg prev p) = p' ++ sign_text (chain_mac cfg prev' p') →
  p = p' ∧ chain_mac cfg prev p = chain_mac cfg prev' p'.
Proof.
  intros Hh. assert (Hlen : length p = length p').
  { apply (f_equal length) in Hh. rewrite !length_app, !sign_text_length in Hh. lia. }
  apply app_inj_1 in Hh as [-> Hh]; [|done]. split; [done|]. unfold sign_text, member, quoted_text in Hh. injection Hh as Hh.
  do 2 (apply app_inj_2 in Hh as [Hh _]; [|done]). apply (f_equal hex_pairs) in Hh. by rewrite !(proj1 (hex_text_pairs _ (proj2 (chain_mac_words _ _)))) in Hh.
Qed.

Lemma chain_lines_app prev qs ps l :
  chain_lines prev qs ++ l = chain_lines prev ps → ∃ ps', l = chain_lines (chain_end prev qs) ps'.
Proof.
  revert prev ps. induction qs as [|q qs IH]; intros prev ps Hl; [by eexists|].
  destruct ps as [|p ps]; [done|]. cbn in Hl. injection Hl as Hh Hl. apply line_inj in Hh as [-> _]. by apply IH in Hl.
Qed.

End Chain.

(* ------------------------------------------------------------------ *)
(** ** Sequences of entries *)

Inductive audit_event :=
| AuDecision (ae : audit_env) (user_id : Z) (allowed : bool) (trace : cstr) (duration_ms : Z) (cache_hit : bool)
| AuAdmin (ae : audit_env) (user_id : Z) (username ip operation resource : cstr) (resource_id : Z) (status details : cstr).

Definition event_env (ev : audit_event) : audit_env := match ev with AuDecision ae _ _ _ _ _ | AuAdmin ae _ _ _ _ _ _ _ _ => ae end.
Definition event_payload (ev : audit_event) : cstr :=
  match ev with
  | AuDecision ae u al t d h => decision_payload (ae_wall ae) u al t d h
  | AuAdmin ae u n ip op rs ri s d => admin_payload (ae_wall ae) u n ip op rs ri s d
  end.

Section Events.
Context {S : Type} `{CryptoLaws} (cx : sso_context S) (cfg : audit_settings) (cfg_path : option cstr).
Notation path := (s_audit_log_path cfg).

Definition log_event (ev : audit_event) (a : audit_state) (st : S) : outcome (audit_state * S) :=
  match ev with
  | AuDecision ae u al t d h => audit_log_decision cfg cx ae u al t d h a st
  | AuAdmin ae u n ip op rs ri s d => admin_audit_log cfg cx ae cfg_path u n ip op rs ri s d a st
  end.
Fixpoint log_events (evs : list audit_event) (a : audit_state) (st : S) : outcome (audit_state * S) :=
  match evs with
  | [] => Ret (a, st)
  | ev :: evs => '(a, st) ← log_event ev a st; log_events evs a st
  end.

(** One log, signed, never rotated, and an environment in which nothing
    fails. *)
Definition one_log : Prop :=
  s_audit_log_secret cfg ≠ [] ∧ s_audit_log_max_size_mb cfg ≤ 0 ∧ s_audit_log_rotate_daily cfg = false ∧
  (cfg_path = None ∨ cfg_path = Some path).
Definition no_failures (ae : audit_env) : Prop := (∀ p, ae_opens ae p = true) ∧ (∀ n, ae_alloc ae n = true).

Lemma rotate_keeps_files ae a :
  one_log → au_files (rotate_audit_log cfg ae a) = au_files a ∧ au_hmac_prev (rotate_audit_log cfg ae a) = au_hmac_prev a.
Proof.
  intros (_ & Hm & Hd & _). unfold rotate_audit_log. destruct (negb _); [done|]. unfold rotation_due. rewrite Hd.
  destruct (Z.ltb_spec 0 (s_audit_log_max_size_mb cfg)); [lia|].
  destruct (ae_yday ae); cbn [au_files]; destruct (au_files a !! path); done.
Qed.

Lemma open_keeps_files ae a :
  no_failures ae →
  (audit_log_open cfg ae a).1 = true ∧ au_hmac_prev (audit_log_open cfg ae a).2 = au_hmac_prev a ∧
  default [] (au_files (audit_log_open cfg ae a).2 !! path) = default [] (au_files a !! path).
Proof.
  intros [Ho _]. unfold audit_log_open. destruct (au_open a); [done|]. rewrite Ho. cbn [au_files set_open set_files fst snd].
  by rewrite lookup_insert_eq.
Qed.

Lemma write_entry_spec p a :
  s_audit_log_secret cfg ≠ [] →
  au_files (write_entry cfg path p a) !! path =
    Some (default [] (au_files a !! path) ++ p ++ sign_text (chain_mac cfg (au_hmac_prev a) p)) ∧
  au_hmac_prev (write_entry cfg path p a) = chain_mac cfg (au_hmac_prev a) p.
Proof.
  intros Hs. unfold write_entry, write_audit_entry_with_hmac. destruct (s_audit_log_secret cfg); [done|].
  cbn [au_files au_hmac_prev set_prev set_files]. by rewrite lookup_insert_eq.
Qed.

Lemma log_event_spec ev a st a' st' :
  one_log → no_failures (event_env ev) → log_event ev a st = Ret (a', st') →
  let p := event_payload ev in
  au_files a' !! path = Some (default [] (au_files a !! path) ++ p ++ sign_text (chain_mac cfg (au_hmac_prev a) p)) ∧
  au_hmac_prev a' = chain_mac cfg (au_hmac_prev a) p.
Proof.
  intros Hc Hf He. destruct (rotate_keeps_files (event_env ev) a Hc) as [Rf Rp].
  destruct (open_keeps_files (event_env ev) (rotate_audit_log cfg (event_env ev) a) Hf) as (Oo & Op & Of).
  destruct Hc as (Hs & _ & _ & Hcp). rewrite Rp in Op. rewrite Rf in Of.
  destruct (audit_log_open cfg (event_env ev) (rotate_audit_log cfg (event_env ev) a)) as [o b] eqn:Eo.
  cbn [fst snd] in *. subst o. rewrite <- Op, <- Of.
  destruct ev as [ae u al t d h|ae u n ip op rs ri s d]; cbn [event_env] in *;
    cbn [log_event] in He; unfold audit_log_decision, admin_audit_log in He.
  - apply outcome_bind_inv in He as (s1 & _ & He). rewrite Eo in He. destruct Hf as [_ Hf]. rewrite !Hf in He.
    cbn [negb orb] in He. injection He as <- <-. by apply write_entry_spec.
  - apply outcome_bind_inv in He as (s1 & _ & He).
    replace (match cfg_path with Some (c :: p) => c :: p | _ => path end) with path in He
      by (destruct Hcp as [->| ->]; [done|by destruct path]).
    rewrite strcmp_eq_refl, Eo in He. destruct Hf as [_ Hf]. rewrite Hf in He.
    cbn [negb orb] in He. injection He as <- <-. by apply write_entry_spec.
Qed.

Lemma log_events_spec evs a st a' st' :
  one_log → Forall (λ ev, no_failures (event_env ev)) evs → evs ≠ [] → log_events evs a st = Ret (a', st') →
  au_files a' !! path =
    Some (default [] (au_files a !! path) ++ concat (chain_lines cfg (au_hmac_prev a) (map event_payload evs))) ∧
  au_hmac_prev a' = chain_end cfg (au_hmac_prev a) (map event_payload evs).
Proof.
  intros Hc Hf. revert a st. induction Hf as [|ev evs Hev Hf IH]; [done|]. intros a st _ He. cbn [log_events] in He.
  apply outcome_bind_inv in He as ([a1 s1] & He & Hr). apply log_event_spec in He as [Hfile Hprev]; [|done|done].
  cbn [map chain_lines concat]. destruct evs as [|ev2 evs].
  - injection Hr as <- <-. cbn. rewrite Hfile, Hprev, app_nil_r. done.
  - apply IH in Hr as [Hfile' Hprev']; [|done]. rewrite Hfile', Hprev', Hprev, Hfile. cbn [default from_option id].
    by rewrite <- !app_assoc.
Qed.


(** A restart breaks the chain (counterexample to an audit log that can
    be checked as a whole): the HMAC of the last line lives in memory and
    starts again from zero, while the file is appended to; a log with
    lines from before and after a restart never verifies, short of a
    broken HMAC. *)
Theorem audit_restart_breaks_chain evs evs2 a st a1 st1 a2 st2 :
  one_log → Forall (λ ev, no_failures (event_env ev)) (evs ++ evs2) → evs ≠ [] → evs2 ≠ [] →
  au_hmac_prev a = replicate 32 0 → au_files a !! path = None →
  log_events evs a st = Ret (a1, st1) →
  log_events evs2 (set_prev (replicate 32 0) (set_open false a1)) st1 = Ret (a2, st2) →
  ∃ lines, au_files a2 !! path = Some (concat lines) ∧ length lines = length (evs ++ evs2) ∧
    (verify_chain cfg (replicate 32 0) lines = None ∨ hmac_broken (replicate 32 0)).
Proof.
  intros Hc [Hf1 Hf2]%Forall_app Hn1 Hn2 Hp Hfile He1 He2.
  apply log_events_spec in He1 as [Hf' Hp']; [|done..]. apply log_events_spec in He2 as [Hf'' _]; [|done..].
  cbn [au_files au_hmac_prev set_prev set_open] in Hf''. rewrite Hf', Hfile, Hp in Hf''. rewrite Hp in Hp'. cbn [default from_option id app] in Hf''.
  set (z := replicate 32 0) in *. rewrite <- concat_app in Hf''.
  eexists. split_and!; [exact Hf''| |].
  - by rewrite !length_app, !chain_lines_length, !length_map.
  - destruct (verify_chain cfg z _) as [mac|] eqn:Ev; [|by left]. right.
    apply verify_chain_iff in Ev as (ps & Hl & _). apply chain_lines_app in Hl as ([|p' ps'] & Hl);
      (destruct evs2 as [|ev2 evs2]; [done|]); [done|]. cbn in Hl. injection Hl as [_ Hh]%line_inj _.
    apply (chain_mac_inj _ _ _ _ _ z) in Hh as [Hb|[Hz _]]; [done| |done|by apply chain_end_length].
    destruct evs as [|ev evs _] using rev_ind; [done|]. rewrite map_app in Hz. cbn [map] in Hz. rewrite chain_end_snoc in Hz.
    right. by eexists _, _.
Qed.

End Events.

(* ------------------------------------------------------------------ *)
(** ** Rotation *)

(** Paths that fit the settings and numbers of an int. *)
Lemma backup_path_whole path i :
  (length path ≤ 255)%nat → Z.of_nat i < 2 ^ 31 → backup_path path i = path ++ "."%char :: print_dec (Z.of_nat i).
Proof.
  intros Hp Hi. unfold backup_path, snprintf. apply take_ge. rewrite length_app. cbn [length].
  pose proof (print_dec_loop_length (S (Z.to_nat (Z.log2 (Z.of_nat i)))) 9 (Z.of_nat i) []) as Hl.
  cbn [length] in Hl. unfold print_dec, print_base. lia.
Qed.

Lemma backup_path_inj path i j :
  (length path ≤ 255)%nat → Z.of_nat i < 2 ^ 31 → Z.of_nat j < 2 ^ 31 → backup_path path i = backup_path path j → i = j.
Proof.
  intros Hp Hi Hj. rewrite !backup_path_whole by done. intros E. apply app_inv_head in E. injection E as E.
  apply (f_equal digits_val) in E. destruct (print_dec_spec (Z.of_nat i)) as (_ & _ & Hvi); [lia|].
  destruct (print_dec_spec (Z.of_nat j)) as (_ & _ & Hvj); [lia|]. lia.
Qed.

Lemma backup_path_ne path i : (length path ≤ 255)%nat → Z.of_nat i < 2 ^ 31 → backup_path path i ≠ path.
Proof.
  intros Hp Hi. rewrite backup_path_whole by done. intros E. apply (f_equal length) in E. rewrite length_app in E. simpl in E. lia.
Qed.

Lemma rename_ne old new fs k : k ≠ old → k ≠ new → rename old new fs !! k = fs !! k.
Proof. intros Ho Hn. unfold rename. destruct (fs !! old); [|done]. by rewrite lookup_insert_ne, lookup_delete_ne. Qed.

Lemma shift_backups_spec path i fs :
  (length path ≤ 255)%nat → Z.of_nat (S i) < 2 ^ 31 →
  (∀ k, (∀ j, (1 ≤ j ≤ S i)%nat → k ≠ backup_path path j) → shift_backups path i fs !! k = fs !! k) ∧
  (∀ j t, (1 ≤ j ≤ i)%nat → fs !! backup_path path j = Some t → shift_backups path i fs !! backup_path path (S j) = Some t).
Proof.
  intros Hp. revert fs. induction i as [|i IH]; intros fs Hi; [split; [done|lia]|]. cbn [shift_backups].
  destruct (IH (rename (backup_path path (S i)) (backup_path path (S (S i))) fs)) as [IHk IHj]; [lia|].
  assert (Hne : ∀ a b, (a ≤ S (S i))%nat → (b ≤ S (S i))%nat → a ≠ b → backup_path path a ≠ backup_path path b)
    by (intros a b Ha Hb Hab E; apply backup_path_inj in E; [done|done|lia|lia]).
  split.
  - intros k Hk. rewrite IHk by (intros j Hj; apply Hk; lia). apply rename_ne; apply Hk; lia.
  - intros j t Hj Ht. destruct (decide (j = S i)) as [->|Hji].
    + rewrite IHk by (intros j' Hj'; apply Hne; lia). unfold rename. rewrite Ht. apply lookup_insert_eq.
    + apply IHj; [lia|]. rewrite rename_ne; [done|apply Hne; lia|apply Hne; lia].
Qed.

(** Rotation by size keeps the log (functional): with [n] backups
    configured the log becomes backup 1 and backup [i] becomes backup
    [i + 1], no other file is touched, and so nothing but the oldest
    backup is lost. *)
Theorem rotation_keeps_backups cfg fs t :
  let path := s_audit_log_path cfg in
  let n := s_audit_log_max_backups cfg in
  (length path ≤ 255)%nat → 1 ≤ n < 2 ^ 31 → fs !! path = Some t →
  let fs' := rotate_files cfg [] fs in
  fs' !! path = None ∧ fs' !! backup_path path 1 = Some t ∧
  (∀ i x, 1 ≤ Z.of_nat i < n → fs !! backup_path path i = Some x → fs' !! backup_path path (S i) = Some x) ∧
  (∀ k, k ≠ path → (∀ i, 1 ≤ Z.of_nat i ≤ n → k ≠ backup_path path i) → fs' !! k = fs !! k).
Proof.
  intros path n Hp Hn Ht. unfold rotate_files. fold path n.
  destruct (shift_backups_spec path (Z.to_nat (n - 1)) fs) as [Sk Sj]; [done|lia|].
  assert (Hpath : shift_backups path (Z.to_nat (n - 1)) fs !! path = Some t)
    by (rewrite Sk; [done|]; intros j Hj E; symmetry in E; apply backup_path_ne in E; [done|done|lia]).
  assert (H1 : backup_path path 1 ≠ path) by (apply backup_path_ne; [done|lia]).
  split_and!.
  - unfold rename. rewrite Hpath, lookup_insert_ne, lookup_delete_eq; done.
  - unfold rename. rewrite Hpath. apply lookup_insert_eq.
  - intros i x Hi Hx. rewrite rename_ne; [apply Sj; [lia|done]|apply backup_path_ne; [done|lia]|].
    intros E. apply backup_path_inj in E; [lia|done|lia|lia].
  - intros k Hk Hb. rewrite rename_ne; [|done|apply (Hb 1%nat); lia]. apply Sk. intros j Hj. apply Hb. lia.
Qed.

(* ------------------------------------------------------------------ *)
(** ** Witnesses *)

Definition audit_cfg : audit_settings :=
  {| s_audit_log_path := "audit.log"; s_audit_log_max_size_mb := 0; s_audit_log_max_backups := 3;
     s_audit_log_rotate_daily := false; s_audit_log_secret := "k" |}.
Definition audit_boot : audit_state :=
  {| au_last_yday := 0; au_hmac_prev := replicate 32 0; au_stat_count := 0; au_open := false; au_files := ∅ |}.
Definition quiet_env : audit_env :=
  {| ae_yday := Some 0; ae_yesterday := None; ae_wall := 1700000000000; ae_opens := λ _, true; ae_alloc := λ _, true |}.
Definition sample_events : list audit_event :=
  [AuDecision quiet_env 7 true "Result: ALLOWED" 2 false;
   AuAdmin quiet_env 1 "root" "10.0.0.1" "create_user" "users" 9 "success" "ok"].
Notation audit_run := (log_events (H := sample_crypto) (mem_context 0 (λ _, true) 8) audit_cfg None).

Lemma audit_runs :
  ∃ a1 st1 a2 st2, audit_run sample_events audit_boot mem_open = Ret (a1, st1) ∧
    audit_run sample_events (set_prev (replicate 32 0) (set_open false a1)) st1 = Ret (a2, st2).
Proof.
  assert (Hr : bool_decide (is_Some (returned ('(a1, st1) ← audit_run sample_events audit_boot mem_open;
    audit_run sample_events (set_prev (replicate 32 0) (set_open false a1)) st1))) = true) by (vm_compute; reflexivity).
  apply bool_decide_eq_true in Hr as [[a2 st2] Hr]. apply returned_bind in Hr as ([a1 st1] & Hr & Hr2). eauto 6.
Qed.


Lemma audit_restart_breaks_chain_witness :
  ∃ a1 st1 a2 st2, audit_run sample_events audit_boot mem_open = Ret (a1, st1) ∧
    audit_run sample_events (set_prev (replicate 32 0) (set_open false a1)) st1 = Ret (a2, st2) ∧
    ∃ lines, au_files a2 !! s_audit_log_path audit_cfg = Some (concat lines) ∧ length lines = 4%nat.
Proof.
  destruct audit_runs as (a1 & st1 & a2 & st2 & Hr & Hr2). exists a1, st1, a2, st2. split; [exact Hr|]. split; [exact Hr2|].
  destruct (audit_restart_breaks_chain (H := sample_crypto) (H0 := sample_crypto_laws) (mem_context 0 (λ _, true) 8) audit_cfg None
              sample_events sample_events audit_boot mem_open a1 st1 a2 st2) as (lines & Hf & Hl & _).
  - split_and!; [discriminate|reflexivity|reflexivity|left; reflexivity].
  - repeat constructor.
  - discriminate.
  - discriminate.
  - reflexivity.
  - reflexivity.
  - exact Hr.
  - exact Hr2.
  - exists lines. split; [exact Hf|exact Hl].
Defined.

Lemma rotation_keeps_backups_witness :
  rotate_files audit_cfg [] {[s_audit_log_path audit_cfg := "x" : cstr]} !! backup_path (s_audit_log_path audit_cfg) 1 =
    Some ("x" : cstr).
Proof.
  destruct (rotation_keeps_backups audit_cfg {[s_audit_log_path audit_cfg := "x" : cstr]} ("x" : cstr)) as (_ & H1 & _).
  - vm_compute. lia.
  - vm_compute. split; [discriminate|reflexivity].
  - reflexivity.
  - exact H1.
Defined.
