(* ===== verification/Intern.v ===== *)
(** * String interning (src/intern.c)

    The global pool of unique strings: a chained hash table that doubles
    at three quarters of its capacity.  A pointer is an address; the
    bytes behind it are those of its node.  [intern_string_len] takes the
    read lock for a first search and the write lock for the rest, and is
    modelled as these two critical sections; [pool_step] interleaves the
    sections of any number of threads.  The pool implements the
    [Interner] the token manager relies on. *)

From S2P Require Import Prelude CLib Token.

Definition INTERN_INITIAL_CAPACITY : nat := 1024.

Record intern_node_t := { in_ptr : Z; in_str : list ascii; in_len : nat }.

(** [g_intern_table], its capacity and count, and the address the next
    allocation returns. *)
Record intern_pool := {
  g_intern_table : option (list (list intern_node_t));
  g_intern_capacity : Z; g_intern_count : Z; heap_next : Z
}.

Definition zero_pool : intern_pool :=
  {| g_intern_table := None; g_intern_capacity := 0; g_intern_count := 0; heap_next := 1 |}.

(** [hash_string]: FNV-1a on size_t. *)
Definition fnv_string (str : list ascii) : Z :=
  fold_left (λ h c, u64 (Z.lxor h (ord c) * 1099511628211)) str 14695981039346656037.

(** [calloc]: the size of the array must not overflow. *)
Definition calloc_ok (alloc : Z → bool) (n size : Z) : bool := (n * size <? 2 ^ 64) && alloc (n * size).

Definition intern_init (alloc : Z → bool) : intern_pool :=
  {| g_intern_table := if calloc_ok alloc (Z.of_nat INTERN_INITIAL_CAPACITY) 8
                       then Some (replicate INTERN_INITIAL_CAPACITY []) else None;
     g_intern_capacity := Z.of_nat INTERN_INITIAL_CAPACITY; g_intern_count := 0; heap_next := 1 |}.

(** [hash & (capacity - 1)] *)
Definition intern_idx (str : list ascii) (cap : Z) : nat := Z.to_nat (Z.land (fnv_string str) (u64 (cap - 1))).

(** The walk along a bucket. *)
Definition intern_find (str : list ascii) (bucket : list intern_node_t) : option Z :=
  first_match (λ n, (in_len n =? length str)%nat && bool_decide (in_str n = str)) in_ptr bucket.

(** The bucket of a string; reading through a NULL table or past its end
    is undefined. *)
Definition intern_bucket (str : list ascii) (g : intern_pool) : outcome (list intern_node_t) :=
  match g_intern_table g with
  | None => Crash
  | Some t => match t !! intern_idx str (g_intern_capacity g) with None => Crash | Some b => Ret b end
  end.

(** The search both critical sections begin with. *)
Definition intern_lookup (str : list ascii) (g : intern_pool) : outcome (option Z) :=
  b ← intern_bucket str g; Ret (intern_find str b).

(** Pushing a node on its bucket. *)
Definition push_node (cap : Z) (t : list (list intern_node_t)) (n : intern_node_t) : list (list intern_node_t) :=
  alter (cons n) (intern_idx (in_str n) cap) t.

(** Moving every node, bucket by bucket, to a table of [new_cap]. *)
Definition rehash (t : list (list intern_node_t)) (new_cap : Z) : list (list intern_node_t) :=
  fold_left (λ acc b, fold_left (push_node new_cap) b acc) t (replicate (Z.to_nat new_cap) []).

Section Pool.
Context (alloc : Z → bool).

(** The resize at a load of three quarters; without memory the table
    stays. *)
Definition intern_resize (t : list (list intern_node_t)) (g : intern_pool) : list (list intern_node_t) * Z :=
  let cap := g_intern_capacity g in
  if u64 (cap * 3) / 4 <=? g_intern_count g then
    let new_cap := u64 (cap * 2) in
    if calloc_ok alloc new_cap 8 then (rehash t new_cap, new_cap) else (t, cap)
  else (t, cap).

(** The second critical section: search again, resize, insert. *)
Definition intern_insert (str : list ascii) (g : intern_pool) : outcome (option Z * intern_pool) :=
  found ← intern_lookup str g;
  match found with
  | Some p => Ret (Some p, g)
  | None =>
      match g_intern_table g with
      | None => Crash
      | Some t =>
          let '(t, cap) := intern_resize t g in
          let resized := {| g_intern_table := Some t; g_intern_capacity := cap;
                            g_intern_count := g_intern_count g; heap_next := heap_next g |} in
          if negb (alloc 24) then Ret (None, resized)
          else if negb (alloc (Z.of_nat (length str) + 1)) then Ret (None, resized)
          else
            let n := {| in_ptr := heap_next g; in_str := str; in_len := length str |} in
            Ret (Some (in_ptr n),
                 {| g_intern_table := Some (push_node cap t n); g_intern_capacity := cap;
                    g_intern_count := u64 (g_intern_count g + 1); heap_next := heap_next g + 1 |})
      end
  end.

(** [intern_string_len] run without interruption. *)
Definition intern_string_len (str : list ascii) (g : intern_pool) : outcome (option Z * intern_pool) :=
  found ← intern_lookup str g;
  match found with
  | Some p => Ret (Some p, g)
  | None => intern_insert str g
  end.

(** [intern_string] *)
Definition intern_c_string (str : option cstr) (g : intern_pool) : outcome (option Z * intern_pool) :=
  match str with None => Ret (None, g) | Some s => intern_string_len s g end.

(** [intern_destroy] *)
Definition intern_destroy (g : intern_pool) : intern_pool :=
  match g_intern_table g with
  | None => g
  | Some _ => {| g_intern_table := None; g_intern_capacity := 0; g_intern_count := 0; heap_next := heap_next g |}
  end.

(** A thread's call: before its first section, between the two, returned. *)
Inductive call := Fast (str : list ascii) | Slow (str : list ascii) | Done (str : list ascii) (r : option Z).

(** A critical section of one of the threads. *)
Inductive pool_step : intern_pool * list call → intern_pool * list call → Prop :=
| step_hit g cs i str p :
    cs !! i = Some (Fast str) → intern_lookup str g = Ret (Some p) →
    pool_step (g, cs) (g, <[i := Done str (Some p)]> cs)
| step_miss g cs i str :
    cs !! i = Some (Fast str) → intern_lookup str g = Ret None →
    pool_step (g, cs) (g, <[i := Slow str]> cs)
| step_insert g cs i str r g' :
    cs !! i = Some (Slow str) → intern_insert str g = Ret (r, g') →
    pool_step (g, cs) (g', <[i := Done str r]> cs).

End Pool.

(* ================================================================== *)
(** ** The pool as a map *)

Definition nodes (g : intern_pool) : list intern_node_t :=
  match g_intern_table g with Some t => concat t | None => [] end.

(** The pointer of a string and the text of a pointer. *)
Definition pointer_of (g : intern_pool) (str : list ascii) (p : Z) : Prop :=
  ∃ n, n ∈ nodes g ∧ in_str n = str ∧ in_ptr n = p.
Definition text_at (g : intern_pool) (p : Z) : option (list ascii) :=
  first_match (λ n, in_ptr n =? p) in_str (nodes g).

Record table_wf (t : list (list intern_node_t)) (cap : Z) : Prop := {
  tw_cap : ∃ k, 0 ≤ k ≤ 61 ∧ cap = 2 ^ k;
  tw_length : Z.of_nat (length t) = cap;
  tw_idx : ∀ i b n, t !! i = Some b → n ∈ b → i = intern_idx (in_str n) cap
}.

Record nodes_wf (ns : list intern_node_t) (next : Z) : Prop := {
  nw_len : ∀ n, n ∈ ns → in_len n = length (in_str n);
  nw_str : NoDup (in_str <$> ns);
  nw_ptr : NoDup (in_ptr <$> ns);
  nw_next : ∀ n, n ∈ ns → in_ptr n < next
}.

Definition pool_wf (g : intern_pool) : Prop :=
  ∃ t, g_intern_table g = Some t ∧ table_wf t (g_intern_capacity g) ∧ nodes_wf (concat t) (heap_next g).

Lemma intern_idx_lt str cap k : 0 ≤ k ≤ 61 → cap = 2 ^ k → (intern_idx str cap < Z.to_nat cap)%nat.
Proof.
  intros Hk ->. unfold intern_idx.
  assert (1 ≤ 2 ^ k) by (apply (Z.pow_le_mono_r 2 0 k); lia).
  assert (2 ^ k ≤ 2 ^ 61) by (apply Z.pow_le_mono_r; lia).
  rewrite u64_small by lia.
  replace (2 ^ k - 1) with (Z.ones k) by (rewrite Z.ones_equiv; lia).
  rewrite Z.land_ones by lia. pose proof (Z.mod_pos_bound (fnv_string str) (2 ^ k)). lia.
Qed.

Lemma table_bucket t cap str : table_wf t cap → ∃ b, t !! intern_idx str cap = Some b.
Proof.
  intros [(k & Hk & Hcap) Hl _]. apply lookup_lt_is_Some.
  pose proof (intern_idx_lt str cap k Hk Hcap). lia.
Qed.

Lemma elem_of_concat_lookup {A} (t : list (list A)) x : x ∈ concat t ↔ ∃ i b, t !! i = Some b ∧ x ∈ b.
Proof.
  rewrite list_elem_of_In, in_concat. split.
  - intros (b & Hb & Hx). apply list_elem_of_In, list_elem_of_lookup in Hb as [i Hi].
    exists i, b. by rewrite list_elem_of_In.
  - intros (i & b & Hi & Hx). exists b. rewrite <- !list_elem_of_In. split; [by eapply list_elem_of_lookup_2 | done].
Qed.

(** Pushing a node adds it to the nodes of the table. *)
Lemma push_node_perm cap t n :
  (intern_idx (in_str n) cap < length t)%nat → concat (push_node cap t n) ≡ₚ n :: concat t.
Proof.
  unfold push_node. generalize (intern_idx (in_str n) cap). induction t as [|b t IH]; intros i Hi; simpl in *; [lia|].
  destruct i as [|i]; simpl; [done|]. rewrite (IH i) by lia. by rewrite Permutation_middle.
Qed.

Lemma push_node_wf cap t n : table_wf t cap → table_wf (push_node cap t n) cap.
Proof.
  intros [Hc Hl Hi]. split; [done | by unfold push_node; rewrite length_alter |].
  unfold push_node. intros i b n' Hb Hn. destruct (decide (i = intern_idx (in_str n) cap)) as [->|Hne].
  - rewrite list_lookup_alter_eq in Hb. destruct (t !! _) as [b0|] eqn:E; simplify_eq/=.
    apply elem_of_cons in Hn as [->|Hn]; [done | by eapply Hi].
  - rewrite list_lookup_alter_ne in Hb by done. by eapply Hi.
Qed.

Lemma fold_concat {A B} (f : B → A → B) (t : list (list A)) b0 :
  fold_left (λ acc b, fold_left f b acc) t b0 = fold_left f (concat t) b0.
Proof. revert b0. induction t as [|b t IH]; intros b0; simpl; [done|]. by rewrite fold_left_app, IH. Qed.

Lemma push_all cap l t :
  table_wf t cap →
  table_wf (fold_left (push_node cap) l t) cap ∧ concat (fold_left (push_node cap) l t) ≡ₚ l ++ concat t.
Proof.
  revert t. induction l as [|n l IH]; intros t Hwf; simpl; [done|].
  destruct (IH (push_node cap t n) (push_node_wf cap t n Hwf)) as [Hw Hp]. split; [done|].
  rewrite Hp, push_node_perm; [by rewrite Permutation_middle|].
  destruct (table_bucket t cap (in_str n) Hwf) as [b Hb]. by eapply lookup_lt_Some.
Qed.

Lemma empty_table_wf k : 0 ≤ k ≤ 61 → table_wf (replicate (Z.to_nat (2 ^ k)) []) (2 ^ k).
Proof.
  intros Hk. assert (0 ≤ 2 ^ k) by (apply Z.pow_nonneg; lia).
  split; [eauto | rewrite length_replicate; lia |].
  intros i b n [-> _]%lookup_replicate Hn. by apply not_elem_of_nil in Hn.
Qed.

Lemma concat_replicate_nil {A} n : concat (replicate n (@nil A)) = [].
Proof. induction n; simpl; done. Qed.

(** Rehashing keeps the nodes and puts each in its bucket. *)
Lemma rehash_spec t k :
  0 ≤ k ≤ 61 → table_wf (rehash t (2 ^ k)) (2 ^ k) ∧ concat (rehash t (2 ^ k)) ≡ₚ concat t.
Proof.
  intros Hk. unfold rehash. rewrite fold_concat.
  destruct (push_all (2 ^ k) (concat t) _ (empty_table_wf k Hk)) as [Hw Hp]. split; [done|].
  by rewrite Hp, concat_replicate_nil, app_nil_r.
Qed.

Lemma resize_spec alloc t g t' cap' :
  table_wf t (g_intern_capacity g) → intern_resize alloc t g = (t', cap') →
  table_wf t' cap' ∧ concat t' ≡ₚ concat t.
Proof.
  intros Hwf. unfold intern_resize. destruct (_ <=? _); [|by intros [= <- <-]].
  destruct (calloc_ok _ _ _) eqn:Hc; [|by intros [= <- <-]]. intros [= <- <-].
  destruct (tw_cap _ _ Hwf) as (k & Hk & Hcap). rewrite Hcap in *.
  assert (2 ^ k ≤ 2 ^ 61) by (apply Z.pow_le_mono_r; lia).
  assert (0 ≤ 2 ^ k) by (apply Z.pow_nonneg; lia).
  assert (E : u64 (2 ^ k * 2) = 2 ^ (k + 1)) by (rewrite Z.pow_add_r, u64_small by lia; lia).
  rewrite E in *. unfold calloc_ok in Hc. reflect_bools.
  apply rehash_spec. assert (k + 1 ≤ 61); [|lia].
  apply Z.nlt_ge. intros Hlt. assert (2 ^ 62 ≤ 2 ^ (k + 1)) by (apply Z.pow_le_mono_r; lia). lia.
Qed.

#[global] Instance nodes_wf_perm : Proper ((≡ₚ) ==> eq ==> iff) nodes_wf.
Proof.
  intros l l' Hl n ? <-. split; intros [H1 H2 H3 H4]; split.
  all: first [rewrite <- Hl; done | rewrite Hl; done | intros x Hx; (rewrite <- Hl in Hx || rewrite Hl in Hx); auto].
Qed.

Lemma nodes_wf_cons ns next str :
  nodes_wf ns next → (∀ n, n ∈ ns → in_str n ≠ str) →
  nodes_wf ({| in_ptr := next; in_str := str; in_len := length str |} :: ns) (next + 1).
Proof.
  intros [H1 H2 H3 H4] Hnew. split; simpl.
  - intros n [->|Hn]%elem_of_cons; auto.
  - apply NoDup_cons. split; [|done]. intros (n & E & Hn)%list_elem_of_fmap. by apply (Hnew n Hn).
  - apply NoDup_cons. split; [|done]. intros (n & E & Hn)%list_elem_of_fmap. specialize (H4 n Hn). lia.
  - intros n [->|Hn]%elem_of_cons; simpl; [lia|]. specialize (H4 n Hn). lia.
Qed.

(** A bucket search finds the node of the string if there is one. *)
Lemma lookup_spec g str :
  pool_wf g →
  ∃ r, intern_lookup str g = Ret r ∧
    match r with Some p => pointer_of g str p | None => ∀ n, n ∈ nodes g → in_str n ≠ str end.
Proof.
  intros (t & Ht & Hwf & Hn). unfold intern_lookup, intern_bucket, nodes, pointer_of, nodes. rewrite Ht.
  destruct (table_bucket t _ str Hwf) as [b Hb]. rewrite Hb. eexists. split; [done|].
  unfold intern_find. destruct (first_match _ _ _) as [p|] eqn:E.
  - apply first_match_Some in E as (i & n & Hi & Hmatch & Hp & _). reflect_bools. exists n.
    split_and!; [|done|done]. apply elem_of_concat_lookup. eauto using list_elem_of_lookup_2.
  - intros n Hin Hstr. rewrite first_match_None, Forall_forall in E.
    pose proof (nw_len _ _ Hn n Hin) as Hlen.
    apply elem_of_concat_lookup in Hin as (i & b' & Hi & Hnb).
    pose proof (tw_idx _ _ Hwf i b' n Hi Hnb) as ->. rewrite Hstr, Hb in Hi. simplify_eq.
    specialize (E n Hnb). simpl in E.
    by rewrite Hlen, Nat.eqb_refl, bool_decide_eq_true_2 in E by done.
Qed.

(** The second section keeps every pointer and returns that of the
    string, a fresh one if it was not there; only a failed allocation
    returns NULL. *)
Lemma insert_spec alloc g str :
  pool_wf g →
  ∃ r g', intern_insert alloc str g = Ret (r, g') ∧ pool_wf g' ∧
    (∀ s p, pointer_of g s p → pointer_of g' s p) ∧
    match r with
    | Some p => pointer_of g' str p
    | None => alloc 24 = false ∨ alloc (Z.of_nat (length str) + 1) = false
    end.
Proof.
  intros Hg. destruct (lookup_spec g str Hg) as (r & Hr & Hspec). unfold intern_insert.
  rewrite Hr. simpl. destruct r as [p|]; [by exists (Some p), g|].
  destruct Hg as (t & Ht & Hwf & Hn). unfold nodes in Hspec. rewrite Ht in *.
  destruct (intern_resize alloc t g) as [t' cap'] eqn:E.
  destruct (resize_spec _ _ _ _ _ Hwf E) as [Hwf' Hp].
  set (resized := {| g_intern_table := Some t' |}).
  assert (Hres : pool_wf resized). { exists t'. split_and!; [done|done|]. by rewrite Hp. }
  assert (Hkeep : ∀ s p, pointer_of g s p → pointer_of resized s p).
  { intros s p (n & Hin & Hs). exists n. unfold nodes in *. rewrite Ht in Hin. split; [by simpl; rewrite Hp|done]. }
  destruct (alloc 24) eqn:A1; cbn [negb]; [|by exists None, resized; eauto].
  destruct (alloc (_ + 1)) eqn:A2; cbn [negb]; [|by exists None, resized; eauto].
  set (n := {| in_ptr := heap_next g; in_str := str; in_len := length str |}).
  destruct (table_bucket t' cap' str Hwf') as [b Hb]. apply lookup_lt_Some in Hb.
  assert (Hpush : concat (push_node cap' t' n) ≡ₚ n :: concat t') by (by apply push_node_perm).
  eexists (Some _), _. split; [done|]. split_and!.
  - eexists. split_and!; [done | by apply push_node_wf |]. simpl. rewrite Hpush, Hp.
    by apply nodes_wf_cons.
  - intros s p (n' & Hin & Hs)%Hkeep. exists n'. split; [|done]. unfold nodes in *. simpl in *.
    rewrite Hpush. by right.
  - exists n. unfold nodes. simpl. split; [|done]. rewrite Hpush. by left.
Qed.

Lemma NoDup_fmap_eq {A B} (f : A → B) l x y : NoDup (f <$> l) → x ∈ l → y ∈ l → f x = f y → x = y.
Proof.
  intros Hnd [i Hi]%list_elem_of_lookup [j Hj]%list_elem_of_lookup E.
  assert (i = j); [|congruence].
  eapply (NoDup_lookup (f <$> l)); [done | by rewrite list_lookup_fmap, Hi | by rewrite list_lookup_fmap, Hj, E].
Qed.

Lemma pointer_of_inj g s1 p1 s2 p2 :
  pool_wf g → pointer_of g s1 p1 → pointer_of g s2 p2 → (p1 = p2 ↔ s1 = s2).
Proof.
  intros (t & Ht & _ & Hn) (n1 & H1 & <- & <-) (n2 & H2 & <- & <-). unfold nodes in *. rewrite Ht in *.
  split; intros E.
  - by rewrite (NoDup_fmap_eq _ _ _ _ (nw_ptr _ _ Hn) H1 H2 E).
  - by rewrite (NoDup_fmap_eq _ _ _ _ (nw_str _ _ Hn) H1 H2 E).
Qed.

Lemma pointer_of_text g s p : pool_wf g → pointer_of g s p → text_at g p = Some s.
Proof.
  intros (t & Ht & _ & Hn) (n & Hin & <- & <-). unfold text_at, nodes in *. rewrite Ht in *.
  destruct (first_match _ _ _) as [s'|] eqn:E.
  - apply first_match_Some in E as (i & n' & Hi & Hm & <- & _). reflect_bools.
    apply list_elem_of_lookup_2 in Hi. by rewrite (NoDup_fmap_eq _ _ _ _ (nw_ptr _ _ Hn) Hi Hin Hm).
  - rewrite first_match_None, Forall_forall in E. specialize (E n Hin). simpl in E. lia.
Qed.

Lemma intern_init_wf alloc : calloc_ok alloc 1024 8 = true → pool_wf (intern_init alloc).
Proof.
  intros Ha. unfold intern_init. change (Z.of_nat INTERN_INITIAL_CAPACITY) with (2 ^ 10).
  change (calloc_ok alloc (2 ^ 10) 8) with (calloc_ok alloc 1024 8). rewrite Ha.
  eexists. split_and!; [done | by apply (empty_table_wf 10); lia |].
  rewrite concat_replicate_nil. split; simpl; try constructor; by intros n Hn%not_elem_of_nil.
Qed.

(* ------------------------------------------------------------------ *)
(** ** Threads *)

Definition call_str (c : call) : list ascii := match c with Fast s | Slow s | Done s _ => s end.
Definition sections_left (c : call) : nat := match c with Fast _ => 2 | Slow _ => 1 | Done _ _ => 0 end.
Definition is_done (c : call) : Prop := match c with Done _ _ => True | _ => False end.

Definition result_ok (alloc : Z → bool) (g : intern_pool) (c : call) : Prop :=
  match c with
  | Done s (Some p) => pointer_of g s p
  | Done s None => alloc 24 = false ∨ alloc (Z.of_nat (length s) + 1) = false
  | _ => True
  end.

Record threads_wf (alloc : Z → bool) (strs : list (list ascii)) (g : intern_pool) (cs : list call) : Prop := {
  th_pool : pool_wf g;
  th_strs : call_str <$> cs = strs;
  th_results : Forall (result_ok alloc g) cs
}.

Lemma result_ok_mono alloc g g' c :
  (∀ s p, pointer_of g s p → pointer_of g' s p) → result_ok alloc g c → result_ok alloc g' c.
Proof. destruct c as [|?|s [p|]]; simpl; auto. Qed.

(** Replacing the call of a thread by a later stage of it. *)
Lemma threads_wf_insert alloc strs g g' cs i c c' :
  threads_wf alloc strs g cs → cs !! i = Some c → call_str c' = call_str c →
  pool_wf g' → (∀ s p, pointer_of g s p → pointer_of g' s p) → result_ok alloc g' c' →
  threads_wf alloc strs g' (<[i := c']> cs).
Proof.
  intros [_ Hs Hr] Hi Hc Hg Hmono Hres. split; [done| |].
  - rewrite list_fmap_insert, Hc, list_insert_id; [done|]. by rewrite list_lookup_fmap, Hi.
  - apply Forall_insert; [|done]. eapply Forall_impl; [done|]. eauto using result_ok_mono.
Qed.

Lemma sections_insert (cs : list call) i c c' :
  cs !! i = Some c →
  (sum_list_with sections_left (<[i := c']> cs) + sections_left c =
   sum_list_with sections_left cs + sections_left c')%nat.
Proof.
  revert i. induction cs as [|x cs IH]; intros [|i] Hi; simplify_eq/=; [lia|]. specialize (IH i Hi). lia.
Qed.

(** A section keeps the invariant and finishes a part of a call. *)
Lemma pool_step_wf alloc strs g cs g' cs' :
  threads_wf alloc strs g cs → pool_step alloc (g, cs) (g', cs') →
  threads_wf alloc strs g' cs' ∧
  (S (sum_list_with sections_left cs') ≤ sum_list_with sections_left cs)%nat.
Proof.
  intros Hwf Hstep. pose proof (th_pool _ _ _ _ Hwf) as Hg. inversion Hstep; subst; clear Hstep.
  all: match goal with H : ?cs !! ?i = Some ?c |- context [<[?i := ?c']> ?cs] =>
         pose proof (sections_insert cs i c c' H) as Hsec; simpl in Hsec; split; [|lia];
         eapply (threads_wf_insert _ _ _ _ _ _ _ _ Hwf H); try done end.
  - destruct (lookup_spec _ str Hg) as (r & Hr & Hs). by replace r with (Some p) in Hs by congruence.
  - destruct (insert_spec alloc _ str Hg) as (r0 & g0 & E & Hw & _). by replace g' with g0 by congruence.
  - destruct (insert_spec alloc _ str Hg) as (r0 & g0 & E & _ & Hm & _). by replace g' with g0 by congruence.
  - destruct (insert_spec alloc _ str Hg) as (r0 & g0 & E & _ & _ & Hr).
    replace r with r0 by congruence. replace g' with g0 by congruence. by destruct r0.
Qed.

(** A thread that has not returned can run its next section. *)
Lemma pool_step_progress alloc strs g cs :
  threads_wf alloc strs g cs → Forall is_done cs ∨ ∃ c', pool_step alloc (g, cs) c'.
Proof.
  intros Hwf. pose proof (th_pool _ _ _ _ Hwf) as Hg.
  destruct (decide (Forall (λ c, sections_left c = 0%nat) cs)) as [Hd|Hd].
  - left. eapply Forall_impl; [done|]. intros []; simpl; done.
  - right. apply not_Forall_Exists in Hd; [|apply _]. apply Exists_exists in Hd as (c & Hc & Hne).
    apply list_elem_of_lookup in Hc as [i Hi]. destruct c as [str|str|str r]; [| |by destruct Hne].
    + destruct (lookup_spec _ str Hg) as ([p|] & Hr & _); eexists.
      * by eapply step_hit.
      * by eapply step_miss.
    + destruct (insert_spec alloc _ str Hg) as (r0 & g0 & E & _). eexists. by eapply step_insert.
Qed.

Lemma pool_steps_wf alloc strs n c c' :
  threads_wf alloc strs c.1 c.2 → nsteps (pool_step alloc) n c c' →
  threads_wf alloc strs c'.1 c'.2 ∧
  (n + sum_list_with sections_left c'.2 ≤ sum_list_with sections_left c.2)%nat.
Proof.
  intros Hwf Hn. revert Hwf. induction Hn as [c|n [g cs] [g1 cs1] c' Hs Hn IH]; intros Hwf; [done|].
  destruct (pool_step_wf _ _ _ _ _ _ Hwf Hs) as [Hwf1 Hlt]. destruct (IH Hwf1) as [Hwf' Hle].
  split; [done|]. simpl in *. lia.
Qed.

Lemma threads_start alloc strs :
  calloc_ok alloc 1024 8 = true → threads_wf alloc strs (intern_init alloc) (Fast <$> strs).
Proof.
  intros Ha. split.
  - by apply intern_init_wf.
  - rewrite <- list_fmap_compose. apply list_fmap_id.
  - apply Forall_fmap, Forall_true. done.
Qed.

Lemma sections_start strs : sum_list_with sections_left (Fast <$> strs) = (2 * length strs)%nat.
Proof. induction strs as [|s strs IH]; csimpl; [done|]. rewrite IH. lia. Qed.

(** C21. However the critical sections of concurrent [intern_string_len]
    calls interleave, the pointers returned are canonical: two calls get
    the same pointer exactly when they interned the same bytes, and the
    bytes behind the pointer are those of the string.  NULL is returned
    only when one of the two allocations fails.  At every point each
    thread that has not returned can run its next section, and [n]
    threads are done after at most [2n] sections. *)
Theorem intern_canonical alloc (strs : list (list ascii)) (n : nat) g cs :
  calloc_ok alloc 1024 8 = true →
  nsteps (pool_step alloc) n (intern_init alloc, Fast <$> strs) (g, cs) →
  (∀ i j s1 p1 s2 p2, cs !! i = Some (Done s1 (Some p1)) → cs !! j = Some (Done s2 (Some p2)) →
     (p1 = p2 ↔ s1 = s2)) ∧
  (∀ i s p, cs !! i = Some (Done s (Some p)) → strs !! i = Some s ∧ text_at g p = Some s) ∧
  (∀ i s, cs !! i = Some (Done s None) → alloc 24 = false ∨ alloc (Z.of_nat (length s) + 1) = false) ∧
  (Forall is_done cs ∨ ∃ c', pool_step alloc (g, cs) c') ∧
  (n ≤ 2 * length strs)%nat.
Proof.
  intros Ha Hn. destruct (pool_steps_wf alloc strs n (_, _) (_, _) (threads_start _ strs Ha) Hn) as [Hwf Hle].
  cbn [fst snd] in *. rewrite sections_start in Hle. pose proof Hwf as [Hg Hs Hr]. rewrite Forall_lookup in Hr.
  split_and!; [| | | by eapply pool_step_progress | lia].
  - intros i j s1 p1 s2 p2 H1 H2. apply (pointer_of_inj g); [done | by apply (Hr i _ H1) | by apply (Hr j _ H2)].
  - intros i s p H1. split; [|by apply pointer_of_text, (Hr i _ H1)].
    by rewrite <- Hs, list_lookup_fmap, H1.
  - intros i s H1. by apply (Hr i _ H1).
Qed.

(** Running a schedule: the thread of each entry runs its next section. *)
Definition run_section (alloc : Z → bool) (i : nat) (c : intern_pool * list call)
  : option (intern_pool * list call) :=
  match c.2 !! i with
  | Some (Fast str) =>
      r ← returned (intern_lookup str c.1);
      Some (c.1, <[i := match r with Some p => Done str (Some p) | None => Slow str end]> c.2)
  | Some (Slow str) => '(r, g') ← returned (intern_insert alloc str c.1); Some (g', <[i := Done str r]> c.2)
  | _ => None
  end.

Fixpoint run_schedule (alloc : Z → bool) (sched : list nat) (c : intern_pool * list call)
  : option (intern_pool * list call) :=
  match sched with
  | [] => Some c
  | i :: sched => c ← run_section alloc i c; run_schedule alloc sched c
  end.

Lemma returned_Some {A} (m : outcome A) a : returned m = Some a → m = Ret a.
Proof. destruct m; simpl; congruence. Qed.

Lemma run_section_step alloc i c c' : run_section alloc i c = Some c' → pool_step alloc c c'.
Proof.
  destruct c as [g cs]. unfold run_section. simpl. destruct (cs !! i) as [[str|str|]|] eqn:Hi; [| |done|done].
  - destruct (returned _) as [[p|]|] eqn:E; [| |done]; intros [= <-]; apply returned_Some in E.
    + by apply step_hit.
    + by apply step_miss.
  - destruct (returned _) as [[r g']|] eqn:E; [|done]. intros [= <-]. apply returned_Some in E.
    by apply step_insert.
Qed.

Lemma run_schedule_steps alloc sched c c' :
  run_schedule alloc sched c = Some c' → nsteps (pool_step alloc) (length sched) c c'.
Proof.
  revert c. induction sched as [|i sched IH]; intros c; simpl; [intros [= <-]; constructor|].
  destruct (run_section alloc i c) as [c1|] eqn:E; [|done]. intros H.
  eapply nsteps_l; [by eapply run_section_step | by apply IH].
Qed.

(** Two threads that both miss ["read"] before either inserts it, and a
    third that interns ["write"] in between. *)
Definition race_run : option (intern_pool * list call) :=
  run_schedule (λ _, true) [0; 1; 1; 2; 2; 0]%nat
    (intern_init (λ _, true), Fast <$> [("read" : cstr); ("read" : cstr); ("write" : cstr)]).

Definition race_calls : list call :=
  [Done ("read" : cstr) (Some 1); Done ("read" : cstr) (Some 1); Done ("write" : cstr) (Some 2)].

Lemma intern_canonical_witness :
  ∃ g, race_run = Some (g, race_calls) ∧ text_at g 1 = Some ("read" : cstr) ∧
    (1 = 2 ↔ ("read" : cstr) = ("write" : cstr)).
Proof.
  assert (E : snd <$> race_run = Some race_calls) by (vm_compute; reflexivity).
  destruct race_run as [[g cs]|] eqn:Hrun; [|done]. simpl in E. injection E as ->.
  destruct (intern_canonical _ _ _ g _ eq_refl (run_schedule_steps _ _ _ _ Hrun)) as (Hinj & Htext & _).
  exists g. split; [reflexivity|]. split.
  - apply (Htext 0%nat). reflexivity.
  - apply (Hinj 0%nat 2%nat); reflexivity.
Defined.

(* ------------------------------------------------------------------ *)
(** ** The pool behind the token manager's interface *)

Lemma intern_string_len_spec alloc g str :
  pool_wf g →
  ∃ r g', intern_string_len alloc str g = Ret (r, g') ∧ pool_wf g' ∧
    (∀ p, r = Some p → text_at g' p = Some str).
Proof.
  intros Hg. unfold intern_string_len. destruct (lookup_spec g str Hg) as (r & Hr & Hs). rewrite Hr. simpl.
  destruct r as [p|].
  - exists (Some p), g. split_and!; [done|done|]. intros ? [= <-]. by apply pointer_of_text.
  - destruct (insert_spec alloc g str Hg) as (r & g' & E & Hw & _ & Hres). exists r, g'.
    split_and!; [done|done|]. intros p ->. by apply pointer_of_text.
Qed.

(** The text [intern_string] returns on a pool. *)
Definition pool_interner (alloc : Z → bool) (g : intern_pool) : Interner := λ s,
  match intern_c_string alloc (Some s) g with
  | Ret (Some p, g') => text_at g' p
  | _ => None
  end.

(** A pool that is well formed, as every pool reached from
    [intern_init] is, keeps what the token manager relies on. *)
Lemma pool_interner_laws alloc g : pool_wf g → InternerLaws (H := pool_interner alloc g).
Proof.
  intros Hg s r. unfold intern_string, pool_interner, intern_c_string.
  destruct (intern_string_len_spec alloc g s Hg) as (p & g' & E & _ & Htext). rewrite E.
  destruct p as [p|]; [|done]. rewrite (Htext p) by done. congruence.
Qed.
