(* ===== verification/Arena.v ===== *)
(** * Arena allocator (src/arena.c)

    Bump allocation from a chain of blocks.  A pointer is a block and an
    offset into its data; the bytes of a block are part of the model, so
    that copies, clears and accesses out of bounds are visible ([Crash]).
    Sizes are size_t values.  The theorem relates the arena to a client's
    view of it as independent buffers. *)

From S2P Require Import Prelude CLib.

Definition ALIGNMENT : Z := 16.
Definition HEADER : Z := 32.

(** [ALIGN(size)] on size_t: the mask is the sign extended [~15]. *)
Definition ALIGN (size : Z) : Z := Z.land (u64 (size + (ALIGNMENT - 1))) (2 ^ 64 - ALIGNMENT).

(** A block: [None] is a byte malloc left uninitialised. *)
Record arena_block_t := { capacity : Z; used : Z; data : list (option Z) }.

Record pointer := { p_block : nat; p_off : Z }.
#[global] Instance pointer_eq_dec : EqDecision pointer.
Proof. solve_decision. Defined.

(** The chain from [first], the position of [current] in it, the blocks
    on the heap and the name of the next one. *)
Record arena_t := {
  chain : list nat; current : option nat; default_block_size : Z;
  heap : gmap nat arena_block_t; next_block : nat
}.

Definition arena_init (size : Z) : arena_t :=
  {| chain := []; current := None; default_block_size := if 0 <? size then size else 4096;
     heap := ∅; next_block := 0 |}.

Definition set_chain (c : list nat) (cur : option nat) (a : arena_t) : arena_t :=
  {| chain := c; current := cur; default_block_size := default_block_size a; heap := heap a; next_block := next_block a |}.
Definition set_block (id : nat) (b : arena_block_t) (a : arena_t) : arena_t :=
  {| chain := chain a; current := current a; default_block_size := default_block_size a;
     heap := <[id := b]> (heap a); next_block := next_block a |}.
Definition set_used (u : Z) (b : arena_block_t) : arena_block_t :=
  {| capacity := capacity b; used := u; data := data b |}.

(** The block at a position of the chain. *)
Definition block_at (a : arena_t) (i : nat) : option (nat * arena_block_t) :=
  id ← chain a !! i; b ← heap a !! id; Some (id, b).

(** [memset] and [memcpy] targets and sources. *)
Definition store (p : pointer) (bytes : list (option Z)) (a : arena_t) : outcome arena_t :=
  match heap a !! p_block p with
  | None => Crash
  | Some b =>
      if (0 <=? p_off p) && (p_off p + Z.of_nat (length bytes) <=? Z.of_nat (length (data b)))
      then Ret (set_block (p_block p)
                  {| capacity := capacity b; used := used b;
                     data := list_inserts (Z.to_nat (p_off p)) bytes (data b) |} a)
      else Crash
  end.
Definition load (p : pointer) (n : Z) (a : arena_t) : outcome (list (option Z)) :=
  match heap a !! p_block p with
  | None => Crash
  | Some b =>
      if (0 <=? p_off p) && (p_off p + n <=? Z.of_nat (length (data b)))
      then Ret (take (Z.to_nat n) (drop (Z.to_nat (p_off p)) (data b)))
      else Crash
  end.

(** [capacity - used >= size], then the slice. *)
Definition slice (a : arena_t) (i : nat) (size : Z) : option (pointer * arena_t) :=
  '(id, b) ← block_at a i;
  if size <=? u64 (capacity b - used b)
  then Some ({| p_block := id; p_off := used b |}, set_block id (set_used (u64 (used b + size)) b) a)
  else None.

(** The move along the existing blocks: a slice of one of the [n] blocks
    after position [i], or the position of the last. *)
Fixpoint next_blocks (n : nat) (a : arena_t) (i : nat) (size : Z) : pointer * arena_t + nat :=
  match n with
  | O => inr i
  | S n' =>
      match slice a (S i) size with
      | Some (p, a') => inl (p, set_chain (chain a') (Some (S i)) a')
      | None => next_blocks n' a (S i) size
      end
  end.

Section Alloc.
Context (alloc : Z → bool).

(** [create_block]: the size of the header and the data is a size_t sum;
    a block smaller than its header cannot hold it. *)
Definition create_block (size : Z) (u : Z) (a : arena_t) : outcome (option (nat * arena_t)) :=
  let total := u64 (HEADER + size) in
  if negb (alloc total) then Ret None
  else if total <? HEADER then Crash
  else
    Ret (Some (next_block a,
         {| chain := chain a; current := current a; default_block_size := default_block_size a;
            heap := <[next_block a := {| capacity := size; used := u;
                                         data := replicate (Z.to_nat (total - HEADER)) None |}]> (heap a);
            next_block := S (next_block a) |})).

(** A block of its own for a large request, linked after the current. *)
Definition alloc_large (size : Z) (a : arena_t) : outcome (option pointer * arena_t) :=
  r ← create_block size size a;
  match r with
  | None => Ret (None, a)
  | Some (id, a') =>
      let p := {| p_block := id; p_off := 0 |} in
      match chain a', current a' with
      | [], _ => Ret (Some p, set_chain [id] (Some O) a')
      | c, Some i => Ret (Some p, set_chain (take (S i) c ++ id :: drop (S i) c) (Some i) a')
      | _, None => Crash
      end
  end.

(** A new block at the position [cur], which is the last of the chain. *)
Definition alloc_block (size : Z) (cur : option nat) (a : arena_t) : outcome (option pointer * arena_t) :=
  let block_size := if default_block_size a <? size then size else default_block_size a in
  let a := set_chain (chain a) cur a in
  r ← create_block block_size (u64 size) a;
  match r with
  | None => Ret (None, a)
  | Some (id, a') =>
      let p := {| p_block := id; p_off := 0 |} in
      match chain a', cur with
      | [], _ => Ret (Some p, set_chain [id] (Some O) a')
      | c, Some i => Ret (Some p, set_chain (take (S i) c ++ [id]) (Some (S i)) a')
      | _, None => Crash
      end
  end.

Definition arena_alloc (size : Z) (a : arena_t) : outcome (option pointer * arena_t) :=
  if size =? 0 then Ret (None, a)
  else
    let size := ALIGN size in
    match i ← current a; slice a i size with
    | Some (p, a') => Ret (Some p, a')
    | None =>
        if default_block_size a / 2 <? size then alloc_large size a
        else
          match current a with
          | None => alloc_block size None a
          | Some i =>
              match next_blocks (length (chain a) - S i) a i size with
              | inl (p, a') => Ret (Some p, a')
              | inr i => alloc_block size (Some i) a
              end
          end
    end.

(** [arena_calloc]: the product is a size_t. *)
Definition arena_calloc (num size : Z) (a : arena_t) : outcome (option pointer * arena_t) :=
  let total := u64 (num * size) in
  '(r, a) ← arena_alloc total a;
  match r with
  | None => Ret (None, a)
  | Some p => a ← store p (replicate (Z.to_nat total) (Some 0)) a; Ret (Some p, a)
  end.

(** The fallback of [arena_realloc]. *)
Definition realloc_copy (p : pointer) (old_size new_size : Z) (a : arena_t) : outcome (option pointer * arena_t) :=
  '(r, a) ← arena_alloc new_size a;
  match r with
  | None => Ret (None, a)
  | Some q => bytes ← load p (Z.min old_size new_size) a; a ← store q bytes a; Ret (Some q, a)
  end.

Definition arena_realloc (ptr : option pointer) (old_size new_size : Z) (a : arena_t)
  : outcome (option pointer * arena_t) :=
  match ptr with
  | None => arena_alloc new_size a
  | Some p =>
      if new_size =? 0 then Ret (None, a)
      else
        let new_size := ALIGN new_size in
        let old_size := ALIGN old_size in
        match i ← current a; block_at a i with
        | Some (id, b) =>
            if bool_decide (p = {| p_block := id; p_off := u64 (used b - old_size) |}) then
              let diff := u64 (new_size - old_size) in
              if new_size <=? old_size
              then Ret (Some p, set_block id (set_used (u64 (used b - (old_size - new_size))) b) a)
              else if diff <=? u64 (capacity b - used b)
              then Ret (Some p, set_block id (set_used (u64 (used b + diff)) b) a)
              else realloc_copy p old_size new_size a
            else realloc_copy p old_size new_size a
        | None => realloc_copy p old_size new_size a
        end
  end.

(** [arena_strdup]: the bytes of the string and the terminator. *)
Definition arena_strdup (str : option cstr) (a : arena_t) : outcome (option pointer * arena_t) :=
  match str with
  | None => Ret (None, a)
  | Some s =>
      '(r, a) ← arena_alloc (Z.of_nat (length s) + 1) a;
      match r with
      | None => Ret (None, a)
      | Some p => a ← store p (map (λ c, Some (ord c)) (s ++ [NUL])) a; Ret (Some p, a)
      end
  end.

End Alloc.

(** The walk of [arena_reset]: the chain that is kept and the heap. *)
Fixpoint reset_blocks (c : list nat) (limit : Z) (h : gmap nat arena_block_t) : list nat * gmap nat arena_block_t :=
  match c with
  | [] => ([], h)
  | id :: c' =>
      match h !! id with
      | None => reset_blocks c' limit h
      | Some b =>
          if limit <? capacity b then reset_blocks c' limit (delete id h)
          else let '(kept, h) := reset_blocks c' limit (<[id := set_used 0 b]> h) in (id :: kept, h)
      end
  end.

Definition arena_reset (a : arena_t) : arena_t :=
  let '(kept, h) := reset_blocks (chain a) (default_block_size a) (heap a) in
  {| chain := kept; current := match kept with [] => None | _ => Some O end;
     default_block_size := default_block_size a; heap := h; next_block := next_block a |}.

Definition arena_destroy (a : arena_t) : arena_t :=
  {| chain := []; current := None; default_block_size := default_block_size a;
     heap := foldr delete (heap a) (chain a); next_block := next_block a |}.

Definition arena_contains (a : arena_t) (p : pointer) : bool :=
  existsb (λ id, match heap a !! id with
                 | Some b => (p_block p =? id)%nat && (0 <=? p_off p) && (p_off p <? capacity b)
                 | None => false
                 end) (chain a).

(* ================================================================== *)
(** ** Invariant *)

(** The largest request for which neither the rounding nor the header
    overflows a size_t. *)
Definition SIZE_LIMIT : Z := 2 ^ 64 - 48.

Lemma ALIGN_spec size :
  0 < size ≤ SIZE_LIMIT → size ≤ ALIGN size ∧ ALIGN size ≤ SIZE_LIMIT ∧ (16 | ALIGN size).
Proof.
  unfold ALIGN, ALIGNMENT, SIZE_LIMIT. intros Hs. rewrite u64_small by lia.
  change 16 with (2 ^ 4). rewrite land_high_bits by lia. rewrite Z.shiftl_mul_pow2, Z.shiftr_div_pow2 by lia.
  pose proof (Z.div_mod (size + (2 ^ 4 - 1)) (2 ^ 4)). pose proof (Z.mod_pos_bound (size + (2 ^ 4 - 1)) (2 ^ 4)).
  set (q := (size + (2 ^ 4 - 1)) / 2 ^ 4) in *. split_and!; [lia | lia | by exists q].
Qed.

Lemma ALIGN_idem size : 0 ≤ size ≤ SIZE_LIMIT → (16 | size) → ALIGN size = size.
Proof.
  intros Hs [q Hq]. unfold ALIGN, ALIGNMENT, SIZE_LIMIT in *. rewrite u64_small by lia.
  change 16 with (2 ^ 4). rewrite land_high_bits by lia. rewrite Z.shiftl_mul_pow2, Z.shiftr_div_pow2 by lia.
  change (2 ^ 4) with 16. subst size. replace (q * 16 + (16 - 1)) with (15 + q * 16) by lia.
  by rewrite Z.div_add by lia.
Qed.

Record block_wf (b : arena_block_t) : Prop := {
  bw_used : 0 ≤ used b ≤ capacity b;
  bw_cap : capacity b < 2 ^ 63;
  bw_data : Z.of_nat (length (data b)) = capacity b;
  bw_aligned : (16 | used b)
}.

Record arena_wf (a : arena_t) : Prop := {
  aw_nodup : NoDup (chain a);
  aw_chain : ∀ id, id ∈ chain a ↔ is_Some (heap a !! id);
  aw_blocks : ∀ id b, heap a !! id = Some b → block_wf b ∧ (id < next_block a)%nat;
  aw_current : match current a with None => chain a = [] | Some i => (i < length (chain a))%nat end;
  aw_default : 0 < default_block_size a < 2 ^ 63
}.

(** Blocks stay, and their used part grows. *)
Definition grows (a a' : arena_t) : Prop :=
  default_block_size a' = default_block_size a ∧
  ∀ id b, heap a !! id = Some b → ∃ u, heap a' !! id = Some (set_used u b) ∧ used b ≤ u.

(** The [n] bytes at [p] are used in [a'] and were free in [a]. *)
Definition carved (a a' : arena_t) (p : pointer) (n : Z) : Prop :=
  ∃ b, heap a' !! p_block p = Some b ∧ 0 ≤ p_off p ∧ p_off p + n ≤ used b ∧ (16 | p_off p) ∧
    ∀ b0, heap a !! p_block p = Some b0 → used b0 ≤ p_off p.

Lemma set_used_id b : set_used (used b) b = b.
Proof. by destruct b. Qed.

Lemma grows_refl a : grows a a.
Proof. split; [done|]. intros id b Hb. exists (used b). by rewrite set_used_id. Qed.

(** Setting the used part of a block to another aligned bound. *)
Lemma set_used_wf a id b u :
  arena_wf a → heap a !! id = Some b → 0 ≤ u ≤ capacity b → (16 | u) → arena_wf (set_block id (set_used u b) a).
Proof.
  intros [H1 H2 H3 H4 H5] Hb Hu Hdiv. split; simpl; try done.
  - intros i. rewrite H2. destruct (decide (i = id)) as [->|Hne].
    + rewrite lookup_insert_eq, Hb. split; eauto.
    + by rewrite lookup_insert_ne.
  - intros i b'. destruct (decide (i = id)) as [->|Hne].
    + rewrite lookup_insert_eq. intros [= <-]. destruct (H3 _ _ Hb) as [[W1 W2 W3 W4] Hlt].
      split; [|done]. by split.
    + rewrite lookup_insert_ne by done. apply H3.
Qed.

Lemma block_at_Some a i id b : block_at a i = Some (id, b) → chain a !! i = Some id ∧ heap a !! id = Some b.
Proof. unfold block_at. destruct (chain a !! i) as [id'|]; simpl; [|done]. destruct (heap a !! id') eqn:?; naive_solver. Qed.

Lemma slice_spec a i size p a' :
  arena_wf a → 0 ≤ size → (16 | size) → slice a i size = Some (p, a') →
  arena_wf a' ∧ grows a a' ∧ carved a a' p size ∧ chain a' = chain a ∧ current a' = current a.
Proof.
  intros Hwf Hs Hdiv. unfold slice. destruct (block_at a i) as [[id b]|] eqn:E; [|done]. simpl.
  apply block_at_Some in E as [_ Hb]. destruct (aw_blocks _ Hwf _ _ Hb) as [[W1 W2 W3 W4] _].
  destruct (_ <=? _) eqn:Hfit; [|done]. intros [= <- <-]. reflect_bools. rewrite u64_small in Hfit by lia.
  rewrite u64_small by lia. split_and!; [| | |done|done].
  - apply set_used_wf; [done|done|lia|by apply Z.divide_add_r].
  - split; [done|]. intros id' b' Hb'. simpl. destruct (decide (id' = id)) as [->|Hne].
    + simplify_eq. rewrite lookup_insert_eq. eexists. split; [done|lia].
    + rewrite lookup_insert_ne by done. exists (used b'). by rewrite set_used_id.
  - eexists. simpl. rewrite lookup_insert_eq. split; [done|]. simpl. split_and!; [lia|lia|done|].
    intros b0 ?. simplify_eq. lia.
Qed.

Lemma next_blocks_spec n a i size :
  arena_wf a → 0 ≤ size → (16 | size) → (i + n < length (chain a))%nat →
  match next_blocks n a i size with
  | inl (p, a') => arena_wf a' ∧ grows a a' ∧ carved a a' p size
  | inr j => j = (i + n)%nat
  end.
Proof.
  intros Hwf Hs Hdiv. revert i. induction n as [|n IH]; intros i Hi; simpl; [lia|].
  destruct (slice a (S i) size) as [[p a']|] eqn:E.
  - destruct (slice_spec _ _ _ _ _ Hwf Hs Hdiv E) as ([] & Hg & Hc & Hch & _).
    split_and!; [|done|done]. split; simpl; try done. rewrite Hch. lia.
  - specialize (IH (S i) ltac:(lia)). destruct (next_blocks n a (S i) size) as [[]|]; [done|lia].
Qed.

(** A new block on the heap, linked into the chain. *)
Lemma link_wf a size u c cur d :
  arena_wf a → c ≡ₚ next_block a :: chain a → (cur < length c)%nat →
  0 ≤ u ≤ size → size < 2 ^ 63 → (16 | u) → Z.of_nat (length d) = size →
  arena_wf {| chain := c; current := Some cur; default_block_size := default_block_size a;
              heap := <[next_block a := {| capacity := size; used := u; data := d |}]> (heap a);
              next_block := S (next_block a) |}.
Proof.
  intros [H1 H2 H3 H4 H5] Hc Hcur Hu Hsize Hdiv Hd.
  assert (Hfresh : heap a !! next_block a = None).
  { destruct (heap a !! next_block a) as [b|] eqn:E; [|done]. apply H3 in E as [_ E]. lia. }
  split; simpl; try done.
  - rewrite Hc. apply NoDup_cons. split; [|done]. rewrite H2, Hfresh. by intros [? ?].
  - intros id. rewrite Hc, elem_of_cons, H2. destruct (decide (id = next_block a)) as [->|Hne].
    + rewrite lookup_insert_eq. split; eauto.
    + rewrite lookup_insert_ne by done. naive_solver.
  - intros id b. destruct (decide (id = next_block a)) as [->|Hne].
    + rewrite lookup_insert_eq. intros [= <-]. split; [by split | lia].
    + rewrite lookup_insert_ne by done. intros [? ?]%H3. split; [done|lia].
Qed.

Lemma link_carved a a' size u d :
  arena_wf a → heap a' = <[next_block a := {| capacity := size; used := u; data := d |}]> (heap a) →
  default_block_size a' = default_block_size a →
  grows a a' ∧ carved a a' {| p_block := next_block a; p_off := 0 |} u.
Proof.
  intros Hwf Hh Hd.
  assert (Hfresh : heap a !! next_block a = None).
  { destruct (heap a !! next_block a) as [b|] eqn:E; [|done]. apply (aw_blocks _ Hwf) in E as [_ E]. lia. }
  split.
  - split; [done|]. intros id b Hb. rewrite Hh, lookup_insert_ne by congruence.
    exists (used b). by rewrite set_used_id.
  - eexists. simpl. rewrite Hh, lookup_insert_eq. split; [done|]. simpl. rewrite Hfresh.
    split_and!; [lia|lia|by exists 0|done].
Qed.

Section Correct.
Context (alloc : Z → bool).
(** malloc refuses sizes of PTRDIFF_MAX and more. *)
Context (alloc_max : ∀ n, alloc n = true → n < 2 ^ 63).

Lemma create_block_spec size u a :
  0 ≤ size ≤ SIZE_LIMIT →
  create_block alloc size u a = Ret None ∧ alloc (HEADER + size) = false ∨
  size < 2 ^ 63 ∧
  create_block alloc size u a =
    Ret (Some (next_block a,
         {| chain := chain a; current := current a; default_block_size := default_block_size a;
            heap := <[next_block a := {| capacity := size; used := u;
                                         data := replicate (Z.to_nat size) None |}]> (heap a);
            next_block := S (next_block a) |})).
Proof.
  unfold create_block, SIZE_LIMIT, HEADER. intros Hs. rewrite u64_small by lia.
  destruct (alloc (32 + size)) eqn:E; simpl; [right|by left].
  apply alloc_max in E. destruct (_ <? _) eqn:?; reflect_bools; [lia|].
  split; [lia|]. by replace (32 + size - 32) with size by lia.
Qed.

(** What an allocation of [n] aligned bytes promises. *)
Definition alloc_post (a : arena_t) (n : Z) (r : outcome (option pointer * arena_t)) : Prop :=
  ∃ q a', r = Ret (q, a') ∧ arena_wf a' ∧ grows a a' ∧
    match q with
    | Some p => carved a a' p n
    | None => alloc (HEADER + n) = false ∨ alloc (HEADER + default_block_size a) = false
    end.

Lemma alloc_large_spec size a :
  arena_wf a → 0 < size ≤ SIZE_LIMIT → (16 | size) → alloc_post a size (alloc_large alloc size a).
Proof.
  intros Hwf Hs Hdiv. unfold alloc_large.
  destruct (create_block_spec size size a) as [[-> Hno]|[Hlt ->]]; [lia| |]; simpl.
  { exists None, a. eauto using grows_refl. }
  pose proof (aw_current _ Hwf) as Hcur. destruct (chain a) as [|id0 c] eqn:Hc.
  - eexists (Some _), _. split; [done|]. split.
    + apply (link_wf a); [done | by rewrite Hc | simpl; lia | lia | lia | done | rewrite length_replicate; lia].
    + by eapply (link_carved a).
  - destruct (current a) as [i|] eqn:Hi; [|done]. rewrite <- Hc in *.
    eexists (Some _), _. split; [done|]. split; [|by eapply (link_carved a)].
    apply (link_wf a); [done | | | lia | lia | done | rewrite length_replicate; lia].
    + rewrite <- Permutation_middle, take_drop, Hc. apply perm_swap.
    + simpl. rewrite length_app, length_take. rewrite Hc in *. simpl in *. lia.
Qed.

Lemma alloc_block_spec size cur a :
  arena_wf a → 0 < size ≤ SIZE_LIMIT → (16 | size) → size ≤ default_block_size a →
  match cur with None => chain a = [] | Some i => S i = length (chain a) end →
  alloc_post a size (alloc_block alloc size cur a).
Proof.
  intros Hwf Hs Hdiv Hle Hcur. unfold alloc_block. pose proof (aw_default _ Hwf).
  destruct (_ <? size) eqn:?; reflect_bools; [lia|]. set (a0 := set_chain (chain a) cur a).
  assert (Hwf0 : arena_wf a0). { destruct Hwf. split; try done. destruct cur; simpl in *; [lia|done]. }
  rewrite u64_small by (unfold SIZE_LIMIT in *; lia).
  destruct (create_block_spec (default_block_size a) size a0) as [[-> Hno]|[Hlt ->]];
    [unfold SIZE_LIMIT; lia | | ]; simpl.
  { exists None, a0. split_and!; [done|done| |by right]. apply (grows_refl a). }
  destruct (chain a) as [|id0 c] eqn:Hc.
  - eexists (Some _), _. split; [done|]. split; [|by eapply (link_carved a)].
    apply (link_wf a); [done | by rewrite Hc | simpl; lia | lia | lia | done | rewrite length_replicate; lia].
  - destruct cur as [i|]; [|done]. rewrite <- Hc in *.
    rewrite (take_ge c) by (rewrite Hc in Hcur; simpl in Hcur; lia).
    eexists (Some _), _. split; [done|]. split; [|by eapply (link_carved a)].
    apply (link_wf a); [done | | | lia | lia | done | rewrite length_replicate; lia].
    + by rewrite Hc, app_comm_cons, Permutation_app_comm.
    + rewrite app_comm_cons, length_app, <- Hc. simpl. lia.
Qed.

(** Every allocation returns; the bytes it hands out were free. *)
Lemma arena_alloc_spec size a :
  arena_wf a → 0 < size ≤ SIZE_LIMIT → alloc_post a (ALIGN size) (arena_alloc alloc size a).
Proof.
  intros Hwf Hs. destruct (ALIGN_spec size Hs) as (Hle & Hlim & Hdiv). unfold arena_alloc.
  destruct (size =? 0) eqn:?; reflect_bools; [lia|]. pose proof (aw_current _ Hwf) as Hcur.
  destruct (i ← current a; slice a i (ALIGN size)) as [[p a']|] eqn:E.
  { destruct (current a) as [i|]; [|done]. simpl in E.
    destruct (slice_spec a i (ALIGN size) p a' Hwf ltac:(lia) Hdiv E) as (? & ? & ? & _). by exists (Some p), a'. }
  destruct (_ <? _) eqn:Hlarge; reflect_bools; [apply alloc_large_spec; [done|lia|done]|].
  pose proof (aw_default _ Hwf).
  assert (Hdef : ALIGN size ≤ default_block_size a).
  { pose proof (Z.div_le_upper_bound (default_block_size a) 2 (default_block_size a)). lia. }
  destruct (current a) as [i|] eqn:Hi; [|apply alloc_block_spec; [done|lia|done|done|done]].
  pose proof (next_blocks_spec (length (chain a) - S i) a i (ALIGN size) Hwf ltac:(lia) Hdiv ltac:(lia)) as Hn.
  destruct (next_blocks _ a i _) as [[p a']|j].
  - destruct Hn as (? & ? & ?). by exists (Some p), a'.
  - apply alloc_block_spec; [done|lia|done|done|]. lia.
Qed.

(* ------------------------------------------------------------------ *)
(** ** A client's buffers *)

(** A pointer the client holds and the size it asked for. *)
Notation handle := (pointer * Z)%type.

Definition live (a : arena_t) (h : handle) : Prop :=
  0 < h.2 ≤ SIZE_LIMIT ∧
  ∃ b, heap a !! p_block h.1 = Some b ∧ 0 ≤ p_off h.1 ∧ p_off h.1 + ALIGN h.2 ≤ used b ∧ (16 | p_off h.1).

Definition apart (h1 h2 : handle) : Prop :=
  p_block h1.1 ≠ p_block h2.1 ∨ p_off h1.1 + ALIGN h1.2 ≤ p_off h2.1 ∨ p_off h2.1 + ALIGN h2.2 ≤ p_off h1.1.

Definition byte_at (a : arena_t) (p : pointer) (j : nat) : option (option Z) :=
  b ← heap a !! p_block p; data b !! (Z.to_nat (p_off p) + j)%nat.

(** The bytes the client knows are in its buffer. *)
Definition holds (a : arena_t) (h : handle) (buf : list (option Z)) : Prop :=
  Z.of_nat (length buf) = h.2 ∧ ∀ j z, buf !! j = Some (Some z) → byte_at a h.1 j = Some (Some z).

Record client (a : arena_t) (hs : list handle) (bufs : list (list (option Z))) : Prop := {
  cl_wf : arena_wf a;
  cl_live : Forall (live a) hs;
  cl_apart : ∀ i j h1 h2, i ≠ j → hs !! i = Some h1 → hs !! j = Some h2 → apart h1 h2;
  cl_holds : Forall2 (holds a) hs bufs
}.

Lemma apart_sym h1 h2 : apart h1 h2 → apart h2 h1.
Proof. unfold apart. naive_solver. Qed.

Lemma live_range a h b :
  arena_wf a → live a h → heap a !! p_block h.1 = Some b →
  0 ≤ p_off h.1 ∧ h.2 ≤ ALIGN h.2 ∧ p_off h.1 + ALIGN h.2 ≤ Z.of_nat (length (data b)).
Proof.
  intros Hwf [Hn (b' & Hb & H0 & Hu & _)] Hb'. assert (b' = b) as -> by congruence.
  destruct (aw_blocks _ Hwf _ _ Hb') as [[W1 _ W3 _] _]. pose proof (ALIGN_spec _ Hn). lia.
Qed.

Lemma grows_byte_at a a' p j z : grows a a' → byte_at a p j = Some z → byte_at a' p j = Some z.
Proof.
  intros [_ Hg]. unfold byte_at. destruct (heap a !! p_block p) as [b|] eqn:E; simpl; [|done].
  destruct (Hg _ _ E) as (u & -> & _). done.
Qed.

Lemma grows_live a a' h : grows a a' → live a h → live a' h.
Proof.
  intros [_ Hg] (Hn & b & Hb & H0 & Hu & Hd). destruct (Hg _ _ Hb) as (u & Hb' & Hle).
  split; [done|]. exists (set_used u b). split_and!; [done|done|simpl; lia|done].
Qed.

Lemma client_grow a a' hs bufs : arena_wf a' → grows a a' → client a hs bufs → client a' hs bufs.
Proof.
  intros Hwf Hg [_ Hl Ha Hh]. split; [done| |done|].
  - eapply Forall_impl; eauto using grows_live.
  - eapply Forall2_impl; [done|]. intros h buf [Hlen Hb]. split; [done|]. eauto using grows_byte_at.
Qed.

(** A fresh allocation is a new buffer of unknown bytes. *)
Lemma client_add a a' hs bufs p n :
  arena_wf a' → grows a a' → carved a a' p (ALIGN n) → 0 < n ≤ SIZE_LIMIT → client a hs bufs →
  client a' (hs ++ [(p, n)]) (bufs ++ [replicate (Z.to_nat n) None]).
Proof.
  intros Hwf Hg (b & Hb & H0 & Hu & Hd & Hfree) Hn Hc. pose proof (client_grow _ _ _ _ Hwf Hg Hc) as [_ Hl' Ha Hh'].
  assert (Hnew : ∀ h, h ∈ hs → apart h (p, n)).
  { intros h Hin. pose proof (cl_live _ _ _ Hc) as Hl. rewrite Forall_forall in Hl.
    destruct (Hl h Hin) as (_ & b0 & Hb0 & _ & Hu0 & _). unfold apart. simpl.
    destruct (decide (p_block h.1 = p_block p)) as [E|]; [|by left]. rewrite E in Hb0.
    specialize (Hfree b0 Hb0). lia. }
  split; [done| | |].
  - apply Forall_app. split; [done|]. apply Forall_singleton. split; [done|]. exists b. done.
  - intros i j h1 h2 Hij H1 H2. rewrite lookup_app in H1, H2.
    destruct (hs !! i) as [h|] eqn:Ei; destruct (hs !! j) as [h'|] eqn:Ej; simplify_eq.
    + by eapply (Ha i j).
    + apply list_lookup_singleton_Some in H2 as [_ <-]. eapply Hnew, list_elem_of_lookup_2, Ei.
    + apply list_lookup_singleton_Some in H1 as [_ <-]. eapply apart_sym, Hnew, list_elem_of_lookup_2, Ej.
    + apply list_lookup_singleton_Some in H1 as [? _], H2 as [? _].
      apply lookup_ge_None in Ei, Ej. lia.
  - apply Forall2_app; [done|]. apply Forall2_cons. split; [|constructor]. split; simpl.
    + rewrite length_replicate. lia.
    + intros j z [? _]%lookup_replicate. done.
Qed.

(** Giving up a buffer for the last one. *)
Lemma client_move a hs bufs k h buf h0 :
  hs !! k = Some h0 → client a (hs ++ [h]) (bufs ++ [buf]) → client a (<[k := h]> hs) (<[k := buf]> bufs).
Proof.
  intros Hk [Hwf Hl Ha Hh]. apply Forall_app in Hl as [Hl Hlh]. apply Forall2_app_inv in Hh as [Hh Hhh].
  2: { apply Forall2_length in Hh. rewrite !length_app in Hh. simpl in Hh. lia. }
  assert (Hlast : (hs ++ [h]) !! length hs = Some h) by (rewrite lookup_app_r, Nat.sub_diag by lia; done).
  split; [done| | |].
  - apply Forall_insert; [done|]. by inversion Hlh.
  - intros i j h1 h2 Hij H1 H2.
    apply list_lookup_insert_Some in H1 as [(-> & <- & _)|[Hi H1]],
      H2 as [(-> & <- & _)|[Hj H2]]; [done| | |].
    + eapply (Ha (length hs) j); [|done|by apply lookup_app_l_Some].
      apply lookup_lt_Some in H2. lia.
    + eapply (Ha i (length hs)); [|by apply lookup_app_l_Some|done].
      apply lookup_lt_Some in H1. lia.
    + eapply (Ha i j); [done|by apply lookup_app_l_Some..].
  - apply Forall2_insert; [done|]. by inversion Hhh.
Qed.

(** A store inside the used part of a block. *)
Lemma store_spec p bytes a b :
  arena_wf a → heap a !! p_block p = Some b → 0 ≤ p_off p → p_off p + Z.of_nat (length bytes) ≤ used b →
  ∃ d, store p bytes a = Ret (set_block (p_block p) {| capacity := capacity b; used := used b; data := d |} a) ∧
    length d = length (data b) ∧
    (∀ j, (j < length bytes)%nat → d !! (Z.to_nat (p_off p) + j)%nat = bytes !! j) ∧
    (∀ j, (j < Z.to_nat (p_off p) ∨ Z.to_nat (p_off p) + length bytes ≤ j)%nat → d !! j = data b !! j).
Proof.
  intros Hwf Hb H0 Hle. destruct (aw_blocks _ Hwf _ _ Hb) as [[W1 W2 W3 W4] _].
  unfold store. rewrite Hb.
  destruct (_ && _) eqn:E; [|apply andb_false_iff in E as [?|?]; reflect_bools; lia].
  eexists. split; [done|]. split_and!.
  - by rewrite length_inserts.
  - intros j Hj. rewrite list_lookup_inserts by lia. f_equal. lia.
  - intros j Hj. destruct Hj.
    + by rewrite list_lookup_inserts_lt.
    + by rewrite list_lookup_inserts_ge.
Qed.

Lemma set_data_wf a id b d :
  arena_wf a → heap a !! id = Some b → length d = length (data b) →
  arena_wf (set_block id {| capacity := capacity b; used := used b; data := d |} a).
Proof.
  intros [H1 H2 H3 H4 H5] Hb Hd. split; simpl; try done.
  - intros i. rewrite H2. destruct (decide (i = id)) as [->|Hne].
    + rewrite lookup_insert_eq, Hb. split; eauto.
    + by rewrite lookup_insert_ne.
  - intros i b'. destruct (decide (i = id)) as [->|Hne].
    + rewrite lookup_insert_eq. intros [= <-]. destruct (H3 _ _ Hb) as [[W1 W2 W3 W4] Hlt].
      split; [|done]. split; simpl; try done. by rewrite Hd.
    + rewrite lookup_insert_ne by done. apply H3.
Qed.

Lemma set_block_live a h id b b' :
  heap a !! id = Some b → used b ≤ used b' → live a h → live (set_block id b' a) h.
Proof.
  intros Hb Hu (Hn & b0 & Hb0 & Hl). split; [done|]. simpl. destruct (decide (p_block h.1 = id)) as [E|Hne].
  - rewrite E in *. rewrite lookup_insert_eq. exists b'. split; [done|]. assert (b0 = b) as -> by congruence.
    destruct Hl as (? & ? & ?). split_and!; [done|lia|done].
  - rewrite lookup_insert_ne by done. by exists b0.
Qed.

Lemma byte_at_set_block a p id b j :
  byte_at (set_block id b a) p j =
  if decide (p_block p = id) then data b !! (Z.to_nat (p_off p) + j)%nat else byte_at a p j.
Proof.
  unfold byte_at. simpl. destruct (decide _) as [->|Hne].
  - by rewrite lookup_insert_eq.
  - by rewrite lookup_insert_ne.
Qed.

(** Replacing what is known of one buffer. *)
Lemma holds_insert a a' hs bufs k h buf' :
  Forall2 (holds a) hs bufs → hs !! k = Some h → holds a' h buf' →
  (∀ i h' buf, i ≠ k → hs !! i = Some h' → holds a h' buf → holds a' h' buf) →
  Forall2 (holds a') hs (<[k := buf']> bufs).
Proof.
  intros Hh Hk Hnew Hold. apply Forall2_same_length_lookup. pose proof (Forall2_length _ _ _ Hh) as Hlen.
  split; [by rewrite length_insert|]. intros i x y Hx Hy.
  apply list_lookup_insert_Some in Hy as [(-> & <- & _)|[Hne Hy]]; [by simplify_eq|].
  eapply Hold; [done|done|]. by eapply (Forall2_lookup_lr (holds a)).
Qed.

(** Writing bytes into the room of a buffer changes that buffer only. *)
Lemma client_store a hs bufs k p n buf buf' o bytes :
  client a hs bufs → hs !! k = Some (p, n) → bufs !! k = Some buf →
  Z.of_nat o + Z.of_nat (length bytes) ≤ ALIGN n → length buf' = length buf →
  (∀ j z, buf' !! j = Some (Some z) →
     if decide (o ≤ j < o + length bytes)%nat then bytes !! (j - o)%nat = Some (Some z) else buf !! j = Some (Some z)) →
  ∃ a', store {| p_block := p_block p; p_off := p_off p + Z.of_nat o |} bytes a = Ret a' ∧
    client a' hs (<[k := buf']> bufs) ∧ default_block_size a' = default_block_size a.
Proof.
  intros [Hwf Hl Ha Hh] Hk Hbuf Hroom Hlen Hbuf'. rewrite Forall_lookup in Hl.
  destruct (Hl k _ Hk) as (Hn & b & Hb & H0 & Hu & Hd). cbn [fst snd] in *.
  destruct (store_spec {| p_block := p_block p; p_off := p_off p + Z.of_nat o |} bytes a b)
    as (d & Hst & Hld & Hin & Hout); [done|done|simpl; lia|simpl; lia|]. cbn [p_block p_off] in *.
  rewrite Hst. eexists. split; [done|]. split; [|done]. split.
  - by apply set_data_wf.
  - apply Forall_lookup. intros i h Hi. eapply set_block_live; [done|done|by eapply Hl].
  - done.
  - eapply holds_insert; [done|done| |].
    + destruct (Forall2_lookup_lr _ _ _ _ _ _ Hh Hk Hbuf) as [Hlb Hknown]. split; [by rewrite Hlen|].
      intros j z Hj. rewrite byte_at_set_block, decide_True by done. simpl.
      specialize (Hbuf' j z Hj). destruct (decide _) as [Hr|Hr].
      * rewrite <- Hbuf', <- Hin by lia. f_equal. lia.
      * rewrite Hout by lia. specialize (Hknown j z Hbuf'). unfold byte_at in Hknown. simpl in Hknown. by rewrite Hb in Hknown.
    + intros i h buf0 Hik Hi [Hlb Hknown]. split; [done|]. intros j z Hj. rewrite byte_at_set_block. simpl.
      specialize (Hknown j z Hj). destruct (decide _) as [E|]; [|done].
      unfold byte_at in Hknown. rewrite E, Hb in Hknown. simpl in Hknown. rewrite Hout; [done|].
      destruct (live_range a h b Hwf (Hl i h Hi)) as (? & ? & ?); [by rewrite E|].
      apply lookup_lt_Some in Hj. destruct (Ha i k _ _ Hik Hi Hk) as [?|Hap]; [by simpl in *|].
      simpl in Hap. lia.
Qed.

Lemma resize_known {A} n (l : list (option A)) j z :
  resize n None l !! j = Some (Some z) → (j < n)%nat ∧ l !! j = Some (Some z).
Proof.
  intros H. pose proof (lookup_lt_Some _ _ _ H) as Hlt. rewrite length_resize in Hlt. split; [done|].
  destruct (decide (j < length l)%nat).
  - by rewrite lookup_resize in H by done.
  - rewrite lookup_resize_new in H by lia. done.
Qed.

(** Resizing the last allocation of a block in place. *)
Lemma client_resize a hs bufs k p n m buf b :
  client a hs bufs → hs !! k = Some (p, n) → bufs !! k = Some buf → heap a !! p_block p = Some b →
  p_off p + ALIGN n = used b → 0 < m ≤ SIZE_LIMIT → p_off p + ALIGN m ≤ capacity b →
  client (set_block (p_block p) (set_used (p_off p + ALIGN m) b) a) (<[k := (p, m)]> hs)
         (<[k := resize (Z.to_nat m) None buf]> bufs).
Proof.
  intros [Hwf Hl Ha Hh] Hk Hbuf Hb Hlast Hm Hcap. rewrite Forall_lookup in Hl.
  destruct (Hl k _ Hk) as (Hn & b' & Hb' & H0 & Hu & Hd). cbn [fst snd] in *. rewrite Hb in Hb'. injection Hb' as <-.
  destruct (ALIGN_spec m Hm) as (Hm1 & Hm2 & Hm3).
  destruct (ALIGN_spec n Hn) as (Hn1 & Hn2 & Hn3).
  pose proof (lookup_lt_Some _ _ _ Hk) as Hklt.
  (* the other buffers of the block end before this one *)
  assert (Hothers : ∀ i h, i ≠ k → hs !! i = Some h → p_block h.1 = p_block p → p_off h.1 + ALIGN h.2 ≤ p_off p).
  { intros i h Hik Hi E. destruct (Ha i k _ _ Hik Hi Hk) as [?|Hap]; [by simpl in *|]. simpl in Hap.
    destruct (Hl i h Hi) as (Hhn & bh & Hbh & ? & ? & ?). rewrite E, Hb in Hbh. injection Hbh as <-.
    pose proof (ALIGN_spec _ Hhn). lia. }
  assert (Hsub : ∀ i h, (<[k := (p, m)]> hs) !! i = Some h → i = k ∧ h = (p, m) ∨ i ≠ k ∧ hs !! i = Some h).
  { intros i h [(-> & <- & _)|[? ?]]%list_lookup_insert_Some; auto. }
  split.
  - apply set_used_wf; [done|done|lia|by apply Z.divide_add_r].
  - apply Forall_lookup. intros i h [[-> ->]|[Hne Hi]]%Hsub.
    + split; [done|]. simpl. rewrite lookup_insert_eq. eexists. split; [done|]. simpl. split_and!; [lia|lia|done].
    + destruct (Hl i h Hi) as (Hhn & bh & Hbh & ? & ? & ?). split; [done|]. simpl.
      destruct (decide (p_block h.1 = p_block p)) as [E|E].
      * rewrite E, lookup_insert_eq. eexists. split; [done|]. simpl.
        specialize (Hothers i h Hne Hi E). split_and!; [lia|lia|done].
      * rewrite lookup_insert_ne by done. by exists bh.
  - intros i j h1 h2 Hij [[-> ->]|[Hi1 Hi]]%Hsub [[-> ->]|[Hj1 Hj]]%Hsub; [done| | |by eapply (Ha i j)].
    + destruct (decide (p_block h2.1 = p_block p)) as [E|E]; [|left; simpl; congruence].
      right. right. by apply (Hothers j h2).
    + destruct (decide (p_block h1.1 = p_block p)) as [E|E]; [|by left].
      right. left. by apply (Hothers i h1).
  - apply Forall2_insert.
    + eapply Forall2_impl; [done|]. intros h buf0 [Hlb Hknown]. split; [done|]. intros j z Hj.
      rewrite byte_at_set_block. specialize (Hknown j z Hj). destruct (decide _) as [E|]; [|done].
      unfold byte_at in Hknown. by rewrite E, Hb in Hknown.
    + split; [simpl; rewrite length_resize; lia|]. simpl. intros j z [_ Hj]%resize_known.
      rewrite byte_at_set_block, decide_True by done. simpl.
      destruct (Forall2_lookup_lr _ _ _ _ _ _ Hh Hk Hbuf) as [_ Hknown]. specialize (Hknown j z Hj).
      unfold byte_at in Hknown. simpl in Hknown. by rewrite Hb in Hknown.
Qed.

(** The reason an allocation of [n] bytes may return NULL. *)
Definition refused (a : arena_t) (n : Z) : Prop :=
  n = 0 ∨ alloc (HEADER + ALIGN n) = false ∨ alloc (HEADER + default_block_size a) = false.

Lemma client_alloc a hs bufs n :
  client a hs bufs → 0 ≤ n ≤ SIZE_LIMIT →
  ∃ r a', arena_alloc alloc n a = Ret (r, a') ∧ default_block_size a' = default_block_size a ∧
    match r with
    | Some p => client a' (hs ++ [(p, n)]) (bufs ++ [replicate (Z.to_nat n) None])
    | None => client a' hs bufs ∧ refused a n
    end.
Proof.
  intros Hc Hn. destruct (decide (n = 0)) as [->|].
  { exists None, a. split_and!; [done|done|done|by left]. }
  destruct (arena_alloc_spec n a (cl_wf _ _ _ Hc)) as (r & a' & E & Hwf & Hg & Hr); [lia|].
  exists r, a'. split; [done|]. split; [apply Hg|]. destruct r as [p|].
  - apply (client_add a a'); [done|done|done|lia|done].
  - split; [by eapply client_grow|by right].
Qed.

(** The bytes copied are those of the old buffer. *)
Lemma load_spec a h n b :
  arena_wf a → live a h → heap a !! p_block h.1 = Some b → 0 ≤ n ≤ ALIGN h.2 →
  ∃ bytes, load h.1 n a = Ret bytes ∧ Z.of_nat (length bytes) = n ∧
    ∀ j, (j < length bytes)%nat → bytes !! j = byte_at a h.1 j.
Proof.
  intros Hwf Hl Hb Hn. destruct (live_range a h b Hwf Hl Hb) as (H0 & _ & Hend). unfold load. rewrite Hb.
  destruct (_ && _) eqn:E; [|apply andb_false_iff in E as [?|?]; reflect_bools; lia].
  eexists. split; [done|]. split; [rewrite length_take, length_drop; lia|].
  intros j Hj. rewrite length_take, length_drop in Hj. unfold byte_at. rewrite Hb. simpl.
  rewrite lookup_take_lt by lia. by rewrite lookup_drop.
Qed.

Lemma pointer_eta p : {| p_block := p_block p; p_off := p_off p + Z.of_nat 0 |} = p.
Proof. destruct p. simpl. f_equal. lia. Qed.

Lemma client_copy a hs bufs k p n m buf :
  client a hs bufs → hs !! k = Some (p, n) → bufs !! k = Some buf → 0 < m ≤ SIZE_LIMIT →
  ∃ r a', realloc_copy alloc p (ALIGN n) (ALIGN m) a = Ret (r, a') ∧
    default_block_size a' = default_block_size a ∧
    match r with
    | Some q => client a' (<[k := (q, m)]> hs) (<[k := resize (Z.to_nat m) None buf]> bufs)
    | None => client a' hs bufs ∧ refused a m
    end.
Proof.
  intros Hc Hk Hbuf Hm. destruct (ALIGN_spec m Hm) as (Hm1 & Hm2 & Hm3). unfold realloc_copy.
  destruct (arena_alloc_spec (ALIGN m) a (cl_wf _ _ _ Hc)) as (r & a1 & E & Hwf1 & Hg & Hr); [lia|].
  rewrite E. simpl. rewrite ALIGN_idem in Hr by (done || lia). destruct r as [q|].
  2: { exists None, a1. split_and!; [done|apply Hg|by eapply client_grow|by right]. }
  pose proof (client_add _ _ _ _ _ _ Hwf1 Hg Hr Hm Hc) as Hc1.
  assert (Hk1 : (hs ++ [(q, m)]) !! k = Some (p, n)) by (by apply lookup_app_l_Some).
  pose proof (Forall_lookup_1 _ _ _ _ (cl_live _ _ _ Hc1) Hk1) as Hlive.
  destruct Hlive as (Hn & b & Hb & Hrest). destruct (ALIGN_spec n Hn) as (Hn1 & Hn2 & Hn3).
  destruct (load_spec a1 (p, n) (Z.min (ALIGN n) (ALIGN m)) b) as (bytes & Hload & Hlen & Hbytes);
    [done|by split; [|exists b]|done|simpl in *; lia|]. simpl in Hload. rewrite Hload. simpl.
  pose proof (Forall2_length _ _ _ (cl_holds _ _ _ Hc)) as Hll.
  destruct (Forall2_lookup_lr _ _ _ _ _ _ (cl_holds _ _ _ Hc) Hk Hbuf) as [Hlb Hknown].
  destruct (client_store a1 _ _ (length hs) q m (replicate (Z.to_nat m) None) (resize (Z.to_nat m) None buf) 0 bytes Hc1)
    as (a2 & Hst & Hc2 & Hd2).
  - by apply list_lookup_middle.
  - by apply list_lookup_middle.
  - lia.
  - by rewrite length_resize, length_replicate.
  - intros j z [Hj Hz]%resize_known. specialize (Hknown j z Hz). apply lookup_lt_Some in Hz. simpl in Hlb.
    rewrite decide_True by (simpl in *; lia). rewrite Nat.sub_0_r, Hbytes by (simpl in *; lia).
    by eapply grows_byte_at.
  - rewrite pointer_eta in Hst. rewrite Hst. exists (Some q), a2. split; [done|].
    split; [rewrite Hd2; apply Hg|]. rewrite Hll in Hc2.
    rewrite insert_app_r_alt, Nat.sub_diag in Hc2 by lia. by eapply client_move.
Qed.

Lemma client_realloc a hs bufs k p n m buf :
  client a hs bufs → hs !! k = Some (p, n) → bufs !! k = Some buf → 0 ≤ m ≤ SIZE_LIMIT →
  ∃ r a', arena_realloc alloc (Some p) n m a = Ret (r, a') ∧
    default_block_size a' = default_block_size a ∧
    match r with
    | Some q => client a' (<[k := (q, m)]> hs) (<[k := resize (Z.to_nat m) None buf]> bufs)
    | None => client a' hs bufs ∧ refused a m
    end.
Proof.
  intros Hc Hk Hbuf Hm. unfold arena_realloc. destruct (m =? 0) eqn:?; reflect_bools.
  { exists None, a. split_and!; [done|done|done|by left]. }
  destruct (i ← current a; block_at a i) as [[id b]|] eqn:E; [|apply client_copy; by (done || lia)].
  case_bool_decide as Hp; [|apply client_copy; by (done || lia)].
  destruct (current a) as [i|]; [|done]. apply block_at_Some in E as [_ Hb].
  destruct (Forall_lookup_1 _ _ _ _ (cl_live _ _ _ Hc) Hk) as (Hn & b' & Hb' & H0 & Hu & _).
  destruct (aw_blocks _ (cl_wf _ _ _ Hc) _ _ Hb) as [[W1 W2 W3 W4] _].
  destruct (ALIGN_spec n Hn) as (Hn1 & Hn2 & Hn3). destruct (ALIGN_spec m) as (Hm1 & Hm2 & Hm3); [lia|].
  assert (p_block p = id) as Hid by (by rewrite Hp). subst id. simpl in *.
  assert (b' = b) as -> by congruence. assert (Hoff : p_off p = used b - ALIGN n).
  { rewrite Hp at 1. simpl. apply u64_small. unfold SIZE_LIMIT in *. lia. }
  unfold SIZE_LIMIT in *.
  destruct (ALIGN m <=? ALIGN n) eqn:?; reflect_bools.
  - rewrite u64_small by lia. replace (used b - (ALIGN n - ALIGN m)) with (p_off p + ALIGN m) by lia.
    eexists (Some p), _. split; [done|]. split; [done|]. eapply client_resize; by (done || unfold SIZE_LIMIT; lia).
  - rewrite !(u64_small (ALIGN m - ALIGN n)), (u64_small (capacity b - used b)) by lia.
    destruct (_ <=? _) eqn:?; reflect_bools; [|apply client_copy; by (done || unfold SIZE_LIMIT; lia)].
    rewrite u64_small by lia. replace (used b + (ALIGN m - ALIGN n)) with (p_off p + ALIGN m) by lia.
    eexists (Some p), _. split; [done|]. split; [done|]. eapply client_resize; by (done || unfold SIZE_LIMIT; lia).
Qed.

(** A buffer filled right after its allocation. *)
Lemma client_fill a hs bufs p n bytes :
  client a (hs ++ [(p, n)]) (bufs ++ [replicate (Z.to_nat n) None]) →
  Z.of_nat (length bytes) = n →
  ∃ a', store p bytes a = Ret a' ∧ client a' (hs ++ [(p, n)]) (bufs ++ [bytes]) ∧
    default_block_size a' = default_block_size a.
Proof.
  intros Hc Hlen.
  assert (Hll : length hs = length bufs).
  { pose proof (Forall2_length _ _ _ (cl_holds _ _ _ Hc)) as H. rewrite !length_app in H. simpl in H. lia. }
  pose proof (Forall_lookup_1 _ _ (length hs) (p, n) (cl_live _ _ _ Hc)) as [Hn _]; [by apply list_lookup_middle|].
  destruct (ALIGN_spec n Hn) as (Hle & _).
  destruct (client_store a _ _ (length hs) p n (replicate (Z.to_nat n) None) bytes 0 bytes Hc) as (a' & Hst & Hc' & Hd).
  - by apply list_lookup_middle.
  - by apply list_lookup_middle.
  - lia.
  - rewrite length_replicate. lia.
  - intros j z Hj. pose proof (lookup_lt_Some _ _ _ Hj). rewrite decide_True by lia. by rewrite Nat.sub_0_r.
  - rewrite pointer_eta in Hst. exists a'. split; [done|]. split; [|done].
    rewrite Hll in Hc'. by rewrite insert_app_r_alt, Nat.sub_diag in Hc' by lia.
Qed.

(** Resetting keeps the ordinary blocks, empty, and frees the others. *)
Lemma reset_blocks_spec c limit h kept h' :
  NoDup c → (∀ id, id ∈ c → is_Some (h !! id)) → reset_blocks c limit h = (kept, h') →
  NoDup kept ∧ (∀ id, id ∈ kept → id ∈ c) ∧
  (∀ id, id ∉ c → h' !! id = h !! id) ∧
  (∀ id, id ∈ c → id ∈ kept ↔ is_Some (h' !! id)) ∧
  (∀ id b, id ∈ c → h' !! id = Some b → ∃ b0, h !! id = Some b0 ∧ b = set_used 0 b0).
Proof.
  revert h kept h'. induction c as [|x c IH]; intros h kept h' Hnd Hin Hloop; simpl in Hloop.
  { injection Hloop as <- <-. split_and!; [constructor|done|done|by intros ? ?%not_elem_of_nil|by intros ?? ?%not_elem_of_nil]. }
  apply NoDup_cons in Hnd as [Hx Hnd]. destruct (Hin x) as [b Hb]; [by left|]. rewrite Hb in Hloop.
  destruct (_ <? _).
  - apply IH in Hloop as (H1 & H2 & H3 & H4 & H5); [|done|].
    2: { intros id Hid. rewrite lookup_delete_ne by (intros ->; done). apply Hin. by right. }
    assert (Hx' : h' !! x = None) by (by rewrite H3, lookup_delete_eq).
    split_and!.
    + done.
    + intros id Hid. right. auto.
    + intros id Hid. apply not_elem_of_cons in Hid as [??]. by rewrite H3, lookup_delete_ne by done.
    + intros id [->|Hid]%elem_of_cons; [|by apply H4]. rewrite Hx'. split; [by intros ?%H2|by intros [? ?]].
    + intros id b0 [->|Hid]%elem_of_cons Hb0; [congruence|].
      destruct (H5 _ _ Hid Hb0) as (b1 & Hb1 & ->). exists b1.
      split; [|done]. by rewrite lookup_delete_ne in Hb1 by (intros ->; done).
  - destruct (reset_blocks c limit _) as [kept0 h0] eqn:E. injection Hloop as <- <-.
    apply IH in E as (H1 & H2 & H3 & H4 & H5); [|done|].
    2: { intros id Hid. rewrite lookup_insert_ne by (intros ->; done). apply Hin. by right. }
    assert (Hx' : h0 !! x = Some (set_used 0 b)) by (by rewrite H3, lookup_insert_eq).
    split_and!.
    + apply NoDup_cons. split; [by intros ?%H2|done].
    + intros id [->|Hid]%elem_of_cons; [by left|right; auto].
    + intros id Hid. apply not_elem_of_cons in Hid as [??]. by rewrite H3, lookup_insert_ne by done.
    + intros id [->|Hid]%elem_of_cons; [rewrite Hx'; split; [eauto|by left]|].
      rewrite elem_of_cons, H4 by done. split; [|by right]. intros [->|?]; [rewrite Hx'; eauto|done].
    + intros id b0 [->|Hid]%elem_of_cons Hb0; [rewrite Hx' in Hb0; injection Hb0 as <-; eauto|].
      destruct (H5 _ _ Hid Hb0) as (b1 & Hb1 & ->). exists b1.
      split; [|done]. by rewrite lookup_insert_ne in Hb1 by (intros ->; done).
Qed.

Lemma client_reset a : arena_wf a → client (arena_reset a) [] [].
Proof.
  intros [H1 H2 H3 H4 H5]. unfold arena_reset. destruct (reset_blocks _ _ _) as [kept h] eqn:E.
  apply reset_blocks_spec in E as (R1 & R2 & R3 & R4 & R5); [|done|by intros id Hid%H2].
  assert (Hall : ∀ id b, h !! id = Some b → id ∈ chain a).
  { intros id b Hb. destruct (decide (id ∈ chain a)) as [|Hn]; [done|].
    rewrite R3 in Hb by done. exfalso. apply Hn, H2. eauto. }
  split; [|constructor|done|constructor]. split; simpl.
  - done.
  - intros id. split; [intros Hid; by apply R4, Hid; auto|]. intros [b Hb]. apply R4; eauto.
  - intros id b Hb. destruct (R5 id b (Hall _ _ Hb) Hb) as (b0 & Hb0 & ->).
    destruct (H3 _ _ Hb0) as [[W1 W2 W3 W4] Hlt]. split; [|done]. split; simpl; try done; [lia|by exists 0].
  - destruct kept; simpl; [done|lia].
  - done.
Qed.

(* ------------------------------------------------------------------ *)
(** ** Sequences of operations *)

(** What a client does with an arena; a buffer is named by its position. *)
Inductive arena_op :=
| OAlloc (n : Z) | OCalloc (num size : Z) | ORealloc (k : nat) (n : Z) | OStrdup (s : cstr)
| OWrite (k o : nat) (bytes : list (option Z)) | OReset.

(** The bytes an operation asks for. *)
Definition op_size (op : arena_op) : Z :=
  match op with
  | OAlloc n | ORealloc _ n => n
  | OCalloc num size => num * size
  | OStrdup s => Z.of_nat (length s) + 1
  | OWrite _ _ _ | OReset => 0
  end.

Definition push (n : Z) (hs : list handle) (r : option pointer * arena_t) : arena_t * list handle :=
  (r.2, match r.1 with Some p => hs ++ [(p, n)] | None => hs end).

(** The operation on the arena.  A write is made only inside the bytes
    the client asked for. *)
Definition run_op (op : arena_op) (st : arena_t * list handle) : outcome (arena_t * list handle) :=
  let '(a, hs) := st in
  match op with
  | OAlloc n => r ← arena_alloc alloc n a; Ret (push n hs r)
  | OCalloc num size => r ← arena_calloc alloc num size a; Ret (push (num * size) hs r)
  | OStrdup s => r ← arena_strdup alloc (Some s) a; Ret (push (op_size op) hs r)
  | ORealloc k n =>
      match hs !! k with
      | None => Ret (a, hs)
      | Some (p, old) =>
          '(r, a) ← arena_realloc alloc (Some p) old n a;
          Ret (a, match r with Some q => <[k := (q, n)]> hs | None => hs end)
      end
  | OWrite k o bytes =>
      match hs !! k with
      | Some (p, n) =>
          if Z.of_nat o + Z.of_nat (length bytes) <=? n then
            a ← store {| p_block := p_block p; p_off := p_off p + Z.of_nat o |} bytes a; Ret (a, hs)
          else Ret (a, hs)
      | None => Ret (a, hs)
      end
  | OReset => Ret (arena_reset a, [])
  end.

(** The same operation on independent buffers; [ok] tells whether memory
    was found.  [None] is an unknown byte. *)
Definition spec_op (op : arena_op) (ok : bool) (bufs : list (list (option Z))) : list (list (option Z)) :=
  match op with
  | OAlloc n => if ok then bufs ++ [replicate (Z.to_nat n) None] else bufs
  | OCalloc num size => if ok then bufs ++ [replicate (Z.to_nat (num * size)) (Some 0)] else bufs
  | OStrdup s => if ok then bufs ++ [map (λ c, Some (ord c)) (s ++ [NUL])] else bufs
  | ORealloc k n =>
      match bufs !! k with
      | Some buf => if ok then <[k := resize (Z.to_nat n) None buf]> bufs else bufs
      | None => bufs
      end
  | OWrite k o bytes =>
      match bufs !! k with
      | Some buf => if (o + length bytes <=? length buf)%nat then <[k := list_inserts o bytes buf]> bufs else bufs
      | None => bufs
      end
  | OReset => []
  end.

Fixpoint run_ops (ops : list arena_op) (st : arena_t * list handle) : outcome (arena_t * list handle) :=
  match ops with [] => Ret st | op :: ops => st ← run_op op st; run_ops ops st end.

Fixpoint spec_ops (ops : list (arena_op * bool)) (bufs : list (list (option Z))) : list (list (option Z)) :=
  match ops with [] => bufs | (op, ok) :: ops => spec_ops ops (spec_op op ok bufs) end.

Lemma client_write a hs bufs k o bytes :
  client a hs bufs →
  ∃ a', run_op (OWrite k o bytes) (a, hs) = Ret (a', hs) ∧
    default_block_size a' = default_block_size a ∧ client a' hs (spec_op (OWrite k o bytes) true bufs).
Proof.
  intros Hc. simpl. pose proof (Forall2_length _ _ _ (cl_holds _ _ _ Hc)) as Hll.
  destruct (hs !! k) as [[p n]|] eqn:Hk.
  2: { exists a. rewrite (proj2 (lookup_ge_None bufs k)); [done|]. apply lookup_ge_None in Hk. lia. }
  destruct (lookup_lt_is_Some_2 bufs k) as [buf Hbuf]; [apply lookup_lt_Some in Hk; lia|]. rewrite Hbuf.
  destruct (Forall2_lookup_lr _ _ _ _ _ _ (cl_holds _ _ _ Hc) Hk Hbuf) as [Hlb _]. simpl in Hlb.
  destruct (Z.leb_spec (Z.of_nat o + Z.of_nat (length bytes)) n) as [Hle|Hgt].
  2: { exists a. destruct (Nat.leb_spec (o + length bytes) (length buf)); [lia|done]. }
  destruct (Nat.leb_spec (o + length bytes) (length buf)); [|lia].
  destruct (Forall_lookup_1 _ _ _ _ (cl_live _ _ _ Hc) Hk) as [Hn _]. destruct (ALIGN_spec n Hn) as [HA _].
  destruct (client_store a hs bufs k p n buf (list_inserts o bytes buf) o bytes Hc Hk Hbuf) as (a' & -> & Hc' & Hd).
  - lia.
  - apply length_inserts.
  - intros j z Hj. destruct (decide _).
    + by rewrite list_lookup_inserts in Hj by lia.
    + destruct (decide (j < o)%nat); [by rewrite list_lookup_inserts_lt in Hj by lia|].
      by rewrite list_lookup_inserts_ge in Hj by lia.
  - by exists a'.
Qed.

(** One operation: the arena follows the buffers. *)
Lemma run_op_spec op a hs bufs :
  client a hs bufs → 0 ≤ op_size op ≤ SIZE_LIMIT →
  ∃ a' hs' ok, run_op op (a, hs) = Ret (a', hs') ∧ default_block_size a' = default_block_size a ∧
    client a' hs' (spec_op op ok bufs) ∧ (ok = false → refused a (op_size op)).
Proof.
  intros Hc Hn. destruct op as [n|num size|k n|s|k o bytes|]; cbn [op_size] in *.
  - simpl. destruct (client_alloc a hs bufs n Hc Hn) as (r & a' & -> & Hd & Hr). simpl.
    destruct r as [p|]; simpl.
    + by exists a', (hs ++ [(p, n)]), true.
    + destruct Hr. by exists a', hs, false.
  - simpl. unfold arena_calloc. rewrite u64_small by (unfold SIZE_LIMIT in *; lia).
    destruct (client_alloc a hs bufs _ Hc Hn) as (r & a' & -> & Hd & Hr). simpl.
    destruct r as [p|]; simpl; [|destruct Hr; by exists a', hs, false].
    destruct (client_fill a' hs bufs p _ (replicate (Z.to_nat (num * size)) (Some 0)) Hr)
      as (a2 & -> & Hc2 & Hd2); [rewrite length_replicate; lia|].
    exists a2, (hs ++ [(p, num * size)]), true. split_and!; [done|congruence|done|done].
  - cbn [run_op spec_op].
    pose proof (Forall2_length _ _ _ (cl_holds _ _ _ Hc)) as Hll. destruct (hs !! k) as [[p old]|] eqn:Hk.
    2: { exists a, hs, true. rewrite (proj2 (lookup_ge_None bufs k)); [done|]. apply lookup_ge_None in Hk. lia. }
    destruct (lookup_lt_is_Some_2 bufs k) as [buf Hbuf]; [apply lookup_lt_Some in Hk; lia|]. rewrite Hbuf.
    destruct (client_realloc a hs bufs k p old n buf Hc Hk Hbuf Hn) as (r & a' & -> & Hd & Hr). simpl.
    destruct r as [q|].
    + by exists a', (<[k := (q, n)]> hs), true.
    + destruct Hr. by exists a', hs, false.
  - simpl. destruct (client_alloc a hs bufs _ Hc Hn) as (r & a' & -> & Hd & Hr). simpl.
    destruct r as [p|]; simpl; [|destruct Hr; by exists a', hs, false].
    destruct (client_fill a' hs bufs p _ (map (λ c, Some (ord c)) (s ++ [NUL])) Hr)
      as (a2 & -> & Hc2 & Hd2); [rewrite length_map, length_app; simpl; lia|].
    eexists a2, _, true. split_and!; [done|congruence|done|done].
  - destruct (client_write a hs bufs k o bytes Hc) as (a' & -> & Hd & Hc'). by exists a', hs, true.
  - exists (arena_reset a), [], true. split; [done|]. split; [|split; [apply client_reset, Hc|done]].
    simpl. unfold arena_reset. by destruct (reset_blocks _ _ _).
Qed.

Lemma client_init d : 0 ≤ d < 2 ^ 63 → client (arena_init d) [] [].
Proof.
  intros Hd. split; [|constructor|done|constructor]. split; simpl; [constructor| | |done|].
  - intros id. rewrite lookup_empty. split; [by intros ?%not_elem_of_nil|by intros [? ?]].
  - intros id b. by rewrite lookup_empty.
  - destruct (0 <? d) eqn:?; reflect_bools; lia.
Qed.

Lemma run_ops_spec d ops a hs bufs :
  client a hs bufs → default_block_size a = d → Forall (λ op, 0 ≤ op_size op ≤ SIZE_LIMIT) ops →
  ∃ a' hs' oks, run_ops ops (a, hs) = Ret (a', hs') ∧ length oks = length ops ∧
    client a' hs' (spec_ops (zip ops oks) bufs) ∧
    (∀ op, (op, false) ∈ zip ops oks → op_size op = 0 ∨ alloc (HEADER + ALIGN (op_size op)) = false ∨
       alloc (HEADER + d) = false).
Proof.
  revert a hs bufs. induction ops as [|op ops IH]; intros a hs bufs Hc Hd Hops; cbn [run_ops].
  { exists a, hs, []. split_and!; [done|done|done|]. by intros ? ?%not_elem_of_nil. }
  apply Forall_cons in Hops as [Hop Hops].
  destruct (run_op_spec op a hs bufs Hc Hop) as (a1 & hs1 & ok & -> & Hd1 & Hc1 & Hok).
  cbn [mbind outcome_bind].
  destruct (IH a1 hs1 _ Hc1 ltac:(congruence) Hops) as (a2 & hs2 & oks & -> & Hlen & Hc2 & Hoks).
  exists a2, hs2, (ok :: oks). split_and!; [done|simpl; lia|done|].
  simpl. intros op' [E|Hin]%elem_of_cons; [|by apply Hoks]. injection E as -> <-.
  unfold refused in Hok. rewrite Hd in Hok. by apply Hok.
Qed.

(** C20. Any sequence of allocations, cleared allocations, resizes, string
    copies, writes and resets of an arena behaves as independent
    buffers: it never faults; the pointers the client holds are 16-byte
    aligned, lie in used memory of live blocks, and the (rounded)
    regions behind them are pairwise disjoint; and every byte the client
    has written, cleared or copied is still there.  An operation fails
    only for a size of zero or when malloc refuses the block. *)
Theorem arena_refines_buffers d ops :
  0 ≤ d < 2 ^ 63 → Forall (λ op, 0 ≤ op_size op ≤ SIZE_LIMIT) ops →
  ∃ a hs oks, run_ops ops (arena_init d, []) = Ret (a, hs) ∧ length oks = length ops ∧
    Forall (live a) hs ∧
    (∀ i j h1 h2, i ≠ j → hs !! i = Some h1 → hs !! j = Some h2 → apart h1 h2) ∧
    Forall2 (holds a) hs (spec_ops (zip ops oks) []) ∧
    (∀ op, (op, false) ∈ zip ops oks →
       op_size op = 0 ∨ alloc (HEADER + ALIGN (op_size op)) = false ∨
       alloc (HEADER + default_block_size (arena_init d)) = false).
Proof.
  intros Hd Hops.
  destruct (run_ops_spec _ ops _ [] [] (client_init d Hd) eq_refl Hops) as (a & hs & oks & Hrun & Hlen & [] & Hoks).
  exists a, hs, oks. split_and!; try done.
Qed.

End Correct.

(** A request that no longer fits the current block, with the resize of
    an earlier buffer and a reset of the arena in between. *)
Definition sample_ops : list arena_op :=
  [OAlloc 100; OReset; OAlloc 5; OWrite 0 0 [Some 65; Some 66]; OCalloc 2 8; ORealloc 0 40; OStrdup "ab"; OAlloc 7].

Lemma arena_refines_buffers_witness :
  ∃ a hs, run_ops (λ n, n <? 2 ^ 63) sample_ops (arena_init 64, []) = Ret (a, hs) ∧
    length hs = 4%nat ∧ Forall (live a) hs ∧
    (∀ h1 h2, hs !! 0%nat = Some h1 → hs !! 2%nat = Some h2 → apart h1 h2).
Proof.
  destruct (arena_refines_buffers (λ n, n <? 2 ^ 63) (λ n H, proj1 (Z.ltb_lt n _) H) 64 sample_ops)
    as (a & hs & oks & Hrun & Hlen & Hlive & Hapart & _).
  - lia.
  - repeat constructor; unfold SIZE_LIMIT; simpl; lia.
  - exists a, hs. split; [exact Hrun|]. split; [|split; [exact Hlive|intros h1 h2; by apply Hapart]].
    assert (E : (length ∘ snd) <$> returned (run_ops (λ n, n <? 2 ^ 63) sample_ops (arena_init 64, [])) = Some 4%nat)
      by (vm_compute; reflexivity).
    rewrite Hrun in E. by injection E.
Defined.

(** Rounding overflows: once the arena has a block, a request of
    [2^64 - 15] bytes or more is rounded to zero and succeeds without
    taking any memory, so that the next allocation of the block gets the
    same address. *)
Theorem arena_alloc_wraps alloc a i size :
  arena_wf a → current a = Some i → 2 ^ 64 - 16 < size < 2 ^ 64 →
  ∃ p, arena_alloc alloc size a = Ret (Some p, a) ∧
    ∀ n a', 0 < n ≤ SIZE_LIMIT → slice a i (ALIGN n) = Some a' → arena_alloc alloc n a = Ret (Some p, a'.2).
Proof.
  intros Hwf Hi Hs. pose proof (aw_current _ Hwf) as Hcur. rewrite Hi in Hcur.
  assert (Hz : ALIGN size = 0).
  { unfold ALIGN, ALIGNMENT, u64. replace (size + (16 - 1)) with (size + 15 - 2 ^ 64 + 1 * 2 ^ 64) by lia.
    rewrite Z.mod_add, Z.mod_small by lia. change 16 with (2 ^ 4). rewrite land_high_bits by lia.
    rewrite Z.shiftr_div_pow2, Z.div_small by lia. done. }
  destruct (lookup_lt_is_Some_2 (chain a) i Hcur) as [id Hid].
  destruct (proj1 (aw_chain _ Hwf id)) as [b Hb]; [by eapply list_elem_of_lookup_2|].
  assert (Hat : block_at a i = Some (id, b)) by (unfold block_at; rewrite Hid; simpl; by rewrite Hb).
  destruct (aw_blocks _ Hwf _ _ Hb) as [[W1 W2 W3 W4] _].
  exists {| p_block := id; p_off := used b |}. split.
  - unfold arena_alloc. destruct (size =? 0) eqn:?; reflect_bools; [lia|]. rewrite Hi, Hz. simpl.
    unfold slice. rewrite Hat. simpl. rewrite (proj2 (Z.leb_le 0 _)) by apply u64_range.
    rewrite Z.add_0_r, u64_small, set_used_id by lia. unfold set_block. rewrite insert_id by done. by destruct a.
  - intros n [p a'] Hn Hsl. unfold arena_alloc. destruct (n =? 0) eqn:?; reflect_bools; [lia|].
    rewrite Hi. simpl. rewrite Hsl. unfold slice in Hsl. rewrite Hat in Hsl. simpl in Hsl.
    destruct (_ <=? _); [|done]. by injection Hsl as <- <-.
Qed.

Lemma arena_alloc_wraps_witness :
  ∃ a p, arena_alloc (λ n, n <? 2 ^ 63) (2 ^ 64 - 8) a = Ret (Some p, a) ∧ current a = Some O.
Proof.
  destruct (arena_alloc_spec (λ n, n <? 2 ^ 63) (λ n H, proj1 (Z.ltb_lt n _) H) 5 (arena_init 64))
    as (r & a & E & Hwf & _ & _).
  - apply (cl_wf _ [] []), client_init. lia.
  - unfold SIZE_LIMIT; lia.
  - vm_compute in E. injection E as <- <-.
    destruct (arena_alloc_wraps (λ n, n <? 2 ^ 63) _ 0 (2 ^ 64 - 8) Hwf eq_refl) as (p & Hp & _); [lia|].
    eexists _, p. split; [exact Hp|reflexivity].
Defined.
