(* ===== verification/Dpop.v ===== *)
(** * DPoP proofs (src/dpop.c)

    A proof is a JWT whose header carries the public key.  SHA-256 and
    RSA verification are OpenSSL's ([Sha256], [RsaKeys]), the JSON reader
    is yyjson's; the clock is an argument.  The theorem says exactly which
    proofs are accepted. *)

From Stdlib Require Import SpecFloat.
From S2P Require Import Prelude CLib CNum Json Types Bits Base64 TokenState Token TokenScan TokenJwt.

(** [SHA256] and libsodium's [crypto_hash_sha256]. *)
Class Sha256 := sha256 : list Z → list Z.
Class Sha256Laws `{Sha256} : Prop :=
  sha256_digest : ∀ msg, length (sha256 msg) = 32%nat ∧ words 8 (sha256 msg).

(** RSA-SHA256 verification under a modulus and an exponent (big-endian
    bytes): message, signature. *)
Class RsaKeys := rsa_ne_verify : list Z → list Z → cstr → list Z → bool.

Fixpoint str_case_equals (a b : cstr) : bool :=
  match a, b with
  | x :: a', y :: b' => if Ascii.eqb (tolower x) (tolower y) then str_case_equals a' b' else false
  | [], [] => true
  | _, _ => false
  end.

(** Conversion of a double to [int64_t]: towards zero; [None] when the
    value does not fit, which is undefined. *)
Definition double_to_s64 (d : double) : option Z :=
  match d with
  | S754_zero _ => Some 0
  | S754_finite s m e =>
      let a := if 0 <=? e then Z.pos m * 2 ^ e else Z.pos m / 2 ^ (- e) in
      let z := if s then - a else a in
      if (- 2 ^ 63 <=? z) && (z <? 2 ^ 63) then Some z else None
  | _ => None
  end.

(** [(sso_timestamp_t)(yyjson_get_num(iat) * 1000.0)] *)
Definition iat_ms (num : double) : option Z := double_to_s64 (SFmul prec emax num (double_of_Z 1000)).

(** [snprintf(canonical_jwk, 2048, ...)] *)
Definition canonical_jwk (n e : cstr) : cstr :=
  take 2047 (("{" : cstr) ++ quote "e" ++ (":" : cstr) ++ quote e ++ ("," : cstr) ++
             quote "kty" ++ (":" : cstr) ++ quote "RSA" ++ ("," : cstr) ++
             quote "n" ++ (":" : cstr) ++ quote n ++ ("}" : cstr)).

Section Dpop.
Context `{JsonReader, Sha256, RsaKeys} (alloc : Z → bool).

(** A segment decoded into a buffer of its own length, and the NUL behind
    the decoded bytes, which must fit too. *)
Definition decode_segment (b64 : cstr) : outcome (list Z) :=
  let bin := base64url_decode b64 (length b64) in
  if negb (alloc (Z.of_nat (length b64))) then Crash
  else if (length b64 <=? length bin)%nat then Crash
  else Ret bin.

(** The thumbprint of a key. *)
Definition thumbprint (n e : cstr) : cstr := base64url_encode (sha256 (bytes_of (canonical_jwk n e))) 64.

(** Header: the modulus and the exponent of the key. *)
Definition header_key (hdr : option json) : option (cstr * cstr) :=
  match as_str (yyjson_obj_get hdr "typ") with
  | Some typ =>
      if negb (str_case_equals typ "dpop+jwt") then None
      else if negb (is_str_eq (yyjson_obj_get hdr "alg") "RS256") then None
      else
        let jwk := yyjson_obj_get hdr "jwk" in
        if negb (yyjson_is_obj jwk) then None
        else if negb (is_str_eq (yyjson_obj_get jwk "kty") "RSA") then None
        else
          match as_str (yyjson_obj_get jwk "n"), as_str (yyjson_obj_get jwk "e") with
          | Some n, Some e => Some (n, e)
          | _, _ => None
          end
  | None => None
  end.

(** Payload: method, address and time. *)
Definition payload_fits (pld : option json) (method url : cstr) (now : Z) : outcome bool :=
  match as_str (yyjson_obj_get pld "htm") with
  | Some htm =>
      if negb (str_case_equals htm method) then Ret false
      else
        match as_str (yyjson_obj_get pld "htu") with
        | Some htu =>
            if negb (strncmp_eq htu url (length url)) then Ret false
            else
              match as_num (yyjson_obj_get pld "iat") with
              | None => Ret false
              | Some num =>
                  match iat_ms num with
                  | None => Crash
                  | Some t => Ret (negb ((now + 300000 <? t) || (t <? now - 300000)))
                  end
              end
        | None => Ret false
        end
  | None => Ret false
  end.

(** A buffer that a decoder fills; only a write through NULL fails. *)
Definition decode_unchecked (b64 : cstr) : outcome (list Z) :=
  let bin := base64url_decode b64 (length b64) in
  if negb (alloc (Z.of_nat (length b64))) then match bin with [] => Ret [] | _ => Crash end else Ret bin.

(** [dpop_verify_proof]: the error and the thumbprint left in [out_jkt]. *)
Definition dpop_verify_proof (dpop_proof method url : cstr) (expected_jkt : option cstr) (now : Z)
  : outcome (sso_error_t * cstr) :=
  if negb (alloc (Z.of_nat (length dpop_proof) + 1)) then Ret (SSO_ERR_OUT_OF_MEMORY, [])
  else
    match split_dot dpop_proof with
    | None => Ret (SSO_ERR_TOKEN_INVALID, [])
    | Some (hdr_b64, rest) =>
        match split_dot rest with
        | None => Ret (SSO_ERR_TOKEN_INVALID, [])
        | Some (pld_b64, sig_b64) =>
            hdr_bin ← decode_segment hdr_b64;
            pld_bin ← decode_segment pld_b64;
            match yyjson_read (map chr hdr_bin), yyjson_read (map chr pld_bin) with
            | Some hdr, Some pld =>
                match header_key (Some hdr) with
                | None => Ret (SSO_ERR_TOKEN_INVALID, [])
                | Some (n, e) =>
                    let out_jkt := thumbprint n e in
                    if match expected_jkt with Some j => negb (strcmp_eq j out_jkt) | None => false end
                    then Ret (SSO_ERR_TOKEN_INVALID, out_jkt)
                    else
                      ok ← payload_fits (Some pld) method url now;
                      if negb ok then Ret (SSO_ERR_TOKEN_INVALID, out_jkt)
                      else
                        n_bin ← decode_unchecked n;
                        e_bin ← decode_unchecked e;
                        sig_bin ← decode_unchecked sig_b64;
                        if negb (alloc (8 * 1024)) then Ret (SSO_ERR_TOKEN_INVALID, out_jkt)
                        else
                          let sign_input := take (8 * 1024 - 1) (hdr_b64 ++ "."%char :: pld_b64) in
                          Ret (if rsa_ne_verify n_bin e_bin sign_input sig_bin then SSO_OK
                               else SSO_ERR_TOKEN_INVALID, out_jkt)
                end
            | _, _ => Ret (SSO_ERR_TOKEN_INVALID, [])
            end
        end
    end.

End Dpop.

(* ================================================================== *)
Lemma str_case_equals_iff a b : str_case_equals a b = true ↔ map tolower a = map tolower b.
Proof.
  revert b. induction a as [|x a IH]; intros [|y b]; simpl; try done.
  destruct (Ascii.eqb_spec (tolower x) (tolower y)) as [E|E].
  - rewrite IH, E. split; congruence.
  - split; [done|]. congruence.
Qed.

Section Accepts.
Context `{JsonReader, Sha256, RsaKeys} (alloc : Z → bool) (Halloc : ∀ n, alloc n = true).

(** A decoded text is shorter than its base64url text. *)
Lemma decode_shorter s : s ≠ [] → (length (base64url_decode s (length s)) < length s)%nat.
Proof.
  intros Hs. destruct s as [|a s]; [done|].
  pose proof (b64_dec_length (a :: s) 0 (length (a :: s))) as Hl. unfold base64url_decode.
  cbn [length] in *. lia.
Qed.

Lemma decode_segment_ok b64 : b64 ≠ [] → decode_segment alloc b64 = Ret (base64url_decode b64 (length b64)).
Proof.
  intros Hb. unfold decode_segment. rewrite Halloc. cbn [negb].
  by rewrite (proj2 (Nat.leb_gt _ _)) by (by apply decode_shorter).
Qed.

Lemma decode_segment_inv b64 bin :
  decode_segment alloc b64 = Ret bin → b64 ≠ [] ∧ bin = base64url_decode b64 (length b64).
Proof.
  unfold decode_segment. rewrite Halloc. cbn [negb]. destruct b64; [done|].
  destruct (_ <=? _)%nat; [done|]. by intros [= <-].
Qed.

Lemma decode_unchecked_ok b64 : decode_unchecked alloc b64 = Ret (base64url_decode b64 (length b64)).
Proof. unfold decode_unchecked. by rewrite Halloc. Qed.

Lemma is_str_eq_iff v lit : is_str_eq v lit = true ↔ as_str v = Some lit.
Proof.
  unfold is_str_eq. destruct (as_str v) as [s|]; [|by split]. rewrite strcmp_eq_iff. split; congruence.
Qed.

Lemma strncmp_prefix s p : strncmp_eq s p (length p) = true ↔ p `prefix_of` s.
Proof.
  unfold strncmp_eq. rewrite bool_decide_eq_true, (take_ge p) by done. split.
  - intros E. exists (drop (length p) s). by rewrite <- E at 1; rewrite take_drop.
  - intros [t ->]. by rewrite take_app_length.
Qed.

(** The header of a proof for the key [(n, e)]. *)
Definition proof_header (hdr : json) (n e : cstr) : Prop :=
  ∃ typ jwk, as_str (yyjson_obj_get (Some hdr) "typ") = Some typ ∧
    map tolower typ = map tolower ("dpop+jwt" : cstr) ∧
    as_str (yyjson_obj_get (Some hdr) "alg") = Some ("RS256" : cstr) ∧
    yyjson_obj_get (Some hdr) "jwk" = Some (JObj jwk) ∧
    as_str (yyjson_obj_get (Some (JObj jwk)) "kty") = Some ("RSA" : cstr) ∧
    as_str (yyjson_obj_get (Some (JObj jwk)) "n") = Some n ∧
    as_str (yyjson_obj_get (Some (JObj jwk)) "e") = Some e.

(** The payload of a proof for a request at a time. *)
Definition proof_payload (pld : json) (method url : cstr) (now : Z) : Prop :=
  ∃ htm htu num t, as_str (yyjson_obj_get (Some pld) "htm") = Some htm ∧
    map tolower htm = map tolower method ∧
    as_str (yyjson_obj_get (Some pld) "htu") = Some htu ∧ url `prefix_of` htu ∧
    as_num (yyjson_obj_get (Some pld) "iat") = Some num ∧ iat_ms num = Some t ∧
    now - 300000 ≤ t ≤ now + 300000.

Lemma header_key_iff hdr n e : header_key (Some hdr) = Some (n, e) ↔ proof_header hdr n e.
Proof.
  unfold header_key, proof_header. split.
  - destruct (as_str (yyjson_obj_get (Some hdr) "typ")) as [typ|] eqn:Et; [|done].
    destruct (str_case_equals typ _) eqn:Ec; [|done]. destruct (is_str_eq _ "RS256") eqn:Ea; [|done].
    destruct (yyjson_obj_get (Some hdr) "jwk") as [[]|] eqn:Ej; try done. cbn [negb yyjson_is_obj].
    destruct (is_str_eq _ "RSA") eqn:Ek; [|done]. cbn [negb].
    destruct (as_str (yyjson_obj_get (Some (JObj kvs)) "n")) eqn:En; [|done].
    destruct (as_str (yyjson_obj_get (Some (JObj kvs)) "e")) eqn:Ee; [|done]. intros [= <- <-].
    exists typ, kvs. apply is_str_eq_iff in Ea, Ek. apply str_case_equals_iff in Ec. done.
  - intros (typ & jwk & Ht & Hc & Ha & Hj & Hk & Hn & He). rewrite Ht.
    rewrite (proj2 (str_case_equals_iff typ _) Hc), (proj2 (is_str_eq_iff _ _) Ha), Hj. cbn [negb yyjson_is_obj].
    by rewrite (proj2 (is_str_eq_iff _ _) Hk), Hn, He.
Qed.

Lemma payload_fits_iff pld method url now :
  payload_fits (Some pld) method url now = Ret true ↔ proof_payload pld method url now.
Proof.
  unfold payload_fits, proof_payload. split.
  - destruct (as_str (yyjson_obj_get (Some pld) "htm")) as [htm|]; [|done].
    destruct (str_case_equals htm method) eqn:Em; [|done]. cbn [negb].
    destruct (as_str (yyjson_obj_get (Some pld) "htu")) as [htu|]; [|done].
    destruct (strncmp_eq htu url _) eqn:Eu; [|done]. cbn [negb].
    destruct (as_num _) as [num|]; [|done]. destruct (iat_ms num) as [t|] eqn:Et; [|done].
    intros [= Hb]. apply negb_true_iff, orb_false_iff in Hb as [Hlo Hhi]. reflect_bools.
    exists htm, htu, num, t. apply str_case_equals_iff in Em. apply strncmp_prefix in Eu.
    split_and!; try done; lia.
  - intros (htm & htu & num & t & Hm & Hc & Hu & Hp & Hi & Ht & Hlo & Hhi). rewrite Hm, Hu, Hi, Ht.
    rewrite (proj2 (str_case_equals_iff _ _) Hc), (proj2 (strncmp_prefix _ _) Hp). cbn [negb].
    rewrite (proj2 (Z.ltb_ge (now + 300000) t)), (proj2 (Z.ltb_ge t (now - 300000))) by lia. done.
Qed.

(** Which DPoP proofs are accepted: exactly the texts
    [header.payload.signature] (the first two segments not empty) whose
    header is of type dpop+jwt and names RS256 and an RSA key, whose
    payload carries the method of the request in any case, an address
    that begins with that of the request and a time within five minutes
    of the clock, and whose signature is valid under the key of the
    header; the thumbprint returned is that of this key, and is the
    expected one if one is expected. *)
Theorem dpop_accepts_iff dpop_proof method url expected_jkt now jkt :
  dpop_verify_proof alloc dpop_proof method url expected_jkt now = Ret (SSO_OK, jkt) ↔
  ∃ h p s hdr pld n e,
    dpop_proof = h ++ "."%char :: p ++ "."%char :: s ∧ "."%char ∉ h ∧ "."%char ∉ p ∧ h ≠ [] ∧ p ≠ [] ∧
    yyjson_read (map chr (base64url_decode h (length h))) = Some hdr ∧
    yyjson_read (map chr (base64url_decode p (length p))) = Some pld ∧
    proof_header hdr n e ∧ proof_payload pld method url now ∧
    jkt = thumbprint n e ∧ (expected_jkt = None ∨ expected_jkt = Some jkt) ∧
    rsa_ne_verify (base64url_decode n (length n)) (base64url_decode e (length e))
      (take (8 * 1024 - 1) (h ++ "."%char :: p)) (base64url_decode s (length s)) = true.
Proof.
  unfold dpop_verify_proof. rewrite Halloc. cbn [negb]. split.
  - destruct (split_dot dpop_proof) as [[h rest]|] eqn:E1; [|done].
    destruct (split_dot rest) as [[p s]|] eqn:E2; [|done].
    apply split_dot_inv in E1 as [-> Hh]. apply split_dot_inv in E2 as [-> Hp].
    intros (hb & [Hh0 ->]%decode_segment_inv & Hr)%outcome_bind_inv.
    apply outcome_bind_inv in Hr as (pb & [Hp0 ->]%decode_segment_inv & Hr).
    destruct (yyjson_read (map chr (base64url_decode h _))) as [hdr|] eqn:Jh; [|done].
    destruct (yyjson_read (map chr (base64url_decode p _))) as [pld|] eqn:Jp; [|done].
    destruct (header_key (Some hdr)) as [[n e]|] eqn:Hk; [|done].
    destruct (match expected_jkt with Some _ => _ | None => _ end) eqn:Hx; [done|].
    apply outcome_bind_inv in Hr as (ok & Hok & Hr). destruct ok; [|done]. cbn [negb] in Hr.
    rewrite !decode_unchecked_ok, !outcome_bind_Ret, Halloc in Hr. cbn [negb] in Hr.
    destruct (rsa_ne_verify _ _ _ _) eqn:Hv; [|done]. injection Hr as <-.
    exists h, p, s, hdr, pld, n, e. rewrite <- header_key_iff, <- payload_fits_iff. split_and!; try done.
    destruct expected_jkt as [j|]; [right|by left]. apply negb_false_iff, strcmp_eq_iff in Hx. by rewrite Hx.
  - intros (h & p & s & hdr & pld & n & e & -> & Hh & Hp & Hh0 & Hp0 & Jh & Jp & Hk & Hpl & -> & Hx & Hv).
    rewrite !split_dot_app by done. rewrite !decode_segment_ok, !outcome_bind_Ret by done. rewrite Jh, Jp.
    rewrite (proj2 (header_key_iff _ _ _) Hk), (proj2 (payload_fits_iff _ _ _ _) Hpl).
    assert (Hn : (match expected_jkt with Some j => negb (strcmp_eq j (thumbprint n e)) | None => false end) = false).
    { destruct Hx as [->| ->]; [done|]. by rewrite strcmp_eq_refl. }
    rewrite Hn, outcome_bind_Ret, !decode_unchecked_ok, !outcome_bind_Ret, Halloc. cbn [negb]. by rewrite Hv.
Qed.

End Accepts.

(** The thumbprint of a key is a base64url text. *)
Lemma thumbprint_no_dot `{Sha256, !Sha256Laws} n e : "."%char ∉ thumbprint n e.
Proof.
  unfold thumbprint. apply (b64_text_no _ _ (b64_enc_text _ _ _ (proj2 (sha256_digest _)))). vm_compute. set_solver.
Qed.

(** A reader and a signature scheme for concrete runs: header text [H],
    payload text [P], and a signature that repeats the modulus. *)
Definition jkey (s : string) : list ascii := s.
Definition sample_hdr : json :=
  JObj [(jkey "typ", JStr ("dpop+jwt" : cstr)); (jkey "alg", JStr ("RS256" : cstr));
        (jkey "jwk", JObj [(jkey "kty", JStr ("RSA" : cstr)); (jkey "n", JStr ("AQAB" : cstr));
                           (jkey "e", JStr ("Aw" : cstr))])].
Definition sample_pld : json :=
  JObj [(jkey "htm", JStr ("post" : cstr)); (jkey "htu", JStr ("http://h/p?q" : cstr)); (jkey "iat", JUint 1000)].
Definition dpop_reader : JsonReader := table_reader [(("HH" : cstr), sample_hdr); (("PP" : cstr), sample_pld)].
Definition sample_sha : Sha256 := λ m, map u8 (take 32 (m ++ replicate 32 3)).
Definition sample_rsa : RsaKeys := λ n _ _ sig, bool_decide (sig = n).

#[global] Instance sample_sha_laws : Sha256Laws (H := sample_sha).
Proof.
  intros m. unfold sha256, sample_sha. split.
  - rewrite length_map, length_take, length_app, length_replicate. lia.
  - apply Forall_map, Forall_true. intros z. simpl. apply Z.mod_pos_bound. lia.
Qed.

Definition sample_proof : cstr := "SEg.UFA.AQAB".

Lemma no_char c s : forallb (λ x, negb (Ascii.eqb c x)) s = true → c ∉ s.
Proof.
  rewrite forallb_forall. intros Hf Hin. rewrite list_elem_of_In in Hin. specialize (Hf c Hin). simpl in Hf.
  by rewrite Ascii.eqb_refl in Hf.
Qed.

Lemma dpop_accepts_iff_witness :
  ∃ jkt, @dpop_verify_proof dpop_reader sample_sha sample_rsa (λ _, true) sample_proof "POST" "http://h/p" None 1000000
    = Ret (SSO_OK, jkt) ∧ length jkt = 43%nat.
Proof.
  eexists. split.
  - apply (@dpop_accepts_iff dpop_reader sample_sha sample_rsa (λ _, true) (λ _, eq_refl)).
    exists ("SEg" : cstr), ("UFA" : cstr), ("AQAB" : cstr), sample_hdr, sample_pld, ("AQAB" : cstr), ("Aw" : cstr).
    split_and!; [reflexivity|by apply no_char|by apply no_char|done|done
                |vm_compute; reflexivity|vm_compute; reflexivity| | |reflexivity|by left|vm_compute; reflexivity].
    + exists ("dpop+jwt" : cstr). eexists. split_and!; reflexivity.
    + exists ("post" : cstr), ("http://h/p?q" : cstr). eexists _, 1000000.
      split_and!; [reflexivity|reflexivity|reflexivity| |reflexivity|vm_compute; reflexivity|lia|lia].
      by exists ("?q" : cstr).
  - vm_compute. reflexivity.
Defined.
