(* ===== verification/Risk.v ===== *)
(** * Login risk scoring (src/risk.c)

    Two tables of 1024 sets of four ways, one per client address and one
    per user, and a running mean and variance of the login rate kept in
    doubles.  The clock is an argument. *)

From Stdlib Require Import SpecFloat.
From S2P Require Import Prelude CLib CNum Types.

Definition CACHE_SETS : nat := 1024.
Definition CACHE_WAYS : nat := 4.
Definition FAIL_WINDOW_SEC : Z := 900.
Definition IMPOSSIBLE_TRAVEL_SEC : Z := 300.
Definition RISK_SCORE_LOW : Z := 0.
Definition RISK_SCORE_MEDIUM : Z := 40.
Definition RISK_SCORE_HIGH : Z := 80.

Record risk_ip_record_t := { ri_ip : cstr; ri_failed_count : Z; ri_last_fail_ms : Z }.
Record risk_user_record_t := {
  ru_user_id : Z; ru_last_success_ip : cstr; ru_last_success_ua_hash : Z; ru_last_success_ms : Z
}.

Definition zero_ip : risk_ip_record_t := {| ri_ip := []; ri_failed_count := 0; ri_last_fail_ms := 0 |}.
Definition zero_user : risk_user_record_t :=
  {| ru_user_id := 0; ru_last_success_ip := []; ru_last_success_ua_hash := 0; ru_last_success_ms := 0 |}.

(** A decimal constant of the source as a double. *)
Definition dconst (m e : Z) (digits : nat) : double := round_decimal m e digits.

Record risk_state := {
  g_ip_records : list (list risk_ip_record_t);
  g_user_records : list (list risk_user_record_t);
  g_ema : double; g_var : double; g_last_login_ms : Z
}.

Definition risk_init : risk_state :=
  {| g_ip_records := replicate CACHE_SETS (replicate CACHE_WAYS zero_ip);
     g_user_records := replicate CACHE_SETS (replicate CACHE_WAYS zero_user);
     g_ema := dconst 1 0 1; g_var := dconst 1 (-1) 1; g_last_login_ms := 0 |}.

Definition set_ips (l : list (list risk_ip_record_t)) (r : risk_state) : risk_state :=
  {| g_ip_records := l; g_user_records := g_user_records r; g_ema := g_ema r; g_var := g_var r;
     g_last_login_ms := g_last_login_ms r |}.
Definition set_users (l : list (list risk_user_record_t)) (r : risk_state) : risk_state :=
  {| g_ip_records := g_ip_records r; g_user_records := l; g_ema := g_ema r; g_var := g_var r;
     g_last_login_ms := g_last_login_ms r |}.

Definition simple_hash (str : option cstr) : Z :=
  match str with
  | None => 0
  | Some s => fold_left (λ h c, u32 (u32 (u32 (Z.shiftl h 5) + h) + schar c)) s 5381
  end.

(** [strrchr]: the index of the last occurrence. *)
Fixpoint strrchr (s : cstr) (c : ascii) : option nat :=
  match s with
  | [] => None
  | x :: s' => match strrchr s' c with
               | Some i => Some (S i)
               | None => if Ascii.eqb x c then Some O else None
               end
  end.

Definition is_same_subnet_ipv4 (ip1 ip2 : cstr) : bool :=
  match strrchr ip1 ".", strrchr ip2 "." with
  | Some d1, Some d2 => (d1 =? d2)%nat && strncmp_eq ip1 ip2 d1
  | _, _ => false
  end.

Definition IP_SIZE : nat := 46.
Definition same_ip (stored ip : cstr) : bool := strncmp_eq stored ip IP_SIZE.

(** The set of an address and of a user. *)
Definition ip_set (ip : cstr) : nat := Z.to_nat (simple_hash (Some ip) mod 1024).
Definition user_set (user_id : Z) : nat := Z.to_nat (u64 user_id mod 1024).
Definition ways {A} (t : list (list A)) (set : nat) : list A := default [] (t !! set).

(** [(int)d]; [None] is undefined. *)
Definition double_to_int (d : double) : option Z :=
  match d with
  | S754_zero _ => Some 0
  | S754_finite s m e =>
      let a := if 0 <=? e then Z.pos m * 2 ^ e else Z.pos m / 2 ^ (- e) in
      let z := if s then - a else a in
      if (- 2 ^ 31 <=? z) && (z <? 2 ^ 31) then Some z else None
  | _ => None
  end.

Notation fadd := (SFadd prec emax).
Notation fsub := (SFsub prec emax).
Notation fmul := (SFmul prec emax).
Notation fdiv := (SFdiv prec emax).

(** The rate part: the points of a spike, and the state with the new mean
    and variance. *)
Definition velocity_score (now : Z) (r : risk_state) : outcome (Z * risk_state) :=
  let done z ema var := Ret (z, {| g_ip_records := g_ip_records r; g_user_records := g_user_records r;
                                   g_ema := ema; g_var := var; g_last_login_ms := now |}) in
  if 0 <? g_last_login_ms r then
    let d := fdiv (double_of_Z (now - g_last_login_ms r)) (double_of_Z 1000) in
    let delta_s := if double_lt d (dconst 1 (-3) 1) then dconst 1 (-3) 1 else d in
    let velocity := fdiv (double_of_Z 1) delta_s in
    let alpha := dconst 5 (-2) 1 in
    let diff := fsub velocity (g_ema r) in
    let ema := fadd (g_ema r) (fmul alpha diff) in
    let var := fmul (fsub (double_of_Z 1) alpha) (fadd (g_var r) (fmul (fmul alpha diff) diff)) in
    let stddev := SFsqrt prec emax var in
    if double_lt (dconst 1 (-2) 1) stddev then
      let z_score := fdiv (fsub velocity ema) stddev in
      if double_lt (double_of_Z 3) z_score then
        match double_to_int (fmul z_score (double_of_Z 5)) with
        | None => Crash
        | Some z => done z ema var
        end
      else done 0 ema var
    else done 0 ema var
  else done 0 (g_ema r) (g_var r).

(** Points for the failures of an address. *)
Definition failure_score (e : risk_ip_record_t) (now : Z) : Z :=
  if now - ri_last_fail_ms e <? FAIL_WINDOW_SEC * 1000 then
    if 10 <=? ri_failed_count e then 100
    else if 5 <=? ri_failed_count e then 60
    else if 3 <=? ri_failed_count e then 30 else 0
  else 0.

Definition ip_score (ip : cstr) (now : Z) (r : risk_state) : Z :=
  match List.find (λ e, negb (bool_decide (ri_ip e = [])) && same_ip (ri_ip e) ip) (ways (g_ip_records r) (ip_set ip)) with
  | Some e => failure_score e now
  | None => 0
  end.

(** Points for a change of device or address. *)
Definition history_score (rec : risk_user_record_t) (ip : cstr) (ua_hash now : Z) : Z :=
  (if ru_last_success_ua_hash rec =? ua_hash then 0 else 20) +
  (if same_ip (ru_last_success_ip rec) ip then 0
   else if is_same_subnet_ipv4 (ru_last_success_ip rec) ip then 10
   else 30 + (if now - ru_last_success_ms rec <? IMPOSSIBLE_TRAVEL_SEC * 1000 then 40 else 0)).

Definition user_score (user_id : Z) (ip : cstr) (ua_hash now : Z) (r : risk_state) : Z :=
  match List.find (λ e, ru_user_id e =? user_id) (ways (g_user_records r) (user_set user_id)) with
  | Some rec => history_score rec ip ua_hash now
  | None => 0
  end.

Definition risk_evaluate_login (user_id : Z) (ip user_agent : option cstr) (now : Z) (r : risk_state)
  : outcome (Z * risk_state) :=
  match ip with
  | None => Ret (RISK_SCORE_LOW, r)
  | Some ip =>
      '(v, r) ← velocity_score now r;
      let score := RISK_SCORE_LOW + v + ip_score ip now r + user_score user_id ip (simple_hash user_agent) now r in
      Ret (if 100 <? score then 100 else score, r)
  end.

(** The scan for the way of an entry: one that matches, else the last
    empty one, else the one with the oldest time, if any is older than
    [now], else the first. *)
Fixpoint pick_way {A} (match_ empty : A → bool) (time : A → Z) (l : list A) (w : nat)
    (found : option nat) (oldest : nat) (oldest_time : Z) : nat :=
  match l with
  | [] => default oldest found
  | e :: l' =>
      if match_ e then w
      else
        let found := if empty e then Some w else found in
        if time e <? oldest_time then pick_way match_ empty time l' (S w) found w (time e)
        else pick_way match_ empty time l' (S w) found oldest oldest_time
  end.

Definition ip_way (ip : cstr) (now : Z) (l : list risk_ip_record_t) : nat :=
  pick_way (λ e, negb (bool_decide (ri_ip e = [])) && same_ip (ri_ip e) ip) (λ e, bool_decide (ri_ip e = []))
    ri_last_fail_ms l 0 None 0 now.
Definition user_way (user_id now : Z) (l : list risk_user_record_t) : nat :=
  pick_way (λ e, ru_user_id e =? user_id) (λ e, ru_user_id e =? 0) ru_last_success_ms l 0 None 0 now.

Definition put_way {A} (t : list (list A)) (set w : nat) (e : A) : list (list A) := <[set := <[w := e]> (ways t set)]> t.

(** The user's record after a success. *)
Definition record_user (user_id : Z) (ip : cstr) (ua_hash now : Z) (r : risk_state) : risk_state :=
  let set := user_set user_id in
  let w := user_way user_id now (ways (g_user_records r) set) in
  set_users (put_way (g_user_records r) set w
    {| ru_user_id := user_id; ru_last_success_ip := sso_strlcpy (Some ip) IP_SIZE;
       ru_last_success_ua_hash := ua_hash; ru_last_success_ms := now |}) r.

(** The entry of an address after a failure; counting past INT_MAX is
    undefined. *)
Definition record_failure (ip : cstr) (now : Z) (e : risk_ip_record_t) : outcome risk_ip_record_t :=
  if negb (same_ip (ri_ip e) ip)
  then Ret {| ri_ip := sso_strlcpy (Some ip) IP_SIZE; ri_failed_count := 1; ri_last_fail_ms := now |}
  else if FAIL_WINDOW_SEC * 1000 <? now - ri_last_fail_ms e
  then Ret {| ri_ip := ri_ip e; ri_failed_count := 1; ri_last_fail_ms := now |}
  else if ri_failed_count e =? 2 ^ 31 - 1 then Crash
  else Ret {| ri_ip := ri_ip e; ri_failed_count := ri_failed_count e + 1; ri_last_fail_ms := now |}.

Definition risk_record_login_attempt (user_id : Z) (ip : option cstr) (success : bool) (now : Z) (r : risk_state)
  : outcome risk_state :=
  match ip with
  | None => Ret r
  | Some ip =>
      let set := ip_set ip in
      let w := ip_way ip now (ways (g_ip_records r) set) in
      match ways (g_ip_records r) set !! w with
      | None => Crash
      | Some e =>
          if success then
            let r := if same_ip (ri_ip e) ip
                     then set_ips (put_way (g_ip_records r) set w
                            {| ri_ip := ri_ip e; ri_failed_count := 0; ri_last_fail_ms := ri_last_fail_ms e |}) r
                     else r in
            Ret (record_user user_id ip 0 now r)
          else
            e' ← record_failure ip now e;
            Ret (set_ips (put_way (g_ip_records r) set w e') r)
      end
  end.

Definition risk_record_login_success_with_ua (user_id : Z) (ip user_agent : option cstr) (now : Z) (r : risk_state)
  : risk_state :=
  match ip with
  | None => r
  | Some ip => record_user user_id ip (simple_hash user_agent) now r
  end.

(* ================================================================== *)
(** ** Failures of an address *)

(** The streak of failures of an address: its length and its last time. *)
Definition streak := option (Z * Z).

Definition add_failure (s : streak) (now : Z) : streak :=
  match s with
  | Some (n, t) => if FAIL_WINDOW_SEC * 1000 <? now - t then Some (1, now) else Some (n + 1, now)
  | None => Some (1, now)
  end.

(** What happened, in order: a failed login or a successful one. *)
Inductive login_event := Failed (ip : cstr) (now : Z) | Succeeded (user_id : Z) (ip ua : cstr) (now : Z).

Fixpoint run_events (evs : list login_event) (r : risk_state) : outcome risk_state :=
  match evs with
  | [] => Ret r
  | Failed ip now :: evs => r ← risk_record_login_attempt 0 (Some ip) false now r; run_events evs r
  | Succeeded u ip ua now :: evs => run_events evs (risk_record_login_success_with_ua u (Some ip) (Some ua) now r)
  end.

(** The streak of an address after some events. *)
Definition streak_step (ip : cstr) (s : streak) (ev : login_event) : streak :=
  match ev with Failed ip' now => if bool_decide (ip' = ip) then add_failure s now else s | _ => s end.
Definition streak_of (ip : cstr) (evs : list login_event) : streak := fold_left (streak_step ip) evs None.

Definition failed_ips (evs : list login_event) : list cstr :=
  omap (λ ev, match ev with Failed ip _ => Some ip | _ => None end) evs.

(** Addresses as the server writes them: not empty and shorter than the
    field. *)
Definition fits (ip : cstr) : Prop := ip ≠ [] ∧ (length ip < IP_SIZE)%nat.

Definition entry_matches (ip : cstr) (e : risk_ip_record_t) : bool :=
  negb (bool_decide (ri_ip e = [])) && same_ip (ri_ip e) ip.

Definition entry_of (ip : cstr) (l : list risk_ip_record_t) : streak :=
  (λ e, (ri_failed_count e, ri_last_fail_ms e)) <$> List.find (entry_matches ip) l.

(** A set of ways: distinct addresses of this set, all of which failed. *)
Record set_wf (seen : list cstr) (set : nat) (l : list risk_ip_record_t) : Prop := {
  sw_length : length l = CACHE_WAYS;
  sw_entry : ∀ e, e ∈ l → ri_ip e = [] ∨ (fits (ri_ip e) ∧ ip_set (ri_ip e) = set ∧ ri_ip e ∈ seen);
  sw_nodup : ∀ i j e1 e2, l !! i = Some e1 → l !! j = Some e2 → ri_ip e1 = ri_ip e2 → ri_ip e1 ≠ [] → i = j
}.

Lemma same_ip_iff a b : (length a < IP_SIZE)%nat → (length b < IP_SIZE)%nat → same_ip a b = true ↔ a = b.
Proof. intros Ha Hb. unfold same_ip, strncmp_eq. rewrite bool_decide_eq_true, !take_ge by lia. done. Qed.

Lemma entry_matches_iff ip e :
  fits ip → (length (ri_ip e) < IP_SIZE)%nat → entry_matches ip e = true ↔ ri_ip e = ip.
Proof.
  intros [Hne Hl] He. unfold entry_matches. rewrite andb_true_iff, negb_true_iff, bool_decide_eq_false, same_ip_iff by done.
  split; [naive_solver|]. intros <-. done.
Qed.

(** The way picked is that of a match, and else an empty one, if there is
    one of either. *)
Lemma pick_way_spec {A} (m em : A → bool) time (l : list A) w found oldest ot i :
  pick_way m em time l w found oldest ot = i →
  (∃ k e, i = (w + k)%nat ∧ l !! k = Some e ∧ m e = true) ∨
  (Forall (λ e, m e = false) l ∧
   ((∃ k e, i = (w + k)%nat ∧ l !! k = Some e ∧ em e = true) ∨
    (Forall (λ e, em e = false) l ∧ match found with Some f => i = f | None => i = oldest ∨ ∃ k, i = (w + k)%nat ∧ (k < length l)%nat end))).
Proof.
  revert w found oldest ot. induction l as [|e l IH]; intros w found oldest ot; simpl.
  { intros <-. right. split; [constructor|]. right. split; [constructor|]. destruct found; simpl; auto. }
  destruct (m e) eqn:Em.
  { intros <-. left. exists 0%nat, e. split_and!; [lia|done|done]. }
  intros Hi. assert (H' : ∃ o t, pick_way m em time l (S w) (if em e then Some w else found) o t = i ∧ (o = oldest ∨ o = w)).
  { destruct (time e <? ot); eauto. }
  clear Hi. destruct H' as (o & t & Hi & Ho).
  destruct (IH _ _ _ _ Hi) as [(k & x & -> & Hk & Hx)|[Hf [(k & x & -> & Hk & Hx)|[He Hr]]]].
  - left. exists (S k), x. split_and!; [lia|done|done].
  - right. split; [by constructor|]. left. exists (S k), x. split_and!; [lia|done|done].
  - right. split; [by constructor|]. destruct (em e) eqn:Ee.
    + left. exists 0%nat, e. split_and!; [lia|done|done].
    + right. split; [by constructor|]. destruct found; [done|].
      destruct Hr as [->|(k & -> & Hk)]; [|right; exists (S k); lia].
      destruct Ho as [->| ->]; [by left|]. right. exists 0%nat. lia.
Qed.

(** Fewer than four other addresses leave an empty way. *)
Lemma empty_way seen set l ip :
  set_wf seen set l → ip ∈ seen → ip_set ip = set → Forall (λ e, entry_matches ip e = false) l → fits ip →
  (length (remove_dups (filter (λ x, ip_set x = set) seen)) ≤ CACHE_WAYS)%nat →
  ∃ e, e ∈ l ∧ ri_ip e = [].
Proof.
  intros [Hl He Hnd] Hseen Hset Hno Hip Hcap.
  destruct (decide (Exists (λ e, ri_ip e = []) l)) as [Hex|Hex]; [by apply Exists_exists in Hex|exfalso].
  apply not_Exists_Forall in Hex; [|apply _]. rewrite Forall_forall in Hex, Hno.
  assert (Hips : NoDup (ri_ip <$> l)).
  { apply NoDup_alt. intros i j x Hi Hj. rewrite list_lookup_fmap in Hi, Hj.
    destruct (l !! i) as [e1|] eqn:E1; [|done]. destruct (l !! j) as [e2|] eqn:E2; [|done]. simpl in *.
    apply (Hnd i j e1 e2); [done|done|congruence|]. apply Hex. by eapply list_elem_of_lookup_2. }
  assert (Hsub : (ip :: (ri_ip <$> l)) ⊆ remove_dups (filter (λ x, ip_set x = set) seen)).
  { intros x. rewrite elem_of_remove_dups, list_elem_of_filter. intros [->|Hx]%elem_of_cons; [done|].
    apply list_elem_of_fmap in Hx as (e & -> & Hin). destruct (He e Hin) as [E|(_ & Hs & Hn)]; [|done].
    exfalso. by apply (Hex e Hin). }
  assert (Hnd2 : NoDup (ip :: (ri_ip <$> l))).
  { apply NoDup_cons. split; [|done]. intros (e & -> & Hin)%list_elem_of_fmap.
    destruct (He e Hin) as [E|(Hf & _)]; [by apply (Hex e Hin)|]. specialize (Hno e Hin). simpl in Hno.
    rewrite (proj2 (entry_matches_iff (ri_ip e) e Hf (proj2 Hf)) eq_refl) in Hno. done. }
  pose proof (NoDup_submseteq _ _ Hnd2 Hsub) as Hle%submseteq_length. simpl in Hle. rewrite length_fmap in Hle.
  rewrite Hl in Hle. lia.
Qed.

Lemma entry_length seen set l e : set_wf seen set l → e ∈ l → (length (ri_ip e) < IP_SIZE)%nat.
Proof. intros [_ He _] Hin. destruct (He e Hin) as [->|([_ ?] & _)]; [simpl; unfold IP_SIZE; lia|done]. Qed.

(** The entry of an address, by its position. *)
Lemma entry_of_at seen set l ip w e :
  set_wf seen set l → fits ip → l !! w = Some e → ri_ip e = ip →
  entry_of ip l = Some (ri_failed_count e, ri_last_fail_ms e).
Proof.
  intros Hwf Hip Hw <-. unfold entry_of. destruct (List.find _ l) as [e0|] eqn:E; simpl.
  - apply find_some in E as [Hin Hm]. rewrite <- list_elem_of_In in Hin.
    apply entry_matches_iff in Hm; [|done|by eapply entry_length].
    apply list_elem_of_lookup in Hin as [j Hj].
    assert (j = w) as ->; [|congruence]. apply (sw_nodup _ _ _ Hwf j w e0 e); [done|done|done|].
    rewrite Hm. apply Hip.
  - eapply find_none in E; [|by eapply list_elem_of_In, list_elem_of_lookup_2].
    by rewrite (proj2 (entry_matches_iff _ e Hip (proj2 Hip)) eq_refl) in E.
Qed.

Lemma entry_of_none seen set l ip :
  set_wf seen set l → fits ip → (∀ e, e ∈ l → ri_ip e ≠ ip) → entry_of ip l = None.
Proof.
  intros Hwf Hip Hno. unfold entry_of. destruct (List.find _ l) as [e0|] eqn:E; [|done].
  apply find_some in E as [Hin Hm]. rewrite <- list_elem_of_In in Hin.
  apply entry_matches_iff in Hm; [|done|by eapply entry_length]. by destruct (Hno e0 Hin).
Qed.

(** Replacing the entry of an address, or an empty one, by a new entry of
    that address. *)
Lemma put_entry seen set l ip w e e' :
  set_wf seen set l → fits ip → ip ∈ seen → ip_set ip = set → l !! w = Some e → ri_ip e' = ip →
  (ri_ip e = ip ∨ ri_ip e = [] ∧ ∀ x, x ∈ l → ri_ip x ≠ ip) →
  set_wf seen set (<[w := e']> l) ∧
  entry_of ip (<[w := e']> l) = Some (ri_failed_count e', ri_last_fail_ms e') ∧
  ∀ ip', fits ip' → ip' ≠ ip → entry_of ip' (<[w := e']> l) = entry_of ip' l.
Proof.
  intros Hwf Hip Hseen Hset Hw He' Hcase. pose proof (lookup_lt_Some _ _ _ Hw) as Hlt.
  assert (Hwf' : set_wf seen set (<[w := e']> l)).
  { destruct Hwf as [Hl He Hnd]. split.
    - by rewrite length_insert.
    - intros x [j Hj]%list_elem_of_lookup. apply list_lookup_insert_Some in Hj as [(-> & <- & _)|[_ Hj]].
      + right. by rewrite He'.
      + apply He. by eapply list_elem_of_lookup_2.
    - intros i j e1 e2 H1 H2 Heq Hne.
      apply list_lookup_insert_Some in H1 as [(<- & <- & _)|[Hi H1]], H2 as [(<- & <- & _)|[Hj H2]]; [done| | |by eapply Hnd].
      + exfalso. rewrite He' in Heq. destruct Hcase as [E|[_ Hno]].
        * apply Hj. apply (Hnd w j e e2); [done|done|congruence|]. rewrite E. apply Hip.
        * by apply (Hno e2); [eapply list_elem_of_lookup_2|].
      + exfalso. rewrite He' in Heq. destruct Hcase as [E|[_ Hno]].
        * apply Hi. apply (Hnd w i e e1); [done|done|congruence|]. rewrite E. apply Hip.
        * by apply (Hno e1); [eapply list_elem_of_lookup_2|]. }
  split_and!; [done| |].
  - eapply (entry_of_at _ _ _ _ w); [done|done|by rewrite list_lookup_insert_eq|done].
  - intros ip' Hip' Hne.
    destruct (decide (Exists (λ x, ri_ip x = ip') l)) as [Hex|Hex].
    + apply Exists_exists in Hex as (x & [j Hj]%list_elem_of_lookup & Hx).
      rewrite (entry_of_at _ _ _ ip' j x Hwf Hip' Hj Hx).
      apply (entry_of_at _ _ _ ip' j x Hwf' Hip'); [|done].
      rewrite list_lookup_insert_ne; [done|]. intros ->. rewrite Hw in Hj. injection Hj as ->.
      destruct Hcase as [?|[? _]]; [congruence|]. destruct Hip'. congruence.
    + apply not_Exists_Forall in Hex; [|apply _]. rewrite Forall_forall in Hex.
      rewrite (entry_of_none _ _ _ ip' Hwf Hip') by (intros x Hx; by apply Hex).
      apply (entry_of_none _ _ _ ip' Hwf' Hip'). intros x [j Hj]%list_elem_of_lookup.
      apply list_lookup_insert_Some in Hj as [(-> & <- & _)|[_ Hj]]; [congruence|].
      by apply Hex; eapply list_elem_of_lookup_2.
Qed.

(** The way of an address holds its entry or is empty. *)
Lemma ip_way_spec seen set l ip now :
  set_wf seen set l → fits ip → ip ∈ seen → ip_set ip = set →
  (length (remove_dups (filter (λ x, ip_set x = set) seen)) ≤ CACHE_WAYS)%nat →
  ∃ e, l !! ip_way ip now l = Some e ∧ (ri_ip e = ip ∨ ri_ip e = [] ∧ ∀ x, x ∈ l → ri_ip x ≠ ip).
Proof.
  intros Hwf Hip Hseen Hset Hcap.
  destruct (pick_way_spec (entry_matches ip) (λ e, bool_decide (ri_ip e = [])) ri_last_fail_ms l 0 None 0 now _ eq_refl)
    as [(k & e & Hk & He & Hm)|[Hno Hrest]].
  - exists e. unfold ip_way. fold (entry_matches ip). rewrite Hk. split; [done|]. left.
    apply entry_matches_iff in Hm; [done|done|]. by eapply entry_length, list_elem_of_lookup_2.
  - destruct (empty_way seen set l ip Hwf Hseen Hset Hno Hip Hcap) as (e0 & Hin0 & He0).
    assert (Hnone : ∀ x, x ∈ l → ri_ip x ≠ ip).
    { intros x Hx E. rewrite Forall_forall in Hno. specialize (Hno x Hx). simpl in Hno.
      rewrite (proj2 (entry_matches_iff ip x Hip (entry_length _ _ _ _ Hwf Hx)) E) in Hno. done. }
    destruct Hrest as [(k & e & Hk & He & Hemp)|[Hfull _]].
    + apply bool_decide_eq_true in Hemp. exists e. unfold ip_way. fold (entry_matches ip). rewrite Hk. auto.
    + rewrite Forall_forall in Hfull. specialize (Hfull e0 Hin0). by apply bool_decide_eq_false in Hfull.
Qed.

Lemma ip_set_lt ip : (ip_set ip < CACHE_SETS)%nat.
Proof. unfold ip_set, CACHE_SETS. pose proof (Z.mod_pos_bound (simple_hash (Some ip)) 1024). lia. Qed.

Lemma fits_copy ip : fits ip → sso_strlcpy (Some ip) IP_SIZE = ip.
Proof. intros [_ ?]. apply sso_strlcpy_fits. done. Qed.

Lemma record_failure_spec l ip now e seen set w :
  set_wf seen set l → fits ip → l !! w = Some e →
  (ri_ip e = ip ∨ ri_ip e = [] ∧ ∀ x, x ∈ l → ri_ip x ≠ ip) →
  (∀ n t, entry_of ip l = Some (n, t) → n < 2 ^ 31 - 1) →
  ∃ e', record_failure ip now e = Ret e' ∧ ri_ip e' = ip ∧
    Some (ri_failed_count e', ri_last_fail_ms e') = add_failure (entry_of ip l) now.
Proof.
  intros Hwf Hip Hw Hcase Hn. unfold record_failure. destruct Hcase as [E|[E Hno]].
  - assert (Hs : same_ip (ri_ip e) ip = true) by (apply same_ip_iff; [rewrite E; apply Hip|apply Hip|done]).
    rewrite Hs. cbn [negb].
    pose proof (entry_of_at _ _ _ _ _ _ Hwf Hip Hw E) as Hent. rewrite Hent in *. cbn [add_failure].
    specialize (Hn _ _ eq_refl). destruct (_ <? _); [by eexists|].
    destruct (Z.eqb_spec (ri_failed_count e) (2 ^ 31 - 1)); [lia|]. by eexists.
  - assert (Hf : same_ip (ri_ip e) ip = false).
    { apply not_true_is_false. rewrite E, same_ip_iff; [|simpl; unfold IP_SIZE; lia|apply Hip]. intros <-. by destruct Hip. }
    rewrite Hf. cbn [negb]. rewrite (entry_of_none _ _ _ _ Hwf Hip Hno). eexists. split; [done|]. simpl.
    by rewrite fits_copy.
Qed.

(** The table of addresses agrees with the streaks [s]. *)
Record ips_wf (seen : list cstr) (s : cstr → streak) (t : list (list risk_ip_record_t)) : Prop := {
  iw_length : length t = CACHE_SETS;
  iw_sets : ∀ set, (set < CACHE_SETS)%nat → set_wf seen set (ways t set);
  iw_streak : ∀ ip, fits ip → entry_of ip (ways t (ip_set ip)) = s ip
}.

Lemma ways_insert {A} (t : list (list A)) set set' l :
  (set < length t)%nat → ways (<[set := l]> t) set' = if decide (set' = set) then l else ways t set'.
Proof.
  intros Hs. unfold ways. destruct (decide (set' = set)) as [->|Hne].
  - by rewrite list_lookup_insert_eq.
  - by rewrite list_lookup_insert_ne.
Qed.

(** A failure is counted for its address and for no other. *)
Lemma attempt_step seen s r ip now :
  ips_wf seen s (g_ip_records r) → fits ip → ip ∈ seen →
  (∀ set, (length (remove_dups (filter (λ x, ip_set x = set) seen)) ≤ CACHE_WAYS)%nat) →
  (∀ n t, s ip = Some (n, t) → n < 2 ^ 31 - 1) →
  ∃ r', risk_record_login_attempt 0 (Some ip) false now r = Ret r' ∧
    ips_wf seen (λ x, if bool_decide (ip = x) then add_failure (s x) now else s x) (g_ip_records r').
Proof.
  intros [Hlen Hsets Hstreak] Hip Hseen Hcap Hn. unfold risk_record_login_attempt.
  pose proof (Hsets _ (ip_set_lt ip)) as Hwf.
  destruct (ip_way_spec _ _ _ ip now Hwf Hip Hseen eq_refl (Hcap _)) as (e & Hw & Hcase). rewrite Hw.
  destruct (record_failure_spec _ ip now e _ _ _ Hwf Hip Hw Hcase) as (e' & -> & He' & Hadd).
  { intros n t. rewrite Hstreak by done. apply Hn. }
  destruct (put_entry _ _ _ _ _ _ e' Hwf Hip Hseen eq_refl Hw He' Hcase) as (Hwf' & Hent & Hother).
  eexists. split; [done|]. simpl. unfold put_way. pose proof (ip_set_lt ip) as Hlt. split.
  - by rewrite length_insert.
  - intros set Hset. rewrite ways_insert by lia. destruct (decide _) as [->|]; auto.
  - intros x Hx. rewrite ways_insert by lia. destruct (decide (ip_set x = ip_set ip)) as [E|E].
    + case_bool_decide as Hxi.
      * subst x. by rewrite Hent, Hadd, Hstreak.
      * rewrite Hother, <- E by auto. by apply Hstreak.
    + rewrite bool_decide_eq_false_2 by congruence. by apply Hstreak.
Qed.

Definition event_fits (ev : login_event) : Prop := match ev with Failed ip _ => fits ip | _ => True end.

Lemma run_events_wf seen evs r s :
  ips_wf seen s (g_ip_records r) → Forall event_fits evs → failed_ips evs ⊆ seen →
  (∀ set, (length (remove_dups (filter (λ x, ip_set x = set) seen)) ≤ CACHE_WAYS)%nat) →
  (∀ ip n t, s ip = Some (n, t) → n + Z.of_nat (length evs) < 2 ^ 31 - 1) → Z.of_nat (length evs) < 2 ^ 31 - 1 →
  ∃ r', run_events evs r = Ret r' ∧ ips_wf seen (λ ip, fold_left (streak_step ip) evs (s ip)) (g_ip_records r').
Proof.
  intros Hwf Hev Hseen Hcap. revert r s Hwf. induction evs as [|ev evs IH]; intros r s Hwf Hn Hlen; [by exists r|].
  apply Forall_cons in Hev as [Hev Hevs]. cbn [length] in *. destruct ev as [ip now|u ip ua now]; cbn [run_events fold_left].
  - assert (Hin : ip ∈ seen) by (apply Hseen; simpl; left).
    destruct (attempt_step _ _ _ ip now Hwf Hev Hin Hcap) as (r1 & -> & Hwf1).
    { intros n t E. specialize (Hn _ _ _ E). lia. }
    cbn [mbind outcome_bind]. apply (IH Hevs) in Hwf1 as (r' & Hr & Hwf'); [by exists r'| | |lia].
    + intros x Hx. apply Hseen. simpl. by right.
    + intros x n t. destruct (bool_decide_reflect (ip = x)) as [<-|_]; [|intros E; specialize (Hn _ _ _ E); lia].
      unfold add_failure. destruct (s ip) as [[n0 t0]|] eqn:E; [specialize (Hn _ _ _ E)|]; try destruct (_ <? _);
        intros [= <- <-]; lia.
  - destruct (IH Hevs Hseen (risk_record_login_success_with_ua u (Some ip) (Some ua) now r) s) as (r' & Hr & Hwf'); [done| |lia|by exists r'].
    intros x n t E. specialize (Hn _ _ _ E). lia.
Qed.

Lemma init_ips_wf seen : ips_wf seen (λ _, None) (g_ip_records risk_init).
Proof.
  assert (Hw : ∀ set, (set < CACHE_SETS)%nat → ways (g_ip_records risk_init) set = replicate CACHE_WAYS zero_ip).
  { intros set Hs. unfold ways, risk_init. cbn [g_ip_records]. by rewrite lookup_replicate_2. }
  split; [apply length_replicate| |].
  - intros set Hs. rewrite Hw by done. split; [by rewrite length_replicate| |].
    + intros e [->  _]%elem_of_replicate. by left.
    + intros i j e1 e2 [-> _]%lookup_replicate [-> _]%lookup_replicate _ Hne. by destruct Hne.
  - intros ip Hip. rewrite Hw by apply ip_set_lt. done.
Qed.

(** Points for a streak. *)
Definition streak_score (s : streak) (now : Z) : Z :=
  match s with
  | Some (n, t) => failure_score {| ri_ip := []; ri_failed_count := n; ri_last_fail_ms := t |} now
  | None => 0
  end.

Lemma ip_score_streak ip now r : ip_score ip now r = streak_score (entry_of ip (ways (g_ip_records r) (ip_set ip))) now.
Proof. unfold ip_score, entry_of. fold (entry_matches ip). by destruct (List.find _ _). Qed.

(** A spike never lowers the score. *)
Lemma round_aux_pos m e loc z : double_to_int (binary_round_aux prec emax false m e loc) = Some z → 0 ≤ z.
Proof.
  unfold binary_round_aux. destruct (shr_fexp prec emax m e loc) as [mrs e'].
  destruct (shr_fexp prec emax (round_nearest_even _ _) e' loc_Exact) as [mrs' e'']. destruct (shr_m mrs') as [|p|p].
  - by intros [= <-].
  - destruct (_ <=? _)%Z; [|done]. simpl.
    destruct (0 <=? e'') eqn:?; destruct (_ && _); try done; intros [= <-]; reflect_bools.
    + apply Z.mul_nonneg_nonneg; [lia|apply Z.pow_nonneg; lia].
    + apply Z.div_pos; [lia|]. apply Z.pow_pos_nonneg; lia.
  - done.
Qed.

Lemma spike_pos z : double_lt (double_of_Z 3) z = true → ∀ n, double_to_int (fmul z (double_of_Z 5)) = Some n → 0 ≤ n.
Proof.
  intros Hz n. destruct z as [s|s| |s m e]; [by destruct s|by destruct s|done|].
  destruct s; [done|]. change (double_of_Z 5) with (S754_finite false 5629499534213120 (-50)).
  cbn [SFmul xorb]. apply round_aux_pos.
Qed.

Lemma history_score_pos rec ip ua now : 0 ≤ history_score rec ip ua now.
Proof. unfold history_score. repeat (case_match; try lia). Qed.

Lemma velocity_score_pos now r v r' :
  velocity_score now r = Ret (v, r') → 0 ≤ v ∧ g_ip_records r' = g_ip_records r.
Proof.
  unfold velocity_score. destruct (0 <? _); [|by intros [= <- <-]]. cbv zeta.
  destruct (double_lt (dconst 1 (-2) 1) _); [|by intros [= <- <-]].
  destruct (double_lt (double_of_Z 3) _) eqn:Hz; [|by intros [= <- <-]].
  destruct (double_to_int _) as [z|] eqn:E; [|done]. intros [= <- <-]. split; [by eapply spike_pos|done].
Qed.

Lemma evaluate_lower u ip ua now r score r' :
  risk_evaluate_login u (Some ip) ua now r = Ret (score, r') → Z.min 100 (ip_score ip now r) ≤ score ≤ 100.
Proof.
  unfold risk_evaluate_login. destruct (velocity_score now r) as [[v r1]| |] eqn:E; [|done|done]. simpl.
  apply velocity_score_pos in E as [Hv Hips]. assert (Hi : ip_score ip now r1 = ip_score ip now r).
  { unfold ip_score. by rewrite Hips. }
  assert (Hu : 0 ≤ user_score u ip (simple_hash ua) now r1).
  { unfold user_score. destruct (List.find _ _); [apply history_score_pos|lia]. }
  rewrite Hi. intros [= <- _]. unfold RISK_SCORE_LOW. destruct (_ <? _) eqn:Hc; reflect_bools; lia.
Qed.


Definition attacker : cstr := "10.0.0.7".
Definition burst : list login_event := (λ i, Failed attacker (1000 + Z.of_nat i)) <$> seq 0 11.

