(* ===== verification/Http.v ===== *)
(** * Requests, responses and authentication (src/handlers_common.c, src/server.c)

    The helpers every handler shares, the authentication middleware and
    the dispatch of a parsed request to its route.  A handler runs in a
    small state monad over everything a request can change: the body
    buffer, which the JSON reader rewrites in place, the store and the
    engine's caches, the token manager, the rate limiter, the risk tables,
    the metrics of the engine and the audit log.  The clocks, the answers of the allocators and the random
    bytes of the request are its environment. *)

From S2P Require Import Prelude CLib CNum Json Types Storage StorageMemory PermCache Context UserMgr RateLimit Mfa Bits Base64 TokenState Token TokenScan TokenJwt Printf PermEngine AuditLog Dpop Risk.

(** [yyjson_read_opts(dat, len, YYJSON_READ_INSITU, ...)]: the document and
    the buffer it leaves behind. *)
Class InsituReader := yyjson_read_insitu : list ascii → option json * list ascii.

(** Strings are read in place: their text stays where it was and is
    terminated there, so that the closing quote of the first key of an
    object becomes a NUL. *)
Class InsituLaws `{InsituReader} : Prop :=
  insitu_first_key : ∀ b k v ms b',
    yyjson_read_insitu b = (Some (JObj ((k, v) :: ms)), b') →
    ∃ pre, QUOTE ∉ pre ∧ c_str b' = pre ++ QUOTE :: c_str k.

Inductive http_method_t := HTTP_GET | HTTP_POST | HTTP_PUT | HTTP_DELETE | HTTP_PATCH | HTTP_OPTIONS.
#[global] Instance http_method_eq_dec : EqDecision http_method_t.
Proof. solve_decision. Defined.

(** The authenticated user and the token. *)
Record auth_context_t := { ac_user : user_t; ac_token : token_t }.

Record http_request_t := {
  rq_method : http_method_t; rq_path : cstr; rq_client_ip : cstr; rq_query_params : option (list cstr);
  rq_auth_token : cstr; rq_origin : cstr; rq_dpop_proof : cstr; rq_host : cstr; rq_method_str : cstr;
  rq_user_agent : cstr; rq_userdata : option auth_context_t
}.

Record http_response_t := {
  rs_status_code : Z; rs_body : option cstr; rs_content_type : cstr; rs_extra_headers : cstr; rs_cors_origin : cstr
}.

Definition set_headers (h : cstr) (r : http_response_t) : http_response_t :=
  {| rs_status_code := rs_status_code r; rs_body := rs_body r; rs_content_type := rs_content_type r;
     rs_extra_headers := h; rs_cors_origin := rs_cors_origin r |}.

(** What a request reads of its surroundings: [sso_timestamp_now()], the
    monotonic clock, malloc and the request's arena by requested size,
    the random bytes of the n-th token it issues, those of a new secret
    and of an authorization code, [rand()], and what the audit log asks
    for. *)
Record request_env := {
  e_now : Z; e_mono : Z; e_alloc : Z → bool; e_arena : Z → bool;
  e_token_random : nat → list Z * list Z; e_secret_random : list Z; e_code_random : list Z; e_rand : Z;
  e_audit : audit_env
}.

(** [atoll] *)
Definition atoll (s : cstr) : Z :=
  let '(neg, s1) := scan_sign (skip_while is_space s) in
  let v := digits_val (take_while is_digit s1) in
  if neg then Z.max (- 2 ^ 63) (- v) else Z.min (2 ^ 63 - 1) v.

(** [time(NULL)] on the clock of [sso_timestamp_now]. *)
Definition time_s (now : Z) : Z := now / 1000.

(* ------------------------------------------------------------------ *)
(** ** Queries, paths and flat JSON *)

Definition SSO_MAX_QUERY : nat := 1024.

Record query := { q_text : cstr; q_status : Z; q_page : Z; q_limit : Z }.

(** One parameter; a copy that cannot be made is skipped. *)
Definition query_param (alloc : Z → bool) (acc : query) (param : cstr) : query :=
  if negb (alloc (Z.of_nat (length param) + 1)) then acc
  else
    match strchr param "=" with
    | None => acc
    | Some i =>
        let k := take i param in
        let v := drop (S i) param in
        if strcmp_eq k "q" then
          {| q_text := sso_strlcpy (Some v) SSO_MAX_QUERY; q_status := q_status acc; q_page := q_page acc;
             q_limit := q_limit acc |}
        else if strcmp_eq k "status" then
          {| q_text := q_text acc; q_status := atoi v; q_page := q_page acc; q_limit := q_limit acc |}
        else if strcmp_eq k "page" then
          {| q_text := q_text acc; q_status := q_status acc; q_page := Z.max 1 (atoi v); q_limit := q_limit acc |}
        else if strcmp_eq k "limit" then
          {| q_text := q_text acc; q_status := q_status acc; q_page := q_page acc;
             q_limit := Z.min 100 (Z.max 1 (atoi v)) |}
        else acc
    end.

Definition parse_query_params (alloc : Z → bool) (req : http_request_t) : query :=
  fold_left (query_param alloc) (default [] (rq_query_params req))
    {| q_text := []; q_status := -1; q_page := 1; q_limit := 20 |}.

Definition extract_path_id (path prefix : cstr) : Z :=
  match strstr path prefix with
  | None => 0
  | Some i => u64 (atoll (drop (i + length prefix) path))
  end.

(** The start of the value of a key, as both flat scanners look for it. *)
Definition flat_value (json key : cstr) : option cstr :=
  let search := snprintf 128 (QUOTE :: key ++ [QUOTE]) in
  match strstr json search with
  | None => None
  | Some i =>
      let p := skip_while (λ c, negb (char_in [":"%char; ","%char] c)) (drop (i + length search) json) in
      let p := if hd_is ":" p then tl p else p in
      Some (skip_while (char_in [" "%char; chr 9; chr 10]) p)
  end.

Definition json_int_value (json : option cstr) (key : cstr) (def : Z) : Z :=
  match json ≫= λ json, flat_value json key with
  | None => def
  | Some p => atoll p
  end.

(** The raw text of a quoted value, up to its closing quote. *)
Fixpoint quoted_raw (p : cstr) : cstr :=
  match p with
  | [] => []
  | c :: p' =>
      if Ascii.eqb c "\" then match p' with [] => [c] | d :: p'' => c :: d :: quoted_raw p'' end
      else if Ascii.eqb c QUOTE then []
      else c :: quoted_raw p'
  end.

Definition escape_char (c : ascii) : option ascii :=
  if Ascii.eqb c QUOTE then Some QUOTE
  else if Ascii.eqb c "\" then Some c
  else if Ascii.eqb c "/" then Some c
  else if Ascii.eqb c "b" then Some (chr 8)
  else if Ascii.eqb c "f" then Some (chr 12)
  else if Ascii.eqb c "n" then Some (chr 10)
  else if Ascii.eqb c "r" then Some (chr 13)
  else if Ascii.eqb c "t" then Some (chr 9)
  else None.

Fixpoint unescape (p : cstr) : cstr :=
  match p with
  | [] => []
  | c :: p' =>
      if Ascii.eqb c "\" then
        match p' with
        | [] => [c]
        | d :: p'' => match escape_char d with Some x => x :: unescape p'' | None => c :: unescape p' end
        end
      else c :: unescape p'
  end.

Definition json_str_value (arena : Z → bool) (json : option cstr) (key : cstr) : option cstr :=
  match json ≫= λ json, flat_value json key with
  | None => None
  | Some p =>
      if hd_is QUOTE p then
        let raw := quoted_raw (tl p) in
        if negb (arena (Z.of_nat (length raw) + 1)) then None else Some (unescape raw)
      else None
  end.

(* ------------------------------------------------------------------ *)
(** ** Passwords *)

Record password_policy_t := {
  min_length : Z; max_length : Z; require_upper : bool; require_lower : bool; require_digit : bool;
  require_special : bool
}.

Definition PASSWORD_POLICY_DEFAULT : password_policy_t :=
  {| min_length := 8; max_length := 128; require_upper := true; require_lower := true; require_digit := true;
     require_special := true |}.

Inductive char_class := Upper | Lower | Digit | Special | Other.
#[global] Instance char_class_eq_dec : EqDecision char_class.
Proof. solve_decision. Defined.

Definition class_of (c : ascii) : char_class :=
  if (65 <=? ord c) && (ord c <=? 90) then Upper
  else if (97 <=? ord c) && (ord c <=? 122) then Lower
  else if (48 <=? ord c) && (ord c <=? 57) then Digit
  else if (32 <? ord c) && (ord c <? 127) then Special
  else Other.

Definition has_class (k : char_class) (s : cstr) : bool := existsb (λ c, bool_decide (class_of c = k)) s.

(** The message of the first rule a password breaks; NULL when it breaks
    none. *)
Definition validate_password (password : option cstr) (policy : option password_policy_t) : option cstr :=
  match password with
  | None => Some ("Password required" : cstr)
  | Some pw =>
      let policy := default PASSWORD_POLICY_DEFAULT policy in
      let min_len := if 0 <? min_length policy then min_length policy else 8 in
      let max_len := if 0 <? max_length policy then max_length policy else 128 in
      let len := s32 (Z.of_nat (length pw)) in
      if len <? min_len then Some ("Password must be at least 8 characters" : cstr)
      else if max_len <? len then Some ("Password must not exceed 128 characters" : cstr)
      else if require_upper policy && negb (has_class Upper pw) then
        Some ("Password must contain an uppercase letter" : cstr)
      else if require_lower policy && negb (has_class Lower pw) then
        Some ("Password must contain a lowercase letter" : cstr)
      else if require_digit policy && negb (has_class Digit pw) then
        Some ("Password must contain a digit" : cstr)
      else if require_special policy && negb (has_class Special pw) then
        Some ("Password must contain a special character" : cstr)
      else None
  end.

(* ------------------------------------------------------------------ *)
(** ** Routes *)

Definition not_slash (c : ascii) : bool := negb (Ascii.eqb c "/").

(** The end of both texts, with one trailing slash forgiven on either
    side. *)
Definition route_end (pattern path : cstr) : bool :=
  let pattern := if hd_is "/" pattern && bool_decide (path = []) then tl pattern else pattern in
  let path := if hd_is "/" path && bool_decide (pattern = []) then tl path else path in
  bool_decide (pattern = []) && bool_decide (path = []).

(** Every round consumes a character of the pattern. *)
Fixpoint match_loop (fuel : nat) (pattern path : cstr) : bool :=
  match fuel with
  | O => false
  | S fuel' =>
      match pattern, path with
      | c :: pattern', d :: path' =>
          if Ascii.eqb c ":" then match_loop fuel' (skip_while not_slash pattern') (skip_while not_slash path)
          else if Ascii.eqb c "*" then
            match pattern' with
            | [] => true
            | _ => match_loop fuel' pattern' (skip_while not_slash path)
            end
          else if negb (Ascii.eqb c d) then false
          else match_loop fuel' pattern' path'
      | _, _ => route_end pattern path
      end
  end.

Definition match_route (pattern path : cstr) : bool := match_loop (S (length pattern)) pattern path.

(* ------------------------------------------------------------------ *)
(** ** Responses *)

Definition sso_strerror (e : sso_error_t) : cstr :=
  match e with
  | SSO_OK => "Success" | SSO_ERR_GENERAL => "General error" | SSO_ERR_NOT_FOUND => "Resource not found"
  | SSO_ERR_ALREADY_EXISTS => "Resource already exists" | SSO_ERR_INVALID_PARAM => "Invalid parameter"
  | SSO_ERR_NO_PERMISSION => "Permission denied" | SSO_ERR_AUTH_FAILED => "Authentication failed"
  | SSO_ERR_TOKEN_EXPIRED => "Token expired" | SSO_ERR_TOKEN_INVALID => "Token invalid"
  | SSO_ERR_STORAGE => "Storage error" | SSO_ERR_STRATEGY_CONFLICT => "Strategy already registered"
  | SSO_ERR_STRATEGY_NOT_FOUND => "Strategy not found" | SSO_ERR_RULE_INVALID => "Invalid policy rule"
  | SSO_ERR_OUT_OF_MEMORY => "Out of memory" | SSO_ERR_NOT_IMPLEMENTED => "Not implemented"
  | SSO_ERR_RATE_LIMIT => "Rate limit exceeded" | SSO_ERR_SOCKET => "Socket creation failed"
  | SSO_ERR_BIND => "Socket bind failed" | SSO_ERR_LISTEN => "Socket listen failed"
  | SSO_ERR_INIT => "Initialisation failed" | SSO_ERR_CURL => "CURL operation failed"
  | SSO_ERR_PASSWORD_EXPIRED => "Password expired" | _ => "Unknown error"
  end.

Definition strdup (alloc : Z → bool) (s : cstr) : option cstr :=
  if alloc (Z.of_nat (length s) + 1) then Some s else None.

Definition sso_response_ok (env : request_env) (body_json : cstr) (r : http_response_t) : http_response_t :=
  {| rs_status_code := 200; rs_body := strdup (e_alloc env) body_json; rs_content_type := "application/json";
     rs_extra_headers := rs_extra_headers r; rs_cors_origin := rs_cors_origin r |}.

Definition error_body (message : cstr) : cstr :=
  snprintf 1024 (("{" : cstr) ++ QUOTE :: ("error" : cstr) ++ QUOTE :: ":"%char :: QUOTE :: message ++ QUOTE :: ("}" : cstr)).

Definition sso_response_error (env : request_env) (status_code : Z) (message : cstr) (r : http_response_t)
  : http_response_t :=
  {| rs_status_code := status_code; rs_body := strdup (e_alloc env) (error_body message);
     rs_content_type := "application/json"; rs_extra_headers := rs_extra_headers r;
     rs_cors_origin := rs_cors_origin r |}.

(* ------------------------------------------------------------------ *)
(** ** The state of a request *)

Section State.
Context {S C : Type} `{Crypto}.

(** [ss_body] and [ss_doc] are the request's body buffer and the document
    cached from it; the rest is the context. *)
Record sso_state := {
  ss_body : option (list ascii); ss_doc : option json;
  ss_world : world S C; ss_tokens : token_manager; ss_limiter : option (list rl_entry_t); ss_risk : risk_state;
  ss_metrics : engine_metrics_t; ss_audit : audit_state
}.

Definition set_req (b : option (list ascii)) (d : option json) (s : sso_state) : sso_state :=
  {| ss_body := b; ss_doc := d; ss_world := ss_world s; ss_tokens := ss_tokens s; ss_limiter := ss_limiter s;
     ss_risk := ss_risk s; ss_metrics := ss_metrics s; ss_audit := ss_audit s |}.
Definition set_world (w : world S C) (s : sso_state) : sso_state :=
  {| ss_body := ss_body s; ss_doc := ss_doc s; ss_world := w; ss_tokens := ss_tokens s; ss_limiter := ss_limiter s;
     ss_risk := ss_risk s; ss_metrics := ss_metrics s; ss_audit := ss_audit s |}.
Definition set_tokens (m : token_manager) (s : sso_state) : sso_state :=
  {| ss_body := ss_body s; ss_doc := ss_doc s; ss_world := ss_world s; ss_tokens := m; ss_limiter := ss_limiter s;
     ss_risk := ss_risk s; ss_metrics := ss_metrics s; ss_audit := ss_audit s |}.
Definition set_limiter (l : option (list rl_entry_t)) (s : sso_state) : sso_state :=
  {| ss_body := ss_body s; ss_doc := ss_doc s; ss_world := ss_world s; ss_tokens := ss_tokens s; ss_limiter := l;
     ss_risk := ss_risk s; ss_metrics := ss_metrics s; ss_audit := ss_audit s |}.
Definition set_risk (r : risk_state) (s : sso_state) : sso_state :=
  {| ss_body := ss_body s; ss_doc := ss_doc s; ss_world := ss_world s; ss_tokens := ss_tokens s;
     ss_limiter := ss_limiter s; ss_risk := r; ss_metrics := ss_metrics s; ss_audit := ss_audit s |}.
Definition set_audit (a : audit_state) (s : sso_state) : sso_state :=
  {| ss_body := ss_body s; ss_doc := ss_doc s; ss_world := ss_world s; ss_tokens := ss_tokens s;
     ss_limiter := ss_limiter s; ss_risk := ss_risk s; ss_metrics := ss_metrics s; ss_audit := a |}.
Definition set_metrics (m : engine_metrics_t) (s : sso_state) : sso_state :=
  {| ss_body := ss_body s; ss_doc := ss_doc s; ss_world := ss_world s; ss_tokens := ss_tokens s;
     ss_limiter := ss_limiter s; ss_risk := ss_risk s; ss_metrics := m; ss_audit := ss_audit s |}.

(** The tables of the token manager and the store, which its operations
    change. *)
Definition set_tables (t : token_tables) (st : S) (s : sso_state) : sso_state :=
  let m := ss_tokens s in
  set_tokens {| tm_mode := tm_mode m; slot0 := slot0 m; slot1 := slot1 m; active_slot := active_slot m;
                rotation_counter := rotation_counter m; default_ttl_ms := default_ttl_ms m; tables := t |}
    (set_world {| w_store := st; w_engine := w_engine (ss_world s) |} s).

Definition handler (A : Type) : Type := sso_state → outcome (A * sso_state).

#[global] Instance handler_ret : MRet handler := λ A a s, Ret (a, s).
#[global] Instance handler_bind : MBind handler := λ A B f m s,
  match m s with Ret (a, s') => f a s' | Crash => Crash | Diverge => Diverge end.

Lemma handler_bind_inv {A B} (f : A → handler B) (m : handler A) s r :
  mbind f m s = Ret r → ∃ a s1, m s = Ret (a, s1) ∧ f a s1 = Ret r.
Proof. unfold mbind, handler_bind. destruct (m s) as [[a s1]| |]; [eauto|done|done]. Qed.

Lemma handler_bind_Ret {A B} (f : A → handler B) (m : handler A) s a s1 :
  m s = Ret (a, s1) → mbind f m s = f a s1.
Proof. intros E. unfold mbind, handler_bind. by rewrite E. Qed.

Definition get_state : handler sso_state := λ s, Ret (s, s).
Definition lift {A} (o : outcome A) : handler A := λ s, a ← o; Ret (a, s).
Definition on_world {A} (f : mgr_op S C A) : handler (result A) := λ s,
  '(r, w) ← f (ss_world s); Ret (r, set_world w s).
Definition on_store {A} (f : storage_op S A) : handler (result A) := λ s,
  '(r, st) ← f (w_store (ss_world s));
  Ret (r, set_world {| w_store := st; w_engine := w_engine (ss_world s) |} s).
Definition on_risk (f : risk_state → outcome risk_state) : handler unit := λ s,
  r ← f (ss_risk s); Ret ((), set_risk r s).

Lemma on_world_inv {A} (f : mgr_op S C A) s r s' :
  on_world f s = Ret (r, s') → ∃ w, f (ss_world s) = Ret (r, w) ∧ s' = set_world w s.
Proof. intros ([a w] & Hf & Hr)%outcome_bind_inv. injection Hr as -> <-. eauto. Qed.

Lemma on_store_inv {A} (f : storage_op S A) s r s' :
  on_store f s = Ret (r, s') →
  ∃ st, f (w_store (ss_world s)) = Ret (r, st) ∧ s' = set_world {| w_store := st; w_engine := w_engine (ss_world s) |} s.
Proof. intros ([a st] & Hf & Hr)%outcome_bind_inv. injection Hr as -> <-. eauto. Qed.

End State.
Arguments sso_state S C {_}.
Arguments handler S C {_} A.

(* ------------------------------------------------------------------ *)
(** ** Shared operations *)

Section Shared.
Context {S C : Type} `{Crypto, InsituReader, JsonReader, Sha256, RsaKeys}.
Context (cx : sso_context S) (env : request_env).
Notation handler := (handler S C).
Implicit Types req : http_request_t.

(** The cached document, or the body read once more. *)
Definition req_get_json : handler (option json) := λ s,
  match ss_doc s with
  | Some d => Ret (Some d, s)
  | None =>
      match ss_body s with
      | None | Some [] => Ret (None, s)
      | Some b => let '(d, b') := yyjson_read_insitu b in Ret (d, set_req (Some b') d s)
      end
  end.

Definition req_json_str_value (key : cstr) : handler (option cstr) :=
  doc ← req_get_json; mret (as_str (yyjson_obj_get doc key)).

Definition has_body : handler bool := s ← get_state; mret (bool_decide (is_Some (ss_body s))).

(** [if (ctx->rate_limiter) rate_limiter_check(...)]: may the request go
    on? *)
Definition limit (key : cstr) (window_ms max_requests : Z) : handler bool := λ s,
  match ss_limiter s with
  | None => Ret (true, s)
  | Some l =>
      '(e, l) ← rate_limiter_check l (Some key) (e_mono env) window_ms max_requests;
      Ret (is_ok e, set_limiter (Some l) s)
  end.
Definition limit_reset (key : cstr) : handler unit := λ s,
  Ret ((), set_limiter ((λ l, rate_limiter_reset l (Some key)) <$> ss_limiter s) s).

(** The operations of the token manager of the context. *)
Definition verify_token (str : cstr) : handler (sso_error_t * token_t) := λ s,
  r ← token_verify (e_alloc env) (ss_tokens s) (Some str) (e_now env); Ret (r, s).
Definition is_revoked (jti : cstr) : handler bool := λ s,
  '(b, t, st) ← token_is_revoked (cx_backend cx) (Some jti) (tables (ss_tokens s)) (w_store (ss_world s));
  Ret (b, set_tables t st s).
Definition revoke_jti (jti : cstr) (expires_at : Z) : handler sso_error_t := λ s,
  '(e, t, st) ← token_revoke (cx_backend cx) (e_alloc env) (Some jti) expires_at (tables (ss_tokens s))
                  (w_store (ss_world s));
  Ret (e, set_tables t st s).
Definition register_session (user_id : Z) (jti : cstr) : handler unit := λ s,
  '(t, st) ← token_register_session (cx_backend cx) (e_alloc env) user_id (Some jti) (tables (ss_tokens s))
               (w_store (ss_world s));
  Ret ((), set_tables t st s).
Definition bump_nonce (user_id : Z) : handler sso_error_t := λ s,
  let '(e, t) := token_bump_nonce (e_alloc env) (tables (ss_tokens s)) user_id in
  Ret (e, set_tables t (w_store (ss_world s)) s).
Definition get_nonce (user_id : Z) : handler Z := λ s, Ret (token_get_nonce (tables (ss_tokens s)) user_id, s).

(** The address the request was sent to, as a DPoP proof must name it. *)
Definition full_url req : cstr :=
  snprintf 2048 (("http://" : cstr) ++ match rq_host req with [] => ("localhost" : cstr) | h => h end ++ rq_path req).

Definition dpop_verify req (expected_jkt : option cstr) : handler (sso_error_t * cstr) :=
  lift (dpop_verify_proof (e_alloc env) (rq_dpop_proof req) (rq_method_str req) (full_url req) expected_jkt (e_now env)).

(** Does a request carry the proof of possession its token asks for? *)
Definition proof_of_possession req (tok : token_t) : handler bool :=
  match tk_jkt tok with
  | [] => mret true
  | _ =>
      match rq_dpop_proof req with
      | [] => mret false
      | _ =>
          '(e, derived_jkt) ← dpop_verify req (Some (rq_auth_token req));
          mret (is_ok e && strcmp_eq derived_jkt (tk_jkt tok))
      end
  end.

Definition authenticate_request req : handler (result auth_context_t) :=
  match rq_auth_token req with
  | [] => mret (Err SSO_ERR_AUTH_FAILED)
  | _ =>
      '(err, tok) ← verify_token (rq_auth_token req);
      if negb (is_ok err) then mret (Err err)
      else
        revoked ← is_revoked (tk_jti tok);
        if revoked : bool then mret (Err SSO_ERR_TOKEN_INVALID)
        else
          pop ← proof_of_possession req tok;
          if negb pop then mret (Err SSO_ERR_AUTH_FAILED)
          else
            u ← on_world (user_get_by_id cx (tk_user_id tok));
            match u with
            | Err e => mret (Err e)
            | Ok user =>
                expected_nonce ← get_nonce (u_id user);
                if tk_nonce tok <? expected_nonce then mret (Err SSO_ERR_TOKEN_INVALID)
                else mret (Ok {| ac_user := user; ac_token := tok |})
            end
  end.

(* ------------------------------------------------------------------ *)
(** ** Dispatch *)

Record route_t := {
  rt_pattern : cstr; rt_method : http_method_t; rt_require_auth : bool;
  rt_handler : http_request_t → http_response_t → handler (sso_error_t * http_response_t)
}.

(** The index [sso_server_init] builds: the routes of a method, in order. *)
Definition method_routes (routes : list route_t) (m : http_method_t) : list route_t :=
  filter (λ r, rt_method r = m) routes.

Definition find_route (routes : list route_t) req : option route_t :=
  List.find (λ r, match_route (rt_pattern r) (rq_path req)) (method_routes routes (rq_method req)).

(** The response before any handler runs. *)
Definition init_response req : http_response_t :=
  {| rs_status_code := 0; rs_body := None; rs_content_type := "application/json"; rs_extra_headers := [];
     rs_cors_origin := snprintf 256 (rq_origin req) |}.

Definition CRLF : cstr := [chr 13; chr 10].

Definition preflight (resp : http_response_t) : http_response_t :=
  let r := set_headers (("Access-Control-Allow-Methods: GET, POST, PUT, PATCH, DELETE, OPTIONS" : cstr) ++ CRLF ++
    ("Access-Control-Allow-Headers: Authorization, Content-Type, X-Requested-With" : cstr) ++ CRLF ++
    ("Access-Control-Max-Age: 86400" : cstr) ++ CRLF) resp in
  {| rs_status_code := rs_status_code r; rs_body := strdup (e_alloc env) []; rs_content_type := rs_content_type r;
     rs_extra_headers := rs_extra_headers r; rs_cors_origin := rs_cors_origin r |}.

Definition with_auth (a : option auth_context_t) req : http_request_t :=
  {| rq_method := rq_method req; rq_path := rq_path req; rq_client_ip := rq_client_ip req;
     rq_query_params := rq_query_params req; rq_auth_token := rq_auth_token req; rq_origin := rq_origin req;
     rq_dpop_proof := rq_dpop_proof req; rq_host := rq_host req; rq_method_str := rq_method_str req;
     rq_user_agent := rq_user_agent req; rq_userdata := a |}.

(** The matched handler, and the answer for an error it left without one. *)
Definition run_route (r : route_t) req (resp : http_response_t) : handler http_response_t :=
  '(err, resp) ← rt_handler r req resp;
  mret (if negb (is_ok err) && bool_decide (rs_body resp = None)
        then sso_response_error env 500 (sso_strerror err) resp else resp).

(** [sizeof(auth_context_t)] is asked of the arena before the token is
    looked at. *)
Definition sizeof_auth_context : Z := 2768 + 10944.

(** [handle_client] from the parsed request to the response it sends;
    [disable_auth] is the environment variable that turns the middleware
    off. *)
Definition handle_client (routes : list route_t) (disable_auth : bool) req : handler http_response_t :=
  let resp := init_response req in
  if bool_decide (rq_method req = HTTP_OPTIONS) then mret (preflight resp)
  else
    match find_route routes req with
    | None => mret (sso_response_error env 404 "Not found" resp)
    | Some r =>
        if rt_require_auth r && negb disable_auth then
          if negb (e_arena env sizeof_auth_context) then mret (sso_response_error env 500 "Internal server error" resp)
          else
            a ← authenticate_request req;
            match a with
            | Err e =>
                mret (sso_response_error env 401
                        (if bool_decide (e = SSO_ERR_TOKEN_EXPIRED) then "Token expired" else "Authentication failed") resp)
            | Ok auth => run_route r (with_auth (Some auth) req) resp
            end
        else run_route r (with_auth None req) resp
    end.

End Shared.
Arguments route_t S C {_}.

(* ================================================================== *)
(** ** Route patterns *)

Lemma match_loop_fuel fuel fuel' pattern path :
  (length pattern < fuel)%nat → (length pattern < fuel')%nat →
  match_loop fuel pattern path = match_loop fuel' pattern path.
Proof.
  revert fuel' pattern path. induction fuel as [|fuel IH]; intros [|fuel'] pattern path Hf Hf'; [lia|lia|lia|].
  cbn [match_loop]. destruct pattern as [|c pattern], path as [|d path]; [done..|]. cbn [length] in *.
  pose proof (skip_while_length not_slash pattern). destruct (Ascii.eqb c ":"); [apply IH; lia|].
  destruct (Ascii.eqb c "*"); [destruct pattern; [done|apply IH; simpl in *; lia]|].
  destruct (negb _); [done|]. apply IH; lia.
Qed.

(** One round of the loop. *)
Lemma match_route_cons c pattern d path :
  match_route (c :: pattern) (d :: path) =
    if Ascii.eqb c ":" then match_route (skip_while not_slash pattern) (skip_while not_slash (d :: path))
    else if Ascii.eqb c "*" then
      match pattern with [] => true | _ => match_route pattern (skip_while not_slash (d :: path)) end
    else if negb (Ascii.eqb c d) then false else match_route pattern path.
Proof.
  unfold match_route at 1. change (length (c :: pattern)) with (S (length pattern)).
  assert (Hf : (length pattern < S (length pattern))%nat) by lia. revert Hf. generalize (S (length pattern)). intros f Hf.
  cbn [match_loop]. pose proof (skip_while_length not_slash pattern). destruct (Ascii.eqb c ":"); [apply match_loop_fuel; lia|].
  destruct (Ascii.eqb c "*"); [destruct pattern; [done|apply match_loop_fuel; lia]|].
  destruct (negb _); [done|]. apply match_loop_fuel; lia.
Qed.
Lemma match_route_nil_l path : match_route [] path = route_end [] path.
Proof. unfold match_route. by destruct path. Qed.
Lemma match_route_nil_r pattern : match_route pattern [] = route_end pattern [].
Proof. unfold match_route. by destruct pattern. Qed.

(** Segments of a pattern: literal text, a named parameter, a star. *)
Inductive seg := Lit (s : cstr) | Var (name : cstr) | Star.
Definition render (g : seg) : cstr :=
  match g with Lit s => s | Var n => ":"%char :: n | Star => ["*"%char] end.
Definition slashed (l : list cstr) : cstr := concat (map (λ s, "/"%char :: s) l).
Definition plain_char (c : ascii) : bool := negb (char_in ["/"%char; ":"%char; "*"%char] c).
Definition seg_wf (g : seg) : Prop :=
  match g with
  | Lit s => s ≠ [] ∧ forallb plain_char s = true
  | Var n => forallb not_slash n = true
  | Star => True
  end.

(** When a list of segments accepts the parts of a path between slashes:
    one part per segment, and possibly an empty part for a slash at the
    end; a parameter or star at the very end takes a part that is not
    empty, and a star at the end takes everything that follows too. *)
Fixpoint segs_match (segs : list seg) (parts : list cstr) : bool :=
  match segs, parts with
  | [], [] => true
  | [], [p] => bool_decide (p = [])
  | g :: segs', p :: parts' =>
      match g with
      | Lit s => bool_decide (p = s) && segs_match segs' parts'
      | Var _ => if bool_decide (p = []) && bool_decide (parts' = []) then false else segs_match segs' parts'
      | Star =>
          if bool_decide (p = []) && bool_decide (parts' = []) then false
          else bool_decide (segs' = []) || segs_match segs' parts'
      end
  | _, _ => false
  end.

Definition slash_first (s : cstr) : Prop := s = [] ∨ ∃ s', s = "/"%char :: s'.

Lemma slashed_first l : slash_first (slashed l).
Proof. destruct l as [|p l]; [by left|right; by eexists]. Qed.

Lemma skip_not_slash s rest : forallb not_slash s = true → slash_first rest → skip_while not_slash (s ++ rest) = rest.
Proof.
  intros Hs Hr. induction s as [|c s IH]; simpl in *.
  - destruct Hr as [->|[s' ->]]; [done|]. done.
  - apply andb_true_iff in Hs as [-> Hs]. by apply IH.
Qed.

Lemma plain_char_iff c : plain_char c = true → Ascii.eqb c "/" = false ∧ Ascii.eqb c ":" = false ∧ Ascii.eqb c "*" = false.
Proof. unfold plain_char, char_in. simpl. destruct (Ascii.eqb c "/"), (Ascii.eqb c ":"), (Ascii.eqb c "*"); done. Qed.

Lemma match_literal s pattern p rest :
  forallb plain_char s = true → forallb not_slash p = true → slash_first pattern → slash_first rest →
  match_route (s ++ pattern) (p ++ rest) = bool_decide (p = s) && match_route pattern rest.
Proof.
  intros Hs Hp Hpat Hrest. revert p Hp. induction s as [|c s IH]; intros [|d p] Hp; simpl in *.
  - done.
  - apply andb_true_iff in Hp as [Hd _]. unfold not_slash in Hd. destruct Hpat as [->|[pt ->]].
    + rewrite match_route_nil_l. unfold route_end. simpl. by destruct (Ascii.eqb d "/").
    + rewrite match_route_cons. by destruct (Ascii.eqb_spec "/" d) as [<-|].
  - apply andb_true_iff in Hs as [(Hc & Hc1 & Hc2)%plain_char_iff _]. destruct Hrest as [->|[rt ->]].
    + rewrite match_route_nil_r. unfold route_end. simpl. by rewrite Hc.
    + rewrite match_route_cons, Hc1, Hc2, Hc. done.
  - apply andb_true_iff in Hs as [(Hc & Hc1 & Hc2)%plain_char_iff Hs], Hp as [_ Hp].
    rewrite match_route_cons, Hc1, Hc2. destruct (Ascii.eqb_spec c d) as [->|Hne]; simpl.
    + rewrite IH by done. f_equal. apply bool_decide_ext. split; congruence.
    + rewrite bool_decide_eq_false_2; [done|congruence].
Qed.

Lemma match_wild c n pattern p rest :
  c = ":"%char ∨ c = "*"%char ∧ n = [] → forallb not_slash n = true → forallb not_slash p = true → slash_first pattern → slash_first rest →
  match_route (c :: n ++ pattern) (p ++ rest) =
    if bool_decide (p = []) && bool_decide (rest = []) then false
    else if Ascii.eqb c "*" && bool_decide (pattern = []) then true else match_route pattern rest.
Proof.
  intros Hc Hn Hp Hpat Hrest. pose proof (skip_not_slash _ _ Hp Hrest) as Hskip.
  destruct (p ++ rest) as [|d l] eqn:E.
  { apply app_eq_nil in E as [-> ->]. rewrite match_route_nil_r. unfold route_end. simpl.
    by destruct Hc as [->|[-> _]]. }
  assert (Hne : bool_decide (p = []) && bool_decide (rest = []) = false).
  { destruct p, rest; [done|done|done|done]. }
  rewrite Hne, match_route_cons, Hskip. destruct Hc as [->|[-> ->]]; simpl.
  - by rewrite skip_not_slash.
  - by destruct pattern.
Qed.

Definition part_ok (p : cstr) : Prop := forallb not_slash p = true.

Lemma render_slash_first g segs : slash_first (slashed (map render (g :: segs))).
Proof. apply slashed_first. Qed.

Lemma match_route_slash pattern path : match_route ("/"%char :: pattern) ("/"%char :: path) = match_route pattern path.
Proof. by rewrite match_route_cons. Qed.

Lemma bool_decide_slashed l : bool_decide (slashed l = []) = bool_decide (l = []).
Proof. by destruct l. Qed.

(** Route matching is matching by segments (equivalence): for every
    pattern made of literal segments, named parameters and stars and for
    every path, [match_route] answers as the segment-wise definition
    does; in particular a literal segment is never matched by a prefix,
    a parameter or star never crosses a slash, except that a star at the
    end of the pattern takes the rest of the path. *)
Theorem match_route_segments segs parts :
  Forall seg_wf segs → Forall part_ok parts →
  match_route (slashed (map render segs)) (slashed parts) = segs_match segs parts.
Proof.
  intros Hs. revert parts. induction Hs as [|g segs Hg Hs IH]; intros [|p parts] Hp.
  - done.
  - rewrite match_route_nil_l. unfold route_end. cbn. destruct p as [|c p], parts as [|q parts]; done.
  - rewrite match_route_nil_r. unfold route_end. destruct g as [[|c s]|n|]; try done. by destruct Hg.
  - apply Forall_cons in Hp as [Hp Hps]. specialize (IH parts Hps).
    change (slashed (map render (g :: segs))) with ("/"%char :: render g ++ slashed (map render segs)).
    change (slashed (p :: parts)) with ("/"%char :: p ++ slashed parts). rewrite match_route_slash.
    pose proof (slashed_first (map render segs)) as H1. pose proof (slashed_first parts) as H2.
    destruct g as [s|n|]; cbn [render segs_match].
    + rewrite match_literal; [by rewrite IH|apply Hg|done|done|done].
    + change ((":"%char :: n) ++ ?x) with (":"%char :: n ++ x). rewrite match_wild; [|by left|done|done|done|done].
      rewrite bool_decide_slashed, IH. by destruct (_ && _).
    + change (["*"%char] ++ ?x) with ("*"%char :: [] ++ x). rewrite match_wild; [|by right|done|done|done|done].
      rewrite !bool_decide_slashed, IH, orb_lazy_alt. destruct (_ && _); [done|]. by destruct segs.
Qed.

Definition policies_route : list seg := [Lit "api"; Lit "users"; Star; Lit "policies"].
Definition policies_path : list cstr := ["api" : cstr; "users" : cstr; "42" : cstr; "policies" : cstr; []].

Lemma match_route_segments_witness : match_route (slashed (map render policies_route)) (slashed policies_path) = true.
Proof.
  rewrite (match_route_segments policies_route policies_path).
  - vm_compute. reflexivity.
  - repeat apply Forall_cons_2; try (by split); constructor.
  - repeat apply Forall_cons_2; try (by vm_compute); constructor.
Defined.

(** A pattern without parameters and stars. *)
Lemma match_route_text pattern path :
  forallb (λ c, negb (char_in [":"%char; "*"%char] c)) pattern = true →
  match_route pattern path = true ↔ path = pattern ∨ path = pattern ++ ["/"%char] ∨ pattern = path ++ ["/"%char].
Proof.
  revert path. induction pattern as [|c pattern IH]; intros path Hp.
  { rewrite match_route_nil_l. unfold route_end. destruct path as [|d [|e path]]; simpl.
    - naive_solver.
    - destruct (Ascii.eqb_spec d "/") as [->|Hd]; simpl; naive_solver.
    - destruct (Ascii.eqb d "/"); simpl; split; intros; naive_solver. }
  cbn [forallb] in Hp. apply andb_true_iff in Hp as [Hc Hp]. unfold char_in in Hc. cbn [existsb] in Hc.
  apply negb_true_iff, orb_false_iff in Hc as [Hc1 [Hc2 _]%orb_false_iff].
  destruct path as [|d path].
  { rewrite match_route_nil_r. unfold route_end. simpl. destruct (Ascii.eqb_spec c "/") as [->|Hne]; simpl.
    - destruct pattern; naive_solver.
    - split; [done|]. intros [?|[?|?]]; simplify_eq. }
  rewrite match_route_cons, Hc1, Hc2. destruct (Ascii.eqb_spec c d) as [->|Hne]; cbn [negb].
  - rewrite IH by done. simpl. naive_solver.
  - split; [done|]. simpl. intros [?|[?|?]]; congruence.
Qed.

(* ================================================================== *)
(** ** Authentication *)

Section Authentication.
Context {S C : Type} `{Crypto, InsituReader, JsonReader, Sha256, !Sha256Laws, RsaKeys}.
Context (cx : sso_context S) (env : request_env).
Implicit Types (req : http_request_t) (s : sso_state S C).

Lemma dpop_ok_expected p m u j now k :
  dpop_verify_proof (e_alloc env) p m u (Some j) now = Ret (SSO_OK, k) → ∃ n e, j = thumbprint n e.
Proof.
  unfold dpop_verify_proof. destruct (negb _); [done|]. destruct (split_dot p) as [[h rest]|]; [|done].
  destruct (split_dot rest) as [[pl sg]|]; [|done]. intros (hb & _ & (pb & _ & E)%outcome_bind_inv)%outcome_bind_inv.
  destruct (yyjson_read (map chr hb)) as [hdr|]; [|done]. destruct (yyjson_read (map chr pb)); [|done].
  destruct (header_key _) as [[n e]|]; [|done]. exists n, e. destruct (negb (strcmp_eq j _)) eqn:Hj; [done|].
  by apply negb_false_iff, bool_decide_eq_true in Hj.
Qed.

Lemma split_dot_in (t h rest : cstr) : split_dot t = Some (h, rest) → "."%char ∈ t.
Proof.
  unfold split_dot. destruct (strchr t ".") as [i|] eqn:E; [|done]. intros _. unfold strchr in E.
  apply find_index_Some in E as (c & Hi & Hc & _). apply Ascii.eqb_eq in Hc as <-. by eapply list_elem_of_lookup_2.
Qed.

Lemma verify_has_dot alloc m t now tok : token_verify alloc m (Some t) now = Ret (SSO_OK, tok) → "."%char ∈ t.
Proof.
  simpl. unfold token_verify_internal. destruct (split_dot t) as [[h rest]|] eqn:E; [|done]. intros _.
  by eapply split_dot_in.
Qed.

(** A token bound to a key is never accepted: the proof is checked
    against the token itself in place of the thumbprint. *)
Lemma bound_rejected req tok s b s' :
  token_verify (e_alloc env) (ss_tokens s) (Some (rq_auth_token req)) (e_now env) = Ret (SSO_OK, tok) →
  proof_of_possession env req tok s = Ret (b, s') → s' = s ∧ b = bool_decide (tk_jkt tok = []).
Proof.
  intros Hv%verify_has_dot. unfold proof_of_possession. destruct (tk_jkt tok) as [|c j]; [by intros [= <- <-]|].
  destruct (rq_dpop_proof req) as [|d p] eqn:Ep; [by intros [= <- <-]|].
  intros ([e k] & s1 & Hd & Hr)%handler_bind_inv. unfold dpop_verify, lift in Hd.
  apply outcome_bind_inv in Hd as ([e' k'] & Hd & Hr1). injection Hr1 as -> -> <-. injection Hr as <- <-.
  split; [done|]. destruct (is_ok e) eqn:He; [|done]. apply is_ok_true in He as ->.
  destruct (dpop_ok_expected _ _ _ _ _ _ Hd) as (n & x & Heq). rewrite Heq in Hv. by destruct (thumbprint_no_dot n x).
Qed.

(** What acceptance of a request means. *)
Record accepted req s (a : auth_context_t) s' : Prop := {
  acc_token : rq_auth_token req ≠ [];
  acc_verified : token_verify (e_alloc env) (ss_tokens s) (Some (rq_auth_token req)) (e_now env) = Ret (SSO_OK, ac_token a);
  acc_unbound : tk_jkt (ac_token a) = [];
  acc_store : ∃ t st w,
    token_is_revoked (cx_backend cx) (Some (tk_jti (ac_token a))) (tables (ss_tokens s)) (w_store (ss_world s)) =
      Ret (false, t, st) ∧
    user_get_by_id cx (tk_user_id (ac_token a)) (ss_world (set_tables t st s)) = Ret (Ok (ac_user a), w) ∧
    token_get_nonce t (u_id (ac_user a)) ≤ tk_nonce (ac_token a) ∧ s' = set_world w (set_tables t st s)
}.

Lemma authenticate_inv req s a s' : authenticate_request cx env req s = Ret (Ok a, s') → accepted req s a s'.
Proof.
  unfold authenticate_request. destruct (rq_auth_token req) as [|c l] eqn:Et; [done|]. rewrite <- Et.
  intros ([err tok] & s1 & Hv & Hr)%handler_bind_inv. unfold verify_token in Hv.
  apply outcome_bind_inv in Hv as (x & Hv & Hx). injection Hx as -> <-. destruct (is_ok err) eqn:He; [|done].
  apply is_ok_true in He as ->. cbn [negb] in Hr. apply handler_bind_inv in Hr as (rv & s2 & Hrv & Hr).
  unfold is_revoked in Hrv. apply outcome_bind_inv in Hrv as ([[b t] st] & Hrv & Hx). injection Hx as -> <-.
  destruct rv; [done|]. apply handler_bind_inv in Hr as (pop & s3 & Hp & Hr). apply bound_rejected in Hp as [-> ->].
  2: { destruct s. exact Hv. }
  case_bool_decide as Hj; [|done]. cbn [negb] in Hr. apply handler_bind_inv in Hr as (u & s4 & Hu & Hr).
  unfold on_world in Hu. apply outcome_bind_inv in Hu as ([r w] & Hu & Hx). injection Hx as -> <-.
  destruct u as [user|]; [|done]. apply handler_bind_inv in Hr as (n & s5 & Hn & Hr). injection Hn as <- <-.
  destruct (_ <? _) eqn:Hlt; [done|]. injection Hr as <- <-. reflect_bools. split; simpl; [by rewrite Et|done|done|].
  exists t, st, w. split_and!; [done|done|simpl in *; lia|done].
Qed.

Lemma authenticate_intro req s a s' : accepted req s a s' → authenticate_request cx env req s = Ret (Ok a, s').
Proof.
  intros [Ht Hv Hj (t & st & w & Hrev & Hu & Hn & ->)]. unfold authenticate_request.
  destruct (rq_auth_token req) as [|c l] eqn:Et; [done|]. rewrite <- Et in *.
  assert (H1' : verify_token env (rq_auth_token req) s = Ret ((SSO_OK, ac_token a), s)) by (unfold verify_token; by rewrite Hv).
  assert (H2' : is_revoked cx (tk_jti (ac_token a)) s = Ret (false, set_tables t st s)) by (unfold is_revoked; by rewrite Hrev).
  assert (H3' : proof_of_possession env req (ac_token a) (set_tables t st s) = Ret (true, set_tables t st s))
    by (unfold proof_of_possession; by rewrite Hj).
  assert (H4' : on_world (user_get_by_id cx (tk_user_id (ac_token a))) (set_tables t st s) =
                  Ret (Ok (ac_user a), set_world w (set_tables t st s))) by (unfold on_world; by rewrite Hu).
  rewrite (handler_bind_Ret _ _ _ _ _ H1'). change (negb (is_ok SSO_OK)) with false. cbv iota.
  rewrite (handler_bind_Ret _ _ _ _ _ H2'). cbv iota. rewrite (handler_bind_Ret _ _ _ _ _ H3'). cbn [negb].
  rewrite (handler_bind_Ret _ _ _ _ _ H4'). rewrite (handler_bind_Ret _ _ _ _ _ (eq_refl : get_nonce _ _ = _)).
  cbn. destruct (Z.ltb_spec (tk_nonce (ac_token a)) (token_get_nonce t (u_id (ac_user a)))); [lia|]. by destruct a.
Qed.

End Authentication.
