(* ===== verification/AuthHandlers.v ===== *)
(** * The authentication endpoints (src/handlers_auth.c)

    Every handler of /api/v1/auth but the WebAuthn ones and the
    certificate export.  They all return SSO_OK, so a handler is the
    response it leaves.  Spans and counters of the telemetry are left
    out. *)

From S2P Require Import Prelude CLib CNum Json Types Storage StorageMemory PermCache Context UserMgr RoleMgr RateLimit Mfa Bits Base64 TokenState Token TokenScan TokenJwt Printf PermEngine AuditLog Dpop Risk Http.

(** One response header. *)
Definition header (k : string) (v : cstr) : cstr := list_ascii_of_string k ++ ":"%char :: " "%char :: v ++ CRLF.

Definition EXTRA_HEADERS : nat := 32 * 1024.
Definition BODY_SIZE : nat := 32 * 1024.

(** libcurl and the settings of the SMS gateway: can a handle be made,
    the address and the key, and the status a request ends with ([None]
    when it is not performed). *)
Class Curl := {
  curl_ready : bool; sms_gateway_url : option cstr; sms_api_key : option cstr;
  curl_post : cstr → cstr → option Z
}.

Definition send_real_sms `{Curl} (phone code : cstr) : sso_error_t :=
  if negb curl_ready then SSO_ERR_CURL
  else
    match sms_gateway_url with
    | None => SSO_OK
    | Some url =>
        let post_data := snprintf 512 (object [member "phone" (quoted_text phone); member "code" (quoted_text code);
                                               member "api_key" (quoted_text (default [] sms_api_key))]) in
        match curl_post url post_data with
        | None => SSO_ERR_CURL
        | Some http_code => if (200 <=? http_code) && (http_code <? 300) then SSO_OK else SSO_ERR_CURL
        end
    end.

Section Handlers.
Context {S C : Type} `{Crypto, InsituReader, JsonReader, JsonWriter, Interner, Sha256, RsaKeys, Pwhash, Hmac, Curl}.
Context (cx : sso_context S) (umgr : user_manager) (env : request_env).
Notation handler := (handler S C).
Notation now := (e_now env).
Implicit Types (req : http_request_t) (resp : http_response_t).

Definition fail resp (status : Z) (message : string) : handler http_response_t :=
  mret (sso_response_error env status (list_ascii_of_string message) resp).

(** [token_issue] by the token manager of the context: the n-th token of
    the request. *)
Definition issue (n : nat) (user_id : Z) (roles groups : list Z) (scope : option cstr) (ttl : Z) (jkt : option cstr)
  : handler (sso_error_t * token_t) := λ s,
  r ← token_issue (e_alloc env) (ss_tokens s) user_id roles groups scope ttl jkt now
        (e_token_random env n).1 (e_token_random env n).2;
  Ret (r, s).

Definition evaluate_risk req (user_id : Z) : handler Z := λ s,
  '(score, r) ← risk_evaluate_login user_id (Some (rq_client_ip req)) (Some (rq_user_agent req)) now (ss_risk s);
  Ret (score, set_risk r s).
Definition risk_failed req (user_id : Z) : handler unit :=
  on_risk (risk_record_login_attempt user_id (Some (rq_client_ip req)) false now).
Definition risk_succeeded req (user_id : Z) : handler unit :=
  on_risk (λ r, Ret (risk_record_login_success_with_ua user_id (Some (rq_client_ip req)) (Some (rq_user_agent req)) now r)).

(** The ids written into an array of 16, none on an error. *)
Definition ids_or_none (r : result (list Z)) : list Z := match r with Ok l => l | Err _ => [] end.
Definition roles_of (user_id : Z) : handler (list Z) :=
  r ← on_world (user_get_roles cx user_id 16); mret (ids_or_none r).
Definition groups_of (user_id : Z) : handler (list Z) :=
  r ← on_world (user_get_groups cx user_id 16); mret (ids_or_none r).

Definition session_body (expires_at : Z) (user : user_t) : cstr :=
  snprintf BODY_SIZE (object [member "expires_in" (print_lld expires_at); member "user_id" (print_llu (u_id user));
    member "username" (quoted_text (u_username user)); member "display_name" (quoted_text (u_display_name user))]).

(** The proof a login request may carry: [None] when it does not hold,
    otherwise the thumbprint, empty without a proof. *)
Definition login_jkt req : handler (option cstr) :=
  match rq_dpop_proof req with
  | [] => mret (Some [])
  | _ => '(e, jkt) ← dpop_verify env req None; mret (if is_ok e then Some jkt else None)
  end.

(** The tail of [handle_login] for a user who has to give a second
    factor. *)
Definition login_mfa resp (user : user_t) : handler http_response_t :=
  '(_, mfa_token) ← issue 0 (u_id user) [] [] (Some ("mfa" : cstr)) 300000 None;
  if negb (e_arena env (Z.of_nat BODY_SIZE)) then fail resp 500 "Out of memory"
  else mret (sso_response_ok env (snprintf BODY_SIZE
         (object [member "mfa_required" "true"; member "mfa_token" (quoted_text (token_str mfa_token))])) resp).

(** ... and for one who is logged in. *)
Definition login_tokens resp (user : user_t) (roles groups : list Z) (jkt : cstr) : handler http_response_t :=
  '(err, access_token) ← issue 0 (u_id user) roles groups None 900000 (Some jkt);
  if negb (is_ok err) then fail resp 500 "Failed to issue access token"
  else
    '(err, refresh_token) ← issue 1 (u_id user) roles groups None 604800000 (Some jkt);
    if negb (is_ok err) then fail resp 500 "Failed to issue refresh token"
    else
      let resp := set_headers (snprintf EXTRA_HEADERS
        (header "Set-Cookie" (("sso_token=" : cstr) ++ token_str access_token ++ ("; Path=/; HttpOnly; SameSite=Lax" : cstr)) ++
         header "X-SSO-Access-Token" (token_str access_token) ++
         header "X-SSO-Refresh-Token" (token_str refresh_token))) resp in
      if negb (e_arena env (Z.of_nat BODY_SIZE)) then fail resp 500 "Out of memory"
      else
        _ ← register_session cx env (u_id user) (tk_jti access_token);
        mret (sso_response_ok env (session_body (tk_expires_at access_token) user) resp).

Definition handle_login req resp : handler http_response_t :=
  b ← has_body;
  if negb b then fail resp 400 "Request body required"
  else
    ok ← limit env (rq_client_ip req) 60000 5;
    if negb ok then fail resp 429 "Too many login attempts. Please wait."
    else
      username ← req_json_str_value "username";
      password ← req_json_str_value "password";
      if bool_decide (username = None) || bool_decide (password = None)
      then fail resp 400 "username and password required"
      else
        r ← on_world (user_authenticate cx umgr now username password);
        match r with
        | Err _ => _ ← risk_failed req 0; fail resp 401 "Invalid credentials"
        | Ok user =>
            risk_score ← evaluate_risk req (u_id user);
            if RISK_SCORE_HIGH <=? risk_score then
              _ ← risk_failed req (u_id user); fail resp 401 "High risk login blocked"
            else if (RISK_SCORE_MEDIUM <=? risk_score) && (u_mfa_enabled user =? 0) then
              _ ← risk_failed req (u_id user);
              fail resp 401 "Medium risk login requires MFA, but MFA is not configured. Access blocked."
            else
              jkt ← login_jkt req;
              match jkt with
              | None => fail resp 401 "Invalid DPoP Proof"
              | Some dpop_jkt =>
                  _ ← limit_reset (rq_client_ip req);
                  _ ← risk_succeeded req (u_id user);
                  roles ← roles_of (u_id user);
                  groups ← groups_of (u_id user);
                  if negb (u_mfa_enabled user =? 0) || (RISK_SCORE_MEDIUM <=? risk_score)
                  then login_mfa resp user
                  else login_tokens resp user roles groups dpop_jkt
              end
        end.

(* ------------------------------------------------------------------ *)
(** ** Second factor *)

Definition handle_mfa_setup req resp : handler http_response_t :=
  match rq_userdata req with
  | None => fail resp 401 "Authentication required"
  | Some _ =>
      let secret := mfa_generate_secret (e_secret_random env) 64 in
      mret (sso_response_ok env (snprintf 128 (object [member "secret" (quoted_text secret)])) resp)
  end.

Definition with_mfa (user : user_t) (secret : cstr) : user_t :=
  {| u_id := u_id user; u_username := u_username user; u_phone := u_phone user; u_password_hash := u_password_hash user;
     u_email := u_email user; u_display_name := u_display_name user; u_status := u_status user;
     u_created_at := u_created_at user; u_updated_at := u_updated_at user; u_attributes := u_attributes user;
     u_mfa_enabled := 1; u_mfa_secret := sso_strlcpy (Some secret) 64; u_password_set_at := u_password_set_at user |}.

Definition handle_mfa_enable req resp : handler http_response_t :=
  match rq_userdata req with
  | None => fail resp 401 "Authentication required"
  | Some auth =>
      b ← has_body;
      if negb b then fail resp 400 "Request body required"
      else
        secret ← req_json_str_value "secret";
        code ← req_json_str_value "code";
        match secret, code with
        | Some secret, Some code =>
            if negb (mfa_verify_totp (Some secret) (Some code) (time_s now)) then fail resp 400 "Invalid TOTP code"
            else
              r ← on_world (user_update cx now (with_mfa (ac_user auth) secret));
              match r with
              | Err _ => fail resp 500 "Failed to update user"
              | Ok _ => mret (sso_response_ok env (object [member "enabled" "true"]) resp)
              end
        | _, _ => fail resp 400 "secret and code required"
        end
  end.

(** An access and a refresh token, in this order, the second one only
    after the first. *)
Definition issue_pair (user_id : Z) (roles groups : list Z) : handler (sso_error_t * token_t * token_t) :=
  '(err, access_token) ← issue 0 user_id roles groups None 900000 None;
  if negb (is_ok err) then mret (err, access_token, zero_token)
  else
    '(err, refresh_token) ← issue 1 user_id roles groups None 604800000 None;
    mret (err, access_token, refresh_token).

Definition pair_headers (access_token refresh_token : token_t) : cstr :=
  snprintf EXTRA_HEADERS (header "X-SSO-Access-Token" (token_str access_token) ++
                          header "X-SSO-Refresh-Token" (token_str refresh_token)).

Definition handle_mfa_verify req resp : handler http_response_t :=
  b ← has_body;
  if negb b then fail resp 400 "Request body required"
  else
    mfa_token_str ← req_json_str_value "mfa_token";
    code ← req_json_str_value "code";
    match mfa_token_str, code with
    | Some mfa_token_str, Some code =>
        '(err, mfa_token) ← verify_token env mfa_token_str;
        if negb (is_ok err) then fail resp 401 "Invalid or expired MFA token"
        else
          u ← on_world (user_get_by_id cx (tk_user_id mfa_token));
          match u with
          | Err _ => fail resp 401 "User not found"
          | Ok user =>
              if negb (mfa_verify_totp (Some (u_mfa_secret user)) (Some code) (time_s now))
              then fail resp 401 "Invalid TOTP code"
              else
                roles ← roles_of (u_id user);
                groups ← groups_of (u_id user);
                '(err, access_token, refresh_token) ← issue_pair (u_id user) roles groups;
                if negb (is_ok err) then fail resp 500 "Failed to issue final tokens"
                else
                  let resp := set_headers (pair_headers access_token refresh_token) resp in
                  if negb (e_arena env (Z.of_nat BODY_SIZE)) then fail resp 500 "Out of memory"
                  else mret (sso_response_ok env (session_body (tk_expires_at access_token) user) resp)
          end
    | _, _ => fail resp 400 "mfa_token and code required"
    end.

(* ------------------------------------------------------------------ *)
(** ** Text messages *)

(** [snprintf(code, 8, "%06d", rand() % 1000000)] *)
Definition sms_code (r : Z) : cstr := snprintf 8 (zero_pad 6 (print_dec (r mod 1000000))).

Definition handle_send_sms req resp : handler http_response_t :=
  b ← has_body;
  if negb b then fail resp 400 "Request body required"
  else
    phone ← req_json_str_value "phone";
    match phone with
    | None => fail resp 400 "phone required"
    | Some phone =>
        ok ← limit env (rq_client_ip req) 60000 1;
        if negb ok then fail resp 429 "Too many SMS requests. Please wait 1 minute."
        else
          let code := sms_code (e_rand env) in
          r ← match cx_backend cx ≫= sb_save_sms_code with
              | None => mret (Err SSO_ERR_NOT_IMPLEMENTED)
              | Some f => on_store (f phone code (now + 300000))
              end;
          if negb (is_ok (err_of r)) then fail resp 500 "Failed to generate SMS code"
          else if negb (is_ok (send_real_sms phone code)) then fail resp 500 "SMS gateway error"
          else mret (sso_response_ok env (object [member "status" (quoted_text "sent")]) resp)
    end.

(** The user of a phone number, registered when there is none. *)
Definition user_of_phone (phone : cstr) : handler (result user_t) :=
  u ← on_world (user_get_by_phone cx (Some phone));
  match u with
  | Err SSO_ERR_NOT_FOUND => on_world (user_create_by_phone cx now (Some phone))
  | _ => mret u
  end.

Definition sms_body (token : token_t) (user : user_t) : cstr :=
  snprintf BODY_SIZE (object [member "token" (quoted_text (token_str token)); member "user_id" (print_llu (u_id user));
    member "username" (quoted_text (u_username user)); member "phone" (quoted_text (u_phone user))]).

(** When a field is missing the error is under an [if] that cannot hold,
    and the response stays as it is. *)
Definition handle_login_by_sms req resp : handler http_response_t :=
  b ← has_body;
  if negb b then fail resp 400 "Request body required"
  else
    ok ← limit env (rq_client_ip req) 60000 5;
    if negb ok then fail resp 429 "Too many SMS login attempts. Please wait."
    else
      phone ← req_json_str_value "phone";
      code ← req_json_str_value "code";
      match phone, code with
      | Some phone, Some code =>
          ok ← limit env (snprintf 128 (("sms_login:" : cstr) ++ phone)) 60000 3;
          if negb ok then fail resp 429 "Too many attempts for this phone number. Please wait."
          else
            match cx_backend cx ≫= sb_get_sms_code, cx_backend cx ≫= sb_delete_sms_code with
            | Some get, Some delete =>
                expected ← on_store (get phone);
                if match expected with Ok e => negb (strcmp_eq code e) | Err _ => true end
                then fail resp 401 "Invalid or expired verification code"
                else
                  _ ← on_store (delete phone);
                  u ← user_of_phone phone;
                  match u with
                  | Err _ => fail resp 403 "Account disabled or error"
                  | Ok user =>
                      if negb (bool_decide (u_status user = USER_STATUS_ACTIVE))
                      then fail resp 403 "Account disabled or error"
                      else
                        roles ← roles_of (u_id user);
                        groups ← groups_of (u_id user);
                        '(err, token) ← issue 0 (u_id user) roles groups None 3600000 None;
                        if negb (is_ok err) then fail resp 500 "Failed to issue token"
                        else if negb (e_arena env (Z.of_nat BODY_SIZE)) then fail resp 500 "Out of memory"
                        else mret (sso_response_ok env (sms_body token user) resp)
                  end
            | _, _ => fail resp 500 "SMS feature not enabled in storage backend"
            end
      | _, _ => mret resp
      end.

(* ------------------------------------------------------------------ *)
(** ** Registration *)

(** The role every new user gets; failures are ignored. *)
Definition assign_default_role (user_id : Z) : handler unit :=
  r ← on_world (role_get_by_name cx (Some ("user" : cstr)));
  match r with
  | Ok role => _ ← on_world (role_assign_to_user cx (r_id role) user_id); mret ()
  | Err _ =>
      c ← on_world (role_create cx now (Some ("user" : cstr)) (Some ("Regular member" : cstr)) SSO_ID_NONE);
      match c with
      | Ok role => _ ← on_world (role_assign_to_user cx (r_id role) user_id); mret ()
      | Err _ => mret ()
      end
  end.

Definition handle_register req resp : handler http_response_t :=
  b ← has_body;
  if negb b then fail resp 400 "Request body required"
  else
    username ← req_json_str_value "username";
    password ← req_json_str_value "password";
    email ← req_json_str_value "email";
    display ← req_json_str_value "display_name";
    match username, password with
    | Some username, Some password =>
        match validate_password (Some password) None with
        | Some pw_err => mret (sso_response_error env 400 pw_err resp)
        | None =>
            r ← on_world (user_create cx umgr now (Some username) (Some password) (Some (default [] email))
                            (Some (default username display)));
            match r with
            | Ok user =>
                _ ← assign_default_role (u_id user);
                mret (sso_response_ok env (snprintf 512 (object [member "user_id" (print_llu (u_id user));
                  member "username" (quoted_text (u_username user)); member "created" "true"])) resp)
            | Err SSO_ERR_ALREADY_EXISTS => fail resp 409 "Username already exists"
            | Err _ => fail resp 500 "Failed to create user"
            end
        end
    | _, _ => fail resp 400 "username and password required"
    end.

(* ------------------------------------------------------------------ *)
(** ** Checking and refreshing tokens *)

(** The token in the body, else the bearer token. *)
Definition token_to_verify req : handler (option cstr) :=
  b ← has_body;
  t ← (if b : bool then req_json_str_value "token" else mret None);
  match t, rq_auth_token req with
  | Some t, _ => mret (Some t)
  | None, [] => mret None
  | None, t => mret (Some t)
  end.

(** The renewal of a token past half of its life: the header with the new
    token.  Subtractions are on signed 64-bit integers. *)
Definition rotation_header (user : user_t) (tok : token_t) : handler cstr :=
  let ttl := tk_expires_at tok - tk_issued_at tok in
  let age := now - tk_issued_at tok in
  if negb (s64 ttl =? ttl) then λ _, Crash
  else if (0 <? ttl) && (tk_issued_at tok <=? now) then
    if negb (s64 age =? age) then λ _, Crash
    else if Z.quot ttl 2 <? age then
      '(err, new_tok) ← issue 0 (u_id user) (tk_role_ids tok) (tk_group_ids tok) (Some (tk_scope tok)) ttl None;
      mret (if is_ok err then snprintf (8 * 1024 + 128) (header "X-SSO-Access-Token" (token_str new_tok)) else [])
    else mret []
  else mret [].

Definition verify_body (user : user_t) (tok : token_t) : cstr :=
  snprintf BODY_SIZE (object [member "valid" "true"; member "user_id" (print_llu (u_id user));
    member "username" (quoted_text (u_username user)); member "email" (quoted_text (u_email user));
    member "display_name" (quoted_text (u_display_name user)); member "expires_at" (print_lld (tk_expires_at tok))]).

(** The proof of possession as this endpoint checks it: the message of
    the refusal. *)
Definition verify_proof req (tok : token_t) : handler (option string) :=
  match tk_jkt tok with
  | [] => mret None
  | _ =>
      match rq_dpop_proof req with
      | [] => mret (Some "DPoP Proof Required")
      | _ => '(e, _) ← dpop_verify env req (Some (tk_jkt tok));
             mret (if is_ok e then None else Some "Invalid DPoP Proof")
      end
  end%string.

Definition handle_verify req resp : handler http_response_t :=
  token_str ← token_to_verify req;
  match token_str with
  | None => fail resp 401 "Token required"
  | Some str =>
      '(err, tok) ← verify_token env str;
      if negb (is_ok err) then mret (sso_response_error env 401 (sso_strerror err) resp)
      else
        revoked ← is_revoked cx (tk_jti tok);
        if revoked : bool then fail resp 401 "Token revoked"
        else
          refusal ← verify_proof req tok;
          match refusal with
          | Some msg => fail resp 401 msg
          | None =>
              u ← on_world (user_get_by_id cx (tk_user_id tok));
              match u with
              | Err _ => fail resp 401 "User not found"
              | Ok user =>
                  rotation ← rotation_header user tok;
                  let resp := set_headers (snprintf EXTRA_HEADERS
                    (header "X-SSO-User" (u_username user) ++ header "X-SSO-Email" (u_email user) ++ rotation)) resp in
                  if negb (e_arena env (Z.of_nat BODY_SIZE)) then fail resp 500 "Out of memory"
                  else mret (sso_response_ok env (verify_body user tok) resp)
              end
          end
  end.

Definition handle_refresh req resp : handler http_response_t :=
  b ← has_body;
  if negb b then fail resp 400 "Request body required"
  else
    refresh_token_str ← req_json_str_value "refresh_token";
    match refresh_token_str with
    | None => fail resp 400 "refresh_token required"
    | Some str =>
        '(err, old_token) ← verify_token env str;
        if negb (is_ok err) then
          fail resp 401 (if bool_decide (err = SSO_ERR_TOKEN_EXPIRED) then "Refresh token expired" else "Invalid refresh token")
        else
          revoked ← is_revoked cx (tk_jti old_token);
          if revoked : bool then fail resp 401 "Refresh token revoked"
          else
            u ← on_world (user_get_by_id cx (tk_user_id old_token));
            match u with
            | Err _ => fail resp 401 "User not found"
            | Ok user =>
                '(err, access_token, refresh_token) ← issue_pair (u_id user) (tk_role_ids old_token) (tk_group_ids old_token);
                if negb (is_ok err) then fail resp 500 "Failed to issue tokens"
                else
                  let resp := set_headers (pair_headers access_token refresh_token) resp in
                  if negb (e_arena env (Z.of_nat BODY_SIZE)) then fail resp 500 "Out of memory"
                  else mret (sso_response_ok env (object [member "status" (quoted_text "refreshed")]) resp)
            end
    end.

(* ------------------------------------------------------------------ *)
(** ** Sessions and the account *)

Definition handle_logout req resp : handler http_response_t :=
  match rq_userdata req with
  | None => fail resp 401 "Authentication required"
  | Some auth =>
      e ← revoke_jti cx env (tk_jti (ac_token auth)) (tk_expires_at (ac_token auth));
      if negb (is_ok e) then fail resp 500 "Failed to revoke token"
      else mret (sso_response_ok env (object [member "logged_out" "true"]) resp)
  end.

Definition handle_logout_all req resp : handler http_response_t :=
  match rq_userdata req with
  | None => fail resp 401 "Authentication required"
  | Some auth =>
      e ← bump_nonce env (u_id (ac_user auth));
      if negb (is_ok e) then fail resp 500 "Failed to revoke all sessions"
      else mret (sso_response_ok env (object [member "logged_out_all" "true"]) resp)
  end.

(** The error of a missing password is again under an [if] that skips
    it. *)
Definition handle_change_password req resp : handler http_response_t :=
  match rq_userdata req with
  | None => fail resp 401 "Authentication required"
  | Some auth =>
      b ← has_body;
      if negb b then fail resp 400 "Request body required"
      else
        new_pass ← req_json_str_value "password";
        match validate_password new_pass None, new_pass with
        | Some pw_err, Some _ => mret (sso_response_error env 400 pw_err resp)
        | Some _, None => mret resp
        | None, _ =>
            r ← on_world (user_set_password cx umgr now (u_id (ac_user auth)) new_pass);
            match r with
            | Err _ => fail resp 500 "Failed to update password"
            | Ok _ => mret (sso_response_ok env (object [member "updated" "true"]) resp)
            end
        end
  end.

Definition handle_me req resp : handler http_response_t :=
  match rq_userdata req with
  | None => fail resp 401 "Authentication required"
  | Some auth =>
      let user := ac_user auth in
      let resp := set_headers (snprintf EXTRA_HEADERS (header "X-SSO-User" (u_username user))) resp in
      mret (sso_response_ok env (snprintf 4096 (object [member "id" (print_llu (u_id user));
        member "username" (quoted_text (u_username user)); member "email" (quoted_text (u_email user));
        member "display_name" (quoted_text (u_display_name user));
        member "token_jti" (quoted_text (tk_jti (ac_token auth)))])) resp)
  end.

Definition handle_session_check req resp : handler http_response_t :=
  match rq_auth_token req with
  | [] => fail resp 401 "No token"
  | str =>
      '(err, tok) ← verify_token env str;
      if negb (is_ok err) then mret (sso_response_error env 401 (sso_strerror err) resp)
      else
        revoked ← is_revoked cx (tk_jti tok);
        if revoked : bool then fail resp 401 "Token revoked"
        else
          u ← on_world (user_get_by_id cx (tk_user_id tok));
          match u with
          | Ok user =>
              if negb (bool_decide (u_status user = USER_STATUS_ACTIVE)) then fail resp 401 "User not found or inactive"
              else
                let resp := set_headers (snprintf EXTRA_HEADERS (header "X-SSO-User" (u_username user) ++
                  header "X-SSO-Email" (u_email user) ++ header "X-SSO-User-Id" (print_llu (u_id user)))) resp in
                mret (sso_response_ok env (snprintf 512 (object [member "active" "true";
                  member "user_id" (print_llu (u_id user)); member "username" (quoted_text (u_username user));
                  member "email" (quoted_text (u_email user))])) resp)
          | Err _ => fail resp 401 "User not found or inactive"
          end
  end.

End Handlers.
