(* ===== verification/Oauth.v ===== *)
(** * The OAuth 2.0 and OpenID Connect endpoints (src/oauth.c)

    Authorization with PKCE, the three grants of the token endpoint,
    introspection, revocation, discovery, the key set, user information
    and the end of a session. *)

From S2P Require Import Prelude CLib CNum Json Types Storage StorageMemory PermCache Context UserMgr RoleMgr RateLimit Mfa Bits Base64 TokenState Token TokenScan TokenJwt Printf PermEngine AuditLog Dpop Risk Http AuthHandlers.

Definition SSO_REFRESH_TOKEN_TTL : Z := 2592000000.

(** What the endpoints read of the configuration. *)
Record oauth_config := {
  cf_client_id : cstr; cf_client_secret : cstr; cf_redirect_uris : cstr; cf_issuer : cstr;
  cf_auth_code_ttl_ms : Z; cf_token_ttl_ms : Z
}.

(** OpenSSL: modulus and exponent of a public key. *)
Class RsaParams `{Crypto} := rsa_params : pkey → option (list Z * list Z).

(** Two hexadecimal digits per byte. *)
Definition hex_of (l : list Z) : cstr := concat (map (λ b, zero_pad 2 (print_hex b)) l).

Definition gen_auth_code (raw : list Z) : cstr := hex_of raw.

Definition trim_spaces (s : cstr) : cstr :=
  rev (skip_while (Ascii.eqb " ") (rev (skip_while (Ascii.eqb " ") s))).

Definition is_redirect_uri_allowed (allowed_uris redirect_uri : cstr) : bool :=
  existsb (λ tok, strcmp_eq (trim_spaces tok) redirect_uri) (strtok_all "," (sso_strlcpy (Some allowed_uris) 512)).

(** The last value of a query parameter, as [handle_oauth_authorize]
    collects them, and the first one, as [get_query_param] does. *)
Definition param_value (k param : cstr) : option cstr :=
  match strchr param "=" with
  | Some i => if bool_decide (take i param = k) then Some (drop (S i) param) else None
  | None => None
  end.
Definition last_param (k : cstr) (l : list cstr) : option cstr :=
  fold_left (λ acc p, match param_value k p with Some v => Some v | None => acc end) l None.
Definition get_query_param (req : http_request_t) (k : cstr) : option cstr :=
  head (omap (param_value k) (default [] (rq_query_params req))).

Section Pkce.
Context `{Sha256}.

(** [method] is an array of the code's record, so it is never NULL. *)
Definition verify_pkce (code_verifier : option cstr) (challenge method : cstr) : bool :=
  match challenge with
  | [] => true
  | _ =>
      match code_verifier with
      | None => false
      | Some v =>
          if (length v <? 43)%nat || (128 <? length v)%nat then false
          else if strcmp_eq method "plain" then strcmp_eq v challenge
          else if strcmp_eq method "S256" then strcmp_eq (base64url_encode (sha256 (bytes_of v)) 128) challenge
          else false
      end
  end.

(** The name a refresh token is stored under. *)
Definition refresh_hash (raw : cstr) : cstr := hex_of (sha256 (bytes_of raw)).
End Pkce.

Section Oauth.
Context {S C : Type} `{Crypto, !RsaParams, InsituReader, JsonReader, JsonWriter, Interner, Sha256, RsaKeys, Pwhash}.
Context (cx : sso_context S) (cfg : option oauth_config) (env : request_env).
Notation handler := (handler S C).
Notation now := (e_now env).
Implicit Types (req : http_request_t) (resp : http_response_t).

Definition json_error_response (status : Z) (error : string) resp : http_response_t :=
  {| rs_status_code := status;
     rs_body := strdup (e_alloc env) (snprintf 512 (object [member "error" (quoted_text (list_ascii_of_string error))]));
     rs_content_type := "application/json"; rs_extra_headers := rs_extra_headers resp;
     rs_cors_origin := rs_cors_origin resp |}.
Definition refuse resp (status : Z) (error : string) : handler http_response_t :=
  mret (json_error_response status error resp).

(** An operation of the backend, if it has it. *)
Definition backend {F A} (sel : storage_backend S → option F) (k : F → storage_op S A) : handler (option (result A)) :=
  match cx_backend cx ≫= sel with
  | None => mret None
  | Some f => r ← on_store (k f); mret (Some r)
  end.

Definition store_refresh_token (user_id : Z) (client_id raw : cstr) : handler unit :=
  _ ← backend sb_refresh_token_create (λ f, f
        {| rt_token_hash := refresh_hash raw; rt_user_id := user_id; rt_client_id := sso_strlcpy (Some client_id) 64;
           rt_expires_at := now + SSO_REFRESH_TOKEN_TTL; rt_issued_at := now; rt_revoked := 0 |});
  mret ().

(** Is this the client of the configuration? *)
Definition is_config_client (client_id : cstr) : bool :=
  match cfg with
  | Some c => match cf_client_id c with [] => false | i => strcmp_eq client_id i end
  | None => false
  end.

Definition get_client_token_ttl (client_id : cstr) : handler Z :=
  if is_config_client client_id then
    let t := default 0 (cf_token_ttl_ms <$> cfg) in
    mret (if 0 <? t then t else 3600000)
  else
    r ← backend sb_oauth_client_get (λ f, f client_id);
    mret match r with
         | Some (Ok client) => if 0 <? cl_token_ttl_ms client then cl_token_ttl_ms client else 3600000
         | _ => 3600000
         end.

(* ------------------------------------------------------------------ *)
(** ** Authorization *)

(** The redirect addresses of a client that may ask for a code; [None]
    when the client is unknown or not active. *)
Definition client_redirects (client_id : cstr) : handler (option cstr) :=
  if is_config_client client_id then mret (cf_redirect_uris <$> cfg)
  else
    r ← backend sb_oauth_client_get (λ f, f client_id);
    mret match r with
         | Some (Ok client) => if cl_status client =? 1 then Some (cl_redirect_uris client) else None
         | _ => None
         end.

Definition new_code (cf : oauth_config) (client_id redirect_uri : cstr) (scope nonce challenge method : option cstr)
    (user_id : Z) : oauth_auth_code_t :=
  {| oc_code := gen_auth_code (e_code_random env); oc_client_id := sso_strlcpy (Some client_id) 64; oc_user_id := user_id;
     oc_redirect_uri := sso_strlcpy (Some redirect_uri) 512; oc_scope := sso_strlcpy scope 256;
     oc_nonce := sso_strlcpy nonce 128; oc_code_challenge := sso_strlcpy challenge 256;
     oc_code_challenge_method := match method, challenge with
                                 | Some m, _ => sso_strlcpy (Some m) 16
                                 | None, Some _ => "plain"
                                 | None, None => []
                                 end;
     oc_expires_at := now + (if 0 <? cf_auth_code_ttl_ms cf then cf_auth_code_ttl_ms cf else 60000); oc_used := 0 |}.

Definition redirect_response (location : cstr) resp : http_response_t :=
  {| rs_status_code := 302; rs_body := strdup (e_alloc env) location; rs_content_type := "text/plain";
     rs_extra_headers := snprintf EXTRA_HEADERS (header "Location" location); rs_cors_origin := rs_cors_origin resp |}.

(** The methods a challenge may name. *)
Definition method_known (method : option cstr) : bool :=
  match method with None => true | Some m => strcmp_eq m "S256" || strcmp_eq m "plain" end.

Definition handle_oauth_authorize req resp : handler http_response_t :=
  match cfg with
  | None => refuse resp 400 "oauth_not_configured"
  | Some cf =>
      if bool_decide (cf_client_id cf = []) then refuse resp 400 "oauth_not_configured"
      else
        let params := default [] (rq_query_params req) in
        let state := last_param "state" params in
        let challenge := last_param "code_challenge" params in
        let method := last_param "code_challenge_method" params in
        match last_param "client_id" params, last_param "redirect_uri" params, last_param "response_type" params with
        | Some client_id, Some redirect_uri, Some response_type =>
            if negb (method_known method) then refuse resp 400 "invalid_request"
            else
              uris ← client_redirects client_id;
              match uris with
              | None => refuse resp 400 "unauthorized_client"
              | Some uris =>
                  if negb (is_redirect_uri_allowed uris redirect_uri) then refuse resp 400 "invalid_redirect_uri"
                  else if negb (strcmp_eq response_type "code") then refuse resp 400 "unsupported_response_type"
                  else
                    match rq_userdata req with
                    | None => refuse resp 401 "authentication_required"
                    | Some auth =>
                        if negb (bool_decide (u_status (ac_user auth) = USER_STATUS_ACTIVE))
                        then refuse resp 403 "user_inactive"
                        else
                          let ac := new_code cf client_id redirect_uri (last_param "scope" params)
                                      (last_param "nonce" params) challenge method (u_id (ac_user auth)) in
                          r ← backend sb_oauth_code_create (λ f, f ac);
                          match r with
                          | Some (Ok _) =>
                              if negb (e_arena env 2048) then refuse resp 500 "Out of memory"
                              else
                                let suffix := match state with Some st => ("&state=" : cstr) ++ st | None => [] end in
                                mret (redirect_response
                                        (snprintf 2048 (redirect_uri ++ ("?code=" : cstr) ++ oc_code ac ++ suffix)) resp)
                          | _ => refuse resp 500 "server_error"
                          end
                    end
              end
        | _, _, _ => refuse resp 400 "invalid_request"
        end
  end.

(* ------------------------------------------------------------------ *)
(** ** The token endpoint *)

Definition verify_client_secret (input_secret stored_hash : cstr) : bool := crypto_pwhash_str_verify stored_hash input_secret.

(** [(expires_at - issued_at) / 1000] *)
Definition lifetime_s (t : token_t) : Z := Z.quot (tk_expires_at t - tk_issued_at t) 1000.

Definition token_members (t : token_t) : list cstr :=
  [member "access_token" (quoted_text (token_str t)); member "token_type" (quoted_text "Bearer");
   member "expires_in" (print_lld (lifetime_s t))].

Definition code_body (ac : oauth_auth_code_t) (user : user_t) (t : token_t) : cstr :=
  snprintf BODY_SIZE (object (token_members t ++ [member "refresh_token" (quoted_text (raw_refresh_token t))] ++
    (if strstr (oc_scope ac) "openid" then [member "id_token" (quoted_text (token_str t))] else []) ++
    [member "user_id" (print_llu (u_id user))])).

(** The last steps of every grant. *)
Definition answer_body resp (body : cstr) : handler http_response_t :=
  if negb (e_arena env (Z.of_nat BODY_SIZE)) then refuse resp 500 "Out of memory"
  else mret (sso_response_ok env body resp).

(** The tests of an authorization code that do not touch the store. *)
Definition code_usable (ac : oauth_auth_code_t) (redirect_uri : cstr) : bool :=
  (oc_used ac =? 0) && (now <=? oc_expires_at ac) && strcmp_eq (oc_redirect_uri ac) redirect_uri.

(** The proof of possession of the code's challenge; the verifier is read
    only when there is one. *)
Definition pkce_ok (ac : oauth_auth_code_t) : handler bool :=
  match oc_code_challenge ac with
  | [] => mret true
  | c => v ← req_json_str_value "code_verifier"; mret (verify_pkce v c (oc_code_challenge_method ac))
  end.

Definition active_user (user_id : Z) : handler (option user_t) :=
  u ← on_world (user_get_by_id cx user_id);
  mret match u with
       | Ok user => if bool_decide (u_status user = USER_STATUS_ACTIVE) then Some user else None
       | Err _ => None
       end.

(** The tokens for a code that has been consumed. *)
Definition grant_code_tokens (ac : oauth_auth_code_t) (jkt : cstr) resp : handler http_response_t :=
  u ← active_user (oc_user_id ac);
  match u with
  | None => refuse resp 403 "user_inactive"
  | Some user =>
      roles ← roles_of cx (u_id user);
      groups ← groups_of cx (u_id user);
      ttl ← get_client_token_ttl (oc_client_id ac);
      '(err, access_token) ← issue env 0 (u_id user) roles groups (Some (oc_scope ac)) ttl (Some jkt);
      if negb (is_ok err) then refuse resp 500 "server_error"
      else
        _ ← store_refresh_token (u_id user) (oc_client_id ac) (raw_refresh_token access_token);
        answer_body resp (code_body ac user access_token)
  end.

(** The nonce of the code is copied into the issued token's record after
    the token has been signed, where nothing reads it. *)
Definition grant_code (code redirect_uri : option cstr) (jkt : cstr) resp : handler http_response_t :=
  match code, redirect_uri with
  | Some code, Some redirect_uri =>
      match cx_backend cx ≫= sb_oauth_code_get, cx_backend cx ≫= sb_oauth_code_mark_used with
      | Some get, Some mark_used =>
          r ← on_store (get code);
          match r with
          | Err _ => refuse resp 400 "invalid_grant"
          | Ok ac =>
              if negb (code_usable ac redirect_uri) then refuse resp 400 "invalid_grant"
              else
                ok ← pkce_ok ac;
                if negb ok then refuse resp 400 "invalid_grant"
                else
                  _ ← on_store (mark_used (oc_code ac));
                  grant_code_tokens ac jkt resp
          end
      | _, _ => refuse resp 500 "server_error"
      end
  | _, _ => refuse resp 400 "invalid_request"
  end.

(** The check of a client's secret: status and error of a refusal. *)
Definition client_refusal (client_id client_secret : cstr) : handler (option (Z * string)) :=
  if is_config_client client_id then
    mret (if strcmp_eq client_secret (default [] (cf_client_secret <$> cfg)) then None
          else Some (401, "invalid_client"%string))
  else
    r ← backend sb_oauth_client_get (λ f, f client_id);
    mret match r with
         | Some (Ok client) =>
             if negb (cl_status client =? 1) then Some (401, "invalid_client"%string)
             else if negb (verify_client_secret client_secret (cl_client_secret_hash client))
             then Some (401, "invalid_client"%string)
             else match cl_allowed_grant_types client with
                  | [] => None
                  | g => if strstr g "client_credentials" then None else Some (400, "unauthorized_client"%string)
                  end
         | _ => Some (401, "invalid_client"%string)
         end.

Definition grant_client (client_id client_secret scope : option cstr) (jkt : cstr) resp : handler http_response_t :=
  match client_id, client_secret with
  | Some client_id, Some client_secret =>
      r ← client_refusal client_id client_secret;
      match r with
      | Some (status, error) => refuse resp status error
      | None =>
          ttl ← get_client_token_ttl client_id;
          '(err, access_token) ← issue env 0 0 [] [] scope ttl (Some jkt);
          if negb (is_ok err) then refuse resp 500 "server_error"
          else answer_body resp (snprintf BODY_SIZE (object (token_members access_token)))
      end
  | _, _ => refuse resp 400 "invalid_request"
  end.

(** A backend without the operation is called through NULL. *)
Definition revoke_refresh (hash : cstr) : handler unit :=
  match cx_backend cx ≫= sb_refresh_token_revoke with
  | None => λ _, Crash
  | Some f => _ ← on_store (f hash); mret ()
  end.

(** The tokens for a refresh token that may be used: the old one is
    revoked once the new one is issued. *)
Definition grant_refresh_tokens (hash : cstr) (rt : refresh_token_t) (jkt : cstr) resp : handler http_response_t :=
  u ← active_user (rt_user_id rt);
  match u with
  | None => refuse resp 403 "user_inactive"
  | Some user =>
      roles ← roles_of cx (u_id user);
      groups ← groups_of cx (u_id user);
      ttl ← get_client_token_ttl (rt_client_id rt);
      '(err, access_token) ← issue env 0 (u_id user) roles groups None ttl (Some jkt);
      if negb (is_ok err) then refuse resp 500 "server_error"
      else
        _ ← revoke_refresh hash;
        _ ← store_refresh_token (u_id user) (rt_client_id rt) (raw_refresh_token access_token);
        answer_body resp (snprintf BODY_SIZE (object (token_members access_token ++
          [member "refresh_token" (quoted_text (raw_refresh_token access_token))])))
  end.

Definition grant_refresh (refresh_token : option cstr) (jkt : cstr) resp : handler http_response_t :=
  match refresh_token with
  | None => refuse resp 400 "invalid_request"
  | Some refresh_token =>
      let hash := refresh_hash refresh_token in
      r ← backend sb_refresh_token_get (λ f, f hash);
      match r with
      | Some (Ok rt) =>
          if negb (rt_revoked rt =? 0) then
            _ ← backend sb_refresh_token_revoke_family (λ f, f (rt_user_id rt) (rt_client_id rt));
            refuse resp 400 "invalid_grant"
          else if rt_expires_at rt <? now then refuse resp 400 "invalid_grant"
          else grant_refresh_tokens hash rt jkt resp
      | _ => refuse resp 400 "invalid_grant"
      end
  end.

Definition handle_oauth_token req resp : handler http_response_t :=
  b ← has_body;
  if match cfg with Some cf => bool_decide (cf_client_id cf = []) | None => true end
  then refuse resp 400 "oauth_not_configured"
  else if negb b then refuse resp 400 "invalid_request"
  else
    grant_type ← req_json_str_value "grant_type";
    code ← req_json_str_value "code";
    redirect_uri ← req_json_str_value "redirect_uri";
    client_id ← req_json_str_value "client_id";
    client_secret ← req_json_str_value "client_secret";
    refresh_token ← req_json_str_value "refresh_token";
    scope ← req_json_str_value "scope";
    jkt ← login_jkt env req;
    match jkt, grant_type with
    | None, _ => refuse resp 400 "invalid_dpop_proof"
    | Some _, None => refuse resp 400 "invalid_request"
    | Some jkt, Some g =>
        if strcmp_eq g "authorization_code" then grant_code code redirect_uri jkt resp
        else if strcmp_eq g "client_credentials" then grant_client client_id client_secret scope jkt resp
        else if strcmp_eq g "refresh_token" then grant_refresh refresh_token jkt resp
        else refuse resp 400 "unsupported_grant_type"
    end.

(* ------------------------------------------------------------------ *)
(** ** Introspection, revocation, discovery *)

Definition active_body (revoked : bool) (t : token_t) : cstr :=
  object [member "active" (if revoked then "false" else "true"); member "jti" (quoted_text (tk_jti t));
    member "sub" (print_llu (tk_user_id t)); member "iat" (print_lld (tk_issued_at t));
    member "exp" (print_lld (tk_expires_at t)); member "token_type" (quoted_text "Bearer");
    member "scope" (quoted_text (tk_scope t))].

Definition handle_oauth_introspect req resp : handler http_response_t :=
  b ← has_body;
  if negb b then refuse resp 400 "invalid_request"
  else
    token_str ← req_json_str_value "token";
    match token_str with
    | None => refuse resp 400 "invalid_request"
    | Some str =>
        '(verr, decoded) ← verify_token env str;
        if negb (e_arena env 4096) then fail env resp 500 "Out of memory"
        else if is_ok verr then
          revoked ← is_revoked cx (tk_jti decoded);
          mret (sso_response_ok env (snprintf 4096 (active_body revoked decoded)) resp)
        else mret (sso_response_ok env (object [member "active" "false"]) resp)
    end.

Definition handle_oauth_revoke req resp : handler http_response_t :=
  b ← has_body;
  if negb b then refuse resp 400 "invalid_request"
  else
    token_str ← req_json_str_value "token";
    match token_str with
    | None => refuse resp 400 "invalid_request"
    | Some str =>
        '(verr, decoded) ← verify_token env str;
        _ ← (if is_ok verr then revoke_jti cx env (tk_jti decoded) (tk_expires_at decoded) else mret SSO_OK);
        mret (sso_response_ok env (object [member "status" (quoted_text "ok")]) resp)
    end.

Definition strings (l : list string) : cstr :=
  "["%char :: commas (map (λ s, quoted_text (list_ascii_of_string s)) l) ++ ["]"%char].

Definition handle_well_known_openid_config req resp : handler http_response_t :=
  let issuer := match cf_issuer <$> cfg with
                | None | Some [] => ("http://localhost:8080" : cstr)
                | Some i => i
                end in
  let url (p : string) := quoted_text (issuer ++ list_ascii_of_string p) in
  if negb (e_arena env 4096) then fail env resp 500 "Out of memory"
  else mret (sso_response_ok env (snprintf 4096 (object
    [member "issuer" (quoted_text issuer); member "authorization_endpoint" (url "/api/v1/oauth/authorize");
     member "token_endpoint" (url "/api/v1/oauth/token"); member "userinfo_endpoint" (url "/api/v1/auth/userinfo");
     member "introspection_endpoint" (url "/api/v1/oauth/introspect");
     member "revocation_endpoint" (url "/api/v1/oauth/revoke");
     member "end_session_endpoint" (url "/api/v1/oauth/end-session"); member "jwks_uri" (url "/api/v1/auth/jwks");
     member "scopes_supported" (strings ["openid"; "profile"]%string);
     member "response_types_supported" (strings ["code"]%string);
     member "grant_types_supported" (strings ["authorization_code"; "client_credentials"; "refresh_token"]%string);
     member "subject_types_supported" (strings ["public"]%string);
     member "id_token_signing_alg_values_supported" (strings ["HS256"; "RS256"]%string);
     member "token_endpoint_auth_methods_supported" (strings ["client_secret_post"]%string)])) resp).

(** The text of a key, when the slot holds an RSA key and the arena has
    room; the byte buffers and then the text buffers are asked for. *)
Definition jwk_text (slot : key_slot_t) : outcome (option cstr) :=
  if negb (populated slot) || negb (bool_decide (slot_mode slot = SSO_TOKEN_MODE_RS256)) then Ret None
  else
    pub ← slot_public slot;
    match pub with
    | None => Ret None
    | Some pub =>
        match rsa_params pub with
        | None => Ret None
        | Some (n, e) =>
            let size (l : list Z) := Z.of_nat (length l) in
            if e_arena env (size n) && e_arena env (size e) && e_arena env (size n * 2 + 10) && e_arena env (size e * 2 + 10)
            then Ret (Some (object [member "kty" (quoted_text "RSA"); member "alg" (quoted_text "RS256");
                   member "use" (quoted_text "sig"); member "kid" (quoted_text (kid slot));
                   member "n" (quoted_text (base64url_encode n (length n * 2 + 10)));
                   member "e" (quoted_text (base64url_encode e (length e * 2 + 10)))]))
            else Ret None
        end
    end.

(** [append_jwk_entry]: the text so far and whether it is still the first
    entry; an entry that does not fit is not counted. *)
Definition append_jwk_entry (slot : key_slot_t) (acc : cstr * bool) : outcome (cstr * bool) :=
  k ← jwk_text slot;
  Ret match k with
      | None => acc
      | Some k =>
          let entry := if acc.2 then k else ","%char :: k in
          (if (length entry <? 4096 - length acc.1)%nat then acc.1 ++ entry else acc.1, false)
      end.

Definition keys_body (m : token_manager) : outcome cstr :=
  acc ← append_jwk_entry (slot0 m) ("{"%char :: quoted_text "keys" ++ (":[" : cstr), true);
  acc ← append_jwk_entry (slot1 m) acc;
  if (4096 <? length acc.1 + 3)%nat then Crash else Ret (acc.1 ++ ("]}" : cstr)).

Definition handle_jwks req resp : handler http_response_t :=
  s ← get_state;
  let m := ss_tokens s in
  if negb (bool_decide (tm_mode m = SSO_TOKEN_MODE_RS256)) || (token_manager_get_slot_count m =? 0)%nat
  then mret (sso_response_ok env (object [member "keys" "[]"]) resp)
  else if negb (e_arena env 4096) then fail env resp 500 "Out of memory"
  else body ← lift (keys_body m); mret (sso_response_ok env body resp).

Definition handle_userinfo req resp : handler http_response_t :=
  match rq_userdata req with
  | None => refuse resp 401 "unauthorized"
  | Some auth =>
      let user := ac_user auth in
      if negb (e_arena env 4096) then fail env resp 500 "Out of memory"
      else mret (sso_response_ok env (snprintf 4096 (object [member "sub" (print_llu (u_id user));
             member "preferred_username" (quoted_text (u_username user)); member "email" (quoted_text (u_email user));
             member "name" (quoted_text (u_display_name user))])) resp)
  end.

(* ------------------------------------------------------------------ *)
(** ** Ending a session *)

(** The token is revoked and the user's nonce moved on. *)
Definition end_token (jti : cstr) (expires_at user_id : Z) : handler unit :=
  _ ← revoke_jti cx env jti expires_at;
  _ ← bump_nonce env user_id;
  mret ().

Definition logout_redirect_allowed (uri : cstr) : handler bool :=
  if match cf_redirect_uris <$> cfg with Some l => is_redirect_uri_allowed l uri | None => false end then mret true
  else
    r ← backend sb_oauth_client_list (λ f, f 0 64 64%nat);
    mret match r with
         | Some (Ok clients) => existsb (λ c, is_redirect_uri_allowed (cl_redirect_uris c) uri) clients
         | _ => false
         end.

Definition handle_oauth_end_session req resp : handler http_response_t :=
  let state := get_query_param req "state" in
  _ ← match get_query_param req "id_token_hint" with
      | None => mret ()
      | Some hint =>
          '(e, token) ← verify_token env hint;
          if is_ok e then end_token (tk_jti token) (tk_expires_at token) (tk_user_id token) else mret ()
      end;
  _ ← match rq_userdata req with
      | None => mret ()
      | Some auth => end_token (tk_jti (ac_token auth)) (tk_expires_at (ac_token auth)) (u_id (ac_user auth))
      end;
  match get_query_param req "post_logout_redirect_uri" with
  | None => mret (sso_response_ok env (object [member "status" (quoted_text "logged_out")]) resp)
  | Some uri =>
      allowed ← logout_redirect_allowed uri;
      if negb allowed then mret (sso_response_ok env (object [member "status" (quoted_text "logged_out")]) resp)
      else if negb (e_arena env 1024) then fail env resp 500 "Out of memory"
      else
        let url := match state with
                   | Some st => uri ++ (if strchr uri "?" then "&"%char else "?"%char) :: ("state=" : cstr) ++ st
                   | None => uri
                   end in
        mret {| rs_status_code := 302; rs_body := strdup (e_alloc env) []; rs_content_type := rs_content_type resp;
                rs_extra_headers := snprintf EXTRA_HEADERS (header "Location" (snprintf 1024 url));
                rs_cors_origin := rs_cors_origin resp |}
  end.

End Oauth.
