(* ===== verification/Config.v ===== *)
(** * Configuration (src/config.c, include/config.h, the start of main.c)

    The settings of the server, a record per section of the file, and the
    three layers that fill them: built-in values, the TOML file and the
    environment.  The TOML document is a tree; reading its text is the
    vendored parser's.  What the other components read of the settings is
    given by projections to their own records. *)

From S2P Require Import Prelude CLib CNum Json Types Storage StorageMemory PermCache Context UserMgr RateLimit Mfa Bits Base64 TokenState Token TokenScan TokenJwt Printf PermEngine AuditLog Dpop Risk Http Oauth.

(** Values of a document; [TOther] is a number with a fraction or a date. *)
Inductive toml :=
| TString (s : cstr) | TInt (z : Z) | TBool (b : bool) | TOther
| TArray (l : list toml) | TTable (kvs : list (cstr * toml)).

Definition toml_get (tab : list (cstr * toml)) (key : cstr) : option toml :=
  first_match (λ kv, bool_decide (kv.1 = key)) snd tab.

Definition toml_key_exists (tab : list (cstr * toml)) (key : cstr) : bool := bool_decide (is_Some (toml_get tab key)).
Definition toml_string_in (tab : list (cstr * toml)) (key : cstr) : option cstr :=
  match toml_get tab key with Some (TString s) => Some s | _ => None end.
Definition toml_int_in (tab : list (cstr * toml)) (key : cstr) : option Z :=
  match toml_get tab key with Some (TInt z) => Some z | _ => None end.
Definition toml_bool_in (tab : list (cstr * toml)) (key : cstr) : option bool :=
  match toml_get tab key with Some (TBool b) => Some b | _ => None end.
Definition toml_array_in (tab : list (cstr * toml)) (key : cstr) : option (list toml) :=
  match toml_get tab key with Some (TArray l) => Some l | _ => None end.
Definition toml_table_in (tab : list (cstr * toml)) (key : cstr) : option (list (cstr * toml)) :=
  match toml_get tab key with Some (TTable kvs) => Some kvs | _ => None end.

(* ------------------------------------------------------------------ *)
(** ** The settings *)

Record server_settings := {
  host : cstr; port : Z; thread_pool_size : Z; queue_size : Z; request_timeout_ms : Z; max_body_size : Z
}.
Record database_settings := { path : cstr; use_memory : bool; database_type : cstr; database_url : cstr }.
Record security_settings := {
  token_secret : cstr; token_secret_2 : cstr; private_key_pem : cstr; public_key_pem : cstr; private_key_pem_2 : cstr;
  public_key_pem_2 : cstr; admin_password : cstr; token_ttl_ms : Z; password_opslimit : Z; password_memlimit : Z;
  tls_enabled : bool; tls_cert_file : cstr; tls_key_file : cstr
}.
Record sms_settings := { gateway_url : cstr; api_key : cstr }.
Record logging_settings := {
  log_level : Z; log_format : Z; audit_log_path : cstr; audit_log_max_size_mb : Z; audit_log_max_backups : Z;
  audit_log_rotate_daily : bool; audit_log_secret : cstr
}.
Record oauth_settings := {
  oauth_client_id : cstr; oauth_client_secret : cstr; oauth_redirect_uris : cstr; oauth_issuer : cstr;
  oauth_auth_code_ttl_ms : Z
}.
(** [password_policy_t] with the two members only the managers of
    passwords read. *)
Record policy_settings := { policy : password_policy_t; expiry_days : Z; history_count : Z }.
Record raft_settings := { raft_enabled : bool; raft_node_id : Z; raft_nodes : list (Z * cstr); raft_node_count : Z }.

Record sso_config_t := {
  c_server : server_settings; c_database : database_settings; c_security : security_settings; c_sms : sms_settings;
  c_logging : logging_settings; c_oauth : oauth_settings; max_ips : Z; c_password_policy : policy_settings;
  c_raft : raft_settings; otlp_endpoint : cstr
}.

Definition MAX_RAFT_NODES : nat := 16.

(** What the OAuth endpoints and the audit log read. *)
Definition oauth_of (c : sso_config_t) : oauth_config :=
  {| cf_client_id := oauth_client_id (c_oauth c); cf_client_secret := oauth_client_secret (c_oauth c);
     cf_redirect_uris := oauth_redirect_uris (c_oauth c); cf_issuer := oauth_issuer (c_oauth c);
     cf_auth_code_ttl_ms := oauth_auth_code_ttl_ms (c_oauth c); cf_token_ttl_ms := token_ttl_ms (c_security c) |}.
Definition audit_of (c : sso_config_t) : audit_settings :=
  let l := c_logging c in
  {| s_audit_log_path := audit_log_path l; s_audit_log_max_size_mb := audit_log_max_size_mb l;
     s_audit_log_max_backups := audit_log_max_backups l; s_audit_log_rotate_daily := audit_log_rotate_daily l;
     s_audit_log_secret := audit_log_secret l |}.

(** The built-in values: a cleared structure, then the assignments. *)
Definition sso_config_default : sso_config_t :=
  {| c_server := {| host := "0.0.0.0"; port := 8080; thread_pool_size := 8; queue_size := 1024;
                    request_timeout_ms := 10000; max_body_size := 1048576 |};
     c_database := {| path := "sso_server.db"; use_memory := false; database_type := sso_strlcpy (Some ("sqlite" : cstr)) 15;
                      database_url := sso_strlcpy (Some ("sso_server.db" : cstr)) 1023 |};
     c_security := {| token_secret := []; token_secret_2 := []; private_key_pem := []; public_key_pem := [];
                      private_key_pem_2 := []; public_key_pem_2 := []; admin_password := []; token_ttl_ms := 3600000;
                      password_opslimit := 3; password_memlimit := 268435456; tls_enabled := false; tls_cert_file := [];
                      tls_key_file := [] |};
     c_sms := {| gateway_url := []; api_key := [] |};
     c_logging := {| log_level := 0; log_format := 0; audit_log_path := "audit.log"; audit_log_max_size_mb := 10;
                     audit_log_max_backups := 5; audit_log_rotate_daily := false; audit_log_secret := [] |};
     c_oauth := {| oauth_client_id := []; oauth_client_secret := []; oauth_redirect_uris := []; oauth_issuer := [];
                   oauth_auth_code_ttl_ms := 0 |};
     max_ips := 10000;
     c_password_policy := {| policy := PASSWORD_POLICY_DEFAULT; expiry_days := 0; history_count := 0 |};
     c_raft := {| raft_enabled := false; raft_node_id := 0; raft_nodes := replicate MAX_RAFT_NODES (0, []);
                  raft_node_count := 0 |};
     otlp_endpoint := [] |}.

(* ------------------------------------------------------------------ *)
(** ** The file *)

Section Load.
Implicit Types t : list (cstr * toml).

Definition get_string t (key : cstr) (dest_size : nat) (dest : cstr) : cstr :=
  match toml_string_in t key with Some s => sso_strlcpy (Some s) dest_size | None => dest end.
Definition get_int t (key : cstr) (dest : Z) : Z := match toml_int_in t key with Some i => s32 i | None => dest end.
Definition get_long t (key : cstr) (dest : Z) : Z := match toml_int_in t key with Some i => i | None => dest end.
Definition get_ulong t (key : cstr) (dest : Z) : Z := match toml_int_in t key with Some i => u64 i | None => dest end.
Definition get_bool t (key : cstr) (dest : bool) : bool := match toml_bool_in t key with Some b => b | None => dest end.

(** The elements of an array that are strings, joined by spaces in a
    buffer; [dest] is what has been written. *)
Definition join_element (dest_size : nat) (dest : cstr) (elem : toml) : cstr :=
  match elem with
  | TString s =>
      let pos := length dest in
      let dest := if (0 <? pos)%nat && (pos <? dest_size - 1)%nat then dest ++ [" "%char] else dest in
      let remaining := (dest_size - length dest)%nat in
      dest ++ take (if (remaining <=? length s)%nat then remaining - 1 else length s) s
  | _ => dest
  end.

Definition get_string_array t (key : cstr) (dest_size : nat) (dest : cstr) : cstr :=
  match toml_string_in t key with
  | Some s => sso_strlcpy (Some s) dest_size
  | None =>
      match toml_array_in t key with
      | None => dest
      | Some arr => fold_left (join_element dest_size) arr []
      end
  end.

Definition load_server t (c : server_settings) : server_settings :=
  {| host := get_string t "host" 128 (host c); port := get_int t "port" (port c);
     thread_pool_size := get_int t "thread_pool_size" (thread_pool_size c);
     queue_size := get_int t "queue_size" (queue_size c);
     request_timeout_ms := get_int t "request_timeout_ms" (request_timeout_ms c);
     max_body_size := get_long t "max_body_size" (max_body_size c) |}.

(** A path is the URL where no URL is given. *)
Definition load_database t (c : database_settings) : database_settings :=
  let p := get_string t "path" 256 (path c) in
  {| path := p; use_memory := get_bool t "use_memory" (use_memory c);
     database_type := get_string t "type" 16 (database_type c);
     database_url := if negb (toml_key_exists t "url") && toml_key_exists t "path" then sso_strlcpy (Some p) 1024
                     else get_string t "url" 1024 (database_url c) |}.

Definition load_security t (c : security_settings) : security_settings :=
  {| token_secret := get_string t "token_secret" 128 (token_secret c); token_secret_2 := token_secret_2 c;
     private_key_pem := get_string t "private_key" 4096 (private_key_pem c);
     public_key_pem := get_string t "public_key" 4096 (public_key_pem c); private_key_pem_2 := private_key_pem_2 c;
     public_key_pem_2 := public_key_pem_2 c; admin_password := get_string t "admin_password" 128 (admin_password c);
     token_ttl_ms := get_long t "token_ttl_ms" (token_ttl_ms c);
     password_opslimit := get_ulong t "password_opslimit" (password_opslimit c);
     password_memlimit := get_ulong t "password_memlimit" (password_memlimit c);
     tls_enabled := get_bool t "tls_enabled" (tls_enabled c);
     tls_cert_file := get_string t "tls_cert_file" 512 (tls_cert_file c);
     tls_key_file := get_string t "tls_key_file" 512 (tls_key_file c) |}.

Definition load_sms t (c : sms_settings) : sms_settings :=
  {| gateway_url := get_string t "gateway_url" 256 (gateway_url c); api_key := get_string t "api_key" 128 (api_key c) |}.

Definition load_oauth t (c : oauth_settings) : oauth_settings :=
  {| oauth_client_id := get_string t "client_id" 64 (oauth_client_id c);
     oauth_client_secret := get_string t "client_secret" 128 (oauth_client_secret c);
     oauth_redirect_uris := get_string_array t "redirect_uris" 512 (oauth_redirect_uris c);
     oauth_issuer := get_string t "issuer" 256 (oauth_issuer c);
     oauth_auth_code_ttl_ms := get_long t "auth_code_ttl_ms" (oauth_auth_code_ttl_ms c) |}.

Definition clamp_level (l : Z) : Z := if l <? 0 then 0 else if 3 <? l then 3 else l.

Definition load_logging t (c : logging_settings) : logging_settings :=
  {| log_level := clamp_level (get_int t "level" (log_level c)); log_format := log_format c;
     audit_log_path := get_string t "audit_log_path" 256 (audit_log_path c);
     audit_log_max_size_mb := get_int t "audit_log_max_size_mb" (audit_log_max_size_mb c);
     audit_log_max_backups := get_int t "audit_log_max_backups" (audit_log_max_backups c);
     audit_log_rotate_daily := get_bool t "audit_log_rotate_daily" (audit_log_rotate_daily c);
     audit_log_secret := get_string t "audit_log_secret" 128 (audit_log_secret c) |}.

Definition load_policy t (c : policy_settings) : policy_settings :=
  let p := policy c in
  {| policy := {| min_length := get_int t "min_length" (min_length p); max_length := get_int t "max_length" (max_length p);
                  require_upper := get_bool t "require_upper" (require_upper p);
                  require_lower := get_bool t "require_lower" (require_lower p);
                  require_digit := get_bool t "require_digit" (require_digit p);
                  require_special := get_bool t "require_special" (require_special p) |};
     expiry_days := get_int t "expiry_days" (expiry_days c); history_count := get_int t "history_count" (history_count c) |}.

(** One node of the list: the index it is written at is the count so far,
    of this file or an earlier one. *)
Definition load_node (c : raft_settings) (node : toml) : outcome raft_settings :=
  match node with
  | TTable nt =>
      match toml_int_in nt "id", toml_string_in nt "url" with
      | Some id, Some url =>
          if (0 <=? raft_node_count c) && (raft_node_count c <? Z.of_nat MAX_RAFT_NODES) then
            Ret {| raft_enabled := raft_enabled c; raft_node_id := raft_node_id c;
                   raft_nodes := <[Z.to_nat (raft_node_count c) := (s32 id, take 255 url)]> (raft_nodes c);
                   raft_node_count := raft_node_count c + 1 |}
          else Crash
      | _, _ => Ret c
      end
  | _ => Ret c
  end.

Fixpoint load_nodes (nodes : list toml) (c : raft_settings) : outcome raft_settings :=
  match nodes with [] => Ret c | n :: nodes => c ← load_node c n; load_nodes nodes c end.

Definition load_raft t (c : raft_settings) : outcome raft_settings :=
  let c := {| raft_enabled := get_bool t "enabled" (raft_enabled c); raft_node_id := get_int t "node_id" (raft_node_id c);
              raft_nodes := raft_nodes c; raft_node_count := raft_node_count c |} in
  match toml_array_in t "nodes" with None => Ret c | Some nodes => load_nodes (take MAX_RAFT_NODES nodes) c end.

(** A section that is there changes its settings. *)
Definition section {A} (root : list (cstr * toml)) (name : cstr) (f : list (cstr * toml) → A → A) (a : A) : A :=
  match toml_table_in root name with Some t => f t a | None => a end.

Definition load_root (root : list (cstr * toml)) (c : sso_config_t) : outcome sso_config_t :=
  raft ← match toml_table_in root "raft" with Some t => load_raft t (c_raft c) | None => Ret (c_raft c) end;
  Ret {| c_server := section root "server" load_server (c_server c);
         c_database := section root "database" load_database (c_database c);
         c_security := section root "security" load_security (c_security c);
         c_sms := section root "sms" load_sms (c_sms c);
         c_oauth := section root "oauth" load_oauth (c_oauth c);
         c_logging := section root "logging" load_logging (c_logging c);
         otlp_endpoint := section root "telemetry" (λ t, get_string t "otlp_endpoint" 256) (otlp_endpoint c);
         max_ips := section root "ratelimit" (λ t, get_int t "max_ips") (max_ips c);
         c_password_policy := section root "password_policy" load_policy (c_password_policy c);
         c_raft := raft |}.

(** Opening and parsing the file: [None] when it cannot be opened,
    [Some None] when it is not TOML. *)
Context (toml_parse_file : cstr → option (option (list (cstr * toml)))).

Definition sso_config_load (filename : option cstr) (c : sso_config_t) : outcome (sso_error_t * sso_config_t) :=
  match filename with
  | None => Ret (SSO_ERR_INVALID_PARAM, c)
  | Some f =>
      match toml_parse_file f with
      | None => Ret (SSO_ERR_NOT_FOUND, c)
      | Some None => Ret (SSO_ERR_INIT, c)
      | Some (Some root) => c ← load_root root c; Ret (SSO_OK, c)
      end
  end.

End Load.

(* ------------------------------------------------------------------ *)
(** ** The environment *)

Section Env.
Context (getenv : cstr → option cstr).

(** [SSO_STRNCPY_DST]: one character less than the buffer would hold. *)
Definition env_string (name : cstr) (dest_size : nat) (dest : cstr) : cstr :=
  match getenv name with Some v => sso_strlcpy (Some v) (dest_size - 1) | None => dest end.
Definition env_int (name : cstr) (dest : Z) : Z := match getenv name with Some v => atoi v | None => dest end.
(** [atol] is [atoll] where long has 64 bits. *)
Definition env_long (name : cstr) (dest : Z) : Z := match getenv name with Some v => atoll v | None => dest end.
Definition env_ulong (name : cstr) (dest : Z) : Z := match getenv name with Some v => u64 (atoll v) | None => dest end.
Definition env_bool (name : cstr) (dest : bool) : bool :=
  match getenv name with Some v => strcmp_eq v "1" || strcasecmp_eq v "true" | None => dest end.

Definition env_server (c : server_settings) : server_settings :=
  {| host := env_string "SSO_HOST" 128 (host c); port := env_int "SSO_PORT" (port c);
     thread_pool_size := thread_pool_size c; queue_size := queue_size c;
     request_timeout_ms := env_int "SSO_REQUEST_TIMEOUT_MS" (request_timeout_ms c);
     max_body_size := env_long "SSO_MAX_BODY_SIZE" (max_body_size c) |}.
Definition env_database (c : database_settings) : database_settings :=
  {| path := path c; use_memory := use_memory c; database_type := env_string "SSO_DATABASE_TYPE" 16 (database_type c);
     database_url := env_string "SSO_DATABASE_URL" 1024 (database_url c) |}.
Definition env_security (c : security_settings) : security_settings :=
  {| token_secret := env_string "SSO_TOKEN_SECRET" 128 (token_secret c);
     token_secret_2 := env_string "SSO_TOKEN_SECRET_2" 128 (token_secret_2 c);
     private_key_pem := env_string "SSO_PRIVATE_KEY" 4096 (private_key_pem c);
     public_key_pem := env_string "SSO_PUBLIC_KEY" 4096 (public_key_pem c);
     private_key_pem_2 := env_string "SSO_PRIVATE_KEY_2" 4096 (private_key_pem_2 c);
     public_key_pem_2 := env_string "SSO_PUBLIC_KEY_2" 4096 (public_key_pem_2 c);
     admin_password := env_string "SSO_ADMIN_PASSWORD" 128 (admin_password c); token_ttl_ms := token_ttl_ms c;
     password_opslimit := env_ulong "SSO_PASSWORD_OPSLIMIT" (password_opslimit c);
     password_memlimit := env_ulong "SSO_PASSWORD_MEMLIMIT" (password_memlimit c);
     tls_enabled := env_bool "SSO_TLS_ENABLED" (tls_enabled c);
     tls_cert_file := env_string "SSO_TLS_CERT_FILE" 512 (tls_cert_file c);
     tls_key_file := env_string "SSO_TLS_KEY_FILE" 512 (tls_key_file c) |}.
Definition env_sms (c : sms_settings) : sms_settings :=
  {| gateway_url := env_string "SSO_SMS_GATEWAY_URL" 256 (gateway_url c);
     api_key := env_string "SSO_SMS_API_KEY" 128 (api_key c) |}.
Definition env_logging (c : logging_settings) : logging_settings :=
  {| log_level := match getenv "SSO_LOG_LEVEL" with Some v => clamp_level (atoi v) | None => log_level c end;
     log_format := env_int "SSO_LOG_FORMAT" (log_format c);
     audit_log_path := env_string "SSO_AUDIT_LOG_PATH" 256 (audit_log_path c);
     audit_log_max_size_mb := audit_log_max_size_mb c; audit_log_max_backups := audit_log_max_backups c;
     audit_log_rotate_daily := audit_log_rotate_daily c; audit_log_secret := audit_log_secret c |}.
Definition env_oauth (c : oauth_settings) : oauth_settings :=
  {| oauth_client_id := env_string "SSO_OAUTH_CLIENT_ID" 64 (oauth_client_id c);
     oauth_client_secret := env_string "SSO_OAUTH_CLIENT_SECRET" 128 (oauth_client_secret c);
     oauth_redirect_uris := env_string "SSO_OAUTH_REDIRECT_URIS" 512 (oauth_redirect_uris c);
     oauth_issuer := env_string "SSO_OAUTH_ISSUER" 256 (oauth_issuer c);
     oauth_auth_code_ttl_ms := env_long "SSO_OAUTH_AUTH_CODE_TTL_MS" (oauth_auth_code_ttl_ms c) |}.
Definition env_policy (c : policy_settings) : policy_settings :=
  let p := policy c in
  {| policy := {| min_length := env_int "SSO_PASSWORD_MIN_LENGTH" (min_length p);
                  max_length := env_int "SSO_PASSWORD_MAX_LENGTH" (max_length p);
                  require_upper := env_bool "SSO_PASSWORD_REQUIRE_UPPER" (require_upper p);
                  require_lower := env_bool "SSO_PASSWORD_REQUIRE_LOWER" (require_lower p);
                  require_digit := env_bool "SSO_PASSWORD_REQUIRE_DIGIT" (require_digit p);
                  require_special := env_bool "SSO_PASSWORD_REQUIRE_SPECIAL" (require_special p) |};
     expiry_days := env_int "SSO_PASSWORD_EXPIRY_DAYS" (expiry_days c);
     history_count := env_int "SSO_PASSWORD_HISTORY_COUNT" (history_count c) |}.

Definition sso_config_apply_env (c : sso_config_t) : sso_config_t :=
  {| c_server := env_server (c_server c); c_database := env_database (c_database c);
     c_security := env_security (c_security c); c_sms := env_sms (c_sms c); c_logging := env_logging (c_logging c);
     c_oauth := env_oauth (c_oauth c); max_ips := max_ips c; c_password_policy := env_policy (c_password_policy c);
     c_raft := c_raft c; otlp_endpoint := otlp_endpoint c |}.

End Env.

(* ------------------------------------------------------------------ *)
(** ** Start-up and reload *)

Definition is_config_flag (a : cstr) : bool := strcmp_eq a "-c" || strcmp_eq a "--config".

(** [parse_args] on the arguments after the program's name: the last
    [-c FILE] counts. *)
Fixpoint parse_args (argv : list cstr) (config_path : cstr) : cstr :=
  match argv with
  | a :: ((f :: argv') as rest) =>
      if is_config_flag a then parse_args argv' (sso_strlcpy (Some f) 1024) else parse_args rest config_path
  | _ => config_path
  end.

Section Start.
Context (toml_parse_file : cstr → option (option (list (cstr * toml)))) (getenv : cstr → option cstr).

(** [main] up to the settings it runs with; [None] is an exit because the
    file asked for cannot be used. *)
Definition main_config (argv : list cstr) : outcome (option (cstr * sso_config_t)) :=
  let config_path := parse_args argv "sso.toml" in
  '(err, c) ← sso_config_load toml_parse_file (Some config_path) sso_config_default;
  if negb (is_ok err) && existsb is_config_flag argv then Ret None
  else Ret (Some (config_path, sso_config_apply_env getenv c)).

(** The reload of a SIGHUP in [sso_server_start]: the file and the
    environment are laid over a copy of the settings in use. *)
Definition reload_config (config_path : cstr) (old : sso_config_t) : outcome sso_config_t :=
  match config_path with
  | [] => Ret old
  | _ =>
      '(err, c) ← sso_config_load toml_parse_file (Some config_path) old;
      Ret (if is_ok err then sso_config_apply_env getenv c else old)
  end.

End Start.

(* ================================================================== *)
(** ** Bounds *)

Definition int_range (z : Z) : Prop := - 2 ^ 31 ≤ z < 2 ^ 31.
Definition fits (n : nat) (s : cstr) : Prop := (length s < n)%nat.

Record server_wf (c : server_settings) : Prop := {
  sw_host : fits 128 (host c); sw_port : int_range (port c); sw_pool : int_range (thread_pool_size c);
  sw_queue : int_range (queue_size c); sw_timeout : int_range (request_timeout_ms c)
}.
Record database_wf (c : database_settings) : Prop := {
  dw_path : fits 256 (path c); dw_type : fits 16 (database_type c); dw_url : fits 1024 (database_url c)
}.
Record security_wf (c : security_settings) : Prop := {
  cw_secret : fits 128 (token_secret c); cw_secret_2 : fits 128 (token_secret_2 c);
  cw_private : fits 4096 (private_key_pem c); cw_public : fits 4096 (public_key_pem c);
  cw_private_2 : fits 4096 (private_key_pem_2 c); cw_public_2 : fits 4096 (public_key_pem_2 c);
  cw_admin : fits 128 (admin_password c); cw_cert : fits 512 (tls_cert_file c); cw_key : fits 512 (tls_key_file c)
}.
Record logging_wf (c : logging_settings) : Prop := {
  lw_level : 0 ≤ log_level c ≤ 3; lw_format : int_range (log_format c); lw_path : fits 256 (audit_log_path c);
  lw_size : int_range (audit_log_max_size_mb c); lw_backups : int_range (audit_log_max_backups c);
  lw_secret : fits 128 (audit_log_secret c)
}.
Record oauth_wf (c : oauth_settings) : Prop := {
  ow_id : fits 64 (oauth_client_id c); ow_secret : fits 128 (oauth_client_secret c);
  ow_uris : fits 512 (oauth_redirect_uris c); ow_issuer : fits 256 (oauth_issuer c)
}.
Record policy_wf (c : policy_settings) : Prop := {
  pw_min : int_range (min_length (policy c)); pw_max : int_range (max_length (policy c));
  pw_expiry : int_range (expiry_days c); pw_history : int_range (history_count c)
}.
Record raft_wf (c : raft_settings) : Prop := {
  rw_id : int_range (raft_node_id c); rw_count : 0 ≤ raft_node_count c ≤ 16; rw_nodes : length (raft_nodes c) = 16%nat;
  rw_each : Forall (λ n, int_range n.1 ∧ fits 256 n.2) (raft_nodes c)
}.

(** Every text fits its array with its terminator and every int is one. *)
Record config_wf (c : sso_config_t) : Prop := {
  w_server : server_wf (c_server c); w_database : database_wf (c_database c); w_security : security_wf (c_security c);
  w_sms : fits 256 (gateway_url (c_sms c)) ∧ fits 128 (api_key (c_sms c)); w_logging : logging_wf (c_logging c);
  w_oauth : oauth_wf (c_oauth c); w_ips : int_range (max_ips c); w_policy : policy_wf (c_password_policy c);
  w_raft : raft_wf (c_raft c); w_otlp : fits 256 (otlp_endpoint c)
}.

Lemma s32_range z : int_range (s32 z).
Proof. unfold int_range, s32. pose proof (Z.mod_pos_bound (z + 2 ^ 31) (2 ^ 32)). lia. Qed.
Lemma clamp_range l : 0 ≤ clamp_level l ≤ 3.
Proof. unfold clamp_level. destruct (l <? 0) eqn:?, (3 <? l) eqn:?; reflect_bools; lia. Qed.
Lemma strlcpy_fits s n : (0 < n)%nat → fits n (sso_strlcpy s n).
Proof. intros Hn. pose proof (sso_strlcpy_length s n). unfold fits. lia. Qed.
Lemma get_string_fits t k n d : fits n d → fits n (get_string t k n d).
Proof.
  unfold get_string, fits. destruct (toml_string_in t k) as [s|]; [|done].
  pose proof (sso_strlcpy_length (Some s) n). lia.
Qed.
Lemma get_int_range t k d : int_range d → int_range (get_int t k d).
Proof. unfold get_int. destruct (toml_int_in t k); [intros; apply s32_range|done]. Qed.
Lemma env_string_fits g k n d : fits n d → fits n (env_string g k n d).
Proof.
  unfold env_string, fits. destruct (g k) as [s|]; [|done]. pose proof (sso_strlcpy_length (Some s) (n - 1)). lia.
Qed.
Lemma env_int_range g k d : int_range d → int_range (env_int g k d).
Proof.
  unfold env_int. destruct (g k) as [s|]; [|done]. intros _. unfold atoi. destruct (scan_sign _). apply s32_range.
Qed.

Lemma join_element_fits n d e : (0 < n)%nat → fits n d → fits n (join_element n d e).
Proof.
  unfold fits. intros Hn Hd. destruct e as [s| | | | |]; try done. simpl.
  set (d' := if (0 <? length d)%nat && (length d <? n - 1)%nat then d ++ [" "%char] else d). assert (Hd' : (length d' < n)%nat).
  { unfold d'. destruct (_ && _) eqn:Hb; [|done]. apply andb_true_iff in Hb as [_ Hb%Nat.ltb_lt].
    rewrite length_app. simpl. lia. }
  rewrite length_app, length_take. destruct (_ <=? _)%nat eqn:Hr; [|apply Nat.leb_gt in Hr]; lia.
Qed.
Lemma get_string_array_fits t k n d : (0 < n)%nat → fits n d → fits n (get_string_array t k n d).
Proof.
  intros Hn Hd. unfold get_string_array. destruct (toml_string_in t k) as [s|].
  { pose proof (sso_strlcpy_length (Some s) n). unfold fits. lia. }
  destruct (toml_array_in t k) as [l|]; [|done].
  assert (H : ∀ l acc, fits n acc → fits n (fold_left (join_element n) l acc)).
  { clear l. induction l as [|x l IH]; intros acc Hacc; [done|]. apply IH. by apply join_element_fits. }
  apply H. unfold fits. simpl. lia.
Qed.

Create HintDb config.
#[local] Hint Resolve get_string_fits get_int_range env_string_fits env_int_range clamp_range s32_range : config.
Ltac settings := intros []; split; simpl; auto with config.

Lemma section_wf {A} (P : A → Prop) root name f a :
  (∀ t, P a → P (f t a)) → P a → P (section root name f a).
Proof. unfold section. destruct (toml_table_in root name); auto. Qed.

Lemma load_server_wf t c : server_wf c → server_wf (load_server t c).
Proof. settings. Qed.
Lemma load_database_wf t c : database_wf c → database_wf (load_database t c).
Proof.
  settings. destruct (negb _ && _); [apply strlcpy_fits; lia|auto with config].
Qed.
Lemma load_security_wf t c : security_wf c → security_wf (load_security t c).
Proof. settings. Qed.
Lemma load_logging_wf t c : logging_wf c → logging_wf (load_logging t c).
Proof. settings. Qed.
Lemma load_oauth_wf t c : oauth_wf c → oauth_wf (load_oauth t c).
Proof. settings. apply get_string_array_fits; [lia|done]. Qed.
Lemma load_policy_wf t c : policy_wf c → policy_wf (load_policy t c).
Proof. settings. Qed.

(** Is an element a node the loop writes? *)
Definition node_ok (n : toml) : bool :=
  match n with
  | TTable nt => bool_decide (is_Some (toml_int_in nt "id")) && bool_decide (is_Some (toml_string_in nt "url"))
  | _ => false
  end.
Definition nodes_ok (l : list toml) : Z := Z.of_nat (length (filter (λ n, node_ok n = true) l)).

Lemma load_node_wf c n :
  raft_wf c → raft_node_count c < 16 ∨ node_ok n = false →
  ∃ c', load_node c n = Ret c' ∧ raft_wf c' ∧ raft_node_count c' = raft_node_count c + (if node_ok n then 1 else 0).
Proof.
  intros Hwf Hc. assert (Hid : ∃ c', Ret c = Ret c' ∧ raft_wf c' ∧ raft_node_count c' = raft_node_count c + 0).
  { exists c. split_and!; [done|done|lia]. }
  destruct n as [| | | | |nt]; try done. cbn [load_node node_ok] in *.
  destruct (toml_int_in nt "id") as [id|], (toml_string_in nt "url") as [url|]; simpl in *; try done.
  destruct Hc as [Hc|]; [|done]. destruct Hwf as [W1 W2 W3 W4].
  change (Z.of_nat MAX_RAFT_NODES) with 16. rewrite (proj2 (Z.leb_le _ _)), (proj2 (Z.ltb_lt _ _)) by lia. simpl.
  eexists. split; [done|]. split; [|done]. split; simpl; [done|lia|by rewrite length_insert|].
  apply Forall_insert; [done|]. split; [apply s32_range|]. unfold fits. simpl. rewrite length_take. lia.
Qed.

(** The count grows by the nodes; past the array the write is out of
    bounds. *)
Lemma load_nodes_spec l c :
  raft_wf c →
  if raft_node_count c + nodes_ok l <=? 16
  then ∃ c', load_nodes l c = Ret c' ∧ raft_wf c' ∧ raft_node_count c' = raft_node_count c + nodes_ok l
  else load_nodes l c = Crash.
Proof.
  revert c. induction l as [|n l IH]; intros c Hwf.
  { pose proof (rw_count _ Hwf). unfold nodes_ok. cbn. rewrite Z.add_0_r, (proj2 (Z.leb_le _ _)) by lia. by exists c. }
  assert (Hn : nodes_ok (n :: l) = (if node_ok n then 1 else 0) + nodes_ok l).
  { unfold nodes_ok. rewrite filter_cons. destruct (node_ok n); simpl; lia. }
  assert (H0 : 0 ≤ nodes_ok l) by (unfold nodes_ok; lia). rewrite Hn. cbn [load_nodes].
  destruct (decide (raft_node_count c < 16 ∨ node_ok n = false)) as [Hc|Hc].
  - destruct (load_node_wf c n Hwf Hc) as (c1 & -> & Hwf1 & Hc1). specialize (IH c1 Hwf1). cbn [mbind outcome_bind].
    rewrite Hc1 in IH. by rewrite Z.add_assoc.
  - apply Decidable.not_or in Hc as [Hc Hok]. apply not_false_is_true in Hok. rewrite Hok.
    destruct (_ <=? 16) eqn:?; reflect_bools; [lia|]. unfold load_node. destruct n as [| | | | |nt]; try done.
    unfold node_ok in Hok. destruct (toml_int_in nt "id"), (toml_string_in nt "url"); try done.
    cbn [mbind outcome_bind]. change (Z.of_nat MAX_RAFT_NODES) with 16.
    rewrite (proj2 (Z.ltb_ge _ _)) by lia. by rewrite andb_false_r.
Qed.

(** The nodes a file announces. *)
Definition file_nodes (root : list (cstr * toml)) : Z :=
  match toml_table_in root "raft" ≫= λ t, toml_array_in t "nodes" with
  | Some l => nodes_ok (take MAX_RAFT_NODES l)
  | None => 0
  end.

Lemma file_nodes_range root : 0 ≤ file_nodes root ≤ 16.
Proof.
  unfold file_nodes, nodes_ok. destruct (_ ≫= _) as [l|]; [|lia].
  pose proof (length_filter (λ n, node_ok n = true) (take MAX_RAFT_NODES l)). rewrite length_take in H.
  unfold MAX_RAFT_NODES in *. lia.
Qed.

Lemma load_root_spec root c :
  config_wf c →
  if raft_node_count (c_raft c) + file_nodes root <=? 16
  then ∃ c', load_root root c = Ret c' ∧ config_wf c' ∧
             raft_node_count (c_raft c') = raft_node_count (c_raft c) + file_nodes root
  else load_root root c = Crash.
Proof.
  intros [W1 W2 W3 [W4 W4'] W5 W6 W7 W8 W9 W10].
  assert (Hr : if raft_node_count (c_raft c) + file_nodes root <=? 16
    then ∃ r, match toml_table_in root "raft" with Some t => load_raft t (c_raft c) | None => Ret (c_raft c) end = Ret r ∧
              raft_wf r ∧ raft_node_count r = raft_node_count (c_raft c) + file_nodes root
    else match toml_table_in root "raft" with Some t => load_raft t (c_raft c) | None => Ret (c_raft c) end = Crash).
  { pose proof (rw_count _ W9) as Hc. unfold file_nodes. destruct (toml_table_in root "raft") as [t|]; cbn [mbind option_bind].
    2: { rewrite Z.add_0_r, (proj2 (Z.leb_le _ _)) by lia. by exists (c_raft c). }
    unfold load_raft.
    assert (Hwf : raft_wf {| raft_enabled := get_bool t "enabled" (raft_enabled (c_raft c));
                raft_node_id := get_int t "node_id" (raft_node_id (c_raft c)); raft_nodes := raft_nodes (c_raft c);
                raft_node_count := raft_node_count (c_raft c) |}) by (destruct W9; split; simpl; auto with config).
    destruct (toml_array_in t "nodes") as [l|].
    - pose proof (load_nodes_spec (take MAX_RAFT_NODES l) _ Hwf) as Hl. exact Hl.
    - rewrite Z.add_0_r, (proj2 (Z.leb_le _ _)) by lia. eexists. split; [done|]. split; [exact Hwf|done]. }
  unfold load_root. destruct (_ <=? 16).
  - destruct Hr as (r & -> & Hwf & Hcount). cbn [mbind outcome_bind]. eexists. split; [done|]. split; [|done].
    split; simpl; [..|done|].
    4: { apply (section_wf (λ s, fits 256 (gateway_url s) ∧ fits 128 (api_key s))); [|done].
         intros t []. split; simpl; auto with config. }
    all: apply section_wf; auto using load_server_wf, load_database_wf, load_security_wf, load_logging_wf, load_oauth_wf,
           load_policy_wf with config.
  - by rewrite Hr.
Qed.

Lemma default_wf : config_wf sso_config_default.
Proof.
  repeat split; try (unfold fits; simpl; lia); unfold int_range; simpl; try lia.
  repeat constructor; unfold fits; simpl; lia.
Qed.

Lemma apply_env_wf getenv c : config_wf c → config_wf (sso_config_apply_env getenv c).
Proof.
  intros [W1 W2 W3 [W4 W4'] W5 W6 W7 W8 W9 W10]. split; simpl; auto with config.
  - revert W1. settings.
  - revert W2. settings.
  - revert W3. settings.
  - revert W5. intros []; split; simpl; auto with config. destruct (getenv _); [apply clamp_range|done].
  - revert W6. settings.
  - revert W8. settings.
Qed.

Section Laws.
Context (toml_parse_file : cstr → option (option (list (cstr * toml)))) (getenv : cstr → option cstr).

Lemma load_default_spec f :
  ∃ e c, sso_config_load toml_parse_file (Some f) sso_config_default = Ret (e, c) ∧ config_wf c ∧
    raft_node_count (c_raft c) = match toml_parse_file f with Some (Some root) => file_nodes root | _ => 0 end.
Proof.
  unfold sso_config_load. destruct (toml_parse_file f) as [[root|]|]; [|by eexists _, _; auto using default_wf..].
  pose proof (load_root_spec root _ default_wf) as Hr. pose proof (file_nodes_range root).
  change (raft_node_count (c_raft sso_config_default)) with 0 in Hr. rewrite (proj2 (Z.leb_le _ _)) in Hr by lia.
  destruct Hr as (c & -> & Hwf & Hc). eexists _, c. split_and!; [done|done|lia].
Qed.

Lemma parse_args_fits argv p : fits 1024 p → fits 1024 (parse_args argv p).
Proof.
  assert (H : ∀ n argv p, (length argv ≤ n)%nat → fits 1024 p → fits 1024 (parse_args argv p)); [|by eapply H].
  clear. induction n as [|n IH]; intros [|a [|f argv]] p Hl Hp; cbn [length] in *; try done; try lia.
  change (parse_args (a :: f :: argv) p) with
    (if is_config_flag a then parse_args argv (sso_strlcpy (Some f) 1024) else parse_args (f :: argv) p).
  destruct (is_config_flag a); apply IH; cbn [length]; [lia|apply strlcpy_fits; lia|lia|done].
Qed.

(** C37. Start-up always ends in settings that respect the arrays and
    integer types they are stored in: whatever the arguments, the file
    and the environment hold, reading them never faults, every text fits
    its array with its terminator, every int is in range, the log level
    is one of the four, and at most 16 Raft nodes are kept. *)
Theorem startup_config_wf argv :
  ∃ r, main_config toml_parse_file getenv argv = Ret r ∧
    ∀ path c, r = Some (path, c) → fits 1024 path ∧ config_wf c.
Proof.
  unfold main_config. destruct (load_default_spec (parse_args argv "sso.toml")) as (e & c & -> & Hwf & _).
  cbn [mbind outcome_bind]. destruct (_ && _); eexists; (split; [done|]); [done|]. intros p c' [= <- <-].
  split; [apply parse_args_fits; unfold fits; simpl; lia|by apply apply_env_wf].
Qed.

(** A reload appends the Raft nodes of the file to those already
    there: it returns when they fit the array together and writes past
    it otherwise.  A server started from a file with nine nodes or more
    cannot survive a SIGHUP that finds the file unchanged. *)
Theorem reload_nodes_overflow argv path root c :
  toml_parse_file path = Some (Some root) → path ≠ [] →
  main_config toml_parse_file getenv argv = Ret (Some (path, c)) →
  if 2 * file_nodes root <=? 16
  then ∃ c', reload_config toml_parse_file getenv path c = Ret c' ∧ config_wf c' ∧
             raft_node_count (c_raft c') = 2 * file_nodes root
  else reload_config toml_parse_file getenv path c = Crash.
Proof.
  intros Hf Hp Hm. unfold main_config in Hm. cbv zeta in Hm. revert Hm. generalize (parse_args argv "sso.toml"). intros p0 Hm.
  destruct (load_default_spec p0) as (e & c0 & E & Hwf & Hn). rewrite E in Hm. cbn [mbind outcome_bind] in Hm.
  destruct (_ && _) in Hm; [done|]. injection Hm as <- <-. rewrite Hf in Hn.
  pose proof (load_root_spec root _ (apply_env_wf getenv _ Hwf)) as Hr. simpl in Hr. rewrite Hn in Hr.
  replace (file_nodes root + file_nodes root) with (2 * file_nodes root) in Hr by lia.
  unfold reload_config. destruct p0 as [|ch p] eqn:Ep; [done|]. rewrite <- Ep in *.
  unfold sso_config_load. rewrite Hf. destruct (_ <=? 16).
  - destruct Hr as (c' & -> & Hwf' & Hc'). cbn [mbind outcome_bind]. eexists. split; [done|].
    split; [by apply apply_env_wf|done].
  - by rewrite Hr.
Qed.

End Laws.

(* ------------------------------------------------------------------ *)
(** ** A list of redirect URIs *)

Definition uri_ok (u : cstr) : Prop := u ≠ [] ∧ " "%char ∉ u ∧ ","%char ∉ u.
Definition spaced (l : list cstr) : cstr := concat (map (λ u, " "%char :: u) l).

Lemma join_element_room n d u :
  d ≠ [] → (length d + 1 + length u < n)%nat → join_element n d (TString u) = d ++ " "%char :: u.
Proof.
  intros Hd Hn. unfold join_element. rewrite (proj2 (Nat.ltb_lt 0 (length d))), (proj2 (Nat.ltb_lt (length d) (n - 1)));
    [|lia|destruct d; simpl; [done|lia]].
  simpl. rewrite length_app, (proj2 (Nat.leb_gt _ _)) by (simpl; lia). by rewrite firstn_all, <- (assoc (++)).
Qed.

Lemma join_elements n l d :
  d ≠ [] → (length d + length (spaced l) < n)%nat → fold_left (join_element n) (map TString l) d = d ++ spaced l.
Proof.
  revert d. induction l as [|u l IH]; intros d Hd Hn; cbn [map fold_left]; [by rewrite app_nil_r|].
  cbn in Hn. rewrite length_app in Hn. rewrite join_element_room by (done || lia). rewrite IH.
  - by rewrite <- (assoc (++)).
  - by destruct d.
  - rewrite length_app. simpl. fold (spaced l) in Hn. lia.
Qed.

Lemma joined n u l :
  u ≠ [] → (length u + length (spaced l) < n)%nat → fold_left (join_element n) (map TString (u :: l)) [] = u ++ spaced l.
Proof.
  intros Hu Hn. cbn [map fold_left]. rewrite <- (join_elements n l u) by done. f_equal. simpl.
  rewrite Nat.sub_0_r, (proj2 (Nat.leb_gt _ _)) by lia. apply firstn_all.
Qed.

Lemma spaced_in c l : c ∈ spaced l → c = " "%char ∨ ∃ u, u ∈ l ∧ c ∈ u.
Proof.
  induction l as [|u l IH]; [by intros ?%not_elem_of_nil|]. cbn. fold (spaced l).
  intros [->|[Hu|[->|(v & Hv & Hc)]%IH]%elem_of_app]%elem_of_cons; [by left|right|by left|right].
  - exists u. split; [by left|done].
  - exists v. split; [by right|done].
Qed.

Lemma trim_texts (s : cstr) a b :
  head s = Some a → last s = Some b → a ≠ " "%char → b ≠ " "%char → trim_spaces s = s.
Proof.
  intros Ha Hb Na Nb. unfold trim_spaces. destruct s as [|c s]; [done|]. injection Ha as ->.
  rewrite (skip_while_hd _ a s) by (destruct (Ascii.eqb_spec " " a); congruence).
  apply last_Some in Hb as [l E]. rewrite E, rev_app_distr.
  change (rev [b] ++ rev l) with (b :: rev l). rewrite skip_while_hd by (destruct (Ascii.eqb_spec " " b); congruence).
  change (b :: rev l) with (rev [b] ++ rev l). by rewrite <- rev_app_distr, rev_involutive.
Qed.

Lemma spaced_last u l : Forall uri_ok (u :: l) → ∃ b, last (u ++ spaced l) = Some b ∧ b ≠ " "%char.
Proof.
  revert u. induction l as [|v l IH]; intros u Hl; apply Forall_cons in Hl as [(Hne & Hsp & _) Hl].
  - cbn. rewrite app_nil_r. destruct (last u) as [b|] eqn:E; [|by apply last_None in E].
    exists b. split; [done|]. intros ->. apply Hsp. apply last_Some in E as [l' ->]. apply elem_of_app. right. by left.
  - destruct (IH v Hl) as (b & Hb & Hne'). exists b. split; [|done]. cbn. fold (spaced l).
    change (u ++ " "%char :: v ++ spaced l) with (u ++ [" "%char] ++ (v ++ spaced l)).
    by rewrite (last_app u), (last_app [" "%char]), Hb.
Qed.

(** Of redirect URIs configured as a TOML array none can be used once
    there are two: the array is kept joined by spaces and the OAuth
    endpoints split it at commas.  A single URI is allowed. *)
Theorem redirect_array_unusable t u l v d :
  Forall uri_ok (u :: l) → (length u + length (spaced l) < 512)%nat → v ∈ u :: l →
  toml_get t "redirect_uris" = Some (TArray (map TString (u :: l))) →
  is_redirect_uri_allowed (get_string_array t "redirect_uris" 512 d) v = bool_decide (l = []).
Proof.
  intros Hok Hlen Hv Ht. unfold get_string_array, toml_string_in, toml_array_in. rewrite Ht.
  pose proof Hok as [(Hu & Hsp & Hco) Hl]%Forall_cons. rewrite joined by done.
  unfold is_redirect_uri_allowed. rewrite sso_strlcpy_fits by (rewrite length_app; lia).
  assert (Hnc : ","%char ∉ u ++ spaced l).
  { intros [Hin|[?|(w & Hw & Hin)]%spaced_in]%elem_of_app; [done|done|].
    rewrite Forall_forall in Hl. by apply (Hl w) in Hw as (_ & _ & ?). }
  unfold strtok_all. rewrite split_on_single by done. rewrite filter_cons_True by (by destruct u). cbn [filter list_filter existsb].
  destruct (spaced_last u l Hok) as (b & Hb & Hbne).
  rewrite (trim_texts _ (hd " "%char u) b); [|by destruct u|done| |done].
  2: { destruct u as [|c u]; [done|]. simpl. intros ->. apply Hsp. by left. }
  rewrite orb_false_r. unfold strcmp_eq. apply bool_decide_ext. split.
  - intros E. destruct l as [|w l]; [done|]. exfalso. rewrite Forall_forall in Hok. apply (Hok v) in Hv as (_ & Hv & _).
    apply Hv. rewrite <- E. apply elem_of_app. right. by left.
  - intros ->. cbn. rewrite app_nil_r. apply list_elem_of_singleton in Hv. by subst.
Qed.

Definition uris_doc : list (cstr * toml) :=
  [("redirect_uris" : cstr, TArray [TString "https://a/cb"; TString "https://b/cb"])].

Lemma redirect_array_unusable_witness :
  is_redirect_uri_allowed (get_string_array uris_doc "redirect_uris" 512 []) "https://b/cb" = false.
Proof.
  rewrite (redirect_array_unusable uris_doc "https://a/cb" ["https://b/cb" : cstr] "https://b/cb" []).
  - reflexivity.
  - repeat apply Forall_cons_2; [..|constructor];
      (split_and!; [discriminate|apply (bool_decide_unpack _); vm_compute; exact I..]).
  - vm_compute. lia.
  - right. left.
  - reflexivity.
Defined.

(* ------------------------------------------------------------------ *)
(** ** Precedence *)

(** A text setting: its variable, its section and key, its array and
    where it is kept. *)
Record field := { f_env : cstr; f_section : cstr; f_key : cstr; f_size : nat; f_get : sso_config_t → cstr }.

Definition text_fields : list field :=
  [ {| f_env := "SSO_HOST"; f_section := "server"; f_key := "host"; f_size := 128; f_get := host ∘ c_server |};
    {| f_env := "SSO_DATABASE_TYPE"; f_section := "database"; f_key := "type"; f_size := 16; f_get := database_type ∘ c_database |};
    {| f_env := "SSO_TOKEN_SECRET"; f_section := "security"; f_key := "token_secret"; f_size := 128;
       f_get := token_secret ∘ c_security |};
    {| f_env := "SSO_PRIVATE_KEY"; f_section := "security"; f_key := "private_key"; f_size := 4096;
       f_get := private_key_pem ∘ c_security |};
    {| f_env := "SSO_PUBLIC_KEY"; f_section := "security"; f_key := "public_key"; f_size := 4096;
       f_get := public_key_pem ∘ c_security |};
    {| f_env := "SSO_ADMIN_PASSWORD"; f_section := "security"; f_key := "admin_password"; f_size := 128;
       f_get := admin_password ∘ c_security |};
    {| f_env := "SSO_TLS_CERT_FILE"; f_section := "security"; f_key := "tls_cert_file"; f_size := 512;
       f_get := tls_cert_file ∘ c_security |};
    {| f_env := "SSO_TLS_KEY_FILE"; f_section := "security"; f_key := "tls_key_file"; f_size := 512;
       f_get := tls_key_file ∘ c_security |};
    {| f_env := "SSO_SMS_GATEWAY_URL"; f_section := "sms"; f_key := "gateway_url"; f_size := 256; f_get := gateway_url ∘ c_sms |};
    {| f_env := "SSO_SMS_API_KEY"; f_section := "sms"; f_key := "api_key"; f_size := 128; f_get := api_key ∘ c_sms |};
    {| f_env := "SSO_AUDIT_LOG_PATH"; f_section := "logging"; f_key := "audit_log_path"; f_size := 256;
       f_get := audit_log_path ∘ c_logging |};
    {| f_env := "SSO_OAUTH_CLIENT_ID"; f_section := "oauth"; f_key := "client_id"; f_size := 64;
       f_get := oauth_client_id ∘ c_oauth |};
    {| f_env := "SSO_OAUTH_CLIENT_SECRET"; f_section := "oauth"; f_key := "client_secret"; f_size := 128;
       f_get := oauth_client_secret ∘ c_oauth |};
    {| f_env := "SSO_OAUTH_ISSUER"; f_section := "oauth"; f_key := "issuer"; f_size := 256; f_get := oauth_issuer ∘ c_oauth |} ].

(** The environment first, then the file, then the built-in value. *)
Definition layered (getenv : cstr → option cstr) (root : list (cstr * toml)) (f : field) : cstr :=
  match getenv (f_env f) with
  | Some v => take (f_size f - 2) v
  | None =>
      match toml_table_in root (f_section f) ≫= λ t, toml_string_in t (f_key f) with
      | Some v => take (f_size f - 1) v
      | None => f_get f sso_config_default
      end
  end.

Lemma layer_string {A} getenv root env name key n (f : list (cstr * toml) → A → A) (get : A → cstr) a :
  (∀ t, get (f t a) = get_string t key n (get a)) →
  env_string getenv env n (get (section root name f a)) =
    match getenv env with
    | Some v => take (n - 2) v
    | None =>
        match toml_table_in root name ≫= λ t, toml_string_in t key with Some v => take (n - 1) v | None => get a end
    end.
Proof.
  intros Hf. unfold env_string. destruct (getenv env).
  { unfold sso_strlcpy. f_equal. lia. }
  unfold section. destruct (toml_table_in root name) as [t|]; [|done]. rewrite Hf. unfold get_string. simpl.
  by destruct (toml_string_in t key).
Qed.

(** The sections of the settings start-up ends with. *)
Lemma main_config_sections toml_parse_file getenv argv path root c :
  main_config toml_parse_file getenv argv = Ret (Some (path, c)) → toml_parse_file path = Some (Some root) →
  c_server c = env_server getenv (section root "server" load_server (c_server sso_config_default)) ∧
  c_database c = env_database getenv (section root "database" load_database (c_database sso_config_default)) ∧
  c_security c = env_security getenv (section root "security" load_security (c_security sso_config_default)) ∧
  c_sms c = env_sms getenv (section root "sms" load_sms (c_sms sso_config_default)) ∧
  c_logging c = env_logging getenv (section root "logging" load_logging (c_logging sso_config_default)) ∧
  c_oauth c = env_oauth getenv (section root "oauth" load_oauth (c_oauth sso_config_default)).
Proof.
  unfold main_config. cbv zeta. generalize (parse_args argv "sso.toml"). intros p.
  intros ([e c0] & Hl & Hm)%outcome_bind_inv Hf. destruct (_ && _); [done|]. injection Hm as -> <-.
  unfold sso_config_load in Hl. rewrite Hf in Hl. apply outcome_bind_inv in Hl as (c1 & Hl & Hr). injection Hr as _ <-.
  apply outcome_bind_inv in Hl as (raft & _ & Hr). apply Ret_inj in Hr as <-. by split_and!.
Qed.

(** The documented order of the sources: each text setting is the
    value of its environment variable if there is one, else that of the
    file, else the built-in one, cut to its array (one character shorter
    for the environment). *)
Theorem config_precedence toml_parse_file getenv argv path root c :
  main_config toml_parse_file getenv argv = Ret (Some (path, c)) → toml_parse_file path = Some (Some root) →
  Forall (λ f, f_get f c = layered getenv root f) text_fields.
Proof.
  intros Hm Hf. destruct (main_config_sections _ _ _ _ _ _ Hm Hf) as (H1 & H2 & H3 & H4 & H5 & H6). clear Hm Hf.
  unfold text_fields.
  repeat match goal with
         | |- Forall _ (_ :: _) => apply Forall_cons_2
         | |- Forall _ [] => apply Forall_nil_2
         end.
  all: unfold layered; cbn [f_get f_env f_section f_key f_size compose]; rewrite ?H1, ?H2, ?H3, ?H4, ?H5, ?H6.
  all: by apply layer_string.
Qed.

Definition sample_root : list (cstr * toml) :=
  [("server" : cstr, TTable [("host" : cstr, TString "10.0.0.1"); ("port" : cstr, TInt 9090)]);
   ("raft" : cstr, TTable [("nodes" : cstr,
      TArray (replicate 9 (TTable [("id" : cstr, TInt 1); ("url" : cstr, TString "http://n")])))])].
Definition sample_file : cstr → option (option (list (cstr * toml))) :=
  λ p, if bool_decide (p = "sso.toml") then Some (Some sample_root) else None.
Definition sample_env : cstr → option cstr := λ n, if bool_decide (n = "SSO_HOST") then Some ("::1" : cstr) else None.

Lemma sample_starts : ∃ c, main_config sample_file sample_env [] = Ret (Some ("sso.toml" : cstr, c)).
Proof. eexists. vm_compute. reflexivity. Qed.

Lemma reload_nodes_overflow_witness :
  ∃ c, main_config sample_file sample_env [] = Ret (Some ("sso.toml" : cstr, c)) ∧
    reload_config sample_file sample_env "sso.toml" c = Crash.
Proof.
  destruct sample_starts as [c Hc]. exists c. split; [exact Hc|].
  apply (reload_nodes_overflow sample_file sample_env [] "sso.toml" sample_root c).
  - reflexivity.
  - discriminate.
  - exact Hc.
Defined.

Lemma config_precedence_witness :
  ∃ c, main_config sample_file sample_env [] = Ret (Some ("sso.toml" : cstr, c)) ∧
    Forall (λ f, f_get f c = layered sample_env sample_root f) text_fields.
Proof.
  destruct sample_starts as [c Hc]. exists c. split; [exact Hc|].
  apply (config_precedence sample_file sample_env [] "sso.toml" sample_root c).
  - exact Hc.
  - reflexivity.
Defined.
