(* ===== verification/Boot.v ===== *)
(** * Start-up of a context (src/sso.c)

    [sso_init] on a storage backend and a copy of the settings, with the
    choice of the token keys, and [sso_destroy] on its error paths.  The
    backend is known by whether it exists, by what opening it answers and
    by whether it has been freed, which is what the caller must know. *)

From S2P Require Import Prelude CLib CNum Json Types Storage StorageMemory PermCache Context UserMgr RateLimit Mfa Bits Base64 TokenState Token TokenScan TokenJwt Printf PermEngine AuditLog Dpop Risk Http Oauth Config.

Definition SSO_SECRET_BYTES : nat := 32.

(** The objects allocated on the way. *)
Inductive boot_object := AConfig | ATokens | AUsers | ARoles | AGroups | APolicies | AEngine.

(** What start-up reads: allocators, [sodium_init], [storage->open] (NULL
    or its answer), the SSO_TOKEN_SECRET variable, what /dev/urandom
    gives, the clock, and what the stack held. *)
Record boot_env := {
  b_gets : boot_object → bool; b_alloc : Z → bool; b_sodium : bool; b_open : option (cstr → sso_error_t);
  b_secret_var : option cstr; b_urandom : list Z; b_now : Z; b_stack : list Z
}.

(** The bytes of an int64_t in memory. *)
Definition le_bytes (n : nat) (z : Z) : list Z := map (λ i, Z.land (Z.shiftr z (8 * Z.of_nat i)) 255) (seq 0 n).

(** [memcpy] of at most 32 bytes of a text and zeros up to 32. *)
Definition padded_secret (s : cstr) : list Z :=
  take SSO_SECRET_BYTES (map ord s) ++ replicate (SSO_SECRET_BYTES - length s) 0.

Definition load_token_secret (env : boot_env) : list Z :=
  match b_secret_var env with
  | Some (c :: s) => padded_secret (c :: s)
  | _ =>
      if (length (b_urandom env) =? SSO_SECRET_BYTES)%nat then b_urandom env
      else le_bytes 8 (b_now env) ++ drop 8 (b_stack env)
  end.

Section Init.
Context `{Crypto} (env : boot_env).

Definition boot_ttl (config : option sso_config_t) : Z :=
  match config with
  | Some c => if 0 <? token_ttl_ms (c_security c) then token_ttl_ms (c_security c) else 3600000
  | None => 3600000
  end.

(** [x[0] ? x : NULL] *)
Definition or_null (s : cstr) : option cstr := match s with [] => None | _ => Some s end.

(** The first slot: an RSA key where one is configured and can be read,
    else an HMAC secret. *)
Definition init_first (config : option sso_config_t) : option token_manager :=
  let ttl := boot_ttl config in
  let secret := match config with
                | Some c => match token_secret (c_security c) with [] => load_token_secret env | s => padded_secret s end
                | None => load_token_secret env
                end in
  let hs256 := (token_manager_init secret ttl).2 in
  match config with
  | Some c =>
      match private_key_pem (c_security c) with
      | [] => hs256
      | pem =>
          let '(err, m) := token_manager_init_rs256 (Some pem) (or_null (public_key_pem (c_security c))) ttl in
          if is_ok err then m else hs256
      end
  | None => hs256
  end.

(** The standby slot; its errors are only logged. *)
Definition init_second (config : option sso_config_t) (m : token_manager) : token_manager :=
  match config with
  | Some c =>
      match private_key_pem_2 (c_security c), token_secret_2 (c_security c) with
      | [], [] => m
      | [], s => (token_manager_init_standby m (padded_secret s)).2
      | pem, _ => (token_manager_init_rs256_standby m (Some pem) (or_null (public_key_pem_2 (c_security c)))).2
      end
  | None => m
  end.

Definition set_security (s : security_settings) (c : sso_config_t) : sso_config_t :=
  {| c_server := c_server c; c_database := c_database c; c_security := s; c_sms := c_sms c; c_logging := c_logging c;
     c_oauth := c_oauth c; max_ips := max_ips c; c_password_policy := c_password_policy c; c_raft := c_raft c;
     otlp_endpoint := otlp_endpoint c |}.

(** The keys are wiped from the copy of the settings. *)
Definition wipe_keys (c : sso_config_t) : sso_config_t :=
  let s := c_security c in
  set_security {| token_secret := []; token_secret_2 := []; private_key_pem := []; public_key_pem := public_key_pem s;
                  private_key_pem_2 := []; public_key_pem_2 := public_key_pem_2 s; admin_password := admin_password s;
                  token_ttl_ms := token_ttl_ms s; password_opslimit := password_opslimit s;
                  password_memlimit := password_memlimit s; tls_enabled := tls_enabled s;
                  tls_cert_file := tls_cert_file s; tls_key_file := tls_key_file s |} c.

(** A context that came up: its settings, the URL its storage was opened
    with, its rate limiter and its token manager. *)
Record booted := {
  bt_config : option sso_config_t; bt_storage : option cstr; bt_limiter : list rl_entry_t; bt_tokens : token_manager
}.

(** The error and whether [sso_destroy] has closed and freed the storage. *)
Inductive boot_result := Booted (b : booted) | BootFailed (e : sso_error_t) (freed : bool).

Definition database_of (config : option sso_config_t) : cstr :=
  match config with
  | Some c => if use_memory (c_database c) then ":memory:" else database_url (c_database c)
  | None => "sso_server.db"
  end.

Definition limiter_size (config : option sso_config_t) : nat :=
  match config with Some c => if 0 <? max_ips c then Z.to_nat (max_ips c) else 10000 | None => 10000 end.

(** The managers and the engine in order. *)
Definition managers_fail : bool := negb (forallb (b_gets env) [AUsers; ARoles; AGroups; APolicies; AEngine]).

Definition sso_init (storage : bool) (config : option sso_config_t) : boot_result :=
  if bool_decide (is_Some config) && negb (b_gets env AConfig) then BootFailed SSO_ERR_OUT_OF_MEMORY false
  else if negb (b_sodium env) then BootFailed SSO_ERR_INIT false
  else
    let url := database_of config in
    let opened := match b_open env with Some f => if storage then f url else SSO_OK | None => SSO_OK end in
    if negb (is_ok opened) then BootFailed opened false
    else
      match rate_limiter_create (b_alloc env) (limiter_size config) with
      | (SSO_OK, Some limiter) =>
          if negb (b_gets env ATokens) then BootFailed SSO_ERR_OUT_OF_MEMORY false
          else
            match init_first config with
            | None => BootFailed SSO_ERR_OUT_OF_MEMORY false
            | Some m =>
                if managers_fail then BootFailed SSO_ERR_OUT_OF_MEMORY storage
                else Booted {| bt_config := wipe_keys <$> config; bt_storage := if storage then Some url else None;
                               bt_limiter := limiter; bt_tokens := init_second config m |}
            end
      | (e, _) => BootFailed e storage
      end.

End Init.
