(* ===== verification/Tenant.v ===== *)
(** * Tenants (src/server.c, get_tenant_context)

    The registry of contexts a server keeps, one per first label of the
    Host header, brought up on first use.  The theorems say which context
    a host reaches, that tenants have storages of their own, and that
    they do not have signing keys of their own. *)

From S2P Require Import Prelude CLib CNum Json Types Storage StorageMemory PermCache Context UserMgr RateLimit Mfa Bits Base64 TokenState Token TokenScan TokenJwt Printf PermEngine AuditLog Dpop Risk Http Oauth Config Boot.

Definition MAX_TENANTS : nat := 64.

(** The label a host is known by; [None] for the hosts of the server's
    own context. *)
Definition tenant_id_of (host : cstr) : option cstr :=
  match host with
  | [] => None
  | _ =>
      let tenant_id :=
        match strchr host "." with
        | Some dot => take (if (128 <=? dot)%nat then 127 else dot) host
        | None =>
            let t := sso_strlcpy (Some host) 128 in
            match strchr t ":" with Some colon => take colon t | None => t end
        end in
      if strcmp_eq tenant_id "localhost" || strcmp_eq tenant_id "127" || strcmp_eq tenant_id "default" then None
      else Some tenant_id
  end.

(** The database of a tenant: the label goes before the first [.db], or
    at the end. *)
Definition tenant_url (base tenant_id : cstr) : cstr :=
  let new_db_url :=
    snprintf 2048 match strstr base ".db" with
                  | Some ext => take ext base ++ "_"%char :: tenant_id ++ (".db" : cstr)
                  | None => base ++ "_"%char :: tenant_id
                  end in
  sso_strlcpy (Some new_db_url) 1024.

Definition tenant_config (base : sso_config_t) (tenant_id : cstr) : sso_config_t :=
  let d := c_database base in
  {| c_server := c_server base;
     c_database := {| path := path d; use_memory := use_memory d; database_type := database_type d;
                      database_url := tenant_url (database_url d) tenant_id |};
     c_security := c_security base; c_sms := c_sms base; c_logging := c_logging base; c_oauth := c_oauth base;
     max_ips := max_ips base; c_password_policy := c_password_policy base; c_raft := c_raft base;
     otlp_endpoint := otlp_endpoint base |}.

Inductive backend_kind := BMemory | BPostgres | BRedis | BSqlite.

Definition backend_of (c : sso_config_t) : backend_kind :=
  let url := database_url (c_database c) in
  if use_memory (c_database c) then BMemory
  else if strncmp_eq url "postgres://" 11 then BPostgres
  else if strncmp_eq url "redis://" 8 || strncmp_eq url "redis-sentinel://" 17 then BRedis
  else BSqlite.

(** A context of the server: its own, or an entry of the registry. *)
Inductive context_ref := Main | Tenant (i : nat).
#[global] Instance context_ref_eq_dec : EqDecision context_ref.
Proof. solve_decision. Defined.

(** What bringing a tenant up reads: [calloc] of the context, the
    constructors of the backends, and the rest of start-up. *)
Record tenant_env := { te_ctx : bool; te_creates : backend_kind → bool; te_boot : boot_env }.

Section Registry.
Context `{Crypto}.

Notation registry := (list (cstr * booted)).

(** The new context of a label; [None] when it could not be brought up.
    A backend that [sso_destroy] freed is closed once more. *)
Definition provision (env : tenant_env) (base : sso_config_t) (tenant_id : cstr) : outcome (option booted) :=
  let config := tenant_config base tenant_id in
  let storage := te_creates env (backend_of config) in
  if negb (te_ctx env) then Ret None
  else
    match sso_init (te_boot env) storage (Some config) with
    | Booted b => Ret (Some b)
    | BootFailed _ freed => if freed then Crash else Ret None
    end.

(** [base] is what [sso_get_config] answers for the server's context. *)
Definition get_tenant_context (env : tenant_env) (base : sso_config_t) (host : cstr) (reg : registry)
  : outcome (context_ref * registry) :=
  match tenant_id_of host with
  | None => Ret (Main, reg)
  | Some tenant_id =>
      match find_index (λ t : cstr * booted, strcmp_eq t.1 tenant_id) reg with
      | Some i => Ret (Tenant i, reg)
      | None =>
          if (MAX_TENANTS <=? length reg)%nat then Ret (Main, reg)
          else
            r ← provision env base tenant_id;
            match r with
            | Some b => Ret (Tenant (length reg), reg ++ [(sso_strlcpy (Some tenant_id) 128, b)])
            | None => Ret (Main, reg)
            end
      end
  end.

(** The hosts of successive requests, each with its surroundings. *)
Fixpoint route_hosts (base : sso_config_t) (reqs : list (tenant_env * cstr)) (reg : registry)
  : outcome (list context_ref * registry) :=
  match reqs with
  | [] => Ret ([], reg)
  | (env, host) :: reqs =>
      '(c, reg) ← get_tenant_context env base host reg;
      '(cs, reg) ← route_hosts base reqs reg;
      Ret (c :: cs, reg)
  end.

End Registry.

(* ================================================================== *)
(** ** Labels and databases *)

Lemma tenant_id_length host id : tenant_id_of host = Some id → (length id ≤ 127)%nat.
Proof.
  unfold tenant_id_of. destruct host as [|c h]; [done|]. set (host := c :: h). cbv zeta.
  destruct (strchr host ".") as [dot|]; (destruct (_ || _); [done|]); intros Hs; apply (inj Some) in Hs as <-.
  - rewrite length_take. destruct (128 <=? dot)%nat eqn:Hd; [lia|]. apply Nat.leb_gt in Hd. lia.
  - pose proof (sso_strlcpy_length (Some host) 128). destruct (strchr _ ":"); [rewrite length_take|]; lia.
Qed.

(** The database names of two labels differ where nothing is cut off. *)
Lemma tenant_url_inj base id1 id2 :
  (length base + length id1 ≤ 1018)%nat → (length base + length id2 ≤ 1018)%nat →
  tenant_url base id1 = tenant_url base id2 → id1 = id2.
Proof.
  assert (Hfit : ∀ s : cstr, (length s ≤ 1022)%nat → sso_strlcpy (Some (snprintf 2048 s)) 1024 = s).
  { intros s Hs. unfold snprintf. rewrite (take_ge s) by lia. apply sso_strlcpy_fits. lia. }
  intros H1 H2. unfold tenant_url. destruct (strstr base ".db") as [ext|].
  - rewrite !Hfit by (rewrite !length_app, length_take; cbn [length]; rewrite length_app; simpl; lia).
    intros E%app_inv_head. injection E as E. by apply app_inv_tail in E.
  - rewrite !Hfit by (rewrite !length_app; simpl; lia). intros E%app_inv_head. by injection E.
Qed.

(* ------------------------------------------------------------------ *)
(** ** Which context a host reaches *)

(** Nothing is refused: memory is found and storages open. *)
Definition healthy (e : boot_env) : Prop :=
  (∀ o, b_gets e o = true) ∧ (∀ n, b_alloc e n = true) ∧ b_sodium e = true ∧
  match b_open e with Some f => ∀ url, f url = SSO_OK | None => True end.
Definition healthy_tenant (e : tenant_env) : Prop :=
  te_ctx e = true ∧ (∀ k, te_creates e k = true) ∧ healthy (te_boot e).

Section Routing.
Context `{Crypto}.
Notation registry := (list (cstr * booted)).

Lemma padded_secret_length s : length (padded_secret s) = 32%nat.
Proof. unfold padded_secret, SSO_SECRET_BYTES. rewrite length_app, length_take, length_map, length_replicate. lia. Qed.

Lemma load_token_secret_cons e : ∃ b l, load_token_secret e = b :: l.
Proof.
  assert (H32 : ∀ l : list Z, length l = 32%nat → ∃ b l', l = b :: l') by (intros [|b l] Hl; [done|eauto]).
  unfold load_token_secret. destruct (b_secret_var e) as [[|c s]|].
  2: apply H32, padded_secret_length.
  all: destruct (_ =? _)%nat eqn:Hu; [apply H32; by apply Nat.eqb_eq in Hu|by do 2 eexists].
Qed.

(** There always is a first key. *)
Lemma init_first_some e config : ∃ m, init_first e config = Some m.
Proof.
  assert (Hhs : ∀ s ttl, s ≠ [] → ∃ m, (token_manager_init s ttl).2 = Some m) by (intros [|b s] ttl Hs; [done|by eexists]).
  assert (Hload : load_token_secret e ≠ []) by (destruct (load_token_secret_cons e) as (b & l & ->); done).
  unfold init_first. destruct config as [c|]; [|by apply Hhs].
  assert (Hsec : match token_secret (c_security c) with [] => load_token_secret e | s => padded_secret s end ≠ []).
  { destruct (token_secret (c_security c)) as [|x s]; [done|]. pose proof (padded_secret_length (x :: s)).
    by destruct (padded_secret (x :: s)). }
  destruct (private_key_pem (c_security c)) as [|x pem]; [by apply Hhs|].
  destruct (token_manager_init_rs256 _ _ _) as [err m] eqn:E. destruct (is_ok err); [|by apply Hhs].
  simpl in E. destruct (load_rsa_slot _ _ _ _) as [e0 s]. injection E as _ <-. by eexists.
Qed.

Lemma sso_init_healthy e storage c :
  healthy e → ∃ m l, init_first e (Some c) = Some m ∧
    sso_init e storage (Some c) =
      Booted {| bt_config := Some (wipe_keys c); bt_storage := if storage then Some (database_of (Some c)) else None;
                bt_limiter := l; bt_tokens := init_second (Some c) m |}.
Proof.
  intros (Hg & Ha & Hs & Ho). destruct (init_first_some e (Some c)) as [m Hm].
  exists m, (replicate (limiter_size (Some c)) free_entry). split; [done|]. unfold sso_init. rewrite Hg, Hs. cbn [negb].
  rewrite andb_false_r. set (opened := match b_open e with Some _ => _ | None => _ end).
  replace opened with SSO_OK by (unfold opened; destruct (b_open e); [by destruct storage|done]). cbn [is_ok].
  assert (Hl : ∃ k, limiter_size (Some c) = S k).
  { unfold limiter_size. destruct (0 <? max_ips c) eqn:Hz; reflect_bools; [|by eexists].
    exists (Z.to_nat (max_ips c - 1)). lia. }
  destruct Hl as [k Hk]. rewrite Hk. unfold rate_limiter_create. rewrite !Ha, Hg. cbn [negb].
  change (negb (is_ok SSO_OK)) with false. cbv iota. rewrite Hm. unfold managers_fail. cbn [forallb]. by rewrite !Hg.
Qed.

Lemma provision_healthy e base id :
  healthy_tenant e → ∃ b, provision e base id = Ret (Some b) ∧ bt_storage b = Some (database_of (Some (tenant_config base id))).
Proof.
  intros (Hc & Hk & Hb). unfold provision. rewrite Hc. cbn [negb].
  destruct (sso_init_healthy _ (te_creates e (backend_of (tenant_config base id))) (tenant_config base id) Hb)
    as (m & l & _ & ->). eexists. split; [done|]. simpl. by rewrite Hk.
Qed.

(** The registry: distinct labels, at most 64, each with its database. *)
Record registry_wf (base : sso_config_t) (reg : registry) : Prop := {
  rg_nodup : NoDup reg.*1; rg_max : (length reg ≤ MAX_TENANTS)%nat;
  rg_storage : Forall (λ t, bt_storage t.2 = Some (database_of (Some (tenant_config base t.1)))) reg;
  rg_short : Forall (λ t, (length t.1 ≤ 127)%nat) reg
}.

(** What an answer means for a host, in terms of a later registry. *)
Definition reached (reg : registry) (host : cstr) (c : context_ref) : Prop :=
  match c with
  | Tenant i => ∃ id b, tenant_id_of host = Some id ∧ reg !! i = Some (id, b)
  | Main => tenant_id_of host = None ∨ ∃ id, tenant_id_of host = Some id ∧ id ∉ reg.*1 ∧ length reg = MAX_TENANTS
  end.

Lemma find_tenant (reg : registry) id :
  match find_index (λ t : cstr * booted, strcmp_eq t.1 id) reg with
  | Some i => ∃ b, reg !! i = Some (id, b)
  | None => id ∉ reg.*1
  end.
Proof.
  destruct (find_index _ reg) as [i|] eqn:E.
  - apply find_index_Some in E as ([k b] & Hi & Hk & _). apply bool_decide_eq_true in Hk. simpl in Hk. subst. by exists b.
  - rewrite find_index_None, Forall_forall in E. intros ([k b] & -> & Hin)%list_elem_of_fmap.
    apply E in Hin. simpl in Hin. by rewrite strcmp_eq_refl in Hin.
Qed.

Lemma get_tenant_context_spec e base host reg :
  healthy_tenant e → registry_wf base reg →
  ∃ c reg', get_tenant_context e base host reg = Ret (c, reg') ∧ registry_wf base reg' ∧ reg `prefix_of` reg' ∧
    reached reg' host c.
Proof.
  intros He Hwf. unfold get_tenant_context. destruct (tenant_id_of host) as [id|] eqn:Hid.
  2: { exists Main, reg. split_and!; [done|done|done|by left]. }
  pose proof (find_tenant reg id) as Hfind. destruct (find_index _ reg) as [i|].
  { destruct Hfind as [b Hb]. exists (Tenant i), reg. split_and!; [done|done|done|by exists id, b]. }
  destruct (_ <=? _)%nat eqn:Hmax.
  { apply Nat.leb_le in Hmax. pose proof (rg_max _ _ Hwf). exists Main, reg. split_and!; [done|done|done|].
    right. exists id. split_and!; [done|done|lia]. }
  apply Nat.leb_gt in Hmax. destruct (provision_healthy e base id He) as (b & -> & Hb). cbn [mbind outcome_bind].
  pose proof (tenant_id_length _ _ Hid). rewrite sso_strlcpy_fits by lia.
  eexists _, _. split; [done|]. split; [|split; [by eexists|]].
  - destruct Hwf as [W1 W2 W3 W4]. split.
    + rewrite fmap_app. apply NoDup_app. split_and!; [done| |by apply NoDup_singleton].
      intros x Hx Hx2%list_elem_of_singleton. by subst.
    + rewrite length_app. simpl. lia.
    + apply Forall_app. split; [done|]. by apply Forall_singleton.
    + apply Forall_app. split; [done|]. by apply Forall_singleton.
  - exists id, b. split; [done|]. by apply list_lookup_middle.
Qed.

Lemma reached_prefix reg reg' host c :
  reached reg host c → reg `prefix_of` reg' → (length reg' ≤ MAX_TENANTS)%nat → reached reg' host c.
Proof.
  intros Hr [k ->] Hl. destruct c as [|i].
  - destruct Hr as [?|(id & Hid & Hn & Hfull)]; [by left|]. right. exists id.
    destruct k; [|rewrite length_app in Hl; simpl in Hl; lia]. by rewrite app_nil_r.
  - destruct Hr as (id & b & Hid & Hi). exists id, b. split; [done|]. by apply lookup_app_l_Some.
Qed.

Lemma route_hosts_spec base reqs reg :
  Forall (λ r, healthy_tenant r.1) reqs → registry_wf base reg →
  ∃ cs reg', route_hosts base reqs reg = Ret (cs, reg') ∧ registry_wf base reg' ∧ reg `prefix_of` reg' ∧
    Forall2 (λ r c, reached reg' r.2 c) reqs cs.
Proof.
  revert reg. induction reqs as [|[e host] reqs IH]; intros reg Hh Hwf; cbn [route_hosts].
  { exists [], reg. split_and!; [done|done|done|constructor]. }
  apply Forall_cons in Hh as [He Hh].
  destruct (get_tenant_context_spec e base host reg He Hwf) as (c & reg1 & -> & Hwf1 & Hp1 & Hr1). cbn [mbind outcome_bind].
  destruct (IH reg1 Hh Hwf1) as (cs & reg2 & -> & Hwf2 & Hp2 & Hrs). cbn [mbind outcome_bind].
  exists (c :: cs), reg2. split_and!; [done|done|by etrans|].
  constructor; [|done]. eapply reached_prefix; [done|done|by eapply rg_max].
Qed.


End Routing.

(* ------------------------------------------------------------------ *)
(** ** Signing keys *)

Section SharedKey.
Context `{Crypto, !CryptoLaws, JsonWriter, !JsonWriterLaws, Interner, !InternerLaws}.
Context (alloc : Z → bool) (Halloc : ∀ n, alloc n = true).

(** The contexts of a server with settings [c] in a process whose
    SSO_TOKEN_SECRET is [v]: its own, and the tenants, whose settings are
    copied from those the server's context holds. *)
Inductive context_of (v : cstr) (c : sso_config_t) : booted → Prop :=
| main_context e storage b :
    b_secret_var e = Some v → sso_init e storage (Some c) = Booted b → context_of v c b
| tenant_context e id b :
    b_secret_var (te_boot e) = Some v → provision e (wipe_keys c) id = Ret (Some b) → context_of v c b.

Lemma sso_init_tokens e storage c b :
  sso_init e storage (Some c) = Booted b → ∃ m, init_first e (Some c) = Some m ∧ bt_tokens b = init_second (Some c) m.
Proof.
  unfold sso_init. destruct (_ && _); [done|]. destruct (negb (b_sodium e)); [done|]. destruct (negb (is_ok _)); [done|].
  destruct (rate_limiter_create _ _) as [[] [l|]]; try done. destruct (negb (b_gets e ATokens)); [done|].
  destruct (init_first e (Some c)) as [m|]; [|done]. destruct (managers_fail e); [done|]. intros [= <-]. by exists m.
Qed.

Lemma init_second_first config m :
  tm_mode (init_second config m) = tm_mode m ∧ slot0 (init_second config m) = slot0 m ∧
  active_slot (init_second config m) = active_slot m.
Proof.
  unfold init_second. destruct config as [c|]; [|done]. destruct (private_key_pem_2 _) as [|x p].
  - destruct (token_secret_2 _) as [|y s]; [done|]. unfold token_manager_init_standby. by destruct (padded_secret _).
  - unfold token_manager_init_rs256_standby. by destruct (populate_slot_rs256 _ _ _).
Qed.

Lemma padded_secret_cut (v : cstr) n : (32 ≤ n)%nat → padded_secret (take n v) = padded_secret v.
Proof.
  intros Hn. unfold padded_secret, SSO_SECRET_BYTES. rewrite <- !firstn_map, take_take, length_take.
  rewrite Nat.min_l by lia. f_equal. f_equal. lia.
Qed.

(** The signing key of every context. *)
Lemma context_key v c b :
  v ≠ [] → token_secret (c_security c) = take 126 v → private_key_pem (c_security c) = [] → context_of v c b →
  tm_mode (bt_tokens b) = SSO_TOKEN_MODE_HS256 ∧ active_slot (bt_tokens b) = false ∧
  slot0 (bt_tokens b) = hs256_slot "sso-key-1" (padded_secret v).
Proof.
  intros Hv Hsec Hpem Hb.
  assert (Hm : ∃ e c' m, bt_tokens b = init_second (Some c') m ∧ init_first e (Some c') = Some m ∧ b_secret_var e = Some v ∧
    private_key_pem (c_security c') = [] ∧ (token_secret (c_security c') = take 126 v ∨ token_secret (c_security c') = [])).
  { destruct Hb as [e st b He Hi|e id b He Hp].
    - apply sso_init_tokens in Hi as (m & Hm & ->). exists e, c, m. split_and!; auto.
    - unfold provision in Hp. destruct (negb _); [done|].
      destruct (sso_init (te_boot e) _ _) as [b'|e' []] eqn:Hi; [|done|done]. injection Hp as ->.
      apply sso_init_tokens in Hi as (m & Hm & ->). exists (te_boot e), (tenant_config (wipe_keys c) id), m.
      split_and!; [done|done|done|done|by right]. }
  destruct Hm as (e & c' & m & -> & Hf & He & Hp & Hs). destruct (init_second_first (Some c') m) as (-> & -> & ->).
  assert (Hsecret : match token_secret (c_security c') with [] => load_token_secret e | s => padded_secret s end = padded_secret v).
  { unfold load_token_secret. rewrite He. destruct v as [|x v]; [done|]. destruct Hs as [-> | ->]; [|done].
    cbn [take]. change (x :: take 125 v) with (take 126 (x :: v)). by apply padded_secret_cut; lia. }
  unfold init_first in Hf. rewrite Hp, Hsecret in Hf. unfold token_manager_init in Hf.
  destruct (padded_secret v) as [|y s] eqn:Ep; [pose proof (padded_secret_length v) as Hl; by rewrite Ep in Hl|].
  injection Hf as <-. done.
Qed.

(** The tenants of a server are not separated by their tokens: where
    the signing secret comes from SSO_TOKEN_SECRET, as it should in
    production, a token that one context of the server issues is accepted
    by every other one, for whatever user has the same number there. *)
Theorem tenants_share_tokens v c0 getenv b1 b2 user roles groups scope ttl now rand8 rand32 :
  let c := sso_config_apply_env getenv c0 in
  let m := bt_tokens b1 in
  let t := issue_claims m user roles groups scope ttl None now rand8 in
  getenv "SSO_TOKEN_SECRET" = Some v → v ≠ [] → private_key_pem (c_security c) = [] →
  context_of v c b1 → context_of v c b2 →
  0 ≤ user < 2 ^ 64 → Forall (λ z, 0 ≤ z < 2 ^ 64) roles → Forall (λ z, 0 ≤ z < 2 ^ 64) groups →
  plain_str (default [] scope) = true → 0 ≤ token_get_nonce (tables m) user < 2 ^ 64 → - 2 ^ 63 ≤ now < 2 ^ 63 →
  - 2 ^ 63 ≤ now + actual_ttl ttl (default_ttl_ms m) < 2 ^ 63 → now ≤ now + actual_ttl ttl (default_ttl_ms m) →
  (length (compact (payload_json t)) ≤ 1533)%nat → (∀ s, is_Some (intern_string s)) →
  ∃ body sig out,
    token_issue alloc m user roles groups scope ttl None now rand8 rand32 = Ret (SSO_OK, out) ∧
    token_str out = body ++ "."%char :: sig ∧
    (is_hex_str sig = false →
     ∃ tok, token_verify alloc (bt_tokens b2) (Some (token_str out)) now = Ret (SSO_OK, tok) ∧ tk_user_id tok = user).
Proof.
  intros c m t Hvar Hv Hpem H1' H2' Hu Hr Hg Hs Hn Hnow He Hlater Hl Hint.
  assert (Hsec : token_secret (c_security c) = take 126 v) by (unfold c; cbn [sso_config_apply_env c_security env_security token_secret]; unfold env_string; by rewrite Hvar).
  destruct (context_key _ _ _ Hv Hsec Hpem H1') as (Hm1 & Ha1 & Hs1).
  destruct (context_key _ _ _ Hv Hsec Hpem H2') as (Hm2 & Ha2 & Hs2).
  assert (Hsign : can_sign m).
  { split; [done|..]; unfold m; rewrite Ha1; cbn [slot_at]; rewrite Hs1; [reflexivity|done|cbn; unfold SSO_KEY_ID_MAX; lia]. }
  assert (Hkey : has_key (bt_tokens b2) m).
  { split; [done|]. exists false. unfold m. rewrite Ha1. cbn [slot_at]. rewrite Hs1, Hs2. split; [|done].
    unfold slot_index_by_kid. by rewrite Hs2. }
  assert (Hi : issuable t) by (by apply issue_claims_issuable).
  eexists (signing_of m t), (signature_of m (signing_of m t)), _.
  split_and!; [by apply token_issue_text|done|]. intros Hhex.
  eexists. split; [by apply (token_verify_text alloc Halloc m)|done].
Qed.

End SharedKey.

(* ------------------------------------------------------------------ *)
(** ** A server with tenants *)

Definition small (c : sso_config_t) : sso_config_t :=
  {| c_server := c_server c; c_database := c_database c; c_security := c_security c; c_sms := c_sms c;
     c_logging := c_logging c; c_oauth := c_oauth c; max_ips := 4; c_password_policy := c_password_policy c;
     c_raft := c_raft c; otlp_endpoint := otlp_endpoint c |}.
Definition secret_env : cstr → option cstr :=
  λ n, if bool_decide (n = "SSO_TOKEN_SECRET") then Some ("a long random text" : cstr) else None.
Definition server_config : sso_config_t := sso_config_apply_env secret_env (small sso_config_default).
Definition boot_ok : boot_env :=
  {| b_gets := λ _, true; b_alloc := λ _, true; b_sodium := true; b_open := Some (λ _, SSO_OK);
     b_secret_var := Some ("a long random text" : cstr); b_urandom := []; b_now := 0; b_stack := [] |}.
Definition tenant_ok : tenant_env := {| te_ctx := true; te_creates := λ _, true; te_boot := boot_ok |}.

Lemma boot_ok_healthy : healthy boot_ok.
Proof. by repeat split. Qed.

Definition sample_hosts : list (tenant_env * cstr) :=
  [(tenant_ok, "acme.example.com" : cstr); (tenant_ok, "localhost:8080" : cstr); (tenant_ok, "acme.test" : cstr);
   (tenant_ok, "10.0.0.1" : cstr)].


Definition no_boot : booted (H := sample_crypto) :=
  {| bt_config := None; bt_storage := None; bt_limiter := []; bt_tokens := sample_manager |}.
Definition main_boot : booted (H := sample_crypto) :=
  Eval vm_compute in match sso_init (H := sample_crypto) boot_ok true (Some server_config) with
                     | Booted b => b
                     | BootFailed _ _ => no_boot
                     end.
Definition acme_boot : booted (H := sample_crypto) :=
  Eval vm_compute in match provision (H := sample_crypto) tenant_ok (wipe_keys server_config) "acme" with
                     | Ret (Some b) => b
                     | _ => no_boot
                     end.

Lemma main_boot_context : context_of (H := sample_crypto) "a long random text" server_config main_boot.
Proof. apply (main_context _ _ boot_ok true); vm_compute; reflexivity. Qed.
Lemma acme_boot_context : context_of (H := sample_crypto) "a long random text" server_config acme_boot.
Proof. apply (tenant_context _ _ tenant_ok "acme"); vm_compute; reflexivity. Qed.

Lemma tenants_share_tokens_witness :
  ∃ body sig out,
    token_issue (H := sample_crypto) (H0 := sample_writer) (H1 := sample_interner) (λ _, true) (bt_tokens acme_boot) 1 [] []
      None 0 None 1700000000000 [1; 2; 3; 4; 5; 6; 7; 8] [9; 9; 9] = Ret (SSO_OK, out) ∧
    token_str out = body ++ "."%char :: sig ∧
    (is_hex_str sig = false →
     ∃ tok, token_verify (H := sample_crypto) (λ _, true) (bt_tokens main_boot) (Some (token_str out)) 1700000000000 =
       Ret (SSO_OK, tok) ∧ tk_user_id tok = 1).
Proof.
  refine (tenants_share_tokens (H := sample_crypto) (H0 := sample_crypto_laws) (H1 := sample_writer)
    (H2 := sample_writer_laws) (H3 := sample_interner) (H4 := sample_interner_laws) (λ _, true) _
    "a long random text" (small sso_config_default) secret_env acme_boot main_boot 1 [] [] None 0 1700000000000
    [1; 2; 3; 4; 5; 6; 7; 8] [9; 9; 9] _ _ _ _ _ _ _ _ _ _ _ _ _ _ _).
  - done.
  - reflexivity.
  - discriminate.
  - reflexivity.
  - exact acme_boot_context.
  - exact main_boot_context.
  - lia.
  - constructor.
  - constructor.
  - reflexivity.
  - vm_compute. split; [discriminate|reflexivity].
  - lia.
  - vm_compute. split; [discriminate|reflexivity].
  - vm_compute. discriminate.
  - apply Nat.leb_le. vm_compute. reflexivity.
  - intros s. by eexists.
Defined.
