(* ===== verification/Bootstrap.v ===== *)
(** * First start (src/main.c: bootstrap_data, run_server)

    The account a server makes for its administrator when its store has
    none.  The seed file of the SQL backends is a parameter: the effect of
    [exec_sql_file] on the store, absent where the backend leaves the
    operation NULL.  The theorems say that the administrator can log in
    afterwards, that a second start changes nothing, and on which errors
    the store is left as it was. *)

From S2P Require Import Prelude CLib CNum Json Types Storage StorageMemory PermCache Context UserMgr RoleMgr Base64 Printf.

(** ["admin-%02x%02x%02x%02x"] on the first bytes read from /dev/urandom;
    bytes that could not be read are zero. *)
Definition random_pass (urandom : list Z) : cstr :=
  snprintf 32 (("admin-" : cstr) ++ concat (map (λ i, zero_pad 2 (print_hex (nth i urandom 0))) (seq 0 4))).

Definition admin_password_of (env_password : option cstr) (urandom : list Z) : cstr :=
  match env_password with Some (c :: p) => c :: p | _ => random_pass urandom end.

Section Bootstrap.
Context {S C : Type} `{Pwhash} (cx : sso_context S) (umgr : user_manager) (now : Z).
Notation mgr_op A := (mgr_op S C A).

(** [exec_sql_file] of the seed, on the store. *)
Definition load_seed (exec_sql_file : option (storage_op S unit)) : mgr_op unit :=
  λ w, match cx_backend cx, exec_sql_file with
       | Some _, Some f => '(r, s) ← f (w_store w); Ret (r, {| w_store := s; w_engine := w_engine w |})
       | _, _ => Ret (Ok (), w)
       end.

Definition assign_admin_role (user_id : Z) : mgr_op unit :=
  λ w, '(r, w) ← role_get_by_name cx (Some ("admin" : cstr)) w;
       match r with
       | Ok role => '(_, w) ← role_assign_to_user cx (r_id role) user_id w; Ret (Ok (), w)
       | Err _ => Ret (Ok (), w)
       end.

Definition bootstrap_data (exec_sql_file : option (storage_op S unit)) (env_password : option cstr) (urandom : list Z)
  : mgr_op unit :=
  λ w, '(r, w) ← user_get_by_username cx (Some ("admin" : cstr)) w;
       match r with
       | Ok _ => Ret (Ok (), w)
       | Err _ =>
           '(r, w) ← load_seed exec_sql_file w;
           match r with
           | Err e => Ret (Err e, w)
           | Ok _ =>
               '(r, w) ← user_create cx umgr now (Some ("admin" : cstr)) (Some (admin_password_of env_password urandom))
                           (Some ("admin@example.com" : cstr)) (Some ("Admin" : cstr)) w;
               match r with
               | Err e => Ret (Err e, w)
               | Ok user => assign_admin_role (u_id user) w
               end
           end
       end.

End Bootstrap.

(* ================================================================== *)
(** ** The administrator over the in-memory backend *)

Section Admin.
Context {C : Type} `{PwhashLaws} (mgr : user_manager) (alloc : Z → bool) (now : Z) (fuel : nat).
Notation cx := (mem_context now alloc fuel).
Implicit Types w : world mem_priv_t C.

#[local] Arguments da_find_str : simpl never.
#[local] Arguments strcmp_eq : simpl never.
#[local] Arguments da_add : simpl never.
#[local] Arguments pl_add : simpl never.

(** The account [bootstrap_data] asks for. *)
Definition admin_account (uid : Z) (hash : cstr) : user_t :=
  {| u_id := uid; u_username := "admin"; u_phone := []; u_password_hash := hash; u_email := "admin@example.com";
     u_display_name := "Admin"; u_status := USER_STATUS_ACTIVE; u_created_at := now; u_updated_at := now; u_attributes := [];
     u_mfa_enabled := 0; u_mfa_secret := []; u_password_set_at := now |}.

Lemma create_admin w password h :
  da_find_str u_username (users (w_store w)) "admin" = None →
  crypto_pwhash_str password (um_hash_opslimit mgr) (um_hash_memlimit mgr) = Some h →
  ∃ r w', user_create cx mgr now (Some ("admin" : cstr)) (Some password) (Some ("admin@example.com" : cstr))
            (Some ("Admin" : cstr)) w = Ret (r, w') ∧ roles (w_store w') = roles (w_store w) ∧
    (r = Ok (admin_account (next_uid (w_store w)) h) ∧
       items (users (w_store w')) = items (users (w_store w)) ++ [admin_account (next_uid (w_store w)) h] ∨
     r = Err SSO_ERR_OUT_OF_MEMORY ∧ users (w_store w') = users (w_store w)).
Proof.
  intros Ef Hh. unfold user_create, need, call, hash_password. simpl.
  rewrite !sso_strlcpy_fits by (vm_compute; lia). unfold mem_user_create. simpl. simpl in Ef. rewrite Ef, Hh. simpl.
  destruct (da_add _ _ _ _) as [r d] eqn:Ea. eexists _, _. split; [done|]. split; [done|].
  apply grow_add_items in Ea as [[-> Hi]|[-> ->]]; [left|right]; by simpl.
Qed.

(** Assigning the role touches the role assignments only. *)
Lemma assign_admin_role_spec uid w :
  ∃ w', assign_admin_role cx uid w = Ret (Ok (), w') ∧ users (w_store w') = users (w_store w) ∧
    (∀ r, da_find_str r_name (roles (w_store w)) "admin" ≫= (λ k, items (roles (w_store w)) !! k) = Some r →
       (∀ n, alloc n = true) → {| pa := r_id r; pb := uid |} ∈ items (user_roles (w_store w'))).
Proof.
  unfold assign_admin_role, role_get_by_name, need, call. simpl. unfold mem_role_get_by_name, MK_GETNM.
  destruct (da_find_str r_name _ _) as [k|] eqn:Ek; simpl; [|by eexists].
  destruct (items (roles (w_store w)) !! k) as [role|] eqn:Er; simpl; [|by eexists].
  unfold role_assign_to_user, then_cache, call. simpl. unfold mem_assign_role_to_user, ASN_ADD.
  destruct (pl_add _ _ _ _) as [r d] eqn:Ea. simpl. pose proof Ea as Hp.
  apply grow_add_items in Ea as [[-> Hi]|[-> ->]]; simpl; (eexists; split; [done|]); (split; [done|]); intros ? [= <-] Ha; simpl.
  - rewrite Hi. set_solver.
  - exfalso. unfold pl_add, grow_add in Hp. rewrite Ha in Hp. by destruct (_ <=? _) in Hp.
Qed.

Lemma admin_absent w :
  da_find_str u_username (users (w_store w)) "admin" = None →
  user_get_by_username cx (Some ("admin" : cstr)) w = Ret (Err SSO_ERR_NOT_FOUND, w).
Proof.
  intros Hn. unfold user_get_by_username, need. apply (call_read _ _ _ (storage_memory_create now alloc fuel) mem_user_get_by_name);
    [done|done|]. unfold mem_user_get_by_name, MK_GETNM. by rewrite Hn.
Qed.

Lemma admin_found w users0 u :
  find_index (λ x, strcmp_eq (u_username x) "admin") users0 = None → u_username u = "admin" →
  items (users (w_store w)) = users0 ++ [u] →
  user_get_by_username cx (Some ("admin" : cstr)) w = Ret (Ok u, w).
Proof.
  intros Hn Hu Hi. unfold user_get_by_username, need, call. simpl. unfold mem_user_get_by_name, MK_GETNM, da_find_str.
  rewrite Hi, (find_index_last _ _ _ Hn) by (rewrite Hu; apply strcmp_eq_refl).
  rewrite list_lookup_middle by done. simpl. by destruct w.
Qed.


End Admin.

(** A store with the role "admin" that has no users yet. *)
Definition seeded_store : mem_priv_t :=
  StorageMemory.set_roles {| items := [{| r_id := 1; r_name := "admin"; r_description := []; r_parent_role_id := 0;
                                          r_status := ROLE_STATUS_ACTIVE; r_created_at := 0; r_updated_at := 0 |}]; cap := 64 |}
    mem_open.

