(* ===== verification/Webauthn.v ===== *)
(** * WebAuthn (src/webauthn.c, src/handlers_webauthn.c)

    Challenges, registration of a credential and login with it.  The CBOR
    objects are not parsed but searched; reads past the end of a buffer
    are crashes.  OpenSSL's elliptic curve keys are a class. *)

From S2P Require Import Prelude CLib CNum Json Types Storage StorageMemory PermCache Context UserMgr RoleMgr RateLimit Mfa Bits Base64 TokenState Token TokenScan TokenJwt Printf PermEngine AuditLog Dpop Risk Http AuthHandlers Config Boot.

(** P-256: the PEM text of the key with given coordinates, empty when the
    point is refused; reading such text; and [EVP_DigestVerify...] with
    SHA-256 on a message and a signature. *)
Class EcKeys := {
  ec_key : Type; ec_pem : list Z → list Z → cstr; ec_read : cstr → option ec_key;
  ec_verify : ec_key → list Z → list Z → bool
}.

(* ------------------------------------------------------------------ *)
(** ** Base64url *)

Fixpoint b64u_encode (input : list Z) : cstr :=
  match input with
  | [] => []
  | [b1] => [b64_char (Z.shiftr b1 2); b64_char (Z.lor (Z.shiftl (Z.land b1 3) 4) (Z.shiftr 0 4))]
  | [b1; b2] =>
      [b64_char (Z.shiftr b1 2); b64_char (Z.lor (Z.shiftl (Z.land b1 3) 4) (Z.shiftr b2 4));
       b64_char (Z.lor (Z.shiftl (Z.land b2 15) 2) (Z.shiftr 0 6))]
  | b1 :: b2 :: b3 :: rest =>
      b64_char (Z.shiftr b1 2) :: b64_char (Z.lor (Z.shiftl (Z.land b1 3) 4) (Z.shiftr b2 4)) ::
      b64_char (Z.lor (Z.shiftl (Z.land b2 15) 2) (Z.shiftr b3 6)) :: b64_char (Z.land b3 63) :: b64u_encode rest
  end.

(** The six bits of a character, negative for one that is skipped. *)
Definition b64u_value (c : ascii) : Z :=
  let x := schar c in
  if (65 <=? x) && (x <=? 90) then x - 65
  else if (97 <=? x) && (x <=? 122) then x - 97 + 26
  else if (48 <=? x) && (x <=? 57) then x - 48 + 52
  else if (x =? 45) || (x =? 43) then 62
  else if (x =? 95) || (x =? 47) then 63
  else -1.

(** The bytes of the two or three characters left at the end. *)
Definition b64u_rest (bits char_count : Z) : list Z :=
  if char_count =? 2 then [Z.land (Z.shiftr bits 4) 255]
  else if char_count =? 3 then [Z.land (Z.shiftr bits 10) 255; Z.land (Z.shiftr bits 2) 255]
  else [].

Fixpoint b64u_loop (input : cstr) (bits char_count : Z) : list Z :=
  match input with
  | [] => b64u_rest bits char_count
  | c :: input =>
      if Ascii.eqb c "=" then b64u_rest bits char_count
      else
        let v := b64u_value c in
        if v <? 0 then b64u_loop input bits char_count
        else
          let bits := Z.lor (Z.shiftl bits 6) v in
          if char_count + 1 =? 4 then
            Z.land (Z.shiftr bits 16) 255 :: Z.land (Z.shiftr bits 8) 255 :: Z.land bits 255 :: b64u_loop input 0 0
          else b64u_loop input bits (char_count + 1)
  end.
Definition b64u_decode (input : cstr) : list Z := b64u_loop input 0 0.

(** [malloc(strlen(in))] and the decoded bytes in it. *)
Definition decode_new (alloc : Z → bool) (input : cstr) : outcome (list Z) :=
  let out := b64u_decode input in
  if alloc (Z.of_nat (length input)) || bool_decide (out = []) then Ret out else Crash.

(* ------------------------------------------------------------------ *)
(** ** Attestation objects *)

(** The text key "authData" with its CBOR header. *)
Definition authData_key : list Z := 104 :: map ord ("authData" : cstr).

(** The length of the byte string whose header's low bits are [val], and
    the bytes from its contents on. *)
Definition data_header (val : Z) (q : list Z) : option (Z * list Z) :=
  if val <? 24 then Some (val, q)
  else if val =? 24 then match q with b :: q => Some (b, q) | [] => None end
  else if val =? 25 then match q with a :: b :: q => Some (Z.lor (Z.shiftl a 8) b, q) | _ => None end
  else None.

(** The search at every position that leaves more than nine bytes. *)
Fixpoint find_auth_loop (cbor : list Z) : option (list Z) :=
  match cbor with
  | [] => None
  | _ :: cbor' =>
      match drop 9 cbor with
      | [] => None
      | h :: q =>
          if bool_decide (take 9 cbor = authData_key) then
            if negb (Z.shiftr h 5 =? 2) then find_auth_loop cbor'
            else
              match data_header (Z.land h 31) q with
              | None => None
              | Some (data_len, q) =>
                  if data_len <=? Z.of_nat (length q) then Some (take (Z.to_nat data_len) q) else find_auth_loop cbor'
              end
          else find_auth_loop cbor'
      end
  end.

(** [len - sizeof(authData_key)] wraps for a shorter object, and the
    search leaves the buffer. *)
Definition find_auth_data (cbor : list Z) : outcome (option (list Z)) :=
  if (length cbor <? 9)%nat then Crash else Ret (find_auth_loop cbor).

(** A coordinate: its key, the header of 32 bytes, and the bytes. *)
Definition coordinate (key : Z) (l : list Z) (before : option (list Z)) : option (list Z) :=
  if bool_decide (take 3 l = [key; 88; 32]) then Some (take 32 (drop 3 l)) else before.

Fixpoint cose_loop (l : list Z) (x y : option (list Z)) : option (list Z) * option (list Z) :=
  match l with
  | [] => (x, y)
  | _ :: l' =>
      match drop 34 l with
      | [] => (x, y)
      | _ => cose_loop l' (coordinate 33 l x) (coordinate 34 l y)
      end
  end.

Definition extract_cose_ec2_key `{EcKeys} (alloc : Z → bool) (cose_cbor : list Z) : outcome (result cstr) :=
  if (length cose_cbor <? 34)%nat then Crash
  else
    match cose_loop cose_cbor None None with
    | (Some x, Some y) =>
        let pem := ec_pem x y in
        if alloc (Z.of_nat (length pem) + 1) then Ret (Ok pem) else Crash
    | _ => Ret (Err SSO_ERR_TOKEN_INVALID)
    end.

(* ------------------------------------------------------------------ *)
(** ** Ceremonies *)

Section Verify.
Context `{Crypto, JsonReader, Sha256, EcKeys} (alloc : Z → bool).

Definition verify_client_data (raw : list Z) (expected_challenge expected_origin : cstr) : sso_error_t :=
  match yyjson_read (map chr raw) with
  | None => SSO_ERR_INVALID_PARAM
  | Some root =>
      match as_str (yyjson_obj_get (Some root) "challenge"), as_str (yyjson_obj_get (Some root) "origin") with
      | Some challenge, Some origin =>
          if strcmp_eq challenge expected_challenge && strcmp_eq origin expected_origin then SSO_OK else SSO_ERR_AUTH_FAILED
      | _, _ => SSO_ERR_AUTH_FAILED
      end
  end.

(** The credential id and the key of the attested data in [auth_data]. *)
Definition attested_credential (auth_data : list Z) : outcome (result (cstr * cstr)) :=
  let len := Z.of_nat (length auth_data) in
  let at_ i := nth i auth_data 0 in
  if len <? 37 then Ret (Err SSO_ERR_INVALID_PARAM)
  else if Z.land (at_ 32%nat) 64 =? 0 then Ret (Err SSO_ERR_INVALID_PARAM)
  else if len <? 55 then Ret (Err SSO_ERR_INVALID_PARAM)
  else
    let cred_len := Z.lor (Z.shiftl (at_ 53%nat) 8) (at_ 54%nat) in
    if len <? 55 + cred_len then Ret (Err SSO_ERR_INVALID_PARAM)
    else if negb (alloc (cred_len * 2 + 1)) then Crash
    else
      let cred := take (Z.to_nat cred_len) (drop 55 auth_data) in
      key ← extract_cose_ec2_key alloc (drop (55 + Z.to_nat cred_len) auth_data);
      Ret (match key with Ok pem => Ok (b64u_encode cred, pem) | Err e => Err e end).

Definition webauthn_register_verify (attestation_b64u client_data_b64u expected_challenge expected_origin : cstr)
  : outcome (result (cstr * cstr)) :=
  att ← decode_new alloc attestation_b64u;
  cdata ← decode_new alloc client_data_b64u;
  let err := verify_client_data cdata expected_challenge expected_origin in
  if negb (is_ok err) then Ret (Err err)
  else
    auth_data ← find_auth_data att;
    match auth_data with
    | None => Ret (Err SSO_ERR_INVALID_PARAM)
    | Some auth_data => attested_credential auth_data
    end.

Definition webauthn_login_verify (authenticator_data_b64u client_data_b64u signature_b64u expected_challenge
    expected_origin public_key_pem : cstr) : outcome sso_error_t :=
  authData ← decode_new alloc authenticator_data_b64u;
  cdata ← decode_new alloc client_data_b64u;
  sig ← decode_new alloc signature_b64u;
  let err := verify_client_data cdata expected_challenge expected_origin in
  if negb (is_ok err) then Ret err
  else if negb (alloc (Z.of_nat (length authData) + 32)) then Crash
  else
    match ec_read public_key_pem with
    | None => Ret SSO_ERR_GENERAL
    | Some pkey => Ret (if ec_verify pkey (authData ++ sha256 cdata) sig then SSO_OK else SSO_ERR_AUTH_FAILED)
    end.

End Verify.

(* ------------------------------------------------------------------ *)
(** ** Handlers *)

Section Handlers.
Context {S C : Type} `{Crypto, InsituReader, JsonReader, JsonWriter, Interner, Sha256, RsaKeys, EcKeys}.
Context (cx : sso_context S) (env : request_env) (cfg : sso_config_t) (random32 : list Z).
Notation handler := (handler S C).
Notation now := (e_now env).
Implicit Types (req : http_request_t) (resp : http_response_t).

(** The hexadecimal HMAC of a challenge under the secret in the
    settings of the context. *)
Definition sign_challenge (challenge : cstr) : cstr :=
  concat (map (λ b, zero_pad 2 (print_hex b)) (hmac_sha256 (bytes_of (token_secret (c_security cfg))) (bytes_of challenge))).

(** [webauthn_generate_challenge] and its signature; without memory the
    signature is asked of NULL. *)
Definition new_challenge : handler (cstr * cstr) :=
  if negb (e_alloc env 64) then lift Crash
  else let challenge := b64u_encode random32 in mret (challenge, sign_challenge challenge).

(** The body as a document. *)
Definition body_json : handler (option json) := s ← get_state; mret (ss_body s ≫= yyjson_read).
Definition str_of (root : option json) (key : cstr) : option cstr := as_str (yyjson_obj_get root key).

(** [sso_response_ok] on what the writer gives, which may be NULL. *)
Definition answer_json resp (v : json) : handler http_response_t :=
  match yyjson_mut_write v with Some text => mret (sso_response_ok env text resp) | None => lift Crash end.

Definition expected_origin_of req : cstr := snprintf 512 (("http://" : cstr) ++ rq_host req).

Definition handle_webauthn_register_challenge req resp : handler http_response_t :=
  match rq_userdata req with
  | None => fail env resp 401 "Authentication required"
  | Some actx =>
      '(challenge, sig) ← new_challenge;
      answer_json resp (JObj [("challenge" : cstr, JStr challenge); ("challenge_sig" : cstr, JStr sig);
                              ("user_id" : cstr, JUint (u_id (ac_user actx)));
                              ("username" : cstr, JStr (u_username (ac_user actx)))])
  end.

Definition SSO_MAX_ATTRIBUTES : nat := 2048.

(** The attributes of a user with the credential added at the end of the
    object; attributes that are not JSON are lost. *)
Definition with_credential (attributes cred_id pub_key : cstr) : cstr :=
  let root := match attributes with [] => Some (JObj []) | _ => yyjson_read attributes end in
  let root := match root with
              | Some (JObj kvs) => Some (JObj (kvs ++ [("webauthn_credential_id" : cstr, JStr cred_id);
                                                       ("webauthn_public_key" : cstr, JStr pub_key)]))
              | _ => root
              end in
  sso_strlcpy (root ≫= yyjson_mut_write) SSO_MAX_ATTRIBUTES.

Definition with_attributes (a : cstr) (u : user_t) : user_t :=
  {| u_id := u_id u; u_username := u_username u; u_phone := u_phone u; u_password_hash := u_password_hash u;
     u_email := u_email u; u_display_name := u_display_name u; u_status := u_status u; u_created_at := u_created_at u;
     u_updated_at := u_updated_at u; u_attributes := a; u_mfa_enabled := u_mfa_enabled u; u_mfa_secret := u_mfa_secret u;
     u_password_set_at := u_password_set_at u |}.

Definition save_credential (user_id : Z) (cred_id pub_key : cstr) : handler unit :=
  u ← on_world (user_get_by_id cx user_id);
  match u with
  | Err _ => mret ()
  | Ok user =>
      _ ← on_world (user_update cx now (with_attributes (with_credential (u_attributes user) cred_id pub_key) user));
      mret ()
  end.

Definition handle_webauthn_register req resp : handler http_response_t :=
  match rq_userdata req with
  | None => fail env resp 401 "Authentication required"
  | Some actx =>
      doc ← body_json;
      if bool_decide (doc = None) then fail env resp 400 "Invalid JSON"
      else
        match str_of doc "challenge", str_of doc "challenge_sig", str_of doc "attestation_object",
              str_of doc "client_data_json" with
        | Some challenge, Some sig, Some attestation_b64u, Some client_data_b64u =>
            if negb (strcmp_eq sig (sign_challenge challenge)) then fail env resp 400 "Invalid challenge signature"
            else
              r ← lift (webauthn_register_verify (e_alloc env) attestation_b64u client_data_b64u challenge
                          (expected_origin_of req));
              match r with
              | Err _ => fail env resp 400 "WebAuthn registration verification failed"
              | Ok (cred_id, pub_key) =>
                  _ ← save_credential (u_id (ac_user actx)) cred_id pub_key;
                  answer_json resp (JObj [("message" : cstr, JStr "WebAuthn credentials registered successfully")])
              end
        | _, _, _, _ => fail env resp 400 "Missing parameters"
        end
  end.

(** A user by name who may log in. *)
Definition active_named (username : cstr) : handler (option user_t) :=
  u ← on_world (user_get_by_username cx (Some username));
  mret (match u with Ok user => if bool_decide (u_status user = USER_STATUS_ACTIVE) then Some user else None | Err _ => None end).

Definition stored_credential (user : user_t) (key : cstr) : option cstr := str_of (yyjson_read (u_attributes user)) key.

Definition handle_webauthn_login_challenge req resp : handler http_response_t :=
  doc ← body_json;
  if bool_decide (doc = None) then fail env resp 400 "Invalid JSON"
  else
    match str_of doc "username" with
    | None => fail env resp 400 "Missing username"
    | Some username =>
        u ← active_named username;
        match u with
        | None => fail env resp 401 "User not found or inactive"
        | Some user =>
            match stored_credential user "webauthn_credential_id" with
            | None => fail env resp 400 "WebAuthn is not configured for this user"
            | Some cred_id =>
                '(challenge, sig) ← new_challenge;
                answer_json resp (JObj [("challenge" : cstr, JStr challenge); ("challenge_sig" : cstr, JStr sig);
                                        ("credential_id" : cstr, JStr cred_id)])
            end
        end
    end.

(** The session of a user who has shown the credential. *)
Definition webauthn_session req resp (user : user_t) : handler http_response_t :=
  _ ← risk_succeeded env req (u_id user);
  _ ← limit_reset (rq_client_ip req);
  roles ← roles_of cx (u_id user);
  groups ← groups_of cx (u_id user);
  let bound := bool_decide (rq_dpop_proof req ≠ []) in
  '(_, access) ← issue env 0 (u_id user) roles groups (Some ("*" : cstr)) 0 (if bound then Some (rq_dpop_proof req) else None);
  '(_, refresh) ← issue env 1 (u_id user) roles groups (Some ("refresh" : cstr)) 604800000 None;
  answer_json resp (JObj [("access_token" : cstr, JStr (token_str access)); ("refresh_token" : cstr, JStr (token_str refresh));
                          ("token_type" : cstr, JStr (if bound then "DPoP" else "Bearer"));
                          ("expires_in" : cstr, JUint (u64 (tk_expires_at access - now)))]).

Definition handle_webauthn_login req resp : handler http_response_t :=
  doc ← body_json;
  if bool_decide (doc = None) then fail env resp 400 "Invalid JSON"
  else
    match str_of doc "username", str_of doc "challenge", str_of doc "challenge_sig", str_of doc "authenticator_data",
          str_of doc "client_data_json", str_of doc "signature" with
    | Some username, Some challenge, Some sig, Some auth_data_b64u, Some client_data_b64u, Some signature_b64u =>
        if negb (strcmp_eq sig (sign_challenge challenge)) then fail env resp 400 "Invalid challenge signature"
        else
          u ← active_named username;
          match u with
          | None => fail env resp 401 "User not found or inactive"
          | Some user =>
              risk_score ← evaluate_risk env req (u_id user);
              if RISK_SCORE_HIGH <=? risk_score then
                _ ← risk_failed env req (u_id user); fail env resp 401 "High risk login blocked"
              else
                match stored_credential user "webauthn_public_key" with
                | None => fail env resp 400 "WebAuthn is not configured for this user"
                | Some pub_key =>
                    err ← lift (webauthn_login_verify (e_alloc env) auth_data_b64u client_data_b64u signature_b64u challenge
                                  (expected_origin_of req) pub_key);
                    if negb (is_ok err) then
                      _ ← risk_failed env req (u_id user); fail env resp 401 "WebAuthn authentication failed"
                    else webauthn_session req resp user
                end
          end
    | _, _, _, _, _, _ => fail env resp 400 "Missing parameters"
    end.

End Handlers.

(* ================================================================== *)
(** ** Round trips *)

Lemma b64u_step v rest bits n :
  0 ≤ v < 64 → 0 ≤ bits →
  b64u_loop (b64_char v :: rest) bits n =
    if n + 1 =? 4 then
      (bits * 64 + v) / 65536 mod 256 :: (bits * 64 + v) / 256 mod 256 :: (bits * 64 + v) mod 256 :: b64u_loop rest 0 0
    else b64u_loop rest (bits * 64 + v) (n + 1).
Proof.
  intros Hv Hb. cbn [b64u_loop].
  assert (E : Ascii.eqb (b64_char v) "=" = false).
  { pose proof (b64_char_in v Hv) as Hin. apply Ascii.eqb_neq. intros E. rewrite E in Hin.
    apply (bool_decide_eq_true_2 _) in Hin. by vm_compute in Hin. }
  rewrite E. change b64u_value with b64url_rev. rewrite b64_rev_char by done. rewrite (proj2 (Z.ltb_ge _ _)) by lia.
  rewrite lor_shift_add by (change (2 ^ 6) with 64; lia). change (2 ^ 6) with 64. change 255 with (Z.ones 8).
  rewrite !Z.land_ones, !Z.shiftr_div_pow2 by lia. done.
Qed.

Lemma b64u_roundtrip l : words 8 l → b64u_decode (b64u_encode l) = l.
Proof.
  unfold b64u_decode. induction l as [|a|a b|a b c l IH] using groups_ind; intros Hw; bytes; [done|cbn [b64u_encode]..].
  - rewrite (b64_v2 a 0), b64_v1 by lia. rewrite !b64u_step by (Z.div_mod_to_equations; lia). simpl.
    unfold b64u_rest. change 255 with (Z.ones 8). rewrite Z.land_ones, Z.shiftr_div_pow2 by lia. simpl. f_equal.
    change (2 ^ 4) with 16. change (2 ^ 8) with 256. Z.div_mod_to_equations. lia.
  - rewrite (b64_v3 b 0), b64_v2, b64_v1 by lia. rewrite !b64u_step by (Z.div_mod_to_equations; lia). simpl.
    unfold b64u_rest. change 255 with (Z.ones 8). rewrite !Z.land_ones, !Z.shiftr_div_pow2 by lia. simpl.
    change (2 ^ 10) with 1024. change (2 ^ 2) with 4. change (2 ^ 8) with 256. f_equal; [|f_equal]; Z.div_mod_to_equations; lia.
  - b64_group. rewrite !b64u_step by (Z.div_mod_to_equations; lia). simpl.
    rewrite IH by done. f_equal; [|f_equal; [|f_equal]]; Z.div_mod_to_equations; lia.
Qed.

Lemma decode_new_encode alloc l : words 8 l → (∀ n, alloc n = true) → decode_new alloc (b64u_encode l) = Ret l.
Proof. intros Hl Ha. unfold decode_new. by rewrite b64u_roundtrip, Ha by done. Qed.

(** What an authenticator makes: the COSE key of a point, the data that
    attests a credential, and the object that carries the data after
    other members. *)
Definition cose_key (x y : list Z) : list Z := [165; 1; 2; 3; 38; 32; 1] ++ [33; 88; 32] ++ x ++ [34; 88; 32] ++ y.

Record attested := {
  at_rp_hash : list Z; at_flags : Z; at_counter : list Z; at_aaguid : list Z; at_credential : list Z; at_x : list Z; at_y : list Z
}.
Definition two_bytes (n : nat) : list Z := [Z.of_nat n / 256; Z.of_nat n mod 256].
Definition auth_data_of (a : attested) : list Z :=
  at_rp_hash a ++ [at_flags a] ++ at_counter a ++ at_aaguid a ++ two_bytes (length (at_credential a)) ++ at_credential a ++
  cose_key (at_x a) (at_y a).

Definition byte_header (n : nat) : list Z := if (n <? 256)%nat then [88; Z.of_nat n] else 89 :: two_bytes n.
Definition attestation_object (members : list Z) (a : attested) : list Z :=
  members ++ authData_key ++ byte_header (length (auth_data_of a)) ++ auth_data_of a.

(** The text [p] starts at none of the first [n] positions of [l]. *)
Definition occurs_not (p : list Z) (n : nat) (l : list Z) : Prop := ∀ i, (i < n)%nat → take (length p) (drop i l) ≠ p.

Record attested_ok (members : list Z) (a : attested) : Prop := {
  ao_members : words 8 members ∧ occurs_not authData_key (length members) (members ++ authData_key);
  ao_rp : length (at_rp_hash a) = 32%nat ∧ words 8 (at_rp_hash a);
  ao_flags : 0 ≤ at_flags a < 256 ∧ Z.testbit (at_flags a) 6 = true;
  ao_counter : length (at_counter a) = 4%nat ∧ words 8 (at_counter a);
  ao_aaguid : length (at_aaguid a) = 16%nat ∧ words 8 (at_aaguid a);
  ao_credential : (length (at_credential a) ≤ 1023)%nat ∧ words 8 (at_credential a);
  ao_x : length (at_x a) = 32%nat ∧ words 8 (at_x a) ∧ occurs_not [33; 88; 32] 32 (at_x a);
  ao_y : length (at_y a) = 32%nat ∧ words 8 (at_y a)
}.

Lemma two_bytes_value n : Z.of_nat n < 65536 → Z.lor (Z.shiftl (Z.of_nat n / 256) 8) (Z.of_nat n mod 256) = Z.of_nat n.
Proof.
  intros Hn. rewrite lor_shift_add; [|lia|change (2 ^ 8) with 256; apply Z.mod_pos_bound; lia].
  change (2 ^ 8) with 256. pose proof (Z.div_mod (Z.of_nat n) 256). lia.
Qed.

Lemma two_bytes_words n : Z.of_nat n < 65536 → words 8 (two_bytes n).
Proof.
  intros Hn. unfold words, two_bytes. change (2 ^ 8) with 256. repeat apply Forall_cons_2; [| |constructor].
  - split; [apply Z.div_pos; lia|apply Z.div_lt_upper_bound; lia].
  - apply Z.mod_pos_bound. lia.
Qed.

(** The header of a byte string gives back its length. *)
Lemma byte_header_read n q :
  24 ≤ Z.of_nat n < 65536 →
  ∃ h t, byte_header n = h :: t ∧ (Z.shiftr h 5 =? 2) = true ∧ data_header (Z.land h 31) (t ++ q) = Some (Z.of_nat n, q).
Proof.
  intros Hn. unfold byte_header. destruct (n <? 256)%nat; eexists _, _; (split; [done|]); split; try done.
  unfold data_header. change (Z.land 89 31) with 25. simpl. by rewrite two_bytes_value by lia.
Qed.

(** The search passes over everything before the first key. *)
Lemma find_auth_skip members rest :
  occurs_not authData_key (length members) (members ++ authData_key) → rest ≠ [] →
  find_auth_loop (members ++ authData_key ++ rest) = find_auth_loop (authData_key ++ rest).
Proof.
  intros Ho Hr. induction members as [|m members IH]; [done|].
  assert (Hne : ∃ h q, drop 9 ((m :: members) ++ authData_key ++ rest) = h :: q).
  { destruct (drop 9 _) as [|h q] eqn:E; [|by eexists _, _]. apply (f_equal length) in E.
    rewrite length_drop, !length_app in E. change (length authData_key) with 9%nat in E.
    destruct rest; [done|]. simpl in E. lia. }
  destruct Hne as (h & q & E).
  change ((m :: members) ++ authData_key ++ rest) with (m :: members ++ authData_key ++ rest) in E |- *.
  cbn [find_auth_loop]. rewrite E, bool_decide_eq_false_2.
  - apply IH. intros i Hi. specialize (Ho (S i)). simpl in Ho. apply Ho. lia.
  - intros Hk. apply (Ho 0%nat); [simpl; lia|]. rewrite <- Hk at 3. change (length authData_key) with 9%nat.
    rewrite drop_0, app_comm_cons, app_assoc. symmetry. apply take_app_le. rewrite length_app. simpl. lia.
Qed.

Lemma find_auth_found members ad :
  occurs_not authData_key (length members) (members ++ authData_key) → 24 ≤ Z.of_nat (length ad) < 65536 →
  find_auth_data (members ++ authData_key ++ byte_header (length ad) ++ ad) = Ret (Some ad).
Proof.
  intros Ho Hl. destruct (byte_header_read (length ad) ad Hl) as (h & t & Eh & Ht & Ed).
  unfold find_auth_data. rewrite !length_app. change (length authData_key) with 9%nat.
  rewrite (proj2 (Nat.ltb_ge _ _)) by lia. rewrite find_auth_skip by (done || by rewrite Eh). f_equal. rewrite Eh.
  change (authData_key ++ (h :: t) ++ ad) with (authData_key ++ h :: t ++ ad). unfold authData_key at 1. cbn [find_auth_loop app map].
  simpl drop. cbv beta iota. rewrite bool_decide_eq_true_2 by done. rewrite Ht. cbn [negb]. rewrite Ed, Z.leb_refl, Nat2Z.id.
  by rewrite take_ge.
Qed.

Lemma cose_skip pre l x y :
  (∀ i, (i < length pre)%nat → take 3 (drop i (pre ++ l)) ≠ [33; 88; 32]) → (34 < length l)%nat →
  ∃ y', cose_loop (pre ++ l) x y = cose_loop l x y'.
Proof.
  revert y. induction pre as [|b pre IH]; intros y Hp Hl; [by exists y|].
  destruct (drop 34 ((b :: pre) ++ l)) as [|h q] eqn:E.
  { apply (f_equal length) in E. rewrite length_drop, length_app in E. simpl in E. lia. }
  change ((b :: pre) ++ l) with (b :: pre ++ l) in *. cbn [cose_loop]. rewrite E.
  unfold coordinate at 1. rewrite bool_decide_eq_false_2 by (apply (Hp 0%nat); simpl; lia).
  apply IH; [|done]. intros i Hi. apply (Hp (S i)). simpl. lia.
Qed.

Lemma no_marker_between x l i :
  length x = 32%nat → occurs_not [33; 88; 32] 32 x → (i < 32)%nat → take 3 (drop i (x ++ 34 :: 88 :: l)) ≠ [33; 88; 32].
Proof.
  intros Hx Ho Hi. rewrite drop_app_le by lia. destruct (decide (i + 3 ≤ 32)%nat) as [Hin|Hout].
  - rewrite take_app_le by (rewrite length_drop; lia). by apply Ho.
  - intros E. assert (Hl : length (drop i x) = 2%nat ∨ length (drop i x) = 1%nat) by (rewrite length_drop; lia).
    destruct (drop i x) as [|a [|b [|c r]]]; simpl in Hl, E; [lia|by injection E|by injection E|lia].
Qed.

Lemma coordinate_hit k c rest before : length c = 32%nat → coordinate k (k :: 88 :: 32 :: c ++ rest) before = Some c.
Proof.
  intros Hc. unfold coordinate. rewrite bool_decide_eq_true_2 by done.
  change (drop 3 (k :: 88 :: 32 :: c ++ rest)) with (c ++ rest). by rewrite take_app_length'.
Qed.

Lemma cose_key_read x y :
  length x = 32%nat → length y = 32%nat → occurs_not [33; 88; 32] 32 x →
  cose_loop (cose_key x y) None None = (Some x, Some y).
Proof.
  intros Hx Hy Ho. unfold cose_key.
  destruct (cose_skip [165; 1; 2; 3; 38; 32; 1] (33 :: 88 :: 32 :: x ++ 34 :: 88 :: 32 :: y) None None) as [y1 E1].
  { intros i Hi. simpl in Hi. do 7 (destruct i as [|i]; [simpl; discriminate|]). lia. }
  { simpl. rewrite length_app, Hx. simpl. lia. }
  refine (eq_trans E1 _). clear E1. cbn [cose_loop].
  destruct (drop 34 (33 :: 88 :: 32 :: x ++ 34 :: 88 :: 32 :: y)) as [|h q] eqn:E.
  { apply (f_equal length) in E. rewrite length_drop in E. simpl in E. rewrite length_app, Hx in E. simpl in E. lia. }
  clear E h q. rewrite coordinate_hit by done. generalize (coordinate 34 (33 :: 88 :: 32 :: x ++ 34 :: 88 :: 32 :: y) y1). intros y2.
  destruct (cose_skip (88 :: 32 :: x) (34 :: 88 :: 32 :: y) (Some x) y2) as [y3 E1].
  { intros i Hi. simpl in Hi. destruct i as [|[|i]]; [discriminate..|].
    change (drop (S (S i)) ((88 :: 32 :: x) ++ 34 :: 88 :: 32 :: y)) with (drop i (x ++ 34 :: 88 :: 32 :: y)).
    apply no_marker_between; [done..|lia]. }
  { simpl. lia. }
  refine (eq_trans E1 _). clear E1. cbn [cose_loop].
  destruct (drop 34 (34 :: 88 :: 32 :: y)) as [|h q] eqn:E.
  { apply (f_equal length) in E. rewrite length_drop in E. simpl in E. lia. }
  rewrite (drop_ge (88 :: _)) by (simpl; lia). rewrite <- (app_nil_r y) at 2. rewrite coordinate_hit by done. done.
Qed.

Lemma nth_after (pre post : list Z) z k d : length pre = k → nth k (pre ++ z :: post) d = z.
Proof. intros <-. rewrite app_nth2, Nat.sub_diag by lia. done. Qed.

Section Registration.
Context `{Crypto, JsonReader, Sha256, EcKeys} (alloc : Z → bool).

Lemma attested_credential_read members a :
  attested_ok members a → (∀ n, alloc n = true) →
  attested_credential alloc (auth_data_of a) = Ret (Ok (b64u_encode (at_credential a), ec_pem (at_x a) (at_y a))).
Proof.
  intros [_ [Lr _] [Fr Ff] [Lc _] [La _] [Ld _] (Lx & _ & Hx) [Ly _]] Ha.
  set (cred := at_credential a) in *. set (cose := cose_key (at_x a) (at_y a)).
  assert (Lcose : length cose = 77%nat) by (unfold cose, cose_key; rewrite !length_app, Lx, Ly; done).
  set (head := at_rp_hash a ++ [at_flags a] ++ at_counter a ++ at_aaguid a).
  assert (Lh : length head = 53%nat) by (unfold head; rewrite !length_app, Lr, Lc, La; done).
  assert (E : auth_data_of a = head ++ Z.of_nat (length cred) / 256 :: Z.of_nat (length cred) mod 256 :: cred ++ cose).
  { unfold auth_data_of, head, two_bytes. fold cred. fold cose. by rewrite <- !app_assoc. }
  assert (El : length (auth_data_of a) = (132 + length cred)%nat).
  { rewrite E, length_app, Lh. simpl. rewrite length_app, Lcose. lia. }
  assert (N32 : nth 32 (auth_data_of a) 0 = at_flags a) by (apply nth_after; done).
  assert (N53 : nth 53 (auth_data_of a) 0 = Z.of_nat (length cred) / 256) by (rewrite E; by apply nth_after).
  assert (N54 : nth 54 (auth_data_of a) 0 = Z.of_nat (length cred) mod 256).
  { rewrite E. change (head ++ ?u :: ?v :: ?l) with (head ++ [u] ++ v :: l). rewrite app_assoc. apply nth_after.
    rewrite length_app, Lh. done. }
  assert (Hfl : (Z.land (at_flags a) 64 =? 0) = false).
  { apply Z.eqb_neq. intros E0. apply (f_equal (λ z, Z.testbit z 6)) in E0. rewrite Z.land_spec, Ff in E0. discriminate E0. }
  assert (Hd : drop 55 (auth_data_of a) = cred ++ cose).
  { rewrite E. change (head ++ ?u :: ?v :: ?l) with (head ++ [u; v] ++ l). rewrite app_assoc. apply drop_app_length'.
    rewrite length_app, Lh. done. }
  unfold attested_credential. rewrite N32, N53, N54, Hfl, two_bytes_value, El by lia.
  repeat (rewrite (proj2 (Z.ltb_ge _ _)) by lia). rewrite Ha. cbn [negb].
  rewrite Nat2Z.id, <- drop_drop, Hd, drop_app_length, take_app_length.
  unfold extract_cose_ec2_key. rewrite Lcose. cbn [Nat.ltb Nat.leb].
  unfold cose. rewrite cose_key_read, Ha by done. done.
Qed.

Lemma auth_data_words members a : attested_ok members a → words 8 (auth_data_of a).
Proof.
  intros [_ [_ Wr] [Fr _] [_ Wc] [_ Wa] [Ld Wd] (_ & Wx & _) [_ Wy]]. unfold words in *.
  unfold auth_data_of, cose_key. rewrite !Forall_app. split_and!; try done.
  - apply Forall_singleton. done.
  - apply two_bytes_words. lia.
  - repeat apply Forall_cons_2; [..|constructor]; change (2 ^ 8) with 256; lia.
  - repeat apply Forall_cons_2; [..|constructor]; change (2 ^ 8) with 256; lia.
  - repeat apply Forall_cons_2; [..|constructor]; change (2 ^ 8) with 256; lia.
Qed.

Lemma auth_data_length members a : attested_ok members a → length (auth_data_of a) = (132 + length (at_credential a))%nat.
Proof.
  intros [_ [Lr _] _ [Lc _] [La _] _ (Lx & _) [Ly _]]. unfold auth_data_of, cose_key, two_bytes.
  rewrite !length_app, Lr, Lc, La, Lx, Ly. simpl. lia.
Qed.

(** Registration reads what an authenticator made (round trip): from an
    attestation object that carries the attested credential of a P-256
    key after members that do not hold its key, together with client data
    that names the challenge and the origin, exactly the credential id
    and the public key are extracted. *)
Theorem registration_roundtrip members a client challenge origin :
  attested_ok members a → (∀ n, alloc n = true) → words 8 client →
  verify_client_data client challenge origin = SSO_OK →
  webauthn_register_verify alloc (b64u_encode (attestation_object members a)) (b64u_encode client) challenge origin =
    Ret (Ok (b64u_encode (at_credential a), ec_pem (at_x a) (at_y a))).
Proof.
  intros Ho Ha Hc Hv. pose proof (auth_data_words _ _ Ho) as Hw. pose proof (auth_data_length _ _ Ho) as Hl.
  pose proof (proj1 (ao_credential _ _ Ho)) as Hn. pose proof (ao_members _ _ Ho) as [Hm Hocc].
  assert (Hatt : words 8 (attestation_object members a)).
  { unfold words, attestation_object in *. rewrite !Forall_app. split_and!; try done.
    - apply (bool_decide_unpack _). vm_compute. exact I.
    - unfold byte_header. destruct (_ <? _)%nat eqn:E.
      + apply Nat.ltb_lt in E. repeat apply Forall_cons_2; [..|constructor]; change (2 ^ 8) with 256; lia.
      + constructor; [change (2 ^ 8) with 256; lia|]. apply two_bytes_words. lia. }
  unfold webauthn_register_verify. rewrite !decode_new_encode by done. cbn [mbind outcome_bind]. rewrite Hv. cbn [negb].
  unfold attestation_object. rewrite find_auth_found by (done || lia). cbn [mbind outcome_bind].
  by apply (attested_credential_read members).
Qed.

(** Short objects are read past their end (error): once the client data
    is accepted, an attestation object of fewer than nine bytes, or
    attested data with fewer than 34 bytes after the credential id, makes
    the search leave the buffer. *)
Theorem short_attestation_crashes attestation client challenge origin :
  (∀ n, alloc n = true) → verify_client_data (b64u_decode client) challenge origin = SSO_OK →
  ((length (b64u_decode attestation) < 9)%nat ∨
   ∃ ad n, find_auth_data (b64u_decode attestation) = Ret (Some ad) ∧ (55 ≤ length ad)%nat ∧ Z.testbit (nth 32 ad 0) 6 = true ∧
           Z.lor (Z.shiftl (nth 53 ad 0) 8) (nth 54 ad 0) = Z.of_nat n ∧ (55 + n ≤ length ad < 55 + n + 34)%nat) →
  webauthn_register_verify alloc attestation client challenge origin = Crash.
Proof.
  intros Ha Hv Hs. unfold webauthn_register_verify, decode_new. rewrite !Ha. cbn [orb mbind outcome_bind]. rewrite Hv. cbn [negb].
  destruct Hs as [Hs|(ad & n & -> & H55 & Hfl & Hn & Hlen)].
  { unfold find_auth_data. by rewrite (proj2 (Nat.ltb_lt _ _) Hs). }
  cbn [mbind outcome_bind]. unfold attested_credential. rewrite Hn, Ha.
  assert (Hf : (Z.land (nth 32 ad 0) 64 =? 0) = false).
  { apply Z.eqb_neq. intros E0. apply (f_equal (λ z, Z.testbit z 6)) in E0. rewrite Z.land_spec, Hfl in E0. discriminate E0. }
  rewrite Hf. repeat (rewrite (proj2 (Z.ltb_ge _ _)) by lia). cbn [negb]. unfold extract_cose_ec2_key.
  rewrite (proj2 (Nat.ltb_lt _ 34)); [done|]. rewrite length_drop. lia.
Qed.

End Registration.
