(* ===== verification/Raft.v ===== *)
(** * Raft replication (src/raft_generated.inc, src/raft_cluster.c, src/raft_rpc.c)

    The storage table that turns changes into entries of the replicated
    log, the dispatcher that applies entries to the backend of a node, the
    messages between nodes and the HTTP endpoints.  The Raft library is a
    class: what it answers, and when it hands entries to its callbacks, is
    its own affair. *)

From S2P Require Import Prelude CLib CNum Json Types Storage StorageMemory PermCache Context Token Printf AuditLog Http AuthHandlers Webauthn.

(** [yyjson_get_int]: integers cut to an int, 0 for anything else. *)
Definition yyjson_get_int (v : option json) : Z :=
  match v with Some (JUint z) | Some (JSint z) => s32 z | _ => 0 end.

(** [yyjson_mut_obj_add_int] of a value cast to int64. *)
Definition int_val (z : Z) : json := JSint (s64 z).

(** What is read back of a document that was written: integers that are
    not negative are read as unsigned ones. *)
Fixpoint reread (v : json) : json :=
  match v with
  | JSint z => if z <? 0 then JSint z else JUint z
  | JArr l => JArr (map reread l)
  | JObj kvs => JObj (map (λ kv, (kv.1, reread kv.2)) kvs)
  | _ => v
  end.

(* ------------------------------------------------------------------ *)
(** ** Records as objects *)

Definition user_obj (u : user_t) : json :=
  JObj [("id" : cstr, int_val (u_id u)); ("username" : cstr, JStr (u_username u)); ("phone" : cstr, JStr (u_phone u));
        ("password_hash" : cstr, JStr (u_password_hash u)); ("email" : cstr, JStr (u_email u));
        ("display_name" : cstr, JStr (u_display_name u)); ("status" : cstr, int_val (user_status_int (u_status u)));
        ("created_at" : cstr, int_val (u_created_at u)); ("updated_at" : cstr, int_val (u_updated_at u))].

(** The rest of the record is zeroed. *)
Definition user_of_obj (o : json) : user_t :=
  let get k := yyjson_obj_get (Some o) k in
  {| u_id := u64 (yyjson_get_int (get "id")); u_username := copy_str (get "username") 64; u_phone := copy_str (get "phone") 32;
     u_password_hash := copy_str (get "password_hash") 256; u_email := copy_str (get "email") 128;
     u_display_name := copy_str (get "display_name") 128; u_status := user_status_of (yyjson_get_int (get "status"));
     u_created_at := yyjson_get_int (get "created_at"); u_updated_at := yyjson_get_int (get "updated_at");
     u_attributes := []; u_mfa_enabled := 0; u_mfa_secret := []; u_password_set_at := 0 |}.

Definition role_obj (r : role_t) : json :=
  JObj [("id" : cstr, int_val (r_id r)); ("name" : cstr, JStr (r_name r)); ("description" : cstr, JStr (r_description r));
        ("parent_role_id" : cstr, int_val (r_parent_role_id r)); ("status" : cstr, int_val (role_status_int (r_status r)));
        ("created_at" : cstr, int_val (r_created_at r)); ("updated_at" : cstr, int_val (r_updated_at r))].

Definition role_of_obj (o : json) : role_t :=
  let get k := yyjson_obj_get (Some o) k in
  {| r_id := u64 (yyjson_get_int (get "id")); r_name := copy_str (get "name") 64;
     r_description := copy_str (get "description") 512; r_parent_role_id := u64 (yyjson_get_int (get "parent_role_id"));
     r_status := role_status_of (yyjson_get_int (get "status"));
     r_created_at := yyjson_get_int (get "created_at"); r_updated_at := yyjson_get_int (get "updated_at") |}.

Definition group_obj (g : group_t) : json :=
  JObj [("id" : cstr, int_val (g_id g)); ("name" : cstr, JStr (g_name g)); ("description" : cstr, JStr (g_description g));
        ("parent_group_id" : cstr, int_val (g_parent_group_id g)); ("status" : cstr, int_val (group_status_int (g_status g)));
        ("created_at" : cstr, int_val (g_created_at g)); ("updated_at" : cstr, int_val (g_updated_at g))].

Definition group_of_obj (o : json) : group_t :=
  let get k := yyjson_obj_get (Some o) k in
  {| g_id := u64 (yyjson_get_int (get "id")); g_name := copy_str (get "name") 64;
     g_description := copy_str (get "description") 512; g_parent_group_id := u64 (yyjson_get_int (get "parent_group_id"));
     g_status := group_status_of (yyjson_get_int (get "status"));
     g_created_at := yyjson_get_int (get "created_at"); g_updated_at := yyjson_get_int (get "updated_at") |}.

Definition policy_obj (p : policy_t) : json :=
  JObj [("id" : cstr, int_val (p_id p)); ("name" : cstr, JStr (p_name p));
        ("strategy_type" : cstr, int_val (perm_strategy_int (p_strategy_type p)));
        ("effect" : cstr, int_val (policy_effect_int (p_effect p))); ("priority" : cstr, int_val (p_priority p));
        ("rules" : cstr, JStr (p_rules p)); ("status" : cstr, int_val (policy_status_int (p_status p)));
        ("created_at" : cstr, int_val (p_created_at p)); ("updated_at" : cstr, int_val (p_updated_at p))].

Definition policy_of_obj (o : json) : policy_t :=
  let get k := yyjson_obj_get (Some o) k in
  {| p_id := u64 (yyjson_get_int (get "id")); p_name := copy_str (get "name") 64;
     p_strategy_type := perm_strategy_of (yyjson_get_int (get "strategy_type"));
     p_effect := policy_effect_of (yyjson_get_int (get "effect")); p_priority := yyjson_get_int (get "priority");
     p_rules := copy_str (get "rules") 8192; p_status := policy_status_of (yyjson_get_int (get "status"));
     p_created_at := yyjson_get_int (get "created_at"); p_updated_at := yyjson_get_int (get "updated_at") |}.

(* ------------------------------------------------------------------ *)
(** ** Commands

    The operations that go through the log, with the pointers a caller
    may leave NULL as options. *)

Inductive command :=
| User_create (user : option user_t) | User_update (user : option user_t) | User_delete (id : Z)
| Save_sms_code (phone code : option cstr) (expires_at : Z) | Delete_sms_code (phone : option cstr)
| Role_create (role : option role_t) | Role_update (role : option role_t) | Role_delete (id : Z)
| Group_create (group : option group_t) | Group_update (group : option group_t) | Group_delete (id : Z)
| Policy_create (policy : option policy_t) | Policy_update (policy : option policy_t) | Policy_delete (id : Z)
| Assign_role_user (role_id user_id : Z) | Unassign_role_user (role_id user_id : Z)
| Assign_role_group (role_id group_id : Z) | Unassign_role_group (role_id group_id : Z)
| Add_user_group (group_id user_id : Z) | Remove_user_group (group_id user_id : Z)
| Assign_policy (policy_id : Z) (target_type : policy_target_type_t) (target_id : Z)
| Unassign_policy (policy_id : Z) (target_type : policy_target_type_t) (target_id : Z)
| Refresh_token_create (rt : option refresh_token_t) | Refresh_token_revoke (token_hash : option cstr)
| Jti_revoke (jti : option cstr) (expires_at : Z)
| Oauth_code_create (code : option oauth_auth_code_t) | Oauth_code_mark_used (code : option cstr) | Oauth_code_cleanup
| Audit_log_write (entry : option audit_log_entry_t)
| Oauth_client_create (client : option oauth_client_t) | Oauth_client_update (client : option oauth_client_t)
| Oauth_client_delete (client_id : option cstr)
| Exec_sql_file (path : option cstr).

Definition op_name (c : command) : cstr :=
  match c with
  | User_create _ => "user_create" | User_update _ => "user_update" | User_delete _ => "user_delete"
  | Save_sms_code _ _ _ => "save_sms_code" | Delete_sms_code _ => "delete_sms_code"
  | Role_create _ => "role_create" | Role_update _ => "role_update" | Role_delete _ => "role_delete"
  | Group_create _ => "group_create" | Group_update _ => "group_update" | Group_delete _ => "group_delete"
  | Policy_create _ => "policy_create" | Policy_update _ => "policy_update" | Policy_delete _ => "policy_delete"
  | Assign_role_user _ _ => "assign_role_user" | Unassign_role_user _ _ => "unassign_role_user"
  | Assign_role_group _ _ => "assign_role_group" | Unassign_role_group _ _ => "unassign_role_group"
  | Add_user_group _ _ => "add_user_group" | Remove_user_group _ _ => "remove_user_group"
  | Assign_policy _ _ _ => "assign_policy" | Unassign_policy _ _ _ => "unassign_policy"
  | Refresh_token_create _ => "refresh_token_create" | Refresh_token_revoke _ => "refresh_token_revoke"
  | Jti_revoke _ _ => "jti_revoke" | Oauth_code_create _ => "oauth_code_create"
  | Oauth_code_mark_used _ => "oauth_code_mark_used" | Oauth_code_cleanup => "oauth_code_cleanup"
  | Audit_log_write _ => "audit_log_write" | Oauth_client_create _ => "oauth_client_create"
  | Oauth_client_update _ => "oauth_client_update" | Oauth_client_delete _ => "oauth_client_delete"
  | Exec_sql_file _ => "exec_sql_file"
  end.

(** A member that is left out when the pointer is NULL. *)
Definition opt_member {A} (key : cstr) (f : A → json) (a : option A) : list (list ascii * json) :=
  match a with Some a => [(key, f a)] | None => [] end.

(** The members after the name; records of tokens, codes, clients and
    audit entries are not written at all. *)
Definition members (c : command) : list (list ascii * json) :=
  match c with
  | User_create u | User_update u => opt_member "user" user_obj u
  | Role_create r | Role_update r => opt_member "role" role_obj r
  | Group_create g | Group_update g => opt_member "group" group_obj g
  | Policy_create p | Policy_update p => opt_member "policy" policy_obj p
  | User_delete id | Role_delete id | Group_delete id | Policy_delete id => [("id" : cstr, int_val id)]
  | Save_sms_code phone code expires_at =>
      opt_member "phone" JStr phone ++ opt_member "code" JStr code ++ [("expires_at" : cstr, int_val expires_at)]
  | Delete_sms_code phone => opt_member "phone" JStr phone
  | Assign_role_user r u | Unassign_role_user r u => [("role_id" : cstr, int_val r); ("user_id" : cstr, int_val u)]
  | Assign_role_group r g | Unassign_role_group r g => [("role_id" : cstr, int_val r); ("group_id" : cstr, int_val g)]
  | Add_user_group g u | Remove_user_group g u => [("group_id" : cstr, int_val g); ("user_id" : cstr, int_val u)]
  | Assign_policy p t id | Unassign_policy p t id =>
      [("policy_id" : cstr, int_val p); ("target_type" : cstr, int_val (policy_target_int t)); ("target_id" : cstr, int_val id)]
  | Refresh_token_revoke h => opt_member "token_hash" JStr h
  | Jti_revoke jti expires_at => opt_member "jti" JStr jti ++ [("expires_at" : cstr, int_val expires_at)]
  | Oauth_code_mark_used code => opt_member "code" JStr code
  | Oauth_client_delete id => opt_member "client_id" JStr id
  | Exec_sql_file path => opt_member "path" JStr path
  | Refresh_token_create _ | Oauth_code_create _ | Oauth_code_cleanup | Audit_log_write _ | Oauth_client_create _
  | Oauth_client_update _ => []
  end.

Definition serialize (c : command) : json := JObj (("op" : cstr, JStr (op_name c)) :: members c).

(** The command a document names: an operation that is not known gives
    none; a record that is missing or is not carried is NULL. *)
Definition read_command (root : json) : option command :=
  let get k := yyjson_obj_get (Some root) k in
  let num k := yyjson_get_int (get k) in
  let id k := u64 (num k) in
  let str k := as_str (get k) in
  match str "op" with
  | None => None
  | Some op =>
      let named s := strcmp_eq op s in
      if named "user_create" then Some (User_create (user_of_obj <$> get "user"))
      else if named "user_update" then Some (User_update (user_of_obj <$> get "user"))
      else if named "user_delete" then Some (User_delete (id "id"))
      else if named "save_sms_code" then Some (Save_sms_code (str "phone") (str "code") (num "expires_at"))
      else if named "delete_sms_code" then Some (Delete_sms_code (str "phone"))
      else if named "role_create" then Some (Role_create (role_of_obj <$> get "role"))
      else if named "role_update" then Some (Role_update (role_of_obj <$> get "role"))
      else if named "role_delete" then Some (Role_delete (id "id"))
      else if named "group_create" then Some (Group_create (group_of_obj <$> get "group"))
      else if named "group_update" then Some (Group_update (group_of_obj <$> get "group"))
      else if named "group_delete" then Some (Group_delete (id "id"))
      else if named "policy_create" then Some (Policy_create (policy_of_obj <$> get "policy"))
      else if named "policy_update" then Some (Policy_update (policy_of_obj <$> get "policy"))
      else if named "policy_delete" then Some (Policy_delete (id "id"))
      else if named "assign_role_user" then Some (Assign_role_user (id "role_id") (id "user_id"))
      else if named "unassign_role_user" then Some (Unassign_role_user (id "role_id") (id "user_id"))
      else if named "assign_role_group" then Some (Assign_role_group (id "role_id") (id "group_id"))
      else if named "unassign_role_group" then Some (Unassign_role_group (id "role_id") (id "group_id"))
      else if named "add_user_group" then Some (Add_user_group (id "group_id") (id "user_id"))
      else if named "remove_user_group" then Some (Remove_user_group (id "group_id") (id "user_id"))
      else if named "assign_policy" then
        Some (Assign_policy (id "policy_id") (policy_target_of (num "target_type")) (id "target_id"))
      else if named "unassign_policy" then
        Some (Unassign_policy (id "policy_id") (policy_target_of (num "target_type")) (id "target_id"))
      else if named "refresh_token_create" then Some (Refresh_token_create None)
      else if named "refresh_token_revoke" then Some (Refresh_token_revoke (str "token_hash"))
      else if named "jti_revoke" then Some (Jti_revoke (str "jti") (num "expires_at"))
      else if named "oauth_code_create" then Some (Oauth_code_create None)
      else if named "oauth_code_mark_used" then Some (Oauth_code_mark_used (str "code"))
      else if named "oauth_code_cleanup" then Some Oauth_code_cleanup
      else if named "audit_log_write" then Some (Audit_log_write None)
      else if named "oauth_client_create" then Some (Oauth_client_create None)
      else if named "oauth_client_update" then Some (Oauth_client_update None)
      else if named "oauth_client_delete" then Some (Oauth_client_delete (str "client_id"))
      else if named "exec_sql_file" then Some (Exec_sql_file (str "path"))
      else None
  end.

(** What a command is after its trip through the log: numbers cut to an
    int, texts to the size of their arrays, and records without the
    members that are not written. *)
Definition narrow_id (z : Z) : Z := u64 (s32 z).
Definition narrow_str (size : nat) (s : cstr) : cstr := take (size - 1) (c_str s).
Definition narrow_user (u : user_t) : user_t :=
  {| u_id := narrow_id (u_id u); u_username := narrow_str 64 (u_username u); u_phone := narrow_str 32 (u_phone u);
     u_password_hash := narrow_str 256 (u_password_hash u); u_email := narrow_str 128 (u_email u);
     u_display_name := narrow_str 128 (u_display_name u); u_status := user_status_of (s32 (user_status_int (u_status u)));
     u_created_at := s32 (u_created_at u); u_updated_at := s32 (u_updated_at u);
     u_attributes := []; u_mfa_enabled := 0; u_mfa_secret := []; u_password_set_at := 0 |}.
Definition narrow_role (r : role_t) : role_t :=
  {| r_id := narrow_id (r_id r); r_name := narrow_str 64 (r_name r); r_description := narrow_str 512 (r_description r);
     r_parent_role_id := narrow_id (r_parent_role_id r); r_status := role_status_of (s32 (role_status_int (r_status r)));
     r_created_at := s32 (r_created_at r); r_updated_at := s32 (r_updated_at r) |}.
Definition narrow_group (g : group_t) : group_t :=
  {| g_id := narrow_id (g_id g); g_name := narrow_str 64 (g_name g); g_description := narrow_str 512 (g_description g);
     g_parent_group_id := narrow_id (g_parent_group_id g); g_status := group_status_of (s32 (group_status_int (g_status g)));
     g_created_at := s32 (g_created_at g); g_updated_at := s32 (g_updated_at g) |}.
Definition narrow_policy (p : policy_t) : policy_t :=
  {| p_id := narrow_id (p_id p); p_name := narrow_str 64 (p_name p);
     p_strategy_type := perm_strategy_of (s32 (perm_strategy_int (p_strategy_type p)));
     p_effect := policy_effect_of (s32 (policy_effect_int (p_effect p))); p_priority := s32 (p_priority p);
     p_rules := narrow_str 8192 (p_rules p); p_status := policy_status_of (s32 (policy_status_int (p_status p)));
     p_created_at := s32 (p_created_at p); p_updated_at := s32 (p_updated_at p) |}.
Definition narrow_target (t : policy_target_type_t) : policy_target_type_t := policy_target_of (s32 (policy_target_int t)).

Definition narrow (c : command) : command :=
  match c with
  | User_create u => User_create (narrow_user <$> u) | User_update u => User_update (narrow_user <$> u)
  | Role_create r => Role_create (narrow_role <$> r) | Role_update r => Role_update (narrow_role <$> r)
  | Group_create g => Group_create (narrow_group <$> g) | Group_update g => Group_update (narrow_group <$> g)
  | Policy_create p => Policy_create (narrow_policy <$> p) | Policy_update p => Policy_update (narrow_policy <$> p)
  | User_delete id => User_delete (narrow_id id) | Role_delete id => Role_delete (narrow_id id)
  | Group_delete id => Group_delete (narrow_id id) | Policy_delete id => Policy_delete (narrow_id id)
  | Save_sms_code phone code ex => Save_sms_code (c_str <$> phone) (c_str <$> code) (s32 ex)
  | Delete_sms_code phone => Delete_sms_code (c_str <$> phone)
  | Assign_role_user a b => Assign_role_user (narrow_id a) (narrow_id b)
  | Unassign_role_user a b => Unassign_role_user (narrow_id a) (narrow_id b)
  | Assign_role_group a b => Assign_role_group (narrow_id a) (narrow_id b)
  | Unassign_role_group a b => Unassign_role_group (narrow_id a) (narrow_id b)
  | Add_user_group a b => Add_user_group (narrow_id a) (narrow_id b)
  | Remove_user_group a b => Remove_user_group (narrow_id a) (narrow_id b)
  | Assign_policy p t id => Assign_policy (narrow_id p) (narrow_target t) (narrow_id id)
  | Unassign_policy p t id => Unassign_policy (narrow_id p) (narrow_target t) (narrow_id id)
  | Refresh_token_create _ => Refresh_token_create None
  | Refresh_token_revoke h => Refresh_token_revoke (c_str <$> h)
  | Jti_revoke jti ex => Jti_revoke (c_str <$> jti) (s32 ex)
  | Oauth_code_create _ => Oauth_code_create None
  | Oauth_code_mark_used code => Oauth_code_mark_used (c_str <$> code)
  | Oauth_code_cleanup => Oauth_code_cleanup
  | Audit_log_write _ => Audit_log_write None
  | Oauth_client_create _ => Oauth_client_create None
  | Oauth_client_update _ => Oauth_client_update None
  | Oauth_client_delete id => Oauth_client_delete (c_str <$> id)
  | Exec_sql_file path => Exec_sql_file (c_str <$> path)
  end.


Lemma s32_s64 z : s32 (s64 z) = s32 z.
Proof. unfold s32, s64. change (2 ^ 64) with (2 ^ 32 * 2 ^ 32). Z.div_mod_to_equations. lia. Qed.

Lemma get_int_reread z : yyjson_get_int (Some (reread (int_val z))) = s32 z.
Proof. unfold int_val, reread, yyjson_get_int. destruct (_ <? _); apply s32_s64. Qed.

(** Looking a literal key up among literal keys. *)
Ltac find_key :=
  repeat match goal with
  | |- context [kv_get ((?k, ?v) :: ?l) ?key] =>
      let b := eval vm_compute in (bool_decide (k = key)) in
      match b with
      | true => change (kv_get ((k, v) :: l) key) with (Some v)
      | false => change (kv_get ((k, v) :: l) key) with (kv_get l key)
      end
  end.
(** A record read from the object that was written for it. *)
Ltac reread_record :=
  cbn [reread map fst snd yyjson_obj_get]; fold reread; find_key; unfold copy_str; cbn [as_str]; by rewrite !get_int_reread.

Lemma user_reread u : user_of_obj (reread (user_obj u)) = narrow_user u.
Proof. unfold user_obj, user_of_obj. reread_record. Qed.
Lemma role_reread r : role_of_obj (reread (role_obj r)) = narrow_role r.
Proof. unfold role_obj, role_of_obj. reread_record. Qed.
Lemma group_reread g : group_of_obj (reread (group_obj g)) = narrow_group g.
Proof. unfold group_obj, group_of_obj. reread_record. Qed.
Lemma policy_reread p : policy_of_obj (reread (policy_obj p)) = narrow_policy p.
Proof. unfold policy_obj, policy_of_obj. reread_record. Qed.

Create HintDb raft.
#[export] Hint Rewrite get_int_reread user_reread role_reread group_reread policy_reread : raft.

(** Choosing the branch of a literal name. *)
Ltac find_op :=
  repeat match goal with
  | |- context [strcmp_eq ?a ?b] =>
      let v := eval vm_compute in (strcmp_eq a b) in change (strcmp_eq a b) with v; cbv iota
  end.

(** A command comes back from the log as it was, but for what does not
    fit an int or an array and what is not written. *)
Lemma command_reread c : read_command (reread (serialize c)) = Some (narrow c).
Proof.
  unfold serialize, read_command. cbn [reread map fst snd]. fold reread. cbv zeta. cbn [yyjson_obj_get].
  assert (E : ∀ l, as_str (kv_get (("op" : cstr, JStr (op_name c)) :: l) "op") = Some (op_name c)).
  { intros l. change (Some (c_str (op_name c)) = Some (op_name c)). by destruct c. }
  rewrite E. clear E. generalize (JStr (op_name c)). intros name.
  destruct c; cbn [op_name members]; find_op; f_equal;
    repeat match goal with o : option _ |- _ => destruct o end; cbn [opt_member app map fst snd]; find_key;
    cbn [kv_get as_str reread fmap option_fmap option_map narrow]; fold reread; autorewrite with raft; reflexivity.
Qed.

(* ------------------------------------------------------------------ *)
(** ** Messages *)

Record raft_entry := { re_term : Z; re_id : Z; re_type : Z; re_data : option cstr }.
Record msg_requestvote := { rv_term : Z; rv_candidate_id : Z; rv_last_log_idx : Z; rv_last_log_term : Z }.
Record msg_requestvote_response := { rvr_term : Z; rvr_vote_granted : Z }.
Record msg_appendentries := {
  ae_term : Z; ae_prev_log_idx : Z; ae_prev_log_term : Z; ae_leader_commit : Z; ae_n_entries : Z;
  ae_entries : option (list raft_entry)
}.
Record msg_appendentries_response := { aer_term : Z; aer_success : Z; aer_current_idx : Z; aer_first_idx : Z }.

Definition requestvote_json (sender_id : Z) (m : msg_requestvote) : json :=
  JObj [("sender_id" : cstr, int_val sender_id); ("term" : cstr, int_val (rv_term m));
        ("candidate_id" : cstr, int_val (rv_candidate_id m)); ("last_log_idx" : cstr, int_val (rv_last_log_idx m));
        ("last_log_term" : cstr, int_val (rv_last_log_term m))].

Definition requestvote_of_obj (root : json) : msg_requestvote :=
  let num k := yyjson_get_int (yyjson_obj_get (Some root) k) in
  {| rv_term := num "term"; rv_candidate_id := num "candidate_id"; rv_last_log_idx := num "last_log_idx";
     rv_last_log_term := num "last_log_term" |}.

Definition entry_json (e : raft_entry) : json :=
  JObj ([("term" : cstr, int_val (re_term e)); ("id" : cstr, int_val (re_id e)); ("type" : cstr, int_val (re_type e))] ++
        opt_member "data" (λ d, JStr (c_str d)) (re_data e)).

Definition entry_of_obj (v : json) : raft_entry :=
  let get k := yyjson_obj_get (Some v) k in
  {| re_term := yyjson_get_int (get "term"); re_id := yyjson_get_int (get "id"); re_type := yyjson_get_int (get "type");
     re_data := as_str (get "data") |}.

(** The first [n_entries] entries of the array [entries] points to. *)
Definition appendentries_json (sender_id : Z) (m : msg_appendentries) : json :=
  JObj [("sender_id" : cstr, int_val sender_id); ("term" : cstr, int_val (ae_term m));
        ("prev_log_idx" : cstr, int_val (ae_prev_log_idx m)); ("prev_log_term" : cstr, int_val (ae_prev_log_term m));
        ("leader_commit" : cstr, int_val (ae_leader_commit m)); ("n_entries" : cstr, int_val (ae_n_entries m));
        ("entries" : cstr, JArr (map entry_json (take (Z.to_nat (ae_n_entries m)) (default [] (ae_entries m)))))].

Definition no_entry : raft_entry := {| re_term := 0; re_id := 0; re_type := 0; re_data := None |}.

(** The announced number of entries is allocated and filled from the
    array as far as that goes. *)
Definition entries_of_arr (alloc : Z → bool) (n_entries : Z) (arr : option json) : outcome (option (list raft_entry)) :=
  match as_arr arr with
  | Some vals =>
      if 0 <? n_entries then
        if alloc (n_entries * 32) then
          let got := take (Z.to_nat n_entries) (map entry_of_obj vals) in
          Ret (Some (got ++ replicate (Z.to_nat n_entries - length got) no_entry))
        else match vals with [] => Ret None | _ => Crash end
      else Ret None
  | None => Ret None
  end.

Definition appendentries_of_obj (alloc : Z → bool) (root : json) : outcome msg_appendentries :=
  let get k := yyjson_obj_get (Some root) k in
  let num k := yyjson_get_int (get k) in
  entries ← entries_of_arr alloc (num "n_entries") (get "entries");
  Ret {| ae_term := num "term"; ae_prev_log_idx := num "prev_log_idx"; ae_prev_log_term := num "prev_log_term";
         ae_leader_commit := num "leader_commit"; ae_n_entries := num "n_entries"; ae_entries := entries |}.

Definition requestvote_response_json (r : msg_requestvote_response) : json :=
  JObj [("term" : cstr, int_val (rvr_term r)); ("vote_granted" : cstr, int_val (rvr_vote_granted r))].
Definition requestvote_response_of_obj (root : json) : msg_requestvote_response :=
  let num k := yyjson_get_int (yyjson_obj_get (Some root) k) in
  {| rvr_term := num "term"; rvr_vote_granted := num "vote_granted" |}.

Definition appendentries_response_json (r : msg_appendentries_response) : json :=
  JObj [("term" : cstr, int_val (aer_term r)); ("success" : cstr, int_val (aer_success r));
        ("current_idx" : cstr, int_val (aer_current_idx r)); ("first_idx" : cstr, int_val (aer_first_idx r))].
Definition appendentries_response_of_obj (root : json) : msg_appendentries_response :=
  let num k := yyjson_get_int (yyjson_obj_get (Some root) k) in
  {| aer_term := num "term"; aer_success := num "success"; aer_current_idx := num "current_idx";
     aer_first_idx := num "first_idx" |}.

(* ------------------------------------------------------------------ *)
(** ** Nodes

    The library: its answer to a new entry and to messages, and the
    periodic call in which it hands committed entries to the callback that
    applies them. *)

Class RaftLib (R : Type) := {
  raft_recv_entry : (option cstr → outcome (option cstr)) → raft_entry → R → outcome (Z * R);
  raft_periodic : ∀ S : Type, (option cstr → S → outcome S) → Z → S → R → outcome (S * R);
  raft_recv_requestvote : Z → msg_requestvote → R → outcome (Z * msg_requestvote_response * R);
  raft_recv_requestvote_response : Z → msg_requestvote_response → R → outcome R;
  raft_recv_appendentries :
    (option cstr → outcome (option cstr)) → Z → msg_appendentries → R → outcome (Z * msg_appendentries_response * R);
  raft_recv_appendentries_response : Z → msg_appendentries_response → R → outcome R;
  raft_my_id : R → Z;
  raft_leader_udata : R → option (option cstr);
  raft_is_leader : R → bool; raft_get_state : R → Z; raft_get_current_term : R → Z; raft_get_current_idx : R → Z;
  raft_get_num_nodes : R → Z
}.

Definition RAFT_ERR_NOT_LEADER : Z := -2.

Section Node.
Context {S R : Type} `{!RaftLib R, JsonReader, JsonWriter, Curl}.
Context (alloc : Z → bool) (inner : storage_backend S).

(** Calls the table of [Storage] does not express: a NULL pointer for an
    argument, and the operation that runs an SQL file. *)
Context (other_call : command → storage_op S unit).

(** [inner_storage->f(inner_storage, ...)]: a NULL function is called. *)
Definition inner_call {F A} (f : option F) (k : F → storage_op S A) : storage_op S unit := λ s,
  match f with
  | None => Crash
  | Some f => '(r, s) ← k f s; Ret (match r with Ok _ => Ok () | Err e => Err e end, s)
  end.

Definition run_inner (c : command) : storage_op S unit :=
  match c with
  | User_create (Some u) => inner_call (sb_user_create inner) (λ f, f u)
  | User_update (Some u) => inner_call (sb_user_update inner) (λ f, f u)
  | User_delete id => inner_call (sb_user_delete inner) (λ f, f id)
  | Save_sms_code (Some phone) (Some code) ex => inner_call (sb_save_sms_code inner) (λ f, f phone code ex)
  | Delete_sms_code (Some phone) => inner_call (sb_delete_sms_code inner) (λ f, f phone)
  | Role_create (Some r) => inner_call (sb_role_create inner) (λ f, f r)
  | Role_update (Some r) => inner_call (sb_role_update inner) (λ f, f r)
  | Role_delete id => inner_call (sb_role_delete inner) (λ f, f id)
  | Group_create (Some g) => inner_call (sb_group_create inner) (λ f, f g)
  | Group_update (Some g) => inner_call (sb_group_update inner) (λ f, f g)
  | Group_delete id => inner_call (sb_group_delete inner) (λ f, f id)
  | Policy_create (Some p) => inner_call (sb_policy_create inner) (λ f, f p)
  | Policy_update (Some p) => inner_call (sb_policy_update inner) (λ f, f p)
  | Policy_delete id => inner_call (sb_policy_delete inner) (λ f, f id)
  | Assign_role_user r u => inner_call (sb_assign_role_to_user inner) (λ f, f r u)
  | Unassign_role_user r u => inner_call (sb_unassign_role_from_user inner) (λ f, f r u)
  | Assign_role_group r g => inner_call (sb_assign_role_to_group inner) (λ f, f r g)
  | Unassign_role_group r g => inner_call (sb_unassign_role_from_group inner) (λ f, f r g)
  | Add_user_group g u => inner_call (sb_add_user_to_group inner) (λ f, f g u)
  | Remove_user_group g u => inner_call (sb_remove_user_from_group inner) (λ f, f g u)
  | Assign_policy p t id => inner_call (sb_assign_policy inner) (λ f, f p t id)
  | Unassign_policy p t id => inner_call (sb_unassign_policy inner) (λ f, f p t id)
  | Refresh_token_create (Some rt) => inner_call (sb_refresh_token_create inner) (λ f, f rt)
  | Refresh_token_revoke (Some h) => inner_call (sb_refresh_token_revoke inner) (λ f, f h)
  | Jti_revoke (Some jti) ex => inner_call (sb_jti_revoke inner) (λ f, f jti ex)
  | Oauth_code_create (Some code) => inner_call (sb_oauth_code_create inner) (λ f, f code)
  | Oauth_code_mark_used (Some code) => inner_call (sb_oauth_code_mark_used inner) (λ f, f code)
  | Oauth_code_cleanup => inner_call (sb_oauth_code_cleanup inner) (λ f, f)
  | Audit_log_write (Some e) => inner_call (sb_audit_log_write inner) (λ f, f e)
  | Oauth_client_create (Some c) => inner_call (sb_oauth_client_create inner) (λ f, f c)
  | Oauth_client_update (Some c) => inner_call (sb_oauth_client_update inner) (λ f, f c)
  | Oauth_client_delete (Some id) => inner_call (sb_oauth_client_delete inner) (λ f, f id)
  | _ => other_call c
  end.

Definition raft_apply_dispatch (json_str : cstr) : storage_op S unit := λ s,
  match yyjson_read json_str with
  | None => Ret (Err SSO_ERR_INVALID_PARAM, s)
  | Some root =>
      match read_command root with
      | None => Ret (Err SSO_ERR_INVALID_PARAM, s)
      | Some c => run_inner c s
      end
  end.

(** Committed entries; the answer of the backend is dropped. *)
Definition raft_applylog_cb (data : option cstr) (s : S) : outcome S :=
  match data with
  | Some ((_ :: _) as text) => '(_, s) ← raft_apply_dispatch text s; Ret s
  | _ => Ret s
  end.

(** Entries are copied when they are added to the log. *)
Definition raft_log_offer_cb (data : option cstr) : outcome (option cstr) :=
  match data with
  | Some ((_ :: _) as text) => if alloc (Z.of_nat (length text) + 1) then Ret (Some text) else Crash
  | _ => Ret None
  end.

Definition raft_ticker_step (sr : S * R) : outcome (S * R) := raft_periodic S raft_applylog_cb 100 sr.1 sr.2.

(** Another node leads: the entry is posted to it. *)
Definition forwarded (json : option cstr) (r : R) : bool :=
  match raft_leader_udata r with
  | Some (Some url) =>
      curl_ready &&
      bool_decide (curl_post (snprintf 512 (url ++ ("/api/v1/raft/execute" : cstr))) (default [] json) = Some 200)
  | _ => false
  end.

Definition raft_cluster_propose_and_wait (rand : Z) (json : option cstr) (r : R) : outcome (sso_error_t * R) :=
  '(e, r) ← raft_recv_entry raft_log_offer_cb {| re_term := 0; re_id := rand; re_type := 0; re_data := json |} r;
  Ret (if e =? 0 then SSO_OK
       else if (e =? RAFT_ERR_NOT_LEADER) && forwarded json r then SSO_OK
       else SSO_ERR_STORAGE, r).

(** [proxy_...]: the change is written as a document and proposed; the
    store of this node does not change, and a record to be created keeps
    the id it came with. *)
Definition propose (rand : Z) {A} (a : A) (c : command) : storage_op (S * R) A := λ sr,
  '(e, r) ← raft_cluster_propose_and_wait rand (yyjson_mut_write (serialize c)) sr.2;
  Ret (match e with SSO_OK => Ok a | _ => Err e end, (sr.1, r)).

(** What is not proxied acts on the store of the node. *)
Definition direct {A} (f : storage_op S A) : storage_op (S * R) A := λ sr,
  '(a, s) ← f sr.1; Ret (a, (s, sr.2)).

Definition raft_proxy_init_vtable (rand : Z) : storage_backend (S * R) :=
  {| sb_user_create := Some (λ u, propose rand u (User_create (Some u)));
     sb_user_get_by_id := (λ f id, direct (f id)) <$> sb_user_get_by_id inner;
     sb_user_get_by_name := (λ f n, direct (f n)) <$> sb_user_get_by_name inner;
     sb_user_get_by_phone := (λ f p, direct (f p)) <$> sb_user_get_by_phone inner;
     sb_user_update := Some (λ u, propose rand () (User_update (Some u)));
     sb_user_delete := Some (λ id, propose rand () (User_delete id));
     sb_user_list := (λ f q st o l, direct (f q st o l)) <$> sb_user_list inner;
     sb_save_sms_code := Some (λ p c ex, propose rand () (Save_sms_code (Some p) (Some c) ex));
     sb_get_sms_code := (λ f p, direct (f p)) <$> sb_get_sms_code inner;
     sb_delete_sms_code := Some (λ p, propose rand () (Delete_sms_code (Some p)));
     sb_role_create := Some (λ x, propose rand x (Role_create (Some x)));
     sb_role_get_by_id := (λ f id, direct (f id)) <$> sb_role_get_by_id inner;
     sb_role_get_by_name := (λ f n, direct (f n)) <$> sb_role_get_by_name inner;
     sb_role_update := Some (λ x, propose rand () (Role_update (Some x)));
     sb_role_delete := Some (λ id, propose rand () (Role_delete id));
     sb_role_list := (λ f q st o l, direct (f q st o l)) <$> sb_role_list inner;
     sb_group_create := Some (λ x, propose rand x (Group_create (Some x)));
     sb_group_get_by_id := (λ f id, direct (f id)) <$> sb_group_get_by_id inner;
     sb_group_get_by_name := (λ f n, direct (f n)) <$> sb_group_get_by_name inner;
     sb_group_update := Some (λ x, propose rand () (Group_update (Some x)));
     sb_group_delete := Some (λ id, propose rand () (Group_delete id));
     sb_group_list := (λ f q st o l, direct (f q st o l)) <$> sb_group_list inner;
     sb_policy_create := Some (λ x, propose rand x (Policy_create (Some x)));
     sb_policy_get_by_id := (λ f id, direct (f id)) <$> sb_policy_get_by_id inner;
     sb_policy_get_by_name := (λ f n, direct (f n)) <$> sb_policy_get_by_name inner;
     sb_policy_update := Some (λ x, propose rand () (Policy_update (Some x)));
     sb_policy_delete := Some (λ id, propose rand () (Policy_delete id));
     sb_policy_list := (λ f q st o l, direct (f q st o l)) <$> sb_policy_list inner;
     sb_assign_role_to_user := Some (λ a b, propose rand () (Assign_role_user a b));
     sb_unassign_role_from_user := Some (λ a b, propose rand () (Unassign_role_user a b));
     sb_get_user_roles := (λ f id n, direct (f id n)) <$> sb_get_user_roles inner;
     sb_get_role_users := (λ f id n, direct (f id n)) <$> sb_get_role_users inner;
     sb_assign_role_to_group := Some (λ a b, propose rand () (Assign_role_group a b));
     sb_unassign_role_from_group := Some (λ a b, propose rand () (Unassign_role_group a b));
     sb_add_user_to_group := Some (λ a b, propose rand () (Add_user_group a b));
     sb_remove_user_from_group := Some (λ a b, propose rand () (Remove_user_group a b));
     sb_get_user_groups := (λ f id n, direct (f id n)) <$> sb_get_user_groups inner;
     sb_get_group_users := (λ f id n, direct (f id n)) <$> sb_get_group_users inner;
     sb_assign_policy := Some (λ p t id, propose rand () (Assign_policy p t id));
     sb_unassign_policy := Some (λ p t id, propose rand () (Unassign_policy p t id));
     sb_get_policy_targets := (λ f id t n, direct (f id t n)) <$> sb_get_policy_targets inner;
     sb_get_target_policies := (λ f t id n, direct (f t id n)) <$> sb_get_target_policies inner;
     sb_role_get_parent := (λ f id, direct (f id)) <$> sb_role_get_parent inner;
     sb_group_get_parent := (λ f id, direct (f id)) <$> sb_group_get_parent inner;
     sb_get_user_roles_with_ancestors := (λ f id n, direct (f id n)) <$> sb_get_user_roles_with_ancestors inner;
     sb_oauth_code_create := Some (λ c, propose rand () (Oauth_code_create (Some c)));
     sb_oauth_code_get := (λ f c, direct (f c)) <$> sb_oauth_code_get inner;
     sb_oauth_code_mark_used := Some (λ c, propose rand () (Oauth_code_mark_used (Some c)));
     sb_oauth_code_cleanup := Some (propose rand () Oauth_code_cleanup);
     sb_oauth_client_create := Some (λ c, propose rand c (Oauth_client_create (Some c)));
     sb_oauth_client_get := (λ f id, direct (f id)) <$> sb_oauth_client_get inner;
     sb_oauth_client_update := Some (λ c, propose rand () (Oauth_client_update (Some c)));
     sb_oauth_client_delete := Some (λ id, propose rand () (Oauth_client_delete (Some id)));
     sb_oauth_client_list := (λ f o l n, direct (f o l n)) <$> sb_oauth_client_list inner;
     sb_refresh_token_create := Some (λ rt, propose rand () (Refresh_token_create (Some rt)));
     sb_refresh_token_get := (λ f h, direct (f h)) <$> sb_refresh_token_get inner;
     sb_refresh_token_revoke := Some (λ h, propose rand () (Refresh_token_revoke (Some h)));
     sb_refresh_token_revoke_family := (λ f id c, direct (f id c)) <$> sb_refresh_token_revoke_family inner;
     sb_jti_revoke := Some (λ jti ex, propose rand () (Jti_revoke (Some jti) ex));
     sb_jti_is_revoked := (λ f jti sr, '(b, s) ← f jti sr.1; Ret (b, (s, sr.2))) <$> sb_jti_is_revoked inner;
     sb_audit_log_write := Some (λ e, propose rand () (Audit_log_write (Some e)));
     sb_audit_log_list := (λ f a b c, direct (f a b c)) <$> sb_audit_log_list inner |}.

End Node.

(* ------------------------------------------------------------------ *)
(** ** Sending messages *)

Section Rpc.
Context {R : Type} `{!RaftLib R, JsonReader, JsonWriter}.

Inductive rpc_type := RequestVote | AppendEntries.

(** The address a message is posted to, and its payload. *)
Definition rpc_endpoint (type : rpc_type) (url : cstr) : cstr :=
  snprintf 512 (take 255 url ++ match type with
                                | RequestVote => "/raft/request_vote" : cstr
                                | AppendEntries => "/raft/append_entries" : cstr
                                end).
Definition raft_rpc_send_requestvote (r : R) (m : msg_requestvote) (url : cstr) : cstr * option cstr :=
  (rpc_endpoint RequestVote url, yyjson_mut_write (requestvote_json (raft_my_id r) m)).
Definition raft_rpc_send_appendentries (r : R) (m : msg_appendentries) (url : cstr) : cstr * option cstr :=
  (rpc_endpoint AppendEntries url, yyjson_mut_write (appendentries_json (raft_my_id r) m)).

(** What the thread of a message does with the answer, [None] when the
    request failed. *)
Definition rpc_answered (type : rpc_type) (node : Z) (answer : option cstr) (r : R) : outcome R :=
  match answer ≫= yyjson_read with
  | None => Ret r
  | Some root =>
      match type with
      | RequestVote => raft_recv_requestvote_response node (requestvote_response_of_obj root) r
      | AppendEntries => raft_recv_appendentries_response node (appendentries_response_of_obj root) r
      end
  end.

End Rpc.

(* ------------------------------------------------------------------ *)
(** ** Endpoints *)

Section Handlers.
Context {S R C : Type} `{Crypto, !RaftLib R, JsonReader, JsonWriter, Curl}.
Context (env : request_env).
Notation handler := (handler (S * R) C).
Implicit Types (req : http_request_t) (resp : http_response_t).

(** A critical section of the cluster's lock. *)
Definition on_raft {A} (f : R → outcome (A * R)) : handler A := λ s,
  '(a, r) ← f (w_store (ss_world s)).2;
  Ret (a, set_world {| w_store := ((w_store (ss_world s)).1, r); w_engine := w_engine (ss_world s) |} s).

(** [g_cluster] is set once the cluster has been started. *)
Definition handle_raft_request_vote (started : bool) req resp : handler (sso_error_t * http_response_t) :=
  s ← get_state;
  match (if started then ss_body s else None) ≫= yyjson_read with
  | None => mret (SSO_ERR_INVALID_PARAM, resp)
  | Some root =>
      let m := requestvote_of_obj root in
      '(e, r) ← on_raft (raft_recv_requestvote (rv_candidate_id m) m);
      if negb (e =? 0) then mret (SSO_ERR_GENERAL, resp)
      else resp ← answer_json env resp (requestvote_response_json r); mret (SSO_OK, resp)
  end.

Definition handle_raft_append_entries (started : bool) req resp : handler (sso_error_t * http_response_t) :=
  s ← get_state;
  match (if started then ss_body s else None) ≫= yyjson_read with
  | None => mret (SSO_ERR_INVALID_PARAM, resp)
  | Some root =>
      m ← lift (appendentries_of_obj (e_alloc env) root);
      let sender_id := yyjson_get_int (yyjson_obj_get (Some root) "sender_id") in
      '(e, r) ← on_raft (raft_recv_appendentries (raft_log_offer_cb (e_alloc env)) sender_id m);
      if negb (e =? 0) then mret (SSO_ERR_GENERAL, resp)
      else resp ← answer_json env resp (appendentries_response_json r); mret (SSO_OK, resp)
  end.

(** [enabled]: the storage of the context is the proxy of a cluster. *)
Definition handle_raft_execute (enabled : bool) (rand : Z) req resp : handler (sso_error_t * http_response_t) :=
  s ← get_state;
  match ss_body s with
  | None => resp ← fail env resp 400 "Missing payload"; mret (SSO_OK, resp)
  | Some body =>
      if negb enabled then mret (SSO_ERR_STORAGE, resp)
      else
        err ← on_raft (raft_cluster_propose_and_wait (e_alloc env) rand (Some body));
        if is_ok err then
          mret (SSO_OK, sso_response_ok env (("{" : cstr) ++ QUOTE :: ("success" : cstr) ++ QUOTE :: (":true}" : cstr)) resp)
        else resp ← fail env resp 500 "Raft propose failed"; mret (SSO_OK, resp)
  end.

Definition state_text (state : Z) : cstr :=
  if state =? 1 then "follower" else if state =? 2 then "candidate" else if state =? 3 then "leader" else "unknown".

Definition status_json (r : R) : json :=
  JObj ([("enabled" : cstr, JBool true); ("is_leader" : cstr, JBool (raft_is_leader r));
         ("state" : cstr, JStr (state_text (raft_get_state r))); ("term" : cstr, int_val (raft_get_current_term r));
         ("current_idx" : cstr, int_val (raft_get_current_idx r)); ("num_nodes" : cstr, int_val (raft_get_num_nodes r))] ++
        opt_member "leader_url" JStr (match raft_leader_udata r with Some url => url | None => Some [] end)).

Definition handle_raft_status (enabled : bool) req resp : handler (sso_error_t * http_response_t) :=
  if negb enabled then
    mret (SSO_OK, sso_response_ok env (("{" : cstr) ++ QUOTE :: ("enabled" : cstr) ++ QUOTE :: (": false}" : cstr)) resp)
  else
    s ← get_state;
    resp ← answer_json env resp (status_json (w_store (ss_world s)).2); mret (SSO_OK, resp).

End Handlers.
