(* ===== verification/Redis.v ===== *)
(** * The Redis backend (src/storage_redis.c)

    The Redis server and the hiredis client are a class: the words a
    command text is split into, and the reply to a command.  The keys, the
    commands and what is made of the replies are the program's.  Threads
    share one connection here: the pool only chooses among equal ones. *)

From S2P Require Import Prelude CLib Types Storage Printf Http.

Inductive redis_reply :=
| REDIS_REPLY_STRING (s : list ascii) | REDIS_REPLY_ARRAY (elements : list redis_reply) | REDIS_REPLY_INTEGER (z : Z)
| REDIS_REPLY_NIL | REDIS_REPLY_STATUS (s : list ascii) | REDIS_REPLY_ERROR (s : list ascii).

(** [redisCommand] splits a text that is its own format into words;
    [redis_exec] sends the words of a command: no reply when the connection
    is lost. *)
Class Redis (D : Type) := {
  redis_argv : cstr → outcome (list cstr);
  redis_exec : list cstr → D → option redis_reply * D
}.

(** What the backend holds: the connection ([priv->ctx], whether it was
    opened), the server behind it, and the set bits of the filter of
    revoked ids. *)
Record redis_state (D : Type) := { rd_ctx : bool; rd_db : D; rd_bloom : gset Z }.
Arguments Build_redis_state {D} _ _ _.
Arguments rd_ctx {D} _.
Arguments rd_db {D} _.
Arguments rd_bloom {D} _.

Definition set_db {D} (d : D) (s : redis_state D) : redis_state D := {| rd_ctx := rd_ctx s; rd_db := d; rd_bloom := rd_bloom s |}.

(** Code that talks to the server. *)
Definition redis (D A : Type) : Type := redis_state D → outcome (A * redis_state D).
#[global] Instance redis_ret {D} : MRet (redis D) := λ A a s, Ret (a, s).
#[global] Instance redis_bind {D} : MBind (redis D) := λ A B f m s,
  match m s with Ret (a, s') => f a s' | Crash => Crash | Diverge => Diverge end.

(* ------------------------------------------------------------------ *)
(** ** The filter of revoked ids *)

Definition BLOOM_SIZE : Z := 1048576.

Definition djb2_hash (str : cstr) : Z := fold_left (λ h c, u32 (u32 (Z.shiftl h 5) + h + schar c)) str 5381.
Definition fnv1a_hash (str : cstr) : Z :=
  fold_left (λ h c, u32 (Z.lxor h (u32 (schar c)) * 16777619)) str 2166136261.

Definition bloom_bits (jti : cstr) : Z * Z := (djb2_hash jti mod (BLOOM_SIZE * 8), fnv1a_hash jti mod (BLOOM_SIZE * 8)).
Definition bloom_add (jti : cstr) (b : gset Z) : gset Z := {[(bloom_bits jti).1]} ∪ ({[(bloom_bits jti).2]} ∪ b).
Definition bloom_might_contain (jti : cstr) (b : gset Z) : bool :=
  bool_decide ((bloom_bits jti).1 ∈ b) && bool_decide ((bloom_bits jti).2 ∈ b).

(* ------------------------------------------------------------------ *)
(** ** Keys *)

Definition id_text (id : Z) : cstr := print_lld (s64 id).
Definition key_id (prefix : cstr) (id : Z) : cstr := snprintf 512 (prefix ++ (":id:" : cstr) ++ id_text id).
Definition key_name (prefix name : cstr) : cstr := snprintf 512 (prefix ++ (":name:" : cstr) ++ name).
Definition key_phone (phone : cstr) : cstr := snprintf 512 (("user:phone:" : cstr) ++ phone).
Definition key_next_id (prefix : cstr) : cstr := snprintf 512 (prefix ++ (":next_id" : cstr)).
Definition key_policy_target (pid ttype : Z) : cstr :=
  snprintf 512 (("policy:" : cstr) ++ id_text pid ++ (":targets:" : cstr) ++ print_d (s32 ttype)).
Definition key_target_policies (ttype tid : Z) : cstr :=
  snprintf 512 (("target:" : cstr) ++ print_d (s32 ttype) ++ ":"%char :: id_text tid ++ (":policies" : cstr)).

(** [user:7:roles] and the like; the middle is a number or the text of a
    reply. *)
Definition key_set (left middle right : cstr) : cstr := snprintf 512 (left ++ ":"%char :: middle ++ ":"%char :: right).

(* ------------------------------------------------------------------ *)
(** ** Replies *)

(** [reply->str]: NULL for numbers, arrays and nil. *)
Definition reply_str (r : redis_reply) : option cstr :=
  match r with
  | REDIS_REPLY_STRING s | REDIS_REPLY_STATUS s | REDIS_REPLY_ERROR s => Some (c_str s)
  | _ => None
  end.
Definition reply_integer (r : redis_reply) : Z := match r with REDIS_REPLY_INTEGER z => z | _ => 0 end.

Definition redis_ok (r : option redis_reply) : sso_error_t :=
  match r with None | Some (REDIS_REPLY_ERROR _) => SSO_ERR_STORAGE | _ => SSO_OK end.
Definition redis_int (r : option redis_reply) (fallback : Z) : Z :=
  match r with Some (REDIS_REPLY_INTEGER z) => s32 z | _ => fallback end.
Definition redis_str_copy (r : option redis_reply) (dest_sz : nat) : result cstr :=
  match r with
  | Some REDIS_REPLY_NIL => Err SSO_ERR_NOT_FOUND
  | Some (REDIS_REPLY_STRING s) => Ok (sso_strlcpy (Some (c_str s)) dest_sz)
  | _ => Err SSO_ERR_STORAGE
  end.
Definition redis_reply_id (r : option redis_reply) : result Z :=
  match r with
  | Some REDIS_REPLY_NIL => Err SSO_ERR_NOT_FOUND
  | Some (REDIS_REPLY_STRING s) => Ok (u64 (atoll (c_str s)))
  | Some (REDIS_REPLY_INTEGER z) => Ok (u64 z)
  | _ => Err SSO_ERR_STORAGE
  end.

(** The field and value texts of [HGETALL]; an odd one at the end and
    those without a text are passed over. *)
Fixpoint hash_pairs (l : list redis_reply) : list (cstr * cstr) :=
  match l with
  | f :: v :: l => match reply_str f, reply_str v with Some f, Some v => (f, v) :: hash_pairs l | _, _ => hash_pairs l end
  | _ => []
  end.

(** The last of the fields with a name, which has overwritten the others;
    texts are cut to their array and numbers converted. *)
Fixpoint hash_field (name : cstr) (l : list (cstr * cstr)) : option cstr :=
  match l with
  | [] => None
  | (f, v) :: l => match hash_field name l with Some v => Some v | None => if strcmp_eq f name then Some v else None end
  end.
Definition text_field (l : list (cstr * cstr)) (name : cstr) (size : nat) : cstr :=
  match hash_field name l with Some v => sso_strlcpy (Some v) size | None => [] end.
Definition int_field (l : list (cstr * cstr)) (name : cstr) : Z := match hash_field name l with Some v => atoi v | None => 0 end.
Definition ll_field (l : list (cstr * cstr)) (name : cstr) : Z := match hash_field name l with Some v => atoll v | None => 0 end.
Definition id_field (l : list (cstr * cstr)) (name : cstr) : Z := match hash_field name l with Some v => u64 (atoll v) | None => 0 end.

(** The texts of an array, in order. *)
Definition array_texts (l : list redis_reply) : list cstr := omap reply_str l.

(* ------------------------------------------------------------------ *)
(** ** Commands *)

Section Backend.
Context {D : Type} `{!Redis D} (now : Z).
Notation redis := (redis D).
Notation state := (redis_state D).

Definition redis_cmd (argv : list cstr) : redis (option redis_reply) := λ s,
  let '(r, d) := redis_exec argv (rd_db s) in Ret (r, set_db d s).

(** The text is sent as a format without arguments. *)
Definition redis_cmd_str (cmd : cstr) : redis (option redis_reply) := λ s,
  argv ← redis_argv cmd; redis_cmd argv s.

(** [if (!priv || !priv->ctx) return SSO_ERR_STORAGE;] *)
Definition connected {A} (m : redis (result A)) : storage_op state A := λ s,
  if rd_ctx s then m s else Ret (Err SSO_ERR_STORAGE, s).

(** An operation called by another one. *)
Definition op {A} (m : storage_op state A) : redis (result A) := m.

(** [SSO_OK] or the error. *)
Definition done (e : sso_error_t) : result unit := match e with SSO_OK => Ok () | _ => Err e end.
Definition then_ok {A} (e : sso_error_t) (m : redis (result A)) : redis (result A) :=
  match e with SSO_OK => m | _ => mret (Err e) end.

(** The whole text has to fit 1023 characters. *)
Definition hash_text (key : cstr) (fields : list (cstr * cstr)) : cstr :=
  ("HMSET " : cstr) ++ key ++ concat (map (λ fv, " "%char :: fv.1 ++ " "%char :: fv.2) fields).
Definition redis_hash_set (key : cstr) (fields : list (cstr * cstr)) : redis sso_error_t :=
  let cmd := hash_text key fields in
  if (1024 <=? length cmd)%nat then mret SSO_ERR_STORAGE
  else r ← redis_cmd_str cmd; mret (redis_ok r).

Definition redis_next_id (prefix : cstr) : redis (result Z) :=
  r ← redis_cmd ["INCR" : cstr; key_next_id prefix];
  mret (match r with Some r => Ok (u64 (reply_integer r)) | None => Err SSO_ERR_STORAGE end).
Definition redis_list_push (list_key : cstr) (id : Z) : redis unit :=
  _ ← redis_cmd ["RPUSH" : cstr; list_key; snprintf 64 (id_text id)]; mret ().
Definition redis_list_rem (list_key : cstr) (id : Z) : redis unit :=
  _ ← redis_cmd ["LREM" : cstr; list_key; "0" : cstr; snprintf 64 (id_text id)]; mret ().
Definition redis_check_unique (key : cstr) : redis sso_error_t :=
  r ← redis_cmd ["EXISTS" : cstr; key];
  mret (if redis_int r 0 =? 0 then SSO_OK else SSO_ERR_ALREADY_EXISTS).
Definition redis_set_index (key : cstr) (id : Z) : redis unit :=
  _ ← redis_cmd ["SET" : cstr; key; snprintf 64 (id_text id)]; mret ().
Definition redis_del (key : cstr) : redis unit := _ ← redis_cmd ["DEL" : cstr; key]; mret ().

(** A loop over texts. *)
Fixpoint each (f : cstr → redis unit) (l : list cstr) : redis unit :=
  match l with [] => mret () | x :: l => _ ← f x; each f l end.

(** The members of a set, none when the reply is not an array. *)
Definition smembers (key : cstr) : redis (list cstr) :=
  r ← redis_cmd ["SMEMBERS" : cstr; key];
  mret (match r with Some (REDIS_REPLY_ARRAY l) => array_texts l | _ => [] end).
Definition srem (key : cstr) (id : Z) : redis unit := _ ← redis_cmd ["SREM" : cstr; key; id_text id]; mret ().

(** The cascade of a deletion: the id is removed from the set of each
    member of one of its sets, and that set is deleted. *)
Definition cascade (key : cstr) (other : cstr → cstr) (id : Z) : redis unit :=
  l ← smembers key; _ ← each (λ x, srem (other x) id) l; redis_del key.

(* ------------------------------------------------------------------ *)
(** ** Users *)

(** The unique indices of a user: only texts that are not empty. *)
Definition if_text (t : cstr) (m : redis sso_error_t) : redis sso_error_t := match t with [] => mret SSO_OK | _ => m end.
Definition when_text (t : cstr) (m : redis unit) : redis unit := match t with [] => mret () | _ => m end.

Definition set_user_id (id : Z) (u : user_t) : user_t :=
  {| u_id := id; u_username := u_username u; u_phone := u_phone u; u_password_hash := u_password_hash u;
     u_email := u_email u; u_display_name := u_display_name u; u_status := u_status u; u_created_at := u_created_at u;
     u_updated_at := u_updated_at u; u_attributes := u_attributes u; u_mfa_enabled := u_mfa_enabled u;
     u_mfa_secret := u_mfa_secret u; u_password_set_at := u_password_set_at u |}.

(** The member [id] is given the status. *)
Definition user_hash (u : user_t) : list (cstr * cstr) :=
  let status := snprintf 16 (print_d (user_status_int (u_status u))) in
  [("id" : cstr, status); ("username" : cstr, u_username u); ("phone" : cstr, u_phone u);
   ("password_hash" : cstr, u_password_hash u); ("email" : cstr, u_email u); ("display_name" : cstr, u_display_name u);
   ("status" : cstr, status); ("created_at" : cstr, snprintf 32 (print_lld (u_created_at u)));
   ("updated_at" : cstr, snprintf 32 (print_lld (u_updated_at u))); ("attributes" : cstr, u_attributes u);
   ("mfa_enabled" : cstr, snprintf 8 (print_d (u_mfa_enabled u))); ("mfa_secret" : cstr, u_mfa_secret u)].

Definition redis_user_create (user : user_t) : storage_op state user_t := connected (
  e1 ← if_text (u_username user) (redis_check_unique (key_name "user" (u_username user)));
  then_ok e1 (
  e2 ← if_text (u_phone user) (redis_check_unique (key_phone (u_phone user)));
  then_ok e2 (
  next ← redis_next_id "user";
  match next with
  | Err e => mret (Err e)
  | Ok id =>
      err ← redis_hash_set (key_id "user" id) (user_hash user);
      then_ok err (
      _ ← when_text (u_username user) (redis_set_index (key_name "user" (u_username user)) id);
      _ ← when_text (u_phone user) (redis_set_index (key_phone (u_phone user)) id);
      _ ← redis_list_push "user:list" id;
      mret (Ok (set_user_id id user)))
  end))).

Definition user_from_hash (id : Z) (l : list (cstr * cstr)) : user_t :=
  {| u_id := id; u_username := text_field l "username" 64; u_phone := text_field l "phone" 32;
     u_password_hash := text_field l "password_hash" 256; u_email := text_field l "email" 128;
     u_display_name := text_field l "display_name" 128; u_status := user_status_of (int_field l "status");
     u_created_at := ll_field l "created_at"; u_updated_at := ll_field l "updated_at";
     u_attributes := text_field l "attributes" 2048; u_mfa_enabled := int_field l "mfa_enabled";
     u_mfa_secret := text_field l "mfa_secret" 64; u_password_set_at := 0 |}.

(** A record in a hash, as users, codes, clients and refresh tokens are
    read: a key that does not exist gives an empty array. *)
Definition hgetall {A} (key : cstr) (of_pairs : list (cstr * cstr) → A) : redis (result A) :=
  r ← redis_cmd ["HGETALL" : cstr; key];
  mret (match r with
        | Some REDIS_REPLY_NIL => Err SSO_ERR_NOT_FOUND
        | Some (REDIS_REPLY_ARRAY l) => Ok (of_pairs (hash_pairs l))
        | _ => Err SSO_ERR_STORAGE
        end).

Definition redis_user_get_by_id (id : Z) : storage_op state user_t := connected (hgetall (key_id "user" id) (user_from_hash id)).

(** An index followed by the lookup of its id. *)
Definition get_indexed {A} (key : cstr) (get : Z → storage_op state A) : storage_op state A := connected (
  r ← redis_cmd ["GET" : cstr; key];
  match redis_reply_id r with Err e => mret (Err e) | Ok id => op (get id) end).

Definition redis_user_get_by_name (name : cstr) : storage_op state user_t := get_indexed (key_name "user" name) redis_user_get_by_id.
Definition redis_user_get_by_phone (phone : cstr) : storage_op state user_t := get_indexed (key_phone phone) redis_user_get_by_id.

(** Name, creation and the indices are not updated. *)
Definition redis_user_update (user : user_t) : storage_op state unit := connected (
  e ← redis_hash_set (key_id "user" (u_id user))
        [("phone" : cstr, u_phone user); ("password_hash" : cstr, u_password_hash user); ("email" : cstr, u_email user);
         ("display_name" : cstr, u_display_name user);
         ("status" : cstr, snprintf 16 (print_d (user_status_int (u_status user))));
         ("updated_at" : cstr, snprintf 32 (print_lld (u_updated_at user))); ("attributes" : cstr, u_attributes user);
         ("mfa_enabled" : cstr, snprintf 8 (print_d (u_mfa_enabled user))); ("mfa_secret" : cstr, u_mfa_secret user)];
  mret (done e)).

Definition redis_user_delete (id : Z) : storage_op state unit := connected (
  u ← op (redis_user_get_by_id id);
  match u with
  | Err e => mret (Err e)
  | Ok u =>
      _ ← when_text (u_username u) (redis_del (key_name "user" (u_username u)));
      _ ← when_text (u_phone u) (redis_del (key_phone (u_phone u)));
      _ ← cascade (key_set "user" (id_text id) "roles") (λ r, key_set "role" r "users") id;
      _ ← cascade (key_set "user" (id_text id) "groups") (λ g, key_set "group" g "users") id;
      _ ← cascade (key_target_policies 0 id) (λ p, snprintf 512 (("policy:" : cstr) ++ p ++ (":targets:0" : cstr))) id;
      _ ← redis_del (key_id "user" id);
      _ ← redis_list_rem "user:list" id;
      mret (Ok ())
  end).

(** The loop of a listing over the ids: rows that match are counted, and
    those after [offset] are put out until [limit] of them are. *)
Section Listing.
Context {A : Type} (get : Z → storage_op state A) (status_of : A → Z) (texts : A → list cstr).
Context (q : option cstr) (status offset limit : Z).

Definition filtering : bool := match q with Some (_ :: _) => true | _ => negb (status =? -1) end.
Definition matches (a : A) : bool :=
  ((status =? -1) || (status_of a =? status)) &&
  match q with Some ((_ :: _) as q) => existsb (λ t, match strstr t q with Some _ => true | None => false end) (texts a) | _ => true end.

Fixpoint list_loop (ids : list cstr) (mat : Z) (out : list Z) : redis (list Z * Z) :=
  match ids with
  | [] => mret (out, mat)
  | t :: ids =>
      if Z.of_nat (length out) <? u64 limit then
        let id := u64 (atoll t) in
        let count := list_loop ids (mat + 1) (if u64 offset <? mat + 1 then out ++ [id] else out) in
        if filtering then
          a ← op (get id);
          match a with
          | Ok a => if matches a then count else list_loop ids mat out
          | Err _ => list_loop ids mat out
          end
        else count
      else mret (out, mat)
  end.

Definition redis_list (list_key : cstr) : storage_op state (list Z * Z) := connected (
  r ← redis_cmd ["LRANGE" : cstr; list_key; "0" : cstr; "-1" : cstr];
  match r with
  | Some (REDIS_REPLY_ARRAY l) =>
      '(out, mat) ← list_loop (array_texts l) 0 [];
      mret (Ok (out, if filtering then mat else Z.of_nat (length l)))
  | _ => mret (Ok ([], 0))
  end).
End Listing.

Definition redis_user_list : list_op state := λ q status offset limit,
  redis_list redis_user_get_by_id (λ u, user_status_int (u_status u))
    (λ u, [u_username u; u_display_name u; u_email u; u_phone u]) q status offset limit "user:list".

(* ------------------------------------------------------------------ *)
(** ** SMS codes *)

(** Seconds to live, 300 when the time has passed. *)
Definition ttl_of (expires_at : Z) : Z := if now <? expires_at then (expires_at - now) / 1000 else 300.
Definition key_sms (phone : cstr) : cstr := snprintf 512 (("sms:" : cstr) ++ phone).

Definition redis_save_sms_code (phone code : cstr) (expires_at : Z) : storage_op state unit := connected (
  r ← redis_cmd ["SET" : cstr; key_sms phone; code; "EX" : cstr; print_llu (ttl_of expires_at)];
  mret (done (redis_ok r))).
Definition redis_get_sms_code (phone : cstr) : storage_op state cstr := connected (
  r ← redis_cmd ["GET" : cstr; key_sms phone]; mret (redis_str_copy r 16)).
Definition redis_delete_sms_code (phone : cstr) : storage_op state unit := connected (
  r ← redis_cmd ["DEL" : cstr; key_sms phone]; mret (done (redis_ok r))).

(* ------------------------------------------------------------------ *)
(** ** Roles, groups and policies *)

(** [redis_..._from_hash]: here an empty array is not found. *)
Definition from_hash {A} (key : cstr) (of_pairs : list (cstr * cstr) → A) : redis (result A) :=
  r ← redis_cmd ["HGETALL" : cstr; key];
  mret (match r with
        | Some (REDIS_REPLY_ARRAY []) => Err SSO_ERR_NOT_FOUND
        | Some (REDIS_REPLY_ARRAY l) => Ok (of_pairs (hash_pairs l))
        | _ => Err SSO_ERR_STORAGE
        end).

(** A row with a unique name: the name is checked, an id drawn, the hash
    written, the index and the list entry added. *)
Definition create_named {A} (prefix name : cstr) (with_id : Z → A) (hash : A → list (cstr * cstr)) : storage_op state A := connected (
  e ← redis_check_unique (key_name prefix name);
  then_ok e (
  next ← redis_next_id prefix;
  match next with
  | Err e => mret (Err e)
  | Ok id =>
      err ← redis_hash_set (key_id prefix id) (hash (with_id id));
      then_ok err (
      _ ← redis_set_index (key_name prefix name) id;
      _ ← redis_list_push (prefix ++ (":list" : cstr)) id;
      mret (Ok (with_id id)))
  end)).

Definition update_hash (key : cstr) (fields : list (cstr * cstr)) : storage_op state unit := connected (
  e ← redis_hash_set key fields; mret (done e)).

Definition enum_text (z : Z) : cstr := snprintf 16 (print_d z).
Definition id_txt (z : Z) : cstr := snprintf 64 (id_text z).
Definition time_text (z : Z) : cstr := snprintf 32 (print_lld z).

Definition role_from_hash (id : Z) (l : list (cstr * cstr)) : role_t :=
  {| r_id := id; r_name := text_field l "name" 64; r_description := text_field l "description" 512;
     r_parent_role_id := id_field l "parent_role_id"; r_status := role_status_of (int_field l "status");
     r_created_at := ll_field l "created_at"; r_updated_at := ll_field l "updated_at" |}.
Definition role_hash (r : role_t) : list (cstr * cstr) :=
  [("id" : cstr, id_txt (r_id r)); ("name" : cstr, r_name r); ("description" : cstr, r_description r);
   ("parent_role_id" : cstr, id_txt (r_parent_role_id r)); ("status" : cstr, enum_text (role_status_int (r_status r)));
   ("created_at" : cstr, time_text (r_created_at r)); ("updated_at" : cstr, time_text (r_updated_at r))].
Definition set_role_id (r : role_t) (id : Z) : role_t :=
  {| r_id := id; r_name := r_name r; r_description := r_description r; r_parent_role_id := r_parent_role_id r;
     r_status := r_status r; r_created_at := r_created_at r; r_updated_at := r_updated_at r |}.

Definition redis_role_get_by_id (id : Z) : storage_op state role_t := connected (from_hash (key_id "role" id) (role_from_hash id)).
Definition redis_role_get_by_name (name : cstr) : storage_op state role_t := get_indexed (key_name "role" name) redis_role_get_by_id.
Definition redis_role_create (role : role_t) : storage_op state role_t :=
  create_named "role" (r_name role) (set_role_id role) role_hash.
Definition redis_role_update (role : role_t) : storage_op state unit :=
  update_hash (key_id "role" (r_id role))
    [("name" : cstr, r_name role); ("description" : cstr, r_description role);
     ("parent_role_id" : cstr, id_txt (r_parent_role_id role)); ("status" : cstr, enum_text (role_status_int (r_status role)));
     ("updated_at" : cstr, time_text (r_updated_at role))].

(** The key [parent] of no role is deleted too. *)
Definition redis_role_delete (id : Z) : storage_op state unit := connected (
  r ← op (redis_role_get_by_id id);
  match r with
  | Err e => mret (Err e)
  | Ok r =>
      _ ← redis_del (key_id "role" id);
      _ ← redis_del (key_name "role" (r_name r));
      _ ← redis_del "parent";
      _ ← cascade (key_set "role" (id_text id) "users") (λ u, key_set "user" u "roles") id;
      _ ← cascade (key_set "role" (id_text id) "groups") (λ g, key_set "group" g "roles") id;
      _ ← cascade (key_target_policies 1 id) (λ p, snprintf 512 (("policy:" : cstr) ++ p ++ (":targets:1" : cstr))) id;
      _ ← redis_list_rem "role:list" id;
      mret (Ok ())
  end).
Definition redis_role_list : list_op state := λ q status offset limit,
  redis_list redis_role_get_by_id (λ r, role_status_int (r_status r)) (λ r, [r_name r]) q status offset limit "role:list".

Definition group_from_hash (id : Z) (l : list (cstr * cstr)) : group_t :=
  {| g_id := id; g_name := text_field l "name" 64; g_description := text_field l "description" 512;
     g_parent_group_id := id_field l "parent_group_id"; g_status := group_status_of (int_field l "status");
     g_created_at := ll_field l "created_at"; g_updated_at := ll_field l "updated_at" |}.
Definition group_hash (g : group_t) : list (cstr * cstr) :=
  [("id" : cstr, id_txt (g_id g)); ("name" : cstr, g_name g); ("description" : cstr, g_description g);
   ("parent_group_id" : cstr, id_txt (g_parent_group_id g)); ("status" : cstr, enum_text (group_status_int (g_status g)));
   ("created_at" : cstr, time_text (g_created_at g)); ("updated_at" : cstr, time_text (g_updated_at g))].
Definition set_group_id (g : group_t) (id : Z) : group_t :=
  {| g_id := id; g_name := g_name g; g_description := g_description g; g_parent_group_id := g_parent_group_id g;
     g_status := g_status g; g_created_at := g_created_at g; g_updated_at := g_updated_at g |}.

Definition redis_group_get_by_id (id : Z) : storage_op state group_t := connected (from_hash (key_id "group" id) (group_from_hash id)).
Definition redis_group_get_by_name (name : cstr) : storage_op state group_t := get_indexed (key_name "group" name) redis_group_get_by_id.
Definition redis_group_create (group : group_t) : storage_op state group_t :=
  create_named "group" (g_name group) (set_group_id group) group_hash.
Definition redis_group_update (group : group_t) : storage_op state unit :=
  update_hash (key_id "group" (g_id group))
    [("name" : cstr, g_name group); ("description" : cstr, g_description group);
     ("parent_group_id" : cstr, id_txt (g_parent_group_id group)); ("status" : cstr, enum_text (group_status_int (g_status group)));
     ("updated_at" : cstr, time_text (g_updated_at group))].
Definition redis_group_delete (id : Z) : storage_op state unit := connected (
  g ← op (redis_group_get_by_id id);
  match g with
  | Err e => mret (Err e)
  | Ok g =>
      _ ← redis_del (key_id "group" id);
      _ ← redis_del (key_name "group" (g_name g));
      _ ← cascade (key_set "group" (id_text id) "users") (λ u, key_set "user" u "groups") id;
      _ ← cascade (key_set "group" (id_text id) "roles") (λ r, key_set "role" r "groups") id;
      _ ← cascade (key_target_policies 2 id) (λ p, snprintf 512 (("policy:" : cstr) ++ p ++ (":targets:2" : cstr))) id;
      _ ← redis_list_rem "group:list" id;
      mret (Ok ())
  end).
Definition redis_group_list : list_op state := λ q status offset limit,
  redis_list redis_group_get_by_id (λ g, group_status_int (g_status g)) (λ g, [g_name g]) q status offset limit "group:list".

Definition policy_from_hash (id : Z) (l : list (cstr * cstr)) : policy_t :=
  {| p_id := id; p_name := text_field l "name" 64; p_strategy_type := perm_strategy_of (int_field l "strategy_type");
     p_effect := policy_effect_of (int_field l "effect"); p_priority := int_field l "priority";
     p_rules := text_field l "rules" 8192; p_status := policy_status_of (int_field l "status");
     p_created_at := ll_field l "created_at"; p_updated_at := ll_field l "updated_at" |}.
Definition policy_hash (p : policy_t) : list (cstr * cstr) :=
  [("id" : cstr, id_txt (p_id p)); ("name" : cstr, p_name p);
   ("strategy_type" : cstr, enum_text (perm_strategy_int (p_strategy_type p)));
   ("effect" : cstr, enum_text (policy_effect_int (p_effect p))); ("priority" : cstr, enum_text (p_priority p));
   ("rules" : cstr, p_rules p); ("status" : cstr, enum_text (policy_status_int (p_status p)));
   ("created_at" : cstr, time_text (p_created_at p)); ("updated_at" : cstr, time_text (p_updated_at p))].
Definition set_policy_id (p : policy_t) (id : Z) : policy_t :=
  {| p_id := id; p_name := p_name p; p_strategy_type := p_strategy_type p; p_effect := p_effect p; p_priority := p_priority p;
     p_rules := p_rules p; p_status := p_status p; p_created_at := p_created_at p; p_updated_at := p_updated_at p |}.

Definition redis_policy_get_by_id (id : Z) : storage_op state policy_t :=
  connected (from_hash (key_id "policy" id) (policy_from_hash id)).
Definition redis_policy_get_by_name (name : cstr) : storage_op state policy_t :=
  get_indexed (key_name "policy" name) redis_policy_get_by_id.
Definition redis_policy_create (policy : policy_t) : storage_op state policy_t :=
  create_named "policy" (p_name policy) (set_policy_id policy) policy_hash.
Definition redis_policy_update (policy : policy_t) : storage_op state unit :=
  update_hash (key_id "policy" (p_id policy))
    [("name" : cstr, p_name policy); ("strategy_type" : cstr, enum_text (perm_strategy_int (p_strategy_type policy)));
     ("effect" : cstr, enum_text (policy_effect_int (p_effect policy))); ("priority" : cstr, enum_text (p_priority policy));
     ("rules" : cstr, p_rules policy); ("status" : cstr, enum_text (policy_status_int (p_status policy)));
     ("updated_at" : cstr, time_text (p_updated_at policy))].
Definition redis_policy_delete (id : Z) : storage_op state unit := connected (
  p ← op (redis_policy_get_by_id id);
  match p with
  | Err e => mret (Err e)
  | Ok p =>
      let targets tt :=
        cascade (key_policy_target id tt) (λ x, snprintf 512 (("target:" : cstr) ++ print_d tt ++ ":"%char :: x ++ (":policies" : cstr))) id in
      _ ← redis_del (key_id "policy" id);
      _ ← redis_del (key_name "policy" (p_name p));
      _ ← targets 0; _ ← targets 1; _ ← targets 2;
      _ ← redis_list_rem "policy:list" id;
      mret (Ok ())
  end).
Definition redis_policy_list : list_op state := λ q status offset limit,
  redis_list redis_policy_get_by_id (λ p, policy_status_int (p_status p)) (λ p, [p_name p]) q status offset limit "policy:list".

(* ------------------------------------------------------------------ *)
(** ** Assignments *)

(** Two sets are changed; a lost connection in between leaves one. *)
Definition both (first second : list cstr) : storage_op state unit := connected (
  r ← redis_cmd first;
  match r with
  | None => mret (Err SSO_ERR_STORAGE)
  | Some _ => r ← redis_cmd second; mret (match r with None => Err SSO_ERR_STORAGE | Some _ => Ok () end)
  end).

(** The members of a set as ids, at most [max]. *)
Definition member_ids (key : cstr) (max : nat) : storage_op state (list Z) := connected (
  r ← redis_cmd ["SMEMBERS" : cstr; key];
  mret (match r with
        | None => Err SSO_ERR_STORAGE
        | Some (REDIS_REPLY_ARRAY l) =>
            match take max (map (λ t, u64 (atoll t)) (array_texts l)) with [] => Err SSO_ERR_NOT_FOUND | ids => Ok ids end
        | Some _ => Err SSO_ERR_NOT_FOUND
        end)).

Definition redis_assign_role_to_user (role_id user_id : Z) : storage_op state unit :=
  both ["SADD" : cstr; key_set "user" (id_text user_id) "roles"; id_text role_id]
       ["SADD" : cstr; key_set "role" (id_text role_id) "users"; id_text user_id].
Definition redis_unassign_role_from_user (role_id user_id : Z) : storage_op state unit :=
  both ["SREM" : cstr; key_set "user" (id_text user_id) "roles"; id_text role_id]
       ["SREM" : cstr; key_set "role" (id_text role_id) "users"; id_text user_id].
Definition redis_get_user_roles : ids_op state := λ user_id, member_ids (key_set "user" (id_text user_id) "roles").
Definition redis_get_role_users : ids_op state := λ role_id, member_ids (key_set "role" (id_text role_id) "users").
Definition redis_assign_role_to_group (role_id group_id : Z) : storage_op state unit :=
  both ["SADD" : cstr; key_set "role" (id_text role_id) "groups"; id_text group_id]
       ["SADD" : cstr; key_set "group" (id_text group_id) "roles"; id_text role_id].
Definition redis_unassign_role_from_group (role_id group_id : Z) : storage_op state unit :=
  both ["SREM" : cstr; key_set "role" (id_text role_id) "groups"; id_text group_id]
       ["SREM" : cstr; key_set "group" (id_text group_id) "roles"; id_text role_id].
Definition redis_add_user_to_group (group_id user_id : Z) : storage_op state unit :=
  both ["SADD" : cstr; key_set "group" (id_text group_id) "users"; id_text user_id]
       ["SADD" : cstr; key_set "user" (id_text user_id) "groups"; id_text group_id].
Definition redis_remove_user_from_group (group_id user_id : Z) : storage_op state unit :=
  both ["SREM" : cstr; key_set "group" (id_text group_id) "users"; id_text user_id]
       ["SREM" : cstr; key_set "user" (id_text user_id) "groups"; id_text group_id].
Definition redis_get_user_groups : ids_op state := λ user_id, member_ids (key_set "user" (id_text user_id) "groups").
Definition redis_get_group_users : ids_op state := λ group_id, member_ids (key_set "group" (id_text group_id) "users").

Definition redis_assign_policy (policy_id : Z) (t : policy_target_type_t) (target_id : Z) : storage_op state unit :=
  both ["SADD" : cstr; key_policy_target policy_id (policy_target_int t); id_text target_id]
       ["SADD" : cstr; key_target_policies (policy_target_int t) target_id; id_text policy_id].
Definition redis_unassign_policy (policy_id : Z) (t : policy_target_type_t) (target_id : Z) : storage_op state unit :=
  both ["SREM" : cstr; key_policy_target policy_id (policy_target_int t); id_text target_id]
       ["SREM" : cstr; key_target_policies (policy_target_int t) target_id; id_text policy_id].
Definition redis_get_policy_targets (policy_id : Z) (t : policy_target_type_t) (max : nat) : storage_op state (list Z) :=
  member_ids (key_policy_target policy_id (policy_target_int t)) max.
Definition redis_get_target_policies (t : policy_target_type_t) (target_id : Z) (max : nat) : storage_op state (list Z) :=
  member_ids (key_target_policies (policy_target_int t) target_id) max.

(* ------------------------------------------------------------------ *)
(** ** Hierarchy *)

Definition redis_role_get_parent (role_id : Z) : storage_op state Z := connected (
  r ← redis_cmd ["HGET" : cstr; key_id "role" role_id; "parent_role_id" : cstr]; mret (redis_reply_id r)).
Definition redis_group_get_parent (group_id : Z) : storage_op state Z := connected (
  r ← redis_cmd ["HGET" : cstr; key_id "group" group_id; "parent_group_id" : cstr]; mret (redis_reply_id r)).

Definition add_role (id : Z) (ids : list Z) : list Z := if bool_decide (id ∈ ids) then ids else ids ++ [id].

(** Is the role there and active? *)
Definition role_active (id : Z) : redis bool :=
  r ← op (redis_role_get_by_id id);
  mret (match r with Ok r => bool_decide (r_status r = ROLE_STATUS_ACTIVE) | Err _ => false end).

(** The walk up the parents has no bound of its own: [fuel] stands for
    the patience of the observer. *)
Fixpoint climb_roles (fuel : nat) (cur : Z) (ids : list Z) (max : nat) : redis (list Z) :=
  match fuel with
  | O => λ _, Diverge
  | S fuel =>
      if (length ids <? max)%nat then
        par ← op (redis_role_get_parent cur);
        match par with
        | Err _ => mret ids
        | Ok par =>
            if par =? 0 then mret ids
            else
              active ← role_active par;
              if active : bool then climb_roles fuel par (add_role par ids) max else mret ids
        end
      else mret ids
  end.

Fixpoint climb_direct (fuel : nat) (direct : list Z) (ids : list Z) (max : nat) : redis (list Z) :=
  match direct with
  | [] => mret ids
  | cur :: direct =>
      if (length ids <? max)%nat then
        active ← role_active cur;
        if active : bool then ids ← climb_roles fuel cur (add_role cur ids) max; climb_direct fuel direct ids max
        else climb_direct fuel direct ids max
      else mret ids
  end.

Definition redis_get_user_roles_with_ancestors (fuel : nat) : ids_op state := λ user_id max, connected (
  direct ← op (redis_get_user_roles user_id 64%nat);
  match direct with
  | Err _ => mret (Err SSO_ERR_NOT_FOUND)
  | Ok direct =>
      ids ← climb_direct fuel direct [] max;
      mret (match ids with [] => Err SSO_ERR_NOT_FOUND | _ => Ok ids end)
  end).

(* ------------------------------------------------------------------ *)
(** ** OAuth *)

Definition key_code (code : cstr) : cstr := snprintf 512 (("oauth:code:" : cstr) ++ code).
Definition key_client (client_id : cstr) : cstr := snprintf 512 (("oauth:client:" : cstr) ++ client_id).
Definition key_client_id (id : Z) : cstr := snprintf 512 (("oauth:client:id:" : cstr) ++ id_text id).

Definition redis_oauth_code_create (code : oauth_auth_code_t) : storage_op state unit := connected (
  let key := key_code (oc_code code) in
  err ← redis_hash_set key
          [("code" : cstr, oc_code code); ("client_id" : cstr, oc_client_id code); ("user_id" : cstr, id_txt (oc_user_id code));
           ("redirect_uri" : cstr, oc_redirect_uri code); ("scope" : cstr, oc_scope code); ("nonce" : cstr, oc_nonce code);
           ("code_challenge" : cstr, oc_code_challenge code); ("code_challenge_method" : cstr, oc_code_challenge_method code);
           ("expires_at" : cstr, time_text (oc_expires_at code)); ("used" : cstr, snprintf 4 (print_d (oc_used code)))];
  then_ok err (
  r ← redis_cmd ["EXPIRE" : cstr; key; print_llu (Z.max 1 (ttl_of (oc_expires_at code)))];
  mret (done (redis_ok r)))).

Definition code_from_hash (l : list (cstr * cstr)) : oauth_auth_code_t :=
  {| oc_code := text_field l "code" 128; oc_client_id := text_field l "client_id" 64; oc_user_id := id_field l "user_id";
     oc_redirect_uri := text_field l "redirect_uri" 512; oc_scope := text_field l "scope" 256; oc_nonce := text_field l "nonce" 128;
     oc_code_challenge := text_field l "code_challenge" 256; oc_code_challenge_method := text_field l "code_challenge_method" 16;
     oc_expires_at := ll_field l "expires_at"; oc_used := int_field l "used" |}.

Definition redis_oauth_code_get (code : cstr) : storage_op state oauth_auth_code_t := connected (hgetall (key_code code) code_from_hash).
Definition redis_oauth_code_mark_used (code : cstr) : storage_op state unit := connected (
  r ← redis_cmd ["HSET" : cstr; key_code code; "used" : cstr; "1" : cstr]; mret (done (redis_ok r))).
Definition redis_oauth_code_cleanup : storage_op state unit := λ s, Ret (Ok (), s).

Definition set_client_id (id : Z) (c : oauth_client_t) : oauth_client_t :=
  {| cl_id := id; cl_client_id := cl_client_id c; cl_client_secret_hash := cl_client_secret_hash c;
     cl_redirect_uris := cl_redirect_uris c; cl_app_name := cl_app_name c; cl_app_description := cl_app_description c;
     cl_app_logo_url := cl_app_logo_url c; cl_allowed_scopes := cl_allowed_scopes c;
     cl_allowed_grant_types := cl_allowed_grant_types c; cl_token_ttl_ms := cl_token_ttl_ms c; cl_status := cl_status c;
     cl_created_at := cl_created_at c; cl_updated_at := cl_updated_at c |}.

(** What an update writes; a new client has its ids and creation too. *)
Definition client_fields (c : oauth_client_t) : list (cstr * cstr) :=
  [("client_secret_hash" : cstr, cl_client_secret_hash c); ("redirect_uris" : cstr, cl_redirect_uris c);
   ("app_name" : cstr, cl_app_name c); ("app_description" : cstr, cl_app_description c); ("app_logo_url" : cstr, cl_app_logo_url c);
   ("allowed_scopes" : cstr, cl_allowed_scopes c); ("allowed_grant_types" : cstr, cl_allowed_grant_types c);
   ("token_ttl_ms" : cstr, time_text (cl_token_ttl_ms c)); ("status" : cstr, enum_text (cl_status c))].

Definition redis_oauth_client_create (client : oauth_client_t) : storage_op state oauth_client_t := connected (
  let ck := key_client (cl_client_id client) in
  e ← redis_check_unique ck;
  then_ok e (
  next ← redis_next_id "oauth:client";
  match next with
  | Err e => mret (Err e)
  | Ok id =>
      err ← redis_hash_set ck ([("id" : cstr, id_txt id); ("client_id" : cstr, cl_client_id client)] ++ client_fields client ++
              [("created_at" : cstr, time_text (cl_created_at client)); ("updated_at" : cstr, time_text (cl_updated_at client))]);
      then_ok err (
      _ ← redis_cmd ["SET" : cstr; key_client_id id; cl_client_id client];
      _ ← redis_list_push "oauth:clients:list" id;
      mret (Ok (set_client_id id client)))
  end)).

Definition client_from_hash (l : list (cstr * cstr)) : oauth_client_t :=
  {| cl_id := id_field l "id"; cl_client_id := text_field l "client_id" 64;
     cl_client_secret_hash := text_field l "client_secret_hash" 128; cl_redirect_uris := text_field l "redirect_uris" 512;
     cl_app_name := text_field l "app_name" 128; cl_app_description := text_field l "app_description" 256;
     cl_app_logo_url := text_field l "app_logo_url" 256; cl_allowed_scopes := text_field l "allowed_scopes" 256;
     cl_allowed_grant_types := text_field l "allowed_grant_types" 128; cl_token_ttl_ms := ll_field l "token_ttl_ms";
     cl_status := int_field l "status"; cl_created_at := ll_field l "created_at"; cl_updated_at := ll_field l "updated_at" |}.

Definition redis_oauth_client_get (client_id : cstr) : storage_op state oauth_client_t :=
  connected (hgetall (key_client client_id) client_from_hash).
Definition redis_oauth_client_update (client : oauth_client_t) : storage_op state unit :=
  update_hash (key_client (cl_client_id client))
    (client_fields client ++ [("updated_at" : cstr, time_text (cl_updated_at client))]).
Definition redis_oauth_client_delete (client_id : cstr) : storage_op state unit := connected (
  c ← op (redis_oauth_client_get client_id);
  match c with
  | Err e => mret (Err e)
  | Ok c => _ ← redis_del (key_client client_id); _ ← redis_list_rem "oauth:clients:list" (cl_id c); mret (Ok ())
  end).

(** The second loop of the listing; a client is read through the index of
    internal ids. *)
Fixpoint clients_loop (ids : list cstr) (mat offset limit : Z) (max : nat) (out : list oauth_client_t) : redis (list oauth_client_t) :=
  match ids with
  | [] => mret out
  | t :: ids =>
      if (Z.of_nat (length out) <? u64 limit) && (length out <? max)%nat then
        if mat + 1 <=? u64 offset then clients_loop ids (mat + 1) offset limit max out
        else
          r ← redis_cmd ["GET" : cstr; key_client_id (u64 (atoll t))];
          match r with
          | Some (REDIS_REPLY_STRING s) =>
              c ← op (redis_oauth_client_get (c_str s));
              clients_loop ids (mat + 1) offset limit max (match c with Ok c => out ++ [c] | Err _ => out end)
          | _ => clients_loop ids (mat + 1) offset limit max out
          end
      else mret out
  end.

(** The first query only decides whether there is anything to list. *)
Definition redis_oauth_client_list (offset limit : Z) (max : nat) : storage_op state (list oauth_client_t) := connected (
  if (- 2 ^ 31 <=? offset + limit - 1) && (offset + limit <? 2 ^ 31) then
    r ← redis_cmd ["LRANGE" : cstr; "oauth:clients:list" : cstr; print_d offset; print_d (offset + limit - 1)];
    match r with
    | Some (REDIS_REPLY_ARRAY _) =>
        r ← redis_cmd ["LRANGE" : cstr; "oauth:clients:list" : cstr; "0" : cstr; "-1" : cstr];
        match r with
        | Some (REDIS_REPLY_ARRAY l) => out ← clients_loop (array_texts l) 0 offset limit max []; mret (Ok out)
        | _ => mret (Ok [])
        end
    | _ => mret (Ok [])
    end
  else λ _, Crash).

(* ------------------------------------------------------------------ *)
(** ** Tokens *)

Definition key_refresh (token_hash : cstr) : cstr := snprintf 512 (("refresh_token:" : cstr) ++ token_hash).

Definition redis_refresh_token_create (rt : refresh_token_t) : storage_op state unit :=
  update_hash (key_refresh (rt_token_hash rt))
    [("token_hash" : cstr, rt_token_hash rt); ("user_id" : cstr, id_txt (rt_user_id rt)); ("client_id" : cstr, rt_client_id rt);
     ("expires_at" : cstr, time_text (rt_expires_at rt)); ("issued_at" : cstr, time_text (rt_issued_at rt));
     ("revoked" : cstr, snprintf 4 (print_d (rt_revoked rt)))].

Definition refresh_from_hash (l : list (cstr * cstr)) : refresh_token_t :=
  {| rt_token_hash := text_field l "token_hash" 128; rt_user_id := id_field l "user_id"; rt_client_id := text_field l "client_id" 64;
     rt_expires_at := ll_field l "expires_at"; rt_issued_at := ll_field l "issued_at"; rt_revoked := int_field l "revoked" |}.
Definition redis_refresh_token_get (token_hash : cstr) : storage_op state refresh_token_t :=
  connected (hgetall (key_refresh token_hash) refresh_from_hash).
Definition redis_refresh_token_revoke (token_hash : cstr) : storage_op state unit := connected (
  r ← redis_cmd ["HSET" : cstr; key_refresh token_hash; "revoked" : cstr; "1" : cstr]; mret (done (redis_ok r))).

(** One key of a family: revoked when user and client agree. *)
Definition revoke_member (user_id : Z) (client_id key : cstr) : redis unit :=
  r ← redis_cmd ["HMGET" : cstr; key; "user_id" : cstr; "client_id" : cstr];
  match r with
  | Some (REDIS_REPLY_ARRAY [REDIS_REPLY_STRING u; REDIS_REPLY_STRING c]) =>
      if strcmp_eq (c_str u) (snprintf 32 (id_text user_id)) && strcmp_eq (c_str c) client_id then
        _ ← redis_cmd ["HSET" : cstr; key; "revoked" : cstr; "1" : cstr]; mret ()
      else mret ()
  | _ => mret ()
  end.
Definition redis_refresh_token_revoke_family (user_id : Z) (client_id : cstr) : storage_op state unit := connected (
  r ← redis_cmd ["KEYS" : cstr; "refresh_token:*" : cstr];
  match r with
  | Some (REDIS_REPLY_ARRAY l) =>
      _ ← each (revoke_member user_id client_id) (omap (λ e, match e with REDIS_REPLY_STRING s => Some (c_str s) | _ => None end) l);
      mret (Ok ())
  | _ => mret (Err SSO_ERR_STORAGE)
  end).

(** Revoked ids live in the server until the token expires, and in the
    filter for as long as the process runs. *)
Definition key_jti (jti : cstr) : cstr := ("revoked_jti:" : cstr) ++ jti.
Definition add_bloom (jti : cstr) : redis unit := λ s,
  Ret ((), {| rd_ctx := rd_ctx s; rd_db := rd_db s; rd_bloom := bloom_add jti (rd_bloom s) |}).

Definition redis_jti_revoke (jti : cstr) (expires_at : Z) : storage_op state unit := connected (
  if expires_at <=? now then mret (Ok ())
  else
    let ttl := s32 ((expires_at - now) / 1000) in
    let ttl := if ttl <=? 0 then 1 else ttl in
    r ← redis_cmd ["SETEX" : cstr; key_jti jti; print_d ttl; "1" : cstr];
    match redis_ok r with
    | SSO_OK => _ ← add_bloom jti; _ ← redis_cmd ["PUBLISH" : cstr; "sso:revocations" : cstr; jti]; mret (Ok ())
    | e => mret (Err e)
    end).

Definition redis_jti_is_revoked (jti : cstr) (s : state) : outcome (bool * state) :=
  if negb (rd_ctx s) then Ret (false, s)
  else if negb (bloom_might_contain jti (rd_bloom s)) then Ret (false, s)
  else
    '(r, s) ← redis_cmd ["EXISTS" : cstr; key_jti jti] s;
    Ret (match r with Some (REDIS_REPLY_INTEGER z) => z =? 1 | _ => false end, s).

(** A message of another node on the channel of revocations. *)
Definition redis_sub_message (message : redis_reply) : redis unit :=
  match message with
  | REDIS_REPLY_ARRAY [kind; _; REDIS_REPLY_STRING jti] =>
      match kind with
      | REDIS_REPLY_STRING k => if strcmp_eq (c_str k) "message" then add_bloom (c_str jti) else mret ()
      | _ => mret ()
      end
  | _ => mret ()
  end.

(* ------------------------------------------------------------------ *)
(** ** The table *)

Definition storage_redis_create (fuel : nat) : storage_backend state :=
  {| sb_user_create := Some redis_user_create; sb_user_get_by_id := Some redis_user_get_by_id;
     sb_user_get_by_name := Some redis_user_get_by_name; sb_user_get_by_phone := Some redis_user_get_by_phone;
     sb_user_update := Some redis_user_update; sb_user_delete := Some redis_user_delete; sb_user_list := Some redis_user_list;
     sb_save_sms_code := Some redis_save_sms_code; sb_get_sms_code := Some redis_get_sms_code;
     sb_delete_sms_code := Some redis_delete_sms_code;
     sb_role_create := Some redis_role_create; sb_role_get_by_id := Some redis_role_get_by_id;
     sb_role_get_by_name := Some redis_role_get_by_name; sb_role_update := Some redis_role_update;
     sb_role_delete := Some redis_role_delete; sb_role_list := Some redis_role_list;
     sb_group_create := Some redis_group_create; sb_group_get_by_id := Some redis_group_get_by_id;
     sb_group_get_by_name := Some redis_group_get_by_name; sb_group_update := Some redis_group_update;
     sb_group_delete := Some redis_group_delete; sb_group_list := Some redis_group_list;
     sb_policy_create := Some redis_policy_create; sb_policy_get_by_id := Some redis_policy_get_by_id;
     sb_policy_get_by_name := Some redis_policy_get_by_name; sb_policy_update := Some redis_policy_update;
     sb_policy_delete := Some redis_policy_delete; sb_policy_list := Some redis_policy_list;
     sb_assign_role_to_user := Some redis_assign_role_to_user; sb_unassign_role_from_user := Some redis_unassign_role_from_user;
     sb_get_user_roles := Some redis_get_user_roles; sb_get_role_users := Some redis_get_role_users;
     sb_assign_role_to_group := Some redis_assign_role_to_group; sb_unassign_role_from_group := Some redis_unassign_role_from_group;
     sb_add_user_to_group := Some redis_add_user_to_group; sb_remove_user_from_group := Some redis_remove_user_from_group;
     sb_get_user_groups := Some redis_get_user_groups; sb_get_group_users := Some redis_get_group_users;
     sb_assign_policy := Some redis_assign_policy; sb_unassign_policy := Some redis_unassign_policy;
     sb_get_policy_targets := Some redis_get_policy_targets; sb_get_target_policies := Some redis_get_target_policies;
     sb_role_get_parent := Some redis_role_get_parent; sb_group_get_parent := Some redis_group_get_parent;
     sb_get_user_roles_with_ancestors := Some (redis_get_user_roles_with_ancestors fuel);
     sb_oauth_code_create := Some redis_oauth_code_create; sb_oauth_code_get := Some redis_oauth_code_get;
     sb_oauth_code_mark_used := Some redis_oauth_code_mark_used; sb_oauth_code_cleanup := Some redis_oauth_code_cleanup;
     sb_oauth_client_create := Some redis_oauth_client_create; sb_oauth_client_get := Some redis_oauth_client_get;
     sb_oauth_client_update := Some redis_oauth_client_update; sb_oauth_client_delete := Some redis_oauth_client_delete;
     sb_oauth_client_list := Some redis_oauth_client_list;
     sb_refresh_token_create := Some redis_refresh_token_create; sb_refresh_token_get := Some redis_refresh_token_get;
     sb_refresh_token_revoke := Some redis_refresh_token_revoke;
     sb_refresh_token_revoke_family := Some redis_refresh_token_revoke_family;
     sb_jti_revoke := Some redis_jti_revoke; sb_jti_is_revoked := Some redis_jti_is_revoked;
     sb_audit_log_write := None; sb_audit_log_list := None |}.

End Backend.
