(* ===== verification/RedisServer.v ===== *)
(** * The Redis server

    The documented behaviour of the server and the client library, as laws
    over the keys it holds, and a small server that has them. *)

From S2P Require Import Prelude CLib CNum Types Storage Printf Http Redis.

(* ------------------------------------------------------------------ *)
(** ** The server

    What a key holds: hashes in the order they are returned, sets and
    lists as the list of their members. *)

Inductive rvalue :=
| VString (s : list ascii) | VHash (l : list (list ascii * list ascii)) | VSet (l : list (list ascii)) | VList (l : list (list ascii)).
Notation keyspace := (gmap (list ascii) rvalue).

Definition wrong_type : redis_reply := REDIS_REPLY_ERROR "WRONGTYPE Operation against a key holding the wrong kind of value".
Definition strings (l : list (list ascii)) : redis_reply := REDIS_REPLY_ARRAY (map REDIS_REPLY_STRING l).
Definition hash_lookup (f : list ascii) (l : list (list ascii * list ascii)) : option (list ascii) :=
  snd <$> List.find (λ fv, bool_decide (fv.1 = f)) l.

Definition get_reply (v : option rvalue) : redis_reply :=
  match v with None => REDIS_REPLY_NIL | Some (VString s) => REDIS_REPLY_STRING s | _ => wrong_type end.
Definition hgetall_reply (v : option rvalue) : redis_reply :=
  match v with None => strings [] | Some (VHash l) => strings (flat_map (λ fv, [fv.1; fv.2]) l) | _ => wrong_type end.
Definition hget_reply (f : list ascii) (v : option rvalue) : redis_reply :=
  match v with
  | None => REDIS_REPLY_NIL
  | Some (VHash l) => match hash_lookup f l with Some x => REDIS_REPLY_STRING x | None => REDIS_REPLY_NIL end
  | _ => wrong_type
  end.
Definition smembers_reply (v : option rvalue) : redis_reply :=
  match v with None => strings [] | Some (VSet l) => strings l | _ => wrong_type end.

(** A key that counts: not there yet, or the digits of the last number. *)
Definition counts (v : option rvalue) (z : Z) : Prop :=
  match v with None => z = 0 | Some (VString s) => s = print_dec z | _ => False end.

(** The words of a text. *)
Definition words_of (t : cstr) : list cstr := List.filter (λ w, match w with [] => false | _ => true end) (split_on " " t).

(** Pairs of words. *)
Fixpoint pair_up (l : list cstr) : option (list (cstr * cstr)) :=
  match l with
  | [] => Some []
  | f :: v :: l => (λ l, (f, v) :: l) <$> pair_up l
  | _ => None
  end.

(** Fields set in a hash: the later of two equal ones counts. *)
Definition hash_set (old new : list (list ascii * list ascii)) (l : list (list ascii * list ascii)) : Prop :=
  (NoDup old.*1 → NoDup l.*1) ∧
  ∀ f, hash_lookup f l = match hash_lookup f (reverse new) with Some v => Some v | None => hash_lookup f old end.

(** The documented behaviour the backend relies on: replies of reads,
    effects of changes, texts without [%] split at spaces. *)
Class RedisLaws {D : Type} `{!Redis D} (view : D → keyspace) : Prop := {
  argv_doc t : "%"%char ∉ t → redis_argv t = Ret (words_of t);
  get_doc k d : redis_exec ["GET" : cstr; k] d = (Some (get_reply (view d !! k)), d);
  exists_doc k d :
    redis_exec ["EXISTS" : cstr; k] d = (Some (REDIS_REPLY_INTEGER (if view d !! k is Some _ then 1 else 0)), d);
  hgetall_doc k d : redis_exec ["HGETALL" : cstr; k] d = (Some (hgetall_reply (view d !! k)), d);
  hget_doc k f d : redis_exec ["HGET" : cstr; k; f] d = (Some (hget_reply f (view d !! k)), d);
  smembers_doc k d : redis_exec ["SMEMBERS" : cstr; k] d = (Some (smembers_reply (view d !! k)), d);
  lrange_doc k a b d : ∃ r, redis_exec ["LRANGE" : cstr; k; a; b] d = (Some r, d);
  hmget_doc k fs d : ∃ r, redis_exec (("HMGET" : cstr) :: k :: fs) d = (Some r, d);
  keys_doc d : ∃ l, redis_exec ["KEYS" : cstr; "refresh_token:*" : cstr] d = (Some (strings l), d) ∧
                    Forall (λ k, starts_with "refresh_token:" k = true) l;
  incr_doc k d : ∃ r d', redis_exec ["INCR" : cstr; k] d = (Some r, d') ∧
    (view d' = view d ∨ ∃ s, view d' = <[k := VString s]> (view d)) ∧
    ∀ z, counts (view d !! k) z → 0 ≤ z < 2 ^ 63 - 1 →
      r = REDIS_REPLY_INTEGER (z + 1) ∧ view d' = <[k := VString (print_dec (z + 1))]> (view d);
  set_doc k v rest d : ∃ r d', redis_exec (("SET" : cstr) :: k :: v :: rest) d = (Some r, d') ∧
    (rest = [] → view d' = <[k := VString v]> (view d)) ∧ (view d' = view d ∨ view d' = <[k := VString v]> (view d));
  setex_doc k n v d : ∃ r d', redis_exec ["SETEX" : cstr; k; n; v] d = (Some r, d') ∧
    (0 < atoll n → r = REDIS_REPLY_STATUS "OK" ∧ view d' = <[k := VString v]> (view d)) ∧
    (view d' = view d ∨ view d' = <[k := VString v]> (view d));
  del_doc k d : ∃ r d', redis_exec ["DEL" : cstr; k] d = (Some r, d') ∧ view d' = delete k (view d);
  expire_doc k n d : ∃ r d', redis_exec ["EXPIRE" : cstr; k; n] d = (Some r, d') ∧ view d' = view d;
  publish_doc c m d : ∃ r d', redis_exec ["PUBLISH" : cstr; c; m] d = (Some r, d') ∧ view d' = view d;
  rpush_doc k x d : ∃ r d', redis_exec ["RPUSH" : cstr; k; x] d = (Some r, d') ∧
    (view d' = view d ∨ ∃ l, view d' = <[k := VList l]> (view d));
  lrem_doc k n x d : ∃ r d', redis_exec ["LREM" : cstr; k; n; x] d = (Some r, d') ∧
    (view d' = view d ∨ view d' = delete k (view d) ∨ ∃ l l', view d !! k = Some (VList l) ∧ view d' = <[k := VList l']> (view d));
  hmset_doc k args d : ∃ r d', redis_exec (("HMSET" : cstr) :: k :: args) d = (Some r, d') ∧
    match pair_up args, view d !! k with
    | Some ((_ :: _) as new), None => r = REDIS_REPLY_STATUS "OK" ∧ ∃ l, hash_set [] new l ∧ view d' = <[k := VHash l]> (view d)
    | Some ((_ :: _) as new), Some (VHash old) =>
        r = REDIS_REPLY_STATUS "OK" ∧ ∃ l, hash_set old new l ∧ view d' = <[k := VHash l]> (view d)
    | _, _ => (∃ e, r = REDIS_REPLY_ERROR e) ∧ view d' = view d
    end;
  hset_doc k f v d : ∃ r d', redis_exec ["HSET" : cstr; k; f; v] d = (Some r, d') ∧
    match view d !! k with
    | None => ∃ l, hash_set [] [(f, v)] l ∧ view d' = <[k := VHash l]> (view d)
    | Some (VHash old) => ∃ l, hash_set old [(f, v)] l ∧ view d' = <[k := VHash l]> (view d)
    | _ => view d' = view d
    end;
  sadd_doc k x d : ∃ r d', redis_exec ["SADD" : cstr; k; x] d = (Some r, d') ∧
    match view d !! k with
    | None => view d' = <[k := VSet [x]]> (view d)
    | Some (VSet l) => ∃ l', (∀ y, y ∈ l' ↔ y = x ∨ y ∈ l) ∧ view d' = <[k := VSet l']> (view d)
    | _ => view d' = view d
    end;
  srem_doc k x d : ∃ r d', redis_exec ["SREM" : cstr; k; x] d = (Some r, d') ∧
    match view d !! k with
    | Some (VSet l) => ∃ l', (∀ y, y ∈ l' ↔ y ∈ l ∧ y ≠ x) ∧
        view d' = match l' with [] => delete k (view d) | _ => <[k := VSet l']> (view d) end
    | _ => view d' = view d
    end
}.

(* ------------------------------------------------------------------ *)
(** ** A server to compute with *)

Section Reference.
Definition is_cmd (c : string) (w : cstr) : bool := bool_decide (w = list_ascii_of_string c).
Definition hput (l : list (list ascii * list ascii)) (fv : list ascii * list ascii) : list (list ascii * list ascii) :=
  List.filter (λ x, negb (bool_decide (x.1 = fv.1))) l ++ [fv].
Definition bad_args : redis_reply := REDIS_REPLY_ERROR "ERR wrong number of arguments".

Definition ref_exec (argv : list cstr) (d : keyspace) : option redis_reply * keyspace :=
  let answer r := (Some r, d) in
  let write r k v := (Some r, <[k := v]> d) in
  let int z := REDIS_REPLY_INTEGER z in
  let fine := REDIS_REPLY_STATUS "OK" in
  match argv with
  | c :: k :: args =>
      if is_cmd "GET" c then answer (get_reply (d !! k))
      else if is_cmd "EXISTS" c then answer (int (if d !! k is Some _ then 1 else 0))
      else if is_cmd "HGETALL" c then answer (hgetall_reply (d !! k))
      else if is_cmd "HGET" c then answer (hget_reply (default [] (head args)) (d !! k))
      else if is_cmd "SMEMBERS" c then answer (smembers_reply (d !! k))
      else if is_cmd "LRANGE" c then answer (match d !! k with Some (VList l) => strings l | _ => strings [] end)
      else if is_cmd "HMGET" c then
        answer (REDIS_REPLY_ARRAY (map (λ f, hget_reply f (d !! k)) args))
      else if is_cmd "KEYS" c then answer (strings (List.filter (starts_with "refresh_token:") (map fst (map_to_list d))))
      else if is_cmd "INCR" c then
        match d !! k with
        | None => write (int 1) k (VString (print_dec 1))
        | Some (VString s) =>
            let n := fst (strtoull s) + 1 in
            if bool_decide (s = print_dec (n - 1)) then write (int n) k (VString (print_dec n)) else answer wrong_type
        | _ => answer wrong_type
        end
      else if is_cmd "SET" c then write fine k (VString (default [] (head args)))
      else if is_cmd "SETEX" c then
        if 0 <? atoll (default [] (head args)) then write fine k (VString (default [] (head (tail args)))) else answer bad_args
      else if is_cmd "DEL" c then (Some (int (if d !! k is Some _ then 1 else 0)), delete k d)
      else if is_cmd "EXPIRE" c then answer (int 1)
      else if is_cmd "PUBLISH" c then answer (int 0)
      else if is_cmd "RPUSH" c then
        match d !! k with
        | None => write (int 1) k (VList args)
        | Some (VList l) => write (int (Z.of_nat (length (l ++ args)))) k (VList (l ++ args))
        | _ => answer wrong_type
        end
      else if is_cmd "LREM" c then
        match d !! k with
        | Some (VList l) =>
            let l' := List.filter (λ y, negb (bool_decide (y = default [] (head (tail args))))) l in
            match l' with [] => (Some (int 1), delete k d) | _ => write (int 1) k (VList l') end
        | _ => answer (int 0)
        end
      else if is_cmd "HMSET" c || is_cmd "HSET" c then
        match pair_up args, d !! k with
        | Some ((_ :: _) as new), None => write fine k (VHash (fold_left hput new []))
        | Some ((_ :: _) as new), Some (VHash old) => write fine k (VHash (fold_left hput new old))
        | _, _ => answer bad_args
        end
      else if is_cmd "SADD" c then
        let x := default [] (head args) in
        match d !! k with
        | None => write (int 1) k (VSet [x])
        | Some (VSet l) => write (int 1) k (VSet (if bool_decide (x ∈ l) then l else l ++ [x]))
        | _ => answer wrong_type
        end
      else if is_cmd "SREM" c then
        match d !! k with
        | Some (VSet l) =>
            let l' := List.filter (λ y, negb (bool_decide (y = default [] (head args)))) l in
            match l' with [] => (Some (int 1), delete k d) | _ => write (int 1) k (VSet l') end
        | _ => answer (int 0)
        end
      else answer bad_args
  | _ => answer bad_args
  end.

#[export] Instance ref_redis : Redis keyspace := {| redis_argv := λ t, Ret (words_of t); redis_exec := ref_exec |}.
End Reference.

Lemma hash_lookup_app f l l' : hash_lookup f (l ++ l') = match hash_lookup f l with Some v => Some v | None => hash_lookup f l' end.
Proof. unfold hash_lookup. induction l as [|[g v] l IH]; [done|]. simpl. by destruct (bool_decide (g = f)). Qed.
Lemma hash_lookup_filter f g l :
  hash_lookup f (List.filter (λ x, negb (bool_decide (x.1 = g))) l) = if bool_decide (f = g) then None else hash_lookup f l.
Proof.
  unfold hash_lookup. induction l as [|[h v] l IH]; simpl; [by case_bool_decide|].
  destruct (bool_decide_reflect (h = g)) as [->|Hg]; simpl.
  - rewrite IH. destruct (bool_decide_reflect (f = g)) as [->|]; [done|]. by rewrite (bool_decide_false (g = f)) by congruence.
  - destruct (bool_decide_reflect (h = f)) as [->|Hf]; [by rewrite bool_decide_false|]. exact IH.
Qed.
Lemma hput_set old fv : hash_set old [fv] (hput old fv).
Proof.
  destruct fv as [f v]. split.
  - unfold hput. intros Hd. rewrite fmap_app. apply NoDup_app. split_and!; [|intros g|apply NoDup_singleton].
    + clear -Hd. induction old as [|[h w] l IH]; simpl in *; [constructor|]. apply NoDup_cons in Hd as [Hh Hl].
      case_bool_decide; simpl; [by apply IH|]. constructor; [|by apply IH]. intros Hin. apply Hh.
      apply list_elem_of_fmap in Hin as (x & -> & Hx). apply list_elem_of_fmap. exists x. split; [done|].
      apply list_elem_of_In in Hx. apply filter_In in Hx as [Hx _]. by apply list_elem_of_In.
    + intros H Hg. apply list_elem_of_singleton in Hg. simpl in Hg. subst g.
      apply list_elem_of_fmap in H as (x & E & Hx). apply list_elem_of_In, filter_In in Hx as [_ Hx]. simpl in Hx.
      by rewrite bool_decide_true in Hx.
  - intros g. unfold hput. rewrite hash_lookup_app, hash_lookup_filter. unfold hash_lookup at 2 3. simpl.
    destruct (bool_decide_reflect (g = f)) as [->|Hg]; simpl.
    + by rewrite bool_decide_true.
    + rewrite bool_decide_false by done. simpl. by destruct (hash_lookup g old).
Qed.
Lemma hputs_set old new : hash_set old new (fold_left hput new old).
Proof.
  revert old. induction new as [|fv new IH]; intros old; [by split|]. cbn [fold_left].
  destruct (IH (hput old fv)) as [H1 H2]. destruct (hput_set old fv) as [H3 H4]. split; [auto|]. intros f. rewrite H2, H4.
  rewrite (reverse_cons new fv), (hash_lookup_app _ (reverse new)). by destruct (hash_lookup f (reverse new)).
Qed.

Lemma elem_of_without x (y : cstr) l : y ∈ List.filter (λ y, negb (bool_decide (y = x))) l ↔ y ∈ l ∧ y ≠ x.
Proof.
  rewrite !list_elem_of_In, filter_In. rewrite negb_true_iff. by rewrite bool_decide_eq_false.
Qed.

Ltac run_ref := cbv beta iota zeta delta [redis_exec ref_redis ref_exec id];
  repeat match goal with |- context [is_cmd ?a ?b] => let v := eval vm_compute in (is_cmd a b) in change (is_cmd a b) with v end;
  cbv beta iota; cbn [orb head tail default].
Ltac answered := eexists _, _; split; [reflexivity|].

Lemma ref_incr (k : cstr) (d : keyspace) : ∃ r d', redis_exec ["INCR" : cstr; k] d = (Some r, d') ∧
    (d' = d ∨ ∃ s, d' = <[k := VString s]> d) ∧
    ∀ z, counts (d !! k) z → 0 ≤ z < 2 ^ 63 - 1 → r = REDIS_REPLY_INTEGER (z + 1) ∧ d' = <[k := VString (print_dec (z + 1))]> d.
Proof.
  run_ref. destruct (d !! k) as [[s| | |]|]; try (answered; split; [by left|done]).
  - case_bool_decide as E; answered.
    + split; [eauto|]. intros z Hz Hb. simpl in Hz. subst s.
      pose proof (strtoull_print z [] ltac:(lia) I) as Hs. rewrite app_nil_r in Hs. by rewrite Hs.
    + split; [by left|]. intros z Hz Hb. simpl in Hz. subst s. destruct E.
      pose proof (strtoull_print z [] ltac:(lia) I) as Hs. rewrite app_nil_r in Hs. rewrite Hs. simpl. f_equal. lia.
  - answered. split; [eauto|]. simpl. by intros z -> _.
Qed.

#[export] Instance ref_laws : RedisLaws (D := keyspace) (λ d, d).
Proof.
  split; try done.
  - intros. run_ref. eauto.
  - intros. run_ref. eauto.
  - intros. run_ref. eexists. split; [reflexivity|]. apply Forall_forall. intros x Hx.
    by apply list_elem_of_In, filter_In in Hx as [_ ?].
  - apply ref_incr.
  - intros. run_ref. answered. auto.
  - intros. run_ref. destruct (Z.ltb_spec 0 (atoll n)); answered; [auto|split; [lia|auto]].
  - intros. run_ref. by answered.
  - intros. run_ref. by answered.
  - intros. run_ref. by answered.
  - intros. run_ref. destruct (d !! k) as [[]|]; answered; eauto.
  - intros. run_ref. destruct (d !! k) as [[| | |l]|]; [answered; auto..| |answered; auto].
    destruct (List.filter _ l); answered; eauto 10.
  - intros. run_ref. destruct (pair_up args) as [[|fv new]|]; [answered; eauto| |answered; eauto].
    destruct (d !! k) as [[]|]; answered; eauto; (split; [done|]); eexists; (split; [apply hputs_set|done]).
  - intros. run_ref. cbn [pair_up fmap option_fmap option_map].
    destruct (d !! k) as [[]|]; answered; try done; eexists; (split; [apply hputs_set|done]).
  - intros. run_ref. destruct (d !! k) as [[| |l|]|]; answered; try done. eexists. split; [|done]. intros y.
    case_bool_decide; set_solver.
  - intros. run_ref. destruct (d !! k) as [[| |l|]|]; [by answered..| |by answered|by answered].
    destruct (List.filter _ l) as [|y l'] eqn:E; answered; eexists; (split; [intros z; rewrite <- elem_of_without, E; reflexivity|done]).
Qed.
