(* ===== verification/RedisSafety.v ===== *)
(** * What the Redis backend guarantees

    The kinds of values under the keys of the program and that every
    operation keeps them, the promise to the managers, a role through its
    hash and index, revoked ids, and where a hash written as one text goes
    wrong. *)

From S2P Require Import Prelude CLib CNum Types Storage Printf Http Raft Redis RedisServer.

(* ------------------------------------------------------------------ *)
(** ** Kinds of keys *)

Definition hash_key (k : cstr) : bool :=
  existsb (λ p, starts_with p k) ["user:id:" : cstr; "role:id:" : cstr; "group:id:" : cstr; "policy:id:" : cstr].
Definition numbered (p k : cstr) : bool :=
  starts_with p k && match drop (length p) k with c :: _ => is_digit c || Ascii.eqb c "-" | [] => false end.
Definition set_key (k : cstr) : bool :=
  starts_with "target:" k || existsb (λ p, numbered p k) ["user:" : cstr; "role:" : cstr; "group:" : cstr; "policy:" : cstr].
Definition plain_key (k : cstr) : bool := negb (hash_key k) && negb (set_key k).

Definition is_hash (v : rvalue) : bool := match v with VHash _ => true | _ => false end.
Definition is_set (v : rvalue) : bool := match v with VSet _ => true | _ => false end.

(** Rows are hashes and relations are sets. *)
Definition kind_ok (k : cstr) (v : rvalue) : bool :=
  (negb (hash_key k) || is_hash v) && (negb (set_key k) || is_set v).
Definition typed (ks : keyspace) : Prop := map_Forall (λ k v, kind_ok k v = true) ks.

Lemma typed_insert ks k v : typed ks → kind_ok k v = true → typed (<[k := v]> ks).
Proof. intros Hk Hv. by apply map_Forall_insert_2. Qed.
Lemma typed_delete ks k : typed ks → typed (delete k ks).
Proof. intros Hk. by apply map_Forall_delete. Qed.
Lemma plain_ok k v : plain_key k = true → kind_ok k v = true.
Proof. unfold plain_key, kind_ok. by intros [-> ->]%andb_true_iff. Qed.
Lemma hash_ok k l : set_key k = false → kind_ok k (VHash l) = true.
Proof. unfold kind_ok. intros ->. simpl. by rewrite orb_true_r. Qed.
Lemma set_ok k l : hash_key k = false → kind_ok k (VSet l) = true.
Proof. unfold kind_ok. intros ->. simpl. by rewrite orb_true_r. Qed.

Section Types.
Context {D : Type} `{!Redis D} (view : D → keyspace) `{!RedisLaws view}.

Definition redis_inv (s : redis_state D) : Prop := rd_ctx s = true ∧ typed (view (rd_db s)).

(** Code that returns and keeps the kinds. *)
Definition keeps {A} (m : redis D A) : Prop := ∀ s, redis_inv s → ∃ a s', m s = Ret (a, s') ∧ redis_inv s'.

Lemma kinds_ret {A} (a : A) : keeps (mret a).
Proof. intros s Hs. by exists a, s. Qed.
Lemma kinds_bind {A B} (m : redis D A) (f : A → redis D B) : keeps m → (∀ a, keeps (f a)) → keeps (m ≫= f).
Proof.
  intros Hm Hf s Hs. destruct (Hm s Hs) as (a & s1 & E & H1). destruct (Hf a s1 H1) as (b & s2 & E2 & H2).
  exists b, s2. split; [|done]. unfold mbind, redis_bind. by rewrite E.
Qed.
Lemma kinds_connected {A} (m : redis D (result A)) : keeps m → keeps (connected m).
Proof. intros Hm s Hs. unfold connected. destruct Hs as [Hc Ht]. rewrite Hc. by apply Hm. Qed.
Lemma kinds_each f l : (∀ x, x ∈ l → keeps (f x)) → keeps (each (D := D) f l).
Proof.
  induction l as [|x l IH]; intros Hf; [apply kinds_ret|]. cbn [each].
  apply kinds_bind; [apply Hf; left|]. intros _. apply IH. intros y Hy. apply Hf. by right.
Qed.

(** A command with its effect on the keys. *)
Lemma kinds_cmd argv :
  (∀ d, typed (view d) → ∃ r d', redis_exec argv d = (Some r, d') ∧ typed (view d')) → keeps (redis_cmd argv).
Proof.
  intros Hc s [Hx Ht]. destruct (Hc _ Ht) as (r & d & E & Hd). unfold redis_cmd. rewrite E.
  eexists _, _. split; [done|]. by split.
Qed.
Lemma kinds_read argv : (∀ d, ∃ r, redis_exec argv d = (Some r, d)) → keeps (redis_cmd argv).
Proof. intros Hc. apply kinds_cmd. intros d Hd. destruct (Hc d) as [r E]. eauto. Qed.

Lemma kinds_get k : keeps (redis_cmd ["GET" : cstr; k]).
Proof. apply kinds_read. intros d. rewrite get_doc. eauto. Qed.
Lemma kinds_exists k : keeps (redis_cmd ["EXISTS" : cstr; k]).
Proof. apply kinds_read. intros d. rewrite exists_doc. eauto. Qed.
Lemma kinds_hgetall k : keeps (redis_cmd ["HGETALL" : cstr; k]).
Proof. apply kinds_read. intros d. rewrite hgetall_doc. eauto. Qed.
Lemma kinds_smembers k : keeps (redis_cmd ["SMEMBERS" : cstr; k]).
Proof. apply kinds_read. intros d. rewrite smembers_doc. eauto. Qed.
Lemma kinds_hmget k fs : keeps (redis_cmd (("HMGET" : cstr) :: k :: fs)).
Proof. apply kinds_read. intros d. apply hmget_doc. Qed.

(** A command that leaves the keys, changes one in a way that keeps its
    kind, or deletes it. *)
Lemma kinds_change argv k (P : rvalue → Prop) :
  (∀ d, ∃ r d', redis_exec argv d = (Some r, d') ∧
    (view d' = view d ∨ view d' = delete k (view d) ∨ ∃ v, view d' = <[k := v]> (view d) ∧ (P v ∨ ∃ v0, view d !! k = Some v0 ∧ (kind_ok k v0 = true → kind_ok k v = true)))) →
  (∀ v, P v → kind_ok k v = true) → keeps (redis_cmd argv).
Proof.
  intros Hc HP. apply kinds_cmd. intros d Hd. destruct (Hc d) as (r & d' & E & H). exists r, d'. split; [done|].
  destruct H as [->|[->|(v & -> & H)]]; [done|by apply typed_delete|]. apply typed_insert; [done|].
  destruct H as [H|(v0 & Hv & H)]; [by apply HP|]. apply H. by apply (map_Forall_lookup_1 _ _ _ _ Hd).
Qed.

Lemma kinds_del k : keeps (redis_cmd ["DEL" : cstr; k]).
Proof. apply (kinds_change _ k (λ _, False)); [|done]. intros d. destruct (del_doc k d) as (r & d' & -> & ?). eauto 10. Qed.
Lemma kinds_expire k n : keeps (redis_cmd ["EXPIRE" : cstr; k; n]).
Proof. apply (kinds_change _ k (λ _, False)); [|done]. intros d. destruct (expire_doc k n d) as (r & d' & -> & ?). eauto 10. Qed.
Lemma kinds_publish c m : keeps (redis_cmd ["PUBLISH" : cstr; c; m]).
Proof. apply (kinds_change _ c (λ _, False)); [|done]. intros d. destruct (publish_doc c m d) as (r & d' & -> & ?). eauto 10. Qed.
Lemma kinds_lrem k n x : keeps (redis_cmd ["LREM" : cstr; k; n; x]).
Proof.
  apply (kinds_change _ k (λ _, False)); [|done]. intros d.
  destruct (lrem_doc k n x d) as (r & d' & -> & [?|[?|(l & l' & E & E2)]]); exists r, d'; split; auto.
  right. right. exists (VList l'). split; [done|]. right. by exists (VList l).
Qed.
Lemma kinds_srem k x : keeps (redis_cmd ["SREM" : cstr; k; x]).
Proof.
  apply (kinds_change _ k (λ _, False)); [|done]. intros d.
  destruct (srem_doc k x d) as (r & d' & -> & H). exists r, d'. split; [done|].
  destruct (view d !! k) as [[| |l|]|] eqn:E; auto. destruct H as (l' & _ & H). destruct l' as [|y l']; [auto|].
  right. right. exists (VSet (y :: l')). split; [done|]. right. by exists (VSet l).
Qed.
Lemma kinds_incr k : plain_key k = true → keeps (redis_cmd ["INCR" : cstr; k]).
Proof.
  intros Hk. apply (kinds_change _ k (λ _, True)); [|intros v _; by apply plain_ok]. intros d.
  destruct (incr_doc k d) as (r & d' & -> & [?|[s ?]] & _); eauto 10.
Qed.
Lemma kinds_set k v rest : plain_key k = true → keeps (redis_cmd (("SET" : cstr) :: k :: v :: rest)).
Proof.
  intros Hk. apply (kinds_change _ k (λ _, True)); [|intros x _; by apply plain_ok]. intros d.
  destruct (set_doc k v rest d) as (r & d' & -> & _ & [?|?]); eauto 10.
Qed.
Lemma kinds_setex k n v : plain_key k = true → keeps (redis_cmd ["SETEX" : cstr; k; n; v]).
Proof.
  intros Hk. apply (kinds_change _ k (λ _, True)); [|intros x _; by apply plain_ok]. intros d.
  destruct (setex_doc k n v d) as (r & d' & -> & _ & [?|?]); eauto 10.
Qed.
Lemma kinds_rpush k x : plain_key k = true → keeps (redis_cmd ["RPUSH" : cstr; k; x]).
Proof.
  intros Hk. apply (kinds_change _ k (λ _, True)); [|intros v _; by apply plain_ok]. intros d.
  destruct (rpush_doc k x d) as (r & d' & -> & [?|[s ?]]); eauto 10.
Qed.
Lemma kinds_hmset k args : set_key k = false → keeps (redis_cmd (("HMSET" : cstr) :: k :: args)).
Proof.
  intros Hk. apply (kinds_change _ k (λ v, is_hash v = true)); [|intros []; try done; intros _; by apply hash_ok].
  intros d. destruct (hmset_doc k args d) as (r & d' & -> & H). exists r, d'. split; [done|].
  destruct (pair_up args) as [[|f new]|]; [naive_solver| |naive_solver].
  destruct (view d !! k) as [[| | |]|]; naive_solver.
Qed.
Lemma kinds_hset k f v : set_key k = false → keeps (redis_cmd ["HSET" : cstr; k; f; v]).
Proof.
  intros Hk. apply (kinds_change _ k (λ v, is_hash v = true)); [|intros []; try done; intros _; by apply hash_ok].
  intros d. destruct (hset_doc k f v d) as (r & d' & -> & H). exists r, d'. split; [done|].
  destruct (view d !! k) as [[| | |]|]; naive_solver.
Qed.
Lemma kinds_sadd k x : hash_key k = false → keeps (redis_cmd ["SADD" : cstr; k; x]).
Proof.
  intros Hk. apply (kinds_change _ k (λ v, is_set v = true)); [|intros []; try done; intros _; by apply set_ok].
  intros d. destruct (sadd_doc k x d) as (r & d' & -> & H). exists r, d'. split; [done|].
  destruct (view d !! k) as [[| | |]|]; naive_solver.
Qed.

(** Texts that are not taken for a format. *)
Definition no_format (t : cstr) : bool := negb (existsb (Ascii.eqb "%") t).

Lemma no_format_spec t : no_format t = true ↔ "%"%char ∉ t.
Proof.
  unfold no_format. rewrite negb_true_iff, <- not_true_iff_false, existsb_exists. split.
  - intros H Ht. apply H. exists "%"%char. by rewrite <- list_elem_of_In.
  - intros H (c & Hc & Ec). apply H. apply Ascii.eqb_eq in Ec as <-. by apply list_elem_of_In.
Qed.
Lemma no_format_app s t : no_format (s ++ t) = no_format s && no_format t.
Proof. unfold no_format. by rewrite existsb_app, negb_orb. Qed.
Lemma no_format_take n t : no_format t = true → no_format (take n t) = true.
Proof. rewrite !no_format_spec. intros H Hin. apply H. by apply elem_of_take in Hin as (i & ? & _); eapply list_elem_of_lookup_2. Qed.
Lemma no_format_digits ds : Forall (λ c, is_digit c = true) ds → no_format ds = true.
Proof. intros H. apply no_format_spec. intros Hin. rewrite Forall_forall in H. by specialize (H _ Hin). Qed.
Lemma no_format_number z : no_format (print_lld z) = true.
Proof.
  unfold print_lld. destruct (Z.ltb_spec z 0).
  - change (no_format (["-"%char] ++ print_dec (- z)) = true). rewrite no_format_app. simpl. apply no_format_digits, print_dec_spec. lia.
  - apply no_format_digits, print_dec_spec. lia.
Qed.

Lemma split_on_keep p t : " "%char ∉ p → ∃ q qs, split_on " " (p ++ t) = (p ++ q) :: qs.
Proof.
  induction p as [|c p IH]; intros Hp.
  - simpl. destruct (split_on " " t) as [|q qs] eqn:E; [by apply split_on_ne in E|eauto].
  - destruct IH as (q & qs & E); [set_solver|]. cbn [app split_on]. rewrite E.
    rewrite (proj2 (Ascii.eqb_neq c " ")) by set_solver. eauto.
Qed.
Lemma words_of_command p t : p ≠ [] → " "%char ∉ p → ∃ w args, words_of (("HMSET " : cstr) ++ p ++ t) = ("HMSET" : cstr) :: (p ++ w) :: args.
Proof.
  intros Hne Hp. destruct (split_on_keep p t Hp) as (q & qs & E). exists q, (List.filter (λ w, match w with [] => false | _ => true end) qs).
  unfold words_of. change (("HMSET " : cstr) ++ p ++ t) with (("HMSET" : cstr) ++ " "%char :: (p ++ t)).
  rewrite split_on_app by (by intros H; apply list_elem_of_In in H; vm_compute in H; naive_solver). rewrite E. simpl. by destruct p.
Qed.

Definition plain_fields (l : list (cstr * cstr)) : bool := forallb (λ fv, no_format fv.1 && no_format fv.2) l.

Lemma no_format_hash key fields :
  no_format key = true → plain_fields fields = true → no_format (hash_text key fields) = true.
Proof.
  intros Hk Hf. unfold hash_text. rewrite !no_format_app, Hk. simpl.
  induction fields as [|[f v] l IH]; [done|]. cbn [plain_fields forallb fst snd] in Hf. apply andb_true_iff in Hf as [Hf Hl].
  apply andb_true_iff in Hf as [Hf Hv]. cbn [map concat fst snd].
  change (" "%char :: f ++ " "%char :: v) with ([" "%char] ++ f ++ [" "%char] ++ v).
  rewrite !no_format_app, Hf, Hv. simpl. by apply IH.
Qed.

(** A hash written under a key with a prefix of the program's own. *)
Lemma kinds_hash_set p t fields :
  (∀ w, set_key (p ++ w) = false) → p ≠ [] → " "%char ∉ p → no_format (p ++ t) = true → plain_fields fields = true →
  keeps (redis_hash_set (p ++ t) fields).
Proof.
  intros Hs Hne Hp Hk Hf. unfold redis_hash_set. cbv zeta. destruct (1024 <=? _)%nat; [apply kinds_ret|].
  apply kinds_bind; [|intros; apply kinds_ret]. intros s Hi. unfold redis_cmd_str.
  rewrite argv_doc by (by apply no_format_spec, no_format_hash).
  unfold hash_text. rewrite <- app_assoc.
  destruct (words_of_command p (t ++ concat (map (λ fv, " "%char :: fv.1 ++ " "%char :: fv.2) fields)) Hne Hp) as (w & args & ->).
  apply (kinds_hmset (p ++ w) args); [apply Hs|done].
Qed.

Lemma no_format_snprintf n t : no_format t = true → no_format (snprintf n t) = true.
Proof. apply no_format_take. Qed.
Lemma no_format_id z : no_format (id_text z) = true.
Proof. apply no_format_number. Qed.
Lemma no_format_enum z : no_format (enum_text z) = true.
Proof. apply no_format_snprintf, no_format_number. Qed.
Lemma no_format_id_txt z : no_format (id_txt z) = true.
Proof. apply no_format_snprintf, no_format_number. Qed.
Lemma no_format_time z : no_format (time_text z) = true.
Proof. apply no_format_snprintf, no_format_number. Qed.
Lemma no_format_print_d n z : no_format (snprintf n (print_d z)) = true.
Proof. apply no_format_snprintf, no_format_number. Qed.

(** The kinds of the keys of the program. *)
Lemma key_id_text (prefix : cstr) id :
  (length prefix ≤ 100)%nat → key_id prefix id = (prefix ++ (":id:" : cstr)) ++ take (507 - length prefix) (id_text id).
Proof.
  intros Hl. unfold key_id, snprintf. rewrite app_assoc. rewrite take_app, take_ge; [|simpl_list; simpl; lia].
  f_equal. f_equal. simpl_list. simpl. lia.
Qed.

Definition row_prefix (p : cstr) : Prop := p = "user" ∨ p = "role" ∨ p = "group" ∨ p = "policy".

Lemma kinds_row_set prefix id fields :
  row_prefix prefix → plain_fields fields = true → keeps (redis_hash_set (key_id prefix id) fields).
Proof.
  intros Hp Hf. rewrite key_id_text by (by destruct Hp as [->|[->|[->| ->]]]; simpl; lia).
  apply kinds_hash_set; [..|done].
  - intros w. by destruct Hp as [->|[->|[->| ->]]].
  - by destruct prefix.
  - intros H. apply list_elem_of_In in H. destruct Hp as [->|[->|[->| ->]]]; vm_compute in H; naive_solver.
  - rewrite !no_format_app, (no_format_take _ _ (no_format_id id)). by destruct Hp as [->|[->|[->| ->]]].
Qed.
Lemma id_text_head z : ∃ c t, id_text z = c :: t ∧ is_digit c || Ascii.eqb c "-" = true.
Proof.
  unfold id_text, print_lld. destruct (_ <? _) eqn:E; [eauto|].
  destruct (print_dec_spec (s64 z)) as (Hne & Hd & _); [lia|].
  destruct (print_dec (s64 z)) as [|c t]; [done|]. exists c, t. split; [done|]. inversion Hd; subst. by rewrite H1.
Qed.
Ltac head_cases c Hc := destruct c as [[] [] [] [] [] [] [] []]; vm_compute in Hc; try discriminate Hc; clear Hc.

Lemma relation_not_hash p id q : row_prefix p → hash_key (key_set p (id_text id) q) = false.
Proof.
  intros Hp. unfold key_set. destruct (id_text_head id) as (c & t & -> & Hc).
  head_cases c Hc; by destruct Hp as [->|[->|[->| ->]]].
Qed.
Lemma policy_target_not_hash pid t : hash_key (key_policy_target pid t) = false.
Proof. unfold key_policy_target. destruct (id_text_head pid) as (c & u & -> & Hc). by head_cases c Hc. Qed.
Lemma target_not_hash t id : hash_key (key_target_policies t id) = false.
Proof. done. Qed.
Lemma next_id_plain p : row_prefix p ∨ p = "oauth:client" → plain_key (key_next_id p) = true.
Proof. by intros [[->|[->|[->| ->]]]| ->]. Qed.
Lemma name_plain p name : row_prefix p → plain_key (key_name p name) = true.
Proof. by intros [->|[->|[->| ->]]]. Qed.
Lemma list_plain p : row_prefix p → plain_key (p ++ (":list" : cstr)) = true.
Proof. by intros [->|[->|[->| ->]]]. Qed.

(* ------------------------------------------------------------------ *)
(** ** Every operation *)

Lemma kinds_then_ok {A} e (m : redis D (result A)) : keeps m → keeps (then_ok e m).
Proof. intros Hm. destruct e; [done|apply kinds_ret..]. Qed.
Lemma kinds_next_id p : row_prefix p ∨ p = "oauth:client" → keeps (redis_next_id p).
Proof. intros Hp. apply kinds_bind; [by apply kinds_incr, next_id_plain|intros; apply kinds_ret]. Qed.
Lemma kinds_redis_del k : keeps (redis_del (D := D) k).
Proof. apply kinds_bind; [apply kinds_del|intros; apply kinds_ret]. Qed.
Lemma kinds_check_unique k : keeps (redis_check_unique (D := D) k).
Proof. apply kinds_bind; [apply kinds_exists|intros; apply kinds_ret]. Qed.
Lemma kinds_index k id : plain_key k = true → keeps (redis_set_index (D := D) k id).
Proof. intros. apply kinds_bind; [by apply kinds_set|intros; apply kinds_ret]. Qed.
Lemma kinds_push k id : plain_key k = true → keeps (redis_list_push (D := D) k id).
Proof. intros. apply kinds_bind; [by apply kinds_rpush|intros; apply kinds_ret]. Qed.
Lemma kinds_list_rem k id : keeps (redis_list_rem (D := D) k id).
Proof. apply kinds_bind; [by apply kinds_lrem|intros; apply kinds_ret]. Qed.
Lemma kinds_if_text t m : keeps m → keeps (if_text (D := D) t m).
Proof. destruct t; [intros; apply kinds_ret|done]. Qed.
Lemma kinds_when_text t m : keeps m → keeps (when_text (D := D) t m).
Proof. destruct t; [intros; apply kinds_ret|done]. Qed.
Lemma kinds_cascade k other id : keeps (cascade (D := D) k other id).
Proof.
  apply kinds_bind.
  - apply kinds_bind; [apply kinds_smembers|intros; apply kinds_ret].
  - intros l. apply kinds_bind; [|intros; apply kinds_redis_del]. apply kinds_each. intros x _.
    apply kinds_bind; [apply kinds_srem|intros; apply kinds_ret].
Qed.
Lemma kinds_hgetall_as {A} k (f : list (cstr * cstr) → A) : keeps (hgetall (D := D) k f).
Proof. apply kinds_bind; [apply kinds_hgetall|intros; apply kinds_ret]. Qed.
Lemma kinds_from_hash {A} k (f : list (cstr * cstr) → A) : keeps (from_hash (D := D) k f).
Proof. apply kinds_bind; [apply kinds_hgetall|intros; apply kinds_ret]. Qed.
Lemma kinds_op {A} (m : storage_op (redis_state D) A) : keeps m → keeps (op m).
Proof. done. Qed.
Lemma kinds_both a b : keeps (redis_cmd a) → keeps (redis_cmd b) → keeps (both (D := D) a b).
Proof.
  intros Ha Hb. apply kinds_connected, kinds_bind; [done|]. intros [r|]; [|apply kinds_ret].
  apply kinds_bind; [done|intros; apply kinds_ret].
Qed.

Create HintDb redis.
#[local] Hint Resolve kinds_ret kinds_get kinds_exists kinds_hgetall kinds_smembers kinds_del kinds_expire kinds_publish kinds_lrem
  kinds_srem kinds_hset kinds_sadd kinds_set kinds_setex kinds_incr kinds_rpush kinds_next_id kinds_redis_del kinds_check_unique kinds_index
  kinds_push kinds_list_rem kinds_cascade kinds_hgetall_as kinds_from_hash relation_not_hash policy_target_not_hash
  target_not_hash next_id_plain name_plain list_plain kinds_row_set : redis.

(** Code in sequence: what is done first, and what is done with its
    result. *)
Ltac kinds_step := first
  [ apply kinds_cascade | apply kinds_bind; [|intros ?] | apply kinds_connected | apply kinds_then_ok | apply kinds_if_text | apply kinds_when_text
  | match goal with |- keeps (op _) => apply kinds_op end | apply kinds_both
  | match goal with |- keeps (match ?x with _ => _ end) => destruct x end ].
Ltac kinds_tac := repeat kinds_step; eauto with redis.

Lemma kinds_create_named {A} p name (with_id : Z → A) hash :
  row_prefix p → (∀ id, plain_fields (hash (with_id id)) = true) → keeps (create_named (D := D) p name with_id hash).
Proof.
  intros Hp Hh. unfold create_named. kinds_tac.
Qed.

(** The rows. *)
Lemma kinds_user_get id : keeps (redis_user_get_by_id (D := D) id).
Proof. unfold redis_user_get_by_id. kinds_tac. Qed.
#[local] Hint Resolve kinds_user_get : redis.

Lemma prefix_user : row_prefix "user".
Proof. by left. Qed.
Lemma prefix_role : row_prefix "role".
Proof. by right; left. Qed.
Lemma prefix_group : row_prefix "group".
Proof. by right; right; left. Qed.
Lemma prefix_policy : row_prefix "policy".
Proof. by right; right; right. Qed.
#[local] Hint Resolve prefix_user prefix_role prefix_group prefix_policy : redis.

Definition user_texts (u : user_t) : list cstr :=
  [u_username u; u_phone u; u_password_hash u; u_email u; u_display_name u; u_attributes u; u_mfa_secret u].

Ltac fields_tac := unfold plain_fields; cbn [forallb fst snd app set_role_id r_name r_description set_group_id g_name g_description set_policy_id p_name p_rules];
  rewrite ?no_format_enum, ?no_format_id_txt, ?no_format_time, ?no_format_print_d, ?no_format_snprintf by apply no_format_number;
  repeat match goal with H : no_format _ = true |- _ => rewrite H; clear H end; reflexivity.

Lemma kinds_user_create u : forallb no_format (user_texts u) = true → keeps (redis_user_create (D := D) u).
Proof.
  cbn [forallb user_texts]. rewrite !andb_true_iff. intros (? & ? & ? & ? & ? & ? & ? & _).
  unfold redis_user_create. kinds_tac. apply kinds_row_set; [eauto with redis|]. unfold user_hash. fields_tac.
Qed.
Lemma kinds_user_update u : forallb no_format (user_texts u) = true → keeps (redis_user_update (D := D) u).
Proof.
  cbn [forallb user_texts]. rewrite !andb_true_iff. intros (? & ? & ? & ? & ? & ? & ? & _).
  unfold redis_user_update. kinds_tac. apply kinds_row_set; [eauto with redis|]. fields_tac.
Qed.
Lemma kinds_user_delete id : keeps (redis_user_delete (D := D) id).
Proof. unfold redis_user_delete. kinds_tac. Qed.

Lemma kinds_role_get id : keeps (redis_role_get_by_id (D := D) id).
Proof. unfold redis_role_get_by_id. kinds_tac. Qed.
Lemma kinds_group_get id : keeps (redis_group_get_by_id (D := D) id).
Proof. unfold redis_group_get_by_id. kinds_tac. Qed.
Lemma kinds_policy_get id : keeps (redis_policy_get_by_id (D := D) id).
Proof. unfold redis_policy_get_by_id. kinds_tac. Qed.
#[local] Hint Resolve kinds_role_get kinds_group_get kinds_policy_get : redis.

Definition role_texts (r : role_t) : list cstr := [r_name r; r_description r].
Definition group_texts (g : group_t) : list cstr := [g_name g; g_description g].
Definition policy_texts (p : policy_t) : list cstr := [p_name p; p_rules p].

Lemma kinds_role_create r : forallb no_format (role_texts r) = true → keeps (redis_role_create (D := D) r).
Proof.
  cbn [forallb role_texts]. rewrite !andb_true_iff. intros (? & ? & _).
  apply kinds_create_named; [eauto with redis|]. intros id. unfold role_hash. fields_tac.
Qed.
Lemma kinds_role_update r : forallb no_format (role_texts r) = true → keeps (redis_role_update (D := D) r).
Proof.
  cbn [forallb role_texts]. rewrite !andb_true_iff. intros (? & ? & _). unfold redis_role_update, update_hash. kinds_tac.
  apply kinds_row_set; [eauto with redis|]. fields_tac.
Qed.
Lemma kinds_role_delete id : keeps (redis_role_delete (D := D) id).
Proof. unfold redis_role_delete. kinds_tac. Qed.
Lemma kinds_group_create g : forallb no_format (group_texts g) = true → keeps (redis_group_create (D := D) g).
Proof.
  cbn [forallb group_texts]. rewrite !andb_true_iff. intros (? & ? & _).
  apply kinds_create_named; [eauto with redis|]. intros id. unfold group_hash. fields_tac.
Qed.
Lemma kinds_group_update g : forallb no_format (group_texts g) = true → keeps (redis_group_update (D := D) g).
Proof.
  cbn [forallb group_texts]. rewrite !andb_true_iff. intros (? & ? & _). unfold redis_group_update, update_hash. kinds_tac.
  apply kinds_row_set; [eauto with redis|]. fields_tac.
Qed.
Lemma kinds_group_delete id : keeps (redis_group_delete (D := D) id).
Proof. unfold redis_group_delete. kinds_tac. Qed.
Lemma kinds_policy_create p : forallb no_format (policy_texts p) = true → keeps (redis_policy_create (D := D) p).
Proof.
  cbn [forallb policy_texts]. rewrite !andb_true_iff. intros (? & ? & _).
  apply kinds_create_named; [eauto with redis|]. intros id. unfold policy_hash. fields_tac.
Qed.
Lemma kinds_policy_update p : forallb no_format (policy_texts p) = true → keeps (redis_policy_update (D := D) p).
Proof.
  cbn [forallb policy_texts]. rewrite !andb_true_iff. intros (? & ? & _). unfold redis_policy_update, update_hash. kinds_tac.
  apply kinds_row_set; [eauto with redis|]. fields_tac.
Qed.
Lemma kinds_policy_delete id : keeps (redis_policy_delete (D := D) id).
Proof. unfold redis_policy_delete. cbv zeta. kinds_tac. Qed.

(** Codes, clients and refresh tokens: hashes under keys of their own. *)
Definition code_texts (c : oauth_auth_code_t) : list cstr :=
  [oc_code c; oc_client_id c; oc_redirect_uri c; oc_scope c; oc_nonce c; oc_code_challenge c; oc_code_challenge_method c].
Definition client_texts (c : oauth_client_t) : list cstr :=
  [cl_client_id c; cl_client_secret_hash c; cl_redirect_uris c; cl_app_name c; cl_app_description c; cl_app_logo_url c;
   cl_allowed_scopes c; cl_allowed_grant_types c].
Definition refresh_texts (r : refresh_token_t) : list cstr := [rt_token_hash r; rt_client_id r].

Lemma kinds_code_set code fields :
  no_format code = true → plain_fields fields = true → keeps (redis_hash_set (D := D) (key_code code) fields).
Proof.
  intros Hc Hf. change (key_code code) with (("oauth:code:" : cstr) ++ take 500 code). apply kinds_hash_set; [done|done|..|done].
  - intros H%list_elem_of_In. vm_compute in H. naive_solver.
  - by rewrite no_format_app, no_format_take.
Qed.
Lemma kinds_client_set id fields :
  no_format id = true → plain_fields fields = true → keeps (redis_hash_set (D := D) (key_client id) fields).
Proof.
  intros Hc Hf. change (key_client id) with (("oauth:client:" : cstr) ++ take 498 id). apply kinds_hash_set; [done|done|..|done].
  - intros H%list_elem_of_In. vm_compute in H. naive_solver.
  - by rewrite no_format_app, no_format_take.
Qed.
Lemma kinds_refresh_set h fields :
  no_format h = true → plain_fields fields = true → keeps (redis_hash_set (D := D) (key_refresh h) fields).
Proof.
  intros Hc Hf. change (key_refresh h) with (("refresh_token:" : cstr) ++ take 497 h). apply kinds_hash_set; [done|done|..|done].
  - intros H%list_elem_of_In. vm_compute in H. naive_solver.
  - by rewrite no_format_app, no_format_take.
Qed.

Lemma kinds_code_create now c : forallb no_format (code_texts c) = true → keeps (redis_oauth_code_create (D := D) now c).
Proof.
  cbn [forallb code_texts]. rewrite !andb_true_iff. intros (? & ? & ? & ? & ? & ? & ? & _).
  unfold redis_oauth_code_create. cbv zeta. kinds_tac. apply kinds_code_set; [done|]. fields_tac.
Qed.
Lemma kinds_client_create c : forallb no_format (client_texts c) = true → keeps (redis_oauth_client_create (D := D) c).
Proof.
  cbn [forallb client_texts]. rewrite !andb_true_iff. intros (? & ? & ? & ? & ? & ? & ? & ? & _).
  unfold redis_oauth_client_create. cbv zeta. kinds_tac. apply kinds_client_set; [done|]. unfold client_fields. fields_tac.
Qed.
Lemma kinds_client_update c : forallb no_format (client_texts c) = true → keeps (redis_oauth_client_update (D := D) c).
Proof.
  cbn [forallb client_texts]. rewrite !andb_true_iff. intros (? & ? & ? & ? & ? & ? & ? & ? & _).
  unfold redis_oauth_client_update, update_hash. kinds_tac. apply kinds_client_set; [done|]. unfold client_fields. fields_tac.
Qed.
Lemma kinds_client_get id : keeps (redis_oauth_client_get (D := D) id).
Proof. unfold redis_oauth_client_get. kinds_tac. Qed.
#[local] Hint Resolve kinds_client_get : redis.
Lemma kinds_client_delete id : keeps (redis_oauth_client_delete (D := D) id).
Proof. unfold redis_oauth_client_delete. kinds_tac. Qed.
Lemma kinds_refresh_create r : forallb no_format (refresh_texts r) = true → keeps (redis_refresh_token_create (D := D) r).
Proof.
  cbn [forallb refresh_texts]. rewrite !andb_true_iff. intros (? & ? & _).
  unfold redis_refresh_token_create, update_hash. kinds_tac. apply kinds_refresh_set; [done|]. fields_tac.
Qed.
Lemma kinds_bloom jti : keeps (add_bloom (D := D) jti).
Proof. intros s Hs. by eexists _, _. Qed.
#[local] Hint Resolve kinds_bloom : redis.
Lemma kinds_jti_revoke now jti ex : keeps (redis_jti_revoke (D := D) now jti ex).
Proof. unfold redis_jti_revoke. cbv zeta. kinds_tac. Qed.

(** The texts a command puts into hashes; [None] for the commands with a
    NULL pointer and those the backend does not have. *)
Definition command_texts (c : command) : option (list cstr) :=
  match c with
  | User_create (Some u) | User_update (Some u) => Some (user_texts u)
  | Role_create (Some r) | Role_update (Some r) => Some (role_texts r)
  | Group_create (Some g) | Group_update (Some g) => Some (group_texts g)
  | Policy_create (Some p) | Policy_update (Some p) => Some (policy_texts p)
  | Refresh_token_create (Some r) => Some (refresh_texts r)
  | Oauth_code_create (Some c) => Some (code_texts c)
  | Oauth_client_create (Some c) | Oauth_client_update (Some c) => Some (client_texts c)
  | User_delete _ | Role_delete _ | Group_delete _ | Policy_delete _
  | Save_sms_code (Some _) (Some _) _ | Delete_sms_code (Some _)
  | Assign_role_user _ _ | Unassign_role_user _ _ | Assign_role_group _ _ | Unassign_role_group _ _
  | Add_user_group _ _ | Remove_user_group _ _ | Assign_policy _ _ _ | Unassign_policy _ _ _
  | Refresh_token_revoke (Some _) | Jti_revoke (Some _) _ | Oauth_code_mark_used (Some _) | Oauth_code_cleanup
  | Oauth_client_delete (Some _) => Some []
  | _ => None
  end.

Lemma kinds_inner_call {F A} (f : F) (k : F → storage_op (redis_state D) A) : keeps (k f) → keeps (inner_call (Some f) k).
Proof. intros H s Hs. unfold inner_call. destruct (H s Hs) as (r & s' & -> & Hs'). by eexists _, _. Qed.

#[local] Hint Resolve kinds_user_create kinds_user_update kinds_user_delete kinds_role_create kinds_role_update kinds_role_delete
  kinds_group_create kinds_group_update kinds_group_delete kinds_policy_create kinds_policy_update kinds_policy_delete
  kinds_code_create kinds_client_create kinds_client_update kinds_client_delete kinds_refresh_create kinds_jti_revoke : redis.

Lemma kinds_command now fuel other c texts :
  command_texts c = Some texts → forallb no_format texts = true →
  keeps (run_inner (storage_redis_create (D := D) now fuel) other c).
Proof.
  intros Hc Ht. destruct c as
    [[]|[]| |[] []|[]|[]|[]| |[]|[]| |[]|[]| | | | | | | | | |[]|[]|[]|[]|[]| | |[]|[]|[]|]; try discriminate Hc;
    injection Hc as <-; apply kinds_inner_call; try (by eauto with redis);
    unfold redis_save_sms_code, redis_delete_sms_code, redis_assign_role_to_user, redis_unassign_role_from_user,
      redis_assign_role_to_group, redis_unassign_role_from_group, redis_add_user_to_group, redis_remove_user_from_group,
      redis_assign_policy, redis_unassign_policy, redis_refresh_token_revoke, redis_oauth_code_mark_used; kinds_tac.
Qed.

(** The keys of a family are tokens. *)
Lemma starts_c_str p l : NUL ∉ p → starts_with p l = true → ∃ w, c_str l = p ++ w.
Proof.
  intros Hp Hl. apply starts_with_iff in Hl as [w ->]. exists (c_str w).
  induction p as [|c p IH]; [done|]. cbn [app c_str]. rewrite IH by set_solver.
  destruct (Ascii.eqb_spec c NUL) as [->|]; [set_solver|done].
Qed.
Lemma kinds_revoke_member user client l :
  starts_with "refresh_token:" l = true → keeps (revoke_member (D := D) user client (c_str l)).
Proof.
  intros Hl. destruct (starts_c_str "refresh_token:" l) as [w ->]; [|done|].
  { intros H%list_elem_of_In. vm_compute in H. naive_solver. }
  unfold revoke_member. kinds_step; [apply kinds_hmget|]. repeat kinds_step; eauto with redis.
Qed.
Lemma kinds_bind_read {A} argv (f : option redis_reply → redis D A) (P : option redis_reply → Prop) :
  (∀ d, ∃ r, redis_exec argv d = (r, d) ∧ P r) → (∀ r, P r → keeps (f r)) → keeps (redis_cmd argv ≫= f).
Proof.
  intros Hr Hf s Hs. unfold mbind, redis_bind, redis_cmd. destruct (Hr (rd_db s)) as (r & -> & HP).
  replace (set_db (rd_db s) s) with s by (by destruct s). by apply Hf.
Qed.
Lemma kinds_revoke_family user client : keeps (redis_refresh_token_revoke_family (D := D) user client).
Proof.
  apply kinds_connected. apply (kinds_bind_read _ _ (λ r, ∃ l, r = Some (strings l) ∧ Forall (λ k, starts_with "refresh_token:" k = true) l)).
  { intros d. destruct (keys_doc d) as (l & -> & Hl). eauto. }
  intros r (l & -> & Hl). cbn [strings]. kinds_step; [|eauto with redis]. apply kinds_each.
  intros x (e & He & Hx)%list_elem_of_omap. apply list_elem_of_In, in_map_iff in He as (k & <- & Hk).
  injection Hx as <-. apply kinds_revoke_member. rewrite Forall_forall in Hl. apply Hl. by apply list_elem_of_In.
Qed.

(** Every change of the Redis backend returns and keeps what the keys
    hold: rows stay hashes, relations stay sets, whatever names, phones and
    ids the fields bring, as long as no text has a [%]. *)
Theorem redis_keeps_kinds now fuel other c texts s :
  command_texts c = Some texts → forallb no_format texts = true → redis_inv s →
  (∃ r s', run_inner (storage_redis_create (D := D) now fuel) other c s = Ret (r, s') ∧ redis_inv s') ∧
  ∀ user client, ∃ r s', redis_refresh_token_revoke_family user client s = Ret (r, s') ∧ redis_inv s'.
Proof. intros Hc Ht Hs. split; [by apply (kinds_command now fuel other c texts)|intros user client; by apply kinds_revoke_family]. Qed.

(* ------------------------------------------------------------------ *)
(** ** The promise to the managers *)

Definition text_id (t : list ascii) : Z := u64 (atoll (c_str t)).
Definition row_of {A} (f : list (cstr * cstr) → A) (v : option rvalue) : option A :=
  match v with
  | Some (VHash ((_ :: _) as l)) => Some (f (map (λ fv, (c_str fv.1, c_str fv.2)) l))
  | _ => None
  end.
Definition ids_of (v : option rvalue) : list Z := match v with Some (VSet l) => map text_id l | _ => [] end.
Definition id_at (f : cstr) (v : option rvalue) : option Z :=
  match v with Some (VHash l) => text_id <$> hash_lookup f l | _ => None end.

(** The relations in the keys. *)
Definition redis_view (s : redis_state D) : store_view :=
  let at_key k := view (rd_db s) !! k in
  {| v_policy := λ i, row_of (policy_from_hash i) (at_key (key_id "policy" i));
     v_assigned := λ t i, ids_of (at_key (key_target_policies (policy_target_int t) i));
     v_user_roles := λ i, ids_of (at_key (key_set "user" (id_text i) "roles"));
     v_user_groups := λ i, ids_of (at_key (key_set "user" (id_text i) "groups"));
     v_role_parent := λ i, id_at "parent_role_id" (at_key (key_id "role" i));
     v_group_parent := λ i, id_at "parent_group_id" (at_key (key_id "group" i)) |}.

Lemma typed_hash ks k v : typed ks → hash_key k = true → ks !! k = Some v → ∃ l, v = VHash l.
Proof.
  intros Ht Hk E. pose proof (map_Forall_lookup_1 _ _ _ _ Ht E) as H. unfold kind_ok in H. simpl in H. rewrite Hk in H.
  destruct v; try discriminate H. eauto.
Qed.
Lemma typed_set ks k v : typed ks → set_key k = true → ks !! k = Some v → ∃ l, v = VSet l.
Proof.
  intros Ht Hk E. pose proof (map_Forall_lookup_1 _ _ _ _ Ht E) as H. unfold kind_ok in H. simpl in H. rewrite Hk, andb_true_iff in H.
  destruct H as [_ H]. destruct v; try discriminate H. eauto.
Qed.

Lemma redis_cmd_read argv (s : redis_state D) r : redis_exec argv (rd_db s) = (r, rd_db s) → redis_cmd argv s = Ret (r, s).
Proof. intros E. unfold redis_cmd. rewrite E. by destruct s. Qed.

Lemma hash_pairs_strings l :
  hash_pairs (map REDIS_REPLY_STRING (flat_map (λ fv, [fv.1; fv.2]) l)) = map (λ fv, (c_str fv.1, c_str fv.2)) l.
Proof. induction l as [|[f v] l IH]; [done|]. cbn [flat_map map app hash_pairs fst snd]. simpl. by rewrite IH. Qed.
Lemma array_texts_strings l : array_texts (map REDIS_REPLY_STRING l) = map c_str l.
Proof. induction l as [|x l IH]; [done|]. change (c_str x :: array_texts (map REDIS_REPLY_STRING l) = c_str x :: map c_str l). by rewrite IH. Qed.

Lemma from_hash_reads {A} k (f : list (cstr * cstr) → A) s :
  redis_inv s → hash_key k = true →
  connected (from_hash k f) s = Ret (found (row_of f (view (rd_db s) !! k)), s).
Proof.
  intros [Hc Ht] Hk. unfold connected, from_hash. rewrite Hc. unfold mbind, redis_bind.
  rewrite (redis_cmd_read _ s _ (hgetall_doc k (rd_db s))). destruct (view (rd_db s) !! k) as [v|] eqn:E; [|done].
  destruct (typed_hash _ _ _ Ht Hk E) as [l ->]. cbn [hgetall_reply strings]. destruct l as [|[a b] l]; [done|].
  cbn [row_of found]. by rewrite <- hash_pairs_strings.
Qed.
Lemma member_ids_reads k m s :
  redis_inv s → set_key k = true → member_ids k m s = Ret (ids_answer (ids_of (view (rd_db s) !! k)) m, s).
Proof.
  intros [Hc Ht] Hk. unfold member_ids, connected. rewrite Hc. unfold mbind, redis_bind.
  rewrite (redis_cmd_read _ s _ (smembers_doc k (rd_db s))). unfold ids_answer.
  destruct (view (rd_db s) !! k) as [v|] eqn:E; [|by destruct m].
  destruct (typed_set _ _ _ Ht Hk E) as [l ->]. cbn [smembers_reply strings]. rewrite array_texts_strings, map_map. done.
Qed.
Lemma parent_reads k f s :
  redis_inv s → hash_key k = true →
  connected (r ← redis_cmd ["HGET" : cstr; k; f]; mret (redis_reply_id r)) s = Ret (found (id_at f (view (rd_db s) !! k)), s).
Proof.
  intros [Hc Ht] Hk. unfold connected. rewrite Hc. unfold mbind, redis_bind.
  rewrite (redis_cmd_read _ s _ (hget_doc k f (rd_db s))). destruct (view (rd_db s) !! k) as [v|] eqn:E; [|done].
  destruct (typed_hash _ _ _ Ht Hk E) as [l ->]. cbn [hget_reply id_at]. by destruct (hash_lookup f l).
Qed.

Lemma row_hash p id : row_prefix p → hash_key (key_id p id) = true.
Proof. by intros [->|[->|[->| ->]]]. Qed.
Lemma user_set id q : set_key (key_set "user" (id_text id) q) = true.
Proof. unfold key_set. destruct (id_text_head id) as (c & t & -> & Hc). by head_cases c Hc. Qed.

(** The Redis backend keeps the promise of [Storage] to the managers:
    in every state of the kinds above, the reads of policy resolution and
    of the hierarchies answer from the sets and hashes of the server. *)
Theorem redis_reads now fuel : StorageReads (storage_redis_create (D := D) now fuel) redis_view redis_inv.
Proof.
  split; eexists; (split; [reflexivity|]); intros.
  - apply from_hash_reads; [done|]. apply row_hash. eauto with redis.
  - by apply member_ids_reads.
  - apply member_ids_reads; [done|apply user_set].
  - apply member_ids_reads; [done|apply user_set].
  - apply parent_reads; [done|]. apply row_hash. eauto with redis.
  - apply parent_reads; [done|]. apply row_hash. eauto with redis.
Qed.
End Types.

(* ------------------------------------------------------------------ *)
(** ** Witnesses *)

Definition ref_state (d : keyspace) : redis_state keyspace := {| rd_ctx := true; rd_db := d; rd_bloom := ∅ |}.
Definition role1 : role_t :=
  {| r_id := 0; r_name := "admin"; r_description := "all"; r_parent_role_id := 7; r_status := ROLE_STATUS_ACTIVE;
     r_created_at := 1000; r_updated_at := 2000 |}.

Lemma ref_inv_empty : redis_inv (λ d, d) (ref_state ∅).
Proof. split; [done|]. apply map_Forall_empty. Qed.

Lemma redis_keeps_kinds_witness :
  (∃ r s', run_inner (storage_redis_create 5 10) (λ _ s, Ret (Ok (), s)) (Role_create (Some role1)) (ref_state ∅) = Ret (r, s') ∧
           redis_inv (λ d, d) s') ∧
  ∀ user client, ∃ r s', redis_refresh_token_revoke_family user client (ref_state ∅) = Ret (r, s') ∧ redis_inv (λ d, d) s'.
Proof. apply (redis_keeps_kinds (λ d, d) 5 10 _ _ (role_texts role1)); [reflexivity..|apply ref_inv_empty]. Defined.


Lemma redis_reads_witness : StorageReads (storage_redis_create (D := keyspace) 5 10) (redis_view (λ d, d)) (redis_inv (λ d, d)).
Proof. apply (redis_reads (λ d, d) 5 10). Defined.
