(* ===== verification/RedisRows.v ===== *)
(** * Rows of the Redis backend and revoked ids

    A role through its hash and its index, what becomes of texts that are
    not one word, and the filter in front of the revoked ids. *)

From S2P Require Import Prelude CLib CNum Types Storage Printf Http Raft Redis RedisServer RedisSafety.

(* ------------------------------------------------------------------ *)
(** ** Numbers and words *)

Lemma s64_bounds z : - 2 ^ 63 ≤ s64 z < 2 ^ 63.
Proof. unfold s64. pose proof (Z.mod_pos_bound (z + 2 ^ 63) (2 ^ 64)). lia. Qed.
Lemma u64_s64 z : u64 (s64 z) = u64 z.
Proof. unfold u64, s64. rewrite Zminus_mod_idemp_l. f_equal. lia. Qed.
Lemma atoll_print_lld z : - 2 ^ 63 ≤ z < 2 ^ 63 → atoll (print_lld z) = z.
Proof.
  intros Hz. unfold print_lld. destruct (Z.ltb_spec z 0).
  - destruct (print_dec_spec (- z)) as (Hne & Hd & Hv); [lia|].
    destruct (scan_digits _ [] Hne Hd I) as (_ & E2 & _). rewrite app_nil_r in *. unfold atoll.
    change (scan_sign (skip_while is_space ("-"%char :: print_dec (- z)))) with (true, print_dec (- z)). cbv beta iota zeta. rewrite E2, Hv. lia.
  - destruct (print_dec_spec z) as (Hne & Hd & Hv); [lia|].
    destruct (scan_digits _ [] Hne Hd I) as (E1 & E2 & _). rewrite app_nil_r in *. unfold atoll. rewrite E1, E2, Hv. lia.
Qed.
Lemma atoi_print_lld z : - 2 ^ 31 ≤ z < 2 ^ 31 → atoi (print_lld z) = z.
Proof.
  intros Hz. transitivity (s32 (atoll (print_lld z))); [|rewrite atoll_print_lld by lia; by apply s32_small].
  unfold atoi, atoll. by destruct (scan_sign _) as [[] ?].
Qed.
Lemma print_lld_length z : - 2 ^ 63 ≤ z < 2 ^ 63 → (length (print_lld z) ≤ 20)%nat.
Proof.
  intros Hz. unfold print_lld, print_dec, print_base. destruct (Z.ltb_spec z 0); cbn [length].
  - pose proof (print_dec_loop_length (S (Z.to_nat (Z.log2 (- z)))) 18 (- z) []). simpl in *. lia.
  - pose proof (print_dec_loop_length (S (Z.to_nat (Z.log2 z))) 18 z []). simpl in *. lia.
Qed.

(** A text that is one word to the client library and fits its array. *)
Definition is_word (t : cstr) : Prop := t ≠ [] ∧ Forall (λ c, c ≠ " "%char ∧ c ≠ "%"%char ∧ c ≠ NUL) t.

Lemma number_word z : is_word (print_lld z).
Proof.
  assert (Hd : ∀ ds, Forall (λ c, is_digit c = true) ds → Forall (λ c, c ≠ " "%char ∧ c ≠ "%"%char ∧ c ≠ NUL) ds).
  { intros ds H. eapply Forall_impl; [exact H|]. intros c Hc. split_and!; intros ->; by vm_compute in Hc. }
  unfold print_lld. destruct (Z.ltb_spec z 0).
  - split; [done|]. constructor; [done|]. apply Hd, print_dec_spec. lia.
  - destruct (print_dec_spec z) as (? & ? & _); [lia|]. split; auto.
Qed.
Lemma word_cut n t : (length t < n)%nat → snprintf n t = t.
Proof. intros H. unfold snprintf. apply take_ge. lia. Qed.

Lemma word_no_space t : is_word t → " "%char ∉ t.
Proof. intros [_ H] Hin. rewrite Forall_forall in H. by destruct (H _ Hin). Qed.
Lemma word_no_format t : is_word t → no_format t = true.
Proof. intros [_ H]. apply no_format_spec. intros Hin. rewrite Forall_forall in H. by destruct (H _ Hin) as (_ & ? & _). Qed.
Lemma word_c_str t : is_word t → c_str t = t.
Proof. intros [_ H]. apply c_str_id. intros Hin. rewrite Forall_forall in H. by destruct (H _ Hin) as (_ & _ & ?). Qed.
Lemma word_app s t : is_word s → is_word t → is_word (s ++ t).
Proof. intros [H1 H2] [H3 H4]. split; [by destruct s|]. by apply Forall_app. Qed.
Definition word_test (t : cstr) : bool :=
  match t with [] => false | _ => forallb (λ c, negb (Ascii.eqb c " " || Ascii.eqb c "%" || Ascii.eqb c NUL)) t end.
Lemma word_test_ok t : word_test t = true → is_word t.
Proof.
  intros H. split; [by intros ->|]. apply Forall_forall. intros c Hc. destruct t as [|c0 t]; [done|]. unfold word_test in H.
  rewrite forallb_forall in H. specialize (H c (proj1 (list_elem_of_In _ _) Hc)). split_and!; intros ->; by vm_compute in H.
Qed.

Lemma words_of_nil_word w : is_word w → words_of w = [w].
Proof. intros Hw. unfold words_of. rewrite split_on_single by (by apply word_no_space). destruct Hw as [Hw _]. by destruct w. Qed.
Lemma words_of_cons w t : is_word w → words_of (w ++ " "%char :: t) = w :: words_of t.
Proof. intros Hw. unfold words_of. rewrite split_on_app by (by apply word_no_space). destruct Hw as [Hw _]. by destruct w. Qed.
Lemma words_of_fields w l :
  is_word w → Forall (λ fv : cstr * cstr, is_word fv.1 ∧ is_word fv.2) l →
  words_of (w ++ concat (map (λ fv, " "%char :: fv.1 ++ " "%char :: fv.2) l)) = w :: flat_map (λ fv, [fv.1; fv.2]) l.
Proof.
  revert w. induction l as [|[f v] l IH]; intros w Hw Hl.
  - simpl. rewrite app_nil_r. by apply words_of_nil_word.
  - inversion Hl as [|? ? [Hf Hv] Hl']; subst. simpl in Hf, Hv. cbn [map concat fst snd flat_map app].
    rewrite words_of_cons by done. f_equal. rewrite <- app_assoc. cbn [app]. rewrite words_of_cons by done. f_equal. by apply IH.
Qed.

(** An empty value is no word. *)
Definition words_of_field (fv : cstr * cstr) : list cstr := fv.1 :: match fv.2 with [] => [] | v => [v] end.
Lemma words_of_space t : words_of (" "%char :: t) = words_of t.
Proof. done. Qed.
Lemma words_of_rest w l :
  (w = [] ∨ is_word w) → Forall (λ fv : cstr * cstr, is_word fv.1 ∧ (fv.2 = [] ∨ is_word fv.2)) l →
  words_of (w ++ concat (map (λ fv, " "%char :: fv.1 ++ " "%char :: fv.2) l)) =
  (match w with [] => [] | _ => [w] end) ++ flat_map words_of_field l.
Proof.
  revert w. induction l as [|[f v] l IH]; intros w Hw Hl.
  - simpl. rewrite !app_nil_r. destruct Hw as [->|Hw]; [done|]. rewrite words_of_nil_word by done. destruct Hw as [Hw _]. by destruct w.
  - inversion Hl as [|? ? [Hf Hv] Hl']; subst. cbn [fst snd] in Hf, Hv. cbn [map concat fst snd flat_map]. cbn [app].
    assert (E : words_of ((f ++ " "%char :: v) ++ concat (map (λ fv, " "%char :: fv.1 ++ " "%char :: fv.2) l)) =
                words_of_field (f, v) ++ flat_map words_of_field l).
    { rewrite <- app_assoc. cbn [app]. rewrite words_of_cons by done. rewrite IH by done. unfold words_of_field at 2. cbn [fst snd].
      by destruct v. }
    destruct Hw as [->|Hw]; cbn [app].
    + by rewrite words_of_space, E.
    + rewrite words_of_cons, E by done. destruct Hw as [Hw _]. by destruct w.
Qed.

Lemma pair_up_fields l : pair_up (flat_map (λ fv : cstr * cstr, [fv.1; fv.2]) l) = Some l.
Proof. induction l as [|[f v] l IH]; [done|]. cbn [flat_map app fst snd pair_up]. by rewrite IH. Qed.

(** Fields read from a hash whose names and values are words. *)
Lemma field_lookup name (l : list (list ascii * list ascii)) :
  NoDup l.*1 → Forall (λ fv, NUL ∉ fv.1) l →
  hash_field name (map (λ fv, (c_str fv.1, c_str fv.2)) l) = c_str <$> hash_lookup name l.
Proof.
  induction l as [|[f v] l IH]; intros Hd Hn; [done|]. apply NoDup_cons in Hd as [Hf Hd]. inversion Hn as [|? ? Hn1 Hn2]; subst.
  cbn [map hash_field fst snd]. rewrite IH by done. unfold hash_lookup. cbn [List.find fst]. simpl in Hn1. rewrite c_str_id by done.
  unfold strcmp_eq. destruct (bool_decide_reflect (f = name)) as [->|Hne]; [|by destruct (List.find _ l)].
  destruct (List.find _ l) as [[g w]|] eqn:E; [|done]. apply find_some in E as [Hin Hg]. apply bool_decide_eq_true in Hg. simpl in Hg. subst g.
  destruct Hf. apply list_elem_of_fmap. exists (name, w). split; [done|]. by apply list_elem_of_In.
Qed.

(* ------------------------------------------------------------------ *)
(** ** A new row *)

Section Rows.
Context {D : Type} `{!Redis D} (view : D → keyspace) `{!RedisLaws view}.

(** Fields of a fresh hash. *)
Lemma fresh_field name l fields :
  hash_set [] fields l → Forall (λ fv : cstr * cstr, is_word fv.1 ∧ is_word fv.2) fields →
  hash_field name (map (λ fv, (c_str fv.1, c_str fv.2)) l) = hash_lookup name (reverse fields).
Proof.
  intros [Hd Hl] Hw. assert (Hr : ∀ f v, hash_lookup f (reverse fields) = Some v → is_word f ∧ is_word v).
  { intros f v E. unfold hash_lookup in E. destruct (List.find _ _) as [[g w]|] eqn:Ef; [|done]. injection E as <-.
    apply find_some in Ef as [Hin Hg]. apply bool_decide_eq_true in Hg. simpl in Hg. subst g.
    apply list_elem_of_In in Hin. rewrite elem_of_reverse in Hin. rewrite Forall_forall in Hw. by apply (Hw _ Hin). }
  rewrite field_lookup.
  - rewrite Hl. destruct (hash_lookup name (reverse fields)) as [v|] eqn:E; [|done]. cbn [fmap option_fmap option_map].
    f_equal. apply word_c_str. by apply (Hr _ _ E).
  - apply Hd. constructor.
  - apply Forall_forall. intros [f v] Hin. cbn [fst].
    assert (Hf : hash_lookup f l ≠ None).
    { unfold hash_lookup. destruct (List.find _ l) eqn:E; [done|]. apply list_elem_of_In in Hin.
      pose proof (find_none _ _ E _ Hin) as Hx. simpl in Hx. by rewrite bool_decide_true in Hx. }
    rewrite Hl in Hf. destruct (hash_lookup f (reverse fields)) as [w|] eqn:E; [|done].
    destruct (Hr _ _ E) as [Hwf _]. rewrite <- (word_c_str f) by done. apply c_str_no_nul.
Qed.

Lemma hash_set_writes key fields (s : redis_state D) :
  is_word key → fields ≠ [] → Forall (λ fv : cstr * cstr, is_word fv.1 ∧ is_word fv.2) fields →
  (length (hash_text key fields) < 1024)%nat → view (rd_db s) !! key = None →
  ∃ d l, redis_hash_set key fields s = Ret (SSO_OK, set_db d s) ∧ hash_set [] fields l ∧
    view d = <[key := VHash l]> (view (rd_db s)).
Proof.
  intros Hk Hne Hw Hlen Hfresh. unfold redis_hash_set. cbv zeta.
  rewrite (proj2 (Nat.leb_gt 1024 (length (hash_text key fields)))) by done.
  unfold mbind, redis_bind, redis_cmd_str. rewrite argv_doc.
  2: { apply no_format_spec, no_format_hash; [by apply word_no_format|]. unfold plain_fields. apply forallb_forall.
       intros fv Hin. rewrite Forall_forall in Hw. destruct (Hw fv) as [H1 H2]; [by apply list_elem_of_In|].
       by rewrite !word_no_format. }
  unfold hash_text. change ("HMSET " : cstr) with (("HMSET" : cstr) ++ [" "%char]). rewrite <- !app_assoc. cbn [app].
  rewrite words_of_cons by (by apply word_test_ok). rewrite words_of_fields by done.
  change (Ret ?x ≫= ?f) with (f x). cbv beta.
  unfold redis_cmd. destruct (hmset_doc key (flat_map (λ fv, [fv.1; fv.2]) fields) (rd_db s)) as (r & d & -> & H).
  rewrite pair_up_fields, Hfresh in H. destruct fields as [|fv fields]; [done|]. destruct H as (-> & l & Hl & Hd).
  exists d, l. by split_and!.
Qed.

Definition named_prefix (p : cstr) : Prop := p = "role" ∨ p = "group" ∨ p = "policy".
Lemma named_row p : named_prefix p → row_prefix p.
Proof. intros H. by right. Qed.

(** The keys of a table differ after its name. *)
Lemma keys_differ p id name :
  named_prefix p → key_id p id ≠ key_name p name ∧ key_id p id ≠ key_next_id p ∧ key_id p id ≠ p ++ (":list" : cstr) ∧
  key_name p name ≠ p ++ (":list" : cstr).
Proof.
  intros [->|[->| ->]]; split_and!; intros H;
    (apply (f_equal (λ t, nth 5 t NUL)) in H as H5; apply (f_equal (λ t, nth 6 t NUL)) in H as H6;
     apply (f_equal (λ t, nth 7 t NUL)) in H as H7; clear H; try discriminate H5; try discriminate H6; discriminate H7).
Qed.
Lemma key_id_word p id : row_prefix p → is_word (key_id p id).
Proof.
  intros Hp. rewrite key_id_text by (by destruct Hp as [->|[->|[->| ->]]]; simpl; lia). apply word_app.
  - apply word_test_ok. by destruct Hp as [->|[->|[->| ->]]].
  - rewrite take_ge; [apply number_word|]. etrans; [apply print_lld_length|].
    + apply s64_bounds.
    + destruct Hp as [->|[->|[->| ->]]]; simpl; lia.
Qed.

Lemma redis_cmd_run argv (s : redis_state D) r d : redis_exec argv (rd_db s) = (r, d) → redis_cmd argv s = Ret (r, set_db d s).
Proof. intros E. unfold redis_cmd. by rewrite E. Qed.
Lemma bind_run {A B} (m : redis D A) (f : A → redis D B) s a s1 : m s = Ret (a, s1) → (m ≫= f) s = f a s1.
Proof. intros E. unfold mbind, redis_bind. by rewrite E. Qed.

(** A row under a name that is not taken gets the next number, its hash,
    and its name in the index. *)
Lemma create_named_run {A} p name (with_id : Z → A) hash z (s : redis_state D) :
  named_prefix p → rd_ctx s = true → counts (view (rd_db s) !! key_next_id p) z → 0 ≤ z < 2 ^ 63 - 1 →
  view (rd_db s) !! key_name p name = None → view (rd_db s) !! key_id p (z + 1) = None →
  hash (with_id (z + 1)) ≠ [] → Forall (λ fv : cstr * cstr, is_word fv.1 ∧ is_word fv.2) (hash (with_id (z + 1))) →
  (length (hash_text (key_id p (z + 1)%Z) (hash (with_id (z + 1)%Z))) < 1024)%nat →
  ∃ d l, create_named p name with_id hash s = Ret (Ok (with_id (z + 1)), set_db d s) ∧
    hash_set [] (hash (with_id (z + 1))) l ∧ view d !! key_id p (z + 1) = Some (VHash l) ∧
    view d !! key_name p name = Some (VString (id_txt (z + 1))).
Proof.
  intros Hp Hc Hz Hb Hname Hid Hne Hw Hlen. destruct (keys_differ p (z + 1) name Hp) as (D1 & D2 & D3 & D4).
  unfold create_named, connected. rewrite Hc. unfold redis_check_unique.
  erewrite bind_run; [|erewrite bind_run; [reflexivity|apply redis_cmd_read, exists_doc]]. rewrite Hname. cbn [redis_int then_ok].
  change (then_ok (if s32 0 =? 0 then SSO_OK else SSO_ERR_ALREADY_EXISTS) ?m s) with (m s).
  destruct (incr_doc (key_next_id p) (rd_db s)) as (r1 & d1 & E1 & _ & H1). destruct (H1 z Hz Hb) as [-> V1]. clear H1.
  unfold redis_next_id. erewrite bind_run; [|erewrite bind_run; [reflexivity|apply redis_cmd_run, E1]]. cbn [reply_integer].
  rewrite u64_small by lia.
  destruct (hash_set_writes (key_id p (z + 1)) (hash (with_id (z + 1))) (set_db d1 s)) as (d2 & l & E2 & Hl & V2); [| done..| |].
  { by apply key_id_word, named_row. }
  { cbn [set_db rd_db]. rewrite V1, lookup_insert_ne by congruence. done. }
  erewrite bind_run by exact E2. cbn [then_ok]. cbn [set_db rd_db] in V2.
  unfold redis_set_index. destruct (set_doc (key_name p name) (snprintf 64 (id_text (z + 1))) [] d2) as (r3 & d3 & E3 & V3 & _).
  specialize (V3 eq_refl). erewrite bind_run; [|erewrite bind_run; [reflexivity|apply redis_cmd_run, E3]].
  unfold redis_list_push. destruct (rpush_doc (p ++ (":list" : cstr)) (snprintf 64 (id_text (z + 1))) d3) as (r4 & d4 & E4 & V4).
  erewrite bind_run; [|erewrite bind_run; [reflexivity|apply redis_cmd_run, E4]].
  exists d4, l. split; [done|]. split; [done|].
  assert (V : ∀ k, k ≠ p ++ (":list" : cstr) → view d4 !! k = view d3 !! k).
  { intros k Hk. destruct V4 as [->|[x ->]]; [done|]. by rewrite lookup_insert_ne by congruence. }
  rewrite !V, V3, V2 by done. rewrite lookup_insert_ne by congruence. by rewrite !lookup_insert_eq.
Qed.

Lemma from_hash_found {A} k (f : list (cstr * cstr) → A) (s : redis_state D) l :
  rd_ctx s = true → view (rd_db s) !! k = Some (VHash l) → l ≠ [] →
  connected (from_hash k f) s = Ret (Ok (f (map (λ fv, (c_str fv.1, c_str fv.2)) l)), s).
Proof.
  intros Hc Hk Hl. unfold connected, from_hash. rewrite Hc. erewrite bind_run by apply redis_cmd_read, hgetall_doc.
  rewrite Hk. cbn [hgetall_reply strings]. destruct l as [|[a b] l]; [done|]. by rewrite <- hash_pairs_strings.
Qed.
Lemma id_txt_word z : is_word (id_txt z) ∧ atoll (id_txt z) = s64 z ∧ (length (id_txt z) ≤ 20)%nat.
Proof.
  pose proof (s64_bounds z). pose proof (print_lld_length (s64 z)). unfold id_txt. rewrite word_cut by (unfold id_text; lia).
  split_and!; [apply number_word|by apply atoll_print_lld|auto].
Qed.
Lemma time_text_word z : - 2 ^ 63 ≤ z < 2 ^ 63 → is_word (time_text z) ∧ atoll (time_text z) = z ∧ (length (time_text z) ≤ 20)%nat.
Proof.
  intros Hz. pose proof (print_lld_length z Hz). unfold time_text. rewrite word_cut by lia.
  split_and!; [apply number_word|by apply atoll_print_lld|done].
Qed.
Lemma get_indexed_found {A} key (get : Z → storage_op (redis_state D) A) (s : redis_state D) z :
  rd_ctx s = true → 0 ≤ z < 2 ^ 64 → view (rd_db s) !! key = Some (VString (id_txt z)) → get_indexed key get s = get z s.
Proof.
  intros Hc Hz Hk. unfold get_indexed, connected. rewrite Hc. erewrite bind_run by apply redis_cmd_read, get_doc.
  rewrite Hk. cbn [get_reply redis_reply_id]. destruct (id_txt_word z) as (Hw & Ha & _).
  by rewrite word_c_str, Ha, u64_s64, u64_small by done.
Qed.
Lemma hash_set_ne fields l : hash_set [] fields l → fields ≠ [] → l ≠ [].
Proof.
  intros [_ H] Hne ->. destruct fields as [|[f v] fields]; [done|]. specialize (H f). rewrite (reverse_cons fields (f, v)) in H.
  rewrite hash_lookup_app in H. destruct (hash_lookup f (reverse fields)); [done|]. unfold hash_lookup in H. simpl in H.
  by rewrite bool_decide_true in H.
Qed.

(** A role as the managers make it, with texts of one word. *)
Record role_fits (r : role_t) : Prop := {
  rf_name : is_word (r_name r) ∧ (length (r_name r) < 64)%nat;
  rf_description : is_word (r_description r) ∧ (length (r_description r) < 512)%nat;
  rf_status : - 2 ^ 31 ≤ role_status_int (r_status r) < 2 ^ 31 ∧ role_status_of (role_status_int (r_status r)) = r_status r;
  rf_parent : 0 ≤ r_parent_role_id r < 2 ^ 64;
  rf_created : - 2 ^ 63 ≤ r_created_at r < 2 ^ 63;
  rf_updated : - 2 ^ 63 ≤ r_updated_at r < 2 ^ 63
}.

Lemma enum_text_word z : - 2 ^ 31 ≤ z < 2 ^ 31 → is_word (enum_text z) ∧ atoi (enum_text z) = z ∧ (length (enum_text z) ≤ 15)%nat.
Proof.
  intros Hz. assert (Hl : (length (print_d z) ≤ 11)%nat).
  { unfold print_d, print_lld, print_dec, print_base. destruct (Z.ltb_spec z 0); cbn [length].
    - pose proof (print_dec_loop_length (S (Z.to_nat (Z.log2 (- z)))) 9 (- z) []). simpl in *. lia.
    - pose proof (print_dec_loop_length (S (Z.to_nat (Z.log2 z))) 9 z []). simpl in *. lia. }
  unfold enum_text. rewrite word_cut by lia. split_and!; [apply number_word|by apply atoi_print_lld|lia].
Qed.
Lemma lit_word (t : cstr) : word_test t = true → is_word t.
Proof. apply word_test_ok. Qed.

Lemma role_hash_words r z : role_fits r → Forall (λ fv : cstr * cstr, is_word fv.1 ∧ is_word fv.2) (role_hash (set_role_id r z)).
Proof.
  intros [[Hn _] [Hd _] [Hs _] _ Hc Hu]. unfold role_hash. repeat apply Forall_cons_2; try apply Forall_nil_2; split; try (by apply lit_word); cbn [fst snd set_role_id r_name r_description r_status r_created_at r_updated_at r_id r_parent_role_id]; try done.
  all: try apply id_txt_word; try (by apply time_text_word). by apply enum_text_word.
Qed.
Lemma role_hash_short r z :
  role_fits r → (length (hash_text (key_id "role" z) (role_hash (set_role_id r z))) < 1024)%nat.
Proof.
  intros [[_ Hn] [_ Hd] [Hs _] _ Hc Hu]. unfold hash_text, role_hash.
  cbn [map concat fst snd set_role_id r_name r_description r_status r_created_at r_updated_at r_id r_parent_role_id].
  destruct (id_txt_word z) as (_ & _ & L1). destruct (id_txt_word (r_parent_role_id r)) as (_ & _ & L2).
  destruct (time_text_word _ Hc) as (_ & _ & L3). destruct (time_text_word _ Hu) as (_ & _ & L4).
  destruct (enum_text_word (role_status_int (r_status r))) as (_ & _ & L5); [done|].
  assert (Lk : (length (key_id "role" z) ≤ 28)%nat).
  { rewrite key_id_text by (simpl; lia). rewrite length_app, length_take. pose proof (print_lld_length (s64 z) (s64_bounds z)).
    unfold id_text. change (length _) with 8%nat at 1. lia. }
  repeat (rewrite ?length_app; cbn [length]).
  repeat match goal with |- context [length (list_ascii_of_string ?t)] => let n := eval vm_compute in (length (list_ascii_of_string t)) in change (length (list_ascii_of_string t)) with n end.
  lia.
Qed.
Lemma role_hash_read r z l :
  role_fits r → hash_set [] (role_hash (set_role_id r z)) l →
  role_from_hash z (map (λ fv, (c_str fv.1, c_str fv.2)) l) = set_role_id r z.
Proof.
  intros Hr Hl. pose proof (role_hash_words r z Hr) as Hw. destruct Hr as [[_ Hn] [_ Hd] [Hs Hs'] Hp Hc Hu].
  unfold role_from_hash, text_field, id_field, int_field, ll_field. rewrite !(fresh_field _ _ _ Hl Hw).
  change (hash_lookup "name" _) with (Some (r_name r)). change (hash_lookup "description" _) with (Some (r_description r)).
  change (hash_lookup "parent_role_id" _) with (Some (id_txt (r_parent_role_id r))).
  change (hash_lookup "status" _) with (Some (enum_text (role_status_int (r_status r)))).
  change (hash_lookup "created_at" _) with (Some (time_text (r_created_at r))).
  change (hash_lookup "updated_at" _) with (Some (time_text (r_updated_at r))). cbv beta iota.
  destruct (id_txt_word (r_parent_role_id r)) as (_ & -> & _). rewrite u64_s64, u64_small by done.
  destruct (time_text_word _ Hc) as (_ & -> & _). destruct (time_text_word _ Hu) as (_ & -> & _).
  rewrite !sso_strlcpy_fits by lia.
  destruct (enum_text_word (role_status_int (r_status r))) as (_ & -> & _); [done|].
  unfold set_role_id. by rewrite Hs'.
Qed.

(** A role created under a free name is given the next number, and is
    read back as it was created, by its number and by its name. *)
Theorem redis_role_trip r z (s : redis_state D) :
  role_fits r → rd_ctx s = true → counts (view (rd_db s) !! key_next_id "role") z → 0 ≤ z < 2 ^ 63 - 1 →
  view (rd_db s) !! key_name "role" (r_name r) = None → view (rd_db s) !! key_id "role" (z + 1) = None →
  ∃ s', redis_role_create r s = Ret (Ok (set_role_id r (z + 1)), s') ∧
    redis_role_get_by_id (z + 1) s' = Ret (Ok (set_role_id r (z + 1)), s') ∧
    redis_role_get_by_name (r_name r) s' = Ret (Ok (set_role_id r (z + 1)), s').
Proof.
  intros Hr Hc Hz Hb Hn Hi.
  destruct (create_named_run "role" (r_name r) (set_role_id r) role_hash z s) as (d & l & E & Hl & V1 & V2); try done.
  { by left. } { by apply role_hash_words. } { by apply role_hash_short. }
  exists (set_db d s). split; [exact E|].
  assert (G : redis_role_get_by_id (z + 1) (set_db d s) = Ret (Ok (set_role_id r (z + 1)), set_db d s)).
  { unfold redis_role_get_by_id. rewrite (from_hash_found _ _ (set_db d s) l Hc V1); [by rewrite (role_hash_read r)|].
    by apply (hash_set_ne _ _ Hl). }
  split; [exact G|]. unfold redis_role_get_by_name. by rewrite (get_indexed_found _ _ _ (z + 1)) by (done || lia).
Qed.

(* ------------------------------------------------------------------ *)
(** ** Texts that are not one word *)

(** With an odd number of words after the key the server refuses. *)
Lemma pair_up_odd l : Nat.odd (length l) = true → pair_up l = None.
Proof.
  revert l. refine (fix IH l := _). destruct l as [|f [|v l]]; [done|done|]. intros H. cbn [pair_up]. by rewrite (IH l).
Qed.

Lemma odd_words_refused key fields (s : redis_state D) :
  is_word key → Forall (λ fv : cstr * cstr, is_word fv.1 ∧ (fv.2 = [] ∨ is_word fv.2)) fields →
  Nat.odd (length (flat_map words_of_field fields)) = true →
  ∃ d, redis_hash_set key fields s = Ret (SSO_ERR_STORAGE, set_db d s) ∧ view d = view (rd_db s).
Proof.
  intros Hk Hw Ho. unfold redis_hash_set. cbv zeta.
  destruct (1024 <=? _)%nat; [exists (rd_db s); split; [by destruct s|done]|].
  unfold mbind, redis_bind, redis_cmd_str. rewrite argv_doc.
  2: { apply no_format_spec, no_format_hash; [by apply word_no_format|]. unfold plain_fields. apply forallb_forall.
       intros fv Hin. rewrite Forall_forall in Hw. destruct (Hw fv) as [H1 [->|H2]]; [by apply list_elem_of_In|..];
         rewrite (word_no_format fv.1) by done; [done|by apply word_no_format]. }
  unfold hash_text. change ("HMSET " : cstr) with (("HMSET" : cstr) ++ [" "%char]). rewrite <- !app_assoc. cbn [app].
  rewrite words_of_cons by (by apply word_test_ok). rewrite words_of_rest by auto.
  change (Ret ?x ≫= ?f) with (f x). cbv beta. unfold redis_cmd.
  destruct Hk as [Hk _]. destruct key as [|c key]; [done|]. cbn [app].
  destruct (hmset_doc (c :: key) (flat_map words_of_field fields) (rd_db s)) as (r & d & -> & H).
  rewrite pair_up_odd in H by done. destruct H as ((e & ->) & Hd). by exists d.
Qed.

(** A role without a description cannot be created: the empty text is
    no word of the command, the server refuses the odd rest, and the caller
    gets [SSO_ERR_STORAGE]; the number that was drawn is lost. *)
Theorem redis_role_no_description r z (s : redis_state D) :
  r_description r = [] → is_word (r_name r) → - 2 ^ 31 ≤ role_status_int (r_status r) < 2 ^ 31 →
  - 2 ^ 63 ≤ r_created_at r < 2 ^ 63 → - 2 ^ 63 ≤ r_updated_at r < 2 ^ 63 →
  rd_ctx s = true → counts (view (rd_db s) !! key_next_id "role") z → 0 ≤ z < 2 ^ 63 - 1 →
  view (rd_db s) !! key_name "role" (r_name r) = None →
  ∃ s', redis_role_create r s = Ret (Err SSO_ERR_STORAGE, s') ∧
    view (rd_db s') = <[key_next_id "role" := VString (print_dec (z + 1))]> (view (rd_db s)).
Proof.
  intros Hd Hn Hs Hca Hua Hc Hz Hb Hfree. unfold redis_role_create, create_named, connected. rewrite Hc. unfold redis_check_unique.
  erewrite bind_run; [|erewrite bind_run; [reflexivity|apply redis_cmd_read, exists_doc]]. rewrite Hfree. cbn [redis_int then_ok].
  change (then_ok (if s32 0 =? 0 then SSO_OK else SSO_ERR_ALREADY_EXISTS) ?m s) with (m s).
  destruct (incr_doc (key_next_id "role") (rd_db s)) as (r1 & d1 & E1 & _ & H1). destruct (H1 z Hz Hb) as [-> V1]. clear H1.
  unfold redis_next_id. erewrite bind_run; [|erewrite bind_run; [reflexivity|apply redis_cmd_run, E1]]. cbn [reply_integer].
  rewrite u64_small by lia.
  destruct (odd_words_refused (key_id "role" (z + 1)) (role_hash (set_role_id r (z + 1))) (set_db d1 s)) as (d & E & V).
  - apply key_id_word. by right; left.
  - unfold role_hash. repeat apply Forall_cons_2; try apply Forall_nil_2; split; try (by apply lit_word);
      cbn [fst snd set_role_id r_name r_description r_status r_created_at r_updated_at r_id r_parent_role_id]; [right|right|by left|right..];
      first [done|apply id_txt_word|by apply time_text_word|by apply enum_text_word].
  - unfold role_hash, words_of_field.
    cbn [flat_map fst snd set_role_id r_name r_description r_status r_created_at r_updated_at r_id r_parent_role_id]. rewrite Hd.
    destruct (id_txt_word (z + 1)) as [[N1 _] _]. destruct (id_txt_word (r_parent_role_id r)) as [[N2 _] _].
    destruct (time_text_word _ Hca) as [[N3 _] _]. destruct (time_text_word _ Hua) as [[N4 _] _].
    destruct (enum_text_word _ Hs) as [[N5 _] _]. destruct Hn as [N6 _].
    destruct (id_txt (z + 1)), (id_txt (r_parent_role_id r)), (time_text (r_created_at r)), (time_text (r_updated_at r)),
      (enum_text (role_status_int (r_status r))), (r_name r); done.
  - erewrite bind_run by exact E. exists (set_db d s). split; [done|]. cbn [set_db rd_db] in *. by rewrite V.
Qed.

(** A user that is not there is found: the lookup by id never says
    [SSO_ERR_NOT_FOUND], it gives an empty user with the id asked for. *)
Theorem redis_unknown_user_found id (s : redis_state D) :
  rd_ctx s = true → view (rd_db s) !! key_id "user" id = None →
  redis_user_get_by_id id s = Ret (Ok (user_from_hash id []), s).
Proof.
  intros Hc Hk. unfold redis_user_get_by_id, connected, hgetall. rewrite Hc.
  erewrite bind_run by apply redis_cmd_read, hgetall_doc. by rewrite Hk.
Qed.

(* ------------------------------------------------------------------ *)
(** ** Revoked ids *)

Lemma bloom_add_contains jti b b' : bloom_add jti b ⊆ b' → bloom_might_contain jti b' = true.
Proof.
  intros H. unfold bloom_might_contain, bloom_add in *. apply andb_true_iff. split; apply bool_decide_eq_true; set_solver.
Qed.
Definition jti_ttl (now ex : Z) : Z := let ttl := s32 ((ex - now) / 1000) in if ttl <=? 0 then 1 else ttl.
Lemma jti_ttl_range now ex : 0 < jti_ttl now ex < 2 ^ 31.
Proof.
  unfold jti_ttl. cbv zeta. destruct (Z.leb_spec (s32 ((ex - now) / 1000)) 0); [lia|]. split; [done|].
  unfold s32. pose proof (Z.mod_pos_bound ((ex - now) / 1000 + 2 ^ 31) (2 ^ 32)). lia.
Qed.

(** The filter has no false negatives: once the revocation of a live
    token has returned, the token is seen as revoked in every later state
    that has kept the bits of the filter and the key, however many other
    ids were added; and no token is seen as revoked without its key. *)
Theorem redis_revoked_seen now jti ex (s : redis_state D) :
  rd_ctx s = true → now < ex →
  ∃ s', redis_jti_revoke now jti ex s = Ret (Ok (), s') ∧
    (∀ t, rd_ctx t = true → rd_bloom s' ⊆ rd_bloom t → view (rd_db t) !! key_jti jti = view (rd_db s') !! key_jti jti →
      redis_jti_is_revoked jti t = Ret (true, t)) ∧
    (∀ other t t', redis_jti_is_revoked other t = Ret (true, t') → is_Some (view (rd_db t) !! key_jti other)).
Proof.
  intros Hc Hx. unfold redis_jti_revoke, connected. rewrite Hc. rewrite (proj2 (Z.leb_gt ex now)) by lia. cbv zeta.
  change (if s32 ((ex - now) / 1000) <=? 0 then 1 else s32 ((ex - now) / 1000)) with (jti_ttl now ex).
  destruct (setex_doc (key_jti jti) (print_d (jti_ttl now ex)) "1" (rd_db s)) as (r & d & E & H & _).
  pose proof (jti_ttl_range now ex) as Ht. destruct H as [-> V]; [unfold print_d; rewrite atoll_print_lld; lia|].
  destruct (publish_doc "sso:revocations" jti d) as (r2 & d2 & E2 & V2).
  erewrite bind_run by apply redis_cmd_run, E. cbn [redis_ok].
  erewrite bind_run by reflexivity. erewrite bind_run by apply redis_cmd_run, E2.
  eexists. split; [reflexivity|]. split.
  - intros t Htc Hb Hk. cbn [rd_bloom set_db rd_db rd_ctx] in Hb, Hk. unfold redis_jti_is_revoked. rewrite Htc. cbn [negb].
    rewrite (bloom_add_contains jti _ _ Hb). cbn [negb]. rewrite (redis_cmd_read _ t _ (exists_doc _ _)).
    rewrite Hk, V2, V, lookup_insert_eq. done.
  - intros other t t' H. unfold redis_jti_is_revoked in H. destruct (negb (rd_ctx t)); [done|].
    destruct (negb _); [done|]. rewrite (redis_cmd_read _ t _ (exists_doc _ _)) in H.
    change (Ret ?x ≫= ?f) with (f x) in H. cbv beta iota in H. destruct (view (rd_db t) !! key_jti other); [by eexists|done].
Qed.

(** A process that has just started sees no token as revoked, whatever
    keys of revoked ids the server holds: its filter is empty. *)
Theorem redis_restart_forgets jti (d : D) :
  redis_jti_is_revoked jti {| rd_ctx := true; rd_db := d; rd_bloom := ∅ |} =
  Ret (false, {| rd_ctx := true; rd_db := d; rd_bloom := ∅ |}).
Proof. unfold redis_jti_is_revoked, bloom_might_contain. cbn [rd_ctx rd_bloom negb]. by rewrite !bool_decide_false by set_solver. Qed.
End Rows.

(* ------------------------------------------------------------------ *)
(** ** Witnesses *)

Lemma role1_fits : role_fits role1.
Proof.
  split; try (by vm_compute); try (by split; vm_compute; congruence).
  - split; [by apply word_test_ok|by apply Nat.ltb_lt].
  - split; [by apply word_test_ok|by apply Nat.ltb_lt].
Qed.

Lemma redis_role_trip_witness :
  ∃ s', redis_role_create role1 (ref_state ∅) = Ret (Ok (set_role_id role1 1), s') ∧
    redis_role_get_by_id 1 s' = Ret (Ok (set_role_id role1 1), s') ∧
    redis_role_get_by_name "admin" s' = Ret (Ok (set_role_id role1 1), s').
Proof. apply (redis_role_trip (λ d, d) role1 0 (ref_state ∅)); [apply role1_fits|done|done|lia|done|done]. Defined.

Definition role2 : role_t :=
  {| r_id := 0; r_name := "admin"; r_description := []; r_parent_role_id := 0; r_status := ROLE_STATUS_ACTIVE;
     r_created_at := 1000; r_updated_at := 2000 |}.
Lemma redis_role_no_description_witness :
  ∃ s', redis_role_create role2 (ref_state ∅) = Ret (Err SSO_ERR_STORAGE, s') ∧
    rd_db s' = <[key_next_id "role" := VString (print_dec (0 + 1))]> ∅.
Proof.
  apply (redis_role_no_description (λ d, d) role2 0 (ref_state ∅)); try done; try lia; try (by apply word_test_ok);
    unfold role2; cbn [r_created_at r_updated_at r_status role_status_int]; lia.
Defined.

Lemma redis_unknown_user_found_witness :
  redis_user_get_by_id 5 (ref_state ∅) = Ret (Ok (user_from_hash 5 []), ref_state ∅).
Proof. by apply (redis_unknown_user_found (λ d, d)). Defined.

Lemma redis_revoked_seen_witness :
  ∃ s', redis_jti_revoke 5 "a" 9 (ref_state ∅) = Ret (Ok (), s') ∧
    (∀ t, rd_ctx t = true → rd_bloom s' ⊆ rd_bloom t → rd_db t !! key_jti "a" = rd_db s' !! key_jti "a" →
      redis_jti_is_revoked "a" t = Ret (true, t)) ∧
    (∀ other t t', redis_jti_is_revoked other t = Ret (true, t') → is_Some (rd_db t !! key_jti other)).
Proof. apply (redis_revoked_seen (λ d, d) 5 "a" 9 (ref_state ∅)); [done|lia]. Defined.

(** A user without a phone and a secret: the fields are shifted, the
    password is not stored, and the phone reads [password_hash]. *)
Definition user1 : user_t :=
  {| u_id := 0; u_username := "eve"; u_phone := []; u_password_hash := "H"; u_email := "e"; u_display_name := "d";
     u_status := USER_STATUS_ACTIVE; u_created_at := 1; u_updated_at := 1; u_attributes := "{}"; u_mfa_enabled := 0;
     u_mfa_secret := []; u_password_set_at := 0 |}.
Definition created_then_read : option (cstr * cstr) :=
  match redis_user_create user1 (ref_state ∅) with
  | Ret (Ok _, s) =>
      match redis_user_get_by_name "eve" s with Ret (Ok u, _) => Some (u_password_hash u, u_phone u) | _ => None end
  | _ => None
  end.

(** Creation of such a user succeeds on the server above, and the user
    is read back with no password and a wrong phone. *)
Example redis_user_shifted : created_then_read = Some ([], "password_hash" : cstr).
Proof. vm_compute. reflexivity. Qed.
