(* ===== verification/RedisConn.v ===== *)
(** * Connections of the Redis backend (src/storage_redis.c)

    The address a DSN names, opening and closing the backend, and the pool
    of connections for the threads of the server.  Connections are
    pointers of the client library, a class over its world. *)

From S2P Require Import Prelude CLib CNum Types Storage Printf Http Redis.

(* ------------------------------------------------------------------ *)
(** ** The address *)

Record dsn_t := { dn_sentinel : bool; dn_host : cstr; dn_port : Z; dn_db : Z; dn_master : cstr }.

(** A text up to a character and, when the character is there, what
    follows it. *)
Definition cut (c : ascii) (s : cstr) : cstr * option cstr :=
  match strchr s c with Some i => (take i s, Some (drop (S i) s)) | None => (s, None) end.

Definition after_at (p : cstr) : cstr := match cut "@" p with (_, Some r) => r | (_, None) => p end.
Definition host_port (buf : cstr) : cstr * Z :=
  match cut ":" buf with (h, Some p) => (snprintf 256 h, atoi p) | (h, None) => (snprintf 256 h, 6379) end.
Definition db_of (buf : cstr) : cstr * Z := match cut "/" buf with (b, Some d) => (b, atoi d) | (b, None) => (b, 0) end.
Definition master_of (query : option cstr) : cstr :=
  match query with
  | Some q =>
      match strstr q "master=" with
      | Some i => (cut "&" (snprintf 64 (drop (i + 7) q))).1
      | None => "mymaster"
      end
  | None => "mymaster"
  end.

Definition parse_dsn (dsn : option cstr) : dsn_t :=
  match dsn with
  | None | Some [] => {| dn_sentinel := false; dn_host := "127.0.0.1"; dn_port := 6379; dn_db := 0; dn_master := "mymaster" |}
  | Some dsn =>
      if starts_with "redis-sentinel://" dsn then
        let '(buf, query) := cut "?" (snprintf 256 (after_at (drop 17 dsn))) in
        let '(buf, db) := db_of buf in
        let '(host, port) := host_port buf in
        {| dn_sentinel := true; dn_host := host; dn_port := port; dn_db := db; dn_master := master_of query |}
      else if starts_with "redis://" dsn then
        let '(buf, db) := db_of (snprintf 256 (after_at (drop 8 dsn))) in
        let '(host, port) := host_port buf in
        {| dn_sentinel := false; dn_host := host; dn_port := port; dn_db := db; dn_master := "mymaster" |}
      else
        let '(host, port) := host_port (snprintf 256 dsn) in
        {| dn_sentinel := false; dn_host := host; dn_port := port; dn_db := 0; dn_master := "mymaster" |}
  end.

(* ------------------------------------------------------------------ *)
(** ** The client library *)

(** [redisConnect] gives NULL or a connection, which may carry an error. *)
Class Hiredis (W : Type) := {
  redisConnect : cstr → Z → W → option Z * W;
  conn_err : Z → W → bool;
  redisCommand : Z → list cstr → W → option redis_reply * W;
  redisFree : Z → W → W
}.

Definition REDIS_POOL_MAX : nat := 16.

(** The handle; [calloc] makes it zero. *)
Record redis_priv_t := {
  pv_ctx : option Z; pv_host : cstr; pv_port : Z; pv_db : Z; pv_pool : list (option Z * bool); pv_sub_ctx : option Z;
  pv_sub_running : bool
}.
Definition new_priv : redis_priv_t :=
  {| pv_ctx := None; pv_host := []; pv_port := 0; pv_db := 0; pv_pool := []; pv_sub_ctx := None; pv_sub_running := false |}.
Definition with_pool (pool : list (option Z * bool)) (p : redis_priv_t) : redis_priv_t :=
  {| pv_ctx := pv_ctx p; pv_host := pv_host p; pv_port := pv_port p; pv_db := pv_db p; pv_pool := pool;
     pv_sub_ctx := pv_sub_ctx p; pv_sub_running := pv_sub_running p |}.
Definition with_conns (ctx sub : option Z) (running : bool) (p : redis_priv_t) : redis_priv_t :=
  {| pv_ctx := ctx; pv_host := pv_host p; pv_port := pv_port p; pv_db := pv_db p; pv_pool := pv_pool p;
     pv_sub_ctx := sub; pv_sub_running := running |}.

Section Connections.
Context {W : Type} `{!Hiredis W}.

Definition select (c db : Z) (w : W) : option redis_reply * W := redisCommand c ["SELECT" : cstr; print_d db] w.
Definition free_opt (c : option Z) (w : W) : W := match c with Some c => redisFree c w | None => w end.

(* ------------------------------------------------------------------ *)
(** ** Opening and closing *)

(** The master a sentinel names; its texts may be NULL. *)
Definition resolve_master (d : dsn_t) (w : W) : outcome (result (cstr * Z) * W) :=
  if dn_sentinel d then
    let '(c, w) := redisConnect (dn_host d) (dn_port d) w in
    match c with
    | None => Ret (Err SSO_ERR_STORAGE, w)
    | Some c =>
        if conn_err c w then Ret (Err SSO_ERR_STORAGE, redisFree c w)
        else
          let '(r, w) := redisCommand c ["SENTINEL" : cstr; "get-master-addr-by-name" : cstr; dn_master d] w in
          match r with
          | Some (REDIS_REPLY_ARRAY [h; p]) =>
              match reply_str h, reply_str p with
              | Some h, Some p => Ret (Ok (snprintf 256 h, atoi p), redisFree c w)
              | _, _ => Crash
              end
          | _ => Ret (Err SSO_ERR_STORAGE, redisFree c w)
          end
    end
  else Ret (Ok (dn_host d, dn_port d), w).

(** The connection of revocations; without it the backend opens too. *)
Definition open_sub (host : cstr) (port db : Z) (w : W) : option Z * bool * W :=
  let '(c, w) := redisConnect host port w in
  match c with
  | None => (None, false, w)
  | Some c =>
      if conn_err c w then (None, false, redisFree c w)
      else (Some c, true, if 0 <? db then (select c db w).2 else w)
  end.

(** [pv_host], [pv_port] and [pv_db] are left as they are. *)
Definition redis_open (dsn : option cstr) (p : redis_priv_t) (w : W) : outcome (sso_error_t * redis_priv_t * W) :=
  let d := parse_dsn dsn in
  '(r, w) ← resolve_master d w;
  match r with
  | Err e => Ret (e, p, w)
  | Ok (host, port) =>
      let '(c, w) := redisConnect host port w in
      match c with
      | None => Ret (SSO_ERR_STORAGE, with_conns None (pv_sub_ctx p) (pv_sub_running p) p, w)
      | Some c =>
          let failed w := Ret (SSO_ERR_STORAGE, with_conns None (pv_sub_ctx p) (pv_sub_running p) p, redisFree c w) in
          if conn_err c w then failed w
          else
            let '(r, w) := if 0 <? dn_db d then select c (dn_db d) w else (Some (REDIS_REPLY_STATUS "OK"), w) in
            match r with
            | None | Some (REDIS_REPLY_ERROR _) => failed w
            | Some _ =>
                let '(sub, running, w) := open_sub host port (dn_db d) w in
                Ret (SSO_OK, with_pool [] (with_conns (Some c) sub running p), w)
            end
      end
  end.

(** The handle is freed; connections of the pool are not. *)
Definition redis_close (p : redis_priv_t) (w : W) : W :=
  let w := if pv_sub_running p then free_opt (pv_sub_ctx p) w else w in
  free_opt (pv_ctx p) w.

(* ------------------------------------------------------------------ *)
(** ** The pool *)

(** What a look at the pool under the lock gives. *)
Inductive acquired := Got (c : option Z) | Wait.

(** A free connection, made anew when it carries an error. *)
Definition reuse (p : redis_priv_t) (slot : option Z) (w : W) : outcome (option Z * W) :=
  match slot with
  | None => Crash
  | Some c =>
      if conn_err c w then
        let '(c', w) := redisConnect (pv_host p) (pv_port p) (redisFree c w) in
        if 0 <? pv_db p then
          match c' with
          | None => Crash
          | Some x => Ret (c', if conn_err x w then w else (select x (pv_db p) w).2)
          end
        else Ret (c', w)
      else Ret (Some c, w)
  end.

(** The loop over the slots. *)
Fixpoint pool_scan (p : redis_priv_t) (slots : list (option Z * bool)) (w : W) :
    outcome (option (option Z * list (option Z * bool)) * W) :=
  match slots with
  | [] => Ret (None, w)
  | (c, in_use) :: slots =>
      if in_use : bool then
        '(r, w) ← pool_scan p slots w;
        Ret (match r with Some (g, rest) => Some (g, (c, true) :: rest) | None => None end, w)
      else
        '(c', w) ← reuse p c w;
        Ret (Some (c', (c', true) :: slots), w)
  end.

Definition redis_pool_acquire (p : redis_priv_t) (w : W) : outcome (acquired * redis_priv_t * W) :=
  '(r, w) ← pool_scan p (pv_pool p) w;
  match r with
  | Some (c, pool) => Ret (Got c, with_pool pool p, w)
  | None =>
      if (length (pv_pool p) <? REDIS_POOL_MAX)%nat then
        let '(c, w) := redisConnect (pv_host p) (pv_port p) w in
        match c with
        | None => Ret (Got None, p, w)
        | Some x =>
            if conn_err x w then Ret (Got None, p, redisFree x w)
            else
              Ret (Got c, with_pool (pv_pool p ++ [(c, true)]) p, if 0 <? pv_db p then (select x (pv_db p) w).2 else w)
        end
      else Ret (Wait, p, w)
  end.

(** The first slot with the connection is free again. *)
Fixpoint release_slot (c : Z) (slots : list (option Z * bool)) : list (option Z * bool) :=
  match slots with
  | [] => []
  | (c', b) :: slots => if bool_decide (c' = Some c) then (c', false) :: slots else (c', b) :: release_slot c slots
  end.
Definition redis_pool_release (c : Z) (p : redis_priv_t) : redis_priv_t := with_pool (release_slot c (pv_pool p)) p.

(** The connection a thread uses. *)
Definition redis_get_priv (tls : option Z) (p : redis_priv_t) : option Z := match tls with Some c => Some c | None => pv_ctx p end.

(* ------------------------------------------------------------------ *)
(** ** Threads *)

Record conn_state := { cs_priv : redis_priv_t; cs_tls : gmap nat Z; cs_world : W }.

(** A step of a thread: a look at the pool by a thread without a
    connection (one that has to wait looks again), the end of a request,
    or commands on connections. *)
Inductive conn_step : conn_state → conn_state → Prop :=
| step_init s t c p w :
    cs_tls s !! t = None → redis_pool_acquire (cs_priv s) (cs_world s) = Ret (Got c, p, w) →
    conn_step s {| cs_priv := p; cs_tls := match c with Some c => <[t := c]> (cs_tls s) | None => cs_tls s end; cs_world := w |}
| step_wait s t p w :
    cs_tls s !! t = None → redis_pool_acquire (cs_priv s) (cs_world s) = Ret (Wait, p, w) →
    conn_step s {| cs_priv := p; cs_tls := cs_tls s; cs_world := w |}
| step_cleanup s t c :
    cs_tls s !! t = Some c →
    conn_step s {| cs_priv := redis_pool_release c (cs_priv s); cs_tls := delete t (cs_tls s); cs_world := cs_world s |}
| step_command s c argv :
    conn_step s {| cs_priv := cs_priv s; cs_tls := cs_tls s; cs_world := (redisCommand c argv (cs_world s)).2 |}.

Definition conn_reachable (p : redis_priv_t) (w : W) (s : conn_state) : Prop :=
  rtc conn_step {| cs_priv := p; cs_tls := ∅; cs_world := w |} s.
End Connections.
Arguments conn_state W : clear implicits.

(* ------------------------------------------------------------------ *)
(** ** What threads may rely on *)

(** Documented behaviour of the library: a new connection is none of those
    in use, and commands open and close none. *)
Class HiredisLaws {W : Type} `{!Hiredis W} (live : W → gset Z) : Prop := {
  connect_doc h p w : match redisConnect h p w with
                      | (Some c, w') => c ∉ live w ∧ live w' = {[c]} ∪ live w
                      | (None, w') => live w' = live w
                      end;
  free_doc c w : live (redisFree c w) = live w ∖ {[c]};
  command_doc c argv w : live (redisCommand c argv w).2 = live w
}.

Section Exclusive.
Context {W : Type} `{!Hiredis W} (live : W → gset Z) `{!HiredisLaws live}.

Definition conns (pool : list (option Z * bool)) : list Z := omap fst pool.

Lemma select_live c db w : live (select c db w).2 = live w.
Proof. apply command_doc. Qed.

(** A reused slot: the connection it held, or a new one. *)
Lemma reuse_spec p slot w c w' :
  reuse p slot w = Ret (c, w') →
  ∃ c0, slot = Some c0 ∧
    ((c = Some c0 ∧ live w' = live w) ∨
     (live w' = live w ∖ {[c0]} ∧ c = None) ∨
     ∃ x, c = Some x ∧ x ∉ live w ∖ {[c0]} ∧ live w' = {[x]} ∪ (live w ∖ {[c0]})).
Proof.
  destruct slot as [c0|]; [|done]. cbn [reuse]. intros E. exists c0. split; [done|].
  destruct (conn_err c0 w); [|injection E as <- <-; by left].
  pose proof (connect_doc (pv_host p) (pv_port p) (redisFree c0 w)) as H.
  destruct (redisConnect (pv_host p) (pv_port p) (redisFree c0 w)) as [[x|] w1]; rewrite free_doc in H.
  - right. right. destruct H as [Hx Hl]. destruct (0 <? pv_db p); injection E as <- <-; exists x; [|done].
    split_and!; [done|done|]. destruct (conn_err x w1); [done|]. by rewrite select_live.
  - right. left. destruct (0 <? pv_db p); [done|]. by injection E as <- <-.
Qed.

(** The scan changes one slot, which was free, and puts it in use. *)
Lemma pool_scan_spec p slots w r w' :
  pool_scan p slots w = Ret (r, w') →
  match r with
  | None => live w' = live w ∧ w' = w
  | Some (c, slots') => ∃ l c0 m, slots = l ++ (Some c0, false) :: m ∧ slots' = l ++ (c, true) :: m ∧
      ((c = Some c0 ∧ live w' = live w) ∨ (live w' = live w ∖ {[c0]} ∧ c = None) ∨
       ∃ x, c = Some x ∧ x ∉ live w ∖ {[c0]} ∧ live w' = {[x]} ∪ (live w ∖ {[c0]}))
  end.
Proof.
  revert r. induction slots as [|[c b] slots IH]; intros r E; cbn [pool_scan] in E; [by injection E as <- <-|].
  destruct b.
  - destruct (pool_scan p slots w) as [[r1 w1]| |] eqn:E1; [|done|done]. cbn in E. injection E as <- <-.
    specialize (IH _ eq_refl). destruct r1 as [[g rest]|]; [|done].
    destruct IH as (l & c0 & m & -> & -> & H). by exists ((c, true) :: l), c0, m.
  - destruct (reuse p c w) as [[c1 w1]| |] eqn:E1; [|done|done]. cbn in E. injection E as <- <-.
    destruct (reuse_spec _ _ _ _ _ E1) as (c0 & -> & H). by exists [], c0, slots.
Qed.

Lemma conns_app l m : conns (l ++ m) = conns l ++ conns m.
Proof. apply omap_app. Qed.
Lemma conns_elem c b pool : (Some c, b) ∈ pool → c ∈ conns pool.
Proof. intros H. apply list_elem_of_omap. by exists (Some c, b). Qed.

(** Pools: slots hold different connections, which are open. *)
Definition pool_ok (pool : list (option Z * bool)) (w : W) : Prop :=
  NoDup (conns pool) ∧ (∀ c, c ∈ conns pool → c ∈ live w) ∧ (length pool ≤ REDIS_POOL_MAX)%nat.

(** What a look does: slots in use stay, and the connection it gives was
    in no slot in use. *)
Definition taken (c : option Z) (pool pool' : list (option Z * bool)) : Prop :=
  (∀ x, (Some x, true) ∈ pool → (Some x, true) ∈ pool') ∧
  match c with Some x => (Some x, true) ∈ pool' ∧ (Some x, true) ∉ pool | None => True end.

Lemma conns_middle l c b m : conns (l ++ (Some c, b) :: m) = conns l ++ c :: conns m.
Proof. by rewrite conns_app. Qed.

Lemma slot_taken l c0 m c w w' :
  pool_ok (l ++ (Some c0, false) :: m) w →
  ((c = Some c0 ∧ live w' = live w) ∨ (live w' = live w ∖ {[c0]} ∧ c = None) ∨
   ∃ x, c = Some x ∧ x ∉ live w ∖ {[c0]} ∧ live w' = {[x]} ∪ (live w ∖ {[c0]})) →
  pool_ok (l ++ (c, true) :: m) w' ∧ taken c (l ++ (Some c0, false) :: m) (l ++ (c, true) :: m).
Proof.
  intros (Hnd & Hlive & Hsize) H. rewrite conns_middle in Hnd, Hlive.
  pose proof Hnd as Hp. rewrite <- Permutation_middle in Hp. apply NoDup_cons in Hp as [Hc0 Hp].
  assert (Hd : ∀ x, x ∈ conns l ++ conns m → x ∈ live w ∖ {[c0]}).
  { intros x Hx. apply elem_of_difference. split; [apply Hlive; set_solver|]. by intros ->%elem_of_singleton. }
  assert (Hkeep : ∀ x, (Some x, true) ∈ l ++ (Some c0, false) :: m → (Some x, true) ∈ l ++ (c, true) :: m ∧ x ∈ conns l ++ conns m).
  { intros x Hx. assert (Hx' : (Some x, true) ∈ l ++ m) by (rewrite elem_of_app, elem_of_cons in Hx; rewrite elem_of_app; naive_solver).
    split; [set_solver|]. rewrite <- conns_app. by apply (conns_elem x true). }
  rewrite length_app in Hsize. simpl in Hsize.
  destruct H as [[-> Hl]|[[Hl ->]|(x & -> & Hx & Hl)]]; unfold pool_ok; rewrite ?conns_middle, ?length_app; cbn [length]; rewrite Hl.
  - split; [done|]. split; [intros; by apply Hkeep|]. split; [set_solver|]. intros Hin. apply Hc0. by apply Hkeep.
  - rewrite conns_app. change (conns ((None, true) :: m)) with (conns m). split; [split_and!; [done|exact Hd|done]|]. split; [intros; by apply Hkeep|done].
  - split; [split_and!; [|intros y Hy; set_solver|done]|].
    + rewrite <- Permutation_middle. constructor; [|done]. intros Hin. apply Hx. by apply Hd.
    + split; [intros; by apply Hkeep|]. split; [set_solver|]. intros Hin. apply Hx, Hd. by apply Hkeep.
Qed.
Lemma slot_added pool x w w' :
  pool_ok pool w → x ∉ live w → live w' = {[x]} ∪ live w → (length pool < REDIS_POOL_MAX)%nat →
  pool_ok (pool ++ [(Some x, true)]) w' ∧ taken (Some x) pool (pool ++ [(Some x, true)]).
Proof.
  intros (Hnd & Hlive & Hsize) Hx Hl Hs. unfold pool_ok. rewrite conns_middle, length_app, Hl. cbn [length]. split.
  - split_and!; [|intros y Hy; set_solver|lia]. rewrite <- Permutation_middle, app_nil_r. constructor; [|done]. by intros H%Hlive.
  - split; [set_solver|]. split; [set_solver|]. intros H%conns_elem%Hlive. done.
Qed.

Lemma acquire_spec p w c p' w' :
  pool_ok (pv_pool p) w → redis_pool_acquire p w = Ret (Got c, p', w') →
  pool_ok (pv_pool p') w' ∧ taken c (pv_pool p) (pv_pool p').
Proof.
  intros Hp E. unfold redis_pool_acquire in E.
  destruct (pool_scan _ _ _) as [[r w1]| |] eqn:Es; [|done|done]. change (Ret ?x ≫= ?f) with (f x) in E. cbv beta iota in E. apply pool_scan_spec in Es.
  destruct r as [[c1 pool]|].
  - injection E as <- <- <-. destruct Es as (l & c0 & m & Ep & -> & H). rewrite Ep in *. by apply (slot_taken _ _ _ _ w).
  - destruct Es as [_ ->]. destruct (Nat.ltb_spec (length (pv_pool p)) REDIS_POOL_MAX) as [Hlt|]; [|done].
    pose proof (connect_doc (pv_host p) (pv_port p) w) as Hc.
    destruct (redisConnect (pv_host p) (pv_port p) w) as [[x|] w2].
    + destruct Hc as [Hx Hl]. destruct (conn_err x w2); injection E as <- <- <-.
      * split; [|done]. destruct Hp as (H1 & H2 & H3). split_and!; [done| |done]. intros y Hy. rewrite free_doc, Hl. set_solver.
      * apply (slot_added _ _ w); [done|done| |done]. destruct (0 <? pv_db p); [rewrite select_live|]; done.
    + injection E as <- <- <-. split; [|done]. unfold pool_ok. by rewrite Hc.
Qed.

Lemma release_spec c pool :
  conns (release_slot c pool) = conns pool ∧ length (release_slot c pool) = length pool ∧
  ∀ x, x ≠ c → (Some x, true) ∈ pool → (Some x, true) ∈ release_slot c pool.
Proof.
  induction pool as [|[c' b] pool (IH1 & IH2 & IH3)]; [done|]. cbn [release_slot]. case_bool_decide as E.
  - subst c'. split_and!; [done|done|]. intros x Hx. rewrite !elem_of_cons. naive_solver.
  - split_and!.
    + unfold conns in *. cbn. by rewrite IH1.
    + cbn. by rewrite IH2.
    + intros x Hx. rewrite !elem_of_cons. naive_solver.
Qed.

Record conn_inv (s : conn_state W) : Prop := {
  ci_pool : pool_ok (pv_pool (cs_priv s)) (cs_world s);
  ci_held : ∀ t c, cs_tls s !! t = Some c → (Some c, true) ∈ pv_pool (cs_priv s);
  ci_one : ∀ t u c, cs_tls s !! t = Some c → cs_tls s !! u = Some c → t = u
}.

Lemma conn_step_inv s s' : conn_inv s → conn_step s s' → conn_inv s'.
Proof.
  intros [Hp Hheld Hone] Hs. destruct Hs as [s t c p w Ht E|s t p w Ht E|s t c Ht|s c argv].
  - destruct (acquire_spec _ _ _ _ _ Hp E) as [Hp' [Hk Hx]]. destruct c as [x|]; split; cbn [cs_priv cs_tls cs_world]; try done; try (by eauto).
    + intros u c. destruct (decide (u = t)) as [->|]; [rewrite lookup_insert_eq; intros [= <-]; apply Hx|].
      rewrite lookup_insert_ne by done. eauto.
    + destruct Hx as [_ Hx]. intros u v c. destruct (decide (u = t)) as [->|], (decide (v = t)) as [->|];
        rewrite ?lookup_insert_eq, ?(lookup_insert_ne _ t) by done; [done|intros [= <-] Hc|intros Hc [= <-]|eauto]; destruct Hx; eauto.
  - unfold redis_pool_acquire in E. destruct (pool_scan _ _ _) as [[r w1]| |] eqn:Es; [|done|done]. change (Ret ?x ≫= ?f) with (f x) in E. cbv beta iota in E.
    apply pool_scan_spec in Es. destruct r as [[]|]; [done|]. destruct Es as [_ ->].
    destruct (_ <? _)%nat; [by destruct (redisConnect _ _ _) as [[x|] w2]; [destruct (conn_err x w2)|]|]. by injection E as <- <-.
  - destruct (release_spec c (pv_pool (cs_priv s))) as (E1 & E2 & E3). destruct Hp as (H1 & H2 & H3).
    split; cbn [cs_priv cs_tls cs_world redis_pool_release with_pool pv_pool].
    + unfold pool_ok. by rewrite E1, E2.
    + intros u c' [Hu Hc]%lookup_delete_Some. apply E3; [|eauto]. intros ->. by destruct (Hone _ _ _ Ht Hc).
    + intros u v c' [_ Hu]%lookup_delete_Some [_ Hv]%lookup_delete_Some. eauto.
  - split; cbn [cs_priv cs_tls cs_world]; [|done|done]. unfold pool_ok. by rewrite command_doc.
Qed.

(** C33. However the threads of the server take and give back connections, and
    whatever they send on them, no connection is used by two threads at
    once, each is open, and there are at most sixteen. *)
Theorem pool_exclusive p w s :
  pv_pool p = [] → conn_reachable p w s →
  (∀ t u c, cs_tls s !! t = Some c → cs_tls s !! u = Some c → t = u) ∧
  (∀ t c, cs_tls s !! t = Some c → c ∈ live (cs_world s)) ∧
  (length (pv_pool (cs_priv s)) ≤ 16)%nat.
Proof.
  intros Hp Hr. assert (H0 : conn_inv {| cs_priv := p; cs_tls := ∅; cs_world := w |}).
  { split; cbn [cs_priv cs_tls cs_world]; [|set_solver|set_solver]. rewrite Hp. split_and!; [constructor|set_solver|unfold REDIS_POOL_MAX; simpl; lia]. }
  unfold conn_reachable in Hr.
  assert (Hi : conn_inv s).
  { clear Hp. remember {| cs_priv := p; cs_tls := ∅; cs_world := w |} as s0. clear Heqs0. induction Hr; [done|]. eauto using conn_step_inv. }
  destruct Hi as [(H1 & H2 & H3) Hh Ho]. split_and!; [done| |done]. intros t c Hc. apply H2, (conns_elem c true), (Hh t c Hc).
Qed.
End Exclusive.

(* ------------------------------------------------------------------ *)
(** ** The threads of the program *)

Section Shared.
Context {W : Type} `{!Hiredis W}.

Lemma open_spec dsn (w : W) p w' :
  redis_open dsn new_priv w = Ret (SSO_OK, p, w') →
  (∃ c, pv_ctx p = Some c) ∧ pv_host p = [] ∧ pv_port p = 0 ∧ pv_pool p = [].
Proof.
  unfold redis_open. cbv zeta. destruct (resolve_master _ w) as [[[[host port]|e] w1]| |] eqn:Em; [| |done|done].
  2: { change (Ret ?x ≫= ?f) with (f x). cbv beta iota. intros [= -> <- <-]. exfalso. revert Em. unfold resolve_master.
       destruct (dn_sentinel _); [|done]. destruct (redisConnect _ _ _) as [[c|] w2]; [|done]. destruct (conn_err c w2); [done|].
       destruct (redisCommand _ _ _) as [r w3]. destruct r as [[|l| | | |]|]; try done. destruct l as [|h [|q [|]]]; try done.
       destruct (reply_str h), (reply_str q); done. }
  change (Ret ?x ≫= ?f) with (f x). cbv beta iota. destruct (redisConnect host port w1) as [[c|] w2]; [|done].
  destruct (conn_err c w2); [done|].
  destruct (if 0 <? _ then select c _ w2 else _) as [r w3].
  destruct r as [[]|]; try done; destruct (open_sub _ _ _ _) as [[sub running] w4]; intros [= <- <-]; eauto.
Qed.

(** The pool knows no address: the ones parsed are not kept. Once the
    library refuses to connect to the empty host, no thread ever gets a
    connection of its own, and all use the one that was opened. *)
Theorem threads_share_connection dsn (w : W) p w' s :
  redis_open dsn new_priv w = Ret (SSO_OK, p, w') →
  (∀ w, match redisConnect [] 0 w with (Some c, w2) => conn_err c w2 = true | (None, _) => True end) →
  conn_reachable p w' s →
  ∃ c, pv_ctx p = Some c ∧ ∀ t, redis_get_priv (cs_tls s !! t) (cs_priv s) = Some c.
Proof.
  intros Ho Hh Hr. destruct (open_spec _ _ _ _ Ho) as ([c Hc] & H1 & H2 & H3). exists c. split; [done|].
  assert (Hi : cs_tls s = ∅ ∧ cs_priv s = p).
  { unfold conn_reachable in Hr. remember {| cs_priv := p; cs_tls := ∅; cs_world := w' |} as s0 eqn:E0.
    assert (H0 : cs_tls s0 = ∅ ∧ cs_priv s0 = p) by (by rewrite E0). clear E0. induction Hr as [|s0 s1 s2 Hs _ IH]; [done|].
    apply IH. destruct H0 as [Et Ep]. destruct Hs as [s0 t a q v Ht E|s0 t q v Ht E|s0 t a Ht|s0 a argv]; cbn [cs_tls cs_priv].
    - rewrite Ep in E. unfold redis_pool_acquire in E. rewrite H3 in E. cbn [pool_scan] in E.
      change (Ret ?x ≫= ?f) with (f x) in E. cbv beta iota in E. change ((_ <? _)%nat) with true in E. cbv iota in E.
      rewrite H1, H2 in E. specialize (Hh (cs_world s0)). destruct (redisConnect [] 0 (cs_world s0)) as [[x|] v2].
      + rewrite Hh in E. by injection E as <- <- <-.
      + by injection E as <- <- <-.
    - rewrite Ep in E. unfold redis_pool_acquire in E. rewrite H3 in E. cbn [pool_scan] in E.
      change (Ret ?x ≫= ?f) with (f x) in E. cbv beta iota in E. change ((_ <? _)%nat) with true in E. cbv iota in E.
      by destruct (redisConnect _ _ _) as [[x|] v2]; [destruct (conn_err x v2)|].
    - by rewrite Et in Ht.
    - done. }
  destruct Hi as [-> ->]. intros t. by rewrite lookup_empty.
Qed.
End Shared.

(* ------------------------------------------------------------------ *)
(** ** Addresses *)

Lemma cut_at c s t : c ∉ s → cut c (s ++ c :: t) = (s, Some t).
Proof.
  intros H. unfold cut. assert (E : strchr (s ++ c :: t) c = Some (length s)).
  { unfold strchr. induction s as [|x s IH]; cbn [app find_index length]; [by rewrite Ascii.eqb_refl|].
    rewrite (proj2 (Ascii.eqb_neq c x)) by set_solver. by rewrite IH by set_solver. }
  rewrite E. rewrite take_app_length. f_equal. f_equal. rewrite <- (app_nil_l t) at 2. by rewrite drop_app_ge, Nat.sub_succ_l, Nat.sub_diag by lia.
Qed.
Lemma cut_none c s : c ∉ s → cut c s = (s, None).
Proof.
  intros H. unfold cut. assert (E : strchr s c = None); [|by rewrite E].
  unfold strchr. induction s as [|x s IH]; [done|]. cbn [find_index]. rewrite (proj2 (Ascii.eqb_neq c x)) by set_solver.
  by rewrite IH by set_solver.
Qed.

Definition address (host : cstr) (port db : Z) : cstr :=
  host ++ ":"%char :: print_dec port ++ "/"%char :: print_dec db.
Definition credentials (cred : option cstr) : cstr := match cred with Some c => c ++ ["@"%char] | None => [] end.

Lemma digits_no c n : 0 ≤ n → is_digit c = false → c ∉ print_dec n.
Proof. intros Hn Hc Hin. destruct (print_dec_spec n Hn) as (_ & Hd & _). rewrite Forall_forall in Hd. specialize (Hd _ Hin). congruence. Qed.

(** The address of a DSN [redis://credentials@host:port/db] is read as it
    was written, whatever the credentials, which are not used. *)
Theorem dsn_roundtrip cred host port db :
  (∀ c, c ∈ host → c ≠ ":"%char ∧ c ≠ "/"%char ∧ c ≠ "@"%char) → (if cred is Some c then "@"%char ∉ c else True) →
  0 ≤ port < 2 ^ 31 → 0 ≤ db < 2 ^ 31 → (length (address host port db) < 256)%nat →
  parse_dsn (Some (("redis://" : cstr) ++ credentials cred ++ address host port db)) =
  {| dn_sentinel := false; dn_host := host; dn_port := port; dn_db := db; dn_master := "mymaster" |}.
Proof.
  intros Hh Hc Hp Hd Hl. assert (Ha : after_at (credentials cred ++ address host port db) = address host port db).
  { unfold after_at. destruct cred as [c|]; cbn [credentials].
    - rewrite <- app_assoc. cbn [app]. by rewrite cut_at.
    - cbn [app]. rewrite cut_none; [done|]. unfold address. rewrite elem_of_app, elem_of_cons, elem_of_app, elem_of_cons.
      pose proof (digits_no "@" port) as H1. pose proof (digits_no "@" db) as H2. intros [H|[H|[H|[H|H]]]]; try done.
      + by destruct (Hh _ H) as (_ & _ & ?).
      + apply H1; [lia|done|done].
      + apply H2; [lia|done|done]. }
  unfold parse_dsn. change (("redis://" : cstr) ++ ?t) with ("r"%char :: (tail (("redis://" : cstr) ++ t))). cbv iota.
  change (starts_with "redis-sentinel://" _) with false. change (starts_with "redis://" _) with true. cbv iota.
  change (drop 8 _) with (credentials cred ++ address host port db). rewrite Ha.
  assert (Es : snprintf 256 (address host port db) = address host port db) by (unfold snprintf; apply take_ge; lia).
  rewrite Es. unfold db_of, address. rewrite (app_comm_cons _ _ ":"%char), app_assoc.
  assert (Hno : "/"%char ∉ host ++ ":"%char :: print_dec port).
  { rewrite elem_of_app, elem_of_cons. intros [H|[H|H]]; [by destruct (Hh _ H) as (_ & ? & _)|done|]. revert H. apply digits_no; [lia|done]. }
  rewrite cut_at by done. cbv beta iota. unfold host_port.
  rewrite cut_at by (intros H; by destruct (Hh _ H) as (? & _)). cbv beta iota. rewrite !atoi_print by done.
  f_equal. unfold snprintf. apply take_ge. unfold address in Hl. rewrite length_app in Hl. lia.
Qed.

(* ------------------------------------------------------------------ *)
(** ** A library to compute with *)

#[local] Instance sample_hiredis : Hiredis (gset Z) := {|
  redisConnect h p w := match h with [] => (None, w) | _ => (Some (fresh w), {[fresh w]} ∪ w) end;
  conn_err c w := false;
  redisCommand c argv w := (Some (REDIS_REPLY_STATUS "OK"), w);
  redisFree c w := w ∖ {[c]}
|}.
#[local] Instance sample_hiredis_laws : HiredisLaws (W := gset Z) (λ w, w).
Proof. split; [|done|done]. intros h p w. destruct h; [done|]. cbn. split; [apply is_fresh|done]. Qed.

Lemma dsn_roundtrip_witness :
  parse_dsn (Some (("redis://" : cstr) ++ credentials (Some ("u:p" : cstr)) ++ address "db.local" 6380 3)) =
  {| dn_sentinel := false; dn_host := "db.local"; dn_port := 6380; dn_db := 3; dn_master := "mymaster" |}.
Proof.
  apply (dsn_roundtrip (Some ("u:p" : cstr)) "db.local" 6380 3); [| |lia|lia|apply Nat.ltb_lt; reflexivity].
  - intros c Hc. apply list_elem_of_In in Hc. repeat destruct Hc as [<-|Hc]; done.
  - intros H. apply list_elem_of_In in H. by repeat destruct H as [H|H].
Defined.

Definition sample_priv : redis_priv_t :=
  {| pv_ctx := None; pv_host := "h"; pv_port := 6379; pv_db := 0; pv_pool := []; pv_sub_ctx := None; pv_sub_running := false |}.
Definition sample_conn : conn_state (gset Z) :=
  {| cs_priv := with_pool [(Some (fresh (∅ : gset Z)), true)] sample_priv; cs_tls := <[1%nat := fresh (∅ : gset Z)]> ∅;
     cs_world := {[fresh (∅ : gset Z)]} ∪ ∅ |}.
Lemma pool_exclusive_witness :
  (∀ t u c, cs_tls sample_conn !! t = Some c → cs_tls sample_conn !! u = Some c → t = u) ∧
  (∀ t c, cs_tls sample_conn !! t = Some c → c ∈ cs_world sample_conn) ∧
  (length (pv_pool (cs_priv sample_conn)) ≤ 16)%nat.
Proof.
  apply (pool_exclusive (λ w, w) sample_priv ∅ sample_conn); [reflexivity|]. eapply rtc_once.
  refine (step_init {| cs_priv := sample_priv; cs_tls := ∅; cs_world := ∅ |} 1 (Some (fresh (∅ : gset Z))) _ _ _ _); reflexivity.
Defined.

Definition opened : redis_priv_t := with_conns (Some (fresh (∅ : gset Z))) (Some (fresh ({[fresh (∅ : gset Z)]} ∪ ∅ : gset Z))) true new_priv.
Lemma threads_share_connection_witness :
  ∃ c, pv_ctx opened = Some c ∧ ∀ t, redis_get_priv ((∅ : gmap nat Z) !! t) opened = Some c.
Proof.
  set (w1 := {[fresh (∅ : gset Z)]} ∪ ∅ : gset Z).
  apply (threads_share_connection None ∅ opened ({[fresh w1]} ∪ w1) {| cs_priv := opened; cs_tls := ∅; cs_world := {[fresh w1]} ∪ w1 |});
    [reflexivity|done|apply rtc_refl].
Defined.
