(* ===== verification/Sql.v ===== *)
(** * The SQL of the storage backends

    The backends send texts of a small part of SQL to a database library.
    Here are the syntax of that part, a parser from the texts the sources
    hold, and what the statements mean on tables, as SQL documents it:
    rows, NULL in comparisons, unique columns, conflict clauses, generated
    ids, LIKE and the recursive query of the role hierarchy. *)

From S2P Require Import Prelude CLib CNum Types Storage Printf Http.

(* ------------------------------------------------------------------ *)
(** ** Values and statements *)

Inductive sval := SNull | SInt (z : Z) | SText (t : list ascii).
#[global] Instance sval_eq_dec : EqDecision sval.
Proof. solve_decision. Defined.

Inductive expr := Param (n : nat) | Number (z : Z) | Excluded (col : list ascii).
Inductive cmp := CEq | CLt | CLike.
Inductive cond := CAll | CCmp (col : list ascii) (op : cmp) (e : expr) | CAnd (a b : cond) | COr (a b : cond).
Inductive selection := Star | Columns (cols : list (list ascii)) | Count.

(** What an insertion does when a unique column has its value already. *)
Inductive conflict := Refuse | Ignore | Replace | Upsert (target : list (list ascii)) (sets : list (list ascii * expr)).

Inductive statement :=
| Insert (c : conflict) (table : list ascii) (cols : option (list (list ascii))) (vals : list expr) (returning : bool)
| Select (sel : selection) (table : list ascii) (w : cond) (order : option (list ascii * bool)) (limit offset : option expr)
| Update (table : list ascii) (sets : list (list ascii * expr)) (w : cond)
| Delete (table : list ascii) (w : cond)
| Closure (seed : list ascii) (col key : list ascii) (start : expr) (nodes : list ascii) (id parent status : list ascii).

(* ------------------------------------------------------------------ *)
(** ** From texts to statements *)

Inductive token := TWord (w : list ascii) | TParam (n : nat) | TNum (z : Z) | TSym (c : ascii).

Definition word_char (c : ascii) : bool :=
  is_digit c || ((65 <=? ord c) && (ord c <=? 90)) || ((97 <=? ord c) && (ord c <=? 122)) ||
  char_in ["_"%char; "."%char; "?"%char; "$"%char] c.

(** A word: a parameter ([?], [?3], [$3]), a number or a name; a lone [?]
    is numbered later. *)
Definition word_token (w : cstr) : list token :=
  match w with
  | [] => []
  | c :: r =>
      if Ascii.eqb c "?" || Ascii.eqb c "$" then [TParam (Z.to_nat (digits_val r))]
      else if forallb is_digit w then [TNum (digits_val w)]
      else [TWord w]
  end.
Fixpoint lex (word : cstr) (s : cstr) : list token :=
  match s with
  | [] => word_token (rev word)
  | c :: s =>
      if word_char c then lex (c :: word) s
      else word_token (rev word) ++ (if is_space c || Ascii.eqb c ";" then [] else [TSym c]) ++ lex [] s
  end.
Fixpoint number_params (next : nat) (l : list token) : list token :=
  match l with
  | TParam O :: l => TParam next :: number_params (S next) l
  | t :: l => t :: number_params next l
  | [] => []
  end.

Definition is_word (w : string) (t : token) : bool :=
  match t with TWord x => bool_decide (x = list_ascii_of_string w) | _ => false end.
Definition eat (w : string) (l : list token) : option (list token) :=
  match l with t :: l => if is_word w t then Some l else None | [] => None end.
Definition sym (c : ascii) (l : list token) : option (list token) :=
  match l with TSym x :: l => if Ascii.eqb x c then Some l else None | _ => None end.
Definition name (l : list token) : option (list ascii * list token) :=
  match l with TWord w :: l => Some (w, l) | _ => None end.
Fixpoint eats (ws : list string) (l : list token) : option (list token) :=
  match ws with [] => Some l | w :: ws => l ← eat w l; eats ws l end.

Definition p_expr (l : list token) : option (expr * list token) :=
  match l with
  | TParam n :: l => Some (Param n, l)
  | TNum z :: l => Some (Number z, l)
  | TWord w :: l => if starts_with "excluded." w || starts_with "EXCLUDED." w then Some (Excluded (drop 9 w), l) else None
  | _ => None
  end.
Definition p_cmp (l : list token) : option (cmp * list token) :=
  match l with
  | TSym c :: l => if Ascii.eqb c "=" then Some (CEq, l) else if Ascii.eqb c "<" then Some (CLt, l) else None
  | t :: l => if is_word "LIKE" t || is_word "ILIKE" t then Some (CLike, l) else None
  | [] => None
  end.

(** Items between commas. *)
Fixpoint p_items {A} (item : list token → option (A * list token)) (fuel : nat) (l : list token) : option (list A * list token) :=
  match fuel with
  | O => None
  | S fuel =>
      '(x, l) ← item l;
      match sym "," l with
      | Some l => '(xs, l) ← p_items item fuel l; Some (x :: xs, l)
      | None => Some ([x], l)
      end
  end.
Definition items {A} (item : list token → option (A * list token)) (l : list token) : option (list A * list token) :=
  p_items item (length l) l.
Definition parens {A} (p : list token → option (A * list token)) (l : list token) : option (A * list token) :=
  l ← sym "(" l; '(x, l) ← p l; l ← sym ")" l; Some (x, l).
Definition p_set (l : list token) : option ((list ascii * expr) * list token) :=
  '(c, l) ← name l; l ← sym "=" l; '(e, l) ← p_expr l; Some ((c, e), l).

(** AND binds tighter than OR. *)
Fixpoint p_or (fuel : nat) (l : list token) : option (cond * list token) :=
  match fuel with
  | O => None
  | S fuel =>
      '(a, l) ← p_and fuel l;
      match eat "OR" l with Some l => '(b, l) ← p_or fuel l; Some (COr a b, l) | None => Some (a, l) end
  end
with p_and (fuel : nat) (l : list token) : option (cond * list token) :=
  match fuel with
  | O => None
  | S fuel =>
      '(a, l) ← match sym "(" l with
                | Some l => '(c, l) ← p_or fuel l; l ← sym ")" l; Some (c, l)
                | None => '(c, l) ← name l; '(o, l) ← p_cmp l; '(e, l) ← p_expr l; Some (CCmp c o e, l)
                end;
      match eat "AND" l with Some l => '(b, l) ← p_and fuel l; Some (CAnd a b, l) | None => Some (a, l) end
  end.
Definition p_where (l : list token) : option (cond * list token) :=
  match eat "WHERE" l with Some l => p_or (S (2 * length l)) l | None => Some (CAll, l) end.

Definition p_opt_expr (w : string) (l : list token) : option (option expr * list token) :=
  match eat w l with Some l => '(e, l) ← p_expr l; Some (Some e, l) | None => Some (None, l) end.
Definition p_order (l : list token) : option (option (list ascii * bool) * list token) :=
  match eats ["ORDER"; "BY"] l with
  | Some l => '(c, l) ← name l; match eat "DESC" l with Some l => Some (Some (c, true), l) | None => Some (Some (c, false), l) end
  | None => Some (None, l)
  end.
Definition p_selection (l : list token) : option (selection * list token) :=
  match sym "*" l with
  | Some l => Some (Star, l)
  | None =>
      match eat "COUNT" l with
      | Some l => l ← sym "(" l; l ← sym "*" l; l ← sym ")" l; Some (Count, l)
      | None => '(cs, l) ← items name l; Some (Columns cs, l)
      end
  end.

Definition p_select (l : list token) : option (statement * list token) :=
  '(sel, l) ← p_selection l; l ← eat "FROM" l; '(t, l) ← name l; '(w, l) ← p_where l; '(o, l) ← p_order l;
  '(lim, l) ← p_opt_expr "LIMIT" l; '(off, l) ← p_opt_expr "OFFSET" l; Some (Select sel t w o lim off, l).

Definition p_conflict (c : conflict) (l : list token) : option (conflict * list token) :=
  match eats ["ON"; "CONFLICT"] l with
  | None => Some (c, l)
  | Some l =>
      match eats ["DO"; "NOTHING"] l with
      | Some l => Some (Ignore, l)
      | None =>
          '(target, l) ← parens (items name) l; l ← eats ["DO"; "UPDATE"; "SET"] l; '(sets, l) ← items p_set l;
          Some (Upsert target sets, l)
      end
  end.
Definition p_insert (l : list token) : option (statement * list token) :=
  let '(c, l) := match eats ["OR"; "IGNORE"] l with
                 | Some l => (Ignore, l)
                 | None => match eats ["OR"; "REPLACE"] l with Some l => (Replace, l) | None => (Refuse, l) end
                 end in
  l ← eat "INTO" l; '(t, l) ← name l;
  '(cols, l) ← match sym "(" l with Some _ => '(cs, l) ← parens (items name) l; Some (Some cs, l) | None => Some (None, l) end;
  l ← eat "VALUES" l; '(vals, l) ← parens (items p_expr) l; '(c, l) ← p_conflict c l;
  match eats ["RETURNING"; "id"] l with Some l => Some (Insert c t cols vals true, l) | None => Some (Insert c t cols vals false, l) end.

(** The recursive query of the role hierarchy, on its tokens; names are
    qualified by the aliases of tables that have one. *)
Definition qualified (a : cstr) (w : list ascii) : option (list ascii) :=
  match a with
  | [] => Some w
  | _ => if starts_with (a ++ ["."%char]) w then Some (drop (S (length a)) w) else None
  end.
Definition p_alias (l : list token) : cstr * list token :=
  match l with t :: r => if is_word "WHERE" t then ([], l) else match t with TWord w => (w, r) | _ => ([], l) end | [] => ([], l) end.
Definition q_name (a : cstr) (l : list token) : option (list ascii * list token) :=
  '(w, l) ← name l; w ← qualified a w; Some (w, l).
Definition q_cmp (a : cstr) (ops : list ascii) (l : list token) : option (list ascii * list token) :=
  '(c, l) ← q_name a l; l ← foldl (λ l o, l ≫= sym o) (Some l) ops; Some (c, l).
Definition expect (t : list ascii) (l : list token) : option (list token) :=
  '(w, l) ← name l; if bool_decide (w = t) then Some l else None.
Definition expect_num (n : Z) (l : list token) : option (list token) :=
  match l with TNum z :: l => if z =? n then Some l else None | _ => None end.

Definition p_closure (l : list token) : option (statement * list token) :=
  l ← eat "RECURSIVE" l; '(tree, l) ← name l; '(out, l) ← parens name l; l ← eat "AS" l; l ← sym "(" l;
  l ← eat "SELECT" l; '(seed_q, l) ← name l; l ← eat "FROM" l; '(seed, l) ← name l; let '(a, l) := p_alias l in
  l ← eat "WHERE" l; '(key, l) ← q_cmp a ["="%char] l; '(start, l) ← p_expr l; col ← qualified a seed_q;
  l ← eat "UNION" l;
  l ← eat "SELECT" l; '(parent_q, l) ← name l; l ← eat "FROM" l; '(nodes, l) ← name l; '(r, l) ← name l;
  l ← eats ["INNER"; "JOIN"] l; l ← expect tree l; '(u, l) ← name l; l ← eat "ON" l;
  '(id, l) ← q_cmp r ["="%char] l; '(o, l) ← q_name u l; parent ← qualified r parent_q;
  l ← eat "WHERE" l; '(p, l) ← q_cmp r ["!"%char; "="%char] l; l ← expect_num 0 l;
  l ← eat "AND" l; '(status, l) ← q_cmp r ["="%char] l; l ← expect_num 1 l; l ← sym ")" l;
  l ← eats ["SELECT"; "DISTINCT"] l; '(t_q, l) ← name l; l ← eat "FROM" l; l ← expect tree l; '(t, l) ← name l;
  l ← eats ["INNER"; "JOIN"] l; l ← expect nodes l; '(r2, l) ← name l; l ← eat "ON" l;
  '(o2, l) ← q_cmp t ["="%char] l; '(id2, l) ← q_name r2 l; l ← eat "WHERE" l;
  '(st2, l) ← q_cmp r2 ["="%char] l; l ← expect_num 1 l;
  if bool_decide (p = parent ∧ id2 = id ∧ st2 = status ∧ o = out ∧ o2 = out) then Some (Closure seed col key start nodes id parent status, l)
  else None.

Definition sql_parse (text : cstr) : option statement :=
  let l := number_params 1 (lex [] text) in
  '(st, rest) ←
    match eat "SELECT" l with
    | Some l => p_select l
    | None =>
    match eat "INSERT" l with
    | Some l => p_insert l
    | None =>
    match eat "UPDATE" l with
    | Some l => '(t, l) ← name l; l ← eat "SET" l; '(sets, l) ← items p_set l; '(w, l) ← p_where l; Some (Update t sets w, l)
    | None =>
    match eats ["DELETE"; "FROM"] l with
    | Some l => '(t, l) ← name l; '(w, l) ← p_where l; Some (Delete t w, l)
    | None => l ← eat "WITH" l; p_closure l
    end end end end;
  match rest with [] => Some st | _ => None end.

(* ------------------------------------------------------------------ *)
(** ** Tables *)

(** A column: its name, whether it holds numbers, its default, and whether
    it may be NULL. *)
Record column := { c_name : list ascii; c_int : bool; c_default : sval; c_not_null : bool }.
(** A table: its columns, the sets of columns that are unique, and whether
    the first column is a generated number. *)
Record schema := { sc_cols : list column; sc_unique : list (list (list ascii)); sc_auto : bool }.
Notation row := (list sval).
Record tdata := { td_rows : list row; td_seq : Z }.
Notation database := (gmap (list ascii) tdata).
Notation catalog := (list (list ascii * schema)).

Definition table_of (cat : catalog) (t : list ascii) : option schema := snd <$> List.find (λ x, bool_decide (x.1 = t)) cat.
Definition empty_table : tdata := {| td_rows := []; td_seq := 0 |}.
Definition data_of (db : database) (t : list ascii) : tdata := default empty_table (db !! t).

Definition col_index (sc : schema) (c : list ascii) : option nat := find_index (λ x, bool_decide (c_name x = c)) (sc_cols sc).
Definition row_val (sc : schema) (r : row) (c : list ascii) : sval :=
  match col_index sc c with Some i => default SNull (r !! i) | None => SNull end.
Definition col_is_int (sc : schema) (c : list ascii) : bool :=
  match col_index sc c with Some i => match sc_cols sc !! i with Some x => c_int x | None => false end | None => false end.

(** The value in the type of a column: digits become a number in a column
    of numbers, and a number becomes its digits in one of texts. *)
Definition integer_text (t : cstr) : bool :=
  match t with
  | [] => false
  | c :: r => if Ascii.eqb c "-" then match r with [] => false | _ => forallb is_digit r end else forallb is_digit t
  end.
Definition coerce (int : bool) (v : sval) : sval :=
  match v with
  | SText t => if int && integer_text t then SInt (atoll t) else v
  | SInt z => if int then v else SText (print_lld z)
  | SNull => SNull
  end.

(* ------------------------------------------------------------------ *)
(** ** Conditions *)

(** LIKE: [%] is any text, [_] any character; letters compare without
    their case where [fold] says so. *)
Definition lower_ascii (c : ascii) : ascii := if (65 <=? ord c) && (ord c <=? 90) then chr (ord c + 32) else c.
Fixpoint like (fold : bool) (p s : cstr) : bool :=
  match p with
  | [] => match s with [] => true | _ => false end
  | c :: p' =>
      if Ascii.eqb c "%" then
        (fix any (s : cstr) : bool := like fold p' s || match s with [] => false | _ :: s' => any s' end) s
      else match s with
           | [] => false
           | d :: s' =>
               (Ascii.eqb c "_" || (if fold then Ascii.eqb (lower_ascii c) (lower_ascii d) else Ascii.eqb c d)) && like fold p' s'
           end
  end.

Section Meaning.
Context (fold : bool) (cat : catalog).

Definition arg (args : list sval) (n : nat) : sval := match n with O => SNull | S i => default SNull (args !! i) end.
Definition ev (args : list sval) (excluded : list ascii → sval) (e : expr) : sval :=
  match e with Param n => arg args n | Number z => SInt z | Excluded c => excluded c end.
Definition no_row (_ : list ascii) : sval := SNull.

(** A comparison with NULL does not hold. *)
Definition holds_cmp (op : cmp) (a b : sval) : bool :=
  match a, b with
  | SNull, _ | _, SNull => false
  | _, _ =>
      match op with
      | CEq => bool_decide (a = b)
      | CLt => match a, b with SInt x, SInt y => x <? y | _, _ => false end
      | CLike => match a, b with SText s, SText p => like fold p s | _, _ => false end
      end
  end.
Fixpoint sat (sc : schema) (args : list sval) (r : row) (w : cond) : bool :=
  match w with
  | CAll => true
  | CCmp c op e => holds_cmp op (row_val sc r c) (coerce (col_is_int sc c) (ev args no_row e))
  | CAnd a b => sat sc args r a && sat sc args r b
  | COr a b => sat sc args r a || sat sc args r b
  end.

(* ------------------------------------------------------------------ *)
(** ** Changes *)

(** Rows agree on a unique set: NULL agrees with nothing. *)
Definition agree (sc : schema) (r1 r2 : row) (u : list (list ascii)) : bool :=
  forallb (λ c, negb (bool_decide (row_val sc r1 c = SNull)) && bool_decide (row_val sc r1 c = row_val sc r2 c)) u.
Definition clash (sc : schema) (r1 r2 : row) : bool := existsb (agree sc r1 r2) (sc_unique sc).
Definition null_ok (sc : schema) (r : row) : bool :=
  forallb (λ c, negb (c_not_null c) || negb (bool_decide (row_val sc r (c_name c) = SNull))) (sc_cols sc).
Fixpoint unique (sc : schema) (rs : list row) : bool :=
  match rs with [] => true | r :: rs => forallb (λ r', negb (clash sc r r')) rs && unique sc rs end.

(** The row of an insertion. *)
Definition given (cols : option (list (list ascii))) (sc : schema) : list (list ascii) :=
  match cols with Some cs => cs | None => map c_name (sc_cols sc) end.
Definition new_value (sc : schema) (names : list (list ascii)) (vals : list sval) (seq : Z) (i : nat) (c : column) : sval :=
  match find_index (λ x, bool_decide (x = c_name c)) names with
  | Some j => coerce (c_int c) (default SNull (vals !! j))
  | None => if sc_auto sc && (i =? 0)%nat then SInt (seq + 1) else c_default c
  end.
Definition new_row (sc : schema) (cols : option (list (list ascii))) (vals : list sval) (seq : Z) : row :=
  imap (new_value sc (given cols sc) vals seq) (sc_cols sc).

(** A row with columns set. *)
Definition set_row (sc : schema) (args : list sval) (excluded : list ascii → sval) (sets : list (list ascii * expr)) (r : row) : row :=
  foldl (λ r' ce,
    match col_index sc ce.1 with
    | Some i => <[i := coerce (col_is_int sc ce.1) (ev args excluded ce.2)]> r'
    | None => r'
    end) r sets.

Inductive step_rc := SQLITE_DONE | SQLITE_CONSTRAINT | SQLITE_ERROR.

(** The end of a change: its code, the generated number, and the table. *)
Definition keep (rc : step_rc) (t : tdata) : step_rc * Z * tdata := (rc, 0, t).

Definition insert_row (sc : schema) (c : conflict) (args : list sval) (r : row) (t : tdata) : step_rc * Z * tdata :=
  let hits := filter (λ x, clash sc r x = true) (td_rows t) in
  let others := filter (λ x, clash sc r x = false) (td_rows t) in
  let seq := if sc_auto sc then td_seq t + 1 else td_seq t in
  if sc_auto sc && (2 ^ 63 - 1 <=? td_seq t) then keep SQLITE_ERROR t
  else if negb (null_ok sc r) then match c with Ignore => keep SQLITE_DONE t | _ => keep SQLITE_CONSTRAINT t end
  else
    match hits with
    | [] => (SQLITE_DONE, seq, {| td_rows := td_rows t ++ [r]; td_seq := seq |})
    | _ =>
        match c with
        | Refuse => keep SQLITE_CONSTRAINT t
        | Ignore => keep SQLITE_DONE t
        | Replace => (SQLITE_DONE, seq, {| td_rows := others ++ [r]; td_seq := seq |})
        | Upsert target sets =>
            let rows := map (λ x, if clash sc r x then set_row sc args (row_val sc r) sets x else x) (td_rows t) in
            if forallb (λ x, agree sc r x target) hits && unique sc rows && forallb (null_ok sc) rows
            then keep SQLITE_DONE {| td_rows := rows; td_seq := td_seq t |}
            else keep SQLITE_CONSTRAINT t
        end
    end.

Definition update_rows (sc : schema) (args : list sval) (sets : list (list ascii * expr)) (w : cond) (t : tdata) : step_rc * Z * tdata :=
  let rows := map (λ x, if sat sc args x w then set_row sc args no_row sets x else x) (td_rows t) in
  if unique sc rows && forallb (null_ok sc) rows then keep SQLITE_DONE {| td_rows := rows; td_seq := td_seq t |}
  else keep SQLITE_CONSTRAINT t.

Definition delete_rows (sc : schema) (args : list sval) (w : cond) (t : tdata) : step_rc * Z * tdata :=
  keep SQLITE_DONE {| td_rows := filter (λ x, sat sc args x w = false) (td_rows t); td_seq := td_seq t |}.

(* ------------------------------------------------------------------ *)
(** ** Queries *)

Definition project (sc : schema) (sel : selection) (rs : list row) : list row :=
  match sel with
  | Star => rs
  | Columns cs => map (λ r, map (row_val sc r) cs) rs
  | Count => [[SInt (Z.of_nat (length rs))]]
  end.
Definition int_of (v : sval) : Z := match v with SInt z => z | _ => 0 end.
Fixpoint insert_by (le : row → row → bool) (x : row) (l : list row) : list row :=
  match l with [] => [x] | y :: l' => if le x y then x :: l else y :: insert_by le x l' end.
Definition order_le (sc : schema) (o : list ascii * bool) (x y : row) : bool :=
  if o.2 then int_of (row_val sc y o.1) <=? int_of (row_val sc x o.1) else int_of (row_val sc x o.1) <=? int_of (row_val sc y o.1).
Definition sort_rows (sc : schema) (o : option (list ascii * bool)) (rs : list row) : list row :=
  match o with None => rs | Some o => foldr (insert_by (order_le sc o)) [] rs end.

(** A negative limit is none, a negative offset is 0. *)
Definition page (args : list sval) (limit offset : option expr) (rs : list row) : list row :=
  let num e := int_of (coerce true (ev args no_row e)) in
  let rs := match offset with Some e => drop (Z.to_nat (num e)) rs | None => rs end in
  match limit with Some e => if num e <? 0 then rs else take (Z.to_nat (num e)) rs | None => rs end.

(** The recursive query: numbers not seen before are put at the end of
    the queue until it is empty. *)
Definition parents_of (sc : schema) (id parent status : list ascii) (rs : list row) (x : sval) : list sval :=
  map (λ r, row_val sc r parent)
    (filter (λ r, row_val sc r id = x ∧ row_val sc r parent ≠ SInt 0 ∧ row_val sc r parent ≠ SNull ∧ row_val sc r status = SInt 1) rs).
Definition add_unseen (seen : list sval) (xs : list sval) : list sval :=
  foldl (λ acc x, if bool_decide (x ∈ seen ++ acc) then acc else acc ++ [x]) [] xs.
Fixpoint closure (fuel : nat) (next : sval → list sval) (seen queue : list sval) : list sval :=
  match fuel, queue with
  | S fuel, x :: queue => let new := add_unseen seen (next x) in closure fuel next (seen ++ new) (queue ++ new)
  | _, _ => seen
  end.
Definition closure_rows (seed_sc sc : schema) (col key id parent status : list ascii) (start : sval) (seeds rs : list row) : list row :=
  let first := add_unseen [] (map (λ r, row_val seed_sc r col) (filter (λ r, row_val seed_sc r key = start ∧ start ≠ SNull) seeds)) in
  let tree := closure (length first + length rs) (parents_of sc id parent status rs) first first in
  map (λ x, [x]) (filter (λ x, Exists (λ r, row_val sc r id = x ∧ row_val sc r status = SInt 1) rs) tree).

(* ------------------------------------------------------------------ *)
(** ** Statements *)

(** Names of a statement that its tables have, and as many values as
    columns. *)
Definition has_col (sc : schema) (c : list ascii) : bool := match col_index sc c with Some _ => true | None => false end.
Fixpoint cond_ok (sc : schema) (w : cond) : bool :=
  match w with CAll => true | CCmp c _ _ => has_col sc c | CAnd a b | COr a b => cond_ok sc a && cond_ok sc b end.
Definition statement_ok (st : statement) : bool :=
  match st with
  | Insert c t cols vals _ =>
      match table_of cat t with
      | None => false
      | Some sc =>
          forallb (has_col sc) (given cols sc) && (length (given cols sc) =? length vals)%nat &&
          match c with
          | Upsert target sets => existsb (λ u, bool_decide (u = target)) (sc_unique sc) && forallb (λ ce, has_col sc ce.1) sets
          | _ => true
          end
      end
  | Select sel t w o _ _ =>
      match table_of cat t with
      | None => false
      | Some sc =>
          cond_ok sc w && match sel with Columns cs => forallb (has_col sc) cs | _ => true end &&
          match o with Some (c, _) => has_col sc c | None => true end
      end
  | Update t sets w =>
      match table_of cat t with None => false | Some sc => cond_ok sc w && forallb (λ ce, has_col sc ce.1) sets end
  | Delete t w => match table_of cat t with None => false | Some sc => cond_ok sc w end
  | Closure seed col key _ nodes id parent status =>
      match table_of cat seed, table_of cat nodes with
      | Some s, Some n => has_col s col && has_col s key && has_col n id && has_col n parent && has_col n status
      | _, _ => false
      end
  end.
Definition is_query (st : statement) : bool := match st with Select _ _ _ _ _ _ | Closure _ _ _ _ _ _ _ _ => true | _ => false end.

(** The rows a query has, before they are ordered and cut. *)
Definition schema_of (t : list ascii) : schema := default {| sc_cols := []; sc_unique := []; sc_auto := false |} (table_of cat t).
Definition sql_matches (st : statement) (args : list sval) (db : database) : list row :=
  match st with
  | Select _ t w _ _ _ => filter (λ r, sat (schema_of t) args r w = true) (td_rows (data_of db t))
  | Closure seed col key start nodes id parent status =>
      closure_rows (schema_of seed) (schema_of nodes) col key id parent status
        (coerce (col_is_int (schema_of seed) key) (ev args no_row start)) (td_rows (data_of db seed)) (td_rows (data_of db nodes))
  | _ => []
  end.
(** What is answered of rows in an order the engine chooses. *)
Definition sql_answer (st : statement) (args : list sval) (rs : list row) : list row :=
  match st with
  | Select sel t _ o limit offset =>
      match sel with
      | Count => project (schema_of t) Count rs
      | _ => project (schema_of t) sel (page args limit offset (sort_rows (schema_of t) o rs))
      end
  | _ => rs
  end.

(** A change: its code, the generated number and the database after it. *)
Definition sql_write (st : statement) (args : list sval) (db : database) : step_rc * Z * database :=
  let on t f := let '(rc, n, d) := f (schema_of t) (data_of db t) in (rc, n, <[t := d]> db) in
  match st with
  | Insert c t cols vals _ =>
      on t (λ sc d, insert_row sc c args (new_row sc cols (map (ev args no_row) vals) (td_seq d)) d)
  | Update t sets w => on t (λ sc d, update_rows sc args sets w d)
  | Delete t w => on t (λ sc d, delete_rows sc args w d)
  | _ => (SQLITE_DONE, 0, db)
  end.
End Meaning.
