(* ===== verification/SqlSafety.v ===== *)
(** * What changes and the recursive query guarantee

    Tables stay well formed under every change that leaves the generated
    column alone, and the recursive query of the role hierarchy ends with
    exactly the numbers that can be reached. *)

From S2P Require Import Prelude CLib CNum Types Storage Printf Http Sql.

(* ------------------------------------------------------------------ *)
(** ** Well-formed tables *)

Definition row_wf (sc : schema) (r : row) : Prop := length r = length (sc_cols sc) ∧ null_ok sc r = true.
Definition numbered_by (seq : Z) (r : row) : Prop := ∃ i, r !! 0%nat = Some (SInt i) ∧ 1 ≤ i ≤ seq.
Record table_wf (sc : schema) (t : tdata) : Prop := {
  twf_rows : Forall (row_wf sc) (td_rows t);
  twf_unique : unique sc (td_rows t) = true;
  twf_seq : 0 ≤ td_seq t < 2 ^ 63;
  twf_ids : sc_auto sc = true → Forall (numbered_by (td_seq t)) (td_rows t) ∧ NoDup (map (λ r : row, r !! 0%nat) (td_rows t))
}.
(** A schema with generated numbers has a column for them. *)
Definition schema_wf (sc : schema) : bool := negb (sc_auto sc) || match sc_cols sc with [] => false | _ => true end.
Definition db_wf (cat : catalog) (db : database) : Prop := ∀ t, table_wf (schema_of cat t) (data_of db t).

(** The generated column is not given a value by the statement. *)
Definition not_first (sc : schema) (c : list ascii) : bool :=
  negb (sc_auto sc) || match col_index sc c with Some O => false | _ => true end.
Definition leaves_ids (cat : catalog) (st : statement) : bool :=
  match st with
  | Insert c t cols _ _ =>
      forallb (not_first (schema_of cat t)) (given cols (schema_of cat t)) &&
      match c with Upsert _ sets => forallb (λ ce, not_first (schema_of cat t) ce.1) sets | _ => true end
  | Update t sets _ => forallb (λ ce, not_first (schema_of cat t) ce.1) sets
  | _ => true
  end.

Section Rows.
Context (sc : schema).

Lemma agree_sym r1 r2 u : agree sc r1 r2 u = agree sc r2 r1 u.
Proof.
  unfold agree. induction u as [|c u IH]; [done|]. cbn [forallb]. rewrite IH. f_equal.
  destruct (decide (row_val sc r1 c = row_val sc r2 c)) as [->|Hn]; [done|].
  rewrite (bool_decide_eq_false_2 (row_val sc r1 c = row_val sc r2 c)) by done.
  rewrite (bool_decide_eq_false_2 (row_val sc r2 c = row_val sc r1 c)) by congruence. by rewrite !andb_false_r.
Qed.
Lemma clash_sym r1 r2 : clash sc r1 r2 = clash sc r2 r1.
Proof. unfold clash. induction (sc_unique sc) as [|u l IH]; [done|]. cbn [existsb]. by rewrite IH, agree_sym. Qed.

Lemma unique_sublist l k : l `sublist_of` k → unique sc k = true → unique sc l = true.
Proof.
  induction 1 as [|x l k Hs IH|x l k Hs IH]; [done| |].
  - cbn [unique]. intros [Hx Hk]%andb_true_iff. apply andb_true_iff. split; [|by apply IH].
    rewrite forallb_forall in *. intros y Hy. apply Hx. apply list_elem_of_In in Hy. apply list_elem_of_In. by eapply elem_of_sublist.
  - cbn [unique]. intros [_ Hk]%andb_true_iff. auto.
Qed.
Lemma unique_snoc l r : unique sc l = true → Forall (λ x, clash sc r x = false) l → unique sc (l ++ [r]) = true.
Proof.
  induction l as [|x l IH]; [done|]. cbn [unique app]. intros [Hx Hl]%andb_true_iff [Hc Hf]%Forall_cons.
  rewrite IH by done. rewrite andb_true_r. rewrite forallb_app, Hx. cbn. by rewrite clash_sym, Hc.
Qed.

Lemma new_row_length cols vals seq : length (new_row sc cols vals seq) = length (sc_cols sc).
Proof. unfold new_row. by rewrite length_imap. Qed.
Lemma set_row_length args ex sets r : length (set_row sc args ex sets r) = length r.
Proof.
  unfold set_row. revert r. induction sets as [|ce sets IH]; intros r; [done|]. cbn [foldl]. rewrite IH.
  destruct (col_index sc ce.1); [|done]. by rewrite length_insert.
Qed.
Lemma set_row_first args ex sets r :
  sc_auto sc = true → forallb (λ ce, not_first sc ce.1) sets = true → set_row sc args ex sets r !! 0%nat = r !! 0%nat.
Proof.
  intros Ha. unfold set_row. revert r. induction sets as [|ce sets IH]; intros r; [done|]. cbn [forallb foldl].
  intros [Hc Hs]%andb_true_iff. rewrite IH by done. unfold not_first in Hc. rewrite Ha in Hc. cbn in Hc.
  destruct (col_index sc ce.1) as [[|i]|]; [done| |done]. by rewrite list_lookup_insert_ne.
Qed.

Lemma find_index_lookup {A} (f : A → bool) l i : find_index f l = Some i → ∃ x, l !! i = Some x ∧ f x = true.
Proof.
  revert i. induction l as [|y l IH]; intros i; [done|]. cbn [find_index]. destruct (f y) eqn:E; [intros [= <-]; by exists y|].
  destruct (find_index f l) as [j|]; [|done]. intros [= <-]. destruct (IH j eq_refl) as (x & ? & ?). by exists x.
Qed.
Lemma new_row_first cols vals seq :
  schema_wf sc = true → sc_auto sc = true → forallb (not_first sc) (given cols sc) = true →
  new_row sc cols vals seq !! 0%nat = Some (SInt (seq + 1)).
Proof.
  intros Hs Ha Hg. unfold new_row, schema_wf in *. rewrite list_lookup_imap. rewrite Ha in Hs.
  destruct (sc_cols sc) as [|c cs] eqn:Ec; [done|]. cbn. f_equal. unfold new_value. rewrite Ha.
  destruct (find_index _ (given cols sc)) as [j|] eqn:Ej; [|done]. exfalso.
  destruct (find_index_lookup _ _ _ Ej) as (x & Hx & ->%bool_decide_eq_true).
  rewrite forallb_forall in Hg. specialize (Hg (c_name c)). unfold not_first, col_index in Hg. rewrite Ha, Ec in Hg.
  cbn [find_index] in Hg. rewrite bool_decide_eq_true_2 in Hg by done. cbn in Hg.
  apply list_elem_of_lookup_2, list_elem_of_In in Hx. by specialize (Hg Hx).
Qed.

Lemma sublist_Forall {A} (P : A → Prop) l k : l `sublist_of` k → Forall P k → Forall P l.
Proof. rewrite !Forall_forall. intros Hs Hk x Hx. apply Hk. by eapply elem_of_sublist. Qed.

(** What is left of a table is well formed. *)
Lemma wf_sublist t l : table_wf sc t → l `sublist_of` td_rows t → table_wf sc {| td_rows := l; td_seq := td_seq t |}.
Proof.
  intros [H1 H2 H3 H4] Hs. split; cbn [td_rows td_seq]; [by eapply sublist_Forall| by eapply unique_sublist|done|].
  intros Ha. destruct (H4 Ha) as [H5 H6]. split; [by eapply sublist_Forall|].
  eapply sublist_NoDup; [done|]. by apply (fmap_sublist (λ r : row, r !! 0%nat)).
Qed.
(** So is a table with its rows changed in place. *)
Lemma wf_map t (f : row → row) :
  table_wf sc t → unique sc (map f (td_rows t)) = true → forallb (null_ok sc) (map f (td_rows t)) = true →
  (∀ r, length (f r) = length r) → (sc_auto sc = true → ∀ r, f r !! 0%nat = r !! 0%nat) →
  table_wf sc {| td_rows := map f (td_rows t); td_seq := td_seq t |}.
Proof.
  intros [H1 H2 H3 H4] Hu Hn Hl Hf. split; cbn [td_rows td_seq]; [|done|done|].
  - apply Forall_forall. intros x Hx. split; [|rewrite forallb_forall in Hn; by apply Hn, list_elem_of_In].
    apply list_elem_of_fmap in Hx as (y & -> & Hy). rewrite Hl. rewrite Forall_forall in H1. by apply H1.
  - intros Ha. destruct (H4 Ha) as [H5 H6]. split.
    + apply Forall_map. eapply Forall_impl; [exact H5|]. intros r (i & Hi & ?). exists i. by rewrite Hf.
    + rewrite map_map. by rewrite (map_ext _ (λ r : row, r !! 0%nat)) by auto.
Qed.
(** So is a table with a new row. *)
Lemma wf_snoc t l r :
  table_wf sc t → l `sublist_of` td_rows t → row_wf sc r → Forall (λ x, clash sc r x = false) l →
  (sc_auto sc = true → td_seq t + 1 < 2 ^ 63) →
  (sc_auto sc = true → r !! 0%nat = Some (SInt (td_seq t + 1))) →
  table_wf sc {| td_rows := l ++ [r]; td_seq := if sc_auto sc then td_seq t + 1 else td_seq t |}.
Proof.
  intros Hw Hs Hr Hc Hq Hf. destruct (wf_sublist t l Hw Hs) as [H1 H2 H3 H4]. cbn [td_rows td_seq] in *.
  split; cbn [td_rows td_seq]; [apply Forall_app; by rewrite Forall_singleton|by apply unique_snoc| |].
  { destruct (sc_auto sc); [specialize (Hq eq_refl); lia|lia]. }
  intros Ha. rewrite Ha. destruct (H4 Ha) as [H5 H6]. specialize (Hf Ha). split.
  - apply Forall_app. split; [eapply Forall_impl; [exact H5|]; intros x (i & ? & ?); exists i; split; [done|lia]|].
    apply Forall_singleton. exists (td_seq t + 1). split; [done|lia].
  - rewrite map_app. apply NoDup_app. split; [done|]. split; [|apply NoDup_singleton]. cbn.
    intros o Ho. rewrite list_elem_of_singleton. intros ->. apply list_elem_of_fmap in Ho as (x & Hx & Hin).
    rewrite Forall_forall in H5. destruct (H5 x Hin) as (i & Hi & ?). rewrite Hf, Hi in Hx. injection Hx. lia.
Qed.
End Rows.

Lemma filter_nothing {A} (P : A → Prop) `{!∀ x, Decision (P x)} (l : list A) : (∀ x, x ∈ l → ¬ P x) → filter P l = [].
Proof. induction l as [|x l IH]; [done|]. intros Hn. rewrite filter_cons_False by (apply Hn; left). apply IH. intros y Hy. apply Hn. by right. Qed.

Lemma data_insert db t d t' : data_of (<[t := d]> db) t' = if decide (t = t') then d else data_of db t'.
Proof. unfold data_of. destruct (decide (t = t')) as [->|]; [by rewrite lookup_insert_eq|by rewrite lookup_insert_ne]. Qed.

Section Preservation.
Context (fold : bool) (cat : catalog).

Lemma insert_row_wf sc c args cols vals t :
  schema_wf sc = true → table_wf sc t → forallb (not_first sc) (given cols sc) = true →
  match c with Upsert _ sets => forallb (λ ce, not_first sc ce.1) sets = true | _ => True end →
  table_wf sc (insert_row sc c args (new_row sc cols vals (td_seq t)) t).2.
Proof.
  intros Hs Hw Hg Hc. set (r := new_row sc cols vals (td_seq t)). unfold insert_row.
  destruct (sc_auto sc && (2 ^ 63 - 1 <=? td_seq t)) eqn:Eq; [done|].
  assert (Hq : sc_auto sc = true → td_seq t + 1 < 2 ^ 63) by (intros E; rewrite E in Eq; cbn [andb] in Eq; lia).
  destruct (null_ok sc r) eqn:En; [|by destruct c]. cbn [negb].
  assert (Hr : row_wf sc r) by (split; [apply new_row_length|done]).
  assert (Hf : sc_auto sc = true → r !! 0%nat = Some (SInt (td_seq t + 1))) by (intros; by apply new_row_first).
  destruct (filter (λ x, clash sc r x = true) (td_rows t)) as [|h hits] eqn:Eh.
  - apply (wf_snoc sc t); try done. apply Forall_forall. intros x Hx. destruct (clash sc r x) eqn:Ex; [|done].
    assert (x ∈ filter (λ x, clash sc r x = true) (td_rows t)) as Hin by by apply list_elem_of_filter.
    rewrite Eh in Hin. by apply elem_of_nil in Hin.
  - destruct c as [| | |target sets]; [done|done| |].
    + apply (wf_snoc sc t); try done; [apply sublist_filter|]. apply Forall_forall. intros x Hx.
      by apply list_elem_of_filter in Hx as [? _].
    + destruct (_ && _ && _) eqn:Eu; [|done]. apply andb_true_iff in Eu as [[_ Hu]%andb_true_iff Hn].
      apply wf_map; try done; intros; case_match; auto using set_row_length, set_row_first.
Qed.

Lemma update_rows_wf sc args sets w t :
  table_wf sc t → forallb (λ ce, not_first sc ce.1) sets = true → table_wf sc (update_rows fold sc args sets w t).2.
Proof.
  intros Hw Hs. unfold update_rows. destruct (_ && _) eqn:Eu; [|done]. apply andb_true_iff in Eu as [Hu Hn].
  apply wf_map; try done; intros; case_match; auto using set_row_length, set_row_first.
Qed.
Lemma delete_rows_wf sc args w t : table_wf sc t → table_wf sc (delete_rows fold sc args w t).2.
Proof. intros Hw. apply wf_sublist; [done|apply sublist_filter]. Qed.

(** Every change leaves tables well formed. *)
Lemma sql_write_wf st args db :
  Forall (λ x, schema_wf x.2 = true) cat → db_wf cat db → leaves_ids cat st = true → db_wf cat (sql_write fold cat st args db).2.
Proof.
  intros Hcat Hw Hl t'.
  assert (Hsw : ∀ t, schema_wf (schema_of cat t) = true).
  { intros t. unfold schema_of, table_of. destruct (List.find _ cat) as [[n sc]|] eqn:Ef; [|done].
    apply find_some in Ef as [Hin _]. rewrite Forall_forall in Hcat. by apply (Hcat (n, sc)), list_elem_of_In. }
  assert (Hon : ∀ t (p : step_rc * Z * tdata), table_wf (schema_of cat t) p.2 →
      table_wf (schema_of cat t') (data_of (let '(rc, n, d) := p in (rc, n, <[t := d]> db)).2 t')).
  { intros t [[rc n] d] Hd. cbn [snd] in *. rewrite data_insert. destruct (decide (t = t')) as [<-|]; [done|apply Hw]. }
  destruct st as [c t cols vals ret| |t sets w|t w|]; cbn [leaves_ids sql_write] in *; try apply Hw; apply Hon.
  - apply andb_true_iff in Hl as [H1 H2]. apply insert_row_wf; auto. by destruct c.
  - by apply update_rows_wf.
  - by apply delete_rows_wf.
Qed.
End Preservation.

(* ------------------------------------------------------------------ *)
(** ** The recursive query *)

Inductive reaches (next : sval → list sval) (start : list sval) : sval → Prop :=
| reach_start x : x ∈ start → reaches next start x
| reach_next x y : reaches next start x → y ∈ next x → reaches next start y.

Lemma add_unseen_acc (seen xs acc : list sval) :
  let l := foldl (λ acc x, if bool_decide (x ∈ seen ++ acc) then acc else acc ++ [x]) acc xs in
  (∀ x, x ∈ l ↔ x ∈ acc ∨ (x ∈ xs ∧ x ∉ seen)) ∧ (NoDup acc → NoDup l).
Proof.
  revert acc. induction xs as [|y xs IH]; intros acc; cbn [foldl]; [set_solver|].
  destruct (bool_decide (y ∈ seen ++ acc)) eqn:E; destruct (IH (if bool_decide (y ∈ seen ++ acc) then acc else acc ++ [y])) as [H1 H2];
    rewrite E in H1, H2; [apply bool_decide_eq_true in E|apply bool_decide_eq_false in E]; (split; [intros x; rewrite H1; set_solver|]).
  - exact H2.
  - intros Ha. apply H2. apply NoDup_app. split; [done|]. split; [set_solver|apply NoDup_singleton].
Qed.
Lemma elem_add_unseen seen xs x : x ∈ add_unseen seen xs ↔ x ∈ xs ∧ x ∉ seen.
Proof. rewrite (proj1 (add_unseen_acc seen xs [])). set_solver. Qed.
Lemma NoDup_add_unseen seen xs : NoDup (add_unseen seen xs).
Proof. by apply (add_unseen_acc seen xs []), NoDup_nil. Qed.

(** Values of [targets] not seen yet bound the rows that can still be
    queued. *)
Definition unseen (targets seen : list sval) : list sval := filter (λ x, x ∉ seen) (remove_dups targets).
Lemma unseen_step targets seen new :
  NoDup new → (∀ x, x ∈ new → x ∈ targets ∧ x ∉ seen) →
  (length (unseen targets (seen ++ new)) + length new ≤ length (unseen targets seen))%nat.
Proof.
  intros Hn Hi. rewrite <- length_app. apply submseteq_length, NoDup_submseteq.
  - apply NoDup_app. split; [apply NoDup_filter, NoDup_remove_dups|]. split; [|done].
    intros x. unfold unseen. rewrite list_elem_of_filter. set_solver.
  - intros x. unfold unseen. rewrite elem_of_app, !list_elem_of_filter, elem_of_remove_dups. set_solver.
Qed.

Lemma closure_sound fuel next start seen queue x :
  (∀ y, y ∈ seen → reaches next start y) → queue ⊆ seen → x ∈ closure fuel next seen queue → reaches next start x.
Proof.
  revert seen queue. induction fuel as [|fuel IH]; intros seen queue Hs Hq; cbn [closure]; [auto|].
  destruct queue as [|y queue]; [auto|]. apply IH; [|set_solver].
  intros z [Hz|Hz]%elem_of_app; [auto|]. apply elem_add_unseen in Hz as [Hz _].
  apply (reach_next _ _ y); [|done]. apply Hs, Hq. left.
Qed.
Lemma closure_keeps fuel next seen queue x : x ∈ seen → x ∈ closure fuel next seen queue.
Proof.
  revert seen queue. induction fuel as [|fuel IH]; intros seen queue Hx; cbn [closure]; [done|].
  destruct queue; [done|]. apply IH. set_solver.
Qed.
Lemma closure_complete fuel next targets seen queue :
  (∀ x y, y ∈ next x → y ∈ targets) → (length queue + length (unseen targets seen) ≤ fuel)%nat →
  (∀ x y, x ∈ seen → x ∉ queue → y ∈ next x → y ∈ seen) →
  ∀ x y, x ∈ closure fuel next seen queue → y ∈ next x → y ∈ closure fuel next seen queue.
Proof.
  intros Ht. revert seen queue. induction fuel as [|fuel IH]; intros seen queue Hf Hd; cbn [closure].
  { intros x y Hx. apply Hd; [done|]. destruct queue; [set_solver|cbn in Hf; lia]. }
  destruct queue as [|z queue]; [intros x y Hx; apply Hd; set_solver|]. apply IH.
  - pose proof (unseen_step targets seen (add_unseen seen (next z)) (NoDup_add_unseen _ _)) as Hu.
    rewrite length_app. cbn in Hf. assert (Hx : ∀ x, x ∈ add_unseen seen (next z) → x ∈ targets ∧ x ∉ seen).
    { intros x [? ?]%elem_add_unseen. eauto. }
    specialize (Hu Hx). lia.
  - intros x y Hx Hn Hy. rewrite elem_of_app in *. destruct (decide (y ∈ seen)) as [|Hys]; [by left|]. right.
    apply elem_add_unseen. split; [|done]. destruct (decide (x = z)) as [->|Hxz]; [done|]. exfalso. apply Hys.
    destruct Hx as [Hx|Hx]; [|exfalso; apply Hn; set_solver]. apply (Hd x); [done| |done]. set_solver.
Qed.

Lemma length_remove_dups (l : list sval) : (length (remove_dups l) ≤ length l)%nat.
Proof. induction l as [|x l IH]; [done|]. cbn. case_decide; cbn; lia. Qed.

(** The queue of the role hierarchy empties: what it collects is what can
    be reached, whatever cycles the rows have. *)
Lemma closure_exact sc id parent status rs first x :
  x ∈ closure (length first + length rs) (parents_of sc id parent status rs) first first ↔
  reaches (parents_of sc id parent status rs) first x.
Proof.
  set (next := parents_of sc id parent status rs). split.
  - apply closure_sound; [|done]. intros y Hy. by apply reach_start.
  - assert (Hc := closure_complete (length first + length rs) next (map (λ r, row_val sc r parent) rs) first first).
    induction 1 as [y Hy|y z _ IH Hz]; [by apply closure_keeps|]. apply (Hc) with y; [|  |set_solver|done|done].
    + intros a b Hb. unfold next, parents_of in Hb. apply list_elem_of_fmap in Hb as (r & -> & Hr).
      apply list_elem_of_filter in Hr as [_ Hr]. apply list_elem_of_fmap. eauto.
    + apply Nat.add_le_mono_l. unfold unseen. etrans; [apply sublist_length, sublist_filter|]. etrans; [apply length_remove_dups|]. by rewrite length_map.
Qed.

(* ------------------------------------------------------------------ *)
(** ** Rows of a database *)

Lemma filter_ext_eq {A} (f g : A → bool) (l : list A) : (∀ x, f x = g x) → filter (λ x, f x = true) l = filter (λ x, g x = true) l.
Proof. intros H. apply list_filter_iff. intros x. by rewrite H. Qed.
Lemma perm_short {A} (l k : list A) : l ≡ₚ k → (length k ≤ 1)%nat → l = k.
Proof.
  intros Hp Hk. destruct k as [|x [|y k]]; [by apply Permutation_nil_r in Hp| |cbn in Hk; lia].
  by apply Permutation_singleton_r in Hp.
Qed.

Section Tables.
Context (fold : bool) (cat : catalog).

Definition col_of (t c : cstr) (r : row) : sval := row_val (schema_of cat t) r c.
Definition val_is (t c : cstr) (v : sval) (r : row) : bool := bool_decide (col_of t c r = v).

(** A condition [c = ?n] with a value of its column. *)
Lemma sat_eq t c n v args r :
  arg args n = v → v ≠ SNull → coerce (col_is_int (schema_of cat t) c) v = v →
  sat fold (schema_of cat t) args r (CCmp c CEq (Param n)) = val_is t c v r.
Proof.
  intros Ha Hv Hc. cbn [sat ev]. rewrite Ha, Hc. unfold val_is, col_of, holds_cmp.
  destruct (row_val (schema_of cat t) r c); [|by destruct v..].
  rewrite bool_decide_eq_false_2 by congruence. done.
Qed.

(** At most one row has a generated number. *)
Lemma one_number t d z :
  table_wf (schema_of cat t) d → sc_auto (schema_of cat t) = true → (∀ r, col_of t "id" r = default SNull (r !! 0%nat)) →
  (length (filter (λ r, val_is t "id" (SInt z) r = true) (td_rows d)) ≤ 1)%nat.
Proof.
  intros [_ _ _ H] Ha Hc. destruct (H Ha) as [Hn Hd]. clear H.
  revert Hn Hd. induction (td_rows d) as [|r l IH]; [cbn; lia|].
  intros [_ Hn]%Forall_cons Hd. cbn [map] in Hd. apply NoDup_cons in Hd as [Hr Hd]. specialize (IH Hn Hd).
  rewrite filter_cons. case_decide as Hv; [|done]. cbn [length].
  enough (filter (λ x, val_is t "id" (SInt z) x = true) l = []) as -> by (cbn; lia).
  apply filter_nothing. intros y Hy. unfold val_is in *. rewrite !bool_decide_eq_true in *.
  rewrite Hc in *. intros Hz. apply Hr. apply list_elem_of_fmap. exists y. split; [|done].
  destruct (r !! 0%nat), (y !! 0%nat); cbn in *; congruence.
Qed.

(** An insertion into a table with generated numbers. *)
Lemma insert_number t cols vals ret args (mk : Z → row) db :
  let d := data_of db t in let z := td_seq d + 1 in
  sc_auto (schema_of cat t) = true →
  (∀ z, new_row (schema_of cat t) (Some cols) (map (ev args no_row) vals) z = mk (z + 1)) →
  (∀ z, null_ok (schema_of cat t) (mk z) = true) → z < 2 ^ 63 →
  sql_write fold cat (Insert Refuse t (Some cols) vals ret) args db =
  if existsb (clash (schema_of cat t) (mk z)) (td_rows d) then (SQLITE_CONSTRAINT, 0, <[t := d]> db)
  else (SQLITE_DONE, z, <[t := {| td_rows := td_rows d ++ [mk z]; td_seq := z |}]> db).
Proof.
  intros d z Ha Hnew Hnull Hlt. cbn [sql_write]. fold d. rewrite Hnew. fold z. unfold insert_row. rewrite Ha, Hnull. cbn [andb negb].
  rewrite (proj2 (Z.leb_gt _ _)) by (unfold z in *; lia).
  destruct (existsb _ (td_rows d)) eqn:Ex.
  - destruct (filter (λ x, clash (schema_of cat t) (mk z) x = true) (td_rows d)) as [|h hs] eqn:Eh; [|done].
    apply existsb_exists in Ex as (x & Hx & Hc). exfalso. apply (not_elem_of_nil x). rewrite <- Eh.
    apply list_elem_of_filter. split; [done|]. by apply list_elem_of_In.
  - rewrite filter_nothing; [done|]. intros x Hx Hc. rewrite <- not_true_iff_false in Ex. apply Ex. apply existsb_exists.
    exists x. split; [by apply list_elem_of_In|done].
Qed.

(** The new row is found by its number, and by a unique column. *)
Lemma found_by_number t d rows r z :
  table_wf (schema_of cat t) d → td_rows d = rows ++ [r] → sc_auto (schema_of cat t) = true →
  (∀ r, col_of t "id" r = default SNull (r !! 0%nat)) → r !! 0%nat = Some (SInt z) →
  filter (λ r, val_is t "id" (SInt z) r = true) (td_rows d) = [r].
Proof.
  intros Hw Ht Ha Hc Hr. pose proof (one_number t d z Hw Ha Hc) as Hl. rewrite Ht, filter_app in *.
  rewrite (filter_cons_True _ r []) in *; [|unfold val_is; rewrite Hc, Hr; by apply bool_decide_eq_true..].
  rewrite length_app in Hl. cbn [length] in Hl. destruct (filter _ rows); [done|cbn [length] in Hl; lia].
Qed.
Lemma found_by_column t rows r c v :
  col_of t c r = v → Forall (λ x, col_of t c x ≠ v) rows → filter (λ r, val_is t c v r = true) (rows ++ [r]) = [r].
Proof.
  intros Hr Hn. rewrite filter_app, filter_nothing.
  - rewrite (filter_cons_True _ r []); [done|]. unfold val_is. by apply bool_decide_eq_true.
  - intros x Hx. unfold val_is. rewrite bool_decide_eq_true. rewrite Forall_forall in Hn. by apply Hn.
Qed.

(** Rows that clash when their names are equal. *)
Lemma clash_name t n r x :
  sc_unique (schema_of cat t) = [["name" : cstr]] → col_of t "name" r = SText n →
  clash (schema_of cat t) r x = bool_decide (col_of t "name" x = SText n).
Proof.
  intros Hu Hn. unfold clash, agree. rewrite Hu. cbn [existsb forallb]. unfold col_of in *. rewrite Hn.
  rewrite bool_decide_eq_false_2 by done. rewrite andb_true_r, orb_false_r. apply bool_decide_ext. naive_solver.
Qed.
Lemma existsb_name t n r l :
  sc_unique (schema_of cat t) = [["name" : cstr]] → col_of t "name" r = SText n →
  existsb (clash (schema_of cat t) r) l = negb (bool_decide (Forall (λ x, col_of t "name" x ≠ SText n) l)).
Proof.
  intros Hu Hn. induction l as [|x l IH]; [done|]. cbn [existsb]. rewrite (clash_name t n) by done.
  rewrite IH. destruct (decide (col_of t "name" x = SText n)) as [Hx|Hx].
  - rewrite (bool_decide_eq_true_2 _ Hx). cbn [orb]. rewrite bool_decide_eq_false_2; [done|]. rewrite Forall_cons. tauto.
  - rewrite (bool_decide_eq_false_2 _ Hx). cbn [orb]. f_equal. apply bool_decide_ext. rewrite Forall_cons. tauto.
Qed.
End Tables.

(** Values that columns of numbers are given. *)
Definition number_arg (args : list sval) (e : expr) : bool := match ev args no_row e with SText _ => false | _ => true end.
Definition typed_arg (sc : schema) (args : list sval) (ce : list ascii * expr) : bool := negb (col_is_int sc ce.1) || number_arg args ce.2.
Fixpoint typed_cond (sc : schema) (args : list sval) (w : cond) : bool :=
  match w with
  | CAll => true
  | CCmp c _ e => typed_arg sc args (c, e)
  | CAnd a b | COr a b => typed_cond sc args a && typed_cond sc args b
  end.
Definition number_opt (args : list sval) (e : option expr) : bool := match e with Some e => number_arg args e | None => true end.
Definition typed_args (cat : catalog) (st : statement) (args : list sval) : bool :=
  match st with
  | Insert c t cols vals _ =>
      forallb (typed_arg (schema_of cat t) args) (zip (given cols (schema_of cat t)) vals) &&
      match c with Upsert _ sets => forallb (typed_arg (schema_of cat t) args) sets | _ => true end
  | Select _ t w _ limit offset => typed_cond (schema_of cat t) args w && number_opt args limit && number_opt args offset
  | Update t sets w => forallb (typed_arg (schema_of cat t) args) sets && typed_cond (schema_of cat t) args w
  | Delete t w => typed_cond (schema_of cat t) args w
  | Closure _ _ _ start _ _ _ _ => number_arg args start
  end.

(** The tests a text passes whatever its values are. *)
Definition change_fits (cat : catalog) (sql : cstr) (args : list sval) : bool :=
  match sql_parse sql with
  | Some st => statement_ok cat st && typed_args cat st args && negb (is_query st) && leaves_ids cat st
  | None => false
  end.
Definition query_fits (cat : catalog) (sql : cstr) (args : list sval) : bool :=
  match sql_parse sql with
  | Some st => statement_ok cat st && typed_args cat st args && is_query st
  | None => false
  end.

(** Constructors of tables, as the schema files write them. *)
Definition TEXT (n : cstr) (d : sval) : column := {| c_name := n; c_int := false; c_default := d; c_not_null := false |}.
Definition INTEGER (n : cstr) (d : sval) : column := {| c_name := n; c_int := true; c_default := d; c_not_null := false |}.
Definition NOT_NULL (c : column) : column := {| c_name := c_name c; c_int := c_int c; c_default := c_default c; c_not_null := true |}.
Definition numbered_table (cols : list column) (u : list cstr) : schema :=
  {| sc_cols := INTEGER "id" SNull :: cols; sc_unique := map (λ c, [c]) u; sc_auto := true |}.
Definition keyed_table (cols : list column) (key : list cstr) : schema := {| sc_cols := cols; sc_unique := [key]; sc_auto := false |}.

(** Tables given as lists. *)
Lemma table_wf_empty sc : table_wf sc empty_table.
Proof. split; cbn; [constructor|done|lia|]. intros _. split; constructor. Qed.
Lemma db_wf_insert cat db t d : db_wf cat db → table_wf (schema_of cat t) d → db_wf cat (<[t := d]> db).
Proof. intros Hw Hd t'. rewrite data_insert. by destruct (decide (t = t')) as [<-|]. Qed.
Lemma db_wf_empty cat : db_wf cat ∅.
Proof. intros t. unfold data_of. rewrite lookup_empty. apply table_wf_empty. Qed.
