(* ===== verification/Sqlite.v ===== *)
(** * The SQLite backend (src/storage_sqlite.c)

    Every operation prepares one or a few texts, binds values and steps.
    The texts are those of the source; the library is a class that answers
    a text with its rows, the code of the last step and the generated
    number. *)

From S2P Require Import Prelude CLib CNum Types Storage Printf Http Redis Sql.

Inductive sqlite_answer := Prepare_failed | Stepped (rows : list row) (last : step_rc) (rowid : Z).

(** A text with its bound values, by position; what is bound past the
    parameters of a text is ignored. *)
Class Sqlite (D : Type) := { sqlite_run : cstr → list sval → D → sqlite_answer * D }.

(** The handle: [priv->db] is NULL until the backend is opened. *)
Record sqlite_state (D : Type) := { sq_open : bool; sq_db : D }.
Arguments Build_sqlite_state {D} _ _.
Arguments sq_open {D} _.
Arguments sq_db {D} _.
Definition sq_set {D} (d : D) (s : sqlite_state D) : sqlite_state D := {| sq_open := sq_open s; sq_db := d |}.

(** Texts go to the reading connection of a thread, if it has one, when
    they begin with SELECT. *)
Definition upper_ascii (c : ascii) : ascii := if (97 <=? ord c) && (ord c <=? 122) then chr (ord c - 32) else c.
Definition sqlite_route_conn (has_read : bool) (sql : cstr) : bool :=
  has_read && starts_with "SELECT" (map upper_ascii (take 6 (skip_while (λ c, char_in [" "%char; chr 9; chr 10; chr 13] c) sql))).

(* ------------------------------------------------------------------ *)
(** ** Columns *)

(** [sqlite3_column_text], [..._int64] and [..._int]: texts read as
    numbers up to their first other character, numbers as their digits. *)
Definition column_text (r : row) (i : nat) : option cstr :=
  match default SNull (r !! i) with SNull => None | SInt z => Some (print_lld z) | SText t => Some (c_str t) end.
Definition column_int64 (r : row) (i : nat) : Z :=
  match default SNull (r !! i) with SNull => 0 | SInt z => z | SText t => atoll t end.
Definition column_int (r : row) (i : nat) : Z := s32 (column_int64 r i).
Definition COL_ID (r : row) (i : nat) : Z := u64 (column_int64 r i).

Definition text_or_null (t : cstr) : sval := match t with [] => SNull | _ => SText t end.
Definition bind_id (z : Z) : sval := SInt (s64 z).

Definition bind_user (u : user_t) : list sval :=
  [text_or_null (u_username u); text_or_null (u_phone u); SText (u_password_hash u); SText (u_email u); SText (u_display_name u);
   SInt (user_status_int (u_status u)); SInt (u_created_at u); SInt (u_updated_at u); SText (u_attributes u);
   SInt (u_mfa_enabled u); SText (u_mfa_secret u); SInt (u_password_set_at u)].
Definition read_user (r : row) : user_t :=
  {| u_id := COL_ID r 0; u_username := sso_strlcpy (column_text r 1) 64; u_phone := sso_strlcpy (column_text r 2) 32;
     u_password_hash := sso_strlcpy (column_text r 3) 256; u_email := sso_strlcpy (column_text r 4) 128;
     u_display_name := sso_strlcpy (column_text r 5) 128; u_status := user_status_of (column_int r 6);
     u_created_at := column_int64 r 7; u_updated_at := column_int64 r 8; u_attributes := sso_strlcpy (column_text r 9) 2048;
     u_mfa_enabled := column_int r 10; u_mfa_secret := sso_strlcpy (column_text r 11) 64; u_password_set_at := column_int64 r 12 |}.

Definition bind_role (r : role_t) : list sval :=
  [SText (r_name r); SText (r_description r); bind_id (r_parent_role_id r); SInt (role_status_int (r_status r));
   SInt (r_created_at r); SInt (r_updated_at r)].
Definition read_role (r : row) : role_t :=
  {| r_id := COL_ID r 0; r_name := sso_strlcpy (column_text r 1) 64; r_description := sso_strlcpy (column_text r 2) 512;
     r_parent_role_id := COL_ID r 3; r_status := role_status_of (column_int r 4); r_created_at := column_int64 r 5;
     r_updated_at := column_int64 r 6 |}.

Definition bind_group (g : group_t) : list sval :=
  [SText (g_name g); SText (g_description g); bind_id (g_parent_group_id g); SInt (group_status_int (g_status g));
   SInt (g_created_at g); SInt (g_updated_at g)].
Definition read_group (r : row) : group_t :=
  {| g_id := COL_ID r 0; g_name := sso_strlcpy (column_text r 1) 64; g_description := sso_strlcpy (column_text r 2) 512;
     g_parent_group_id := COL_ID r 3; g_status := group_status_of (column_int r 4); g_created_at := column_int64 r 5;
     g_updated_at := column_int64 r 6 |}.

Definition bind_policy (p : policy_t) : list sval :=
  [SText (p_name p); SInt (perm_strategy_int (p_strategy_type p)); SInt (policy_effect_int (p_effect p)); SInt (p_priority p);
   SText (p_rules p); SInt (policy_status_int (p_status p)); SInt (p_created_at p); SInt (p_updated_at p)].
Definition read_policy (r : row) : policy_t :=
  {| p_id := COL_ID r 0; p_name := sso_strlcpy (column_text r 1) 64; p_strategy_type := perm_strategy_of (column_int r 2);
     p_effect := policy_effect_of (column_int r 3); p_priority := column_int r 4; p_rules := sso_strlcpy (column_text r 5) 8192;
     p_status := policy_status_of (column_int r 6); p_created_at := column_int64 r 7; p_updated_at := column_int64 r 8 |}.

Definition bind_oauth_client (c : oauth_client_t) : list sval :=
  [SText (cl_client_id c); SText (cl_client_secret_hash c); SText (cl_redirect_uris c); SText (cl_app_name c);
   SText (cl_app_description c); SText (cl_app_logo_url c); SText (cl_allowed_scopes c); SText (cl_allowed_grant_types c);
   SInt (cl_token_ttl_ms c); SInt (cl_status c); SInt (cl_created_at c); SInt (cl_updated_at c)].
Definition read_oauth_client (r : row) : oauth_client_t :=
  {| cl_id := COL_ID r 0; cl_client_id := sso_strlcpy (column_text r 1) 63; cl_client_secret_hash := sso_strlcpy (column_text r 2) 127;
     cl_redirect_uris := sso_strlcpy (column_text r 3) 511; cl_app_name := sso_strlcpy (column_text r 4) 127;
     cl_app_description := sso_strlcpy (column_text r 5) 255; cl_app_logo_url := sso_strlcpy (column_text r 6) 255;
     cl_allowed_scopes := sso_strlcpy (column_text r 7) 255; cl_allowed_grant_types := sso_strlcpy (column_text r 8) 127;
     cl_token_ttl_ms := column_int64 r 9; cl_status := column_int r 10; cl_created_at := column_int64 r 11;
     cl_updated_at := column_int64 r 12 |}.

Definition read_code (r : row) : oauth_auth_code_t :=
  {| oc_code := sso_strlcpy (column_text r 0) 127; oc_client_id := sso_strlcpy (column_text r 1) 63; oc_user_id := COL_ID r 2;
     oc_redirect_uri := sso_strlcpy (column_text r 3) 511; oc_scope := sso_strlcpy (column_text r 4) 255;
     oc_nonce := sso_strlcpy (column_text r 5) 127; oc_code_challenge := sso_strlcpy (column_text r 6) 255;
     oc_code_challenge_method := sso_strlcpy (column_text r 7) 15; oc_expires_at := column_int64 r 8; oc_used := column_int r 9 |}.
Definition read_refresh (r : row) : refresh_token_t :=
  {| rt_token_hash := sso_strlcpy (column_text r 0) 127; rt_user_id := COL_ID r 1; rt_client_id := sso_strlcpy (column_text r 2) 63;
     rt_expires_at := column_int64 r 3; rt_issued_at := column_int64 r 4; rt_revoked := column_int r 5 |}.

(* ------------------------------------------------------------------ *)
(** ** Steps *)

(** The code of the first step. *)
Inductive first_rc := SQLITE_ROW (r : row) | Last (rc : step_rc).
Definition first_step (rows : list row) (last : step_rc) : first_rc := match rows with r :: _ => SQLITE_ROW r | [] => Last last end.

Definition done_or_storage (rows : list row) (last : step_rc) (_ : Z) : result unit :=
  match first_step rows last with Last SQLITE_DONE => Ok () | _ => Err SSO_ERR_STORAGE end.
(** Constraint violations count as success. *)
Definition done_or_constraint (rows : list row) (last : step_rc) (_ : Z) : result unit :=
  match first_step rows last with Last (SQLITE_DONE | SQLITE_CONSTRAINT) => Ok () | _ => Err SSO_ERR_STORAGE end.
Definition inserted {A} (with_id : Z → A) (rows : list row) (last : step_rc) (rowid : Z) : result A :=
  match first_step rows last with
  | Last SQLITE_DONE => Ok (with_id (u64 rowid))
  | Last SQLITE_CONSTRAINT => Err SSO_ERR_ALREADY_EXISTS
  | _ => Err SSO_ERR_STORAGE
  end.
Definition one_row {A} (read : row → A) (rows : list row) (last : step_rc) (_ : Z) : result A :=
  match first_step rows last with SQLITE_ROW r => Ok (read r) | _ => Err SSO_ERR_NOT_FOUND end.
(** The loop stops at [max] rows or at the first code that is no row. *)
Definition ids_of_rows (max : nat) (rows : list row) (_ : step_rc) (_ : Z) : result (list Z) :=
  match take max (map (λ r, COL_ID r 0) rows) with [] => Err SSO_ERR_NOT_FOUND | ids => Ok ids end.

(* ------------------------------------------------------------------ *)
(** ** The texts *)

Definition SQL_user_create : cstr :=
  "INSERT INTO users (username, phone, password_hash, email, display_name, status, created_at, updated_at, attributes, mfa_enabled, mfa_secret) VALUES (?1,?2,?3,?4,?5,?6,?7,?8,?9,?10,?11)".
Definition SQL_get_by_id (table : cstr) : cstr := snprintf 128 (("SELECT * FROM " : cstr) ++ table ++ (" WHERE id=?1" : cstr)).
Definition SQL_get_by_name (table : cstr) : cstr := snprintf 128 (("SELECT * FROM " : cstr) ++ table ++ (" WHERE name=?1" : cstr)).
Definition SQL_user_by_name : cstr := "SELECT * FROM users WHERE username=?1".
Definition SQL_user_by_phone : cstr := "SELECT * FROM users WHERE phone=?1".
Definition SQL_user_update : cstr :=
  "UPDATE users SET phone=?1, password_hash=?2, email=?3, display_name=?4, status=?5, updated_at=?6, attributes=?7, mfa_enabled=?8, mfa_secret=?9, password_set_at=?10 WHERE id=?11".
Definition SQL_delete (table : cstr) : cstr := snprintf 128 (("DELETE FROM " : cstr) ++ table ++ (" WHERE id=?1" : cstr)).
Definition SQL_role_update : cstr := "UPDATE roles SET name=?1, description=?2, parent_role_id=?3, status=?4, updated_at=?5 WHERE id=?6".
Definition SQL_group_update : cstr := "UPDATE groups_t SET name=?1, description=?2, parent_group_id=?3, status=?4, updated_at=?5 WHERE id=?6".
Definition SQL_policy_update : cstr :=
  "UPDATE policies SET name=?1, strategy_type=?2, effect=?3, priority=?4, rules=?5, status=?6, updated_at=?7 WHERE id=?8".
Definition SQL_role_create : cstr :=
  "INSERT INTO roles (name, description, parent_role_id, status, created_at, updated_at) VALUES (?1,?2,?3,?4,?5,?6)".
Definition SQL_group_create : cstr :=
  "INSERT INTO groups_t (name, description, parent_group_id, status, created_at, updated_at) VALUES (?1,?2,?3,?4,?5,?6)".
Definition SQL_policy_create : cstr :=
  "INSERT INTO policies (name, strategy_type, effect, priority, rules, status, created_at, updated_at) VALUES (?1,?2,?3,?4,?5,?6,?7,?8)".
Definition SQL_ancestors : cstr :=
  "WITH RECURSIVE user_role_tree(role_id) AS (  SELECT ur.role_id FROM user_roles ur WHERE ur.user_id = ?1  UNION  SELECT r.parent_role_id FROM roles r  INNER JOIN user_role_tree ut ON r.id = ut.role_id  WHERE r.parent_role_id != 0 AND r.status = 1)SELECT DISTINCT t.role_id FROM user_role_tree t INNER JOIN roles r ON t.role_id = r.id WHERE r.status = 1".
Definition SQL_save_sms : cstr :=
  "INSERT INTO sms_codes (phone, code, expires_at, attempts) VALUES (?1, ?2, ?3, 0) ON CONFLICT(phone) DO UPDATE SET code=excluded.code, expires_at=excluded.expires_at, attempts=0".
Definition SQL_code_create : cstr :=
  "INSERT INTO oauth_auth_codes (code,client_id,user_id,redirect_uri,scope,nonce,code_challenge,code_challenge_method,expires_at,used) VALUES(?1,?2,?3,?4,?5,?6,?7,?8,?9,0)".
Definition SQL_code_get : cstr :=
  "SELECT code,client_id,user_id,redirect_uri,scope,nonce,code_challenge,code_challenge_method,expires_at,used FROM oauth_auth_codes WHERE code=?1".
Definition SQL_client_create : cstr :=
  "INSERT INTO oauth_clients (client_id, client_secret_hash, redirect_uris, app_name, app_description, app_logo_url, allowed_scopes, allowed_grant_types, token_ttl_ms, status, created_at, updated_at) VALUES (?,?,?,?,?,?,?,?,?,?,?,?)".
Definition SQL_client_cols : cstr :=
  "SELECT id, client_id, client_secret_hash, redirect_uris, app_name, app_description, app_logo_url, allowed_scopes, allowed_grant_types, token_ttl_ms, status, created_at, updated_at FROM oauth_clients ".
Definition SQL_client_update : cstr :=
  "UPDATE oauth_clients SET client_id=?, client_secret_hash=?, redirect_uris=?, app_name=?, app_description=?, app_logo_url=?, allowed_scopes=?, allowed_grant_types=?, token_ttl_ms=?, status=?, created_at=?, updated_at=? WHERE id=?".
Definition SQL_refresh_create : cstr :=
  "INSERT INTO refresh_tokens (token_hash, user_id, client_id, expires_at, issued_at, revoked) VALUES (?, ?, ?, ?, ?, ?)".
Definition SQL_refresh_get : cstr :=
  "SELECT token_hash, user_id, client_id, expires_at, issued_at, revoked FROM refresh_tokens WHERE token_hash = ?".
Definition SQL_audit_write : cstr :=
  "INSERT INTO audit_logs (action, timestamp_ms, user_id, username, ip_address, operation, resource, resource_id, status, details, duration_ms, cache_hit, trace) VALUES (?, ?, ?, ?, ?, ?, ?, ?, ?, ?, ?, ?, ?);".
Definition SQL_audit_cols : cstr :=
  "SELECT action, timestamp_ms, user_id, username, ip_address, operation, resource, resource_id, status, details, duration_ms, cache_hit, trace FROM audit_logs ".

(** The listings build their condition: [search] is the clause of the
    table. *)
Definition has_text (q : option cstr) : bool := match q with Some (_ :: _) => true | _ => false end.
Definition list_where (search : cstr) (q : option cstr) (status : Z) : cstr :=
  if has_text q || negb (status =? -1) then
    (" WHERE " : cstr) ++ (if status =? -1 then [] else ("status = ? " : cstr)) ++
    (if has_text q then (if status =? -1 then [] else (" AND " : cstr)) ++ "("%char :: search ++ [")"%char] else [])
  else [].
Definition SQL_count (table : cstr) (w : cstr) : cstr := snprintf 1024 (("SELECT COUNT(*) FROM " : cstr) ++ table ++ " "%char :: w).
Definition SQL_page (table : cstr) (w : cstr) : cstr :=
  snprintf 1024 (("SELECT id FROM " : cstr) ++ table ++ " "%char :: w ++ (" ORDER BY id LIMIT ? OFFSET ?" : cstr)).
Definition q_pattern (q : cstr) : cstr := snprintf 1026 ("%"%char :: q ++ ["%"%char]).
Definition list_args (search : cstr) (q : option cstr) (status : Z) : list sval :=
  (if status =? -1 then [] else [SInt status]) ++
  match q with Some ((_ :: _) as q) => replicate (count_occ ascii_dec search "?"%char) (SText (q_pattern q)) | _ => [] end.

(* ------------------------------------------------------------------ *)
(** ** Operations *)

Section Backend.
Context {D : Type} `{!Sqlite D} (now : Z).
Notation state := (sqlite_state D).

Definition prepared {A} (sql : cstr) (args : list sval) (k : list row → step_rc → Z → result A) : storage_op state A := λ s,
  let '(a, d) := sqlite_run sql args (sq_db s) in
  Ret (match a with Prepare_failed => Err SSO_ERR_STORAGE | Stepped rows last id => k rows last id end, sq_set d s).

(** [if (!priv || !priv->db) return SSO_ERR_STORAGE;], where it is asked. *)
Definition db_opened {A} (m : storage_op state A) : storage_op state A := λ s, if sq_open s then m s else Ret (Err SSO_ERR_STORAGE, s).
Definition unchecked {A} (m : storage_op state A) : storage_op state A := λ s, if sq_open s then m s else Crash.

(** One operation after another, whatever the first returns. *)
Definition also {A B} (m : storage_op state A) (k : storage_op state B) : storage_op state B := λ s, '(_, s) ← m s; k s.

Definition sqlite_user_create (user : user_t) : storage_op state user_t :=
  db_opened (prepared SQL_user_create (bind_user user) (inserted (λ id, set_user_id id user))).
Definition get_by_id {A} (table : cstr) (read : row → A) (id : Z) : storage_op state A :=
  db_opened (prepared (SQL_get_by_id table) [bind_id id] (one_row read)).
Definition sqlite_user_get_by_id : Z → storage_op state user_t := get_by_id "users" read_user.
Definition sqlite_role_get_by_id : Z → storage_op state role_t := get_by_id "roles" read_role.
Definition sqlite_group_get_by_id : Z → storage_op state group_t := get_by_id "groups_t" read_group.
Definition sqlite_policy_get_by_id : Z → storage_op state policy_t := get_by_id "policies" read_policy.
Definition sqlite_user_get_by_name (n : cstr) : storage_op state user_t := db_opened (prepared SQL_user_by_name [SText n] (one_row read_user)).
Definition sqlite_user_get_by_phone (p : cstr) : storage_op state user_t := db_opened (prepared SQL_user_by_phone [SText p] (one_row read_user)).
Definition get_by_name {A} (table : cstr) (read : row → A) (n : cstr) : storage_op state A :=
  db_opened (prepared (SQL_get_by_name table) [SText n] (one_row read)).
Definition sqlite_role_get_by_name : cstr → storage_op state role_t := get_by_name "roles" read_role.
Definition sqlite_group_get_by_name : cstr → storage_op state group_t := get_by_name "groups_t" read_group.
Definition sqlite_policy_get_by_name : cstr → storage_op state policy_t := get_by_name "policies" read_policy.

(** An empty phone is bound as a text here. *)
Definition sqlite_user_update (user : user_t) : storage_op state unit :=
  db_opened (prepared SQL_user_update
    [SText (u_phone user); SText (u_password_hash user); SText (u_email user); SText (u_display_name user);
     SInt (user_status_int (u_status user)); SInt (u_updated_at user); SText (u_attributes user); SInt (u_mfa_enabled user);
     SText (u_mfa_secret user); SInt (u_password_set_at user); bind_id (u_id user)] done_or_storage).

Definition cascade_delete (sql : cstr) (id : Z) : storage_op state unit := prepared sql [bind_id id] (λ _ _ _, Ok ()).
Definition sqlite_users_delete (id : Z) : storage_op state unit := db_opened (
  also (cascade_delete "DELETE FROM user_roles WHERE user_id=?1" id) (
  also (cascade_delete "DELETE FROM user_groups WHERE user_id=?1" id) (
  also (cascade_delete "DELETE FROM policy_assignments WHERE target_type=0 AND target_id=?1" id) (
  prepared "DELETE FROM users WHERE id=?1" [bind_id id] done_or_storage)))).
Definition sqlite_roles_delete (id : Z) : storage_op state unit := db_opened (
  also (cascade_delete "DELETE FROM user_roles WHERE role_id=?1" id) (
  also (cascade_delete "DELETE FROM role_groups WHERE role_id=?1" id) (
  also (cascade_delete "DELETE FROM policy_assignments WHERE target_type=1 AND target_id=?1" id) (
  prepared "DELETE FROM roles WHERE id=?1" [bind_id id] done_or_storage)))).
Definition sqlite_groups_t_delete (id : Z) : storage_op state unit := db_opened (
  also (cascade_delete "DELETE FROM user_groups WHERE group_id=?1" id) (
  also (cascade_delete "DELETE FROM role_groups WHERE group_id=?1" id) (
  also (cascade_delete "DELETE FROM policy_assignments WHERE target_type=2 AND target_id=?1" id) (
  prepared "DELETE FROM groups_t WHERE id=?1" [bind_id id] done_or_storage)))).
Definition sqlite_policies_delete (id : Z) : storage_op state unit :=
  db_opened (prepared (SQL_delete "policies") [bind_id id] done_or_storage).

(** The number of rows, then a page of them; [total] is 0 when the first
    query gives no row. *)
Definition paginated (table search : cstr) : list_op state := λ q status offset limit, db_opened (λ s,
  let w := list_where search q status in
  let args := list_args search q status in
  '(total, s) ← prepared (SQL_count table w) args
      (λ rows last _, Ok (match first_step rows last with SQLITE_ROW r => COL_ID r 0 | Last _ => 0 end)) s;
  match total with
  | Err e => Ret (Err e, s)
  | Ok total =>
      prepared (SQL_page table w) (args ++ [SInt limit; SInt offset]) (λ rows _ _, Ok (map (λ r, COL_ID r 0) rows, total)) s
  end).
Definition sqlite_users_list : list_op state := paginated "users" "username LIKE ? OR display_name LIKE ? OR email LIKE ? OR phone LIKE ?".
Definition sqlite_roles_list : list_op state := paginated "roles" "name LIKE ? OR description LIKE ?".
Definition sqlite_groups_t_list : list_op state := paginated "groups_t" "name LIKE ? OR description LIKE ?".
Definition sqlite_policies_list : list_op state := paginated "policies" "name LIKE ?".

Definition sqlite_role_update (role : role_t) : storage_op state unit :=
  db_opened (prepared SQL_role_update
    [SText (r_name role); SText (r_description role); bind_id (r_parent_role_id role); SInt (role_status_int (r_status role));
     SInt (r_updated_at role); bind_id (r_id role)] done_or_storage).
Definition sqlite_group_update (group : group_t) : storage_op state unit :=
  db_opened (prepared SQL_group_update
    [SText (g_name group); SText (g_description group); bind_id (g_parent_group_id group); SInt (group_status_int (g_status group));
     SInt (g_updated_at group); bind_id (g_id group)] done_or_storage).
Definition sqlite_policy_update (policy : policy_t) : storage_op state unit :=
  db_opened (prepared SQL_policy_update
    [SText (p_name policy); SInt (perm_strategy_int (p_strategy_type policy)); SInt (policy_effect_int (p_effect policy));
     SInt (p_priority policy); SText (p_rules policy); SInt (policy_status_int (p_status policy)); SInt (p_updated_at policy);
     bind_id (p_id policy)] done_or_storage).

Definition sqlite_role_create (role : role_t) : storage_op state role_t :=
  db_opened (prepared SQL_role_create (bind_role role) (inserted (set_role_id role))).
Definition sqlite_group_create (group : group_t) : storage_op state group_t :=
  db_opened (prepared SQL_group_create (bind_group group) (inserted (set_group_id group))).
Definition sqlite_policy_create (policy : policy_t) : storage_op state policy_t :=
  db_opened (prepared SQL_policy_create (bind_policy policy) (inserted (set_policy_id policy))).

Definition assign_simple2 (sql : cstr) (id1 id2 : Z) : storage_op state unit :=
  db_opened (prepared (snprintf 128 sql) [bind_id id1; bind_id id2] done_or_constraint).
Definition sqlite_assign_role_to_user (role_id user_id : Z) : storage_op state unit :=
  assign_simple2 "INSERT OR IGNORE INTO user_roles (user_id, role_id) VALUES (?1,?2)" user_id role_id.
Definition sqlite_unassign_role_user (role_id user_id : Z) : storage_op state unit :=
  assign_simple2 "DELETE FROM user_roles WHERE user_id=?1 AND role_id=?2" user_id role_id.
Definition sqlite_assign_role_to_group (role_id group_id : Z) : storage_op state unit :=
  assign_simple2 "INSERT OR IGNORE INTO role_groups VALUES (?1,?2)" role_id group_id.
Definition sqlite_unassign_role_group (role_id group_id : Z) : storage_op state unit :=
  assign_simple2 "DELETE FROM role_groups WHERE role_id=?1 AND group_id=?2" role_id group_id.
Definition sqlite_add_user_to_group (group_id user_id : Z) : storage_op state unit :=
  assign_simple2 "INSERT OR IGNORE INTO user_groups VALUES (?1,?2)" user_id group_id.
Definition sqlite_remove_user_from_group (group_id user_id : Z) : storage_op state unit :=
  assign_simple2 "DELETE FROM user_groups WHERE user_id=?1 AND group_id=?2" user_id group_id.

Definition sqlite_get_user_roles : ids_op state := λ user_id max,
  db_opened (prepared "SELECT role_id FROM user_roles WHERE user_id=?1" [bind_id user_id] (ids_of_rows max)).
Definition sqlite_get_role_users : ids_op state := λ role_id max,
  db_opened (prepared "SELECT user_id FROM user_roles WHERE role_id=?1" [bind_id role_id] (ids_of_rows max)).
Definition sqlite_get_user_groups : ids_op state := λ user_id max,
  db_opened (prepared "SELECT group_id FROM user_groups WHERE user_id=?1" [bind_id user_id] (ids_of_rows max)).
Definition sqlite_get_group_users : ids_op state := λ group_id max,
  db_opened (prepared "SELECT user_id FROM user_groups WHERE group_id=?1" [bind_id group_id] (ids_of_rows max)).

Definition sqlite_assign_policy (policy_id : Z) (t : policy_target_type_t) (target_id : Z) : storage_op state unit :=
  db_opened (prepared "INSERT OR IGNORE INTO policy_assignments VALUES (?1,?2,?3)"
    [bind_id policy_id; SInt (policy_target_int t); bind_id target_id] done_or_constraint).
Definition sqlite_unassign_policy (policy_id : Z) (t : policy_target_type_t) (target_id : Z) : storage_op state unit :=
  db_opened (prepared "DELETE FROM policy_assignments WHERE policy_id=?1 AND target_type=?2 AND target_id=?3"
    [bind_id policy_id; SInt (policy_target_int t); bind_id target_id] done_or_storage).
Definition sqlite_get_policy_targets (policy_id : Z) (t : policy_target_type_t) (max : nat) : storage_op state (list Z) :=
  db_opened (prepared "SELECT target_id FROM policy_assignments WHERE policy_id=?1 AND target_type=?2"
    [bind_id policy_id; SInt (policy_target_int t)] (ids_of_rows max)).
Definition sqlite_get_target_policies (t : policy_target_type_t) (target_id : Z) (max : nat) : storage_op state (list Z) :=
  db_opened (prepared "SELECT policy_id FROM policy_assignments WHERE target_type=?1 AND target_id=?2"
    [SInt (policy_target_int t); bind_id target_id] (ids_of_rows max)).

Definition sqlite_role_get_parent (role_id : Z) : storage_op state Z :=
  db_opened (prepared "SELECT parent_role_id FROM roles WHERE id=?1" [bind_id role_id] (one_row (λ r, COL_ID r 0))).
Definition sqlite_group_get_parent (group_id : Z) : storage_op state Z :=
  db_opened (prepared "SELECT parent_group_id FROM groups_t WHERE id=?1" [bind_id group_id] (one_row (λ r, COL_ID r 0))).
Definition sqlite_get_user_roles_with_ancestors : ids_op state := λ user_id max,
  db_opened (prepared SQL_ancestors [bind_id user_id] (ids_of_rows max)).

(* ------------------------------------------------------------------ *)
(** ** Codes and tokens *)

Definition sqlite_save_sms_code (phone code : cstr) (expires_at : Z) : storage_op state unit :=
  db_opened (prepared SQL_save_sms [SText phone; SText code; SInt expires_at] done_or_storage).
Definition sqlite_get_sms_code (phone : cstr) : storage_op state cstr :=
  db_opened (prepared "SELECT code, expires_at FROM sms_codes WHERE phone=?1" [SText phone] (λ rows last _,
    match first_step rows last with
    | SQLITE_ROW r => if column_int64 r 1 <? now then Err SSO_ERR_TOKEN_EXPIRED else Ok (sso_strlcpy (column_text r 0) 15)
    | Last _ => Err SSO_ERR_NOT_FOUND
    end)).
Definition sqlite_delete_sms_code (phone : cstr) : storage_op state unit :=
  db_opened (prepared "DELETE FROM sms_codes WHERE phone=?1" [SText phone] done_or_storage).

Definition sqlite_oauth_code_create (code : oauth_auth_code_t) : storage_op state unit :=
  db_opened (prepared SQL_code_create
    [SText (oc_code code); SText (oc_client_id code); bind_id (oc_user_id code); SText (oc_redirect_uri code); SText (oc_scope code);
     SText (oc_nonce code); SText (oc_code_challenge code); SText (oc_code_challenge_method code); SInt (oc_expires_at code)]
    done_or_storage).
Definition sqlite_oauth_code_get (code : cstr) : storage_op state oauth_auth_code_t :=
  db_opened (prepared SQL_code_get [SText code] (one_row read_code)).
Definition sqlite_oauth_code_mark_used (code : cstr) : storage_op state unit :=
  db_opened (prepared "UPDATE oauth_auth_codes SET used=1 WHERE code=?1" [SText code] done_or_storage).
Definition sqlite_oauth_code_cleanup : storage_op state unit :=
  db_opened (prepared "DELETE FROM oauth_auth_codes WHERE expires_at < ?1 OR used=1" [SInt now] (λ _ _ _, Ok ())).

(** Missing times are filled in, also in the caller's record. *)
Definition client_times (c : oauth_client_t) : oauth_client_t :=
  let created := if cl_created_at c =? 0 then now else cl_created_at c in
  {| cl_id := cl_id c; cl_client_id := cl_client_id c; cl_client_secret_hash := cl_client_secret_hash c;
     cl_redirect_uris := cl_redirect_uris c; cl_app_name := cl_app_name c; cl_app_description := cl_app_description c;
     cl_app_logo_url := cl_app_logo_url c; cl_allowed_scopes := cl_allowed_scopes c; cl_allowed_grant_types := cl_allowed_grant_types c;
     cl_token_ttl_ms := cl_token_ttl_ms c; cl_status := cl_status c; cl_created_at := created;
     cl_updated_at := if cl_updated_at c =? 0 then created else cl_updated_at c |}.
Definition sqlite_oauth_client_create (c : oauth_client_t) : storage_op state oauth_client_t :=
  unchecked (prepared SQL_client_create (bind_oauth_client (client_times c)) (λ rows last rowid,
    match first_step rows last with Last SQLITE_DONE => Ok (set_client_id (u64 rowid) (client_times c)) | _ => Err SSO_ERR_STORAGE end)).
Definition sqlite_oauth_client_get (client_id : cstr) : storage_op state oauth_client_t :=
  unchecked (prepared (SQL_client_cols ++ ("WHERE client_id = ?" : cstr)) [SText client_id] (one_row read_oauth_client)).
Definition sqlite_oauth_client_update (c : oauth_client_t) : storage_op state unit :=
  unchecked (prepared SQL_client_update (bind_oauth_client c ++ [bind_id (cl_id c)]) done_or_storage).
Definition sqlite_oauth_client_delete (client_id : cstr) : storage_op state unit :=
  unchecked (prepared "DELETE FROM oauth_clients WHERE client_id=?" [SText client_id] done_or_storage).
Definition sqlite_oauth_client_list (offset limit : Z) (max : nat) : storage_op state (list oauth_client_t) :=
  unchecked (prepared (SQL_client_cols ++ ("LIMIT ? OFFSET ?" : cstr)) [SInt limit; SInt offset]
    (λ rows _ _, Ok (take max (map read_oauth_client rows)))).

Definition sqlite_refresh_token_create (rt : refresh_token_t) : storage_op state unit :=
  unchecked (prepared SQL_refresh_create
    [SText (rt_token_hash rt); bind_id (rt_user_id rt); text_or_null (rt_client_id rt); SInt (rt_expires_at rt); SInt (rt_issued_at rt);
     SInt (rt_revoked rt)] done_or_storage).
Definition sqlite_refresh_token_get (token_hash : cstr) : storage_op state refresh_token_t :=
  unchecked (prepared SQL_refresh_get [SText token_hash] (one_row read_refresh)).
Definition sqlite_refresh_token_revoke (token_hash : cstr) : storage_op state unit :=
  unchecked (prepared "UPDATE refresh_tokens SET revoked = 1 WHERE token_hash = ?" [SText token_hash] done_or_storage).
Definition sqlite_refresh_token_revoke_family (user_id : Z) (client_id : cstr) : storage_op state unit :=
  unchecked (prepared "UPDATE refresh_tokens SET revoked = 1 WHERE user_id = ? AND client_id = ?" [bind_id user_id; SText client_id]
    done_or_storage).

Definition sqlite_jti_revoke (jti : cstr) (expires_at : Z) : storage_op state unit :=
  unchecked (prepared "INSERT OR REPLACE INTO revoked_jtis (jti, expires_at) VALUES (?, ?)" [SText jti; SInt expires_at] done_or_storage).
Definition sqlite_jti_is_revoked (jti : cstr) (s : state) : outcome (bool * state) :=
  '(r, s) ← unchecked (prepared "SELECT expires_at FROM revoked_jtis WHERE jti = ?" [SText jti] (λ rows last _,
     Ok (match first_step rows last with SQLITE_ROW r => now <? column_int64 r 0 | Last _ => false end))) s;
  Ret (match r with Ok b => b | Err _ => false end, s).

(* ------------------------------------------------------------------ *)
(** ** The audit log *)

Definition text_or_empty (t : option cstr) : sval := SText (default [] t).
Definition sqlite_audit_log_write (e : audit_log_entry_t) : storage_op state unit :=
  unchecked (prepared SQL_audit_write
    [SText (al_action e); bind_id (al_timestamp_ms e); bind_id (al_user_id e); text_or_empty (al_username e); text_or_empty (al_ip_address e);
     text_or_empty (al_operation e); text_or_empty (al_resource e); bind_id (al_resource_id e); SText (al_status e);
     text_or_empty (al_details e); bind_id (al_duration_ms e); SInt (if al_cache_hit e then 1 else 0); text_or_empty (al_trace e)]
    done_or_storage).

Definition esc_json (c : ascii) : option cstr :=
  if Ascii.eqb c "\" then Some (backslash "\") else if Ascii.eqb c (chr 13) then Some (backslash "r") else esc_trace c.
Definition escape_json_string (src : option cstr) (dst_max : nat) : cstr := escape esc_json dst_max (default [] src).

(** One row as an object: [action] is compared without a test for NULL. *)
Definition audit_row (r : row) : outcome cstr :=
  let num i := print_llu (column_int64 r i) in
  let txt i := quoted_text (default [] (column_text r i)) in
  match column_text r 0 with
  | None => Crash
  | Some action =>
      Ret (snprintf 20480 (
        if strcmp_eq action "admin" then
          object [member "action" (quoted_text "admin"); member "timestamp_ms" (num 1%nat); member "user_id" (num 2%nat);
                  member "username" (txt 3%nat); member "ip_address" (txt 4%nat); member "operation" (txt 5%nat);
                  member "resource" (txt 6%nat); member "resource_id" (num 7%nat); member "status" (txt 8%nat);
                  member "details" (quoted_text (escape_json_string (column_text r 9) 2048))]
        else
          object [member "action" (quoted_text "eval"); member "timestamp_ms" (num 1%nat); member "user_id" (num 2%nat);
                  member "decision" (txt 8%nat); member "duration_ms" (num 10%nat);
                  member "cache_hit" (bool_text (negb (column_int r 11 =? 0)));
                  member "trace" (quoted_text (escape_json_string (column_text r 12) 16384))]))
  end.
Fixpoint audit_rows (rows : list row) : outcome (list cstr) :=
  match rows with [] => Ret [] | r :: rows => t ← audit_row r; ts ← audit_rows rows; Ret (t :: ts) end.

(** Memory for the answer is taken to be there. *)
Definition sqlite_audit_log_list (user_id offset limit : Z) : storage_op state (option cstr * Z) := unchecked (λ s,
  let w := if user_id =? 0 then [] else ("WHERE user_id = " : cstr) ++ print_llu user_id in
  let count_sql := snprintf 512 (("SELECT COUNT(*) FROM audit_logs" : cstr) ++ (match w with [] => [] | _ => " "%char :: w end) ++ [";"%char]) in
  let sql := snprintf 512 (SQL_audit_cols ++ (match w with [] => [] | _ => w ++ [" "%char] end) ++ ("ORDER BY id DESC LIMIT " : cstr) ++
               print_d limit ++ (" OFFSET " : cstr) ++ print_d offset ++ [";"%char]) in
  let '(a, d) := sqlite_run count_sql [] (sq_db s) in
  let total := match a with Stepped (r :: _) _ _ => COL_ID r 0 | _ => 0 end in
  let '(a, d) := sqlite_run sql [] d in
  match a with
  | Prepare_failed => Ret (Err SSO_ERR_STORAGE, sq_set d s)
  | Stepped rows _ _ => ts ← audit_rows rows; Ret (Ok (Some ("["%char :: commas ts ++ ["]"%char]), total), sq_set d s)
  end).

(* ------------------------------------------------------------------ *)
(** ** The table *)

Definition storage_sqlite_create : storage_backend state :=
  {| sb_user_create := Some sqlite_user_create; sb_user_get_by_id := Some sqlite_user_get_by_id;
     sb_user_get_by_name := Some sqlite_user_get_by_name; sb_user_get_by_phone := Some sqlite_user_get_by_phone;
     sb_user_update := Some sqlite_user_update; sb_user_delete := Some sqlite_users_delete; sb_user_list := Some sqlite_users_list;
     sb_save_sms_code := Some sqlite_save_sms_code; sb_get_sms_code := Some sqlite_get_sms_code;
     sb_delete_sms_code := Some sqlite_delete_sms_code;
     sb_role_create := Some sqlite_role_create; sb_role_get_by_id := Some sqlite_role_get_by_id;
     sb_role_get_by_name := Some sqlite_role_get_by_name; sb_role_update := Some sqlite_role_update;
     sb_role_delete := Some sqlite_roles_delete; sb_role_list := Some sqlite_roles_list;
     sb_group_create := Some sqlite_group_create; sb_group_get_by_id := Some sqlite_group_get_by_id;
     sb_group_get_by_name := Some sqlite_group_get_by_name; sb_group_update := Some sqlite_group_update;
     sb_group_delete := Some sqlite_groups_t_delete; sb_group_list := Some sqlite_groups_t_list;
     sb_policy_create := Some sqlite_policy_create; sb_policy_get_by_id := Some sqlite_policy_get_by_id;
     sb_policy_get_by_name := Some sqlite_policy_get_by_name; sb_policy_update := Some sqlite_policy_update;
     sb_policy_delete := Some sqlite_policies_delete; sb_policy_list := Some sqlite_policies_list;
     sb_assign_role_to_user := Some sqlite_assign_role_to_user; sb_unassign_role_from_user := Some sqlite_unassign_role_user;
     sb_get_user_roles := Some sqlite_get_user_roles; sb_get_role_users := Some sqlite_get_role_users;
     sb_assign_role_to_group := Some sqlite_assign_role_to_group; sb_unassign_role_from_group := Some sqlite_unassign_role_group;
     sb_add_user_to_group := Some sqlite_add_user_to_group; sb_remove_user_from_group := Some sqlite_remove_user_from_group;
     sb_get_user_groups := Some sqlite_get_user_groups; sb_get_group_users := Some sqlite_get_group_users;
     sb_assign_policy := Some sqlite_assign_policy; sb_unassign_policy := Some sqlite_unassign_policy;
     sb_get_policy_targets := Some sqlite_get_policy_targets; sb_get_target_policies := Some sqlite_get_target_policies;
     sb_role_get_parent := Some sqlite_role_get_parent; sb_group_get_parent := Some sqlite_group_get_parent;
     sb_get_user_roles_with_ancestors := Some sqlite_get_user_roles_with_ancestors;
     sb_oauth_code_create := Some sqlite_oauth_code_create; sb_oauth_code_get := Some sqlite_oauth_code_get;
     sb_oauth_code_mark_used := Some sqlite_oauth_code_mark_used; sb_oauth_code_cleanup := Some sqlite_oauth_code_cleanup;
     sb_oauth_client_create := Some sqlite_oauth_client_create; sb_oauth_client_get := Some sqlite_oauth_client_get;
     sb_oauth_client_update := Some sqlite_oauth_client_update; sb_oauth_client_delete := Some sqlite_oauth_client_delete;
     sb_oauth_client_list := Some sqlite_oauth_client_list;
     sb_refresh_token_create := Some sqlite_refresh_token_create; sb_refresh_token_get := Some sqlite_refresh_token_get;
     sb_refresh_token_revoke := Some sqlite_refresh_token_revoke;
     sb_refresh_token_revoke_family := Some sqlite_refresh_token_revoke_family;
     sb_jti_revoke := Some sqlite_jti_revoke; sb_jti_is_revoked := Some sqlite_jti_is_revoked;
     sb_audit_log_write := Some sqlite_audit_log_write; sb_audit_log_list := Some sqlite_audit_log_list |}.
End Backend.
