(* ===== verification/SqliteSafety.v ===== *)
(** * What the SQLite backend guarantees

    The tables of sql/sqlite/schema.sql, what the library documents about
    statements on them, and that every change of the backend keeps them
    well formed.  Reads answer from the tables; the hierarchy query ends. *)

From S2P Require Import Prelude CLib CNum Types Storage Printf Http Raft Redis RedisSafety Sql SqlSafety Sqlite.

(* ------------------------------------------------------------------ *)
(** ** The schema *)

Definition hierarchy_cols (parent : cstr) : list column :=
  [NOT_NULL (TEXT "name" SNull); TEXT "description" (SText []); INTEGER parent (SInt 0); INTEGER "status" (SInt 1);
   INTEGER "created_at" (SInt 0); INTEGER "updated_at" (SInt 0)].
Definition pair_table (a b : cstr) : schema := keyed_table [NOT_NULL (INTEGER a SNull); NOT_NULL (INTEGER b SNull)] [a; b].
Definition users_table : schema :=
  numbered_table
    [TEXT "username" SNull; TEXT "phone" SNull; TEXT "password_hash" SNull; TEXT "email" (SText []); TEXT "display_name" (SText []);
     INTEGER "status" (SInt 1); INTEGER "created_at" (SInt 0); INTEGER "updated_at" (SInt 0); INTEGER "password_set_at" (SInt 0);
     TEXT "attributes" (SText ("{}" : cstr)); INTEGER "mfa_enabled" (SInt 0); TEXT "mfa_secret" (SText [])]
    ["username" : cstr; "phone" : cstr].

Definition sqlite_catalog : catalog :=
  [("users" : cstr, users_table);
   ("sms_codes" : cstr, keyed_table [TEXT "phone" SNull; NOT_NULL (TEXT "code" SNull); NOT_NULL (INTEGER "expires_at" SNull);
                                     INTEGER "attempts" (SInt 0)] ["phone" : cstr]);
   ("roles" : cstr, numbered_table (hierarchy_cols "parent_role_id") ["name" : cstr]);
   ("groups_t" : cstr, numbered_table (hierarchy_cols "parent_group_id") ["name" : cstr]);
   ("policies" : cstr, numbered_table
     [NOT_NULL (TEXT "name" SNull); NOT_NULL (INTEGER "strategy_type" SNull); NOT_NULL (INTEGER "effect" (SInt 1));
      NOT_NULL (INTEGER "priority" (SInt 0)); NOT_NULL (TEXT "rules" (SText ("{}" : cstr))); NOT_NULL (INTEGER "status" (SInt 1));
      INTEGER "created_at" (SInt 0); INTEGER "updated_at" (SInt 0)] ["name" : cstr]);
   ("user_roles" : cstr, pair_table "user_id" "role_id");
   ("user_groups" : cstr, pair_table "user_id" "group_id");
   ("role_groups" : cstr, pair_table "role_id" "group_id");
   ("policy_assignments" : cstr, keyed_table [INTEGER "policy_id" SNull; INTEGER "target_type" SNull; INTEGER "target_id" SNull]
     ["policy_id" : cstr; "target_type" : cstr; "target_id" : cstr]);
   ("oauth_auth_codes" : cstr, keyed_table
     [TEXT "code" SNull; NOT_NULL (TEXT "client_id" SNull); NOT_NULL (INTEGER "user_id" SNull); NOT_NULL (TEXT "redirect_uri" SNull);
      TEXT "scope" (SText []); TEXT "nonce" (SText []); TEXT "code_challenge" (SText []); TEXT "code_challenge_method" (SText []);
      NOT_NULL (INTEGER "expires_at" SNull); INTEGER "used" (SInt 0)] ["code" : cstr]);
   ("oauth_clients" : cstr, numbered_table
     [NOT_NULL (TEXT "client_id" SNull); NOT_NULL (TEXT "client_secret_hash" SNull); NOT_NULL (TEXT "redirect_uris" SNull);
      TEXT "app_name" (SText []); TEXT "app_description" (SText []); TEXT "app_logo_url" (SText []); TEXT "allowed_scopes" (SText []);
      TEXT "allowed_grant_types" (SText []); INTEGER "token_ttl_ms" (SInt 0); INTEGER "status" (SInt 1); INTEGER "created_at" (SInt 0);
      INTEGER "updated_at" (SInt 0)] ["client_id" : cstr]);
   ("refresh_tokens" : cstr, keyed_table
     [TEXT "token_hash" SNull; NOT_NULL (INTEGER "user_id" SNull); TEXT "client_id" SNull; NOT_NULL (INTEGER "expires_at" SNull);
      NOT_NULL (INTEGER "issued_at" SNull); INTEGER "revoked" (SInt 0)] ["token_hash" : cstr]);
   ("revoked_jtis" : cstr, keyed_table [TEXT "jti" SNull; NOT_NULL (INTEGER "expires_at" SNull)] ["jti" : cstr]);
   ("audit_logs" : cstr, numbered_table
     [TEXT "action" SNull; INTEGER "timestamp_ms" SNull; INTEGER "user_id" SNull; TEXT "username" SNull; TEXT "ip_address" SNull;
      TEXT "operation" SNull; TEXT "resource" SNull; INTEGER "resource_id" SNull; TEXT "status" SNull; TEXT "details" SNull;
      INTEGER "duration_ms" SNull; INTEGER "cache_hit" SNull; TEXT "trace" SNull] [])].

(* ------------------------------------------------------------------ *)
(** ** What the library documents *)

Notation cat := sqlite_catalog.
Notation change_ok := (change_fits sqlite_catalog).
Notation query_ok := (query_fits sqlite_catalog).
Notation col := (col_of sqlite_catalog).
Notation is_val := (val_is sqlite_catalog).

(** A text of the part of SQL above, on the tables of the schema: a query
    answers its rows, in an order of the library's choice unless the text
    asks for one, and changes nothing; a change does what SQL says and
    tells the number it has generated. *)
Definition sql_fits (sql : cstr) (st : statement) (args : list sval) : Prop :=
  sql_parse sql = Some st ∧ statement_ok cat st = true ∧ typed_args cat st args = true.
Class SqliteLaws {D} `{!Sqlite D} (view : D → database) := {
  sqlite_query_doc sql st args d :
    sql_fits sql st args → is_query st = true →
    ∃ l n, l ≡ₚ sql_matches true cat st args (view d) ∧
           sqlite_run sql args d = (Stepped (sql_answer cat st args l) SQLITE_DONE n, d);
  sqlite_change_doc sql st args d :
    sql_fits sql st args → is_query st = false →
    let '(rc, n, db) := sql_write true cat st args (view d) in
    ∃ d' n', sqlite_run sql args d = (Stepped [] rc n', d') ∧ view d' = db ∧ (n ≠ 0 → n' = n)
}.

(** The library of the witnesses: tables, with rows in the order of their
    insertion. *)
#[global] Instance ref_sqlite : Sqlite database := {|
  sqlite_run sql args db :=
    match sql_parse sql with
    | None => (Prepare_failed, db)
    | Some st =>
        if statement_ok cat st then
          if is_query st then (Stepped (sql_answer cat st args (sql_matches true cat st args db)) SQLITE_DONE 0, db)
          else let '(rc, n, db') := sql_write true cat st args db in (Stepped [] rc n, db')
        else (Prepare_failed, db)
    end |}.
#[global] Instance ref_sqlite_laws : SqliteLaws (λ db : database, db).
Proof.
  split; intros sql st args d (Hp & Ho & _) Hq; unfold sqlite_run, ref_sqlite; rewrite Hp, Ho, Hq.
  - eexists _, _. by split.
  - destruct (sql_write true cat st args d) as [[rc n] db]. by eexists _, _.
Qed.

(** The catalog is well formed. *)
Lemma catalog_wf : Forall (λ x, schema_wf x.2 = true) cat.
Proof. repeat (constructor; [reflexivity|]). constructor. Qed.

(* ------------------------------------------------------------------ *)
(** ** Changes keep the tables *)

Section Tables.
Context {D : Type} `{!Sqlite D} (view : D → database) `{!SqliteLaws view}.
Notation state := (sqlite_state D).

Definition sqlite_inv (s : state) : Prop := sq_open s = true ∧ db_wf cat (view (sq_db s)).

Definition tables_kept {A} (m : storage_op state A) : Prop := ∀ s, sqlite_inv s → ∃ r s', m s = Ret (r, s') ∧ sqlite_inv s'.

Lemma tables_change {A} sql args (k : list row → step_rc → Z → result A) :
  change_ok sql args = true → tables_kept (prepared sql args k).
Proof.
  unfold change_fits. destruct (sql_parse sql) as [st|] eqn:Hp; [|done].
  intros [[[Ho Ht]%andb_true_iff Hq%negb_true_iff]%andb_true_iff Hl]%andb_true_iff s [Hs Hw].
  pose proof (sqlite_change_doc sql st args (sq_db s) (conj Hp (conj Ho Ht)) Hq) as Hd.
  pose proof (sql_write_wf true cat st args _ catalog_wf Hw Hl) as Hw'.
  destruct (sql_write true cat st args (view (sq_db s))) as [[rc n] db]. destruct Hd as (d' & n' & Hr & Hv & _).
  unfold prepared. rewrite Hr. eexists _, _. split; [done|]. split; [done|]. cbn. by rewrite Hv.
Qed.
Lemma tables_opened {A} (m : storage_op state A) : tables_kept m → tables_kept (db_opened m).
Proof. intros Hm s Hs. unfold db_opened. rewrite (proj1 Hs). by apply Hm. Qed.
Lemma tables_unchecked {A} (m : storage_op state A) : tables_kept m → tables_kept (unchecked m).
Proof. intros Hm s Hs. unfold unchecked. rewrite (proj1 Hs). by apply Hm. Qed.
Lemma tables_also {A B} (m : storage_op state A) (k : storage_op state B) : tables_kept m → tables_kept k → tables_kept (also m k).
Proof. intros Hm Hk s Hs. destruct (Hm s Hs) as (r & s1 & E & H1). unfold also. rewrite E. cbn. by apply Hk. Qed.
Lemma tables_inner_call {F A} (f : F) (k : F → storage_op state A) : tables_kept (k f) → tables_kept (inner_call (Some f) k).
Proof. intros H s Hs. unfold inner_call. destruct (H s Hs) as (r & s' & -> & Hs'). by eexists _, _. Qed.

Ltac tables_tac :=
  first [ apply tables_opened; tables_tac | apply tables_unchecked; tables_tac | apply tables_also; tables_tac
        | apply tables_change; vm_compute; reflexivity ].

Definition sqlite_command (c : command) : Prop := is_Some (command_texts c) ∨ ∃ e, c = Audit_log_write (Some e).

(* ------------------------------------------------------------------ *)
(** ** Queries answer from the tables *)

Definition table (s : state) (t : cstr) : list row := td_rows (data_of (view (sq_db s)) t).
Definition rows_with (s : state) (t : cstr) (P : row → bool) : list row := filter (λ r, P r = true) (table s t).

Lemma query_run {A} sql st args (k : list row → step_rc → Z → result A) (s : state) :
  sql_parse sql = Some st → query_ok sql args = true →
  ∃ l n, l ≡ₚ sql_matches true cat st args (view (sq_db s)) ∧
         prepared sql args k s = Ret (k (sql_answer cat st args l) SQLITE_DONE n, s).
Proof.
  intros Hp. unfold query_fits. rewrite Hp. intros [[Ho Ht]%andb_true_iff Hq]%andb_true_iff.
  destruct (sqlite_query_doc sql st args (sq_db s) (conj Hp (conj Ho Ht)) Hq) as (l & n & Hl & E).
  exists l, n. split; [done|]. unfold prepared. rewrite E. by destruct s.
Qed.

(** A row by its number, whole or one column of it. *)
Definition first_of {A} (f : row → A) (l : list row) : result A := match l with r :: _ => Ok (f r) | [] => Err SSO_ERR_NOT_FOUND end.
Definition by_number (s : state) (t : cstr) (id : Z) : list row := rows_with s t (is_val t "id" (SInt (s64 id))).

Lemma number_run {A} t sel sql (f : row → A) id s :
  sql_parse sql = Some (Select sel t (CCmp "id" CEq (Param 1)) None None None) → query_ok sql [bind_id id] = true →
  col_is_int (schema_of cat t) "id" = true → sc_auto (schema_of cat t) = true → (∀ r, col t "id" r = default SNull (r !! 0%nat)) →
  match sel with Count => False | _ => True end → sqlite_inv s →
  db_opened (prepared sql [bind_id id] (one_row f)) s = Ret (first_of f (project (schema_of cat t) sel (by_number s t id)), s).
Proof.
  intros Hp Hq Hi Ha Hc Hsel Hs. unfold db_opened. rewrite (proj1 Hs).
  destruct (query_run _ _ _ (one_row f) s Hp Hq) as (l & n & Hl & ->).
  assert (El : l = by_number s t id).
  { apply perm_short; [|apply one_number; [apply Hs|done|done]]. rewrite Hl. cbn [sql_matches]. unfold by_number, rows_with, table.
    erewrite filter_ext_eq; [done|]. intros x. apply sat_eq; [done..|]. by rewrite Hi. }
  rewrite <- El. unfold sql_answer, page, sort_rows, one_row, first_step, first_of.
  destruct sel; [by destruct l|by destruct (project _ _ _)|done].
Qed.

(** The ids the library answers with, in its order. *)
Definition engine_ids (sql : cstr) (args : list sval) (s : state) : list Z :=
  match (sqlite_run sql args (sq_db s)).1 with Stepped rows _ _ => map (λ r, COL_ID r 0) rows | Prepare_failed => [] end.

Lemma ids_run sql args m s :
  query_ok sql args = true → sqlite_inv s →
  db_opened (prepared sql args (ids_of_rows m)) s = Ret (ids_answer (engine_ids sql args s) m, s).
Proof.
  intros Hq Hs. unfold db_opened. rewrite (proj1 Hs). destruct (sql_parse sql) as [st|] eqn:Hp; [|by unfold query_fits in Hq; rewrite Hp in Hq].
  unfold query_fits in Hq. rewrite Hp in Hq. apply andb_true_iff in Hq as [[Ho Ht]%andb_true_iff Hq].
  destruct (sqlite_query_doc sql st args (sq_db s) (conj Hp (conj Ho Ht)) Hq) as (l & n & Hl & E).
  unfold prepared, engine_ids, ids_answer, ids_of_rows. rewrite E. cbn [fst]. by destruct s.
Qed.
Lemma engine_ids_rows sql args s t c w :
  sql_parse sql = Some (Select (Columns [c]) t w None None None) → query_ok sql args = true →
  engine_ids sql args s ≡ₚ map (λ r, COL_ID [col t c r] 0) (rows_with s t (λ r, sat true (schema_of cat t) args r w)).
Proof.
  intros Hp Hq. unfold query_fits in Hq. rewrite Hp in Hq. apply andb_true_iff in Hq as [[Ho Ht]%andb_true_iff Hq].
  destruct (sqlite_query_doc sql _ args (sq_db s) (conj Hp (conj Ho Ht)) Hq) as (l & n & Hl & E).
  unfold engine_ids. rewrite E. cbn [fst]. unfold sql_answer, page, sort_rows, project. rewrite map_map. by rewrite Hl.
Qed.

Definition SQL_target_policies : cstr := "SELECT policy_id FROM policy_assignments WHERE target_type=?1 AND target_id=?2".
Definition SQL_user_roles : cstr := "SELECT role_id FROM user_roles WHERE user_id=?1".
Definition SQL_user_groups : cstr := "SELECT group_id FROM user_groups WHERE user_id=?1".

(** The relations in the tables; the order of ids is the library's. *)
Definition sqlite_view (s : state) : store_view :=
  {| v_policy := λ i, read_policy <$> head (by_number s "policies" i);
     v_assigned := λ t i, engine_ids SQL_target_policies [SInt (policy_target_int t); bind_id i] s;
     v_user_roles := λ i, engine_ids SQL_user_roles [bind_id i] s;
     v_user_groups := λ i, engine_ids SQL_user_groups [bind_id i] s;
     v_role_parent := λ i, (λ r, COL_ID [col "roles" "parent_role_id" r] 0) <$> head (by_number s "roles" i);
     v_group_parent := λ i, (λ r, COL_ID [col "groups_t" "parent_group_id" r] 0) <$> head (by_number s "groups_t" i) |}.

Ltac sql_now := first [vm_compute; reflexivity | done].

(** C27. The SQLite backend keeps the promise of [Storage] to the managers, and
    the lists it answers are the rows of its tables. *)
Theorem sqlite_reads now :
  StorageReads (storage_sqlite_create (D := D) now) sqlite_view sqlite_inv ∧
  ∀ s i, sqlite_inv s →
    (∀ t, v_assigned (sqlite_view s) t i ≡ₚ
       map (λ r, COL_ID [col "policy_assignments" "policy_id" r] 0)
         (rows_with s "policy_assignments" (λ r, is_val "policy_assignments" "target_type" (SInt (policy_target_int t)) r &&
                                                  is_val "policy_assignments" "target_id" (bind_id i) r))) ∧
    v_user_roles (sqlite_view s) i ≡ₚ
      map (λ r, COL_ID [col "user_roles" "role_id" r] 0) (rows_with s "user_roles" (is_val "user_roles" "user_id" (bind_id i))) ∧
    v_user_groups (sqlite_view s) i ≡ₚ
      map (λ r, COL_ID [col "user_groups" "group_id" r] 0) (rows_with s "user_groups" (is_val "user_groups" "user_id" (bind_id i))).
Proof.
  split.
  - split; eexists; (split; [reflexivity|]); intros; cbv delta [sqlite_policy_get_by_id get_by_id sqlite_get_target_policies
      sqlite_get_user_roles sqlite_get_user_groups sqlite_role_get_parent sqlite_group_get_parent]; cbv beta.
    + erewrite (number_run "policies" Star); [|sql_now|sql_now|sql_now|sql_now|by intros []|done|done].
      unfold project, sqlite_view, v_policy. by destruct (by_number s "policies" i).
    + by apply ids_run.
    + by apply ids_run.
    + by apply ids_run.
    + erewrite (number_run "roles" (Columns ["parent_role_id" : cstr])); [|sql_now|sql_now|sql_now|sql_now|by intros []|done|done].
      unfold project, sqlite_view, v_role_parent. by destruct (by_number s "roles" i).
    + erewrite (number_run "groups_t" (Columns ["parent_group_id" : cstr])); [|sql_now|sql_now|sql_now|sql_now|by intros []|done|done].
      unfold project, sqlite_view, v_group_parent. by destruct (by_number s "groups_t" i).
  - intros s i Hs. cbn [sqlite_view v_assigned v_user_roles v_user_groups]. split_and!; [intros t|..].
    + rewrite (engine_ids_rows _ _ s "policy_assignments" "policy_id" (CAnd (CCmp "target_type" CEq (Param 1)) (CCmp "target_id" CEq (Param 2)))) by sql_now.
      apply reflexive_eq. f_equal. apply filter_ext_eq. intros r.
      by rewrite <- (sat_eq true cat "policy_assignments" "target_type" 1 _ [SInt (policy_target_int t); bind_id i]),
        <- (sat_eq true cat "policy_assignments" "target_id" 2 _ [SInt (policy_target_int t); bind_id i]).
    + rewrite (engine_ids_rows _ _ s "user_roles" "role_id" (CCmp "user_id" CEq (Param 1))) by sql_now.
      apply reflexive_eq. f_equal. apply filter_ext_eq. intros r. by apply sat_eq.
    + rewrite (engine_ids_rows _ _ s "user_groups" "group_id" (CCmp "user_id" CEq (Param 1))) by sql_now.
      apply reflexive_eq. f_equal. apply filter_ext_eq. intros r. by apply sat_eq.
Qed.
End Tables.

(* ------------------------------------------------------------------ *)
(** ** Witnesses *)

Definition sq_state (db : database) : sqlite_state database := {| sq_open := true; sq_db := db |}.

Lemma sq_state_inv db : db_wf cat db → sqlite_inv (λ d, d) (sq_state db).
Proof. by split. Qed.

(** A table given as a list. *)
Definition table_test (sc : schema) (t : tdata) : bool :=
  forallb (λ r, bool_decide (length r = length (sc_cols sc)) && null_ok sc r) (td_rows t) && unique sc (td_rows t) &&
  (0 <=? td_seq t) && (td_seq t <? 2 ^ 63) &&
  (negb (sc_auto sc) ||
   (forallb (λ r : row, match r !! 0%nat with Some (SInt i) => (1 <=? i) && (i <=? td_seq t) | _ => false end) (td_rows t) &&
    bool_decide (NoDup (map (λ r : row, r !! 0%nat) (td_rows t))))).
Lemma table_test_ok sc t : table_test sc t = true → table_wf sc t.
Proof.
  unfold table_test. intros [[[[H1 H2]%andb_true_iff H3]%andb_true_iff H4]%andb_true_iff H5]%andb_true_iff. split; [|done|lia|].
  - apply Forall_forall. intros r Hr. rewrite forallb_forall in H1. specialize (H1 r (proj1 (list_elem_of_In _ _) Hr)).
    apply andb_true_iff in H1 as [Hl%bool_decide_eq_true Hn]. by split.
  - intros Ha. rewrite Ha in H5. cbn [negb orb] in H5. apply andb_true_iff in H5 as [Hn Hd%bool_decide_eq_true]. split; [|done].
    apply Forall_forall. intros r Hr. rewrite forallb_forall in Hn. specialize (Hn r (proj1 (list_elem_of_In _ _) Hr)).
    destruct (r !! 0%nat) as [[|i|]|] eqn:E; try done. exists i. split; [done|lia].
Qed.


Lemma sqlite_reads_witness :
  v_user_roles (sqlite_view (λ d, d) (sq_state ∅)) 7 ≡ₚ [] ∧ StorageReads (storage_sqlite_create (D := database) 5) (sqlite_view (λ d, d)) (sqlite_inv (λ d, d)).
Proof.
  destruct (sqlite_reads (λ d, d) 5) as [H1 H2]. split; [|exact H1].
  destruct (H2 (sq_state ∅) 7 (sq_state_inv _ (db_wf_empty _))) as (_ & H & _). exact H.
Defined.
