(* ===== verification/SqliteRows.v ===== *)
(** * Rows through the SQLite backend

    The role hierarchy in one query, rows written and read back, the
    columns of a user, what a deletion leaves, and refresh tokens without
    a client. *)

From S2P Require Import Prelude CLib CNum Types Storage Printf Http Redis RedisServer RedisRows Sql SqlSafety Sqlite SqliteSafety.

Notation cat := sqlite_catalog.
Notation change_ok := (change_fits sqlite_catalog).
Notation query_ok := (query_fits sqlite_catalog).
Notation col := (col_of sqlite_catalog).
Notation is_val := (val_is sqlite_catalog).
Ltac sql_now := first [vm_compute; reflexivity | done].

Section Rows.
Context {D : Type} `{!Sqlite D} (view : D → database) `{!SqliteLaws view}.
Notation state := (sqlite_state D).
Notation table := (table view).
Notation inv := (sqlite_inv view).

(* ------------------------------------------------------------------ *)
(** ** The role hierarchy *)

(** Roles a user has directly, and the parents of active roles it has. *)
Inductive inherits (s : state) (user : Z) : sval → Prop :=
| inherits_direct r :
    r ∈ table s "user_roles" → col "user_roles" "user_id" r = bind_id user → inherits s user (col "user_roles" "role_id" r)
| inherits_parent v r :
    inherits s user v → r ∈ table s "roles" → col "roles" "id" r = v → col "roles" "status" r = SInt 1 →
    col "roles" "parent_role_id" r ≠ SInt 0 → col "roles" "parent_role_id" r ≠ SNull →
    inherits s user (col "roles" "parent_role_id" r).

Definition ancestors_seed (s : state) (user : Z) : list sval :=
  add_unseen [] (map (λ r, row_val (schema_of cat "user_roles") r ("role_id" : cstr))
    (filter (λ r, row_val (schema_of cat "user_roles") r ("user_id" : cstr) = bind_id user ∧ bind_id user ≠ SNull) (table s "user_roles"))).
Definition ancestors_next (s : state) : sval → list sval :=
  parents_of (schema_of cat "roles") ("id" : cstr) ("parent_role_id" : cstr) ("status" : cstr) (table s "roles").

Lemma inherits_reaches s user v : inherits s user v ↔ reaches (ancestors_next s) (ancestors_seed s user) v.
Proof.
  split.
  - induction 1 as [r Hr Hu|v r _ IH Hr Hv Hs Hp Hn].
    + apply reach_start, elem_add_unseen. split; [|set_solver]. apply list_elem_of_fmap. exists r. split; [done|].
      by apply list_elem_of_filter.
    + apply (reach_next _ _ v); [done|]. apply list_elem_of_fmap. exists r. split; [done|]. by apply list_elem_of_filter.
  - induction 1 as [v Hv|v w _ IH Hw].
    + apply elem_add_unseen in Hv as [(r & -> & Hr)%list_elem_of_fmap _]. apply list_elem_of_filter in Hr as [[Hu _] Hr].
      by apply inherits_direct.
    + apply list_elem_of_fmap in Hw as (r & -> & Hr). apply list_elem_of_filter in Hr as [(H1 & H2 & H3 & H4) Hr].
      by apply (inherits_parent s user v).
Qed.

Lemma engine_ids_closure sql args seed c key start nodes i p st (s : state) :
  sql_parse sql = Some (Closure seed c key start nodes i p st) → query_ok sql args = true →
  engine_ids sql args s ≡ₚ map (λ r, COL_ID r 0) (sql_matches true cat (Closure seed c key start nodes i p st) args (view (sq_db s))).
Proof.
  intros Hp Hq. unfold query_fits in Hq. rewrite Hp in Hq. apply andb_true_iff in Hq as [[Ho Ht]%andb_true_iff Hq].
  destruct (sqlite_query_doc sql _ args (sq_db s) (conj Hp (conj Ho Ht)) Hq) as (l & n & Hl & E).
  unfold engine_ids. rewrite E. cbn [fst]. unfold sql_answer. by rewrite Hl.
Qed.

(** C31. One query collects a user's roles and their ancestors: it ends on
    every table, cycles included, and finds exactly the active roles that
    are inherited. *)
Theorem sqlite_ancestors_exact user max (s : state) :
  inv s →
  ∃ ids, sqlite_get_user_roles_with_ancestors user max s = Ret (ids_answer ids max, s) ∧
    ∀ x, x ∈ ids ↔ ∃ r, r ∈ table s "roles" ∧ inherits s user (col "roles" "id" r) ∧ col "roles" "status" r = SInt 1 ∧
                        x = COL_ID [col "roles" "id" r] 0.
Proof.
  intros Hs. exists (engine_ids SQL_ancestors [bind_id user] s). split; [by apply (ids_run view)|]. intros x.
  rewrite (engine_ids_closure SQL_ancestors [bind_id user] "user_roles" "role_id" "user_id" (Param 1) "roles" "id" "parent_role_id" "status") by sql_now.
  rewrite list_elem_of_fmap. cbn [sql_matches]. unfold closure_rows.
  change (coerce _ (ev [bind_id user] no_row (Param 1))) with (bind_id user).
  setoid_rewrite list_elem_of_fmap. setoid_rewrite list_elem_of_filter. setoid_rewrite Exists_exists.
  split.
  - intros (r' & -> & v & -> & (r & Hr & Hid & Hst) & Hv). exists r. split; [done|]. split; [|split; [done|]].
    + apply inherits_reaches. apply closure_exact in Hv. unfold col. by rewrite Hid.
    + unfold col. by rewrite Hid.
  - intros (r & Hr & Hi & Hst & ->). eexists. split; [reflexivity|]. eexists. split; [reflexivity|]. split; [by exists r|].
    apply closure_exact. by apply inherits_reaches in Hi.
Qed.

(* ------------------------------------------------------------------ *)
(** ** Rows with generated numbers *)

Definition next_number (s : state) (t : cstr) : Z := td_seq (data_of (view (sq_db s)) t) + 1.

Lemma s64_small z : - 2 ^ 63 ≤ z < 2 ^ 63 → s64 z = z.
Proof. intros H. unfold s64. rewrite Z.mod_small; lia. Qed.

(** A change runs as the meaning of its statement says. *)
Lemma change_run {A} sql st args (k : list row → step_rc → Z → result A) (s : state) rc n db :
  sql_parse sql = Some st → change_ok sql args = true → inv s → sql_write true cat st args (view (sq_db s)) = (rc, n, db) →
  ∃ s' n', db_opened (prepared sql args k) s = Ret (k [] rc n', s') ∧ unchecked (prepared sql args k) s = Ret (k [] rc n', s') ∧
    inv s' ∧ view (sq_db s') = db ∧ (n ≠ 0 → n' = n).
Proof.
  intros Hp Hok [Hs Hw] Hrun. unfold change_fits in Hok. rewrite Hp in Hok.
  apply andb_true_iff in Hok as [[[Ho Ht]%andb_true_iff Hq%negb_true_iff]%andb_true_iff Hl].
  pose proof (sqlite_change_doc sql st args (sq_db s) (conj Hp (conj Ho Ht)) Hq) as Hd.
  pose proof (sql_write_wf true cat st args _ catalog_wf Hw Hl) as Hw'.
  rewrite Hrun in *. destruct Hd as (d' & n' & Hr & Hv & Hn). exists (sq_set d' s), n'.
  unfold db_opened, unchecked, prepared. rewrite Hs, Hr. split_and!; [done..|split; [done|]|done|done]. cbn. by rewrite Hv.
Qed.

Lemma insert_run {A} t cols vals sql args (mk : Z → row) (with_id : Z → A) (s : state) :
  sql_parse sql = Some (Insert Refuse t (Some cols) vals false) → change_ok sql args = true →
  sc_auto (schema_of cat t) = true →
  (∀ z, new_row (schema_of cat t) (Some cols) (map (ev args no_row) vals) z = mk (z + 1)) →
  (∀ z, null_ok (schema_of cat t) (mk z) = true) →
  inv s → next_number s t < 2 ^ 63 →
  if existsb (clash (schema_of cat t) (mk (next_number s t))) (table s t)
  then ∃ s', db_opened (prepared sql args (inserted with_id)) s = Ret (Err SSO_ERR_ALREADY_EXISTS, s') ∧ inv s' ∧ ∀ t', table s' t' = table s t'
  else ∃ s', db_opened (prepared sql args (inserted with_id)) s = Ret (Ok (with_id (next_number s t)), s') ∧ inv s' ∧
         (table s' t = table s t ++ [mk (next_number s t)]) ∧ ∀ t', t' ≠ t → table s' t' = table s t'.
Proof.
  intros Hp Hok Ha Hnew Hnull Hs Hlt.
  pose proof (insert_number true cat t cols vals false args mk (view (sq_db s)) Ha Hnew Hnull Hlt) as Hw.
  pose proof (change_run sql (Insert Refuse t (Some cols) vals false) args (inserted with_id) s) as Hrun.
  assert (H0 : 0 ≤ td_seq (data_of (view (sq_db s)) t)) by (destruct Hs as [_ Hd]; destruct (Hd t); lia).
  unfold next_number, SqliteSafety.table in *. destruct (existsb _ (td_rows (data_of (view (sq_db s)) t))).
  - destruct (Hrun _ _ _ Hp Hok Hs Hw) as (s' & n' & E & _ & Hi & Hv & _).
    exists s'. split; [exact E|]. split; [done|]. intros t'. rewrite Hv, data_insert. by destruct (decide (t = t')) as [<-|].
  - destruct (Hrun _ _ _ Hp Hok Hs Hw) as (s' & n' & E & _ & Hi & Hv & Hn). rewrite Hn in E by lia.
    exists s'. split; [rewrite E; cbn [inserted first_step]; by rewrite u64_small by lia|]. split; [done|].
    rewrite Hv. split.
    + rewrite data_insert. by rewrite decide_True.
    + intros t' Ht. rewrite data_insert. by rewrite decide_False.
Qed.

Lemma column_run {A} t c sql (f : row → A) v s r :
  sql_parse sql = Some (Select Star t (CCmp c CEq (Param 1)) None None None) → query_ok sql [v] = true →
  coerce (col_is_int (schema_of cat t) c) v = v → v ≠ SNull → inv s → rows_with view s t (is_val t c v) = [r] →
  db_opened (prepared sql [v] (one_row f)) s = Ret (Ok (f r), s).
Proof.
  intros Hp Hq Hi Hv Hs Hr. unfold db_opened. rewrite (proj1 Hs).
  destruct (query_run view _ _ _ (one_row f) s Hp Hq) as (l & n & Hl & ->).
  assert (El : l = [r]); [|by rewrite El].
  apply perm_short; [|cbn; lia]. rewrite Hl. cbn [sql_matches]. rewrite <- Hr. unfold rows_with, SqliteSafety.table.
  apply reflexive_eq, filter_ext_eq. intros x. by apply sat_eq.
Qed.

(* ------------------------------------------------------------------ *)
(** ** Roles, groups and policies *)

Definition name_free (s : state) (t n : cstr) : Prop := Forall (λ x, col t "name" x ≠ SText n) (table s t).
#[global] Instance name_free_dec s t n : Decision (name_free s t n).
Proof. apply _. Defined.

(** What a creation under a name does: it is refused when a row has the
    name, and otherwise the row has the next number and is found. *)
Definition named_created {A} (t n : cstr) (create : storage_op state A) (get : Z → storage_op state A) (by_name : cstr → storage_op state A)
    (with_id : Z → A) (s : state) : Prop :=
  ∃ s', inv s' ∧
    if bool_decide (name_free s t n)
    then create s = Ret (Ok (with_id (next_number s t)), s') ∧
         get (next_number s t) s' = Ret (Ok (with_id (next_number s t)), s') ∧ by_name n s' = Ret (Ok (with_id (next_number s t)), s')
    else create s = Ret (Err SSO_ERR_ALREADY_EXISTS, s') ∧ ∀ t', table s' t' = table s t'.

Lemma named_trip {A} t cols vals sql args (mk : Z → row) (with_id : Z → A) (read : row → A) n (s : state) :
  sql_parse sql = Some (Insert Refuse t (Some cols) vals false) → change_ok sql args = true →
  sql_parse (SQL_get_by_id t) = Some (Select Star t (CCmp "id" CEq (Param 1)) None None None) →
  sql_parse (SQL_get_by_name t) = Some (Select Star t (CCmp "name" CEq (Param 1)) None None None) →
  (∀ z, query_ok (SQL_get_by_id t) [bind_id z] = true) → query_ok (SQL_get_by_name t) [SText n] = true →
  sc_auto (schema_of cat t) = true → col_is_int (schema_of cat t) "id" = true → col_is_int (schema_of cat t) "name" = false →
  sc_unique (schema_of cat t) = [["name" : cstr]] → (∀ r, col t "id" r = default SNull (r !! 0%nat)) →
  (∀ z, new_row (schema_of cat t) (Some cols) (map (ev args no_row) vals) z = mk (z + 1)) →
  (∀ z, null_ok (schema_of cat t) (mk z) = true) → (∀ z, mk z !! 0%nat = Some (SInt z)) → (∀ z, col t "name" (mk z) = SText n) →
  (∀ z, 0 ≤ z < 2 ^ 63 → read (mk z) = with_id z) → inv s → next_number s t < 2 ^ 63 →
  named_created t n (db_opened (prepared sql args (inserted with_id))) (get_by_id t read) (get_by_name t read) with_id s.
Proof.
  intros Hp Hok Hgi Hgn Hqi Hqn Ha Hi Hni Hu Hc Hnew Hnull Hm Hmn Hread Hs Hlt.
  pose proof (insert_run t cols vals sql args mk with_id s Hp Hok Ha Hnew Hnull Hs Hlt) as Hrun.
  rewrite (existsb_name cat t n) in Hrun by done. unfold named_created, name_free.
  assert (H0 : 0 ≤ next_number s t) by (unfold next_number; destruct Hs as [_ Hw]; destruct (Hw t); lia).
  destruct (bool_decide _) eqn:Ef; cbn [negb] in Hrun.
  - destruct Hrun as (s' & E & Hs' & Ht & _). exists s'. split; [done|]. split; [exact E|]. split.
    + unfold get_by_id. rewrite (number_run view t Star _ read (next_number s t) s' Hgi (Hqi _) Hi Ha Hc I Hs'). cbn [project].
      unfold by_number, rows_with. rewrite s64_small by lia. unfold SqliteSafety.table.
      rewrite (found_by_number cat t (data_of (view (sq_db s')) t) (table s t) (mk (next_number s t))) by (done || apply Hs'). cbn [first_of]. by rewrite Hread.
    + unfold get_by_name. rewrite (column_run t "name" _ read (SText n) s' (mk (next_number s t)) Hgn Hqn); [by rewrite Hread|by rewrite Hni|done|done|].
      unfold rows_with. rewrite Ht. apply found_by_column; [apply Hmn|]. by apply bool_decide_eq_true in Ef.
  - destruct Hrun as (s' & E & Hs' & Ht). by exists s'.
Qed.

Definition text_fits (n : nat) (t : cstr) : Prop := NUL ∉ t ∧ (length t < n)%nat.
Definition enum_fits {E} (int : E → Z) (back : Z → E) (e : E) : Prop := - 2 ^ 31 ≤ int e < 2 ^ 31 ∧ back (int e) = e.
Lemma text_back n t : text_fits n t → sso_strlcpy (Some (c_str t)) n = t.
Proof. intros [H1 H2]. rewrite c_str_id by done. by apply sso_strlcpy_fits. Qed.
Lemma id_back z : 0 ≤ z < 2 ^ 64 → u64 (s64 z) = z.
Proof. intros. by rewrite u64_s64, u64_small. Qed.

Definition role_ok (r : role_t) : Prop :=
  text_fits 64 (r_name r) ∧ text_fits 512 (r_description r) ∧ 0 ≤ r_parent_role_id r < 2 ^ 64 ∧
  enum_fits role_status_int role_status_of (r_status r).
Definition group_ok (g : group_t) : Prop :=
  text_fits 64 (g_name g) ∧ text_fits 512 (g_description g) ∧ 0 ≤ g_parent_group_id g < 2 ^ 64 ∧
  enum_fits group_status_int group_status_of (g_status g).
Definition policy_ok (p : policy_t) : Prop :=
  text_fits 64 (p_name p) ∧ text_fits (S 8191) (p_rules p) ∧ - 2 ^ 31 ≤ p_priority p < 2 ^ 31 ∧
  enum_fits perm_strategy_int perm_strategy_of (p_strategy_type p) ∧ enum_fits policy_effect_int policy_effect_of (p_effect p) ∧
  enum_fits policy_status_int policy_status_of (p_status p).

Lemma role_back r z : role_ok r → 0 ≤ z < 2 ^ 63 → read_role (SInt z :: bind_role r) = set_role_id r z.
Proof.
  intros (Hn & Hd & Hp & Hs & Hs') Hz. unfold read_role, COL_ID, column_int, column_int64, column_text, bind_role, bind_id.
  cbn [lookup list_lookup from_option id]. rewrite !text_back by done. rewrite id_back, u64_small, s32_small by lia. by rewrite Hs'.
Qed.
Lemma group_back g z : group_ok g → 0 ≤ z < 2 ^ 63 → read_group (SInt z :: bind_group g) = set_group_id g z.
Proof.
  intros (Hn & Hd & Hp & Hs & Hs') Hz. unfold read_group, COL_ID, column_int, column_int64, column_text, bind_group, bind_id.
  cbn [lookup list_lookup from_option id]. rewrite !text_back by done. rewrite id_back, u64_small, s32_small by lia. by rewrite Hs'.
Qed.
Lemma policy_back p z : policy_ok p → 0 ≤ z < 2 ^ 63 → read_policy (SInt z :: bind_policy p) = set_policy_id p z.
Proof.
  intros (Hn & Hr & Hp & (H1 & H1') & (H2 & H2') & (H3 & H3')) Hz.
  unfold read_policy, COL_ID, column_int, column_int64, column_text, bind_policy.
  cbn [lookup list_lookup from_option id]. change 8192%nat with (S 8191). rewrite !text_back by done.
  rewrite u64_small, !s32_small by lia. by rewrite H1', H2', H3'.
Qed.

(** C29. Roles, groups and policies with any texts that fit their columns are
    read back unchanged, by number and by name, after they are created
    under a free name; a name in use is refused and nothing changes. *)
Theorem sqlite_rows_trip r g p (s : state) :
  inv s →
  (role_ok r → next_number s "roles" < 2 ^ 63 →
     named_created "roles" (r_name r) (sqlite_role_create r) sqlite_role_get_by_id sqlite_role_get_by_name (set_role_id r) s) ∧
  (group_ok g → next_number s "groups_t" < 2 ^ 63 →
     named_created "groups_t" (g_name g) (sqlite_group_create g) sqlite_group_get_by_id sqlite_group_get_by_name (set_group_id g) s) ∧
  (policy_ok p → next_number s "policies" < 2 ^ 63 →
     named_created "policies" (p_name p) (sqlite_policy_create p) sqlite_policy_get_by_id sqlite_policy_get_by_name (set_policy_id p) s).
Proof.
  intros Hs. split_and!; intros Hok Hlt.
  - eapply (named_trip "roles" _ _ SQL_role_create (bind_role r) (λ z, SInt z :: bind_role r));
      [sql_now..|by intros []|intros; reflexivity|intros; reflexivity|done|done|intros; by apply role_back|done|done].
  - eapply (named_trip "groups_t" _ _ SQL_group_create (bind_group g) (λ z, SInt z :: bind_group g));
      [sql_now..|by intros []|intros; reflexivity|intros; reflexivity|done|done|intros; by apply group_back|done|done].
  - eapply (named_trip "policies" _ _ SQL_policy_create (bind_policy p) (λ z, SInt z :: bind_policy p));
      [sql_now..|by intros []|intros; reflexivity|intros; reflexivity|done|done|intros; by apply policy_back|done|done].
Qed.

(* ------------------------------------------------------------------ *)
(** ** Changes of rows *)

Definition updated (t : cstr) (args : list sval) (sets : list (list ascii * expr)) (w : cond) (rows : list row) : list row :=
  map (λ x, if sat true (schema_of cat t) args x w then set_row (schema_of cat t) args no_row sets x else x) rows.
Definition rows_ok (t : cstr) (rows : list row) : bool := unique (schema_of cat t) rows && forallb (null_ok (schema_of cat t)) rows.

Lemma update_run t sets w sql args (s : state) :
  sql_parse sql = Some (Update t sets w) → change_ok sql args = true → inv s →
  let rows := updated t args sets w (table s t) in
  ∃ s', db_opened (prepared sql args done_or_storage) s = Ret (if rows_ok t rows then Ok () else Err SSO_ERR_STORAGE, s') ∧
    unchecked (prepared sql args done_or_storage) s = Ret (if rows_ok t rows then Ok () else Err SSO_ERR_STORAGE, s') ∧ inv s' ∧
    (table s' t = if rows_ok t rows then rows else table s t) ∧ ∀ t', t' ≠ t → table s' t' = table s t'.
Proof.
  intros Hp Hok Hs rows.
  assert (Hw : sql_write true cat (Update t sets w) args (view (sq_db s)) =
    (if rows_ok t rows then SQLITE_DONE else SQLITE_CONSTRAINT, 0,
     <[t := if rows_ok t rows then {| td_rows := rows; td_seq := td_seq (data_of (view (sq_db s)) t) |} else data_of (view (sq_db s)) t]>
       (view (sq_db s)))).
  { cbn [sql_write]. unfold update_rows. fold (table s t). fold (updated t args sets w (table s t)). fold rows. fold (rows_ok t rows).
    by destruct (rows_ok t rows). }
  destruct (change_run _ _ _ done_or_storage s _ _ _ Hp Hok Hs Hw) as (s' & n' & E & E' & Hi & Hv & _). exists s'.
  unfold SqliteSafety.table. rewrite E, E', Hv. split_and!; [by destruct (rows_ok t rows)..|done| |].
  - rewrite data_insert, decide_True by done. by destruct (rows_ok t rows).
  - intros t' Ht. rewrite data_insert. by rewrite decide_False.
Qed.

Lemma delete_run {A} t w sql args (k : list row → step_rc → Z → result A) (s : state) :
  sql_parse sql = Some (Delete t w) → change_ok sql args = true → inv s →
  ∃ s' n, prepared sql args k s = Ret (k [] SQLITE_DONE n, s') ∧ inv s' ∧
    (table s' t = filter (λ x, sat true (schema_of cat t) args x w = false) (table s t)) ∧ ∀ t', t' ≠ t → table s' t' = table s t'.
Proof.
  intros Hp Hok Hs.
  destruct (change_run _ _ _ k s _ _ _ Hp Hok Hs eq_refl) as (s' & n' & E & _ & Hi & Hv & _). exists s', n'.
  unfold db_opened in E. rewrite (proj1 Hs) in E. unfold SqliteSafety.table. rewrite Hv. split_and!; [exact E|done| |].
  - rewrite data_insert. by rewrite decide_True.
  - intros t' Ht. rewrite data_insert. by rewrite decide_False.
Qed.

(** Rows of a table that do not hold a value in a column. *)
Definition without (t c : cstr) (v : sval) (rows : list row) : list row := filter (λ x, is_val t c v x = false) rows.
Lemma delete_eq t c args v rows :
  arg args 1 = v → v ≠ SNull → coerce (col_is_int (schema_of cat t) c) v = v →
  filter (λ x, sat true (schema_of cat t) args x (CCmp c CEq (Param 1)) = false) rows = without t c v rows.
Proof. intros Ha Hv Hc. apply list_filter_iff. intros x. by rewrite (sat_eq true cat t c 1 v). Qed.

Lemma not_elem_of_cons_4 {A} (x a b c d : A) l : x ∉ a :: b :: c :: d :: l → x ≠ a ∧ x ≠ b ∧ x ≠ c ∧ x ≠ d ∧ x ∉ l.
Proof. by rewrite !not_elem_of_cons. Qed.

(** Deleting a user removes its row, its roles, its groups and the
    policies assigned to it, and nothing else.  Deleting a policy removes
    its row alone: what it was assigned to still lists it. *)
Theorem sqlite_deletes id (s : state) :
  inv s →
  (∃ s', sqlite_users_delete id s = Ret (Ok (), s') ∧ inv s' ∧
     (table s' "users" = without "users" "id" (bind_id id) (table s "users")) ∧
     (table s' "user_roles" = without "user_roles" "user_id" (bind_id id) (table s "user_roles")) ∧
     (table s' "user_groups" = without "user_groups" "user_id" (bind_id id) (table s "user_groups")) ∧
     (table s' "policy_assignments" =
        filter (λ r, is_val "policy_assignments" "target_type" (SInt 0) r && is_val "policy_assignments" "target_id" (bind_id id) r = false)
          (table s "policy_assignments")) ∧
     ∀ t, t ∉ ["users" : cstr; "user_roles" : cstr; "user_groups" : cstr; "policy_assignments" : cstr] → table s' t = table s t) ∧
  (∃ s', sqlite_policies_delete id s = Ret (Ok (), s') ∧ inv s' ∧
     (table s' "policies" = without "policies" "id" (bind_id id) (table s "policies")) ∧
     (table s' "policy_assignments" = table s "policy_assignments")).
Proof.
  intros Hs. split.
  - destruct (delete_run "user_roles" (CCmp "user_id" CEq (Param 1)) "DELETE FROM user_roles WHERE user_id=?1" [bind_id id]
      (λ _ _ _, Ok () : result unit) s) as (s1 & n1 & E1 & H1 & T1 & O1); [sql_now..|].
    destruct (delete_run "user_groups" (CCmp "user_id" CEq (Param 1)) "DELETE FROM user_groups WHERE user_id=?1" [bind_id id]
      (λ _ _ _, Ok () : result unit) s1) as (s2 & n2 & E2 & H2 & T2 & O2); [sql_now..|].
    destruct (delete_run "policy_assignments" (CAnd (CCmp "target_type" CEq (Number 0)) (CCmp "target_id" CEq (Param 1)))
      "DELETE FROM policy_assignments WHERE target_type=0 AND target_id=?1" [bind_id id]
      (λ _ _ _, Ok () : result unit) s2) as (s3 & n3 & E3 & H3 & T3 & O3); [sql_now..|].
    destruct (delete_run "users" (CCmp "id" CEq (Param 1)) "DELETE FROM users WHERE id=?1" [bind_id id]
      done_or_storage s3) as (s4 & n4 & E4 & H4 & T4 & O4); [sql_now..|].
    exists s4. split; [|split; [done|]].
    { unfold sqlite_users_delete, db_opened, also, cascade_delete. rewrite (proj1 Hs).
      rewrite E1. cbn [mbind outcome_bind]. rewrite E2. cbn [mbind outcome_bind]. rewrite E3. cbn [mbind outcome_bind]. exact E4. }
    split_and!.
    + rewrite T4, (delete_eq _ _ _ (bind_id id)) by done. by rewrite O3, O2, O1.
    + rewrite O4, O3, O2 by done. by rewrite T1, (delete_eq _ _ _ (bind_id id)).
    + rewrite O4, O3 by done. by rewrite T2, (delete_eq _ _ _ (bind_id id)), O1.
    + rewrite O4 by done. rewrite T3, O2, O1 by done. apply list_filter_iff. intros x. cbn [sat].
      pose proof (sat_eq true cat "policy_assignments" "target_id" 1 (bind_id id) [bind_id id] x) as Ht. cbn [sat] in Ht. rewrite Ht by done.
      pose proof (sat_eq true cat "policy_assignments" "target_type" 1 (SInt 0) [SInt 0] x) as Hy. cbn [sat] in Hy.
      change (ev [bind_id id] no_row (Number 0)) with (ev [SInt 0] no_row (Param 1)). by rewrite Hy by done.
    + intros t (H5 & H6 & H7 & H8 & _)%not_elem_of_cons_4. by rewrite O4, O3, O2, O1.
  - destruct (delete_run "policies" (CCmp "id" CEq (Param 1)) (SQL_delete "policies") [bind_id id]
      done_or_storage s) as (s1 & n1 & E1 & H1 & T1 & O1); [sql_now..|].
    exists s1. split; [unfold sqlite_policies_delete, db_opened; rewrite (proj1 Hs); exact E1|]. split; [done|]. split.
    + by rewrite T1, (delete_eq _ _ _ (bind_id id)).
    + by apply O1.
Qed.

(* ------------------------------------------------------------------ *)
(** ** Users *)

Lemma unique_map sc (f : row → row) l :
  unique sc l = true → NoDup (map (λ r : row, r !! 0%nat) l) →
  (∀ x y, x ∈ l → y ∈ l → x !! 0%nat ≠ y !! 0%nat → clash sc x y = false → clash sc (f x) (f y) = false) → unique sc (map f l) = true.
Proof.
  induction l as [|x l IH]; [done|]. cbn [unique map]. intros [Hx Hl]%andb_true_iff [Hn Hd]%NoDup_cons Hf.
  rewrite IH; [|done|done|intros; apply Hf; auto; by right]. rewrite andb_true_r. rewrite forallb_forall in *.
  intros y' (y & <- & Hy)%in_map_iff. apply negb_true_iff. apply Hf; [left|right; by apply list_elem_of_In| |].
  - intros He. apply Hn. rewrite He. apply list_elem_of_In, in_map_iff. by exists y.
  - apply negb_true_iff. by apply Hx.
Qed.

Definition user_args (u : user_t) : list sval :=
  [SText (u_phone u); SText (u_password_hash u); SText (u_email u); SText (u_display_name u); SInt (user_status_int (u_status u));
   SInt (u_updated_at u); SText (u_attributes u); SInt (u_mfa_enabled u); SText (u_mfa_secret u); SInt (u_password_set_at u);
   bind_id (u_id u)].
Definition user_sets : list (list ascii * expr) :=
  [("phone" : cstr, Param 1); ("password_hash" : cstr, Param 2); ("email" : cstr, Param 3); ("display_name" : cstr, Param 4);
   ("status" : cstr, Param 5); ("updated_at" : cstr, Param 6); ("attributes" : cstr, Param 7); ("mfa_enabled" : cstr, Param 8);
   ("mfa_secret" : cstr, Param 9); ("password_set_at" : cstr, Param 10)].
Definition set_user (u : user_t) (r : row) : row := set_row (schema_of cat "users") (user_args u) no_row user_sets r.
Definition user_rows (u : user_t) (rows : list row) : list row :=
  map (λ x, if is_val "users" "id" (bind_id (u_id u)) x then set_user u x else x) rows.

Lemma user_update_run u (s : state) :
  inv s → let rows := user_rows u (table s "users") in
  ∃ s', sqlite_user_update u s = Ret (if unique (schema_of cat "users") rows then Ok () else Err SSO_ERR_STORAGE, s') ∧ inv s' ∧
    (table s' "users" = if unique (schema_of cat "users") rows then rows else table s "users") ∧
    ∀ t' : cstr, t' ≠ ("users" : cstr) → table s' t' = table s t'.
Proof.
  intros Hs rows. destruct (update_run "users" user_sets (CCmp "id" CEq (Param 11)) SQL_user_update (user_args u) s) as (s' & E & _ & Hi & Ht & Ho); [sql_now..|].
  assert (Hr : updated "users" (user_args u) user_sets (CCmp "id" CEq (Param 11)) (table s "users") = rows).
  { apply map_ext. intros x. by rewrite (sat_eq true cat "users" "id" 11 (bind_id (u_id u))). }
  rewrite Hr in *. assert (Hk : rows_ok "users" rows = unique (schema_of cat "users") rows).
  { unfold rows_ok. replace (forallb _ rows) with true; [by rewrite andb_true_r|]. symmetry. apply forallb_forall. intros x _. reflexivity. }
  rewrite Hk in *. exists s'. split; [exact E|]. split; [exact Hi|]. split; [exact Ht|exact Ho].
Qed.

Lemma user_row_shape (s : state) x : inv s → x ∈ table s "users" →
  ∃ z v1 v2 v3 v4 v5 v6 v7 v8 v9 v10 v11 v12, x = [SInt z; v1; v2; v3; v4; v5; v6; v7; v8; v9; v10; v11; v12] ∧ 1 ≤ z < 2 ^ 63.
Proof.
  intros [_ Hw] Hx. destruct (Hw "users") as [Hr _ Hq Hi]. rewrite Forall_forall in Hr. destruct (Hr x Hx) as [Hl _].
  destruct (Hi eq_refl) as [Hn _]. rewrite Forall_forall in Hn. destruct (Hn x Hx) as (z & Hz & Hb).
  change (length (sc_cols (schema_of cat "users"))) with 13%nat in Hl.
  do 14 (destruct x as [|? x]; try discriminate Hl). cbn in Hz. injection Hz as ->.
  eexists z, _, _, _, _, _, _, _, _, _, _, _, _. split; [reflexivity|]. lia.
Qed.

Lemma clash_users r x :
  clash (schema_of cat "users") r x =
  (negb (bool_decide (col "users" "username" r = SNull)) && bool_decide (col "users" "username" r = col "users" "username" x)) ||
  (negb (bool_decide (col "users" "phone" r = SNull)) && bool_decide (col "users" "phone" r = col "users" "phone" x)).
Proof. unfold clash, agree. change (sc_unique _) with [["username" : cstr]; ["phone" : cstr]]. cbn [existsb forallb]. by rewrite !andb_true_r, orb_false_r. Qed.

Lemma user_set_row u z v1 v2 v3 v4 v5 v6 v7 v8 v9 v10 v11 v12 :
  set_user u [SInt z; v1; v2; v3; v4; v5; v6; v7; v8; v9; v10; v11; v12] =
  [SInt z; v1; SText (u_phone u); SText (u_password_hash u); SText (u_email u); SText (u_display_name u);
   SInt (user_status_int (u_status u)); v7; SInt (u_updated_at u); SInt (u_password_set_at u); SText (u_attributes u);
   SInt (u_mfa_enabled u); SText (u_mfa_secret u)].
Proof. reflexivity. Qed.

(** Phones of other rows. *)
Definition phone_free (s : state) (u : user_t) : Prop :=
  Forall (λ y, is_val "users" "id" (bind_id (u_id u)) y = false → col "users" "phone" y ≠ SText (u_phone u)) (table s "users").

Lemma user_rows_unique u (s : state) :
  inv s → phone_free s u → unique (schema_of cat "users") (user_rows u (table s "users")) = true.
Proof.
  intros Hs Hf. pose proof (proj2 Hs "users") as [_ Hu _ Hi]. destruct (Hi eq_refl) as [_ Hd].
  apply unique_map; [done|done|]. intros x y Hx Hy Hne Hc. unfold phone_free in Hf. rewrite Forall_forall in Hf.
  assert (Hone : ∀ x y, x ∈ table s "users" → y ∈ table s "users" → is_val "users" "id" (bind_id (u_id u)) y = false →
    clash (schema_of cat "users") x y = false → clash (schema_of cat "users") (set_user u x) y = false).
  { intros a b Ha Hb Hv. rewrite !clash_users. intros [H1 _]%orb_false_iff.
    destruct (user_row_shape s a Hs Ha) as (za & a1 & a2 & a3 & a4 & a5 & a6 & a7 & a8 & a9 & a10 & a11 & a12 & -> & _). rewrite user_set_row.
    apply orb_false_iff. split; [exact H1|]. apply andb_false_iff. right. apply bool_decide_eq_false. intros He. by apply (Hf b Hb Hv). }
  destruct (is_val "users" "id" (bind_id (u_id u)) x) eqn:Ex, (is_val "users" "id" (bind_id (u_id u)) y) eqn:Ey; [|by apply Hone| |done].
  - exfalso. apply Hne. unfold val_is in *. rewrite bool_decide_eq_true in *.
    destruct (user_row_shape s x Hs Hx) as (zx & ? & ? & ? & ? & ? & ? & ? & ? & ? & ? & ? & ? & -> & _).
    destruct (user_row_shape s y Hs Hy) as (zy & ? & ? & ? & ? & ? & ? & ? & ? & ? & ? & ? & ? & -> & _).
    change (SInt zx = bind_id (u_id u)) in Ex. change (SInt zy = bind_id (u_id u)) in Ey. cbn. congruence.
  - rewrite clash_sym. apply Hone; [done..|]. by rewrite clash_sym.
Qed.

(** What the four columns after [updated_at] are read as. *)
Definition shifted (u v : user_t) : Prop :=
  u_attributes v = print_lld (u_password_set_at u) ∧ u_mfa_enabled v = s32 (atoll (u_attributes u)) ∧
  u_mfa_secret v = print_lld (u_mfa_enabled u) ∧ u_password_set_at v = atoll (u_mfa_secret u).

(** C30. The update of a user stores its columns under their names, and every
    read takes them by position from a table in another order: attributes
    come back as the time of the password, the second factor as the number
    the attributes begin with (0 for an object), its secret as the flag.
    A user with attributes and a second factor is read without it. *)
Theorem sqlite_second_factor_lost u (s : state) :
  inv s → (∃ x, x ∈ table s "users" ∧ col "users" "id" x = bind_id (u_id u)) → phone_free s u →
  - 2 ^ 63 ≤ u_password_set_at u < 2 ^ 63 → - 2 ^ 31 ≤ u_mfa_enabled u < 2 ^ 31 →
  ∃ s' v, sqlite_user_update u s = Ret (Ok (), s') ∧ sqlite_user_get_by_id (u_id u) s' = Ret (Ok v, s') ∧ shifted u v ∧
    ∀ rest, u_attributes u = "{"%char :: rest → u_mfa_enabled v = 0.
Proof.
  intros Hs (x & Hx & Hid) Hf Hp Hm. destruct (user_update_run u s Hs) as (s' & E & Hs' & Ht & _).
  rewrite (user_rows_unique u s Hs Hf) in *.
  exists s', (read_user (set_user u x)). split; [exact E|].
  assert (Hn : by_number view s' "users" (u_id u) = [set_user u x]).
  { assert (Hl : (length (by_number view s' "users" (u_id u)) ≤ 1)%nat) by (apply one_number; [apply Hs'|done|by intros []]).
    assert (Hin : set_user u x ∈ by_number view s' "users" (u_id u)).
    { apply list_elem_of_filter. rewrite Ht. destruct (user_row_shape s x Hs Hx) as (z & v1 & v2 & v3 & v4 & v5 & v6 & v7 & v8 & v9 & v10 & v11 & v12 & Hxe & _).
      split; [rewrite Hxe, user_set_row; apply bool_decide_eq_true; rewrite Hxe in Hid; exact Hid|].
      apply list_elem_of_fmap. exists x. split; [|done]. unfold val_is. by rewrite bool_decide_eq_true_2. }
    destruct (by_number view s' "users" (u_id u)) as [|a [|b l]]; [by apply elem_of_nil in Hin| |cbn in Hl; lia].
    by apply list_elem_of_singleton in Hin as ->. }
  split.
  { unfold sqlite_user_get_by_id, get_by_id. rewrite (number_run view "users" Star); [|sql_now|sql_now|sql_now|sql_now|by intros []|done|done].
    cbn [project]. by rewrite Hn. }
  destruct (user_row_shape s x Hs Hx) as (z & v1 & v2 & v3 & v4 & v5 & v6 & v7 & v8 & v9 & v10 & v11 & v12 & -> & _). rewrite user_set_row.
  assert (Hsh : shifted u (read_user [SInt z; v1; SText (u_phone u); SText (u_password_hash u); SText (u_email u); SText (u_display_name u);
     SInt (user_status_int (u_status u)); v7; SInt (u_updated_at u); SInt (u_password_set_at u); SText (u_attributes u);
     SInt (u_mfa_enabled u); SText (u_mfa_secret u)])).
  { unfold shifted, read_user, column_text, column_int, column_int64. cbn [lookup list_lookup from_option id u_attributes u_mfa_enabled u_mfa_secret u_password_set_at].
    pose proof (print_lld_length (u_password_set_at u) Hp). pose proof (print_lld_length (u_mfa_enabled u) ltac:(lia)).
    rewrite !sso_strlcpy_fits by lia. done. }
  split; [exact Hsh|]. intros rest Hrest. destruct Hsh as (_ & -> & _). by rewrite Hrest.
Qed.

Lemma unique_pair sc (a b : row) l :
  unique sc l = true → a ∈ l → b ∈ l → a !! 0%nat ≠ b !! 0%nat → clash sc a b = false.
Proof.
  induction l as [|r l IH]; [set_solver|]. cbn [unique]. intros [H1 H2]%andb_true_iff Ha Hb Hn.
  rewrite forallb_forall in H1. rewrite elem_of_cons in Ha, Hb. destruct Ha as [->|Ha], Hb as [->|Hb]; [done| | |by apply IH].
  - apply negb_true_iff, H1. by apply list_elem_of_In.
  - rewrite clash_sym. apply negb_true_iff, H1. by apply list_elem_of_In.
Qed.

(** An update binds an empty phone as a text, which is unique: once one
    user without a phone has been updated, no other can be. *)
Theorem sqlite_second_phoneless u (s : state) :
  inv s → u_phone u = [] → (∃ x, x ∈ table s "users" ∧ col "users" "id" x = bind_id (u_id u)) →
  (∃ y, y ∈ table s "users" ∧ is_val "users" "id" (bind_id (u_id u)) y = false ∧ col "users" "phone" y = SText []) →
  ∃ s', sqlite_user_update u s = Ret (Err SSO_ERR_STORAGE, s') ∧ ∀ t, table s' t = table s t.
Proof.
  intros Hs Hp (x & Hx & Hid) (y & Hy & Hyi & Hyp). destruct (user_update_run u s Hs) as (s' & E & Hs' & Ht & Ho).
  assert (Hu : unique (schema_of cat "users") (user_rows u (table s "users")) = false).
  { destruct (unique _ _) eqn:Eu; [|done]. exfalso.
    destruct (user_row_shape s x Hs Hx) as (z & v1 & v2 & v3 & v4 & v5 & v6 & v7 & v8 & v9 & v10 & v11 & v12 & Hxe & _).
    assert (Hne : set_user u x !! 0%nat ≠ y !! 0%nat).
    { destruct (user_row_shape s y Hs Hy) as (zy & ? & ? & ? & ? & ? & ? & ? & ? & ? & ? & ? & ? & -> & _). rewrite Hxe, user_set_row. cbn.
      intros [= ->]. unfold val_is in Hyi. apply bool_decide_eq_false in Hyi. apply Hyi. rewrite <- Hid, Hxe. reflexivity. }
    assert (Hc : clash (schema_of cat "users") (set_user u x) y = true).
    { rewrite clash_users. replace (col "users" "phone" (set_user u x)) with (SText (u_phone u)) by by rewrite Hxe, user_set_row.
      rewrite Hp, Hyp. apply orb_true_r. }
    rewrite (unique_pair _ (set_user u x) y _ Eu) in Hc; [done| | |done].
    - apply list_elem_of_fmap. exists x. split; [|done]. unfold val_is. by rewrite bool_decide_eq_true_2.
    - apply list_elem_of_fmap. exists y. by rewrite Hyi. }
  rewrite Hu in *. exists s'. split; [exact E|]. intros t. destruct (decide (t = ("users" : cstr))) as [->|Hn]; [exact Ht|by apply Ho].
Qed.
End Rows.

(* ------------------------------------------------------------------ *)
(** ** Witnesses *)

(** Two roles that are each other's parents, one of them held by user 5. *)
Definition cyclic_db : database :=
  <[("user_roles" : cstr) := {| td_rows := [[SInt 5; SInt 1]]; td_seq := 0 |}]>
  (<[("roles" : cstr) := {| td_rows := [[SInt 1; SText ("a" : cstr); SText []; SInt 2; SInt 1; SInt 0; SInt 0];
                                        [SInt 2; SText ("b" : cstr); SText []; SInt 1; SInt 1; SInt 0; SInt 0]]; td_seq := 2 |}]> ∅).
Lemma cyclic_wf : db_wf cat cyclic_db.
Proof. do 2 (apply db_wf_insert; [|apply table_test_ok; vm_compute; reflexivity]). apply db_wf_empty. Qed.
Lemma cyclic_answer : sqlite_get_user_roles_with_ancestors 5 10%nat (sq_state cyclic_db) = Ret (Ok [1; 2], sq_state cyclic_db).
Proof. vm_compute. reflexivity. Qed.

Lemma sqlite_ancestors_exact_witness :
  ∃ ids, sqlite_get_user_roles_with_ancestors 5 10%nat (sq_state cyclic_db) = Ret (ids_answer ids 10%nat, sq_state cyclic_db) ∧
    ∀ x, x ∈ ids ↔ ∃ r, r ∈ SqliteSafety.table (λ d, d) (sq_state cyclic_db) "roles" ∧
      inherits (λ d, d) (sq_state cyclic_db) 5 (col "roles" "id" r) ∧ col "roles" "status" r = SInt 1 ∧ x = COL_ID [col "roles" "id" r] 0.
Proof. apply (sqlite_ancestors_exact (λ d, d) 5 10%nat (sq_state cyclic_db)). apply sq_state_inv, cyclic_wf. Defined.

Definition spaced_role : role_t :=
  {| r_id := 0; r_name := "Site admin (100%)"; r_description := []; r_parent_role_id := 0; r_status := ROLE_STATUS_ACTIVE;
     r_created_at := 1; r_updated_at := 2 |}.
Definition plain_group : group_t :=
  {| g_id := 0; g_name := "staff"; g_description := "all of us"; g_parent_group_id := 0; g_status := GROUP_STATUS_ACTIVE;
     g_created_at := 1; g_updated_at := 2 |}.
Definition plain_policy : policy_t :=
  {| p_id := 0; p_name := "p"; p_strategy_type := PERM_STRATEGY_API; p_effect := POLICY_EFFECT_ALLOW; p_priority := 3; p_rules := "{}";
     p_status := POLICY_STATUS_ENABLED; p_created_at := 1; p_updated_at := 2 |}.
Definition text_test (n : nat) (t : cstr) : bool := forallb (λ c, negb (Ascii.eqb c NUL)) t && (length t <? n)%nat.
Lemma text_test_ok n t : text_test n t = true → text_fits n t.
Proof.
  unfold text_test. intros [H1 H2]%andb_true_iff. split; [|by apply Nat.ltb_lt]. intros Hin%list_elem_of_In.
  rewrite forallb_forall in H1. specialize (H1 _ Hin). by rewrite Ascii.eqb_refl in H1.
Qed.
Lemma spaced_ok : role_ok spaced_role.
Proof. split_and!; [apply text_test_ok; reflexivity..|done|done|split; [vm_compute; split; congruence|reflexivity]]. Qed.

Lemma sqlite_rows_trip_witness :
  named_created (λ d, d) "roles" (r_name spaced_role) (sqlite_role_create spaced_role) sqlite_role_get_by_id sqlite_role_get_by_name
    (set_role_id spaced_role) (sq_state ∅).
Proof. apply (sqlite_rows_trip (λ d, d) spaced_role plain_group plain_policy (sq_state ∅)); [apply sq_state_inv, db_wf_empty|apply spaced_ok|reflexivity]. Defined.

Definition mfa_user (id : Z) (phone : cstr) : user_t :=
  {| u_id := id; u_username := "eve"; u_phone := phone; u_password_hash := "h"; u_email := []; u_display_name := []; u_status := USER_STATUS_ACTIVE;
     u_created_at := 1; u_updated_at := 2; u_attributes := "{}"; u_mfa_enabled := 1; u_mfa_secret := "JBSWY3DP"; u_password_set_at := 9 |}.
Definition user_row (id : Z) (name : cstr) (phone : sval) : row :=
  [SInt id; SText name; phone; SText ("h" : cstr); SText []; SText []; SInt 1; SInt 1; SInt 2; SInt 9; SText ("{}" : cstr); SInt 0; SText []].
Definition two_users : database :=
  <[("users" : cstr) := {| td_rows := [user_row 1 "eve" SNull; user_row 2 "bob" (SText [])]; td_seq := 2 |}]> ∅.
Lemma two_users_wf : db_wf cat two_users.
Proof. apply db_wf_insert; [apply db_wf_empty|]. apply table_test_ok. vm_compute. reflexivity. Qed.
Lemma two_users_eve : ∃ x, x ∈ SqliteSafety.table (λ d, d) (sq_state two_users) "users" ∧ col "users" "id" x = bind_id 1.
Proof. exists (user_row 1 "eve" SNull). split; [apply list_elem_of_In; vm_compute; by left|reflexivity]. Qed.
Lemma two_users_phone : phone_free (λ d, d) (sq_state two_users) (mfa_user 1 "555").
Proof.
  unfold phone_free. replace (SqliteSafety.table _ _ _) with [user_row 1 "eve" SNull; user_row 2 "bob" (SText [])] by (vm_compute; reflexivity).
  repeat constructor; intros _; by vm_compute.
Qed.

Lemma sqlite_second_factor_lost_witness :
  ∃ s' v, sqlite_user_update (mfa_user 1 "555") (sq_state two_users) = Ret (Ok (), s') ∧
    sqlite_user_get_by_id 1 s' = Ret (Ok v, s') ∧ shifted (mfa_user 1 "555") v ∧
    ∀ rest, u_attributes (mfa_user 1 "555") = "{"%char :: rest → u_mfa_enabled v = 0.
Proof.
  apply (sqlite_second_factor_lost (λ d, d) (mfa_user 1 "555") (sq_state two_users));
    [apply sq_state_inv, two_users_wf|apply two_users_eve|apply two_users_phone|vm_compute; split; congruence..].
Defined.

Lemma two_users_bob : ∃ y, y ∈ SqliteSafety.table (λ d, d) (sq_state two_users) "users" ∧
  is_val "users" "id" (bind_id 1) y = false ∧ col "users" "phone" y = SText [].
Proof. exists (user_row 2 "bob" (SText [])). split; [apply list_elem_of_In; vm_compute; auto|split; reflexivity]. Qed.
Lemma sqlite_second_phoneless_witness :
  ∃ s', sqlite_user_update (mfa_user 1 []) (sq_state two_users) = Ret (Err SSO_ERR_STORAGE, s') ∧
    ∀ t, SqliteSafety.table (λ d, d) s' t = SqliteSafety.table (λ d, d) (sq_state two_users) t.
Proof.
  apply (sqlite_second_phoneless (λ d, d) (mfa_user 1 []) (sq_state two_users));
    [apply sq_state_inv, two_users_wf|reflexivity|apply two_users_eve|apply two_users_bob].
Defined.

Lemma sqlite_deletes_witness :
  ∃ s', sqlite_policies_delete 4 (sq_state ∅) = Ret (Ok (), s') ∧ sqlite_inv (λ d, d) s'.
Proof.
  destruct (sqlite_deletes (λ d, d) 4 (sq_state ∅) (sq_state_inv _ (db_wf_empty _))) as [_ (s' & E & H & _)]. by exists s'.
Defined.
