(* ===== verification/SqliteOpen.v ===== *)
(** * Opening SQLite databases, and their reading connections

    The schema file, the migrations, transactions, and the connection
    every thread keeps for texts that begin with SELECT: it belongs to the
    first database the thread has worked on, whichever backend asks. *)

From S2P Require Import Prelude CLib CNum Types Storage Printf Http Redis Sql SqlSafety Sqlite SqliteSafety SqliteRows.

(** Opening a file gives a handle and whether it can be used; a text runs
    without values; files are read whole. *)
Class SqliteFiles (D : Type) := {
  sqlite3_open : cstr → option D * bool;
  sqlite3_exec : cstr → D → bool * D;
  sqlite_file : cstr → option cstr
}.

(* ------------------------------------------------------------------ *)
(** ** Opening *)

(** Empty files count as missing. *)
Definition read_file {D} `{!SqliteFiles D} (path : cstr) : option cstr :=
  match sqlite_file path with Some ((_ :: _) as t) => Some (c_str t) | _ => None end.

Definition migration (v : Z) : option cstr :=
  if v =? 1 then Some (
    "CREATE INDEX IF NOT EXISTS idx_user_roles_user ON user_roles(user_id);CREATE INDEX IF NOT EXISTS idx_user_roles_role ON user_roles(role_id);CREATE INDEX IF NOT EXISTS idx_user_groups_user ON user_groups(user_id);CREATE INDEX IF NOT EXISTS idx_user_groups_group ON user_groups(group_id);CREATE INDEX IF NOT EXISTS idx_role_groups_role ON role_groups(role_id);CREATE INDEX IF NOT EXISTS idx_role_groups_group ON role_groups(group_id);CREATE INDEX IF NOT EXISTS idx_policy_assignments_target ON policy_assignments(target_type, target_id);" : cstr)
  else if v =? 2 then Some (
    "ALTER TABLE users ADD COLUMN mfa_enabled INTEGER DEFAULT 0;ALTER TABLE users ADD COLUMN mfa_secret TEXT DEFAULT '';CREATE TABLE IF NOT EXISTS refresh_tokens (  token_hash TEXT PRIMARY KEY,  user_id INTEGER NOT NULL,  client_id TEXT,  expires_at INTEGER NOT NULL,  issued_at INTEGER NOT NULL,  revoked INTEGER DEFAULT 0);" : cstr)
  else if v =? 3 then Some (
    "CREATE TABLE IF NOT EXISTS revoked_jtis (  jti TEXT PRIMARY KEY,  expires_at INTEGER NOT NULL);" : cstr)
  else None.

Definition SQL_version : cstr := "SELECT COALESCE(MAX(version),0) FROM _migrations".
Definition SQL_latest : cstr := "INSERT INTO _migrations (version, applied_at) VALUES (3, ?1)".
Definition SQL_applied : cstr := "INSERT INTO _migrations (version, applied_at) VALUES (?1, ?2)".

Section Open.
Context {D : Type} `{!Sqlite D} `{!SqliteFiles D} (now : Z).
Notation state := (sqlite_state D).

Definition exec_on (sql : cstr) (d : D) : D := snd (sqlite3_exec sql d).
Definition run_on (sql : cstr) (args : list sval) (d : D) : D := snd (sqlite_run sql args d).

Definition sqlite_exec_file (path : cstr) (d : D) : result unit * D :=
  match read_file (D := D) path with
  | None => (Err SSO_ERR_STORAGE, d)
  | Some sql => let '(ok, d) := sqlite3_exec sql d in ((if ok then Ok () else Err SSO_ERR_STORAGE), d)
  end.
Definition sqlite_exec_sql_file (path : cstr) (s : state) : result unit * state :=
  if sq_open s then let '(r, d) := sqlite_exec_file path (sq_db s) in (r, sq_set d s) else (Err SSO_ERR_STORAGE, s).

Definition current_version (d : D) : Z * D :=
  let '(a, d) := sqlite_run SQL_version [] d in
  (match a with Stepped (r :: _) _ _ => column_int r 0 | _ => 0 end, d).

(** The loop ends at the first version without a text: three rounds at
    most, and one more to see the end. *)
Fixpoint migrate (fuel : nat) (v : Z) (d : D) : bool * D :=
  match fuel with
  | O => (true, d)
  | S fuel =>
      match migration v with
      | None => (true, d)
      | Some sql =>
          let '(ok, d) := sqlite3_exec sql d in
          if ok then migrate fuel (v + 1) (run_on SQL_applied [SInt v; SInt now] d) else (false, d)
      end
  end.

(** A database that cannot be set up is closed again. *)
Definition sqlite_open (dsn : cstr) (s : state) : result unit * state :=
  match sqlite3_open dsn with
  | (None, _) => (Err SSO_ERR_STORAGE, {| sq_open := false; sq_db := sq_db s |})
  | (Some d, false) => (Err SSO_ERR_STORAGE, {| sq_open := true; sq_db := d |})
  | (Some d, true) =>
      let d := exec_on "PRAGMA synchronous=NORMAL;" (exec_on "PRAGMA journal_mode=WAL;" d) in
      let '(r, d) := sqlite_exec_file "sql/sqlite/schema.sql" d in
      match r with
      | Err e => (Err e, {| sq_open := false; sq_db := d |})
      | Ok _ =>
          let '(version, d) := current_version d in
          let '(version, d) := if version =? 0 then (3, run_on SQL_latest [SInt now] d) else (version, d) in
          let '(ok, d) := migrate 4 (version + 1) d in
          if ok then (Ok (), {| sq_open := true; sq_db := d |}) else (Err SSO_ERR_STORAGE, {| sq_open := false; sq_db := d |})
      end
  end.

Definition sqlite_close (s : state) : state :=
  {| sq_open := false; sq_db := if sq_open s then exec_on "PRAGMA wal_checkpoint(TRUNCATE);" (sq_db s) else sq_db s |}.

Definition exec_or_storage (sql : cstr) (s : state) : result unit * state :=
  if sq_open s then let '(ok, d) := sqlite3_exec sql (sq_db s) in ((if ok then Ok () else Err SSO_ERR_STORAGE), sq_set d s)
  else (Err SSO_ERR_STORAGE, s).
Definition sqlite_begin : state → result unit * state := exec_or_storage "BEGIN".
Definition sqlite_commit : state → result unit * state := exec_or_storage "COMMIT".
(** Whether the rollback worked is not asked. *)
Definition sqlite_rollback (s : state) : result unit * state :=
  if sq_open s then (Ok (), sq_set (exec_on "ROLLBACK" (sq_db s)) s) else (Err SSO_ERR_STORAGE, s).

(* ------------------------------------------------------------------ *)
(** ** What runs *)

(** The versions after [v], with their texts. *)
Fixpoint pending (fuel : nat) (v : Z) : list (Z * cstr) :=
  match fuel with O => [] | S fuel => match migration v with None => [] | Some sql => (v, sql) :: pending fuel (v + 1) end end.

(** When every migration runs, they run in order and are recorded. *)
Lemma migrate_runs fuel v d :
  (∀ sql d, fst (sqlite3_exec sql d) = true) →
  migrate fuel v d = (true, foldl (λ d vs, run_on SQL_applied [SInt vs.1; SInt now] (exec_on vs.2 d)) d (pending fuel v)).
Proof.
  intros Hok. revert v d. induction fuel as [|fuel IH]; intros v d; [done|]. cbn [migrate pending].
  destruct (migration v) as [sql|]; [|done]. unfold exec_on. pose proof (Hok sql d) as He.
  destruct (sqlite3_exec sql d) as [ok d'] eqn:E. cbn in He. rewrite He, IH. cbn [foldl fst snd]. by rewrite E.
Qed.
Lemma migrate_fuel fuel v d : (4 ≤ fuel)%nat → migrate fuel v d = migrate 4 v d.
Proof.
  intros Hf. destruct fuel as [|[|[|[|fuel]]]]; [lia..|]. cbn [migrate]. unfold migration.
  destruct (Z.eqb_spec v 1) as [->|H1]; [|destruct (Z.eqb_spec v 2) as [->|H2]; [|destruct (Z.eqb_spec v 3) as [->|H3]; [|done]]].
  all: cbv [Z.eqb Z.add Pos.eqb Pos.add Pos.succ]; repeat (destruct (sqlite3_exec _ _) as [[] ?]; [|done]); by destruct fuel.
Qed.

(** A database without a recorded version gets the latest number and no
    migration runs, whether its tables are new or older than the
    migrations; the first migration is never run. *)
Theorem sqlite_open_unversioned dsn (s : state) d1 d2 d3 r :
  sqlite3_open dsn = (Some d1, true) →
  sqlite_exec_file "sql/sqlite/schema.sql" (exec_on "PRAGMA synchronous=NORMAL;" (exec_on "PRAGMA journal_mode=WAL;" d1)) = (Ok r, d2) →
  current_version d2 = (0, d3) →
  sqlite_open dsn s = (Ok (), {| sq_open := true; sq_db := run_on SQL_latest [SInt now] d3 |}).
Proof. intros Ho Hf Hv. unfold sqlite_open. rewrite Ho, Hf, Hv. reflexivity. Qed.
End Open.

(* ------------------------------------------------------------------ *)
(** ** Threads *)

(** The connection a thread keeps, by the name of its database: set once,
    and looked at by every backend of the process. *)
Record sqlite_thread := { th_key : option cstr; t_read_db : option cstr }.
Definition new_thread : sqlite_thread := {| th_key := None; t_read_db := None |}.

Definition sqlite_thread_init (opens : cstr → bool) (dsn : cstr) (th : sqlite_thread) : sqlite_thread :=
  match th_key th with
  | Some c => {| th_key := th_key th; t_read_db := Some c |}
  | None => if opens dsn then {| th_key := Some dsn; t_read_db := Some dsn |} else {| th_key := None; t_read_db := None |}
  end.

Section Threads.
Context {D : Type} `{!Sqlite D}.

(** The databases of a process by their names; a missing one is new. *)
Record files := { f_of : cstr → D }.
Definition f_set (n : cstr) (d : D) (f : files) : files := {| f_of := λ m, if bool_decide (m = n) then d else f_of f m |}.

(** A backend with the database [dsn], used by a thread: where a text
    runs. *)
Definition conn_of (th : sqlite_thread) (dsn sql : cstr) : cstr :=
  match t_read_db th with Some r => if sqlite_route_conn true sql then r else dsn | None => dsn end.
#[local] Instance thread_sqlite (th : sqlite_thread) (dsn : cstr) : Sqlite files := {|
  sqlite_run sql args f :=
    let '(a, d) := sqlite_run sql args (f_of f (conn_of th dsn sql)) in (a, f_set (conn_of th dsn sql) d f) |}.

Definition opened_on (f : files) : sqlite_state files := {| sq_open := true; sq_db := f |}.
Definition answer {S A} (m : outcome (result A * S)) : option (result A) := match m with Ret (r, _) => Some r | _ => None end.

(** What a backend answers through its own connection. *)
Definition own_sqlite (dsn : cstr) : Sqlite files := thread_sqlite new_thread dsn.

Lemma answer_routed {A} th dsn other sql args (k : list row → step_rc → Z → result A) f :
  t_read_db th = Some other → sqlite_route_conn true sql = true →
  answer (@db_opened files A (@prepared files (thread_sqlite th dsn) A sql args k) (opened_on f)) =
  answer (@db_opened files A (@prepared files (own_sqlite other) A sql args k) (opened_on f)).
Proof.
  intros Ht Hr. unfold db_opened, opened_on, prepared, own_sqlite, thread_sqlite, conn_of. cbn [sq_open sq_db sqlite_run t_read_db new_thread].
  rewrite Ht, Hr. by destruct (sqlite_run sql args (f_of f other)) as [a d].
Qed.

(** C26. A thread that has worked for one database reads from it for every
    other: whatever backend a request is for, users are looked up in the
    first one's tables, by id, name and phone, and its roles and policies
    count. *)
Theorem reads_cross_databases opens first second (f : files) th :
  th = sqlite_thread_init opens second (sqlite_thread_init opens first new_thread) → opens first = true →
  let b := thread_sqlite th second in
  (∀ n, answer (@sqlite_user_get_by_name files b n (opened_on f)) = answer (@sqlite_user_get_by_name files (own_sqlite first) n (opened_on f))) ∧
  (∀ i, answer (@sqlite_user_get_by_id files b i (opened_on f)) = answer (@sqlite_user_get_by_id files (own_sqlite first) i (opened_on f))) ∧
  (∀ p, answer (@sqlite_user_get_by_phone files b p (opened_on f)) = answer (@sqlite_user_get_by_phone files (own_sqlite first) p (opened_on f))) ∧
  (∀ i m, answer (@sqlite_get_user_roles files b i m (opened_on f)) = answer (@sqlite_get_user_roles files (own_sqlite first) i m (opened_on f))) ∧
  (∀ t i m, answer (@sqlite_get_target_policies files b t i m (opened_on f)) =
            answer (@sqlite_get_target_policies files (own_sqlite first) t i m (opened_on f))).
Proof.
  intros -> Ho b. assert (Ht : t_read_db (sqlite_thread_init opens second (sqlite_thread_init opens first new_thread)) = Some first).
  { unfold sqlite_thread_init. cbn [new_thread th_key]. rewrite Ho. reflexivity. }
  unfold sqlite_user_get_by_name, sqlite_user_get_by_id, get_by_id, sqlite_user_get_by_phone, sqlite_get_user_roles, sqlite_get_target_policies.
  split_and!; intros; by apply answer_routed.
Qed.
End Threads.

(* ------------------------------------------------------------------ *)
(** ** Witnesses *)

Definition two_files : files (D := database) :=
  {| f_of := λ n, if bool_decide (n = ("a.db" : cstr)) then two_users else ∅ |}.
Definition worked : sqlite_thread := sqlite_thread_init (λ _, true) "b.db" (sqlite_thread_init (λ _, true) "a.db" new_thread).
Lemma eve_unknown :
  answer (@sqlite_user_get_by_name files (own_sqlite "b.db") "eve" (opened_on two_files)) = Some (Err SSO_ERR_NOT_FOUND).
Proof. vm_compute. reflexivity. Qed.

(** Through its own connection the second database knows no such user. *)
Lemma reads_cross_databases_witness :
  answer (@sqlite_user_get_by_name files (own_sqlite "b.db") "eve" (opened_on two_files)) = Some (Err SSO_ERR_NOT_FOUND) ∧
  answer (@sqlite_user_get_by_name files (thread_sqlite worked "b.db") "eve" (opened_on two_files)) =
  answer (@sqlite_user_get_by_name files (own_sqlite "a.db") "eve" (opened_on two_files)).
Proof.
  split; [apply eve_unknown|].
  destruct (reads_cross_databases (λ _, true) "a.db" "b.db" two_files worked eq_refl eq_refl) as (H & _). apply H.
Defined.
