(* ===== verification/Postgres.v ===== *)
(** * The PostgreSQL backend (src/storage_postgres.c)

    Every operation sends a text with parameters, all of them texts, and
    reads texts back.  The texts are those of the source; libpq and the
    server are a class that answers them. *)

From S2P Require Import Prelude CLib CNum Types Storage Printf Http Redis Sql Sqlite.

(** Rows of a result: a NULL is [None]. *)
Notation pg_row := (list (option (list ascii))).
Inductive pg_answer := PGRES_TUPLES_OK (rows : list pg_row) | PGRES_COMMAND_OK | PGRES_FATAL_ERROR (sqlstate : option (list ascii)).
Class Libpq (D : Type) := { PQexecParams : cstr → list (option cstr) → D → pg_answer * D }.

(** The handle: [priv->conn] is NULL until the backend is opened, and then
    every command fails. *)
Record pg_state (D : Type) := { pg_conn : bool; pg_db : D }.
Arguments Build_pg_state {D} _ _.
Arguments pg_conn {D} _.
Arguments pg_db {D} _.
Definition pg_set {D} (d : D) (s : pg_state D) : pg_state D := {| pg_conn := pg_conn s; pg_db := d |}.

(* ------------------------------------------------------------------ *)
(** ** Values *)

(** [PQgetvalue]: the empty text for a NULL. *)
Definition PQgetvalue (r : pg_row) (i : nat) : cstr := c_str (default [] (default None (r !! i))).
Definition get_u64 (r : pg_row) (i : nat) : Z := fst (strtoull (PQgetvalue r i)).
Definition get_ll (r : pg_row) (i : nat) : Z := atoll (PQgetvalue r i).
Definition get_i32 (r : pg_row) (i : nat) : Z := atoi (PQgetvalue r i).
Definition get_text (r : pg_row) (i : nat) (n : nat) : cstr := sso_strlcpy (Some (PQgetvalue r i)) n.

Definition PRIu64 (z : Z) : option cstr := Some (snprintf 32 (print_llu z)).
Definition PRId64 (z : Z) : option cstr := Some (snprintf 32 (print_lld z)).
Definition PRId (z : Z) : option cstr := Some (snprintf 16 (print_d z)).
Definition null_if_empty (t : cstr) : option cstr := match t with [] => None | _ => Some t end.

Definition map_user (r : pg_row) : user_t :=
  {| u_id := get_u64 r 0; u_username := get_text r 1 64; u_phone := get_text r 2 32; u_password_hash := get_text r 3 256;
     u_email := get_text r 4 128; u_display_name := get_text r 5 128; u_status := user_status_of (get_i32 r 6);
     u_created_at := get_ll r 7; u_updated_at := get_ll r 8; u_attributes := get_text r 9 2048; u_mfa_enabled := get_i32 r 10;
     u_mfa_secret := get_text r 11 64; u_password_set_at := get_ll r 12 |}.
Definition pg_read_role (r : pg_row) : role_t :=
  {| r_id := get_u64 r 0; r_name := get_text r 1 64; r_description := get_text r 2 512; r_parent_role_id := get_u64 r 3;
     r_status := role_status_of (get_i32 r 4); r_created_at := get_ll r 5; r_updated_at := get_ll r 6 |}.
Definition pg_read_group (r : pg_row) : group_t :=
  {| g_id := get_u64 r 0; g_name := get_text r 1 64; g_description := get_text r 2 512; g_parent_group_id := get_u64 r 3;
     g_status := group_status_of (get_i32 r 4); g_created_at := get_ll r 5; g_updated_at := get_ll r 6 |}.
Definition pg_read_policy (r : pg_row) : policy_t :=
  {| p_id := get_u64 r 0; p_name := get_text r 1 64; p_strategy_type := perm_strategy_of (get_i32 r 2);
     p_effect := policy_effect_of (get_i32 r 3); p_priority := get_i32 r 4; p_rules := get_text r 5 8192;
     p_status := policy_status_of (get_i32 r 6); p_created_at := get_ll r 7; p_updated_at := get_ll r 8 |}.
Definition pg_read_oauth_client (r : pg_row) : oauth_client_t :=
  {| cl_id := get_u64 r 0; cl_client_id := get_text r 1 64; cl_client_secret_hash := get_text r 2 128; cl_redirect_uris := get_text r 3 512;
     cl_app_name := get_text r 4 128; cl_app_description := get_text r 5 256; cl_app_logo_url := get_text r 6 256;
     cl_allowed_scopes := get_text r 7 256; cl_allowed_grant_types := get_text r 8 128; cl_token_ttl_ms := get_ll r 9;
     cl_status := get_i32 r 10; cl_created_at := get_ll r 11; cl_updated_at := get_ll r 12 |}.
Definition pg_read_code (r : pg_row) : oauth_auth_code_t :=
  {| oc_code := get_text r 0 127; oc_client_id := get_text r 1 63; oc_user_id := get_u64 r 2; oc_redirect_uri := get_text r 3 511;
     oc_scope := get_text r 4 255; oc_nonce := get_text r 5 127; oc_code_challenge := get_text r 6 255;
     oc_code_challenge_method := get_text r 7 15; oc_expires_at := get_ll r 8; oc_used := get_i32 r 9 |}.
Definition pg_read_refresh (r : pg_row) : refresh_token_t :=
  {| rt_token_hash := get_text r 0 128; rt_user_id := get_u64 r 1; rt_client_id := get_text r 2 64; rt_expires_at := get_ll r 3;
     rt_issued_at := get_ll r 4; rt_revoked := get_i32 r 5 |}.

(* ------------------------------------------------------------------ *)
(** ** The texts *)

Definition PG_user_create : cstr :=
  "INSERT INTO users (username, phone, password_hash, email, display_name, status, created_at, updated_at, attributes, mfa_enabled, mfa_secret, password_set_at) VALUES ($1, $2, $3, $4, $5, $6, $7, $8, $9, $10, $11, $12) RETURNING id".
Definition PG_user_cols : cstr :=
  "SELECT id, username, phone, password_hash, email, display_name, status, created_at, updated_at, attributes, mfa_enabled, mfa_secret, password_set_at FROM users ".
Definition PG_user_update : cstr :=
  "UPDATE users SET phone = $1, password_hash = $2, email = $3, display_name = $4, status = $5, updated_at = $6, attributes = $7, mfa_enabled = $8, mfa_secret = $9, password_set_at = $10 WHERE id = $11".
Definition PG_save_sms : cstr :=
  "INSERT INTO sms_codes (phone, code, expires_at, attempts) VALUES ($1, $2, $3, 0) ON CONFLICT (phone) DO UPDATE SET code = EXCLUDED.code, expires_at = EXCLUDED.expires_at, attempts = 0".
Definition PG_role_create : cstr :=
  "INSERT INTO roles (name, description, parent_role_id, status, created_at, updated_at) VALUES ($1, $2, $3, $4, $5, $6) RETURNING id".
Definition PG_role_cols : cstr := "SELECT id, name, description, parent_role_id, status, created_at, updated_at FROM roles ".
Definition PG_role_update : cstr :=
  "UPDATE roles SET name = $1, description = $2, parent_role_id = $3, status = $4, updated_at = $5 WHERE id = $6".
Definition PG_group_create : cstr :=
  "INSERT INTO groups (name, description, parent_group_id, status, created_at, updated_at) VALUES ($1, $2, $3, $4, $5, $6) RETURNING id".
Definition PG_group_cols : cstr := "SELECT id, name, description, parent_group_id, status, created_at, updated_at FROM groups ".
Definition PG_group_update : cstr :=
  "UPDATE groups SET name = $1, description = $2, parent_group_id = $3, status = $4, updated_at = $5 WHERE id = $6".
Definition PG_policy_create : cstr :=
  "INSERT INTO policies (name, strategy_type, effect, priority, rules, status, created_at, updated_at) VALUES ($1, $2, $3, $4, $5, $6, $7, $8) RETURNING id".
Definition PG_policy_cols : cstr :=
  "SELECT id, name, strategy_type, effect, priority, rules, status, created_at, updated_at FROM policies ".
Definition PG_policy_update : cstr :=
  "UPDATE policies SET name = $1, strategy_type = $2, effect = $3, priority = $4, rules = $5, status = $6, updated_at = $7 WHERE id = $8".
Definition PG_ancestors : cstr :=
  "WITH RECURSIVE user_role_tree(role_id) AS (  SELECT role_id FROM user_roles WHERE user_id = $1  UNION  SELECT r.parent_role_id FROM roles r  INNER JOIN user_role_tree ut ON r.id = ut.role_id  WHERE r.parent_role_id != 0 AND r.status = 1)SELECT DISTINCT t.role_id FROM user_role_tree t INNER JOIN roles r ON t.role_id = r.id WHERE r.status = 1".
Definition PG_code_create : cstr :=
  "INSERT INTO oauth_auth_codes (code, client_id, user_id, redirect_uri, scope, nonce, code_challenge, code_challenge_method, expires_at, used) VALUES ($1, $2, $3, $4, $5, $6, $7, $8, $9, 0)".
Definition PG_code_get : cstr :=
  "SELECT code, client_id, user_id, redirect_uri, scope, nonce, code_challenge, code_challenge_method, expires_at, used FROM oauth_auth_codes WHERE code = $1".
Definition PG_client_create : cstr :=
  "INSERT INTO oauth_clients (client_id, client_secret_hash, redirect_uris, app_name, app_description, app_logo_url, allowed_scopes, allowed_grant_types, token_ttl_ms, status, created_at, updated_at) VALUES ($1, $2, $3, $4, $5, $6, $7, $8, $9, $10, $11, $12) RETURNING id".
Definition PG_client_cols : cstr :=
  "SELECT id, client_id, client_secret_hash, redirect_uris, app_name, app_description, app_logo_url, allowed_scopes, allowed_grant_types, token_ttl_ms, status, created_at, updated_at FROM oauth_clients ".
Definition PG_client_update : cstr :=
  "UPDATE oauth_clients SET client_id = $1, client_secret_hash = $2, redirect_uris = $3, app_name = $4, app_description = $5, app_logo_url = $6, allowed_scopes = $7, allowed_grant_types = $8, token_ttl_ms = $9, status = $10, updated_at = $11 WHERE id = $12".
Definition PG_rt_create : cstr :=
  "INSERT INTO refresh_tokens (token_hash, user_id, client_id, expires_at, issued_at, revoked) VALUES ($1, $2, $3, $4, $5, $6)".
Definition PG_rt_get : cstr :=
  "SELECT token_hash, user_id, client_id, expires_at, issued_at, revoked FROM refresh_tokens WHERE token_hash = $1".
Definition PG_jti_revoke : cstr :=
  "INSERT INTO revoked_jtis (jti, expires_at) VALUES ($1, $2) ON CONFLICT (jti) DO UPDATE SET expires_at = EXCLUDED.expires_at".
Definition PG_audit_write : cstr :=
  "INSERT INTO audit_logs (action, timestamp_ms, user_id, username, ip_address, operation, resource, resource_id, status, details, duration_ms, cache_hit, trace) VALUES ($1, $2, $3, $4, $5, $6, $7, $8, $9, $10, $11, $12, $13)".
Definition PG_audit_cols : cstr :=
  "SELECT action, timestamp_ms, user_id, username, ip_address, operation, resource, resource_id, status, details, duration_ms, cache_hit, trace FROM audit_logs ".

(** The conditions of the listings number their parameters: [search] is
    the clause for the parameter of the pattern. *)
Definition pg_where (search : cstr → cstr) (q : option cstr) (status : Z) : cstr :=
  if has_text q || negb (status =? -1) then
    (" WHERE " : cstr) ++ (if status =? -1 then [] else ("status = $1" : cstr)) ++
    (if has_text q then (if status =? -1 then [] else (" AND " : cstr)) ++ search (if status =? -1 then "1" else "2") else [])
  else [].
Definition pg_list_args (q : option cstr) (status : Z) : list (option cstr) :=
  (if status =? -1 then [] else [PRId status]) ++ match q with Some ((_ :: _) as q) => [Some (q_pattern q)] | _ => [] end.
Definition users_search (i : cstr) : cstr :=
  ("(username LIKE $" : cstr) ++ i ++ (" OR display_name LIKE $" : cstr) ++ i ++ (" OR email LIKE $" : cstr) ++ i ++
  (" OR phone LIKE $" : cstr) ++ i ++ (")" : cstr).
Definition named_search (i : cstr) : cstr := ("(name LIKE $" : cstr) ++ i ++ (" OR description LIKE $" : cstr) ++ i ++ (")" : cstr).
Definition policies_search (i : cstr) : cstr := ("name LIKE $" : cstr) ++ i.

(* ------------------------------------------------------------------ *)
(** ** Operations *)

Section Backend.
Context {D : Type} `{!Libpq D} (now : Z).
Notation state := (pg_state D).

Definition pg_exec (sql : cstr) (args : list (option cstr)) (s : state) : pg_answer * state :=
  if pg_conn s then let '(a, d) := PQexecParams sql args (pg_db s) in (a, pg_set d s) else (PGRES_FATAL_ERROR None, s).

Definition pg_command (sql : cstr) (args : list (option cstr)) : storage_op state unit := λ s,
  let '(a, s) := pg_exec sql args s in
  Ret (match a with PGRES_COMMAND_OK => Ok () | _ => Err SSO_ERR_STORAGE end, s).
(** The first row; an error counts as no row. *)
Definition pg_first {A} (sql : cstr) (args : list (option cstr)) (read : pg_row → A) : storage_op state A := λ s,
  let '(a, s) := pg_exec sql args s in
  Ret (match a with PGRES_TUPLES_OK (r :: _) => Ok (read r) | _ => Err SSO_ERR_NOT_FOUND end, s).
(** The number of a new row, which is in the first row of the answer. *)
Definition pg_created {A} (sql : cstr) (args : list (option cstr)) (with_id : Z → A) (failed : pg_answer → sso_error_t) : storage_op state A := λ s,
  let '(a, s) := pg_exec sql args s in
  match a with
  | PGRES_TUPLES_OK [] => Crash
  | PGRES_TUPLES_OK (r :: _) => Ret (Ok (with_id (get_u64 r 0)), s)
  | _ => Ret (Err (failed a), s)
  end.
Definition pg_ids (sql : cstr) (args : list (option cstr)) (max : nat) : storage_op state (list Z) := λ s,
  let '(a, s) := pg_exec sql args s in
  Ret (match a with
       | PGRES_TUPLES_OK rows =>
           match take max (map (λ r, get_u64 r 0) rows) with [] => Err SSO_ERR_NOT_FOUND | ids => Ok ids end
       | _ => Err SSO_ERR_STORAGE
       end, s).
(** A command whose answer is dropped. *)
Definition pg_dropped {A} (sql : cstr) (args : list (option cstr)) (k : storage_op state A) : storage_op state A := λ s,
  let '(_, s) := pg_exec sql args s in k s.
Definition storage_error (_ : pg_answer) : sso_error_t := SSO_ERR_STORAGE.

Definition postgres_user_create (u : user_t) : storage_op state user_t := λ s,
  let '(a, s) := pg_exec PG_user_create
    [Some (u_username u); null_if_empty (u_phone u); Some (u_password_hash u); Some (u_email u); Some (u_display_name u);
     PRId (user_status_int (u_status u)); PRId64 (u_created_at u); PRId64 (u_updated_at u); Some (u_attributes u);
     PRId (u_mfa_enabled u); Some (u_mfa_secret u); PRId64 (u_password_set_at u)] s in
  Ret (match a with
       | PGRES_TUPLES_OK rows => Ok (set_user_id (match rows with r :: _ => get_u64 r 0 | [] => 0 end) u)
       | _ => Err SSO_ERR_STORAGE
       end, s).
Definition postgres_user_get_by_id (id : Z) : storage_op state user_t := pg_first (PG_user_cols ++ ("WHERE id = $1" : cstr)) [PRIu64 id] map_user.
Definition postgres_user_get_by_name (n : cstr) : storage_op state user_t :=
  pg_first (PG_user_cols ++ ("WHERE username = $1" : cstr)) [Some n] map_user.
Definition postgres_user_get_by_phone (p : cstr) : storage_op state user_t :=
  pg_first (PG_user_cols ++ ("WHERE phone = $1" : cstr)) [Some p] map_user.
Definition postgres_user_update (u : user_t) : storage_op state unit :=
  pg_command PG_user_update
    [null_if_empty (u_phone u); Some (u_password_hash u); Some (u_email u); Some (u_display_name u); PRId (user_status_int (u_status u));
     PRId64 (u_updated_at u); Some (u_attributes u); Some (snprintf 32 (print_d (u_mfa_enabled u))); Some (u_mfa_secret u);
     PRId64 (u_password_set_at u); PRIu64 (u_id u)].
Definition postgres_user_delete (id : Z) : storage_op state unit :=
  pg_dropped "DELETE FROM user_roles WHERE user_id = $1" [PRIu64 id] (
  pg_dropped "DELETE FROM user_groups WHERE user_id = $1" [PRIu64 id] (
  pg_dropped "DELETE FROM policy_assignments WHERE target_type = 0 AND target_id = $1" [PRIu64 id] (
  pg_command "DELETE FROM users WHERE id = $1" [PRIu64 id]))).

(** The number of rows, then a page of them. *)
Definition pg_list (table : cstr) (search : cstr → cstr) : list_op state := λ q status offset limit s,
  let w := pg_where search q status in
  let args := pg_list_args q status in
  let n := length args in
  let '(a, s) := pg_exec (snprintf 1024 (("SELECT COUNT(*) FROM " : cstr) ++ table ++ " "%char :: w)) args s in
  match a with
  | PGRES_TUPLES_OK [] => Crash
  | PGRES_TUPLES_OK (r :: _) =>
      let sql := snprintf 1024 (("SELECT id FROM " : cstr) ++ table ++ " "%char :: w ++ (" ORDER BY id LIMIT $" : cstr) ++
                   print_d (Z.of_nat n + 1) ++ (" OFFSET $" : cstr) ++ print_d (Z.of_nat n + 2)) in
      let '(b, s) := pg_exec sql (args ++ [PRId limit; PRId offset]) s in
      Ret (match b with
           | PGRES_TUPLES_OK rows => Ok (map (λ r, get_u64 r 0) rows, get_u64 r 0)
           | _ => Err SSO_ERR_STORAGE
           end, s)
  | _ => Ret (Err SSO_ERR_STORAGE, s)
  end.
Definition postgres_user_list : list_op state := pg_list "users" users_search.

Definition postgres_save_sms_code (phone code : cstr) (expires_at : Z) : storage_op state unit :=
  pg_command PG_save_sms [Some phone; Some code; PRId64 expires_at].
Definition postgres_get_sms_code (phone : cstr) : storage_op state cstr := λ s,
  let '(a, s) := pg_exec "SELECT code, expires_at FROM sms_codes WHERE phone = $1" [Some phone] s in
  Ret (match a with
       | PGRES_TUPLES_OK (r :: _) => if get_ll r 1 <? now then Err SSO_ERR_TOKEN_EXPIRED else Ok (get_text r 0 15)
       | _ => Err SSO_ERR_NOT_FOUND
       end, s).
Definition postgres_delete_sms_code (phone : cstr) : storage_op state unit := pg_command "DELETE FROM sms_codes WHERE phone = $1" [Some phone].

Definition postgres_role_create (r : role_t) : storage_op state role_t :=
  pg_created PG_role_create
    [Some (r_name r); Some (r_description r); PRIu64 (r_parent_role_id r); PRId (role_status_int (r_status r)); PRId64 (r_created_at r);
     PRId64 (r_updated_at r)] (set_role_id r) storage_error.
Definition postgres_role_get_by_id (id : Z) : storage_op state role_t := pg_first (PG_role_cols ++ ("WHERE id = $1" : cstr)) [PRIu64 id] pg_read_role.
Definition postgres_role_get_by_name (n : cstr) : storage_op state role_t := pg_first (PG_role_cols ++ ("WHERE name = $1" : cstr)) [Some n] pg_read_role.
Definition postgres_role_update (r : role_t) : storage_op state unit :=
  pg_command PG_role_update
    [Some (r_name r); Some (r_description r); PRIu64 (r_parent_role_id r); PRId (role_status_int (r_status r)); PRId64 (r_updated_at r);
     PRIu64 (r_id r)].
Definition postgres_role_delete (id : Z) : storage_op state unit :=
  pg_dropped "DELETE FROM user_roles WHERE role_id = $1" [PRIu64 id] (
  pg_dropped "DELETE FROM role_groups WHERE role_id = $1" [PRIu64 id] (
  pg_dropped "DELETE FROM policy_assignments WHERE target_type = 1 AND target_id = $1" [PRIu64 id] (
  pg_command "DELETE FROM roles WHERE id = $1" [PRIu64 id]))).
Definition postgres_role_list : list_op state := pg_list "roles" named_search.

Definition postgres_group_create (g : group_t) : storage_op state group_t :=
  pg_created PG_group_create
    [Some (g_name g); Some (g_description g); PRIu64 (g_parent_group_id g); PRId (group_status_int (g_status g)); PRId64 (g_created_at g);
     PRId64 (g_updated_at g)] (set_group_id g) storage_error.
Definition postgres_group_get_by_id (id : Z) : storage_op state group_t := pg_first (PG_group_cols ++ ("WHERE id = $1" : cstr)) [PRIu64 id] pg_read_group.
Definition postgres_group_get_by_name (n : cstr) : storage_op state group_t := pg_first (PG_group_cols ++ ("WHERE name = $1" : cstr)) [Some n] pg_read_group.
Definition postgres_group_update (g : group_t) : storage_op state unit :=
  pg_command PG_group_update
    [Some (g_name g); Some (g_description g); PRIu64 (g_parent_group_id g); PRId (group_status_int (g_status g)); PRId64 (g_updated_at g);
     PRIu64 (g_id g)].
Definition postgres_group_delete (id : Z) : storage_op state unit :=
  pg_dropped "DELETE FROM user_groups WHERE group_id = $1" [PRIu64 id] (
  pg_dropped "DELETE FROM role_groups WHERE group_id = $1" [PRIu64 id] (
  pg_dropped "DELETE FROM policy_assignments WHERE target_type = 2 AND target_id = $1" [PRIu64 id] (
  pg_command "DELETE FROM groups WHERE id = $1" [PRIu64 id]))).
Definition postgres_group_list : list_op state := pg_list "groups" named_search.

Definition postgres_policy_create (p : policy_t) : storage_op state policy_t :=
  pg_created PG_policy_create
    [Some (p_name p); PRId (perm_strategy_int (p_strategy_type p)); PRId (policy_effect_int (p_effect p)); PRId (p_priority p);
     Some (p_rules p); PRId (policy_status_int (p_status p)); PRId64 (p_created_at p); PRId64 (p_updated_at p)] (set_policy_id p) storage_error.
Definition postgres_policy_get_by_id (id : Z) : storage_op state policy_t := pg_first (PG_policy_cols ++ ("WHERE id = $1" : cstr)) [PRIu64 id] pg_read_policy.
Definition postgres_policy_get_by_name (n : cstr) : storage_op state policy_t := pg_first (PG_policy_cols ++ ("WHERE name = $1" : cstr)) [Some n] pg_read_policy.
Definition postgres_policy_update (p : policy_t) : storage_op state unit :=
  pg_command PG_policy_update
    [Some (p_name p); PRId (perm_strategy_int (p_strategy_type p)); PRId (policy_effect_int (p_effect p)); PRId (p_priority p);
     Some (p_rules p); PRId (policy_status_int (p_status p)); PRId64 (p_updated_at p); PRIu64 (p_id p)].
Definition postgres_policy_delete (id : Z) : storage_op state unit :=
  pg_dropped "DELETE FROM policy_assignments WHERE policy_id = $1" [PRIu64 id] (
  pg_command "DELETE FROM policies WHERE id = $1" [PRIu64 id]).
Definition postgres_policy_list : list_op state := pg_list "policies" policies_search.

Definition postgres_assign_id_id (sql : cstr) (id1 id2 : Z) : storage_op state unit := pg_command sql [PRIu64 id1; PRIu64 id2].
Definition postgres_assign_role_to_user (role_id user_id : Z) : storage_op state unit :=
  postgres_assign_id_id "INSERT INTO user_roles (role_id, user_id) VALUES ($1, $2) ON CONFLICT DO NOTHING" role_id user_id.
Definition postgres_unassign_role_from_user (role_id user_id : Z) : storage_op state unit :=
  postgres_assign_id_id "DELETE FROM user_roles WHERE role_id = $1 AND user_id = $2" role_id user_id.
Definition postgres_assign_role_to_group (role_id group_id : Z) : storage_op state unit :=
  postgres_assign_id_id "INSERT INTO role_groups (role_id, group_id) VALUES ($1, $2) ON CONFLICT DO NOTHING" role_id group_id.
Definition postgres_unassign_role_from_group (role_id group_id : Z) : storage_op state unit :=
  postgres_assign_id_id "DELETE FROM role_groups WHERE role_id = $1 AND group_id = $2" role_id group_id.
Definition postgres_add_user_to_group (group_id user_id : Z) : storage_op state unit :=
  postgres_assign_id_id "INSERT INTO user_groups (group_id, user_id) VALUES ($1, $2) ON CONFLICT DO NOTHING" group_id user_id.
Definition postgres_remove_user_from_group (group_id user_id : Z) : storage_op state unit :=
  postgres_assign_id_id "DELETE FROM user_groups WHERE group_id = $1 AND user_id = $2" group_id user_id.

Definition postgres_get_ids (sql : cstr) (id : Z) (max : nat) : storage_op state (list Z) := pg_ids sql [PRIu64 id] max.
Definition postgres_get_user_roles : ids_op state := postgres_get_ids "SELECT role_id FROM user_roles WHERE user_id = $1".
Definition postgres_get_role_users : ids_op state := postgres_get_ids "SELECT user_id FROM user_roles WHERE role_id = $1".
Definition postgres_get_user_groups : ids_op state := postgres_get_ids "SELECT group_id FROM user_groups WHERE user_id = $1".
Definition postgres_get_group_users : ids_op state := postgres_get_ids "SELECT user_id FROM user_groups WHERE group_id = $1".

Definition postgres_assign_policy (policy_id : Z) (t : policy_target_type_t) (target_id : Z) : storage_op state unit :=
  pg_command "INSERT INTO policy_assignments (policy_id, target_type, target_id) VALUES ($1, $2, $3) ON CONFLICT DO NOTHING"
    [PRIu64 policy_id; PRId (policy_target_int t); PRIu64 target_id].
Definition postgres_unassign_policy (policy_id : Z) (t : policy_target_type_t) (target_id : Z) : storage_op state unit :=
  pg_command "DELETE FROM policy_assignments WHERE policy_id = $1 AND target_type = $2 AND target_id = $3"
    [PRIu64 policy_id; PRId (policy_target_int t); PRIu64 target_id].
Definition postgres_get_policy_targets (policy_id : Z) (t : policy_target_type_t) (max : nat) : storage_op state (list Z) :=
  pg_ids "SELECT target_id FROM policy_assignments WHERE policy_id = $1 AND target_type = $2" [PRIu64 policy_id; PRId (policy_target_int t)] max.
Definition postgres_get_target_policies (t : policy_target_type_t) (target_id : Z) (max : nat) : storage_op state (list Z) :=
  pg_ids "SELECT policy_id FROM policy_assignments WHERE target_type = $1 AND target_id = $2" [PRId (policy_target_int t); PRIu64 target_id] max.

Definition postgres_role_get_parent (role_id : Z) : storage_op state Z :=
  pg_first "SELECT parent_role_id FROM roles WHERE id = $1" [PRIu64 role_id] (λ r, get_u64 r 0).
Definition postgres_group_get_parent (group_id : Z) : storage_op state Z :=
  pg_first "SELECT parent_group_id FROM groups WHERE id = $1" [PRIu64 group_id] (λ r, get_u64 r 0).
Definition postgres_get_user_roles_with_ancestors : ids_op state := λ user_id max, pg_ids PG_ancestors [PRIu64 user_id] max.

(* ------------------------------------------------------------------ *)
(** ** Codes and tokens *)

Definition postgres_oauth_code_create (c : oauth_auth_code_t) : storage_op state unit :=
  pg_command PG_code_create
    [Some (oc_code c); Some (oc_client_id c); PRIu64 (oc_user_id c); Some (oc_redirect_uri c); Some (oc_scope c); Some (oc_nonce c);
     Some (oc_code_challenge c); Some (oc_code_challenge_method c); PRId64 (oc_expires_at c)].
Definition postgres_oauth_code_get (code : cstr) : storage_op state oauth_auth_code_t := pg_first PG_code_get [Some code] pg_read_code.
Definition postgres_oauth_code_mark_used (code : cstr) : storage_op state unit :=
  pg_command "UPDATE oauth_auth_codes SET used = 1 WHERE code = $1" [Some code].
Definition postgres_oauth_code_cleanup : storage_op state unit :=
  pg_command "DELETE FROM oauth_auth_codes WHERE expires_at < $1 OR used = 1" [PRId64 now].

(** A violated unique column is told apart here, by its code. *)
Definition client_error (a : pg_answer) : sso_error_t :=
  match a with PGRES_FATAL_ERROR (Some c) => if strcmp_eq c "23505" then SSO_ERR_ALREADY_EXISTS else SSO_ERR_STORAGE | _ => SSO_ERR_STORAGE end.
Definition pg_client_args (c : oauth_client_t) : list (option cstr) :=
  [Some (cl_client_id c); Some (cl_client_secret_hash c); Some (cl_redirect_uris c); Some (cl_app_name c); Some (cl_app_description c);
   Some (cl_app_logo_url c); Some (cl_allowed_scopes c); Some (cl_allowed_grant_types c); PRId64 (cl_token_ttl_ms c); PRId (cl_status c)].
Definition postgres_oauth_client_create (c : oauth_client_t) : storage_op state oauth_client_t :=
  pg_created PG_client_create (pg_client_args c ++ [PRId64 (cl_created_at c); PRId64 (cl_updated_at c)]) (λ id, set_client_id id c) client_error.
Definition postgres_oauth_client_get (client_id : cstr) : storage_op state oauth_client_t :=
  pg_first (PG_client_cols ++ ("WHERE client_id = $1" : cstr)) [Some client_id] pg_read_oauth_client.
Definition postgres_oauth_client_update (c : oauth_client_t) : storage_op state unit :=
  pg_command PG_client_update (pg_client_args c ++ [PRId64 (cl_updated_at c); PRIu64 (cl_id c)]).
Definition postgres_oauth_client_delete (client_id : cstr) : storage_op state unit :=
  pg_command "DELETE FROM oauth_clients WHERE client_id = $1" [Some client_id].
Definition postgres_oauth_client_list (offset limit : Z) (max : nat) : storage_op state (list oauth_client_t) := λ s,
  let '(a, s) := pg_exec (PG_client_cols ++ ("LIMIT $1 OFFSET $2" : cstr)) [PRId limit; PRId offset] s in
  Ret (match a with PGRES_TUPLES_OK rows => Ok (take max (map pg_read_oauth_client rows)) | _ => Err SSO_ERR_STORAGE end, s).

Definition postgres_rt_create (rt : refresh_token_t) : storage_op state unit :=
  pg_command PG_rt_create
    [Some (rt_token_hash rt); PRIu64 (rt_user_id rt); Some (rt_client_id rt); PRId64 (rt_expires_at rt); PRId64 (rt_issued_at rt);
     PRId (rt_revoked rt)].
Definition postgres_rt_get (token_hash : cstr) : storage_op state refresh_token_t := pg_first PG_rt_get [Some token_hash] pg_read_refresh.
Definition postgres_rt_revoke (token_hash : cstr) : storage_op state unit :=
  pg_command "UPDATE refresh_tokens SET revoked = 1 WHERE token_hash = $1" [Some token_hash].
Definition postgres_rt_revoke_family (user_id : Z) (client_id : cstr) : storage_op state unit :=
  pg_command "UPDATE refresh_tokens SET revoked = 1 WHERE user_id = $1 AND client_id = $2" [PRIu64 user_id; Some client_id].

Definition postgres_jti_revoke (jti : cstr) (expires_at : Z) : storage_op state unit :=
  pg_command PG_jti_revoke [Some jti; PRId64 expires_at].
Definition postgres_jti_is_revoked (jti : cstr) (s : state) : outcome (bool * state) :=
  let '(a, s) := pg_exec "SELECT expires_at FROM revoked_jtis WHERE jti = $1" [Some jti] s in
  Ret (match a with PGRES_TUPLES_OK (r :: _) => now <? get_ll r 0 | _ => false end, s).

(* ------------------------------------------------------------------ *)
(** ** The audit log *)

Definition or_empty (t : option cstr) : option cstr := Some (default [] t).
Definition postgres_audit_log_write (e : audit_log_entry_t) : storage_op state unit :=
  pg_command PG_audit_write
    [Some (al_action e); PRIu64 (al_timestamp_ms e); PRId64 (s64 (al_user_id e)); or_empty (al_username e); or_empty (al_ip_address e);
     or_empty (al_operation e); or_empty (al_resource e); PRId64 (s64 (al_resource_id e)); Some (al_status e); or_empty (al_details e);
     PRIu64 (al_duration_ms e); Some (if al_cache_hit e then ("true" : cstr) else ("false" : cstr)); or_empty (al_trace e)].

(** One row as an object. *)
Definition pg_audit_row (r : pg_row) : cstr :=
  let num i := print_llu (get_ll r i) in
  let txt i := quoted_text (PQgetvalue r i) in
  let hit := match PQgetvalue r 11 with c :: _ => Ascii.eqb c "t" || Ascii.eqb c "1" | [] => false end in
  snprintf 20480 (
    if strcmp_eq (PQgetvalue r 0) "admin" then
      object [member "action" (quoted_text "admin"); member "timestamp_ms" (num 1%nat); member "user_id" (num 2%nat);
              member "username" (txt 3%nat); member "ip_address" (txt 4%nat); member "operation" (txt 5%nat);
              member "resource" (txt 6%nat); member "resource_id" (num 7%nat); member "status" (txt 8%nat);
              member "details" (quoted_text (escape_json_string (Some (PQgetvalue r 9)) 2048))]
    else
      object [member "action" (quoted_text "eval"); member "timestamp_ms" (num 1%nat); member "user_id" (num 2%nat);
              member "decision" (txt 8%nat); member "duration_ms" (num 10%nat); member "cache_hit" (bool_text hit);
              member "trace" (quoted_text (escape_json_string (Some (PQgetvalue r 12)) 16384))]).

(** Memory for the answer is taken to be there. *)
Definition postgres_audit_log_list (user_id offset limit : Z) : storage_op state (option cstr * Z) := λ s,
  let uid := if user_id =? 0 then [] else [PRId64 (s64 user_id)] in
  let '(a, s) := pg_exec (("SELECT COUNT(*) FROM audit_logs" : cstr) ++ (if user_id =? 0 then [] else (" WHERE user_id = $1" : cstr))) uid s in
  let total := match a with PGRES_TUPLES_OK (r :: _) => u64 (get_ll r 0) | _ => 0 end in
  let sql := PG_audit_cols ++ (if user_id =? 0 then ("ORDER BY id DESC LIMIT $1 OFFSET $2" : cstr)
                               else ("WHERE user_id = $1 ORDER BY id DESC LIMIT $2 OFFSET $3" : cstr)) in
  let '(b, s) := pg_exec sql (uid ++ [Some (snprintf 32 (print_d limit)); Some (snprintf 32 (print_d offset))]) s in
  Ret (match b with
       | PGRES_TUPLES_OK rows => Ok (Some ("["%char :: commas (map pg_audit_row rows) ++ ["]"%char]), total)
       | _ => Err SSO_ERR_STORAGE
       end, s).

(* ------------------------------------------------------------------ *)
(** ** The table *)

Definition storage_postgres_create : storage_backend state :=
  {| sb_user_create := Some postgres_user_create; sb_user_get_by_id := Some postgres_user_get_by_id;
     sb_user_get_by_name := Some postgres_user_get_by_name; sb_user_get_by_phone := Some postgres_user_get_by_phone;
     sb_user_update := Some postgres_user_update; sb_user_delete := Some postgres_user_delete; sb_user_list := Some postgres_user_list;
     sb_save_sms_code := Some postgres_save_sms_code; sb_get_sms_code := Some postgres_get_sms_code;
     sb_delete_sms_code := Some postgres_delete_sms_code;
     sb_role_create := Some postgres_role_create; sb_role_get_by_id := Some postgres_role_get_by_id;
     sb_role_get_by_name := Some postgres_role_get_by_name; sb_role_update := Some postgres_role_update;
     sb_role_delete := Some postgres_role_delete; sb_role_list := Some postgres_role_list;
     sb_group_create := Some postgres_group_create; sb_group_get_by_id := Some postgres_group_get_by_id;
     sb_group_get_by_name := Some postgres_group_get_by_name; sb_group_update := Some postgres_group_update;
     sb_group_delete := Some postgres_group_delete; sb_group_list := Some postgres_group_list;
     sb_policy_create := Some postgres_policy_create; sb_policy_get_by_id := Some postgres_policy_get_by_id;
     sb_policy_get_by_name := Some postgres_policy_get_by_name; sb_policy_update := Some postgres_policy_update;
     sb_policy_delete := Some postgres_policy_delete; sb_policy_list := Some postgres_policy_list;
     sb_assign_role_to_user := Some postgres_assign_role_to_user; sb_unassign_role_from_user := Some postgres_unassign_role_from_user;
     sb_get_user_roles := Some postgres_get_user_roles; sb_get_role_users := Some postgres_get_role_users;
     sb_assign_role_to_group := Some postgres_assign_role_to_group; sb_unassign_role_from_group := Some postgres_unassign_role_from_group;
     sb_add_user_to_group := Some postgres_add_user_to_group; sb_remove_user_from_group := Some postgres_remove_user_from_group;
     sb_get_user_groups := Some postgres_get_user_groups; sb_get_group_users := Some postgres_get_group_users;
     sb_assign_policy := Some postgres_assign_policy; sb_unassign_policy := Some postgres_unassign_policy;
     sb_get_policy_targets := Some postgres_get_policy_targets; sb_get_target_policies := Some postgres_get_target_policies;
     sb_role_get_parent := Some postgres_role_get_parent; sb_group_get_parent := Some postgres_group_get_parent;
     sb_get_user_roles_with_ancestors := Some postgres_get_user_roles_with_ancestors;
     sb_oauth_code_create := Some postgres_oauth_code_create; sb_oauth_code_get := Some postgres_oauth_code_get;
     sb_oauth_code_mark_used := Some postgres_oauth_code_mark_used; sb_oauth_code_cleanup := Some postgres_oauth_code_cleanup;
     sb_oauth_client_create := Some postgres_oauth_client_create; sb_oauth_client_get := Some postgres_oauth_client_get;
     sb_oauth_client_update := Some postgres_oauth_client_update; sb_oauth_client_delete := Some postgres_oauth_client_delete;
     sb_oauth_client_list := Some postgres_oauth_client_list;
     sb_refresh_token_create := Some postgres_rt_create; sb_refresh_token_get := Some postgres_rt_get;
     sb_refresh_token_revoke := Some postgres_rt_revoke; sb_refresh_token_revoke_family := Some postgres_rt_revoke_family;
     sb_jti_revoke := Some postgres_jti_revoke; sb_jti_is_revoked := Some postgres_jti_is_revoked;
     sb_audit_log_write := Some postgres_audit_log_write; sb_audit_log_list := Some postgres_audit_log_list |}.
End Backend.
