(* ===== verification/PostgresSafety.v ===== *)
(** * What the PostgreSQL backend guarantees

    The tables of sql/postgres/schema.sql, what libpq and the server
    document about statements on them, that every change keeps them well
    formed, that reads answer from them, and users through them. *)

From S2P Require Import Prelude CLib CNum Types Storage Printf Http Raft Redis RedisServer RedisSafety RedisRows Sql SqlSafety Sqlite SqliteSafety SqliteRows Postgres.

(* ------------------------------------------------------------------ *)
(** ** The schema *)

(** [BIGSERIAL], [BIGINT] and [INTEGER] columns hold numbers; a primary
    key is never NULL.  The audit log, with its BOOLEAN, is left out. *)
Definition pg_pair_table (a b : cstr) : schema := keyed_table [NOT_NULL (INTEGER a SNull); NOT_NULL (INTEGER b SNull)] [a; b].
Definition postgres_catalog : catalog :=
  [("users" : cstr, numbered_table
     [TEXT "username" SNull; TEXT "phone" SNull; TEXT "password_hash" SNull; TEXT "email" (SText []); TEXT "display_name" (SText []);
      INTEGER "status" (SInt 1); INTEGER "created_at" (SInt 0); INTEGER "updated_at" (SInt 0); INTEGER "password_set_at" (SInt 0);
      TEXT "attributes" (SText ("{}" : cstr)); INTEGER "mfa_enabled" (SInt 0); TEXT "mfa_secret" (SText [])]
     ["username" : cstr; "phone" : cstr]);
   ("sms_codes" : cstr, keyed_table [NOT_NULL (TEXT "phone" SNull); NOT_NULL (TEXT "code" SNull); NOT_NULL (INTEGER "expires_at" SNull);
                                     INTEGER "attempts" (SInt 0)] ["phone" : cstr]);
   ("roles" : cstr, numbered_table (hierarchy_cols "parent_role_id") ["name" : cstr]);
   ("groups" : cstr, numbered_table (hierarchy_cols "parent_group_id") ["name" : cstr]);
   ("policies" : cstr, numbered_table
     [NOT_NULL (TEXT "name" SNull); NOT_NULL (INTEGER "strategy_type" SNull); NOT_NULL (INTEGER "effect" (SInt 1));
      NOT_NULL (INTEGER "priority" (SInt 0)); NOT_NULL (TEXT "rules" (SText ("{}" : cstr))); NOT_NULL (INTEGER "status" (SInt 1));
      INTEGER "created_at" (SInt 0); INTEGER "updated_at" (SInt 0)] ["name" : cstr]);
   ("user_roles" : cstr, pg_pair_table "user_id" "role_id");
   ("user_groups" : cstr, pg_pair_table "user_id" "group_id");
   ("role_groups" : cstr, pg_pair_table "role_id" "group_id");
   ("policy_assignments" : cstr, keyed_table
     [NOT_NULL (INTEGER "policy_id" SNull); NOT_NULL (INTEGER "target_type" SNull); NOT_NULL (INTEGER "target_id" SNull)]
     ["policy_id" : cstr; "target_type" : cstr; "target_id" : cstr]);
   ("oauth_auth_codes" : cstr, keyed_table
     [NOT_NULL (TEXT "code" SNull); NOT_NULL (TEXT "client_id" SNull); NOT_NULL (INTEGER "user_id" SNull); NOT_NULL (TEXT "redirect_uri" SNull);
      TEXT "scope" (SText []); TEXT "nonce" (SText []); TEXT "code_challenge" (SText []); TEXT "code_challenge_method" (SText []);
      NOT_NULL (INTEGER "expires_at" SNull); INTEGER "used" (SInt 0)] ["code" : cstr]);
   ("oauth_clients" : cstr, numbered_table
     [NOT_NULL (TEXT "client_id" SNull); NOT_NULL (TEXT "client_secret_hash" SNull); NOT_NULL (TEXT "redirect_uris" SNull);
      TEXT "app_name" (SText []); TEXT "app_description" (SText []); TEXT "app_logo_url" (SText []); TEXT "allowed_scopes" (SText []);
      TEXT "allowed_grant_types" (SText []); INTEGER "token_ttl_ms" (SInt 0); INTEGER "status" (SInt 1); INTEGER "created_at" (SInt 0);
      INTEGER "updated_at" (SInt 0)] ["client_id" : cstr]);
   ("refresh_tokens" : cstr, keyed_table
     [NOT_NULL (TEXT "token_hash" SNull); NOT_NULL (INTEGER "user_id" SNull); TEXT "client_id" SNull; NOT_NULL (INTEGER "expires_at" SNull);
      NOT_NULL (INTEGER "issued_at" SNull); INTEGER "revoked" (SInt 0)] ["token_hash" : cstr]);
   ("revoked_jtis" : cstr, keyed_table [NOT_NULL (TEXT "jti" SNull); NOT_NULL (INTEGER "expires_at" SNull)] ["jti" : cstr])].
Notation pg := postgres_catalog.

Lemma pg_catalog_wf : Forall (λ x, schema_wf x.2 = true) pg.
Proof. repeat (constructor; [reflexivity|]). constructor. Qed.

(* ------------------------------------------------------------------ *)
(** ** What libpq and the server document *)

(** Values as texts. *)
Definition as_text (v : sval) : option cstr := match v with SNull => None | SInt z => Some (print_lld z) | SText t => Some t end.

(** INTEGER columns are narrower than BIGINT. *)
Definition narrow (c : list ascii) : bool :=
  existsb (λ n, bool_decide (n = c))
    ["status" : cstr; "strategy_type" : cstr; "effect" : cstr; "priority" : cstr; "target_type" : cstr; "mfa_enabled" : cstr;
     "attempts" : cstr; "used" : cstr; "revoked" : cstr].
Fixpoint cond_pairs (w : cond) : list (list ascii * expr) :=
  match w with CAll => [] | CCmp c _ e => [(c, e)] | CAnd a b | COr a b => cond_pairs a ++ cond_pairs b end.
Definition pairs_of (st : statement) : list (list ascii * expr) :=
  match st with
  | Insert c t cols vals _ => zip (given cols (schema_of pg t)) vals ++ match c with Upsert _ sets => sets | _ => [] end
  | Select _ _ w _ _ _ | Delete _ w => cond_pairs w
  | Update _ sets w => sets ++ cond_pairs w
  | Closure _ _ key start _ _ _ _ => [(key, start)]
  end.
Fixpoint no_like (w : cond) : bool :=
  match w with CAll => true | CCmp _ o _ => match o with CLike => false | _ => true end | CAnd a b | COr a b => no_like a && no_like b end.
Definition without_like (st : statement) : bool :=
  match st with Select _ _ w _ _ _ | Delete _ w | Update _ _ w => no_like w | _ => true end.

(** A value the server takes: a number within its column, and a text of
    ASCII characters, which every encoding has. *)
Definition plain_text (t : cstr) : Prop := Forall (λ c, 0 < ord c < 128) t.
Definition val_ok (v : sval) : Prop := match v with SNull => True | SInt z => - 2 ^ 63 ≤ z < 2 ^ 63 | SText t => plain_text t end.
Definition narrow_ok (v : sval) : Prop := match v with SInt z => - 2 ^ 31 ≤ z < 2 ^ 31 | _ => True end.
Definition vals_ok (st : statement) (args : list sval) : Prop :=
  Forall val_ok args ∧ Forall (λ ce, narrow_ok (ev args no_row ce.2)) (filter (λ ce, narrow ce.1 = true) (pairs_of st)).

Definition pg_fits (sql : cstr) (st : statement) (args : list sval) : Prop :=
  sql_parse sql = Some st ∧ statement_ok pg st = true ∧ typed_args pg st args = true ∧ without_like st = true ∧ vals_ok st args.

(** Equal rows; a number that was drawn for a row that was refused is not
    drawn again. *)
Definition same_rows (db db' : database) : Prop :=
  ∀ t, td_rows (data_of db' t) = td_rows (data_of db t) ∧ td_seq (data_of db t) ≤ td_seq (data_of db' t) ∧
       (td_seq (data_of db t) < 2 ^ 63 → td_seq (data_of db' t) < 2 ^ 63).

Definition answer_of (st : statement) (rc : step_rc) (n : Z) (a : pg_answer) : Prop :=
  match rc with
  | SQLITE_DONE =>
      match st with
      | Insert Refuse _ _ _ true => a = PGRES_TUPLES_OK [[Some (print_lld n)]]
      | Insert _ _ _ _ true => True
      | _ => a = PGRES_COMMAND_OK
      end
  | _ => ∃ code, a = PGRES_FATAL_ERROR code
  end.
Class PostgresLaws {D} `{!Libpq D} (view : D → database) := {
  pg_query_doc sql st args d :
    pg_fits sql st args → is_query st = true →
    ∃ l, l ≡ₚ sql_matches false pg st args (view d) ∧
         PQexecParams sql (map as_text args) d = (PGRES_TUPLES_OK (map (map as_text) (sql_answer pg st args l)), d);
  pg_change_doc sql st args d :
    pg_fits sql st args → is_query st = false →
    let '(rc, n, db) := sql_write false pg st args (view d) in
    ∃ a d', PQexecParams sql (map as_text args) d = (a, d') ∧ same_rows db (view d') ∧ answer_of st rc n a
}.

(* ------------------------------------------------------------------ *)
(** ** Texts and numbers *)

Lemma int_text_length z : - 2 ^ 31 ≤ z < 2 ^ 31 → (length (print_lld z) ≤ 11)%nat.
Proof.
  intros Hz. unfold print_lld, print_dec, print_base. destruct (Z.ltb_spec z 0); cbn [length].
  - pose proof (print_dec_loop_length (S (Z.to_nat (Z.log2 (- z)))) 9 (- z) []). simpl in *. lia.
  - pose proof (print_dec_loop_length (S (Z.to_nat (Z.log2 z))) 9 z []). simpl in *. lia.
Qed.
Lemma id_param z : 0 ≤ z < 2 ^ 63 → PRIu64 z = as_text (SInt z).
Proof.
  intros Hz. unfold PRIu64, as_text, print_llu. rewrite u64_small by lia. f_equal.
  pose proof (print_lld_length z ltac:(lia)) as Hl. unfold print_lld in *. rewrite (proj2 (Z.ltb_ge z 0)) in * by lia. apply word_cut. lia.
Qed.
Lemma time_param z : - 2 ^ 63 ≤ z < 2 ^ 63 → PRId64 z = as_text (SInt z).
Proof. intros Hz. unfold PRId64, as_text. f_equal. pose proof (print_lld_length z Hz). apply word_cut. lia. Qed.
Lemma int_param z : - 2 ^ 31 ≤ z < 2 ^ 31 → PRId z = as_text (SInt z).
Proof. intros Hz. unfold PRId, print_d, as_text. f_equal. pose proof (int_text_length z Hz). apply word_cut. lia. Qed.

(** Values of a row, back from their texts. *)
Definition back_text (v : sval) : cstr := match v with SText t => t | SInt z => print_lld z | SNull => [] end.
Lemma value_of (vs : list sval) i v : vs !! i = Some v → PQgetvalue (map as_text vs) i = c_str (back_text v).
Proof. intros Hv. unfold PQgetvalue. rewrite list_lookup_fmap, Hv. by destruct v. Qed.
Lemma id_value vs i z : vs !! i = Some (SInt z) → 0 ≤ z < 2 ^ 63 → get_u64 (map as_text vs) i = z.
Proof.
  intros Hv Hz. unfold get_u64. rewrite (value_of _ _ _ Hv). cbn [back_text]. rewrite word_c_str by apply number_word.
  unfold print_lld. rewrite (proj2 (Z.ltb_ge z 0)) by lia. pose proof (strtoull_print z [] ltac:(lia) I) as E. rewrite app_nil_r in E. by rewrite E.
Qed.
Lemma ll_value vs i z : vs !! i = Some (SInt z) → - 2 ^ 63 ≤ z < 2 ^ 63 → get_ll (map as_text vs) i = z.
Proof.
  intros Hv Hz. unfold get_ll. rewrite (value_of _ _ _ Hv). cbn [back_text]. rewrite word_c_str by apply number_word. by apply atoll_print_lld.
Qed.
Lemma int_value vs i z : vs !! i = Some (SInt z) → - 2 ^ 31 ≤ z < 2 ^ 31 → get_i32 (map as_text vs) i = z.
Proof.
  intros Hv Hz. unfold get_i32. rewrite (value_of _ _ _ Hv). cbn [back_text]. rewrite word_c_str by apply number_word. by apply atoi_print_lld.
Qed.
Lemma plain_text_no_nul t : plain_text t → NUL ∉ t.
Proof. intros Ht Hin. unfold plain_text in Ht. rewrite Forall_forall in Ht. destruct (Ht _ Hin) as [H0 _]. by vm_compute in H0. Qed.
Lemma text_value vs i v n : vs !! i = Some v → plain_text (back_text v) → (length (back_text v) < n)%nat →
  get_text (map as_text vs) i n = back_text v.
Proof.
  intros Hv Hp Hl. unfold get_text. rewrite (value_of _ _ _ Hv), c_str_id by by apply plain_text_no_nul. by apply sso_strlcpy_fits.
Qed.

(* ------------------------------------------------------------------ *)
(** ** Changes keep the tables *)

Section Tables.
Context {D : Type} `{!Libpq D} (view : D → database) `{!PostgresLaws view}.
Notation state := (pg_state D).

Definition pg_inv (s : state) : Prop := pg_conn s = true ∧ db_wf pg (view (pg_db s)).

Lemma same_rows_wf db db' : db_wf pg db → same_rows db db' → db_wf pg db'.
Proof.
  intros Hw Hs t. destruct (Hs t) as (Hr & Hq & Hb), (Hw t) as [H1 H2 H3 H4]. split; rewrite ?Hr; [done..|lia|].
  intros Ha. destruct (H4 Ha) as [H5 H6]. split; [|done]. eapply Forall_impl; [exact H5|].
  intros r (i & Hi & ?). exists i. split; [done|lia].
Qed.

(** A command or an insertion runs as the meaning of its statement says. *)
Definition pg_change_ok (sql : cstr) (args : list sval) : bool :=
  change_fits pg sql args && match sql_parse sql with Some st => without_like st | None => false end.
Lemma pg_change_run sql st args (s : state) rc n db :
  sql_parse sql = Some st → pg_change_ok sql args = true → vals_ok st args → pg_inv s →
  sql_write false pg st args (view (pg_db s)) = (rc, n, db) →
  ∃ a s', pg_exec sql (map as_text args) s = (a, s') ∧ pg_inv s' ∧ same_rows db (view (pg_db s')) ∧ answer_of st rc n a.
Proof.
  intros Hp Hok Hv [Hs Hw] Hrun. unfold pg_change_ok, change_fits in Hok. rewrite Hp in Hok.
  apply andb_true_iff in Hok as [[[[Ho Ht]%andb_true_iff Hq%negb_true_iff]%andb_true_iff Hl]%andb_true_iff Hk].
  pose proof (pg_change_doc sql st args (pg_db s) (conj Hp (conj Ho (conj Ht (conj Hk Hv)))) Hq) as Hd.
  pose proof (sql_write_wf false pg st args _ pg_catalog_wf Hw Hl) as Hw'.
  rewrite Hrun in *. destruct Hd as (a & d' & He & Hs' & Ha). exists a, (pg_set d' s).
  unfold pg_exec. rewrite Hs, He. split; [done|]. split; [|done]. split; [done|]. by apply (same_rows_wf db).
Qed.

(* ------------------------------------------------------------------ *)
(** ** Queries answer from the tables *)

Definition pg_rows (s : state) (t : cstr) : list row := td_rows (data_of (view (pg_db s)) t).
Definition pg_query_ok (sql : cstr) (args : list sval) : bool :=
  query_fits pg sql args && match sql_parse sql with Some st => without_like st | None => false end.

Lemma pg_query_run sql st args (s : state) :
  sql_parse sql = Some st → pg_query_ok sql args = true → vals_ok st args → pg_inv s →
  ∃ l, l ≡ₚ sql_matches false pg st args (view (pg_db s)) ∧
       pg_exec sql (map as_text args) s = (PGRES_TUPLES_OK (map (map as_text) (sql_answer pg st args l)), s).
Proof.
  intros Hp Hok Hv [Hs _]. unfold pg_query_ok, query_fits in Hok. rewrite Hp in Hok.
  apply andb_true_iff in Hok as [[[Ho Ht]%andb_true_iff Hq]%andb_true_iff Hk].
  destruct (pg_query_doc sql st args (pg_db s) (conj Hp (conj Ho (conj Ht (conj Hk Hv)))) Hq) as (l & Hl & E).
  exists l. split; [done|]. unfold pg_exec. rewrite Hs, E. by destruct s.
Qed.

(** A row by its number, or by a unique column. *)
Definition pg_by_number (s : state) (t : cstr) (i : Z) : list row := filter (λ r, val_is pg t "id" (SInt i) r = true) (pg_rows s t).
Definition sent (t : cstr) (cols : list cstr) (r : row) : pg_row := map as_text (map (row_val (schema_of pg t) r) cols).

Lemma pg_equal_run {A} t c v cols sql (read : pg_row → A) texts l (s : state) :
  sql_parse sql = Some (Select (Columns cols) t (CCmp c CEq (Param 1)) None None None) → pg_query_ok sql [v] = true →
  vals_ok (Select (Columns cols) t (CCmp c CEq (Param 1)) None None None) [v] → v ≠ SNull →
  coerce (col_is_int (schema_of pg t) c) v = v → texts = [as_text v] → pg_inv s →
  filter (λ r, val_is pg t c v r = true) (pg_rows s t) = l → (length l ≤ 1)%nat →
  pg_first sql texts read s = Ret (found ((λ r, read (sent t cols r)) <$> head l), s).
Proof.
  intros Hp Hq Hv Hn Hc -> Hs Hl Hle. destruct (pg_query_run sql _ [v] s Hp Hq Hv Hs) as (k & Hk & E).
  assert (Hkl : k = l).
  { apply perm_short; [|done]. rewrite Hk, <- Hl. cbn [sql_matches]. apply reflexive_eq, filter_ext_eq. intros x. by apply sat_eq. }
  unfold pg_first. change [as_text v] with (map as_text [v]). rewrite E, Hkl. unfold sql_answer, page, sort_rows, project.
  by destruct l.
Qed.
Lemma pg_number_run {A} t cols sql (read : pg_row → A) i (s : state) :
  sql_parse sql = Some (Select (Columns cols) t (CCmp "id" CEq (Param 1)) None None None) → pg_query_ok sql [SInt i] = true →
  0 ≤ i < 2 ^ 63 → col_is_int (schema_of pg t) "id" = true → sc_auto (schema_of pg t) = true →
  (∀ r, col_of pg t "id" r = default SNull (r !! 0%nat)) → pg_inv s →
  pg_first sql [PRIu64 i] read s = Ret (found ((λ r, read (sent t cols r)) <$> head (pg_by_number s t i)), s).
Proof.
  intros Hp Hq Hi Hc Ha Hr Hs. apply (pg_equal_run t "id" (SInt i) cols); try done.
  - split; [|constructor]. constructor; [cbn; lia|constructor].
  - by rewrite Hc.
  - by rewrite id_param.
  - apply one_number; [apply Hs|done|done].
Qed.

(** The ids the server answers with, in its order. *)
Definition pg_engine_ids (sql : cstr) (args : list sval) (s : state) : list Z :=
  match (pg_exec sql (map as_text args) s).1 with PGRES_TUPLES_OK rows => map (λ r, get_u64 r 0) rows | _ => [] end.
Lemma pg_ids_run sql st args texts m (s : state) :
  sql_parse sql = Some st → pg_query_ok sql args = true → vals_ok st args → texts = map as_text args → pg_inv s →
  pg_ids sql texts m s = Ret (ids_answer (pg_engine_ids sql args s) m, s).
Proof.
  intros Hp Hq Hv -> Hs. destruct (pg_query_run sql st args s Hp Hq Hv Hs) as (l & _ & E).
  unfold pg_ids, pg_engine_ids, ids_answer. by rewrite E.
Qed.
Lemma pg_engine_rows sql args s t c w :
  sql_parse sql = Some (Select (Columns [c]) t w None None None) → pg_query_ok sql args = true →
  vals_ok (Select (Columns [c]) t w None None None) args → pg_inv s →
  pg_engine_ids sql args s ≡ₚ
  map (λ r, get_u64 (sent t [c] r) 0) (filter (λ r, sat false (schema_of pg t) args r w = true) (pg_rows s t)).
Proof.
  intros Hp Hq Hv Hs. destruct (pg_query_run sql _ args s Hp Hq Hv Hs) as (l & Hl & E).
  unfold pg_engine_ids. rewrite E. cbn [fst]. unfold sql_answer, page, sort_rows, project. rewrite !map_map. by rewrite Hl.
Qed.

Definition PG_target_policies : cstr := "SELECT policy_id FROM policy_assignments WHERE target_type = $1 AND target_id = $2".
Definition PG_user_roles : cstr := "SELECT role_id FROM user_roles WHERE user_id = $1".
Definition PG_user_groups : cstr := "SELECT group_id FROM user_groups WHERE user_id = $1".
Definition policy_cols : list cstr :=
  ["id" : cstr; "name" : cstr; "strategy_type" : cstr; "effect" : cstr; "priority" : cstr; "rules" : cstr; "status" : cstr;
   "created_at" : cstr; "updated_at" : cstr].
Definition postgres_view (s : state) : store_view :=
  {| v_policy := λ i, (λ r, pg_read_policy (sent "policies" policy_cols r)) <$> head (pg_by_number s "policies" i);
     v_assigned := λ t i, pg_engine_ids PG_target_policies [SInt (policy_target_int t); SInt i] s;
     v_user_roles := λ i, pg_engine_ids PG_user_roles [SInt i] s;
     v_user_groups := λ i, pg_engine_ids PG_user_groups [SInt i] s;
     v_role_parent := λ i, (λ r, get_u64 (sent "roles" ["parent_role_id" : cstr] r) 0) <$> head (pg_by_number s "roles" i);
     v_group_parent := λ i, (λ r, get_u64 (sent "groups" ["parent_group_id" : cstr] r) 0) <$> head (pg_by_number s "groups" i) |}.

Ltac pg_now := first [vm_compute; reflexivity | done].
Ltac pg_vals := split; [repeat constructor; cbn; lia|repeat constructor; cbn; lia].

(** For the numbers a BIGINT holds, the PostgreSQL backend answers the
    reads of the managers from its tables and changes nothing. *)
Theorem postgres_reads (s : state) i t m :
  pg_inv s → 0 ≤ i < 2 ^ 63 → - 2 ^ 31 ≤ policy_target_int t < 2 ^ 31 →
  postgres_policy_get_by_id i s = Ret (found (v_policy (postgres_view s) i), s) ∧
  postgres_get_target_policies t i m s = Ret (ids_answer (v_assigned (postgres_view s) t i) m, s) ∧
  postgres_get_user_roles i m s = Ret (ids_answer (v_user_roles (postgres_view s) i) m, s) ∧
  postgres_get_user_groups i m s = Ret (ids_answer (v_user_groups (postgres_view s) i) m, s) ∧
  postgres_role_get_parent i s = Ret (found (v_role_parent (postgres_view s) i), s) ∧
  postgres_group_get_parent i s = Ret (found (v_group_parent (postgres_view s) i), s) ∧
  v_assigned (postgres_view s) t i ≡ₚ
    map (λ r, get_u64 (sent "policy_assignments" ["policy_id" : cstr] r) 0)
      (filter (λ r, val_is pg "policy_assignments" "target_type" (SInt (policy_target_int t)) r &&
                    val_is pg "policy_assignments" "target_id" (SInt i) r = true) (pg_rows s "policy_assignments")) ∧
  v_user_roles (postgres_view s) i ≡ₚ
    map (λ r, get_u64 (sent "user_roles" ["role_id" : cstr] r) 0)
      (filter (λ r, val_is pg "user_roles" "user_id" (SInt i) r = true) (pg_rows s "user_roles")).
Proof.
  intros Hs Hi Ht. split_and!.
  - apply (pg_number_run "policies" policy_cols); [pg_now|pg_now|done|pg_now|pg_now|by intros []|done].
  - apply (pg_ids_run PG_target_policies (Select (Columns ["policy_id" : cstr]) ("policy_assignments" : cstr)
      (CAnd (CCmp ("target_type" : cstr) CEq (Param 1)) (CCmp ("target_id" : cstr) CEq (Param 2))) None None None));
      [pg_now|pg_now|pg_vals| |done]. cbn [map]. by rewrite int_param, id_param.
  - apply (pg_ids_run PG_user_roles (Select (Columns ["role_id" : cstr]) ("user_roles" : cstr) (CCmp ("user_id" : cstr) CEq (Param 1)) None None None));
      [pg_now|pg_now|pg_vals| |done]. cbn [map]. by rewrite id_param.
  - apply (pg_ids_run PG_user_groups (Select (Columns ["group_id" : cstr]) ("user_groups" : cstr) (CCmp ("user_id" : cstr) CEq (Param 1)) None None None));
      [pg_now|pg_now|pg_vals| |done]. cbn [map]. by rewrite id_param.
  - apply (pg_number_run "roles" ["parent_role_id" : cstr]); [pg_now|pg_now|done|pg_now|pg_now|by intros []|done].
  - apply (pg_number_run "groups" ["parent_group_id" : cstr]); [pg_now|pg_now|done|pg_now|pg_now|by intros []|done].
  - cbn [postgres_view v_assigned].
    rewrite (pg_engine_rows _ _ s "policy_assignments" "policy_id" (CAnd (CCmp "target_type" CEq (Param 1)) (CCmp "target_id" CEq (Param 2))));
      [|pg_now|pg_now|pg_vals|done].
    apply reflexive_eq. f_equal. apply filter_ext_eq. intros r.
    by rewrite <- (sat_eq false pg "policy_assignments" "target_type" 1 _ [SInt (policy_target_int t); SInt i]),
      <- (sat_eq false pg "policy_assignments" "target_id" 2 _ [SInt (policy_target_int t); SInt i]).
  - cbn [postgres_view v_user_roles].
    rewrite (pg_engine_rows _ _ s "user_roles" "role_id" (CCmp "user_id" CEq (Param 1))); [|pg_now|pg_now|pg_vals|done].
    apply reflexive_eq. f_equal. apply filter_ext_eq. intros r. by apply sat_eq.
Qed.

(* ------------------------------------------------------------------ *)
(** ** Rows through the tables *)

Definition pg_next (s : state) (t : cstr) : Z := td_seq (data_of (view (pg_db s)) t) + 1.

Lemma pg_insert_run t cols vals sql args texts (mk : Z → row) (s : state) :
  sql_parse sql = Some (Insert Refuse t (Some cols) vals true) → pg_change_ok sql args = true →
  vals_ok (Insert Refuse t (Some cols) vals true) args → texts = map as_text args → sc_auto (schema_of pg t) = true →
  (∀ z, new_row (schema_of pg t) (Some cols) (map (ev args no_row) vals) z = mk (z + 1)) →
  (∀ z, null_ok (schema_of pg t) (mk z) = true) → pg_inv s → pg_next s t < 2 ^ 63 →
  if existsb (clash (schema_of pg t) (mk (pg_next s t))) (pg_rows s t)
  then ∃ code s', pg_exec sql texts s = (PGRES_FATAL_ERROR code, s') ∧ pg_inv s' ∧ ∀ t', pg_rows s' t' = pg_rows s t'
  else ∃ s', pg_exec sql texts s = (PGRES_TUPLES_OK [[as_text (SInt (pg_next s t))]], s') ∧ pg_inv s' ∧
         pg_rows s' t = pg_rows s t ++ [mk (pg_next s t)].
Proof.
  intros Hp Hok Hv -> Ha Hnew Hnull Hs Hlt.
  pose proof (insert_number false pg t cols vals true args mk (view (pg_db s)) Ha Hnew Hnull Hlt) as Hw.
  pose proof (pg_change_run sql (Insert Refuse t (Some cols) vals true) args s) as Hrun.
  unfold pg_next, pg_rows in *. destruct (existsb _ (td_rows (data_of (view (pg_db s)) t))).
  - destruct (Hrun _ _ _ Hp Hok Hv Hs Hw) as (a & s' & E & Hi & Hr & [code ->]). exists code, s'. split; [done|]. split; [done|].
    intros t'. rewrite (proj1 (Hr t')), data_insert. by destruct (decide (t = t')) as [<-|].
  - destruct (Hrun _ _ _ Hp Hok Hv Hs Hw) as (a & s' & E & Hi & Hr & ->). exists s'. split; [done|]. split; [done|].
    rewrite (proj1 (Hr t)), data_insert. by rewrite decide_True.
Qed.

Definition user_cols : list cstr :=
  ["id" : cstr; "username" : cstr; "phone" : cstr; "password_hash" : cstr; "email" : cstr; "display_name" : cstr; "status" : cstr;
   "created_at" : cstr; "updated_at" : cstr; "attributes" : cstr; "mfa_enabled" : cstr; "mfa_secret" : cstr; "password_set_at" : cstr].
Definition user_vals (u : user_t) : list sval :=
  [SText (u_username u); text_or_null (u_phone u); SText (u_password_hash u); SText (u_email u); SText (u_display_name u);
   SInt (user_status_int (u_status u)); SInt (u_created_at u); SInt (u_updated_at u); SText (u_attributes u); SInt (u_mfa_enabled u);
   SText (u_mfa_secret u); SInt (u_password_set_at u)].
Definition pg_user_row (u : user_t) (z : Z) : row :=
  [SInt z; SText (u_username u); text_or_null (u_phone u); SText (u_password_hash u); SText (u_email u); SText (u_display_name u);
   SInt (user_status_int (u_status u)); SInt (u_created_at u); SInt (u_updated_at u); SInt (u_password_set_at u); SText (u_attributes u);
   SInt (u_mfa_enabled u); SText (u_mfa_secret u)].

Definition text_ok (n : nat) (t : cstr) : Prop := plain_text t ∧ (length t < n)%nat.
Definition int64 (z : Z) : Prop := - 2 ^ 63 ≤ z < 2 ^ 63.
Record pg_user_ok (u : user_t) : Prop := {
  pu_username : text_ok 64 (u_username u); pu_phone : text_ok 32 (u_phone u); pu_hash : text_ok 256 (u_password_hash u);
  pu_email : text_ok 128 (u_email u); pu_display : text_ok 128 (u_display_name u); pu_attributes : text_ok (S 2047) (u_attributes u);
  pu_secret : text_ok 64 (u_mfa_secret u); pu_status : enum_fits user_status_int user_status_of (u_status u);
  pu_mfa : - 2 ^ 31 ≤ u_mfa_enabled u < 2 ^ 31; pu_created : int64 (u_created_at u); pu_updated : int64 (u_updated_at u);
  pu_set : int64 (u_password_set_at u)
}.

Lemma phone_param p : null_if_empty p = as_text (text_or_null p).
Proof. by destruct p. Qed.
Lemma user_params u : pg_user_ok u →
  [Some (u_username u); null_if_empty (u_phone u); Some (u_password_hash u); Some (u_email u); Some (u_display_name u);
   PRId (user_status_int (u_status u)); PRId64 (u_created_at u); PRId64 (u_updated_at u); Some (u_attributes u);
   PRId (u_mfa_enabled u); Some (u_mfa_secret u); PRId64 (u_password_set_at u)] = map as_text (user_vals u).
Proof.
  intros [_ _ _ _ _ _ _ [Hs _] Hm Hc Hu Hp]. cbn [map user_vals]. by rewrite phone_param, !int_param, !time_param.
Qed.

Lemma user_back u z : pg_user_ok u → 0 ≤ z < 2 ^ 63 → map_user (sent "users" user_cols (pg_user_row u z)) = set_user_id z u.
Proof.
  intros [Hn Hp Hh He Hd Ha Hx [Hs Hs'] Hm Hc Hu Ht] Hz.
  change (sent "users" user_cols (pg_user_row u z)) with
    (map as_text [SInt z; SText (u_username u); text_or_null (u_phone u); SText (u_password_hash u); SText (u_email u);
      SText (u_display_name u); SInt (user_status_int (u_status u)); SInt (u_created_at u); SInt (u_updated_at u); SText (u_attributes u);
      SInt (u_mfa_enabled u); SText (u_mfa_secret u); SInt (u_password_set_at u)]).
  assert (Hback : back_text (text_or_null (u_phone u)) = u_phone u) by by destruct (u_phone u).
  unfold map_user, set_user_id. change 2048%nat with (S 2047).
  rewrite (id_value _ 0 z), (text_value _ 1 (SText (u_username u))), (text_value _ 2 (text_or_null (u_phone u))),
    (text_value _ 3 (SText (u_password_hash u))), (text_value _ 4 (SText (u_email u))), (text_value _ 5 (SText (u_display_name u))),
    (int_value _ 6 (user_status_int (u_status u))), (ll_value _ 7 (u_created_at u)), (ll_value _ 8 (u_updated_at u)),
    (text_value _ 9 (SText (u_attributes u))), (int_value _ 10 (u_mfa_enabled u)), (text_value _ 11 (SText (u_mfa_secret u))),
    (ll_value _ 12 (u_password_set_at u)); try done; try (rewrite Hback; by destruct Hp); try (by destruct Hn); try (by destruct Hh);
    try (by destruct He); try (by destruct Hd); try (by destruct Ha); try (by destruct Hx).
  rewrite Hback, Hs'. by destruct u.
Qed.

Definition pg_user_free (u : user_t) (l : list row) : Prop :=
  Forall (λ x, col_of pg "users" "username" x ≠ SText (u_username u) ∧ (u_phone u = [] ∨ col_of pg "users" "phone" x ≠ SText (u_phone u))) l.
#[global] Instance pg_user_free_dec u l : Decision (pg_user_free u l).
Proof. apply _. Defined.

Lemma user_clash u z l : existsb (clash (schema_of pg "users") (pg_user_row u z)) l = negb (bool_decide (pg_user_free u l)).
Proof.
  induction l as [|x l IH]; [done|]. cbn [existsb]. rewrite IH.
  set (P := col_of pg "users" "username" x ≠ SText (u_username u) ∧ (u_phone u = [] ∨ col_of pg "users" "phone" x ≠ SText (u_phone u))).
  assert (Hx : clash (schema_of pg "users") (pg_user_row u z) x = negb (bool_decide P)).
  { unfold clash, agree. change (sc_unique _) with [["username" : cstr]; ["phone" : cstr]]. cbn [existsb forallb].
    change (row_val (schema_of pg "users") (pg_user_row u z) ("username" : cstr)) with (SText (u_username u)).
    change (row_val (schema_of pg "users") (pg_user_row u z) ("phone" : cstr)) with (text_or_null (u_phone u)).
    change (row_val (schema_of pg "users") x ("username" : cstr)) with (col_of pg "users" "username" x).
    change (row_val (schema_of pg "users") x ("phone" : cstr)) with (col_of pg "users" "phone" x).
    rewrite (bool_decide_eq_false_2 (SText (u_username u) = SNull)) by done. rewrite !andb_true_r, orb_false_r. cbn [negb andb].
    unfold P. destruct (u_phone u) as [|c p] eqn:Ep; cbn [text_or_null].
    - rewrite (bool_decide_eq_true_2 (SNull = SNull)) by done. cbn [negb andb]. rewrite orb_false_r.
      destruct (decide (SText (u_username u) = col_of pg "users" "username" x)) as [He|He].
      + rewrite (bool_decide_eq_true_2 _ He), bool_decide_eq_false_2; [done|]. naive_solver.
      + rewrite (bool_decide_eq_false_2 _ He), bool_decide_eq_true_2; [done|]. naive_solver.
    - rewrite (bool_decide_eq_false_2 (SText (c :: p) = SNull)) by done. cbn [negb andb].
      destruct (decide (SText (u_username u) = col_of pg "users" "username" x)) as [He|He].
      + rewrite (bool_decide_eq_true_2 _ He), (bool_decide_eq_false_2 (_ ∧ _)); [done|]. naive_solver.
      + rewrite (bool_decide_eq_false_2 _ He). cbn [orb].
        destruct (decide (SText (c :: p) = col_of pg "users" "phone" x)) as [Hf|Hf].
        * rewrite (bool_decide_eq_true_2 _ Hf), (bool_decide_eq_false_2 (_ ∧ _)); [done|]. naive_solver.
        * rewrite (bool_decide_eq_false_2 _ Hf), (bool_decide_eq_true_2 (_ ∧ _)); [done|]. naive_solver. }
  rewrite Hx. rewrite <- negb_andb. f_equal. rewrite <- bool_decide_and. apply bool_decide_ext. unfold pg_user_free. by rewrite Forall_cons.
Qed.

(** C32. A user whose name and phone are free gets the next number and is read
    back unchanged, second factor and attributes included, by number and
    by name.  One that is not free is refused as an error of the storage,
    not as one that exists. *)
Theorem postgres_user_trip u (s : state) :
  pg_user_ok u → pg_inv s → pg_next s "users" < 2 ^ 63 →
  ∃ s', pg_inv s' ∧
    if bool_decide (pg_user_free u (pg_rows s "users"))
    then postgres_user_create u s = Ret (Ok (set_user_id (pg_next s "users") u), s') ∧
         postgres_user_get_by_id (pg_next s "users") s' = Ret (Ok (set_user_id (pg_next s "users") u), s') ∧
         postgres_user_get_by_name (u_username u) s' = Ret (Ok (set_user_id (pg_next s "users") u), s')
    else postgres_user_create u s = Ret (Err SSO_ERR_STORAGE, s') ∧ ∀ t, pg_rows s' t = pg_rows s t.
Proof.
  intros Hu Hs Hlt. assert (H0 : 0 ≤ pg_next s "users") by (unfold pg_next; destruct Hs as [_ Hw]; destruct (Hw ("users" : cstr)); lia).
  assert (Hv : vals_ok (default (Delete [] CAll) (sql_parse PG_user_create)) (user_vals u)).
  { destruct Hu as [[Hn _] [Hp _] [Hh _] [He _] [Hd _] [Ha _] [Hx _] [Hst _] Hm Hc Hup Hset]. split.
    - unfold user_vals. repeat (constructor; [first [done|cbn; lia|idtac]|]); [|constructor]. by destruct (u_phone u).
    - replace (filter _ _) with [("status" : list ascii, Param 6); ("mfa_enabled" : list ascii, Param 10)] by (vm_compute; reflexivity).
      repeat constructor; cbn; lia. }
  pose proof (pg_insert_run "users"
    ["username" : cstr; "phone" : cstr; "password_hash" : cstr; "email" : cstr; "display_name" : cstr; "status" : cstr; "created_at" : cstr;
     "updated_at" : cstr; "attributes" : cstr; "mfa_enabled" : cstr; "mfa_secret" : cstr; "password_set_at" : cstr]
    (map Param (seq 1 12)) PG_user_create (user_vals u) _ (pg_user_row u) s ltac:(pg_now) ltac:(pg_now) Hv (user_params u Hu) ltac:(pg_now)
    ltac:(by intros z; destruct (u_phone u) eqn:E; unfold user_vals, pg_user_row; rewrite E) ltac:(by intros z) Hs Hlt) as Hrun.
  rewrite user_clash in Hrun. unfold postgres_user_create. destruct (bool_decide (pg_user_free u (pg_rows s "users"))) eqn:Ef; cbn [negb] in Hrun.
  - destruct Hrun as (s' & -> & Hs' & Hr). exists s'. split; [done|].
    pose proof (id_value [SInt (pg_next s "users")] 0 (pg_next s "users") eq_refl (conj H0 Hlt)) as Hid. cbn [map] in Hid. rewrite Hid.
    split; [done|]. split.
    + unfold postgres_user_get_by_id. rewrite (pg_number_run "users" user_cols); [|pg_now|pg_now|lia|pg_now|pg_now|by intros []|done].
      unfold pg_by_number, pg_rows in *.
      rewrite (found_by_number pg "users" _ _ (pg_user_row u (pg_next s "users")) _ (proj2 Hs' _) Hr); [|pg_now|by intros []|done].
      cbn [head fmap option_fmap option_map found]. by rewrite user_back.
    + unfold postgres_user_get_by_name.
      rewrite (pg_equal_run "users" "username" (SText (u_username u)) user_cols _ _ _ [pg_user_row u (pg_next s "users")]);
        [|pg_now|pg_now| |done|done|done|done| |cbn; lia].
      * cbn [head fmap option_fmap option_map found]. by rewrite user_back.
      * split; [|constructor]. constructor; [apply Hu|constructor].
      * rewrite Hr. apply found_by_column; [done|]. apply bool_decide_eq_true in Ef. eapply Forall_impl; [exact Ef|]. by intros x [? _].
  - destruct Hrun as (code & s' & -> & Hs' & Hr). exists s'. by split.
Qed.
End Tables.

(* ------------------------------------------------------------------ *)
(** ** A server that has the laws *)

(** Values that every column takes for the same. *)
Definition same_val (v w : sval) : Prop := ∀ b, coerce b v = coerce b w.
Definition of_text (t : option cstr) : sval := match t with None => SNull | Some t => SText t end.

Lemma number_text z : integer_text (print_lld z) = true.
Proof.
  unfold print_lld. destruct (Z.ltb_spec z 0).
  - destruct (print_dec_spec (- z)) as (Hne & Hd & _); [lia|]. change (match print_dec (- z) with [] => false | _ => forallb is_digit (print_dec (- z)) end = true).
    destruct (print_dec (- z)) as [|c l]; [done|]. apply forallb_forall. intros x Hx. rewrite Forall_forall in Hd. by apply Hd, list_elem_of_In.
  - destruct (print_dec_spec z) as (Hne & Hd & _); [lia|]. destruct (print_dec z) as [|c l]; [done|]. unfold integer_text.
    assert (Hf : forallb is_digit (c :: l) = true) by (apply forallb_forall; intros x Hx; rewrite Forall_forall in Hd; by apply Hd, list_elem_of_In).
    destruct (Ascii.eqb_spec c "-") as [->|]; [by apply Forall_cons in Hd as [Hc _]|done].
Qed.
Lemma same_text v : val_ok v → same_val (of_text (as_text v)) v.
Proof.
  intros Hv b. destruct v as [|z|t]; [done| |done]. cbn [as_text of_text coerce]. rewrite number_text, andb_true_r.
  destruct b; [|done]. by rewrite atoll_print_lld.
Qed.

Section Same.
Context (fold : bool) (cat : catalog) (args args' : list sval) (Hargs : Forall2 same_val args args').

Lemma same_ev ex e : same_val (ev args ex e) (ev args' ex e).
Proof.
  destruct e as [[|i]| |]; [done| |done|done]. intros b. cbn [ev arg]. apply Forall2_lookup with (i := i) in Hargs as [v w Hv|]; [|done].
  cbn. apply Hv.
Qed.
Lemma same_sat sc r w : sat fold sc args r w = sat fold sc args' r w.
Proof. induction w as [|c o e|a IHa b IHb|a IHa b IHb]; cbn [sat]; [done| |by rewrite IHa, IHb..]. by rewrite same_ev. Qed.
Lemma same_set_row sc ex sets r : set_row sc args ex sets r = set_row sc args' ex sets r.
Proof.
  unfold set_row. revert r. induction sets as [|ce sets IH]; intros r; [done|]. cbn [foldl]. rewrite IH. by rewrite same_ev.
Qed.
Lemma same_new_row sc cols vals seq : new_row sc cols (map (ev args no_row) vals) seq = new_row sc cols (map (ev args' no_row) vals) seq.
Proof.
  unfold new_row. apply imap_ext. intros i c _. unfold new_value. destruct (find_index _ _) as [j|]; [|done].
  rewrite !list_lookup_fmap. destruct (vals !! j) as [e|]; [|done]. cbn. apply same_ev.
Qed.
Lemma same_map_ext {A} (f g : A → A) l : (∀ x, f x = g x) → map f l = map g l.
Proof. intros H. by apply map_ext. Qed.
Lemma same_write st db : sql_write fold cat st args db = sql_write fold cat st args' db.
Proof.
  destruct st as [c t cols vals ret| |t sets w|t w|]; cbn [sql_write]; [|done| | |done].
  - rewrite same_new_row. set (r := new_row _ _ _ _). unfold insert_row. destruct c as [| | |target sets]; [done..|].
    assert (E : map (λ x, if clash (schema_of cat t) r x then set_row (schema_of cat t) args (row_val (schema_of cat t) r) sets x else x) (td_rows (data_of db t)) =
                map (λ x, if clash (schema_of cat t) r x then set_row (schema_of cat t) args' (row_val (schema_of cat t) r) sets x else x) (td_rows (data_of db t)))
      by (apply map_ext; intros x; by rewrite same_set_row).
    by rewrite E.
  - unfold update_rows.
    assert (E : map (λ x, if sat fold (schema_of cat t) args x w then set_row (schema_of cat t) args no_row sets x else x) (td_rows (data_of db t)) =
                map (λ x, if sat fold (schema_of cat t) args' x w then set_row (schema_of cat t) args' no_row sets x else x) (td_rows (data_of db t)))
      by (apply map_ext; intros x; by rewrite same_sat, same_set_row).
    by rewrite E.
  - unfold delete_rows.
    assert (E : filter (λ x, sat fold (schema_of cat t) args x w = false) (td_rows (data_of db t)) = filter (λ x, sat fold (schema_of cat t) args' x w = false) (td_rows (data_of db t)))
      by (apply list_filter_iff; intros x; by rewrite same_sat).
    by rewrite E.
Qed.
Lemma same_matches st db : sql_matches fold cat st args db = sql_matches fold cat st args' db.
Proof.
  destruct st as [|sel t w o lim off| | |seed c key start nodes i p stt]; cbn [sql_matches]; try done.
  - apply filter_ext_eq. intros r. apply same_sat.
  - by rewrite same_ev.
Qed.
Lemma same_answer st rs : sql_answer cat st args rs = sql_answer cat st args' rs.
Proof.
  destruct st as [|sel t w o lim off| | |]; cbn [sql_answer]; try done.
  assert (E : ∀ l, page args lim off l = page args' lim off l).
  { intros l. unfold page. destruct lim, off; by rewrite ?same_ev. }
  by destruct sel; rewrite ?E.
Qed.
End Same.

#[global] Instance ref_libpq : Libpq database := {|
  PQexecParams sql texts db :=
    let args := map of_text texts in
    match sql_parse sql with
    | None => (PGRES_FATAL_ERROR None, db)
    | Some st =>
        if is_query st then (PGRES_TUPLES_OK (map (map as_text) (sql_answer pg st args (sql_matches false pg st args db))), db)
        else
          let '(rc, n, db') := sql_write false pg st args db in
          (match rc with
           | SQLITE_DONE => match st with Insert Refuse _ _ _ true => PGRES_TUPLES_OK [[Some (print_lld n)]] | _ => PGRES_COMMAND_OK end
           | _ => PGRES_FATAL_ERROR (Some ("23505" : cstr))
           end, db')
    end |}.
#[global] Instance ref_libpq_laws : PostgresLaws (λ db : database, db).
Proof.
  assert (Hsame : ∀ args, Forall val_ok args → Forall2 same_val (map of_text (map as_text args)) args).
  { intros args. induction 1 as [|v args Hv _ IH]; [constructor|]. cbn [map]. constructor; [by apply same_text|done]. }
  split; intros sql st args d (Hp & Ho & Ht & Hl & Hv & Hn) Hq; unfold PQexecParams, ref_libpq; rewrite Hp, Hq.
  - eexists. split; [reflexivity|]. rewrite (same_answer pg _ _ (Hsame args Hv)). by rewrite (same_matches false pg _ _ (Hsame args Hv)).
  - rewrite (same_write false pg _ _ (Hsame args Hv)). destruct (sql_write false pg st args d) as [[rc n] db]. eexists _, _. split; [reflexivity|].
    split; [intros t; split_and!; [done|lia|done]|]. destruct rc; cbn; [|by eexists..]. by destruct st as [[] ? ? ? []| | | |].
Qed.

(* ------------------------------------------------------------------ *)
(** ** Witnesses *)

Definition pg_ref_state (db : database) : pg_state database := {| pg_conn := true; pg_db := db |}.
Lemma pg_ref_inv db : db_wf pg db → pg_inv (λ d, d) (pg_ref_state db).
Proof. by split. Qed.

Lemma postgres_reads_witness :
  postgres_get_user_roles 7 10%nat (pg_ref_state ∅) = Ret (ids_answer (v_user_roles (postgres_view (λ d, d) (pg_ref_state ∅)) 7) 10%nat, pg_ref_state ∅).
Proof.
  apply (postgres_reads (λ d, d) (pg_ref_state ∅) 7 POLICY_TARGET_USER 10%nat); [apply pg_ref_inv, db_wf_empty|lia|vm_compute; split; congruence].
Defined.

Definition plain_test (n : nat) (t : cstr) : bool := forallb (λ c, (0 <? ord c) && (ord c <? 128)) t && (length t <? n)%nat.
Lemma plain_test_ok n t : plain_test n t = true → text_ok n t.
Proof.
  unfold plain_test. intros [H1 H2]%andb_true_iff. split; [|by apply Nat.ltb_lt]. apply Forall_forall. intros c Hc%list_elem_of_In.
  rewrite forallb_forall in H1. specialize (H1 _ Hc). lia.
Qed.
Lemma mfa_user_ok : pg_user_ok (mfa_user 0 "555").
Proof. split; try (apply plain_test_ok; vm_compute; reflexivity); vm_compute; intuition congruence. Qed.
Lemma postgres_user_trip_witness :
  ∃ s', pg_inv (λ d, d) s' ∧
    if bool_decide (pg_user_free (mfa_user 0 "555") (pg_rows (λ d, d) (pg_ref_state ∅) "users"))
    then postgres_user_create (mfa_user 0 "555") (pg_ref_state ∅) = Ret (Ok (set_user_id 1 (mfa_user 0 "555")), s') ∧
         postgres_user_get_by_id 1 s' = Ret (Ok (set_user_id 1 (mfa_user 0 "555")), s') ∧
         postgres_user_get_by_name (u_username (mfa_user 0 "555")) s' = Ret (Ok (set_user_id 1 (mfa_user 0 "555")), s')
    else postgres_user_create (mfa_user 0 "555") (pg_ref_state ∅) = Ret (Err SSO_ERR_STORAGE, s') ∧
         ∀ t, pg_rows (λ d, d) s' t = pg_rows (λ d, d) (pg_ref_state ∅) t.
Proof.
  change 1 with (pg_next (λ d : database, d) (pg_ref_state ∅) "users").
  apply (postgres_user_trip (λ d, d) (mfa_user 0 "555") (pg_ref_state ∅)); [apply mfa_user_ok|apply pg_ref_inv, db_wf_empty|reflexivity].
Defined.
