(* ===== verification/PostgresConn.v ===== *)
(** * Connections of the PostgreSQL backend (src/storage_postgres.c)

    Opening and closing, the pool and the connection a thread keeps.  The
    handle a function works on is that of the backend, or a copy of it with
    the connection of the thread. *)

From S2P Require Import Prelude CLib CNum Types Storage Printf Http Sqlite Postgres.

(** Connections by number; a failed one is returned too, with a bad
    status. *)
Class PqConn (W : Type) := {
  PQconnectdb : cstr → W → Z * W;
  PQstatus : Z → W → bool;
  PQfinish : Z → W → W;
  PQexec : Z → cstr → W → pg_answer * W
}.

Definition POSTGRES_POOL_MAX : nat := 16.
Record postgres_priv_t := { pp_conn : option Z; pp_dsn : cstr; pp_pool : list (Z * bool) }.
Definition new_pg_priv : postgres_priv_t := {| pp_conn := None; pp_dsn := []; pp_pool := [] |}.
Definition pp_with_pool (pool : list (Z * bool)) (p : postgres_priv_t) : postgres_priv_t :=
  {| pp_conn := pp_conn p; pp_dsn := pp_dsn p; pp_pool := pool |}.

(** [tls_conn] is one variable per thread for all backends: with it, a
    function gets a copy of the handle. *)
Definition postgres_get_priv (tls : option Z) (p : postgres_priv_t) : postgres_priv_t :=
  match tls with Some c => {| pp_conn := Some c; pp_dsn := pp_dsn p; pp_pool := pp_pool p |} | None => p end.
(** What is left of changes to it. *)
Definition kept_priv (tls : option Z) (handle changed : postgres_priv_t) : postgres_priv_t :=
  match tls with Some _ => handle | None => changed end.

Inductive acquired := Conn (c : Z) | No_conn | Waiting.

Section Connections.
Context {W : Type} `{!PqConn W} (file : cstr → option cstr).

(** The first idle slot; a broken connection is made anew, whatever comes
    of it. *)
Fixpoint pg_idle (dsn : cstr) (pool : list (Z * bool)) (w : W) : option (Z * list (Z * bool) * W) :=
  match pool with
  | [] => None
  | (c, true) :: pool => match pg_idle dsn pool w with Some (c', pool, w) => Some (c', (c, true) :: pool, w) | None => None end
  | (c, false) :: pool =>
      if PQstatus c w then Some (c, (c, true) :: pool, w)
      else let '(c', w) := PQconnectdb dsn (PQfinish c w) in Some (c', (c', true) :: pool, w)
  end.
Definition postgres_pool_acquire (p : postgres_priv_t) (w : W) : acquired * postgres_priv_t * W :=
  match pg_idle (pp_dsn p) (pp_pool p) w with
  | Some (c, pool, w) => (Conn c, pp_with_pool pool p, w)
  | None =>
      if (length (pp_pool p) <? POSTGRES_POOL_MAX)%nat then
        let '(c, w) := PQconnectdb (pp_dsn p) w in
        if PQstatus c w then (Conn c, pp_with_pool (pp_pool p ++ [(c, true)]) p, w) else (No_conn, p, PQfinish c w)
      else (Waiting, p, w)
  end.
Fixpoint pg_release (c : Z) (pool : list (Z * bool)) : list (Z * bool) :=
  match pool with [] => [] | (c', b) :: pool => if c' =? c then (c', false) :: pool else (c', b) :: pg_release c pool end.
Definition postgres_pool_release (c : option Z) (p : postgres_priv_t) : postgres_priv_t :=
  match c with Some c => pp_with_pool (pg_release c (pp_pool p)) p | None => p end.

(** [None]: the thread waits for a connection. *)
Definition postgres_thread_init (tls : option Z) (p : postgres_priv_t) (w : W) : option (option Z * postgres_priv_t * W) :=
  match tls with
  | Some _ => Some (tls, p, w)
  | None =>
      match postgres_pool_acquire p w with
      | (Conn c, p, w) => Some (Some c, p, w)
      | (No_conn, p, w) => Some (None, p, w)
      | (Waiting, _, _) => None
      end
  end.
Definition postgres_thread_cleanup (tls : option Z) (p : postgres_priv_t) : option Z * postgres_priv_t :=
  match tls with Some _ => (None, postgres_pool_release tls p) | None => (None, p) end.

Definition postgres_exec_file (c : Z) (path : cstr) (w : W) : result unit * W :=
  match file path with
  | Some ((_ :: _) as sql) =>
      let '(a, w) := PQexec c (c_str sql) w in
      (match a with PGRES_COMMAND_OK => Ok () | _ => Err SSO_ERR_STORAGE end, w)
  | _ => (Err SSO_ERR_STORAGE, w)
  end.
Definition postgres_exec_sql_file (tls : option Z) (p : postgres_priv_t) (path : cstr) (w : W) : result unit * W :=
  match pp_conn (postgres_get_priv tls p) with Some c => postgres_exec_file c path w | None => (Err SSO_ERR_STORAGE, w) end.

(** The handle that is filled is the one of [postgres_get_priv]. *)
Definition postgres_open (tls : option Z) (dsn : cstr) (handle : postgres_priv_t) (w : W) : result unit * postgres_priv_t * W :=
  let '(c, w) := PQconnectdb dsn w in
  if PQstatus c w then
    let '(r, w) := postgres_exec_file c "sql/postgres/schema.sql" w in
    (r, kept_priv tls handle {| pp_conn := Some c; pp_dsn := sso_strlcpy (Some dsn) 512; pp_pool := [(c, false)] |}, w)
  else (Err SSO_ERR_STORAGE, kept_priv tls handle {| pp_conn := None; pp_dsn := sso_strlcpy (Some dsn) 512; pp_pool := [] |}, PQfinish c w).

(** The copy of a thread is no memory of [malloc]. *)
Definition postgres_close (tls : option Z) (p : postgres_priv_t) (w : W) : outcome W :=
  match tls with Some _ => Crash | None => Ret (foldl (λ w cb, PQfinish cb.1 w) w (pp_pool p)) end.

Definition pg_transaction (tls : option Z) (sql : cstr) (p : postgres_priv_t) (w : W) : result unit * W :=
  match pp_conn (postgres_get_priv tls p) with
  | None => (Err SSO_ERR_STORAGE, w)
  | Some c => let '(a, w) := PQexec c sql w in (match a with PGRES_COMMAND_OK => Ok () | _ => Err SSO_ERR_STORAGE end, w)
  end.
Definition postgres_begin (tls : option Z) : postgres_priv_t → W → result unit * W := pg_transaction tls "BEGIN".
Definition postgres_commit (tls : option Z) : postgres_priv_t → W → result unit * W := pg_transaction tls "COMMIT".
Definition postgres_rollback (tls : option Z) : postgres_priv_t → W → result unit * W := pg_transaction tls "ROLLBACK".

(* ------------------------------------------------------------------ *)
(** ** Threads and backends *)

(** Open connections of the pool are held by one thread each. *)
Lemma pg_idle_free dsn pool (w : W) c pool' w' :
  pg_idle dsn pool w = Some (c, pool', w') →
  ∃ l c0 r, pool = l ++ (c0, false) :: r ∧ pool' = l ++ (c, true) :: r ∧ Forall (λ cb, cb.2 = true) l ∧
            (c = c0 ∨ PQstatus c0 w = false).
Proof.
  revert pool'. induction pool as [|[c0 []] pool IH]; intros pool'; cbn [pg_idle]; [done| |].
  - destruct (pg_idle dsn pool w) as [[[c1 p1] w1]|] eqn:E; [|done]. intros [= <- <- <-].
    destruct (IH _ eq_refl) as (l & c2 & r & -> & -> & Hl & Hc). exists ((c0, true) :: l), c2, r. split; [done|]. split; [done|]. split; [by constructor|done].
  - destruct (PQstatus c0 w) eqn:Es.
    + intros [= <- <- <-]. exists [], c0, pool. split; [done|]. split; [done|]. split; [constructor|by left].
    + destruct (PQconnectdb dsn (PQfinish c0 w)) as [c' w1]. intros [= <- <- <-]. exists [], c0, pool. split; [done|]. split; [done|]. split; [constructor|by right].
Qed.

(** A thread that has a connection of one backend works on it for all:
    it keeps it when another backend prepares it, opening another backend
    fills the copy of its handle and leaves the handle as it was, and
    closing one frees what was never allocated. *)
Theorem postgres_thread_backends (a : Z) dsn (second : postgres_priv_t) (w : W) :
  postgres_thread_init (Some a) second w = Some (Some a, second, w) ∧
  pp_conn (postgres_get_priv (Some a) second) = Some a ∧
  (∃ r w', postgres_open (Some a) dsn second w = (r, second, w')) ∧
  postgres_close (Some a) second w = Crash.
Proof.
  split_and!; [done|done| |done]. unfold postgres_open. destruct (PQconnectdb dsn w) as [c w1].
  destruct (PQstatus c w1); [|by eexists _, _]. destruct (postgres_exec_file c _ w1) as [r w2]. by eexists _, _.
Qed.

(** The connection of the handle, which threads without their own use, is
    also the first of the pool: the first thread that asks gets it. *)
Theorem postgres_default_shared dsn (w w' : W) p :
  postgres_open None dsn new_pg_priv w = (Ok (), p, w') → (∀ c, pp_conn p = Some c → PQstatus c w' = true) →
  ∃ c p', pp_conn (postgres_get_priv None p) = Some c ∧ postgres_thread_init None p w' = Some (Some c, p', w').
Proof.
  unfold postgres_open. destruct (PQconnectdb dsn w) as [c w1]. destruct (PQstatus c w1); [|done].
  destruct (postgres_exec_file c _ w1) as [r w2]. intros [= -> <- <-] Hs. specialize (Hs c eq_refl). cbn in Hs.
  exists c. unfold postgres_thread_init, postgres_pool_acquire. cbn [kept_priv pp_pool pp_dsn pg_idle]. rewrite Hs. by eexists.
Qed.

(** Requests under libmicrohttpd: the thread prepares itself with the
    backend of the tenant, and when the request is complete it cleans up
    with that of the main context. *)
Definition tenant_request (tls : option Z) (tenant main : postgres_priv_t) (w : W) : option (option Z * postgres_priv_t * postgres_priv_t * W) :=
  match postgres_thread_init tls tenant w with
  | Some (tls, tenant, w) => let '(tls, main) := postgres_thread_cleanup tls main in Some (tls, tenant, main, w)
  | None => None
  end.
Fixpoint tenant_requests (n : nat) (tenant main : postgres_priv_t) (w : W) : option (option Z * postgres_priv_t * postgres_priv_t * W) :=
  match n with
  | O => Some (None, tenant, main, w)
  | S n => match tenant_request None tenant main w with Some (_, tenant, main, w) => tenant_requests n tenant main w | None => None end
  end.

Definition busy (p : postgres_priv_t) : nat := length (List.filter snd (pp_pool p)).
Lemma pg_idle_busy dsn pool (w : W) :
  match pg_idle dsn pool w with
  | Some (_, pool', _) => length pool' = length pool ∧ length (List.filter snd pool') = S (length (List.filter snd pool))
  | None => length (List.filter snd pool) = length pool
  end.
Proof.
  induction pool as [|[c []] pool IH]; [done| |]; cbn [pg_idle List.filter snd].
  - destruct (pg_idle dsn pool w) as [[[c' p'] w']|]; cbn [List.filter snd length]; lia.
  - destruct (PQstatus c w); [done|]. by destruct (PQconnectdb dsn _).
Qed.
Lemma tenant_request_busy p main (w : W) :
  (∀ dsn w, let '(c, w) := PQconnectdb dsn w in PQstatus c w = true) → (length (pp_pool p) ≤ POSTGRES_POOL_MAX)%nat →
  if (busy p <? POSTGRES_POOL_MAX)%nat
  then ∃ p' main' w', tenant_request None p main w = Some (None, p', main', w') ∧ busy p' = S (busy p) ∧
                      (length (pp_pool p') ≤ POSTGRES_POOL_MAX)%nat
  else tenant_request None p main w = None.
Proof.
  intros Hc Hl. unfold tenant_request, postgres_thread_init, postgres_pool_acquire, busy.
  pose proof (pg_idle_busy (pp_dsn p) (pp_pool p) w) as Hb. destruct (pg_idle _ _ _) as [[[c pool] w1]|].
  - destruct Hb as [Hb1 Hb2]. pose proof (filter_length_le snd pool) as Hle. rewrite (proj2 (Nat.ltb_lt _ _)) by lia.
    eexists _, _, _. split; [reflexivity|]. cbn [pp_with_pool pp_pool]. lia.
  - rewrite Hb. destruct (length (pp_pool p) <? POSTGRES_POOL_MAX)%nat eqn:E; [|done]. specialize (Hc (pp_dsn p) w).
    destruct (PQconnectdb (pp_dsn p) w) as [c w1]. rewrite Hc. eexists _, _, _. split; [reflexivity|]. cbn [pp_with_pool pp_pool].
    rewrite List.filter_app, !length_app. apply Nat.ltb_lt in E. cbn. lia.
Qed.

(** A tenant other than the main one never gets a connection back: after
    as many requests as its pool has room for, the next one waits
    forever, even if the server takes every connection and one request is
    done before the next comes. *)
Theorem postgres_tenant_starves p main (w : W) :
  (∀ dsn w, let '(c, w) := PQconnectdb dsn w in PQstatus c w = true) → (length (pp_pool p) ≤ POSTGRES_POOL_MAX)%nat →
  (∃ r, tenant_requests (POSTGRES_POOL_MAX - busy p) p main w = Some r) ∧ tenant_requests (S (POSTGRES_POOL_MAX - busy p)) p main w = None.
Proof.
  intros Hc Hl. remember (POSTGRES_POOL_MAX - busy p)%nat as n eqn:En. revert p main w Hl En.
  induction n as [|n IH]; intros p main w Hl En; pose proof (tenant_request_busy p main w Hc Hl) as Ht.
  - rewrite (proj2 (Nat.ltb_ge _ _)) in Ht by lia. split; [by eexists|]. cbn [tenant_requests]. by rewrite Ht.
  - rewrite (proj2 (Nat.ltb_lt _ _)) in Ht by lia. destruct Ht as (p' & main' & w' & Ht & Hb & Hl').
    destruct (IH p' main' w' Hl' ltac:(lia)) as [H1 H2]. split.
    + cbn [tenant_requests]. by rewrite Ht.
    + change (tenant_requests (S (S n)) p main w) with
        (match tenant_request None p main w with Some (_, p, m, w) => tenant_requests (S n) p m w | None => None end). by rewrite Ht.
Qed.
End Connections.
