(* ===== verification/HttpParse.v ===== *)
(** * Reading a request (src/server.c: the buffered reader, parse_request)

    A connection is what its successive reads have to give: the bytes of
    a read, cut to the room offered, or nothing for a read that fails or
    finds the end.  The parser returns the request with its body buffer.
    The theorems: how the bytes are split over reads does not matter, a
    rendered request is read back, and what a line can carry. *)

From S2P Require Import Prelude CLib CNum Json Types Storage StorageMemory PermCache Context UserMgr RateLimit Mfa Bits Base64 TokenState Token TokenScan TokenJwt Printf PermEngine AuditLog Dpop Risk Http.

Definition conn : Type := list (list ascii).

Definition conn_read (n : nat) (c : conn) : list ascii * conn :=
  match c with
  | [] => ([], [])
  | a :: c' => if (length a <=? n)%nat then (a, c') else (take n a, drop n a :: c')
  end.

(** [br_buf] is [buf[pos .. end)]. *)
Record buf_reader_t := { br_conn : conn; br_buf : list ascii }.

Definition BUF_READER_SIZE : nat := 4096.

Definition br_init (c : conn) : buf_reader_t := {| br_conn := c; br_buf := [] |}.

(** The next byte, the buffer being filled when it is used up. *)
Definition br_next (br : buf_reader_t) : option ascii * buf_reader_t :=
  match br_buf br with
  | c :: buf => (Some c, {| br_conn := br_conn br; br_buf := buf |})
  | [] =>
      match conn_read BUF_READER_SIZE (br_conn br) with
      | ([], conn) => (None, {| br_conn := conn; br_buf := [] |})
      | (c :: buf, conn) => (Some c, {| br_conn := conn; br_buf := buf |})
      end
  end.

(** The bytes still to come. *)
Definition br_left (br : buf_reader_t) : nat := length (br_buf br) + length (concat (br_conn br)).

Definition CR : ascii := chr 13.
Definition LF : ascii := chr 10.

(** [br_read_line]: at most [room] characters; every turn takes a byte. *)
Fixpoint read_line (fuel room : nat) (br : buf_reader_t) : outcome (list ascii * buf_reader_t) :=
  match room with
  | O => Ret ([], br)
  | S room' =>
      match fuel with
      | O => Diverge
      | S fuel' =>
          match br_next br with
          | (None, br) => Ret ([], br)
          | (Some c, br) =>
              if Ascii.eqb c CR then read_line fuel' room br
              else if Ascii.eqb c LF then Ret ([], br)
              else '(l, br) ← read_line fuel' room' br; Ret (c :: l, br)
          end
      end
  end.

Definition br_read_line (max : nat) (br : buf_reader_t) : outcome (list ascii * buf_reader_t) :=
  read_line (S (br_left br)) (max - 1) br.

(** [br_read]: what the buffer holds, then directly from the connection. *)
Fixpoint read_body (fuel n : nat) (br : buf_reader_t) : outcome (list ascii * buf_reader_t) :=
  match n with
  | O => Ret ([], br)
  | S _ =>
      match fuel with
      | O => Diverge
      | S fuel' =>
          let '(chunk, br) :=
            match br_buf br with
            | [] => let '(a, c) := conn_read n (br_conn br) in (a, {| br_conn := c; br_buf := [] |})
            | buf => (take n buf, {| br_conn := br_conn br; br_buf := drop n buf |})
            end in
          match chunk with
          | [] => Ret ([], br)
          | _ => '(l, br) ← read_body fuel' (n - length chunk) br; Ret (chunk ++ l, br)
          end
      end
  end.

Definition br_read (n : nat) (br : buf_reader_t) : outcome (list ascii * buf_reader_t) :=
  read_body (S (br_left br)) n br.

(* ------------------------------------------------------------------ *)
(** ** The request line *)

(** One [%<n>s] of sscanf. *)
Definition scan_word (n : nat) (s : cstr) : option (cstr * cstr) :=
  let s := skip_while is_space s in
  match take n (take_while (λ c, negb (is_space c)) s) with
  | [] => None
  | w => Some (w, drop (length w) s)
  end.

Definition method_of (m : cstr) : option http_method_t :=
  if strcmp_eq m "GET" then Some HTTP_GET
  else if strcmp_eq m "POST" then Some HTTP_POST
  else if strcmp_eq m "PUT" then Some HTTP_PUT
  else if strcmp_eq m "DELETE" then Some HTTP_DELETE
  else if strcmp_eq m "PATCH" then Some HTTP_PATCH
  else None.

(** The parameters after the question mark.  The array has room for one
    more than the ampersands and the terminator; a parameter that cannot
    be copied is a NULL that ends the list for its readers. *)
Fixpoint copied_params (arena : Z → bool) (l : list cstr) : list cstr :=
  match l with
  | [] => []
  | p :: l => if arena (Z.of_nat (length p) + 1) then p :: copied_params arena l else []
  end.

Definition query_params_of (arena : Z → bool) (q : cstr) : option (list cstr) :=
  let count := Z.of_nat (length (filter (λ c, c = "&"%char) q)) + 1 in
  if arena (u64 ((count + 1) * 8)) then Some (copied_params arena (strtok_all "&" q)) else None.

(** The path up to a question mark, and the parameters. *)
Definition split_target (arena : Z → bool) (target : cstr) : cstr * option (list cstr) :=
  match strchr target "?" with
  | Some q => (take q target, query_params_of arena (drop (S q) target))
  | None => (target, None)
  end.

(* ------------------------------------------------------------------ *)
(** ** Header lines *)

Record headers := {
  h_content_length : Z; h_auth_token : cstr; h_origin : cstr; h_dpop_proof : cstr; h_host : cstr; h_user_agent : cstr
}.

Definition no_headers : headers :=
  {| h_content_length := 0; h_auth_token := []; h_origin := []; h_dpop_proof := []; h_host := []; h_user_agent := [] |}.

Definition is_blank (c : ascii) : bool := Ascii.eqb c " ".

(** The value after a name: leading spaces skipped, cut to its array,
    spaces and CRs at the end removed. *)
Definition header_value (size : nat) (rest : cstr) : cstr :=
  rev (skip_while (char_in [" "%char; CR]) (rev (sso_strlcpy (Some (skip_while is_blank rest)) size))).

(** [strtol(s, &end, 10)]: [None] when [end] is [s]. *)
Definition strtol (s : cstr) : option Z :=
  let '(neg, s1) := scan_sign (skip_while is_space s) in
  match take_while is_digit s1 with
  | [] => None
  | ds => Some (if neg then Z.max (- 2 ^ 63) (- digits_val ds) else Z.min (2 ^ 63 - 1) (digits_val ds))
  end.

Definition header_line (h : headers) (line : cstr) : headers :=
  if lower_prefix "content-length:" line then
    match strtol (drop 15 line) with
    | Some v =>
        if 0 <=? v then
          {| h_content_length := v; h_auth_token := h_auth_token h; h_origin := h_origin h; h_dpop_proof := h_dpop_proof h;
             h_host := h_host h; h_user_agent := h_user_agent h |}
        else h
    | None => h
    end
  else if lower_prefix "authorization:" line then
    let token := skip_while is_blank (drop 14 line) in
    let set t :=
      {| h_content_length := h_content_length h; h_auth_token := sso_strlcpy (Some t) SSO_MAX_TOKEN_STR;
         h_origin := h_origin h; h_dpop_proof := h_dpop_proof h; h_host := h_host h; h_user_agent := h_user_agent h |} in
    if lower_prefix "bearer " token then set (drop 7 token)
    else if lower_prefix "dpop " token then set (drop 5 token)
    else h
  else if lower_prefix "origin:" line then
    {| h_content_length := h_content_length h; h_auth_token := h_auth_token h; h_origin := header_value 256 (drop 7 line);
       h_dpop_proof := h_dpop_proof h; h_host := h_host h; h_user_agent := h_user_agent h |}
  else if lower_prefix "dpop:" line then
    {| h_content_length := h_content_length h; h_auth_token := h_auth_token h; h_origin := h_origin h;
       h_dpop_proof := header_value 8192 (drop 5 line); h_host := h_host h; h_user_agent := h_user_agent h |}
  else if lower_prefix "host:" line then
    {| h_content_length := h_content_length h; h_auth_token := h_auth_token h; h_origin := h_origin h;
       h_dpop_proof := h_dpop_proof h; h_host := header_value 256 (drop 5 line); h_user_agent := h_user_agent h |}
  else if lower_prefix "user-agent:" line then
    {| h_content_length := h_content_length h; h_auth_token := h_auth_token h; h_origin := h_origin h;
       h_dpop_proof := h_dpop_proof h; h_host := h_host h; h_user_agent := header_value 512 (drop 11 line) |}
  else h.

Definition LINE_SIZE : nat := 4096.

(** The loop over header lines: it ends at an empty line, at one that
    starts with a NUL, and where nothing more comes. *)
Fixpoint read_headers (fuel : nat) (h : headers) (br : buf_reader_t) : outcome (headers * buf_reader_t) :=
  match fuel with
  | O => Diverge
  | S fuel' =>
      '(line, br) ← br_read_line LINE_SIZE br;
      match c_str line with
      | [] => Ret (h, br)
      | l => read_headers fuel' (header_line h l) br
      end
  end.

(* ------------------------------------------------------------------ *)
(** ** The request *)

(** A request as the parser leaves it.  [Some None] is a body buffer that
    nothing was written to: its length is 0 and its bytes are
    indeterminate. *)
Record parsed := { p_req : http_request_t; p_body : option (option (list ascii)) }.

Definition read_content (arena : Z → bool) (content_length : Z) (br : buf_reader_t)
  : outcome (option (option (list ascii)) * buf_reader_t) :=
  if content_length <=? 0 then Ret (None, br)
  else if negb (arena (u64 (content_length + 1))) then Ret (None, br)
  else
    '(bytes, br) ← br_read (Z.to_nat content_length) br;
    Ret (Some (match bytes with [] => None | _ => Some bytes end), br).

(** [parse_request]; [None] is the result -1. *)
Definition parse_request (arena : Z → bool) (max_body_size : Z) (br : buf_reader_t)
  : outcome (option parsed * buf_reader_t) :=
  '(line, br) ← br_read_line LINE_SIZE br;
  match line with
  | [] => Ret (None, br)
  | _ =>
      match scan_word 15 (c_str line) with
      | None => Ret (None, br)
      | Some (method, rest) =>
          match scan_word 1023 rest with
          | None => Ret (None, br)
          | Some (target, _) =>
              match method_of method with
              | None => Ret (None, br)
              | Some m =>
                  let '(path, query_params) := split_target arena target in
                  '(h, br) ← read_headers (S (br_left br)) no_headers br;
                  if (0 <? h_content_length h) && (0 <? max_body_size) && (max_body_size <? h_content_length h)
                  then Ret (None, br)
                  else
                    '(body, br) ← read_content arena (h_content_length h) br;
                    Ret (Some {| p_req := {| rq_method := m; rq_path := path; rq_client_ip := [];
                                             rq_query_params := query_params; rq_auth_token := h_auth_token h;
                                             rq_origin := h_origin h; rq_dpop_proof := h_dpop_proof h; rq_host := h_host h;
                                             rq_method_str := sso_strlcpy (Some method) 16;
                                             rq_user_agent := h_user_agent h; rq_userdata := None |};
                                 p_body := body |}, br)
              end
          end
      end
  end.

(* ================================================================== *)
(** ** The stream behind the reads *)

Definition stream (br : buf_reader_t) : list ascii := br_buf br ++ concat (br_conn br).

(** No read fails before the end. *)
Definition live (br : buf_reader_t) : Prop := Forall (λ a, a ≠ []) (br_conn br).

(** The same operations on the bytes themselves. *)
Fixpoint line_of (room : nat) (s : list ascii) : list ascii * list ascii :=
  match room, s with
  | O, _ => ([], s)
  | S _, [] => ([], [])
  | S room', c :: s' =>
      if Ascii.eqb c CR then line_of room s'
      else if Ascii.eqb c LF then ([], s')
      else let '(l, rest) := line_of room' s' in (c :: l, rest)
  end.

Lemma line_of_cons room c s :
  line_of (S room) (c :: s) =
    if Ascii.eqb c CR then line_of (S room) s
    else if Ascii.eqb c LF then ([], s) else let '(l, rest) := line_of room s in (c :: l, rest).
Proof. done. Qed.

Lemma br_left_stream br : br_left br = length (stream br).
Proof. unfold br_left, stream. by rewrite length_app. Qed.

Lemma conn_read_live n c :
  (0 < n)%nat → Forall (λ a, a ≠ []) c →
  let '(a, c') := conn_read n c in
  Forall (λ a, a ≠ []) c' ∧ a ++ concat c' = concat c ∧ (length a ≤ n)%nat ∧ (a = [] → c = []).
Proof.
  intros Hn Hc. destruct c as [|a c]; simpl; [split_and!; [constructor|done|lia|done]|]. apply Forall_cons in Hc as [Ha Hc].
  destruct (_ <=? _)%nat eqn:Hl.
  - apply Nat.leb_le in Hl. by split_and!.
  - apply Nat.leb_gt in Hl. split_and!.
    + constructor; [|done]. intros E%(f_equal length). rewrite length_drop in E. simpl in E. lia.
    + cbn [concat]. by rewrite (assoc (++)), take_drop.
    + rewrite length_take. lia.
    + intros E%(f_equal length). rewrite length_take in E. simpl in E. lia.
Qed.

Lemma br_next_live br :
  live br →
  match stream br with
  | [] => ∃ br', br_next br = (None, br') ∧ live br' ∧ stream br' = []
  | c :: s => ∃ br', br_next br = (Some c, br') ∧ live br' ∧ stream br' = s
  end.
Proof.
  intros Hl. unfold stream, br_next. destruct br as [c [|x buf]]; simpl; [|by eexists].
  pose proof (conn_read_live BUF_READER_SIZE c ltac:(unfold BUF_READER_SIZE; lia) Hl) as Hr.
  destruct (conn_read BUF_READER_SIZE c) as [[|x a] c'].
  - destruct Hr as (Hl' & E & _ & Hc). specialize (Hc eq_refl). subst c. simpl in *. eexists. split_and!; done.
  - destruct Hr as (Hl' & <- & _). simpl. by eexists.
Qed.

Lemma line_of_length room s : (length (line_of room s).2 ≤ length s)%nat.
Proof.
  revert room. induction s as [|c s IH]; intros [|room]; try (simpl; lia). rewrite line_of_cons. cbn [length].
  destruct (Ascii.eqb c CR); [specialize (IH (S room)); lia|]. destruct (Ascii.eqb c LF); [simpl; lia|].
  specialize (IH room). destruct (line_of room s). simpl in *. lia.
Qed.

Lemma read_line_live fuel room br :
  live br → (br_left br < fuel)%nat →
  ∃ br', read_line fuel room br = Ret ((line_of room (stream br)).1, br') ∧ live br' ∧
    stream br' = (line_of room (stream br)).2.
Proof.
  revert room br. induction fuel as [|fuel IH]; intros room br Hl Hf; [lia|]. rewrite br_left_stream in Hf.
  destruct room as [|room]; [by exists br; destruct (stream br)|]. cbn [read_line].
  pose proof (br_next_live br Hl) as Hn. destruct (stream br) as [|c s] eqn:Es.
  { destruct Hn as (br' & -> & Hl' & Hs). by exists br'. }
  destruct Hn as (br1 & -> & Hl1 & Hs1). rewrite line_of_cons. simpl in Hf.
  assert (Hf1 : (br_left br1 < fuel)%nat) by (rewrite br_left_stream, Hs1; lia).
  destruct (Ascii.eqb c CR); [rewrite <- Hs1; by apply IH|]. destruct (Ascii.eqb c LF); [by exists br1|].
  destruct (IH room br1 Hl1 Hf1) as (br2 & -> & Hl2 & Hs2). rewrite Hs1 in *. cbn [mbind outcome_bind].
  exists br2. by destruct (line_of room s).
Qed.

Lemma read_body_live fuel n br :
  live br → (br_left br < fuel)%nat →
  ∃ br', read_body fuel n br = Ret (take n (stream br), br') ∧ live br' ∧ stream br' = drop n (stream br).
Proof.
  revert n br. induction fuel as [|fuel IH]; intros n br Hl Hf; [lia|]. destruct n as [|n]; [by exists br|].
  cbn [read_body]. set (step := match br_buf br with [] => _ | _ => _ end).
  assert (Hstep : ∃ chunk br1, step = (chunk, br1) ∧ live br1 ∧ stream br = chunk ++ stream br1 ∧
            (length chunk ≤ S n)%nat ∧ (chunk = [] → stream br = [])).
  { unfold step, stream. destruct br as [c [|x buf]]; simpl.
    - pose proof (conn_read_live (S n) c ltac:(lia) Hl) as Hr. destruct (conn_read (S n) c) as [a c'].
      destruct Hr as (Hl' & E & Hle & Hc). eexists a, _. split_and!; [done|done|by rewrite <- E|done|].
      intros Ha. by rewrite Hc.
    - eexists (x :: take n buf), _. split_and!; [done|done| | |done].
      + simpl. f_equal. by rewrite (assoc (++)), take_drop.
      + simpl. rewrite length_take. lia. }
  destruct Hstep as (chunk & br1 & -> & Hl1 & Es & Hle & Hnil). destruct chunk as [|x chunk].
  { simpl in Es. exists br1. rewrite <- Es, Hnil by done. by rewrite drop_nil. }
  rewrite br_left_stream, Es, length_app in Hf. destruct (IH (S n - length (x :: chunk))%nat br1 Hl1) as (br2 & E & Hl2 & Hs2).
  { rewrite br_left_stream. simpl in Hf. lia. }
  cbn [length] in *. rewrite E. cbn [mbind outcome_bind]. exists br2. rewrite Es, Hs2. split_and!; [|done|].
  - rewrite take_app_ge by (simpl; lia). done.
  - rewrite drop_app_ge by (simpl; lia). done.
Qed.

Lemma br_read_line_live max br :
  live br → ∃ br', br_read_line max br = Ret ((line_of (max - 1) (stream br)).1, br') ∧ live br' ∧
    stream br' = (line_of (max - 1) (stream br)).2.
Proof. intros Hl. apply read_line_live; [done|lia]. Qed.

Lemma br_read_live n br :
  live br → ∃ br', br_read n br = Ret (take n (stream br), br') ∧ live br' ∧ stream br' = drop n (stream br).
Proof. intros Hl. apply read_body_live; [done|lia]. Qed.

Fixpoint headers_of (fuel : nat) (h : headers) (s : list ascii) : option (headers * list ascii) :=
  match fuel with
  | O => None
  | S fuel' =>
      let '(line, s) := line_of (LINE_SIZE - 1) s in
      match c_str line with [] => Some (h, s) | l => headers_of fuel' (header_line h l) s end
  end.

(** A line that is not empty takes bytes away. *)
Lemma line_of_shrinks room s : (line_of room s).1 ≠ [] → (length (line_of room s).2 < length s)%nat.
Proof.
  revert room. induction s as [|c s IH]; intros [|room]; try done. rewrite line_of_cons. cbn [length].
  destruct (Ascii.eqb c CR); [intros H; specialize (IH (S room) H); lia|]. destruct (Ascii.eqb c LF); [done|].
  pose proof (line_of_length room s). destruct (line_of room s). simpl in *. lia.
Qed.

Lemma c_str_cons_ne (line : list ascii) x l : c_str line = x :: l → line ≠ [].
Proof. by intros E ->. Qed.

Lemma headers_of_some fuel h s : (length s < fuel)%nat → is_Some (headers_of fuel h s).
Proof.
  revert h s. induction fuel as [|fuel IH]; intros h s Hf; [lia|]. cbn [headers_of].
  pose proof (line_of_shrinks (LINE_SIZE - 1) s) as Hs. destruct (line_of _ s) as [line s'] eqn:E. simpl in Hs.
  destruct (c_str line) as [|x l] eqn:Ec; [by eexists|]. apply IH.
  pose proof (Hs (c_str_cons_ne _ _ _ Ec)). lia.
Qed.

(** More fuel changes nothing. *)
Lemma headers_of_fuel fuel fuel' h s r : headers_of fuel h s = Some r → (fuel ≤ fuel')%nat → headers_of fuel' h s = Some r.
Proof.
  revert fuel' h s. induction fuel as [|fuel IH]; intros [|fuel'] h s; [done|done|lia|]. cbn [headers_of].
  destruct (line_of _ s) as [line s']. destruct (c_str line); [done|]. intros E Hle. apply IH; [done|lia].
Qed.

Lemma read_headers_live fuel h br :
  live br → (br_left br < fuel)%nat →
  ∃ h' s br', headers_of fuel h (stream br) = Some (h', s) ∧ read_headers fuel h br = Ret (h', br') ∧
    live br' ∧ stream br' = s.
Proof.
  revert h br. induction fuel as [|fuel IH]; intros h br Hl Hf; [lia|]. cbn [headers_of read_headers].
  destruct (br_read_line_live LINE_SIZE br Hl) as (br1 & -> & Hl1 & Hs1). cbn [mbind outcome_bind].
  pose proof (line_of_shrinks (LINE_SIZE - 1) (stream br)) as Hs. destruct (line_of _ (stream br)) as [line s'].
  simpl in *. destruct (c_str line) as [|x l] eqn:Ec; [by exists h, s', br1|]. rewrite <- Hs1. apply IH; [done|].
  rewrite br_left_stream in *. rewrite Hs1. pose proof (Hs (c_str_cons_ne _ _ _ Ec)). lia.
Qed.

(** [parse_request] on the bytes. *)
Definition parse_stream (arena : Z → bool) (max_body_size : Z) (s : list ascii) : option parsed :=
  let '(line, s) := line_of (LINE_SIZE - 1) s in
  '(method, rest) ← scan_word 15 (c_str line);
  '(target, _) ← scan_word 1023 rest;
  m ← method_of method;
  let '(path, query_params) := split_target arena target in
  '(h, s) ← headers_of (S (length s)) no_headers s;
  if (0 <? h_content_length h) && (0 <? max_body_size) && (max_body_size <? h_content_length h) then None
  else
    Some {| p_req := {| rq_method := m; rq_path := path; rq_client_ip := []; rq_query_params := query_params;
                        rq_auth_token := h_auth_token h; rq_origin := h_origin h; rq_dpop_proof := h_dpop_proof h;
                        rq_host := h_host h; rq_method_str := sso_strlcpy (Some method) 16;
                        rq_user_agent := h_user_agent h; rq_userdata := None |};
            p_body := if h_content_length h <=? 0 then None
                      else if negb (arena (u64 (h_content_length h + 1))) then None
                      else Some (match take (Z.to_nat (h_content_length h)) s with [] => None | b => Some b end) |}.

Lemma scan_word_nil n : scan_word n [] = None.
Proof. unfold scan_word. simpl. by rewrite take_nil. Qed.

Lemma parse_request_live arena max br :
  live br → ∃ br', parse_request arena max br = Ret (parse_stream arena max (stream br), br').
Proof.
  intros Hl. unfold parse_request, parse_stream.
  destruct (br_read_line_live LINE_SIZE br Hl) as (br1 & -> & Hl1 & Hs1). cbn [mbind outcome_bind].
  destruct (line_of _ (stream br)) as [line s']. cbn [fst snd] in *.
  destruct (decide (line = [])) as [->|Hne].
  { exists br1. cbn [c_str]. by rewrite scan_word_nil. }
  assert (Hline : ∀ A (a b : A), match line with [] => a | _ => b end = b) by (by destruct line). rewrite Hline.
  destruct (scan_word 15 (c_str line)) as [[method rest]|]; [|by exists br1]. cbn [mbind option_bind].
  destruct (scan_word 1023 rest) as [[target rest']|]; [|by exists br1]. cbn [mbind option_bind].
  destruct (method_of method) as [m|]; [|by exists br1]. cbn [mbind option_bind]. destruct (split_target arena target) as [path qp].
  destruct (read_headers_live (S (br_left br1)) no_headers br1 Hl1) as (h & s & br2 & Eh & -> & Hl2 & Hs2); [lia|].
  rewrite br_left_stream, Hs1 in Eh. rewrite Eh. cbn [mbind outcome_bind option_bind].
  destruct (_ && _ && _); [by exists br2|]. unfold read_content. destruct (h_content_length h <=? 0); [by exists br2|].
  destruct (negb (arena _)); [by exists br2|].
  destruct (br_read_live (Z.to_nat (h_content_length h)) br2 Hl2) as (br3 & -> & _). rewrite Hs2. exists br3. by destruct (take _ s).
Qed.

(** How a request is split over reads does not matter, and reading one
    always ends: connections that deliver the same bytes, in whatever
    pieces, are parsed into the same request, body included, or are both
    refused. *)
Theorem parse_segmentation arena max c1 c2 :
  Forall (λ a, a ≠ []) c1 → Forall (λ a, a ≠ []) c2 → concat c1 = concat c2 →
  ∃ r br1 br2, parse_request arena max (br_init c1) = Ret (r, br1) ∧ parse_request arena max (br_init c2) = Ret (r, br2).
Proof.
  intros H1 H2 E. destruct (parse_request_live arena max (br_init c1) H1) as [br1 E1].
  destruct (parse_request_live arena max (br_init c2) H2) as [br2 E2].
  exists (parse_stream arena max (concat c1)), br1, br2. split; [exact E1|]. rewrite E. exact E2.
Qed.

(* ------------------------------------------------------------------ *)
(** ** What a request can hold *)

Definition clean_char (c : ascii) : Prop := c ≠ NUL ∧ c ≠ CR ∧ c ≠ LF.
Definition clean (s : cstr) : Prop := Forall clean_char s.

Lemma clean_take n s : clean s → clean (take n s).
Proof. apply Forall_take. Qed.
Lemma clean_drop n s : clean s → clean (drop n s).
Proof. apply Forall_drop. Qed.
Lemma clean_skip f s : clean s → clean (skip_while f s).
Proof. intros Hs. rewrite <- (take_skip_while f s) in Hs. by apply Forall_app in Hs as [_ ?]. Qed.
Lemma clean_take_while f s : clean s → clean (take_while f s).
Proof. intros Hs. rewrite <- (take_skip_while f s) in Hs. by apply Forall_app in Hs as [? _]. Qed.
Lemma clean_rev s : clean s → clean (rev s).
Proof. by apply Forall_rev. Qed.
Lemma clean_strlcpy s n : clean s → clean (sso_strlcpy (Some s) n).
Proof. apply clean_take. Qed.

Create HintDb clean.
#[local] Hint Resolve clean_take clean_drop clean_skip clean_take_while clean_rev clean_strlcpy : clean.

Lemma header_value_spec size rest :
  clean rest → (0 < size)%nat → clean (header_value size rest) ∧ (length (header_value size rest) < size)%nat ∧
    (length (header_value size rest) ≤ length rest)%nat.
Proof.
  intros Hc Hn. unfold header_value. split; [auto 8 with clean|]. rewrite length_rev.
  set (v := sso_strlcpy _ size). pose proof (skip_while_length (char_in [" "%char; CR]) (rev v)) as H1.
  rewrite length_rev in H1. assert (H2 : length v = ((size - 1) `min` length (skip_while is_blank rest))%nat) by apply length_take.
  pose proof (skip_while_length is_blank rest) as H3. split; lia.
Qed.

Record headers_ok (h : headers) : Prop := {
  ho_token : clean (h_auth_token h) ∧ (length (h_auth_token h) ≤ 4076)%nat;
  ho_origin : clean (h_origin h) ∧ (length (h_origin h) < 256)%nat;
  ho_dpop : clean (h_dpop_proof h) ∧ (length (h_dpop_proof h) ≤ 4090)%nat;
  ho_host : clean (h_host h) ∧ (length (h_host h) < 256)%nat;
  ho_agent : clean (h_user_agent h) ∧ (length (h_user_agent h) < 512)%nat;
  ho_length : 0 ≤ h_content_length h < 2 ^ 63
}.

Lemma digits_val_nonneg s : 0 ≤ digits_val (take_while is_digit s).
Proof.
  unfold digits_val. assert (H : ∀ l a, 0 ≤ a → Forall (λ c, is_digit c = true) l → 0 ≤ fold_left (λ v c, 10 * v + (ord c - 48)) l a).
  { induction l as [|c l IH]; intros a Ha Hl; [done|]. apply Forall_cons in Hl as [Hc Hl]. apply IH; [|done].
    unfold is_digit in Hc. apply andb_true_iff in Hc as [Hc _]. apply Z.leb_le in Hc. lia. }
  apply H; [done|]. apply Forall_forall. intros c. apply elem_of_take_while.
Qed.

Lemma strtol_range s v : strtol s = Some v → v < 2 ^ 63.
Proof.
  unfold strtol. destruct (scan_sign _) as [neg s1]. pose proof (digits_val_nonneg s1) as Hx.
  destruct (take_while is_digit s1) as [|d ds]; [done|]. revert Hx. generalize (digits_val (d :: ds)). intros x Hx.
  intros E. apply (inj Some) in E as <-. destruct neg; lia.
Qed.

Lemma lower_prefix_length p s : lower_prefix p s = true → (length p ≤ length s)%nat.
Proof.
  unfold lower_prefix. intros [k E]%starts_with_iff. apply (f_equal length) in E. rewrite length_map, length_app in E. lia.
Qed.

Lemma header_line_ok h line :
  clean line → (length line ≤ 4095)%nat → headers_ok h → headers_ok (header_line h line).
Proof.
  intros Hc Hl [H1 H2 H3 H4 H5 H6]. unfold header_line.
  destruct (lower_prefix "content-length:" line).
  { destruct (strtol _) as [v|] eqn:Ev; [|done]. destruct (0 <=? v) eqn:Hv; [|done]. reflect_bools.
    apply strtol_range in Ev. by split. }
  destruct (lower_prefix "authorization:" line) eqn:Ha.
  { set (token := skip_while is_blank (drop 14 line)). assert (Ht : clean token) by (unfold token; auto with clean).
    assert (Hlt : (length token ≤ 4081)%nat).
    { unfold token. pose proof (skip_while_length is_blank (drop 14 line)). rewrite length_drop in H. lia. }
    assert (Hset : ∀ n, (5 ≤ n)%nat → (n ≤ length token)%nat →
      clean (sso_strlcpy (Some (drop n token)) SSO_MAX_TOKEN_STR) ∧
      (length (sso_strlcpy (Some (drop n token)) SSO_MAX_TOKEN_STR) ≤ 4076)%nat).
    { intros n Hn Hn'. split; [auto with clean|]. unfold sso_strlcpy. simpl default. rewrite length_take, length_drop. lia. }
    destruct (lower_prefix "bearer " token) eqn:Hb.
    { apply lower_prefix_length in Hb. split; [by apply Hset; [lia|]|assumption..]. }
    destruct (lower_prefix "dpop " token) eqn:Hd; [|done].
    apply lower_prefix_length in Hd. split; [by apply Hset; [lia|]|assumption..]. }
  assert (Hhv : ∀ n size, (0 < size)%nat → clean (header_value size (drop n line)) ∧
    (length (header_value size (drop n line)) < size)%nat ∧ (length (header_value size (drop n line)) ≤ 4095 - n)%nat).
  { intros n size Hsz. destruct (header_value_spec size (drop n line)) as (? & ? & Hle); [auto with clean|done|].
    rewrite length_drop in Hle. split_and!; [done|done|lia]. }
  destruct (lower_prefix "origin:" line).
  { destruct (Hhv 7%nat 256%nat) as (? & ? & _); [lia|]. by split. }
  destruct (lower_prefix "dpop:" line).
  { destruct (Hhv 5%nat 8192%nat) as (? & _ & ?); [apply Nat.ltb_lt; reflexivity|]. split; auto. }
  destruct (lower_prefix "host:" line).
  { destruct (Hhv 5%nat 256%nat) as (? & ? & _); [lia|]. by split. }
  destruct (lower_prefix "user-agent:" line); [|done].
  destruct (Hhv 11%nat 512%nat) as (? & ? & _); [lia|]. by split.
Qed.

Lemma read_line_chars fuel room br l br' :
  read_line fuel room br = Ret (l, br') → Forall (λ c, c ≠ CR ∧ c ≠ LF) l ∧ (length l ≤ room)%nat.
Proof.
  revert room br l br'. induction fuel as [|fuel IH]; intros room br l br'; destruct room as [|room]; cbn [read_line];
    try (by intros [= <- _]; split; [constructor|simpl; lia]); [done|].
  destruct (br_next br) as [[c|] br1]; [|by intros [= <- _]; split; [constructor|simpl; lia]].
  destruct (Ascii.eqb_spec c CR); [by intros ?%IH|]. destruct (Ascii.eqb_spec c LF).
  { intros [= <- _]. split; [constructor|simpl; lia]. }
  intros ([l1 br2] & Hr & E)%outcome_bind_inv. injection E as <- _. apply IH in Hr as [Hf Hl].
  split; [by constructor|simpl; lia].
Qed.

Lemma c_str_Forall (P : ascii → Prop) s : Forall P s → Forall (λ c, c ≠ NUL ∧ P c) (c_str s).
Proof.
  induction 1 as [|c s Hc Hs IH]; simpl; [constructor|]. destruct (Ascii.eqb_spec c NUL); [constructor|]. by constructor.
Qed.

Lemma c_str_length s : (length (c_str s) ≤ length s)%nat.
Proof. induction s as [|c s IH]; simpl; [lia|]. destruct (Ascii.eqb c NUL); simpl; lia. Qed.

Lemma line_clean br l br' :
  br_read_line LINE_SIZE br = Ret (l, br') → clean (c_str l) ∧ (length (c_str l) ≤ 4095)%nat.
Proof.
  intros [Hf Hl]%read_line_chars. split; [by apply c_str_Forall|]. pose proof (c_str_length l).
  unfold LINE_SIZE in Hl. lia.
Qed.

Lemma read_headers_ok fuel h br h' br' : headers_ok h → read_headers fuel h br = Ret (h', br') → headers_ok h'.
Proof.
  revert h br. induction fuel as [|fuel IH]; intros h br Hh; [done|]. cbn [read_headers].
  intros ([line br1] & Hr & E)%outcome_bind_inv. apply line_clean in Hr as [Hc Hl].
  destruct (c_str line) as [|x l]; [by injection E as <- <-|]. by apply IH in E; [|apply header_line_ok].
Qed.

Lemma scan_word_spec n s w rest :
  clean s → scan_word n s = Some (w, rest) →
  clean w ∧ clean rest ∧ Forall (λ c, is_space c = false) w ∧ (0 < length w ≤ n)%nat.
Proof.
  intros Hs. unfold scan_word. set (s' := skip_while is_space s). assert (Hs' : clean s') by (unfold s'; auto with clean).
  destruct (take n _) as [|x l] eqn:E; [done|]. intros [= <- <-]. rewrite <- E. split_and!; auto with clean.
  - apply Forall_take, Forall_forall. intros c Hc%elem_of_take_while. by apply negb_true_iff.
  - rewrite E. simpl. lia.
  - rewrite length_take. lia.
Qed.

Lemma split_target_spec arena target path params :
  clean target → Forall (λ c, is_space c = false) target → split_target arena target = (path, params) →
  clean path ∧ "?"%char ∉ path ∧ Forall (λ c, is_space c = false) path ∧ (length path ≤ length target)%nat ∧
  ∀ l, params = Some l → Forall (λ p, clean p ∧ p ≠ [] ∧ "&"%char ∉ p ∧ (length p < length target)%nat) l.
Proof.
  intros Hc Hsp. unfold split_target. destruct (strchr target "?") as [q|] eqn:Eq; intros [= <- <-].
  2: { split_and!; [done| |done|done|done]. intros Hin. unfold strchr in Eq. rewrite find_index_None, Forall_forall in Eq.
       apply Eq in Hin. done. }
  unfold strchr in Eq. pose proof (find_index_lt _ _ _ Eq) as Hlt. apply find_index_Some in Eq as (x & Hx & Hq & Hbefore).
  split_and!; [auto with clean| |by apply Forall_take|rewrite length_take; lia|].
  { intros (j & Hj)%list_elem_of_lookup. apply lookup_take_Some in Hj as [Hj Hji]. by apply Hbefore in Hj. }
  intros l. unfold query_params_of. destruct (arena _); [|done]. intros [= <-].
  assert (Hall : Forall (λ p, clean p ∧ p ≠ [] ∧ "&"%char ∉ p ∧ (length p < length target)%nat)
    (strtok_all "&" (drop (S q) target))).
  { apply Forall_forall. intros p [Hne Hin]%list_elem_of_filter. apply elem_of_split_on in Hin as (Hamp & a & b & E & _).
    assert (Hcd : clean (drop (S q) target)) by auto with clean. rewrite E in Hcd.
    apply Forall_app in Hcd as [_ [Hp _]%Forall_app]. split_and!; [done|done|done|].
    apply (f_equal length) in E. rewrite length_drop, !length_app in E. lia. }
  revert Hall. generalize (strtok_all "&" (drop (S q) target)). intros l Hall.
  induction Hall as [|p l Hp Hl IH]; cbn [copied_params]; [constructor|]. destruct (arena _); [by constructor|constructor].
Qed.

(** The texts of a request: none holds a NUL, a CR or an LF, all fit. *)
Record request_ok (r : http_request_t) : Prop := {
  ro_method : rq_method r ≠ HTTP_OPTIONS;
  ro_path : clean (rq_path r) ∧ Forall (λ c, is_space c = false) (rq_path r) ∧ "?"%char ∉ rq_path r ∧ (length (rq_path r) ≤ 1023)%nat;
  ro_params : ∀ l, rq_query_params r = Some l → Forall (λ p, clean p ∧ p ≠ [] ∧ "&"%char ∉ p ∧ (length p ≤ 1022)%nat) l;
  ro_token : clean (rq_auth_token r) ∧ (length (rq_auth_token r) ≤ 4076)%nat;
  ro_origin : clean (rq_origin r) ∧ (length (rq_origin r) < 256)%nat;
  ro_dpop : clean (rq_dpop_proof r) ∧ (length (rq_dpop_proof r) ≤ 4090)%nat;
  ro_host : clean (rq_host r) ∧ (length (rq_host r) < 256)%nat;
  ro_agent : clean (rq_user_agent r) ∧ (length (rq_user_agent r) < 512)%nat
}.

Lemma parse_request_fields arena max br r br' :
  parse_request arena max br = Ret (Some r, br') → request_ok (p_req r).
Proof.
  unfold parse_request. intros ([line br1] & Hline & E)%outcome_bind_inv. apply line_clean in Hline as [Hc _].
  assert (Hne : ∀ A (a b : A) x, match line with [] => a | _ => b end = x → x ≠ a → b = x) by (by destruct line).
  apply Hne in E; [|congruence]. clear Hne.
  destruct (scan_word 15 (c_str line)) as [[method rest]|] eqn:E1; [|done].
  apply scan_word_spec in E1 as (_ & Hc1 & _); [|done].
  destruct (scan_word 1023 rest) as [[target rest']|] eqn:E2; [|done].
  apply scan_word_spec in E2 as (Hc2 & _ & Hsp & Hlen); [|done].
  destruct (method_of method) as [m|] eqn:Em; [|done].
  destruct (split_target arena target) as [path params] eqn:Et. apply split_target_spec in Et as (P1 & P2 & P3 & P4 & P5); [|done|done].
  apply outcome_bind_inv in E as ([h br2] & Hh & E). apply read_headers_ok in Hh as [H1 H2 H3 H4 H5 _].
  2: { split; (split; [constructor|simpl; lia]) || (simpl; lia). }
  destruct (_ && _ && _); [done|]. apply outcome_bind_inv in E as ([body br3] & _ & E). injection E as <- _.
  split; simpl; try done.
  - intros ->. unfold method_of in Em. by repeat case_match.
  - split_and!; [done|done|done|lia].
  - intros l Hl. eapply Forall_impl; [by apply P5|]. simpl. intros p (? & ? & ? & ?). split_and!; [done|done|done|lia].
Qed.

(** C36. What reaches the handlers: a request that is parsed, from any
    connection, even one whose reads fail, is of one of the five methods
    the routes use (never OPTIONS), its path has no blank and no query,
    none of its texts holds a NUL, a CR or an LF, and all fit their
    arrays; a bearer token is at most 4076 characters long although
    tokens of up to 8191 are issued. *)
Theorem parse_request_bounds arena max br r br' :
  parse_request arena max br = Ret (Some r, br') → request_ok (p_req r).
Proof. apply parse_request_fields. Qed.

(* ------------------------------------------------------------------ *)
(** ** Requests as a client writes them *)

Record wire := {
  wi_method : cstr; wi_path : cstr; wi_params : list cstr; wi_token : cstr; wi_origin : cstr; wi_dpop : cstr;
  wi_host : cstr; wi_agent : cstr; wi_body : list ascii
}.

Fixpoint amps (l : list cstr) : cstr :=
  match l with [] => [] | [p] => p | p :: l => p ++ "&"%char :: amps l end.

Definition wire_target (w : wire) : cstr :=
  wi_path w ++ match wi_params w with [] => [] | l => "?"%char :: amps l end.

Definition header_lines (w : wire) : list cstr :=
  [ ("Host: " : cstr) ++ wi_host w; ("User-Agent: " : cstr) ++ wi_agent w; ("Authorization: Bearer " : cstr) ++ wi_token w;
    ("Origin: " : cstr) ++ wi_origin w; ("DPoP: " : cstr) ++ wi_dpop w;
    ("Content-Length: " : cstr) ++ print_dec (Z.of_nat (length (wi_body w))) ].

Definition crlf_lines (l : list cstr) : list ascii := concat (map (λ s, s ++ [CR; LF]) l).

Definition render_request (w : wire) : list ascii :=
  crlf_lines ((wi_method w ++ " "%char :: wire_target w ++ (" HTTP/1.1" : cstr)) :: header_lines w) ++ CR :: LF :: wi_body w.

(** A value that starts and ends with no blank, in an array of [n]. *)
Definition value_ok (n : nat) (v : cstr) : Prop :=
  clean v ∧ (length v < n)%nat ∧ head v ≠ Some " "%char ∧ last v ≠ Some " "%char.

Record wire_ok (w : wire) (m : http_method_t) : Prop := {
  wo_method : method_of (wi_method w) = Some m;
  wo_path : wi_path w ≠ [] ∧ clean (wire_target w) ∧ Forall (λ c, is_space c = false) (wire_target w) ∧
            "?"%char ∉ wi_path w ∧ (length (wire_target w) ≤ 1023)%nat;
  wo_params : Forall (λ p, p ≠ [] ∧ "&"%char ∉ p) (wi_params w);
  wo_token : clean (wi_token w) ∧ (length (wi_token w) ≤ 4072)%nat;
  wo_origin : value_ok 256 (wi_origin w); wo_dpop : value_ok 4089 (wi_dpop w); wo_host : value_ok 256 (wi_host w);
  wo_agent : value_ok 512 (wi_agent w); wo_body : Z.of_nat (length (wi_body w)) < 2 ^ 63
}.

Lemma line_of_crlf room l s :
  Forall (λ c, c ≠ CR ∧ c ≠ LF) l → (length l < room)%nat → line_of room (l ++ CR :: LF :: s) = (l, s).
Proof.
  intros Hl. revert room. induction Hl as [|c l [Hc1 Hc2] Hl IH]; intros [|room] Hr; simpl in Hr; try lia; [done|].
  change ((c :: l) ++ CR :: LF :: s) with (c :: (l ++ CR :: LF :: s)). rewrite line_of_cons.
  rewrite (proj2 (Ascii.eqb_neq c CR)), (proj2 (Ascii.eqb_neq c LF)) by done. by rewrite IH by lia.
Qed.

Lemma clean_no_crlf l : clean l → Forall (λ c, c ≠ CR ∧ c ≠ LF) l.
Proof. intros Hl. eapply Forall_impl; [exact Hl|]. by intros c (_ & ? & ?). Qed.
Lemma clean_c_str l : clean l → c_str l = l.
Proof. intros Hc. apply c_str_id. intros Hin. unfold clean in Hc. rewrite Forall_forall in Hc. by destruct (Hc _ Hin). Qed.

Lemma headers_of_lines ls h s fuel :
  Forall (λ l, clean l ∧ l ≠ [] ∧ (length l ≤ 4094)%nat) ls → (length ls < fuel)%nat →
  headers_of fuel h (crlf_lines ls ++ CR :: LF :: s) = Some (fold_left header_line ls h, s).
Proof.
  intros Hl. revert h fuel. induction Hl as [|l ls (Hc & Hne & Hlen) Hl IH]; intros h [|fuel] Hf; simpl in Hf; try lia.
  - cbn [headers_of crlf_lines map concat app fold_left]. 
    change (CR :: LF :: s) with ([] ++ CR :: LF :: s). rewrite line_of_crlf; [done|constructor|].
    apply Nat.ltb_lt. reflexivity.
  - cbn [headers_of]. change (crlf_lines (l :: ls)) with ((l ++ [CR; LF]) ++ crlf_lines ls).
    rewrite <- !(assoc (++)). change ([CR; LF] ++ ?x) with (CR :: LF :: x).
    rewrite line_of_crlf; [|by apply clean_no_crlf|change (LINE_SIZE - 1)%nat with 4095%nat; lia].
    rewrite clean_c_str by done. destruct l as [|c l]; [done|]. cbn [fold_left]. apply IH. lia.
Qed.

Lemma header_value_id n v : value_ok n v → header_value n (" "%char :: v) = v.
Proof.
  intros (Hc & Hlen & Hh & Hl). unfold header_value. cbn [skip_while is_blank Ascii.eqb]. simpl skip_while.
  replace (skip_while is_blank v) with v.
  2: { destruct v as [|c v]; [done|]. symmetry. apply skip_while_hd. apply Ascii.eqb_neq. intros ->. by apply Hh. }
  rewrite sso_strlcpy_fits by done. destruct (last v) as [c|] eqn:E; [|by apply last_None in E as ->].
  apply last_Some in E as [v' ->]. rewrite rev_app_distr. change (rev [c] ++ rev v') with (c :: rev v').
  rewrite skip_while_hd.
  - change (c :: rev v') with (rev [c] ++ rev v'). by rewrite <- rev_app_distr, rev_involutive.
  - unfold char_in. cbn [existsb]. unfold clean in Hc. rewrite Forall_app, Forall_singleton in Hc.
    destruct Hc as [_ (_ & Hcr & _)]. rewrite (proj2 (Ascii.eqb_neq c CR)) by done.
    rewrite (proj2 (Ascii.eqb_neq c " ")); [done|]. intros ->. by apply Hl.
Qed.

Lemma strtol_print n : 0 ≤ n < 2 ^ 63 → strtol (" "%char :: print_dec n) = Some n.
Proof.
  intros Hn. destruct (print_dec_spec n) as (Hne & Hd & Hv); [lia|].
  destruct (scan_digits _ [] Hne Hd I) as (E1 & E2 & _). rewrite app_nil_r in *. unfold strtol.
  change (skip_while is_space (" "%char :: print_dec n)) with (skip_while is_space (print_dec n)). rewrite E1, E2.
  destruct (print_dec n) as [|c ds]; [done|]. rewrite Hv. f_equal. lia.
Qed.

(** The six lines set their fields. *)
Lemma header_lines_read w m :
  wire_ok w m →
  fold_left header_line (header_lines w) no_headers =
    {| h_content_length := Z.of_nat (length (wi_body w)); h_auth_token := wi_token w; h_origin := wi_origin w;
       h_dpop_proof := wi_dpop w; h_host := wi_host w; h_user_agent := wi_agent w |}.
Proof.
  intros [_ _ _ [Ht1 Ht2] Ho Hd Hh Ha Hb]. unfold header_lines. cbn [fold_left].
  assert (E1 : ∀ h v, header_line h (("Host: " : cstr) ++ v) =
    {| h_content_length := h_content_length h; h_auth_token := h_auth_token h; h_origin := h_origin h;
       h_dpop_proof := h_dpop_proof h; h_host := header_value 256 (" "%char :: v); h_user_agent := h_user_agent h |}) by done.
  assert (E2 : ∀ h v, header_line h (("User-Agent: " : cstr) ++ v) =
    {| h_content_length := h_content_length h; h_auth_token := h_auth_token h; h_origin := h_origin h;
       h_dpop_proof := h_dpop_proof h; h_host := h_host h; h_user_agent := header_value 512 (" "%char :: v) |}) by done.
  assert (E3 : ∀ h v, header_line h (("Authorization: Bearer " : cstr) ++ v) =
    {| h_content_length := h_content_length h; h_auth_token := sso_strlcpy (Some v) SSO_MAX_TOKEN_STR; h_origin := h_origin h;
       h_dpop_proof := h_dpop_proof h; h_host := h_host h; h_user_agent := h_user_agent h |}) by done.
  assert (E4 : ∀ h v, header_line h (("Origin: " : cstr) ++ v) =
    {| h_content_length := h_content_length h; h_auth_token := h_auth_token h; h_origin := header_value 256 (" "%char :: v);
       h_dpop_proof := h_dpop_proof h; h_host := h_host h; h_user_agent := h_user_agent h |}) by done.
  assert (E5 : ∀ h v, header_line h (("DPoP: " : cstr) ++ v) =
    {| h_content_length := h_content_length h; h_auth_token := h_auth_token h; h_origin := h_origin h;
       h_dpop_proof := header_value 8192 (" "%char :: v); h_host := h_host h; h_user_agent := h_user_agent h |}) by done.
  assert (E6 : ∀ h v, header_line h (("Content-Length: " : cstr) ++ v) =
    match strtol (" "%char :: v) with
    | Some n => if 0 <=? n then
        {| h_content_length := n; h_auth_token := h_auth_token h; h_origin := h_origin h;
           h_dpop_proof := h_dpop_proof h; h_host := h_host h; h_user_agent := h_user_agent h |} else h
    | None => h end) by done.
  rewrite E1, E2, E3, E4, E5, E6. cbn [h_content_length h_auth_token h_origin h_dpop_proof h_host h_user_agent no_headers].
  rewrite strtol_print by lia. rewrite (proj2 (Z.leb_le 0 _)) by lia.
  assert (H8 : (4089 ≤ 8192)%nat) by (apply Nat.leb_le; reflexivity).
  assert (Hd' : value_ok 8192 (wi_dpop w)) by (destruct Hd as (? & ? & ? & ?); split_and!; [done|lia|done|done]).
  rewrite !header_value_id by done. rewrite sso_strlcpy_fits; [done|].
  assert (H9 : (4072 < SSO_MAX_TOKEN_STR)%nat) by (apply Nat.ltb_lt; reflexivity). lia.
Qed.

Lemma scan_word_app n w rest :
  w ≠ [] → Forall (λ c, is_space c = false) w → (length w ≤ n)%nat →
  match rest with c :: _ => is_space c = true | [] => True end →
  scan_word n (" "%char :: w ++ rest) = Some (w, rest) ∧ scan_word n (w ++ rest) = Some (w, rest).
Proof.
  intros Hne Hw Hn Hr.
  assert (Hskip : skip_while is_space (w ++ rest) = w ++ rest).
  { destruct w as [|c w]; [done|]. apply Forall_cons in Hw as [Hc _]. by apply skip_while_hd. }
  assert (E : take_while (λ c, negb (is_space c)) (w ++ rest) = w).
  { rewrite take_while_app by (eapply Forall_impl; [exact Hw|]; by intros c ->).
    destruct rest as [|c rest]; simpl; [by rewrite app_nil_r|]. by rewrite Hr, app_nil_r. }
  unfold scan_word. change (skip_while is_space (" "%char :: w ++ rest)) with (skip_while is_space (w ++ rest)).
  rewrite Hskip, E, take_ge by done. destruct w as [|c w]; [done|]. by rewrite drop_app_length.
Qed.

Lemma strtok_amps l : Forall (λ p, p ≠ [] ∧ "&"%char ∉ p) l → strtok_all "&" (amps l) = l.
Proof.
  intros Hl. induction Hl as [|p l (Hp & Ha) Hl IH]; [done|]. destruct l as [|q l].
  - unfold strtok_all. cbn [amps]. rewrite split_on_single by done. by rewrite filter_cons_True.
  - change (amps (p :: q :: l)) with (p ++ "&"%char :: amps (q :: l)). unfold strtok_all in *.
    rewrite split_on_app by done. rewrite filter_cons_True by done. by rewrite IH.
Qed.

Lemma copied_all arena l : (∀ n, arena n = true) → copied_params arena l = l.
Proof. intros Ha. induction l as [|p l IH]; simpl; [done|]. by rewrite Ha, IH. Qed.

Lemma split_target_wire arena w m :
  wire_ok w m → (∀ n, arena n = true) →
  split_target arena (wire_target w) = (wi_path w, match wi_params w with [] => None | l => Some l end).
Proof.
  intros [_ (_ & _ & _ & Hq & _) Hp _ _ _ _ _ _] Ha. unfold split_target, wire_target.
  destruct (wi_params w) as [|p l] eqn:E.
  - rewrite app_nil_r. by rewrite strchr_None.
  - rewrite strchr_app by done. rewrite take_app_length.
    assert (Hd : ∀ q : cstr, drop (S (length (wi_path w))) (wi_path w ++ "?"%char :: q) = q).
    { intros q. by rewrite drop_app_ge, Nat.sub_succ_l, Nat.sub_diag by lia. }
    rewrite Hd. unfold query_params_of. rewrite Ha, copied_all by done. by rewrite (strtok_amps _ Hp).
Qed.

Lemma clean_app a b : clean (a ++ b) ↔ clean a ∧ clean b.
Proof. apply Forall_app. Qed.

Lemma clean_text (s : cstr) : forallb (λ c, negb (char_in [NUL; CR; LF] c)) s = true → clean s.
Proof.
  intros Hs. apply Forall_forall. intros c Hc. rewrite forallb_forall in Hs. apply list_elem_of_In, Hs in Hc.
  unfold char_in in Hc. cbn [existsb] in Hc. rewrite !negb_orb, !andb_true_iff in Hc. destruct Hc as (H1 & H2 & H3 & _).
  split_and!; intros ->; by vm_compute in H1, H2, H3.
Qed.

Lemma method_of_word meth m :
  method_of meth = Some m → meth ≠ [] ∧ clean meth ∧ Forall (λ c, is_space c = false) meth ∧ (length meth ≤ 15)%nat.
Proof.
  intros Hm. assert (Hin : meth ∈ map list_ascii_of_string ["GET"; "POST"; "PUT"; "DELETE"; "PATCH"]%string).
  { unfold method_of, strcmp_eq in Hm. cbn [map]. rewrite !elem_of_cons. repeat case_bool_decide; naive_solver. }
  cbn [map] in Hin. rewrite !elem_of_cons in Hin.
  destruct Hin as [->|[->|[->|[->|[->|?%not_elem_of_nil]]]]]; [..|done];
    (split_and!; [done|by apply clean_text|repeat constructor|simpl; lia]).
Qed.

Lemma print_dec_clean n : 0 ≤ n → clean (print_dec n).
Proof.
  intros Hn. destruct (print_dec_spec n Hn) as (_ & Hd & _). eapply Forall_impl; [exact Hd|]. intros c Hc.
  split_and!; intros ->; by vm_compute in Hc.
Qed.

Lemma print_dec_short n : 0 ≤ n < 2 ^ 63 → (length (print_dec n) ≤ 20)%nat.
Proof.
  intros Hn. pose proof (print_dec_loop_length (S (Z.to_nat (Z.log2 n))) 19 n [] ltac:(simpl; lia)) as Hl.
  simpl in Hl. exact Hl.
Qed.

Lemma header_lines_wf w m :
  wire_ok w m → Forall (λ l, clean l ∧ l ≠ [] ∧ (length l ≤ 4094)%nat) (header_lines w).
Proof.
  intros [_ _ _ [Ht1 Ht2] (Ho1 & Ho2 & _) (Hd1 & Hd2 & _) (Hh1 & Hh2 & _) (Ha1 & Ha2 & _) Hb].
  assert (H : ∀ (p v : cstr) n, forallb (λ c, negb (char_in [NUL; CR; LF] c)) p = true → p ≠ [] → clean v →
    (length v ≤ n)%nat → (length p + n ≤ 4094)%nat → clean (p ++ v) ∧ p ++ v ≠ [] ∧ (length (p ++ v) ≤ 4094)%nat).
  { intros p v n Hp Hne Hv Hn Hl. split_and!; [by apply clean_app; split; [apply clean_text|]|by destruct p|].
    rewrite length_app. lia. }
  unfold header_lines. repeat apply Forall_cons_2; [..|apply Forall_nil_2].
  - by apply (H _ _ 256%nat); [..|lia|simpl; lia].
  - by apply (H _ _ 512%nat); [..|lia|simpl; lia].
  - by apply (H _ _ 4072%nat); [..|simpl; lia].
  - by apply (H _ _ 256%nat); [..|lia|simpl; lia].
  - by apply (H _ _ 4088%nat); [..|lia|simpl; lia].
  - apply (H _ _ 20%nat); [done|done|apply print_dec_clean; lia|apply print_dec_short; lia|simpl; lia].
Qed.

Lemma crlf_lines_length ls : (2 * length ls ≤ length (crlf_lines ls))%nat.
Proof.
  unfold crlf_lines. induction ls as [|l ls IH]; simpl; [lia|]. rewrite !length_app. simpl. lia.
Qed.

(** What the parser makes of the rendered request. *)
Definition wire_request (w : wire) (m : http_method_t) : parsed :=
  {| p_req := {| rq_method := m; rq_path := wi_path w; rq_client_ip := [];
                 rq_query_params := match wi_params w with [] => None | l => Some l end; rq_auth_token := wi_token w;
                 rq_origin := wi_origin w; rq_dpop_proof := wi_dpop w; rq_host := wi_host w;
                 rq_method_str := wi_method w; rq_user_agent := wi_agent w; rq_userdata := None |};
     p_body := match wi_body w with [] => None | b => Some (Some b) end |}.

Lemma parse_wire arena max w m c :
  wire_ok w m → (∀ n, arena n = true) → max ≤ 0 ∨ Z.of_nat (length (wi_body w)) ≤ max →
  Forall (λ a, a ≠ []) c → concat c = render_request w →
  ∃ br, parse_request arena max (br_init c) = Ret (Some (wire_request w m), br).
Proof.
  intros Hw Ha Hmax Hc Ec. destruct (parse_request_live arena max (br_init c) Hc) as [br ->]. exists br. do 2 f_equal.
  change (stream (br_init c)) with (concat c). rewrite Ec. clear c Hc Ec.
  destruct (method_of_word _ _ (wo_method _ _ Hw)) as (M1 & M2 & M3 & M4).
  destruct (wo_path _ _ Hw) as (P1 & P2 & P3 & _ & P5).
  unfold parse_stream, render_request.
  set (line := wi_method w ++ " "%char :: wire_target w ++ (" HTTP/1.1" : cstr)).
  change (crlf_lines (line :: header_lines w)) with ((line ++ [CR; LF]) ++ crlf_lines (header_lines w)).
  rewrite <- !(assoc (++)). change ([CR; LF] ++ ?x) with (CR :: LF :: x).
  assert (Hline : clean line).
  { apply clean_app. split; [done|]. apply Forall_cons. split; [by split_and!|]. apply clean_app. split; [done|by apply clean_text]. }
  assert (Htne : wire_target w ≠ []) by (unfold wire_target; by destruct (wi_path w)).
  rewrite line_of_crlf; [|by apply clean_no_crlf|].
  2: { unfold line. rewrite length_app. cbn [length]. rewrite length_app. change (LINE_SIZE - 1)%nat with 4095%nat. simpl. lia. }
  rewrite clean_c_str by done. unfold line. destruct (scan_word_app 15 (wi_method w) (" "%char :: wire_target w ++ (" HTTP/1.1" : cstr)))
    as [_ ->]; [done..|]. cbn [mbind option_bind].
  destruct (scan_word_app 1023 (wire_target w) (" HTTP/1.1" : cstr)) as [-> _]; [done..|]. cbn [mbind option_bind].
  rewrite (wo_method _ _ Hw). cbn [mbind option_bind]. rewrite (split_target_wire arena w m) by done.
  rewrite (headers_of_fuel 7 _ _ _ _ (headers_of_lines _ no_headers (wi_body w) 7 (header_lines_wf w m Hw) ltac:(simpl; lia))).
  2: { pose proof (crlf_lines_length (header_lines w)) as Hl. rewrite length_app. simpl length in Hl at 1. lia. }
  rewrite (header_lines_read w m Hw). cbn [mbind option_bind h_content_length h_auth_token h_origin h_dpop_proof h_host h_user_agent].
  assert (Hsize : (0 <? Z.of_nat (length (wi_body w))) && (0 <? max) && (max <? Z.of_nat (length (wi_body w))) = false).
  { destruct Hmax; destruct (0 <? max) eqn:?, (max <? _) eqn:?; reflect_bools; try lia; by rewrite ?andb_false_r. }
  rewrite Hsize. unfold wire_request. rewrite sso_strlcpy_fits by lia. do 2 f_equal.
  rewrite Nat2Z.id, take_ge, Ha by lia. destruct (wi_body w) as [|b body]; [done|]. cbn [length].
  by rewrite (proj2 (Z.leb_gt _ _)) by lia.
Qed.

(** C11. Round trip: a request a client renders (a request line with path
    and parameters, the headers the server reads, and a body announced by
    its length) is read back field by field, over any connection that
    delivers it, in whatever pieces, as long as the values fit what the
    server keeps and the body is not larger than allowed. *)
Theorem parse_render arena max w m c :
  wire_ok w m → (∀ n, arena n = true) → max ≤ 0 ∨ Z.of_nat (length (wi_body w)) ≤ max →
  Forall (λ a, a ≠ []) c → concat c = render_request w →
  ∃ br, parse_request arena max (br_init c) = Ret (Some (wire_request w m), br).
Proof. apply parse_wire. Qed.

Definition sample_wire : wire :=
  {| wi_method := "POST"; wi_path := "/api/v1/users"; wi_params := ["page=2" : cstr; "limit=5" : cstr]; wi_token := "h.p.s";
     wi_origin := "https://app"; wi_dpop := []; wi_host := "acme.example.com"; wi_agent := "curl/8"; wi_body := "{}" |}.
Definition sample_bytes : list ascii := Eval vm_compute in render_request sample_wire.

(** The request in pieces of [n] bytes. *)
Fixpoint pieces (fuel n : nat) (s : list ascii) : conn :=
  match fuel, s with
  | S fuel, _ :: _ => take n s :: pieces fuel n (drop n s)
  | _, _ => []
  end.
Definition two_reads : conn := [take 9 sample_bytes; drop 9 sample_bytes].

Lemma sample_wire_ok : wire_ok sample_wire HTTP_POST.
Proof.
  split; try (split_and!; [by apply clean_text|apply Nat.ltb_lt; reflexivity|done|done]).
  - reflexivity.
  - split_and!; [done|by apply clean_text|repeat constructor| |apply Nat.leb_le; reflexivity].
    intros Hin. apply (bool_decide_eq_true_2 _) in Hin. by vm_compute in Hin.
  - repeat apply Forall_cons_2; [..|constructor]; (split; [done|]);
      intros Hin; apply (bool_decide_eq_true_2 _) in Hin; by vm_compute in Hin.
  - split; [by apply clean_text|apply Nat.leb_le; reflexivity].
  - vm_compute. reflexivity.
Qed.

Lemma parse_segmentation_witness :
  ∃ r br1 br2, parse_request (λ _, true) 0 (br_init two_reads) = Ret (r, br1) ∧
    parse_request (λ _, true) 0 (br_init (pieces 300 1 sample_bytes)) = Ret (r, br2).
Proof.
  apply (parse_segmentation (λ _, true) 0 two_reads (pieces 300 1 sample_bytes)).
  - repeat constructor; discriminate.
  - apply (bool_decide_unpack _). vm_compute. exact I.
  - vm_compute. reflexivity.
Defined.

Lemma parse_render_witness :
  ∃ br, parse_request (λ _, true) 4 (br_init two_reads) = Ret (Some (wire_request sample_wire HTTP_POST), br).
Proof.
  apply (parse_render (λ _, true) 4 sample_wire HTTP_POST two_reads).
  - exact sample_wire_ok.
  - reflexivity.
  - right. vm_compute. discriminate.
  - repeat constructor; discriminate.
  - vm_compute. reflexivity.
Defined.

Lemma sample_parses : ∃ r br, parse_request (λ _, true) 4 (br_init [sample_bytes]) = Ret (Some r, br).
Proof. eexists _, _. vm_compute. reflexivity. Qed.

Lemma parse_request_bounds_witness :
  ∃ r br, parse_request (λ _, true) 4 (br_init [sample_bytes]) = Ret (Some r, br) ∧ request_ok (p_req r).
Proof.
  destruct sample_parses as (r & br & E). exists r, br. split; [exact E|].
  apply (parse_request_bounds (λ _, true) 4 (br_init [sample_bytes]) r br). exact E.
Defined.
