(* ===== verification/Pool.v ===== *)
(** * The worker pool (src/server.c: thread_pool_t)

    A ring of accepted connections between the accepting thread and the
    workers.  Each critical section of the pool's lock is one step of a
    transition system; a worker blocked on the condition variable has no
    step.  The theorems: the ring is a bounded queue and no connection is
    lost, served twice or out of order, whatever the interleaving; and
    after a shutdown the workers serve what is queued and end. *)

From S2P Require Import Prelude CLib Printf.

(** [t_conn] names the connection. *)
Record task_t := { t_conn : nat; t_client_ip : cstr }.
#[global] Instance task_eq_dec : EqDecision task_t.
Proof. solve_decision. Defined.
Definition zero_task : task_t := {| t_conn := 0; t_client_ip := [] |}.

Record thread_pool_t := {
  queue : list task_t; pool_size : nat; queue_size : nat; head : nat; tail : nat; count : nat; stop : bool
}.

(** [pool_init] on the two settings; [gets] tells whether the two arrays
    are found. *)
Definition pool_init (gets : bool) (pool_size queue_size : Z) : thread_pool_t :=
  let pool_size := if pool_size <? 1 then 1 else pool_size in
  let pool_size := if 256 <? pool_size then 256 else pool_size in
  let queue_size := if queue_size <? 1 then 1 else queue_size in
  if gets then
    {| queue := replicate (Z.to_nat queue_size) zero_task; pool_size := Z.to_nat pool_size;
       queue_size := Z.to_nat queue_size; head := 0; tail := 0; count := 0; stop := false |}
  else {| queue := []; pool_size := 0; queue_size := 0; head := 0; tail := 0; count := 0; stop := false |}.

(** [pool_submit]: is the connection kept?  It is closed otherwise. *)
Definition pool_submit (conn : nat) (client_ip : cstr) (p : thread_pool_t) : bool * thread_pool_t :=
  if (count p <? queue_size p)%nat then
    (true, {| queue := <[tail p := {| t_conn := conn; t_client_ip := snprintf 64 client_ip |}]> (queue p);
              pool_size := pool_size p; queue_size := queue_size p; head := head p;
              tail := (tail p + 1) `mod` queue_size p; count := count p + 1; stop := stop p |})
  else (false, p).

(** What a worker finds when it holds the lock. *)
Inductive found := Wait | Leave | Take (t : task_t) (p : thread_pool_t).

Definition worker_look (p : thread_pool_t) : found :=
  if (count p =? 0)%nat then (if stop p then Leave else Wait)
  else
    Take (nth (head p) (queue p) zero_task)
      {| queue := queue p; pool_size := pool_size p; queue_size := queue_size p;
         head := (head p + 1) `mod` queue_size p; tail := tail p; count := count p - 1; stop := stop p |}.

Definition pool_shutdown (p : thread_pool_t) : thread_pool_t :=
  {| queue := queue p; pool_size := pool_size p; queue_size := queue_size p; head := head p; tail := tail p;
     count := count p; stop := true |}.

(* ------------------------------------------------------------------ *)
(** ** The system *)

Inductive worker := Looking | Serving (t : task_t) | Ended.
#[global] Instance worker_eq_dec : EqDecision worker.
Proof. solve_decision. Defined.

(** The pool, its workers, and the connections submitted and kept, closed
    at once, taken by a worker, and answered, each in order. *)
Record system := {
  sy_pool : thread_pool_t; sy_workers : list worker; sy_kept : list task_t; sy_closed : list nat;
  sy_taken : list task_t; sy_answered : list task_t
}.

Definition sys_init (gets : bool) (pool_size queue_size : Z) : system :=
  let p := pool_init gets pool_size queue_size in
  {| sy_pool := p; sy_workers := replicate (Pool.pool_size p) Looking; sy_kept := []; sy_closed := []; sy_taken := [];
     sy_answered := [] |}.

(** The acceptor submits until it shuts the pool down. *)
Inductive submit_step : system → system → Prop :=
| submit s conn client_ip kept p :
    stop (sy_pool s) = false → pool_submit conn client_ip (sy_pool s) = (kept, p) →
    submit_step s
      {| sy_pool := p; sy_workers := sy_workers s;
         sy_kept := if kept : bool then sy_kept s ++ [{| t_conn := conn; t_client_ip := snprintf 64 client_ip |}] else sy_kept s;
         sy_closed := if kept then sy_closed s else sy_closed s ++ [conn];
         sy_taken := sy_taken s; sy_answered := sy_answered s |}
| shutdown s :
    stop (sy_pool s) = false →
    submit_step s {| sy_pool := pool_shutdown (sy_pool s); sy_workers := sy_workers s; sy_kept := sy_kept s;
                     sy_closed := sy_closed s; sy_taken := sy_taken s; sy_answered := sy_answered s |}.

(** A worker takes a task, answers it, or ends. *)
Inductive worker_step : system → system → Prop :=
| take_task s w t p :
    sy_workers s !! w = Some Looking → worker_look (sy_pool s) = Take t p →
    worker_step s {| sy_pool := p; sy_workers := <[w := Serving t]> (sy_workers s); sy_kept := sy_kept s;
                     sy_closed := sy_closed s; sy_taken := sy_taken s ++ [t]; sy_answered := sy_answered s |}
| answer_task s w t :
    sy_workers s !! w = Some (Serving t) →
    worker_step s {| sy_pool := sy_pool s; sy_workers := <[w := Looking]> (sy_workers s); sy_kept := sy_kept s;
                     sy_closed := sy_closed s; sy_taken := sy_taken s; sy_answered := sy_answered s ++ [t] |}
| end_worker s w :
    sy_workers s !! w = Some Looking → worker_look (sy_pool s) = Leave →
    worker_step s {| sy_pool := sy_pool s; sy_workers := <[w := Ended]> (sy_workers s); sy_kept := sy_kept s;
                     sy_closed := sy_closed s; sy_taken := sy_taken s; sy_answered := sy_answered s |}.

Definition step (s s' : system) : Prop := submit_step s s' ∨ worker_step s s'.

(* ================================================================== *)
(** ** The ring as a queue *)

(** The tasks from the head on. *)
Definition pending (p : thread_pool_t) : list task_t :=
  map (λ i, nth ((head p + i) `mod` queue_size p) (queue p) zero_task) (seq 0 (count p)).

Record pool_wf (p : thread_pool_t) : Prop := {
  pf_length : length (queue p) = queue_size p;
  pf_count : (count p ≤ queue_size p)%nat;
  pf_head : queue_size p = O ∨ (head p < queue_size p)%nat;
  pf_tail : queue_size p = O ∨ tail p = ((head p + count p) `mod` queue_size p)%nat
}.

Lemma pool_init_wf gets ps qs : pool_wf (pool_init gets ps qs).
Proof.
  unfold pool_init. destruct gets; [|by split; [|simpl; lia|left|left]].
  set (q := if qs <? 1 then 1 else qs). assert (Hq : 1 ≤ q) by (unfold q; destruct (qs <? 1) eqn:?; reflect_bools; lia).
  split; simpl; [by rewrite length_replicate|lia|right; lia|right].
  by rewrite Nat.Div0.mod_0_l.
Qed.

(** Two slots of the ring differ. *)
Lemma slot_ne h i n q : (i < n)%nat → (n < q)%nat → ((h + i) `mod` q ≠ (h + n) `mod` q)%nat.
Proof.
  intros Hi Hn E. pose proof (Nat.div_mod_eq (h + i) q). pose proof (Nat.div_mod_eq (h + n) q).
  assert ((h + n) / q = (h + i) / q ∨ (h + i) / q < (h + n) / q ∨ (h + n) / q < (h + i) / q)%nat as [?|[?|?]] by lia; nia.
Qed.

Lemma nth_insert_ne {A} (l : list A) i j x d : i ≠ j → nth j (<[i := x]> l) d = nth j l d.
Proof. intros Hne. rewrite !nth_lookup. by rewrite list_lookup_insert_ne. Qed.
Lemma nth_insert_eq {A} (l : list A) i x d : (i < length l)%nat → nth i (<[i := x]> l) d = x.
Proof. intros Hi. rewrite nth_lookup. by rewrite list_lookup_insert_eq. Qed.

(** Submitting appends to the queue, or leaves a full one. *)
Lemma pool_submit_spec conn ip p :
  pool_wf p →
  let t := {| t_conn := conn; t_client_ip := snprintf 64 ip |} in
  ∃ kept p', pool_submit conn ip p = (kept, p') ∧ pool_wf p' ∧ stop p' = stop p ∧ queue_size p' = queue_size p ∧
    kept = (length (pending p) <? queue_size p)%nat ∧
    pending p' = pending p ++ (if kept then [t] else []).
Proof.
  intros [W1 W2 W3 W4] t. unfold pool_submit. unfold pending at 1. rewrite length_map, length_seq.
  destruct (_ <? _)%nat eqn:Hc.
  2: { eexists _, _. split_and!; try done. by rewrite app_nil_r. }
  apply Nat.ltb_lt in Hc. destruct W3 as [?|W3]; [lia|]. destruct W4 as [?|W4]; [lia|].
  eexists _, _. split; [done|]. split; [|split_and!; [done|done|done|]].
  - split; simpl; [by rewrite length_insert|lia|by right|right].
    rewrite W4, Nat.Div0.add_mod_idemp_l. f_equal. lia.
  - unfold pending. simpl. rewrite Nat.add_1_r, seq_S, map_app. simpl. f_equal.
    + apply map_ext_in. intros i Hi. apply in_seq in Hi. apply nth_insert_ne. rewrite W4.
      intros E. symmetry in E. revert E. apply slot_ne; lia.
    + rewrite <- W4. by rewrite nth_insert_eq by (rewrite W1, W4; apply Nat.mod_upper_bound; lia).
Qed.

(** Looking takes the first task of the queue. *)
Lemma worker_look_spec p :
  pool_wf p →
  match worker_look p with
  | Wait => pending p = [] ∧ stop p = false
  | Leave => pending p = [] ∧ stop p = true
  | Take t p' => pending p = t :: pending p' ∧ pool_wf p' ∧ stop p' = stop p ∧ queue_size p' = queue_size p
  end.
Proof.
  intros [W1 W2 W3 W4]. unfold worker_look. destruct (_ =? _)%nat eqn:Hc.
  { apply Nat.eqb_eq in Hc. assert (Hp : pending p = []) by (unfold pending; by rewrite Hc). by destruct (stop p). }
  apply Nat.eqb_neq in Hc. destruct W3 as [?|W3]; [lia|]. destruct W4 as [?|W4]; [lia|]. split; [|split; [|done]].
  - unfold pending. cbn [head count queue queue_size]. destruct (count p) as [|c]; [done|]. cbn [seq map].
    rewrite Nat.add_0_r, (Nat.mod_small (head p)) by done. f_equal. rewrite Nat.sub_1_r. cbn [Nat.pred].
    rewrite <- seq_shift, map_map. apply map_ext. intros i. f_equal. rewrite Nat.Div0.add_mod_idemp_l. f_equal. lia.
  - split; simpl; [done|lia|right; apply Nat.mod_upper_bound; lia|right].
    rewrite W4, Nat.Div0.add_mod_idemp_l. f_equal. lia.
Qed.

(* ------------------------------------------------------------------ *)
(** ** Nothing is lost *)

Definition serving (ws : list worker) : list task_t := omap (λ w, match w with Serving t => Some t | _ => None end) ws.

Record sys_wf (s : system) : Prop := {
  yf_pool : pool_wf (sy_pool s);
  yf_fifo : sy_kept s = sy_taken s ++ pending (sy_pool s);
  yf_taken : sy_taken s ≡ₚ sy_answered s ++ serving (sy_workers s);
  yf_ended : Ended ∈ sy_workers s → stop (sy_pool s) = true ∧ pending (sy_pool s) = []
}.

Lemma serving_insert ws w x y :
  ws !! w = Some x →
  serving (<[w := y]> ws) ++ serving [x] ≡ₚ serving ws ++ serving [y].
Proof.
  intros Hw. rewrite insert_take_drop by (by eapply lookup_lt_Some).
  pose proof (take_drop_middle _ _ _ Hw) as E. rewrite <- E at 3. unfold serving. rewrite !omap_app.
  change (omap ?f (?a :: ?l)) with (omap f ([a] ++ l)). rewrite !omap_app. solve_Permutation.
Qed.

Lemma elem_of_insert_ne {A} (l : list A) i x y : x ∈ <[i := y]> l → x ≠ y → x ∈ l.
Proof.
  intros (j & Hj)%list_elem_of_lookup Hne. apply list_lookup_insert_Some in Hj as [(-> & -> & _)|[_ Hj]]; [done|].
  by eapply list_elem_of_lookup_2.
Qed.

Lemma sys_init_wf gets ps qs : sys_wf (sys_init gets ps qs).
Proof.
  assert (Hp : ∀ n, serving (replicate n Looking) = []) by (induction n; [done|simpl; done]).
  split; simpl.
  - apply pool_init_wf.
  - unfold pending. unfold pool_init. by destruct gets.
  - by rewrite Hp.
  - intros [? ?]%elem_of_replicate. done.
Qed.

Lemma step_wf s s' : sys_wf s → step s s' → sys_wf s'.
Proof.
  intros [W1 W2 W3 W4] [Hs|Hs];
    [destruct Hs as [s conn ip kept p Hst Hp|s Hst]|destruct Hs as [s w t p Hw Hl|s w t Hw|s w Hw Hl]].
  - destruct (pool_submit_spec conn ip _ W1) as (k & p' & E & Hwf & Hstop & _ & Hk & Hpend). rewrite Hp in E. injection E as <- <-.
    split; simpl; [done| |done|intros Hin; by destruct (W4 Hin); congruence].
    rewrite Hpend, (assoc (++)), <- W2. destruct kept; [done|by rewrite app_nil_r].
  - split; simpl; [by destruct W1|done|done|]. intros Hin. by destruct (W4 Hin); congruence.
  - pose proof (worker_look_spec _ W1) as Hspec. rewrite Hl in Hspec. destruct Hspec as (Hpend & Hwf & Hstop & _).
    split; simpl; [done| | |].
    + by rewrite W2, Hpend, <- (assoc (++)).
    + pose proof (serving_insert _ _ _ (Serving t) Hw) as Hi. cbn in Hi. rewrite app_nil_r in Hi.
      rewrite W3, Hi. by rewrite (assoc (++)).
    + intros Hin. apply elem_of_insert_ne in Hin; [|done]. destruct (W4 Hin) as [_ E]. by rewrite Hpend in E.
  - split; simpl; [done|done| |].
    + pose proof (serving_insert _ _ _ Looking Hw) as Hi. cbn in Hi. rewrite app_nil_r in Hi.
      rewrite W3, <- Hi. rewrite <- (assoc (++)). apply Permutation_app_head. apply Permutation_app_comm.
    + intros Hin. apply elem_of_insert_ne in Hin; [|done]. by apply W4.
  - pose proof (worker_look_spec _ W1) as Hspec. rewrite Hl in Hspec.
    split; simpl; [done|done| |by intros _; destruct Hspec].
    pose proof (serving_insert _ _ _ Ended Hw) as Hi. cbn in Hi. rewrite !app_nil_r in Hi. by rewrite W3, Hi.
Qed.

Definition reachable (gets : bool) (ps qs : Z) (s : system) : Prop := rtc step (sys_init gets ps qs) s.

Lemma reachable_wf gets ps qs s : reachable gets ps qs s → sys_wf s.
Proof.
  intros Hr. unfold reachable in Hr. remember (sys_init gets ps qs) as s0 eqn:E.
  assert (H0 : sys_wf s0) by (subst; apply sys_init_wf). clear E.
  induction Hr as [|s0 s1 s2 Hs _ IH]; [done|]. apply IH. by eapply step_wf.
Qed.

(** C34. The pool is a bounded queue whatever the interleaving of the
    acceptor and the workers: the connections taken by workers, followed
    by those waiting, are the kept connections in the order they came;
    each one taken has been answered or is with exactly one worker; no
    more wait than the configured number; and a worker ends only after a
    shutdown, with nothing left to take. *)
Theorem pool_refines_queue gets ps qs s :
  reachable gets ps qs s →
  sy_kept s = sy_taken s ++ pending (sy_pool s) ∧
  sy_taken s ≡ₚ sy_answered s ++ serving (sy_workers s) ∧
  (length (pending (sy_pool s)) ≤ queue_size (sy_pool s))%nat ∧
  (Ended ∈ sy_workers s → stop (sy_pool s) = true ∧ pending (sy_pool s) = []).
Proof.
  intros [W1 W2 W3 W4]%reachable_wf. split_and!; [done|done| |done].
  unfold pending. rewrite length_map, length_seq. apply W1.
Qed.

(* ------------------------------------------------------------------ *)
(** ** Shutdown *)

(** Steps the workers still have to make. *)
Definition weight (w : worker) : nat := match w with Looking => 1 | Serving _ => 2 | Ended => 0 end.
Definition work (s : system) : nat := 2 * length (pending (sy_pool s)) + sum_list_with weight (sy_workers s).

Lemma weight_insert ws w x y :
  ws !! w = Some x → (sum_list_with weight (<[w := y]> ws) + weight x = sum_list_with weight ws + weight y)%nat.
Proof.
  intros Hw. rewrite insert_take_drop by (by eapply lookup_lt_Some).
  pose proof (take_drop_middle _ _ _ Hw) as E. rewrite <- E at 3. rewrite !sum_list_with_app. simpl. lia.
Qed.

Lemma worker_step_work s s' :
  sys_wf s → worker_step s s' → (work s' < work s)%nat ∧ stop (sy_pool s') = stop (sy_pool s) ∧
    length (sy_workers s') = length (sy_workers s) ∧ sy_kept s' = sy_kept s.
Proof.
  intros [W1 W2 W3 W4] Hs. destruct Hs as [s w t p Hw Hl|s w t Hw|s w Hw Hl]; unfold work; simpl; rewrite length_insert.
  - pose proof (worker_look_spec _ W1) as Hspec. rewrite Hl in Hspec. destruct Hspec as (-> & _ & -> & _).
    pose proof (weight_insert _ _ _ (Serving t) Hw). simpl in *. split_and!; [lia|done|done|done].
  - pose proof (weight_insert _ _ _ Looking Hw). simpl in *. split_and!; [lia|done|done|done].
  - pose proof (weight_insert _ _ _ Ended Hw). simpl in *. split_and!; [lia|done|done|done].
Qed.

(** As long as a worker has not ended, one can move. *)
Lemma worker_progress s :
  sys_wf s → stop (sy_pool s) = true → ¬ Forall (λ w, w = Ended) (sy_workers s) → ∃ s', worker_step s s'.
Proof.
  intros Hwf Hst Hn. apply not_Forall_Exists in Hn; [|intros w; apply _].
  apply Exists_exists in Hn as (x & (w & Hw)%list_elem_of_lookup & Hx). destruct x as [|t|]; [| |by destruct Hx].
  - pose proof (worker_look_spec _ (yf_pool _ Hwf)) as Hspec. destruct (worker_look (sy_pool s)) as [| |t p] eqn:El.
    + destruct Hspec; congruence.
    + eexists. by eapply end_worker.
    + eexists. by eapply take_task.
  - eexists. by eapply answer_task.
Qed.


(** One worker and two slots: three connections come, the worker takes
    the first after the third was closed, and the pool is stopped. *)
Definition ip : cstr := "10.0.0.9".
Definition after_submit (conn : nat) (s : system) : system :=
  let '(kept, p) := pool_submit conn ip (sy_pool s) in
  {| sy_pool := p; sy_workers := sy_workers s;
     sy_kept := if kept then sy_kept s ++ [{| t_conn := conn; t_client_ip := snprintf 64 ip |}] else sy_kept s;
     sy_closed := if kept then sy_closed s else sy_closed s ++ [conn];
     sy_taken := sy_taken s; sy_answered := sy_answered s |}.
Definition after_take (s : system) : system :=
  match worker_look (sy_pool s) with
  | Take t p => {| sy_pool := p; sy_workers := <[O := Serving t]> (sy_workers s); sy_kept := sy_kept s;
                   sy_closed := sy_closed s; sy_taken := sy_taken s ++ [t]; sy_answered := sy_answered s |}
  | _ => s
  end.
Definition after_stop (s : system) : system :=
  {| sy_pool := pool_shutdown (sy_pool s); sy_workers := sy_workers s; sy_kept := sy_kept s; sy_closed := sy_closed s;
     sy_taken := sy_taken s; sy_answered := sy_answered s |}.
Definition sample_system : system :=
  after_stop (after_take (after_submit 7 (after_submit 6 (after_submit 5 (sys_init true 1 2))))).

Lemma sample_reachable : reachable true 1 2 sample_system.
Proof.
  assert (Hsub : ∀ c s, stop (sy_pool s) = false → step s (after_submit c s)).
  { intros c s Hs. left. unfold after_submit. destruct (pool_submit c ip (sy_pool s)) as [kept p] eqn:E. by eapply submit. }
  do 3 (eapply rtc_l; [by apply Hsub|]). eapply rtc_l; [right; by eapply (take_task _ O)|].
  eapply rtc_l; [left; by eapply shutdown|]. apply rtc_refl.
Qed.

Lemma pool_refines_queue_witness :
  sy_closed sample_system = [7%nat] ∧ map t_conn (sy_kept sample_system) = [5%nat; 6%nat] ∧
  sy_kept sample_system = sy_taken sample_system ++ pending (sy_pool sample_system).
Proof.
  split; [reflexivity|]. split; [reflexivity|].
  apply (pool_refines_queue true 1 2 sample_system). exact sample_reachable.
Defined.

