(* ===== verification/AdminHandlers.v ===== *)
(** * The administration endpoints (src/handlers_admin.c)

    Users, roles, groups, policies and OAuth clients over HTTP, and the
    rotation of the signing key.  Handlers read strings through the cached
    JSON document and integers by scanning the text of the body, which
    reading the document rewrites.  Texts are built with [strcat] in
    buffers of fixed size; running over one is [Crash]. *)

From S2P Require Import Prelude CLib CNum Json Types Storage StorageMemory PermCache Context UserMgr RoleMgr GroupMgr PolicyMgr RateLimit Mfa Bits Base64 TokenState Token TokenScan TokenJwt Printf PermEngine AuditLog Dpop Risk Http AuthHandlers Oauth.

(** An int product or sum; overflow is undefined. *)
Definition c_int (z : Z) : outcome Z := if (- 2 ^ 31 <=? z) && (z <? 2 ^ 31) then Ret z else Crash.

Definition perm_strategy_name (t : perm_strategy_type_t) : cstr :=
  match t with
  | PERM_STRATEGY_FUNCTIONAL => "functional" | PERM_STRATEGY_API => "api" | PERM_STRATEGY_DATA => "data"
  | PERM_STRATEGY_RBAC => "rbac" | PERM_STRATEGY_LOCATION => "location" | PERM_STRATEGY_ABAC => "abac"
  | PERM_STRATEGY_LBAC => "lbac" | PERM_STRATEGY_INT _ => "unknown"
  end.

(** [i > 0 ? "," : ""] *)
Definition comma_if (i : nat) : cstr := match i with O => [] | _ => [","%char] end.

Section Handlers.
Context {S C : Type} `{Crypto, InsituReader, JsonReader, Pwhash}.
Context (cx : sso_context S) (umgr : user_manager) (acfg : audit_settings) (cfg_path : option cstr) (env : request_env).
Notation handler := (handler S C).
Notation now := (e_now env).
Implicit Types (req : http_request_t) (resp : http_response_t).

Definition text (s : string) : cstr := list_ascii_of_string s.
Definition ok_text resp (body : cstr) : handler http_response_t := mret (sso_response_ok env body resp).

(** [json_int_value(req->body, key, def)]: the body is scanned up to its
    first NUL. *)
Definition body_int (key : cstr) (def : Z) : handler Z :=
  s ← get_state; mret (json_int_value (c_str <$> ss_body s) key def).
Definition body_id (key : cstr) (def : Z) : handler Z := v ← body_int key def; mret (u64 v).
Definition body_s32 (key : cstr) (def : Z) : handler Z := v ← body_int key def; mret (s32 v).

(** [admin_audit_log(ctx, user_id, username, req->client_ip, ...)] *)
Definition audit_as (user_id : Z) (username : cstr) req (operation resource : string) (resource_id : Z) (details : cstr)
  : handler unit := λ s,
  '(a, st) ← admin_audit_log acfg cx (e_audit env) cfg_path user_id username (rq_client_ip req) (text operation)
               (text resource) resource_id (text "success") details (ss_audit s) (w_store (ss_world s));
  Ret ((), set_audit a (set_world {| w_store := st; w_engine := w_engine (ss_world s) |} s)).

(** The entry of the authenticated user; [req->userdata] is not tested. *)
Definition audit req (operation resource : string) (resource_id : Z) (details : cstr) : handler unit :=
  match rq_userdata req with
  | None => lift Crash
  | Some a => audit_as (u_id (ac_user a)) (u_username (ac_user a)) req operation resource resource_id details
  end.

(** Answer, then write the audit entry. *)
Definition done_with req resp (body : cstr) (operation resource : string) (resource_id : Z) (details : cstr)
  : handler http_response_t :=
  resp ← ok_text resp body;
  _ ← audit req operation resource resource_id details;
  mret resp.

Definition detail (t : cstr) : cstr := snprintf 256 t.
Definition flag (k : string) : cstr := object [member k "true"].

(** [if (err != SSO_OK) sso_response_error(resp, 500, sso_strerror(err))] *)
Definition or_500 {A} (r : result A) resp (k : A → handler http_response_t) : handler http_response_t :=
  match r with
  | Err e => mret (sso_response_error env 500 (sso_strerror e) resp)
  | Ok a => k a
  end.

(* ------------------------------------------------------------------ *)
(** ** Users *)

Definition handle_create_user req resp : handler http_response_t :=
  b ← has_body;
  if negb b then fail env resp 400 "Request body required"
  else
    username ← req_json_str_value "username";
    password ← req_json_str_value "password";
    email ← req_json_str_value "email";
    display ← req_json_str_value "display_name";
    match username, password with
    | Some username, Some password =>
        r ← on_world (user_create cx umgr now (Some username) (Some password) (Some (default [] email))
              (Some (default username display)));
        match r with
        | Err SSO_ERR_ALREADY_EXISTS => fail env resp 409 "Username already exists"
        | Err _ => fail env resp 500 "Failed to create user"
        | Ok user =>
            let buf := snprintf 512 (object [member "user_id" (print_llu (u_id user));
              member "username" (quoted_text (u_username user)); member "created" "true"]) in
            resp ← ok_text resp buf;
            _ ← match rq_userdata req with
                | Some a => audit_as (u_id (ac_user a)) (u_username (ac_user a)) req "create_user" "users" (u_id user) buf
                | None => audit_as 0 (text "system") req "create_user" "users" (u_id user) buf
                end;
            mret resp
        end
    | _, _ => fail env resp 400 "username and password required"
    end.

(** [[{"id":..,"name":".."},...]] in a buffer of 1024 bytes, items of at
    most 127; ids that do not resolve are left out. *)
Fixpoint name_items (get : Z → handler (option (Z * cstr))) (j : nat) (ids : list Z) (acc : cstr) : handler cstr :=
  match ids with
  | [] => mret acc
  | i :: ids' =>
      r ← get i;
      match r with
      | Some (id, name) =>
          acc ← lift (strcat 1024 acc (snprintf 128 (comma_if j ++
                  object [member "id" (print_llu id); member "name" (quoted_text name)])));
          name_items get (j + 1) ids' acc
      | None => name_items get (j + 1) ids' acc
      end
  end.
Definition names_json (get : Z → handler (option (Z * cstr))) (ids : list Z) : handler cstr :=
  acc ← name_items get 0 ids (text "[");
  lift (strcat 1024 acc (text "]")).

Definition role_name_of (i : Z) : handler (option (Z * cstr)) :=
  r ← on_world (role_get_by_id cx i); mret match r with Ok r => Some (r_id r, r_name r) | Err _ => None end.
Definition group_name_of (i : Z) : handler (option (Z * cstr)) :=
  r ← on_world (group_get_by_id cx i); mret match r with Ok g => Some (g_id g, g_name g) | Err _ => None end.

(** A user with its roles and groups. *)
Definition user_json (u : user_t) : handler cstr :=
  role_ids ← roles_of cx (u_id u);
  roles_json ← names_json role_name_of role_ids;
  group_ids ← groups_of cx (u_id u);
  groups_json ← names_json group_name_of group_ids;
  mret (object
    [member "id" (print_llu (u_id u)); member "username" (quoted_text (u_username u)); member "email" (quoted_text (u_email u));
     member "display_name" (quoted_text (u_display_name u)); member "phone" (quoted_text (u_phone u));
     member "status" (print_d (user_status_int (u_status u))); member "roles" roles_json; member "groups" groups_json;
     member "created_at" (print_lld (u_created_at u))]).

Definition handle_get_user req resp : handler http_response_t :=
  let user_id := extract_path_id (rq_path req) "/api/v1/users/" in
  if user_id =? 0 then fail env resp 400 "Invalid user ID"
  else
    r ← on_world (user_get_by_id cx user_id);
    match r with
    | Err _ => fail env resp 404 "User not found"
    | Ok u =>
        json ← user_json u;
        if negb (e_arena env 4096) then fail env resp 500 "Out of memory"
        else ok_text resp (snprintf 4096 json)
    end.

Definition with_profile (u : user_t) (email display : option cstr) (status : Z) : user_t :=
  {| u_id := u_id u; u_username := u_username u; u_phone := u_phone u; u_password_hash := u_password_hash u;
     u_email := default (u_email u) ((λ e, sso_strlcpy (Some e) SSO_MAX_EMAIL) <$> email);
     u_display_name := default (u_display_name u) ((λ d, sso_strlcpy (Some d) SSO_MAX_DISPLAY_NAME) <$> display);
     u_status := if 0 <=? status then user_status_of status else u_status u;
     u_created_at := u_created_at u; u_updated_at := u_updated_at u; u_attributes := u_attributes u;
     u_mfa_enabled := u_mfa_enabled u; u_mfa_secret := u_mfa_secret u; u_password_set_at := u_password_set_at u |}.

Definition handle_update_user req resp : handler http_response_t :=
  let user_id := extract_path_id (rq_path req) "/users/" in
  b ← has_body;
  if (user_id =? 0) || negb b then fail env resp 400 "user_id and body required"
  else
    r ← on_world (user_get_by_id cx user_id);
    match r with
    | Err _ => fail env resp 404 "User not found"
    | Ok user =>
        email ← req_json_str_value "email";
        display ← req_json_str_value "display_name";
        status ← body_s32 "status" (-1);
        let user := with_profile user email display status in
        r ← on_world (user_update cx now user);
        or_500 r resp (λ _, done_with req resp (flag "updated") "update_user" "users" (u_id user)
          (detail (text "Updated user " ++ print_llu (u_id user) ++ text " (" ++ u_username user ++ text ")")))
    end.

Definition handle_delete_user req resp : handler http_response_t :=
  let user_id := extract_path_id (rq_path req) "/users/" in
  if user_id =? 0 then fail env resp 400 "user_id required"
  else
    r ← on_world (user_delete cx user_id);
    or_500 r resp (λ _, done_with req resp (flag "deleted") "delete_user" "users" user_id
      (detail (text "Deleted user " ++ print_llu user_id))).

(* ------------------------------------------------------------------ *)
(** ** Lists *)

(** The items of a page; [item i id] is [None] for an id that does not
    resolve. *)
Fixpoint list_items (cap : nat) (item : nat → Z → handler (option cstr)) (i : nat) (ids : list Z) (json : cstr)
  : handler cstr :=
  match ids with
  | [] => mret json
  | id :: ids' =>
      r ← item i id;
      match r with
      | Some buf => json ← lift (strcat cap json buf); list_items cap item (i + 1) ids' json
      | None => list_items cap item (i + 1) ids' json
      end
  end.

(** The four list handlers: [per_item] bytes are reserved for each of the
    ids, whose texts are made in a buffer of [buf_size]. *)
Definition list_response (list : option cstr → Z → Z → Z → mgr_op S C (list Z * Z)) (what : string)
    (per_item buf_size : nat) (item : Z → handler (option cstr)) req resp : handler http_response_t :=
  let qp := parse_query_params (e_alloc env) req in
  offset ← lift (c_int ((q_page qp - 1) * q_limit qp));
  r ← on_world (list (Some (q_text qp)) (q_status qp) offset (q_limit qp));
  match r with
  | Err _ => mret (sso_response_error env 500 (text "Failed to list " ++ text what) resp)
  | Ok (ids, total_count) =>
      let total_json_len := (1024 + length ids * per_item)%nat in
      if negb (e_arena env (Z.of_nat total_json_len + 1)) then fail env resp 500 "Out of memory"
      else
        let json := snprintf total_json_len
          ("{"%char :: commas [member "total" (print_llu total_count); member "page" (print_d (q_page qp));
                               member "limit" (print_d (q_limit qp)); member "items" (text "[")]) in
        if negb (e_arena env (Z.of_nat buf_size)) then fail env resp 500 "Out of memory"
        else
          json ← list_items (total_json_len + 1)
                   (λ i id, t ← item id; mret ((λ t, snprintf buf_size (comma_if i ++ t)) <$> t)) 0 ids json;
          json ← lift (strcat (total_json_len + 1) json (text "]}"));
          ok_text resp json
  end.

Definition handle_list_users : http_request_t → http_response_t → handler http_response_t :=
  list_response (user_list cx) "users" 3072 4096 (λ id,
    r ← on_world (user_get_by_id cx id);
    match r with
    | Err _ => mret None
    | Ok u => t ← user_json u; mret (Some t)
    end).

(** [snprintf(parent_name, 64, "%s", parent.name)] *)
Definition parent_name (get : Z → handler (option (Z * cstr))) (parent : Z) : handler cstr :=
  if parent =? 0 then mret []
  else r ← get parent; mret (default [] ((λ p, snprintf 64 p.2) <$> r)).

Definition handle_list_roles : http_request_t → http_response_t → handler http_response_t :=
  list_response (role_list cx) "roles" 2048 4096 (λ id,
    r ← on_world (role_get_by_id cx id);
    match r with
    | Err _ => mret None
    | Ok r =>
        parent ← parent_name role_name_of (r_parent_role_id r);
        mret (Some (object
          [member "id" (print_llu (r_id r)); member "name" (quoted_text (r_name r));
           member "description" (quoted_text (r_description r)); member "parent_role_id" (print_llu (r_parent_role_id r));
           member "parent_name" (quoted_text parent); member "status" (print_d (role_status_int (r_status r)));
           member "created_at" (print_lld (r_created_at r))]))
    end).

Definition handle_list_groups : http_request_t → http_response_t → handler http_response_t :=
  list_response (group_list cx) "groups" 2048 4096 (λ id,
    r ← on_world (group_get_by_id cx id);
    match r with
    | Err _ => mret None
    | Ok g =>
        parent ← parent_name group_name_of (g_parent_group_id g);
        mret (Some (object
          [member "id" (print_llu (g_id g)); member "name" (quoted_text (g_name g));
           member "description" (quoted_text (g_description g)); member "parent_group_id" (print_llu (g_parent_group_id g));
           member "parent_name" (quoted_text parent); member "status" (print_d (group_status_int (g_status g)));
           member "created_at" (print_lld (g_created_at g))]))
    end).

Definition policy_json (p : policy_t) : cstr :=
  object [member "id" (print_llu (p_id p)); member "name" (quoted_text (p_name p));
          member "strategy_type" (print_d (perm_strategy_int (p_strategy_type p)));
          member "strategy_name" (quoted_text (perm_strategy_name (p_strategy_type p)));
          member "effect" (print_d (policy_effect_int (p_effect p))); member "priority" (print_d (p_priority p));
          member "status" (print_d (policy_status_int (p_status p))); member "rules" (take 8000 (p_rules p));
          member "created_at" (print_lld (p_created_at p))].

Definition handle_list_policies : http_request_t → http_response_t → handler http_response_t :=
  list_response (policy_list cx) "policies" 8192 10240 (λ id,
    r ← on_world (policy_get_by_id cx id);
    mret match r with Err _ => None | Ok p => Some (policy_json p) end).

(* ------------------------------------------------------------------ *)
(** ** Roles *)

Definition with_role (r : role_t) (name desc : option cstr) (parent : option Z) (status : Z) : role_t :=
  {| r_id := r_id r; r_name := default (r_name r) ((λ n, sso_strlcpy (Some n) SSO_MAX_ROLE_NAME) <$> name);
     r_description := default (r_description r) ((λ d, sso_strlcpy (Some d) SSO_MAX_DESCRIPTION) <$> desc);
     r_parent_role_id := default (r_parent_role_id r) parent;
     r_status := if 0 <=? status then role_status_of status else r_status r;
     r_created_at := r_created_at r; r_updated_at := r_updated_at r |}.

Definition handle_create_role req resp : handler http_response_t :=
  b ← has_body;
  if negb b then fail env resp 400 "Request body required"
  else
    name ← req_json_str_value "name";
    match name with
    | None => fail env resp 400 "name required"
    | Some name =>
        desc ← req_json_str_value "description";
        parent_id ← body_id "parent_role_id" 0;
        r ← on_world (role_create cx now (Some name) (Some (default [] desc)) parent_id);
        match r with
        | Err SSO_ERR_ALREADY_EXISTS => fail env resp 409 "Role already exists"
        | Err _ => fail env resp 500 "Failed to create role"
        | Ok role =>
            status ← body_s32 "status" (-1);
            _ ← (if 0 <=? status then _ ← on_world (role_update cx now (with_role role None None None status)); mret ()
                 else mret ());
            let buf := snprintf 512 (object [member "role_id" (print_llu (r_id role));
              member "name" (quoted_text (r_name role)); member "created" "true"]) in
            done_with req resp buf "create_role" "roles" (r_id role) buf
        end
    end.

(** "Assigned role 3 to user 7" *)
Definition link_detail (verb what : string) (id : Z) (prep kind : string) (target : Z) : cstr :=
  detail (text verb ++ text what ++ print_llu id ++ text prep ++ text kind ++ text " " ++ print_llu target).

Definition handle_assign_role req resp : handler http_response_t :=
  let role_id := extract_path_id (rq_path req) "/roles/" in
  if role_id =? 0 then fail env resp 400 "Invalid role ID in path"
  else
    b ← has_body;
    if negb b then fail env resp 400 "Request body required"
    else
      user_id ← body_id "user_id" 0;
      group_id ← body_id "group_id" 0;
      if (user_id =? 0) && (group_id =? 0) then fail env resp 400 "user_id or group_id required"
      else
        r ← on_world (if negb (user_id =? 0) then role_assign_to_user cx role_id user_id
                      else role_assign_to_group cx role_id group_id);
        or_500 r resp (λ _, done_with req resp (flag "assigned") "assign_role" "roles" role_id
          (link_detail "Assigned" " role " role_id " to " (if negb (user_id =? 0) then "user" else "group")
             (if negb (user_id =? 0) then user_id else group_id))).

Definition handle_unassign_role req resp : handler http_response_t :=
  let role_id := extract_path_id (rq_path req) "/roles/" in
  b ← has_body;
  if (role_id =? 0) || negb b then fail env resp 400 "role_id and body required"
  else
    user_id ← body_id "user_id" 0;
    group_id ← body_id "group_id" 0;
    if (user_id =? 0) && (group_id =? 0) then fail env resp 400 "user_id or group_id required"
    else
      r ← on_world (if negb (user_id =? 0) then role_unassign_from_user cx role_id user_id
                    else role_unassign_from_group cx role_id group_id);
      or_500 r resp (λ _, done_with req resp (flag "unassigned") "unassign_role" "roles" role_id
        (link_detail "Unassigned" " role " role_id " from " (if negb (user_id =? 0) then "user" else "group")
           (if negb (user_id =? 0) then user_id else group_id))).

(** [parent != (sso_id_t)-1] *)
Definition given_parent (parent : Z) : option Z := if parent =? 2 ^ 64 - 1 then None else Some parent.

Definition handle_update_role req resp : handler http_response_t :=
  let role_id := extract_path_id (rq_path req) "/roles/" in
  b ← has_body;
  if (role_id =? 0) || negb b then fail env resp 400 "role_id and body required"
  else
    r ← on_world (role_get_by_id cx role_id);
    match r with
    | Err _ => fail env resp 404 "Role not found"
    | Ok role =>
        name ← req_json_str_value "name";
        desc ← req_json_str_value "description";
        parent ← body_id "parent_role_id" (-1);
        status ← body_s32 "status" (-1);
        let role := with_role role name desc (given_parent parent) status in
        r ← on_world (role_update cx now role);
        or_500 r resp (λ _, done_with req resp (flag "updated") "update_role" "roles" (r_id role)
          (detail (text "Updated role " ++ print_llu (r_id role) ++ text " (" ++ r_name role ++ text ")")))
    end.

Definition handle_delete_role req resp : handler http_response_t :=
  let role_id := extract_path_id (rq_path req) "/roles/" in
  if role_id =? 0 then fail env resp 400 "role_id required"
  else
    r ← on_world (role_delete cx role_id);
    or_500 r resp (λ _, done_with req resp (flag "deleted") "delete_role" "roles" role_id
      (detail (text "Deleted role " ++ print_llu role_id))).

(* ------------------------------------------------------------------ *)
(** ** Groups *)

Definition with_group (g : group_t) (name desc : option cstr) (parent : option Z) (status : Z) : group_t :=
  {| g_id := g_id g; g_name := default (g_name g) ((λ n, sso_strlcpy (Some n) SSO_MAX_GROUP_NAME) <$> name);
     g_description := default (g_description g) ((λ d, sso_strlcpy (Some d) SSO_MAX_DESCRIPTION) <$> desc);
     g_parent_group_id := default (g_parent_group_id g) parent;
     g_status := if 0 <=? status then group_status_of status else g_status g;
     g_created_at := g_created_at g; g_updated_at := g_updated_at g |}.

Definition handle_create_group req resp : handler http_response_t :=
  b ← has_body;
  if negb b then fail env resp 400 "Request body required"
  else
    name ← req_json_str_value "name";
    match name with
    | None => fail env resp 400 "name required"
    | Some name =>
        desc ← req_json_str_value "description";
        parent_id ← body_id "parent_group_id" 0;
        r ← on_world (group_create cx now (Some name) (Some (default [] desc)) parent_id);
        match r with
        | Err SSO_ERR_ALREADY_EXISTS => fail env resp 409 "Group already exists"
        | Err _ => fail env resp 500 "Failed to create group"
        | Ok group =>
            status ← body_s32 "status" (-1);
            _ ← (if 0 <=? status then _ ← on_world (group_update cx now (with_group group None None None status)); mret ()
                 else mret ());
            let buf := snprintf 512 (object [member "id" (print_llu (g_id group));
              member "name" (quoted_text (g_name group)); member "created" "true"]) in
            done_with req resp buf "create_group" "groups" (g_id group) buf
        end
    end.

Definition handle_update_group req resp : handler http_response_t :=
  let group_id := extract_path_id (rq_path req) "/groups/" in
  b ← has_body;
  if (group_id =? 0) || negb b then fail env resp 400 "group_id and body required"
  else
    r ← on_world (group_get_by_id cx group_id);
    match r with
    | Err _ => fail env resp 404 "Group not found"
    | Ok group =>
        name ← req_json_str_value "name";
        desc ← req_json_str_value "description";
        parent ← body_id "parent_group_id" (-1);
        status ← body_s32 "status" (-1);
        let group := with_group group name desc (given_parent parent) status in
        r ← on_world (group_update cx now group);
        or_500 r resp (λ _, done_with req resp (flag "updated") "update_group" "groups" (g_id group)
          (detail (text "Updated group " ++ print_llu (g_id group) ++ text " (" ++ g_name group ++ text ")")))
    end.

Definition handle_delete_group req resp : handler http_response_t :=
  let group_id := extract_path_id (rq_path req) "/groups/" in
  if group_id =? 0 then fail env resp 400 "group_id required"
  else
    r ← on_world (group_delete cx group_id);
    or_500 r resp (λ _, done_with req resp (flag "deleted") "delete_group" "groups" group_id
      (detail (text "Deleted group " ++ print_llu group_id))).

Definition handle_add_group_member req resp : handler http_response_t :=
  let group_id := extract_path_id (rq_path req) "/groups/" in
  b ← has_body;
  if (group_id =? 0) || negb b then fail env resp 400 "group_id and body required"
  else
    user_id ← body_id "user_id" 0;
    if user_id =? 0 then fail env resp 400 "user_id required"
    else
      r ← on_world (group_add_user cx group_id user_id);
      or_500 r resp (λ _, done_with req resp (flag "added") "add_group_member" "groups" group_id
        (link_detail "Added" " user " user_id " to " "group" group_id)).

Definition handle_remove_group_member req resp : handler http_response_t :=
  let group_id := extract_path_id (rq_path req) "/groups/" in
  match strrchr (rq_path req) "/" with
  | Some i =>
      if group_id =? 0 then fail env resp 400 "invalid path"
      else
        let user_id := u64 (atoll (drop (i + 1) (rq_path req))) in
        r ← on_world (group_remove_user cx group_id user_id);
        or_500 r resp (λ _, done_with req resp (flag "removed") "remove_group_member" "groups" group_id
          (link_detail "Removed" " user " user_id " from " "group" group_id))
  | None => fail env resp 400 "invalid path"
  end.

(* ------------------------------------------------------------------ *)
(** ** Policies *)

Definition handle_create_policy req resp : handler http_response_t :=
  b ← has_body;
  if negb b then fail env resp 400 "Request body required"
  else
    name ← req_json_str_value "name";
    match name with
    | None => fail env resp 400 "name required"
    | Some name =>
        strategy_type ← body_s32 "strategy_type" 1;
        effect ← body_s32 "effect" 1;
        priority ← body_s32 "priority" 50;
        rules ← req_json_str_value "rules";
        r ← on_world (policy_create cx now (Some name) (perm_strategy_of strategy_type) (policy_effect_of effect) priority
              (Some (default (text "{}") rules)));
        match r with
        | Err SSO_ERR_ALREADY_EXISTS => fail env resp 409 "Policy already exists"
        | Err _ => fail env resp 500 "Failed to create policy"
        | Ok policy =>
            let buf := snprintf 512 (object [member "policy_id" (print_llu (p_id policy));
              member "name" (quoted_text (p_name policy)); member "created" "true"]) in
            done_with req resp buf "create_policy" "policies" (p_id policy) buf
        end
    end.

(** [(size_t)target_type < 3 ? tnames[target_type] : "?"] *)
Definition target_name (target_type : Z) : string :=
  match target_type with 0 => "user" | 1 => "role" | 2 => "group" | _ => "?" end.

Definition handle_assign_policy req resp : handler http_response_t :=
  let policy_id := extract_path_id (rq_path req) "/policies/" in
  b ← has_body;
  if negb b then fail env resp 400 "Request body required"
  else
    target_type ← body_s32 "target_type" 0;
    target_id ← body_id "target_id" 0;
    if target_id =? 0 then fail env resp 400 "target_id required"
    else
      r ← on_world (policy_assign_to cx policy_id (policy_target_of target_type) target_id);
      or_500 r resp (λ _, done_with req resp (flag "assigned") "assign_policy" "policies" policy_id
        (link_detail "Assigned" " policy " policy_id " to " (target_name target_type) target_id)).

Definition handle_unassign_policy req resp : handler http_response_t :=
  let policy_id := extract_path_id (rq_path req) "/policies/" in
  b ← has_body;
  if (policy_id =? 0) || negb b then fail env resp 400 "policy_id and body required"
  else
    target_id ← body_id "target_id" 0;
    target_type ← body_s32 "target_type" (-1);
    if (target_id =? 0) || (target_type <? 0) then fail env resp 400 "target_id and target_type required"
    else
      r ← on_world (policy_unassign_from cx policy_id (policy_target_of target_type) target_id);
      or_500 r resp (λ _, done_with req resp (flag "unassigned") "unassign_policy" "policies" policy_id
        (link_detail "Unassigned" " policy " policy_id " from " (target_name target_type) target_id)).

Definition with_policy (p : policy_t) (name rules : option cstr) (effect priority status : Z) : policy_t :=
  {| p_id := p_id p; p_name := default (p_name p) ((λ n, sso_strlcpy (Some n) SSO_MAX_POLICY_NAME) <$> name);
     p_strategy_type := p_strategy_type p; p_effect := if 0 <=? effect then policy_effect_of effect else p_effect p;
     p_priority := if 0 <=? priority then priority else p_priority p;
     p_rules := default (p_rules p) ((λ r, sso_strlcpy (Some r) SSO_MAX_RULES_JSON) <$> rules);
     p_status := if 0 <=? status then policy_status_of status else p_status p;
     p_created_at := p_created_at p; p_updated_at := p_updated_at p |}.

Definition handle_update_policy req resp : handler http_response_t :=
  let policy_id := extract_path_id (rq_path req) "/policies/" in
  b ← has_body;
  if (policy_id =? 0) || negb b then fail env resp 400 "policy_id and body required"
  else
    r ← on_world (policy_get_by_id cx policy_id);
    match r with
    | Err _ => fail env resp 404 "Policy not found"
    | Ok policy =>
        name ← req_json_str_value "name";
        rules ← req_json_str_value "rules";
        effect ← body_s32 "effect" (-1);
        priority ← body_s32 "priority" (-1);
        status ← body_s32 "status" (-1);
        let policy := with_policy policy name rules effect priority status in
        r ← on_world (policy_update cx now policy);
        or_500 r resp (λ _, done_with req resp (flag "updated") "update_policy" "policies" (p_id policy)
          (detail (text "Updated policy " ++ print_llu (p_id policy) ++ text " (" ++ p_name policy ++ text ")")))
    end.

Definition handle_delete_policy req resp : handler http_response_t :=
  let policy_id := extract_path_id (rq_path req) "/policies/" in
  if policy_id =? 0 then fail env resp 400 "policy_id required"
  else
    r ← on_world (policy_delete cx policy_id);
    or_500 r resp (λ _, done_with req resp (flag "deleted") "delete_policy" "policies" policy_id
      (detail (text "Deleted policy " ++ print_llu policy_id))).

(** [[..]] of texts in a buffer of [cap] bytes, each cut to its own
    buffer. *)
Fixpoint array_items (cap buf_size : nat) (i : nat) (items : list cstr) (acc : cstr) : outcome cstr :=
  match items with
  | [] => strcat cap acc (text "]")
  | t :: items' => acc ← strcat cap acc (snprintf buf_size (comma_if i ++ t)); array_items cap buf_size (i + 1) items' acc
  end.
Definition array_text (cap buf_size : nat) (items : list cstr) : outcome cstr :=
  array_items cap buf_size 0 items (text "[").

(** The answer of [handle_get_user_policies]. *)
Definition user_policies_answer resp (policies : list policy_t) : handler http_response_t :=
  if negb (e_arena env 3072) || negb (e_arena env 4096) then fail env resp 500 "Out of memory"
  else
    arr ← lift (array_text 3072 256
                  (map (λ p, object [member "id" (print_llu (p_id p)); member "name" (quoted_text (p_name p))]) policies));
    ok_text resp (snprintf 4096 (object [member "policies" arr])).

Definition handle_get_user_policies req resp : handler http_response_t :=
  let user_id := extract_path_id (rq_path req) "/api/v1/users/" in
  if user_id =? 0 then fail env resp 400 "Invalid user ID"
  else
    r ← on_world (policy_get_direct_policies cx POLICY_TARGET_USER user_id 64);
    match r with
    | Err e => if bool_decide (e = SSO_ERR_NOT_FOUND) then user_policies_answer resp []
               else mret (sso_response_error env 500 (sso_strerror e) resp)
    | Ok l => user_policies_answer resp l
    end.

Definition targets_json (policy_id : Z) (tt : policy_target_type_t) : handler cstr :=
  r ← on_world (policy_get_targets cx policy_id tt 64);
  lift (array_text 1024 64 (map print_llu (ids_or_none r))).

Definition handle_get_policy_targets req resp : handler http_response_t :=
  let policy_id := extract_path_id (rq_path req) "/policies/" in
  if policy_id =? 0 then fail env resp 400 "policy_id required"
  else
    users_json ← targets_json policy_id POLICY_TARGET_USER;
    roles_json ← targets_json policy_id POLICY_TARGET_ROLE;
    groups_json ← targets_json policy_id POLICY_TARGET_GROUP;
    if negb (e_arena env 4096) then fail env resp 500 "Out of memory"
    else ok_text resp (snprintf 4096 (object [member "user_ids" users_json; member "role_ids" roles_json;
                                              member "group_ids" groups_json])).

(* ------------------------------------------------------------------ *)
(** ** OAuth clients *)

Definition sizeof_oauth_client : Z := 1768.

Definition client_json (c : oauth_client_t) : cstr :=
  object [member "id" (print_llu (cl_id c)); member "client_id" (quoted_text (cl_client_id c));
          member "redirect_uris" (quoted_text (cl_redirect_uris c)); member "app_name" (quoted_text (cl_app_name c));
          member "app_description" (quoted_text (cl_app_description c));
          member "app_logo_url" (quoted_text (cl_app_logo_url c));
          member "allowed_scopes" (quoted_text (cl_allowed_scopes c));
          member "allowed_grant_types" (quoted_text (cl_allowed_grant_types c));
          member "token_ttl_ms" (print_lld (cl_token_ttl_ms c)); member "status" (print_d (cl_status c));
          member "created_at" (print_llu (cl_created_at c)); member "updated_at" (print_llu (cl_updated_at c))].

Fixpoint strcat_all (cap : nat) (acc : cstr) (l : list cstr) : outcome cstr :=
  match l with
  | [] => Ret acc
  | t :: l' => acc ← strcat cap acc t; strcat_all cap acc l'
  end.

(** The buffer comes from the arena, which does not clear it, and is only
    ever appended to: [stale] is the string it holds before. *)
Definition handle_list_clients (stale : cstr) req resp : handler http_response_t :=
  let qp := parse_query_params (e_alloc env) req in
  offset ← lift (c_int ((q_page qp - 1) * q_limit qp));
  if negb (e_arena env (64 * sizeof_oauth_client)) then fail env resp 500 "Out of memory"
  else
    r ← backend cx sb_oauth_client_list (λ f, f offset (q_limit qp) 64%nat);
    match r with
    | None => fail env resp 500 "OAuth client storage unavailable"
    | Some (Err _) => fail env resp 500 "Failed to list OAuth clients"
    | Some (Ok clients) =>
        let count := length clients in
        let total_json_len := (2048 + count * 1536)%nat in
        if negb (e_arena env (Z.of_nat total_json_len)) then fail env resp 500 "Out of memory"
        else
          let total := s32 (offset + Z.of_nat count + (if Z.of_nat count =? q_limit qp then 1 else 0)) in
          json ← lift (strcat_all total_json_len stale
            ([text "{" ++ member "total" []; snprintf 32 (print_d total); text "," ++ member "page" [];
              snprintf 32 (print_d (q_page qp)); text "," ++ member "limit" []; snprintf 32 (print_d (q_limit qp));
              text "," ++ member "items" (text "[")] ++
             imap (λ i c, snprintf 1024 (comma_if i ++ client_json c)) clients ++ [text "]}"]));
          ok_text resp json
    end.

Definition OPSLIMIT_MODERATE : Z := 3.
Definition MEMLIMIT_MODERATE : Z := 268435456.

Definition handle_create_client req resp : handler http_response_t :=
  b ← has_body;
  if negb b then fail env resp 400 "Request body required"
  else
    client_id ← req_json_str_value "client_id";
    client_secret ← req_json_str_value "client_secret";
    redirect_uris ← req_json_str_value "redirect_uris";
    app_name ← req_json_str_value "app_name";
    app_description ← req_json_str_value "app_description";
    app_logo_url ← req_json_str_value "app_logo_url";
    allowed_scopes ← req_json_str_value "allowed_scopes";
    allowed_grant_types ← req_json_str_value "allowed_grant_types";
    token_ttl_ms ← body_int "token_ttl_ms" 3600000;
    status ← body_s32 "status" 1;
    match client_id, client_secret, redirect_uris with
    | Some client_id, Some client_secret, Some redirect_uris =>
        match cx_backend cx ≫= sb_oauth_client_create with
        | None => fail env resp 500 "OAuth client storage unavailable"
        | Some create =>
            match crypto_pwhash_str client_secret OPSLIMIT_MODERATE MEMLIMIT_MODERATE with
            | None => fail env resp 500 "Failed to hash client secret"
            | Some hash =>
                let client :=
                  {| cl_id := 0; cl_client_id := sso_strlcpy (Some client_id) 64; cl_client_secret_hash := hash;
                     cl_redirect_uris := sso_strlcpy (Some redirect_uris) 512; cl_app_name := copy_opt app_name 128;
                     cl_app_description := copy_opt app_description 256; cl_app_logo_url := copy_opt app_logo_url 256;
                     cl_allowed_scopes := copy_opt allowed_scopes 256;
                     cl_allowed_grant_types := copy_opt allowed_grant_types 128; cl_token_ttl_ms := token_ttl_ms;
                     cl_status := status; cl_created_at := e_mono env; cl_updated_at := e_mono env |} in
                r ← on_store (create client);
                match r with
                | Err SSO_ERR_ALREADY_EXISTS => fail env resp 409 "Client ID already exists"
                | Err _ => fail env resp 500 "Failed to create client"
                | Ok _ =>
                    let buf := snprintf 256 (object [member "client_id" (quoted_text (cl_client_id client));
                                                     member "created" "true"]) in
                    done_with req resp buf "create_client" "clients" 0 buf
                end
            end
        end
    | _, _, _ => fail env resp 400 "client_id, client_secret, and redirect_uris required"
    end.

(** The client id of a path, [None] without "/clients/". *)
Definition path_client_id (path : cstr) : option cstr :=
  match strstr path (text "/clients/") with
  | None => None
  | Some i => Some (take_while not_slash (sso_strlcpy (Some (drop (i + 9) path)) 64))
  end.

Definition with_client (c : oauth_client_t) (hash redirect_uris app_name app_description app_logo_url allowed_scopes
    allowed_grant_types : option cstr) (status token_ttl_ms updated_at : Z) : oauth_client_t :=
  let set (n : nat) (s : option cstr) (old : cstr) := default old ((λ s, sso_strlcpy (Some s) n) <$> s) in
  {| cl_id := cl_id c; cl_client_id := cl_client_id c; cl_client_secret_hash := default (cl_client_secret_hash c) hash;
     cl_redirect_uris := set 512%nat redirect_uris (cl_redirect_uris c); cl_app_name := set 128%nat app_name (cl_app_name c);
     cl_app_description := set 256%nat app_description (cl_app_description c);
     cl_app_logo_url := set 256%nat app_logo_url (cl_app_logo_url c);
     cl_allowed_scopes := set 256%nat allowed_scopes (cl_allowed_scopes c);
     cl_allowed_grant_types := set 128%nat allowed_grant_types (cl_allowed_grant_types c);
     cl_token_ttl_ms := if 0 <=? token_ttl_ms then token_ttl_ms else cl_token_ttl_ms c;
     cl_status := if 0 <=? status then status else cl_status c; cl_created_at := cl_created_at c;
     cl_updated_at := updated_at |}.

(** The new hash: [None] when there is no new secret, [Some None] when
    hashing fails. *)
Definition new_secret_hash (client_secret : option cstr) : option (option cstr) :=
  match client_secret with
  | Some (c :: s) => Some (crypto_pwhash_str (c :: s) OPSLIMIT_MODERATE MEMLIMIT_MODERATE)
  | _ => None
  end.

Definition handle_update_client req resp : handler http_response_t :=
  match path_client_id (rq_path req) with
  | None => fail env resp 400 "client_id required in path"
  | Some id =>
      b ← has_body;
      if bool_decide (id = []) || negb b then fail env resp 400 "client_id and body required"
      else
        match cx_backend cx ≫= sb_oauth_client_get, cx_backend cx ≫= sb_oauth_client_update with
        | Some get, Some update =>
            r ← on_store (get id);
            match r with
            | Err _ => fail env resp 404 "Client not found"
            | Ok client =>
                redirect_uris ← req_json_str_value "redirect_uris";
                app_name ← req_json_str_value "app_name";
                app_description ← req_json_str_value "app_description";
                app_logo_url ← req_json_str_value "app_logo_url";
                allowed_scopes ← req_json_str_value "allowed_scopes";
                allowed_grant_types ← req_json_str_value "allowed_grant_types";
                client_secret ← req_json_str_value "client_secret";
                status ← body_s32 "status" (-1);
                token_ttl_ms ← body_int "token_ttl_ms" (-1);
                match new_secret_hash client_secret with
                | Some None => fail env resp 500 "Failed to hash client secret"
                | h =>
                    let client := with_client client (h ≫= λ h, h) redirect_uris app_name app_description app_logo_url
                                    allowed_scopes allowed_grant_types status token_ttl_ms (e_mono env) in
                    r ← on_store (update client);
                    or_500 r resp (λ _, done_with req resp (flag "updated") "update_client" "clients" (cl_id client)
                      (detail (text "Updated client " ++ id)))
                end
            end
        | _, _ => fail env resp 500 "OAuth client storage unavailable"
        end
  end.

Definition handle_delete_client req resp : handler http_response_t :=
  match path_client_id (rq_path req) with
  | None => fail env resp 400 "client_id required in path"
  | Some id =>
      if bool_decide (id = []) then fail env resp 400 "client_id required"
      else
        match cx_backend cx ≫= sb_oauth_client_delete with
        | None => fail env resp 500 "OAuth client storage unavailable"
        | Some del =>
            r ← on_store (del id);
            or_500 r resp (λ _, done_with req resp (flag "deleted") "delete_client" "clients" 0
              (detail (text "Deleted client " ++ id)))
        end
  end.

(* ------------------------------------------------------------------ *)
(** ** Keys *)

(** The 32 bytes of an HS256 key: the text, cut or padded with zeros. *)
Definition hs256_secret (s : cstr) : list Z := take 32 (bytes_of s ++ replicate 32 0).

Definition rotate_answer resp (old_kid : option cstr) (r : sso_error_t * token_manager) : handler http_response_t := λ s,
  let s := set_tokens r.2 s in
  if negb (is_ok r.1) then Ret (sso_response_error env 500 (sso_strerror r.1) resp, s)
  else Ret (sso_response_ok env (snprintf 256 (object [member "status" (quoted_text "ok");
         member "active_kid" (quoted_text (default [] (token_manager_get_active_kid r.2)));
         member "previous_kid" (quoted_text (default [] old_kid))])) resp, s).

Definition handle_rotate_keys req resp : handler http_response_t :=
  b ← has_body;
  if negb b then fail env resp 400 "Request body required"
  else
    s ← get_state;
    let tmgr := ss_tokens s in
    let old_kid := token_manager_get_active_kid tmgr in
    match tm_mode tmgr with
    | SSO_TOKEN_MODE_HS256 =>
        secret ← req_json_str_value "secret";
        match secret with
        | None => mret (sso_response_error env 400 (quoted_text "secret" ++ text " required for HS256 rotation") resp)
        | Some secret => rotate_answer resp old_kid (token_manager_rotate_key tmgr (hs256_secret secret))
        end
    | SSO_TOKEN_MODE_RS256 =>
        priv_pem ← req_json_str_value "private_key";
        match priv_pem with
        | None => mret (sso_response_error env 400 (quoted_text "private_key" ++ text " required for RS256 rotation") resp)
        | Some priv_pem =>
            pub_pem ← req_json_str_value "public_key";
            rotate_answer resp old_kid (token_manager_rotate_key_rs256 tmgr (Some priv_pem) pub_pem)
        end
    | SSO_TOKEN_MODE_CRYDI3 => fail env resp 400 "Rotation not supported for current signing mode"
    end.

End Handlers.
