(* ===== verification/CheckHandlers.v ===== *)
(** * The permission check endpoints (src/handlers_check.c)

    One handler per strategy and a general one.  The engine's metrics and
    its audit lines are part of the state of the server; [later] is the
    second reading of the monotonic clock within the check and [brk] the
    first address the allocator hands out in it. *)

From S2P Require Import Prelude CLib CNum Json Types DataPerm Storage StorageMemory PermCache Context UserMgr RateLimit Mfa Bits Base64 TokenState Token TokenScan TokenJwt Printf PermEngine AuditLog Dpop Risk Http AuthHandlers Oauth AdminHandlers.

Section Handlers.
Context {S : Type} `{Crypto, InsituReader, JsonReader}.
Context (cx : sso_context S) (strategies : list (permission_strategy S)) (acfg : audit_settings) (env : request_env).
Context (later brk : Z).
Notation handler := (handler S compiled_rule).
Notation now := (e_mono env).
Notation alloc := (e_alloc env).
Implicit Types (req : http_request_t) (resp : http_response_t).

(** The audit lines of a check, in order. *)
Fixpoint log_decisions (l : list audit_decision) (a : audit_state) (st : S) : outcome (audit_state * S) :=
  match l with
  | [] => Ret (a, st)
  | d :: l' =>
      '(a, st) ← audit_log_decision acfg cx (e_audit env) (ad_user_id d) (ad_allowed d) (ad_trace d) (ad_duration_ms d)
                   (ad_cache_hit d) a st;
      log_decisions l' a st
  end.

(** An operation of the engine of the context. *)
Definition on_engine {A} (f : engine_state S → outcome (A * engine_state S)) : handler A := λ s,
  '(r, st) ← f {| es_world := ss_world s; es_metrics := ss_metrics s; es_audit := [] |};
  '(a, store) ← log_decisions (es_audit st) (ss_audit s) (w_store (es_world st));
  Ret (r, set_audit a (set_metrics (es_metrics st)
            (set_world {| w_store := store; w_engine := w_engine (es_world st) |} s))).

(** The user a check is about: the one of the body, or the caller; [None]
    when there is neither. *)
Definition checked_user req : handler (option Z) :=
  user_id ← body_id "user_id" 0;
  let user_id := if user_id =? 0 then default 0 ((λ a, u_id (ac_user a)) <$> rq_userdata req) else user_id in
  mret (if user_id =? 0 then None else Some user_id).

(** The decision of one of the one-shot checks, and the answer for it:
    [members] follow "allowed" and "user_id" in a buffer of [size]. *)
Definition answer_check (check : engine_state S → outcome (sso_error_t * option bool * engine_state S)) (size : nat)
    (user_id : Z) (members : list cstr) resp : handler http_response_t :=
  '(err, res) ← on_engine check;
  if negb (is_ok err) then mret (sso_response_error env 500 (sso_strerror err) resp)
  else ok_text env resp (snprintf size (object (member "allowed" (bool_text (default false res)) ::
         member "user_id" (print_llu user_id) :: members))).

Definition no_user resp : handler http_response_t := fail env resp 400 "user_id or authentication required".

Definition handle_check_functional req resp : handler http_response_t :=
  b ← has_body;
  if negb b then fail env resp 400 "Request body required"
  else
    function_code ← req_json_str_value "function_code";
    match function_code with
    | None => fail env resp 400 "function_code required"
    | Some function_code =>
        u ← checked_user req;
        match u with
        | None => no_user resp
        | Some user_id =>
            answer_check (perm_check_function cx alloc strategies now later brk user_id (Some function_code)) 512 user_id
              [member "function" (quoted_text (sso_strlcpy (Some function_code) 64))] resp
        end
    end.

Definition handle_check_api req resp : handler http_response_t :=
  b ← has_body;
  if negb b then fail env resp 400 "Request body required"
  else
    method ← req_json_str_value "method";
    path ← req_json_str_value "path";
    match method, path with
    | Some method, Some path =>
        u ← checked_user req;
        match u with
        | None => no_user resp
        | Some user_id =>
            answer_check (perm_check_api cx alloc strategies now later brk user_id (Some method) (Some path)) 512 user_id [] resp
        end
    | _, _ => fail env resp 400 "method and path required"
    end.

Definition handle_check_rbac req resp : handler http_response_t :=
  b ← has_body;
  if negb b then fail env resp 400 "Request body required"
  else
    role_name ← req_json_str_value "role_name";
    match role_name with
    | None => fail env resp 400 "role_name required"
    | Some role_name =>
        u ← checked_user req;
        match u with
        | None => no_user resp
        | Some user_id =>
            answer_check (perm_check_rbac cx alloc strategies now later brk user_id (Some role_name)) 512 user_id
              [member "role" (quoted_text role_name)] resp
        end
    end.

Definition handle_check_location req resp : handler http_response_t :=
  b ← has_body;
  if negb b then fail env resp 400 "Request body required"
  else
    source_ip ← req_json_str_value "source_ip";
    geo_country ← req_json_str_value "geo_country";
    match source_ip with
    | None => fail env resp 400 "source_ip required"
    | Some source_ip =>
        u ← checked_user req;
        match u with
        | None => no_user resp
        | Some user_id =>
            answer_check (perm_check_location cx alloc strategies now later brk user_id (Some source_ip) geo_country) 512
              user_id [member "source_ip" (quoted_text source_ip)] resp
        end
    end.

Definition handle_check_lbac req resp : handler http_response_t :=
  b ← has_body;
  if negb b then fail env resp 400 "Request body required"
  else
    user_labels ← req_json_str_value "user_labels";
    resource_label ← req_json_str_value "resource_label";
    match user_labels, resource_label with
    | Some user_labels, Some resource_label =>
        u ← checked_user req;
        match u with
        | None => no_user resp
        | Some user_id =>
            answer_check (perm_check_lbac cx alloc strategies now later brk user_id (Some user_labels) (Some resource_label))
              512 user_id [member "user_labels" (quoted_text user_labels); member "resource_label" (quoted_text resource_label)]
              resp
        end
    | _, _ => fail env resp 400 "user_labels and resource_label required"
    end.

Definition handle_check_abac req resp : handler http_response_t :=
  b ← has_body;
  if negb b then fail env resp 400 "Request body required"
  else
    subject_attrs ← req_json_str_value "subject_attrs";
    resource_attrs ← req_json_str_value "resource_attrs";
    action_str ← req_json_str_value "action";
    u ← checked_user req;
    match u with
    | None => no_user resp
    | Some user_id =>
        answer_check (perm_check_abac cx alloc strategies now later brk user_id subject_attrs resource_attrs action_str) 1024
          user_id [] resp
    end.

(* ------------------------------------------------------------------ *)
(** ** Data *)

(** [off += snprintf(buf + off, cap - off, ...)]: the text and [off],
    which may run past the buffer; the next write is then out of bounds. *)
Definition buf_printf (cap : nat) (b : cstr * nat) (t : cstr) : outcome (cstr * nat) :=
  let '(w, off) := b in
  if (off <? cap)%nat then Ret (w ++ take (cap - off - 1) t, (off + length t)%nat)
  else if (off =? cap)%nat then Ret (w, (off + length t)%nat)
  else Crash.

(** The strings of a field filter; [%s] of NULL is undefined. *)
Fixpoint print_fields (cap : nat) (i : nat) (fields : list (option cstr)) (b : cstr * nat) : outcome (cstr * nat) :=
  match fields with
  | [] => Ret b
  | None :: _ => Crash
  | Some f :: fields' => b ← buf_printf cap b (comma_if i ++ quoted_text f); print_fields cap (i + 1) fields' b
  end.

(** [if (fields && field_count > 0)] *)
Definition print_filter (filter : option (option hobj * Z)) (b : cstr * nat) : outcome (cstr * nat) :=
  match filter with
  | Some (Some (HStrs l), count) =>
      if count <=? 0 then Ret b
      else if Z.of_nat (length l) <? count then Crash
      else
        b ← buf_printf 2048 b (text "," ++ member "fields" (text "["));
        b ← print_fields 2048 0 (take (Z.to_nat count) l) b;
        buf_printf 2048 b (text "]")
  | Some (Some (HStr _), count) => if count <=? 0 then Ret b else Crash
  | _ => Ret b
  end.

Definition handle_check_data req resp : handler http_response_t :=
  b ← has_body;
  if negb b then fail env resp 400 "Request body required"
  else
    resource_type ← req_json_str_value "resource_type";
    record_json ← req_json_str_value "record";
    match resource_type with
    | None => fail env resp 400 "resource_type required"
    | Some resource_type =>
        u ← checked_user req;
        match u with
        | None => no_user resp
        | Some user_id =>
            '(err, res, filter) ← on_engine
               (perm_check_data cx alloc strategies now later brk user_id (Some resource_type) record_json true);
            if negb (is_ok err) then mret (sso_response_error env 500 (sso_strerror err) resp)
            else
              b ← lift (buf_printf 2048 ([], 0%nat) ("{"%char :: commas [member "allowed" (bool_text (default false res));
                                                                          member "user_id" (print_llu user_id)]));
              b ← lift (print_filter filter b);
              b ← lift (buf_printf 2048 b (text "}"));
              ok_text env resp b.1
        end
    end.

(* ------------------------------------------------------------------ *)
(** ** The general check *)

Definition with_environment (e : option cstr) (c : eval_context) : eval_context :=
  match e with
  | None => c
  | Some e =>
      {| ec_has_user := ec_has_user c; ec_user_id := ec_user_id c; ec_params := ec_params c;
         ec_environment := sso_strlcpy (Some e) 2048; ec_heap := ec_heap c; ec_brk := ec_brk c |}
  end.

(** The strings of the body that fill the members of the union, one over
    the other.  The record is a pointer into the body: readable, but not
    from malloc. *)
Definition fill_params (user : user_t) : handler eval_context :=
  function_code ← req_json_str_value "function_code";
  api_method ← req_json_str_value "api_method";
  api_path ← req_json_str_value "api_path";
  resource_type ← req_json_str_value "resource_type";
  record ← match resource_type with Some _ => req_json_str_value "record" | None => mret None end;
  role_name ← req_json_str_value "role_name";
  source_ip ← req_json_str_value "source_ip";
  lbac_user_labels ← req_json_str_value "lbac_user_labels";
  lbac_resource_label ← req_json_str_value "lbac_resource_label";
  abac_subject_attrs ← req_json_str_value "abac_subject_attrs";
  abac_resource_attrs ← req_json_str_value "abac_resource_attrs";
  abac_action ← req_json_str_value "abac_action";
  env_attrs ← req_json_str_value "environment";
  let both (f : list ascii → list ascii) (a b : option cstr) :=
    match a, b with Some _, Some _ => f | _, _ => λ ps, ps end in
  let c := with_params (λ ps, put_opt off_resource_type 64 resource_type
             (both (λ ps, put_opt off_request_path 1024 api_path (put_opt off_http_method 8 api_method ps)) api_method api_path
               (put_opt off_function_code 128 function_code ps))) (eval_context_init brk user) in
  let c := match record with
           | Some r => let '(a, c) := heap_alloc (HStr r) c in with_params (put_word off_record a) c
           | None => c
           end in
  mret (with_environment env_attrs (with_params (λ ps,
    put_opt off_action 64 abac_action (put_opt off_resource_attrs 2048 abac_resource_attrs
      (put_opt off_subject_attrs 2048 abac_subject_attrs
        (both (λ ps, put_opt off_resource_label 64 lbac_resource_label (put_opt off_user_labels 256 lbac_user_labels ps))
           lbac_user_labels lbac_resource_label
          (put_opt off_source_ip 64 source_ip (put_opt off_role_name 64 role_name ps)))))) c)).

(** [perm_engine_evaluate] with a trace. *)
Definition evaluate (ectx : eval_context) : handler (sso_error_t * option bool * option cstr * eval_context) :=
  on_engine (perm_engine_evaluate_internal cx strategies alloc now later true ectx).

(** The escaped trace as [%s] reads it: [stale] is what the uninitialised
    buffer of 4096 bytes holds, and the text is not terminated. *)
Definition trace_text (stale : list ascii) (trace : cstr) : outcome cstr :=
  match escape esc_trace 4096 trace with
  | [] => Ret []
  | esc =>
      let tail := drop (length esc) (take 4096 stale) in
      if bool_decide (NUL ∈ tail) then Ret (esc ++ c_str tail) else Crash
  end.

(** [strncat] of the quoted fields into 1024 bytes, then [strcat("]")]. *)
Fixpoint filter_items (n : nat) (i : nat) (l : list (option cstr)) (acc : cstr) : outcome cstr :=
  match l with
  | [] => strcat 1024 acc (text "]")
  | None :: _ => Crash
  | Some f :: l' =>
      let fbuf := snprintf 128 (quoted_text f ++ (if (i <? n - 1)%nat then text "," else [])) in
      filter_items n (i + 1) l' (acc ++ take (1024 - length acc - 1) fbuf)
  end.

(** The filter as the params hold it, whatever wrote them. *)
Definition filter_text (ectx : eval_context) : outcome cstr :=
  let count := get_word off_field_filter_count (ec_params ectx) in
  if count =? 0 then Ret (text "[]")
  else
    match ec_heap ectx !! get_word off_field_filter (ec_params ectx) with
    | Some (HStrs l) =>
        if Z.of_nat (length l) <? count then Crash
        else filter_items (Z.to_nat count) 0 (take (Z.to_nat count) l) (text "[")
    | _ => Crash
    end.

Definition handle_check_permission (stale : list ascii) req resp : handler http_response_t :=
  b ← has_body;
  if negb b then fail env resp 400 "Request body required"
  else
    u ← checked_user req;
    match u with
    | None => no_user resp
    | Some user_id =>
        r ← on_world (user_get_by_id cx user_id);
        match r with
        | Err _ => fail env resp 404 "User not found"
        | Ok user =>
            ectx ← fill_params user;
            '(err, res, trace, ectx) ← evaluate ectx;
            (* the record is never a block of malloc, so freeing it is undefined *)
            let has_record := negb (get_word off_record (ec_params ectx) =? 0) in
            if negb (is_ok err) then
              if has_record && bool_decide (is_Some trace) then lift Crash
              else fail env resp 500 "Permission evaluation failed"
            else if negb (e_arena env 8192) || negb (e_arena env 4096) || negb (e_arena env 1024) then
              if has_record && bool_decide (is_Some trace) then lift Crash else fail env resp 500 "Out of memory"
            else
              escaped ← lift (match trace with Some t => trace_text stale t | None => Ret [] end);
              fields ← lift (filter_text ectx);
              resp ← ok_text env resp (snprintf 8192 (object [member "allowed" (bool_text (default false res));
                       member "allowed_fields" fields; member "trace" (quoted_text escaped)]));
              if has_record then lift Crash
              else match trace with
                   | Some _ => _ ← lift (eval_context_destroy ectx); mret resp
                   | None => mret resp
                   end
        end
    end.

End Handlers.
