(* ===== verification/Pages.v ===== *)
(** * Page and monitoring endpoints (src/handlers_pages.c)

    The liveness probe, the metrics text, the status of the system, the
    audit log and the documentation files.  The counters of the process
    and the files it serves are arguments; the log file is the one of the
    audit state.  Memory of a request's arena is not malloc's: [realloc]
    on it is undefined. *)

From S2P Require Import Prelude CLib CNum Json Types Storage StorageMemory PermCache Context UserMgr RateLimit Mfa Bits Base64 TokenState Token TokenScan TokenJwt Printf PermEngine AuditLog Dpop Risk Http AuthHandlers Oauth AdminHandlers.
From Stdlib Require Import SpecFloat.

(* ------------------------------------------------------------------ *)
(** ** The metrics of the engine (src/permission.c) *)

Definition LF_end (s : string) : cstr := list_ascii_of_string s ++ [chr 10].
Definition sample (name : string) (v : cstr) : cstr := list_ascii_of_string name ++ " "%char :: v ++ [chr 10].
(** [name{label="value"} v] *)
Definition labelled (name label value : string) (v : cstr) : cstr :=
  list_ascii_of_string name ++ "{"%char :: list_ascii_of_string label ++ "="%char :: quoted_text (list_ascii_of_string value) ++
  "}"%char :: " "%char :: v ++ [chr 10].

Definition perm_engine_get_metrics (engine : option engine_metrics_t) (max : nat) : result cstr :=
  match engine with
  | None => Err SSO_ERR_INVALID_PARAM
  | Some m =>
      Ok (snprintf max (concat [
        LF_end "# HELP sso_perm_evals_total Total number of permission evaluations";
        LF_end "# TYPE sso_perm_evals_total counter";
        sample "sso_perm_evals_total" (print_llu (total_evals m));
        LF_end "# HELP sso_perm_cache_hits_total Total number of cache hits";
        LF_end "# TYPE sso_perm_cache_hits_total counter";
        labelled "sso_perm_cache_hits_total" "level" "l1" (print_llu (cache_hits_l1 m));
        labelled "sso_perm_cache_hits_total" "level" "l2" (print_llu (cache_hits_l2 m));
        LF_end "# HELP sso_perm_decisions_total Total number of allows/denys";
        LF_end "# TYPE sso_perm_decisions_total counter";
        labelled "sso_perm_decisions_total" "effect" "allow" (print_llu (allows m));
        labelled "sso_perm_decisions_total" "effect" "deny" (print_llu (denys m));
        LF_end "# HELP sso_perm_eval_duration_us_total Cumulative evaluation duration in microseconds";
        LF_end "# TYPE sso_perm_eval_duration_us_total counter";
        sample "sso_perm_eval_duration_us_total" (print_llu (total_duration_us m))]))
  end.

(* ------------------------------------------------------------------ *)
(** ** Numbers of the metrics *)

(** The counters of the process (src/sso.c). *)
Record process_metrics := {
  active_connections : Z; mfa_success : Z; mfa_failure : Z; jwt_issue : Z; jwt_revoke : Z; db_read_count : Z;
  db_read_duration_us : Z; db_write_count : Z; db_write_duration_us : Z; arena_blocks : Z
}.

Definition double_div (a b : double) : double := SFdiv prec emax a b.
(** [%.6f] *)
Definition f_positive (m e : Z) : cstr :=
  let n := if 0 <=? e then m * 2 ^ e * 10 ^ 6 else round_div (m * 10 ^ 6) (2 ^ (- e)) in
  print_dec (n / 10 ^ 6) ++ "."%char :: zero_pad 6 (print_dec (n mod 10 ^ 6)).
Definition fmt_f (d : double) : cstr :=
  match d with
  | S754_zero s => if s then "-0.000000" else "0.000000"
  | S754_infinity s => if s then "-inf" else "inf"
  | S754_nan => "nan"
  | S754_finite s m e => if s then "-"%char :: f_positive (Zpos m) e else f_positive (Zpos m) e
  end.

(** [(double)n / 1000000.0] and [((double)sum / count) / 1000.0]. *)
Definition seconds_of (us : Z) : double := double_div (double_of_Z us) (double_of_Z 1000000).
Definition avg_ms (sum count : Z) : double :=
  if 0 <? count then double_div (double_div (double_of_Z sum) (double_of_Z count)) (double_of_Z 1000) else S754_zero false.

(** Executable checks. *)
Example fmt_f_third : fmt_f (double_div (double_of_Z 1) (double_of_Z 3)) = ("0.333333" : cstr).
Proof. vm_compute. reflexivity. Qed.
Example fmt_f_avg : fmt_f (double_div (avg_ms 7000 2) (double_of_Z 1000)) = ("0.003500" : cstr).
Proof. vm_compute. reflexivity. Qed.

Definition metrics_text (perm : cstr) (p : process_metrics) : cstr :=
  perm ++ concat [
    LF_end "# HELP sso_active_connections Active HTTP connections currently being processed";
    LF_end "# TYPE sso_active_connections gauge";
    sample "sso_active_connections" (print_d (active_connections p));
    LF_end "# HELP sso_mfa_verifications_total Total MFA verification attempts";
    LF_end "# TYPE sso_mfa_verifications_total counter";
    labelled "sso_mfa_verifications_total" "result" "success" (print_llu (mfa_success p));
    labelled "sso_mfa_verifications_total" "result" "failure" (print_llu (mfa_failure p));
    LF_end "# HELP sso_jwt_tokens_total Total JWT tokens processed";
    LF_end "# TYPE sso_jwt_tokens_total counter";
    labelled "sso_jwt_tokens_total" "action" "issue" (print_llu (jwt_issue p));
    labelled "sso_jwt_tokens_total" "action" "revoke" (print_llu (jwt_revoke p));
    LF_end "# HELP sso_db_queries_total Total number of database queries executed";
    LF_end "# TYPE sso_db_queries_total counter";
    labelled "sso_db_queries_total" "type" "read" (print_llu (db_read_count p));
    labelled "sso_db_queries_total" "type" "write" (print_llu (db_write_count p));
    LF_end "# HELP sso_db_query_duration_seconds_total Cumulative database query execution duration in seconds";
    LF_end "# TYPE sso_db_query_duration_seconds_total counter";
    labelled "sso_db_query_duration_seconds_total" "type" "read" (fmt_f (seconds_of (db_read_duration_us p)));
    labelled "sso_db_query_duration_seconds_total" "type" "write" (fmt_f (seconds_of (db_write_duration_us p)));
    LF_end "# HELP sso_db_query_duration_seconds_avg Average database query duration in seconds";
    LF_end "# TYPE sso_db_query_duration_seconds_avg gauge";
    labelled "sso_db_query_duration_seconds_avg" "type" "read"
      (fmt_f (double_div (avg_ms (db_read_duration_us p) (db_read_count p)) (double_of_Z 1000)));
    labelled "sso_db_query_duration_seconds_avg" "type" "write"
      (fmt_f (double_div (avg_ms (db_write_duration_us p) (db_write_count p)) (double_of_Z 1000)));
    LF_end "# HELP sso_arena_allocated_blocks_total Total number of memory blocks allocated in Arenas";
    LF_end "# TYPE sso_arena_allocated_blocks_total gauge";
    sample "sso_arena_allocated_blocks_total" (print_llu (arena_blocks p))].

(* ------------------------------------------------------------------ *)
(** ** The log file *)

(** [fgets(buffer, n + 1, f)]: what is read and what is left. *)
Fixpoint fgets (n : nat) (s : list ascii) : list ascii * list ascii :=
  match n, s with
  | S n, c :: s => if Ascii.eqb c (chr 10) then ([c], s) else let '(l, rest) := fgets n s in (c :: l, rest)
  | _, _ => ([], s)
  end.
(** All reads up to the end of the file; each takes a character, so the
    length of the file is enough. *)
Definition LOG_LINE : nat := Z.to_nat 10240.
Fixpoint fgets_all (fuel : nat) (s : list ascii) : list (list ascii) :=
  match fuel, s with
  | S fuel, _ :: _ => let '(l, rest) := fgets (LOG_LINE - 1) s in l :: fgets_all fuel rest
  | _, _ => []
  end.
Definition log_lines (s : list ascii) : list (list ascii) := fgets_all (length s) s.

(** A read as the string in the buffer, and up to its line break. *)
Definition line_text (l : list ascii) : cstr := take_while (λ c, negb (Ascii.eqb c (chr 10))) (c_str l).

(** ["user_id":%llu] is looked for anywhere in the line. *)
Definition uid_pattern (uid : Z) : cstr := snprintf 32 (member "user_id" (print_llu uid)).
Definition line_wanted (uid : Z) (l : list ascii) : bool :=
  (uid =? 0) || bool_decide (is_Some (strstr (c_str l) (uid_pattern uid))).

(** The loop: [json] is the text so far, in a block of 4096 bytes of the
    arena that must hold the next line, a comma, the bracket and the
    terminator; more is asked of [realloc]. *)
Definition LOG_CAP : Z := 4096.
Fixpoint collect_lines (uid offset limit : Z) (lines : list (list ascii)) (line_num match_idx : Z) (first : bool) (json : cstr) : outcome cstr :=
  match lines with
  | [] => Ret json
  | l :: lines =>
      let line_num := line_num + 1 in
      if (0 <? offset) && (line_num <=? offset) then collect_lines uid offset limit lines line_num match_idx first json
      else if negb (line_wanted uid l) then collect_lines uid offset limit lines line_num match_idx first json
      else if LOG_CAP <? Z.of_nat (length json + length (line_text l)) + 3 then Crash
      else
        let json := json ++ (if first then [] else [","%char]) ++ line_text l in
        if limit <=? match_idx + 1 then Ret json
        else collect_lines uid offset limit lines line_num (match_idx + 1) false json
  end.

(** [user_id], [limit] and [offset] of the query; the last of each counts. *)
Record log_query := { lq_uid : Z; lq_limit : Z; lq_offset : Z }.
Definition log_param (q : log_query) (param : cstr) : log_query :=
  match strchr param "=" with
  | None => q
  | Some i =>
      let key := take i param in
      let v := drop (S i) param in
      {| lq_uid := if strcmp_eq key "user_id" then u64 (atoll v) else lq_uid q;
         lq_limit := if strcmp_eq key "limit" && (0 <? atoi v) && (atoi v <=? 1000) then atoi v else lq_limit q;
         lq_offset := if strcmp_eq key "offset" && (0 <? atoi v) then atoi v else lq_offset q |}
  end.
Definition log_query_of (params : option (list cstr)) : log_query :=
  foldl log_param {| lq_uid := 0; lq_limit := 100; lq_offset := 0 |} (default [] params).

Section Handlers.
Context {S C : Type} `{Crypto}.
Context (cx : sso_context S) (env : request_env) (pm : process_metrics) (cfg : option audit_settings).
(** The documentation files, and what a failed list leaves in a counter. *)
Context (file : cstr → option (list ascii)) (left_over : Z).
Notation handler := (handler S C).
Implicit Types (req : http_request_t) (resp : http_response_t).

Definition handle_health req resp : handler http_response_t :=
  ready ← match cx_backend cx ≫= sb_user_list with
          | Some f =>
              r ← on_store (f None (-1) 0 0);
              mret (match r with Ok _ | Err SSO_ERR_NOT_FOUND => true | Err _ => false end)
          | None => mret false
          end;
  ok_text env resp (snprintf 512 (object [
    member "status" (quoted_text "ok"); member "service" (quoted_text "sso"); member "version" (quoted_text "1.1.0");
    member "checks" (object [member "database" (object [member "status" (quoted_text (if ready : bool then "ready" else "unavailable"))])])])).

Definition plain_response (content_type body : cstr) resp : http_response_t :=
  {| rs_status_code := 200; rs_body := strdup (e_alloc env) body; rs_content_type := content_type;
     rs_extra_headers := rs_extra_headers resp; rs_cors_origin := rs_cors_origin resp |}.
Definition handle_metrics req resp : handler http_response_t :=
  if negb (e_arena env 2048 && e_arena env 8192) then fail env resp 500 "Out of memory"
  else
    s ← get_state;
    match perm_engine_get_metrics (match w_engine (ss_world s) with Some _ => Some (ss_metrics s) | None => None end) 2048 with
    | Err _ => fail env resp 500 "Failed to retrieve metrics"
    | Ok perm => mret (plain_response "text/plain; version=0.0.4; charset=utf-8" (snprintf 8192 (metrics_text perm pm)) resp)
    end.

(** One variable is both the count of ids and the total; every backend
    writes the total first. *)
Definition handle_admin_status req resp : handler http_response_t :=
  r ← on_world (user_list cx None (-1) 0 0);
  let users := match r with Ok (ids, _) => Z.of_nat (length ids) | Err _ => left_over end in
  if negb (e_arena env 2048) then fail env resp 500 "Out of memory"
  else ok_text env resp (snprintf 2048 (object [
    member "service" (quoted_text "sso"); member "version" (quoted_text "1.0.0"); member "users" (print_llu users);
    member "uptime_ms" (print_llu (e_mono env))])).

(** The log of the backend, or the file. *)
Definition log_path : cstr :=
  match cfg with Some c => match s_audit_log_path c with [] => "audit.log" | p => p end | None => "audit.log" end.
Definition log_of_file (q : log_query) resp : handler http_response_t :=
  s ← get_state;
  match au_files (ss_audit s) !! log_path with
  | None => ok_text env resp "[]"
  | Some text =>
      if negb (e_arena env LOG_CAP && e_arena env 10240) then fail env resp 500 "Out of memory"
      else
        json ← lift (collect_lines (lq_uid q) (lq_offset q) (lq_limit q) (log_lines text) 0 0 true ["["%char]);
        ok_text env resp (json ++ ["]"%char])
  end.
Definition handle_list_audit_logs req resp : handler http_response_t :=
  let q := log_query_of (rq_query_params req) in
  match cx_backend cx ≫= sb_audit_log_list with
  | Some f =>
      r ← on_store (f (lq_uid q) (lq_offset q) (lq_limit q));
      match r with
      | Ok (Some json, _) => ok_text env resp json
      | _ => log_of_file q resp
      end
  | None => log_of_file q resp
  end.

(** A file of the documentation; the body is memory of the arena.  The
    second component says so. *)
Definition serve_file (path content_type : cstr) (absent : cstr) resp : http_response_t * bool :=
  match file path with
  | None => (sso_response_error env 404 absent resp, false)
  | Some bytes =>
      if negb (e_arena env (Z.of_nat (length bytes) + 1)) then (sso_response_error env 500 "Out of memory" resp, false)
      else
        ({| rs_status_code := 200; rs_body := Some bytes; rs_content_type := content_type;
            rs_extra_headers := rs_extra_headers resp; rs_cors_origin := rs_cors_origin resp |}, true)
  end.
Definition handle_swagger_ui req resp : http_response_t * bool :=
  serve_file "docs/swagger-ui.html" "text/html; charset=utf-8" "Swagger UI template not found" resp.
Definition handle_openapi_yaml req resp : http_response_t * bool :=
  serve_file "docs/openapi.yaml" "application/yaml; charset=utf-8" "openapi.yaml not found" resp.

(** The page handlers by name, for the route table. *)
Definition page_impl (other : string → http_request_t → http_response_t → handler (sso_error_t * http_response_t))
    (name : string) req resp : handler (sso_error_t * http_response_t) :=
  if String.eqb name "handle_health" then r ← handle_health req resp; mret (SSO_OK, r)
  else if String.eqb name "handle_metrics" then r ← handle_metrics req resp; mret (SSO_OK, r)
  else if String.eqb name "handle_admin_status" then r ← handle_admin_status req resp; mret (SSO_OK, r)
  else if String.eqb name "handle_list_audit_logs" then r ← handle_list_audit_logs req resp; mret (SSO_OK, r)
  else if String.eqb name "handle_swagger_ui" then mret (SSO_OK, (handle_swagger_ui req resp).1)
  else if String.eqb name "handle_openapi_yaml" then mret (SSO_OK, (handle_openapi_yaml req resp).1)
  else other name req resp.
End Handlers.
