(* ===== verification/Samples.v ===== *)
(** * A concrete server

    Stand-ins for the libraries and a server over the in-memory backend,
    on which the handlers are run.  The hash is a toy that depends on
    every byte of its input; bodies are texts [k=v&k=v] that the reader
    turns into an object of strings. *)

From S2P Require Import Prelude CLib CNum Json Types Storage StorageMemory PermCache Context UserMgr RoleMgr RateLimit Mfa Bits Base64 TokenState Token TokenScan TokenJwt Printf PermEngine AuditLog Dpop Risk Http AuthHandlers Oauth.

(** The stand-ins, to be imported where something is run. *)
Module Toy.

Definition toy_hash (n : nat) (l : list Z) : list Z :=
  let h := fold_left (λ h b, (h * 1099511628211 + b) mod 2 ^ 61) l 1469598103934665603 in
  map (λ i, u8 (Z.shiftr (h * (2 * Z.of_nat i + 1)) 17)) (seq 0 n).

#[export] Instance toy_crypto : Crypto :=
  {| hmac_sha256 := λ key msg, toy_hash 32 (key ++ msg); pkey := unit;
     read_private := λ _, Some tt; read_public := λ _, Some tt; derive_public := Some;
     rsa_sign := λ _ _, None; rsa_verify := λ _ _ _, Some false; pointer_bytes := λ _ _, replicate 32 0 |}.
#[export] Instance toy_rsa_params : RsaParams := λ _, None.
#[export] Instance toy_sha : Sha256 := λ m, toy_hash 32 m.
#[export] Instance toy_hmac : Hmac := λ key msg, Some (toy_hash 20 (key ++ msg)).
#[export] Instance toy_rsa : RsaKeys := λ n _ _ sig, bool_decide (sig = n).
#[export] Instance toy_writer : JsonWriter := sample_writer.
#[export] Instance toy_interner : Interner := sample_interner.
#[export] Instance toy_pwhash : Pwhash := tag_pwhash.
(** Any text is read as the functional rule that allows it. *)
#[export] Instance toy_reader : JsonReader := λ t,
  Some (JObj [("functions" : cstr, JArr [JObj [("code" : cstr, JStr t); ("effect" : cstr, JStr "allow")]])]).
#[export] Instance toy_curl : Curl :=
  {| curl_ready := true; sms_gateway_url := None; sms_api_key := None; curl_post := λ _ _, None |}.

Lemma toy_hash_bytes n l : length (toy_hash n l) = n ∧ Forall (λ b, 0 ≤ b < 256) (toy_hash n l).
Proof.
  unfold toy_hash. split; [by rewrite length_map, length_seq|]. apply Forall_forall. intros x Hx.
  apply list_elem_of_In, in_map_iff in Hx as (i & <- & _). apply Z.mod_pos_bound. lia.
Qed.
#[export] Instance toy_sha_laws : Sha256Laws.
Proof. intros m. apply toy_hash_bytes. Qed.

(** [k=v&k=v] as an object. *)
Definition toy_member (s : cstr) : list ascii * json :=
  match strchr s "=" with Some i => (take i s, JStr (drop (S i) s)) | None => (s, JNull) end.
#[export] Instance toy_insitu : InsituReader := λ b, (Some (JObj (map toy_member (split_on "&" b))), b).

End Toy.
Import Toy.

(** Users: alice logs in with a password, bob has a second factor too. *)
Definition alice : user_t :=
  {| u_id := 7; u_username := "alice"; u_phone := "555"; u_password_hash := "$Passw0rd!"; u_email := "a@x"; u_display_name := "Alice";
     u_status := USER_STATUS_ACTIVE; u_created_at := 0; u_updated_at := 0; u_attributes := []; u_mfa_enabled := 0;
     u_mfa_secret := []; u_password_set_at := 0 |}.
Definition bob_secret : cstr := mfa_generate_secret (replicate 20 66) 64.
Definition bob : user_t :=
  {| u_id := 8; u_username := "bob"; u_phone := []; u_password_hash := "$Hunter2!x"; u_email := "b@x"; u_display_name := "Bob";
     u_status := USER_STATUS_ACTIVE; u_created_at := 0; u_updated_at := 0; u_attributes := []; u_mfa_enabled := 1;
     u_mfa_secret := bob_secret; u_password_set_at := 0 |}.

Definition store0 : mem_priv_t := StorageMemory.set_users {| items := [alice; bob]; cap := 64 |} mem_open.

Definition manager0 : token_manager :=
  {| tm_mode := SSO_TOKEN_MODE_HS256; slot0 := hs256_slot "sso-key-1" [1; 2; 3]; slot1 := zero_slot; active_slot := false;
     rotation_counter := 1; default_ttl_ms := 3600000; tables := empty_tables |}.

Definition no_metrics : engine_metrics_t :=
  {| total_evals := 0; cache_hits_l1 := 0; cache_hits_l2 := 0; allows := 0; denys := 0; total_duration_us := 0 |}.

Definition server0 : sso_state mem_priv_t compiled_rule :=
  {| ss_body := None; ss_doc := None; ss_world := {| w_store := store0; w_engine := Some empty_caches |}; ss_tokens := manager0;
     ss_limiter := Some (replicate 64 free_entry); ss_risk := risk_init; ss_metrics := no_metrics; ss_audit := audit_boot |}.

Definition config0 : option oauth_config :=
  Some {| cf_client_id := "web"; cf_client_secret := "s3cret"; cf_redirect_uris := "https://app/cb, https://app/x";
          cf_issuer := []; cf_auth_code_ttl_ms := 0; cf_token_ttl_ms := 0 |}.

(** The surroundings of the request made at second [t]. *)
Definition env_at (t : Z) : request_env :=
  {| e_now := 1700000000000 + t * 1000; e_mono := 1000000 + t * 1000; e_alloc := λ _, true; e_arena := λ _, true;
     e_token_random := λ n, (map (λ i, u8 (t + i)) [1; 2; 3; 4; 5; 6; 7; Z.of_nat n], map u8 [t; t + 1; Z.of_nat n; 77]);
     e_secret_random := replicate 20 65; e_code_random := map (λ i, u8 (t + i)) [1; 2; 3; 4; 5; 6; 7; 8; 9; 10; 11; 12; 13; 14; 15; 16];
     e_rand := 123456; e_audit := quiet_env |}.

Notation cx_at t := (mem_context (e_now (env_at t)) (e_alloc (env_at t)) 64).

(** A request; the body is put into the state. *)
Definition request (m : http_method_t) (path token : cstr) (params : list cstr) : http_request_t :=
  {| rq_method := m; rq_path := path; rq_client_ip := "10.0.0.9"; rq_query_params := Some params; rq_auth_token := token;
     rq_origin := []; rq_dpop_proof := []; rq_host := "sso"; rq_method_str := "POST"; rq_user_agent := "test";
     rq_userdata := None |}.
Definition with_body (b : cstr) (s : sso_state mem_priv_t compiled_rule) : sso_state mem_priv_t compiled_rule := set_req (Some b) None s.

(** The value of a header, and of a quoted member of a body. *)
Definition value_after (mark stop : cstr) (t : cstr) : cstr :=
  match strstr t mark with
  | None => []
  | Some i => let v := drop (i + length mark) t in match strstr v stop with Some j => take j v | None => v end
  end.
Definition header_value (k : string) (r : http_response_t) : cstr :=
  value_after (list_ascii_of_string k ++ (": " : cstr)) CRLF (rs_extra_headers r).
Definition body_value (k : string) (r : http_response_t) : cstr :=
  value_after (quoted_text (list_ascii_of_string k) ++ ":"%char :: [QUOTE]) [QUOTE] (default [] (rs_body r)).

(** Alice's login. *)
Definition login_req : http_request_t := request HTTP_POST "/api/v1/auth/login" [] [].
Definition login_state : sso_state mem_priv_t compiled_rule := with_body "username=alice&password=Passw0rd!" server0.
Notation login_run := (handle_login (cx_at 0) no_expiry (env_at 0) login_req (init_response login_req) login_state).

(** A run that returns with a given status. *)
Lemma run_status {T} (m : outcome (http_response_t * T)) z :
  (λ x, rs_status_code x.1) <$> returned m = Some z → ∃ r s, m = Ret (r, s) ∧ rs_status_code r = z.
Proof. destruct m as [[r s]| |]; [|done|done]. intros [= <-]. eauto. Qed.

Lemma login_works : ∃ r s, login_run = Ret (r, s) ∧ rs_status_code r = 200.
Proof. apply run_status. vm_compute. reflexivity. Qed.
