(* ===== verification/PagesSafety.v ===== *)
(** * What the page and monitoring endpoints guarantee (src/handlers_pages.c)

    The audit log that is served is the part of the file that was asked
    for, as long as it fits one block. *)

From S2P Require Import Prelude CLib CNum Json Types Storage StorageMemory PermCache Context UserMgr RateLimit Mfa Bits Base64 TokenState Token TokenScan TokenJwt Printf PermEngine AuditLog Dpop Risk Http AuthHandlers Oauth AdminHandlers Pages Samples.

(* ------------------------------------------------------------------ *)
(** ** Lines of a file *)

Lemma fgets_split n s : let '(l, rest) := fgets n s in l ++ rest = s.
Proof.
  revert s. induction n as [|n IH]; intros [|c s]; cbn [fgets]; try done. destruct (Ascii.eqb c (chr 10)); [done|].
  specialize (IH s). destruct (fgets n s). cbn. by rewrite IH.
Qed.
Lemma fgets_shorter n c s : (0 < n)%nat → let '(l, rest) := fgets n (c :: s) in (length rest ≤ length s)%nat.
Proof.
  intros Hn. destruct n as [|n]; [lia|]. cbn [fgets]. destruct (Ascii.eqb c (chr 10)); [done|]. pose proof (fgets_split n s) as H. destruct (fgets n s) as [l rest].
  rewrite <- H, length_app. lia.
Qed.
Lemma line_size_pos : (0 < LOG_LINE - 1)%nat.
Proof. unfold LOG_LINE. lia. Qed.
(** Nothing of the file is lost, and the fuel is enough. *)
Lemma fgets_all_concat fuel s : (length s ≤ fuel)%nat → concat (fgets_all fuel s) = s.
Proof.
  revert s. induction fuel as [|fuel IH]; intros [|c s] Hl; cbn [fgets_all]; try done; [cbn in Hl; lia|].
  pose proof (fgets_split (LOG_LINE - 1) (c :: s)) as H1. pose proof (fgets_shorter (LOG_LINE - 1) c s line_size_pos) as H2.
  destruct (fgets (LOG_LINE - 1) (c :: s)) as [l rest].
  cbn [concat]. rewrite IH; [done|]. cbn in Hl. lia.
Qed.
(** A line that fits the buffer is read as one. *)
Lemma fgets_line n l rest : (length l < n)%nat → chr 10 ∉ l → fgets n (l ++ chr 10 :: rest) = (l ++ [chr 10], rest).
Proof.
  revert n. induction l as [|c l IH]; intros [|n] Hl Hc; cbn [fgets app length] in *; try lia; [by rewrite Ascii.eqb_refl|].
  apply not_elem_of_cons in Hc as [Hc Hl']. destruct (Ascii.eqb c (chr 10)) eqn:E; [apply Ascii.eqb_eq in E; congruence|].
  rewrite IH; [done|lia|done].
Qed.
Lemma fgets_all_lines fuel (ls : list cstr) :
  Forall (λ l, (length l < LOG_LINE - 1)%nat ∧ chr 10 ∉ l) ls → (length (concat (map (λ l, l ++ [chr 10]) ls)) ≤ fuel)%nat →
  fgets_all fuel (concat (map (λ l, l ++ [chr 10]) ls)) = map (λ l, l ++ [chr 10]) ls.
Proof.
  intros H. revert fuel. induction H as [|l ls [H1 H2] _ IH]; intros fuel Hf; cbn [map concat] in *; [by destruct fuel|].
  rewrite <- app_assoc in *. rewrite !length_app in Hf. cbn [length app] in Hf.
  destruct fuel as [|fuel]; [lia|]. cbn [app]. pose proof (fgets_line (LOG_LINE - 1) l (concat (map (λ l, l ++ [chr 10]) ls)) H1 H2) as Hr.
  unfold fgets_all at 1. fold fgets_all.
  destruct (l ++ chr 10 :: _) as [|c s] eqn:E; [by destruct l|]. rewrite Hr. f_equal. apply IH. rewrite length_concat, map_map in *. lia.
Qed.
Lemma log_lines_of (ls : list cstr) :
  Forall (λ l, (length l < LOG_LINE - 1)%nat ∧ chr 10 ∉ l) ls → log_lines (concat (map (λ l, l ++ [chr 10]) ls)) = map (λ l, l ++ [chr 10]) ls.
Proof. intros H. by apply fgets_all_lines. Qed.

(* ------------------------------------------------------------------ *)
(** ** The page of the log *)

(** The lines asked for. *)
Definition page_of (uid offset limit : Z) (lines : list (list ascii)) : list cstr :=
  map line_text (take (Z.to_nat limit) (filter (λ l, line_wanted uid l = true) (drop (Z.to_nat offset) lines))).
(** What the loop asks the block for at its last line. *)
Definition page_size (page : list cstr) : Z :=
  match page with [] => 0 | [l] => Z.of_nat (length l) + 4 | _ => Z.of_nat (length (commas page)) + 3 end.

Fixpoint add_lines (first : bool) (json : cstr) (page : list cstr) : outcome cstr :=
  match page with
  | [] => Ret json
  | t :: page =>
      if LOG_CAP <? Z.of_nat (length json + length t) + 3 then Crash
      else add_lines false (json ++ (if first then [] else [","%char]) ++ t) page
  end.
Lemma collect_lines_page uid offset limit lines ln mi first json :
  0 ≤ mi < limit → 0 ≤ ln → collect_lines uid offset limit lines ln mi first json = add_lines first json (page_of uid (offset - ln) (limit - mi) lines).
Proof.
  unfold page_of. revert ln mi first json. induction lines as [|l lines IH]; intros ln mi first json Hm Hn; cbn [collect_lines].
  { by rewrite drop_nil, filter_nil, take_nil. }
  destruct ((0 <? offset) && (ln + 1 <=? offset)) eqn:Eo.
  - rewrite IH by lia. replace (Z.to_nat (offset - ln)) with (Datatypes.S (Z.to_nat (offset - (ln + 1)))) by lia. done.
  - assert (Hz : Z.to_nat (offset - ln) = O) by lia. assert (Hz' : Z.to_nat (offset - (ln + 1)) = O) by lia. rewrite Hz. cbn [drop].
    rewrite filter_cons. destruct (line_wanted uid l) eqn:Ew; cbn [negb]; [|rewrite IH, Hz' by lia; by rewrite decide_False by done].
    rewrite decide_True by done. replace (Z.to_nat (limit - mi)) with (Datatypes.S (Z.to_nat (limit - (mi + 1)))) by lia. cbn [take map add_lines].
    destruct (LOG_CAP <? _); [done|]. destruct (limit <=? mi + 1) eqn:El.
    + by replace (Z.to_nat (limit - (mi + 1))) with O by lia.
    + rewrite IH by lia. by rewrite Hz'.
Qed.
Lemma add_lines_more json page :
  add_lines false json page =
  match page with
  | [] => Ret json
  | _ => if LOG_CAP <? Z.of_nat (length json + length (commas page)) + 3 then Crash else Ret (json ++ ","%char :: commas page)
  end.
Proof.
  revert json. induction page as [|t page IH]; intros json; [done|]. cbn [add_lines].
  destruct (LOG_CAP <? Z.of_nat (length json + length t) + 3) eqn:E.
  - rewrite (proj2 (Z.ltb_lt _ _)); [done|]. apply Z.ltb_lt in E. destruct page; [done|]. rewrite commas_cons, length_app by done. cbn. lia.
  - rewrite IH. destruct page as [|u page]; [cbn [commas]; by rewrite E|]. rewrite (commas_cons t) by done. rewrite !length_app. cbn [app length].
    replace (length json + (1 + length t) + length (commas (u :: page)))%nat
      with (length json + (length t + Datatypes.S (length (commas (u :: page)))))%nat by lia.
    rewrite <- !app_assoc. by destruct (LOG_CAP <? _).
Qed.
Lemma collect_lines_spec uid offset limit lines :
  0 < limit → collect_lines uid offset limit lines 0 0 true ["["%char] =
  let page := page_of uid offset limit lines in if page_size page <=? LOG_CAP then Ret ("["%char :: commas page) else Crash.
Proof.
  intros Hl. rewrite collect_lines_page by lia. rewrite !Z.sub_0_r. cbv zeta. destruct (page_of uid offset limit lines) as [|t page]; [done|].
  cbn [add_lines]. destruct page as [|u page]; unfold page_size; cbn [length].
  - cbn [commas add_lines]. destruct (LOG_CAP <? _) eqn:E; destruct (_ <=? LOG_CAP) eqn:E'; try done; exfalso; reflect_bools; lia.
  - rewrite add_lines_more, (commas_cons t) by done. rewrite !length_app. cbn [length app].
    destruct (LOG_CAP <? Z.of_nat (1 + length t) + 3) eqn:E1; [|destruct (LOG_CAP <? Z.of_nat (1 + _ + _) + 3) eqn:E2];
      destruct (_ <=? LOG_CAP) eqn:E'; try done; exfalso; reflect_bools; lia.
Qed.

(** The terminator of a line plays no part. *)
Lemma strstr_snoc (s p : cstr) c : c ∉ p → is_Some (strstr (s ++ [c]) p) ↔ is_Some (strstr s p).
Proof.
  intros Hc. assert (Hpre : ∀ j, p `prefix_of` drop j (s ++ [c]) → p `prefix_of` drop j s).
  { intros j [k Hk]. destruct (decide (j ≤ length s)%nat) as [Hj|Hj].
    - rewrite drop_app_le in Hk by done. destruct k as [|c' k' _] using rev_ind.
      + rewrite app_nil_r in Hk. subst p. set_solver.
      + rewrite app_assoc in Hk. apply app_inj_tail in Hk as [Hk _]. by exists k'.
    - rewrite drop_ge in Hk by (rewrite length_app; cbn; lia). symmetry in Hk. apply app_eq_nil in Hk as [-> _]. apply prefix_nil. }
  split; intros [i Hi].
  - destruct (strstr s p) as [k|] eqn:E; [by eexists|]. destruct (strstr_Some _ _ _ Hi) as [Hp _]. by destruct (strstr_None _ _ E i (Hpre i Hp)).
  - destruct (strstr (s ++ [c]) p) as [k|] eqn:E; [by eexists|]. destruct (strstr_Some _ _ _ Hi) as [[k Hk] _].
    exfalso. apply (strstr_None _ _ E i). destruct (decide (i ≤ length s)%nat) as [Hj|Hj].
    + rewrite drop_app_le, Hk, <- app_assoc by done. by eexists.
    + rewrite drop_ge in Hk by lia. symmetry in Hk. apply app_eq_nil in Hk as [-> _]. apply prefix_nil.
Qed.
Lemma print_llu_no_lf z : chr 10 ∉ print_llu z.
Proof.
  intros Hin. unfold print_llu in Hin. destruct (print_dec_spec (u64 z)) as (_ & Hd & _); [apply u64_range|].
  rewrite Forall_forall in Hd. specialize (Hd _ Hin). vm_compute in Hd. discriminate.
Qed.
Lemma uid_pattern_no_lf uid : chr 10 ∉ uid_pattern uid.
Proof.
  unfold uid_pattern, snprintf. intros Hin%elem_of_take. destruct Hin as (i & Hi & _). apply list_elem_of_lookup_2 in Hi.
  assert (He : member "user_id" (print_llu uid) = (quoted_text "user_id" ++ [":"%char]) ++ print_llu uid) by done.
  rewrite He in Hi. apply elem_of_app in Hi as [Hi|Hi]; [|by apply print_llu_no_lf in Hi].
  rewrite list_elem_of_In in Hi. vm_compute in Hi. intuition discriminate.
Qed.

(** A line of the log: it fits the buffer and holds no line break. *)
Definition log_line_ok (l : cstr) : Prop := (length l < LOG_LINE - 1)%nat ∧ chr 10 ∉ l ∧ NUL ∉ l.
Definition log_text (ls : list cstr) : cstr := concat (map (λ l, l ++ [chr 10]) ls).
(** The lines of a user by the text of their member [user_id]. *)
Definition names_user (uid : Z) (l : cstr) : Prop := uid = 0 ∨ is_Some (strstr l (uid_pattern uid)).
#[global] Instance names_user_dec uid l : Decision (names_user uid l).
Proof. apply _. Defined.

Lemma terminated_text l : log_line_ok l → c_str (l ++ [chr 10]) = l ++ [chr 10] ∧ line_text (l ++ [chr 10]) = l.
Proof.
  intros (_ & Hlf & Hnul). assert (Hc : c_str (l ++ [chr 10]) = l ++ [chr 10]) by (apply c_str_id; set_solver).
  split; [done|]. unfold line_text. rewrite Hc, take_while_app; [|].
  - cbn. by rewrite app_nil_r.
  - apply Forall_forall. intros c Hin. destruct (Ascii.eqb c (chr 10)) eqn:E; [|done]. apply Ascii.eqb_eq in E. by subst c.
Qed.
Lemma terminated_wanted uid l : log_line_ok l → line_wanted uid (l ++ [chr 10]) = true ↔ names_user uid l.
Proof.
  intros Hl. unfold line_wanted, names_user. rewrite (proj1 (terminated_text l Hl)), orb_true_iff, bool_decide_eq_true, Z.eqb_eq.
  by rewrite strstr_snoc by apply uid_pattern_no_lf.
Qed.
Lemma page_of_log uid offset limit ls :
  Forall log_line_ok ls → page_of uid offset limit (log_lines (log_text ls)) = take (Z.to_nat limit) (filter (names_user uid) (drop (Z.to_nat offset) ls)).
Proof.
  intros Hls. unfold page_of, log_text. rewrite log_lines_of by (eapply Forall_impl; [exact Hls|]; by intros l (? & ? & _)).
  rewrite skipn_map, <- firstn_map. apply (Forall_drop _ (Z.to_nat offset)) in Hls. f_equal.
  induction Hls as [|l rest Hl _ IH]; [done|]. cbn [map]. rewrite !filter_cons. pose proof (terminated_wanted uid l Hl) as Hw.
  destruct (decide (names_user uid l)) as [Hn|Hn].
  - rewrite decide_True by tauto. cbn [map]. by rewrite IH, (proj2 (terminated_text l Hl)).
  - by rewrite decide_False by tauto.
Qed.
Lemma log_query_limits params : 0 < lq_limit (log_query_of params) ≤ 1000 ∧ 0 ≤ lq_offset (log_query_of params).
Proof.
  unfold log_query_of. assert (H : ∀ l q, 0 < lq_limit q ≤ 1000 ∧ 0 ≤ lq_offset q →
    0 < lq_limit (foldl log_param q l) ≤ 1000 ∧ 0 ≤ lq_offset (foldl log_param q l)); [|by apply H].
  induction l as [|p l IH]; intros q Hq; [done|]. cbn [foldl]. apply IH. unfold log_param. destruct (strchr p "="); [|done].
  cbn. repeat (case_match; reflect_bools; try lia).
Qed.

Section Served.
Context {S C : Type} `{Crypto}.
Context (cx : sso_context S) (env : request_env) (cfg : option audit_settings).
Implicit Types (req : http_request_t) (resp : http_response_t) (s : sso_state S C).

Lemma audit_log_file req resp s ls :
  cx_backend cx ≫= sb_audit_log_list = None → au_files (ss_audit s) !! log_path cfg = Some (log_text ls) → Forall log_line_ok ls →
  (∀ n, e_arena env n = true) →
  let q := log_query_of (rq_query_params req) in
  let page := take (Z.to_nat (lq_limit q)) (filter (names_user (lq_uid q)) (drop (Z.to_nat (lq_offset q)) ls)) in
  handle_list_audit_logs cx env cfg req resp s =
    if page_size page <=? LOG_CAP then Ret (sso_response_ok env ("["%char :: commas page ++ ["]"%char]) resp, s) else Crash.
Proof.
  intros Hb Hf Hls Ha q page. unfold handle_list_audit_logs. rewrite Hb. unfold log_of_file.
  rewrite (handler_bind_Ret _ get_state s s s) by done. rewrite Hf, !Ha. cbn [andb negb]. fold q. unfold lift.
  unfold mbind, handler_bind. rewrite collect_lines_spec by apply log_query_limits. rewrite page_of_log by done. fold page. cbv zeta.
  by destruct (page_size page <=? LOG_CAP).
Qed.
(** Without a log of the backend, the answer is the array of the lines of
    the file that were asked for: after the offset, of the user, as many
    as the limit.  When they do not fit 4096 bytes the block of the arena
    is given to [realloc]. *)
Theorem audit_log_served req resp s ls :
  cx_backend cx ≫= sb_audit_log_list = None → au_files (ss_audit s) !! log_path cfg = Some (log_text ls) → Forall log_line_ok ls →
  (∀ n, e_arena env n = true) →
  let q := log_query_of (rq_query_params req) in
  let page := take (Z.to_nat (lq_limit q)) (filter (names_user (lq_uid q)) (drop (Z.to_nat (lq_offset q)) ls)) in
  handle_list_audit_logs cx env cfg req resp s =
    if page_size page <=? LOG_CAP then Ret (sso_response_ok env ("["%char :: commas page ++ ["]"%char]) resp, s) else Crash.
Proof. apply audit_log_file. Qed.
End Served.


(** A page of no ids. *)
Lemma list_scan_none {A} (idf : A → Z) sel rows matched : 0 ≤ matched → (list_scan idf sel 0 0 rows matched []).2 = [].
Proof.
  revert matched. induction rows as [|o rows IH]; intros m Hm; cbn [list_scan]; [done|]. destruct (sel o); cbn [negb]; [|by apply IH].
  replace (m <? 0) with false by lia. replace (0 <=? m - 0) with true by lia. apply IH. lia.
Qed.
(** The status of the system counts no users, whatever the store holds:
    the count of the ids asked for, which are none, is written over the
    total. *)
Theorem admin_status_no_users {C} `{Crypto} now alloc fuel env left_over req resp (s : sso_state mem_priv_t C) :
  e_arena env 2048 = true →
  handle_admin_status (mem_context now alloc fuel) env left_over req resp s =
    Ret (sso_response_ok env (snprintf 2048 (object [member "service" (quoted_text "sso"); member "version" (quoted_text "1.0.0");
           member "users" ("0" : cstr); member "uptime_ms" (print_llu (e_mono env))])) resp, s).
Proof.
  intros Ha. unfold handle_admin_status, on_world, user_list, call. unfold mbind at 1, handler_bind. cbn [mem_context cx_backend mbind option_bind storage_memory_create sb_user_list].
  unfold mem_user_list, MK_LIST. change (u64 0) with 0. destruct (list_scan _ _ 0 0 (items (users (w_store (ss_world s)))) 0 []) as [n ids] eqn:E.
  match type of E with list_scan ?f ?g _ _ ?l _ _ = _ => pose proof (list_scan_none f g l 0 (Z.le_refl 0)) as Hn end.
  rewrite E in Hn. cbn in Hn. subst ids. cbn [mbind outcome_bind fst snd].
  rewrite Ha. cbn [negb length]. by destruct s, ss_world.
Qed.

(** Lines of other users are served too: the member of user 12 begins
    like the one of user 1. *)
Definition user_line (uid : Z) : cstr := object [member "action" (quoted_text "admin"); member "user_id" (print_llu uid); member "username" (quoted_text "x")].
Theorem audit_filter_prefix : names_user 1 (user_line 1) ∧ names_user 1 (user_line 12) ∧ ¬ names_user 1 (user_line 21).
Proof. repeat split; [right; vm_compute; eauto|right; vm_compute; eauto|]. intros [|[? Hx]]; [done|vm_compute in Hx; discriminate]. Qed.

Definition log_test (ls : list cstr) : bool :=
  forallb (λ l, (length l <? LOG_LINE - 1)%nat && forallb (λ c, negb (char_in [chr 10; NUL] c)) l) ls.
Lemma log_test_ok ls : log_test ls = true → Forall log_line_ok ls.
Proof.
  unfold log_test. rewrite forallb_forall. intros Hf. apply Forall_forall. intros l Hl%list_elem_of_In.
  specialize (Hf l Hl). apply andb_true_iff in Hf as [H1 H2]. rewrite forallb_forall in H2.
  split; [by apply Nat.ltb_lt|]. split; intros Hin%list_elem_of_In; specialize (H2 _ Hin); vm_compute in H2; discriminate.
Qed.

Import Toy.
Definition log_state (ls : list cstr) : sso_state mem_priv_t compiled_rule :=
  set_audit (set_files {[ s_audit_log_path audit_cfg := log_text ls ]} (ss_audit server0)) server0.
Definition log_req : http_request_t := request HTTP_GET "/api/v1/audit/logs" [] ["user_id=8" : cstr; "limit=2" : cstr].
Definition some_log : list cstr := [user_line 7; user_line 8; user_line 9; user_line 8; user_line 8].
Lemma audit_log_served_witness :
  handle_list_audit_logs (cx_at 0) (env_at 0) (Some audit_cfg) log_req (init_response log_req) (log_state some_log) =
  Ret (sso_response_ok (env_at 0) ("["%char :: commas [user_line 8; user_line 8] ++ ["]"%char]) (init_response log_req), log_state some_log).
Proof.
  pose proof (audit_log_served (cx_at 0) (env_at 0) (Some audit_cfg) log_req (init_response log_req) (log_state some_log) some_log
                eq_refl ltac:(vm_compute; reflexivity) ltac:(apply log_test_ok; vm_compute; reflexivity) (λ _, eq_refl)) as Hs.
  cbv zeta in Hs.
  match type of Hs with context [take ?n ?l] => replace (take n l) with [user_line 8; user_line 8] in Hs by (vm_compute; reflexivity) end.
  replace (page_size _ <=? LOG_CAP) with true in Hs by (vm_compute; reflexivity). exact Hs.
Defined.
(** More than a block: two long lines. *)
Definition long_log : list cstr := replicate 2 (user_line 8 ++ replicate (Z.to_nat 2100) "x"%char).
Theorem audit_log_overruns :
  handle_list_audit_logs (cx_at 0) (env_at 0) (Some audit_cfg) log_req (init_response log_req) (log_state long_log) = Crash.
Proof.
  pose proof (audit_log_file (cx_at 0) (env_at 0) (Some audit_cfg) log_req (init_response log_req) (log_state long_log) long_log
                eq_refl ltac:(vm_compute; reflexivity) ltac:(apply log_test_ok; vm_compute; reflexivity) (λ _, eq_refl)) as Hs.
  cbv zeta in Hs. replace (page_size _ <=? LOG_CAP) with false in Hs by (vm_compute; reflexivity). exact Hs.
Qed.
