(* ===== verification/AuthSafety.v ===== *)
(** * What the authentication endpoints guarantee

    Properties of the handlers of src/handlers_auth.c over any storage
    backend: what a successful login implies, the lockout of an address,
    and what logging out everywhere does to older tokens. *)

From S2P Require Import Prelude CLib CNum Json Types Storage StorageMemory PermCache Context UserMgr RoleMgr RateLimit Mfa Bits Base64 TokenState Token TokenScan TokenJwt Printf PermEngine AuditLog Dpop Risk Http AuthHandlers Oauth Samples.

(** One step of a handler that returned. *)
Ltac handler_step :=
  match goal with
  | H : mbind _ _ _ = Ret _ |- _ => apply handler_bind_inv in H as (? & ? & ? & H)
  | H : context [match ?x with pair _ _ => _ end] |- _ => destruct x as [? ?] eqn:?
  | H : (if ?b then _ else _) _ = Ret _ |- _ => destruct b eqn:?
  | H : match ?x with Some _ => _ | None => _ end _ = Ret _ |- _ => destruct x eqn:?
  | H : match ?x with Ok _ => _ | Err _ => _ end _ = Ret _ |- _ => destruct x eqn:?
  end.

(** A response that was written as an error is not a success. *)
Ltac not_ok := match goal with H : fail _ _ _ _ _ = Ret _, H2 : rs_status_code _ = 200 |- _ => injection H as <- <-; discriminate H2 end.

Section Safety.
Context {S C : Type} `{Crypto, InsituReader, JsonReader, JsonWriter, Interner, Sha256, RsaKeys, Pwhash, Hmac, Curl}.
Context (cx : sso_context S) (umgr : user_manager) (env : request_env).
Implicit Types (req : http_request_t) (resp r : http_response_t) (s : sso_state S C).

(** C6. Which requests the middleware lets in (functional, both
    directions): exactly those whose bearer token verifies now, is not
    revoked, carries no DPoP binding, names a user the store still has,
    and is not older than that user's last logout from all sessions.  In
    particular a token bound to a DPoP key is refused even with a valid
    proof, since the proof is compared with the token where the
    thumbprint is meant; and neither the status of the user nor the
    scope of the token is looked at. *)
Theorem authenticate_request_iff `{!Sha256Laws} req s a s' :
  authenticate_request cx env req s = Ret (Ok a, s') ↔ accepted cx env req s a s'.
Proof. split; [apply authenticate_inv|apply authenticate_intro]. Qed.

Lemma authenticate_Ok username password (w : world S C) user w' :
  user_authenticate cx umgr (e_now env) username password w = Ret (Ok user, w') →
  ∃ n pw, username = Some n ∧ password = Some pw ∧ u_status user = USER_STATUS_ACTIVE ∧
    crypto_pwhash_str_verify (u_password_hash user) pw = true ∧ password_expired umgr (e_now env) user = false ∧
    user_get_by_username cx (Some n) w = Ret (Ok user, w').
Proof.
  unfold user_authenticate, need. destruct username as [n|]; [|done]. destruct password as [pw|]; [|done].
  intros ([[u|e] w1] & Hg & H')%outcome_bind_inv; simpl in H'; [|done]. case_bool_decide; [|done]. simpl in H'.
  destruct (crypto_pwhash_str_verify _ _) eqn:Hv; [|done]. destruct (password_expired _ _ _) eqn:He; [done|].
  simpl in H'. injection H' as <- <-. eauto 10.
Qed.

(** The document of a request, and a text member of it. *)
Definition body_doc s : option json :=
  match ss_doc s with
  | Some d => Some d
  | None => match ss_body s with None | Some [] => None | Some b => (yyjson_read_insitu b).1 end
  end.
Definition body_str s (k : cstr) : option cstr := as_str (yyjson_obj_get (body_doc s) k).

(** Two states that differ in the request and the rate limiter only. *)
Definition same_context s s' : Prop :=
  ss_world s' = ss_world s ∧ ss_tokens s' = ss_tokens s ∧ ss_risk s' = ss_risk s.

Lemma json_str_inv k s v s' :
  req_json_str_value k s = Ret (v, s') →
  v = body_str s k ∧ same_context s s' ∧ ss_limiter s' = ss_limiter s ∧ (v ≠ None → body_doc s' = body_doc s).
Proof.
  unfold req_json_str_value. intros (d & s1 & Hd & Hr)%handler_bind_inv. injection Hr as <- <-.
  unfold req_get_json in Hd. unfold body_str, body_doc, same_context. destruct (ss_doc s) as [d0|] eqn:E1.
  { injection Hd as <- <-. by rewrite E1. }
  destruct (ss_body s) as [[|c b]|] eqn:E2; [by injection Hd as <- <-| |by injection Hd as <- <-].
  destruct (yyjson_read_insitu (c :: b)) as [d' b'] eqn:E3. injection Hd as <- <-. simpl.
  split_and!; [done..|]. by destruct d'.
Qed.

Lemma limit_inv k w m s b s' :
  limit env k w m s = Ret (b, s') → same_context s s' ∧ body_doc s' = body_doc s.
Proof.
  unfold limit, same_context. destruct (ss_limiter s); [|by intros [= <- <-]].
  intros ([e l'] & _ & Hr)%outcome_bind_inv. by injection Hr as <- <-.
Qed.

(** C5. A login that succeeds (safety): whatever the store, an answer 200
    is given only to a request within the rate limit whose user name is
    in the store and active, with a password that verifies and has not
    expired, at a risk below 80; and session tokens are in its headers
    only if the user has no second factor and the risk is below 40. *)
Theorem login_success req resp s r s' :
  handle_login cx umgr env req resp s = Ret (r, s') → rs_status_code r = 200 →
  ∃ username password user w' rk' score s1,
    limit env (rq_client_ip req) 60000 5 s = Ret (true, s1) ∧
    body_str s "username" = Some username ∧ body_str s "password" = Some password ∧
    user_get_by_username cx (Some username) (ss_world s) = Ret (Ok user, w') ∧
    u_status user = USER_STATUS_ACTIVE ∧
    crypto_pwhash_str_verify (u_password_hash user) password = true ∧ password_expired umgr (e_now env) user = false ∧
    risk_evaluate_login (u_id user) (Some (rq_client_ip req)) (Some (rq_user_agent req)) (e_now env) (ss_risk s) =
      Ret (score, rk') ∧
    score < RISK_SCORE_HIGH ∧
    (rs_extra_headers r ≠ rs_extra_headers resp → u_mfa_enabled user = 0 ∧ score < RISK_SCORE_MEDIUM).
Proof.
  unfold handle_login. intros Hh Hok. repeat (handler_step; try not_ok); subst.
  all: match goal with
         Hb : has_body _ = _, Hl : limit _ _ _ _ _ = Ret (?ok, ?s2), H1 : req_json_str_value _ _ = Ret (_, ?s3),
         H2 : req_json_str_value _ ?s3 = _, Ha : on_world _ _ = _, Hr : evaluate_risk _ _ _ _ = _ |- _ =>
         injection Hb as <- <-; pose proof (limit_inv _ _ _ _ _ _ Hl) as [(Hw1 & _ & Hk1) Hd1]; destruct ok; [|done];
         apply json_str_inv in H1 as (E1 & (Hw2 & _ & Hk2) & _ & Hd2);
         apply json_str_inv in H2 as (E2 & (Hw3 & _ & Hk3) & _ & _);
         apply on_world_inv in Ha as (w & Ha & ->);
         apply outcome_bind_inv in Hr as ([score rk'] & Hr & Heq); injection Heq as <- <-;
         apply authenticate_Ok in Ha as (n & pw & -> & -> & Hst & Hpw & Hexp & Hget);
         cbn [ss_risk set_world] in Hr; rewrite Hw3, Hw2, Hw1 in Hget; rewrite Hk3, Hk2, Hk1 in Hr;
         unfold body_str in E1, E2; rewrite Hd2, Hd1 in E2 by done; rewrite Hd1 in E1;
         exists n, pw; eexists _, w, rk', score, s2
       end.
  all: split_and!; [done..|reflect_bools; lia|].
  - intros Hhd. destruct Hhd. unfold login_mfa in Hh. repeat (handler_step; try not_ok). by injection Hh as <- <-.
  - intros _. reflect_bools. lia.
Qed.

(* ------------------------------------------------------------------ *)
(** ** An address that is locked out *)

Lemma evaluate_keeps_ips u ip ua now rk score rk' :
  risk_evaluate_login u (Some ip) ua now rk = Ret (score, rk') → g_ip_records rk' = g_ip_records rk.
Proof.
  unfold risk_evaluate_login. intros ([v r1] & Hv & Hr)%outcome_bind_inv. injection Hr as _ <-.
  by apply velocity_score_pos in Hv as [_ ?].
Qed.

(** Failures are counted whoever they are counted for. *)
Lemma failed_step seen st req u s s' :
  ips_wf seen st (g_ip_records (ss_risk s)) → fits (rq_client_ip req) → rq_client_ip req ∈ seen →
  (∀ set, (length (remove_dups (filter (λ x, ip_set x = set) seen)) ≤ CACHE_WAYS)%nat) →
  (∀ n t, st (rq_client_ip req) = Some (n, t) → n < 2 ^ 31 - 1) →
  risk_failed env req u s = Ret ((), s') →
  ips_wf seen (λ x, if bool_decide (rq_client_ip req = x) then add_failure (st x) (e_now env) else st x) (g_ip_records (ss_risk s')).
Proof.
  intros Hwf Hip Hin Hcap Hn. destruct (attempt_step _ _ _ _ (e_now env) Hwf Hip Hin Hcap Hn) as (r' & Hr & Hwf').
  unfold risk_failed, on_risk. intros (r1 & Hr1 & Hr2)%outcome_bind_inv. injection Hr2 as <-.
  assert (E : r1 = r'); [|by subst]. unfold risk_record_login_attempt in Hr1, Hr. destruct (ways _ _ !! _); [|done]. congruence.
Qed.

(** The lockout of an address keeps itself up (safety): once an
    address has ten failures of which the last is less than fifteen
    minutes old, no login from it succeeds, with the right password or
    without; every attempt that gets as far as the password is counted as
    one more failure, also when the password was right, and so starts the
    fifteen minutes again. *)
Theorem lockout_extends seen st req resp s r s' n t :
  ips_wf seen st (g_ip_records (ss_risk s)) → fits (rq_client_ip req) → rq_client_ip req ∈ seen →
  (∀ set, (length (remove_dups (filter (λ x, ip_set x = set) seen)) ≤ CACHE_WAYS)%nat) →
  st (rq_client_ip req) = Some (n, t) → 10 ≤ n < 2 ^ 31 - 1 → e_now env - t < FAIL_WINDOW_SEC * 1000 →
  handle_login cx umgr env req resp s = Ret (r, s') →
  rs_status_code r ∈ [400; 401; 429] ∧
  (rs_status_code r = 401 →
   ∃ st', ips_wf seen st' (g_ip_records (ss_risk s')) ∧ st' (rq_client_ip req) = Some (n + 1, e_now env)).
Proof.
  intros Hwf Hip Hin Hcap Hst Hn Ht. unfold handle_login. intros Hh.
  assert (Hstep : ∀ u (sa sb : sso_state S C), g_ip_records (ss_risk sa) = g_ip_records (ss_risk s) → risk_failed env req u sa = Ret ((), sb) →
    ∃ st', ips_wf seen st' (g_ip_records (ss_risk sb)) ∧ st' (rq_client_ip req) = Some (n + 1, e_now env)).
  { intros u sa sb Hsa Hf. eexists. split.
    - eapply failed_step; [by rewrite Hsa|done|done|done| |done]. intros n' t'. rewrite Hst. intros [= <- <-]. lia.
    - simpl. rewrite bool_decide_eq_true_2, Hst by done. unfold add_failure.
      destruct (Z.ltb_spec (FAIL_WINDOW_SEC * 1000) (e_now env - t)); [lia|done]. }
  assert (Hblock : ∀ u (sa sb : sso_state S C) score, ss_risk sa = ss_risk s → evaluate_risk env req u sa = Ret (score, sb) →
    score = 100 ∧ g_ip_records (ss_risk sb) = g_ip_records (ss_risk s)).
  { intros u sa sb score Hsa ([z rk] & Hz & Hr)%outcome_bind_inv. injection Hr as <- <-. rewrite Hsa in Hz. simpl.
    split; [|by eapply evaluate_keeps_ips]. apply evaluate_lower in Hz.
    rewrite ip_score_streak, (iw_streak _ _ _ Hwf), Hst in Hz by done. unfold streak_score, failure_score in Hz.
    cbn [ri_last_fail_ms ri_failed_count] in Hz. rewrite (proj2 (Z.ltb_lt _ _) Ht), (proj2 (Z.leb_le 10 n)) in Hz by lia. lia. }
  repeat handler_step; subst.
  all: try (injection Hh as <- <-; simpl; split; [set_solver|]; try done).
  all: repeat match goal with
       | Hb : has_body _ = _ |- _ => injection Hb as <- <-
       | Hl : limit _ _ _ _ _ = _ |- _ => apply limit_inv in Hl as [(_ & _ & ?) _]
       | H1 : req_json_str_value _ _ = _ |- _ => apply json_str_inv in H1 as (_ & (_ & _ & ?) & _)
       | Ha : on_world _ _ = _ |- _ => apply on_world_inv in Ha as (? & _ & ->)
       end.
  all: try match goal with He : evaluate_risk _ _ _ _ = _ |- _ => apply Hblock in He as [-> ?]; [|simpl; congruence] end.
  all: try match goal with Hx : (RISK_SCORE_HIGH <=? 100) = false |- _ => discriminate Hx end.
  all: intros _; match goal with Hf : risk_failed _ _ _ _ = Ret (?u, _) |- _ => destruct u; eapply Hstep; [|exact Hf] end.
  all: simpl; congruence.
Qed.

(* ------------------------------------------------------------------ *)
(** ** Logging out *)

Lemma revoked_keeps_nonces jti (t : token_tables) (st : S) b t' st' :
  token_is_revoked (cx_backend cx) (Some jti) t st = Ret (b, t', st') → nonces t' = nonces t.
Proof.
  assert (Hs : nonces (sorted_tables t) = nonces t) by (unfold sorted_tables; destruct (jtis t), (rev_sorted t); done).
  unfold token_is_revoked. destruct (match jtis (sorted_tables t) with [] => _ | _ => _ end); [by intros [= _ <- _]|].
  destruct (cx_backend cx ≫= sb_jti_is_revoked); [|by intros [= _ <- _]].
  intros ([b0 s0] & _ & Hr)%outcome_bind_inv. by injection Hr as _ <- _.
Qed.

(** Logging out everywhere (safety): after [handle_logout_all] answers
    200, and for as long as the user's nonce does not go back, the
    middleware accepts for that user only tokens issued afterwards; and
    nobody else is logged out. *)
Theorem logout_all_effective `{!Sha256Laws} req resp s r s' auth :
  rq_userdata req = Some auth → handle_logout_all env req resp s = Ret (r, s') → rs_status_code r = 200 →
  let u := u_id (ac_user auth) in
  let old := token_get_nonce (tables (ss_tokens s)) u in
  old + 1 < 2 ^ 64 → 0 ≤ old →
  (∀ env2 req2 s2 a s3,
     token_get_nonce (tables (ss_tokens s')) u ≤ token_get_nonce (tables (ss_tokens s2)) u →
     authenticate_request cx env2 req2 s2 = Ret (Ok a, s3) → u_id (ac_user a) = u → old < tk_nonce (ac_token a)) ∧
  (∀ v, v ≠ u → token_get_nonce (tables (ss_tokens s')) v = token_get_nonce (tables (ss_tokens s)) v).
Proof.
  intros Ha Hh Hok u old Hlt Hpos. unfold handle_logout_all in Hh. rewrite Ha in Hh.
  apply handler_bind_inv in Hh as (e & s1 & Hb & Hh). unfold bump_nonce, token_bump_nonce in Hb.
  destruct (token_set_nonce _ _ _ _) as [e' t'] eqn:E. injection Hb as -> <-.
  apply token_set_nonce_spec in E as [(_ & _ & -> & Hu & Hv)|[-> ->]]; [|cbn in Hh; injection Hh as <- <-; discriminate Hok].
  injection Hh as <- <-. rewrite u64_small in Hu by (fold u old; lia). simpl. fold u old in Hu. split; [|done].
  intros env2 req2 s2 a s3 Hle Hacc%authenticate_inv Hid. destruct Hacc as [_ _ _ (t2 & st & w & Hrev & _ & Hn & _)].
  assert (Hg : token_get_nonce t2 u = token_get_nonce (tables (ss_tokens s2)) u).
  { unfold token_get_nonce. by rewrite (revoked_keeps_nonces _ _ _ _ _ _ Hrev). }
  rewrite Hid in Hn. simpl in Hle. lia.
Qed.

End Safety.

(* ------------------------------------------------------------------ *)
(** ** Witnesses *)

Import Toy.

Lemma login_success_witness :
  ∃ user password, body_str login_state "password" = Some password ∧ u_status user = USER_STATUS_ACTIVE ∧
    crypto_pwhash_str_verify (u_password_hash user) password = true.
Proof.
  destruct login_works as (r & s & Hr & Hok).
  destruct (login_success (cx_at 0) no_expiry (env_at 0) _ _ _ _ _ Hr Hok)
    as (n & pw & user & w & rk & z & s1 & _ & _ & Hpw & _ & Hst & Hv & _).
  exists user, pw. split; [exact Hpw|]. split; [exact Hst|exact Hv].
Defined.

(** An address with eleven failures, and alice trying from it. *)
Definition locked_ip : cstr := "10.0.0.9".
Definition locked_streak (ip : cstr) : streak := if bool_decide (ip = locked_ip) then Some (11, 1699999999000) else None.
Definition locked_entry : risk_ip_record_t :=
  {| ri_ip := locked_ip; ri_failed_count := 11; ri_last_fail_ms := 1699999999000 |}.
Definition locked_risk : risk_state :=
  set_ips (put_way (g_ip_records risk_init) (ip_set locked_ip) 3
    locked_entry) risk_init.
Definition locked_state : sso_state mem_priv_t compiled_rule := set_risk locked_risk login_state.

Lemma locked_wf : ips_wf [locked_ip] locked_streak (g_ip_records locked_risk).
Proof.
  assert (Hw : ∀ set, (set < CACHE_SETS)%nat → ways (g_ip_records locked_risk) set =
    if decide (set = ip_set locked_ip) then <[3%nat := locked_entry]> (replicate CACHE_WAYS zero_ip)
    else replicate CACHE_WAYS zero_ip).
  { intros set Hs. unfold locked_risk, put_way. cbn [g_ip_records set_ips]. rewrite ways_insert.
    2: { unfold risk_init. cbn [g_ip_records]. rewrite length_replicate. apply ip_set_lt. }
    assert (Hz : ∀ k, (k < CACHE_SETS)%nat → ways (g_ip_records risk_init) k = replicate CACHE_WAYS zero_ip).
    { intros k Hk. unfold ways, risk_init. cbn [g_ip_records]. by rewrite lookup_replicate_2. }
    rewrite (Hz _ (ip_set_lt _)), (Hz _ Hs). done. }
  assert (Hfit : fits locked_ip) by (split; [done|vm_compute; lia]).
  split.
  - unfold locked_risk, put_way. cbn [g_ip_records set_ips]. rewrite length_insert. apply length_replicate.
  - intros set Hs. rewrite Hw by done. destruct (decide _) as [->|_].
    + split; [done| |].
      * intros e He. simpl in He. repeat (apply elem_of_cons in He as [->|He]; [by left|]).
        apply list_elem_of_singleton in He as ->. right. split; [done|]. split; [done|]. by left.
      * intros i j e1 e2 Hi Hj. destruct i as [|[|[|[|i]]]], j as [|[|[|[|j]]]]; simpl in *; simplify_eq; try done.
    + split; [done| |].
      * intros e He. apply elem_of_replicate in He as [-> _]. by left.
      * intros i j e1 e2 [-> _]%lookup_replicate [-> _]%lookup_replicate _ Hne. by destruct Hne.
  - intros ip Hip. rewrite Hw by apply ip_set_lt. unfold locked_streak. case_bool_decide as E.
    + subst ip. rewrite decide_True by done. vm_compute. reflexivity.
    + destruct (decide _); [|done]. change (<[3%nat := locked_entry]> _) with [zero_ip; zero_ip; zero_ip; locked_entry].
      assert (Hz : entry_matches ip zero_ip = false) by reflexivity.
      assert (Hm : entry_matches ip locked_entry = false).
      { apply not_true_is_false. rewrite entry_matches_iff; [simpl; congruence|done|apply Hfit]. }
      unfold entry_of. cbn [List.find]. by rewrite !Hz, Hm.
Qed.

Lemma lockout_extends_witness :
  ∃ r s' st', handle_login (cx_at 0) no_expiry (env_at 0) login_req (init_response login_req) locked_state = Ret (r, s') ∧
    rs_status_code r = 401 ∧ ips_wf [locked_ip] st' (g_ip_records (ss_risk s')) ∧ st' locked_ip = Some (12, 1700000000000).
Proof.
  destruct (run_status (handle_login (cx_at 0) no_expiry (env_at 0) login_req (init_response login_req) locked_state) 401)
    as (r & s' & Hr & Hst); [vm_compute; reflexivity|].
  destruct (lockout_extends (cx_at 0) no_expiry (env_at 0) [locked_ip] locked_streak login_req (init_response login_req)
    locked_state r s' 11 1699999999000 locked_wf) as [_ Hn].
  - split; [done|vm_compute; lia].
  - by left.
  - intros set. destruct (decide (ip_set locked_ip = set)) as [<-|Hne]; [vm_compute; lia|].
    rewrite filter_cons_False by done. vm_compute. lia.
  - by vm_compute.
  - lia.
  - vm_compute. reflexivity.
  - exact Hr.
  - destruct (Hn Hst) as (st' & Hwf & Hs). exists r, s', st'. split_and!; [exact Hr|exact Hst|exact Hwf|exact Hs].
Defined.

(** The state after alice's login and her access token. *)
Definition after_login : sso_state mem_priv_t compiled_rule := match login_run with Ret (_, s) => s | _ => server0 end.
Definition alice_token : cstr := match login_run with Ret (r, _) => header_value "X-SSO-Access-Token" r | _ => [] end.
Definition me_req : http_request_t := request HTTP_GET "/api/v1/auth/me" alice_token [].

Lemma alice_authenticates :
  ∃ a s, authenticate_request (cx_at 1) (env_at 1) me_req after_login = Ret (Ok a, s) ∧ u_id (ac_user a) = 7.
Proof.
  assert (E : match authenticate_request (cx_at 1) (env_at 1) me_req after_login with
              | Ret (Ok a, _) => u_id (ac_user a) =? 7 | _ => false end = true) by (vm_compute; reflexivity).
  destruct (authenticate_request (cx_at 1) (env_at 1) me_req after_login) as [[[a|e] s]| |]; [|discriminate E..].
  exists a, s. split; [reflexivity|]. apply Z.eqb_eq, E.
Qed.

Lemma authenticate_request_iff_witness :
  ∃ a s, accepted (cx_at 1) (env_at 1) me_req after_login a s ∧ u_id (ac_user a) = 7.
Proof.
  destruct alice_authenticates as (a & s & Ha & Hid). exists a, s. split; [|exact Hid].
  apply (proj1 (authenticate_request_iff (cx_at 1) (env_at 1) me_req after_login a s)). exact Ha.
Defined.

Definition alice_auth : auth_context_t := {| ac_user := Samples.alice; ac_token := zero_token |}.
Definition logout_all_req : http_request_t :=
  with_auth (Some alice_auth) (request HTTP_POST "/api/v1/auth/logout_all" alice_token []).

Lemma logout_all_effective_witness :
  ∃ r s', handle_logout_all (env_at 2) logout_all_req (init_response logout_all_req) after_login = Ret (r, s') ∧
    rs_status_code r = 200 ∧
    ∀ a s3, authenticate_request (cx_at 3) (env_at 3) me_req s' = Ret (Ok a, s3) → u_id (ac_user a) = 7 → 0 < tk_nonce (ac_token a).
Proof.
  destruct (run_status (handle_logout_all (env_at 2) logout_all_req (init_response logout_all_req) after_login) 200)
    as (r & s' & Hr & Hst); [vm_compute; reflexivity|].
  assert (Hz : token_get_nonce (tables (ss_tokens after_login)) 7 = 0) by (vm_compute; reflexivity).
  destruct (logout_all_effective (cx_at 3) (env_at 2) logout_all_req (init_response logout_all_req) after_login r s' alice_auth
    eq_refl Hr Hst) as [Hacc _]; [change (u_id _) with 7; rewrite Hz; lia|change (u_id _) with 7; rewrite Hz; lia|].
  exists r, s'. split; [exact Hr|]. split; [exact Hst|]. intros a s3 Ha Hid. rewrite <- Hz.
  exact (Hacc (env_at 3) me_req s' a s3 (Z.le_refl _) Ha Hid).
Defined.
