(* ===== verification/OauthSafety.v ===== *)
(** * What the OAuth endpoints guarantee

    Of src/oauth.c: what an exchanged code implies, over any storage
    backend; single use of codes and the rotation of refresh tokens, over
    the in-memory backend. *)

From S2P Require Import Prelude CLib CNum Json Types Storage StorageMemory PermCache Context UserMgr RoleMgr RateLimit Mfa Bits Base64 TokenState Token TokenScan TokenJwt Printf PermEngine AuditLog Dpop Risk Http AuthHandlers Oauth Samples AuthSafety.

(** A refusal is not a success. *)
Ltac not_granted :=
  match goal with
  | H : refuse _ _ _ _ _ = Ret _, H2 : rs_status_code _ = 200 |- _ => injection H as <- <-; discriminate H2
  end.

Section Codes.
Context {S C : Type} `{Crypto, !RsaParams, InsituReader, JsonReader, JsonWriter, Interner, Sha256, RsaKeys, Pwhash}.
Context (cx : sso_context S) (cfg : option oauth_config) (env : request_env).
Implicit Types (req : http_request_t) (resp r : http_response_t) (s : sso_state S C).

(** What a verifier has to be for a challenge. *)
Definition proves (challenge method verifier : cstr) : Prop :=
  (43 ≤ length verifier ≤ 128)%nat ∧
  (method = "plain" ∧ verifier = challenge ∨
   method = "S256" ∧ base64url_encode (sha256 (bytes_of verifier)) 128 = challenge).

Lemma verify_pkce_iff v challenge method :
  challenge ≠ [] → verify_pkce v challenge method = true ↔ ∃ verifier, v = Some verifier ∧ proves challenge method verifier.
Proof.
  intros Hc. unfold verify_pkce, proves. destruct challenge as [|c ch]; [done|].
  destruct v as [v|]; [|naive_solver]. destruct (Nat.ltb_spec (length v) 43); simpl.
  { split; [done|]. intros (x & [= <-] & ? & _). lia. }
  destruct (Nat.ltb_spec 128 (length v)); simpl.
  { split; [done|]. intros (x & [= <-] & ? & _). lia. }
  unfold strcmp_eq. repeat case_bool_decide; subst; split; try done; intros Hx; try (eexists; split; [done|]; split; [lia|]; eauto; fail).
  all: destruct Hx as (x & [= <-] & _ & [[? ?]|[? ?]]); try done; by destruct_or?.
Qed.

(** Once the document is cached, reading a member changes nothing. *)
Lemma json_str_cached k s d v s' :
  ss_doc s = Some d → req_json_str_value k s = Ret (v, s') → s' = s ∧ v = body_str s k.
Proof.
  intros Hd. unfold req_json_str_value, req_get_json, body_str, body_doc.
  intros (x & s1 & Hx & Hr)%handler_bind_inv. rewrite Hd in Hx. injection Hx as <- <-. injection Hr as <- <-.
  by rewrite Hd.
Qed.

Lemma json_str_caches k s v s' :
  req_json_str_value k s = Ret (Some v, s') → Some v = body_str s k ∧ is_Some (ss_doc s') ∧ body_doc s' = body_doc s ∧ same_context s s'.
Proof.
  intros Hr. pose proof (json_str_inv _ _ _ _ Hr) as (Hv & Hc & _ & Hd). specialize (Hd ltac:(done)).
  split_and!; [done| |done|done]. unfold req_json_str_value, req_get_json in Hr.
  apply handler_bind_inv in Hr as (x & s1 & Hx & Hr). injection Hr as Hv2 <-. destruct (ss_doc s) as [d|] eqn:E.
  { injection Hx as <- <-. by rewrite E. }
  destruct (ss_body s) as [[|c b]|]; [by injection Hx as <- <-| |by injection Hx as <- <-].
  destruct (yyjson_read_insitu (c :: b)) as [[d|] b']; injection Hx as <- <-; [|done]. by eexists.
Qed.

Lemma active_user_inv i s user s' :
  active_user cx i s = Ret (Some user, s') →
  ∃ w, user_get_by_id cx i (ss_world s) = Ret (Ok user, w) ∧ u_status user = USER_STATUS_ACTIVE ∧ s' = set_world w s.
Proof.
  intros (ru & s6 & Hru & Hu)%handler_bind_inv. apply on_world_inv in Hru as (w & Hru & ->). injection Hu as Hu <-.
  destruct ru as [user'|]; [|done]. case_bool_decide; [|done]. injection Hu as ->. eauto.
Qed.

(** How the token endpoint reaches a grant: the members of the document,
    and the state with the document cached and the store untouched. *)
Lemma token_request req resp s r s' :
  handle_oauth_token cx cfg env req resp s = Ret (r, s') → rs_status_code r = 200 →
  ∃ g jkt s1, body_str s "grant_type" = Some g ∧ same_context s s1 ∧ is_Some (ss_doc s1) ∧ body_doc s1 = body_doc s ∧
    (g = "authorization_code" ∧ grant_code cx cfg env (body_str s "code") (body_str s "redirect_uri") jkt resp s1 = Ret (r, s') ∨
     g = "client_credentials" ∧
       grant_client cx cfg env (body_str s "client_id") (body_str s "client_secret") (body_str s "scope") jkt resp s1 = Ret (r, s') ∨
     g = "refresh_token" ∧ grant_refresh cx cfg env (body_str s "refresh_token") jkt resp s1 = Ret (r, s')).
Proof.
  unfold handle_oauth_token. intros (b & s0 & Hb & Hh)%handler_bind_inv Hok. injection Hb as <- <-.
  destruct (match cfg with Some _ => _ | None => _ end); [not_granted|]. destruct (negb _); [not_granted|].
  apply handler_bind_inv in Hh as (g & s1 & Hg & Hh). apply handler_bind_inv in Hh as (v1 & s2 & Hv1 & Hh).
  apply handler_bind_inv in Hh as (v2 & s3 & Hv2 & Hh). apply handler_bind_inv in Hh as (v3 & s4 & Hv3 & Hh).
  apply handler_bind_inv in Hh as (v4 & s5 & Hv4 & Hh). apply handler_bind_inv in Hh as (v5 & s6 & Hv5 & Hh).
  apply handler_bind_inv in Hh as (v6 & s7 & Hv6 & Hh). apply handler_bind_inv in Hh as (j & s8 & Hj & Hh).
  destruct j as [jkt|]; [|not_granted]. destruct g as [g|]; [|not_granted].
  apply json_str_caches in Hg as (Hg & [d Hd] & Hdoc & Hctx).
  destruct (json_str_cached _ _ _ _ _ Hd Hv1) as [-> ->]. destruct (json_str_cached _ _ _ _ _ Hd Hv2) as [-> ->].
  destruct (json_str_cached _ _ _ _ _ Hd Hv3) as [-> ->]. destruct (json_str_cached _ _ _ _ _ Hd Hv4) as [-> ->].
  destruct (json_str_cached _ _ _ _ _ Hd Hv5) as [-> ->]. destruct (json_str_cached _ _ _ _ _ Hd Hv6) as [-> ->].
  assert (s8 = s1) as ->.
  { unfold login_jkt in Hj. destruct (rq_dpop_proof req); [by injection Hj as _ <-|].
    apply handler_bind_inv in Hj as ([e k] & s9 & Hd9 & Hj). apply outcome_bind_inv in Hd9 as (x & _ & Hx).
    injection Hx as _ <-. by injection Hj as _ <-. }
  exists g, jkt, s1. unfold body_str in *. rewrite Hdoc in Hh. split_and!; [done|done|by eexists|done|].
  unfold strcmp_eq in Hh. repeat case_bool_decide; eauto. not_granted.
Qed.

(** The steps of a code grant that answered 200. *)
Lemma code_granted req resp s r s' :
  body_str s "grant_type" = Some ("authorization_code" : cstr) →
  handle_oauth_token cx cfg env req resp s = Ret (r, s') → rs_status_code r = 200 →
  ∃ get mark code redirect_uri ac st jkt s2 x s3,
    cx_backend cx ≫= sb_oauth_code_get = Some get ∧ cx_backend cx ≫= sb_oauth_code_mark_used = Some mark ∧
    body_str s "code" = Some code ∧ body_str s "redirect_uri" = Some redirect_uri ∧
    get code (w_store (ss_world s)) = Ret (Ok ac, st) ∧ code_usable env ac redirect_uri = true ∧
    (oc_code_challenge ac ≠ [] → ∃ v, body_str s "code_verifier" = Some v ∧
       proves (oc_code_challenge ac) (oc_code_challenge_method ac) v) ∧
    w_store (ss_world s2) = st ∧ on_store (mark (oc_code ac)) s2 = Ret (x, s3) ∧
    grant_code_tokens cx cfg env ac jkt resp s3 = Ret (r, s').
Proof.
  intros Hg0 Hh Hok. destruct (token_request _ _ _ _ _ Hh Hok) as (g & jkt & s1 & Hg & (Hw & _) & [d Hd] & Hdoc & Hcase).
  rewrite Hg in Hg0. injection Hg0 as ->. destruct Hcase as [[_ Hc]|[[? _]|[? _]]]; [|done|done].
  unfold grant_code in Hc. destruct (body_str s "code") as [code|]; [|not_granted].
  destruct (body_str s "redirect_uri") as [uri|]; [|not_granted].
  destruct (cx_backend cx ≫= sb_oauth_code_get) as [get|] eqn:Eget; [|not_granted].
  destruct (cx_backend cx ≫= sb_oauth_code_mark_used) as [mark|] eqn:Emark; [|not_granted].
  apply handler_bind_inv in Hc as (rc & s2 & Hget & Hc). apply on_store_inv in Hget as (st & Hget & ->).
  destruct rc as [ac|]; [|not_granted]. destruct (code_usable _ _ _) eqn:Hu; cbn [negb] in Hc; [|not_granted].
  apply handler_bind_inv in Hc as (ok & s3 & Hp & Hc). destruct ok; cbn [negb] in Hc; [|not_granted].
  apply handler_bind_inv in Hc as (x & s4 & Hm & Hc). rewrite Hw in Hget.
  assert (Hp3 : w_store (ss_world s3) = st ∧ (oc_code_challenge ac ≠ [] → ∃ v, body_str s "code_verifier" = Some v ∧
            proves (oc_code_challenge ac) (oc_code_challenge_method ac) v)).
  { unfold pkce_ok in Hp. destruct (oc_code_challenge ac) as [|c ch] eqn:Ech; [by injection Hp as <-|]. rewrite <- Ech in *.
    apply handler_bind_inv in Hp as (v & s7 & Hv & Hp). injection Hp as Hp <-.
    destruct (json_str_cached _ (set_world _ s1) _ _ _ Hd Hv) as [-> ->]. split; [done|]. intros Hne.
    apply verify_pkce_iff in Hp as (x0 & Hx & Hpr); [|done]. exists x0. split; [|done].
    unfold body_str in Hx. change (body_doc (set_world _ s1)) with (body_doc s1) in Hx. by rewrite Hdoc in Hx. }
  destruct Hp3 as [Hst Hpk]. by exists get, mark, code, uri, ac, st, jkt, s3, x, s4.
Qed.

(** C14. What an exchanged authorization code implies (safety): over any
    storage backend, the token endpoint answers 200 to a code only if the
    backend has the code, not used and not expired, the redirect address
    is the one of the authorization request, the code's user is active,
    and, when the code was requested with a challenge, the request holds
    a verifier of 43 to 128 characters that is the challenge or whose
    SHA-256 digest is. *)
Theorem code_exchange_sound req resp s r s' :
  body_str s "grant_type" = Some ("authorization_code" : cstr) →
  handle_oauth_token cx cfg env req resp s = Ret (r, s') → rs_status_code r = 200 →
  ∃ get code redirect_uri ac st user w w',
    cx_backend cx ≫= sb_oauth_code_get = Some get ∧
    body_str s "code" = Some code ∧ body_str s "redirect_uri" = Some redirect_uri ∧
    get code (w_store (ss_world s)) = Ret (Ok ac, st) ∧
    oc_used ac = 0 ∧ e_now env ≤ oc_expires_at ac ∧ oc_redirect_uri ac = redirect_uri ∧
    (oc_code_challenge ac ≠ [] → ∃ v, body_str s "code_verifier" = Some v ∧
       proves (oc_code_challenge ac) (oc_code_challenge_method ac) v) ∧
    user_get_by_id cx (oc_user_id ac) (w : world S C) = Ret (Ok user, w') ∧ u_status user = USER_STATUS_ACTIVE.
Proof.
  intros Hg Hh Hok. destruct (code_granted _ _ _ _ _ Hg Hh Hok)
    as (get & mark & code & uri & ac & st & jkt & s2 & x & s3 & Eget & _ & Hcode & Huri & Hget & Hu & Hpk & _ & _ & Hc).
  unfold grant_code_tokens in Hc. apply handler_bind_inv in Hc as (u & s5 & Hu5 & Hc).
  destruct u as [user|]; [|not_granted]. apply active_user_inv in Hu5 as (w' & Hru & Hact & _).
  unfold code_usable, strcmp_eq in Hu. reflect_bools.
  by exists get, code, uri, ac, st, user, (ss_world s3), w'.
Qed.
End Codes.

(* ================================================================== *)
(** ** Over the in-memory backend *)

Section Memory.
Context {C : Type} `{Crypto, !RsaParams, InsituReader, JsonReader, JsonWriter, Interner, Sha256, RsaKeys, Pwhash}.
Context (cfg : option oauth_config) (fuel : nat).
Implicit Types (req : http_request_t) (resp r : http_response_t) (s : sso_state mem_priv_t C) (env : request_env).
Notation cx env := (mem_context (e_now env) (e_alloc env) fuel).
Notation store s := (w_store (ss_world s)).

(** An operation that leaves the store alone. *)
Definition keeps {A} (m : handler mem_priv_t C A) : Prop := ∀ s a s', m s = Ret (a, s') → store s' = store s.

Lemma keeps_bind {A B} (m : handler mem_priv_t C A) (f : A → handler mem_priv_t C B) :
  keeps m → (∀ a, keeps (f a)) → keeps (mbind f m).
Proof. intros Hm Hf s b s' (a & s1 & H1' & H2')%handler_bind_inv. by rewrite (Hf _ _ _ _ H2'), (Hm _ _ _ H1'). Qed.
Lemma keeps_ret {A} (a : A) : keeps (mret a).
Proof. intros s b s' Hr. by injection Hr as _ <-. Qed.

Lemma keeps_call {F A} env (sel : storage_backend mem_priv_t → option F) (k : F → storage_op mem_priv_t A) f :
  sel (storage_memory_create (e_now env) (e_alloc env) fuel) = Some f → (∀ p x p', k f p = Ret (x, p') → p' = p) →
  keeps (on_world (call (cx env) sel k)).
Proof.
  intros Hs Hk s r s' (w & Hc & ->)%on_world_inv. unfold call in Hc. cbn [mem_context cx_backend mbind option_bind] in Hc.
  rewrite Hs in Hc. apply outcome_bind_inv in Hc as ([r' p'] & Hf & Hr). injection Hr as _ <-. simpl. by eapply Hk.
Qed.
Lemma keeps_backend {F A} env (sel : storage_backend mem_priv_t → option F) (k : F → storage_op mem_priv_t A) f :
  sel (storage_memory_create (e_now env) (e_alloc env) fuel) = Some f → (∀ p x p', k f p = Ret (x, p') → p' = p) →
  keeps (backend (cx env) sel k).
Proof.
  intros Hs Hk. unfold backend. cbn [mem_context cx_backend mbind option_bind]. rewrite Hs. apply keeps_bind; [|intros a; apply keeps_ret].
  intros s r s' (p & Hf & ->)%on_store_inv. simpl. by eapply Hk.
Qed.

Lemma getid_reads {A} (idf : A → Z) arr i (p : mem_priv_t) x p' : MK_GETID idf arr i p = Ret (x, p') → p' = p.
Proof. unfold MK_GETID. destruct (da_find_id _ _ _); by intros [= _ <-]. Qed.
Lemma getnm_reads {A} (fld : A → cstr) arr i (p : mem_priv_t) x p' : MK_GETNM fld arr i p = Ret (x, p') → p' = p.
Proof. unfold MK_GETNM. destruct (da_find_str _ _ _); by intros [= _ <-]. Qed.

Lemma keeps_active env i : keeps (active_user (cx env) i).
Proof.
  apply keeps_bind; [|intros a; apply keeps_ret]. eapply keeps_call; [reflexivity|]. intros p r p'. apply getid_reads.
Qed.
Lemma keeps_roles env i : keeps (roles_of (cx env) i).
Proof.
  apply keeps_bind; [|intros a; apply keeps_ret]. eapply keeps_call; [reflexivity|]. intros p r p' Hr. by injection Hr as _ <-.
Qed.
Lemma keeps_groups env i : keeps (groups_of (cx env) i).
Proof.
  apply keeps_bind; [|intros a; apply keeps_ret]. eapply keeps_call; [reflexivity|]. intros p r p' Hr. by injection Hr as _ <-.
Qed.
Lemma keeps_ttl env c : keeps (get_client_token_ttl (cx env) cfg c).
Proof.
  unfold get_client_token_ttl. destruct (is_config_client cfg c); [apply keeps_ret|].
  apply keeps_bind; [|intros a; apply keeps_ret]. eapply keeps_backend; [reflexivity|]. intros p r p'. apply getnm_reads.
Qed.
Lemma keeps_issue env n u rs gs sc ttl jkt : keeps (issue env n u rs gs sc ttl jkt).
Proof. intros s r s' (x & _ & Hr)%outcome_bind_inv. by injection Hr as _ <-. Qed.
Lemma keeps_answer env resp b : keeps (answer_body env resp b).
Proof. unfold answer_body. destruct (negb _); apply keeps_ret. Qed.

(** Storing a refresh token appends it or fails. *)
Lemma store_refresh_spec env u c raw s x s' :
  store_refresh_token (cx env) env u c raw s = Ret (x, s') →
  oauth_codes (store s') = oauth_codes (store s) ∧
  ∃ l, items (refresh_tokens (store s')) = items (refresh_tokens (store s)) ++ l ∧
       Forall (λ t, rt_user_id t = u ∧ rt_client_id t = sso_strlcpy (Some c) 64) l.
Proof.
  unfold store_refresh_token, backend. cbn. intros (y & s1 & Hy & Hr)%handler_bind_inv. injection Hr as _ <-.
  apply handler_bind_inv in Hy as (z & s2 & Hz & Hy). injection Hy as _ <-. apply on_store_inv in Hz as (p & Hp & ->).
  simpl. unfold mem_rt_create in Hp. destruct (grow_add _ _ _ _ _) as [e d] eqn:E. injection Hp as _ <-.
  apply grow_add_items in E as [[_ E]|[_ ->]]; simpl.
  - split; [done|]. eexists. split; [done|]. by repeat constructor.
  - split; [done|]. exists []. by rewrite app_nil_r.
Qed.

(* ------------------------------------------------------------------ *)
(** ** Codes are used once *)

Definition has_code (c : cstr) (ac : oauth_auth_code_t) : bool := strcmp_eq (oc_code ac) c.

(** The first row of a code, which is the one lookups see, is used. *)
Definition code_dead (c : cstr) (p : mem_priv_t) : Prop :=
  ∀ ac, List.find (has_code c) (items (oauth_codes p)) = Some ac → oc_used ac ≠ 0.

(** What other requests do to the codes: new ones with other texts, use,
    and anything that leaves the table alone. *)
Inductive code_step (alloc : Z → bool) (c : cstr) : mem_priv_t → mem_priv_t → Prop :=
| step_create p ac x p' : oc_code ac ≠ c → mem_oauth_code_create alloc ac p = Ret (x, p') → code_step alloc c p p'
| step_used p c' x p' : mem_oauth_code_mark_used c' p = Ret (x, p') → code_step alloc c p p'
| step_other p p' : oauth_codes p' = oauth_codes p → code_step alloc c p p'.

Lemma alter_first_found {A} (t t2 : A → bool) (g : A → A) l l' x :
  (∀ y, t (g y) = t y) → alter_first t2 g l = Some l' → List.find t l' = Some x →
  ∃ y, List.find t l = Some y ∧ (x = y ∨ x = g y).
Proof.
  intros Hg. revert l'. induction l as [|y l IH]; intros l' Ha; [done|]. cbn [alter_first] in Ha. simpl.
  destruct (t2 y).
  - injection Ha as <-. simpl. rewrite Hg. destruct (t y); [intros [= <-]; eauto|eauto].
  - destruct (alter_first t2 g l) as [l0|]; [|done]. injection Ha as <-. simpl. destruct (t y); [intros [= <-]; eauto|].
    by apply IH.
Qed.

Lemma alter_first_hit {A} (t : A → bool) (g : A → A) l y :
  (∀ y, t (g y) = t y) → List.find t l = Some y →
  ∃ l', alter_first t g l = Some l' ∧ List.find t l' = Some (g y).
Proof.
  intros Hg. induction l as [|z l IH]; [done|]. simpl. destruct (t z) eqn:E.
  - intros [= ->]. eexists. split; [done|]. simpl. by rewrite Hg, E.
  - intros (l' & -> & Hf)%IH. eexists. split; [done|]. simpl. by rewrite E.
Qed.

Lemma alter_first_length {A} (t : A → bool) (g : A → A) l l' : alter_first t g l = Some l' → length l' = length l.
Proof.
  revert l'. induction l as [|y l IH]; intros l' Ha; [done|]. cbn [alter_first] in Ha. destruct (t y).
  - by injection Ha as <-.
  - destruct (alter_first t g l) as [l0|]; [|done]. injection Ha as <-. simpl. by rewrite (IH l0).
Qed.

Lemma code_step_dead alloc c p p' : code_step alloc c p p' → code_dead c p → code_dead c p'.
Proof.
  intros Hs Hd ac. destruct Hs as [p ac' x p' Hne Hc|p c' x p' Hm|p p' Ho].
  - unfold mem_oauth_code_create in Hc. destruct (grow_add _ _ _ _ _) as [e d] eqn:E. injection Hc as _ <-. simpl.
    apply grow_add_items in E as [[_ ->]|[_ ->]]; [|apply Hd]. intros Hf. apply Hd.
    induction (items (oauth_codes p)) as [|y l IH]; simpl in *; [|destruct (has_code c y); auto].
    unfold has_code, strcmp_eq in Hf. rewrite bool_decide_eq_false_2 in Hf by done. done.
  - unfold mem_oauth_code_mark_used in Hm. destruct (alter_first _ _ _) as [l|] eqn:E; [|injection Hm as _ <-; apply Hd].
    injection Hm as _ <-. simpl. intros Hf.
    destruct (alter_first_found (has_code c) _ mark_used _ _ _ (λ _, eq_refl) E Hf) as (y & Hy & [-> | ->]); [by apply Hd|done].
  - rewrite Ho. apply Hd.
Qed.

Lemma code_tokens_keep env ac jkt resp s r s' :
  grant_code_tokens (cx env) cfg env ac jkt resp s = Ret (r, s') → oauth_codes (store s') = oauth_codes (store s).
Proof.
  unfold grant_code_tokens. intros (u & s1 & Hu & Hc)%handler_bind_inv. rewrite <- (keeps_active _ _ _ _ _ Hu).
  destruct u as [user|]; [|by injection Hc as _ <-].
  apply handler_bind_inv in Hc as (rs & s2 & Hrs & Hc). rewrite <- (keeps_roles _ _ _ _ _ Hrs).
  apply handler_bind_inv in Hc as (gs & s3 & Hgs & Hc). rewrite <- (keeps_groups _ _ _ _ _ Hgs).
  apply handler_bind_inv in Hc as (ttl & s4 & Ht & Hc). rewrite <- (keeps_ttl _ _ _ _ _ Ht).
  apply handler_bind_inv in Hc as ([e tk] & s5 & Hi & Hc). rewrite <- (keeps_issue _ _ _ _ _ _ _ _ _ _ _ Hi).
  destruct (negb _); [by injection Hc as _ <-|].
  apply handler_bind_inv in Hc as (y & s6 & Hs & Hc). rewrite <- (proj1 (store_refresh_spec _ _ _ _ _ _ _ Hs)).
  by rewrite (keeps_answer _ _ _ _ _ _ Hc).
Qed.

(** C13. An authorization code works once (safety, over the in-memory
    backend): after the token endpoint has answered 200 to a code,
    whatever other requests do to the codes in between, short of a new
    code with the same text, the endpoint never again answers 200 to it,
    whoever asks and at whatever time. *)
Theorem code_single_use env req resp s r s' code p :
  body_str s "grant_type" = Some ("authorization_code" : cstr) → body_str s "code" = Some code →
  handle_oauth_token (cx env) cfg env req resp s = Ret (r, s') → rs_status_code r = 200 →
  rtc (code_step (e_alloc env) code) (store s') p →
  ∀ env2 req2 resp2 s2 r2 s2', store s2 = p →
    body_str s2 "grant_type" = Some ("authorization_code" : cstr) → body_str s2 "code" = Some code →
    handle_oauth_token (cx env2) cfg env2 req2 resp2 s2 = Ret (r2, s2') → rs_status_code r2 ≠ 200.
Proof.
  intros Hg Hc Hh Hok Hsteps env2 req2 resp2 s2 r2 s2' Hp Hg2 Hc2 Hh2 Hok2.
  assert (Hdead : code_dead code (store s')).
  { destruct (code_granted _ _ _ _ _ _ _ _ Hg Hh Hok)
      as (get & mark & c & uri & ac & st & jkt & sa & x & sb & Eget & Emark & Hcode & _ & Hget & _ & _ & Hst & Hm & Hrest).
    rewrite Hc in Hcode. injection Hcode as <-. injection Eget as <-. injection Emark as <-.
    unfold mem_oauth_code_get in Hget. injection Hget as Hf Hst'. rewrite <- Hst' in Hst.
    destruct (List.find _ _) as [ac'|] eqn:E; [|done]. injection Hf as ->.
    apply on_store_inv in Hm as (p1 & Hm & ->). unfold code_dead. rewrite (code_tokens_keep _ _ _ _ _ _ _ Hrest). simpl.
    unfold mem_oauth_code_mark_used in Hm. rewrite Hst in Hm.
    pose proof (find_some _ _ E) as [_ Heq]. apply bool_decide_eq_true in Heq. rewrite Heq in Hm.
    destruct (alter_first_hit (has_code code) mark_used _ _ (λ _, eq_refl) E) as (l' & Ha & Hl).
    fold (has_code code) in Hm. rewrite Ha in Hm. injection Hm as _ <-. simpl. rewrite Hl. by intros ? [= <-]. }
  assert (Hdead2 : code_dead code p).
  { clear -Hsteps Hdead. induction Hsteps as [|p1 p2 p3 H1' _ IH]; [done|]. apply IH. by eapply code_step_dead. }
  destruct (code_granted _ _ _ _ _ _ _ _ Hg2 Hh2 Hok2)
    as (get & mark & c & uri & ac & st & jkt & sa & x & sb & Eget & _ & Hcode & _ & Hget & Hu & _).
  rewrite Hc2 in Hcode. injection Hcode as <-. injection Eget as <-. unfold mem_oauth_code_get in Hget.
  injection Hget as Hf _. rewrite Hp in Hf. destruct (List.find _ _) as [ac'|] eqn:E; [|done]. injection Hf as ->.
  apply Hdead2 in E. unfold code_usable in Hu. reflect_bools. lia.
Qed.

(* ------------------------------------------------------------------ *)
(** ** Refresh tokens rotate *)

Definition has_hash (h : cstr) (t : refresh_token_t) : bool := strcmp_eq (rt_token_hash t) h.
Notation rows s := (items (refresh_tokens (store s))).

(** Tokens of the same user and client. *)
Definition family (rt t : refresh_token_t) : Prop := rt_user_id t = rt_user_id rt ∧ rt_client_id t = rt_client_id rt.

Lemma refresh_granted env req resp s r s' R :
  body_str s "grant_type" = Some ("refresh_token" : cstr) → body_str s "refresh_token" = Some R →
  handle_oauth_token (cx env) cfg env req resp s = Ret (r, s') → rs_status_code r = 200 →
  ∃ rt jkt s1, List.find (has_hash (refresh_hash R)) (rows s) = Some rt ∧ rt_revoked rt = 0 ∧ store s1 = store s ∧
    grant_refresh_tokens (cx env) cfg env (refresh_hash R) rt jkt resp s1 = Ret (r, s').
Proof.
  intros Hg0 HR Hh Hok. destruct (token_request _ _ _ _ _ _ _ _ Hh Hok) as (g & jkt & s1 & Hg & (Hw & _) & _ & _ & Hcase).
  rewrite Hg in Hg0. injection Hg0 as ->. destruct Hcase as [[? _]|[[? _]|[_ Hc]]]; [done|done|].
  rewrite HR in Hc. unfold grant_refresh in Hc. apply handler_bind_inv in Hc as (x & s2 & Hx & Hc).
  unfold backend in Hx. cbn [mem_context cx_backend mbind option_bind] in Hx.
  change (sb_refresh_token_get (storage_memory_create _ _ _)) with (Some mem_rt_get) in Hx. cbv iota in Hx.
  apply handler_bind_inv in Hx as (y & s3 & Hy & Hx). injection Hx as <- <-. apply on_store_inv in Hy as (p & Hp & ->).
  unfold mem_rt_get in Hp. injection Hp as <- <-. rewrite Hw in Hc.
  fold (has_hash (refresh_hash R)) in Hc. destruct (List.find _ _) as [rt|] eqn:E; simpl in Hc; [|not_granted].
  destruct (Z.eqb_spec (rt_revoked rt) 0) as [E0|E0]; cbn [negb] in Hc.
  - destruct (_ <? _); [not_granted|]. exists rt, jkt. eexists. split_and!; [done|done| |exact Hc]. done.
  - apply handler_bind_inv in Hc as (? & ? & _ & Hc). not_granted.
Qed.

Lemma mem_user_id env i (w : world mem_priv_t C) user w' :
  user_get_by_id (cx env) i w = Ret (Ok user, w') → u_id user = i.
Proof.
  unfold user_get_by_id, call. cbn. intros ([x p] & Hx & Hr)%outcome_bind_inv. injection Hr as -> _.
  unfold mem_user_get_by_id in Hx. rewrite MK_GETID_lookup in Hx. injection Hx as Hf _. unfold lookup_by in Hf.
  destruct (da_find_id u_id _ i) as [k|] eqn:E; [|done]. simpl in Hf. apply find_index_Some in E as (u & Hu & Hi & _).
  rewrite Hu in Hf. injection Hf as ->. by apply Z.eqb_eq in Hi.
Qed.

Lemma refresh_tokens_spec env hash rt jkt resp s r s' :
  List.find (has_hash hash) (rows s) = Some rt →
  grant_refresh_tokens (cx env) cfg env hash rt jkt resp s = Ret (r, s') → rs_status_code r = 200 →
  ∃ l l2, rows s' = l ++ l2 ∧ alter_first (has_hash hash) revoke_rt (rows s) = Some l ∧
    Forall (λ t, rt_user_id t = rt_user_id rt ∧ rt_client_id t = sso_strlcpy (Some (rt_client_id rt)) 64) l2.
Proof.
  intros Hf Hc Hok. unfold grant_refresh_tokens in Hc. apply handler_bind_inv in Hc as (u & s1 & Hu & Hc).
  pose proof (keeps_active _ _ _ _ _ Hu) as E1. destruct u as [user|]; [|not_granted].
  apply active_user_inv in Hu as (w & Hu & _ & _). apply mem_user_id in Hu.
  apply handler_bind_inv in Hc as (rs & s2 & Hrs & Hc). pose proof (keeps_roles _ _ _ _ _ Hrs) as E2.
  apply handler_bind_inv in Hc as (gs & s3 & Hgs & Hc). pose proof (keeps_groups _ _ _ _ _ Hgs) as E3.
  apply handler_bind_inv in Hc as (ttl & s4 & Ht & Hc). pose proof (keeps_ttl _ _ _ _ _ Ht) as E4.
  apply handler_bind_inv in Hc as ([e tk] & s5 & Hi & Hc). pose proof (keeps_issue _ _ _ _ _ _ _ _ _ _ _ Hi) as E5.
  destruct (is_ok e); cbn [negb] in Hc; [|not_granted].
  apply handler_bind_inv in Hc as (y & s6 & Hr & Hc). apply handler_bind_inv in Hc as (z & s7 & Hst & Hc).
  apply store_refresh_spec in Hst as (_ & l2 & Hl2 & Hfam). rewrite <- (keeps_answer _ _ _ _ _ _ Hc) in Hl2.
  unfold revoke_refresh in Hr. cbn [mem_context cx_backend mbind option_bind] in Hr.
  change (sb_refresh_token_revoke (storage_memory_create _ _ _)) with (Some mem_rt_revoke) in Hr. cbv iota in Hr.
  apply handler_bind_inv in Hr as (x & s8 & Hx & Hr). injection Hr as _ <-. apply on_store_inv in Hx as (p & Hp & ->).
  unfold mem_rt_revoke in Hp. rewrite E5, E4, E3, E2, E1 in Hp. fold (has_hash hash) in Hp.
  destruct (alter_first_hit (has_hash hash) revoke_rt _ _ (λ _, eq_refl) Hf) as (l & Ha & _). rewrite Ha in Hp.
  injection Hp as _ <-. exists l, l2. split_and!; [exact Hl2|done|]. by rewrite <- Hu.
Qed.

(** A request for a refresh without a DPoP proof reaches the grant. *)
Definition configured : Prop := ∃ cf, cfg = Some cf ∧ cf_client_id cf ≠ [].

Lemma refresh_enter env req resp s r s' :
  configured → is_Some (ss_body s) → rq_dpop_proof req = [] → body_str s "grant_type" = Some ("refresh_token" : cstr) →
  handle_oauth_token (cx env) cfg env req resp s = Ret (r, s') →
  ∃ s1, store s1 = store s ∧ grant_refresh (cx env) cfg env (body_str s "refresh_token") [] resp s1 = Ret (r, s').
Proof.
  intros (cf & -> & Hcf) [b Hb] Hd Hg. unfold handle_oauth_token. intros (x & s0 & Hx & Hh)%handler_bind_inv.
  injection Hx as <- <-. rewrite bool_decide_eq_false_2 in Hh by done. rewrite Hb in Hh. cbn [negb] in Hh.
  rewrite bool_decide_eq_true_2 in Hh by (by eexists). cbn [negb] in Hh.
  apply handler_bind_inv in Hh as (g & s1 & Hgr & Hh). pose proof (json_str_inv _ _ _ _ Hgr) as (Hg' & _). rewrite Hg in Hg'.
  subst g. apply json_str_caches in Hgr as (_ & [d Hdoc] & Hbd & (Hw & _)).
  apply handler_bind_inv in Hh as (v1 & s2 & Hv1 & Hh). destruct (json_str_cached _ _ _ _ _ Hdoc Hv1) as [-> ->].
  apply handler_bind_inv in Hh as (v2 & s3 & Hv2 & Hh). destruct (json_str_cached _ _ _ _ _ Hdoc Hv2) as [-> ->].
  apply handler_bind_inv in Hh as (v3 & s4 & Hv3 & Hh). destruct (json_str_cached _ _ _ _ _ Hdoc Hv3) as [-> ->].
  apply handler_bind_inv in Hh as (v4 & s5 & Hv4 & Hh). destruct (json_str_cached _ _ _ _ _ Hdoc Hv4) as [-> ->].
  apply handler_bind_inv in Hh as (v5 & s6 & Hv5 & Hh). destruct (json_str_cached _ _ _ _ _ Hdoc Hv5) as [-> ->].
  apply handler_bind_inv in Hh as (v6 & s7 & Hv6 & Hh). destruct (json_str_cached _ _ _ _ _ Hdoc Hv6) as [-> ->].
  unfold login_jkt in Hh. rewrite Hd in Hh. apply handler_bind_inv in Hh as (j & s8 & Hj & Hh). injection Hj as <- <-.
  exists s1. split; [by rewrite Hw|]. unfold body_str. rewrite <- Hbd. exact Hh.
Qed.

Lemma replay_spec env h rt jkt resp s r s' R :
  refresh_hash R = h → List.find (has_hash h) (rows s) = Some rt → rt_revoked rt ≠ 0 →
  grant_refresh (cx env) cfg env (Some R) jkt resp s = Ret (r, s') →
  rs_status_code r = 400 ∧ ∀ t, t ∈ rows s' → family rt t → rt_revoked t ≠ 0.
Proof.
  intros <- Hf Hrev. unfold grant_refresh. intros (x & s1 & Hx & Hc)%handler_bind_inv.
  unfold backend in Hx, Hc. cbn [mem_context cx_backend mbind option_bind] in Hx, Hc.
  change (sb_refresh_token_get (storage_memory_create _ _ _)) with (Some mem_rt_get) in Hx.
  change (sb_refresh_token_revoke_family (storage_memory_create _ _ _)) with (Some mem_rt_revoke_family) in Hc. cbv iota in Hx, Hc.
  apply handler_bind_inv in Hx as (y & s2 & Hy & Hx). injection Hx as <- <-. apply on_store_inv in Hy as (p & Hp & ->).
  unfold mem_rt_get in Hp. fold (has_hash (refresh_hash R)) in Hp. rewrite Hf in Hp. injection Hp as <- <-. simpl in Hc.
  destruct (Z.eqb_spec (rt_revoked rt) 0); [done|]. cbn [negb] in Hc.
  apply handler_bind_inv in Hc as (z & s3 & Hz & Hc). injection Hc as <- <-. split; [done|].
  apply handler_bind_inv in Hz as (q & s4 & Hq & Hz). injection Hz as _ <-. apply on_store_inv in Hq as (p & Hp & ->).
  unfold mem_rt_revoke_family in Hp. injection Hp as _ <-. simpl.
  intros t Ht [Hu Hc]. apply list_elem_of_In, in_map_iff in Ht as (t0 & <- & _).
  destruct ((rt_user_id t0 =? rt_user_id rt) && strcmp_eq (rt_client_id t0) (rt_client_id rt)) eqn:E; [done|].
  rewrite Hu, Hc, Z.eqb_refl, strcmp_eq_refl in E. done.
Qed.


End Memory.

(* ------------------------------------------------------------------ *)
(** ** Witnesses *)

Import Toy.

Definition verifier : cstr := "dBjftJeZ4CVP-mB92K27uhbUJU1p1r_wW1gFWFOEjXk".
Definition code_row : oauth_auth_code_t :=
  {| oc_code := "c0de"; oc_client_id := "web"; oc_user_id := 7; oc_redirect_uri := "https://app/cb"; oc_scope := "openid";
     oc_nonce := []; oc_code_challenge := base64url_encode (sha256 (bytes_of verifier)) 128;
     oc_code_challenge_method := "S256"; oc_expires_at := 1700000060000; oc_used := 0 |}.
Definition token_req : http_request_t := request HTTP_POST "/api/v1/oauth/token" [] [].
Definition code_body_text : cstr :=
  ("grant_type=authorization_code&code=c0de&redirect_uri=https://app/cb&code_verifier=" : cstr) ++ verifier.
Definition refresh_body_text : cstr := "grant_type=refresh_token&refresh_token=R0".
Definition refresh_row : refresh_token_t :=
  {| rt_token_hash := refresh_hash "R0"; rt_user_id := 7; rt_client_id := "web"; rt_expires_at := 1700009999000;
     rt_issued_at := 0; rt_revoked := 0 |}.
Definition oauth_state (body : cstr) : sso_state mem_priv_t compiled_rule :=
  with_body body (set_world {| w_store := set_refresh_tokens {| items := [refresh_row]; cap := 16 |}
    (set_oauth_codes {| items := [code_row]; cap := 16 |} store0); w_engine := None |} server0).
Notation token_run t s := (handle_oauth_token (cx_at t) config0 (env_at t) token_req (init_response token_req) s).

Lemma code_exchange_works : ∃ r s, token_run 1 (oauth_state code_body_text) = Ret (r, s) ∧ rs_status_code r = 200.
Proof. apply run_status. vm_compute. reflexivity. Qed.

Lemma code_exchange_sound_witness :
  ∃ ac v, oc_used ac = 0 ∧ body_str (oauth_state code_body_text) "code_verifier" = Some v ∧
    (oc_code_challenge ac ≠ [] → ∃ v, proves (oc_code_challenge ac) (oc_code_challenge_method ac) v).
Proof.
  destruct code_exchange_works as (r & s & Hr & Hok).
  destruct (code_exchange_sound (cx_at 1) config0 (env_at 1) token_req (init_response token_req) (oauth_state code_body_text) r s)
    as (get & code & uri & ac & st & user & w & w' & _ & _ & _ & _ & Hu & _ & _ & Hp & _);
    [vm_compute; reflexivity|exact Hr|exact Hok|].
  exists ac, verifier. split; [exact Hu|]. split; [vm_compute; reflexivity|]. intros Hne.
  destruct (Hp Hne) as (v & _ & Hv). exists v. exact Hv.
Defined.

(** The same request once more, after the first one. *)
Definition after_code : sso_state mem_priv_t compiled_rule :=
  match token_run 1 (oauth_state code_body_text) with Ret (_, s) => with_body code_body_text s | _ => server0 end.

Lemma code_replay_runs : ∃ r s, token_run 2 after_code = Ret (r, s) ∧ rs_status_code r = 400.
Proof. apply run_status. vm_compute. reflexivity. Qed.

Lemma code_single_use_witness : ∃ r s, token_run 2 after_code = Ret (r, s) ∧ rs_status_code r ≠ 200.
Proof.
  destruct code_exchange_works as (r & s & Hr & Hok). destruct code_replay_runs as (r2 & s2 & Hr2 & _).
  exists r2, s2. split; [exact Hr2|].
  assert (Ha : after_code = with_body code_body_text s) by (unfold after_code; rewrite Hr; reflexivity).
  refine (code_single_use config0 64 (env_at 1) token_req (init_response token_req) (oauth_state code_body_text) r s "c0de"
    (w_store (ss_world s)) _ _ Hr Hok (rtc_refl _ _) (env_at 2) token_req (init_response token_req) after_code r2 s2 _ _ _ Hr2).
  - vm_compute. reflexivity.
  - vm_compute. reflexivity.
  - rewrite Ha. reflexivity.
  - vm_compute. reflexivity.
  - vm_compute. reflexivity.
Defined.

Lemma refresh_works : ∃ r s, token_run 1 (oauth_state refresh_body_text) = Ret (r, s) ∧ rs_status_code r = 200.
Proof. apply run_status. vm_compute. reflexivity. Qed.
Definition after_refresh : sso_state mem_priv_t compiled_rule :=
  match token_run 1 (oauth_state refresh_body_text) with Ret (_, s) => with_body refresh_body_text s | _ => server0 end.
Lemma refresh_replay_runs : ∃ r s, token_run 2 after_refresh = Ret (r, s) ∧ rs_status_code r = 400.
Proof. apply run_status. vm_compute. reflexivity. Qed.

