(* ===== verification/AdminSafety.v ===== *)
(** * What the administration endpoints guarantee

    Of src/handlers_admin.c: which numbers of a body are read, what is
    written to the audit log, and the buffers of the answers. *)

From S2P Require Import Prelude CLib CNum Json Types Storage StorageMemory PermCache Context UserMgr RoleMgr GroupMgr PolicyMgr RateLimit Mfa Bits Base64 TokenState Token TokenScan TokenJwt Printf PermEngine AuditLog Dpop Risk Http AuthHandlers Oauth Samples AdminHandlers CheckHandlers.

(* ------------------------------------------------------------------ *)
(** ** Numbers after strings *)

Lemma c_str_elem c s : c ∈ c_str s → c ∈ s.
Proof.
  induction s as [|x s IH]; cbn [c_str]; [done|]. destruct (Ascii.eqb x NUL); [by intros ?%not_elem_of_nil|].
  rewrite !elem_of_cons. naive_solver.
Qed.

(** A key is looked for with both its quotes. *)
Lemma one_quote_none (json key : cstr) pre k :
  json = pre ++ QUOTE :: k → QUOTE ∉ pre → QUOTE ∉ k → (length key ≤ 125)%nat → ∀ def, json_int_value (Some json) key def = def.
Proof.
  intros -> Hpre Hk Hlen def. unfold json_int_value, flat_value. cbn [mbind option_bind].
  set (search := snprintf 128 (QUOTE :: key ++ [QUOTE])).
  assert (Hs : search = QUOTE :: key ++ [QUOTE]).
  { unfold search, snprintf. apply take_ge. cbn [length]. rewrite length_app. simpl. lia. }
  destruct (strstr (pre ++ QUOTE :: k) search) as [i|] eqn:Ei; [|done]. exfalso.
  assert (Hq : ∀ l, QUOTE ∉ l → count_occ ascii_dec l QUOTE = 0%nat)
    by (intros l Hl; apply count_occ_not_In; intros Hin; by apply Hl, list_elem_of_In).
  apply strstr_Some in Ei as ([rest Ei] & _ & _).
  apply (f_equal (λ l, count_occ ascii_dec l QUOTE)) in Ei.
  pose proof (f_equal (λ l, count_occ ascii_dec l QUOTE) (take_drop i (pre ++ QUOTE :: k))) as Hsum. cbn beta in Hsum.
  rewrite count_occ_app, Ei, Hs, !count_occ_app in Hsum. cbn [count_occ] in Hsum. rewrite count_occ_app in Hsum. cbn [count_occ] in Hsum.
  destruct (ascii_dec QUOTE QUOTE); [|done]. rewrite (Hq pre), (Hq k) in Hsum by done. lia.
Qed.

Section Numbers.
Context {S C : Type} `{Crypto, InsituReader, !InsituLaws, JsonReader, Pwhash}.
Context (cx : sso_context S) (umgr : user_manager) (acfg : audit_settings) (cfg_path : option cstr) (env : request_env).
Notation state := (sso_state S C).
Implicit Types (req : http_request_t) (resp : http_response_t) (s : state).

(** The body has been read as an object. *)
Record read_as (doc : json) (s : state) : Prop := {
  read_doc : ss_doc s = Some doc;
  read_body : ∃ b pre k, ss_body s = Some b ∧ c_str b = pre ++ QUOTE :: k ∧ QUOTE ∉ pre ∧ QUOTE ∉ k
}.
(** It is going to be: an object with a first key without quotes. *)
Definition reads_as (doc : json) (s : state) : Prop :=
  ss_doc s = None ∧
  ∃ b k v ms b', ss_body s = Some b ∧ b ≠ [] ∧ doc = JObj ((k, v) :: ms) ∧ QUOTE ∉ k ∧
                 yyjson_read_insitu b = (Some doc, b').

Lemma read_first doc key s r s1 :
  reads_as doc s → req_json_str_value key s = Ret (r, s1) →
  r = as_str (yyjson_obj_get (Some doc) key) ∧ read_as doc s1 ∧ ss_world s1 = ss_world s.
Proof.
  intros (Hd & b & k & v & ms & b' & Hb & Hne & -> & Hk & Hread). unfold req_json_str_value, req_get_json.
  intros (d & s2 & E & E2)%handler_bind_inv. rewrite Hd, Hb in E. destruct b as [|c b]; [done|]. rewrite Hread in E.
  injection E as <- <-. injection E2 as <- <-. split_and!; [done| |done]. constructor; [done|].
  destruct (insitu_first_key _ _ _ _ _ Hread) as (pre & Hpre & Hc). exists b', pre, (c_str k).
  split_and!; [done|done|done|]. intros Hin. apply Hk.
  by apply c_str_elem.
Qed.

Lemma read_again doc key s r s1 :
  read_as doc s → req_json_str_value key s = Ret (r, s1) → r = as_str (yyjson_obj_get (Some doc) key) ∧ s1 = s.
Proof.
  intros [Hd _]. unfold req_json_str_value, req_get_json. intros (d & s2 & E & E2)%handler_bind_inv. rewrite Hd in E.
  injection E as <- <-. by injection E2 as <- <-.
Qed.

Lemma number_ignored doc key def s r s1 :
  read_as doc s → (length key ≤ 125)%nat → body_int key def s = Ret (r, s1) → r = def ∧ s1 = s.
Proof.
  intros [_ (b & pre & k & Hb & Hc & Hp & Hk)] Hl E. unfold body_int in E. injection E as <- <-. rewrite Hb.
  cbn [fmap option_fmap option_map]. by rewrite (one_quote_none _ key pre k Hc Hp Hk Hl).
Qed.

(** Reading the next member of a monadic handler. *)
Lemma has_body_keeps s r s1 : has_body s = Ret (r, s1) → s1 = s.
Proof. intros E. by injection E as _ <-. Qed.

Lemma body_s32_ignored doc key def s r s1 :
  read_as doc s → (length key ≤ 125)%nat → body_s32 key def s = Ret (r, s1) → r = s32 def ∧ s1 = s.
Proof.
  intros Hr Hl. unfold body_s32. intros (v & s2 & E & E2)%handler_bind_inv. apply number_ignored with (doc := doc) in E as [-> ->]; [|done..].
  by injection E2 as <- <-.
Qed.

Lemma body_id_ignored doc key def s r s1 :
  read_as doc s → (length key ≤ 125)%nat → body_id key def s = Ret (r, s1) → r = u64 def ∧ s1 = s.
Proof.
  intros Hr Hl. unfold body_id. intros (v & s2 & E & E2)%handler_bind_inv. apply number_ignored with (doc := doc) in E as [-> ->]; [|done..].
  by injection E2 as <- <-.
Qed.

Lemma create_policy_numbers doc req resp s r s' :
  reads_as doc s → handle_create_policy cx acfg cfg_path env req resp s = Ret (r, s') → rs_status_code r = 200 →
  ∃ name rules p w, policy_create cx (e_now env) (Some name) PERM_STRATEGY_FUNCTIONAL POLICY_EFFECT_ALLOW 50 (Some rules)
    (ss_world s) = Ret (Ok p, w).
Proof.
  intros Hr. unfold handle_create_policy. intros (b & s0 & E & E1)%handler_bind_inv. apply has_body_keeps in E as ->.
  destruct (negb b); [by injection E1 as <- _|]. apply handler_bind_inv in E1 as (name & s1 & E & E1).
  apply (read_first doc) in E as (-> & Hr1 & Hw); [|done]. destruct (as_str _) as [name|]; [|by injection E1 as <- _].
  do 3 (apply handler_bind_inv in E1 as (? & ? & E & E1); apply (body_s32_ignored doc) in E as [-> ->]; [|done|simpl; lia]).
  apply handler_bind_inv in E1 as (rules & s2 & E & E1). apply (read_again doc) in E as [-> ->]; [|done].
  apply handler_bind_inv in E1 as (pr & s2 & E & E1). apply on_world_inv in E as (w & E & ->). rewrite Hw in E.
  destruct pr as [p|e]; [by eexists _, _, _, _|]. by destruct e; injection E1 as <- _.
Qed.

Lemma update_user_numbers doc req resp s r s' :
  reads_as doc s → handle_update_user cx acfg cfg_path env req resp s = Ret (r, s') → rs_status_code r = 200 →
  ∃ user email display w w',
    user_get_by_id cx (extract_path_id (rq_path req) "/users/") (ss_world s) = Ret (Ok user, w) ∧
    user_update cx (e_now env) (with_profile user email display (-1)) w = Ret (Ok (), w').
Proof.
  intros Hr. unfold handle_update_user. intros (b & s0 & E & E1)%handler_bind_inv. apply has_body_keeps in E as ->.
  destruct (_ || _); [by injection E1 as <- _|]. apply handler_bind_inv in E1 as (u & s1 & E & E1).
  apply on_world_inv in E as (w & Hu & ->). destruct u as [user|e]; [|by injection E1 as <- _].
  apply handler_bind_inv in E1 as (email & s1 & E & E1).
  apply (read_first doc) in E as (-> & Hr1 & Hw); [|done].
  apply handler_bind_inv in E1 as (display & s2 & E & E1). apply (read_again doc) in E as [-> ->]; [|done].
  apply handler_bind_inv in E1 as (status & s2 & E & E1). apply (body_s32_ignored doc) in E as [-> ->]; [|done|simpl; lia].
  apply handler_bind_inv in E1 as (ur & s2 & E & E1). apply on_world_inv in E as (w' & E & ->). rewrite Hw in E.
  destruct ur as [[]|e]; [|by injection E1 as <- _]. by eexists user, _, _, w, w'.
Qed.

(** Numbers in a body are lost once a string of it has been read
    (counterexample to the fields the endpoints take): the document is
    read in place and ends the text of the body after its first key, and
    the numbers are looked for in that text.  So every policy created
    over HTTP is a functional one with effect "allow" and priority 50, and
    updating a user never changes its status, whatever the body says. *)
Theorem body_numbers_ignored doc req resp s :
  reads_as doc s →
  (∀ r s', handle_create_policy cx acfg cfg_path env req resp s = Ret (r, s') → rs_status_code r = 200 →
     ∃ name rules p w, policy_create cx (e_now env) (Some name) PERM_STRATEGY_FUNCTIONAL POLICY_EFFECT_ALLOW 50 (Some rules)
       (ss_world s) = Ret (Ok p, w)) ∧
  (∀ r s', handle_update_user cx acfg cfg_path env req resp s = Ret (r, s') → rs_status_code r = 200 →
     ∃ user user' w w',
       user_get_by_id cx (extract_path_id (rq_path req) "/users/") (ss_world s) = Ret (Ok user, w) ∧
       user_update cx (e_now env) user' w = Ret (Ok (), w') ∧ u_status user' = u_status user).
Proof.
  intros Hr. split; intros r s' E Hst; [by eapply create_policy_numbers|].
  destruct (update_user_numbers _ _ _ _ _ _ Hr E Hst) as (user & email & display & w & w' & Hu & Hup).
  by exists user, (with_profile user email display (-1)), w, w'.
Qed.

End Numbers.

(* ------------------------------------------------------------------ *)
(** ** The audit log *)

Section Audited.
Context {S C : Type} `{Crypto, InsituReader, JsonReader, Pwhash}.
Context (cx : sso_context S) (umgr : user_manager) (acfg : audit_settings) (cfg_path : option cstr) (env : request_env).
Notation handler := (handler S C).
Implicit Types (req : http_request_t) (resp : http_response_t).

(** A step that writes nothing to the log. *)
Definition quiet {A} (m : handler A) : Prop := ∀ s a s', m s = Ret (a, s') → ss_audit s' = ss_audit s.

(** A handler that logs the caller when, and only when, it answers 200. *)
Definition audited req (m : handler http_response_t) : Prop := ∀ s r s', m s = Ret (r, s') →
  if rs_status_code r =? 200
  then ∃ user_id username operation resource resource_id details st,
         (∀ a, rq_userdata req = Some a → user_id = u_id (ac_user a) ∧ username = u_username (ac_user a)) ∧
         admin_audit_log acfg cx (e_audit env) cfg_path user_id username (rq_client_ip req) operation resource resource_id
           (text "success") details (ss_audit s) st = Ret (ss_audit s', w_store (ss_world s'))
  else ss_audit s' = ss_audit s.

Lemma quiet_ret {A} (a : A) : quiet (mret a).
Proof. intros s x s' E. by injection E as _ <-. Qed.
Lemma quiet_bind {A B} (m : handler A) (f : A → handler B) : quiet m → (∀ a, quiet (f a)) → quiet (m ≫= f).
Proof. intros Hm Hf s x s' (a & s1 & E1 & E2)%handler_bind_inv. apply Hm in E1. apply Hf in E2. congruence. Qed.
Lemma quiet_state {A} (f : sso_state S C → A) : quiet (s ← get_state; mret (f s)).
Proof. intros s x s' E. by injection E as _ <-. Qed.
Lemma quiet_world {A} (f : mgr_op S C A) : quiet (on_world f).
Proof. intros s x s' (w & _ & ->)%on_world_inv. done. Qed.
Lemma quiet_store {A} (f : storage_op S A) : quiet (on_store f).
Proof. intros s x s' (w & _ & ->)%on_store_inv. done. Qed.
Lemma quiet_str key : quiet (req_json_str_value key).
Proof.
  intros s x s'. unfold req_json_str_value, req_get_json. intros (d & s1 & E & E2)%handler_bind_inv. injection E2 as _ <-.
  destruct (ss_doc s); [by injection E as _ <-|]. destruct (ss_body s) as [[|c b]|]; [by injection E as _ <-| |by injection E as _ <-].
  destruct (yyjson_read_insitu (c :: b)). by injection E as _ <-.
Qed.
Lemma quiet_int key def : quiet (body_int key def).
Proof. apply quiet_state. Qed.
Lemma quiet_s32 key def : quiet (body_s32 key def).
Proof. apply quiet_bind; [apply quiet_int|]. intros. apply quiet_ret. Qed.
Lemma quiet_id key def : quiet (body_id key def).
Proof. apply quiet_bind; [apply quiet_int|]. intros. apply quiet_ret. Qed.
Lemma quiet_body : quiet has_body.
Proof. apply quiet_state. Qed.

Lemma audited_bind {A} req (m : handler A) f : quiet m → (∀ a, audited req (f a)) → audited req (m ≫= f).
Proof.
  intros Hm Hf s x s' (a & s1 & E1 & E2)%handler_bind_inv. apply Hm in E1. apply Hf in E2. by rewrite E1 in E2.
Qed.
Lemma audited_error req status msg resp : status ≠ 200 → audited req (mret (sso_response_error env status msg resp)).
Proof. intros Hs s x s' E. injection E as <- <-. cbn. by rewrite (proj2 (Z.eqb_neq _ _) Hs). Qed.
Lemma audited_fail req status msg resp : status ≠ 200 → audited req (fail env resp status msg).
Proof. apply audited_error. Qed.

Lemma audit_as_logs user_id username req operation resource resource_id details (s : sso_state S C) x s' :
  audit_as cx acfg cfg_path env user_id username req operation resource resource_id details s = Ret (x, s') →
  ∃ st, admin_audit_log acfg cx (e_audit env) cfg_path user_id username (rq_client_ip req) (text operation) (text resource)
          resource_id (text "success") details (ss_audit s) st = Ret (ss_audit s', w_store (ss_world s')).
Proof. unfold audit_as. intros ([a st] & E & E2)%outcome_bind_inv. injection E2 as _ <-. eauto. Qed.

Lemma audited_done req resp body operation resource resource_id details :
  audited req (done_with cx acfg cfg_path env req resp body operation resource resource_id details).
Proof.
  intros s x s'. unfold done_with. intros (r1 & s1 & E & E2)%handler_bind_inv. injection E as <- <-.
  apply handler_bind_inv in E2 as (u & s2 & E & E2). injection E2 as <- <-. cbn. unfold audit in E.
  destruct (rq_userdata req) as [a|]; [|done]. apply audit_as_logs in E as [st E].
  eexists _, _, _, _, _, _, st. split; [|exact E]. by intros a' [= ->].
Qed.

Lemma audited_or_500 {A} req (r : result A) resp k : (∀ a, audited req (k a)) → audited req (or_500 env r resp k).
Proof. intros Hk. destruct r; [apply Hk|by apply audited_error]. Qed.

End Audited.

Create HintDb audited.
#[export] Hint Resolve quiet_ret quiet_world quiet_store quiet_str quiet_int quiet_s32 quiet_id quiet_body : audited.
#[export] Hint Resolve audited_done : audited.

(** Follow a handler down to its answers. *)
Ltac quiet_step :=
  lazymatch goal with
  | |- quiet (mbind _ _) => apply quiet_bind; [|intros]
  | |- quiet (if ?b then _ else _) => destruct b
  | |- quiet _ => solve [auto with audited]
  end.
Ltac audited_step :=
  cbv zeta;
  lazymatch goal with
  | |- audited _ _ _ _ _ (mbind _ _) => apply audited_bind; [solve [repeat quiet_step]|intros]
  | |- audited _ _ _ _ _ (fail _ _ _ _) => by apply audited_fail
  | |- audited _ _ _ _ _ (mret (sso_response_error _ _ _ _)) => by apply audited_error
  | |- audited _ _ _ _ _ (or_500 _ _ _ _) => apply audited_or_500; intros
  | |- audited _ _ _ _ _ (done_with _ _ _ _ _ _ _ _ _ _ _) => apply audited_done
  | |- audited _ _ _ _ _ (match ?x with _ => _ end) => destruct x
  end.

Ltac unfold_handlers :=
  unfold handle_update_user, handle_delete_user, handle_create_role, handle_update_role, handle_delete_role,
    handle_assign_role, handle_unassign_role, handle_create_group, handle_update_group, handle_delete_group,
    handle_add_group_member, handle_remove_group_member, handle_create_policy, handle_update_policy, handle_delete_policy,
    handle_assign_policy, handle_unassign_policy, handle_create_client, handle_update_client, handle_delete_client.

Section Handlers.
Context {S C : Type} `{Crypto, InsituReader, JsonReader, Pwhash}.
Context (cx : sso_context S) (umgr : user_manager) (acfg : audit_settings) (cfg_path : option cstr) (env : request_env).
Notation handler := (handler S C).

(** The handlers that change what the managers and the client table
    hold. *)
Definition changing_handlers : list (http_request_t → http_response_t → handler http_response_t) :=
  [handle_create_user cx umgr acfg cfg_path env; handle_update_user cx acfg cfg_path env; handle_delete_user cx acfg cfg_path env;
   handle_create_role cx acfg cfg_path env; handle_update_role cx acfg cfg_path env; handle_delete_role cx acfg cfg_path env;
   handle_assign_role cx acfg cfg_path env; handle_unassign_role cx acfg cfg_path env;
   handle_create_group cx acfg cfg_path env; handle_update_group cx acfg cfg_path env; handle_delete_group cx acfg cfg_path env;
   handle_add_group_member cx acfg cfg_path env; handle_remove_group_member cx acfg cfg_path env;
   handle_create_policy cx acfg cfg_path env; handle_update_policy cx acfg cfg_path env; handle_delete_policy cx acfg cfg_path env;
   handle_assign_policy cx acfg cfg_path env; handle_unassign_policy cx acfg cfg_path env;
   handle_create_client cx acfg cfg_path env; handle_update_client cx acfg cfg_path env; handle_delete_client cx acfg cfg_path env].

Lemma create_user_audited req resp : audited (C := C) cx acfg cfg_path env req (handle_create_user cx umgr acfg cfg_path env req resp).
Proof.
  unfold handle_create_user. repeat audited_step.
  intros s x s' (r1 & s1 & E & E2)%handler_bind_inv. injection E as <- <-.
  apply handler_bind_inv in E2 as (u & s2 & E & E2). injection E2 as <- <-. cbn.
  destruct (rq_userdata req) as [a'|] eqn:Ea; apply audit_as_logs in E as [st E]; eexists _, _, _, _, _, _, st; (split; [|exact E]);
    [by intros ? [= ->]|by intros ? [=]].
Qed.

(** C23. Changes are audited (safety): each of the 21 handlers that change
    users, roles, groups, policies or clients writes an entry that names
    the caller and its address when it answers 200, and nothing
    otherwise; the rotation of the signing key writes none. *)
Theorem changes_audited :
  (∀ h req resp s r s', h ∈ changing_handlers → h req resp s = Ret (r, s') →
     if rs_status_code r =? 200
     then ∃ user_id username operation resource resource_id details st,
            (∀ a, rq_userdata req = Some a → user_id = u_id (ac_user a) ∧ username = u_username (ac_user a)) ∧
            admin_audit_log acfg cx (e_audit env) cfg_path user_id username (rq_client_ip req) operation resource resource_id
              (text "success") details (ss_audit s) st = Ret (ss_audit s', w_store (ss_world s'))
     else ss_audit s' = ss_audit s) ∧
  (∀ req resp s r s', handle_rotate_keys (S := S) (C := C) env req resp s = Ret (r, s') → ss_audit s' = ss_audit s).
Proof.
  split.
  - intros h req resp s r s' Hh. revert s r s'. change (audited (C := C) cx acfg cfg_path env req (h req resp)).
    unfold changing_handlers in Hh. apply elem_of_cons in Hh as [->|Hh]; [apply create_user_audited|].
    repeat (apply elem_of_cons in Hh as [->|Hh]; [unfold_handlers; repeat audited_step|]).
    by apply not_elem_of_nil in Hh.
  - intros req resp. change (quiet (C := C) (handle_rotate_keys (S := S) env req resp)). unfold handle_rotate_keys.
    assert (Hrot : ∀ k m, quiet (C := C) (S := S) (rotate_answer env resp k m)).
    { intros k m s x s'. unfold rotate_answer. destruct (negb _); intros E; by injection E as _ <-. }
    apply quiet_bind; [apply quiet_body|]. intros b. destruct (negb b); [apply quiet_ret|].
    intros s. revert s. apply quiet_bind; [intros s x s' E; by injection E as _ <-|]. intros s. cbv zeta.
    destruct (tm_mode _); [| |apply quiet_ret]; (apply quiet_bind; [apply quiet_str|]); intros [v|]; try apply quiet_ret; [apply Hrot|].
    apply quiet_bind; [apply quiet_str|]. intros. apply Hrot.
Qed.

End Handlers.

(* ------------------------------------------------------------------ *)
(** ** Buffers *)

Section Buffers.
Context {S C : Type} `{Crypto}.
Context (cx : sso_context S) (env : request_env).
Notation handler := (handler S C).
Implicit Types (s : sso_state S C).

Lemma print_dec_nonempty n : 0 ≤ n → (1 ≤ length (print_dec n))%nat.
Proof. intros Hn. destruct (print_dec_spec n Hn) as (Hne & _ & _). destruct (print_dec n); [done|simpl; lia]. Qed.

(** An item with a name of 63 characters. *)
Lemma name_item_length j id name :
  length name = 63%nat →
  (81 ≤ length (snprintf 128 (comma_if j ++ object [member "id" (print_llu id); member "name" (quoted_text name)])))%nat.
Proof.
  intros Hn. pose proof (print_dec_nonempty (u64 id)) as Hd. pose proof (u64_range id) as Hu.
  unfold snprintf. rewrite length_take. unfold object, member, quoted_text, print_llu. cbn [commas].
  repeat (cbn [length app]; rewrite ?length_app). rewrite Hn. cbn [length list_ascii_of_string]. lia.
Qed.

(** Reading names never overruns the buffer when it returns. *)
Lemma name_items_length (get : Z → handler (option (Z * cstr))) ids s :
  (∀ i, i ∈ ids → ∃ id name, get i s = Ret (Some (id, name), s) ∧ length name = 63%nat) →
  ∀ j acc acc' s', (length acc < 1024)%nat → name_items get j ids acc s = Ret (acc', s') →
  (length acc + 81 * length ids ≤ length acc' < 1024)%nat.
Proof.
  induction ids as [|i ids IH]; intros Hget j acc acc' s' Hacc; cbn [name_items].
  - intros E. injection E as <- <-. simpl. lia.
  - intros (r & s1 & E & E2)%handler_bind_inv. destruct (Hget i) as (id & name & Hi & Hn); [by left|].
    rewrite Hi in E. injection E as <- <-.
    apply handler_bind_inv in E2 as (acc1 & s1 & E & E2). unfold lift in E. apply outcome_bind_inv in E as (a & E & E1).
    injection E1 as <- <-. unfold strcat in E. destruct (Nat.ltb_spec (length acc + length (snprintf 128 (comma_if j ++
      object [member "id" (print_llu id); member "name" (quoted_text name)]))) 1024) as [Hl|]; [|done]. injection E as <-.
    apply IH in E2; [|intros k Hk; apply Hget; by right|rewrite length_app; lia].
    pose proof (name_item_length j id name Hn). rewrite length_app in E2. cbn [length]. lia.
Qed.

(** Roles that crash the server (counterexample to memory safety): the
    names of a user's roles are written one after the other into 1024
    bytes, so showing a user with 13 roles or more whose names have the
    full length of 63 characters overruns the stack. *)
Theorem role_names_overflow req resp s u ids :
  extract_path_id (rq_path req) "/api/v1/users/" ≠ 0 →
  user_get_by_id cx (extract_path_id (rq_path req) "/api/v1/users/") (ss_world s) = Ret (Ok u, ss_world s) →
  user_get_roles cx (u_id u) 16 (ss_world s) = Ret (Ok ids, ss_world s) →
  (∀ i, i ∈ ids → ∃ r, role_get_by_id cx i (ss_world s) = Ret (Ok r, ss_world s) ∧ length (r_name r) = 63%nat) →
  (13 ≤ length ids)%nat →
  ∀ x, handle_get_user cx env req resp s ≠ Ret x.
Proof.
  intros Hid Hu Hr Hroles Hlen x. unfold handle_get_user. rewrite (proj2 (Z.eqb_neq _ _) Hid).
  assert (Hs : set_world (ss_world s) s = s) by by destruct s.
  assert (Hon : ∀ A (f : mgr_op S C A) r, f (ss_world s) = Ret (r, ss_world s) → on_world f s = Ret (r, s)).
  { intros A f r Hf. unfold on_world. rewrite Hf. change (mbind ?g (Ret ?y)) with (g y). cbv beta iota. by rewrite Hs. }
  intros (a & s1 & E & E2)%handler_bind_inv. rewrite (Hon _ _ _ Hu) in E. injection E as <- <-.
  apply handler_bind_inv in E2 as (json & s1 & E & _). unfold user_json in E.
  apply handler_bind_inv in E as (l & s2 & E & E2). unfold roles_of in E. apply handler_bind_inv in E as (l2 & s3 & E & E3).
  rewrite (Hon _ _ _ Hr) in E. injection E as <- <-. injection E3 as <- <-.
  apply handler_bind_inv in E2 as (rj & s2 & E & _). unfold names_json in E.
  apply handler_bind_inv in E as (acc & s3 & E & _). cbn [ids_or_none] in E.
  apply name_items_length in E; [simpl in E; lia| |simpl; lia].
  intros i Hi. destruct (Hroles i Hi) as (r & Hri & Hn). exists (r_id r), (r_name r). split; [|done].
  unfold role_name_of. by rewrite (handler_bind_Ret _ _ _ _ _ (Hon _ _ _ Hri)).
Qed.

End Buffers.

(* ------------------------------------------------------------------ *)
(** ** Witnesses *)

(** A body and what reading it in place leaves. *)
Definition q (s : string) : cstr := quoted_text (text s).
Definition closed (s : string) : cstr := QUOTE :: text s ++ [NUL].
Definition policy_body : cstr := "{"%char :: q "name" ++ ":"%char :: q "p" ++ ","%char :: q "priority" ++ text ":9}".
Definition policy_body_read : cstr :=
  "{"%char :: closed "name" ++ ":"%char :: closed "p" ++ ","%char :: closed "priority" ++ text ":9}".
Definition policy_doc : json := JObj [(text "name", JStr (text "p")); (text "priority", JUint 9)].
Definition one_reader : InsituReader := λ b,
  if bool_decide (b = policy_body) then (Some policy_doc, policy_body_read) else (None, b).
Lemma one_reader_laws : InsituLaws (H := one_reader).
Proof.
  intros b k v ms b'. unfold yyjson_read_insitu, one_reader. destruct (bool_decide _); [|done]. intros E.
  injection E as <- _ _ <-. exists (text "{"). split; [|reflexivity]. by apply (bool_decide_unpack _); vm_compute.
Qed.

Import Toy.

Definition admin_req (path : cstr) : http_request_t := with_auth (Some {| ac_user := alice; ac_token := zero_token |})
  (request HTTP_POST path [] []).
Notation policy_run := (handle_create_policy (H0 := one_reader) (cx_at 0) audit_cfg None (env_at 0)
  (admin_req "/api/v1/policies") (init_response (admin_req "/api/v1/policies")) (with_body policy_body server0)).

Lemma policy_runs : ∃ r s, policy_run = Ret (r, s) ∧ rs_status_code r = 200.
Proof. apply run_status. vm_compute. reflexivity. Qed.

Lemma body_numbers_ignored_witness :
  ∃ name rules p w, policy_create (C := compiled_rule) (cx_at 0) (e_now (env_at 0)) (Some name) PERM_STRATEGY_FUNCTIONAL
    POLICY_EFFECT_ALLOW 50 (Some rules) (ss_world (with_body policy_body server0)) = Ret (Ok p, w).
Proof.
  destruct policy_runs as (r & s & Hr & Hs).
  apply (body_numbers_ignored (H0 := one_reader) (H1 := one_reader_laws) (cx_at 0) audit_cfg None (env_at 0) policy_doc
    (admin_req "/api/v1/policies") (init_response (admin_req "/api/v1/policies")) (with_body policy_body server0)) with r s.
  - split; [reflexivity|]. exists policy_body, (text "name"), (JStr (text "p")), [(text "priority", JUint 9)], policy_body_read.
    split_and!; [reflexivity|discriminate|reflexivity| |reflexivity].
    intros Hin. apply (bool_decide_pack _) in Hin. vm_compute in Hin. exact Hin.
  - exact Hr.
  - exact Hs.
Defined.

Lemma changes_audited_witness :
  ∃ r s, policy_run = Ret (r, s) ∧ rs_status_code r = 200 ∧
    ∃ operation resource resource_id details st,
      admin_audit_log audit_cfg (cx_at 0) (e_audit (env_at 0)) None (u_id alice) (u_username alice) (text "10.0.0.9")
        operation resource resource_id (text "success") details audit_boot st = Ret (ss_audit s, w_store (ss_world s)).
Proof.
  destruct policy_runs as (r & s & Hr & Hs). exists r, s. split; [exact Hr|]. split; [exact Hs|].
  pose proof (proj1 (changes_audited (C := compiled_rule) (H0 := one_reader) (cx_at 0) no_expiry audit_cfg None (env_at 0))
    (handle_create_policy (H0 := one_reader) (cx_at 0) audit_cfg None (env_at 0)) (admin_req "/api/v1/policies")
    (init_response (admin_req "/api/v1/policies")) (with_body policy_body server0) r s) as Ha.
  rewrite Hs in Ha. destruct Ha as (uid & un & op & rs & ri & d & st & Hwho & Ha).
  - apply list_elem_of_In. cbn. tauto.
  - exact Hr.
  - destruct (Hwho _ eq_refl) as [-> ->]. exists op, rs, ri, d, st. exact Ha.
Defined.

Definition long_role (i : nat) : role_t :=
  {| r_id := Z.of_nat i; r_name := replicate 63 "x"%char; r_description := []; r_parent_role_id := 0;
     r_status := ROLE_STATUS_ACTIVE; r_created_at := 0; r_updated_at := 0 |}.
Definition roles_store : mem_priv_t :=
  StorageMemory.set_roles {| items := map long_role (seq 1 13); cap := 64 |}
    (StorageMemory.set_user_roles {| items := map (λ i, {| pa := Z.of_nat i; pb := 7 |}) (seq 1 13); cap := 64 |} store0).
Definition roles_state : sso_state mem_priv_t compiled_rule :=
  set_world {| w_store := roles_store; w_engine := None |} server0.

Lemma role_names_overflow_witness :
  ¬ ∃ x, handle_get_user (cx_at 0) (env_at 0) (admin_req "/api/v1/users/7") (init_response (admin_req "/api/v1/users/7"))
           roles_state = Ret x.
Proof.
  intros [x Hx]. revert Hx.
  apply (role_names_overflow (cx_at 0) (env_at 0) (admin_req "/api/v1/users/7") _ roles_state alice (map Z.of_nat (seq 1 13))).
  - vm_compute. discriminate.
  - reflexivity.
  - reflexivity.
  - intros i Hi. apply list_elem_of_In, in_map_iff in Hi as (n & <- & Hn). exists (long_role n). split; [|reflexivity].
    apply in_seq in Hn. do 14 (destruct n as [|n]; [lia + reflexivity|]). lia.
  - vm_compute. lia.
Defined.
