(* ===== verification/CheckSafety.v ===== *)
(** * What the permission checks do with their parameters

    Of src/handlers_check.c and the checks of src/permission.c: checks
    whose text reaches into the record pointer of the params union, the
    user a check is about, and the general check with a record. *)

From S2P Require Import Prelude CLib CNum Json Types DataPerm Storage StorageMemory PermCache Context UserMgr RateLimit Mfa Bits Base64 TokenState Token TokenScan TokenJwt Printf PermEngine AuditLog Dpop Risk Http AuthHandlers Oauth Samples AdminHandlers CheckHandlers AdminSafety.

(* ------------------------------------------------------------------ *)
(** ** A record pointer that is none *)

Section Overlay.
Context {S : Type} `{JsonReader} (cx : sso_context S) (alloc : Z → bool).
Notation world := (world S compiled_rule).
Notation strategies := (builtin_strategies cx alloc).

(** The word where the record pointer lies is set, but the context owns
    no block. *)
Definition foreign (ctx : eval_context) : Prop := ec_heap ctx = ∅ ∧ get_word off_record (ec_params ctx) ≠ 0.

Lemma foreign_destroy ctx : foreign ctx → eval_context_destroy ctx = Crash.
Proof.
  intros [Hh Hw]. unfold eval_context_destroy, heap_free. by rewrite (proj2 (Z.eqb_neq _ _) Hw), Hh, lookup_empty.
Qed.

Lemma data_foreign ctx r x : foreign ctx → data_evaluate alloc ctx r = Ret x → x.2 = ctx.
Proof.
  intros [Hh Hw]. unfold data_evaluate, data_check_record. destruct r as [r|]; [|by intros [= <-]].
  destruct (negb _); [by intros [= <-]|]. rewrite (proj2 (Z.eqb_neq _ _) Hw), Hh, lookup_empty. done.
Qed.

(** No strategy changes such a context. *)
Lemma strategy_foreign s ev ctx p c (w : world) x :
  s ∈ strategies → ps_evaluate s = Some ev → foreign ctx → ev ctx p c w = Ret x → x.1.2 = ctx.
Proof.
  intros Hs Hev Hf. unfold builtin_strategies in Hs.
  repeat (apply elem_of_cons in Hs as [->|Hs]); [..|by apply not_elem_of_nil in Hs];
    injection Hev as <-; destruct c as [[]|]; try done;
    unfold pure_eval, data_eval, rbac_eval, lbac_eval; intros E; try (by injection E as <-);
    apply outcome_bind_inv in E as (y & Hy & E); try (by injection E as <-);
    injection E as <-; by apply data_foreign in Hy.
Qed.

Lemma policy_foreign p ctx (w : world) x :
  foreign ctx → perm_engine_evaluate_policy strategies p ctx w = Ret x → x.1.2 = ctx.
Proof.
  intros Hf. unfold perm_engine_evaluate_policy. destruct (bool_decide _); [by intros [= <-]|].
  destruct (perm_engine_get_strategy _ _) as [s|] eqn:Es; [|by intros [= <-]].
  apply find_some in Es as [Hs%list_elem_of_In _].
  destruct (ps_evaluate s) as [ev|] eqn:Eev; [|by intros [= <-]].
  intros ([c w1] & _ & E)%outcome_bind_inv. apply outcome_bind_inv in E as ([[[e r] ctx1] w2] & Hev & E).
  pose proof (strategy_foreign _ _ _ _ _ _ _ Hs Eev Hf Hev) as Hc. cbn in Hc. subst ctx1.
  cbv zeta in E. destruct (is_ok e); by injection E as <-.
Qed.

Lemma loop_foreign want ps ctx (w : world) t any x :
  foreign ctx → eval_loop strategies want ps ctx w t any = Ret x → x.1.2 = ctx.
Proof.
  intros Hf. revert w t any. induction ps as [|p ps IH]; intros w t any; cbn [eval_loop]; [by intros [= <-]|].
  intros ([[[[err res] tr] ctx1] w1] & Hp & E)%outcome_bind_inv. apply policy_foreign in Hp; [|done]. cbn in Hp. subst ctx1.
  destruct res as [[|]|]; [by apply IH in E|by injection E as <-|by apply IH in E].
Qed.

Lemma evaluate_foreign now later want ctx (st : engine_state S) err res tr ctx' st' :
  foreign ctx →
  perm_engine_evaluate_internal cx strategies alloc now later want ctx st = Ret (err, res, tr, ctx', st') → ctx' = ctx.
Proof.
  intros Hf. unfold perm_engine_evaluate_internal.
  assert (Hres : ∀ ph ps st, evaluate_resolved strategies now later want ctx ph ps st = Ret (err, res, tr, ctx', st') → ctx' = ctx).
  { intros ph ps st0. unfold evaluate_resolved.
    intros ([[[v t] ctx1] w] & Hl & E)%outcome_bind_inv. apply loop_foreign in Hl; [|done]. cbn in Hl. subst ctx1.
    destruct (w_engine w); [|done]. by destruct v; injection E. }
  destruct (w_engine (es_world st)) as [e|]; [|by intros [=]].
  destruct (_ && _); [by intros [=]|]. destruct (negb _); [by intros [=]|]. cbv zeta.
  destruct (l2_hit _ _ _ _); [by intros [=]|].
  destruct (l1_hit _ _ _) as [[|p ps]|]; [by intros [=]|apply Hres|].
  destruct (negb _); [by intros [=]|]. destruct (negb _); [by intros [=]|].
  intros ([r w] & _ & E)%outcome_bind_inv. destruct r as [ps|e'].
  - destruct (w_engine w); [by apply Hres in E|done].
  - destruct (bool_decide _); by injection E.
Qed.

Lemma perm_check_foreign now later brk user_id fill (st : engine_state S) user w :
  user_get_by_id cx user_id (es_world st) = Ret (Ok user, w) →
  get_word off_record (fill (replicate params_size NUL)) ≠ 0 →
  ∀ r, perm_check cx alloc strategies now later brk user_id fill st ≠ Ret r.
Proof.
  intros Hu Hw r E. unfold perm_check in E. rewrite Hu in E. change (mbind ?f (Ret ?x)) with (f x) in E. cbv beta iota zeta in E.
  assert (Hf : foreign (with_params fill (eval_context_init brk user))) by (split; [done|exact Hw]).
  apply outcome_bind_inv in E as ([[[[err res] tr] ctx'] st'] & Hev & E).
  apply evaluate_foreign in Hev as ->; [|done]. by rewrite foreign_destroy in E.
Qed.

Lemma get_word_put_str_before off off2 size s p :
  (off + 8 ≤ off2)%nat → (off2 ≤ length p)%nat → get_word off (put_str off2 size s p) = get_word off p.
Proof.
  intros Ho Hl. unfold get_word, put_str, put_bytes. f_equal.
  rewrite drop_app_le by (rewrite length_take; lia). rewrite take_app_le by (rewrite length_drop, length_take; lia).
  rewrite skipn_firstn_comm, take_take. f_equal. lia.
Qed.

(** Checks that crash (safety, a counterexample to their memory safety):
    the context of a check is a union, and its destructor frees what lies
    where a data check keeps its record, whatever the check was.  So no
    check of an existing user returns whose text reaches these bytes: a
    location check with a country, an API check with a path of more than
    56 characters, and checks of a function code, a label list or subject
    attributes of more than 64, whatever the policies. *)
Theorem union_checks_crash now later brk user_id (st : engine_state S) user w :
  user_get_by_id cx user_id (es_world st) = Ret (Ok user, w) →
  (∀ ip country r, NUL ∉ country → country ≠ [] →
     perm_check_location cx alloc strategies now later brk user_id (Some ip) (Some country) st ≠ Ret r) ∧
  (∀ m path r, NUL ∉ path → (56 < length path)%nat →
     perm_check_api cx alloc strategies now later brk user_id (Some m) (Some path) st ≠ Ret r) ∧
  (∀ code r, NUL ∉ code → (64 < length code)%nat →
     perm_check_function cx alloc strategies now later brk user_id (Some code) st ≠ Ret r) ∧
  (∀ ul rl r, NUL ∉ ul → (64 < length ul)%nat →
     perm_check_lbac cx alloc strategies now later brk user_id (Some ul) (Some rl) st ≠ Ret r) ∧
  (∀ sa r, NUL ∉ sa → (64 < length sa)%nat →
     perm_check_abac cx alloc strategies now later brk user_id (Some sa) None None st ≠ Ret r).
Proof.
  intros Hu.
  assert (Hz : length (replicate params_size NUL) = 4160%nat) by by rewrite length_replicate.
  split_and!; intros *; cbn [perm_check_location perm_check_api perm_check_function perm_check_lbac perm_check_abac].
  - intros Hn Hne. eapply perm_check_foreign; [exact Hu|]. cbn [put_opt].
    destruct country as [|c country]; [done|]. apply (get_word_in_string 64 8 _ _ 0); [simpl; lia|lia|done|].
    rewrite put_str_length; rewrite ?Hz; unfold off_source_ip; lia.
  - intros Hn Hl. eapply perm_check_foreign; [exact Hu|]. apply (get_word_in_string 8 1024 _ _ 56); [lia|lia|done|].
    rewrite put_str_length; rewrite ?Hz; unfold off_http_method; lia.
  - intros Hn Hl. eapply perm_check_foreign; [exact Hu|]. apply (get_word_in_string 0 128 _ _ 64); [lia|lia|done|]. lia.
  - intros Hn Hl. eapply perm_check_foreign; [exact Hu|]. unfold off_record, off_resource_label.
    rewrite get_word_put_str_before; [|lia|rewrite put_str_length; rewrite ?Hz; unfold off_user_labels; lia].
    apply (get_word_in_string 0 256 _ _ 64); [lia|lia|done|lia].
  - intros Hn Hl. eapply perm_check_foreign; [exact Hu|]. cbn [put_opt].
    apply (get_word_in_string 0 2048 _ _ 64); [lia|lia|done|lia].
Qed.

End Overlay.

(* ------------------------------------------------------------------ *)
(** ** The user a check is about *)

Section Caller.
Context {S : Type} `{Crypto, InsituReader, !InsituLaws, JsonReader}.
Context (cx : sso_context S) (strategies : list (permission_strategy S)) (acfg : audit_settings) (env : request_env).
Context (later brk : Z).
Notation alloc := (e_alloc env).
Notation now := (e_mono env).
Implicit Types (s : sso_state S compiled_rule).

(** Once a string has been read the number is not found, and the check is
    about the caller. *)
Lemma checked_caller doc req a s u s' :
  read_as doc s → rq_userdata req = Some a → u_id (ac_user a) ≠ 0 → checked_user req s = Ret (u, s') →
  u = Some (u_id (ac_user a)) ∧ s' = s.
Proof.
  intros Hr Ha Hne. unfold checked_user. intros (v & s1 & E & E2)%handler_bind_inv.
  apply (body_id_ignored doc) in E as [-> ->]; [|done|simpl; lia]. change (u64 0 =? 0) with true in E2. cbv zeta iota in E2.
  rewrite Ha in E2. cbn [fmap option_fmap option_map default from_option id] in E2.
  rewrite (proj2 (Z.eqb_neq _ _) Hne) in E2. by injection E2 as <- <-.
Qed.

(** Checks are about the caller (counterexample to the documented
    user_id): a check of a function or of an API path over HTTP that
    succeeds is the engine's answer for the authenticated user, whatever
    user the body names, because the body's string is read first. *)
Theorem checks_for_caller doc req resp a s r s' :
  reads_as doc s → rq_userdata req = Some a → u_id (ac_user a) ≠ 0 → rs_status_code r = 200 →
  (handle_check_functional cx strategies acfg env later brk req resp s = Ret (r, s') →
   ∃ code res s1, on_engine cx acfg env (perm_check_function cx alloc strategies now later brk (u_id (ac_user a)) (Some code)) s1 =
     Ret ((SSO_OK, res), s')) ∧
  (handle_check_api cx strategies acfg env later brk req resp s = Ret (r, s') →
   ∃ m path res s1, on_engine cx acfg env (perm_check_api cx alloc strategies now later brk (u_id (ac_user a)) (Some m) (Some path)) s1 =
     Ret ((SSO_OK, res), s')).
Proof.
  intros Hr Ha Hne Hst.
  assert (Hans : ∀ check size u ms s1, answer_check cx acfg env check size u ms resp s1 = Ret (r, s') →
            ∃ res, on_engine cx acfg env check s1 = Ret ((SSO_OK, res), s')).
  { intros check size u ms s1 ([err res] & s2 & E & E2)%handler_bind_inv. destruct (is_ok err) eqn:Ee; [|by injection E2 as <- _].
    apply is_ok_true in Ee as ->. injection E2 as <- <-. eauto. }
  split.
  - unfold handle_check_functional. intros (b & s0 & E & E1)%handler_bind_inv. apply has_body_keeps in E as ->.
    destruct (negb b); [by injection E1 as <- _|]. apply handler_bind_inv in E1 as (code & s1 & E & E1).
    apply (read_first doc) in E as (_ & Hr1 & _); [|done]. destruct code as [code|]; [|by injection E1 as <- _].
    apply handler_bind_inv in E1 as (u & s2 & E & E1). apply (checked_caller doc _ a) in E as [-> ->]; [|done..].
    apply Hans in E1 as [res E1]. eauto.
  - unfold handle_check_api. intros (b & s0 & E & E1)%handler_bind_inv. apply has_body_keeps in E as ->.
    destruct (negb b); [by injection E1 as <- _|]. apply handler_bind_inv in E1 as (m & s1 & E & E1).
    apply (read_first doc) in E as (_ & Hr1 & _); [|done]. apply handler_bind_inv in E1 as (p & s2 & E & E1).
    apply (read_again doc) in E as [_ ->]; [|done]. destruct m as [m|]; [|by injection E1 as <- _].
    destruct p as [p|]; [|by injection E1 as <- _].
    apply handler_bind_inv in E1 as (u & s2 & E & E1). apply (checked_caller doc _ a) in E as [-> ->]; [|done..].
    apply Hans in E1 as [res E1]. eauto.
Qed.

End Caller.

(* ------------------------------------------------------------------ *)
(** ** Witnesses *)

Import Toy.

Lemma union_checks_crash_witness :
  ¬ ∃ r, perm_check_location (cx_at 0) (λ _, true) (builtin_strategies (cx_at 0) (λ _, true)) 0 0 4096 7 (Some (text "10.0.0.1"))
         (Some (text "US")) {| es_world := ss_world server0; es_metrics := no_metrics; es_audit := [] |} = Ret r.
Proof.
  intros [r Hr]. revert Hr. apply (proj1 (union_checks_crash (cx_at 0) (λ _, true) 0 0 4096 7
    {| es_world := ss_world server0; es_metrics := no_metrics; es_audit := [] |} alice (ss_world server0) eq_refl)).
  - intros Hin. apply (bool_decide_pack _) in Hin. vm_compute in Hin. exact Hin.
  - discriminate.
Defined.

(** A body {"function_code":"f","user_id":8}, asked by alice, user 7. *)
Definition check_body : cstr := "{"%char :: q "function_code" ++ ":"%char :: q "f" ++ ","%char :: q "user_id" ++ text ":8}".
Definition check_body_read : cstr :=
  "{"%char :: closed "function_code" ++ ":"%char :: closed "f" ++ ","%char :: closed "user_id" ++ text ":8}".
Definition check_doc : json := JObj [(text "function_code", JStr (text "f")); (text "user_id", JUint 8)].
Definition check_reader : InsituReader := λ b,
  if bool_decide (b = check_body) then (Some check_doc, check_body_read) else (None, b).
Lemma check_reader_laws : InsituLaws (H := check_reader).
Proof.
  intros b k v ms b'. unfold yyjson_read_insitu, check_reader. destruct (bool_decide _); [|done]. intros E.
  injection E as <- _ _ <-. exists (text "{"). split; [|reflexivity]. by apply (bool_decide_unpack _); vm_compute.
Qed.
Definition check_req : http_request_t := admin_req "/api/v1/check/functional".
Notation check_run := (handle_check_functional (H0 := check_reader) (cx_at 0) (builtin_strategies (cx_at 0) (e_alloc (env_at 0)))
  audit_cfg (env_at 0) 0 4096 check_req (init_response check_req) (with_body check_body server0)).
Lemma check_runs : ∃ r s, check_run = Ret (r, s) ∧ rs_status_code r = 200.
Proof. apply run_status. vm_compute. reflexivity. Qed.

Lemma checks_for_caller_witness :
  ∃ code res s1 s', on_engine (cx_at 0) audit_cfg (env_at 0) (perm_check_function (cx_at 0) (e_alloc (env_at 0))
    (builtin_strategies (cx_at 0) (e_alloc (env_at 0))) (e_mono (env_at 0)) 0 4096 7 (Some code)) s1 = Ret ((SSO_OK, res), s').
Proof.
  destruct check_runs as (r & s & Hr & Hs).
  destruct (checks_for_caller (H0 := check_reader) (H1 := check_reader_laws) (cx_at 0) (builtin_strategies (cx_at 0) (e_alloc (env_at 0)))
    audit_cfg (env_at 0) 0 4096 check_doc check_req (init_response check_req) {| ac_user := alice; ac_token := zero_token |}
    (with_body check_body server0) r s) as [Hc _].
  - split; [reflexivity|].
    exists check_body, (text "function_code"), (JStr (text "f")), [(text "user_id", JUint 8)], check_body_read.
    split_and!; [reflexivity|discriminate|reflexivity| |reflexivity].
    intros Hin. apply (bool_decide_pack _) in Hin. vm_compute in Hin. exact Hin.
  - reflexivity.
  - discriminate.
  - exact Hs.
  - destruct (Hc Hr) as (code & res & s1 & E). exists code, res, s1, s. exact E.
Defined.
