(* ===== verification/Routes.v ===== *)
(** * The routes of the server (src/main.c) and whole requests

    The route table of the program, which paths it serves without a
    token, and runs of several requests against the concrete server. *)

From S2P Require Import Prelude CLib CNum Json Types Storage StorageMemory PermCache Context UserMgr RoleMgr RateLimit Mfa Bits Base64 TokenState Token TokenScan TokenJwt Printf PermEngine AuditLog Dpop Risk Http AuthHandlers Oauth AdminHandlers CheckHandlers Samples AuthSafety.

(** Pattern, method, name of the handler, and whether the middleware
    checks a token first. *)
Definition route_table : list (string * http_method_t * string * bool) :=
  [("/metrics", HTTP_GET, "handle_metrics", false);
   ("/api/v1/health", HTTP_GET, "handle_health", false);
   ("/api/v1/admin/status", HTTP_GET, "handle_admin_status", true);
   ("/api/v1/docs", HTTP_GET, "handle_swagger_ui", false);
   ("/api/v1/docs/openapi.yaml", HTTP_GET, "handle_openapi_yaml", false);
   ("/api/v1/auth/login", HTTP_POST, "handle_login", false);
   ("/api/v1/auth/send_sms", HTTP_POST, "handle_send_sms", false);
   ("/api/v1/auth/login_by_sms", HTTP_POST, "handle_login_by_sms", false);
   ("/api/v1/auth/register", HTTP_POST, "handle_register", false);
   ("/api/v1/auth/mfa/setup", HTTP_POST, "handle_mfa_setup", true);
   ("/api/v1/auth/mfa/enable", HTTP_POST, "handle_mfa_enable", true);
   ("/api/v1/auth/mfa/verify", HTTP_POST, "handle_mfa_verify", false);
   ("/api/v1/auth/webauthn/register/challenge", HTTP_POST, "handle_webauthn_register_challenge", true);
   ("/api/v1/auth/webauthn/register", HTTP_POST, "handle_webauthn_register", true);
   ("/api/v1/auth/webauthn/login/challenge", HTTP_POST, "handle_webauthn_login_challenge", false);
   ("/api/v1/auth/webauthn/login", HTTP_POST, "handle_webauthn_login", false);
   ("/api/v1/auth/verify", HTTP_GET, "handle_verify", false);
   ("/api/v1/auth/verify", HTTP_POST, "handle_verify", false);
   ("/api/v1/auth/refresh", HTTP_POST, "handle_refresh", false);
   ("/api/v1/auth/logout", HTTP_POST, "handle_logout", true);
   ("/api/v1/auth/logout_all", HTTP_POST, "handle_logout_all", true);
   ("/api/v1/auth/password", HTTP_POST, "handle_change_password", true);
   ("/api/v1/auth/me", HTTP_GET, "handle_me", true);
   ("/api/v1/auth/certs", HTTP_GET, "handle_certs", false);
   ("/api/v1/auth/userinfo", HTTP_GET, "handle_userinfo", true);
   ("/api/v1/auth/jwks", HTTP_GET, "handle_jwks", false);
   ("/api/v1/auth/rotate-keys", HTTP_POST, "handle_rotate_keys", true);
   ("/api/v1/auth/session-check", HTTP_GET, "handle_session_check", false);
   ("/api/v1/audit/logs", HTTP_GET, "handle_list_audit_logs", true);
   ("/api/v1/check", HTTP_POST, "handle_check_permission", true);
   ("/api/v1/check/functional", HTTP_POST, "handle_check_functional", true);
   ("/api/v1/check/api", HTTP_POST, "handle_check_api", true);
   ("/api/v1/check/data", HTTP_POST, "handle_check_data", true);
   ("/api/v1/check/rbac", HTTP_POST, "handle_check_rbac", true);
   ("/api/v1/check/location", HTTP_POST, "handle_check_location", true);
   ("/api/v1/check/lbac", HTTP_POST, "handle_check_lbac", true);
   ("/api/v1/check/abac", HTTP_POST, "handle_check_abac", true);
   ("/api/v1/users", HTTP_GET, "handle_list_users", true);
   ("/api/v1/users", HTTP_POST, "handle_create_user", true);
   ("/api/v1/users/:id", HTTP_GET, "handle_get_user", true);
   ("/api/v1/users/:id", HTTP_PUT, "handle_update_user", true);
   ("/api/v1/users/:id", HTTP_DELETE, "handle_delete_user", true);
   ("/api/v1/roles", HTTP_GET, "handle_list_roles", true);
   ("/api/v1/roles", HTTP_POST, "handle_create_role", true);
   ("/api/v1/roles/:id", HTTP_PUT, "handle_update_role", true);
   ("/api/v1/roles/:id", HTTP_DELETE, "handle_delete_role", true);
   ("/api/v1/roles/*/assign", HTTP_POST, "handle_assign_role", true);
   ("/api/v1/roles/*/unassign", HTTP_POST, "handle_unassign_role", true);
   ("/api/v1/policies", HTTP_GET, "handle_list_policies", true);
   ("/api/v1/policies", HTTP_POST, "handle_create_policy", true);
   ("/api/v1/policies/:id", HTTP_PUT, "handle_update_policy", true);
   ("/api/v1/policies/:id", HTTP_DELETE, "handle_delete_policy", true);
   ("/api/v1/policies/*/assign", HTTP_POST, "handle_assign_policy", true);
   ("/api/v1/policies/*/unassign", HTTP_POST, "handle_unassign_policy", true);
   ("/api/v1/users/*/policies", HTTP_GET, "handle_get_user_policies", true);
   ("/api/v1/policies/*/targets", HTTP_GET, "handle_get_policy_targets", true);
   ("/api/v1/groups", HTTP_GET, "handle_list_groups", true);
   ("/api/v1/groups", HTTP_POST, "handle_create_group", true);
   ("/api/v1/groups/:id", HTTP_PUT, "handle_update_group", true);
   ("/api/v1/groups/:id", HTTP_DELETE, "handle_delete_group", true);
   ("/api/v1/groups/*/members", HTTP_POST, "handle_add_group_member", true);
   ("/api/v1/groups/*/members/*", HTTP_DELETE, "handle_remove_group_member", true);
   ("/api/v1/clients", HTTP_GET, "handle_list_clients", true);
   ("/api/v1/clients", HTTP_POST, "handle_create_client", true);
   ("/api/v1/clients/:id", HTTP_PUT, "handle_update_client", true);
   ("/api/v1/clients/:id", HTTP_DELETE, "handle_delete_client", true);
   ("/.well-known/openid-configuration", HTTP_GET, "handle_well_known_openid_config", false);
   ("/api/v1/oauth/authorize", HTTP_GET, "handle_oauth_authorize", true);
   ("/api/v1/oauth/token", HTTP_POST, "handle_oauth_token", false);
   ("/api/v1/oauth/introspect", HTTP_POST, "handle_oauth_introspect", true);
   ("/api/v1/oauth/revoke", HTTP_POST, "handle_oauth_revoke", true);
   ("/api/v1/oauth/end-session", HTTP_GET, "handle_oauth_end_session", false);
   ("/raft/request_vote", HTTP_POST, "handle_raft_request_vote", false);
   ("/raft/append_entries", HTTP_POST, "handle_raft_append_entries", false);
   ("/api/v1/raft/execute", HTTP_POST, "handle_raft_execute", false);
   ("/api/v1/raft/status", HTTP_GET, "handle_raft_status", false)]%string.

Section Table.
Context {S C : Type} `{Crypto, InsituReader, JsonReader, Sha256, RsaKeys}.
Notation handler := (handler S C).
Notation impl_t := (string → http_request_t → http_response_t → handler (sso_error_t * http_response_t)).

(** The table with the handlers filled in. *)
Definition sso_routes (impl : impl_t) : list (route_t S C) :=
  map (λ '(p, m, h, a), {| rt_pattern := list_ascii_of_string p; rt_method := m; rt_require_auth := a; rt_handler := impl h |})
    route_table.

(** The paths that are served without a token. *)
Definition public_paths : list string :=
  ["/metrics";
   "/api/v1/health";
   "/api/v1/docs";
   "/api/v1/docs/openapi.yaml";
   "/api/v1/auth/login";
   "/api/v1/auth/send_sms";
   "/api/v1/auth/login_by_sms";
   "/api/v1/auth/register";
   "/api/v1/auth/mfa/verify";
   "/api/v1/auth/webauthn/login/challenge";
   "/api/v1/auth/webauthn/login";
   "/api/v1/auth/verify";
   "/api/v1/auth/refresh";
   "/api/v1/auth/certs";
   "/api/v1/auth/jwks";
   "/api/v1/auth/session-check";
   "/.well-known/openid-configuration";
   "/api/v1/oauth/token";
   "/api/v1/oauth/end-session";
   "/raft/request_vote";
   "/raft/append_entries";
   "/api/v1/raft/execute";
   "/api/v1/raft/status"]%string.

Definition is_public (path : cstr) : Prop :=
  ∃ p, p ∈ public_paths ∧ (path = list_ascii_of_string p ∨ path = list_ascii_of_string p ++ ["/"%char]).

(** Every route without a token has a literal pattern of that list. *)
Definition row_checked (row : string * http_method_t * string * bool) : bool :=
  let '(p, _, _, a) := row in
  a || (existsb (String.eqb p) public_paths &&
        forallb (λ c, negb (char_in [":"%char; "*"%char] c)) (list_ascii_of_string p) &&
        bool_decide (last (list_ascii_of_string p) ≠ Some "/"%char)).

Lemma table_checked : forallb row_checked route_table = true.
Proof. vm_compute. reflexivity. Qed.

Lemma public_row impl r path :
  r ∈ sso_routes impl → rt_require_auth r = false → match_route (rt_pattern r) path = true → is_public path.
Proof.
  intros Hin Ha Hm. apply list_elem_of_In, in_map_iff in Hin as ([[[p m] h] a] & <- & Hin). simpl in Ha, Hm. subst a.
  pose proof (proj1 (forallb_forall _ _) table_checked _ Hin) as Hc. unfold row_checked in Hc. cbn [orb] in Hc.
  apply andb_true_iff in Hc as [[Hp Hl]%andb_true_iff He]. apply bool_decide_eq_true in He.
  apply existsb_exists in Hp as (q & Hq & ->%String.eqb_eq). exists q. split; [by apply list_elem_of_In|].
  apply match_route_text in Hm as [->|[->|Hm]]; [by left|by right| |done]. rewrite Hm, last_snoc in He. by destruct He.
Qed.

Lemma find_route_in impl req r :
  find_route (sso_routes impl) req = Some r → r ∈ sso_routes impl ∧ match_route (rt_pattern r) (rq_path req) = true.
Proof.
  unfold find_route, method_routes. intros [Hin Hm]%find_some. split; [|done].
  apply list_elem_of_In, list_elem_of_filter in Hin as [_ Hin]. done.
Qed.

(** C7. What is served without a token (safety): for every request whose
    path is not one of the 23 public ones, up to a slash at its end, when
    the middleware refuses the request no handler runs, whatever the
    handlers do: the answer is 401, or 404 when there is no route, and
    the state is what the token check leaves. *)
Theorem only_public_without_token (cx : sso_context S) env impl req s e s' :
  ¬ is_public (rq_path req) → rq_method req ≠ HTTP_OPTIONS → e_arena env sizeof_auth_context = true →
  authenticate_request cx env req s = Ret (Err e, s') →
  ∃ r, handle_client cx env (sso_routes impl) false req s = Ret (r, if rs_status_code r =? 404 then s else s') ∧
       (rs_status_code r = 401 ∨ rs_status_code r = 404).
Proof.
  intros Hnp Hm Har Ha. unfold handle_client. rewrite bool_decide_eq_false_2 by done.
  destruct (find_route (sso_routes impl) req) as [r|] eqn:Ef; [|by exists (sso_response_error env 404 "Not found" (init_response req)); split; [|right]].
  apply find_route_in in Ef as [Hin Hr]. destruct (rt_require_auth r) eqn:Hauth.
  - rewrite Har. cbn [andb negb]. rewrite (handler_bind_Ret _ _ _ _ _ Ha). by eexists (sso_response_error env 401 _ (init_response req)); split; [reflexivity|left].
  - exfalso. apply Hnp. by eapply public_row.
Qed.

End Table.

(* ------------------------------------------------------------------ *)
(** ** Whole requests *)

Section Server.
Context {S : Type} `{Crypto, !RsaParams, InsituReader, JsonReader, JsonWriter, Interner, Sha256, RsaKeys, Pwhash, Hmac, Curl}.
Context (cx : sso_context S) (umgr : user_manager) (cfg : option oauth_config) (env : request_env).
Context (strategies : list (permission_strategy S)) (acfg : audit_settings) (cfg_path : option cstr) (later brk : Z).
Context (stale_json : cstr) (stale_trace : list ascii).
Notation handler := (handler S compiled_rule).

(** The modelled handlers by name; the others are given. *)
Definition handlers : list (string * (http_request_t → http_response_t → handler http_response_t)) :=
  [("handle_login", handle_login cx umgr env); ("handle_mfa_setup", handle_mfa_setup env);
   ("handle_mfa_enable", handle_mfa_enable cx env); ("handle_mfa_verify", handle_mfa_verify cx env);
   ("handle_send_sms", handle_send_sms cx env); ("handle_login_by_sms", handle_login_by_sms cx env);
   ("handle_register", handle_register cx umgr env); ("handle_verify", handle_verify cx env);
   ("handle_refresh", handle_refresh cx env); ("handle_logout", handle_logout cx env);
   ("handle_logout_all", handle_logout_all env); ("handle_change_password", handle_change_password cx umgr env);
   ("handle_me", handle_me env); ("handle_session_check", handle_session_check cx env);
   ("handle_oauth_authorize", handle_oauth_authorize cx cfg env); ("handle_oauth_token", handle_oauth_token cx cfg env);
   ("handle_oauth_introspect", handle_oauth_introspect cx env); ("handle_oauth_revoke", handle_oauth_revoke cx env);
   ("handle_well_known_openid_config", handle_well_known_openid_config cfg env); ("handle_jwks", handle_jwks env);
   ("handle_userinfo", handle_userinfo env); ("handle_oauth_end_session", handle_oauth_end_session cx cfg env);
   ("handle_rotate_keys", handle_rotate_keys env);
   ("handle_check_permission", handle_check_permission cx strategies acfg env later brk stale_trace);
   ("handle_check_functional", handle_check_functional cx strategies acfg env later brk);
   ("handle_check_api", handle_check_api cx strategies acfg env later brk);
   ("handle_check_data", handle_check_data cx strategies acfg env later brk);
   ("handle_check_rbac", handle_check_rbac cx strategies acfg env later brk);
   ("handle_check_location", handle_check_location cx strategies acfg env later brk);
   ("handle_check_lbac", handle_check_lbac cx strategies acfg env later brk);
   ("handle_check_abac", handle_check_abac cx strategies acfg env later brk);
   ("handle_list_users", handle_list_users cx env); ("handle_create_user", handle_create_user cx umgr acfg cfg_path env);
   ("handle_get_user", handle_get_user cx env); ("handle_update_user", handle_update_user cx acfg cfg_path env);
   ("handle_delete_user", handle_delete_user cx acfg cfg_path env); ("handle_list_roles", handle_list_roles cx env);
   ("handle_create_role", handle_create_role cx acfg cfg_path env);
   ("handle_update_role", handle_update_role cx acfg cfg_path env);
   ("handle_delete_role", handle_delete_role cx acfg cfg_path env);
   ("handle_assign_role", handle_assign_role cx acfg cfg_path env);
   ("handle_unassign_role", handle_unassign_role cx acfg cfg_path env);
   ("handle_list_policies", handle_list_policies cx env); ("handle_create_policy", handle_create_policy cx acfg cfg_path env);
   ("handle_update_policy", handle_update_policy cx acfg cfg_path env);
   ("handle_delete_policy", handle_delete_policy cx acfg cfg_path env);
   ("handle_assign_policy", handle_assign_policy cx acfg cfg_path env);
   ("handle_unassign_policy", handle_unassign_policy cx acfg cfg_path env);
   ("handle_get_user_policies", handle_get_user_policies cx env);
   ("handle_get_policy_targets", handle_get_policy_targets cx env);
   ("handle_list_groups", handle_list_groups cx env); ("handle_create_group", handle_create_group cx acfg cfg_path env);
   ("handle_update_group", handle_update_group cx acfg cfg_path env);
   ("handle_delete_group", handle_delete_group cx acfg cfg_path env);
   ("handle_add_group_member", handle_add_group_member cx acfg cfg_path env);
   ("handle_remove_group_member", handle_remove_group_member cx acfg cfg_path env);
   ("handle_list_clients", handle_list_clients cx env stale_json);
   ("handle_create_client", handle_create_client cx acfg cfg_path env);
   ("handle_update_client", handle_update_client cx acfg cfg_path env);
   ("handle_delete_client", handle_delete_client cx acfg cfg_path env)]%string.

Definition sso_impl (other : string → http_request_t → http_response_t → handler (sso_error_t * http_response_t))
    (name : string) (req : http_request_t) (resp : http_response_t) : handler (sso_error_t * http_response_t) :=
  match List.find (λ h, String.eqb h.1 name) handlers with
  | Some h => r ← h.2 req resp; mret (SSO_OK, r)
  | None => other name req resp
  end.

End Server.

Import Toy.

(** Handlers that are not modelled answer "not implemented" here. *)
Definition missing (name : string) (req : http_request_t) (resp : http_response_t)
  : handler mem_priv_t compiled_rule (sso_error_t * http_response_t) := mret (SSO_ERR_NOT_IMPLEMENTED, resp).

Definition users_req : http_request_t := request HTTP_GET "/api/v1/users" [] [].

Lemma only_public_without_token_witness :
  ∃ r s, handle_client (cx_at 0) (env_at 0) (sso_routes missing) false users_req server0 = Ret (r, s) ∧
    (rs_status_code r = 401 ∨ rs_status_code r = 404).
Proof.
  destruct (only_public_without_token (cx_at 0) (env_at 0) missing users_req server0 SSO_ERR_AUTH_FAILED server0) as (r & Hr & Hst).
  - intros (p & Hp & He). unfold public_paths in Hp.
    repeat (apply elem_of_cons in Hp as [->|Hp]; [destruct He as [He|He]; discriminate He|]). by apply not_elem_of_nil in Hp.
  - discriminate.
  - reflexivity.
  - reflexivity.
  - exists r. eexists. split; [exact Hr|exact Hst].
Defined.

(** One request at second [t], with or without a body. *)
Definition call_server (t : Z) (req : http_request_t) (body : option cstr) (s : sso_state mem_priv_t compiled_rule)
  : outcome (http_response_t * sso_state mem_priv_t compiled_rule) :=
  handle_client (cx_at t) (env_at t) (sso_routes (sso_impl (cx_at t) no_expiry config0 (env_at t)
    (builtin_strategies (cx_at t) (e_alloc (env_at t))) audit_cfg None (e_mono (env_at t) + 1) 4096 [] (replicate 4096 NUL)
    missing)) false req
    (set_req body None s).

Definition get (path token : cstr) : http_request_t := request HTTP_GET path token [].
Definition post (path token : cstr) : http_request_t := request HTTP_POST path token [].

(** The code an authenticator shows for a secret at second [t]. *)
Definition totp_at (t : Z) (secret : cstr) : cstr :=
  totp_text (generate_totp (base32_decode secret 64) (time_s (e_now (env_at t)) / 30)).

Definition mfa_bypass : outcome (list Z * cstr * cstr) :=
  '(r1, s) ← call_server 0 (post "/api/v1/auth/login" []) (Some ("username=bob&password=Hunter2!x" : cstr)) server0;
  let mfa := body_value "mfa_token" r1 in
  '(r2, s) ← call_server 1 (get "/api/v1/auth/me" mfa) None s;
  '(r3, s) ← call_server 2 (get "/api/v1/auth/session-check" mfa) None s;
  '(r4, s) ← call_server 3 (post "/api/v1/auth/mfa/setup" mfa) None s;
  let secret := body_value "secret" r4 in
  '(r5, s) ← call_server 4 (post "/api/v1/auth/mfa/enable" mfa)
               (Some (("secret=" : cstr) ++ secret ++ ("&code=" : cstr) ++ totp_at 4 secret)) s;
  '(r6, s) ← call_server 5 (post "/api/v1/auth/mfa/verify" [])
               (Some (("mfa_token=" : cstr) ++ mfa ++ ("&code=" : cstr) ++ totp_at 5 secret)) s;
  '(r7, s) ← call_server 6 (get "/api/v1/auth/me" (header_value "X-SSO-Access-Token" r6)) None s;
  Ret (map rs_status_code [r1; r2; r3; r4; r5; r6; r7], rs_extra_headers r1, secret).

(** The second factor can be replaced (counterexample to requiring
    it): bob has a second factor, and someone who knows only his password
    logs in.  The answer carries a token of scope "mfa" and no session;
    with that token alone the server serves /auth/me and the session
    check of the proxy, lets a new secret be set up and enabled in place
    of bob's, and then hands out a full session for a code of the new
    secret. *)
Theorem second_factor_replaced :
  ∃ secret, mfa_bypass = Ret ([200; 200; 200; 200; 200; 200; 200], [], secret) ∧ secret ≠ bob_secret.
Proof. eexists. split; [vm_compute; reflexivity|discriminate]. Qed.

Definition logout_all_run : outcome (list Z) :=
  '(r1, s) ← call_server 0 (post "/api/v1/auth/login" []) (Some ("username=alice&password=Passw0rd!" : cstr)) server0;
  let access := header_value "X-SSO-Access-Token" r1 in
  let refresh := header_value "X-SSO-Refresh-Token" r1 in
  '(r2, s) ← call_server 1 (post "/api/v1/auth/logout_all" access) None s;
  '(r3, s) ← call_server 2 (get "/api/v1/auth/me" access) None s;
  '(r4, s) ← call_server 3 (get "/api/v1/auth/session-check" access) None s;
  '(r5, s) ← call_server 4 (get "/api/v1/auth/verify" access) None s;
  '(r6, s) ← call_server 5 (post "/api/v1/auth/refresh" []) (Some (("refresh_token=" : cstr) ++ refresh)) s;
  '(r7, s) ← call_server 6 (get "/api/v1/auth/me" (header_value "X-SSO-Access-Token" r6)) None s;
  Ret (map rs_status_code [r1; r2; r3; r4; r5; r6; r7]).

(** Sessions survive a logout from all of them (counterexample): after
    alice logs in and then out everywhere, her old access token is
    refused by the middleware (401), but the session check of the proxy
    and /auth/verify still accept it, and her old refresh token is
    exchanged for a new session that the middleware accepts. *)
Theorem logout_all_incomplete : logout_all_run = Ret [200; 200; 401; 200; 200; 200; 200].
Proof. vm_compute. reflexivity. Qed.

Definition code_flow : outcome (list Z) :=
  '(r1, s) ← call_server 0 (post "/api/v1/auth/login" []) (Some ("username=alice&password=Passw0rd!" : cstr)) server0;
  let access := header_value "X-SSO-Access-Token" r1 in
  '(r2, s) ← call_server 1 (request HTTP_GET "/api/v1/oauth/authorize" access
      [("client_id=web" : cstr); ("redirect_uri=https://app/cb" : cstr); ("response_type=code" : cstr); ("scope=openid" : cstr)])
      None s;
  let code := value_after "?code=" CRLF (rs_extra_headers r2) in
  let body := ("grant_type=authorization_code&redirect_uri=https://app/cb&code=" : cstr) ++ code in
  '(r3, s) ← call_server 2 (post "/api/v1/oauth/token" []) (Some body) s;
  '(r4, s) ← call_server 3 (get "/api/v1/auth/userinfo" (body_value "access_token" r3)) None s;
  '(r5, s) ← call_server 4 (post "/api/v1/oauth/token" []) (Some body) s;
  Ret (map rs_status_code [r1; r2; r3; r4; r5]).

(** The authorization code flow runs to its end, and needs no client
    (liveness, and counterexample to the documented client_secret): login,
    authorization, exchange of the code, use of the access token; the
    exchange names neither a client nor a secret; and a second exchange of
    the code is refused. *)
Theorem code_flow_without_client : code_flow = Ret [200; 302; 200; 200; 400].
Proof. vm_compute. reflexivity. Qed.

(** The value of "allowed" in an answer. *)
Definition allowed_of (r : http_response_t) : cstr :=
  value_after (member "allowed" []) (text ",") (default [] (rs_body r)).

Definition promotion : outcome (list Z * list cstr) :=
  '(r1, s) ← call_server 0 (post "/api/v1/auth/login" []) (Some ("username=alice&password=Passw0rd!" : cstr)) server0;
  let access := header_value "X-SSO-Access-Token" r1 in
  let check t := call_server t (post "/api/v1/check/functional" access) (Some ("function_code=admin:all" : cstr)) in
  '(r2, s) ← check 1 s;
  '(r3, s) ← call_server 2 (post "/api/v1/policies" access) (Some ("name=mine&rules=admin:all" : cstr)) s;
  '(r4, s) ← call_server 3 (post "/api/v1/policies/1/assign" access)
               (Some ("{"%char :: member "target_id" (text "7") ++ text "}")) s;
  '(r5, s) ← check 4 s;
  Ret (map rs_status_code [r1; r2; r3; r4; r5], map allowed_of [r2; r5]).

(** Anyone can make himself an administrator (counterexample to access
    control): alice has no role, no group and no policy, and is denied;
    with nothing but her session she creates a policy that allows what
    she wants and assigns it to herself, and is allowed.  None of the
    administration handlers asks the permission engine. *)
Theorem self_promotion : promotion = Ret ([200; 200; 200; 200; 200], [text "false"; text "true"]).
Proof. vm_compute. reflexivity. Qed.

Definition known_secret : cstr := "0123456789abcdef0123456789abcdef".

(** The manager of someone who knows the key. *)
Definition forger (kid : cstr) : token_manager :=
  {| tm_mode := SSO_TOKEN_MODE_HS256; slot0 := hs256_slot kid (hs256_secret known_secret); slot1 := zero_slot;
     active_slot := false; rotation_counter := 1; default_ttl_ms := 3600000; tables := empty_tables |}.

Definition takeover : outcome (list Z * cstr) :=
  '(r1, s) ← call_server 0 (post "/api/v1/auth/login" []) (Some ("username=alice&password=Passw0rd!" : cstr)) server0;
  '(r2, s) ← call_server 1 (post "/api/v1/auth/rotate-keys" (header_value "X-SSO-Access-Token" r1))
               (Some (("secret=" : cstr) ++ known_secret)) s;
  '(_, forged) ← token_issue (λ _, true) (forger (body_value "active_kid" r2)) 8 [] [] None 900000 None
                   (e_now (env_at 2)) [1; 2; 3; 4; 5; 6; 7; 8] [9; 9; 9; 9];
  '(r3, s) ← call_server 3 (get "/api/v1/auth/me" (token_str forged)) None s;
  Ret (map rs_status_code [r1; r2; r3], body_value "username" r3).

(** Anyone can take over the signing key (counterexample to the
    authenticity of tokens): with nothing but her session alice rotates
    the key to one she knows, signs a token for bob with it, who has a
    second factor, and the server takes her for bob. *)
Theorem key_takeover : takeover = Ret ([200; 200; 200], text "bob").
Proof. vm_compute. reflexivity. Qed.

Definition country_check : outcome (list Z) :=
  '(r1, s) ← call_server 0 (post "/api/v1/auth/login" []) (Some ("username=alice&password=Passw0rd!" : cstr)) server0;
  '(r2, s) ← call_server 1 (post "/api/v1/check/location" (header_value "X-SSO-Access-Token" r1))
               (Some ("source_ip=10.0.0.1&geo_country=US" : cstr)) s;
  Ret (map rs_status_code [r1; r2]).
Example country_check_crashes : country_check = Crash.
Proof. vm_compute. reflexivity. Qed.
