(* ===== verification/WebauthnSafety.v ===== *)
(** * What WebAuthn guarantees

    What a login with a credential implies, that challenges are signed
    with an empty key, and runs of the whole server that replay an
    assertion and fail to replace a credential. *)

From S2P Require Import Prelude CLib CNum Json Types Storage StorageMemory PermCache Context UserMgr RoleMgr RateLimit Mfa Bits Base64 TokenState Token TokenScan TokenJwt Printf PermEngine AuditLog Dpop Risk Http AuthHandlers Oauth AdminHandlers CheckHandlers Config Boot Tenant Webauthn Samples AuthSafety Routes.

Section Login.
Context {S C : Type} `{Crypto, InsituReader, JsonReader, JsonWriter, Interner, Sha256, RsaKeys, EcKeys}.
Context (cx : sso_context S) (env : request_env) (cfg : sso_config_t).
Implicit Types (req : http_request_t) (resp r : http_response_t) (s : sso_state S C).

Lemma active_named_inv username u s s' :
  active_named cx username s = Ret (Some u, s') →
  ∃ w, user_get_by_username cx (Some username) (ss_world s) = Ret (Ok u, w) ∧ u_status u = USER_STATUS_ACTIVE ∧
       s' = set_world w s.
Proof.
  unfold active_named. intros Hh. apply handler_bind_inv in Hh as (ru & s1 & Hu & Hh).
  apply on_world_inv in Hu as (w & Hu & ->). injection Hh as Hr <-. exists w.
  destruct ru as [user|]; [|done]. destruct (bool_decide _) eqn:Hb; [|done]. injection Hr as ->.
  by apply bool_decide_eq_true in Hb.
Qed.

Lemma login_verify_inv alloc ad cd sg challenge origin pem :
  webauthn_login_verify alloc ad cd sg challenge origin pem = Ret SSO_OK →
  ∃ key, ec_read pem = Some key ∧ verify_client_data (b64u_decode cd) challenge origin = SSO_OK ∧
    ec_verify key (b64u_decode ad ++ sha256 (b64u_decode cd)) (b64u_decode sg) = true.
Proof.
  assert (Hd : ∀ t l, decode_new alloc t = Ret l → l = b64u_decode t).
  { intros t l. unfold decode_new. destruct (_ || _); [by intros [= <-]|done]. }
  unfold webauthn_login_verify. intros (a & ->%Hd & (c & ->%Hd & (g & ->%Hd & Hv)%outcome_bind_inv)%outcome_bind_inv)%outcome_bind_inv.
  destruct (is_ok (verify_client_data _ _ _)) eqn:Hc; cbn [negb] in Hv.
  2: { injection Hv as Hv. by rewrite Hv in Hc. }
  apply is_ok_true in Hc. destruct (alloc _); [|done]. cbn [negb] in Hv. destruct (ec_read pem) as [key|]; [|done].
  destruct (ec_verify _ _ _) eqn:Hk; [|done]. eauto.
Qed.


End Login.

(* ------------------------------------------------------------------ *)
(** ** Challenges *)

Section Challenge.
Context `{Crypto}.

Lemma booted_config e storage c b : sso_init e storage (Some c) = Booted b → bt_config b = Some (wipe_keys c).
Proof. unfold sso_init. intros Hb. repeat (case_match; try done); by injection Hb as <-. Qed.

(** What anyone can compute. *)
Definition unkeyed_signature (challenge : cstr) : cstr :=
  concat (map (λ b, zero_pad 2 (print_hex b)) (hmac_sha256 [] (bytes_of challenge))).

(** Anyone can sign challenges (counterexample to "challenges are
    HMAC-signed with the server secret"): the secret is wiped from the
    settings of a context before it serves its first request, so every
    server signs with the empty key, whatever secret it was given. *)
Theorem challenges_unkeyed e storage c b challenge :
  sso_init e storage (Some c) = Booted b →
  ∃ cfg, bt_config b = Some cfg ∧ sign_challenge cfg challenge = unkeyed_signature challenge.
Proof. intros Hb. exists (wipe_keys c). split; [by eapply booted_config|done]. Qed.

End Challenge.

(* ================================================================== *)
(** ** Runs *)

Import Toy.

(** Texts [k=v&k=v] as objects, both ways; the documents of tokens are
    written as JSON. *)
#[local] Instance kv_reader : JsonReader :=
  λ t, match t with [] => None | _ => Some (JObj (map toy_member (split_on "&" t))) end.
Definition kv_text (kvs : list (list ascii * json)) : cstr :=
  match kvs with
  | [] => []
  | (k, v) :: kvs =>
      fold_left (λ t kv, t ++ "&"%char :: kv.1 ++ "="%char :: match kv.2 with JStr s => s | _ => [] end) kvs
        (k ++ "="%char :: match v with JStr s => s | _ => [] end)
  end.
#[local] Instance kv_writer : JsonWriter :=
  λ v, match v with
       | JObj (((k, _) :: _) as kvs) =>
           if strcmp_eq k "webauthn_credential_id" then Some (kv_text kvs) else Some (compact v)
       | _ => Some (compact v)
       end.

(** Keys are the first bytes of a point; a signature is a hash. *)
#[local] Instance toy_ec : EcKeys :=
  {| ec_key := cstr; ec_pem := λ x y, b64u_encode (take 6 x ++ take 6 y); ec_read := Some;
     ec_verify := λ key msg sig, bool_decide (sig = toy_hash 8 (bytes_of key ++ msg)) |}.

Definition webauthn_impl (t : Z) (cfg : sso_config_t) (name : string) (req : http_request_t) (resp : http_response_t)
  : handler mem_priv_t compiled_rule (sso_error_t * http_response_t) :=
  let h f := r ← f req resp; mret (SSO_OK, r) in
  if String.eqb name "handle_webauthn_register_challenge" then h (handle_webauthn_register_challenge (env_at t) cfg (replicate 32 t))
  else if String.eqb name "handle_webauthn_register" then h (handle_webauthn_register (cx_at t) (env_at t) cfg)
  else if String.eqb name "handle_webauthn_login_challenge" then
    h (handle_webauthn_login_challenge (cx_at t) (env_at t) cfg (replicate 32 t))
  else if String.eqb name "handle_webauthn_login" then h (handle_webauthn_login (cx_at t) (env_at t) cfg)
  else missing name req resp.

Definition call_with (t : Z) (req : http_request_t) (body : cstr) (s : sso_state mem_priv_t compiled_rule)
  : outcome (http_response_t * sso_state mem_priv_t compiled_rule) :=
  handle_client (cx_at t) (env_at t) (sso_routes (sso_impl (cx_at t) no_expiry config0 (env_at t)
    (builtin_strategies (cx_at t) (e_alloc (env_at t))) audit_cfg None (e_mono (env_at t) + 1) 4096 [] (replicate 4096 NUL)
    (webauthn_impl t (wipe_keys server_config)))) false req (set_req (Some body) None s).

(** An authenticator with a key: what it attests, and what it signs. *)
Definition device (n : Z) : attested :=
  {| at_rp_hash := replicate 32 1; at_flags := 65; at_counter := replicate 4 0; at_aaguid := replicate 16 0;
     at_credential := replicate 16 n; at_x := replicate 32 n; at_y := replicate 32 (n + 1) |}.
Definition members0 : list Z := [163; 99; 102; 109; 116; 100; 110; 111; 110; 101].
Definition device_key (n : Z) : cstr := ec_pem (at_x (device n)) (at_y (device n)).
Definition client_data (challenge : cstr) : list Z :=
  bytes_of (("challenge=" : cstr) ++ challenge ++ ("&origin=http://sso" : cstr)).
Definition pairs (l : list (string * cstr)) : cstr :=
  kv_text (map (λ kv, (list_ascii_of_string kv.1, JStr kv.2)) l).

Definition register_body (n : Z) (challenge : cstr) : cstr :=
  pairs [("challenge"%string, challenge); ("challenge_sig"%string, unkeyed_signature challenge);
         ("attestation_object"%string, b64u_encode (attestation_object members0 (device n)));
         ("client_data_json"%string, b64u_encode (client_data challenge))].
Definition login_body (n : Z) (challenge : cstr) : cstr :=
  pairs [("username"%string, text "alice"); ("challenge"%string, challenge);
         ("challenge_sig"%string, unkeyed_signature challenge); ("authenticator_data"%string, b64u_encode (replicate 37 9));
         ("client_data_json"%string, b64u_encode (client_data challenge));
         ("signature"%string, b64u_encode (toy_hash 8 (bytes_of (device_key n) ++ replicate 37 9 ++ sha256 (client_data challenge))))].

Definition webauthn_run : outcome (list Z) :=
  '(r1, s) ← call_with 0 (post "/api/v1/auth/login" []) "username=alice&password=Passw0rd!" server0;
  let access := header_value "X-SSO-Access-Token" r1 in
  let reg := post "/api/v1/auth/webauthn/register" access in
  let login := post "/api/v1/auth/webauthn/login" [] in
  '(r2, s) ← call_with 1 reg (register_body 10 "mine") s;
  '(r3, s) ← call_with 2 login (login_body 10 "once") s;
  '(r4, s) ← call_with 800 reg (register_body 20 "other") s;
  '(r5, s) ← call_with 801 login (login_body 20 "new") s;
  '(r6, s) ← call_with 10000000 login (login_body 10 "once") s;
  Ret (map rs_status_code [r1; r2; r3; r4; r5; r6]).

(** Assertions can be replayed and credentials not replaced
    (counterexample): alice registers an authenticator for a challenge no
    server has made, and logs in with it, for such a challenge too.  She
    registers another one, which is answered 200, but a login with it is
    refused: the attributes keep both and the first one counts.  And the
    very request of the first login is accepted again months later. *)
Theorem assertion_replayed : webauthn_run = Ret [200; 200; 200; 200; 401; 200].
Proof. vm_compute. reflexivity. Qed.

(* ------------------------------------------------------------------ *)
(** ** Witnesses *)

Lemma device_ok : attested_ok members0 (device 10).
Proof.
  assert (Hw : ∀ l, forallb (λ z, (0 <=? z) && (z <? 256)) l = true → words 8 l).
  { intros l Hl. apply Forall_forall. intros z Hz%list_elem_of_In. rewrite forallb_forall in Hl. apply Hl in Hz.
    change (2 ^ 8) with 256. reflect_bools. lia. }
  split; repeat split; try (by apply Hw); try (simpl; lia).
  - intros i Hi. simpl in Hi. do 10 (destruct i as [|i]; [vm_compute; discriminate|]). lia.
  - intros i Hi. do 32 (destruct i as [|i]; [vm_compute; discriminate|]). lia.
Qed.

Lemma client_words : words 8 (client_data "mine").
Proof.
  apply Forall_forall. intros z Hz%list_elem_of_In. apply in_map_iff in Hz as (c & <- & _). apply ord_range.
Qed.

Lemma registration_roundtrip_witness :
  webauthn_register_verify (λ _, true) (b64u_encode (attestation_object members0 (device 10))) (b64u_encode (client_data "mine"))
    "mine" "http://sso" = Ret (Ok (b64u_encode (replicate 16 10), device_key 10)).
Proof.
  apply (registration_roundtrip (λ _, true) members0 (device 10) (client_data "mine") "mine" "http://sso").
  - exact device_ok.
  - reflexivity.
  - exact client_words.
  - vm_compute. reflexivity.
Defined.

Lemma short_attestation_crashes_witness :
  webauthn_register_verify (λ _, true) "AAAA" (b64u_encode (client_data "mine")) "mine" "http://sso" = Crash.
Proof.
  apply (short_attestation_crashes (λ _, true) "AAAA" (b64u_encode (client_data "mine")) "mine" "http://sso").
  - reflexivity.
  - vm_compute. reflexivity.
  - left. apply Nat.ltb_lt. vm_compute. reflexivity.
Defined.

(** Alice with an authenticator, and her login. *)
Definition keyed_alice : user_t := with_attributes (with_credential [] "x" (device_key 10)) alice.
Definition keyed_server : sso_state mem_priv_t compiled_rule :=
  set_world {| w_store := StorageMemory.set_users {| items := [keyed_alice]; cap := 64 |} mem_open; w_engine := Some empty_caches |}
    (set_req (Some (login_body 10 "once")) None server0).
Definition wa_req : http_request_t := post "/api/v1/auth/webauthn/login" [].
Notation wa_run := (handle_webauthn_login (cx_at 0) (env_at 0) (wipe_keys server_config) wa_req (init_response wa_req) keyed_server).

Lemma wa_run_works : ∃ r s, wa_run = Ret (r, s) ∧ rs_status_code r = 200.
Proof. apply run_status. vm_compute. reflexivity. Qed.


Lemma challenges_unkeyed_witness :
  ∃ b cfg, sso_init (H := sample_crypto) boot_ok true (Some server_config) = Booted b ∧ bt_config b = Some cfg ∧
    sign_challenge (H := sample_crypto) cfg "abc" = unkeyed_signature (H := sample_crypto) "abc".
Proof.
  assert (Hb : sso_init (H := sample_crypto) boot_ok true (Some server_config) = Booted main_boot) by (vm_compute; reflexivity).
  destruct (challenges_unkeyed (H := sample_crypto) boot_ok true server_config main_boot "abc" Hb) as (cfg & Hc & Hs).
  exists main_boot, cfg. split; [exact Hb|]. split; [exact Hc|exact Hs].
Defined.
