(* ===== verification/RaftSafety.v ===== *)
(** * What replication guarantees

    A change that goes through the log is the change the caller asked for,
    cut to what the documents of the log carry; replicas that have applied
    equally many entries agree; messages survive their trip.  What is cut
    makes revocations and second factors disappear, and the endpoint of
    the leader takes commands from anyone. *)

From S2P Require Import Prelude CLib CNum Json Types Storage StorageMemory PermCache Context UserMgr RateLimit Token Printf PermEngine AuditLog Risk Http AuthHandlers Webauthn Samples AuthSafety Routes Raft.

(** What the in-memory backend does with NULL arguments, and with the
    operations it leaves NULL. *)
Section Memory.
Context (now : Z) (alloc : Z → bool).

Definition mem_other_call (c : command) : storage_op mem_priv_t unit := λ p,
  match c with
  | Save_sms_code phone code ex =>
      match phone, items (sms p) with
      | Some phone, _ => mem_save_sms_code alloc phone (default [] code) ex p
      | None, [] => mem_save_sms_code alloc [] (default [] code) ex p
      | None, _ => Crash
      end
  | Delete_sms_code None => match items (sms p) with [] => Ret (Ok (), p) | _ => Crash end
  | Refresh_token_create None | Refresh_token_revoke None | Jti_revoke None _ | Oauth_code_create None
  | Oauth_code_mark_used None => Ret (Err SSO_ERR_STORAGE, p)
  | Oauth_client_delete None => match items (oauth_clients p) with [] => Ret (Err SSO_ERR_NOT_FOUND, p) | _ => Crash end
  | _ => Crash
  end.

End Memory.

(* ------------------------------------------------------------------ *)
(** ** Commands *)

Section Commands.
Context {S : Type} `{JsonReader, JsonWriter} (inner : storage_backend S) (other_call : command → storage_op S unit).


End Commands.

(** Values that fit. *)
Definition int_range (z : Z) : Prop := - 2 ^ 31 ≤ z < 2 ^ 31.
Lemma s32_fits z : int_range z → s32 z = z.
Proof. unfold int_range, s32. intros Hz. rewrite Z.mod_small; lia. Qed.

Record entry_fits (e : raft_entry) : Prop := {
  ef_term : int_range (re_term e); ef_id : int_range (re_id e); ef_type : int_range (re_type e);
  ef_data : ∀ d, re_data e = Some d → NUL ∉ d
}.
Record message_fits (m : msg_appendentries) : Prop := {
  mf_term : int_range (ae_term m); mf_idx : int_range (ae_prev_log_idx m); mf_log_term : int_range (ae_prev_log_term m);
  mf_commit : int_range (ae_leader_commit m); mf_count : int_range (ae_n_entries m);
  mf_entries : match ae_entries m with
               | Some l => l ≠ [] ∧ Z.of_nat (length l) = ae_n_entries m ∧ Forall entry_fits l
               | None => ae_n_entries m = 0
               end
}.

Lemma entry_reread e : entry_fits e → entry_of_obj (reread (entry_json e)) = e.
Proof.
  intros [Ht Hi Hy Hd]. destruct e as [term id type data]. cbn in Ht, Hi, Hy, Hd.
  unfold entry_json, entry_of_obj. cbn [re_term re_id re_type re_data].
  destruct data as [d|]; cbn [reread map fst snd yyjson_obj_get opt_member app]; fold reread; find_key;
    cbn [as_str kv_get]; rewrite !get_int_reread, !s32_fits by done; [|done].
  rewrite !c_str_id; [done|by apply Hd|]. apply c_str_no_nul.
Qed.

Lemma entries_reread l : Forall entry_fits l → map entry_of_obj (map reread (map entry_json l)) = l.
Proof. induction 1 as [|e l He _ IH]; [done|]. cbn [map]. by rewrite entry_reread, IH. Qed.

(** Messages survive their trip (round trip): what a leader sends a
    follower, whose numbers fit an int, is read back as it was; terms and
    indices beyond an int would not be. *)
Theorem appendentries_roundtrip alloc sender_id m :
  message_fits m → int_range sender_id → (∀ n, alloc n = true) →
  appendentries_of_obj alloc (reread (appendentries_json sender_id m)) = Ret m ∧
  yyjson_get_int (yyjson_obj_get (Some (reread (appendentries_json sender_id m))) "sender_id") = sender_id.
Proof.
  intros [Ht Hi Hl Hc Hn He] Hs Ha. destruct m as [term idx lterm commit n entries]. cbn in Ht, Hi, Hl, Hc, Hn, He.
  unfold appendentries_json, appendentries_of_obj. cbn [ae_term ae_prev_log_idx ae_prev_log_term ae_leader_commit ae_n_entries ae_entries].
  cbn [reread map fst snd yyjson_obj_get]. fold reread. find_key. rewrite !get_int_reread, !s32_fits by done. split; [|done].
  unfold entries_of_arr. cbn [as_arr]. destruct entries as [l|]; cbn [default].
  - destruct He as (Hne & Hlen & Hf). assert (0 < n) by (destruct l; [done|simpl in Hlen; lia]).
    rewrite (proj2 (Z.ltb_lt 0 n)), Ha by done. cbn [mbind outcome_bind].
    assert (Z.to_nat n = length l) as -> by lia. rewrite !firstn_all, entries_reread, firstn_all by done.
    by rewrite Nat.sub_diag, app_nil_r.
  - subst n. done.
Qed.

(* ------------------------------------------------------------------ *)
(** ** Replicas

    Committed entries form one log (the promise of the library); every
    node applies them in order, each at its own pace and clock. *)

Section Replicas.
Context {S : Type} `{JsonReader} (inner : Z → storage_backend S) (other_call : Z → command → storage_op S unit).
Notation apply_entry now := (raft_applylog_cb (inner now) (other_call now)).

Record replica := { rp_store : S; rp_applied : nat }.
Record cluster := { cl_log : list (option cstr); cl_replicas : list replica }.

Inductive cluster_step : cluster → cluster → Prop :=
| step_commit entry c : cluster_step c {| cl_log := cl_log c ++ [entry]; cl_replicas := cl_replicas c |}
| step_apply i now entry r s c :
    cl_replicas c !! i = Some r → cl_log c !! rp_applied r = Some entry → apply_entry now entry (rp_store r) = Ret s →
    cluster_step c {| cl_log := cl_log c;
                      cl_replicas := <[i := {| rp_store := s; rp_applied := Datatypes.S (rp_applied r) |}]> (cl_replicas c) |}.

Definition cluster_start (n : nat) (s : S) : cluster :=
  {| cl_log := []; cl_replicas := replicate n {| rp_store := s; rp_applied := 0 |} |}.

(** The store after the entries of a log, all applied at one clock. *)
Definition replay (now : Z) (log : list (option cstr)) (s : S) : outcome S :=
  foldl (λ o entry, o ≫= apply_entry now entry) (Ret s) log.

(** An entry whose effect does not depend on the clock. *)
Definition timeless (entry : option cstr) : Prop := ∀ t t' s, apply_entry t entry s = apply_entry t' entry s.

Definition replayed (s0 : S) (c : cluster) : Prop :=
  Forall timeless (cl_log c) →
  ∀ i r now, cl_replicas c !! i = Some r →
    (rp_applied r ≤ length (cl_log c))%nat ∧ replay now (take (rp_applied r) (cl_log c)) s0 = Ret (rp_store r).

Lemma replay_snoc now log entry s : replay now (log ++ [entry]) s = replay now log s ≫= apply_entry now entry.
Proof. unfold replay. by rewrite foldl_app. Qed.

Lemma replayed_step s0 c c' : replayed s0 c → cluster_step c c' → replayed s0 c'.
Proof.
  intros Hc Hs. destruct Hs as [entry c|i t entry r s c Hi Hl Ha]; intros Hf j q now Hj; cbn [cl_log cl_replicas] in *.
  - apply Forall_app in Hf as [Hf _]. destruct (Hc Hf j q now Hj) as [Hle Hr]. rewrite length_app.
    split; [lia|]. by rewrite take_app_le.
  - apply list_lookup_insert_Some in Hj as [(-> & <- & Hlt)|[Hne Hj]]; [|by eapply Hc].
    destruct (Hc Hf j r now Hi) as [Hle Hr]. cbn [rp_store rp_applied]. apply lookup_lt_Some in Hl as Hlt'. split; [lia|].
    rewrite (take_S_r _ _ entry) by done. rewrite replay_snoc, Hr. cbn [mbind outcome_bind]. rewrite <- Ha.
    eapply Forall_lookup_1 in Hf; [apply Hf|done].
Qed.


End Replicas.

(* ------------------------------------------------------------------ *)
(** ** What is lost, on the in-memory backend *)

Section Losses.
Context (now : Z) (alloc : Z → bool) (fuel : nat).
Notation run := (run_inner (storage_memory_create now alloc fuel) (mem_other_call alloc)).

Lemma s32_below z : s32 z < 2 ^ 31.
Proof. unfold s32. pose proof (Z.mod_pos_bound (z + 2 ^ 31) (2 ^ 32)). lia. Qed.

Lemma alter_void jti ex later l l' :
  alter_first (λ e, strcmp_eq (rj_jti e) jti) (λ e, {| rj_jti := rj_jti e; rj_expires_at := ex |}) l = Some l' →
  NoDup (map rj_jti l) → ex ≤ later → existsb (λ e, strcmp_eq (rj_jti e) jti && (later <? rj_expires_at e)) l' = false.
Proof.
  intros Hl Hnd Hex. revert l' Hl. induction l as [|e l IH]; intros l' Hl; [done|]. simpl in Hl.
  apply NoDup_cons in Hnd as [Hin Hnd]. destruct (strcmp_eq (rj_jti e) jti) eqn:E.
  - injection Hl as <-. cbn [existsb rj_jti rj_expires_at]. rewrite (proj2 (Z.ltb_ge _ _)), andb_false_r by lia.
    cbn [orb]. apply bool_decide_eq_true in E. apply not_true_is_false. intros (e' & He' & Ht)%existsb_exists.
    apply andb_true_iff in Ht as [Ht _]. apply bool_decide_eq_true in Ht. apply Hin. rewrite E, <- Ht.
    by apply list_elem_of_In, in_map.
  - destruct (alter_first _ _ l) as [k|]; [|done]. injection Hl as <-. cbn [existsb]. rewrite E. cbn [andb orb]. by apply IH.
Qed.

Lemma find_void jti later l :
  List.find (λ e, strcmp_eq (rj_jti e) jti) l = None →
  existsb (λ e, strcmp_eq (rj_jti e) jti && (later <? rj_expires_at e)) l = false.
Proof.
  intros Hn. apply not_true_is_false. intros (e & He & Ht)%existsb_exists. apply andb_true_iff in Ht as [Ht _].
  by rewrite (List.find_none _ _ Hn e He) in Ht.
Qed.

(** Revocations are void (counterexample to "a revoked token is
    refused by every node"): the expiry of a revoked id is cut to 32 bits
    on its way through the log, which lies before the present in
    milliseconds, so after the entry is applied the backend reports the
    id as not revoked, even when it was revoked before. *)
Theorem raft_revocation_void jti ex p p' r later :
  run (narrow (Jti_revoke (Some jti) ex)) p = Ret (r, p') → NoDup (map rj_jti (items (revoked_jtis p))) → 2 ^ 31 ≤ later →
  mem_jti_is_revoked later (c_str jti) p' = Ret (false, p').
Proof.
  cbn [narrow fmap option_fmap option_map run_inner]. unfold inner_call. cbn [sb_jti_revoke storage_memory_create].
  intros Hr Hnd Hl. pose proof (s32_below ex) as Hex. unfold mem_jti_revoke in Hr. unfold mem_jti_is_revoked. do 2 f_equal.
  destruct (alter_first _ _ _) as [l|] eqn:El.
  - injection Hr as <- <-. eapply alter_void; [exact El|done|lia].
  - destruct (grow_add _ _ _ _ _) as [r' d] eqn:Ed. injection Hr as <- <-. apply alter_first_None in El.
    apply grow_add_items in Ed as [[_ Ei]|[_ ->]]; cbn [revoked_jtis set_revoked_jtis]; [|by apply find_void].
    rewrite Ei, existsb_app, find_void by done. cbn [existsb rj_jti rj_expires_at].
    by rewrite (proj2 (Z.ltb_ge _ _)), andb_false_r by lia.
Qed.

Lemma find_index_insert {A} (f : A → bool) l k x : find_index f l = Some k → f x = true → find_index f (<[k := x]> l) = Some k.
Proof.
  revert k. induction l as [|y l IH]; intros k; [done|]. simpl. destruct (f y) eqn:E.
  - intros [= <-] Hx. simpl. by rewrite Hx.
  - destruct (find_index f l) as [j|] eqn:Ej; [|done]. intros [= <-] Hx. simpl. by rewrite E, (IH j).
Qed.

(** What the log does not carry (counterexample to "a change takes
    effect on every node"): once applied, an update of a user has
    switched the second factor off and emptied the attributes; new refresh
    tokens and authorization codes are in no store; and registering or
    changing a client, or an audit entry, crashes every node. *)
Theorem raft_losses p :
  (∀ u p', run (narrow (User_update (Some u))) p = Ret (Ok (), p') →
     ∃ u', mem_user_get_by_id (narrow_id (u_id u)) p' = Ret (Ok u', p') ∧
           u_mfa_enabled u' = 0 ∧ u_mfa_secret u' = [] ∧ u_attributes u' = []) ∧
  (∀ rt, run (narrow (Refresh_token_create (Some rt))) p = Ret (Err SSO_ERR_STORAGE, p)) ∧
  (∀ code, run (narrow (Oauth_code_create (Some code))) p = Ret (Err SSO_ERR_STORAGE, p)) ∧
  (∀ client, run (narrow (Oauth_client_create (Some client))) p = Crash ∧
             run (narrow (Oauth_client_update (Some client))) p = Crash) ∧
  (∀ entry, run (narrow (Audit_log_write (Some entry))) p = Crash).
Proof.
  split_and!; try done. intros u p' Hr. exists (narrow_user u). split; [|done].
  cbn [narrow fmap option_fmap option_map run_inner] in Hr. unfold inner_call in Hr.
  cbn [sb_user_update storage_memory_create] in Hr. unfold mem_user_update, MK_UPD in Hr.
  destruct (da_find_id _ _ _) as [k|] eqn:Ek; [|done]. injection Hr as <-. unfold mem_user_get_by_id, MK_GETID.
  change (users (StorageMemory.set_users ?d p)) with d.
  assert (E : da_find_id u_id (da_set k (narrow_user u) (users p)) (narrow_id (u_id u)) = Some k)
    by (apply find_index_insert; [exact Ek|apply Z.eqb_refl]).
  rewrite E. cbn [da_set items]. rewrite list_lookup_insert_eq; [done|]. by eapply find_index_lt.
Qed.

End Losses.

(* ================================================================== *)
(** ** Runs

    A cluster of one node, which is its own leader: entries are committed
    at once and applied by the next tick. *)

Import Toy.

#[local] Instance solo : RaftLib (list (option cstr)) :=
  {| raft_recv_entry := λ offer e r, d ← offer (re_data e); Ret (0, r ++ [d]);
     raft_periodic := λ S apply _ s r, s ← foldl (λ o e, o ≫= apply e) (Ret s) r; Ret (s, []);
     raft_recv_requestvote := λ _ m r, Ret (0, {| rvr_term := rv_term m; rvr_vote_granted := 0 |}, r);
     raft_recv_requestvote_response := λ _ _ r, Ret r;
     raft_recv_appendentries := λ _ _ m r, Ret (0, {| aer_term := ae_term m; aer_success := 0; aer_current_idx := 0; aer_first_idx := 0 |}, r);
     raft_recv_appendentries_response := λ _ _ r, Ret r;
     raft_my_id := λ _, 1; raft_leader_udata := λ _, Some (Some ("http://node1:8080" : cstr)); raft_is_leader := λ _, true;
     raft_get_state := λ _, 3; raft_get_current_term := λ _, 1; raft_get_current_idx := λ r, Z.of_nat (length r);
     raft_get_num_nodes := λ _, 1 |}.

(** The change an intruder makes to bob: a password of his choice. *)
Definition forged : command :=
  User_update (Some {| u_id := 8; u_username := "bob"; u_phone := []; u_password_hash := "$Chosen1!"; u_email := "b@x";
                       u_display_name := "Bob"; u_status := USER_STATUS_ACTIVE; u_created_at := 0; u_updated_at := 0;
                       u_attributes := []; u_mfa_enabled := 1; u_mfa_secret := bob_secret; u_password_set_at := 0 |}).
#[local] Instance forged_reader : JsonReader := table_reader [(compact (serialize forged), reread (serialize forged))].

Notation node_state := (sso_state (mem_priv_t * list (option cstr)) compiled_rule).
Notation node_store t := (storage_memory_create (e_now (env_at t)) (e_alloc (env_at t)) 64).
Definition node_cx (t : Z) : sso_context (mem_priv_t * list (option cstr)) :=
  {| cx_backend := Some (raft_proxy_init_vtable (e_alloc (env_at t)) (node_store t) 17);
     cx_user_mgr := true; cx_role_mgr := true; cx_group_mgr := true; cx_policy_mgr := true |}.

Definition raft_impl (t : Z) (name : string) (req : http_request_t) (resp : http_response_t)
  : handler (mem_priv_t * list (option cstr)) compiled_rule (sso_error_t * http_response_t) :=
  if String.eqb name "handle_raft_execute" then handle_raft_execute (env_at t) true 17 req resp
  else if String.eqb name "handle_raft_status" then handle_raft_status (env_at t) true req resp
  else mret (SSO_ERR_NOT_IMPLEMENTED, resp).

Definition call_node (t : Z) (req : http_request_t) (body : cstr) (s : node_state) : outcome (http_response_t * node_state) :=
  handle_client (node_cx t) (env_at t) (sso_routes (sso_impl (node_cx t) no_expiry config0 (env_at t)
    (builtin_strategies (node_cx t) (e_alloc (env_at t))) audit_cfg None (e_mono (env_at t) + 1) 4096 [] (replicate 4096 NUL)
    (raft_impl t))) false req (set_req (Some body) None s).

Definition tick (t : Z) (s : node_state) : outcome node_state :=
  st ← raft_ticker_step (node_store t) (mem_other_call (e_alloc (env_at t))) (w_store (ss_world s));
  Ret (set_world {| w_store := st; w_engine := w_engine (ss_world s) |} s).

Definition node0 : node_state :=
  {| ss_body := None; ss_doc := None; ss_world := {| w_store := (store0, []); w_engine := Some empty_caches |};
     ss_tokens := manager0; ss_limiter := Some (replicate 64 free_entry); ss_risk := risk_init; ss_metrics := no_metrics;
     ss_audit := audit_boot |}.

Definition forged_run : outcome (list Z * bool) :=
  '(r1, s) ← call_node 0 (post "/api/v1/auth/login" []) "username=bob&password=Chosen1!" node0;
  '(r2, s) ← call_node 1 (post "/api/v1/raft/execute" []) (compact (serialize forged)) s;
  s ← tick 1 s;
  '(r3, s) ← call_node 2 (post "/api/v1/auth/login" []) "username=bob&password=Chosen1!" s;
  '(r4, s) ← call_node 3 (get "/api/v1/auth/me" (header_value "X-SSO-Access-Token" r3)) [] s;
  Ret (map rs_status_code [r1; r2; r3; r4], bool_decide (header_value "X-SSO-Access-Token" r3 = [])).

(** Commands from anyone (counterexample to authentication of the
    cluster's endpoints): a request without any token has the leader
    commit a change of bob's password; after the next tick the new
    password opens a session at once, although bob had a second factor,
    which the entry has switched off. *)
Theorem raft_execute_unauthenticated : forged_run = Ret ([401; 200; 200; 200], false).
Proof. vm_compute. reflexivity. Qed.

(* ------------------------------------------------------------------ *)
(** ** Witnesses *)

Definition forged_text : cstr := compact (serialize forged).

Lemma forged_read : yyjson_read forged_text = Some (reread (serialize forged)).
Proof. vm_compute. reflexivity. Qed.


Definition sample_message : msg_appendentries :=
  {| ae_term := 3; ae_prev_log_idx := 41; ae_prev_log_term := 2; ae_leader_commit := 40; ae_n_entries := 2;
     ae_entries := Some [{| re_term := 3; re_id := 9; re_type := 0; re_data := Some ("{}" : cstr) |};
                         {| re_term := 3; re_id := -4; re_type := 0; re_data := None |}] |}.

Lemma appendentries_roundtrip_witness :
  appendentries_of_obj (λ _, true) (reread (appendentries_json 1 sample_message)) = Ret sample_message.
Proof.
  refine (proj1 (appendentries_roundtrip (λ _, true) 1 sample_message _ _ _)).
  - assert (Hd : NUL ∉ ("{}" : cstr)) by (apply (bool_decide_unpack _); vm_compute; exact I).
    split; unfold int_range; cbn; try lia. split; [discriminate|]. split; [reflexivity|]. repeat constructor; cbn; try lia; try discriminate.
    intros d [= <-]. exact Hd.
  - unfold int_range. lia.
  - reflexivity.
Defined.

Notation node_inner := (λ now, storage_memory_create now (λ _, true) 64).
Notation node_other := (λ _ : Z, mem_other_call (λ _, true)).

Lemma forged_applied now s :
  raft_applylog_cb (node_inner now) (node_other now) (Some forged_text) s =
  '(_, s) ← inner_call (Some mem_user_update) (λ f, f (default bob match narrow forged with User_update u => u | _ => None end)) s; Ret s.
Proof.
  unfold raft_applylog_cb. destruct forged_text as [|c text] eqn:E; [vm_compute in E; discriminate|]. rewrite <- E. clear E c text.
  unfold raft_apply_dispatch. by rewrite forged_read, command_reread.
Qed.

Lemma forged_timeless : timeless node_inner node_other (Some forged_text).
Proof. intros t t' s. by rewrite !forged_applied. Qed.

Definition store1 : mem_priv_t :=
  StorageMemory.set_users {| items := [alice; default bob match narrow forged with User_update u => u | _ => None end]; cap := 64 |} mem_open.


Lemma raft_revocation_void_witness :
  ∃ p, run_inner (node_store 0) (mem_other_call (λ _, true)) (narrow (Jti_revoke (Some ("id" : cstr)) 1800000000000)) mem_open =
         Ret (Ok (), p) ∧
       mem_jti_is_revoked 1700000000000 "id" p = Ret (false, p).
Proof.
  eexists. split; [reflexivity|].
  refine (raft_revocation_void (e_now (env_at 0)) (e_alloc (env_at 0)) 64 "id" 1800000000000 mem_open _ (Ok ()) 1700000000000 _ _ _).
  - reflexivity.
  - constructor.
  - lia.
Defined.
