(* ===== verification/Server.v ===== *)
(** * Connections (src/server.c: send_response, handle_client)

    One connection from its bytes to the bytes sent back: the request is
    parsed, the tenant's context is entered, the request is dispatched
    and the response is written.  The contexts of a process share the
    risk tables and the audit log. *)

From S2P Require Import Prelude CLib CNum Json Types Storage StorageMemory PermCache Context UserMgr RoleMgr RateLimit Mfa Bits Base64 TokenState Token TokenScan TokenJwt Printf PermEngine AuditLog Dpop Risk Http AuthHandlers Oauth AdminHandlers CheckHandlers Config Boot Tenant HttpParse Bootstrap Samples AuthSafety Routes.

(* ------------------------------------------------------------------ *)
(** ** Responses on the wire *)

Definition status_text (code : Z) : cstr :=
  if code =? 200 then "OK"
  else if code =? 201 then "Created"
  else if code =? 302 then "Found"
  else if code =? 400 then "Bad Request"
  else if code =? 401 then "Unauthorized"
  else if code =? 403 then "Forbidden"
  else if code =? 404 then "Not Found"
  else if code =? 500 then "Internal Server Error"
  else "Unknown".

Definition body_len (r : http_response_t) : Z := match rs_body r with Some b => Z.of_nat (length b) | None => 0 end.

(** The lines of the header before the three texts that end with their
    own line breaks. *)
Definition fixed_lines (r : http_response_t) (request_id : cstr) : list cstr :=
  [ ("HTTP/1.1 " : cstr) ++ print_d (rs_status_code r) ++ " "%char :: status_text (rs_status_code r);
    ("Content-Type: " : cstr) ++ rs_content_type r;
    ("Content-Length: " : cstr) ++ print_llu (body_len r);
    ("Connection: close" : cstr);
    ("Access-Control-Allow-Origin: " : cstr) ++ match rs_cors_origin r with [] => ("*" : cstr) | o => o end;
    ("Access-Control-Allow-Credentials: true" : cstr);
    ("Access-Control-Allow-Headers: Content-Type, Authorization" : cstr);
    ("Access-Control-Expose-Headers: X-SSO-User, X-SSO-Access-Token, X-SSO-Refresh-Token" : cstr);
    ("X-Content-Type-Options: nosniff" : cstr);
    ("X-Frame-Options: SAMEORIGIN" : cstr);
    ("X-Request-Id: " : cstr) ++ request_id;
    ("Permissions-Policy: geolocation=(), microphone=(), camera=()" : cstr);
    ("Content-Security-Policy: default-src 'self'; style-src 'self' 'unsafe-inline'; script-src 'self' 'unsafe-inline';" : cstr);
    ("Cache-Control: no-cache, no-store, must-revalidate" : cstr);
    ("Pragma: no-cache" : cstr) ].

Definition hsts_lines (ssl : bool) : list cstr :=
  if ssl then [("Strict-Transport-Security: max-age=31536000; includeSubDomains" : cstr)] else [].
Definition vary_lines (r : http_response_t) : list cstr :=
  match rs_cors_origin r with [] => [] | _ => [("Vary: Origin" : cstr)] end.

Definition response_header (ssl : bool) (r : http_response_t) (request_id : cstr) : cstr :=
  crlf_lines (fixed_lines r request_id ++ hsts_lines ssl ++ vary_lines r) ++ rs_extra_headers r ++ CRLF.

(** [conn_write_all]: the answers of successive writes; what reaches the
    peer, and the answers left. *)
Fixpoint conn_write_all (writes : list Z) (buf : list ascii) : list ascii * list Z :=
  match buf with
  | [] => ([], writes)
  | _ =>
      match writes with
      | [] => ([], [])
      | w :: writes =>
          if w <=? 0 then ([], writes)
          else
            let n := Z.to_nat (Z.min w (Z.of_nat (length buf))) in
            let '(sent, writes) := conn_write_all writes (drop n buf) in
            (take n buf ++ sent, writes)
      end
  end.

Definition HEADER_SIZE : Z := 16384.

(** [snprintf] into 16384 bytes, of which as many are written as the full
    text would have: one more is the terminator, the rest lies beyond the
    buffer. *)
Definition header_bytes (text : cstr) : outcome (list ascii) :=
  let n := Z.of_nat (length text) in
  if n <? HEADER_SIZE then Ret text
  else if n =? HEADER_SIZE then Ret (take (Z.to_nat (HEADER_SIZE - 1)) text ++ [NUL])
  else Crash.

(** What a connection offers on the way out: malloc of the header, and
    the answers of the writes. *)
Record write_env := { we_malloc : bool; we_writes : list Z }.

Definition send_response (ssl : bool) (w : write_env) (r : http_response_t) (request_id : cstr) : outcome (list ascii) :=
  if negb (we_malloc w) then Ret []
  else
    header ← header_bytes (response_header ssl r request_id);
    let '(sent, writes) := conn_write_all (we_writes w) header in
    Ret (sent ++ match rs_body r with Some (c :: b) => (conn_write_all writes (c :: b)).1 | _ => [] end).

(** [snprintf(req.request_id, 64, "req-%lx-%08llx", time(NULL), n)] *)
Definition request_id_of (now n : Z) : cstr :=
  snprintf 64 (("req-" : cstr) ++ print_hex (u64 (time_s now)) ++ "-"%char :: zero_pad 8 (print_hex n)).

(* ------------------------------------------------------------------ *)
(** ** A connection *)

Section Connection.
Context {S C : Type} `{Crypto, InsituReader, JsonReader, Sha256, RsaKeys}.

(** What a context keeps, and what all contexts of the process share. *)
Record context := {
  k_storage : option cstr; k_world : world S C; k_tokens : token_manager; k_limiter : option (list rl_entry_t);
  k_metrics : engine_metrics_t
}.
Record server := {
  sv_main : context; sv_tenants : list context; sv_registry : list (cstr * booted); sv_risk : risk_state;
  sv_audit : audit_state; sv_requests : Z
}.

(** The storage a URL opens, and the handlers over it. *)
Context (open_store : option cstr → S) (cx_for : option cstr → request_env → sso_context S)
        (routes_for : option cstr → request_env → list (route_t S C)).

Definition new_context (b : booted) : context :=
  {| k_storage := bt_storage b; k_world := {| w_store := open_store (bt_storage b); w_engine := Some empty_caches |};
     k_tokens := bt_tokens b; k_limiter := Some (bt_limiter b); k_metrics := no_metrics |}.

Definition context_at (sv : server) (c : context_ref) : context :=
  match c with Main => sv_main sv | Tenant i => nth i (sv_tenants sv) (sv_main sv) end.

(** Entering a context with the body of a request, and leaving it. *)
Definition enter (sv : server) (k : context) (body : option (list ascii)) : sso_state S C :=
  {| ss_body := body; ss_doc := None; ss_world := k_world k; ss_tokens := k_tokens k; ss_limiter := k_limiter k;
     ss_risk := sv_risk sv; ss_metrics := k_metrics k; ss_audit := sv_audit sv |}.
Definition leave (sv : server) (c : context_ref) (s : sso_state S C) : server :=
  let k := {| k_storage := k_storage (context_at sv c); k_world := ss_world s; k_tokens := ss_tokens s;
              k_limiter := ss_limiter s; k_metrics := ss_metrics s |} in
  {| sv_main := match c with Main => k | Tenant _ => sv_main sv end;
     sv_tenants := match c with Main => sv_tenants sv | Tenant i => <[i := k]> (sv_tenants sv) end;
     sv_registry := sv_registry sv; sv_risk := ss_risk s; sv_audit := ss_audit s; sv_requests := sv_requests sv |}.

(** [get_tenant_context] on the server: a new entry gets a new context. *)
Definition enter_tenant (tenv : tenant_env) (cfg : sso_config_t) (host : cstr) (sv : server) : outcome (context_ref * server) :=
  '(c, reg) ← get_tenant_context tenv cfg host (sv_registry sv);
  Ret (c, {| sv_main := sv_main sv;
             sv_tenants := sv_tenants sv ++ map (new_context ∘ snd) (drop (length (sv_registry sv)) reg);
             sv_registry := reg; sv_risk := sv_risk sv; sv_audit := sv_audit sv; sv_requests := sv_requests sv |}).

Definition count_request (sv : server) : server :=
  {| sv_main := sv_main sv; sv_tenants := sv_tenants sv; sv_registry := sv_registry sv; sv_risk := sv_risk sv;
     sv_audit := sv_audit sv; sv_requests := u64 (sv_requests sv + 1) |}.

Definition with_client_ip (ip : cstr) (r : http_request_t) : http_request_t :=
  {| rq_method := rq_method r; rq_path := rq_path r; rq_client_ip := sso_strlcpy (Some ip) 64;
     rq_query_params := rq_query_params r; rq_auth_token := rq_auth_token r; rq_origin := rq_origin r;
     rq_dpop_proof := rq_dpop_proof r; rq_host := rq_host r; rq_method_str := rq_method_str r;
     rq_user_agent := rq_user_agent r; rq_userdata := rq_userdata r |}.

(** [handle_client] with the parser and the writer.  A body buffer that
    was never written is taken to be empty. *)
Definition handle_connection (ssl disable_auth : bool) (cfg : sso_config_t) (env : request_env) (tenv : tenant_env)
    (wenv : write_env) (c : conn) (client_ip : cstr) (sv : server) : outcome (list ascii * server) :=
  '(r, _) ← parse_request (e_arena env) (max_body_size (c_server cfg)) (br_init c);
  match r with
  | None => Ret ([], sv)
  | Some p =>
      let req := with_client_ip client_ip (p_req p) in
      let request_id := request_id_of (e_now env) (sv_requests sv) in
      let sv := count_request sv in
      '(k, sv) ← enter_tenant tenv cfg (rq_host req) sv;
      let ctx := context_at sv k in
      '(resp, s) ← handle_client (cx_for (k_storage ctx) env) env (routes_for (k_storage ctx) env) disable_auth req
                     (enter sv ctx (default [] <$> p_body p));
      sent ← send_response ssl wenv resp request_id;
      Ret (sent, leave sv k s)
  end.

End Connection.

(* ================================================================== *)
(** ** What the peer reads *)

(** A client: lines up to an empty one, then the body. *)
Fixpoint client_lines (fuel : nat) (s : list ascii) : list cstr * list ascii :=
  match fuel with
  | O => ([], s)
  | S fuel =>
      let '(l, s) := line_of (S (length s)) s in
      match l with [] => ([], s) | _ => let '(ls, b) := client_lines fuel s in (l :: ls, b) end
  end.
Definition client_read (s : list ascii) : list cstr * list ascii := client_lines (S (length s)) s.

Definition line_ok (l : cstr) : Prop := clean l ∧ l ≠ [].

Lemma client_lines_crlf fuel ls b :
  Forall line_ok ls → (length ls < fuel)%nat → client_lines fuel (crlf_lines ls ++ CRLF ++ b) = (ls, b).
Proof.
  intros Hl. revert fuel. induction Hl as [|l ls [Hc Hne] Hl IH]; intros [|fuel] Hf; simpl in Hf; try lia.
  - cbn [client_lines crlf_lines map concat app]. change (CRLF ++ b) with ([] ++ CR :: LF :: b).
    rewrite line_of_crlf; [done|constructor|simpl; lia].
  - cbn [client_lines]. change (crlf_lines (l :: ls)) with ((l ++ [CR; LF]) ++ crlf_lines ls).
    rewrite <- !(assoc (++)). change ([CR; LF] ++ ?x) with (CR :: LF :: x).
    rewrite line_of_crlf; [|by apply clean_no_crlf|rewrite length_app; lia].
    destruct l as [|c l]; [done|]. rewrite IH by lia. done.
Qed.

Lemma client_read_crlf ls b : Forall line_ok ls → client_read (crlf_lines ls ++ CRLF ++ b) = (ls, b).
Proof.
  intros Hl. apply client_lines_crlf; [done|]. pose proof (crlf_lines_length ls). rewrite length_app. lia.
Qed.

(** A peer that goes on reading. *)
Definition keeps_reading (w : write_env) (n : Z) : Prop :=
  we_malloc w = true ∧ Forall (λ z, 0 < z) (we_writes w) ∧ n ≤ Z.of_nat (length (we_writes w)).

Lemma conn_write_all_ok ws buf :
  Forall (λ z, 0 < z) ws → (length buf ≤ length ws)%nat →
  ∃ k, conn_write_all ws buf = (buf, drop k ws) ∧ (k ≤ length buf)%nat.
Proof.
  revert buf. induction ws as [|w ws IH]; intros buf Hp Hl.
  { destruct buf; [|simpl in Hl; lia]. by exists O. }
  destruct buf as [|c buf]; [by exists O; split; [|simpl; lia]|]. apply Forall_cons in Hp as [Hw Hp].
  cbn [conn_write_all]. rewrite (proj2 (Z.leb_gt _ _)) by lia. set (n := Z.to_nat _).
  assert (Hn : (1 ≤ n ≤ length (c :: buf))%nat) by (unfold n; cbn [length]; lia).
  destruct (IH (drop n (c :: buf)) Hp) as (k & E & Hk).
  { rewrite length_drop. simpl in *. lia. }
  rewrite E, take_drop. exists (S k). split; [done|]. rewrite length_drop in Hk. lia.
Qed.

Lemma send_response_ok ssl w r id :
  Z.of_nat (length (response_header ssl r id)) < HEADER_SIZE →
  keeps_reading w (Z.of_nat (length (response_header ssl r id) + length (default [] (rs_body r)))) →
  send_response ssl w r id = Ret (response_header ssl r id ++ default [] (rs_body r)).
Proof.
  intros Hh (Hm & Hp & Hl). unfold send_response, header_bytes. rewrite Hm, (proj2 (Z.ltb_lt _ _) Hh).
  cbn [negb mbind outcome_bind]. destruct (conn_write_all_ok (we_writes w) (response_header ssl r id) Hp) as (k & -> & Hk); [lia|].
  do 2 f_equal. destruct (rs_body r) as [[|c b]|]; [done| |done]. simpl default in *.
  destruct (conn_write_all_ok (drop k (we_writes w)) (c :: b)) as (k' & -> & _); [by apply Forall_drop|rewrite length_drop; lia|done].
Qed.

(** The texts of a response hold no line breaks of their own, and its
    extra headers are lines. *)
Record response_ok (r : http_response_t) (extra : list cstr) : Prop := {
  so_type : clean (rs_content_type r) ∧ (length (rs_content_type r) < 64)%nat;
  so_origin : clean (rs_cors_origin r) ∧ (length (rs_cors_origin r) < 256)%nat;
  so_status : 0 ≤ rs_status_code r < 1000;
  so_extra : rs_extra_headers r = crlf_lines extra ∧ Forall line_ok extra ∧ Z.of_nat (length (rs_extra_headers r)) ≤ 14000
}.

Lemma const_line (s : cstr) : forallb (λ c, negb (char_in [NUL; CR; LF] c)) s = true → s ≠ [] → line_ok s.
Proof. split; [by apply clean_text|done]. Qed.
Lemma prefixed_line (p s : cstr) : forallb (λ c, negb (char_in [NUL; CR; LF] c)) p = true → p ≠ [] → clean s → line_ok (p ++ s).
Proof. intros Hp Hne Hs. split; [apply clean_app; split; [by apply clean_text|done]|by destruct p]. Qed.

Lemma status_clean z : clean (status_text z).
Proof. unfold status_text. repeat case_match; by apply clean_text. Qed.
Lemma print_llu_clean z : clean (print_llu z).
Proof. apply print_dec_clean, u64_range. Qed.
Lemma print_d_clean z : 0 ≤ z → clean (print_d z).
Proof. intros Hz. unfold print_d, print_lld. rewrite (proj2 (Z.ltb_ge _ _)) by done. by apply print_dec_clean. Qed.

Lemma header_lines_ok ssl r extra id :
  response_ok r extra → clean id → Forall line_ok (fixed_lines r id ++ hsts_lines ssl ++ vary_lines r ++ extra).
Proof.
  intros [[T1 _] [O1 _] S1 (_ & E1 & _)] Hid. rewrite !Forall_app. split_and!; [| | |done].
  - unfold fixed_lines. repeat apply Forall_cons_2; [..|apply Forall_nil_2]; try (by apply const_line).
    + apply prefixed_line; [done|done|]. apply clean_app. split; [apply print_d_clean; lia|].
      apply Forall_cons. split; [by split_and!|apply status_clean].
    + by apply prefixed_line.
    + apply prefixed_line; [done|done|apply print_llu_clean].
    + apply prefixed_line; [done|done|]. destruct (rs_cors_origin r); [by apply clean_text|done].
    + by apply prefixed_line.
  - destruct ssl; [|done]. apply Forall_singleton. by apply const_line.
  - unfold vary_lines. destruct (rs_cors_origin r); [done|]. apply Forall_singleton. by apply const_line.
Qed.

Lemma crlf_lines_app a b : crlf_lines (a ++ b) = crlf_lines a ++ crlf_lines b.
Proof. unfold crlf_lines. by rewrite map_app, concat_app. Qed.

Lemma response_header_lines ssl r extra id :
  response_ok r extra → response_header ssl r id = crlf_lines (fixed_lines r id ++ hsts_lines ssl ++ vary_lines r ++ extra) ++ CRLF.
Proof.
  intros [_ _ _ (E & _)]. unfold response_header. by rewrite E, !crlf_lines_app, <- !app_assoc.
Qed.

Lemma print_llu_short z : 0 ≤ z < 2 ^ 63 → (length (print_llu z) ≤ 20)%nat.
Proof. intros Hz. unfold print_llu. rewrite u64_small by lia. by apply print_dec_short. Qed.

Lemma response_header_short ssl r extra id :
  response_ok r extra → (length id < 64)%nat → body_len r < 2 ^ 63 →
  Z.of_nat (length (response_header ssl r id)) < 15500.
Proof.
  intros [[_ T2] [_ O2] S1 (_ & _ & E2)] Hid Hb. unfold response_header.
  assert (Hd : (length (print_d (rs_status_code r)) ≤ 20)%nat).
  { unfold print_d, print_lld. rewrite (proj2 (Z.ltb_ge _ _)) by lia. apply print_dec_short. lia. }
  assert (Hl : (length (print_llu (body_len r)) ≤ 20)%nat).
  { apply print_llu_short. unfold body_len in *. destruct (rs_body r); lia. }
  assert (Hs : (length (status_text (rs_status_code r)) ≤ 21)%nat) by (unfold status_text; repeat case_match; simpl; lia).
  assert (Hv : (length (crlf_lines (vary_lines r)) ≤ 14)%nat) by (unfold vary_lines; destruct (rs_cors_origin r); vm_compute; lia).
  assert (Hh : (length (crlf_lines (hsts_lines ssl)) ≤ 66)%nat) by (destruct ssl; vm_compute; lia).
  assert (Hf : (length (crlf_lines (fixed_lines r id)) ≤ 1300)%nat).
  { assert (Ho : (length match rs_cors_origin r with [] => ("*" : cstr) | o => o end < 256)%nat)
      by (destruct (rs_cors_origin r); [simpl; lia|done]).
    unfold crlf_lines, fixed_lines. revert Ho Hd Hl Hs T2 Hid.
    generalize (match rs_cors_origin r with [] => ("*" : cstr) | o => o end) (print_d (rs_status_code r))
      (print_llu (body_len r)) (status_text (rs_status_code r)) (rs_content_type r) id. clear.
    intros a1 a2 a3 a4 a5 a6 Ho Hd Hl Hs T2 Hid. simpl. repeat (rewrite length_app; simpl). lia. }
  assert (H2 : length CRLF = 2%nat) by done. rewrite !crlf_lines_app, !length_app. lia.
Qed.

(** Responses are framed (round trip): a peer that goes on reading
    receives, for a response whose texts hold no line breaks, exactly the
    header lines that were meant, one blank line and the body, whatever
    bytes the body holds, and one of the lines announces its length. *)
Theorem response_framing ssl w r extra id :
  response_ok r extra → clean id → (length id < 64)%nat → body_len r < 2 ^ 63 →
  keeps_reading w (Z.of_nat (length (response_header ssl r id) + length (default [] (rs_body r)))) →
  ∃ bytes, send_response ssl w r id = Ret bytes ∧
    client_read bytes = (fixed_lines r id ++ hsts_lines ssl ++ vary_lines r ++ extra, default [] (rs_body r)) ∧
    ("Content-Length: " : cstr) ++ print_dec (Z.of_nat (length (default [] (rs_body r)))) ∈ fixed_lines r id.
Proof.
  intros Hr Hc Hid Hb Hw. pose proof (response_header_short ssl r extra id Hr Hid Hb) as Hs.
  eexists. split; [apply send_response_ok; [unfold HEADER_SIZE; lia|done]|]. split.
  - rewrite (response_header_lines ssl r extra id Hr), <- app_assoc. apply client_read_crlf. by apply header_lines_ok.
  - assert (E : print_llu (body_len r) = print_dec (Z.of_nat (length (default [] (rs_body r))))).
    { unfold print_llu, body_len in *. destruct (rs_body r) as [b|]; [simpl; by rewrite u64_small by lia|done]. }
    rewrite <- E. unfold fixed_lines. right. right. left.
Qed.

Lemma hex_digit_clean (d : Z) : clean_char (chr (if d mod 16 <? 10 then 48 + d mod 16 else 87 + d mod 16)).
Proof.
  pose proof (Z.mod_pos_bound d 16 ltac:(lia)) as Hd. revert Hd. generalize (d mod 16). intros x Hx.
  assert (Hr : 48 ≤ (if x <? 10 then 48 + x else 87 + x) < 256) by (destruct (x <? 10) eqn:?; reflect_bools; lia).
  revert Hr. generalize (if x <? 10 then 48 + x else 87 + x). intros z Hz.
  split_and!; intros E; apply (f_equal ord) in E; rewrite ord_chr in E by lia; vm_compute in E; lia.
Qed.

Lemma print_hex_clean n : clean (print_hex n).
Proof.
  unfold print_hex, print_base. generalize (S (Z.to_nat (Z.log2 n))). intros fuel.
  assert (H : ∀ fuel n acc, clean acc → clean (print_base_loop fuel 16 n acc)); [|by apply H; constructor].
  clear. induction fuel as [|fuel IH]; intros n acc Ha; cbn [print_base_loop]; [done|].
  destruct (n <? 16); [by constructor; [apply hex_digit_clean|]|]. apply IH. constructor; [apply hex_digit_clean|done].
Qed.

Lemma request_id_clean now n : clean (request_id_of now n) ∧ (length (request_id_of now n) < 64)%nat.
Proof.
  unfold request_id_of, snprintf. split; [|rewrite length_take; lia]. apply clean_take, clean_app.
  split; [by apply clean_text|]. apply clean_app. split; [apply print_hex_clean|].
  apply Forall_cons. split; [by split_and!|]. apply clean_app. split; [|apply print_hex_clean].
  apply Forall_replicate. by split_and!.
Qed.

(** The response to a request that was refused: the origin it carried,
    and no headers of its own. *)
Lemma refusal_ok arena max c p br env ip status msg :
  parse_request arena max c = Ret (Some p, br) → 0 ≤ status < 1000 →
  response_ok (sso_response_error env status msg (init_response (with_client_ip ip (p_req p)))) [].
Proof.
  intros Hp Hs. apply parse_request_fields, ro_origin in Hp as [Hc Hl].
  split; simpl; [split; [by apply clean_text|simpl; lia]| |done|split_and!; [done|constructor|simpl; lia]].
  unfold snprintf. split; [by apply clean_take|rewrite length_take; lia].
Qed.

(* ------------------------------------------------------------------ *)
(** ** Requests without a token *)

Section NoToken.
Context {S C : Type} `{Crypto, InsituReader, JsonReader, Sha256, RsaKeys}.
Context (open_store : option cstr → S) (cx_for : option cstr → request_env → sso_context S)
        (routes_for : option cstr → request_env → list (route_t S C)).
Notation serve := (handle_connection open_store cx_for routes_for).

(** The tenants' contexts are those of the registry. *)
Definition server_wf (cfg : sso_config_t) (sv : server (S := S) (C := C)) : Prop :=
  registry_wf cfg (sv_registry sv) ∧ length (sv_tenants sv) = length (sv_registry sv).

Lemma enter_tenant_spec tenv cfg host sv :
  healthy_tenant tenv → server_wf cfg sv →
  ∃ c sv', enter_tenant open_store tenv cfg host sv = Ret (c, sv') ∧ server_wf cfg sv' ∧
    match c with Main => True | Tenant i => (i < length (sv_tenants sv'))%nat end.
Proof.
  intros He [Hwf Hlen]. unfold enter_tenant.
  destruct (get_tenant_context_spec tenv cfg host _ He Hwf) as (c & reg & -> & Hwf' & [k ->] & Hr).
  cbn [mbind outcome_bind]. eexists _, _. split; [done|].
  assert (Hl : length (sv_tenants sv ++ map (new_context open_store ∘ snd) (drop (length (sv_registry sv)) (sv_registry sv ++ k))) =
               length (sv_registry sv ++ k)).
  { rewrite drop_app_length, !length_app, length_map. lia. }
  split; [by split|]. destruct c as [|i]; [done|]. simpl. rewrite Hl. destruct Hr as (id & b & _ & Hi).
  by eapply lookup_lt_Some.
Qed.

(** Leaving a context as it was entered changes nothing. *)
Lemma leave_enter sv c body :
  match c with Main => True | Tenant i => (i < length (sv_tenants sv))%nat end →
  leave sv c (enter (S := S) (C := C) sv (context_at sv c) body) = sv.
Proof.
  intros Hc. unfold leave, enter. destruct c as [|i]; simpl.
  - destruct sv as [m t g rk au n]; simpl. by destruct m.
  - destruct (lookup_lt_is_Some_2 _ _ Hc) as [k Hk]. rewrite (nth_lookup_Some _ _ _ _ Hk).
    rewrite list_insert_id; [by destruct sv|]. rewrite Hk. by destruct k.
Qed.


Lemma match_route_found routes req m path :
  rq_method req = m → rq_path req = path →
  find_route (S := S) (C := C) routes req = List.find (λ r, match_route (rt_pattern r) path) (method_routes routes m).
Proof. by intros <- <-. Qed.


End NoToken.

(* ================================================================== *)
(** ** A server that runs *)

Import Toy.

Definition toy_cx (storage : option cstr) (env : request_env) : sso_context mem_priv_t :=
  mem_context (e_now env) (e_alloc env) 64.
Definition toy_routes (storage : option cstr) (env : request_env) : list (route_t mem_priv_t compiled_rule) :=
  sso_routes (sso_impl (toy_cx storage env) no_expiry config0 env (builtin_strategies (toy_cx storage env) (e_alloc env))
    audit_cfg None (e_mono env + 1) 4096 [] (replicate 4096 NUL) missing).
Notation toy_serve := (handle_connection (λ _, mem_open) toy_cx toy_routes).

(** A server whose token secret is in its environment, after its first
    start over an empty store. *)
Definition toy_main : context (S := mem_priv_t) (C := compiled_rule) :=
  match sso_init boot_ok true (Some server_config) with
  | Booted b =>
      let k := new_context (λ _, mem_open) b in
      match bootstrap_data (toy_cx None (env_at 0)) no_expiry (e_now (env_at 0)) None None [222; 173; 190; 239] (k_world k) with
      | Ret (_, w) => {| k_storage := k_storage k; k_world := w; k_tokens := k_tokens k; k_limiter := k_limiter k;
                         k_metrics := k_metrics k |}
      | _ => k
      end
  | BootFailed _ _ => {| k_storage := None; k_world := {| w_store := mem_open; w_engine := None |}; k_tokens := manager0;
                         k_limiter := None; k_metrics := no_metrics |}
  end.
Definition toy_server : server (S := mem_priv_t) (C := compiled_rule) :=
  {| sv_main := toy_main; sv_tenants := []; sv_registry := []; sv_risk := risk_init; sv_audit := audit_boot; sv_requests := 0 |}.
(** What [sso_get_config] answers: the settings without the keys. *)
Definition toy_config : sso_config_t := wipe_keys server_config.
Definition wide_open : write_env := {| we_malloc := true; we_writes := replicate 20 65536 |}.

(** One request at second [t] as a browser would send it. *)
Definition send (t : Z) (w : wire) (sv : server (S := mem_priv_t) (C := compiled_rule)) : outcome (list ascii * server) :=
  toy_serve false false toy_config (env_at t) tenant_ok wide_open [render_request w] "10.0.0.9" sv.
Definition ask (m path host token body : cstr) : wire :=
  {| wi_method := m; wi_path := path; wi_params := []; wi_token := token; wi_origin := []; wi_dpop := []; wi_host := host;
     wi_agent := "curl/8"; wi_body := body |}.
Definition status_of (bytes : list ascii) : cstr := take 3 (drop 9 bytes).

Definition tenant_takeover : outcome (list cstr * cstr * cstr) :=
  '(r1, sv) ← send 1 (ask "POST" "/api/v1/auth/register" "evil.x" [] "username=mallory&password=Passw0rd!") toy_server;
  '(r2, sv) ← send 2 (ask "POST" "/api/v1/auth/login" "evil.x" [] "username=mallory&password=Passw0rd!") sv;
  '(r3, sv) ← send 3 (ask "GET" "/api/v1/auth/me" "evil.x" (value_after "X-SSO-Access-Token: " CRLF r2) []) sv;
  '(r4, sv) ← send 4 (ask "GET" "/api/v1/auth/me" "localhost" (value_after "X-SSO-Access-Token: " CRLF r2) []) sv;
  Ret (map status_of [r1; r2; r3; r4], value_after "X-SSO-User: " CRLF r3, value_after "X-SSO-User: " CRLF r4).

(** Anyone becomes the administrator (counterexample to the isolation
    of tenants), from bytes to bytes: a server has just started and made
    its administrator; mallory makes up a host, which provisions a tenant
    with an empty store, and registers and logs in there; her token is
    that of the tenant's first user, and on the server's own host she is
    served as its first user, admin. *)
Theorem tenant_takeover_works :
  tenant_takeover = Ret ([text "200"; text "200"; text "200"; text "200"], text "mallory", text "admin").
Proof. vm_compute. reflexivity. Qed.

(** ** Witnesses *)

Definition sample_response : http_response_t :=
  {| rs_status_code := 200; rs_body := Some (text "{}"); rs_content_type := text "application/json"; rs_cors_origin := text "https://app";
     rs_extra_headers := crlf_lines [text "X-SSO-User: alice"] |}.

Lemma sample_response_ok : response_ok sample_response [text "X-SSO-User: alice"].
Proof.
  split; simpl; [split; [by apply clean_text|simpl; lia]..|lia|].
  split_and!; [done|apply Forall_singleton; by apply const_line|vm_compute; discriminate].
Qed.

(** A peer that takes one byte at a time. *)
Definition slow_reader : write_env := {| we_malloc := true; we_writes := replicate (Z.to_nat 17000) 1 |}.
Lemma slow_reader_reads n : n ≤ 17000 → keeps_reading slow_reader n.
Proof.
  intros Hn. split_and!; [done|by apply Forall_replicate|]. unfold slow_reader, we_writes. rewrite length_replicate, Z2Nat.id by lia. done.
Qed.

Lemma response_framing_witness :
  ∃ bytes, send_response true slow_reader sample_response (request_id_of 0 1) = Ret bytes ∧ (client_read bytes).2 = text "{}".
Proof.
  destruct (request_id_clean 0 1) as [H1 H2].
  destruct (response_framing true slow_reader sample_response [text "X-SSO-User: alice"] (request_id_of 0 1)) as (bytes & Hs & Hr & _).
  - exact sample_response_ok.
  - exact H1.
  - exact H2.
  - vm_compute. reflexivity.
  - apply slow_reader_reads. vm_compute. discriminate.
  - exists bytes. split; [exact Hs|]. rewrite Hr. reflexivity.
Defined.

Definition users_wire : wire := ask "GET" "/api/v1/users" "acme.example.com" [] [].

Lemma users_wire_ok : wire_ok users_wire HTTP_GET.
Proof.
  split; try (split_and!; [by apply clean_text|apply Nat.ltb_lt; reflexivity|done|done]).
  - reflexivity.
  - split_and!; [done|by apply clean_text|repeat constructor| |apply Nat.leb_le; reflexivity].
    intros Hin. apply (bool_decide_eq_true_2 _) in Hin. by vm_compute in Hin.
  - constructor.
  - split; [by apply clean_text|apply Nat.leb_le; reflexivity].
  - vm_compute. reflexivity.
Qed.

Lemma users_route storage :
  ∃ r, List.find (λ r, match_route (rt_pattern r) (wi_path users_wire)) (method_routes (toy_routes storage (env_at 0)) HTTP_GET) =
       Some r ∧ rt_require_auth r = true.
Proof.
  assert (E : rt_require_auth <$> List.find (λ r, match_route (rt_pattern r) (wi_path users_wire))
                (method_routes (toy_routes storage (env_at 0)) HTTP_GET) = Some true) by (vm_compute; reflexivity).
  apply fmap_Some in E as (r & Hr & E). by exists r.
Qed.

