(* ===== verification/Mhd.v ===== *)
(** * The server on libmicrohttpd (src/server_mhd.c)

    The library calls the access handler of a connection once to open it,
    once per piece of the body and once at its end, and a completion
    callback after the answer is sent.  A thread of its pool serves many
    connections, so the calls of different connections interleave on one
    thread; all of them copy the arena of the thread.  Of the library the
    model takes the connection's values and whether it accepts headers
    and answers; [thread_init] and [thread_cleanup] of the backends are in
    [SqliteOpen], [PostgresConn] and [RedisConn]. *)

From S2P Require Import Prelude CLib CNum Json Types Storage StorageMemory PermCache Context UserMgr RoleMgr RateLimit Mfa Bits Base64 TokenState Token TokenScan TokenJwt Printf PermEngine AuditLog Arena Dpop Risk Http AuthHandlers Oauth AdminHandlers CheckHandlers Config Boot Tenant HttpParse Bootstrap Samples AuthSafety Routes Server Pages.

(* ------------------------------------------------------------------ *)
(** ** The arena of a thread *)

(** [arena_t] is two pointers: copies of it share the blocks and the links
    between them.  Chains are known by their first block. *)
Record thread_mem := { mm_blocks : gmap nat arena_block_t; mm_chains : gmap nat (list nat); mm_next : nat }.
Record arena_ref := { ar_first : option nat; ar_current : option nat }.
Definition no_mem : thread_mem := {| mm_blocks := ∅; mm_chains := ∅; mm_next := 0 |}.
Definition no_arena : arena_ref := {| ar_first := None; ar_current := None |}.

(** The arena behind a copy.  A copy whose first block was freed through
    another is taken to be faulty at its next use. *)
Definition arena_view (m : thread_mem) (r : arena_ref) : outcome arena_t :=
  match ar_first r with
  | None => Ret {| chain := []; current := None; default_block_size := 4096; heap := ∅; next_block := mm_next m |}
  | Some f =>
      match mm_chains m !! f with
      | None => Crash
      | Some c =>
          match ar_current r ≫= λ id, find_index (Nat.eqb id) c with
          | None => Crash
          | Some i => Ret {| chain := c; current := Some i; default_block_size := 4096;
                             heap := filter (λ x, x.1 ∈ c) (mm_blocks m); next_block := mm_next m |}
          end
      end
  end.
Definition arena_back (a : arena_t) (m : thread_mem) : thread_mem * arena_ref :=
  ({| mm_blocks := heap a ∪ mm_blocks m;
      mm_chains := match chain a with [] => mm_chains m | f :: _ => <[f := chain a]> (mm_chains m) end; mm_next := next_block a |},
   {| ar_first := head (chain a); ar_current := current a ≫= λ i, chain a !! i |}).
Definition on_arena {A} (f : arena_t → outcome (A * arena_t)) (m : thread_mem) (r : arena_ref) : outcome (A * (thread_mem * arena_ref)) :=
  a ← arena_view m r; '(x, a') ← f a; Ret (x, arena_back a' m).
(** [arena_reset] frees blocks and may unlink the first. *)
Definition reset_ref (m : thread_mem) (r : arena_ref) : outcome (thread_mem * arena_ref) :=
  a ← arena_view m r;
  Ret (arena_back (arena_reset a)
    {| mm_blocks := filter (λ x, x.1 ∉ chain a) (mm_blocks m);
       mm_chains := match ar_first r with Some f => delete f (mm_chains m) | None => mm_chains m end; mm_next := mm_next m |}).

(** [mhd_conn_state_t] *)
Record mhd_conn := { mc_arena : arena_ref; mc_body : option pointer; mc_size : Z; mc_params : option (list cstr) }.
(** A thread: its blocks, [t_arena] once it is set up, and the connections
    it serves. *)
Record mhd_thread := { mt_mem : thread_mem; mt_arena : option arena_ref; mt_conns : gmap nat mhd_conn }.
Definition new_mhd_thread : mhd_thread := {| mt_mem := no_mem; mt_arena := None; mt_conns := ∅ |}.
Definition set_conn (n : nat) (c : mhd_conn) (m : thread_mem) (t : mhd_thread) : mhd_thread :=
  {| mt_mem := m; mt_arena := mt_arena t; mt_conns := <[n := c]> (mt_conns t) |}.

(* ------------------------------------------------------------------ *)
(** ** The calls of a connection *)

(** Phase 1: the answer is [MHD_YES] or not; [ready] is that the server is
    not shutting down and there is memory for the state. *)
Definition mhd_open (ready : bool) (n : nat) (t : mhd_thread) : bool * mhd_thread :=
  if negb ready then (false, t)
  else
    let r := default no_arena (mt_arena t) in
    (true, {| mt_mem := mt_mem t; mt_arena := Some r;
              mt_conns := <[n := {| mc_arena := r; mc_body := None; mc_size := 0; mc_params := None |}]> (mt_conns t) |}).

Section Calls.
Context (alloc : Z → bool).

(** Phase 2: a piece of the body. *)
Definition grow_body (body : option pointer) (size : Z) (piece : list Z) (a : arena_t) : outcome (option pointer * arena_t) :=
  let new_size := size + Z.of_nat (length piece) in
  '(r, a) ← arena_realloc alloc body (size + 1) (new_size + 1) a;
  match r with
  | None => Ret (None, a)
  | Some p =>
      a ← store {| p_block := p_block p; p_off := p_off p + size |} (map Some piece) a;
      a ← store {| p_block := p_block p; p_off := p_off p + new_size |} [Some 0] a;
      Ret (Some p, a)
  end.
Definition mhd_upload (n : nat) (piece : list Z) (t : mhd_thread) : outcome (bool * mhd_thread) :=
  match mt_conns t !! n with
  | None => Crash
  | Some c =>
      '(r, (m, ar)) ← on_arena (grow_body (mc_body c) (mc_size c) piece) (mt_mem t) (mc_arena c);
      match r with
      | None => Ret (false, set_conn n {| mc_arena := ar; mc_body := mc_body c; mc_size := mc_size c; mc_params := mc_params c |} m t)
      | Some p => Ret (true, set_conn n {| mc_arena := ar; mc_body := Some p; mc_size := mc_size c + Z.of_nat (length piece);
                                           mc_params := mc_params c |} m t)
      end
  end.

(** [query_param_iterator]: the array of pointers grows by one; its bytes
    are not followed.  The library stops at [MHD_NO]. *)
Definition query_text (key : cstr) (value : option cstr) : cstr := match value with Some v => key ++ "="%char :: v | None => key end.
Definition query_param_iterator (key : cstr) (value : option cstr) (arr : option pointer) (params : list cstr) (a : arena_t)
  : outcome (bool * option pointer * list cstr * arena_t) :=
  let count := Z.of_nat (length params) in
  '(r, a) ← arena_realloc alloc arr (u64 (count * 8)) ((count + 2) * 8) a;
  match r with
  | None => Ret (false, arr, params, a)
  | Some q =>
      '(s, a) ← arena_strdup alloc (Some (query_text key value)) a;
      match s with
      | None => Ret (false, Some q, params, a)
      | Some _ => Ret (true, Some q, params ++ [query_text key value], a)
      end
  end.
Fixpoint query_loop (args : list (cstr * option cstr)) (arr : option pointer) (params : list cstr) (a : arena_t) : outcome (option (list cstr) * arena_t) :=
  match args with
  | [] => Ret (match arr with Some _ => Some params | None => None end, a)
  | (k, v) :: args =>
      '(ok, arr, params, a) ← query_param_iterator k v arr params a;
      if ok : bool then query_loop args arr params a
      else Ret (match arr with Some _ => Some params | None => None end, a)
  end.

(** The body as the handlers see it at phase 3. *)
Definition read_bytes (bytes : list (option Z)) : outcome (list ascii) :=
  match mapM (λ b : option Z, chr <$> b) bytes with Some l => Ret l | None => Crash end.
Definition mhd_body (n : nat) (t : mhd_thread) : outcome (option (list ascii)) :=
  match mt_conns t !! n with
  | None => Crash
  | Some c =>
      match mc_body c with
      | None => Ret None
      | Some p =>
          a ← arena_view (mt_mem t) (mc_arena c);
          bytes ← load p (mc_size c) a;
          l ← read_bytes bytes; Ret (Some l)
      end
  end.
Definition mhd_query (n : nat) (args : list (cstr * option cstr)) (t : mhd_thread) : outcome (option (list cstr) * mhd_thread) :=
  match mt_conns t !! n with
  | None => Crash
  | Some c =>
      '(ps, (m, ar)) ← on_arena (query_loop args None []) (mt_mem t) (mc_arena c);
      Ret (ps, set_conn n {| mc_arena := ar; mc_body := mc_body c; mc_size := mc_size c; mc_params := ps |} m t)
  end.

(** The completion callback. *)
Definition mhd_completed_cb (n : nat) (t : mhd_thread) : outcome mhd_thread :=
  match mt_conns t !! n with
  | None => Ret t
  | Some c =>
      '(m, ar) ← reset_ref (mt_mem t) (mc_arena c);
      Ret {| mt_mem := m; mt_arena := Some ar; mt_conns := delete n (mt_conns t) |}
  end.

(** The calls on a thread, in the order they come. *)
Inductive mhd_call := COpen (n : nat) | CUpload (n : nat) (piece : list Z) | CCompleted (n : nat).
Definition mhd_step (c : mhd_call) (t : mhd_thread) : outcome mhd_thread :=
  match c with
  | COpen n => Ret (mhd_open true n t).2
  | CUpload n piece => '(_, t) ← mhd_upload n piece t; Ret t
  | CCompleted n => mhd_completed_cb n t
  end.
Fixpoint mhd_calls (cs : list mhd_call) (t : mhd_thread) : outcome mhd_thread :=
  match cs with [] => Ret t | c :: cs => t ← mhd_step c t; mhd_calls cs t end.
End Calls.

(* ------------------------------------------------------------------ *)
(** ** The request *)

Definition parse_method (m : cstr) : http_method_t :=
  if strcmp_eq m "GET" then HTTP_GET
  else if strcmp_eq m "POST" then HTTP_POST
  else if strcmp_eq m "PUT" then HTTP_PUT
  else if strcmp_eq m "DELETE" then HTTP_DELETE
  else if strcmp_eq m "PATCH" then HTTP_PATCH
  else if strcmp_eq m "OPTIONS" then HTTP_OPTIONS
  else HTTP_GET.

(** What the library offers of a connection: names of headers are looked
    up without regard to case. *)
Record mhd_values := {
  mv_url : cstr; mv_method : cstr; mv_headers : list (cstr * cstr); mv_args : list (cstr * option cstr); mv_address : option cstr
}.
Definition MHD_lookup_connection_value (v : mhd_values) (key : cstr) : option cstr :=
  snd <$> List.find (λ h, strcasecmp_eq h.1 key) (mv_headers v).
Definition get_client_ip (v : mhd_values) : cstr := snprintf 64 (default ("unknown" : cstr) (mv_address v)).
Definition header_field (v : mhd_values) (key : cstr) (size : nat) : cstr :=
  match MHD_lookup_connection_value v key with Some h => sso_strlcpy (Some h) size | None => [] end.
Definition strncasecmp_eq (a b : cstr) (n : nat) : bool := bool_decide (map tolower (take n a) = map tolower (take n b)).
Definition mhd_auth_token (v : mhd_values) : cstr :=
  match MHD_lookup_connection_value v "Authorization" with
  | None => []
  | Some h =>
      if strncasecmp_eq h "Bearer " 7 then sso_strlcpy (Some (drop 7 h)) SSO_MAX_TOKEN_STR
      else if strncasecmp_eq h "DPoP " 5 then sso_strlcpy (Some (drop 5 h)) SSO_MAX_TOKEN_STR
      else []
  end.
(** The request: [method_str] is left as the [memset] made it. *)
Definition mhd_request (v : mhd_values) (params : option (list cstr)) : http_request_t :=
  {| rq_method := parse_method (mv_method v); rq_path := sso_strlcpy (Some (mv_url v)) 1024; rq_client_ip := get_client_ip v;
     rq_query_params := params; rq_auth_token := mhd_auth_token v; rq_origin := header_field v "Origin" 256;
     rq_dpop_proof := header_field v "DPoP" 8192; rq_host := header_field v "Host" 256; rq_method_str := [];
     rq_user_agent := header_field v "User-Agent" 512; rq_userdata := None |}.

(* ------------------------------------------------------------------ *)
(** ** The answer *)

(** [apply_extra_headers]: lines of [Key: Value]. *)
Definition header_pair (line : cstr) : option (cstr * cstr) :=
  let line := take_while (λ c, negb (Ascii.eqb c CR)) line in
  match strchr line ":" with
  | Some i => Some (take i line, skip_while is_blank (drop (S i) line))
  | None => None
  end.
Definition apply_extra_headers (strdup_ok : bool) (extra : cstr) : list (cstr * cstr) :=
  match extra with [] => [] | _ => if strdup_ok then omap header_pair (split_on (chr 10) extra) else [] end.

(** The headers that are added, in order. *)
Definition mhd_headers (tls strdup_ok : bool) (r : http_response_t) (request_id : cstr) : list (cstr * cstr) :=
  [("Content-Type" : cstr, rs_content_type r);
   ("Access-Control-Allow-Origin" : cstr, match rs_cors_origin r with [] => ("*" : cstr) | o => o end);
   ("Access-Control-Allow-Credentials" : cstr, "true" : cstr);
   ("Access-Control-Allow-Headers" : cstr, "Content-Type, Authorization" : cstr);
   ("Access-Control-Expose-Headers" : cstr, "X-SSO-User, X-SSO-Access-Token, X-SSO-Refresh-Token" : cstr);
   ("X-Content-Type-Options" : cstr, "nosniff" : cstr);
   ("X-Frame-Options" : cstr, "SAMEORIGIN" : cstr);
   ("X-Request-Id" : cstr, request_id);
   ("Permissions-Policy" : cstr, "geolocation=(), microphone=(), camera=()" : cstr);
   ("Content-Security-Policy" : cstr, "default-src 'self'; style-src 'self' 'unsafe-inline'; script-src 'self' 'unsafe-inline'" : cstr);
   ("Cache-Control" : cstr, "no-cache, no-store, must-revalidate" : cstr);
   ("Pragma" : cstr, "no-cache" : cstr)] ++
  (if tls then [("Strict-Transport-Security" : cstr, "max-age=31536000; includeSubDomains" : cstr)] else []) ++
  match rs_cors_origin r with [] => [] | _ => [("Vary" : cstr, "Origin" : cstr)] end ++
  apply_extra_headers strdup_ok (rs_extra_headers r).

(** What is queued. *)
Record mhd_response := { mr_status : Z; mr_headers : list (cstr * cstr); mr_body : list ascii }.
(** What the library answers: a response object, each header, the queue. *)
Record mhd_lib := { ml_creates : bool; ml_header : cstr → cstr → bool; ml_strdup : bool; ml_queues : mhd_response → bool }.

(** The body is copied, then freed unless the arena of the connection
    holds it; the handlers' arena is another one, whose memory is not
    malloc's.  [None]: nothing was queued. *)
Definition mhd_send (lib : mhd_lib) (tls in_req_arena : bool) (r : http_response_t) (request_id : cstr) : outcome (option mhd_response) :=
  match rs_body r, in_req_arena with
  | Some _, true => Crash
  | _, _ =>
      if negb (ml_creates lib) then match rs_body r with Some _ => Crash | None => Ret None end
      else
        let m := {| mr_status := rs_status_code r;
                    mr_headers := filter (λ h, ml_header lib h.1 h.2 = true) (mhd_headers tls (ml_strdup lib) r request_id);
                    mr_body := default [] (rs_body r) |} in
        Ret (if ml_queues lib m then Some m else None)
  end.

(* ------------------------------------------------------------------ *)
(** ** Phase 3 *)

(** Memory of the connection's arena for the caller's record. *)
Definition mhd_alloc (alloc : Z → bool) (n : nat) (size : Z) (t : mhd_thread) : outcome (bool * mhd_thread) :=
  match mt_conns t !! n with
  | None => Crash
  | Some c =>
      '(p, (m, ar)) ← on_arena (arena_alloc alloc size) (mt_mem t) (mc_arena c);
      Ret (bool_decide (is_Some p),
           set_conn n {| mc_arena := ar; mc_body := mc_body c; mc_size := mc_size c; mc_params := mc_params c |} m t)
  end.
(** The surroundings of a request with the answer of that allocation. *)
Definition with_auth_alloc (ok : bool) (env : request_env) : request_env :=
  {| e_now := e_now env; e_mono := e_mono env; e_alloc := e_alloc env;
     e_arena := λ n, if n =? sizeof_auth_context then ok else e_arena env n; e_token_random := e_token_random env;
     e_secret_random := e_secret_random env; e_code_random := e_code_random env; e_rand := e_rand env; e_audit := e_audit env |}.

(** Bodies that handlers leave in their arena: those of the documentation. *)
Definition docs_body (pattern : cstr) (r : http_response_t) : bool :=
  (strcmp_eq pattern "/api/v1/docs" || strcmp_eq pattern "/api/v1/docs/openapi.yaml") && (rs_status_code r =? 200).

Section Process.
Context {S C : Type} `{Crypto, InsituReader, JsonReader, Sha256, RsaKeys}.
Context (open_store : option cstr → S) (cx_for : option cstr → request_env → sso_context S)
        (routes_for : option cstr → request_env → list (route_t S C)).

Definition mhd_access_handler (alloc : Z → bool) (lib : mhd_lib) (cfg : sso_config_t) (env : request_env) (tenv : tenant_env)
    (request_id : cstr) (v : mhd_values) (n : nat) (t : mhd_thread) (sv : server) : outcome (option mhd_response * mhd_thread * server) :=
  '(k, sv) ← enter_tenant open_store tenv cfg (header_field v "Host" 256) sv;
  body ← mhd_body n t;
  '(params, t) ← mhd_query alloc n (mv_args v) t;
  let req := mhd_request v params in
  let ctx := context_at sv k in
  let route := if bool_decide (rq_method req = HTTP_OPTIONS) then None else find_route (routes_for (k_storage ctx) env) req in
  '(ok, t) ← match route with
             | Some r => if rt_require_auth r then mhd_alloc alloc n sizeof_auth_context t else Ret (true, t)
             | None => Ret (true, t)
             end;
  '(resp, s) ← handle_client (cx_for (k_storage ctx) env) (with_auth_alloc ok env) (routes_for (k_storage ctx) env) false req
                 (enter sv ctx body);
  answer ← mhd_send lib (tls_enabled (c_security cfg)) (match route with Some r => docs_body (rt_pattern r) resp | None => false end)
             resp request_id;
  Ret (answer, t, leave sv k s).
End Process.

(* ------------------------------------------------------------------ *)
(** ** Start and stop *)

Definition mhd_threads (cfg : option sso_config_t) : Z :=
  let n := match cfg with Some c => thread_pool_size (c_server c) | None => 8 end in
  if n <? 1 then 1 else if 256 <? n then 256 else n.
Inductive mhd_option := MHD_OPTION_THREAD_POOL_SIZE (n : Z) | MHD_OPTION_NOTIFY_COMPLETED | MHD_OPTION_HTTPS_MEM_CERT (pem : cstr) | MHD_OPTION_HTTPS_MEM_KEY (pem : cstr).
(** The daemon is started with these options and flags, or not. *)
Definition mhd_start (cfg : option sso_config_t) (read_file_contents : cstr → option (list ascii)) (daemon : list mhd_option → bool → bool)
  : result (list mhd_option) :=
  let opts := [MHD_OPTION_THREAD_POOL_SIZE (mhd_threads cfg); MHD_OPTION_NOTIFY_COMPLETED] in
  let run opts tls := if daemon opts tls : bool then Ok opts else Err SSO_ERR_SOCKET in
  match cfg with
  | Some c =>
      if tls_enabled (c_security c) then
        match read_file_contents (tls_cert_file (c_security c)), read_file_contents (tls_key_file (c_security c)) with
        | Some cert, Some key => run (opts ++ [MHD_OPTION_HTTPS_MEM_CERT (c_str cert); MHD_OPTION_HTTPS_MEM_KEY (c_str key)]) true
        | _, _ => Err SSO_ERR_INIT
        end
      else run opts false
  | None => run opts false
  end.

(** The wait for requests in flight: [active i] is the number of
    connections at the i-th look; ten milliseconds pass between looks. *)
Fixpoint drain_loop (fuel : nat) (active : nat → Z) (i : nat) (wait_ms : Z) : option nat :=
  if (0 <? active i) && (0 <? wait_ms) then
    match fuel with O => None | Datatypes.S fuel => drain_loop fuel active (Datatypes.S i) (wait_ms - 10) end
  else Some i.
Definition mhd_drain (active : nat → Z) : option nat := drain_loop 500 active 0 5000.
