(* ===== verification/MhdSafety.v ===== *)
(** * What the server on libmicrohttpd guarantees (src/server_mhd.c)

    A connection that has its thread to itself collects its body; calls
    that interleave on a thread do not keep bodies apart.  Then what the
    requests and answers of this server have and lack. *)

From S2P Require Import Prelude CLib CNum Json Types Storage StorageMemory PermCache Context UserMgr RoleMgr RateLimit Mfa Bits Base64 TokenState Token TokenScan TokenJwt Printf PermEngine AuditLog Arena Dpop Risk Http AuthHandlers Oauth AdminHandlers CheckHandlers Config Boot Tenant HttpParse Bootstrap Samples AuthSafety Routes Server Pages Mhd.

(* ------------------------------------------------------------------ *)
(** ** Copies of an arena *)

Lemma find_index_nodup (c : list nat) i id : NoDup c → c !! i = Some id → find_index (Nat.eqb id) c = Some i.
Proof.
  intros Hn. revert i. induction Hn as [|x c Hx _ IH]; intros [|i] Hi; try done; cbn [find_index] in *.
  - injection Hi as ->. by rewrite Nat.eqb_refl.
  - cbn in Hi. destruct (Nat.eqb id x) eqn:E; [apply Nat.eqb_eq in E; subst x; by apply list_elem_of_lookup_2 in Hi|].
    by rewrite (IH _ Hi).
Qed.
(** What is put back is what is seen. *)
Lemma view_back a m : arena_wf a → default_block_size a = 4096 → arena_view (arena_back a m).1 (arena_back a m).2 = Ret a.
Proof.
  intros [Hn Hc _ Hcur _] Hd. unfold arena_back, arena_view. cbn [fst snd ar_first ar_current mm_chains mm_blocks mm_next].
  destruct a as [ch cur d h nx]. cbn [chain current heap next_block default_block_size] in *. subst d. destruct ch as [|f ch]; cbn [head].
  - destruct cur as [i|]; [cbn in Hcur; lia|]. do 2 f_equal. symmetry. apply map_eq. intros id. rewrite lookup_empty.
    destruct (h !! id) eqn:E; [|done]. exfalso. apply (not_elem_of_nil id), Hc. by eexists.
  - rewrite lookup_insert_eq. destruct cur as [i|]; [|done]. destruct (lookup_lt_is_Some_2 (f :: ch) i Hcur) as [id Hid].
    cbn [mbind option_bind]. rewrite Hid. cbn [mbind option_bind]. rewrite (find_index_nodup _ _ _ Hn Hid). do 2 f_equal.
    apply map_eq. intros j. destruct (decide (j ∈ f :: ch)) as [Hj|Hj].
    + destruct (proj1 (Hc j) Hj) as [b Hb]. rewrite Hb. apply map_lookup_filter_Some. split; [by apply lookup_union_Some_l|done].
    + rewrite map_lookup_filter_None_2; [|right; by intros b _]. destruct (h !! j) eqn:E; [|done]. exfalso. apply Hj, Hc. by eexists.
Qed.
Lemma on_arena_run {A} (f : arena_t → outcome (A * arena_t)) m r a x a' :
  arena_view m r = Ret a → f a = Ret (x, a') → arena_wf a' → default_block_size a' = 4096 →
  ∃ m' r', on_arena f m r = Ret (x, (m', r')) ∧ arena_view m' r' = Ret a'.
Proof.
  intros Hv Hf Hw Hd. unfold on_arena. rewrite Hv. cbn [mbind outcome_bind]. rewrite Hf. cbn [mbind outcome_bind].
  exists (arena_back a' m).1, (arena_back a' m).2. split; [by destruct (arena_back a' m)|by apply view_back].
Qed.

(* ------------------------------------------------------------------ *)
(** ** One connection on its thread *)

Section Alone.
Context (alloc : Z → bool) (alloc_max : ∀ n, alloc n = true ↔ n < 2 ^ 63).

Lemma inserts_at {A} (a b c : list A) : (length b ≤ length c)%nat → list_inserts (length a) b (a ++ c) = a ++ b ++ drop (length b) c.
Proof.
  revert a c. induction b as [|x b IH]; intros a c Hl; [done|]. destruct c as [|y c]; [cbn in Hl; lia|]. cbn [list_inserts length drop].
  replace (a ++ y :: c) with ((a ++ [y]) ++ c) by (by rewrite <- app_assoc).
  replace (Datatypes.S (length a)) with (length (a ++ [y])) by (rewrite length_app; cbn; lia).
  rewrite IH by (cbn in Hl; lia). rewrite <- app_assoc. cbn [app]. rewrite insert_app_r_alt by done. by rewrite Nat.sub_diag.
Qed.

(** The arena holds the bytes of the body and its terminator. *)
Definition body_held (a : arena_t) (body : option pointer) (size : Z) (bytes : list Z) : Prop :=
  default_block_size a = 4096 ∧ size = Z.of_nat (length bytes) ∧
  match body with
  | None => client a [] [] ∧ bytes = []
  | Some p => client a [(p, size + 1)] [map Some (bytes ++ [0])]
  end.

Lemma not_refused a n : default_block_size a = 4096 → 0 < n < 2 ^ 62 → ¬ refused alloc a n.
Proof.
  intros Hd Hn. unfold refused, HEADER. rewrite Hd. destruct (ALIGN_spec n) as (_ & _ & _); [unfold SIZE_LIMIT; lia|].
  assert (Ha : ALIGN n < 2 ^ 62 + 16).
  { unfold ALIGN, ALIGNMENT. rewrite u64_small by lia. change 16 with (2 ^ 4). rewrite land_high_bits by lia.
    rewrite Z.shiftl_mul_pow2, Z.shiftr_div_pow2 by lia. pose proof (Z.mul_div_le (n + (2 ^ 4 - 1)) (2 ^ 4)). lia. }
  intros [H|[H|H]]; [lia| |]; rewrite (proj2 (alloc_max _)) in H; try done; lia.
Qed.
Lemma client_put a p n buf o bytes :
  client a [(p, n)] [buf] → Z.of_nat o + Z.of_nat (length bytes) ≤ n →
  ∃ a', store {| p_block := p_block p; p_off := p_off p + Z.of_nat o |} bytes a = Ret a' ∧
        client a' [(p, n)] [list_inserts o bytes buf] ∧ default_block_size a' = default_block_size a.
Proof.
  intros Hc Hn. destruct (client_write alloc a _ _ O o bytes Hc) as (a' & Hr & Hd & Hc').
  cbn [run_op lookup list_lookup] in Hr. rewrite (proj2 (Z.leb_le _ _) Hn) in Hr.
  destruct (store _ bytes a) as [a1| |]; [|done|done]. cbn [mbind outcome_bind] in Hr. injection Hr as ->.
  exists a'. split; [done|]. split; [|done]. cbn [spec_op lookup list_lookup] in Hc'.
  destruct (Forall2_cons_1 _ _ _ _ _ (cl_holds _ _ _ Hc)) as [[Hlb _] _]. cbn in Hlb.
  by rewrite (proj2 (Nat.leb_le _ _)) in Hc' by lia.
Qed.

(** One piece more. *)
Lemma grow_body_spec a body size bytes piece :
  body_held a body size bytes → Z.of_nat (length bytes) + Z.of_nat (length piece) < 2 ^ 61 →
  ∃ p a', grow_body alloc body size piece a = Ret (Some p, a') ∧ body_held a' (Some p) (size + Z.of_nat (length piece)) (bytes ++ piece).
Proof.
  intros (Hd & -> & Hb) Hl. set (n := Z.of_nat (length bytes) + Z.of_nat (length piece)). unfold grow_body. fold n.
  assert (Hr : ∃ p a1 tail, arena_realloc alloc body (Z.of_nat (length bytes) + 1) (n + 1) a = Ret (Some p, a1) ∧
    default_block_size a1 = 4096 ∧ client a1 [(p, n + 1)] [map Some bytes ++ tail] ∧ Z.of_nat (length tail) = Z.of_nat (length piece) + 1).
  { destruct body as [p|].
    - destruct (client_realloc alloc (λ n, proj1 (alloc_max n)) a _ _ O p _ (n + 1) _ Hb eq_refl eq_refl) as (r & a1 & Hr & Hd1 & Hc); [unfold SIZE_LIMIT; lia|].
      destruct r as [q|]; [|destruct Hc as [_ Hx]; by destruct (not_refused a (n + 1) Hd ltac:(lia) Hx)].
      exists q, a1, (Some 0 :: replicate (length piece) None). split; [done|]. split; [congruence|]. split; [|cbn; rewrite length_replicate; lia].
      cbn [insert list_insert] in Hc. rewrite map_app in Hc. cbn [map] in Hc.
      rewrite resize_ge in Hc by (rewrite length_app, length_map; cbn; lia).
      replace (Z.to_nat (n + 1) - _)%nat with (length piece) in Hc by (rewrite length_app, length_map; cbn; lia). by rewrite <- app_assoc in Hc.
    - destruct Hb as [Hb ->]. cbn [arena_realloc]. destruct (client_alloc alloc (λ n, proj1 (alloc_max n)) a [] [] (n + 1) Hb) as (r & a1 & Hr & Hd1 & Hc); [unfold SIZE_LIMIT; lia|].
      destruct r as [q|]; [|destruct Hc as [_ Hx]; by destruct (not_refused a (n + 1) Hd ltac:(lia) Hx)].
      exists q, a1, (replicate (Z.to_nat (n + 1)) None). split; [done|]. split; [congruence|]. split; [done|]. rewrite length_replicate. cbn [length] in n. lia. }
  destruct Hr as (p & a1 & tail & -> & Hd1 & Hc1 & Ht). cbn [mbind outcome_bind].
  destruct (client_put a1 p (n + 1) _ (length bytes) (map Some piece) Hc1) as (a2 & -> & Hc2 & Hd2); [rewrite length_map; lia|]. cbn [mbind outcome_bind].
  rewrite <- (length_map (@Some Z) bytes) in Hc2. rewrite inserts_at in Hc2 by (rewrite length_map; lia).
  destruct (client_put a2 p (n + 1) _ (length (bytes ++ piece)) [Some 0] Hc2) as (a3 & Hst & Hc3 & Hd3); [rewrite length_app; cbn; lia|].
  replace (p_off p + n) with (p_off p + Z.of_nat (length (bytes ++ piece))) by (rewrite length_app; lia). rewrite Hst. cbn [mbind outcome_bind].
  exists p, a3. split; [done|]. split; [congruence|]. split; [rewrite length_app; lia|].
  rewrite app_assoc, <- map_app, <- (length_map (@Some Z) (bytes ++ piece)) in Hc3.
  rewrite inserts_at in Hc3 by (rewrite length_drop, length_map; cbn; lia). rewrite drop_drop, drop_ge, app_nil_r in Hc3 by (rewrite length_map; cbn; lia).
  rewrite map_app. exact Hc3.
Qed.

Lemma read_known (bytes : list Z) : read_bytes (map Some bytes) = Ret (map chr bytes).
Proof.
  unfold read_bytes. assert (E : mapM (λ b : option Z, chr <$> b) (map Some bytes) = Some (map chr bytes)); [|by rewrite E].
  induction bytes as [|b bytes IH]; [done|]. cbn [map mapM]. by rewrite IH.
Qed.
Lemma load_held a p size bytes : body_held a (Some p) size bytes → load p size a = Ret (map Some bytes).
Proof.
  intros (_ & -> & Hc). pose proof (cl_live _ _ _ Hc) as Hl. apply Forall_cons in Hl as [Hl _]. pose proof Hl as (Hn & b & Hb & _).
  cbn [fst snd] in *. destruct (ALIGN_spec _ Hn) as (Ha & _).
  destruct (load_spec a _ (Z.of_nat (length bytes)) b (cl_wf _ _ _ Hc) Hl Hb) as (l & Hr & Hlen & Hj); [cbn in *; lia|]. cbn [fst] in *. rewrite Hr. f_equal.
  destruct (Forall2_cons_1 _ _ _ _ _ (cl_holds _ _ _ Hc)) as [[_ Hk] _]. cbn [fst] in Hk.
  apply list_eq. intros j. destruct (decide (j < length bytes)%nat) as [Hlt|Hge].
  - destruct (lookup_lt_is_Some_2 _ _ Hlt) as [z Hz]. rewrite Hj by lia.
    assert (Hs : map Some bytes !! j = Some (Some z)) by (rewrite (list_lookup_fmap (@Some Z)); by rewrite Hz).
    rewrite (Hk j z); [done|]. rewrite map_app. by apply lookup_app_l_Some.
  - rewrite !lookup_ge_None_2; [done|rewrite length_map; lia|lia].
Qed.

(** A thread that can serve: its arena is sound. *)
Definition thread_ok (t : mhd_thread) : Prop :=
  ∀ r, mt_arena t = Some r → ∃ a, arena_view (mt_mem t) r = Ret a ∧ arena_wf a ∧ default_block_size a = 4096.
Definition collecting (n : nat) (t : mhd_thread) (started : bool) (bytes : list Z) : Prop :=
  ∃ c a, mt_conns t !! n = Some c ∧ arena_view (mt_mem t) (mc_arena c) = Ret a ∧ body_held a (mc_body c) (mc_size c) bytes ∧
         (started = true ↔ is_Some (mc_body c)).

Lemma open_collects n t : thread_ok t → collecting n (mhd_open true n t).2 false [].
Proof.
  intros Ht. unfold mhd_open, collecting. cbn [negb snd mt_conns mt_mem]. rewrite lookup_insert_eq. eexists. cbn [mc_arena mc_body mc_size].
  assert (Hv : ∃ a, arena_view (mt_mem t) (default no_arena (mt_arena t)) = Ret a ∧ arena_wf a ∧ default_block_size a = 4096).
  { destruct (mt_arena t) as [r|] eqn:E; [by apply Ht|]. eexists. split; [reflexivity|]. split; [|done]. cbn.
    split; cbn; [constructor| | |done|lia]; [intros id; rewrite lookup_empty; split; [by intros ?%not_elem_of_nil|by intros [? ?]]|].
    intros id b. by rewrite lookup_empty. }
  destruct Hv as (a & Hv & Hw & Hd). exists a. split; [done|]. split; [done|]. split; [|split; [done|by intros [? ?]]].
  split; [done|]. split; [done|]. split; [|done]. split; [done|constructor|done|constructor].
Qed.
Lemma upload_collects n t started bytes piece :
  collecting n t started bytes → Z.of_nat (length (bytes ++ piece)) < 2 ^ 61 →
  ∃ t', mhd_upload alloc n piece t = Ret (true, t') ∧ collecting n t' true (bytes ++ piece).
Proof.
  intros (c & a & Hc & Hv & Hb & _) Hl. rewrite length_app in Hl. unfold mhd_upload. rewrite Hc.
  destruct (grow_body_spec a _ _ _ piece Hb ltac:(lia)) as (p & a' & Hg & Hb').
  destruct (on_arena_run _ _ _ _ _ _ Hv Hg) as (m & r & Ho & Hv'); [apply (cl_wf _ _ _ (proj2 (proj2 Hb')))|apply Hb'|].
  rewrite Ho. cbn [mbind outcome_bind]. eexists. split; [reflexivity|]. eexists _, a'. unfold set_conn. cbn [mt_conns mt_mem].
  rewrite lookup_insert_eq. split; [reflexivity|]. cbn [mc_arena mc_body mc_size]. split; [done|]. split; [done|]. split; [by eexists|done].
Qed.
Lemma body_collected n t started bytes :
  collecting n t started bytes → mhd_body n t = Ret (if started then Some (map chr bytes) else None).
Proof.
  intros (c & a & Hc & Hv & Hb & Hs). unfold mhd_body. rewrite Hc. destruct (mc_body c) as [p|] eqn:E.
  - rewrite Hv. cbn [mbind outcome_bind]. rewrite (load_held _ _ _ _ Hb). cbn [mbind outcome_bind]. rewrite read_known.
    cbn [mbind outcome_bind]. by rewrite (proj2 Hs) by eauto.
  - destruct started; [|done]. by destruct (proj1 Hs eq_refl).
Qed.
Lemma completed_ok n t started bytes :
  collecting n t started bytes → ∃ t', mhd_completed_cb n t = Ret t' ∧ thread_ok t' ∧ mt_conns t' !! n = None.
Proof.
  intros (c & a & Hc & Hv & Hb & _). unfold mhd_completed_cb. rewrite Hc. unfold reset_ref. rewrite Hv. cbn [mbind outcome_bind].
  match goal with |- context [arena_back (arena_reset a) ?m0] => set (m := m0) end.
  assert (Hw : arena_wf a) by (destruct Hb as (_ & _ & Hb); destruct (mc_body c); [apply (cl_wf _ _ _ Hb)|apply (cl_wf _ _ _ (proj1 Hb))]).
  pose proof (cl_wf _ _ _ (client_reset a Hw)) as Hr.
  assert (Hd : default_block_size (arena_reset a) = 4096) by (rewrite <- (proj1 Hb); unfold arena_reset; by destruct (reset_blocks _ _ _)).
  pose proof (view_back _ m Hr Hd) as Hvb. destruct (arena_back (arena_reset a) m) as [m1 r1]. cbn [mbind outcome_bind fst snd] in *.
  eexists. split; [reflexivity|]. split; [|cbn; apply lookup_delete_eq]. intros r. cbn. intros [= <-]. by exists (arena_reset a).
Qed.

Lemma uploads_collect n pieces t started bytes :
  collecting n t started bytes → Z.of_nat (length (bytes ++ concat pieces)) < 2 ^ 61 →
  ∃ t', mhd_calls alloc (map (CUpload n) pieces) t = Ret t' ∧
        collecting n t' (started || match pieces with [] => false | _ => true end) (bytes ++ concat pieces).
Proof.
  revert t started bytes. induction pieces as [|piece pieces IH]; intros t started bytes Hc Hl; cbn [map mhd_calls concat].
  - exists t. split; [done|]. by rewrite app_nil_r, orb_false_r.
  - cbn [concat] in Hl. rewrite app_assoc in Hl. pose proof Hl as Hl'. rewrite length_app in Hl'.
    destruct (upload_collects n t started bytes piece Hc ltac:(lia)) as (t1 & Hu & Hc1). cbn [mhd_step]. rewrite Hu. cbn [mbind outcome_bind].
    destruct (IH t1 true (bytes ++ piece) Hc1 Hl) as (t2 & -> & Hc2). exists t2. split; [done|]. rewrite app_assoc, orb_true_r. exact Hc2.
Qed.

(** C10. A connection whose calls are not interleaved with others: whatever the
    thread served before, the handlers see the pieces of the body in
    order and nothing else, and the thread is as good for the next
    connection. *)
Theorem mhd_body_alone n pieces t :
  thread_ok t → Z.of_nat (length (concat pieces)) < 2 ^ 61 →
  ∃ t', mhd_calls alloc (COpen n :: map (CUpload n) pieces) t = Ret t' ∧
    mhd_body n t' = Ret (match pieces with [] => None | _ => Some (map chr (concat pieces)) end) ∧
    ∃ t'', mhd_calls alloc [CCompleted n] t' = Ret t'' ∧ thread_ok t''.
Proof.
  intros Ht Hl. destruct (uploads_collect n pieces _ _ _ (open_collects n t Ht) Hl) as (t' & Hu & Hc).
  exists t'. split; [done|]. split; [rewrite (body_collected _ _ _ _ Hc); by destruct pieces|].
  destruct (completed_ok _ _ _ _ Hc) as (t'' & Hd & Ht'' & _). exists t''. cbn [mhd_calls mhd_step]. by rewrite Hd.
Qed.
End Alone.

(* ------------------------------------------------------------------ *)
(** ** Parameters *)

Section Parameters.
Context (alloc : Z → bool) (alloc_max : ∀ n, alloc n = true ↔ n < 2 ^ 63).

Lemma ALIGN_mono m n : 0 < m ≤ n → n ≤ SIZE_LIMIT → ALIGN m ≤ ALIGN n.
Proof.
  intros Hm Hn. unfold SIZE_LIMIT in Hn. unfold ALIGN, ALIGNMENT. rewrite !u64_small by lia. change 16 with (2 ^ 4).
  rewrite !land_high_bits by lia. rewrite !Z.shiftl_mul_pow2, !Z.shiftr_div_pow2 by lia. apply Z.mul_le_mono_nonneg_r; [lia|].
  apply Z.div_le_mono; lia.
Qed.
(** A live region is a buffer of unknown bytes, and so is a part of it. *)
Lemma live_client a p n m : arena_wf a → Arena.live a (p, n) → 0 < m ≤ n → client a [(p, m)] [replicate (Z.to_nat m) None].
Proof.
  intros Hw (Hn & b & Hb & H0 & Hu & Hd) Hm. cbn [fst snd] in *. split; [done| | |].
  - constructor; [|constructor]. split; [cbn; lia|]. exists b. cbn. pose proof (ALIGN_mono m n Hm ltac:(lia)). split_and!; [done|done|lia|done].
  - intros [|i] [|j] h1 h2 Hne H1 H2; try done.
  - constructor; [|constructor]. split; [cbn; rewrite length_replicate; lia|]. intros j z [Hx _]%lookup_replicate. done.
Qed.

Definition array_ok (a : arena_t) (arr : option pointer) (count : Z) : Prop :=
  match arr with Some q => 0 < count ∧ Arena.live a (q, (count + 1) * 8) | None => count = 0 end.
Lemma array_grows arr count a :
  arena_wf a → default_block_size a = 4096 → array_ok a arr count → 0 ≤ count < 2 ^ 58 →
  ∃ q a1, arena_realloc alloc arr (count * 8) ((count + 2) * 8) a = Ret (Some q, a1) ∧ default_block_size a1 = 4096 ∧
          client a1 [(q, (count + 2) * 8)] [replicate (Z.to_nat ((count + 2) * 8)) None].
Proof.
  intros Hw Hd Har Hn. pose proof (not_refused alloc alloc_max a ((count + 2) * 8) Hd ltac:(lia)) as Hnr. destruct arr as [p|]; cbn [array_ok] in Har.
  - destruct Har as [Hpos Har].
    destruct (client_realloc alloc (λ n, proj1 (alloc_max n)) a _ _ O p _ ((count + 2) * 8) _ (live_client a p _ (count * 8) Hw Har ltac:(lia)) eq_refl eq_refl)
      as (r & a1 & Hr & Hd1 & Hc); [unfold SIZE_LIMIT; lia|].
    destruct r as [q|]; [|by destruct Hc]. exists q, a1. split; [done|]. split; [congruence|]. cbn [insert list_insert] in Hc.
    apply (live_client a1 q ((count + 2) * 8)); [apply Hc|apply (Forall_inv (cl_live _ _ _ Hc))|lia].
  - subst count. destruct (client_alloc alloc (λ n, proj1 (alloc_max n)) a [] [] 16) as (r & a1 & Hr & Hd1 & Hc); [|unfold SIZE_LIMIT; lia|].
    { split; [done|constructor|done|constructor]. }
    destruct r as [q|]; [|by destruct Hc]. exists q, a1. split; [done|]. split; [congruence|done].
Qed.
Lemma query_step_ok k v arr params a :
  arena_wf a → default_block_size a = 4096 → array_ok a arr (Z.of_nat (length params)) → Z.of_nat (length params) < 2 ^ 58 →
  Z.of_nat (length (query_text k v)) < 2 ^ 58 →
  ∃ arr' a', query_param_iterator alloc k v arr params a = Ret (true, arr', params ++ [query_text k v], a') ∧
    arena_wf a' ∧ default_block_size a' = 4096 ∧ array_ok a' arr' (Z.of_nat (length (params ++ [query_text k v]))).
Proof.
  intros Hw Hd Har Hn Hl. unfold query_param_iterator. rewrite u64_small by lia.
  destruct (array_grows arr (Z.of_nat (length params)) a Hw Hd Har ltac:(lia)) as (q & a1 & -> & Hd1 & Hc1). cbn [mbind outcome_bind].
  destruct (run_op_spec alloc (λ n, proj1 (alloc_max n)) (OStrdup (query_text k v)) a1 _ _ Hc1) as (a2 & hs & ok & Hr & Hd2 & Hc2 & Hok);
    [cbn; unfold SIZE_LIMIT; lia|]. cbn [run_op] in Hr.
  destruct (arena_strdup alloc (Some (query_text k v)) a1) as [[s a2']| |]; [|done|done]. cbn [mbind outcome_bind] in *. unfold push in Hr. cbn [fst snd] in Hr.
  injection Hr as -> <-. destruct s as [sp|].
  - exists (Some q), a2. split; [done|]. split; [apply Hc2|]. split; [congruence|]. cbn [array_ok]. rewrite length_app. cbn [length].
    split; [lia|]. pose proof (Forall_inv (cl_live _ _ _ Hc2)) as Hx.
    replace ((Z.of_nat (length params + 1) + 1) * 8) with ((Z.of_nat (length params) + 2) * 8) by lia. exact Hx.
  - destruct ok; [|by destruct (not_refused alloc alloc_max a1 (op_size (OStrdup (query_text k v))) Hd1 ltac:(cbn; lia) (Hok eq_refl))].
    pose proof (Forall2_length _ _ _ (cl_holds _ _ _ Hc2)) as Hx. cbn in Hx. lia.
Qed.
Lemma query_loop_ok args arr params a :
  arena_wf a → default_block_size a = 4096 → array_ok a arr (Z.of_nat (length params)) → Z.of_nat (length params + length args) < 2 ^ 58 →
  Forall (λ kv, Z.of_nat (length (query_text kv.1 kv.2)) < 2 ^ 58) args →
  ∃ a', query_loop alloc args arr params a =
          Ret (match params ++ map (λ kv, query_text kv.1 kv.2) args with [] => None | l => Some l end, a') ∧
        arena_wf a' ∧ default_block_size a' = 4096.
Proof.
  intros Hw Hd Har Hn Hf. revert arr params a Hw Hd Har Hn. induction Hf as [|[k v] args Hkv _ IH]; intros arr params a Hw Hd Har Hn; cbn [query_loop map].
  - exists a. rewrite app_nil_r. split; [|done]. destruct arr; cbn in Har; destruct params; cbn [length] in Har; try lia; done.
  - destruct (query_step_ok k v arr params a Hw Hd Har ltac:(lia) Hkv) as (arr' & a1 & -> & Hw1 & Hd1 & Har1). cbn [mbind outcome_bind].
    destruct (IH arr' (params ++ [query_text k v]) a1 Hw1 Hd1 Har1) as (a2 & -> & H2); [rewrite length_app; cbn [length] in *; lia|].
    exists a2. split; [|done]. by rewrite <- app_assoc.
Qed.
(** The arena of an open connection is sound. *)
Definition conn_ok (n : nat) (t : mhd_thread) : Prop :=
  ∃ c a, mt_conns t !! n = Some c ∧ arena_view (mt_mem t) (mc_arena c) = Ret a ∧ arena_wf a ∧ default_block_size a = 4096.
Lemma collecting_ok n t started bytes : collecting n t started bytes → conn_ok n t.
Proof.
  intros (c & a & Hc & Hv & (Hd & _ & Hb) & _). exists c, a. split; [done|]. split; [done|]. split; [|done].
  destruct (mc_body c); [apply (cl_wf _ _ _ Hb)|apply (cl_wf _ _ _ (proj1 Hb))].
Qed.
Definition args_ok (args : list (cstr * option cstr)) : Prop :=
  Z.of_nat (length args) < 2 ^ 58 ∧ Forall (λ kv, Z.of_nat (length (query_text kv.1 kv.2)) < 2 ^ 58) args.
(** The parameters reach the handlers as they are in the address. *)
Lemma mhd_query_ok n args t :
  conn_ok n t → args_ok args →
  ∃ t', mhd_query alloc n args t = Ret (match map (λ kv, query_text kv.1 kv.2) args with [] => None | l => Some l end, t') ∧ conn_ok n t'.
Proof.
  intros (c & a & Hc & Hv & Hw & Hd) [Ha1 Ha2]. unfold mhd_query. rewrite Hc.
  destruct (query_loop_ok args None [] a Hw Hd eq_refl Ha1 Ha2) as (a' & Hq & Hw' & Hd'). cbn [app] in Hq.
  destruct (on_arena_run _ _ _ _ _ _ Hv Hq Hw' Hd') as (m & r & -> & Hv'). cbn [mbind outcome_bind]. eexists. split; [reflexivity|].
  eexists _, a'. unfold set_conn. cbn [mt_conns mt_mem]. by rewrite lookup_insert_eq.
Qed.
Lemma mhd_alloc_ok n size t : conn_ok n t → 0 < size < 2 ^ 58 → ∃ t', mhd_alloc alloc n size t = Ret (true, t') ∧ conn_ok n t'.
Proof.
  intros (c & a & Hc & Hv & Hw & Hd) Hs. unfold mhd_alloc. rewrite Hc.
  destruct (client_alloc alloc (λ n, proj1 (alloc_max n)) a [] [] size) as (r & a1 & Hr & Hd1 & Hc1); [|unfold SIZE_LIMIT; lia|].
  { split; [done|constructor|done|constructor]. }
  destruct r as [q|]; [|by destruct Hc1 as [_ Hx]; destruct (not_refused alloc alloc_max a size Hd ltac:(lia) Hx)].
  destruct (on_arena_run _ _ _ _ _ _ Hv Hr (cl_wf _ _ _ Hc1) ltac:(congruence)) as (m & ar & -> & Hv'). cbn [mbind outcome_bind].
  eexists. split; [reflexivity|]. eexists _, a1. unfold set_conn. cbn [mt_conns mt_mem]. rewrite lookup_insert_eq.
  split; [done|]. split; [done|]. split; [apply (cl_wf _ _ _ Hc1)|congruence].
Qed.
End Parameters.

(* ------------------------------------------------------------------ *)
(** ** Requests *)

Section Requests.
Context (alloc : Z → bool) (alloc_max : ∀ n, alloc n = true ↔ n < 2 ^ 63).
Context {S C : Type} `{Crypto, InsituReader, JsonReader, Sha256, RsaKeys}.
Context (open_store : option cstr → S) (cx_for : option cstr → request_env → sso_context S)
        (routes_for : option cstr → request_env → list (route_t S C)).
Notation serve := (mhd_access_handler open_store cx_for routes_for alloc).

(** C9. Without a token, a path behind the middleware is answered 401: the
    connection is answered once its body is in, the parameters and the
    caller's record find memory, and no context, risk table or audit log
    has changed. *)
Theorem mhd_no_token lib cfg env tenv id v n t started bytes sv :
  collecting n t started bytes → args_ok (mv_args v) → mhd_auth_token v = [] → (∀ n, e_alloc env n = true) → ml_creates lib = true →
  healthy_tenant tenv → server_wf cfg sv → parse_method (mv_method v) ≠ HTTP_OPTIONS →
  (∀ storage, ∃ r, List.find (λ r, match_route (rt_pattern r) (sso_strlcpy (Some (mv_url v)) 1024))
                     (method_routes (routes_for storage env) (parse_method (mv_method v))) = Some r ∧ rt_require_auth r = true) →
  ∃ m t' sv', serve lib cfg env tenv id v n t sv = Ret (if ml_queues lib m then Some m else None, t', sv') ∧
    mr_status m = 401 ∧ mr_body m = error_body "Authentication failed" ∧
    sv_main sv' = sv_main sv ∧ sv_tenants sv `prefix_of` sv_tenants sv' ∧ sv_risk sv' = sv_risk sv ∧ sv_audit sv' = sv_audit sv.
Proof.
  intros Hc Hargs Ht Halloc Hlib Hten Hsv Hm Hroute. unfold mhd_access_handler.
  destruct (enter_tenant_spec open_store tenv cfg (header_field v "Host" 256) _ Hten Hsv) as (k & sv1 & He & _ & Hk).
  assert (Hkeep : sv_main sv1 = sv_main sv ∧ sv_tenants sv `prefix_of` sv_tenants sv1 ∧ sv_risk sv1 = sv_risk sv ∧ sv_audit sv1 = sv_audit sv).
  { unfold enter_tenant in He. apply outcome_bind_inv in He as ([c' reg] & _ & E). injection E as _ <-. split_and!; try done. by eexists. }
  rewrite He. cbn [mbind outcome_bind]. clear He. rewrite (body_collected n t started bytes Hc). cbn [mbind outcome_bind].
  destruct (mhd_query_ok alloc alloc_max n (mv_args v) t (collecting_ok _ _ _ _ Hc) Hargs) as (t1 & -> & Ht1). cbn [mbind outcome_bind].
  set (req := mhd_request v _). set (ctx := context_at sv1 k). set (body := if started then _ else _).
  change (rq_method req) with (parse_method (mv_method v)). rewrite bool_decide_eq_false_2 by done.
  rewrite (match_route_found _ req (parse_method (mv_method v)) (sso_strlcpy (Some (mv_url v)) 1024)) by done.
  destruct (Hroute (k_storage ctx)) as (r & Hr & Hra). rewrite Hr, Hra.
  destruct (mhd_alloc_ok alloc alloc_max n sizeof_auth_context t1 Ht1) as (t2 & -> & _); [unfold sizeof_auth_context; lia|]. cbn [mbind outcome_bind].
  set (resp := sso_response_error env 401 "Authentication failed" (init_response req)).
  assert (Hh : handle_client (cx_for (k_storage ctx) env) (with_auth_alloc true env) (routes_for (k_storage ctx) env) false req (enter sv1 ctx body) =
               Ret (resp, enter sv1 ctx body)).
  { unfold handle_client. change (rq_method req) with (parse_method (mv_method v)). rewrite bool_decide_eq_false_2 by done.
    rewrite (match_route_found _ req (parse_method (mv_method v)) (sso_strlcpy (Some (mv_url v)) 1024)) by done. rewrite Hr, Hra.
    cbn [andb negb]. change (e_arena (with_auth_alloc true env) sizeof_auth_context) with true. cbn [negb].
    unfold authenticate_request. change (rq_auth_token req) with (mhd_auth_token v). rewrite Ht. done. }
  rewrite Hh. cbn [mbind outcome_bind].
  assert (Hd : docs_body (rt_pattern r) resp = false) by (unfold docs_body; cbn [resp sso_response_error rs_status_code]; by rewrite andb_false_r).
  rewrite Hd. unfold mhd_send. replace (match rs_body resp with Some _ | _ => _ end) with
    (if negb (ml_creates lib) then match rs_body resp with Some _ => Crash | None => Ret None end
     else let m := {| mr_status := rs_status_code resp;
                      mr_headers := filter (λ h, ml_header lib h.1 h.2 = true) (mhd_headers (tls_enabled (c_security cfg)) (ml_strdup lib) resp id);
                      mr_body := default [] (rs_body resp) |} in Ret (if ml_queues lib m then Some m else None)) by (by destruct (rs_body resp)).
  rewrite Hlib. cbn [negb]. cbv zeta. cbn [mbind outcome_bind]. pose proof (leave_enter sv1 k body Hk) as Hle. fold ctx in Hle. rewrite Hle.
  eexists _, t2, sv1. split; [reflexivity|].
  split; [done|]. split; [|done]. cbn [mr_body]. unfold resp, sso_response_error, strdup. cbn [rs_body]. by rewrite Halloc.
Qed.
End Requests.

(** malloc of a machine with memory. *)
Definition plenty (n : Z) : bool := n <? 2 ^ 63.
Lemma plenty_max n : plenty n = true ↔ n < 2 ^ 63.
Proof. apply Z.ltb_lt. Qed.
Lemma new_thread_ok : thread_ok new_mhd_thread.
Proof. by intros r. Qed.
Definition bytes_of_text (s : string) : list Z := map ord (list_ascii_of_string s).
Lemma mhd_body_alone_witness :
  ∃ t', mhd_calls plenty (COpen 1 :: map (CUpload 1) [bytes_of_text "user"; bytes_of_text "name"]) new_mhd_thread = Ret t' ∧
    mhd_body 1 t' = Ret (Some (map chr (concat [bytes_of_text "user"; bytes_of_text "name"]))) ∧
    ∃ t'', mhd_calls plenty [CCompleted 1] t' = Ret t'' ∧ thread_ok t''.
Proof. apply (mhd_body_alone plenty plenty_max 1 [bytes_of_text "user"; bytes_of_text "name"] new_mhd_thread new_thread_ok). vm_compute. reflexivity. Defined.

(** Calls of three connections on one thread: the second one is still
    sending when the first is done, and the third is given the memory
    that holds the second one's body. *)
Definition mixed_calls : list mhd_call :=
  [COpen 0; CUpload 0 (bytes_of_text "warm up"); CCompleted 0;
   COpen 1; COpen 2; CUpload 1 (bytes_of_text "a"); CUpload 2 (bytes_of_text "role_id=1&user_id=7"); CCompleted 1;
   COpen 3; CUpload 3 (bytes_of_text "comment=nothing.role_id=9&user_id=8")].
Definition mixed_body : outcome (option (list ascii)) := t ← mhd_calls plenty mixed_calls new_mhd_thread; mhd_body 2 t.
Theorem mhd_bodies_mixed : mixed_body = Ret (Some ("role_id=9&user_id=8" : list ascii)).
Proof. vm_compute. reflexivity. Qed.

(** The same with a body that has a block of its own: it is freed under
    the connection that is still sending. *)
Definition freed_calls : list mhd_call :=
  [COpen 0; CUpload 0 (bytes_of_text "warm up"); CCompleted 0;
   COpen 1; COpen 2; CUpload 1 (bytes_of_text "a"); CUpload 2 (replicate (Z.to_nat 5000) 65); CCompleted 1].
Theorem mhd_body_freed : (t ← mhd_calls plenty freed_calls new_mhd_thread; mhd_body 2 t) = Crash.
Proof. vm_compute. reflexivity. Qed.

(* ------------------------------------------------------------------ *)
(** ** Documentation *)

Section Docs.
Context (alloc : Z → bool) (alloc_max : ∀ n, alloc n = true ↔ n < 2 ^ 63).
Context {S C : Type} `{Crypto, InsituReader, JsonReader, Sha256, RsaKeys}.
Context (open_store : option cstr → S) (cx_for : option cstr → request_env → sso_context S) (pm : process_metrics)
        (acfg : option audit_settings) (file : cstr → option (list ascii)) (left_over : Z)
        (other : string → http_request_t → http_response_t → handler S C (sso_error_t * http_response_t)).
Notation page_routes := (λ storage env, sso_routes (page_impl (cx_for storage env) env pm acfg file left_over other)).

(** The page of the documentation, which is public, is answered from the
    arena of the request: the server gives that memory to [free]. *)
Theorem mhd_docs_crash lib cfg env tenv id v n t started bytes sv page :
  collecting n t started bytes → args_ok (mv_args v) → mv_method v = ("GET" : cstr) → mv_url v = ("/api/v1/docs" : cstr) →
  file "docs/swagger-ui.html" = Some page → (∀ n, e_arena env n = true) → healthy_tenant tenv → server_wf cfg sv →
  mhd_access_handler open_store cx_for page_routes alloc lib cfg env tenv id v n t sv = Crash.
Proof.
  intros Hc Hargs Hm Hu Hf Ha Hten Hsv. unfold mhd_access_handler.
  destruct (enter_tenant_spec open_store tenv cfg (header_field v "Host" 256) _ Hten Hsv) as (k & sv1 & -> & _). cbn [mbind outcome_bind].
  rewrite (body_collected n t started bytes Hc). cbn [mbind outcome_bind].
  destruct (mhd_query_ok alloc alloc_max n (mv_args v) t (collecting_ok _ _ _ _ Hc) Hargs) as (t1 & -> & Ht1). cbn [mbind outcome_bind].
  set (req := mhd_request v _). set (ctx := context_at sv1 k). set (body := if started then _ else _).
  assert (Hmeth : rq_method req = HTTP_GET) by (cbn [req mhd_request rq_method]; by rewrite Hm).
  assert (Hpath : rq_path req = ("/api/v1/docs" : cstr)) by (cbn [req mhd_request rq_path]; by rewrite Hu).
  rewrite Hmeth. rewrite bool_decide_eq_false_2 by done. set (impl := page_impl _ _ _ _ _ _ _).
  assert (Hr : find_route (sso_routes impl) req = Some {| rt_pattern := "/api/v1/docs"; rt_method := HTTP_GET; rt_require_auth := false; rt_handler := impl "handle_swagger_ui"%string |}).
  { rewrite (match_route_found _ req HTTP_GET "/api/v1/docs") by done. vm_compute. reflexivity. }
  rewrite Hr. cbn [rt_require_auth mbind outcome_bind].
  assert (Hh : ∃ resp, handle_client (cx_for (k_storage ctx) env) (with_auth_alloc true env) (sso_routes impl) false req (enter sv1 ctx body) =
     Ret (resp, enter sv1 ctx body) ∧ rs_body resp = Some page ∧ rs_status_code resp = 200).
  { unfold handle_client. rewrite Hmeth, bool_decide_eq_false_2 by done. rewrite Hr. cbn [rt_require_auth andb].
    unfold run_route. cbn [rt_handler]. unfold impl, page_impl.
    repeat (match goal with |- context [if String.eqb ?a ?b then _ else _] => let e := eval vm_compute in (String.eqb a b) in change (String.eqb a b) with e end; cbn iota).
    unfold handle_swagger_ui, serve_file. rewrite Hf, Ha. cbn [negb fst]. eexists. split; [reflexivity|]. done. }
  destruct Hh as (resp & -> & Hb & Hst). cbn [mbind outcome_bind rt_pattern].
  assert (Hd : docs_body "/api/v1/docs" resp = true) by (unfold docs_body; rewrite Hst; reflexivity). rewrite Hd. unfold mhd_send. by rewrite Hb.
Qed.
End Docs.

(* ------------------------------------------------------------------ *)
(** ** Proofs of possession *)

(** The request has no text of its method, so the only proofs of
    possession that are accepted name an empty method. *)
Theorem mhd_proofs_without_method {S C} `{Crypto, JsonReader, Sha256, RsaKeys} env v params jkt out (s s' : sso_state S C) :
  (∀ n, e_alloc env n = true) → dpop_verify env (mhd_request v params) jkt s = Ret ((SSO_OK, out), s') →
  ∃ h p sg pld, header_field v "DPoP" 8192 = h ++ "."%char :: p ++ "."%char :: sg ∧
    yyjson_read (map chr (base64url_decode p (length p))) = Some pld ∧ as_str (yyjson_obj_get (Some pld) "htm") = Some [].
Proof.
  intros Ha Hv. unfold dpop_verify, lift in Hv. apply outcome_bind_inv in Hv as (r & Hv & E). injection E as -> ->.
  apply dpop_accepts_iff in Hv as (h & p & sg & hdr & pld & n & e & Hp & _ & _ & _ & _ & _ & Hj & _ & (htm & _ & _ & _ & Hm & Hl & _) & _); [|done].
  exists h, p, sg, pld. split; [exact Hp|]. split; [done|]. cbn [mhd_request rq_method_str map] in Hl. destruct htm; [done|discriminate].
Qed.

(* ------------------------------------------------------------------ *)
(** ** Headers of an answer *)

Definition pair_line (kv : cstr * cstr) : cstr := kv.1 ++ ":"%char :: " "%char :: kv.2.
Definition pair_ok (kv : cstr * cstr) : Prop := clean kv.1 ∧ clean kv.2 ∧ ":"%char ∉ kv.1 ∧ head kv.2 ≠ Some " "%char.
(** The headers a handler writes as text are added one by one. *)
Lemma header_pair_line kv : pair_ok kv → header_pair (pair_line kv ++ [CR]) = Some kv.
Proof.
  destruct kv as [k v]. intros (Hk & Hv & Hc & Hb). cbn [fst snd] in *. unfold header_pair.
  assert (Hcl : clean (pair_line (k, v))).
  { unfold pair_line. cbn [fst snd]. apply clean_app. split; [done|]. apply Forall_cons_2; [done|]. by apply Forall_cons_2. }
  rewrite take_while_app.
  - cbn [take_while]. rewrite Ascii.eqb_refl. cbn [negb]. rewrite app_nil_r. unfold pair_line. cbn [fst snd]. rewrite strchr_app by done.
    rewrite take_app_length. do 2 f_equal. rewrite drop_app_ge by lia. replace (Datatypes.S (length k) - length k)%nat with 1%nat by lia. cbn [drop].
    change (skip_while is_blank (" "%char :: v)) with (skip_while is_blank v). destruct v as [|c v]; [done|]. cbn [skip_while]. unfold is_blank.
    destruct (Ascii.eqb c " ") eqn:E; [|done]. apply Ascii.eqb_eq in E. subst c. done.
  - eapply Forall_impl; [exact (clean_no_crlf _ Hcl)|]. intros c [Hcr _]. cbv beta. destruct (Ascii.eqb c CR) eqn:E; [|done]. by apply Ascii.eqb_eq in E.
Qed.
Lemma extra_headers_added hs : Forall pair_ok hs → apply_extra_headers true (crlf_lines (map pair_line hs)) = hs.
Proof.
  intros Hs. unfold apply_extra_headers.
  assert (He : omap header_pair (split_on (chr 10) (crlf_lines (map pair_line hs))) = hs).
  { induction Hs as [|kv rest Hkv _ IH]; [done|]. unfold crlf_lines. cbn [map concat]. change [CR; LF] with ([CR] ++ [LF]). rewrite app_assoc, <- app_assoc. cbn [app].
    rewrite (split_on_app (chr 10)).
    - cbn [omap list_omap]. rewrite header_pair_line by done. f_equal. exact IH.
    - destruct Hkv as (Hk & Hv & _). intros Hin. apply elem_of_app in Hin as [Hin|Hin]; [|by apply list_elem_of_singleton in Hin].
      unfold pair_line in Hin. apply elem_of_app in Hin as [Hin|Hin].
      + pose proof (proj1 (Forall_forall _ _) (clean_no_crlf _ Hk) _ Hin) as [_ Hx]. by apply Hx.
      + apply elem_of_cons in Hin as [Hin|Hin]; [discriminate|]. apply elem_of_cons in Hin as [Hin|Hin]; [discriminate|].
        pose proof (proj1 (Forall_forall _ _) (clean_no_crlf _ Hv) _ Hin) as [_ Hx]. by apply Hx. }
  by destruct (crlf_lines (map pair_line hs)).
Qed.

(* ------------------------------------------------------------------ *)
(** ** Stopping *)

(** The wait ends after at most five hundred looks: at the first one that
    finds no connection, or at the last. *)
Lemma drain_loop_spec fuel active i :
  ∃ j, drain_loop fuel active i (10 * Z.of_nat fuel) = Some j ∧ (i ≤ j ≤ i + fuel)%nat ∧ (active j ≤ 0 ∨ j = (i + fuel)%nat) ∧
       ∀ k, (i ≤ k < j)%nat → 0 < active k.
Proof.
  revert i. induction fuel as [|fuel IH]; intros i; cbn [drain_loop].
  - destruct (0 <? active i) eqn:E; cbn [andb]; [|exists i; split; [done|]; split; [lia|]; split; [left; reflect_bools; lia|lia]].
    exists i. split; [done|]. split; [lia|]. split; [right; lia|lia].
  - destruct (0 <? active i) eqn:E; cbn [andb]; [|exists i; split; [done|]; split; [lia|]; split; [left; reflect_bools; lia|lia]].
    rewrite (proj2 (Z.ltb_lt 0 _)) by lia. replace (10 * Z.of_nat (Datatypes.S fuel) - 10) with (10 * Z.of_nat fuel) by lia.
    destruct (IH (Datatypes.S i)) as (j & Hj & Hr & Hz & Hk). exists j. split; [done|]. split; [lia|]. split; [destruct Hz; [by left|right; lia]|].
    intros k Hik. destruct (decide (k = i)) as [->|]; [reflect_bools; lia|]. apply Hk. lia.
Qed.
Theorem mhd_drain_ends active :
  ∃ j, mhd_drain active = Some j ∧ (j ≤ 500)%nat ∧ (active j ≤ 0 ∨ j = 500%nat) ∧ ∀ k, (k < j)%nat → 0 < active k.
Proof. destruct (drain_loop_spec 500 active 0) as (j & Hj & Hr & Hz & Hk). exists j. split; [done|]. split; [lia|]. split; [done|]. intros k Hlt. apply Hk. lia. Qed.

(* ------------------------------------------------------------------ *)
(** ** A server that runs *)

Import Toy.
Definition users_values : mhd_values :=
  {| mv_url := "/api/v1/users"; mv_method := "GET"; mv_headers := [("host" : cstr, "acme.example.com" : cstr)];
     mv_args := [("page" : cstr, Some ("1" : cstr)); ("q" : cstr, None)]; mv_address := Some ("10.0.0.9" : cstr) |}.
Definition willing : mhd_lib := {| ml_creates := true; ml_header := λ _ _, true; ml_strdup := true; ml_queues := λ _, true |}.
Definition users_open : mhd_thread := (mhd_open true 1 new_mhd_thread).2.
Lemma users_args : args_ok (mv_args users_values).
Proof. split; [vm_compute; reflexivity|]. repeat constructor. Qed.
Lemma toy_server_wf : server_wf toy_config toy_server.
Proof. split; [|reflexivity]. split; [constructor|apply Nat.le_0_l|constructor|constructor]. Qed.
Lemma tenant_ok_healthy : healthy_tenant tenant_ok.
Proof. split_and!; [reflexivity|reflexivity|exact boot_ok_healthy]. Qed.
Lemma mhd_no_token_witness :
  ∃ m t' sv', mhd_access_handler (λ _, mem_open) toy_cx toy_routes plenty willing toy_config (env_at 0) tenant_ok "id" users_values 1 users_open toy_server =
    Ret (Some m, t', sv') ∧ mr_status m = 401 ∧ mr_body m = error_body "Authentication failed" ∧ sv_main sv' = sv_main toy_server.
Proof.
  destruct (mhd_no_token plenty plenty_max (λ _, mem_open) toy_cx toy_routes willing toy_config (env_at 0) tenant_ok "id" users_values 1
              users_open false [] toy_server (open_collects 1 new_mhd_thread new_thread_ok) users_args eq_refl (λ _, eq_refl) eq_refl
              tenant_ok_healthy toy_server_wf) as (m & t' & sv' & H1 & H2 & H3 & H4 & _).
  - discriminate.
  - exact users_route.
  - exists m, t', sv'. split; [exact H1|]. split; [exact H2|]. split; [exact H3|exact H4].
Defined.

Definition docs_values : mhd_values :=
  {| mv_url := "/api/v1/docs"; mv_method := "GET"; mv_headers := []; mv_args := []; mv_address := None |}.
Definition no_counters : process_metrics :=
  {| active_connections := 0; mfa_success := 0; mfa_failure := 0; jwt_issue := 0; jwt_revoke := 0; db_read_count := 0; db_read_duration_us := 0;
     db_write_count := 0; db_write_duration_us := 0; arena_blocks := 0 |}.
Lemma mhd_docs_crash_witness :
  mhd_access_handler (λ _, mem_open) toy_cx
    (λ storage env, sso_routes (page_impl (toy_cx storage env) env no_counters None (λ _, Some ("<html>" : list ascii)) 0 missing))
    plenty willing toy_config (env_at 0) tenant_ok "id" docs_values 1 users_open toy_server = Crash.
Proof.
  apply (mhd_docs_crash plenty plenty_max (λ _, mem_open) toy_cx no_counters None (λ _, Some ("<html>" : list ascii)) 0 missing willing toy_config
           (env_at 0) tenant_ok "id" docs_values 1 users_open false [] toy_server "<html>" (open_collects 1 new_mhd_thread new_thread_ok)).
  - split; [reflexivity|constructor].
  - reflexivity.
  - reflexivity.
  - reflexivity.
  - reflexivity.
  - exact tenant_ok_healthy.
  - exact toy_server_wf.
Defined.
