(* ===== verification/Logger.v ===== *)
(** * The logger (logger.c, logger.h)

    The settings are process wide, the request id belongs to a thread.
    [log_write] is the text it appends to its file; the message is given
    as the text its format makes, the local time as the fields of
    [struct tm], and the messages of [strerror] are a parameter. *)

From S2P Require Import Prelude CLib CNum Bits Base64 TokenState Token Printf.

(** [log_level_t] and [log_format_t]: the settings cast any number to them. *)
Definition LOG_DEBUG : Z := 0.
Definition LOG_INFO : Z := 1.
Definition LOG_WARN : Z := 2.
Definition LOG_ERROR : Z := 3.
Definition LOG_FORMAT_TEXT : Z := 0.
Definition LOG_FORMAT_JSON : Z := 1.

(** [g_level], [g_fp] (a number for the file, [None] for stderr),
    [g_format] and [t_request_id]. *)
Record logger := { g_level : Z; g_fp : option nat; g_format : Z; t_request_id : cstr }.
Definition logger_init : logger := {| g_level := LOG_INFO; g_fp := None; g_format := LOG_FORMAT_TEXT; t_request_id := [] |}.

Definition log_set_request_id (req_id : option cstr) (g : logger) : logger :=
  {| g_level := g_level g; g_fp := g_fp g; g_format := g_format g;
     t_request_id := match req_id with Some s => take 63 s | None => [] end |}.
Definition log_set_level (level : Z) (g : logger) : logger :=
  {| g_level := level; g_fp := g_fp g; g_format := g_format g; t_request_id := t_request_id g |}.
Definition log_set_format (fmt : Z) (g : logger) : logger :=
  {| g_level := g_level g; g_fp := g_fp g; g_format := fmt; t_request_id := t_request_id g |}.
Definition log_set_file (fp : option nat) (g : logger) : logger :=
  {| g_level := g_level g; g_fp := fp; g_format := g_format g; t_request_id := t_request_id g |}.

Definition level_name (l : Z) : cstr :=
  if l =? LOG_DEBUG then "DEBUG" else if l =? LOG_INFO then "INFO"
  else if l =? LOG_WARN then "WARN" else if l =? LOG_ERROR then "ERROR" else "?".

(** The text a character becomes: the arms of the switch. *)
Definition json_escape_char (c : ascii) : cstr :=
  let n := ord c in
  if n =? 34 then backslash QUOTE
  else if n =? 92 then backslash "\"
  else if n =? 8 then backslash "b"
  else if n =? 12 then backslash "f"
  else if n =? 10 then backslash "n"
  else if n =? 13 then backslash "r"
  else if n =? 9 then backslash "t"
  else if (32 <=? n) && (n <? 127) then [c]
  else backslash "u" ++ zero_pad 4 (print_hex n).

(** The loop goes on while seven places are left; each arm looks again
    whether its text fits. *)
Fixpoint json_escape_loop (dst_size j : nat) (src : cstr) : cstr :=
  match src with
  | [] => []
  | c :: src' =>
      if (j + 6 <? dst_size)%nat then
        let t := json_escape_char c in
        if (j + length t <? dst_size)%nat then t ++ json_escape_loop dst_size (j + length t) src'
        else json_escape_loop dst_size j src'
      else []
  end.
Definition json_escape (src : cstr) (dst_size : nat) : cstr := json_escape_loop dst_size 0 src.

(** [struct tm], and [strftime] with "%Y-%m-%d %H:%M:%S" *)
Record tm := { tm_year : Z; tm_mon : Z; tm_mday : Z; tm_hour : Z; tm_min : Z; tm_sec : Z }.
Definition two (n : Z) : cstr := zero_pad 2 (print_dec n).
Definition timebuf (t : tm) : cstr :=
  print_d (1900 + tm_year t) ++ ("-" : cstr) ++ two (tm_mon t + 1) ++ ("-" : cstr) ++ two (tm_mday t) ++
  (" " : cstr) ++ two (tm_hour t) ++ (":" : cstr) ++ two (tm_min t) ++ (":" : cstr) ++ two (tm_sec t).

Definition NL : ascii := chr 10.

Section write.
Context (strerror : Z → cstr).

(** What follows the message when an error number was saved *)
Definition json_errno (level saved_errno : Z) : cstr :=
  if negb (saved_errno =? 0) && (LOG_WARN <=? level)
  then ","%char :: member "errno" (print_d saved_errno) ++ ","%char :: member "errno_str" (quoted_text (strerror saved_errno))
  else [].
Definition text_errno (level saved_errno : Z) : cstr :=
  if negb (saved_errno =? 0) && (LOG_WARN <=? level)
  then (" (errno=" : cstr) ++ print_d saved_errno ++ (": " : cstr) ++ strerror saved_errno ++ (")" : cstr)
  else [].

Definition json_head (g : logger) (t : tm) (level : Z) : list cstr :=
  member "timestamp" (quoted_text (timebuf t)) ::
  (if bool_decide (t_request_id g = []) then []
   else [member "request_id" (quoted_text (json_escape (t_request_id g) 128))]) ++
  [member "level" (quoted_text (level_name level))].

(** [raw_ok] and [esc_ok] are the two allocations; [message] is the text
    of the format and its arguments. *)
Definition log_write_json (raw_ok esc_ok : bool) (g : logger) (t : tm) (level : Z) (file : cstr) (line saved_errno : Z)
    (message : cstr) : cstr :=
  if negb raw_ok || negb esc_ok then
    object [member "timestamp" (quoted_text (timebuf t)); member "level" (quoted_text (level_name level));
            member "file" (quoted_text file); member "line" (print_d line);
            member "message" (quoted_text "out of memory")] ++ [NL]
  else
    "{"%char :: commas (json_head g t level ++
       [member "file" (quoted_text (json_escape file 512)); member "line" (print_d line);
        member "message" (quoted_text (json_escape (snprintf 4096 message) 8192))]) ++
    json_errno level saved_errno ++ ("}" : cstr) ++ [NL].

Definition bracketed (s : cstr) : cstr := ("[" : cstr) ++ s ++ ("] " : cstr).
Definition text_head (g : logger) (t : tm) (level : Z) (file : cstr) (line : Z) : cstr :=
  bracketed (timebuf t) ++ (if bool_decide (t_request_id g = []) then [] else bracketed (t_request_id g)) ++
  bracketed (level_name level) ++ bracketed (file ++ (":" : cstr) ++ print_d line).
Definition log_write_text (g : logger) (t : tm) (level : Z) (file : cstr) (line saved_errno : Z) (message : cstr) : cstr :=
  text_head g t level file line ++ message ++ text_errno level saved_errno ++ [NL].

(** The file written to and the text appended to it; [None] where the
    level is too low. *)
Definition log_write (raw_ok esc_ok : bool) (g : logger) (t : tm) (level : Z) (file : cstr) (line saved_errno : Z)
    (message : cstr) : option (option nat * cstr) :=
  if level <? g_level g then None
  else Some (g_fp g, if g_format g =? LOG_FORMAT_JSON
                     then log_write_json raw_ok esc_ok g t level file line saved_errno message
                     else log_write_text g t level file line saved_errno message).
End write.

(* ------------------------------------------------------------------ *)
(** ** What a JSON reader makes of an escaped text

    The characters of the inside of a JSON string (RFC 8259, section 7):
    no quote and no control character stands for itself. *)
Definition json_short (e : ascii) : option Z :=
  if Ascii.eqb e QUOTE then Some 34 else if Ascii.eqb e "\" then Some 92 else if Ascii.eqb e "/" then Some 47
  else if Ascii.eqb e "b" then Some 8 else if Ascii.eqb e "f" then Some 12 else if Ascii.eqb e "n" then Some 10
  else if Ascii.eqb e "r" then Some 13 else if Ascii.eqb e "t" then Some 9 else None.
Definition hex4 (a b c d : ascii) : option Z :=
  if is_xdigit a && is_xdigit b && is_xdigit c && is_xdigit d then Some (hex_digits_val [a; b; c; d]) else None.
Fixpoint json_chars (s : cstr) : option (list Z) :=
  match s with
  | [] => Some []
  | c :: s' =>
      if Ascii.eqb c "\" then
        match s' with
        | [] => None
        | e :: r =>
            if Ascii.eqb e "u" then
              match r with
              | a :: b :: c' :: d :: r' => match hex4 a b c' d with Some n => cons n <$> json_chars r' | None => None end
              | _ => None
              end
            else match json_short e with Some n => cons n <$> json_chars r | None => None end
        end
      else if Ascii.eqb c QUOTE || (ord c <? 32) then None
      else cons (ord c) <$> json_chars s'
  end.

(* ------------------------------------------------------------------ *)
(** ** Escaping *)

Lemma json_escape_char_length c : (1 ≤ length (json_escape_char c) ≤ 6)%nat.
Proof. destruct c as [[] [] [] [] [] [] [] []]; vm_compute; lia. Qed.

Lemma json_escape_char_decodes c r : json_chars (json_escape_char c ++ r) = cons (ord c) <$> json_chars r.
Proof. destruct c as [[] [] [] [] [] [] [] []]; reflexivity. Qed.

Lemma json_escape_char_plain c : Forall (λ x, x ≠ NL) (json_escape_char c).
Proof. destruct c as [[] [] [] [] [] [] [] []]; vm_compute; repeat constructor; discriminate. Qed.

(** The escaped text and its NUL fit the buffer. *)
Lemma json_escape_loop_length n j s : (j < n)%nat → (j + length (json_escape_loop n j s) < n)%nat.
Proof.
  revert j. induction s as [|c s IH]; intros j Hj; cbn [json_escape_loop length]; [lia|].
  destruct (Nat.ltb_spec (j + 6) n); [|simpl; lia].
  destruct (Nat.ltb_spec (j + length (json_escape_char c)) n); [|by apply IH].
  rewrite length_app. specialize (IH (j + length (json_escape_char c))%nat). lia.
Qed.
Lemma json_escape_length s n : (0 < n)%nat → (length (json_escape s n) < n)%nat.
Proof. intros H. by apply (json_escape_loop_length n 0 s). Qed.

(** A JSON reader gets back a prefix of the bytes, and all of them where
    the buffer has six places for each. *)
Lemma json_escape_loop_decodes n j s :
  ∃ k, (k ≤ length s)%nat ∧ json_chars (json_escape_loop n j s) = Some (map ord (take k s)) ∧
    ((j + 6 * length s < n)%nat → k = length s).
Proof.
  revert j. induction s as [|c s IH]; intros j; cbn [json_escape_loop].
  { exists O. split_and!; [simpl; lia|done|done]. }
  pose proof (json_escape_char_length c) as Hc.
  destruct (Nat.ltb_spec (j + 6) n) as [Hn|Hn].
  - destruct (Nat.ltb_spec (j + length (json_escape_char c)) n); [|lia].
    destruct (IH (j + length (json_escape_char c))%nat) as (k & Hk & Hd & Hall).
    exists (S k). rewrite json_escape_char_decodes, Hd. split_and!; [simpl; lia|done|].
    simpl. intros. f_equal. apply Hall. lia.
  - exists O. split_and!; [lia|done|]. simpl. lia.
Qed.

(** A JSON reader gets the bytes of the text back as characters, cut
    where the buffer ends. *)
Lemma json_escape_decodes s n :
  ∃ k, (k ≤ length s)%nat ∧ json_chars (json_escape s n) = Some (map ord (take k s)) ∧
    ((6 * length s < n)%nat → k = length s).
Proof. apply json_escape_loop_decodes. Qed.

(* ------------------------------------------------------------------ *)
(** ** Lines *)

Definition one_line (s : cstr) : Prop := Forall (λ x, x ≠ NL) s.

Lemma one_line_app s t : one_line (s ++ t) ↔ one_line s ∧ one_line t.
Proof. apply Forall_app. Qed.
Lemma one_line_cons c s : one_line (c :: s) ↔ c ≠ NL ∧ one_line s.
Proof. unfold one_line. by rewrite Forall_cons. Qed.
Lemma one_line_take n s : one_line s → one_line (take n s).
Proof. apply Forall_take. Qed.

Lemma print_dec_one_line n : one_line (print_dec n).
Proof.
  unfold print_dec, print_base. generalize (S (Z.to_nat (Z.log2 n))). intros fuel.
  assert (H : ∀ fuel n acc, one_line acc → one_line (print_base_loop fuel 10 n acc)); [|by apply H; constructor].
  clear. induction fuel as [|fuel IH]; intros n acc Ha; cbn [print_base_loop]; [done|].
  assert (Hc : one_line (chr (if n mod 10 <? 10 then 48 + n mod 10 else 87 + n mod 10) :: acc)).
  { constructor; [|done]. intros E. apply (f_equal ord) in E. pose proof (Z.mod_pos_bound n 10 ltac:(lia)).
    destruct (Z.ltb_spec (n mod 10) 10); [|lia]. rewrite ord_chr in E by lia. change (ord NL) with 10 in E. lia. }
  destruct (n <? 10); [done|by apply IH].
Qed.
Lemma print_d_one_line n : one_line (print_d n).
Proof. unfold print_d, print_lld. destruct (n <? 0); [constructor; [done|]|]; apply print_dec_one_line. Qed.
Lemma two_one_line n : one_line (two n).
Proof. apply one_line_app. split; [by apply Forall_replicate|apply print_dec_one_line]. Qed.
Lemma timebuf_one_line t : one_line (timebuf t).
Proof.
  unfold timebuf. rewrite !one_line_app. split_and!; try apply two_one_line; try apply print_d_one_line; by repeat constructor.
Qed.
Lemma level_name_one_line l : one_line (level_name l).
Proof. unfold level_name. repeat case_match; by repeat constructor. Qed.
Lemma json_escape_one_line s n : one_line (json_escape s n).
Proof.
  unfold json_escape. generalize O. induction s as [|c s IH]; intros j; cbn [json_escape_loop]; [constructor|].
  destruct (_ <? _)%nat; [|constructor]. cbn zeta. destruct (_ <? _)%nat; [|apply IH].
  apply one_line_app. split; [apply json_escape_char_plain|apply IH].
Qed.

Lemma quoted_text_one_line s : one_line s → one_line (quoted_text s).
Proof. intros H. apply one_line_cons. split; [done|]. apply one_line_app. split; [done|by repeat constructor]. Qed.
Lemma member_one_line (k : string) v : one_line k → one_line v → one_line (member k v).
Proof. intros Hk Hv. apply one_line_app. split; [by apply quoted_text_one_line|by constructor]. Qed.
Lemma commas_one_line l : Forall one_line l → one_line (commas l).
Proof.
  induction 1 as [|x l Hx Hl IH]; cbn [commas]; [constructor|]. destruct l; [done|].
  apply one_line_app. split; [done|by constructor].
Qed.
#[local] Hint Resolve print_d_one_line timebuf_one_line level_name_one_line json_escape_one_line quoted_text_one_line
  member_one_line commas_one_line : lines.

(** The members of an entry *)
Definition errno_members (strerror : Z → cstr) (level saved_errno : Z) : list cstr :=
  if negb (saved_errno =? 0) && (LOG_WARN <=? level)
  then [member "errno" (print_d saved_errno); member "errno_str" (quoted_text (strerror saved_errno))] else [].
Definition entry_members (strerror : Z → cstr) (g : logger) (t : tm) (level : Z) (file : cstr) (line saved_errno : Z) (message : cstr) : list cstr :=
  json_head g t level ++
  [member "file" (quoted_text (json_escape file 512)); member "line" (print_d line);
   member "message" (quoted_text (json_escape (snprintf 4096 message) 8192))] ++ errno_members strerror level saved_errno.

Lemma log_write_json_object strerror g t level file line saved_errno message :
  log_write_json strerror true true g t level file line saved_errno message =
  object (entry_members strerror g t level file line saved_errno message) ++ [NL].
Proof.
  unfold log_write_json, entry_members, errno_members, json_errno, object. cbn [negb orb].
  rewrite (app_assoc (json_head g t level)).
  set (l := json_head g t level ++ _).
  assert (Hl : l ≠ []) by done. clearbody l. destruct (negb (saved_errno =? 0) && (LOG_WARN <=? level)).
  - rewrite commas_app by done. cbn [commas]. by repeat (rewrite <- ?app_assoc; cbn [app list_ascii_of_string]).
  - rewrite app_nil_r. cbn [app]. by rewrite <- app_assoc.
Qed.

Lemma entry_members_one_line strerror g t level file line saved_errno message :
  one_line (strerror saved_errno) → Forall one_line (entry_members strerror g t level file line saved_errno message).
Proof.
  intros Hs. unfold entry_members, json_head, errno_members.
  rewrite <- app_comm_cons, Forall_cons, !Forall_app, !Forall_cons.
  repeat case_match; rewrite ?Forall_cons; split_and!; try apply Forall_nil_2;
    apply member_one_line; auto with lines; by repeat constructor.
Qed.

(** An entry in JSON is one line (functional): whatever bytes the
    message, the file name and the request id hold, an entry at or above
    the level is one object on one line, and a JSON reader gets the bytes
    of its message back, all of them up to 1365 bytes. *)
Theorem log_json_entry strerror g t level file line saved_errno message :
  g_level g ≤ level → g_format g = LOG_FORMAT_JSON → one_line (strerror saved_errno) →
  let body := object (entry_members strerror g t level file line saved_errno message) in
  log_write strerror true true g t level file line saved_errno message = Some (g_fp g, body ++ [NL]) ∧ one_line body ∧
  ∃ k, json_chars (json_escape (snprintf 4096 message) 8192) = Some (map ord (take k message)) ∧
    ((length message ≤ 1365)%nat → take k message = message).
Proof.
  intros Hl Hf Hs body. split_and!.
  - unfold log_write. destruct (Z.ltb_spec level (g_level g)); [lia|]. rewrite Hf. cbn [Z.eqb LOG_FORMAT_JSON Pos.eqb].
    by rewrite log_write_json_object.
  - apply one_line_cons. split; [done|]. apply one_line_app. split; [|by repeat constructor].
    apply commas_one_line, entry_members_one_line, Hs.
  - destruct (json_escape_decodes (snprintf 4096 message) 8192) as (k & Hk & Hd & Hall). unfold snprintf in *.
    exists (k `min` 4095)%nat. rewrite Hd, take_take. split; [done|]. intros Hm.
    assert (E : Z.of_nat 8192 = 8192) by reflexivity.
    rewrite length_take in *. rewrite Hall by lia. rewrite take_ge; [done|]. lia.
Qed.
Definition no_error (n : Z) : cstr := "Success".
Definition json_logger (request_id : cstr) : logger :=
  log_set_request_id (Some request_id) (log_set_format LOG_FORMAT_JSON logger_init).
Definition noon : tm := {| tm_year := 126; tm_mon := 0; tm_mday := 2; tm_hour := 12; tm_min := 0; tm_sec := 0 |}.
Lemma log_json_entry_witness :
  ∃ body, log_write no_error true true (json_logger "r1") noon LOG_WARN "a.c" 7 2 ("x" ++ [NL; QUOTE]) = Some (None, body ++ [NL]) ∧
    one_line body.
Proof.
  destruct (log_json_entry no_error (json_logger "r1") noon LOG_WARN "a.c" 7 2 ("x" ++ [NL; QUOTE])) as (H1 & H2 & _);
    [vm_compute; discriminate|done|by repeat constructor|].
  eexists. split; [exact H1|exact H2].
Defined.

(** Entries below the level leave no trace, and a level above LOG_ERROR
    cannot be set by the settings (0 to 3), so errors are always written. *)
Theorem log_errors_written strerror raw_ok esc_ok g t file line saved_errno message :
  g_level g ≤ 3 → ∃ text, log_write strerror raw_ok esc_ok g t LOG_ERROR file line saved_errno message = Some (g_fp g, text) ∧
    last text = Some NL.
Proof.
  intros H. unfold log_write, LOG_ERROR. destruct (Z.ltb_spec 3 (g_level g)); [lia|]. eexists. split; [done|].
  unfold log_write_json, log_write_text. repeat case_match; rewrite ?app_comm_cons, ?app_assoc; by apply last_snoc.
Qed.

(** In text the message is written as it is: a message with a line break
    makes one entry that reads as two, the second at a level and with a
    text of the sender's choice. *)
Theorem log_text_forged strerror raw_ok esc_ok g t level level' file line message message' :
  g_format g = LOG_FORMAT_TEXT → g_level g ≤ level → g_level g ≤ level' →
  ∃ a b,
    log_write strerror raw_ok esc_ok g t level file line 0 message = Some (g_fp g, a ++ [NL]) ∧
    log_write strerror raw_ok esc_ok g t level' file line 0 message' = Some (g_fp g, b ++ [NL]) ∧
    log_write strerror raw_ok esc_ok g t level file line 0 (message ++ NL :: b) = Some (g_fp g, (a ++ [NL]) ++ b ++ [NL]).
Proof.
  intros Hf Hl Hl'. unfold log_write. destruct (Z.ltb_spec level (g_level g)); [lia|].
  destruct (Z.ltb_spec level' (g_level g)); [lia|]. rewrite Hf. cbn [Z.eqb LOG_FORMAT_TEXT LOG_FORMAT_JSON].
  unfold log_write_text. cbn [text_errno Z.eqb negb andb app].
  exists (text_head g t level file line ++ message), (text_head g t level' file line ++ message').
  generalize (text_head g t level file line), (text_head g t level' file line). intros h h'.
  split_and!; do 2 f_equal; by repeat (rewrite <- ?app_assoc; cbn [app]).
Qed.
Lemma log_text_forged_witness :
  ∃ b, log_write no_error true true logger_init noon LOG_ERROR "a.c" 7 0 "admin logged in" = Some (None, b ++ [NL]) ∧
    ∃ a, log_write no_error true true logger_init noon LOG_INFO "a.c" 7 0 ("user " ++ NL :: b) = Some (None, a ++ b ++ [NL]).
Proof.
  destruct (log_text_forged no_error true true logger_init noon LOG_INFO LOG_ERROR "a.c" 7 "user " "admin logged in")
    as (a & b & _ & Hb & Hc); [done|done|done|].
  exists b. split; [exact Hb|]. exists (a ++ [NL]). exact Hc.
Defined.

(** Bytes outside ASCII become characters of their own: the two bytes of
    an accented letter in UTF-8 are read back as two letters. *)
Theorem log_json_not_utf8 : json_chars (json_escape [chr 195; chr 169] 8192) = Some [195; 169].
Proof. reflexivity. Qed.

(** A buffer of twice the length and one is not enough. *)
Theorem json_escape_cut : json_escape "abc" (2 * 3 + 1) = "a" ∧
  ∀ n, (0 < n ≤ 6)%nat → ∀ s, json_escape s n = [].
Proof.
  split; [done|]. intros n Hn [|c s]; [done|]. unfold json_escape. cbn [json_escape_loop].
  destruct (Nat.ltb_spec (0 + 6) n); [lia|done].
Qed.
