(* ===== verification/Otlp.v ===== *)
(** * Export of spans (otlp.c, otlp.h)

    Spans, the ring of ended spans, the payload of a batch, the thread
    that sends batches, and the context of a thread.  [rand] is a
    sequence of numbers and a count of the calls made; the clock is an
    argument; sending a payload with curl is the end of the model.

    The threads are steps of their critical sections: the test of
    [g_otlp_running] in [otlp_span_end] is made outside the mutex, so it
    is a step of its own before the one that fills the ring. *)

From S2P Require Import Prelude CLib CNum Bits Base64 TokenState Token Printf.

Definition OTLP_BATCH_SIZE : Z := 128.
Definition OTLP_MAX_QUEUE : Z := 1024.
Definition OTLP_MAX_SPAN_DEPTH : Z := 16.
Definition PAYLOAD : Z := 1024 * 1024.

Record otlp_span_t := {
  sp_trace_id : cstr; sp_span_id : cstr; sp_parent_id : cstr; sp_name : cstr;
  sp_start_time_ns : Z; sp_end_time_ns : Z; sp_kind : Z; sp_status_code : Z
}.
#[global] Instance otlp_span_eq_dec : EqDecision otlp_span_t.
Proof. solve_decision. Defined.

(** [memset(span, 0, sizeof)] *)
Definition zero_span : otlp_span_t :=
  {| sp_trace_id := []; sp_span_id := []; sp_parent_id := []; sp_name := [];
     sp_start_time_ns := 0; sp_end_time_ns := 0; sp_kind := 0; sp_status_code := 0 |}.

Definition get_time_ns (tv_sec tv_nsec : Z) : Z := u64 (u64 (tv_sec * 1000000000) + tv_nsec).

Definition hex : cstr := "0123456789abcdef".
Definition hex_at (i : Z) : ascii := nth (Z.to_nat i) hex NUL.

Section ids.
Context (rand : nat → Z).

Fixpoint generate_id_loop (bytes calls : nat) : cstr :=
  match bytes with
  | O => []
  | S bytes' =>
      let r := Z.rem (rand calls) 256 in
      hex_at (Z.land (Z.shiftr r 4) 15) :: hex_at (Z.land r 15) :: generate_id_loop bytes' (S calls)
  end.
Definition otlp_generate_id (bytes calls : nat) : cstr * nat := (generate_id_loop bytes calls, (calls + bytes)%nat).

(** A pointer that may be NULL and the first of its characters *)
Definition given (s : option cstr) : option cstr :=
  match s with Some (c :: t) => Some (c :: t) | _ => None end.

Definition otlp_span_start (name : cstr) (parent_trace_id parent_span_id : option cstr) (now : Z) (calls : nat) : otlp_span_t * nat :=
  let '(trace, calls) := match given parent_trace_id with
                         | Some p => (take 32 p, calls)
                         | None => otlp_generate_id 16 calls
                         end in
  let parent := match given parent_span_id with Some p => take 16 p | None => [] end in
  let '(id, calls) := otlp_generate_id 8 calls in
  ({| sp_trace_id := trace; sp_span_id := id; sp_parent_id := parent; sp_name := take 63 name;
      sp_start_time_ns := now; sp_end_time_ns := 0; sp_kind := 2; sp_status_code := 0 |}, calls).
End ids.

(* ------------------------------------------------------------------ *)
(** ** The ring *)

Record otlp_queue := {
  g_span_queue : list otlp_span_t; g_queue_head : Z; g_queue_tail : Z; g_queue_count : Z;
  g_otlp_running : bool; g_otlp_endpoint : cstr
}.
Definition otlp_queue_init : otlp_queue :=
  {| g_span_queue := replicate (Z.to_nat OTLP_MAX_QUEUE) zero_span; g_queue_head := 0; g_queue_tail := 0; g_queue_count := 0;
     g_otlp_running := false; g_otlp_endpoint := [] |}.

Definition span_ended (now : Z) (is_error : bool) (s : otlp_span_t) : otlp_span_t :=
  {| sp_trace_id := sp_trace_id s; sp_span_id := sp_span_id s; sp_parent_id := sp_parent_id s; sp_name := sp_name s;
     sp_start_time_ns := sp_start_time_ns s; sp_end_time_ns := now; sp_kind := sp_kind s;
     sp_status_code := if is_error then 2 else 1 |}.

(** The critical section of [otlp_span_end]; [false] is a dropped span. *)
Definition span_enqueue (s : otlp_span_t) (q : otlp_queue) : bool * otlp_queue :=
  if g_queue_count q <? OTLP_MAX_QUEUE then
    (true, {| g_span_queue := <[Z.to_nat (g_queue_tail q) := s]> (g_span_queue q); g_queue_head := g_queue_head q;
              g_queue_tail := (g_queue_tail q + 1) mod OTLP_MAX_QUEUE; g_queue_count := g_queue_count q + 1;
              g_otlp_running := g_otlp_running q; g_otlp_endpoint := g_otlp_endpoint q |})
  else (false, q).

Definition otlp_span_end (now : Z) (is_error : bool) (s : otlp_span_t) (q : otlp_queue) : otlp_span_t * otlp_queue :=
  let s := span_ended now is_error s in
  if negb (g_otlp_running q) then (s, q) else (s, (span_enqueue s q).2).

(** The inner loop of the worker *)
Fixpoint take_batch (room : nat) (q : otlp_queue) : list otlp_span_t * otlp_queue :=
  match room with
  | O => ([], q)
  | S room' =>
      if 0 <? g_queue_count q then
        let s := nth (Z.to_nat (g_queue_head q)) (g_span_queue q) zero_span in
        let '(batch, q') := take_batch room'
          {| g_span_queue := g_span_queue q; g_queue_head := (g_queue_head q + 1) mod OTLP_MAX_QUEUE;
             g_queue_tail := g_queue_tail q; g_queue_count := g_queue_count q - 1;
             g_otlp_running := g_otlp_running q; g_otlp_endpoint := g_otlp_endpoint q |} in
        (s :: batch, q')
      else ([], q)
  end.

Definition set_running (b : bool) (q : otlp_queue) : otlp_queue :=
  {| g_span_queue := g_span_queue q; g_queue_head := g_queue_head q; g_queue_tail := g_queue_tail q; g_queue_count := g_queue_count q;
     g_otlp_running := b; g_otlp_endpoint := g_otlp_endpoint q |}.
Definition set_endpoint (e : cstr) (q : otlp_queue) : otlp_queue :=
  {| g_span_queue := g_span_queue q; g_queue_head := g_queue_head q; g_queue_tail := g_queue_tail q; g_queue_count := g_queue_count q;
     g_otlp_running := g_otlp_running q; g_otlp_endpoint := take 255 e |}.

(* ------------------------------------------------------------------ *)
(** ** The payload of a batch

    [pos += snprintf(payload + pos, 1048576 - pos, ...)]: the text in the
    buffer and the count; past the end the size is negative and taken for
    a huge one. *)
Definition payload_put (t : cstr) (b : cstr * Z) : outcome (cstr * Z) :=
  let '(buf, pos) := b in
  if PAYLOAD <? pos then Crash
  else Ret (take (Z.to_nat pos) buf ++ take (Z.to_nat (PAYLOAD - pos - 1)) t, pos + Z.of_nat (length t)).

Definition payload_open : cstr :=
  "{"%char :: member "resourceSpans" (("[{" : cstr) ++ member "resource" (object [member "attributes" (
    ("[" : cstr) ++ object [member "key" (quoted_text "service.name");
                            member "value" (object [member "stringValue" (quoted_text "sso_system")])] ++ ("]" : cstr))]) ++
    (","%char :: member "scopeSpans" (("[{" : cstr) ++ member "spans" "["))).
Definition payload_close : cstr := "]}]}]}".

Definition span_head (s : otlp_span_t) : cstr :=
  "{"%char :: commas [member "traceId" (quoted_text (sp_trace_id s)); member "spanId" (quoted_text (sp_span_id s));
    member "name" (quoted_text (sp_name s)); member "kind" (print_d (sp_kind s));
    member "startTimeUnixNano" (quoted_text (print_llu (sp_start_time_ns s)));
    member "endTimeUnixNano" (quoted_text (print_llu (sp_end_time_ns s)));
    member "status" (object [member "code" (print_d (sp_status_code s))])].
(** [parent_id[0] != '\0'] *)
Definition has_parent (s : otlp_span_t) : bool := match sp_parent_id s with [] => false | _ => true end.
Definition span_parent (s : otlp_span_t) : cstr := ","%char :: member "parentSpanId" (quoted_text (sp_parent_id s)).

Fixpoint payload_spans (first : bool) (batch : list otlp_span_t) (b : cstr * Z) : outcome (cstr * Z) :=
  match batch with
  | [] => Ret b
  | s :: batch' =>
      b ← (if first then Ret b else payload_put "," b);
      b ← payload_put (span_head s) b;
      b ← (if has_parent s then payload_put (span_parent s) b else Ret b);
      b ← payload_put "}" b;
      payload_spans false batch' b
  end.

(** What is posted, and to where; [None] where nothing is sent. *)
Definition send_batch (malloc_ok : bool) (endpoint : cstr) (batch : list otlp_span_t) : outcome (option (cstr * cstr)) :=
  if bool_decide (batch = []) || bool_decide (endpoint = []) then Ret None
  else if negb malloc_ok then Ret None
  else
    b ← payload_put payload_open ([], 0);
    b ← payload_spans true batch b;
    b ← payload_put payload_close b;
    Ret (Some (endpoint, b.1)).

(* ------------------------------------------------------------------ *)
(** ** The threads *)

(** Where the worker is: before its critical section, about to send the
    batch it took with the value of [g_otlp_running] it saw, or returned. *)
Inductive worker_at := NotStarted | AtTop | Sending (batch : list otlp_span_t) (running : bool) | Returned.

(** [os_ending] holds the spans whose threads have seen the exporter
    running and not yet taken the mutex; [os_accepted] is every span put
    into the ring and [os_sent] every batch handed to [send_batch], in order. *)
Record otlp_sys := {
  os_queue : otlp_queue; os_ending : list otlp_span_t; os_worker : worker_at;
  os_accepted : list otlp_span_t; os_sent : list (list otlp_span_t)
}.
Definition otlp_sys_init : otlp_sys :=
  {| os_queue := otlp_queue_init; os_ending := []; os_worker := NotStarted; os_accepted := []; os_sent := [] |}.

Definition otlp_init (endpoint : option cstr) (s : otlp_sys) : otlp_sys :=
  match given endpoint with
  | None => s
  | Some e =>
      let q := set_endpoint e (os_queue s) in
      if g_otlp_running q
      then {| os_queue := q; os_ending := os_ending s; os_worker := os_worker s; os_accepted := os_accepted s; os_sent := os_sent s |}
      else {| os_queue := set_running true q; os_ending := os_ending s; os_worker := AtTop;
              os_accepted := os_accepted s; os_sent := os_sent s |}
  end.

(** The first critical section of [otlp_shutdown]; it then waits for [Returned]. *)
Definition otlp_shutdown (s : otlp_sys) : otlp_sys :=
  {| os_queue := set_running false (os_queue s); os_ending := os_ending s; os_worker := os_worker s;
     os_accepted := os_accepted s; os_sent := os_sent s |}.

Definition span_end_test (now : Z) (is_error : bool) (sp : otlp_span_t) (s : otlp_sys) : otlp_sys :=
  if g_otlp_running (os_queue s)
  then {| os_queue := os_queue s; os_ending := span_ended now is_error sp :: os_ending s; os_worker := os_worker s;
          os_accepted := os_accepted s; os_sent := os_sent s |}
  else s.
Definition span_end_store (sp : otlp_span_t) (before after : list otlp_span_t) (s : otlp_sys) : otlp_sys :=
  let '(stored, q) := span_enqueue sp (os_queue s) in
  {| os_queue := q; os_ending := before ++ after; os_worker := os_worker s;
     os_accepted := if stored then os_accepted s ++ [sp] else os_accepted s; os_sent := os_sent s |}.

(** One step of the worker; [None] where it has returned.  At the top,
    with fewer spans than a batch and the exporter running, it waits: a
    wait that times out tests the same condition again. *)
Definition otlp_worker (s : otlp_sys) : option otlp_sys :=
  match os_worker s with
  | AtTop =>
      if (g_queue_count (os_queue s) <? OTLP_BATCH_SIZE) && g_otlp_running (os_queue s) then Some s
      else
        let '(batch, q) := take_batch (Z.to_nat OTLP_BATCH_SIZE) (os_queue s) in
        Some {| os_queue := q; os_ending := os_ending s; os_worker := Sending batch (g_otlp_running q);
                os_accepted := os_accepted s; os_sent := os_sent s |}
  | Sending batch running =>
      Some {| os_queue := os_queue s; os_ending := os_ending s;
              os_worker := if negb running && bool_decide (batch = []) then Returned else AtTop;
              os_accepted := os_accepted s;
              os_sent := if bool_decide (batch = []) then os_sent s else os_sent s ++ [batch] |}
  | NotStarted | Returned => None
  end.

(** A process starts the exporter once. *)
Inductive otlp_step : otlp_sys → otlp_sys → Prop :=
| step_init endpoint s : os_worker s = NotStarted → otlp_step s (otlp_init endpoint s)
| step_shutdown s : otlp_step s (otlp_shutdown s)
| step_end_test now is_error sp s : otlp_step s (span_end_test now is_error sp s)
| step_end_store sp before after s : os_ending s = before ++ sp :: after → otlp_step s (span_end_store sp before after s)
| step_worker s s' : otlp_worker s = Some s' → otlp_step s s'.

Fixpoint worker_steps (n : nat) (s : otlp_sys) : otlp_sys :=
  match n with
  | O => s
  | S n' => match otlp_worker s with Some s' => worker_steps n' s' | None => s end
  end.

(* ------------------------------------------------------------------ *)
(** ** The context of a thread *)

Record otlp_trace_context_t := { tc_trace_id : cstr; tc_span_ids : list cstr; tc_depth : Z }.
Definition g_otlp_ctx : otlp_trace_context_t :=
  {| tc_trace_id := []; tc_span_ids := replicate (Z.to_nat OTLP_MAX_SPAN_DEPTH) []; tc_depth := 0 |}.

Section tls.
Context (rand : nat → Z).
Definition otlp_trace_init_tls (new_trace_id : option cstr) (calls : nat) (c : otlp_trace_context_t) : otlp_trace_context_t * nat :=
  match new_trace_id with
  | Some t => ({| tc_trace_id := take 32 t; tc_span_ids := tc_span_ids c; tc_depth := 0 |}, calls)
  | None => let '(t, calls) := otlp_generate_id rand 16 calls in
            ({| tc_trace_id := t; tc_span_ids := tc_span_ids c; tc_depth := 0 |}, calls)
  end.

Definition otlp_span_start_tls (name : cstr) (now : Z) (calls : nat) (c : otlp_trace_context_t) : otlp_span_t * nat * otlp_trace_context_t :=
  let parent := if (0 <? tc_depth c) && (tc_depth c <? OTLP_MAX_SPAN_DEPTH)
                then tc_span_ids c !! Z.to_nat (tc_depth c - 1) else None in
  let '(sp, calls) := otlp_span_start rand name (Some (tc_trace_id c)) parent now calls in
  (sp, calls,
   {| tc_trace_id := tc_trace_id c;
      tc_span_ids := if tc_depth c <? OTLP_MAX_SPAN_DEPTH
                     then <[Z.to_nat (tc_depth c) := take 16 (sp_span_id sp)]> (tc_span_ids c) else tc_span_ids c;
      tc_depth := tc_depth c + 1 |}).
End tls.

Definition otlp_span_end_tls (now : Z) (is_error : bool) (sp : otlp_span_t) (q : otlp_queue) (c : otlp_trace_context_t)
  : otlp_span_t * otlp_queue * otlp_trace_context_t :=
  (otlp_span_end now is_error sp q,
   {| tc_trace_id := tc_trace_id c; tc_span_ids := tc_span_ids c;
      tc_depth := if 0 <? tc_depth c then tc_depth c - 1 else tc_depth c |}).

(* ------------------------------------------------------------------ *)
(** ** The ring is a queue *)

Definition ring (q : otlp_queue) : list otlp_span_t :=
  map (λ k, nth (Z.to_nat ((g_queue_head q + k) mod OTLP_MAX_QUEUE)) (g_span_queue q) zero_span) (seqZ 0 (g_queue_count q)).

Record queue_wf (q : otlp_queue) : Prop := {
  qw_size : length (g_span_queue q) = Z.to_nat OTLP_MAX_QUEUE;
  qw_head : 0 ≤ g_queue_head q < OTLP_MAX_QUEUE;
  qw_count : 0 ≤ g_queue_count q ≤ OTLP_MAX_QUEUE;
  qw_tail : g_queue_tail q = (g_queue_head q + g_queue_count q) mod OTLP_MAX_QUEUE
}.

Lemma queue_init_wf : queue_wf otlp_queue_init.
Proof. constructor; by vm_compute. Qed.

Lemma ring_length q : queue_wf q → length (ring q) = Z.to_nat (g_queue_count q).
Proof. intros _. unfold ring. by rewrite length_map, length_seqZ. Qed.

Lemma ring_set_running b q : ring (set_running b q) = ring q.
Proof. done. Qed.
Lemma queue_wf_running b q : queue_wf q → queue_wf (set_running b q).
Proof. by intros []. Qed.
Lemma queue_wf_endpoint e q : queue_wf q → queue_wf (set_endpoint e q).
Proof. by intros []. Qed.

(** Two places of the ring at a distance below its size differ. *)
Lemma ring_places a i j n : 0 ≤ i < j → j < i + n → (a + i) mod n ≠ (a + j) mod n.
Proof.
  intros Hi Hj E. assert (H : (a + j - (a + i)) mod n = 0) by (rewrite Zminus_mod, E, Z.sub_diag; apply Z.mod_0_l; lia).
  rewrite Z.mod_small in H; lia.
Qed.

Lemma span_enqueue_ring s q :
  queue_wf q →
  let '(stored, q') := span_enqueue s q in
  queue_wf q' ∧ stored = (g_queue_count q <? OTLP_MAX_QUEUE) ∧ ring q' = ring q ++ (if stored then [s] else []).
Proof.
  intros [Hs Hh Hc Ht]. unfold span_enqueue. destruct (Z.ltb_spec (g_queue_count q) OTLP_MAX_QUEUE) as [Hlt|Hge].
  2: { by rewrite app_nil_r. }
  split_and!; [constructor; cbn| done |].
  - by rewrite length_insert.
  - done.
  - lia.
  - rewrite Ht, Zplus_mod_idemp_l. f_equal. lia.
  - unfold ring. cbn [g_queue_head g_queue_count g_span_queue].
    rewrite seqZ_app, map_app by lia. cbn [seqZ]. f_equal.
    + apply map_ext_in. intros k Hk%list_elem_of_In%elem_of_seqZ. rewrite !nth_lookup, list_lookup_insert_ne; [done|].
      rewrite Ht. pose proof (ring_places (g_queue_head q) k (g_queue_count q) OTLP_MAX_QUEUE ltac:(lia) ltac:(lia)).
      pose proof (Z.mod_pos_bound (g_queue_head q + k) OTLP_MAX_QUEUE ltac:(done)).
      pose proof (Z.mod_pos_bound (g_queue_head q + g_queue_count q) OTLP_MAX_QUEUE ltac:(done)). lia.
    + rewrite Z.add_0_l, seqZ_cons, (seqZ_nil _ (Z.pred 1)) by lia. cbn [map]. rewrite <- Ht, nth_lookup, list_lookup_insert_eq; [done|].
      rewrite Hs, Ht. pose proof (Z.mod_pos_bound (g_queue_head q + g_queue_count q) OTLP_MAX_QUEUE ltac:(done)). lia.
Qed.

Lemma ring_pop q :
  queue_wf q → 0 < g_queue_count q →
  let q' := {| g_span_queue := g_span_queue q; g_queue_head := (g_queue_head q + 1) mod OTLP_MAX_QUEUE;
               g_queue_tail := g_queue_tail q; g_queue_count := g_queue_count q - 1;
               g_otlp_running := g_otlp_running q; g_otlp_endpoint := g_otlp_endpoint q |} in
  queue_wf q' ∧ ring q = nth (Z.to_nat (g_queue_head q)) (g_span_queue q) zero_span :: ring q'.
Proof.
  intros [Hs Hh Hc Ht] H. split.
  - constructor; cbn; [done| |lia|].
    + apply Z.mod_pos_bound. done.
    + rewrite Ht, Zplus_mod_idemp_l. f_equal. lia.
  - unfold ring. cbn [g_queue_head g_queue_count g_span_queue]. rewrite seqZ_cons by lia. cbn [map].
    rewrite Z.add_0_r, Z.mod_small by lia. f_equal.
    replace (Z.succ 0) with (1 + 0) by lia. rewrite <- Z.sub_1_r, <- (fmap_add_seqZ 1 0), map_map.
    apply map_ext. intros k. do 2 f_equal. rewrite Zplus_mod_idemp_l. f_equal. lia.
Qed.

Lemma take_batch_ring n q :
  queue_wf q →
  let '(batch, q') := take_batch n q in
  queue_wf q' ∧ batch = take n (ring q) ∧ ring q' = drop n (ring q) ∧ g_otlp_running q' = g_otlp_running q.
Proof.
  revert q. induction n as [|n IH]; intros q Hq; cbn [take_batch]; [done|].
  destruct (Z.ltb_spec 0 (g_queue_count q)) as [Hc|Hc].
  - destruct (ring_pop q Hq Hc) as [Hq' ->]. specialize (IH _ Hq'). destruct (take_batch n _) as [batch q'].
    destruct IH as (? & -> & -> & ->). done.
  - assert (E : ring q = []) by (apply nil_length_inv; rewrite ring_length by done; lia). by rewrite E.
Qed.

(* ------------------------------------------------------------------ *)
(** ** The exporter *)

Definition in_flight (w : worker_at) : list otlp_span_t := match w with Sending batch _ => batch | _ => [] end.

Record sys_inv (s : otlp_sys) : Prop := {
  si_queue : queue_wf (os_queue s);
  si_order : os_accepted s = concat (os_sent s) ++ in_flight (os_worker s) ++ ring (os_queue s)
}.

Lemma otlp_worker_inv s s' : sys_inv s → otlp_worker s = Some s' → sys_inv s'.
Proof.
  intros [Hq Ho]. unfold otlp_worker. destruct (os_worker s) as [| |batch running|] eqn:Hw; [done| | |done].
  - destruct (_ && _); [by intros [= <-]; split; rewrite ?Hw|].
    pose proof (take_batch_ring (Z.to_nat OTLP_BATCH_SIZE) (os_queue s) Hq) as Ht.
    destruct (take_batch _ _) as [batch q]. destruct Ht as (Hq' & -> & Hr & _). intros [= <-].
    constructor; cbn [os_queue os_worker os_accepted os_sent in_flight]; [done|]. rewrite Hr, take_drop, Ho. done.
  - intros [= <-]. constructor; cbn [os_queue os_worker os_accepted os_sent]; [done|]. rewrite Ho. cbn [in_flight].
    destruct (decide (batch = [])) as [->|Hb].
    + rewrite bool_decide_eq_true_2 by done. by destruct running.
    + rewrite (bool_decide_eq_false_2 (batch = [])) by done. rewrite andb_false_r, concat_app. cbn. by rewrite app_nil_r, <- app_assoc.
Qed.

Lemma otlp_step_inv s s' : otlp_step s s' → sys_inv s → sys_inv s'.
Proof.
  intros Hstep [Hq Ho]. destruct Hstep as [e s Hw|s|now er sp s|sp before after s He|s s' Hs].
  - unfold otlp_init. destruct (given e); [|by split]. rewrite Hw in Ho.
    destruct (g_otlp_running _); (constructor; cbn [os_queue os_worker os_accepted os_sent];
      [auto using queue_wf_endpoint, queue_wf_running|]); rewrite ?Hw; done.
  - constructor; cbn [os_queue os_worker os_accepted os_sent otlp_shutdown]; [by apply queue_wf_running|done].
  - unfold span_end_test. destruct (g_otlp_running _); by constructor.
  - unfold span_end_store. pose proof (span_enqueue_ring sp (os_queue s) Hq) as H.
    destruct (span_enqueue sp (os_queue s)) as [stored q]. destruct H as (Hq' & _ & Hr).
    constructor; cbn [os_queue os_worker os_accepted os_sent]; [done|]. rewrite Hr, Ho.
    destruct stored; [by rewrite <- !app_assoc|by rewrite app_nil_r].
  - by apply (otlp_worker_inv s).
Qed.

(** Spans are sent in the order they ended (invariant): whatever the
    threads do, the spans accepted so far are the ones of the batches
    sent, of the batch about to be sent and of the ring, in that order;
    none is lost, sent twice or changed between. *)
Theorem otlp_in_order s :
  rtc otlp_step otlp_sys_init s →
  queue_wf (os_queue s) ∧ os_accepted s = concat (os_sent s) ++ in_flight (os_worker s) ++ ring (os_queue s).
Proof.
  intros H. assert (Hi : sys_inv s); [|by destruct Hi].
  assert (H0 : sys_inv otlp_sys_init) by (constructor; [apply queue_init_wf|done]).
  revert H0. induction H as [|a b c Hab _ IH]; [done|]. eauto using otlp_step_inv.
Qed.

Lemma worker_steps_returned n s : os_worker s = Returned → worker_steps n s = s.
Proof. intros H. destruct n; [done|]. cbn [worker_steps]. unfold otlp_worker. by rewrite H. Qed.

(** A round of a worker that has been told to stop *)
Lemma worker_round n s :
  queue_wf (os_queue s) → g_otlp_running (os_queue s) = false → os_worker s = AtTop →
  ∃ q, queue_wf q ∧ g_otlp_running q = false ∧ ring q = drop 128 (ring (os_queue s)) ∧
    worker_steps (S (S n)) s = worker_steps n
      {| os_queue := q; os_ending := os_ending s;
         os_worker := if bool_decide (take 128 (ring (os_queue s)) = []) then Returned else AtTop; os_accepted := os_accepted s;
         os_sent := if bool_decide (take 128 (ring (os_queue s)) = []) then os_sent s else os_sent s ++ [take 128 (ring (os_queue s))] |}.
Proof.
  intros Hq Hr Hw. cbn [worker_steps]. unfold otlp_worker at 1. rewrite Hw, Hr, andb_false_r.
  pose proof (take_batch_ring (Z.to_nat OTLP_BATCH_SIZE) (os_queue s) Hq) as Ht.
  destruct (take_batch _ _) as [batch q]. destruct Ht as (Hq' & -> & Hd & Hrun). rewrite Hr in Hrun.
  exists q. split_and!; [done|done|done|].
  cbn [otlp_worker os_worker os_queue os_ending os_accepted os_sent]. by rewrite Hrun.
Qed.

(** It sends everything that is in the ring and returns, in two steps for
    each batch and two more. *)
Lemma worker_drains n s :
  queue_wf (os_queue s) → g_otlp_running (os_queue s) = false → os_worker s = AtTop →
  (length (ring (os_queue s)) ≤ n * 128)%nat →
  let s' := worker_steps (2 * n + 2) s in
  os_worker s' = Returned ∧ concat (os_sent s') = concat (os_sent s) ++ ring (os_queue s) ∧ ring (os_queue s') = [].
Proof.
  revert s. induction n as [|n IH]; intros s Hq Hr Hw Hl.
  - destruct (worker_round 0 s Hq Hr Hw) as (q & _ & _ & Hd & E).
    assert (En : ring (os_queue s) = []) by (apply nil_length_inv; lia). cbv zeta. rewrite (E : worker_steps (2 * 0 + 2) s = _).
    cbn [worker_steps os_worker os_sent os_queue]. rewrite Hd, En, app_nil_r. done.
  - replace (2 * S n + 2)%nat with (S (S (2 * n + 2))) by lia.
    destruct (worker_round (2 * n + 2) s Hq Hr Hw) as (q & Hq' & Hrun & Hd & E). cbv zeta. rewrite E.
    destruct (decide (take 128 (ring (os_queue s)) = [])) as [Et|Et].
    + assert (En : ring (os_queue s) = []) by (destruct (ring (os_queue s)); done).
      rewrite worker_steps_returned by (cbn [os_worker]; by rewrite bool_decide_eq_true_2).
      cbn [os_worker os_sent os_queue]. rewrite bool_decide_eq_true_2, Hd, En, app_nil_r by done. done.
    + rewrite bool_decide_eq_false_2 by done. set (s1 := {| os_queue := q |}).
      destruct (IH s1) as (? & Hs & ?); [done|done|done| |split_and!; [done| |done]].
      { cbn [s1 os_queue]. rewrite Hd, length_drop. lia. }
      rewrite Hs. cbn [s1 os_sent os_queue]. rewrite Hd, concat_app. cbn [concat]. by rewrite app_nil_r, <- app_assoc, take_drop.
Qed.

(** A shutdown sends what was accepted (liveness): left alone, a stopped
    worker returns within eighteen steps and every accepted span has been
    sent, in order. *)
Theorem otlp_shutdown_flushes s :
  rtc otlp_step otlp_sys_init s → os_worker s = AtTop →
  let s' := worker_steps 18 (otlp_shutdown s) in
  os_worker s' = Returned ∧ concat (os_sent s') = os_accepted s ∧ ring (os_queue s') = [].
Proof.
  intros [Hq Ho]%otlp_in_order Hw. rewrite Hw in Ho. cbn [in_flight app] in Ho. rewrite Ho.
  apply (worker_drains 8 (otlp_shutdown s)); [by apply queue_wf_running|done|done|].
  cbn [os_queue otlp_shutdown]. rewrite ring_set_running, ring_length by done. destruct Hq as [_ _ Hc _].
  unfold OTLP_MAX_QUEUE in Hc. lia.
Qed.

(** The one second window does not exist: while the exporter runs and the
    ring holds fewer spans than a batch, the worker goes round its wait
    however long it is let run. *)
Theorem otlp_small_batch_waits n s :
  os_worker s = AtTop → g_otlp_running (os_queue s) = true → g_queue_count (os_queue s) < OTLP_BATCH_SIZE →
  worker_steps n s = s.
Proof.
  intros Hw Hr Hc. induction n as [|n IH]; [done|]. cbn [worker_steps]. unfold otlp_worker. rewrite Hw, Hr.
  destruct (Z.ltb_spec (g_queue_count (os_queue s)) OTLP_BATCH_SIZE); [done|lia].
Qed.

(** A span whose thread has seen the exporter running and takes the mutex
    after the worker has returned stays in the ring. *)
Definition sample_span : otlp_span_t := (otlp_span_start Z.of_nat "auth.login" None None 1 0).1.
Theorem otlp_late_span_lost :
  ∃ s, rtc otlp_step otlp_sys_init s ∧ os_worker s = Returned ∧
       ring (os_queue s) = [span_ended 2 false sample_span] ∧ os_sent s = [].
Proof.
  set (s1 := span_end_test 2 false sample_span (otlp_init (Some ("http://collector" : cstr)) otlp_sys_init)).
  set (s2 := worker_steps 2 (otlp_shutdown s1)).
  exists (span_end_store (span_ended 2 false sample_span) [] [] s2). split_and!; [|reflexivity..].
  apply (rtc_l _ _ (otlp_init (Some ("http://collector" : cstr)) otlp_sys_init)); [by apply step_init|].
  apply (rtc_l _ _ s1); [apply step_end_test|]. apply (rtc_l _ _ (otlp_shutdown s1)); [apply step_shutdown|].
  apply (rtc_l _ _ (worker_steps 1 (otlp_shutdown s1))); [by apply step_worker|].
  apply (rtc_l _ _ s2); [by apply step_worker|]. by apply rtc_once, step_end_store.
Qed.

(* ------------------------------------------------------------------ *)
(** ** Payloads *)

(** What a span made by this file holds *)
Record span_wf (s : otlp_span_t) : Prop := {
  sw_trace : (length (sp_trace_id s) ≤ 32)%nat; sw_span : (length (sp_span_id s) ≤ 16)%nat;
  sw_parent : (length (sp_parent_id s) ≤ 16)%nat; sw_name : (length (sp_name s) ≤ 63)%nat;
  sw_kind : 0 ≤ sp_kind s < 10; sw_status : 0 ≤ sp_status_code s < 10
}.

Lemma generate_id_length rand bytes calls : length (generate_id_loop rand bytes calls) = (2 * bytes)%nat.
Proof. revert calls. induction bytes as [|b IH]; intros calls; [done|]. cbn [generate_id_loop length]. rewrite IH. lia. Qed.

Lemma span_start_wf rand name trace parent now calls : span_wf (otlp_span_start rand name trace parent now calls).1.
Proof.
  unfold otlp_span_start, otlp_generate_id.
  destruct (given trace), (given parent); constructor; cbn -[generate_id_loop take]; rewrite ?length_take, ?generate_id_length; try lia; cbn; lia.
Qed.
Lemma span_ended_wf now e s : span_wf s → span_wf (span_ended now e s).
Proof. intros []. constructor; try done. cbn. destruct e; lia. Qed.

Lemma print_d_digit n : 0 ≤ n < 10 → (length (print_d n) ≤ 1)%nat.
Proof.
  intros H. unfold print_d, print_lld. destruct (Z.ltb_spec n 0); [lia|].
  pose proof (print_dec_loop_length (S (Z.to_nat (Z.log2 n))) 0 n [] ltac:(cbn; lia)) as L. cbn in L. apply L.
Qed.
Lemma print_llu_length n : (length (print_llu n) ≤ 20)%nat.
Proof.
  unfold print_llu. pose proof (u64_range n) as H.
  pose proof (print_dec_loop_length (S (Z.to_nat (Z.log2 (u64 n)))) 19 (u64 n) [] ltac:(cbn in *; lia)) as L. cbn in L. apply L.
Qed.

(** A span takes at most 400 bytes, so a batch is far from the end of the
    buffer. *)
Lemma span_head_length s : span_wf s → (length (span_head s) ≤ 300)%nat.
Proof.
  intros [Ht Hs Hp Hn Hk Hc]. unfold span_head, object, member, quoted_text. cbn [commas].
  pose proof (print_llu_length (sp_start_time_ns s)). pose proof (print_llu_length (sp_end_time_ns s)).
  pose proof (print_d_digit _ Hk). pose proof (print_d_digit _ Hc).
  repeat (rewrite ?length_app; cbn [length list_ascii_of_string]). lia.
Qed.
Lemma span_parent_length s : span_wf s → (length (span_parent s) ≤ 60)%nat.
Proof.
  intros []. unfold span_parent, member, quoted_text. repeat (rewrite ?length_app; cbn [length list_ascii_of_string]). lia.
Qed.

(** The text of a span and of a payload *)
Definition span_text (s : otlp_span_t) : cstr :=
  span_head s ++ (if has_parent s then span_parent s else []) ++ ("}" : cstr).
Definition payload_text (batch : list otlp_span_t) : cstr := payload_open ++ commas (map span_text batch) ++ payload_close.

Definition whole (t : cstr) : cstr * Z := (t, Z.of_nat (length t)).
Lemma payload_put_whole t u : Z.of_nat (length t + length u) < PAYLOAD → payload_put u (whole t) = Ret (whole (t ++ u)).
Proof.
  intros H. unfold payload_put, whole. destruct (Z.ltb_spec PAYLOAD (Z.of_nat (length t))); [lia|].
  rewrite Nat2Z.id, take_ge by lia. rewrite (take_ge u) by lia. rewrite length_app. do 2 f_equal. lia.
Qed.

Lemma span_texts_length batch : Forall span_wf batch → (length (commas (map span_text batch)) ≤ 400 * length batch)%nat.
Proof.
  induction 1 as [|s batch Hs Hb IH]; [done|]. cbn [map]. pose proof (span_head_length s Hs). pose proof (span_parent_length s Hs).
  assert (Ht : (length (span_text s) ≤ 361)%nat).
  { unfold span_text. rewrite !length_app. destruct (has_parent s); cbn [length list_ascii_of_string]; lia. }
  destruct batch as [|s' batch]; [cbn [map commas length]; lia|].
  rewrite commas_cons, length_app by done. cbn [length] in *. lia.
Qed.

Lemma payload_spans_whole first batch t :
  Forall span_wf batch → Z.of_nat (length t) + 400 * Z.of_nat (length batch) < PAYLOAD →
  payload_spans first batch (whole t) =
  Ret (whole (t ++ (if first || bool_decide (batch = []) then [] else ("," : cstr)) ++ commas (map span_text batch))).
Proof.
  intros Hb. revert first t. induction Hb as [|s batch Hs Hb IH]; intros first t Hl; cbn [payload_spans].
  { by rewrite orb_true_r, app_nil_r. }
  pose proof (span_head_length s Hs). pose proof (span_parent_length s Hs). cbn [length] in Hl.
  assert (Hcomma : (if first then Ret (whole t) else payload_put "," (whole t)) =
                   Ret (whole (t ++ (if first || bool_decide (s :: batch = []) then [] else ("," : cstr))))).
  { destruct first; [by rewrite app_nil_r|]. apply payload_put_whole. cbn. lia. }
  rewrite Hcomma, outcome_bind_Ret. set (c := if _ || _ then _ else _).
  assert (Hc : (length c ≤ 1)%nat) by (unfold c; destruct first; cbn; lia).
  rewrite payload_put_whole, outcome_bind_Ret by (rewrite length_app; lia).
  set (p := if has_parent s then span_parent s else []).
  assert (Hparent : ∀ u, Z.of_nat (length u) + 61 < PAYLOAD →
    (if has_parent s then payload_put (span_parent s) (whole u) else Ret (whole u)) = Ret (whole (u ++ p))).
  { intros u Hu. unfold p. destruct (has_parent s); [|by rewrite app_nil_r]. apply payload_put_whole. lia. }
  assert (Hp : (length p ≤ 60)%nat) by (unfold p; destruct (has_parent s); cbn [length]; lia).
  rewrite Hparent, outcome_bind_Ret by (rewrite !length_app; lia).
  rewrite payload_put_whole, outcome_bind_Ret by (rewrite !length_app; cbn [length list_ascii_of_string]; lia).
  rewrite IH by (rewrite !length_app; cbn [length list_ascii_of_string]; lia). do 2 f_equal.
  rewrite <- !app_assoc. do 2 f_equal. cbn [map]. destruct batch as [|s' batch].
  - done.
  - cbn [orb]. rewrite bool_decide_eq_false_2, commas_cons by done. unfold span_text at 2. fold p. by rewrite <- !app_assoc.
Qed.

(** A batch is posted whole (bounds): the payload of a batch the worker
    takes never reaches the end of its buffer, so no count runs past it
    and the text is not cut. *)
Theorem send_batch_whole endpoint batch :
  endpoint ≠ [] → batch ≠ [] → Forall span_wf batch → Z.of_nat (length batch) ≤ OTLP_BATCH_SIZE →
  send_batch true endpoint batch = Ret (Some (endpoint, payload_text batch)).
Proof.
  intros He Hb Hw Hl. unfold send_batch. rewrite !bool_decide_eq_false_2 by done. cbn [orb negb].
  assert (Ho : (length payload_open ≤ 200)%nat) by (vm_compute; lia). unfold OTLP_BATCH_SIZE in Hl.
  assert (HP : PAYLOAD = 1048576) by reflexivity.
  change ([], 0) with (whole []). rewrite payload_put_whole, outcome_bind_Ret by (cbn [length]; lia). cbn [app].
  rewrite payload_spans_whole, outcome_bind_Ret by (done || lia). cbn [orb app].
  rewrite payload_put_whole, outcome_bind_Ret.
  - cbn [whole fst]. unfold payload_text. by rewrite <- app_assoc.
  - rewrite length_app. pose proof (span_texts_length batch Hw). cbn [length payload_close list_ascii_of_string]. lia.
Qed.
Lemma send_batch_whole_witness :
  send_batch true "http://collector" [span_ended 2 false sample_span] =
  Ret (Some ("http://collector" : cstr, payload_text [span_ended 2 false sample_span])).
Proof.
  apply send_batch_whole; [done|done| |done]. constructor; [|constructor]. apply span_ended_wf, span_start_wf.
Defined.

(* ------------------------------------------------------------------ *)
(** ** Nested spans

    The context of a thread stands for the list of the ids of the spans
    that are open, innermost first; only the outermost sixteen are kept. *)
Record ctx_stack (c : otlp_trace_context_t) (open : list cstr) : Prop := {
  cs_depth : tc_depth c = Z.of_nat (length open);
  cs_size : length (tc_span_ids c) = Z.to_nat OTLP_MAX_SPAN_DEPTH;
  cs_ids : ∀ i, (i < length open)%nat → (i < 16)%nat → tc_span_ids c !! i = reverse open !! i
}.

Lemma init_tls_stack rand t calls c : length (tc_span_ids c) = Z.to_nat OTLP_MAX_SPAN_DEPTH →
  ctx_stack (otlp_trace_init_tls rand t calls c).1 [].
Proof. intros H. unfold otlp_trace_init_tls. destruct t; (constructor; [done|done|intros i Hi; inversion Hi]). Qed.

Lemma ctx_stack_top c id open :
  ctx_stack c (id :: open) → (length open < 15)%nat → tc_span_ids c !! Z.to_nat (tc_depth c - 1) = Some id.
Proof.
  intros [Hd Hs Hi] Hl. cbn [length] in *. replace (Z.to_nat (tc_depth c - 1)) with (length open) by lia.
  rewrite Hi by lia. rewrite reverse_cons, lookup_app_r, length_reverse, Nat.sub_diag by (rewrite length_reverse; lia). done.
Qed.

Lemma span_id_length rand name trace parent now calls :
  length (sp_span_id (otlp_span_start rand name trace parent now calls).1) = 16%nat.
Proof. unfold otlp_span_start, otlp_generate_id. destruct (given trace); cbn -[generate_id_loop]; apply (generate_id_length rand 8). Qed.

(** The parent a new span is to have *)
Definition expected_parent (open : list cstr) : cstr :=
  match open with id :: _ => if (length open <? 16)%nat then id else [] | [] => [] end.

Lemma parent_expected c open :
  ctx_stack c open → Forall (λ id, length id = 16%nat) open →
  match given (if (0 <? tc_depth c) && (tc_depth c <? OTLP_MAX_SPAN_DEPTH) then tc_span_ids c !! Z.to_nat (tc_depth c - 1) else None) with
  | Some p => take 16 p | None => [] end = expected_parent open.
Proof.
  intros Hc Ho. pose proof (cs_depth _ _ Hc) as Hd. unfold OTLP_MAX_SPAN_DEPTH. destruct open as [|id open].
  { rewrite Hd. done. }
  cbn [expected_parent length] in *. apply Forall_cons in Ho as [Hid _].
  destruct (Z.ltb_spec 0 (tc_depth c)); [|lia].
  destruct (Z.ltb_spec (tc_depth c) 16), (Nat.ltb_spec (S (length open)) 16); try lia; cbn [andb]; [|done].
  rewrite (ctx_stack_top c id open) by (done || lia). destruct id; [done|]. cbn [given]. by rewrite take_ge by lia.
Qed.

Lemma ctx_stack_push c open t id :
  ctx_stack c open → length id = 16%nat →
  ctx_stack {| tc_trace_id := t;
     tc_span_ids := if tc_depth c <? OTLP_MAX_SPAN_DEPTH then <[Z.to_nat (tc_depth c) := take 16 id]> (tc_span_ids c) else tc_span_ids c;
     tc_depth := tc_depth c + 1 |} (id :: open).
Proof.
  intros [Hd Hs Hi] Hid. rewrite (take_ge id) by lia. unfold OTLP_MAX_SPAN_DEPTH in *.
  constructor; cbn [tc_depth tc_span_ids length].
  - lia.
  - destruct (_ <? _); [by rewrite length_insert|done].
  - intros i Hi1 Hi2. rewrite reverse_cons. destruct (decide (i = length open)) as [->|Hne].
    + rewrite lookup_app_r, length_reverse, Nat.sub_diag by (rewrite length_reverse; lia).
      destruct (Z.ltb_spec (tc_depth c) 16); [|lia]. replace (Z.to_nat (tc_depth c)) with (length open) by lia.
      by rewrite list_lookup_insert_eq by lia.
    + rewrite lookup_app_l by (rewrite length_reverse; lia).
      destruct (_ <? _); [rewrite list_lookup_insert_ne by lia|]; apply Hi; lia.
Qed.

Lemma ctx_stack_pop c id open now err sp q :
  ctx_stack c (id :: open) → ctx_stack (otlp_span_end_tls now err sp q c).2 open.
Proof.
  intros [Hd Hs Hi]. cbn [length] in *. constructor; cbn [otlp_span_end_tls snd tc_depth tc_span_ids].
  - destruct (Z.ltb_spec 0 (tc_depth c)); lia.
  - done.
  - intros i H1 H2. rewrite Hi by lia. by rewrite reverse_cons, lookup_app_l by (rewrite length_reverse; lia).
Qed.

(** Spans nest (refinement): below sixteen open spans of a thread, a new
    span has the innermost open span as its parent and the trace of the
    context, and becomes the innermost one; ending it gives the context
    of before back. *)
Theorem span_tls_nests rand name now calls c open now' err q :
  ctx_stack c open → Forall (λ id, length id = 16%nat) open → tc_trace_id c ≠ [] → (length (tc_trace_id c) ≤ 32)%nat →
  let '(sp, calls', c') := otlp_span_start_tls rand name now calls c in
  sp_trace_id sp = tc_trace_id c ∧ sp_parent_id sp = expected_parent open ∧
  ctx_stack c' (sp_span_id sp :: open) ∧ Forall (λ id, length id = 16%nat) (sp_span_id sp :: open) ∧
  tc_trace_id c' = tc_trace_id c ∧ ctx_stack (otlp_span_end_tls now' err sp q c').2 open.
Proof.
  intros Hc Ho Ht Hl. unfold otlp_span_start_tls.
  pose proof (parent_expected c open Hc Ho) as Hpe. set (parent := if (0 <? tc_depth c) && _ then _ else None) in *.
  pose proof (span_id_length rand name (Some (tc_trace_id c)) parent now calls) as Hid.
  assert (Hsp : sp_trace_id (otlp_span_start rand name (Some (tc_trace_id c)) parent now calls).1 = tc_trace_id c ∧
                sp_parent_id (otlp_span_start rand name (Some (tc_trace_id c)) parent now calls).1 = match given parent with Some p => take 16 p | None => [] end).
  { unfold otlp_span_start, otlp_generate_id. destruct (tc_trace_id c) as [|a t]; [done|]. cbn [given fst sp_trace_id sp_parent_id].
    split; [by apply take_ge|done]. }
  destruct Hsp as [Htr Hpa]. destruct (otlp_span_start _ _ _ _ _ _) as [sp calls']. cbn [fst] in *.
  assert (Hst : ctx_stack {| tc_trace_id := tc_trace_id c;
     tc_span_ids := if tc_depth c <? OTLP_MAX_SPAN_DEPTH then <[Z.to_nat (tc_depth c) := take 16 (sp_span_id sp)]> (tc_span_ids c) else tc_span_ids c;
     tc_depth := tc_depth c + 1 |} (sp_span_id sp :: open)) by by apply ctx_stack_push.
  split_and!; [done| |done|by constructor|done|].
  - by rewrite Hpa.
  - by apply (ctx_stack_pop _ (sp_span_id sp)).
Qed.

(** Where no trace was set for the thread, every span starts a trace of
    its own, also one inside another: the parent it names is in another
    trace. *)
Theorem span_tls_own_trace rand name now calls c :
  tc_trace_id c = [] →
  let '(sp, _, c') := otlp_span_start_tls rand name now calls c in
  sp_trace_id sp = generate_id_loop rand 16 calls ∧ tc_trace_id c' = [].
Proof.
  intros H. unfold otlp_span_start_tls. rewrite H. cbn. done.
Qed.
Lemma span_tls_own_trace_witness :
  let '(outer, n, c) := otlp_span_start_tls Z.of_nat "token.verify" 1 0 g_otlp_ctx in
  let '(inner, _, _) := otlp_span_start_tls Z.of_nat "perm.evaluate" 2 n c in
  sp_parent_id inner = sp_span_id outer ∧ sp_trace_id inner ≠ sp_trace_id outer.
Proof.
  pose proof (span_tls_own_trace Z.of_nat "token.verify" 1 0 g_otlp_ctx eq_refl) as H.
  vm_compute. split; [reflexivity|discriminate].
Defined.
